(* ===== verification/_CoqProject ===== *)
-Q . S2P
Prelude.v
Json.v
Base64.v
Storage.v
ReplayWindow.v
RateLimit.v
EventLoop.v
Presence.v
Mailbox.v
RoomMessage.v
VersionFloor.v
ReplayEvidence.v
Vault.v
CallState.v
CallSignaling.v
DeviceList.v
Lifecycle.v
LifecycleStore.v
ContactRegistry.v
Trust.v
Groups.v
DeviceAuthority.v
Rooms.v
Messages.v
Sessions.v
Routing.v
Sockets.v
Delivery.v
Multiplexed.v
Listeners.v
OwnershipSafety.v
MuxConnection.v
MuxSafety.v
SecureVault.v
VaultSafety.v
Calls.v
CallSafety.v
CallRestart.v
Ratchet.v
RatchetSafety.v
RatchetInvariant.v
PublicBundle.v
Outbox.v
Attachments.v
FileProtocol.v
FileWorkflow.v
FileReceipt.v
OutboxSafety.v
OutboxKeeping.v
Sending.v
Idle.v
SendSafety.v
Introduction.v
Inbound.v
InboundSafety.v
FileLedger.v
FileSafety.v
SyncProtocol.v
SyncStore.v
SyncSafety.v
Recovery.v
RecoverySafety.v
