(* ===== verification/Prelude.v ===== *)
(** * K3NCRYPT: a verification development for the TypeScript code

    K3NCRYPT is an end-to-end encrypted messenger. Its TypeScript code has three parts: the relay
    ([backend/]: rooms, invitations, pre-keys, routing, offline mailbox, device trust, admission limits), the client
    library ([service/src/]: conversations over an Olm ratchet, message frames, device lists and their lifecycle, contact
    identities, groups, calls, synchronisation between devices, over an encrypted local storage), and the web client's own records
    ([client/src/product/]: saved messages, saved conversations). The ratchet and the other ciphers are a Rust library
    compiled to WebAssembly and the browser's WebCrypto; they are not part of the code modelled here.

    ** How the parts fit

    The library's components keep their records in one storage port ([Storage], a class with laws and an in-memory
    instance), which the browser implements by an encrypted vault ([SecureVault]). A device list ([DeviceList]) is changed only through the lifecycle service ([Lifecycle]), proved against
    an interface that [LifecycleStore] discharges over the storage. The trust enforcer ([Trust]) reads the same
    persistence and gates calls, groups and synchronisation; [SyncProtocol] states what it needs of it as a class,
    with the enforcer as instance. [SyncStore] composes the transfer of [SyncProtocol] with the storage and writes
    contact records ([ContactRegistry]) and lifecycle records ([LifecycleStore]); [Recovery] ends one device list and begins another. On the relay, [Rooms] owns rooms and
    pre-keys, [Routing] binds the addresses of a room to devices of [DeviceAuthority], [Mailbox] holds messages for
    absent peers, and [Sockets], [Delivery], [Multiplexed] and [Listeners] serve the connections: their handlers reach those
    stores only through the class [RelayServices], so what is proved of them holds for every behaviour of the stores.
    [FileLedger] accounts for encrypted files whose context, manifest and chunks [Attachments] encodes and
    whose references [FileProtocol] publishes, [Presence] and [RateLimit] admit sockets.

    A conversation of the client keeps an Olm session in memory and in the storage ([Ratchet], over the accesses of [Vault]).
    [Sending] encrypts a message and puts it into the outbox in one swap with the session, [Outbox] submits the queue and
    follows what the relay reports, [Introduction] announces a new participant, [Inbound] decrypts, decides and stores what is
    received in one swap with the session and the replay evidence ([ReplayEvidence]). [MuxConnection] carries the frames of all
    conversations over one authenticated socket: the counterpart, on the client, of the relay's [Multiplexed].

    ** Files

    - [Prelude] (this file): errors and state ([res], [M]), numbers, strings, lists, sorting, automation;
      [Json]: the values, printing and parsing of JSON, with [parse_stringify]; [Base64]: base64url.
    - [Storage]: [core/contracts.ts], the storage port. Every writer of the storage is a compare-and-swap. [SecureVault]:
      [storage/secureVault.ts] and [storage/persistence.ts], its encrypted implementation, and [VaultSafety], that a swap of the vault is
      the atomic step the port promises and that a secret opens what it was set for.
    - Messages on the wire: [RoomMessage] ([crypto/roomMessageV1.ts]), [VersionFloor]
      ([crypto/roomMessageVersionFloor.ts]), [ReplayWindow] ([utils/replayGuard.ts]).
    - Conversations ([crypto/modernConversation.ts], [crypto/vodozemacRuntime.ts]): [Vault] (accesses that fail or whose outcome is
      unknown, with other tabs in between), [Ratchet] (the session runtime), [PublicBundle] (pre-key bundles, conversation mode),
      [Outbox], [Sending], [Introduction], [Inbound], [ReplayEvidence]; the theorems: [RatchetSafety] and [RatchetInvariant] on the
      runtime, [OutboxSafety] and [OutboxKeeping] on the queue, [SendSafety] and [InboundSafety] on a message from end to end, the last
      two by way of [Idle], which says which steps leave the guarded records alone.
    - Calls: [CallState] (sessions, permissions, event queue), [CallSignaling] (digests, delivery gate, replay claims), [Calls]
      ([calls/composition.ts], [authenticatedTransport.ts]: all of it together on the event loop), with the theorems in [CallSafety]
      and [CallRestart].
    - Devices: [DeviceList], [Lifecycle], [LifecycleStore], [Trust]; contacts: [ContactRegistry]; groups: [Groups].
    - Synchronisation: [SyncProtocol], [SyncStore], and the theorems about both in [SyncSafety]. Recovery of an account
      ([service/src/recovery/]): [Recovery], over [LifecycleStore] and [Vault]; its theorems in [RecoverySafety].
    - Files: [Attachments] (contexts, manifests, sealed chunks), [FileProtocol] (references, progress), [FileLedger]
      (the relay's ledger and its contract), and the theorems about its calls in [FileSafety]; [FileWorkflow]
      ([files/workflow.ts]: sending, retrying, receiving and cancelling on the event loop), and its theorems in [FileReceipt].
    - Relay: [Rooms], [Routing], [Mailbox], [DeviceAuthority], [RateLimit], [Presence]; its connections ([backend/socket.io/]): [EventLoop]
      (asynchronous handlers on one event loop), [Sockets] (what is kept in memory; ownership of addresses), [Delivery]
      (authorization, delivery loops), [Multiplexed] and [Listeners] (the handlers of the two transports), and the theorem about
      every interleaving of them in [OwnershipSafety].
    - The client's socket ([service/src/transports/multiplexedRelayConnection.ts]): [MuxConnection]; its theorems, by rely and guarantee over
      the same event loop, in [MuxSafety].
    - Web client: [Messages], [Sessions].

    Every definition that models code carries, in the comment before it, the file under src/ and the lines it
    translates. A definition without such a comment is a helper of the one after it, or belongs to a specification.

    ** How the code is represented

    A [throw] is [Err message], with the message of the source; code that mutates is a function of the state ([M S A])
    that keeps the state it reached when it throws. A value of unknown type ([unknown], parsed JSON) is a [jsval]; an
    object whose extra fields matter stays the list of its fields in order. A [number] the code only uses as an integer
    is a [Z], with the code's own [Number.isSafeInteger] checks; strings are code units up to U+00FF. A stored record or
    an encoded package is the text the code encodes in UTF-8, and lengths in bytes are computed on that text. The
    clock, random values and what other processes do are parameters: [now] or [clock i] for the readings of one call,
    [others n] for what other writers of a shared store do before its [n]-th access (any function that keeps the
    invariant the theorem names). SHA-256, HMAC, Ed25519, the ratchet and WebCrypto are parameters; nothing is assumed
    about them except where a theorem names it (a digest theorem names the absence of the collision it would need).
    A Mongo collection is a finite map with its unique keys; a transaction is one atomic step that may abort.

    On the client, an operation runs under the lock of its tab, but any access to the storage is preceded by what other tabs do
    to it ([others]), may fail, and may fail after it was carried out; the assumption that other tabs respect the lock of a
    conversation is a named hypothesis ([sessions_locked], [locked], [outbox_locked]). Reads that the code starts together
    ([Promise.all]) are made one after the other, an access to the registry, the floor or the replay pages is one step. On the
    relay, every [await] is a suspension, at which any other handler, timer, disconnection or change of the stores may come in
    between ([EventLoop]). Diagnostics and callbacks of the user interface are not modelled.

    Recursion is structural except for [Json.parse_val], whose fuel is twice the length of the text plus two, enough by
    [Json.need_le_length]; retry loops ([Messages.attempts], [Sessions.mutate_loop], [Routing.transact], [FileLedger.atomic_attempts]) have the
    attempt bounds of the source. The relay's delivery loops run as long as messages arrive: their bound [rounds] is arbitrary and a
    loop that reaches it never resumes, so every finite run of the code is one of the model for some bound; so do the loops of
    [MuxConnection] over its map of rooms and of [Calls] over its set of listeners ([bound]).

    ** What the theorems show

    - Encodings: frames, sync packages, file references, manifests and canonical JSON texts decode to what was encoded, decoders accept only the
      declared types, and equal digests of call signals mean equal signals.
    - Safety of state: revocation is permanent, epochs and checkpoints only move forward, a conversation or a device
      record only advances, revoked addresses are dead for ever, a completed transfer is exact, one-time keys,
      invitations, proofs, signals and sync packages are used at most once - over whole histories of operations and
      with other writers in between.
    - Conversations: the session in memory is the stored one; a message is encrypted once and released only with its record; a
      returned identifier means that the message is durable in the outbox under the identities it is bound to; the outbox loses,
      reorders and alters nothing, and submits only what may be sent; an accepted message is stored once, with its evidence.
    - Recovery: the identity of an account is replaced as a whole or not at all, an archive begins at most one replacement; and a
      defect: after a reload a pending replacement cannot be rejected.
    - Connections: an address of a room has one owner, whatever interleaves; on the client, a room holds a lease only on the
      socket that is connected and authenticated, a message is reported as accepted only after its handler accepted it, and
      every frame of a known room is answered.
    - Calls: whatever interleaves, the negotiator is given media signals only of calls that were accepted in time, by the user or by
      an authentic signal of the contact. Two defects: the contact can accept its own invitation, and a call that is restarted
      after the deadline of its invitation is stuck ([CallRestart]).
    - Files: whatever the relay answers and whatever interleaves, a download that the client finishes is the file the sender sealed,
      and a reference is sent only for a file that is complete; a sealed chunk opens only at its place; every call on the ledger is a sequence of allowed changes, accounts
      stay within their quotas, only senders write and only recipients download.
    - Authority: only active authorised devices change a device list, only authorised members change a group, only the
      user marks a contact verified, and synchronisation never raises the trust in a contact.
    - Bounds: rate limiter, mailbox and replay window hold their limits; the mailbox is a FIFO queue.
    - Refinement and equivalence: a swap of the encrypted vault is one atomic step on plaintexts; the replay guard answers like its specification; the stored lifecycle refines the
      atomic commit of the service's interface; the event queue of calls is a sequential run of its events.
    - Errors: trust events fail closed; damaged history is quarantined, not lost; and two defects: an imported record
      makes the sync store unreadable after the next change of the device list ([SyncSafety]), and a manifest whose
      name was cut after a dot or a space is refused by its own decoder ([Attachments]).

    ** Not modelled

    React components and contexts, HTTP glue, the legacy Socket.IO client, WebRTC media, the requests of IndexedDB, logging
    and configuration (input and output); the WebAssembly bindings (generated). Of the logic: of modern conversations, connecting,
    device-control frames, and the renewal and audit of sessions; the library facade ([sdk.ts]), media negotiation.
    The Mongo branches of functions that also have an in-memory branch. The revision of an account's
    ledger restarts after its time-to-live purge; [FileSafety] lets that purge happen between calls, not inside one. Floating-point rounding,
    strings beyond U+00FF and re-parsing fractional numbers are outside the models ([plain] names the values concerned). *)
From Stdlib Require Export ZArith Lia Ascii String Sorted.
From stdpp Require Export base tactics option list gmap sets strings.

#[global] Set Default Goal Selector "!".
#[global] Open Scope Z_scope.
#[global] Open Scope list_scope.

Create HintDb k3.

(** ** Results of code that may throw

    [Err msg] is a thrown [Error] with its message; [Ok a] is a normal return. *)
Inductive res (A : Type) : Type :=
| Ok (a : A)
| Err (msg : string).
Arguments Ok {A} _.
Arguments Err {A} _.

#[export] Instance res_ret : MRet res := fun A => Ok.
#[export] Instance res_bind : MBind res := fun A B k m =>
  match m with Ok a => k a | Err e => Err e end.
#[export] Instance res_fmap : FMap res := fun A B f m =>
  match m with Ok a => Ok (f a) | Err e => Err e end.

Definition is_ok {A} (r : res A) : bool := match r with Ok _ => true | Err _ => false end.

(** [if (b) throw new Error(msg)] *)
Definition throw_if (b : bool) (msg : string) : res unit := if b then Err msg else Ok tt.

(** [value ?? fail(msg)] on an optional value. *)
Definition require {A} (o : option A) (msg : string) : res A :=
  match o with Some a => Ok a | None => Err msg end.

(** [try { m } catch { throw new Error(msg) }] *)
Definition rethrow {A} (m : res A) (msg : string) : res A :=
  match m with Ok a => Ok a | Err _ => Err msg end.

Lemma throw_if_false b msg : b = false → throw_if b msg = Ok tt.
Proof. by intros ->. Qed.

Lemma Ok_inj {A} (a b : A) : Ok a = Ok b → a = b.
Proof. by intros [=]. Qed.

Section res_lemmas.
Context {A B : Type}.

Lemma bind_ok (m : res A) (k : A → res B) y :
  m ≫= k = Ok y ↔ ∃ x, m = Ok x ∧ k x = Ok y.
Proof. destruct m; simpl; [naive_solver|]. split; [discriminate|by intros (?&?&?)]. Qed.

(** Running one step of a computation that succeeds. *)
Lemma res_step (m : res A) (k : A → res B) x y : m = Ok x → k x = y → m ≫= k = y.
Proof. by intros ->. Qed.

Lemma throw_if_ok b msg u : throw_if b msg = Ok u ↔ b = false.
Proof. destruct b, u; simpl; naive_solver. Qed.

Lemma require_ok (o : option A) msg a : require o msg = Ok a ↔ o = Some a.
Proof. destruct o; simpl; naive_solver. Qed.

Lemma rethrow_ok (m : res A) msg a : rethrow m msg = Ok a ↔ m = Ok a.
Proof. destruct m; simpl; naive_solver. Qed.
End res_lemmas.

(** Destructs a hypothesis [m = Ok y] whose left side is built with the operations above. *)
Ltac res_inv H :=
  lazymatch type of H with
  | mbind _ _ = Ok _ =>
      let x := fresh "x" in let H1 := fresh H in
      apply bind_ok in H as (x & H1 & H); res_inv H1; res_inv H
  | throw_if _ _ = Ok _ => apply throw_if_ok in H
  | require _ _ = Ok _ => apply require_ok in H
  | rethrow _ _ = Ok _ => apply rethrow_ok in H
  | mret _ = Ok _ => apply Ok_inj in H
  | Ok _ = Ok _ => apply Ok_inj in H
  | Err _ = Ok _ => discriminate H
  | _ => idtac
  end.

(** ** Stateful code that may throw: the state reached is kept when it throws. *)
Definition M (S A : Type) : Type := S → res A * S.
#[export] Instance M_ret {S} : MRet (M S) := fun A a s => (Ok a, s).
#[export] Instance M_bind {S} : MBind (M S) := fun A B k m s =>
  match m s with
  | (Ok a, s') => k a s'
  | (Err e, s') => (Err e, s')
  end.
Definition lift {S A} (r : res A) : M S A := fun s => (r, s).
Definition gets {S A} (f : S → A) : M S A := fun s => (Ok (f s), s).
Definition observe {S A} (f : S → res A) : M S A := fun s => (f s, s).
Definition put {S} (s' : S) : M S unit := fun _ => (Ok tt, s').
Definition modify {S} (f : S → S) : M S unit := fun s => (Ok tt, f s).
Definition throw {S A} (msg : string) : M S A := fun s => (Err msg, s).

Lemma M_bind_ok {S A B} (m : M S A) (k : A → M S B) s y s' :
  (m ≫= k) s = (Ok y, s') ↔ ∃ x s1, m s = (Ok x, s1) ∧ k x s1 = (Ok y, s').
Proof.
  unfold mbind, M_bind. destruct (m s) as [[x|e] s1]; split.
  - intros H. by exists x, s1.
  - by intros (x' & s1' & [= -> ->] & H).
  - discriminate.
  - by intros (x' & s1' & ? & H).
Qed.

(** Every run of a sequence either gets past its first computation or throws there. *)
Lemma bind_cases {S A B} (m : M S A) (k : A → M S B) s x s' :
  (m ≫= k) s = (x, s') → (∃ a s1, m s = (Ok a, s1) ∧ k a s1 = (x, s')) ∨ ∃ e, m s = (Err e, s') ∧ x = Err e.
Proof. unfold mbind, M_bind. destruct (m s) as [[a|e] s1]; [|intros [= <- <-]]; eauto. Qed.

(** Running a step that leaves the state alone. *)
Lemma lift_bind {S A B} (r : res A) (k : A → M S B) s :
  (lift r ≫= k) s = match r with Ok x => k x s | Err e => (Err e, s) end.
Proof. by destruct r. Qed.
Lemma observe_bind {S A B} (f : S → res A) (k : A → M S B) s :
  (observe f ≫= k) s = match f s with Ok x => k x s | Err e => (Err e, s) end.
Proof. unfold observe, mbind, M_bind. by destruct (f s). Qed.
Lemma mret_bind {S A B} (x : A) (k : A → M S B) s : (mret x ≫= k) s = k x s.
Proof. done. Qed.
Lemma gets_bind {S A B} (f : S → A) (k : A → M S B) s : (gets f ≫= k) s = k (f s) s.
Proof. done. Qed.

Lemma lift_ok {P A} (r : res A) (p p' : P) x : lift r p = (Ok x, p') ↔ r = Ok x ∧ p' = p.
Proof. unfold lift. split; [by intros [= -> ->]|by intros [-> ->]]. Qed.

Lemma observe_ok {P A} (f : P → res A) (p p' : P) x : observe f p = (Ok x, p') ↔ f p = Ok x ∧ p' = p.
Proof. unfold observe. split; [by intros [= -> ->]|by intros [-> ->]]. Qed.

Lemma mret_ok {P A} (p p' : P) (x y : A) : (mret x : M P A) p = (Ok y, p') ↔ x = y ∧ p' = p.
Proof. split; [by intros [= -> ->]|by intros [-> ->]]. Qed.

(** Destructs a successful run of a stateful computation. *)
Ltac m_step H :=
  let x := fresh "x" in let s := fresh "s" in let H1 := fresh "Hm" in
  apply M_bind_ok in H as (x & s & H1 & H);
  try (apply lift_ok in H1 as [H1 ->]); try (apply observe_ok in H1 as [H1 ->]).
Ltac m_inv H := repeat (m_step H); first [apply mret_ok in H as [H ->] | apply lift_ok in H as [H ->] | idtac].

(** Relations every run of a computation respects, whether it throws or not. *)
Definition always {S A} (R : S → S → Prop) (m : M S A) : Prop := ∀ s x s', m s = (x, s') → R s s'.

Section always.
Context {S : Type} (R : S → S → Prop) `{!PreOrder R}.
Lemma always_bind {A B} (m : M S A) (k : A → M S B) : always R m → (∀ x, always R (k x)) → always R (m ≫= k).
Proof.
  intros Hm Hk s y s'. unfold mbind, M_bind. destruct (m s) as [[x|e] s1] eqn:E.
  - intros Hy. etrans; [by eapply Hm|by eapply Hk].
  - intros [= _ <-]. by eapply Hm.
Qed.
Lemma always_lift {A} (r : res A) : always R (lift r).
Proof. by intros s x s' [= _ <-]. Qed.
Lemma always_gets {A} (f : S → A) : always R (gets f).
Proof. by intros s x s' [= _ <-]. Qed.
Lemma always_observe {A} (f : S → res A) : always R (observe f).
Proof. by intros s x s' [= _ <-]. Qed.
Lemma always_mret {A} (x : A) : always R (mret x).
Proof. by intros s y s' [= _ <-]. Qed.
Lemma always_throw {A} msg : always (A := A) R (throw msg).
Proof. by intros s y s' [= _ <-]. Qed.
Lemma always_modify f : (∀ s, R s (f s)) → always R (modify f).
Proof. intros Hf s y s' [= _ <-]. apply Hf. Qed.
End always.
#[export] Hint Resolve always_bind always_lift always_gets always_observe always_mret always_throw : k3.
(** case analysis along the steps of a computation; [tac] prepares the steps that the hints close *)
Ltac along tac :=
  repeat match goal with
  | |- always _ (_ ≫= _) => apply always_bind; [apply _| |intros ?]
  | |- always _ (match ?x with _ => _ end) => destruct x
  | |- always _ (if ?x then _ else _) => destruct x
  | |- always _ _ => solve [tac; eauto with k3]
  end.

(** Case analysis on the result of the next step of a run in the goal. *)
Ltac m_result x E :=
  try rewrite lift_bind; try rewrite observe_bind;
  match goal with |- context [match ?r with Ok _ => _ | Err _ => _ end] => destruct r as [x|?] eqn:E end.

(** ** Numbers

    A TypeScript [number] is an integer of [Z] wherever the code only handles integers, and
    a [jsnum] where it also handles other values. *)
Definition MAX_SAFE_INTEGER : Z := 9007199254740991.

(** [Number.isSafeInteger] on a value that is an integer. *)
Definition isSafeInteger (z : Z) : bool := (- MAX_SAFE_INTEGER <=? z) && (z <=? MAX_SAFE_INTEGER).

Inductive jsnum : Type :=
| NInt (z : Z)           (* an integral value *)
| NFrac (m : Z) (k : N)  (* the decimal [m / 10^(k+1)] with [m] not a multiple of 10 *)
| NNaN | NInf | NNegInf.

#[export] Instance jsnum_eq_dec : EqDecision jsnum.
Proof. solve_decision. Defined.

(** [Number.isSafeInteger(n)], with the integer it then is. *)
Definition safe_int (n : jsnum) : option Z :=
  match n with NInt z => if isSafeInteger z then Some z else None | _ => None end.

Lemma safe_int_Some n z : safe_int n = Some z ↔ n = NInt z ∧ isSafeInteger z = true.
Proof.
  destruct n as [y| | | |]; simpl; try (split; [discriminate|by intros [? _]]).
  destruct (isSafeInteger y) eqn:E; split.
  - by intros [= ->].
  - by intros [[= ->] _].
  - discriminate.
  - intros [[= ->] H]. congruence.
Qed.

Lemma isSafeInteger_bounds z :
  isSafeInteger z = true ↔ - MAX_SAFE_INTEGER ≤ z ≤ MAX_SAFE_INTEGER.
Proof. unfold isSafeInteger. lia. Qed.

(** ** Strings

    A JavaScript string is a [string] whose characters are its code units, restricted to
    U+0000-U+00FF; on that range [normalize('NFC')] is the identity. *)
Definition nonempty (s : string) : bool := negb (String.eqb s "").
Definition strlen (s : string) : Z := Z.of_nat (String.length s).

(** the order of [<] on strings, as a comparator *)
Definition string_cmp (a b : string) : Z :=
  match String.compare a b with Eq => 0 | Lt => -1 | Gt => 1 end.

Fixpoint forall_chars (P : ascii → bool) (s : string) : bool :=
  match s with
  | EmptyString => true
  | String c s' => P c && forall_chars P s'
  end.

Definition code (c : ascii) : Z := Z.of_N (N_of_ascii c).
Definition in_range (lo hi : Z) (c : ascii) : bool := (lo <=? code c) && (code c <=? hi).

Definition is_digit (c : ascii) : bool := in_range 48 57 c.
Definition is_hex_lower (c : ascii) : bool := is_digit c || in_range 97 102 c.
Definition is_upper (c : ascii) : bool := in_range 65 90 c.
Definition is_lower (c : ascii) : bool := in_range 97 122 c.
(** the class [A-Za-z0-9_-] *)
Definition is_base64url (c : ascii) : bool :=
  is_digit c || is_upper c || is_lower c || (code c =? 95) || (code c =? 45).
(** the class [\u0000-\u001f\u007f] *)
Definition is_control (c : ascii) : bool := (code c <=? 31) || (code c =? 127).

(** [/^[0-9a-f]{64}$/.test(s)] *)
Definition hex64 (s : string) : bool := (strlen s =? 64) && forall_chars is_hex_lower s.

(** [/^[A-Za-z0-9_-]{lo,hi}$/.test(s)] *)
Definition base64url_between (lo hi : Z) (s : string) : bool :=
  (lo <=? strlen s) && (strlen s <=? hi) && forall_chars is_base64url s.

(** The classes of a UUID pattern: [x] a hexadecimal digit of either case, [v] one of [1-8], [y] one of
    [89ab], [-] itself. *)
Definition is_hex (c : ascii) : bool := is_hex_lower c || in_range 65 70 c.
Definition template_char (t c : ascii) : bool :=
  if (code t =? 120) then is_hex c
  else if (code t =? 118) then in_range 49 56 c
  else if (code t =? 121) then in_range 56 57 c || existsb (Z.eqb (code c)) [97; 98; 65; 66]
  else Ascii.eqb t c.
Fixpoint matches_template (t s : string) : bool :=
  match t, s with
  | EmptyString, EmptyString => true
  | String a t', String c s' => template_char a c && matches_template t' s'
  | _, _ => false
  end.
(** [/^[0-9a-f]{8}-[0-9a-f]{4}-[1-8][0-9a-f]{3}-[89ab][0-9a-f]{3}-[0-9a-f]{12}$/i] *)
Definition uuid_strict (s : string) : bool := matches_template "xxxxxxxx-xxxx-vxxx-yxxx-xxxxxxxxxxxx" s.
(** [/^[0-9a-f-]{36}$/i] *)
Definition uuid_loose (s : string) : bool := (strlen s =? 36) && forall_chars (fun c => is_hex c || (code c =? 45)) s.

Lemma code_bounds c : 0 ≤ code c < 256.
Proof.
  unfold code. pose proof (N_ascii_bounded c). lia.
Qed.

Lemma nonempty_true s : nonempty s = true ↔ s ≠ ""%string.
Proof. unfold nonempty. rewrite negb_true_iff, String.eqb_neq. done. Qed.

Lemma nonempty_false s : nonempty s = false ↔ s = ""%string.
Proof. unfold nonempty. rewrite negb_false_iff, String.eqb_eq. done. Qed.

(** ** Lists *)
Section lists.
Context {A : Type}.

(** [Array.prototype.find] *)
Definition js_find (P : A → bool) (l : list A) : option A := List.find P l.

Lemma js_find_Some (P : A → bool) l x : js_find P l = Some x → x ∈ l ∧ P x = true.
Proof. intros H. apply find_some in H as [Hin HP]. by rewrite list_elem_of_In. Qed.

Lemma js_find_None (P : A → bool) l : js_find P l = None ↔ ∀ x, x ∈ l → P x = false.
Proof.
  split; [intros H x; rewrite list_elem_of_In; by apply find_none|].
  induction l as [|y l IH]; simpl; intros H; [done|].
  rewrite (H y) by set_solver. apply IH. set_solver.
Qed.

Lemma js_find_snoc (P : A → bool) l x : js_find P l = None → P x = true → js_find P (l ++ [x]) = Some x.
Proof.
  intros H Hx. induction l as [|y l IH]; simpl in *; [by rewrite Hx|].
  destruct (P y); [done|]. by apply IH.
Qed.

(** the last [n] elements: [l.slice(-n)] *)
Definition take_last (n : nat) (l : list A) : list A := drop (length l - n) l.

Lemma take_last_length n l : (length (take_last n l) ≤ n)%nat.
Proof. unfold take_last. rewrite length_drop. lia. Qed.

Lemma take_last_all n l : (length l ≤ n)%nat → take_last n l = l.
Proof. intros. unfold take_last. by replace (length l - n)%nat with 0%nat by lia. Qed.
End lists.

(** ** Automation *)
#[export] Hint Rewrite orb_true_iff orb_false_iff andb_true_iff andb_false_iff
  negb_true_iff negb_false_iff bool_decide_eq_true bool_decide_eq_false
  String.eqb_eq String.eqb_neq Z.eqb_eq Z.eqb_neq Z.ltb_lt Z.ltb_ge Z.leb_le Z.leb_gt
  nonempty_true nonempty_false isSafeInteger_bounds : bool_prop.

(** Turns boolean hypotheses and goals into propositions. *)
Ltac bool_prop := autorewrite with bool_prop in *.

(** The conditions a passed guard [throw_if b msg = Ok _] (or [b = false]) establishes. *)
Ltac guard_inv H :=
  try apply throw_if_ok in H;
  rewrite ?orb_false_iff, ?negb_false_iff, ?String.eqb_eq, ?bool_decide_eq_true, ?bool_decide_eq_false,
    ?String.eqb_neq in H.

(** Case analysis on the boolean of a conditional in the goal. *)
Ltac case_if :=
  match goal with
  | |- context [if ?b then _ else _] =>
      lazymatch type of b with bool => let E := fresh "E" in destruct b eqn:E end
  end.

(** Case analysis on a [bool_decide P] of the goal. *)
Ltac bdec P :=
  destruct (decide P); [rewrite ?(bool_decide_eq_true_2 P) by done|rewrite ?(bool_decide_eq_false_2 P) by done].
Ltac bdecide :=
  repeat match goal with |- context [bool_decide ?P] => bdec P end.

(** ** [Array.prototype.sort], and updates of the first match of a list

    The language's sort is stable; for a comparator that is a total preorder its result does not
    depend on the algorithm, so insertion sort stands for it. *)
Section sorting.
Context {A : Type} (cmp : A → A → Z).

Fixpoint insert_sorted (x : A) (l : list A) : list A :=
  match l with
  | [] => [x]
  | y :: l' => if cmp x y <=? 0 then x :: l else y :: insert_sorted x l'
  end.

Fixpoint js_sort (l : list A) : list A :=
  match l with [] => [] | x :: l' => insert_sorted x (js_sort l') end.

Lemma insert_sorted_perm x l : insert_sorted x l ≡ₚ x :: l.
Proof.
  induction l as [|y l IH]; simpl; [done|]. destruct (cmp x y <=? 0); [done|].
  rewrite IH. by apply Permutation_swap.
Qed.

Lemma js_sort_perm l : js_sort l ≡ₚ l.
Proof. induction l as [|x l IH]; simpl; [done|]. by rewrite insert_sorted_perm, IH. Qed.

Context (P : A → Prop)
  (cmp_total : ∀ x y, P x → P y → cmp x y <= 0 ∨ cmp y x <= 0)
  (cmp_trans : ∀ x y z, P x → P y → P z → cmp x y <= 0 → cmp y z <= 0 → cmp x z <= 0).

(** The first element of the sorted array is below every element. *)
Lemma js_sort_head l x :
  Forall P l → js_sort l !! 0%nat = Some x → x ∈ l ∧ ∀ y, y ∈ l → cmp x y <= 0.
Proof.
  intros HP Hx. assert (x ∈ l) as Hin.
  { rewrite <-js_sort_perm. by eapply list_elem_of_lookup_2. }
  split; [done|]. revert x Hin Hx. induction l as [|a l IH]; intros x Hin Hx y Hy; [set_solver|].
  inversion_clear HP as [|?? Pa Pl].
  assert (∀ z, z ∈ l → P z) as Pl' by (by apply Forall_forall).
  assert (cmp a a <= 0) by (destruct (cmp_total a a); done).
  simpl in Hx. destruct (js_sort l) as [|b l'] eqn:E; simpl in Hx.
  - assert (l = []) as -> by (apply Permutation_nil; rewrite <-E; apply js_sort_perm).
    simplify_eq. assert (y = x) as -> by set_solver. done.
  - assert (b ∈ l) as Hb by (rewrite <-js_sort_perm, E; set_solver).
    assert (∀ z, z ∈ l → cmp b z <= 0) as Hmin by (intros z Hz; by apply (IH Pl b Hb)).
    destruct (Z.leb_spec (cmp a b) 0); injection Hx as ->.
    + apply elem_of_cons in Hy as [->|Hy]; [done|].
      apply (cmp_trans x b y); auto.
    + apply elem_of_cons in Hy as [->|Hy]; [|by apply Hmin].
      destruct (cmp_total a x); auto; lia.
Qed.

Lemma insert_sorted_sorted x l :
  P x → Forall P l → StronglySorted (λ a b, cmp a b <= 0) l → StronglySorted (λ a b, cmp a b <= 0) (insert_sorted x l).
Proof.
  intros Px HP Hs. induction Hs as [|y l Hs IH Hy]; simpl; [by repeat constructor|].
  inversion_clear HP as [|?? Py Pl]. destruct (Z.leb_spec (cmp x y) 0).
  - constructor; [by constructor|]. constructor; [done|]. apply Forall_forall. intros z Hz.
    rewrite Forall_forall in Hy, Pl. eapply (cmp_trans x y z); auto.
  - constructor; [by apply IH|]. rewrite insert_sorted_perm. constructor; [|done].
    destruct (cmp_total x y); auto; lia.
Qed.

Lemma js_sort_sorted l : Forall P l → StronglySorted (λ a b, cmp a b <= 0) (js_sort l).
Proof.
  induction 1 as [|x l Px Pl IH]; simpl; [constructor|].
  apply insert_sorted_sorted; [done| |done]. by rewrite js_sort_perm.
Qed.

Lemma insert_sorted_comm x y l :
  (∀ a b, P a → P b → cmp a b <= 0 → cmp b a <= 0 → a = b) →
  P x → P y → Forall P l → insert_sorted x (insert_sorted y l) = insert_sorted y (insert_sorted x l).
Proof.
  intros Hanti Hx Hy. assert (∀ a b, P a → P b → a ≠ b → cmp a b <= 0 → 0 < cmp b a) as Hgt.
  { intros a b Ha Hb Hne Hab. destruct (Z_lt_le_dec 0 (cmp b a)) as [|Hba]; [done|]. destruct Hne. by apply Hanti. }
  destruct (cmp_total x y Hx Hy) as [Hxy|Hxy].
  all: induction 1 as [|z l Hz Hl IH]; cbn [insert_sorted].
  all: repeat (match goal with |- context [if ?a <=? 0 then _ else _] => destruct (Z.leb_spec a 0) end; cbn [insert_sorted]).
  all: try done; try lia; try (by rewrite IH).
  all: try (f_equal; by apply Hanti).
  all: first
    [ assert (x = y) by (by apply Hanti); by subst
    | exfalso; assert (cmp x z <= 0) by (by apply (cmp_trans x y z)); lia
    | exfalso; assert (cmp y z <= 0) by (by apply (cmp_trans y x z)); lia
    | assert (x = y) as -> by (apply Hanti; auto; destruct (cmp_total x y); auto; lia); done
    | idtac ].
Qed.

(** Under a total order, sorting forgets the order of its input. *)
Lemma js_sort_permutation l1 l2 :
  (∀ a b, P a → P b → cmp a b <= 0 → cmp b a <= 0 → a = b) →
  Forall P l1 → l1 ≡ₚ l2 → js_sort l1 = js_sort l2.
Proof.
  intros Hanti HP Hp. induction Hp as [|x l l' Hp IH|x y l|l l' l'' Hp1 IH1 Hp2 IH2]; simpl; [done|..].
  - inversion_clear HP. by rewrite IH.
  - inversion_clear HP as [|?? Hy HP']. inversion_clear HP' as [|?? Hx Hl].
    apply insert_sorted_comm; try done. by rewrite js_sort_perm.
  - rewrite IH1 by done. apply IH2. by rewrite <-Hp1.
Qed.
End sorting.

(** What [slice(-n)] drops from a sorted array is below everything it keeps. *)
Lemma take_last_sorted {A} (R : A → A → Prop) n (l : list A) x :
  StronglySorted R l → x ∈ l → x ∈ take_last n l ∨ length (take_last n l) = n ∧ Forall (R x) (take_last n l).
Proof.
  unfold take_last. intros Hs Hx. rewrite <-(take_drop (length l - n) l) in Hx.
  apply elem_of_app in Hx as [Hx|Hx]; [right|by left].
  assert (length (take (length l - n) l) ≠ 0%nat) as Hl by (destruct (take _ l); [set_solver|done]).
  rewrite length_take in Hl. split; [rewrite length_drop; lia|].
  rewrite <-(take_drop (length l - n) l) in Hs. clear Hl. revert Hs Hx.
  generalize (drop (length l - n) l) as l2. induction (take (length l - n) l) as [|y l1 IH]; intros l2 Hs Hx; [set_solver|].
  simpl in Hs. inversion_clear Hs as [|?? Hs' Hy]. apply elem_of_cons in Hx as [->|Hx]; [|by apply IH].
  by apply Forall_app in Hy as [_ Hy].
Qed.

Section first_match.
Context {A : Type} (P : A → bool).

(** mutates the first element that satisfies [P] in place *)
Fixpoint update_first (f : A → A) (l : list A) : list A :=
  match l with
  | [] => []
  | x :: l' => if P x then f x :: l' else x :: update_first f l'
  end.

(** [splice(findIndex(P), 1)] *)
Fixpoint remove_first (l : list A) : list A :=
  match l with
  | [] => []
  | x :: l' => if P x then l' else x :: remove_first l'
  end.

Lemma update_first_spec f l x :
  js_find P l = Some x →
  ∃ l1 l2, l = l1 ++ x :: l2 ∧ update_first f l = l1 ++ f x :: l2 ∧
    remove_first l = l1 ++ l2 ∧ P x = true ∧ Forall (λ y, P y = false) l1.
Proof.
  induction l as [|a l IH]; simpl; [done|]. destruct (P a) eqn:E.
  - intros [= ->]. by exists [], l.
  - intros (l1 & l2 & -> & -> & -> & ? & ?)%IH. exists (a :: l1), l2. split_and!; try done. by constructor.
Qed.

Lemma remove_first_sublist l : remove_first l `sublist_of` l.
Proof.
  induction l as [|a l IH]; simpl; [done|]. destruct (P a); [by apply sublist_cons|by apply sublist_skip].
Qed.
End first_match.

(** ** Sublists and updates *)
Lemma filter_sublist {A} (P : A → bool) (l : list A) : List.filter P l `sublist_of` l.
Proof. induction l as [|x l IH]; simpl; [done|]. destruct (P x); by constructor. Qed.

Lemma Forall_sublist {A} (P : A → Prop) (l l' : list A) : l `sublist_of` l' → Forall P l' → Forall P l.
Proof. induction 1; [done|..]; rewrite !Forall_cons; naive_solver. Qed.

Lemma Forall_update {A} (P : A → bool) (f : A → A) (Q : A → Prop) l :
  Forall Q l → (∀ x, x ∈ l → P x = true → Q x → Q (f x)) → Forall Q (update_first P f l).
Proof.
  induction 1 as [|x l Hx Hl IH]; simpl; intros Hf; [constructor|].
  destruct (P x) eqn:E; constructor; auto; [apply Hf; set_solver|]. apply IH. intros y Hy. apply Hf. set_solver.
Qed.

Lemma update_first_map {A B} (P : A → bool) (f : A → A) (g : A → B) l :
  (∀ x, g (f x) = g x) → g <$> update_first P f l = g <$> l.
Proof.
  intros Hf. induction l as [|x l IH]; cbn [update_first]; [done|]. destruct (P x); rewrite !fmap_cons; [by rewrite Hf|by rewrite IH].
Qed.

Lemma existsb_false {A} (P : A → bool) (l : list A) : existsb P l = false ↔ Forall (λ x, P x = false) l.
Proof.
  induction l as [|x l IH]; cbn [existsb]; [by split|]. by rewrite Forall_cons, orb_false_iff, IH.
Qed.
