(* ===== verification/Json.v ===== *)
(** * JSON: the values, [JSON.stringify] and [JSON.parse] the stored records and the digests use

    Nearly every persisted record and every digest of the client library is the JSON text of an
    object. This file models the two functions of the language on the fragment the code uses
    (strings over U+0000-U+00FF; numbers as in [Prelude]) and proves that parsing inverts
    printing, which makes every canonical encoding of the code injective. *)
From S2P Require Import Prelude.
From Stdlib Require Import DecimalString DecimalN.

(** ** Values *)
Inductive jsval : Type :=
| JUndef
| JNull
| JBool (b : bool)
| JNum (n : jsnum)
| JStr (s : string)
| JArr (l : list jsval)
| JObj (fs : list (string * jsval)).

#[export] Instance jsval_eq_dec : EqDecision jsval.
Proof.
  refine (fix go (x y : jsval) : Decision (x = y) :=
    let _ : EqDecision jsval := @go in
    match x, y with
    | JUndef, JUndef => left _
    | JNull, JNull => left _
    | JBool b, JBool b' => cast_if (decide (b = b'))
    | JNum n, JNum n' => cast_if (decide (n = n'))
    | JStr s, JStr s' => cast_if (decide (s = s'))
    | JArr l, JArr l' => cast_if (decide (l = l'))
    | JObj l, JObj l' => cast_if (decide (l = l'))
    | _, _ => right _
    end); abstract congruence.
Defined.

Section jsval_induction.
Context (P : jsval → Prop).
Context (Hundef : P JUndef) (Hnull : P JNull) (Hbool : ∀ b, P (JBool b))
  (Hnum : ∀ n, P (JNum n)) (Hstr : ∀ s, P (JStr s))
  (Harr : ∀ l, Forall P l → P (JArr l))
  (Hobj : ∀ fs, Forall (λ kv, P kv.2) fs → P (JObj fs)).

Fixpoint jsval_ind' (v : jsval) : P v.
Proof.
  destruct v as [| |b|n|s|l|fs].
  - exact Hundef.
  - exact Hnull.
  - exact (Hbool b).
  - exact (Hnum n).
  - exact (Hstr s).
  - apply Harr. induction l as [|v l IH]; constructor; [apply jsval_ind'|exact IH].
  - apply Hobj. induction fs as [|[k v] fs IH]; constructor; [apply jsval_ind'|exact IH].
Defined.
End jsval_induction.

(** [typeof v === 'object' && v !== null && !Array.isArray(v)] *)
Definition as_object (v : jsval) : option (list (string * jsval)) :=
  match v with JObj fs => Some fs | _ => None end.

(** [value.key] on an object: [undefined] when the key is absent. *)
Fixpoint get (fs : list (string * jsval)) (k : string) : jsval :=
  match fs with
  | [] => JUndef
  | (k', v) :: fs' => if String.eqb k k' then v else get fs' k
  end.

(** [value.key] on any value: [null] and [undefined] have no properties (a [TypeError]); the other
    values that are not objects have none of the keys the code reads. *)
Definition prop (v : jsval) (k : string) : res jsval :=
  match v with
  | JUndef | JNull => Err "TypeError"
  | JObj fs => Ok (get fs k)
  | _ => Ok JUndef
  end.
(** [value?.key] *)
Definition oprop (v : jsval) (k : string) : jsval := match v with JObj fs => get fs k | _ => JUndef end.

(** [Boolean(value)] *)
Definition truthy (v : jsval) : bool :=
  match v with
  | JUndef | JNull => false
  | JBool b => b
  | JNum n => negb (bool_decide (n = NInt 0)) && negb (bool_decide (n = NNaN))
  | JStr s => nonempty s
  | JArr _ | JObj _ => true
  end.
(** [value ?? d] *)
Definition nullish (v d : jsval) : jsval := match v with JUndef | JNull => d | _ => v end.
(** [Number.isSafeInteger(value)] and [Array.isArray(value)] on any value *)
Definition js_safe_int (v : jsval) : option Z := match v with JNum n => safe_int n | _ => None end.
Definition as_array (v : jsval) : option (list jsval) := match v with JArr l => Some l | _ => None end.
Definition is_str (v : jsval) : bool := match v with JStr _ => true | _ => false end.

Definition keys (fs : list (string * jsval)) : list string := fs.*1.

(** Object literals with optional properties: [...(x === undefined ? {} : { k: x })]. *)
Definition obj (fs : list (string * option jsval)) : jsval :=
  JObj (omap (λ '(k, o), pair k <$> o) fs).

(** ** Printing *)
Definition chr (z : Z) : ascii := ascii_of_N (Z.to_N z).
Definition str1 (z : Z) : string := String (chr z) EmptyString.
Definition hex_digit (z : Z) : ascii := chr (if z <? 10 then 48 + z else 87 + z).

Definition quote_char (c : ascii) : string :=
  let z := code c in
  if z =? 34 then str1 92 +:+ str1 34
  else if z =? 92 then str1 92 +:+ str1 92
  else if z =? 8 then str1 92 +:+ "b"
  else if z =? 9 then str1 92 +:+ "t"
  else if z =? 10 then str1 92 +:+ "n"
  else if z =? 12 then str1 92 +:+ "f"
  else if z =? 13 then str1 92 +:+ "r"
  else if z <? 32 then
    str1 92 +:+ "u00" +:+ String (hex_digit (z / 16)) (String (hex_digit (z mod 16)) EmptyString)
  else String c EmptyString.

Fixpoint quote_chars (s : string) : string :=
  match s with
  | EmptyString => EmptyString
  | String c s' => quote_char c +:+ quote_chars s'
  end.
Definition quote (s : string) : string := str1 34 +:+ quote_chars s +:+ str1 34.

Definition N_str (n : N) : string := NilEmpty.string_of_uint (N.to_uint n).
Definition Z_str (z : Z) : string :=
  if z <? 0 then "-" +:+ N_str (Z.to_N (- z)) else N_str (Z.to_N z).

Fixpoint zeros (n : nat) : string := match n with O => EmptyString | S n => String "0" (zeros n) end.
(** the digits of [m], padded on the left to [n] *)
Definition pad_digits (n : nat) (m : N) : string :=
  let d := N_str m in zeros (n - String.length d) +:+ d.

Definition num_str (n : jsnum) : string :=
  match n with
  | NInt z => Z_str z
  | NFrac m k =>
      let p := (10 ^ (k + 1))%N in
      let a := Z.to_N (Z.abs m) in
      (if m <? 0 then "-" else EmptyString) +:+ N_str (a / p) +:+ "."
        +:+ pad_digits (N.to_nat k + 1) (a mod p)
  | NNaN | NInf | NNegInf => "null"
  end.

Fixpoint join (l : list string) : string :=
  match l with
  | [] => EmptyString
  | [x] => x
  | x :: l' => x +:+ "," +:+ join l'
  end.

(** [JSON.stringify]; on [undefined] itself, which it maps to [undefined], the text that
    interpolating the result gives. *)
Fixpoint stringify (v : jsval) : string :=
  match v with
  | JUndef => "undefined"
  | JNull => "null"
  | JBool b => if b then "true" else "false"
  | JNum n => num_str n
  | JStr s => quote s
  | JArr l =>
      "[" +:+ join ((fix go l := match l with
                       | [] => []
                       | JUndef :: l' => "null" :: go l'
                       | v :: l' => stringify v :: go l'
                       end) l) +:+ "]"
  | JObj fs =>
      "{" +:+ join ((fix go fs := match fs with
                       | [] => []
                       | (_, JUndef) :: fs' => go fs'
                       | (k, v) :: fs' => (quote k +:+ ":" +:+ stringify v) :: go fs'
                       end) fs) +:+ "}"
  end.

(** [String(v)] *)
Fixpoint js_String (v : jsval) : string :=
  match v with
  | JUndef => "undefined" | JNull => "null" | JBool b => if b then "true" else "false"
  | JNum NNaN => "NaN" | JNum NInf => "Infinity" | JNum NNegInf => "-Infinity" | JNum n => num_str n
  | JStr s => s
  | JArr l => join ((fix go l := match l with
                       | [] => []
                       | (JUndef | JNull) :: l' => EmptyString :: go l'
                       | v :: l' => js_String v :: go l'
                       end) l)
  | JObj _ => "[object Object]"
  end.

(** the length of [new TextEncoder().encode(s)] *)
Fixpoint utf8_length (s : string) : Z :=
  match s with EmptyString => 0 | String c s' => (if code c <? 128 then 1 else 2) + utf8_length s' end.

(** [s.startsWith(p)] and [list.includes(s)] *)
Definition startsWith (p s : string) : bool := String.prefix p s.
Definition includes (l : list string) (s : string) : bool := existsb (String.eqb s) l.

(** ** Parsing *)
Definition is_ws (c : ascii) : bool :=
  (code c =? 32) || (code c =? 9) || (code c =? 10) || (code c =? 13).
Fixpoint skip_ws (s : string) : string :=
  match s with
  | String c r => if is_ws c then skip_ws r else s
  | EmptyString => EmptyString
  end.

Fixpoint strip_prefix (p s : string) : option string :=
  match p, s with
  | EmptyString, _ => Some s
  | String a p', String b s' => if bool_decide (a = b) then strip_prefix p' s' else None
  | _, _ => None
  end.

Definition hex_val (c : ascii) : option Z :=
  if in_range 48 57 c then Some (code c - 48)
  else if in_range 97 102 c then Some (code c - 87)
  else if in_range 65 70 c then Some (code c - 55)
  else None.

(** the character of a one-letter escape *)
Definition unescape (c : ascii) : option ascii :=
  let z := code c in
  if (z =? 34) || (z =? 92) || (z =? 47) then Some c
  else if z =? 98 then Some (chr 8)
  else if z =? 116 then Some (chr 9)
  else if z =? 110 then Some (chr 10)
  else if z =? 102 then Some (chr 12)
  else if z =? 114 then Some (chr 13)
  else None.

(** The rest of a string literal after its opening quote. An escape above U+00FF is outside the
    modelled strings and is refused. *)
Fixpoint parse_str (s : string) : option (string * string) :=
  match s with
  | EmptyString => None
  | String c r =>
      if code c =? 34 then Some (EmptyString, r)
      else if code c =? 92 then
        match r with
        | String e r1 =>
            if code e =? 117 then
              match r1 with
              | String a (String b (String x (String y r2))) =>
                  ha ← hex_val a; hb ← hex_val b; hx ← hex_val x; hy ← hex_val y;
                  if (ha =? 0) && (hb =? 0)
                  then '(t, k) ← parse_str r2; Some (String (chr (16 * hx + hy)) t, k)
                  else None
              | _ => None
              end
            else x ← unescape e; '(t, k) ← parse_str r1; Some (String x t, k)
        | EmptyString => None
        end
      else if code c <? 32 then None
      else '(t, k) ← parse_str r; Some (String c t, k)
  end.

Fixpoint span_digits (s : string) : string * string :=
  match s with
  | String c r => if is_digit c then let '(d, k) := span_digits r in (String c d, k) else (EmptyString, s)
  | EmptyString => (EmptyString, EmptyString)
  end.

Definition digits_N (d : string) : N :=
  match NilEmpty.uint_of_string d with Some u => N.of_uint u | None => 0%N end.

(** the number [m * 10^e] *)
Fixpoint shift_down (fuel : nat) (m : Z) (e : Z) : jsnum :=
  if e =? 0 then NInt m
  else match fuel with
       | O => NFrac m (Z.to_N (- e - 1))
       | S f => if m mod 10 =? 0 then shift_down f (m / 10) (e + 1) else NFrac m (Z.to_N (- e - 1))
       end.
Definition make_num (m e : Z) : jsnum :=
  if m =? 0 then NInt 0
  else if 0 <=? e then
    (if 400 <? e then (if m <? 0 then NNegInf else NInf) else NInt (m * 10 ^ e))
  else shift_down (Z.to_nat (- e)) m e.

(** an optional [e] or [E] part: its value and the rest *)
Definition parse_exp (s : string) : option (Z * string) :=
  match s with
  | String c r =>
      if (code c =? 101) || (code c =? 69) then
        let '(sg, r1) := match r with
                         | String c1 r' => if code c1 =? 45 then (-1, r')
                                           else if code c1 =? 43 then (1, r') else (1, r)
                         | EmptyString => (1, r)
                         end in
        let '(d, k) := span_digits r1 in
        if nonempty d then Some (sg * Z.of_N (digits_N d), k) else None
      else Some (0, s)
  | EmptyString => Some (0, s)
  end.

Definition leading_ok (d : string) : bool :=
  match d with
  | EmptyString => false
  | String c EmptyString => true
  | String c _ => negb (code c =? 48)
  end.

Definition parse_num (s : string) : option (jsnum * string) :=
  let '(neg, s1) := match strip_prefix "-" s with Some r => (true, r) | None => (false, s) end in
  let '(d, s2) := span_digits s1 in
  if leading_ok d then
    '(f, s3) ← match strip_prefix "." s2 with
               | Some r => let '(f, k) := span_digits r in if nonempty f then Some (f, k) else None
               | None => Some (EmptyString, s2)
               end;
    '(e, s4) ← parse_exp s3;
    let m := Z.of_N (digits_N (d +:+ f)) in
    Some (make_num (if neg then - m else m) (e - strlen f), s4)
  else None.

(** A repeated key keeps its first position and takes the last value. *)
Fixpoint set_key (fs : list (string * jsval)) (k : string) (v : jsval) : list (string * jsval) :=
  match fs with
  | [] => [(k, v)]
  | (k', v') :: fs' => if bool_decide (k' = k) then (k, v) :: fs' else (k', v') :: set_key fs' k v
  end.

Fixpoint parse_val (fuel : nat) (s0 : string) : option (jsval * string) :=
  match fuel with
  | O => None
  | S f =>
      let s := skip_ws s0 in
      match s with
      | EmptyString => None
      | String c r =>
          if code c =? 34 then '(t, k) ← parse_str r; Some (JStr t, k)
          else if code c =? 91 then
            match strip_prefix "]" (skip_ws r) with
            | Some k => Some (JArr [], k)
            | None => '(l, k) ← parse_elems f r; Some (JArr l, k)
            end
          else if code c =? 123 then
            match strip_prefix "}" (skip_ws r) with
            | Some k => Some (JObj [], k)
            | None => '(fs, k) ← parse_members f [] r; Some (JObj fs, k)
            end
          else match strip_prefix "null" s, strip_prefix "true" s, strip_prefix "false" s with
               | Some k, _, _ => Some (JNull, k)
               | _, Some k, _ => Some (JBool true, k)
               | _, _, Some k => Some (JBool false, k)
               | _, _, _ => '(n, k) ← parse_num s; Some (JNum n, k)
               end
      end
  end
with parse_elems (fuel : nat) (s : string) : option (list jsval * string) :=
  match fuel with
  | O => None
  | S f =>
      '(v, k) ← parse_val f s;
      match skip_ws k with
      | String c r =>
          if code c =? 44 then '(l, k') ← parse_elems f r; Some (v :: l, k')
          else if code c =? 93 then Some ([v], r) else None
      | EmptyString => None
      end
  end
with parse_members (fuel : nat) (acc : list (string * jsval)) (s : string)
    : option (list (string * jsval) * string) :=
  match fuel with
  | O => None
  | S f =>
      r0 ← strip_prefix (str1 34) (skip_ws s);
      '(key, k0) ← parse_str r0;
      r1 ← strip_prefix ":" (skip_ws k0);
      '(v, k) ← parse_val f r1;
      let acc' := set_key acc key v in
      match skip_ws k with
      | String c r =>
          if code c =? 44 then parse_members f acc' r
          else if code c =? 125 then Some (acc', r) else None
      | EmptyString => None
      end
  end.

(** Every call but one in a chain of two consumes a character: this fuel is enough. *)
Definition parse_fuel (s : string) : nat := 2 * String.length s + 2.

(** [JSON.parse]; [None] is a [SyntaxError]. *)
Definition parse (s : string) : option jsval :=
  '(v, k) ← parse_val (parse_fuel s) s;
  if bool_decide (skip_ws k = EmptyString) then Some v else None.

(** ** Parsing inverts printing *)
Lemma sapp_cons c (a b : string) : String c a +:+ b = String c (a +:+ b).
Proof. reflexivity. Qed.

Lemma sapp_nil (b : string) : EmptyString +:+ b = b.
Proof. reflexivity. Qed.

Lemma sapp_assoc (a b c : string) : (a +:+ b) +:+ c = a +:+ (b +:+ c).
Proof. induction a as [|x a IH]; [done|]. by rewrite !sapp_cons, IH. Qed.

Lemma sapp_nil_r (a : string) : a +:+ EmptyString = a.
Proof. induction a as [|x a IH]; [done|]. by rewrite !sapp_cons, IH. Qed.

Lemma sapp_length (a b : string) :
  String.length (a +:+ b) = (String.length a + String.length b)%nat.
Proof. induction a as [|x a IH]; [done|]. rewrite sapp_cons. simpl. by rewrite IH. Qed.

#[export] Hint Rewrite sapp_cons sapp_nil sapp_assoc : sapp.

Lemma strip_prefix_app p s : strip_prefix p (p +:+ s) = Some s.
Proof.
  induction p as [|c p IH]; [done|]. rewrite sapp_cons. simpl.
  by rewrite bool_decide_eq_true_2.
Qed.

Lemma parse_str_char c t :
  parse_str (quote_char c +:+ t) = '(x, k) ← parse_str t; Some (String c x, k).
Proof. destruct c as [[] [] [] [] [] [] [] []]; reflexivity. Qed.

Lemma parse_str_quote s rest : parse_str (quote_chars s +:+ str1 34 +:+ rest) = Some (s, rest).
Proof.
  induction s as [|c s IH]; [done|].
  change (quote_chars (String c s)) with (quote_char c +:+ quote_chars s).
  rewrite sapp_assoc, parse_str_char.
  by rewrite IH.
Qed.

Lemma uint_digits d : forall_chars is_digit (NilEmpty.string_of_uint d) = true.
Proof. induction d; simpl; by rewrite ?IHd. Qed.

(** the text after a value: nothing that would continue a number *)
Definition delim (s : string) : bool :=
  match s with
  | EmptyString => true
  | String c _ => negb (is_digit c || (code c =? 46) || (code c =? 101) || (code c =? 69))
  end.

Lemma span_digits_app d rest :
  forall_chars is_digit d = true → delim rest = true → span_digits (d +:+ rest) = (d, rest).
Proof.
  intros Hd Hr. induction d as [|c d IH]; rewrite ?sapp_cons, ?sapp_nil; simpl in *.
  - destruct rest as [|c r]; simpl in *; [done|].
    destruct (is_digit c); simpl in *; [discriminate|done].
  - apply andb_true_iff in Hd as [-> Hd]. by rewrite IH.
Qed.

Lemma N_str_leading n : leading_ok (N_str n) = true.
Proof.
  unfold N_str. pose proof (Unsigned.to_of (N.to_uint n)) as E.
  rewrite Unsigned.of_to in E. rewrite E. unfold Decimal.unorm.
  destruct (Decimal.nzhead (N.to_uint n)) as [|u|u|u|u|u|u|u|u|u|u] eqn:Hz; simpl;
    try (destruct (NilEmpty.string_of_uint u); done); [done|].
  exfalso. clear E. revert Hz. generalize (N.to_uint n). intros d.
  induction d; simpl; congruence.
Qed.

Lemma N_str_digits n : digits_N (N_str n) = n.
Proof. unfold digits_N, N_str. by rewrite NilEmpty.usu, Unsigned.of_to. Qed.

Lemma N_str_nonempty n : N_str n ≠ EmptyString.
Proof. pose proof (N_str_leading n). by destruct (N_str n). Qed.

Lemma make_num_int m : make_num m 0 = NInt m.
Proof.
  unfold make_num. destruct (Z.eqb_spec m 0) as [->|]; [done|].
  simpl. f_equal. lia.
Qed.

Lemma strip_prefix_delim c r :
  delim r = true → (code c =? 46) = true → strip_prefix (String c EmptyString) r = None.
Proof.
  destruct r as [|c' r]; simpl; [done|]. intros Hd Hc.
  case_bool_decide as E; [subst c'|done]. rewrite Hc in Hd.
  destruct (is_digit c); discriminate.
Qed.

Lemma parse_exp_delim r : delim r = true → parse_exp r = Some (0, r).
Proof.
  destruct r as [|c r]; simpl; [done|].
  destruct (is_digit c), (code c =? 46), (code c =? 101), (code c =? 69); simpl; congruence.
Qed.

Lemma digits_minus d rest : forall_chars is_digit d = true → d ≠ EmptyString →
  strip_prefix "-" (d +:+ rest) = None.
Proof.
  destruct d as [|c d]; [done|]. rewrite sapp_cons. simpl. intros Hd _.
  case_bool_decide as E; [subst c; discriminate|done].
Qed.

Lemma parse_num_int z rest :
  delim rest = true → parse_num (Z_str z +:+ rest) = Some (NInt z, rest).
Proof.
  intros Hd. unfold Z_str, parse_num.
  assert (∀ n, (let '(d, s2) := span_digits (N_str n +:+ rest) in
      if leading_ok d then
        '(f, s3) ← match strip_prefix "." s2 with
                   | Some r => let '(f, k) := span_digits r in if nonempty f then Some (f, k) else None
                   | None => Some (EmptyString, s2)
                   end;
        '(e, s4) ← parse_exp s3;
        Some (digits_N (d +:+ f), e - strlen f, s4)
      else None) = Some (n, 0, rest)) as key.
  { intros n. rewrite span_digits_app by (try done; apply uint_digits).
    rewrite N_str_leading, strip_prefix_delim by done. simpl.
    rewrite parse_exp_delim by done. simpl. by rewrite sapp_nil_r, N_str_digits. }
  destruct (Z.ltb_spec z 0).
  - rewrite sapp_assoc, strip_prefix_app. specialize (key (Z.to_N (- z))). revert key.
    destruct (span_digits _) as [d s2]. destruct (leading_ok d); [|discriminate].
    destruct (match strip_prefix "." s2 with Some _ => _ | None => _ end) as [[f s3]|]; simpl; [|discriminate].
    destruct (parse_exp s3) as [[e s4]|]; simpl; [|discriminate].
    intros [= Hn He ->]. rewrite Hn, He. rewrite make_num_int. do 3 f_equal. lia.
  - rewrite digits_minus by (apply uint_digits || apply N_str_nonempty).
    specialize (key (Z.to_N z)). revert key.
    destruct (span_digits _) as [d s2]. destruct (leading_ok d); [|discriminate].
    destruct (match strip_prefix "." s2 with Some _ => _ | None => _ end) as [[f s3]|]; simpl; [|discriminate].
    destruct (parse_exp s3) as [[e s4]|]; simpl; [|discriminate].
    intros [= Hn He ->]. rewrite Hn, He. rewrite make_num_int. do 3 f_equal. lia.
Qed.

(** The values whose text gives them back: no [undefined], integers only, distinct keys. *)
Fixpoint plain (v : jsval) : bool :=
  match v with
  | JUndef => false
  | JNum n => match n with NInt _ => true | _ => false end
  | JArr l => forallb plain l
  | JObj fs => forallb (λ kv, plain kv.2) fs && bool_decide (NoDup (keys fs))
  | _ => true
  end.

Fixpoint need (v : jsval) : nat :=
  match v with
  | JArr l => S (foldr (λ v m, S (need v `max` m)) O l)
  | JObj fs => S (foldr (λ kv m, S (need kv.2 `max` m)) O fs)
  | _ => 1%nat
  end.

Definition member (kv : string * jsval) : string := quote kv.1 +:+ ":" +:+ stringify kv.2.

Lemma stringify_arr l :
  forallb plain l = true → stringify (JArr l) = "[" +:+ join (map stringify l) +:+ "]".
Proof.
  intros H. simpl. do 2 f_equal. f_equal.
  induction l as [|v l IH]; [done|]. simpl in H. apply andb_true_iff in H as [Hv Hl].
  destruct v; try discriminate; simpl map; f_equal; apply IH, Hl.
Qed.

Lemma stringify_obj fs :
  forallb (λ kv, plain kv.2) fs = true →
  stringify (JObj fs) = "{" +:+ join (map member fs) +:+ "}".
Proof.
  intros H. simpl. do 2 f_equal. f_equal.
  induction fs as [|[k v] fs IH]; [done|]. simpl in H. apply andb_true_iff in H as [Hv Hl].
  destruct v; try discriminate; simpl map; f_equal; apply IH, Hl.
Qed.

Lemma N_str_head n : ∃ c s, N_str n = String c s ∧ is_digit c = true.
Proof.
  pose proof (uint_digits (N.to_uint n)) as Hd. pose proof (N_str_nonempty n) as Hne.
  unfold N_str in *. destruct (NilEmpty.string_of_uint _) as [|c s]; [done|].
  simpl in Hd. apply andb_true_iff in Hd as [Hc _]. by exists c, s.
Qed.

Lemma Z_str_head z : ∃ c s, Z_str z = String c s ∧ (is_digit c = true ∨ code c = 45).
Proof.
  unfold Z_str. case_match.
  - eexists _, _. split; [reflexivity|by right].
  - destruct (N_str_head (Z.to_N z)) as (c & s & E & Hc). exists c, s. auto.
Qed.

(** the first character of a printed value: not white space and not a closing bracket *)
Lemma stringify_head v : plain v = true →
  ∃ c s, stringify v = String c s ∧ is_ws c = false ∧ code c ≠ 93 ∧ code c ≠ 125.
Proof.
  destruct v as [| |b|n|s|l|fs]; intros H; try discriminate.
  - eexists _, _; split; [reflexivity|done].
  - destruct b; eexists _, _; (split; [reflexivity|done]).
  - destruct n as [z| | | |]; try discriminate. simpl.
    destruct (Z_str_head z) as (c & s & -> & Hc). exists c, s. split; [done|].
    unfold is_digit, in_range, is_ws in *. destruct Hc; lia.
  - eexists _, _; split; [reflexivity|done].
  - eexists _, _; split; [reflexivity|done].
  - eexists _, _; split; [reflexivity|done].
Qed.

Lemma skip_ws_head v rest : plain v = true → skip_ws (stringify v +:+ rest) = stringify v +:+ rest.
Proof.
  intros H. destruct (stringify_head v H) as (c & s & -> & Hws & _).
  rewrite sapp_cons. simpl. by rewrite Hws.
Qed.

Lemma skip_ws_cons c r : is_ws c = false → skip_ws (String c r) = String c r.
Proof. simpl. by intros ->. Qed.

Lemma skip_ws_lit c t : is_ws c = false → skip_ws (String c EmptyString +:+ t) = String c EmptyString +:+ t.
Proof. intros H. rewrite sapp_cons, sapp_nil. by apply skip_ws_cons. Qed.

Lemma some_bind {A B} (x : A) (f : A → option B) : Some x ≫= f = f x.
Proof. reflexivity. Qed.

Definition roundtrips (v : jsval) : Prop :=
  ∀ fuel rest, (need v ≤ fuel)%nat → delim rest = true →
    parse_val fuel (stringify v +:+ rest) = Some (v, rest).

Lemma parse_elems_join l fuel rest :
  Forall roundtrips l → forallb plain l = true → l ≠ [] →
  (foldr (λ v m, S (need v `max` m)) O l ≤ fuel)%nat →
  parse_elems fuel (join (map stringify l) +:+ "]" +:+ rest) = Some (l, rest).
Proof.
  intros Hl. revert fuel. induction Hl as [|v l Hv Hl IH]; intros fuel Hp Hne Hf; [done|].
  simpl in Hp, Hf. apply andb_true_iff in Hp as [Hpv Hp].
  destruct fuel as [|fuel]; [lia|].
  destruct l as [|v' l].
  - simpl. rewrite Hv by (done || lia). reflexivity.
  - change (join (map stringify (v :: v' :: l))) with
      (stringify v +:+ "," +:+ join (map stringify (v' :: l))).
    rewrite !sapp_assoc. cbn [parse_elems]. rewrite Hv by (done || lia).
    rewrite sapp_cons, sapp_nil, some_bind. cbv beta iota. rewrite skip_ws_cons by done.
    change (code "," =? 44) with true. rewrite IH by (done || lia). reflexivity.
Qed.

Lemma get_present fs k : get fs k ≠ JUndef → k ∈ keys fs.
Proof.
  induction fs as [|[k0 v0] fs IH]; cbn; [done|]. destruct (String.eqb_spec k k0) as [->|Hne]; [set_solver|].
  intros H. apply elem_of_cons. right. by apply IH.
Qed.

Lemma get_set_key fs k v k' : get (set_key fs k v) k' = if String.eqb k' k then v else get fs k'.
Proof.
  induction fs as [|[k0 v0] fs IH]; cbn; [done|]. bdecide; cbn.
  - subst. by destruct (String.eqb k' k).
  - destruct (String.eqb_spec k' k0) as [->|]; [|apply IH].
    destruct (String.eqb_spec k0 k); [done|]. done.
Qed.

Lemma set_key_fresh fs k v : k ∉ keys fs → set_key fs k v = fs ++ [(k, v)].
Proof.
  induction fs as [|[k' v'] fs IH]; [done|]. unfold keys in *. simpl.
  intros H. rewrite bool_decide_eq_false_2 by set_solver. f_equal. apply IH. set_solver.
Qed.

Lemma parse_members_join fs acc fuel rest :
  Forall (λ kv, roundtrips kv.2) fs → forallb (λ kv, plain kv.2) fs = true → fs ≠ [] →
  NoDup (keys (acc ++ fs)) →
  (foldr (λ kv m, S (need kv.2 `max` m)) O fs ≤ fuel)%nat →
  parse_members fuel acc (join (map member fs) +:+ "}" +:+ rest) = Some (acc ++ fs, rest).
Proof.
  intros Hl. revert acc fuel. induction Hl as [|[k v] fs Hv Hl IH]; intros acc fuel Hp Hne Hnd Hf; [done|].
  simpl in Hp, Hf, Hv. apply andb_true_iff in Hp as [Hpv Hp].
  assert (k ∉ keys acc) as Hk.
  { unfold keys in *. rewrite fmap_app in Hnd. apply NoDup_app in Hnd as (_ & Hnd & _).
    intros Hin. specialize (Hnd _ Hin). simpl in Hnd. set_solver. }
  destruct fuel as [|fuel]; [lia|].
  assert (∀ t, delim t = true → ∀ X : option (list (string * jsval) * string),
    match skip_ws t with
    | String c r => if code c =? 44 then parse_members fuel (acc ++ [(k, v)]) r
                    else if code c =? 125 then Some (acc ++ [(k, v)], r) else None
    | EmptyString => None end = X →
    parse_members (S fuel) acc (member (k, v) +:+ t) = X) as step.
  { intros t Ht X HX. unfold member, quote. simpl fst. simpl snd.
    rewrite !sapp_assoc. cbn [parse_members].
    unfold str1 at 2. rewrite skip_ws_lit by done. fold (str1 34).
    rewrite strip_prefix_app, some_bind, parse_str_quote, some_bind. cbv beta iota.
    rewrite skip_ws_lit by done. rewrite strip_prefix_app, some_bind.
    rewrite Hv by (done || lia). rewrite some_bind. by rewrite set_key_fresh. }
  destruct fs as [|kv' fs].
  - simpl map. simpl join. apply step; [done|]. reflexivity.
  - change (join (map member ((k, v) :: kv' :: fs))) with
      (member (k, v) +:+ "," +:+ join (map member (kv' :: fs))).
    rewrite !sapp_assoc. apply step; [done|].
    rewrite sapp_cons, sapp_nil, skip_ws_cons by done.
    change (code "," =? 44) with true.
    rewrite IH; [by rewrite <-app_assoc|done|done|by rewrite <-app_assoc|lia].
Qed.

Lemma parse_val_num z fuel rest : delim rest = true →
  parse_val (S fuel) (Z_str z +:+ rest) = Some (JNum (NInt z), rest).
Proof.
  intros Hd. pose proof (parse_num_int z rest Hd) as Hn.
  destruct (Z_str_head z) as (c & s & E & Hc). rewrite E, sapp_cons in *.
  cbn [parse_val]. unfold is_digit, in_range in Hc.
  rewrite skip_ws_cons by (unfold is_ws; lia).
  rewrite !(proj2 (Z.eqb_neq _ _)) by lia.
  assert (∀ a p, a ∈ ["n"; "t"; "f"]%char → strip_prefix (String a p) (String c (s +:+ rest)) = None) as Hp.
  { intros a p Ha. simpl. rewrite bool_decide_eq_false_2; [done|]. intros ->.
    repeat (apply elem_of_cons in Ha as [->|Ha]; [vm_compute in Hc; destruct Hc; discriminate|]).
    by apply elem_of_nil in Ha. }
  rewrite !Hp by set_solver.
  by rewrite Hn.
Qed.

Lemma stringify_roundtrips v : plain v = true → roundtrips v.
Proof.
  induction v as [| |b|n|s|l IH|fs IH] using jsval_ind'; intros Hp fuel rest Hf Hd;
    try discriminate; (destruct fuel as [|fuel]; [simpl in Hf; lia|]).
  - reflexivity.
  - destruct b; reflexivity.
  - destruct n as [z| | | |]; try discriminate. by apply parse_val_num.
  - change (stringify (JStr s)) with (quote s). unfold quote. rewrite !sapp_assoc.
    cbn [parse_val]. unfold str1 at 1. rewrite skip_ws_lit by done. rewrite sapp_cons, sapp_nil.
    change (code (chr 34) =? 34) with true. cbv iota. by rewrite parse_str_quote.
  - assert (Forall roundtrips l) as Hl.
    { simpl in Hp. clear Hf Hd. induction IH as [|v l Hv Hl IH']; [constructor|].
      simpl in Hp. apply andb_true_iff in Hp as [??]. constructor; auto. }
    rewrite stringify_arr by done. rewrite !sapp_assoc. cbn [parse_val].
    rewrite skip_ws_lit, sapp_cons, sapp_nil by done.
    change (code "[" =? 34) with false. change (code "[" =? 91) with true. cbv iota.
    destruct l as [|v l]; [reflexivity|].
    assert (plain v = true) as Hpv by (simpl in Hp; apply andb_true_iff in Hp; tauto).
    destruct (stringify_head v Hpv) as (c & s & E & Hc).
    rewrite (parse_elems_join (v :: l)); [|done..|simpl in *; lia].
    assert (∃ s', join (map stringify (v :: l)) = String c s') as [s' ->].
    { destruct l; [by exists s|]. exists (s +:+ "," +:+ join (map stringify (j :: l))).
      change (stringify v +:+ "," +:+ join (map stringify (j :: l)) =
        String c (s +:+ "," +:+ join (map stringify (j :: l)))). by rewrite E. }
    rewrite sapp_cons, skip_ws_cons by apply Hc.
    simpl. rewrite bool_decide_eq_false_2; [done|]. intros <-. naive_solver.
  - assert (Forall (λ kv, roundtrips kv.2) fs) as Hl.
    { simpl in Hp. apply andb_true_iff in Hp as [Hp _]. clear Hf Hd.
      induction IH as [|v l Hv Hl IH']; [constructor|].
      simpl in Hp. apply andb_true_iff in Hp as [??]. constructor; auto. }
    simpl in Hp. apply andb_true_iff in Hp as [Hp Hnd]. apply bool_decide_eq_true in Hnd.
    rewrite stringify_obj by done. rewrite !sapp_assoc. cbn [parse_val].
    rewrite skip_ws_lit, sapp_cons, sapp_nil by done.
    change (code "{" =? 34) with false. change (code "{" =? 91) with false.
    change (code "{" =? 123) with true. cbv iota.
    destruct fs as [|[k v] fs]; [reflexivity|].
    rewrite (parse_members_join ((k, v) :: fs)); [|done..|simpl in *; lia].
    destruct fs; reflexivity.
Qed.

Lemma need_le_length v : plain v = true → (need v ≤ String.length (stringify v))%nat.
Proof.
  induction v as [| |b|n|s|l IH|fs IH] using jsval_ind'; intros Hp; try discriminate.
  - simpl; lia.
  - destruct b; simpl; lia.
  - destruct n as [z| | | |]; try discriminate. simpl.
    destruct (Z_str_head z) as (c & s & -> & _). simpl. lia.
  - change (stringify (JStr s)) with (quote s). unfold quote. rewrite sapp_length. simpl. lia.
  - rewrite stringify_arr by done. rewrite !sapp_length. simpl in *.
    enough (foldr (λ v m, S (need v `max` m)) 0%nat l ≤ S (String.length (join (map stringify l))))%nat by lia.
    induction IH as [|v l Hv Hl IH]; simpl in *; [lia|].
    apply andb_true_iff in Hp as [Hpv Hp]. specialize (IH Hp). specialize (Hv Hpv).
    destruct l; simpl in *; [lia|]. rewrite !sapp_length in *. simpl in *. lia.
  - simpl in Hp. apply andb_true_iff in Hp as [Hp _].
    rewrite stringify_obj by done. rewrite !sapp_length. simpl in *.
    enough (foldr (λ kv m, S (need kv.2 `max` m)) 0%nat fs ≤ S (String.length (join (map member fs))))%nat by lia.
    induction IH as [|[k v] fs Hv Hl IH]; simpl in *; [lia|].
    apply andb_true_iff in Hp as [Hpv Hp]. specialize (IH Hp). specialize (Hv Hpv).
    assert (need v ≤ String.length (member (k, v)))%nat.
    { unfold member, quote. simpl. rewrite !sapp_length. lia. }
    destruct fs; simpl in *; [lia|]. rewrite !sapp_length in *. simpl in *. lia.
Qed.

(** [JSON.parse(JSON.stringify(v))] is [v]. *)
Theorem parse_stringify v : plain v = true → parse (stringify v) = Some v.
Proof.
  intros Hp. unfold parse.
  pose proof (stringify_roundtrips v Hp (parse_fuel (stringify v)) EmptyString) as H.
  rewrite sapp_nil_r in H. rewrite H; [done| |done].
  pose proof (need_le_length v Hp). unfold parse_fuel. lia.
Qed.

Corollary stringify_inj v w :
  plain v = true → plain w = true → stringify v = stringify w → v = w.
Proof. intros Hv Hw E. apply parse_stringify in Hv, Hw. congruence. Qed.

(** [plain] for object literals whose keys are distinct. *)
Lemma plain_obj fs :
  NoDup fs.*1 → Forall (λ kv, from_option (λ v, plain v = true) True kv.2) fs →
  plain (obj fs) = true.
Proof.
  intros Hnd Hfs. unfold obj. simpl. apply andb_true_iff. split.
  - induction fs as [|[k [v|]] fs IH]; simpl in *; [done| |];
      inversion Hfs; inversion Hnd; simplify_eq/=; auto.
    apply andb_true_iff; auto.
  - apply bool_decide_eq_true. unfold keys.
    assert (∀ k, k ∈ (omap (λ '(k, o), pair k <$> o) fs).*1 → k ∈ fs.*1) as Hsub.
    { clear. induction fs as [|[k [v|]] fs IH]; simpl; set_solver. }
    clear Hfs. induction fs as [|[k [v|]] fs IH]; simpl in *; [constructor| |];
      inversion Hnd; simplify_eq/=.
    + constructor; [|apply IH; [done|]].
      * intros Hin. assert (k ∈ fs.*1) as Hin'; [|done].
        clear -Hin. induction fs as [|[k' [v'|]] fs IH]; simpl in *; set_solver.
      * clear. induction fs as [|[k' [v'|]] fs IH]; simpl; set_solver.
    + apply IH; [done|]. clear. induction fs as [|[k' [v'|]] fs IH]; simpl; set_solver.
Qed.

Lemma plain_arr l : Forall (λ v, plain v = true) l → plain (JArr l) = true.
Proof. induction 1 as [|v l Hv _ IH]; simpl in *; [done|]. by rewrite Hv, IH. Qed.
