(* ===== verification/Base64.v ===== *)
(** * base64url ([crypto/base64url.ts])

    Bytes are a [string], one character per byte. [btoa] and [atob] are the platform's functions:
    the standard alphabet with padding, and the forgiving decoder of the HTML standard. *)
From S2P Require Import Prelude Json.

(** ** The platform's codec *)
Definition b64_char (n : Z) : ascii :=
  chr (if n <? 26 then 65 + n else if n <? 52 then 71 + n else if n <? 62 then n - 4 else if n =? 62 then 43 else 47).
Definition b64_val (c : ascii) : option Z :=
  let z := code c in
  if is_upper c then Some (z - 65) else if is_lower c then Some (z - 71) else if is_digit c then Some (z + 4)
  else if z =? 43 then Some 62 else if z =? 47 then Some 63 else None.

Fixpoint sextets (s : string) : list Z :=
  match s with
  | EmptyString => []
  | String a EmptyString => [code a / 4; code a mod 4 * 16]
  | String a (String b EmptyString) => [code a / 4; code a mod 4 * 16 + code b / 16; code b mod 16 * 4]
  | String a (String b (String c s')) =>
      [code a / 4; code a mod 4 * 16 + code b / 16; code b mod 16 * 4 + code c / 64; code c mod 64] ++ sextets s'
  end.

Fixpoint unsextets (l : list Z) : option string :=
  match l with
  | [] => Some EmptyString
  | [_] => None
  | [a; b] => Some (String (chr (a * 4 + b / 16)) EmptyString)
  | [a; b; c] => Some (String (chr (a * 4 + b / 16)) (String (chr (b mod 16 * 16 + c / 4)) EmptyString))
  | a :: b :: c :: d :: l' =>
      String (chr (a * 4 + b / 16)) ∘ String (chr (b mod 16 * 16 + c / 4)) ∘ String (chr (c mod 4 * 64 + d)) <$> unsextets l'
  end.

Fixpoint chars (l : list ascii) : string := match l with [] => EmptyString | c :: l' => String c (chars l') end.
Fixpoint unchars (s : string) : list ascii := match s with EmptyString => [] | String c s' => c :: unchars s' end.

Definition padding (n : nat) : list ascii := replicate (Z.to_nat ((4 - Z.of_nat n mod 4) mod 4)) (chr 61).

Definition btoa (s : string) : string :=
  let digits := b64_char <$> sextets s in chars (digits ++ padding (length digits)).

(** drops up to [n] trailing [=] *)
Fixpoint strip_padding (n : nat) (rev_l : list ascii) : list ascii :=
  match n, rev_l with
  | S n, c :: l => if code c =? 61 then strip_padding n l else rev_l
  | _, _ => rev_l
  end.

Definition atob (s : string) : res string :=
  let l := List.filter (λ c, negb (existsb (Z.eqb (code c)) [9; 10; 12; 13; 32])) (unchars s) in
  let l := if Nat.eqb (Nat.modulo (length l) 4) 0 then rev (strip_padding 2 (rev l)) else l in
  require (vs ← mapM b64_val l; unsextets vs) "InvalidCharacterError".

(** ** The module *)
(** [value.replace(/\+/g, '-').replace(/\//g, '_')] and its inverse. *)
Definition to_url (c : ascii) : ascii := if code c =? 43 then chr 45 else if code c =? 47 then chr 95 else c.
Definition of_url (c : ascii) : ascii := if code c =? 45 then chr 43 else if code c =? 95 then chr 47 else c.

(** [.replace(/=+$/, '')] *)
Definition strip_all (l : list ascii) : list ascii := rev (strip_padding (length l) (rev l)).

(* service/src/crypto/base64url.ts:16-19 toBase64Url *)
Definition toBase64Url (bytes : string) : string := chars (strip_all (to_url <$> unchars (btoa bytes))).

(* service/src/crypto/base64url.ts:21-33 fromBase64Url *)
Definition fromBase64Url (value : string) : res string :=
  throw_if (negb (nonempty value)) "Invalid base64url input: expected a non-empty string.";;
  let normalized := of_url <$> unchars value in
  atob (chars (normalized ++ padding (length normalized))).

(** ** Decoding inverts encoding *)
Lemma unchars_chars l : unchars (chars l) = l.
Proof. induction l as [|c l IH]; simpl; [done|]. by rewrite IH. Qed.

Definition sextet_ok (n : Z) : Prop := 0 ≤ n < 64.

Lemma sextet_all (P : Z → bool) : forallb P (seqZ 0 64) = true → ∀ n, sextet_ok n → P n = true.
Proof.
  intros H n Hn. rewrite forallb_forall in H. apply H, list_elem_of_In, elem_of_seqZ. unfold sextet_ok in Hn. lia.
Qed.

Lemma b64_char_val n : sextet_ok n → b64_val (b64_char n) = Some n.
Proof.
  intros Hn. pose proof (sextet_all (λ n, bool_decide (b64_val (b64_char n) = Some n))) as H.
  specialize (H ltac:(vm_compute; reflexivity) n Hn). by apply (bool_decide_eq_true_1 _) in H.
Qed.

(** The characters of the encoding are neither padding nor white space, and the two alphabets correspond. *)
Lemma b64_char_plain n : sextet_ok n →
  of_url (to_url (b64_char n)) = b64_char n ∧ (code (to_url (b64_char n)) =? 61) = false ∧
  (code (b64_char n) =? 61) = false ∧ existsb (Z.eqb (code (b64_char n))) [9; 10; 12; 13; 32] = false.
Proof.
  intros Hn.
  pose proof (sextet_all (λ n, bool_decide (of_url (to_url (b64_char n)) = b64_char n ∧
    (code (to_url (b64_char n)) =? 61) = false ∧
    (code (b64_char n) =? 61) = false ∧ existsb (Z.eqb (code (b64_char n))) [9; 10; 12; 13; 32] = false))) as H.
  specialize (H ltac:(vm_compute; reflexivity) n Hn). by apply (bool_decide_eq_true_1 _) in H.
Qed.

Lemma sextets_ok s : Forall sextet_ok (sextets s).
Proof.
  assert (∀ n s, (String.length s ≤ n)%nat → Forall sextet_ok (sextets s)) as H; [|by eapply H].
  induction n as [|n IH]; intros [|a [|b [|c s']]] Hl; simpl in *; try lia;
    repeat constructor; try (unfold sextet_ok; pose proof (code_bounds a); Z.to_euclidean_division_equations; lia);
    try (unfold sextet_ok; pose proof (code_bounds a); pose proof (code_bounds b); Z.to_euclidean_division_equations; lia).
  all: try (unfold sextet_ok; pose proof (code_bounds c); pose proof (code_bounds b); Z.to_euclidean_division_equations; lia).
  apply IH. lia.
Qed.

Lemma chr_code c : chr (code c) = c.
Proof. unfold chr, code. by rewrite N2Z.id, ascii_N_embedding. Qed.

Lemma unsextets_sextets s : unsextets (sextets s) = Some s.
Proof.
  assert (∀ n s, (String.length s ≤ n)%nat → unsextets (sextets s) = Some s) as H; [|by eapply H].
  induction n as [|n IH]; intros [|a [|b [|c s']]] Hl; cbn [String.length sextets unsextets app] in *; try lia; try done.
  - do 2 f_equal. rewrite <-(chr_code a) at 3. f_equal. pose proof (code_bounds a). Z.to_euclidean_division_equations. lia.
  - f_equal. rewrite <-(chr_code a) at 4. f_equal.
    { f_equal. pose proof (code_bounds a). pose proof (code_bounds b). Z.to_euclidean_division_equations. lia. }
    f_equal. rewrite <-(chr_code b) at 3. f_equal.
    pose proof (code_bounds a). pose proof (code_bounds b). Z.to_euclidean_division_equations. lia.
  - rewrite IH by lia. cbn. f_equal. pose proof (code_bounds a). pose proof (code_bounds b). pose proof (code_bounds c).
    assert (code a / 4 * 4 + (code a mod 4 * 16 + code b / 16) / 16 = code a) as -> by (Z.to_euclidean_division_equations; lia).
    assert ((code a mod 4 * 16 + code b / 16) mod 16 * 16 + (code b mod 16 * 4 + code c / 64) / 4 = code b) as ->
      by (Z.to_euclidean_division_equations; lia).
    assert ((code b mod 16 * 4 + code c / 64) mod 4 * 64 + code c mod 64 = code c) as ->
      by (Z.to_euclidean_division_equations; lia).
    by rewrite !chr_code.
Qed.

Definition not_pad (c : ascii) : Prop := (code c =? 61) = false.

Lemma strip_padding_spec n k r :
  (k ≤ n)%nat → Forall not_pad r → strip_padding n (replicate k (chr 61) ++ r) = r.
Proof.
  intros Hk Hr. revert n Hk. induction k as [|k IH]; intros n Hk.
  - destruct n; [by destruct r|]. destruct Hr as [|c r Hc _]; [done|]. cbn. by rewrite Hc.
  - destruct n as [|n]; [lia|]. cbn. apply IH. lia.
Qed.

Lemma strip_rev n k l :
  (k ≤ n)%nat → Forall not_pad l → rev (strip_padding n (rev (l ++ replicate k (chr 61)))) = l.
Proof.
  intros Hk Hl. assert (rev (replicate k (chr 61)) = replicate k (chr 61)) as Hrep.
  { rewrite rev_alt. apply reverse_replicate. }
  rewrite rev_app_distr, Hrep, strip_padding_spec; [apply rev_involutive|done|].
  apply Forall_forall. intros c Hc. rewrite Forall_forall in Hl. apply Hl.
  apply list_elem_of_In. apply list_elem_of_In in Hc. by apply in_rev.
Qed.

Lemma sextets_length s : Z.of_nat (length (sextets s)) mod 4 ≠ 1.
Proof.
  assert (∀ n s, (String.length s ≤ n)%nat → Z.of_nat (length (sextets s)) mod 4 ≠ 1) as H; [|by eapply H].
  induction n as [|n IH]; intros [|a [|b [|c s']]] Hl; cbn [String.length sextets app length] in *; try lia; try done.
  specialize (IH s' ltac:(lia)). Z.to_euclidean_division_equations. lia.
Qed.

Lemma mapM_b64 l : Forall sextet_ok l → mapM b64_val (b64_char <$> l) = Some l.
Proof.
  intros Hl. apply mapM_Some_2, Forall2_fmap_l, Forall_Forall2_diag.
  eapply Forall_impl; [exact Hl|]. apply b64_char_val.
Qed.

Lemma padding_length l : (length (l ++ padding (length l)) mod 4 = 0)%nat.
Proof.
  unfold padding. rewrite length_app, length_replicate. apply Nat2Z.inj.
  rewrite Nat2Z.inj_mod, Nat2Z.inj_add, Z2Nat.id by (Z.to_euclidean_division_equations; lia).
  Z.to_euclidean_division_equations. lia.
Qed.

Definition not_space (c : ascii) : bool := negb (existsb (Z.eqb (code c)) [9; 10; 12; 13; 32]).
Lemma digits_kept l : Forall sextet_ok l → List.filter not_space (b64_char <$> l) = b64_char <$> l.
Proof.
  induction 1 as [|n l Hn _ IH]; [done|]. rewrite fmap_cons. cbn [List.filter]. unfold not_space at 1.
  destruct (b64_char_plain n Hn) as (_ & _ & _ & ->). cbn [negb]. by rewrite IH.
Qed.

Lemma atob_btoa s : atob (btoa s) = Ok s.
Proof.
  unfold atob, btoa. rewrite unchars_chars. set (digits := b64_char <$> sextets s).
  assert (Forall sextet_ok (sextets s)) as Hok by apply sextets_ok.
  assert (Forall not_pad digits) as Hnp.
  { apply Forall_fmap. eapply Forall_impl; [exact Hok|]. intros n Hn. by destruct (b64_char_plain n Hn) as (_ & _ & ? & _). }
  assert (List.filter (λ c, negb (existsb (Z.eqb (code c)) [9; 10; 12; 13; 32])) (digits ++ padding (length digits)) =
    digits ++ padding (length digits)) as ->.
  { rewrite List.filter_app. f_equal.
    - by apply digits_kept.
    - unfold padding. generalize (Z.to_nat ((4 - Z.of_nat (length digits) mod 4) mod 4)).
      induction n as [|k IH]; [done|]. cbn. f_equal. apply IH. }
  rewrite padding_length, Nat.eqb_refl. unfold padding. rewrite strip_rev; [..|done].
  - subst digits. rewrite mapM_b64 by done. cbn. by rewrite unsextets_sextets.
  - subst digits. rewrite length_fmap. pose proof (sextets_length s). Z.to_euclidean_division_equations. lia.
Qed.

(** the digits, without padding *)
Lemma toBase64Url_eq s : toBase64Url s = chars (to_url <$> (b64_char <$> sextets s)).
Proof.
  pose proof (sextets_ok s) as Hok. unfold toBase64Url.
  assert (to_url <$> unchars (btoa s) = (to_url <$> (b64_char <$> sextets s)) ++
    padding (length (b64_char <$> sextets s))) as ->.
  { unfold btoa. rewrite unchars_chars, fmap_app. f_equal. unfold padding.
    generalize (Z.to_nat ((4 - Z.of_nat (length (b64_char <$> sextets s)) mod 4) mod 4)).
    induction n as [|k IH]; [done|]. cbn. f_equal. apply IH. }
  unfold strip_all, padding. rewrite strip_rev; [done| |].
  - rewrite length_app, length_replicate. lia.
  - rewrite <-list_fmap_compose. apply Forall_fmap. eapply Forall_impl; [exact Hok|]. intros n Hn.
    by destruct (b64_char_plain n Hn) as (_ & ? & _).
Qed.
Lemma toBase64Url_nonempty s : s ≠ "" → nonempty (toBase64Url s) = true.
Proof. rewrite toBase64Url_eq. by destruct s as [|a [|b [|c s]]]. Qed.
Lemma toBase64Url_chars s : forall_chars is_base64url (toBase64Url s) = true.
Proof.
  rewrite toBase64Url_eq. pose proof (sextets_ok s) as Hok. induction Hok as [|n l Hn _ IH]; [done|]. cbn. rewrite IH, andb_true_r.
  revert n Hn. apply (sextet_all (λ n, is_base64url (to_url (b64_char n)))). by vm_compute.
Qed.
(** Base64url decoding inverts encoding on every non-empty byte sequence (the encodings of keys and
    ciphertexts), although the decoder re-inserts the padding the encoder strips. *)
Theorem base64url_roundtrip s : s ≠ "" → fromBase64Url (toBase64Url s) = Ok s.
Proof.
  intros Hs. pose proof (sextets_ok s) as Hok. unfold fromBase64Url. eapply res_step.
  { by apply throw_if_false, negb_false_iff, toBase64Url_nonempty. }
  rewrite toBase64Url_eq, unchars_chars.
  assert (of_url <$> (to_url <$> (b64_char <$> sextets s)) = b64_char <$> sextets s) as ->.
  { clear Hs. induction Hok as [|n l Hn _ IH]; [done|]. rewrite !fmap_cons, IH. f_equal.
    by destruct (b64_char_plain n Hn) as (-> & _). }
  apply atob_btoa.
Qed.

Lemma base64url_roundtrip_witness : fromBase64Url (toBase64Url "k3n") = Ok "k3n".
Proof. apply (base64url_roundtrip "k3n"). discriminate. Defined.
