(* ===== verification/Storage.v ===== *)
(** * Secure storage: the interface the client's records are kept behind ([core/contracts.ts])

    Record contents are byte sequences, held as [string]s. [SecureStorage] is the port the client
    code programs against; [SecureStorageLaws] is what it relies on: a read returns what was last
    written, and a compare-and-swap applies all its updates at once when every expected value is
    the current one, and changes nothing otherwise; a swap that names a record twice is refused, as both backends of the
    vault do. The in-memory instance discharges the laws. *)
From S2P Require Import Prelude.

(* service/src/core/contracts.ts:143-143 SecureRecordUpdate *)
Record SecureRecordUpdate := {
  recordType : string; recordId : string; expected : option string; next : string }.

(* service/src/core/contracts.ts:145-158 SecureStorage *)
Class SecureStorage (St : Type) := {
  read : St → string → string → option string;
  write : string → string → string → St → St;
  delete_record : string → string → St → St;
  compareAndSwapRecords : list SecureRecordUpdate → St → bool * St }.

(** The updates of one swap, in order. *)
Definition update_key (u : SecureRecordUpdate) : string * string := (recordType u, recordId u).
Definition expectations_hold {St} `{SecureStorage St} (us : list SecureRecordUpdate) (st : St) : bool :=
  forallb (λ u, bool_decide (read st (recordType u) (recordId u) = expected u)) us.

Class SecureStorageLaws (St : Type) `{SecureStorage St} : Prop := {
  read_write (st : St) t i v : read (write t i v st) t i = Some v;
  read_write_ne (st : St) t i v t' i' : (t', i') ≠ (t, i) → read (write t i v st) t' i' = read st t' i';
  read_delete (st : St) t i : read (delete_record t i st) t i = None;
  read_delete_ne (st : St) t i t' i' : (t', i') ≠ (t, i) → read (delete_record t i st) t' i' = read st t' i';
  cas_result (st : St) us : NoDup (update_key <$> us) →
    (compareAndSwapRecords us st).1 = expectations_hold us st;
  cas_distinct (st : St) us : (compareAndSwapRecords us st).1 = true → NoDup (update_key <$> us);
  cas_fail (st : St) us : (compareAndSwapRecords us st).1 = false → (compareAndSwapRecords us st).2 = st;
  cas_written (st : St) us u : NoDup (update_key <$> us) →
    (compareAndSwapRecords us st).1 = true → u ∈ us →
    read (compareAndSwapRecords us st).2 (recordType u) (recordId u) = Some (next u);
  cas_other (st : St) us t i : (t, i) ∉ update_key <$> us →
    read (compareAndSwapRecords us st).2 t i = read st t i }.

(** The order of the updates of one swap does not matter. *)
Lemma cas_perm `{SecureStorageLaws St} us us' (st : St) : us ≡ₚ us' → NoDup (update_key <$> us) →
  (compareAndSwapRecords us' st).1 = (compareAndSwapRecords us st).1 ∧
  ∀ t i, read (compareAndSwapRecords us' st).2 t i = read (compareAndSwapRecords us st).2 t i.
Proof.
  intros Hp Hnd. assert (NoDup (update_key <$> us')) as Hnd' by by rewrite <-Hp.
  assert ((compareAndSwapRecords us' st).1 = (compareAndSwapRecords us st).1) as E.
  { rewrite !cas_result by done. unfold expectations_hold. apply eq_true_iff_eq. rewrite !forallb_forall.
    split; intros Hall u Hu; apply Hall; apply list_elem_of_In; apply list_elem_of_In in Hu; [by rewrite <-Hp|by rewrite Hp]. }
  split; [done|]. intros t i. destruct ((compareAndSwapRecords us st).1) eqn:Hr; [|by rewrite !cas_fail].
  destruct (decide ((t, i) ∈ update_key <$> us)) as [Hin|Hin].
  - apply list_elem_of_fmap in Hin as (u & [= -> ->] & Hu). by rewrite !cas_written by (done || by rewrite <-Hp).
  - by rewrite !cas_other by (done || by rewrite <-Hp).
Qed.

(** ** The in-memory instance *)
Definition memory := gmap (string * string) string.

Definition apply_updates (us : list SecureRecordUpdate) (st : memory) : memory :=
  foldl (λ st u, <[update_key u := next u]> st) st us.

#[export] Instance memory_storage : SecureStorage memory := {|
  read st t i := st !! (t, i);
  write t i v st := <[(t, i) := v]> st;
  delete_record t i st := delete (t, i) st;
  compareAndSwapRecords us st :=
    if bool_decide (NoDup (update_key <$> us)) && forallb (λ u, bool_decide (st !! update_key u = expected u)) us
    then (true, apply_updates us st) else (false, st) |}.

Lemma apply_updates_other us (st : memory) k :
  k ∉ update_key <$> us → apply_updates us st !! k = st !! k.
Proof.
  revert st. induction us as [|u us IH]; intros st Hk; [done|].
  rewrite fmap_cons, not_elem_of_cons in Hk. destruct Hk as [Hu Hk].
  unfold apply_updates in *. simpl. rewrite IH by done. by apply lookup_insert_ne.
Qed.

Lemma apply_updates_written us (st : memory) u :
  NoDup (update_key <$> us) → u ∈ us → apply_updates us st !! update_key u = Some (next u).
Proof.
  revert st. induction us as [|u' us IH]; intros st Hnd Hu; [set_solver|].
  rewrite fmap_cons, NoDup_cons in Hnd. destruct Hnd as [Hn Hnd].
  apply elem_of_cons in Hu as [<-|Hu].
  - etrans; [by apply (apply_updates_other us (<[update_key u := next u]> st))|]. apply lookup_insert_eq.
  - by apply (IH (<[update_key u' := next u']> st)).
Qed.

#[export] Instance memory_storage_laws : SecureStorageLaws memory.
Proof.
  split; simpl; intros.
  - apply lookup_insert_eq.
  - apply lookup_insert_ne. congruence.
  - apply lookup_delete_eq.
  - apply lookup_delete_ne. congruence.
  - rewrite (bool_decide_eq_true_2 (NoDup _)) by done. by destruct (forallb _ us) eqn:E.
  - by destruct (bool_decide_reflect (NoDup (update_key <$> us))).
  - by destruct (_ && _).
  - destruct (_ && _); [|done]. by apply apply_updates_written.
  - destruct (_ && _); [|done]. by apply apply_updates_other.
Qed.

(** ** Swaps of a single record *)
Section single.
Context `{SecureStorageLaws St}.

Definition swap_record (t i : string) (e : option string) (n : string) (st : St) : bool * St :=
  compareAndSwapRecords [{| recordType := t; recordId := i; expected := e; next := n |}] st.

Lemma swap_record_true t i e n (st : St) :
  (swap_record t i e n st).1 = true ↔ read st t i = e.
Proof.
  unfold swap_record. rewrite cas_result by apply NoDup_singleton.
  unfold expectations_hold; simpl. rewrite andb_true_r. apply bool_decide_eq_true.
Qed.

Lemma swap_record_read t i e n (st : St) :
  (swap_record t i e n st).1 = true → read (swap_record t i e n st).2 t i = Some n.
Proof.
  intros Hs. unfold swap_record in *.
  apply (cas_written st _ {| recordType := t; recordId := i; expected := e; next := n |});
    [apply NoDup_singleton|done|by apply list_elem_of_singleton].
Qed.

Lemma swap_record_fail t i e n (st : St) :
  (swap_record t i e n st).1 = false → (swap_record t i e n st).2 = st.
Proof. apply cas_fail. Qed.

Lemma swap_record_other t i e n (st : St) t' i' :
  (t', i') ≠ (t, i) → read (swap_record t i e n st).2 t' i' = read st t' i'.
Proof. intros Hne. apply cas_other. simpl. set_solver. Qed.
End single.
