(* ===== verification/ReplayWindow.v ===== *)
(** * The sliding-window replay guard ([service/src/utils/replayGuard.ts])

    [ReplayGuard] keeps, per context, the highest sequence number accepted and the set of the
    numbers accepted inside the window. The specification [Spec] keeps every number ever
    accepted; the guard is proved to answer exactly like it while storing at most [windowSize]
    numbers per context. *)
From S2P Require Import Prelude.

(** ** The code *)

(* service/src/utils/replayGuard.ts:11-11 ReplayWindow *)
Record ReplayWindow := { highest : Z; seen : gset Z }.

(* service/src/utils/replayGuard.ts:13-16 ReplayGuard, fields *)
Record ReplayGuard := { windows : gmap string ReplayWindow; windowSize : Z }.

(* service/src/utils/replayGuard.ts:16-20 ReplayGuard.constructor *)
Definition newReplayGuard (size : jsnum) : res ReplayGuard :=
  match safe_int size with
  | Some n => if n <? 1 then Err "Replay window size must be a positive safe integer."
              else Ok {| windows := ∅; windowSize := n |}
  | None => Err "Replay window size must be a positive safe integer."
  end.

(** The loop that deletes the numbers below the window's minimum. *)
Definition prune (minimum : Z) (s : gset Z) : gset Z := filter (λ x, minimum ≤ x) s.

(* service/src/utils/replayGuard.ts:27-50 ReplayGuard.accept *)
Definition accept (g : ReplayGuard) (context : string) (seq : jsnum) : bool * ReplayGuard :=
  match safe_int seq with
  | None => (false, g)
  | Some n =>
      if n <? 1 then (false, g) else
      match windows g !! context with
      | None => (true, {| windows := <[context := {| highest := n; seen := {[n]} |}]> (windows g);
                          windowSize := windowSize g |})
      | Some w =>
          if bool_decide (n ∈ seen w) || (n <=? highest w - windowSize g) then (false, g) else
          let h := Z.max (highest w) n in
          let minimum := h - windowSize g + 1 in
          (true, {| windows := <[context := {| highest := h; seen := prune minimum ({[n]} ∪ seen w) |}]> (windows g);
                    windowSize := windowSize g |})
      end
  end.

(* service/src/utils/replayGuard.ts:52-54 ReplayGuard.reset *)
Definition reset (g : ReplayGuard) (context : string) : ReplayGuard :=
  {| windows := delete context (windows g); windowSize := windowSize g |}.

(* service/src/utils/replayGuard.ts:56-58 ReplayGuard.clear *)
Definition clear (g : ReplayGuard) : ReplayGuard :=
  {| windows := ∅; windowSize := windowSize g |}.

(** A client of the guard: a sequence of calls. [accept] answers, the others do not. *)
Inductive op := Accept (context : string) (seq : jsnum) | Reset (context : string) | Clear.

Definition step (g : ReplayGuard) (o : op) : option bool * ReplayGuard :=
  match o with
  | Accept c n => let '(b, g') := accept g c n in (Some b, g')
  | Reset c => (None, reset g c)
  | Clear => (None, clear g)
  end.

Fixpoint run (g : ReplayGuard) (ops : list op) : list (option bool) * ReplayGuard :=
  match ops with
  | [] => ([], g)
  | o :: ops' => let '(b, g1) := step g o in let '(bs, g2) := run g1 ops' in (b :: bs, g2)
  end.

(** ** The specification: every accepted number is remembered *)
Module Spec.
Definition top (l : list Z) : Z := foldr Z.max 0 l.

Definition accept (W : Z) (m : gmap string (list Z)) (context : string) (seq : jsnum)
    : bool * gmap string (list Z) :=
  match safe_int seq with
  | Some n =>
      let l := default [] (m !! context) in
      if (1 <=? n) && bool_decide (n ∉ l) && (bool_decide (l = []) || (top l - W <? n))
      then (true, <[context := n :: l]> m) else (false, m)
  | None => (false, m)
  end.

Definition step (W : Z) (m : gmap string (list Z)) (o : op) : option bool * gmap string (list Z) :=
  match o with
  | Accept c n => let '(b, m') := accept W m c n in (Some b, m')
  | Reset c => (None, delete c m)
  | Clear => (None, ∅)
  end.

Fixpoint run (W : Z) (m : gmap string (list Z)) (ops : list op) : list (option bool) :=
  match ops with
  | [] => []
  | o :: ops' => let '(b, m1) := step W m o in b :: run W m1 ops'
  end.
End Spec.

(** ** Refinement *)
Definition window_rel (W : Z) (w : option ReplayWindow) (l : option (list Z)) : Prop :=
  match w, l with
  | None, None => True
  | Some w, Some l =>
      l ≠ [] ∧ highest w = Spec.top l ∧ 1 ≤ Spec.top l ∧
      (∀ x, x ∈ seen w ↔ x ∈ l ∧ Spec.top l - W < x)
  | _, _ => False
  end.

Definition guard_rel (g : ReplayGuard) (m : gmap string (list Z)) : Prop :=
  1 ≤ windowSize g ∧ ∀ c, window_rel (windowSize g) (windows g !! c) (m !! c).

Lemma elem_of_prune minimum s x : x ∈ prune minimum s ↔ minimum ≤ x ∧ x ∈ s.
Proof. unfold prune. apply elem_of_filter. Qed.

Lemma guard_rel_insert g m c w l :
  guard_rel g m → window_rel (windowSize g) (Some w) (Some l) →
  guard_rel {| windows := <[c := w]> (windows g); windowSize := windowSize g |} (<[c := l]> m).
Proof.
  intros [HW H] Hw. split; [done|]. intros c'. simpl.
  destruct (decide (c = c')) as [->|Hne].
  - by rewrite !lookup_insert_eq.
  - rewrite !lookup_insert_ne by done. apply H.
Qed.

Lemma accept_rel g m c n :
  guard_rel g m →
  (accept g c n).1 = (Spec.accept (windowSize g) m c n).1 ∧
  guard_rel (accept g c n).2 (Spec.accept (windowSize g) m c n).2.
Proof.
  intros Hrel. unfold accept, Spec.accept.
  destruct (safe_int n) as [z|]; [|done].
  destruct (Z.ltb_spec z 1).
  { by replace (1 <=? z) with false by lia. }
  replace (1 <=? z) with true by lia. simpl.
  destruct Hrel as [HW Hrel]. pose proof (Hrel c) as Hc.
  destruct (windows g !! c) as [w|] eqn:Hw, (m !! c) as [l|] eqn:Hl; simpl in Hc |- *; try done.
  - destruct Hc as (Hne & Hh & Htop & Hseen).
    rewrite (bool_decide_eq_false_2 (l = [])) by done. rewrite Hh. simpl orb.
    destruct (Z.leb_spec z (Spec.top l - windowSize g)) as [Hold|Hnew].
    { rewrite orb_true_r. replace (Spec.top l - windowSize g <? z) with false by lia.
      rewrite andb_false_r. by split. }
    replace (Spec.top l - windowSize g <? z) with true by lia. rewrite orb_false_r, andb_true_r.
    destruct (decide (z ∈ l)) as [Hin|Hin].
    { rewrite bool_decide_eq_true_2 by (apply Hseen; split; [done|lia]).
      rewrite bool_decide_eq_false_2 by tauto. by split. }
    rewrite bool_decide_eq_false_2 by (rewrite Hseen; tauto).
    rewrite bool_decide_eq_true_2 by done. split; [done|].
    apply guard_rel_insert; [done|]. simpl.
    split_and!; [done|apply Z.max_comm|lia|].
    intros x. rewrite elem_of_prune, elem_of_union, elem_of_singleton, Hseen, elem_of_cons.
    rewrite (Z.max_comm (Spec.top l)). split; [intros [? [->|[? ?]]]; (split; [auto|lia])|].
    intros [[->|?] ?]; (split; [lia|]); [by left|right]. split; [done|lia].
  - split; [done|].
    apply guard_rel_insert; [done|]. simpl.
    split_and!; [done|lia|lia|]. intros x.
    rewrite elem_of_singleton, elem_of_cons, elem_of_nil. split; [intros ->|tauto].
    split; [auto|lia].
Qed.

Lemma accept_windowSize g c n : windowSize (accept g c n).2 = windowSize g.
Proof. unfold accept. repeat case_match; done. Qed.

Lemma step_rel g m o :
  guard_rel g m →
  (step g o).1 = (Spec.step (windowSize g) m o).1 ∧
  guard_rel (step g o).2 (Spec.step (windowSize g) m o).2 ∧
  windowSize (step g o).2 = windowSize g.
Proof.
  intros Hrel. destruct o as [c n|c|]; simpl.
  - pose proof (accept_rel g m c n Hrel) as [H1 H2]. pose proof (accept_windowSize g c n).
    destruct (accept g c n), (Spec.accept _ m c n); simpl in *. by subst.
  - split_and!; [done| |done]. destruct Hrel as [HW Hrel]. split; [done|]. intros c'. simpl.
    destruct (decide (c = c')) as [->|]; [by rewrite !lookup_delete_eq|].
    rewrite !lookup_delete_ne by done. apply Hrel.
  - split_and!; [done| |done]. destruct Hrel as [HW _]. split; [done|]. intros c. simpl.
    by rewrite !lookup_empty.
Qed.

Lemma run_rel ops : ∀ g m, guard_rel g m →
  (run g ops).1 = Spec.run (windowSize g) m ops ∧ ∃ m', guard_rel (run g ops).2 m'.
Proof.
  induction ops as [|o ops IH]; intros g m Hrel; simpl; [eauto|].
  destruct (step_rel g m o Hrel) as (H1 & H2 & H3).
  destruct (step g o) as [b g1], (Spec.step (windowSize g) m o) as [b' m1]; simpl in *; subst b'.
  destruct (IH g1 m1 H2) as (E & m' & Hm'). rewrite H3 in E.
  destruct (run g1 ops) as [bs g2]; simpl in *. split; [by rewrite E|eauto].
Qed.

Lemma new_rel size g : newReplayGuard size = Ok g → guard_rel g ∅ ∧ safe_int size = Some (windowSize g).
Proof.
  unfold newReplayGuard. destruct (safe_int size) as [n|]; [|done].
  destruct (Z.ltb_spec n 1); [done|]. intros [= <-]. simpl. split; [|done].
  split; [done|]. intros c. simpl. by rewrite !lookup_empty.
Qed.

(** the guard answers every sequence of [accept], [reset] and [clear] calls exactly like the
    specification that remembers every number it ever accepted: a number is accepted when it is
    a positive safe integer, was not accepted before in this context, and is above the highest
    accepted one minus the window. *)
Theorem replay_guard_refines_spec size g ops :
  newReplayGuard size = Ok g →
  (run g ops).1 = Spec.run (windowSize g) ∅ ops.
Proof. intros H. apply new_rel in H as [H _]. by destruct (run_rel ops g ∅ H) as [E _]. Qed.

Definition demo_ops : list op :=
  [Accept "a" (NInt 5); Accept "a" (NInt 5); Accept "a" (NInt 3); Accept "a" (NInt 9);
   Accept "a" (NInt 5); Accept "b" (NInt 5); Reset "a"; Accept "a" (NInt 5); Accept "a" (NInt 0)].

Lemma replay_guard_refines_spec_witness :
  ∃ g, newReplayGuard (NInt 4) = Ok g ∧ (run g demo_ops).1 = Spec.run (windowSize g) ∅ demo_ops ∧
    (run g demo_ops).1 = [Some true; Some false; Some true; Some true; Some false; Some true; None; Some true; Some false].
Proof.
  eexists. split; [reflexivity|]. split.
  - by apply (replay_guard_refines_spec (NInt 4)).
  - vm_compute. reflexivity.
Defined.

(** ** No number is accepted twice *)
Lemma spec_no_repeat W ops : ∀ m c n l,
  m !! c = Some l → n ∈ l → Forall (λ o, o ≠ Reset c ∧ o ≠ Clear) ops →
  ∀ i, ops !! i = Some (Accept c (NInt n)) → Spec.run W m ops !! i = Some (Some false).
Proof.
  induction ops as [|o ops IH]; intros m c n l Hm Hn Hops i Hi; [done|].
  inversion_clear Hops as [|?? [Ho1 Ho2] Hops']. simpl.
  assert (∃ l', (Spec.step W m o).2 !! c = Some l' ∧ n ∈ l') as (l' & Hm' & Hn').
  { destruct o as [c' k|c'|]; simpl.
    - unfold Spec.accept. destruct (safe_int k) as [z|]; [|by eauto].
      case_if; simpl; [|by eauto]. destruct (decide (c' = c)) as [->|].
      + rewrite lookup_insert_eq, Hm. eexists. split; [done|]. simpl. set_solver.
      + rewrite lookup_insert_ne by done. eauto.
    - rewrite lookup_delete_ne by congruence. eauto.
    - done. }
  destruct i as [|i]; simpl in Hi.
  - injection Hi as ->. simpl. unfold Spec.accept. destruct (safe_int (NInt n)) as [z|] eqn:Hz; [|done].
    apply safe_int_Some in Hz as [[= <-] _]. rewrite Hm. simpl.
    rewrite (bool_decide_eq_false_2 (n ∉ l)) by tauto. by rewrite andb_false_r.
  - destruct (Spec.step W m o) as [b m1]. simpl in *. by eapply IH.
Qed.

(** At most once: after [accept] has accepted a number in a context, it refuses that number
    until the context is reset or the guard cleared, whatever other calls come between. *)
Theorem replay_guard_at_most_once size g c n pre ops i :
  newReplayGuard size = Ok g →
  last (run g (pre ++ [Accept c (NInt n)])).1 = Some (Some true) →
  Forall (λ o, o ≠ Reset c ∧ o ≠ Clear) ops →
  ops !! i = Some (Accept c (NInt n)) →
  (run (run g (pre ++ [Accept c (NInt n)])).2 ops).1 !! i = Some (Some false).
Proof.
  intros Hg Hacc Hops Hi. apply new_rel in Hg as [Hrel _].
  assert (∀ pre g m, guard_rel g m → ∃ m', guard_rel (run g (pre ++ [Accept c (NInt n)])).2 m' ∧
    (last (run g (pre ++ [Accept c (NInt n)])).1 = Some (Some true) → ∃ l, m' !! c = Some l ∧ n ∈ l)) as key.
  { clear. induction pre as [|o pre IH]; intros g m Hrel; simpl.
    - destruct (accept_rel g m c (NInt n) Hrel) as [H1 H2].
      destruct (accept g c (NInt n)) as [b g1]. simpl in *. exists (Spec.accept (windowSize g) m c (NInt n)).2.
      split; [done|]. intros [= ->]. revert H1. unfold Spec.accept.
      destruct (safe_int (NInt n)) as [z|] eqn:Hz; [|done]. apply safe_int_Some in Hz as [[= <-] _].
      case_if; [|done]. intros _. simpl. rewrite lookup_insert_eq. eexists. split; [done|set_solver].
    - destruct (step_rel g m o Hrel) as (_ & H2 & _). destruct (step g o) as [b g1]. simpl in *.
      destruct (IH g1 _ H2) as (m' & Hm' & Hlast). destruct (run g1 _) as [bs g2] eqn:E. simpl in *.
      exists m'. split; [done|]. intros HL. apply Hlast. destruct bs; [|done]. exfalso. simpl in HL.
      destruct pre; simpl in E; repeat case_match; simplify_eq. }
  destruct (key pre g ∅ Hrel) as (m' & Hrel' & Hl). destruct (Hl Hacc) as (l & Hm & Hn).
  destruct (run_rel ops _ _ Hrel') as [-> _]. by eapply spec_no_repeat.
Qed.

Lemma replay_guard_at_most_once_witness :
  ∃ g, newReplayGuard (NInt 4) = Ok g ∧
    (run (run g ([Accept "a" (NInt 2)] ++ [Accept "a" (NInt 1)])).2
       [Accept "a" (NInt 4); Accept "a" (NInt 1)]).1 !! 1%nat = Some (Some false).
Proof.
  eexists. split; [reflexivity|].
  apply (replay_guard_at_most_once (NInt 4) _ "a" 1 [Accept "a" (NInt 2)] _ 1);
    [reflexivity|vm_compute; reflexivity| |reflexivity].
  repeat constructor; discriminate.
Defined.

(** ** Memory *)
Lemma size_interval (s : gset Z) lo (n : nat) :
  (∀ x, x ∈ s → lo < x ≤ lo + Z.of_nat n) → (size s ≤ n)%nat.
Proof.
  intros H. assert (s ⊆ list_to_set (seqZ (lo + 1) (Z.of_nat n))) as Hsub.
  { intros x Hx. apply elem_of_list_to_set, elem_of_seqZ. specialize (H x Hx). lia. }
  apply subseteq_size in Hsub. rewrite size_list_to_set in Hsub by apply NoDup_seqZ.
  rewrite length_seqZ in Hsub. lia.
Qed.

Lemma top_ub l x : x ∈ l → x ≤ Spec.top l.
Proof. unfold Spec.top. induction l as [|y l IH]; simpl; [set_solver|]. intros [->|Hx]%elem_of_cons; [lia|]. specialize (IH Hx). lia. Qed.

(** the memory of a context is bounded by the window: whatever the calls, [seen] never holds
    more than [windowSize] numbers, all of them inside the window below [highest]. *)
Theorem replay_guard_memory_bounded size g ops c w :
  newReplayGuard size = Ok g →
  windows (run g ops).2 !! c = Some w →
  Z.of_nat (base.size (seen w)) ≤ windowSize g ∧ highest w ∈ seen w ∧
  ∀ x, x ∈ seen w → highest w - windowSize g < x ≤ highest w.
Proof.
  intros Hg Hw. apply new_rel in Hg as [Hrel _].
  assert (∀ g m, guard_rel g m → windowSize (run g ops).2 = windowSize g ∧ ∃ m', guard_rel (run g ops).2 m') as key.
  { clear. induction ops as [|o ops IH]; intros g m Hrel; simpl; [eauto|].
    destruct (step_rel g m o Hrel) as (_ & H2 & H3). destruct (step g o) as [b g1]. simpl in *.
    destruct (IH g1 _ H2) as [E Hm]. destruct (run g1 ops). simpl in *. split; [congruence|done]. }
  destruct (key g ∅ Hrel) as (EW & m & HW & Hm). specialize (Hm c). rewrite Hw, EW in Hm.
  destruct (m !! c) as [l|]; [|done]. destruct Hm as (Hne & Hh & Htop & Hseen).
  assert (∀ x, x ∈ seen w → highest w - windowSize g < x ≤ highest w) as Hin.
  { intros x Hx. apply Hseen in Hx as [Hx ?]. apply top_ub in Hx. lia. }
  rewrite EW in HW. split_and!; [|apply Hseen; split; [|lia]|done].
  - enough (base.size (seen w) ≤ Z.to_nat (windowSize g))%nat by lia.
    apply (size_interval _ (highest w - windowSize g)). intros x Hx. specialize (Hin x Hx). lia.
  - rewrite Hh. clear -Hne Htop. unfold Spec.top in *. induction l as [|y l IH]; simpl in *; [done|].
    destruct (Z.max_spec y (foldr Z.max 0 l)) as [[? ->]|[? ->]]; [|set_solver].
    apply elem_of_cons. right. destruct l; [simpl in *; lia|]. apply IH; [done|]. lia.
Qed.

Lemma replay_guard_memory_bounded_witness :
  ∃ g w, newReplayGuard (NInt 4) = Ok g ∧ windows (run g demo_ops).2 !! "b"%string = Some w ∧
    Z.of_nat (base.size (seen w)) ≤ windowSize g.
Proof.
  eexists _, _. split; [reflexivity|]. split; [vm_compute; reflexivity|].
  eapply (replay_guard_memory_bounded (NInt 4) _ demo_ops "b"); [reflexivity|].
  vm_compute. reflexivity.
Defined.
