(* ===== verification/RateLimit.v ===== *)
(** * Relay admission limits ([backend/socket.io/rateLimiter.ts], [backend/socket.io/socketLimits.ts])

    The token-bucket limiter of socket events, the concurrent-slot counter of sockets and the
    client address they are keyed by. Token counts are held in thousandths of a token, so that
    [elapsedSeconds * refillPerSecond] is an exact integer for a clock in milliseconds and integer
    capacities, rates and costs; the rounding of the doubles of the source is not modelled. *)
From S2P Require Import Prelude.

(** ** Token bucket *)

(* backend/socket.io/rateLimiter.ts:1-6 RateLimiterOptions *)
Record RateLimiterOptions := { capacity : Z; refillPerSecond : Z }.

(* backend/socket.io/rateLimiter.ts:8-11 Bucket *)
Record Bucket := { tokens : Z (* thousandths *); lastRefill : Z (* milliseconds *) }.

(* backend/socket.io/rateLimiter.ts:22-25 RateLimiter, fields *)
Record RateLimiter := { buckets : gmap string Bucket; options : RateLimiterOptions }.

Definition newRateLimiter (o : RateLimiterOptions) : RateLimiter := {| buckets := ∅; options := o |}.

(* backend/socket.io/rateLimiter.ts:28-45 RateLimiter.consume *)
Definition consume (r : RateLimiter) (key : string) (cost now : Z) : bool * RateLimiter :=
  let o := options r in
  let bucket := default {| tokens := 1000 * capacity o; lastRefill := now |} (buckets r !! key) in
  let elapsed := Z.max 0 (now - lastRefill bucket) in
  let t := Z.min (1000 * capacity o) (tokens bucket + elapsed * refillPerSecond o) in
  let set t' := {| buckets := <[key := {| tokens := t'; lastRefill := now |}]> (buckets r); options := o |} in
  if t <? 1000 * cost then (false, set t) else (true, set (t - 1000 * cost)).

(* backend/socket.io/rateLimiter.ts:48-50 RateLimiter.reset *)
Definition resetKey (r : RateLimiter) (key : string) : RateLimiter :=
  {| buckets := delete key (buckets r); options := options r |}.

(** A sequence of calls [(key, cost, now)] and the cost granted to [k] over it. *)
Fixpoint consume_all (r : RateLimiter) (calls : list (string * Z * Z)) : list bool * RateLimiter :=
  match calls with
  | [] => ([], r)
  | (key, cost, now) :: cs =>
      let '(b, r1) := consume r key cost now in
      let '(bs, r2) := consume_all r1 cs in (b :: bs, r2)
  end.

Fixpoint granted (k : string) (calls : list (string * Z * Z)) (answers : list bool) : Z :=
  match calls, answers with
  | (key, cost, _) :: cs, b :: bs =>
      (if b && bool_decide (key = k) then cost else 0) + granted k cs bs
  | _, _ => 0
  end.

(** the calls happen in time order, from [t0] to [t1], at nonnegative costs *)
Fixpoint ordered (t0 t1 : Z) (calls : list (string * Z * Z)) : Prop :=
  match calls with
  | [] => t0 ≤ t1
  | (_, cost, now) :: cs => t0 ≤ now ∧ 0 ≤ cost ∧ ordered now t1 cs
  end.

Definition bucket_ok (r : RateLimiter) (now : Z) (k : string) : Prop :=
  match buckets r !! k with
  | Some b => 0 ≤ tokens b ≤ 1000 * capacity (options r) ∧ lastRefill b ≤ now
  | None => True
  end.

Definition available (r : RateLimiter) (now : Z) (k : string) : Z :=
  match buckets r !! k with
  | Some b => tokens b + (now - lastRefill b) * refillPerSecond (options r)
  | None => 1000 * capacity (options r)
  end.

Section consume_lemmas.
Context (r : RateLimiter) (key : string) (cost now : Z).

Lemma consume_options : options (consume r key cost now).2 = options r.
Proof. unfold consume. by case_if. Qed.

Lemma consume_other k :
  key ≠ k → buckets (consume r key cost now).2 !! k = buckets r !! k.
Proof. intros H. unfold consume. case_if; simpl; by rewrite lookup_insert_ne. Qed.

(** One call on [k]'s bucket pays what it grants out of what was available. *)
Lemma consume_pays :
  bucket_ok r now key → 0 ≤ capacity (options r) → 0 ≤ refillPerSecond (options r) → 0 ≤ cost →
  let '(b, r') := consume r key cost now in
  bucket_ok r' now key ∧
  available r' now key + (if b then 1000 * cost else 0) ≤ available r now key.
Proof.
  unfold bucket_ok, available, consume. intros Hok Hcap Hrate Hcost.
  destruct (buckets r !! key) as [bk|] eqn:Hb; simpl.
  - rewrite Z.max_r by lia.
    set (inc := (now - lastRefill bk) * refillPerSecond (options r)) in *.
    assert (0 ≤ inc) by (unfold inc; nia).
    case_if; simpl; rewrite lookup_insert_eq; simpl; rewrite Z.sub_diag; lia.
  - rewrite Z.sub_diag. simpl.
    case_if; simpl; rewrite lookup_insert_eq; simpl; rewrite Z.sub_diag; lia.
Qed.
End consume_lemmas.

Lemma available_advance r k t t' :
  0 ≤ refillPerSecond (options r) → t ≤ t' → 
  available r t' k ≤ available r t k + (t' - t) * refillPerSecond (options r).
Proof. unfold available. intros. destruct (buckets r !! k); nia. Qed.

Lemma bucket_ok_advance r k t t' : t ≤ t' → bucket_ok r t k → bucket_ok r t' k.
Proof. unfold bucket_ok. intros. destruct (buckets r !! k); naive_solver lia. Qed.

Lemma available_nonneg r k t :
  0 ≤ capacity (options r) → 0 ≤ refillPerSecond (options r) → bucket_ok r t k → 0 ≤ available r t k.
Proof. unfold available, bucket_ok. intros. destruct (buckets r !! k); nia. Qed.

Lemma granted_bound calls k : ∀ r t0 t1,
  0 ≤ capacity (options r) → 0 ≤ refillPerSecond (options r) →
  bucket_ok r t0 k → ordered t0 t1 calls →
  1000 * granted k calls (consume_all r calls).1 ≤
    available r t0 k + (t1 - t0) * refillPerSecond (options r).
Proof.
  induction calls as [|[[key cost] now] cs IH]; intros r t0 t1 Hcap Hrate Hok Hord; simpl in *.
  - pose proof (available_nonneg r k t0 Hcap Hrate Hok). nia.
  - destruct Hord as (Ht & Hcost & Hord).
    pose proof (consume_options r key cost now) as Ho.
    pose proof (consume_pays r key cost now) as Hpay.
    pose proof (consume_other r key cost now k) as Hother.
    pose proof (available_advance r k t0 now Hrate Ht).
    pose proof (bucket_ok_advance r k t0 now Ht Hok) as Hok'.
    destruct (consume r key cost now) as [b r1]. simpl in Ho, Hother.
    assert (bucket_ok r1 now k ∧ available r1 now k + 1000 * (if b && bool_decide (key = k) then cost else 0)
            ≤ available r now k) as [Hok1 Hav].
    { destruct (decide (key = k)) as [->|Hne].
      - destruct (Hpay Hok' Hcap Hrate Hcost) as [? ?]. split; [done|].
        rewrite bool_decide_eq_true_2, andb_true_r by done. destruct b; lia.
      - rewrite bool_decide_eq_false_2, andb_false_r by done. unfold bucket_ok, available in *.
        rewrite Hother, Ho by done. split; [done|lia]. }
    specialize (IH r1 now t1). rewrite Ho in IH. specialize (IH Hcap Hrate Hok1 Hord).
    destruct (consume_all r1 cs) as [bs r2]. simpl in *. nia.
Qed.

(** the limiter enforces its rate: over any sequence of calls on any keys between [t0] and
    [t1] (milliseconds, the clock not running backwards), the cost granted to one key is at most
    the burst capacity plus [refillPerSecond] times the elapsed seconds. *)
Theorem rate_limiter_bound o calls k t0 t1 :
  0 ≤ capacity o → 0 ≤ refillPerSecond o → ordered t0 t1 calls →
  1000 * granted k calls (consume_all (newRateLimiter o) calls).1 ≤
    1000 * capacity o + (t1 - t0) * refillPerSecond o.
Proof.
  intros Hcap Hrate Hord.
  exact (granted_bound calls k (newRateLimiter o) t0 t1 Hcap Hrate I Hord).
Qed.

Lemma rate_limiter_bound_witness :
  let calls := [("a", 1, 0); ("a", 1, 0); ("a", 1, 10); ("b", 1, 10); ("a", 1, 1000)]%string in
  1000 * granted "a" calls (consume_all (newRateLimiter {| capacity := 2; refillPerSecond := 1 |}) calls).1
    ≤ 1000 * 2 + (1000 - 0) * 1 ∧
  (consume_all (newRateLimiter {| capacity := 2; refillPerSecond := 1 |}) calls).1 = [true; true; false; true; true].
Proof.
  split; [|vm_compute; reflexivity].
  apply (rate_limiter_bound {| capacity := 2; refillPerSecond := 1 |}); simpl; lia.
Defined.

(** A caller that has been idle long enough to refill gets any cost up to the capacity. *)
Lemma consume_after_idle r key cost now :
  bucket_ok r now key → 0 ≤ cost ≤ capacity (options r) →
  1000 * cost ≤ available r now key →
  (consume r key cost now).1 = true.
Proof.
  unfold bucket_ok, available, consume. intros Hok Hc Hav.
  destruct (buckets r !! key) as [bk|]; simpl in *.
  - rewrite Z.max_r by lia. case_if; [lia|done].
  - case_if; [lia|done].
Qed.

(** ** Concurrent-slot counter

    The release function that [admitSlot] returns is a closure with its own [released] flag: the
    closures are the list [releases] of their keys and flags, a closure is its index. *)

(* backend/socket.io/socketLimits.ts:10-11 MAX_SOCKETS_PER_ADDRESS, MAX_SOCKETS_PER_DEVICE *)
Definition MAX_SOCKETS_PER_ADDRESS : Z := 64.
Definition MAX_SOCKETS_PER_DEVICE : Z := 10.

(* backend/socket.io/socketLimits.ts:12-15 controlEventLimiter, deliveryAckLimiter *)
Definition controlEventLimiter : RateLimiter := newRateLimiter {| capacity := 10; refillPerSecond := 1 |}.
Definition deliveryAckLimiter : RateLimiter := newRateLimiter {| capacity := 128; refillPerSecond := 20 |}.

Record slots := { open : gmap string Z; releases : list (string * bool) }.
Definition no_slots : slots := {| open := ∅; releases := [] |}.

(* backend/socket.io/socketLimits.ts:34-39 slotCounter.admitSlot *)
Definition admitSlot (cap : Z) (key : string) (s : slots) : option nat * slots :=
  let count := default 0 (open s !! key) in
  if cap <=? count then (None, s)
  else (Some (length (releases s)),
        {| open := <[key := count + 1]> (open s); releases := releases s ++ [(key, false)] |}).

(* backend/socket.io/socketLimits.ts:40-45 slotCounter.release *)
Definition release (h : nat) (s : slots) : slots :=
  match releases s !! h with
  | Some (key, false) =>
      let next := default 1 (open s !! key) - 1 in
      {| open := if next <=? 0 then delete key (open s) else <[key := next]> (open s);
         releases := <[h := (key, true)]> (releases s) |}
  | _ => s
  end.

Inductive slot_step (cap : Z) : slots → slots → Prop :=
| admit_step key s : slot_step cap s (admitSlot cap key s).2
| release_step h s : slot_step cap s (release h s).

(** the closures of [key] not called yet *)
Definition live (key : string) (l : list (string * bool)) : Z :=
  Z.of_nat (length (filter (λ p, p = (key, false)) l)).

Definition slots_inv (cap : Z) (s : slots) : Prop :=
  ∀ key, default 0 (open s !! key) = live key (releases s) ∧ live key (releases s) ≤ Z.max cap 0 ∧
         open s !! key ≠ Some 0.

Lemma live_app key l1 l2 : live key (l1 ++ l2) = live key l1 + live key l2.
Proof. unfold live. rewrite filter_app, length_app. lia. Qed.

Lemma live_release key l h k :
  l !! h = Some (k, false) →
  live key (<[h := (k, true)]> l) = live key l - (if bool_decide (key = k) then 1 else 0).
Proof.
  intros Hh. rewrite <-(take_drop_middle l h (k, false)) at 2 by done.
  rewrite insert_take_drop by (by eapply lookup_lt_Some).
  rewrite !live_app. unfold live at 2 4. rewrite !filter_cons.
  destruct (decide ((k, true) = (key, false))) as [|_]; [congruence|].
  destruct (decide ((k, false) = (key, false))) as [E|E].
  - injection E as ->. rewrite bool_decide_eq_true_2 by done. simpl length. unfold live. lia.
  - rewrite bool_decide_eq_false_2 by congruence. unfold live. lia.
Qed.

Lemma slot_step_inv cap s s' : slot_step cap s s' → slots_inv cap s → slots_inv cap s'.
Proof.
  intros Hstep Hinv. destruct Hstep as [key s|h s]; intros key'; pose proof (Hinv key') as (E & B & Z0).
  - unfold admitSlot. case_if; [done|]. simpl. rewrite live_app.
    destruct (decide (key = key')) as [->|Hne].
    + rewrite lookup_insert_eq. unfold live at 2 4. rewrite filter_cons_True by done. simpl.
      rewrite E in *. split_and!; [lia|lia|]. intros [= H]. unfold live in H. lia.
    + rewrite lookup_insert_ne by done. unfold live at 2 4. rewrite filter_cons_False by congruence.
      simpl. rewrite !Z.add_0_r. done.
  - unfold release. destruct (releases s !! h) as [[k [|]]|] eqn:Hh; [done| |done]. simpl.
    rewrite (live_release _ _ _ _ Hh). pose proof (Hinv k) as (Ek & Bk & Zk).
    assert (1 ≤ live k (releases s)) as Hlive.
    { unfold live. assert ((k, false) ∈ filter (λ p, p = (k, false)) (releases s)) as Hin.
      { apply list_elem_of_filter. split; [done|]. by eapply list_elem_of_lookup_2. }
      destruct (filter _ _); [by apply elem_of_nil in Hin|simpl; lia]. }
    destruct (open s !! k) as [n|] eqn:Hn; simpl in Ek; [|lia]. simpl.
    destruct (decide (key' = k)) as [->|Hne].
    + rewrite bool_decide_eq_true_2 by done. case_if.
      * rewrite lookup_delete_eq. simpl. split_and!; [lia|lia|done].
      * rewrite lookup_insert_eq. simpl. split_and!; [lia|lia|]. intros [= ?]. lia.
    + rewrite bool_decide_eq_false_2, Z.sub_0_r by done.
      case_if; [rewrite lookup_delete_ne by done|rewrite lookup_insert_ne by done]; done.
Qed.

(** in every state reached by admissions and release calls, however often a release function
    is called, the count of a key is exactly the number of its admissions not released yet, it
    never exceeds the cap, and a key without admissions has no entry. *)
Theorem slot_counter_exact cap s :
  rtc (slot_step cap) no_slots s → slots_inv cap s.
Proof.
  intros Hr. assert (slots_inv cap no_slots) as H0.
  { intros key. simpl. rewrite lookup_empty. split_and!; [done| |done]. unfold live. simpl. lia. }
  revert H0. induction Hr as [|s1 s2 s3 Hstep _ IH]; [done|].
  intros H. apply IH. by eapply slot_step_inv.
Qed.

Lemma slot_counter_exact_witness :
  let s := release 0 (release 0 (admitSlot 2 "a" (admitSlot 2 "a" no_slots).2).2) in
  slots_inv 2 s ∧ open s !! "a"%string = Some 1.
Proof.
  split; [|vm_compute; reflexivity].
  apply (slot_counter_exact 2).
  eapply rtc_l; [apply (admit_step 2 "a")|].
  eapply rtc_l; [apply (admit_step 2 "a")|].
  eapply rtc_l; [apply (release_step 2 0)|].
  eapply rtc_l; [apply (release_step 2 0)|]. apply rtc_refl.
Defined.

(** ** The client address

    [request.headers['x-forwarded-for']] is absent, one string, or an array of strings. *)
Inductive header := HNone | HOne (s : string) | HMany (l : list string).

Fixpoint split_comma (s : string) : list string :=
  match s with
  | EmptyString => [EmptyString]
  | String c s' =>
      if code c =? 44 then EmptyString :: split_comma s'
      else match split_comma s' with
           | x :: l => String c x :: l
           | [] => [String c EmptyString]
           end
  end.

Fixpoint join_comma (l : list string) : string :=
  match l with [] => EmptyString | [x] => x | x :: l' => x +:+ "," +:+ join_comma l' end.

(** white space of [String.prototype.trim] up to U+00FF *)
Definition is_space (c : ascii) : bool := in_range 9 13 c || (code c =? 32) || (code c =? 160).
Fixpoint trim_start (s : string) : string :=
  match s with String c s' => if is_space c then trim_start s' else s | EmptyString => EmptyString end.
Fixpoint trim_end (s : string) : string :=
  match s with
  | String c s' => let t := trim_end s' in
      if is_space c && bool_decide (t = EmptyString) then EmptyString else String c t
  | EmptyString => EmptyString
  end.
Definition trim (s : string) : string := trim_end (trim_start s).

(* backend/socket.io/socketLimits.ts:22-30 clientAddress *)
Definition clientAddress (trustProxy : bool) (forwarded : header) (remoteAddress : option string) : string :=
  let fallback := default "unknown"%string remoteAddress in
  if trustProxy then
    let value := match forwarded with HNone => None | HOne s => Some s | HMany l => Some (join_comma l) end in
    match v ← value; list.last (List.filter nonempty (map trim (split_comma v))) with
    | Some l => l
    | None => fallback
    end
  else fallback.

Definition no_comma (s : string) : bool := forall_chars (λ c, negb (code c =? 44)) s.

Lemma split_comma_single s : no_comma s = true → split_comma s = [s].
Proof.
  induction s as [|c s IH]; [done|]. unfold no_comma in *. simpl.
  destruct (code c =? 44); simpl; [done|]. intros H. by rewrite IH.
Qed.

Lemma split_comma_ne s : split_comma s ≠ [].
Proof. induction s as [|c s IH]; simpl; [done|]. case_if; [done|]. by destruct (split_comma s). Qed.

Lemma split_comma_app h a : split_comma (h +:+ "," +:+ a) = split_comma h ++ split_comma a.
Proof.
  induction h as [|c h IH]; [done|].
  change ((String c h) +:+ "," +:+ a) with (String c (h +:+ "," +:+ a)). simpl. rewrite IH.
  case_if; [done|]. pose proof (split_comma_ne h). by destruct (split_comma h).
Qed.

(** behind the trusted proxy the address is the entry the proxy appended, whatever list of
    entries the client sent in front of it: a forged [X-Forwarded-For] does not choose the key of
    the connection limit. *)
Theorem client_address_unspoofable forged appended remote :
  no_comma appended = true → trim appended ≠ EmptyString →
  clientAddress true (HOne (forged +:+ "," +:+ appended)) remote = trim appended.
Proof.
  intros Hc Ht. unfold clientAddress. simpl.
  rewrite split_comma_app, (split_comma_single appended), map_app, List.filter_app by done. simpl.
  rewrite (proj2 (nonempty_true _) Ht). by rewrite last_snoc.
Qed.

Lemma client_address_unspoofable_witness :
  clientAddress true (HOne ("1.2.3.4, 5.6.7.8" +:+ "," +:+ " 10.0.0.9")) (Some "9.9.9.9"%string) = "10.0.0.9"%string.
Proof.
  apply (client_address_unspoofable "1.2.3.4, 5.6.7.8" " 10.0.0.9" (Some "9.9.9.9"%string));
    [reflexivity|vm_compute; discriminate].
Defined.
