(* ===== verification/EventLoop.v ===== *)
(** * Asynchronous handlers on one event loop

    JavaScript runs a handler without interruption up to its next [await]; other handlers run before it resumes. An [async]
    computation runs from the current world to its first suspension or its end; what it waits for is a condition on the world,
    and it resumes on whatever the world is then. [Fork] is a promise nobody awaits. A system is a world and the suspended
    tasks: any ready task may resume, a new event may start a handler, and the environment may move the world.

    A property of single segments that composes ([always R], [R] a preorder) is a property of everything that is reached. *)
From S2P Require Import Prelude.

Inductive task (W A : Type) : Type :=
| Done (r : res A)
| Await (ready : W → bool) (resume : W → W * task W A)
| Fork (child : task W unit) (rest : task W A).
Arguments Done {W A} _.
Arguments Await {W A} _ _.
Arguments Fork {W A} _ _.
Definition async (W A : Type) : Type := W → W * task W A.

Fixpoint bind_task {W A B : Type} (t : task W A) (k : A → async W B) (w : W) : W * task W B :=
  match t with
  | Done (Ok a) => k a w
  | Done (Err e) => (w, Done (Err e))
  | Await ready resume => (w, Await ready (λ w', let '(w'', t') := resume w' in bind_task t' k w''))
  | Fork c t' => let '(w', t'') := bind_task t' k w in (w', Fork c t'')
  end.
#[export] Instance async_bind {W} : MBind (async W) := λ A B k m w, let '(w', t) := m w in bind_task t k w'.
#[export] Instance async_ret {W} : MRet (async W) := λ A a w, (w, Done (Ok a)).
(** [try { m } catch (e) { h(e) }] *)
Fixpoint catch_task {W A : Type} (t : task W A) (h : string → async W A) (w : W) : W * task W A :=
  match t with
  | Done (Ok a) => (w, Done (Ok a))
  | Done (Err e) => h e w
  | Await ready resume => (w, Await ready (λ w', let '(w'', t') := resume w' in catch_task t' h w''))
  | Fork c t' => let '(w', t'') := catch_task t' h w in (w', Fork c t'')
  end.
Definition try_ {W A : Type} (m : async W A) (h : string → async W A) : async W A := λ w, let '(w', t) := m w in catch_task t h w'.
(** what runs without suspension *)
Definition sync {W A : Type} (m : M W A) : async W A := λ w, let '(r, w') := m w in (w', Done r).
Definition fail {W A : Type} (e : string) : async W A := sync (throw e).
(** [await] of a promise that settles when [ready] holds *)
Definition wait {W} (ready : W → bool) : async W unit := λ w, (w, Await ready (λ w', (w', Done (Ok tt)))).
Definition suspend {W} : async W unit := wait (λ _, true).
(** [await f()] for an operation of another process: it happens some time later, and the handler resumes later still *)
Definition call {W A : Type} (f : M W A) : async W A :=
  suspend;;
  r ← sync (λ w, let '(r, w') := f w in (Ok r, w'));
  suspend;;
  sync (lift r).
(** [await m()]: even a finished call resumes only later *)
Definition awaited {W A : Type} (m : async W A) : async W A :=
  r ← try_ (a ← m; mret (Ok a)) (λ e, mret (Err e)); suspend;; sync (lift r).
(** a loop whose bound is used up never goes on, so that any finite run is one of some bound *)
Definition hang {W A : Type} : async W A := λ w, (w, Await (λ _, false) (λ w', (w', Done (Err "unreachable")))).
(** [void m()] *)
Definition fork {W} (m : async W unit) : async W unit := λ w, let '(w', t) := m w in (w', Fork t (Done (Ok tt))).
(** [try { m } finally { f }] *)
Definition finally_async {W A : Type} (m : async W A) (f : async W unit) : async W A :=
  r ← try_ (a ← m; mret (Ok a)) (λ e, mret (Err e)); f;; sync (lift r).

(** ** Promises

    A program that keeps a promise, to [await] it from several places, keeps its outcome in the world. *)
Class Promises (W : Type) := {
  claim_promise : M W nat; settle_promise : nat → res unit → M W unit; promise_outcome : nat → W → option (res unit) }.
(** [p = m()] starts an operation, whose first segment runs before the next statement; [await p] *)
Definition start_promise {W} `{Promises W} (m : async W unit) : async W nat :=
  p ← sync claim_promise;
  fork (r ← try_ (m;; mret (Ok tt)) (λ e, mret (Err e)); sync (settle_promise p r));;
  mret p.
Definition await_promise {W} `{Promises W} (p : nat) : async W unit :=
  wait (λ w, bool_decide (is_Some (promise_outcome p w)));;
  r ← sync (gets (λ w, default (Err "unreachable") (promise_outcome p w)));
  sync (lift r).

(** ** Segments *)
Fixpoint segments {W A : Type} (R : W → W → Prop) (t : task W A) : Prop :=
  match t with
  | Done _ => True
  | Await _ resume => ∀ w, R w (resume w).1 ∧ segments R (resume w).2
  | Fork c t' => segments R c ∧ segments R t'
  end.
Definition throughout {W A : Type} (R : W → W → Prop) (m : async W A) : Prop := ∀ w, R w (m w).1 ∧ segments R (m w).2.

Section segments.
Context {W : Type} (R : W → W → Prop) `{!PreOrder R}.
Lemma bind_segments {A B : Type} (k : A → async W B) : (∀ a, throughout R (k a)) → ∀ (t : task W A) w, segments R t →
  R w (bind_task t k w).1 ∧ segments R (bind_task t k w).2.
Proof.
  intros Hk. fix IH 1. intros [[a|e]|ready resume|c t] w Ht; cbn in *.
  - apply Hk.
  - done.
  - split; [done|]. intros w'. destruct (Ht w') as [Hr Hs]. pose proof (IH (resume w').2) as IHt.
    destruct (resume w') as [w'' t']. cbn in *. destruct (IHt w'' Hs) as [? ?]. split; [by etrans|done].
  - destruct Ht as [Hc Ht]. pose proof (IH t w Ht) as [? ?]. by destruct (bind_task t k w).
Qed.
Lemma throughout_bind {A B : Type} (m : async W A) (k : A → async W B) :
  throughout R m → (∀ a, throughout R (k a)) → throughout R (m ≫= k).
Proof.
  intros Hm Hk w. unfold mbind, async_bind. destruct (Hm w) as [Hr Hs]. destruct (m w) as [w1 t]. cbn in *.
  destruct (bind_segments k Hk t w1 Hs). split; [by etrans|done].
Qed.
Lemma catch_segments {A : Type} (h : string → async W A) : (∀ e, throughout R (h e)) → ∀ (t : task W A) w, segments R t →
  R w (catch_task t h w).1 ∧ segments R (catch_task t h w).2.
Proof.
  intros Hh. fix IH 1. intros [[a|e]|ready resume|c t] w Ht; cbn in *.
  - done.
  - apply Hh.
  - split; [done|]. intros w'. destruct (Ht w') as [Hr Hs]. pose proof (IH (resume w').2) as IHt.
    destruct (resume w') as [w'' t']. cbn in *. destruct (IHt w'' Hs) as [? ?]. split; [by etrans|done].
  - destruct Ht as [Hc Ht]. pose proof (IH t w Ht) as [? ?]. by destruct (catch_task t h w).
Qed.
Lemma throughout_try {A : Type} (m : async W A) h : throughout R m → (∀ e, throughout R (h e)) → throughout R (try_ m h).
Proof.
  intros Hm Hh w. unfold try_. destruct (Hm w) as [Hr Hs]. destruct (m w) as [w1 t]. cbn in *.
  destruct (catch_segments h Hh t w1 Hs). split; [by etrans|done].
Qed.
Lemma throughout_ret {A : Type} (a : A) : throughout R (mret a : async W A).
Proof. by intros w. Qed.
Lemma throughout_sync {A : Type} (m : M W A) : always R m → throughout R (sync m).
Proof. intros Hm w. unfold sync. destruct (m w) as [r w'] eqn:E. by split; [eapply Hm|]. Qed.
Lemma throughout_wait ready : throughout R (wait ready).
Proof. by intros w. Qed.
Lemma throughout_fork m : throughout R m → throughout R (fork m).
Proof. intros Hm w. unfold fork. destruct (Hm w). by destruct (m w). Qed.
Lemma throughout_call {A : Type} (f : M W A) : always R f → throughout R (call f).
Proof.
  intros Hf. apply throughout_bind; [apply throughout_wait|]. intros _. apply throughout_bind.
  - intros w. cbn. unfold sync. destruct (f w) as [r w'] eqn:E. by split; [eapply Hf|].
  - intros r. apply throughout_bind; [apply throughout_wait|]. intros _. apply throughout_sync. by apply always_lift, _.
Qed.
Lemma throughout_finally {A : Type} (m : async W A) f : throughout R m → throughout R f → throughout R (finally_async m f).
Proof.
  intros Hm Hf. apply throughout_bind.
  - apply throughout_try; [|intros e; apply throughout_ret]. apply throughout_bind; [done|]. intros a. apply throughout_ret.
  - intros r. apply throughout_bind; [done|]. intros _. apply throughout_sync. by apply always_lift, _.
Qed.
Lemma throughout_awaited {A : Type} (m : async W A) : throughout R m → throughout R (awaited m).
Proof.
  intros Hm. apply throughout_bind.
  - apply throughout_try; [|intros e; apply throughout_ret]. apply throughout_bind; [done|]. intros a. apply throughout_ret.
  - intros r. apply throughout_bind; [apply throughout_wait|]. intros _. apply throughout_sync. by apply always_lift, _.
Qed.
Lemma throughout_hang {A : Type} : throughout R (hang : async W A).
Proof. by intros w. Qed.
Lemma throughout_if {A : Type} (b : bool) (m n : async W A) : throughout R m → throughout R n → throughout R (if b then m else n).
Proof. by destruct b. Qed.
End segments.

(** ** The system *)
(** what is left of a task that stopped running: its suspended parts *)
Fixpoint settle {W} (t : task W unit) : list (task W unit) :=
  match t with Done _ => [] | Await _ _ => [t] | Fork c t' => settle c ++ settle t' end.
Record System (W : Type) := { world : W; pending : list (task W unit) }.
Arguments world {W} _.
Arguments pending {W} _.
Section system.
Context {W : Type} (event : async W unit → Prop) (env : W → W → Prop).
Inductive sys_step (s : System W) : System W → Prop :=
| resumes l1 ready resume l2 : pending s = l1 ++ Await ready resume :: l2 → ready (world s) = true →
    sys_step s {| world := (resume (world s)).1; pending := l1 ++ settle (resume (world s)).2 ++ l2 |}
| arrives m : event m → sys_step s {| world := (m (world s)).1; pending := pending s ++ settle (m (world s)).2 |}
| moves w : env (world s) w → sys_step s {| world := w; pending := pending s |}.

Context (R : W → W → Prop) `{!PreOrder R}.
Lemma settle_segments : ∀ t : task W unit, segments R t → Forall (segments R) (settle t).
Proof.
  fix IH 1. intros [r|ready resume|c t] Ht; cbn in *; [constructor|by constructor|]. destruct Ht as [Hc Ht].
  apply Forall_app_2; [by apply (IH c)|by apply (IH t)].
Qed.
Lemma system_step s s' : (∀ m, event m → throughout R m) → (∀ w w', env w w' → R w w') →
  Forall (segments R) (pending s) → sys_step s s' → R (world s) (world s') ∧ Forall (segments R) (pending s').
Proof.
  intros He Hv Hp [l1 ready resume l2 Hl Hr|m Hm|w Hw]; cbn.
  - rewrite Hl in Hp. apply Forall_app in Hp as [H1 [H2 H3]%Forall_cons]. destruct (H2 (world s)) as [? ?]. split; [done|].
    apply Forall_app_2; [done|]. apply Forall_app_2; [by apply settle_segments|done].
  - destruct (He m Hm (world s)). split; [done|]. apply Forall_app_2; [done|by apply settle_segments].
  - split; [by apply Hv|done].
Qed.
(** whatever the order of events and resumptions *)
Lemma system_reaches s s' : (∀ m, event m → throughout R m) → (∀ w w', env w w' → R w w') →
  Forall (segments R) (pending s) → rtc sys_step s s' → R (world s) (world s').
Proof.
  intros He Hv Hp Hs. induction Hs as [s|s1 s2 s3 H12 _ IH]; [done|]. destruct (system_step _ _ He Hv Hp H12) as [? ?].
  etrans; [done|by apply IH].
Qed.
End system.
(** ** Rely and guarantee

    A task that resumes knows that the world follows the one it suspended in by [R], which every other step respects too. So it
    may use what it learnt before, as far as [R] preserves it. *)
Fixpoint follows {W A : Type} (R : W → W → Prop) (Q : res A → W → Prop) (w : W) (t : task W A) : Prop :=
  match t with
  | Done r => Q r w
  | Await ready resume => ∀ w', R w w' → ready w' = true → R w' (resume w').1 ∧ follows R Q (resume w').1 (resume w').2
  | Fork c t' => follows R (λ _ _, True) w c ∧ follows R Q w t'
  end.
Definition runs {W A : Type} (R : W → W → Prop) (Q : res A → W → Prop) (m : async W A) (w : W) : Prop :=
  R w (m w).1 ∧ follows R Q (m w).1 (m w).2.
Definition anything {A W : Type} : A → W → Prop := λ _ _, True.

Section rely.
Context {W : Type} (R : W → W → Prop) `{!PreOrder R}.
Lemma follows_later {A : Type} (w w' : W) : R w w' → ∀ t : task W A, follows R anything w t → follows R anything w' t.
Proof.
  intros H. revert A. fix IH 2. intros A [r|ready resume|c t]; cbn; [done| |intros [? ?]; split; [by apply (IH _ c)|by apply (IH _ t)]].
  intros Ht w3 H3. apply Ht. by etrans.
Qed.
(** sequences and handlers: what follows the first part starts where that ended *)
Lemma bind_follows {A B : Type} (Q1 : res A → W → Prop) (Q : res B → W → Prop) (k : A → async W B) : ∀ (t : task W A) w, follows R Q1 w t →
  (∀ a w', R w w' → Q1 (Ok a) w' → runs R Q (k a) w') → (∀ e w', R w w' → Q1 (Err e) w' → Q (Err e) w') →
  R w (bind_task t k w).1 ∧ follows R Q (bind_task t k w).1 (bind_task t k w).2.
Proof.
  fix IH 1. intros [[a|e]|ready resume|c t] w Ht Hk He; cbn in *; [by apply Hk|by split; [|apply He]| |].
  - split; [done|]. intros w' Hw Hr. destruct (Ht w' Hw Hr) as [H1 H2]. pose proof (IH (resume w').2) as IHt.
    destruct (resume w') as [w'' t']. cbn in *. assert (R w w'') by (by etrans).
    destruct (IHt w'' H2) as [? ?]; [intros; apply Hk; [by etrans|done]|intros; apply He; [by etrans|done]|]. split; [by etrans|done].
  - destruct Ht as [Hc Ht]. pose proof (IH t w Ht Hk He) as [? ?]. destruct (bind_task t k w) as [w' t']. cbn in *.
    split; [done|]. split; [by eapply follows_later|done].
Qed.
Lemma catch_follows {A : Type} (Q1 Q : res A → W → Prop) (h : string → async W A) : ∀ (t : task W A) w, follows R Q1 w t →
  (∀ e w', R w w' → Q1 (Err e) w' → runs R Q (h e) w') → (∀ a w', R w w' → Q1 (Ok a) w' → Q (Ok a) w') →
  R w (catch_task t h w).1 ∧ follows R Q (catch_task t h w).1 (catch_task t h w).2.
Proof.
  fix IH 1. intros [[a|e]|ready resume|c t] w Ht Hh Ha; cbn in *; [by split; [|apply Ha]|by apply Hh| |].
  - split; [done|]. intros w' Hw Hr. destruct (Ht w' Hw Hr) as [H1 H2]. pose proof (IH (resume w').2) as IHt.
    destruct (resume w') as [w'' t']. cbn in *. assert (R w w'') by (by etrans).
    destruct (IHt w'' H2) as [? ?]; [intros; apply Hh; [by etrans|done]|intros; apply Ha; [by etrans|done]|]. split; [by etrans|done].
  - destruct Ht as [Hc Ht]. pose proof (IH t w Ht Hh Ha) as [? ?]. destruct (catch_task t h w) as [w' t']. cbn in *.
    split; [done|]. split; [by eapply follows_later|done].
Qed.
Lemma runs_bind {A B : Type} (Q1 : res A → W → Prop) (Q : res B → W → Prop) (m : async W A) (k : A → async W B) w : runs R Q1 m w →
  (∀ a w', R w w' → Q1 (Ok a) w' → runs R Q (k a) w') → (∀ e w', R w w' → Q1 (Err e) w' → Q (Err e) w') → runs R Q (m ≫= k) w.
Proof.
  intros [H1 H2] Hk He. unfold runs, mbind, async_bind. destruct (m w) as [w1 t]. cbn in *.
  destruct (bind_follows Q1 Q k t w1 H2) as [? ?]; [intros; apply Hk; [by etrans|done]|intros; apply He; [by etrans|done]|]. split; [by etrans|done].
Qed.
Lemma runs_try {A : Type} (Q1 Q : res A → W → Prop) (m : async W A) h w : runs R Q1 m w →
  (∀ e w', R w w' → Q1 (Err e) w' → runs R Q (h e) w') → (∀ a w', R w w' → Q1 (Ok a) w' → Q (Ok a) w') → runs R Q (try_ m h) w.
Proof.
  intros [H1 H2] Hh Ha. unfold runs, try_. destruct (m w) as [w1 t]. cbn in *.
  destruct (catch_follows Q1 Q h t w1 H2) as [? ?]; [intros; apply Hh; [by etrans|done]|intros; apply Ha; [by etrans|done]|]. split; [by etrans|done].
Qed.
Lemma runs_ret {A : Type} (Q : res A → W → Prop) a w : Q (Ok a) w → runs R Q (mret a) w.
Proof. intros H. by split. Qed.
Lemma runs_sync {A : Type} (Q : res A → W → Prop) (m : M W A) w : (∀ x w', m w = (x, w') → R w w' ∧ Q x w') → runs R Q (sync m) w.
Proof. intros H. unfold runs, sync. destruct (m w) as [x w'] eqn:E. by apply H. Qed.
Lemma runs_sync_bind {A B : Type} (Q : res B → W → Prop) (m : M W A) (k : A → async W B) w a w' : m w = (Ok a, w') → R w w' → runs R Q (k a) w' →
  runs R Q (sync m ≫= k) w.
Proof. intros E H1 [H2 H3]. unfold runs, mbind, async_bind, sync. rewrite E. cbn. split; [by etrans|done]. Qed.
Lemma runs_gets_bind {A B : Type} (Q : res B → W → Prop) (f : W → A) (k : A → async W B) w : runs R Q (k (f w)) w → runs R Q (sync (gets f) ≫= k) w.
Proof. by apply runs_sync_bind. Qed.
Lemma runs_wait (Q : res unit → W → Prop) ready w : (∀ w', R w w' → ready w' = true → Q (Ok tt) w') → runs R Q (wait ready) w.
Proof. intros H. split; [done|]. intros w' H1 H2. split; [done|by apply H]. Qed.
Lemma runs_fork (Q : res unit → W → Prop) m w : runs R anything m w → (∀ w', R w w' → Q (Ok tt) w') → runs R Q (fork m) w.
Proof. intros [H1 H2] HQ. unfold runs, fork. destruct (m w) as [w1 t]. cbn in *. split; [done|]. split; [done|by apply HQ]. Qed.
Lemma runs_finally {A : Type} (Q1 Q : res A → W → Prop) (m : async W A) f w : runs R Q1 m w →
  (∀ x w', R w w' → Q1 x w' → runs R (λ y w'', match y with Ok _ => Q x w'' | Err e => Q (Err e) w'' end) f w') → runs R Q (finally_async m f) w.
Proof.
  intros Hm Hf. unfold finally_async. apply (runs_bind (λ r w', match r with Ok x => Q1 x w' | Err _ => False end)); [|intros x w1 H1 HQ|done].
  - apply (runs_try (λ r w', match r with Ok (Ok a) => Q1 (Ok a) w' | Ok (Err _) => False | Err e => Q1 (Err e) w' end)).
    + eapply runs_bind; [exact Hm| |done]. intros a w' _ Ha. by apply runs_ret.
    + intros e w' _ He. by apply runs_ret.
    + by intros [a|e] w' _ ?.
  - eapply runs_bind; [by apply Hf| |done]. cbn. intros _ w2 _ H2. apply runs_sync. by intros y w' [= <- <-].
Qed.
Lemma runs_awaited {A : Type} (Q : res A → W → Prop) (m : async W A) w :
  runs R (λ x w', ∀ w'', R w' w'' → Q x w'') m w → runs R Q (awaited m) w.
Proof.
  intros Hm. unfold awaited. apply (runs_bind (λ r w', match r with Ok x => ∀ w'', R w' w'' → Q x w'' | Err _ => False end)); [|intros x w1 H1 HQ|done].
  - apply (runs_try (λ r w', match r with Ok (Ok a) => ∀ w'', R w' w'' → Q (Ok a) w'' | Ok (Err _) => False | Err e => ∀ w'', R w' w'' → Q (Err e) w'' end)).
    + eapply runs_bind; [exact Hm| |done]. intros a w' _ Ha. by apply runs_ret.
    + intros e w' _ He. by apply runs_ret.
    + by intros [a|e] w' _ ?.
  - apply (runs_bind (λ r w', match r with Ok _ => Q x w' | Err _ => False end)); [|intros _ w2 _ H2|done].
    + apply runs_wait. intros w' ? _. by apply HQ.
    + apply runs_sync. by intros y w' [= <- <-].
Qed.
Lemma runs_weaken {A : Type} (Q1 Q : res A → W → Prop) (m : async W A) w : runs R Q1 m w → (∀ x w', R w w' → Q1 x w' → Q x w') → runs R Q m w.
Proof.
  intros [H1 H2] H. split; [done|]. revert H2. generalize (m w).1 H1. intros w1 H1'. revert w1 H1'. generalize (m w).2.
  fix IH 1. intros [r|ready resume|c t] w1 Hw; cbn; [by apply H| |intros [? ?]; split; [done|by apply (IH t)]].
  intros Ht w' Hw' Hr. destruct (Ht w' Hw' Hr) as [? ?]. split; [done|]. apply (IH (resume w').2); [|done]. by do 2 (etrans; [eassumption|]).
Qed.
Lemma runs_call {A : Type} (Q : res A → W → Prop) (f : M W A) w :
  (∀ w1 x w2, R w w1 → f w1 = (x, w2) → R w1 w2 ∧ ∀ w3, R w2 w3 → Q x w3) → runs R Q (call f) w.
Proof.
  intros Hf. unfold call. apply (runs_bind (λ r _, match r with Ok _ => True | Err _ => False end)); [by apply runs_wait| |done]. intros _ w1 H1 _.
  apply (runs_bind (λ r w', match r with Ok x => ∀ w3, R w' w3 → Q x w3 | Err _ => False end)); [| |done].
  - apply runs_sync. intros y w2. destruct (f w1) as [x w2'] eqn:E. intros [= <- <-]. by apply Hf.
  - intros x w2 _ H2. apply (runs_bind (λ r w', match r with Ok _ => Q x w' | Err _ => False end)); [| |done].
    + apply runs_wait. intros w3 ? _. by apply H2.
    + intros _ w3 _ H3. apply runs_sync. by intros y w' [= <- <-].
Qed.
(** whatever the code learns, every segment respects [R]; [P] is an invariant of [R] *)
Context (P : W → Prop) (HP : ∀ w w', R w w' → P w → P w').
Definition respects {A : Type} (m : async W A) : Prop := ∀ w, P w → runs R anything m w.
Lemma respects_bind {A B : Type} (m : async W A) (k : A → async W B) : respects m → (∀ a, respects (k a)) → respects (m ≫= k).
Proof using Type*. intros Hm Hk w Hw. eapply runs_bind; [by apply Hm|intros a w' ? _; apply Hk; eauto|done]. Qed.
Lemma respects_try {A : Type} (m : async W A) h : respects m → (∀ e, respects (h e)) → respects (try_ m h).
Proof using Type*. intros Hm Hh w Hw. eapply runs_try; [by apply Hm|intros e w' ? _; apply Hh; eauto|done]. Qed.
Lemma respects_ret {A : Type} (a : A) : respects (mret a).
Proof using Type*. intros w _. by apply runs_ret. Qed.
Lemma respects_sync {A : Type} (m : M W A) : always R m → respects (sync m).
Proof using Type*. intros Hm w _. apply runs_sync. intros x w' E. split; [by eapply Hm|done]. Qed.
Lemma respects_wait ready : respects (wait ready).
Proof using Type*. intros w _. by apply runs_wait. Qed.
Lemma respects_fork m : respects m → respects (fork m).
Proof using Type*. intros Hm w Hw. apply runs_fork; [by apply Hm|done]. Qed.
Lemma respects_finally {A : Type} (m : async W A) f : respects m → respects f → respects (finally_async m f).
Proof using Type*. intros Hm Hf w Hw. eapply runs_finally; [by apply Hm|]. intros x w' ? _. eapply runs_weaken; [apply Hf; eauto|]. by intros [] w''. Qed.
Lemma respects_awaited {A : Type} (m : async W A) : respects m → respects (awaited m).
Proof using Type*. intros Hm w Hw. apply runs_awaited. eapply runs_weaken; [by apply Hm|]. done. Qed.
Lemma respects_hang {A : Type} : respects (hang : async W A).
Proof using Type*. by intros w. Qed.
Lemma respects_start `{Promises W} m : respects (sync claim_promise) → (∀ p r, respects (sync (settle_promise p r))) → respects m →
  respects (start_promise m).
Proof using Type*.
  intros Hc Hs Hm. unfold start_promise. apply respects_bind; [done|intros p]. apply respects_bind; [|intros _; apply respects_ret].
  apply respects_fork, respects_bind; [|intros r; apply Hs]. apply respects_try; [|intros e; apply respects_ret].
  apply respects_bind; [done|intros _; apply respects_ret].
Qed.
Lemma respects_await `{Promises W} p : respects (await_promise p).
Proof using Type*.
  apply respects_bind; [apply respects_wait|intros _]. apply respects_bind; [|intros r]; apply respects_sync.
  - by intros w x w' [= _ <-].
  - by intros w x w' [= _ <-].
Qed.
Lemma respects_fail {A : Type} e : respects (fail e : async W A).
Proof using Type*. apply respects_sync. by intros w x w' [= _ <-]. Qed.
Lemma respects_call {A : Type} (f : M W A) : always R f → respects (call f).
Proof using Type*.
  intros Hf. apply respects_bind; [apply respects_wait|intros _]. apply respects_bind; [|intros r; apply respects_bind; [apply respects_wait|intros _]].
  - apply respects_sync. intros w x w'. destruct (f w) as [r w1] eqn:E. intros [= _ <-]. by eapply Hf.
  - apply respects_sync. by intros w x w' [= _ <-].
Qed.
(** the system: whatever the order *)
Context (event : async W unit → Prop) (env : W → W → Prop).
Lemma settle_follows w : ∀ t : task W unit, follows R anything w t → Forall (follows R anything w) (settle t).
Proof.
  fix IH 1. intros [r|ready resume|c t] Ht; cbn in *; [constructor|by constructor|]. destruct Ht as [Hc Ht].
  apply Forall_app_2; [by apply (IH c)|by apply (IH t)].
Qed.
Lemma follows_all w w' l : R w w' → Forall (follows (A := unit) R anything w) l → Forall (follows R anything w') l.
Proof. intros H Hl. eapply Forall_impl; [exact Hl|]. intros t. by apply follows_later. Qed.
Lemma system_runs s s' : (∀ m, event m → respects m) → (∀ w w', env w w' → R w w') → P (world s) →
  Forall (follows R anything (world s)) (pending s) → rtc (sys_step event env) s s' →
  R (world s) (world s') ∧ Forall (follows R anything (world s')) (pending s').
Proof.
  intros He Hv HPs Hp Hs. induction Hs as [s|s1 s2 s3 H12 _ IH]; [done|].
  enough (R (world s1) (world s2) ∧ Forall (follows R anything (world s2)) (pending s2)) as [H1 H2].
  { destruct (IH (HP _ _ H1 HPs) H2) as [? ?]. split; [by etrans|done]. }
  destruct H12 as [l1 ready resume l2 Hl Hr|m Hm|w Hw]; cbn.
  - rewrite Hl in Hp. apply Forall_app in Hp as [H1 [H2 H3]%Forall_cons]. destruct (H2 (world s1)) as [Ha Hb]; [done..|].
    split; [done|]. apply Forall_app_2; [by eapply follows_all|]. apply Forall_app_2; [by apply settle_follows|by eapply follows_all].
  - destruct (He m Hm (world s1) HPs) as [Ha Hb]. split; [done|]. apply Forall_app_2; [by eapply follows_all|by apply settle_follows].
  - apply Hv in Hw. split; [done|by eapply follows_all].
Qed.
(** a suspended task stays until it is resumed, which is when its goal is reached; a goal that [R] keeps stays reached *)
Lemma pending_until (G : W → Prop) ready resume s s' : (∀ m, event m → respects m) → (∀ w w', env w w' → R w w') → P (world s) →
  Forall (follows R anything (world s)) (pending s) → (∀ w w', P w → R w w' → G w → G w') → (∀ w, ready w = true → G (resume w).1) →
  Await ready resume ∈ pending s → rtc (sys_step event env) s s' → G (world s') ∨ Await ready resume ∈ pending s'.
Proof using Type*.
  intros He Hv HPs Hp HG Hr Hin. revert s'. apply rtc_ind_r; [by right|]. intros s1 s2 Hs12 H23 IH.
  destruct (system_runs s s1 He Hv HPs Hp Hs12) as [H1 Hp1]. assert (P (world s1)) as HP1 by eauto.
  destruct (system_runs s1 s2 He Hv HP1 Hp1 (rtc_once _ _ H23)) as [H2 _]. destruct IH as [H|H]; [left; eauto|].
  destruct H23 as [l1 ready1 resume1 l2 Hl Hr1|m Hm|w Hw]; cbn in *; [|right; set_solver|by right].
  rewrite Hl in H. apply elem_of_app in H as [H|[E|H]%elem_of_cons]; [right; set_solver| |right; set_solver].
  injection E as -> ->. left. by apply Hr.
Qed.
End rely.
(** ** A schedule *)
(** the first ready task resumes *)
Fixpoint resume_first {W} (w : W) (l1 l2 : list (task W unit)) : option (System W) :=
  match l2 with
  | [] => None
  | Await ready resume :: l2' =>
      if ready w then Some {| world := (resume w).1; pending := l1 ++ settle (resume w).2 ++ l2' |}
      else resume_first w (l1 ++ [Await ready resume]) l2'
  | t :: l2' => resume_first w (l1 ++ [t]) l2'
  end.
Fixpoint run_ready {W} (n : nat) (s : System W) : System W :=
  match n with O => s | S n => match resume_first (world s) [] (pending s) with Some s' => run_ready n s' | None => s end end.
Definition arrive {W} (m : async W unit) (s : System W) : System W :=
  {| world := (m (world s)).1; pending := pending s ++ settle (m (world s)).2 |}.
Section schedule.
Context {W : Type} (event : async W unit → Prop) (env : W → W → Prop).
Lemma resume_first_step (w : W) l1 l2 s' : resume_first w l1 l2 = Some s' → sys_step event env {| world := w; pending := l1 ++ l2 |} s'.
Proof.
  revert l1. induction l2 as [|[r|ready resume|c t] l2 IH]; intros l1; cbn; [done| | |]; try (intros E%IH; by rewrite <-app_assoc in E).
  destruct (ready w) eqn:Er; [|intros E%IH; by rewrite <-app_assoc in E]. intros [= <-]. by eapply (resumes _ _ {| world := w; pending := _ |}).
Qed.
Lemma run_ready_reaches n s : rtc (sys_step event env) s (run_ready n s).
Proof.
  revert s. induction n as [|n IH]; intros [w l]; [done|]. cbn. destruct (resume_first w [] l) as [s'|] eqn:E; [|done].
  eapply rtc_l; [by apply (resume_first_step w [] l)|apply IH].
Qed.
Lemma arrive_reaches m s : event m → rtc (sys_step event env) s (arrive m s).
Proof. intros Hm. apply rtc_once. by apply arrives. Qed.
End schedule.
#[export] Hint Resolve throughout_bind throughout_try throughout_ret throughout_sync throughout_wait throughout_fork throughout_call throughout_finally throughout_awaited throughout_hang : loop.
#[export] Hint Resolve respects_bind respects_try respects_ret respects_sync respects_wait respects_fork respects_finally respects_awaited respects_hang respects_call respects_fail respects_await : loop.
