(* ===== verification/Presence.v ===== *)
(** * Connected clients of the relay ([backend/socket.io/clients.ts])

    The registry maps a channel to its users and their socket ids. A channel's record is the list
    of its users in insertion order, which is the order [Object.keys] gives for the UUIDs the relay
    uses as ids (ids that are names of [Object.prototype] properties or array indices are outside
    the model). *)
From S2P Require Import Prelude.


Notation UserRecordType := (list (string * string)).
(* backend/socket.io/clients.ts:1-29 UserSidTypes, UserRecordType, ClientRecordType, Clients *)
Record Clients := { clientRecord : gmap string UserRecordType }.

Definition no_clients : Clients := {| clientRecord := ∅ |}.

Fixpoint user_sid (u : UserRecordType) (userID : string) : option string :=
  match u with
  | [] => None
  | (k, sid) :: u' => if bool_decide (k = userID) then Some sid else user_sid u' userID
  end.

Fixpoint set_user (u : UserRecordType) (userID sid : string) : UserRecordType :=
  match u with
  | [] => [(userID, sid)]
  | (k, s) :: u' => if bool_decide (k = userID) then (k, sid) :: u' else (k, s) :: set_user u' userID sid
  end.

Definition delete_user (u : UserRecordType) (userID : string) : UserRecordType :=
  List.filter (λ p, negb (bool_decide (p.1 = userID))) u.

(* backend/socket.io/clients.ts:31-36 Clients.getClientsByChannel *)
Definition getClientsByChannel (c : Clients) (channelID : string) : res UserRecordType :=
  throw_if (negb (nonempty channelID)) "channelID - required param";;
  mret (default [] (clientRecord c !! channelID)).

(* backend/socket.io/clients.ts:38-44 Clients.getReceiverIDBySenderID *)
Definition getReceiverIDBySenderID (c : Clients) (sender channelID : string) : res (option string) :=
  usersInChannel ← getClientsByChannel c channelID;
  mret (js_find (λ u, negb (bool_decide (u = sender))) usersInChannel.*1).

(* backend/socket.io/clients.ts:46-58 Clients.getSIDByIDs *)
Definition getSIDByIDs (c : Clients) (userID channelID : string) : res (option string) :=
  throw_if (negb (nonempty channelID && nonempty userID)) "channelID, userID - required param";;
  match clientRecord c !! channelID with
  | None => mret None
  | Some users =>
      match js_find (λ u, bool_decide (u = userID)) users.*1 with
      | Some user => mret (user_sid users user)
      | None => mret None
      end
  end.

(* backend/socket.io/clients.ts:60-63 Clients.wouldExceedChannelCapacity *)
Definition wouldExceedChannelCapacity (c : Clients) (userID channelID : string) (capacity : jsnum) : res bool :=
  match capacity with
  | NInt cap =>
      if negb (nonempty userID) || negb (nonempty channelID) || (cap <? 1) then mret true else
      users ← getClientsByChannel c channelID;
      if cap <=? Z.of_nat (length users) then
        sid ← getSIDByIDs c userID channelID;
        mret (negb (bool_decide (is_Some sid)))
      else mret false
  | _ => mret true
  end.

(* backend/socket.io/clients.ts:65-73 Clients.setClientToChannel *)
Definition setClientToChannel (c : Clients) (userID channelID sid : string) : Clients :=
  match clientRecord c !! channelID with
  | Some users => {| clientRecord := <[channelID := set_user users userID sid]> (clientRecord c) |}
  | None => {| clientRecord := <[channelID := [(userID, sid)]]> (clientRecord c) |}
  end.

(* backend/socket.io/clients.ts:75-83 Clients.deleteClient *)
Definition deleteClient (c : Clients) (userID channelID expectedSid : string) : bool * Clients :=
  match clientRecord c !! channelID with
  | None => (false, c)
  | Some users =>
      match user_sid users userID with
      | None => (false, c)
      | Some sid =>
          if bool_decide (sid = expectedSid) then
            let users' := delete_user users userID in
            (true, {| clientRecord := match users' with
                                      | [] => delete channelID (clientRecord c)
                                      | _ => <[channelID := users']> (clientRecord c)
                                      end |})
          else (false, c)
      end
  end.

(* backend/socket.io/clients.ts:85-89 Clients.isSenderInChannel *)
Definition isSenderInChannel (c : Clients) (channel sender : string) : res bool :=
  usersInChannel ← getClientsByChannel c channel;
  mret (match js_find (λ u, bool_decide (u = sender)) usersInChannel.*1 with
        | Some u => nonempty u
        | None => false
        end).

(** ** Lemmas on a channel's record *)
Lemma set_user_keys u userID sid :
  (set_user u userID sid).*1 = if bool_decide (userID ∈ u.*1) then u.*1 else u.*1 ++ [userID].
Proof.
  induction u as [|[k s] u IH]; [done|]. cbn [set_user].
  bdec (k = userID); subst; rewrite !fmap_cons; cbn [fst].
  - by rewrite bool_decide_eq_true_2 by set_solver.
  - rewrite IH. bdecide; set_solver.
Qed.

Lemma set_user_ne u userID sid : set_user u userID sid ≠ [].
Proof. destruct u as [|[k s] u]; cbn [set_user]; [done|]. by bdecide. Qed.

Lemma user_sid_set u userID sid k :
  user_sid (set_user u userID sid) k = if bool_decide (k = userID) then Some sid else user_sid u k.
Proof.
  induction u as [|[k' s] u IH]; cbn [set_user user_sid].
  - bdecide; congruence.
  - bdec (k' = userID); cbn [user_sid]; rewrite ?IH; bdecide; congruence.
Qed.

Lemma user_sid_delete u userID k :
  user_sid (delete_user u userID) k = if bool_decide (k = userID) then None else user_sid u k.
Proof.
  unfold delete_user. induction u as [|[k' s] u IH]; cbn [List.filter user_sid fst]; [by bdecide|].
  bdec (k' = userID); cbn [negb user_sid]; rewrite ?IH; bdecide; congruence.
Qed.

Lemma user_sid_None u userID : user_sid u userID = None ↔ userID ∉ u.*1.
Proof.
  induction u as [|[k s] u IH]; cbn [user_sid]; [set_solver|]. rewrite fmap_cons. cbn [fst].
  bdecide; set_solver.
Qed.

Lemma delete_user_keys u userID : (delete_user u userID).*1 = filter (λ k, k ≠ userID) u.*1.
Proof.
  unfold delete_user. induction u as [|[k s] u IH]; [done|].
  rewrite fmap_cons, filter_cons. cbn [List.filter fst].
  bdec (k = userID); cbn [negb]; case_decide; try done. by rewrite fmap_cons, IH.
Qed.

(** ** Reachable registries

    The relay admits a join only when [wouldExceedChannelCapacity] answers [false]. *)
Inductive presence_step (capacity : Z) : Clients → Clients → Prop :=
| join_step c userID channelID sid :
    wouldExceedChannelCapacity c userID channelID (NInt capacity) = Ok false →
    presence_step capacity c (setClientToChannel c userID channelID sid)
| leave_step c userID channelID sid :
    presence_step capacity c (deleteClient c userID channelID sid).2.

Definition presence_inv (capacity : Z) (c : Clients) : Prop :=
  ∀ channelID users, clientRecord c !! channelID = Some users →
    NoDup users.*1 ∧ users ≠ [] ∧ Z.of_nat (length users) ≤ capacity ∧
    channelID ≠ EmptyString ∧ EmptyString ∉ users.*1.

Lemma getSIDByIDs_lookup c userID channelID o :
  getSIDByIDs c userID channelID = Ok o →
  o = u ← clientRecord c !! channelID; user_sid u userID.
Proof.
  unfold getSIDByIDs. intros H. res_inv H. destruct (clientRecord c !! channelID) as [u|]; [|by injection H].
  simpl. destruct (js_find _ _) as [k|] eqn:Hf.
  - apply js_find_Some in Hf as [_ Hk]. apply bool_decide_eq_true in Hk as ->. by injection H.
  - rewrite js_find_None in Hf. injection H as <-. symmetry. apply user_sid_None.
    intros Hin. specialize (Hf _ Hin). by rewrite bool_decide_eq_true_2 in Hf.
Qed.

Lemma presence_step_inv capacity c c' :
  presence_step capacity c c' → presence_inv capacity c → presence_inv capacity c'.
Proof.
  intros Hstep Hinv. destruct Hstep as [c userID channelID sid Hw|c userID channelID sid].
  - unfold wouldExceedChannelCapacity in Hw.
    destruct (negb (nonempty userID) || negb (nonempty channelID) || (capacity <? 1)) eqn:Hg; [discriminate|].
    bool_prop. destruct Hg as [[Hu Hc] Hcap].
    unfold getClientsByChannel in Hw. rewrite (proj2 (nonempty_true channelID) Hc) in Hw. simpl in Hw.
    intros ch users'. unfold setClientToChannel.
    destruct (clientRecord c !! channelID) as [users|] eqn:Hch; simpl in *.
    + destruct (decide (channelID = ch)) as [<-|Hne]; [rewrite lookup_insert_eq|rewrite lookup_insert_ne by done; apply Hinv].
      intros [= <-]. destruct (Hinv _ _ Hch) as (Hnd & Hne & Hlen & _ & Hemp).
      pose proof (set_user_keys users userID sid) as Hk.
      rewrite <-(length_fmap fst), Hk. case_bool_decide as Hin.
      * rewrite length_fmap. split_and!; try done. by apply set_user_ne.
      * rewrite length_app, length_fmap. simpl.
        assert (Z.of_nat (length users) < capacity) as Hlt.
        { destruct (Z.leb_spec capacity (Z.of_nat (length users))); [|lia]. res_inv Hw. apply getSIDByIDs_lookup in Hw0. rewrite Hch in Hw0. simpl in Hw0.
          apply user_sid_None in Hin. rewrite Hin in Hw0. subst. by vm_compute in Hw. }
        split_and!; [|by apply set_user_ne|lia|done|set_solver].
        apply NoDup_app. split_and!; [done|set_solver|apply NoDup_singleton].
    + destruct (decide (channelID = ch)) as [<-|Hne]; [rewrite lookup_insert_eq|rewrite lookup_insert_ne by done; apply Hinv].
      intros [= <-]. simpl. split_and!; [apply NoDup_singleton|done|lia|done|set_solver].
  - unfold deleteClient. destruct (clientRecord c !! channelID) as [users|] eqn:Hch; [|done].
    destruct (user_sid users userID) as [s|]; [|done]. case_bool_decide; [|done]. simpl.
    destruct (Hinv _ _ Hch) as (Hnd & Hne & Hlen & Hcn & Hemp).
    intros ch users' Hlk. simpl in Hlk.
    destruct (delete_user users userID) as [|p l] eqn:Hd.
    + destruct (decide (channelID = ch)) as [<-|]; [by rewrite lookup_delete_eq in Hlk|].
      rewrite lookup_delete_ne in Hlk by done. by apply Hinv.
    + destruct (decide (channelID = ch)) as [<-|]; [|rewrite lookup_insert_ne in Hlk by done; by apply Hinv].
      rewrite lookup_insert_eq in Hlk. injection Hlk as <-. rewrite <-Hd.
      pose proof (delete_user_keys users userID) as Hk.
      rewrite <-(length_fmap fst), Hk. split_and!; [by apply NoDup_filter|by rewrite Hd| |done|].
      * pose proof (length_filter (λ k, k ≠ userID) users.*1) as Hl. rewrite length_fmap in Hl. lia.
      * intros Hin. apply list_elem_of_filter in Hin. tauto.
Qed.

(** In every state the relay reaches by admitted joins and by disconnects, no channel holds
    more users than its capacity, no user appears twice in a channel, and no empty channel record
    is kept. *)
Theorem presence_capacity capacity c :
  rtc (presence_step capacity) no_clients c → presence_inv capacity c.
Proof.
  intros Hr. assert (presence_inv capacity no_clients) as H0 by (intros ? ?; simpl; by rewrite lookup_empty).
  revert H0. induction Hr as [|c1 c2 c3 Hs _ IH]; [done|]. intros H. apply IH. by eapply presence_step_inv.
Qed.

Lemma presence_capacity_witness :
  presence_inv 2 (setClientToChannel (setClientToChannel no_clients "u1" "room" "s1") "u2" "room" "s2").
Proof.
  apply (presence_capacity 2).
  eapply rtc_l; [apply (join_step 2 no_clients "u1" "room" "s1"); vm_compute; reflexivity|].
  eapply rtc_l; [apply (join_step 2 (setClientToChannel no_clients "u1" "room" "s1") "u2" "room" "s2"); vm_compute; reflexivity|].
  apply rtc_refl.
Defined.

(** a reconnection survives the late disconnect of the socket it replaced: after the slot is
    taken over by a new socket, [deleteClient] with any other socket id answers [false] and changes
    nothing, while the new socket's own disconnect removes exactly that slot. *)
Theorem stale_disconnect_ignored c userID channelID sid old :
  old ≠ sid →
  let c' := setClientToChannel c userID channelID sid in
  deleteClient c' userID channelID old = (false, c') ∧
  (deleteClient c' userID channelID sid).1 = true ∧
  ∀ u ch, (u, ch) ≠ (userID, channelID) →
    (users ← clientRecord (deleteClient c' userID channelID sid).2 !! ch; user_sid users u) =
    (users ← clientRecord c !! ch; user_sid users u).
Proof.
  intros Hne c'.
  assert (clientRecord c' !! channelID =
    Some (set_user (default [] (clientRecord c !! channelID)) userID sid)) as Hlk.
  { unfold c', setClientToChannel. destruct (clientRecord c !! channelID); simpl; by rewrite lookup_insert_eq. }
  assert (∀ ch, ch ≠ channelID → clientRecord c' !! ch = clientRecord c !! ch) as Hoth.
  { intros ch H. unfold c', setClientToChannel. destruct (clientRecord c !! channelID); simpl; by rewrite lookup_insert_ne. }
  unfold deleteClient. rewrite Hlk, user_sid_set, (bool_decide_eq_true_2 (userID = userID)) by done.
  rewrite (bool_decide_eq_true_2 (sid = sid)) by done.
  bdecide; [congruence|]. split_and!; [done|done|]. intros u ch Huc. simpl.
  set (users' := delete_user _ _).
  destruct (decide (ch = channelID)) as [->|Hch].
  - assert (u ≠ userID) as Hu by congruence.
    transitivity (user_sid users' u).
    + destruct users' as [|p l] eqn:E; [by rewrite lookup_delete_eq|by rewrite lookup_insert_eq].
    + unfold users'. rewrite user_sid_delete, user_sid_set, bool_decide_eq_false_2 by done.
      by destruct (clientRecord c !! channelID).
  - destruct users'; [rewrite lookup_delete_ne by done|rewrite lookup_insert_ne by done]; by rewrite Hoth.
Qed.

Lemma stale_disconnect_ignored_witness :
  let c' := setClientToChannel (setClientToChannel no_clients "u1" "room" "s1") "u1" "room" "s2" in
  deleteClient c' "u1" "room" "s1" = (false, c').
Proof.
  apply (stale_disconnect_ignored (setClientToChannel no_clients "u1" "room" "s1") "u1" "room" "s2" "s1").
  discriminate.
Defined.
