(* ===== verification/Mailbox.v ===== *)
(** * The relay's offline mailbox ([backend/db/inMemDB.ts], [backend/db/index.ts])

    The offline-message collection as the list of its rows in insertion order, with the operations
    of the in-memory store and the quota check in front of them. Dates are their [getTime()]; the
    current time is a parameter [now] of every operation that reads the clock. *)
From S2P Require Import Prelude.

Inductive row_state := active | rejected.
#[export] Instance row_state_eq_dec : EqDecision row_state.
Proof. solve_decision. Defined.

(** What a caller of [storeOfflineMessage] passes (the relay's [retainUndeliveredEnvelope]); the
    envelope is its serialised form. *)
Record OfflineData := {
  id : string; dedupeKey : string; channel : string; mailbox : string; sender : string;
  senderDevice : option string; envelope : string; timestamp : Z; expiresAt : option Z }.

(** A stored row: the data it was created from, and the fields the store writes. *)
Record OfflineRow := {
  pk : Z;
  data : OfflineData;
  state : row_state;
  row_envelope : option string;
  claimedUntil : option Z;
  claimId : option string;
  deliveryAttempts : option Z;
  terminalReason : option string;
  terminalAt : option Z;
  terminalClaimId : option string }.

(** [storage[OFFLINE_MESSAGE_COLLECTION]] and the module's [pk] counter. *)
Record store := { collection : list OfflineRow; next_pk : Z }.
Definition empty_store : store := {| collection := []; next_pk := 0 |}.

(** A condition object, as the list of its keys and values. *)
Inductive condition_key :=
| by_id (v : string) | by_mailbox (v : string) | by_channel (v : string)
| by_claimId (v : string) | by_senderDevice (v : string).
Definition condition := list condition_key.

Definition key_matches (entry : OfflineRow) (k : condition_key) : bool :=
  match k with
  | by_id v => String.eqb (id (data entry)) v
  | by_mailbox v => String.eqb (mailbox (data entry)) v
  | by_channel v => String.eqb (channel (data entry)) v
  | by_claimId v => bool_decide (claimId entry = Some v)
  | by_senderDevice v => bool_decide (senderDevice (data entry) = Some v)
  end.

(** [Object.keys(condition).every((key) => entry[key] === condition[key])] *)
Definition matches (c : condition) (entry : OfflineRow) : bool := forallb (key_matches entry) c.

Definition is_active (entry : OfflineRow) : bool := bool_decide (state entry = active).
Definition is_rejected (entry : OfflineRow) : bool := bool_decide (state entry = rejected).

(** [!entry.expiresAt || entry.expiresAt.getTime() > now] *)
Definition unexpired (now : Z) (entry : OfflineRow) : bool :=
  match expiresAt (data entry) with None => true | Some t => now <? t end.

(** [entry.claimedUntil instanceof Date && entry.claimedUntil.getTime() > now] *)
Definition leased (now : Z) (entry : OfflineRow) : bool :=
  match claimedUntil entry with None => false | Some t => now <? t end.

Section localeCompare.
(** [String.prototype.localeCompare], which depends on the locale. *)
Context (localeCompare : string → string → Z).

(* backend/db/inMemDB.ts:75-76 offlineMessageFifo *)
Definition offlineMessageFifo (left right : OfflineRow) : Z :=
  let dt := timestamp (data left) - timestamp (data right) in
  if negb (dt =? 0) then dt else
  let dp := pk left - pk right in
  if negb (dp =? 0) then dp else localeCompare (id (data left)) (id (data right)).

(* backend/db/inMemDB.ts:78-81 nextActiveOfflineMessage *)
Definition nextActiveOfflineMessage (c : condition) (now : Z) (s : store) : option OfflineRow :=
  js_sort offlineMessageFifo
    (List.filter (λ entry, is_active entry && matches c entry && unexpired now entry) (collection s)) !! 0%nat.

(* backend/db/inMemDB.ts:83-88 findOfflineMessages *)
Definition findOfflineMessages (c : condition) (limit : nat) (now : Z) (s : store) : list OfflineRow :=
  take limit (js_sort offlineMessageFifo
    (List.filter (λ entry, is_active entry && matches c entry && unexpired now entry && negb (leased now entry))
      (collection s))).

(** [entry.dedupeKey === key] *)
Definition has_dedupe (key : string) (entry : OfflineRow) : bool := String.eqb (dedupeKey (data entry)) key.

Definition new_row (p : Z) (d : OfflineData) : OfflineRow :=
  {| pk := p; data := d; state := active; row_envelope := Some (envelope d); claimedUntil := None;
     claimId := None; deliveryAttempts := None; terminalReason := None; terminalAt := None;
     terminalClaimId := None |}.

(** The answer is the state and data of the row (the caller reads [state], [id] and [timestamp]). *)
(* backend/db/inMemDB.ts:90-97 insertOfflineMessage *)
Definition insertOfflineMessage (d : OfflineData) (s : store) : (row_state * OfflineData) * store :=
  match js_find (has_dedupe (dedupeKey d)) (collection s) with
  | Some existing => ((state existing, data existing), s)
  | None => ((active, d), {| collection := collection s ++ [new_row (next_pk s) d]; next_pk := next_pk s + 1 |})
  end.

(** [Number.isSafeInteger(n) && n >= 0 ? n + 1 : 1] *)
Definition next_attempts (n : option Z) : Z :=
  match n with
  | Some n => if isSafeInteger n && (0 <=? n) then n + 1 else 1
  | None => 1
  end.

Definition set_claim (leaseUntil : Z) (cid : string) (m : OfflineRow) : OfflineRow :=
  {| pk := pk m; data := data m; state := state m; row_envelope := row_envelope m;
     claimedUntil := Some leaseUntil; claimId := Some cid;
     deliveryAttempts := Some (next_attempts (deliveryAttempts m));
     terminalReason := terminalReason m; terminalAt := terminalAt m; terminalClaimId := terminalClaimId m |}.

(** The row mutated is the very object [nextActiveOfflineMessage] found, which its [pk] identifies. *)
(* backend/db/inMemDB.ts:99-110 claimOfflineMessage *)
Definition claimOfflineMessage (c : condition) (leaseUntil : Z) (cid : string) (now : Z) (s : store)
    : option OfflineRow * store :=
  match nextActiveOfflineMessage c now s with
  | None => (None, s)
  | Some message =>
      if leased now message then (None, s) else
      (Some (set_claim leaseUntil cid message),
       {| collection := update_first (λ e, pk e =? pk message) (set_claim leaseUntil cid) (collection s);
          next_pk := next_pk s |})
  end.

(* backend/db/inMemDB.ts:112-115 offlineMessageClaimUntil *)
Definition offlineMessageClaimUntil (c : condition) (now : Z) (s : store) : option Z :=
  match nextActiveOfflineMessage c now s with
  | Some message => if leased now message then claimedUntil message else None
  | None => None
  end.
End localeCompare.

(** [condition.claimId], when [hasOwnProperty.call(condition, 'claimId')]. *)
Fixpoint condition_claimId (c : condition) : option string :=
  match c with
  | [] => None
  | by_claimId v :: _ => Some v
  | _ :: c' => condition_claimId c'
  end.

(** The row [ackOfflineMessage] removes. *)
Definition ack_target (c : condition) (entry : OfflineRow) : bool :=
  matches c entry &&
  match condition_claimId c with
  | Some v => bool_decide (claimId entry = Some v)
  | None => bool_decide (claimId entry = None)
  end.

(* backend/db/inMemDB.ts:117-124 ackOfflineMessage *)
Definition ackOfflineMessage (c : condition) (s : store) : bool * store :=
  match js_find (ack_target c) (collection s) with
  | None => (false, s)
  | Some _ => (true, {| collection := remove_first (ack_target c) (collection s); next_pk := next_pk s |})
  end.

(** The terminal state of a row: no envelope, no claim, the lease pinned to its expiry. *)
Definition set_rejected (reason : string) (at_ : Z) (terminalClaim : option string) (m : OfflineRow) : OfflineRow :=
  {| pk := pk m; data := data m; state := rejected; row_envelope := None;
     claimedUntil := expiresAt (data m); claimId := None; deliveryAttempts := deliveryAttempts m;
     terminalReason := Some reason; terminalAt := Some at_; terminalClaimId := terminalClaim |}.

Inductive rejection_result := r_rejected | r_duplicate | r_stale.

(** The condition of the callers: the row's id, mailbox and channel, and the claim. *)
(* backend/db/inMemDB.ts:126-144 rejectOfflineMessage *)
Definition rejectOfflineMessage (mid mbox chan cid reason : string) (now : Z) (s : store) : rejection_result * store :=
  let keys := [by_id mid; by_mailbox mbox; by_channel chan] in
  let is_target entry := negb (is_rejected entry) && matches (keys ++ [by_claimId cid]) entry in
  match js_find is_target (collection s) with
  | Some _ =>
      (r_rejected, {| collection := update_first is_target (set_rejected reason now (Some cid)) (collection s);
                      next_pk := next_pk s |})
  | None =>
      match js_find (λ entry, is_rejected entry && matches keys entry &&
                       bool_decide (terminalClaimId entry = Some cid)) (collection s) with
      | Some _ => (r_duplicate, s)
      | None => (r_stale, s)
      end
  end.

(** [recordOfflineRejection] of a message that never had a row writes one without an envelope. *)
Definition rejection_row (p : Z) (d : OfflineData) (reason : string) (now : Z) : OfflineRow :=
  {| pk := p; data := d; state := rejected; row_envelope := None; claimedUntil := expiresAt d;
     claimId := None; deliveryAttempts := None; terminalReason := Some reason; terminalAt := Some now;
     terminalClaimId := None |}.

(* backend/db/inMemDB.ts:146-163 recordOfflineRejection *)
Definition recordOfflineRejection (d : OfflineData) (reason : string) (now : Z) (s : store) : rejection_result * store :=
  match js_find (has_dedupe (dedupeKey d)) (collection s) with
  | Some existing =>
      if is_rejected existing then (r_duplicate, s) else
      (r_rejected, {| collection := update_first (has_dedupe (dedupeKey d)) (set_rejected reason now None) (collection s);
                      next_pk := next_pk s |})
  | None =>
      (r_rejected, {| collection := collection s ++ [rejection_row (next_pk s) d reason now];
                      next_pk := next_pk s + 1 |})
  end.

(** [!(entry.expiresAt instanceof Date) || entry.expiresAt.getTime() > now] is [unexpired]. *)
(* backend/db/inMemDB.ts:165-170 deleteExpiredOfflineMessages *)
Definition deleteExpiredOfflineMessages (now : Z) (s : store) : Z * store :=
  let retained := List.filter (unexpired now) (collection s) in
  (Z.of_nat (length (collection s)) - Z.of_nat (length retained),
   {| collection := retained; next_pk := next_pk s |}).

(* backend/db/inMemDB.ts:172-173 countOfflineMessages *)
Definition countOfflineMessages (c : condition) (now : Z) (s : store) : Z :=
  Z.of_nat (length (List.filter (λ entry, negb (is_rejected entry) && matches c entry && unexpired now entry)
    (collection s))).

(* backend/db/storageCaps.ts:9-9 STORAGE_CAPS *)
Definition STORAGE_CAPS : Z * Z := (4000, 256). (* offlineGlobal, offlinePerDevice *)

(** The in-memory branch of [storeOfflineMessage]. [_findOneFromDB] only compares a truthy key. *)
(* backend/db/index.ts:164-173 storeOfflineMessage, in-memory branch *)
Definition storeOfflineMessage (d : OfflineData) (now : Z) (s : store) : res ((row_state * OfflineData) * store) :=
  match js_find (λ e, nonempty (dedupeKey d) && has_dedupe (dedupeKey d) e) (collection s) with
  | Some duplicate => Ok ((state duplicate, data duplicate), s)
  | None =>
      throw_if (64 <=? countOfflineMessages [by_channel (channel d); by_mailbox (mailbox d)] now s) "MAILBOX_QUOTA";;
      throw_if (STORAGE_CAPS.1 <=? countOfflineMessages [] now s) "STORAGE_FULL";;
      throw_if (match senderDevice d with
                | Some device => STORAGE_CAPS.2 <=? countOfflineMessages [by_senderDevice device] now s
                | None => false
                end) "STORAGE_FULL";;
      mret (insertOfflineMessage d s)
  end.

(** ** Lemmas on rows and updates *)
Definition waiting (c : condition) (now : Z) (entry : OfflineRow) : bool :=
  negb (is_rejected entry) && matches c entry && unexpired now entry.

Lemma is_active_rejected e : is_active e = negb (is_rejected e).
Proof. unfold is_active, is_rejected. by destruct (state e). Qed.

Section updates.
Context (P : OfflineRow → bool) (f : OfflineRow → OfflineRow).

(** An update of one row that keeps a projection keeps the projection of the whole list. *)
Lemma update_first_fmap {B} (g : OfflineRow → B) l :
  (∀ e, g (f e) = g e) → g <$> update_first P f l = g <$> l.
Proof.
  intros H. induction l as [|e l IH]; [done|]. cbn [update_first].
  destruct (P e); rewrite !fmap_cons; [by rewrite H|by rewrite IH].
Qed.

(** A property that the updated row has, and that all rows had, holds of all rows after. *)
Lemma update_first_Forall (Q : OfflineRow → Prop) l :
  (∀ e, e ∈ l → P e = true → Q e → Q (f e)) → Forall Q l → Forall Q (update_first P f l).
Proof.
  intros H HQ. revert H. induction HQ as [|e l He Hl IH]; simpl; intros H; [done|].
  destruct (P e) eqn:E; constructor; auto; [apply H; set_solver|apply IH; set_solver].
Qed.

Lemma update_first_count (Q : OfflineRow → bool) l :
  (∀ e, P e = true → Q (f e) = true → Q e = true) →
  (length (List.filter Q (update_first P f l)) ≤ length (List.filter Q l))%nat.
Proof.
  intros H. induction l as [|e l IH]; simpl; [lia|]. destruct (P e) eqn:E; simpl.
  - destruct (Q (f e)) eqn:E1; [rewrite (H e E E1); simpl; lia|]. destruct (Q e); simpl; lia.
  - destruct (Q e); simpl; lia.
Qed.
End updates.

Lemma filter_count_sublist {A} (Q : A → bool) l1 l2 :
  l1 `sublist_of` l2 → (length (List.filter Q l1) ≤ length (List.filter Q l2))%nat.
Proof. induction 1; simpl; [lia| |]; destruct (Q x); simpl; lia. Qed.

Lemma filter_count_impl {A} (Q R : A → bool) l :
  (∀ x, Q x = true → R x = true) → (length (List.filter Q l) ≤ length (List.filter R l))%nat.
Proof.
  intros H. induction l as [|x l IH]; simpl; [lia|]. specialize (H x).
  destruct (Q x), (R x); simpl; try lia.
Qed.

Lemma fmap_sublist_of {A B} (g : A → B) l1 l2 : l1 `sublist_of` l2 → g <$> l1 `sublist_of` g <$> l2.
Proof. induction 1; rewrite ?fmap_cons; by constructor. Qed.

(** ** The mailbox invariant *)
Record row_ok (np : Z) (e : OfflineRow) : Prop := {
  row_pk : pk e < np;
  row_tombstone : is_rejected e = true → row_envelope e = None ∧ claimId e = None;
  row_payload : is_rejected e = false → row_envelope e = Some (envelope (data e)) }.

Record mailbox_inv (now : Z) (s : store) : Prop := {
  inv_rows : Forall (row_ok (next_pk s)) (collection s);
  inv_pk : NoDup (pk <$> collection s);
  inv_dedupe : NoDup ((λ e, dedupeKey (data e)) <$> collection s);
  inv_quota chan mbox : countOfflineMessages [by_channel chan; by_mailbox mbox] now s <= 64;
  inv_global : countOfflineMessages [] now s <= STORAGE_CAPS.1 }.

(** Operations that update one row in place. *)
Lemma mailbox_inv_update P f now s :
  (∀ e, pk (f e) = pk e) → (∀ e, data (f e) = data e) →
  (∀ e, is_rejected (f e) = false → is_rejected e = false) →
  (∀ np e, e ∈ collection s → P e = true → row_ok np e → row_ok np (f e)) →
  mailbox_inv now s →
  mailbox_inv now {| collection := update_first P f (collection s); next_pk := next_pk s |}.
Proof.
  intros Hpk Hdata Hrej Hok [H1 H2 H3 H4 H5].
  assert (∀ c, (∀ e, matches c (f e) = matches c e) →
    countOfflineMessages c now {| collection := update_first P f (collection s); next_pk := next_pk s |}
    <= countOfflineMessages c now s) as Hcount.
  { intros c Hc. unfold countOfflineMessages; cbn [collection]. apply inj_le, update_first_count.
    intros e He. unfold unexpired. rewrite Hc, Hdata, !andb_true_iff, !negb_true_iff. intros [[? ?] ?].
    auto. }
  constructor; cbn [collection next_pk].
  - apply update_first_Forall; auto.
  - by rewrite update_first_fmap.
  - rewrite update_first_fmap; [done|]. intros e. by rewrite Hdata.
  - intros chan mbox. etrans; [|apply (H4 chan mbox)]. apply Hcount.
    intros e. unfold matches; simpl. by rewrite Hdata.
  - etrans; [|apply H5]. by apply Hcount.
Qed.

(** Operations that drop rows. *)
Lemma mailbox_inv_sublist l now s :
  l `sublist_of` collection s → mailbox_inv now s →
  mailbox_inv now {| collection := l; next_pk := next_pk s |}.
Proof.
  intros Hl [H1 H2 H3 H4 H5]. constructor; cbn [collection next_pk].
  - apply Forall_forall. intros e He. eapply Forall_forall; [exact H1|]. by eapply elem_of_sublist.
  - eapply sublist_NoDup; [exact H2|]. by apply fmap_sublist_of.
  - eapply sublist_NoDup; [exact H3|]. by apply fmap_sublist_of.
  - intros chan mbox. etrans; [|apply (H4 chan mbox)]. by apply inj_le, filter_count_sublist.
  - etrans; [|apply H5]. by apply inj_le, filter_count_sublist.
Qed.

(** Time passing only ever removes rows from the counts. *)
Lemma mailbox_inv_tick now now' s : now <= now' → mailbox_inv now s → mailbox_inv now' s.
Proof.
  intros Hle [H1 H2 H3 H4 H5].
  assert (∀ c, countOfflineMessages c now' s <= countOfflineMessages c now s) as Hc.
  { intros c. apply inj_le, filter_count_impl. intros e. unfold unexpired.
    destruct (expiresAt (data e)); [|done]. rewrite !andb_true_iff. rewrite !Z.ltb_lt. intros [? ?]. split; [done|lia]. }
  constructor; [done..| |].
  - intros. etrans; [apply Hc|apply H4].
  - etrans; [apply Hc|apply H5].
Qed.

Lemma no_dedupe_row key l :
  js_find (has_dedupe key) l = None → key ∉ (λ e, dedupeKey (data e)) <$> l.
Proof.
  rewrite js_find_None. intros H (e & -> & He)%list_elem_of_fmap.
  specialize (H e He). unfold has_dedupe in H. by rewrite String.eqb_refl in H.
Qed.

(** Operations that append a row with a fresh key. *)
Lemma mailbox_inv_append r now s :
  pk r = next_pk s → row_ok (next_pk s + 1) r →
  js_find (has_dedupe (dedupeKey (data r))) (collection s) = None →
  (is_rejected r = false →
    countOfflineMessages [by_channel (channel (data r)); by_mailbox (mailbox (data r))] now s < 64 ∧
    countOfflineMessages [] now s < STORAGE_CAPS.1) →
  mailbox_inv now s →
  mailbox_inv now {| collection := collection s ++ [r]; next_pk := next_pk s + 1 |}.
Proof.
  intros Hpk Hr Hfresh Hq [H1 H2 H3 H4 H5]. constructor; cbn [collection next_pk].
  - apply Forall_app; split; [|by apply Forall_singleton].
    eapply Forall_impl; [exact H1|]. intros e [? ? ?]. split; [lia|done|done].
  - rewrite fmap_app. apply NoDup_app. split_and!; [done| |apply NoDup_singleton].
    intros p (e & -> & He)%list_elem_of_fmap [Hp|Hp%elem_of_nil]%elem_of_cons; [|done].
    eapply Forall_forall in H1; [|exact He]. destruct H1. lia.
  - rewrite fmap_app. apply NoDup_app. split_and!; [done| |apply NoDup_singleton].
    intros k Hk [->|Hp%elem_of_nil]%elem_of_cons; [|done]. by apply (no_dedupe_row _ _ Hfresh).
  - intros chan mbox. unfold countOfflineMessages in *; cbn [collection].
    rewrite List.filter_app, length_app. specialize (H4 chan mbox). cbn [List.filter].
    destruct (_ && _ && _) eqn:E; cbn [length]; [|lia].
    rewrite !andb_true_iff, negb_true_iff in E. destruct E as [[E1 E2] _].
    unfold matches in E2. simpl in E2. rewrite !andb_true_iff, !String.eqb_eq in E2.
    destruct E2 as (<- & <- & _). specialize (Hq E1). lia.
  - unfold countOfflineMessages in *; cbn [collection]. rewrite List.filter_app, length_app. cbn [List.filter].
    destruct (_ && _ && _) eqn:E; cbn [length]; [|lia].
    rewrite !andb_true_iff, negb_true_iff in E. destruct E as [[E1 _] _]. specialize (Hq E1). lia.
Qed.

(** ** Reachable mailboxes *)
Inductive mailbox_step (localeCompare : string → string → Z) : Z * store → Z * store → Prop :=
| step_tick now now' s : now <= now' → mailbox_step localeCompare (now, s) (now', s)
| step_store now s d r s' :
    storeOfflineMessage d now s = Ok (r, s') → mailbox_step localeCompare (now, s) (now, s')
| step_claim now s c lease cid :
    mailbox_step localeCompare (now, s) (now, (claimOfflineMessage localeCompare c lease cid now s).2)
| step_ack now s c : mailbox_step localeCompare (now, s) (now, (ackOfflineMessage c s).2)
| step_reject now s mid mbox chan cid reason :
    mailbox_step localeCompare (now, s) (now, (rejectOfflineMessage mid mbox chan cid reason now s).2)
| step_record now s d reason :
    mailbox_step localeCompare (now, s) (now, (recordOfflineRejection d reason now s).2)
| step_cleanup now s :
    mailbox_step localeCompare (now, s) (now, (deleteExpiredOfflineMessages now s).2).

Lemma set_rejected_inv P reason now at_ tc s :
  mailbox_inv now s →
  mailbox_inv now {| collection := update_first P (set_rejected reason at_ tc) (collection s); next_pk := next_pk s |}.
Proof.
  apply mailbox_inv_update; try done. intros np e _ _ [Hp _ _]. by split.
Qed.

Lemma storeOfflineMessage_inv d now s r s' :
  mailbox_inv now s → storeOfflineMessage d now s = Ok (r, s') → mailbox_inv now s'.
Proof.
  intros Hs H. unfold storeOfflineMessage in H. destruct (js_find _ _) in H; [congruence|].
  res_inv H. unfold insertOfflineMessage in H. destruct (js_find _ _) eqn:Hf in H; [congruence|].
  injection H as _ <-. apply mailbox_inv_append; try done.
  - split; simpl; [lia|done|done].
  - intros _. bool_prop. cbn [new_row data]. lia.
Qed.

Lemma nextActive_waiting lc c now s m :
  nextActiveOfflineMessage lc c now s = Some m →
  m ∈ collection s ∧ is_rejected m = false ∧ matches c m = true ∧ unexpired now m = true.
Proof.
  unfold nextActiveOfflineMessage. intros Hm%list_elem_of_lookup_2.
  rewrite js_sort_perm, list_elem_of_In, filter_In, <-list_elem_of_In, is_active_rejected in Hm.
  bool_prop. tauto.
Qed.

(** A row is identified by its [pk]. *)
Lemma pk_inj now s e m :
  mailbox_inv now s → e ∈ collection s → m ∈ collection s → pk e = pk m → e = m.
Proof.
  intros [_ H _ _ _] He Hm Hp. revert H He Hm. generalize (collection s).
  induction l as [|x l IH]; [set_solver|]. rewrite fmap_cons, NoDup_cons. intros [Hx Hl].
  assert (∀ y, y ∈ l → pk y ≠ pk x) as Hy.
  { intros y Hin Heq. apply Hx. rewrite <-Heq. by apply list_elem_of_fmap_2. }
  rewrite !elem_of_cons. intros [->|He] [->|Hm]; auto.
  - by destruct (Hy m Hm).
  - by destruct (Hy e He).
Qed.

Lemma claim_inv lc c lease cid now s :
  mailbox_inv now s → mailbox_inv now (claimOfflineMessage lc c lease cid now s).2.
Proof.
  intros Hs. unfold claimOfflineMessage.
  destruct (nextActiveOfflineMessage _ _ _ _) as [m|] eqn:Em; [|done].
  apply nextActive_waiting in Em as (Hin & Hr & _ & _).
  destruct (leased now m); [done|]. apply mailbox_inv_update; try done.
  intros np e He Hp%Z.eqb_eq [H1 H2 H3]. rewrite (pk_inj _ _ _ _ Hs He Hin Hp) in *.
  split; [done| |done]. unfold is_rejected in *. simpl. congruence.
Qed.

Lemma mailbox_step_inv lc n s n' s' :
  mailbox_step lc (n, s) (n', s') → mailbox_inv n s → mailbox_inv n' s'.
Proof.
  inversion 1; subst; intros Hs.
  - by eapply mailbox_inv_tick.
  - by eapply storeOfflineMessage_inv.
  - by apply claim_inv.
  - unfold ackOfflineMessage. destruct (js_find _ _); [|done].
    apply mailbox_inv_sublist; [apply remove_first_sublist|done].
  - unfold rejectOfflineMessage. destruct (js_find _ _); [by apply set_rejected_inv|].
    by destruct (js_find _ _).
  - unfold recordOfflineRejection. destruct (js_find _ _) as [e|] eqn:Hf.
    + destruct (is_rejected e); [done|]. by apply set_rejected_inv.
    + apply mailbox_inv_append; try done. split; simpl; [lia|done|done].
  - apply mailbox_inv_sublist; [apply filter_sublist|done].
Qed.


Definition sample_data (i : string) (t : Z) : OfflineData :=
  {| id := i; dedupeKey := i; channel := "room"; mailbox := "bob"; sender := "alice";
     senderDevice := None; envelope := "sealed"; timestamp := t; expiresAt := Some (t + 100) |}.
Definition sample_store : store :=
  (insertOfflineMessage (sample_data "b" 20) (insertOfflineMessage (sample_data "a" 10) empty_store).2).2.


(** ** Claims *)
Definition fifo_le (x y : OfflineRow) : Prop :=
  timestamp (data x) < timestamp (data y) ∨
  timestamp (data x) = timestamp (data y) ∧ pk x <= pk y.

Lemma fifo_le_cmp lc now s x y :
  (∀ t, lc t t = 0) → mailbox_inv now s → x ∈ collection s → y ∈ collection s →
  offlineMessageFifo lc x y <= 0 ↔ fifo_le x y.
Proof.
  intros Hlc Hs Hx Hy. unfold offlineMessageFifo, fifo_le. cbn zeta.
  destruct (Z.eqb_spec (timestamp (data x) - timestamp (data y)) 0); simpl; [|lia].
  destruct (Z.eqb_spec (pk x - pk y) 0); simpl; [|lia].
  rewrite (pk_inj _ _ _ _ Hs Hx Hy) by lia. rewrite Hlc. lia.
Qed.

(** The head of a mailbox is its first waiting row in timestamp order. *)
Lemma nextActive_head lc c now s m :
  (∀ t, lc t t = 0) → mailbox_inv now s →
  nextActiveOfflineMessage lc c now s = Some m →
  (m ∈ collection s ∧ waiting c now m = true) ∧
  ∀ e, e ∈ collection s → waiting c now e = true → fifo_le m e.
Proof.
  intros Hlc Hs Hm. destruct (nextActive_waiting _ _ _ _ _ Hm) as (Hin & Hr & Hc & Hu).
  split; [unfold waiting; by rewrite Hr, Hc, Hu|]. intros e He Hw.
  apply (fifo_le_cmp lc now s); [done..|].
  eapply (js_sort_head _ (.∈ collection s)); [| |apply Forall_forall|exact Hm|].
  - intros x y Hx Hy. rewrite !(fifo_le_cmp lc now s) by done. unfold fifo_le. lia.
  - intros x y z Hx Hy Hz. rewrite !(fifo_le_cmp lc now s) by done. unfold fifo_le. lia.
  - intros x. rewrite list_elem_of_In, filter_In, <-list_elem_of_In. tauto.
  - rewrite list_elem_of_In, filter_In, <-list_elem_of_In, is_active_rejected. done.
Qed.

Lemma nextActive_None lc c now s :
  nextActiveOfflineMessage lc c now s = None ↔ ∀ e, e ∈ collection s → waiting c now e = false.
Proof.
  unfold nextActiveOfflineMessage. rewrite lookup_ge_None. split.
  - intros H e He. apply not_true_iff_false. intros Hw.
    assert (e ∈ js_sort (offlineMessageFifo lc) (List.filter (λ entry,
      is_active entry && matches c entry && unexpired now entry) (collection s))) as Hin.
    { rewrite js_sort_perm, list_elem_of_In, filter_In, <-list_elem_of_In, is_active_rejected. done. }
    destruct (js_sort _ _); [set_solver|simpl in H; lia].
  - intros H. destruct (js_sort _ _) as [|x l] eqn:E; [simpl; lia|].
    assert (x ∈ js_sort (offlineMessageFifo lc) (List.filter (λ entry,
      is_active entry && matches c entry && unexpired now entry) (collection s))) as Hin by (rewrite E; set_solver).
    rewrite js_sort_perm, list_elem_of_In, filter_In, <-list_elem_of_In, is_active_rejected in Hin.
    destruct Hin as [Hin Hw]. specialize (H x Hin). unfold waiting in H. congruence.
Qed.

Definition mailbox_key (mbox chan : string) : condition := [by_mailbox mbox; by_channel chan].
Definition ack_key (mid mbox chan cid : string) : condition :=
  [by_id mid; by_mailbox mbox; by_channel chan; by_claimId cid].

(** The effect of a successful claim on the store. *)
Lemma claim_effect lc c lease cid now s m s' :
  mailbox_inv now s → claimOfflineMessage lc c lease cid now s = (Some m, s') →
  ∃ head l1 l2, nextActiveOfflineMessage lc c now s = Some head ∧ leased now head = false ∧
    collection s = l1 ++ head :: l2 ∧ collection s' = l1 ++ m :: l2 ∧ m = set_claim lease cid head.
Proof.
  intros Hs H. unfold claimOfflineMessage in H.
  destruct (nextActiveOfflineMessage _ _ _ _) as [h|] eqn:Eh; [|done].
  destruct (leased now h) eqn:El; [done|]. injection H as <- <-.
  destruct (nextActive_waiting _ _ _ _ _ Eh) as (Hin & _).
  destruct (js_find (λ e, pk e =? pk h) (collection s)) as [h'|] eqn:Ef.
  - pose proof (js_find_Some _ _ _ Ef) as [Hin' Hp%Z.eqb_eq].
    assert (h' = h) as -> by (by eapply pk_inj).
    destruct (update_first_spec _ (set_claim lease cid) _ _ Ef) as (l1 & l2 & ? & ? & _).
    by exists h, l1, l2.
  - eapply js_find_None in Ef; [|exact Hin]. by rewrite Z.eqb_refl in Ef.
Qed.

(** a claim takes the oldest waiting message of the mailbox (by timestamp, then insertion), only
    when nobody holds an unexpired lease on it, and writes nothing but that row's claim; until the
    lease ends, no other claim of that mailbox obtains any message: later rows never overtake a
    leased head. *)
Theorem claim_fifo_head lc mbox chan lease cid now s m s' :
  (∀ t, lc t t = 0) → mailbox_inv now s →
  claimOfflineMessage lc (mailbox_key mbox chan) lease cid now s = (Some m, s') →
  ∃ head l1 l2,
    collection s = l1 ++ head :: l2 ∧ collection s' = l1 ++ m :: l2 ∧ m = set_claim lease cid head ∧
    leased now head = false ∧
    (∀ e, e ∈ collection s → waiting (mailbox_key mbox chan) now e = true → fifo_le head e) ∧
    ∀ now' lease' cid', now <= now' < lease → unexpired now' head = true →
      claimOfflineMessage lc (mailbox_key mbox chan) lease' cid' now' s' = (None, s').
Proof.
  intros Hlc Hs Hc. destruct (claim_effect _ _ _ _ _ _ _ _ Hs Hc) as (h & l1 & l2 & Hh & Hl & E1 & E2 & Em).
  destruct (nextActive_head _ _ _ _ _ Hlc Hs Hh) as [[Hin Hw] Hmin].
  exists h, l1, l2. split_and!; [done..|].
  intros now' lease' cid' Hnow Hun.
  assert (mailbox_inv now' s') as Hs'.
  { eapply mailbox_inv_tick; [apply Hnow|]. pose proof (claim_inv lc (mailbox_key mbox chan) lease cid now s Hs) as H.
    by rewrite Hc in H. }
  assert (m ∈ collection s') as Hm by (rewrite E2; set_solver).
  assert (waiting (mailbox_key mbox chan) now' m = true) as Hwm.
  { unfold waiting in Hw |- *. rewrite !andb_true_iff in Hw. destruct Hw as [[Hw1 Hw2] _].
    subst m. change (unexpired now' (set_claim lease cid h)) with (unexpired now' h). rewrite Hun.
    unfold is_rejected, matches in *; simpl in *. by rewrite Hw1, Hw2. }
  unfold claimOfflineMessage. destruct (nextActiveOfflineMessage _ _ now' s') as [h'|] eqn:Eh'; [|done].
  destruct (nextActive_head _ _ _ _ _ Hlc Hs' Eh') as [[Hin' Hw'] Hmin'].
  assert (h' = m) as ->.
  { apply (pk_inj now' s'); [done..|]. specialize (Hmin' m Hm Hwm).
    assert (h' = m ∨ h' ∈ collection s ∧ waiting (mailbox_key mbox chan) now h' = true) as [->|[Hi Hw2]]; [|done|].
    - assert (h' = m ∨ h' ∈ collection s) as [->|Hi] by (rewrite E1; rewrite E2, elem_of_app, elem_of_cons in Hin'; rewrite elem_of_app, elem_of_cons; tauto); [by left|right].
      split; [done|]. unfold waiting in *. rewrite !andb_true_iff in *. destruct Hw' as [[? ?] Hu]. split_and!; [done..|].
      revert Hu. unfold unexpired. destruct (expiresAt (data h')); [rewrite !Z.ltb_lt; lia|done].
    - specialize (Hmin h' Hi Hw2). subst m. unfold fifo_le in *. simpl in *. lia. }
  assert (leased now' m = true) as -> by (subst m; unfold leased; simpl; lia). done.
Qed.

Lemma sample_store_inv : mailbox_inv 30 sample_store.
Proof.
  constructor.
  - repeat constructor; simpl; lia || done.
  - refine (bool_decide_unpack _ _). by vm_compute.
  - refine (bool_decide_unpack _ _). by vm_compute.
  - intros chan mbox. unfold countOfflineMessages.
    etrans; [apply inj_le, (sublist_length _ (collection sample_store)), filter_sublist|]. by vm_compute.
  - by vm_compute.
Qed.

Lemma claim_fifo_head_witness :
  claimOfflineMessage (λ _ _, 0) (mailbox_key "bob" "room") 90 "c2" 60
    (claimOfflineMessage (λ _ _, 0) (mailbox_key "bob" "room") 80 "c1" 30 sample_store).2
  = (None, (claimOfflineMessage (λ _ _, 0) (mailbox_key "bob" "room") 80 "c1" 30 sample_store).2).
Proof.
  destruct (claim_fifo_head (λ _ _, 0) "bob" "room" 80 "c1" 30 sample_store
    (set_claim 80 "c1" (new_row 0 (sample_data "a" 10)))
    (claimOfflineMessage (λ _ _, 0) (mailbox_key "bob" "room") 80 "c1" 30 sample_store).2)
    as (head & l1 & l2 & E & _ & Em & _ & _ & H).
  - done.
  - exact sample_store_inv.
  - vm_compute. reflexivity.
  - apply H; [lia|]. injection Em as _ Hd _ _. unfold unexpired. by rewrite <-Hd.
Defined.

Lemma ack_key_target mid mbox chan cid e :
  ack_target (ack_key mid mbox chan cid) e = true → claimId e = Some cid.
Proof. unfold ack_target. simpl. bool_prop. tauto. Qed.

Lemma remove_first_middle {A} (P : A → bool) l1 x l2 :
  P x = true → Forall (λ y, P y = false) l1 → remove_first P (l1 ++ x :: l2) = l1 ++ l2.
Proof.
  intros Hx. induction 1 as [|y l1 Hy _ IH]; simpl; [by rewrite Hx|]. by rewrite Hy, IH.
Qed.

(** An acknowledgement is honoured only for the current claim. After a claim with a fresh claim
    id, the holder's acknowledgement removes exactly the claimed row; an acknowledgement under any
    other claim id the row held before (a lease that ran out) answers [false] and removes nothing. *)
Theorem ack_requires_current_claim lc mbox chan lease cid now s m s' :
  mailbox_inv now s →
  (∀ e, e ∈ collection s → claimId e ≠ Some cid) →
  claimOfflineMessage lc (mailbox_key mbox chan) lease cid now s = (Some m, s') →
  (∃ l1 l2, collection s' = l1 ++ m :: l2 ∧
     ackOfflineMessage (ack_key (id (data m)) mbox chan cid) s' =
       (true, {| collection := l1 ++ l2; next_pk := next_pk s' |})) ∧
  ∀ mid old, old ≠ cid →
    (∀ e, e ∈ collection s → claimId e = Some old → pk e = pk m) →
    ackOfflineMessage (ack_key mid mbox chan old) s' = (false, s').
Proof.
  intros Hs Hfresh Hc. destruct (claim_effect _ _ _ _ _ _ _ _ Hs Hc) as (h & l1 & l2 & Hh & _ & E1 & E2 & Em).
  destruct (nextActive_waiting _ _ _ _ _ Hh) as (Hin & _ & Hm & _).
  assert (∀ e, e ∈ l1 ++ l2 → e ∈ collection s ∧ pk e ≠ pk m) as Hrest.
  { intros e He. split; [rewrite E1; set_solver|]. destruct Hs as [_ Hpk _ _ _]. subst m. simpl.
    rewrite E1, fmap_app, fmap_cons in Hpk. intros Hp.
    rewrite <-Permutation_middle in Hpk. apply NoDup_cons in Hpk as [Hpk _]. apply Hpk.
    rewrite <-Hp, <-fmap_app. by apply list_elem_of_fmap_2. }
  split.
  - exists l1, l2. split; [done|]. unfold ackOfflineMessage.
    assert (ack_target (ack_key (id (data m)) mbox chan cid) m = true) as Ht.
    { subst m. unfold matches in Hm. simpl in Hm. unfold ack_target; simpl.
      rewrite String.eqb_refl. bool_prop. tauto. }
    destruct (js_find _ _) as [e|] eqn:Hf.
    + rewrite E2, remove_first_middle; [done|done|].
      apply Forall_forall. intros e' He'. apply not_true_is_false. intros Ha%ack_key_target.
      destruct (Hrest e') as [? _]; [set_solver|]. by destruct (Hfresh e').
    + eapply js_find_None in Hf; [|rewrite E2; apply elem_of_app; right; apply elem_of_cons; by left]. congruence.
  - intros mid old Hne Hold. unfold ackOfflineMessage.
    destruct (js_find _ _) as [e|] eqn:Hf; [|done].
    apply js_find_Some in Hf as [He Ha%ack_key_target]. exfalso.
    rewrite E2, elem_of_app, elem_of_cons in He.
    assert (e = m ∨ e ∈ l1 ++ l2) as [->|He'] by (rewrite elem_of_app; tauto).
    + subst m. simpl in Ha. congruence.
    + destruct (Hrest _ He') as [? Hp]. by apply Hp, Hold.
Qed.

Lemma ack_requires_current_claim_witness :
  let s1 := (claimOfflineMessage (λ _ _, 0) (mailbox_key "bob" "room") 40 "c1" 30 sample_store).2 in
  let s2 := (claimOfflineMessage (λ _ _, 0) (mailbox_key "bob" "room") 90 "c2" 50 s1).2 in
  ackOfflineMessage (ack_key "a" "bob" "room" "c1") s2 = (false, s2).
Proof.
  intros s1 s2.
  apply (ack_requires_current_claim (λ _ _, 0) "bob" "room" 90 "c2" 50 s1
    (set_claim 90 "c2" (set_claim 40 "c1" (new_row 0 (sample_data "a" 10)))) s2).
  - eapply mailbox_inv_tick; [|apply claim_inv, sample_store_inv]. lia.
  - apply Forall_forall. repeat constructor; done.
  - vm_compute. reflexivity.
  - done.
  - apply (proj1 (Forall_forall (λ e, claimId e = Some "c1"%string → pk e = 0) (collection s1))).
    repeat constructor; done.
Defined.

(** a message whose deduplication key is already stored is never queued twice: storing it again
    changes nothing and answers the stored row's state, so a rejected message answers [rejected]
    for as long as its row lives, and a successful store is itself visible to the next one. *)
Theorem store_is_idempotent d now s r s' :
  nonempty (dedupeKey d) = true →
  storeOfflineMessage d now s = Ok (r, s') →
  ∀ now' d', dedupeKey d' = dedupeKey d → storeOfflineMessage d' now' s' = Ok (r, s').
Proof.
  intros Hne H now' d' Hd. unfold storeOfflineMessage. rewrite Hd, Hne.
  unfold storeOfflineMessage in H. rewrite Hne in H. cbn [andb] in *.
  destruct (js_find (λ e, has_dedupe (dedupeKey d) e) (collection s)) as [e|] eqn:Hf.
  - injection H as <- <-. by rewrite Hf.
  - res_inv H. unfold insertOfflineMessage in H.
    change (js_find (has_dedupe (dedupeKey d)) (collection s)) with
      (js_find (λ e, has_dedupe (dedupeKey d) e) (collection s)) in H. rewrite Hf in H.
    injection H as <- <-. cbn [collection].
    rewrite (js_find_snoc _ _ (new_row (next_pk s) d)); [done|done|apply String.eqb_refl].
Qed.

Lemma store_is_idempotent_witness :
  storeOfflineMessage (sample_data "a" 77) 40 (insertOfflineMessage (sample_data "a" 10) empty_store).2 =
  Ok ((active, sample_data "a" 10), (insertOfflineMessage (sample_data "a" 10) empty_store).2).
Proof.
  apply (store_is_idempotent (sample_data "a" 10) 30 empty_store); vm_compute; reflexivity.
Defined.
