(* ===== verification/RoomMessage.v ===== *)
(** * Room-bound message frames ([crypto/roomMessageV1.ts])

    A byte array is a [list ascii]; a string is the list of the bytes of its UTF-8 encoding, which
    is the string itself for the ASCII strings the format admits. The frame is
    [DOMAIN | version | kind | room(16) | len(2) | sender | len(2) | recipient | event(16) | len(4) | payload]. *)
From S2P Require Import Prelude.

Notation bytes := (list ascii).
Definition of_codes (l : list Z) : bytes := (λ z, ascii_of_N (Z.to_N z)) <$> l.
Definition str (s : string) : bytes := list_ascii_of_string s.
Definition blen (b : bytes) : Z := Z.of_nat (length b).
Definition slice (v : bytes) (off len : nat) : bytes := take len (drop off v).
Definition byte_at (v : bytes) (off : nat) : option Z := code <$> v !! off.

(* service/src/crypto/roomMessageV1.ts:1-5 DOMAIN, VERSION, HEADER_LENGTH, CANONICAL_IDENTITY_REFERENCE_BYTES *)
Definition DOMAIN : bytes := str "K3NCRYPT/ROOM-MESSAGE" ++ of_codes [0].
Definition VERSION : Z := 1.
Definition HEADER_LENGTH : nat := (length DOMAIN + 1 + 1 + 16 + 2 + 2 + 16 + 4)%nat.
Definition CANONICAL_IDENTITY_REFERENCE_BYTES : nat := 56.
(* service/src/crypto/roomMessageV1.ts:5-5 ROOM_MESSAGE_V1_MAX_PAYLOAD_BYTES, MAX_USER_MESSAGE_UTF8_BYTES *)
Definition ROOM_MESSAGE_V1_MAX_PAYLOAD_BYTES : Z := 60 * 1024.

(* service/src/crypto/roomMessageV1.ts:14-14 RoomMessageKind *)
Inductive RoomMessageKind := text | attachment_reference | join_introduction.
(* service/src/crypto/roomMessageV1.ts:19-23 KIND_TO_BYTE *)
Definition KIND_TO_BYTE (k : RoomMessageKind) : Z :=
  match k with text => 1 | attachment_reference => 2 | join_introduction => 3 end.
(* service/src/crypto/roomMessageV1.ts:24-24 BYTE_TO_KIND *)
Definition BYTE_TO_KIND (b : Z) : option RoomMessageKind :=
  if b =? 1 then Some text else if b =? 2 then Some attachment_reference
  else if b =? 3 then Some join_introduction else None.

(* service/src/crypto/roomMessageV1.ts:26-33 RoomMessageV1 *)
Record RoomMessageV1 := {
  roomId : bytes; senderIdentityReference : bytes; recipientIdentityReference : bytes;
  eventId : bytes; kind : RoomMessageKind; payload : bytes }.
(* service/src/crypto/roomMessageV1.ts:35-39 RoomMessageExpectation *)
Record RoomMessageExpectation := {
  expected_roomId : bytes; expected_sender : bytes; expected_recipient : bytes }.
(* service/src/crypto/roomMessageV1.ts:41-42 DecodedRoomMessage *)
Inductive DecodedRoomMessage := legacy (payload : bytes) | room_message_v1 (m : RoomMessageV1).

(** ** UUIDs *)
Definition dash : ascii := "-"%char.
Definition hex_run (b : bytes) : bool := forallb is_hex_lower b.

(** [/^[0-9a-f]{8}-[0-9a-f]{4}-[0-9a-f]{4}-[0-9a-f]{4}-[0-9a-f]{12}$/.test(value)] *)
Definition uuid_ok (v : bytes) : bool :=
  (length v =? 36)%nat &&
  forallb (λ i, from_option (if existsb (Nat.eqb i) [8; 13; 18; 23]%nat then Ascii.eqb dash else is_hex_lower)
                  false (v !! i)) (seq 0 36).

(* service/src/crypto/roomMessageV1.ts:45-50 exactUuid *)
Definition exactUuid (value : bytes) : res bytes :=
  throw_if (negb (uuid_ok value)) "Room message UUID is invalid.";; mret value.

Definition nibble (c : ascii) : Z := if is_digit c then code c - 48 else code c - 87.
Definition hex_char (z : Z) : ascii := ascii_of_N (Z.to_N (if z <? 10 then 48 + z else 87 + z)).

(** [Uint8Array.from(value.match(/.{2}/g), (pair) => Number.parseInt(pair, 16))] *)
Fixpoint unhex (v : bytes) : bytes :=
  match v with
  | a :: b :: v' => ascii_of_N (Z.to_N (16 * nibble a + nibble b)) :: unhex v'
  | _ => []
  end.

(** [byte.toString(16).padStart(2, '0')] of every byte, joined. *)
Fixpoint hex (v : bytes) : bytes :=
  match v with
  | [] => []
  | c :: v' => hex_char (code c / 16) :: hex_char (code c mod 16) :: hex v'
  end.

(** [replace(/^(.{8})(.{4})(.{4})(.{4})(.{12})$/, '$1-$2-$3-$4-$5')] on 32 characters *)
Definition dashes (v : bytes) : bytes :=
  slice v 0 8 ++ dash :: slice v 8 4 ++ dash :: slice v 12 4 ++ dash :: slice v 16 4 ++ dash :: slice v 20 12.

Definition undash (v : bytes) : bytes := List.filter (λ c, negb (Ascii.eqb c dash)) v.

(* service/src/crypto/roomMessageV1.ts:52-55 roomUuidBytes *)
Definition roomUuidBytes (value : bytes) : res bytes := v ← exactUuid value; mret (unhex (undash v)).

(** [[...bytes].map(hex).join('').replace(dashes)]: the text of a UUID's 16 bytes *)
Definition uuid_text (b : bytes) : bytes := dashes (hex b).

(** ** Identity references *)
Definition is_ref_char (c : ascii) : bool := is_upper c || is_digit c || (code c =? 95) || (code c =? 45).

(** [/^K3 (?:[A-Z0-9_-]{4} ){10}[A-Z0-9_-]{3}$/.test(value)], position by position *)
Definition identity_ok (v : bytes) : bool :=
  (length v =? 56)%nat && bool_decide (take 3 v = str "K3 ") &&
  forallb (λ j, from_option (λ c, if (j mod 5 =? 4)%nat then Ascii.eqb c " "%char else is_ref_char c) false
                  (v !! (3 + j)%nat)) (seq 0 53).

(* service/src/crypto/roomMessageV1.ts:57-63 identityBytes *)
Definition identityBytes (value : bytes) : res bytes :=
  throw_if (negb ((length value =? CANONICAL_IDENTITY_REFERENCE_BYTES)%nat && identity_ok value))
    "Room message identity reference is invalid.";;
  mret value.

(** The byte of a [RoomMessageKind] always exists: [kindByte] cannot throw on the typed value. *)
(* service/src/crypto/roomMessageV1.ts:65-69 kindByte *)
Definition kindByte (k : RoomMessageKind) : res Z :=
  let value := KIND_TO_BYTE k in
  throw_if (value =? 0) "Room message payload kind is unsupported.";; mret value.

(** ** UTF-8 *)
(** [new TextDecoder('utf-8', { fatal: true })]: well-formed UTF-8 (RFC 3629), by the ranges its
    first bytes admit; [w] is the number of continuation bytes left and the next one's range. *)
Fixpoint utf8_run (w : nat) (lo hi : Z) (v : bytes) : bool :=
  match v with
  | [] => (w =? 0)%nat
  | c :: v' =>
      match w with
      | S w' => in_range lo hi c && utf8_run w' 128 191 v'
      | O =>
          if in_range 0 127 c then utf8_run 0 128 191 v'
          else if in_range 194 223 c then utf8_run 1 128 191 v'
          else if in_range 224 224 c then utf8_run 2 160 191 v'
          else if in_range 237 237 c then utf8_run 2 128 159 v'
          else if in_range 225 239 c then utf8_run 2 128 191 v'
          else if in_range 240 240 c then utf8_run 3 144 191 v'
          else if in_range 241 243 c then utf8_run 3 128 191 v'
          else if in_range 244 244 c then utf8_run 3 128 143 v'
          else false
      end
  end.
Definition utf8_valid (v : bytes) : bool := utf8_run 0 128 191 v.
Definition BOM : bytes := of_codes [239; 187; 191].

(* service/src/crypto/roomMessageV1.ts:88-89 startsWith *)
Definition startsWith (value prefix : bytes) : bool :=
  (length prefix <=? length value)%nat &&
  forallb (λ '(i, b), bool_decide (value !! i = Some b)) (imap pair prefix).

(** [decoder.decode(value)]: throws on malformed input, drops a leading byte order mark. *)
Definition utf8_decode (v : bytes) : res bytes :=
  throw_if (negb (utf8_valid v)) "The encoded data was not valid.";;
  mret (if startsWith v BOM then drop 3 v else v).

Definition FILE_PREFIX : bytes := str "k3ncrypt-file-".
Definition INTRODUCTION_PREFIX : bytes := of_codes [0; 75; 51; 78; 67; 73; 1].

(* service/src/crypto/roomMessageV1.ts:71-86 validateKindPayload *)
Definition validateKindPayload (k : RoomMessageKind) (p : bytes) : res unit :=
  throw_if (ROOM_MESSAGE_V1_MAX_PAYLOAD_BYTES <? blen p) "Room message payload is invalid or too large.";;
  match k with
  | text =>
      throw_if (negb (utf8_valid p)) "Room message text is not valid UTF-8.";;
      throw_if (startsWith p FILE_PREFIX || startsWith p INTRODUCTION_PREFIX)
        "Room message payload kind does not match its content."
  | attachment_reference =>
      throw_if (negb (startsWith p FILE_PREFIX)) "Room message attachment reference kind is invalid."
  | join_introduction =>
      throw_if (negb (startsWith p INTRODUCTION_PREFIX)) "Room message introduction kind is invalid."
  end.

(** ** Big-endian integers *)
(* service/src/crypto/roomMessageV1.ts:91-91 putU16 *)
Definition putU16 (z : Z) : bytes := of_codes [z / 256 mod 256; z mod 256].
(* service/src/crypto/roomMessageV1.ts:92-92 putU32 *)
Definition putU32 (z : Z) : bytes :=
  of_codes [z / 16777216 mod 256; z / 65536 mod 256; z / 256 mod 256; z mod 256].
(** [view.getUint16(offset, false)] and [view.getUint32(offset, false)], a [RangeError] outside *)
Definition getU16 (v : bytes) (off : nat) : res Z :=
  a ← require (byte_at v off) "RangeError"; b ← require (byte_at v (off + 1)) "RangeError";
  mret (256 * a + b).
Definition getU32 (v : bytes) (off : nat) : res Z :=
  a ← getU16 v off; b ← getU16 v (off + 2); mret (65536 * a + b).

(** ** The codec *)
(* service/src/crypto/roomMessageV1.ts:95-118 encodeRoomMessageV1 *)
Definition encodeRoomMessageV1 (message : RoomMessageV1) : res bytes :=
  room ← roomUuidBytes (roomId message);
  sender ← identityBytes (senderIdentityReference message);
  recipient ← identityBytes (recipientIdentityReference message);
  event ← (v ← exactUuid (eventId message); roomUuidBytes v);
  kind_ ← kindByte (kind message);
  validateKindPayload (kind message) (payload message);;
  throw_if (negb (length sender =? CANONICAL_IDENTITY_REFERENCE_BYTES)%nat ||
            negb (length recipient =? CANONICAL_IDENTITY_REFERENCE_BYTES)%nat)
    "Room message identity reference is not canonical.";;
  mret (DOMAIN ++ of_codes [VERSION; kind_] ++ room ++ putU16 (blen sender) ++ sender ++
        putU16 (blen recipient) ++ recipient ++ event ++ putU32 (blen (payload message)) ++ payload message).

(* service/src/crypto/roomMessageV1.ts:121-162 decodeRoomMessage *)
Definition decodeRoomMessage (value : bytes) (expected : RoomMessageExpectation) (requireRoomMessageV1 : bool)
    : res DecodedRoomMessage :=
  throw_if (ROOM_MESSAGE_V1_MAX_PAYLOAD_BYTES + Z.of_nat HEADER_LENGTH
              + 2 * Z.of_nat CANONICAL_IDENTITY_REFERENCE_BYTES <? blen value)
    "Room message is invalid or too large.";;
  if negb (startsWith value DOMAIN) then
    throw_if requireRoomMessageV1 "A room-bound message is required.";; mret (legacy value)
  else
  throw_if (length value <? HEADER_LENGTH)%nat "Room message frame is malformed.";;
  throw_if (negb (bool_decide (byte_at value (length DOMAIN) = Some VERSION)))
    "Room message version is unsupported.";;
  let offset := (length DOMAIN + 1)%nat in
  kind_ ← require (byte_at value offset ≫= BYTE_TO_KIND) "Room message payload kind is unsupported.";
  let offset := (offset + 1)%nat in
  let roomId := uuid_text (slice value offset 16) in
  let offset := (offset + 16)%nat in
  senderLength ← getU16 value offset;
  let offset := (offset + 2)%nat in
  throw_if (negb (senderLength =? Z.of_nat CANONICAL_IDENTITY_REFERENCE_BYTES) ||
            (blen value <? Z.of_nat offset + senderLength + 2)) "Room message sender binding is malformed.";;
  senderIdentityReference ← utf8_decode (slice value offset (Z.to_nat senderLength));
  let offset := (offset + Z.to_nat senderLength)%nat in
  recipientLength ← getU16 value offset;
  let offset := (offset + 2)%nat in
  throw_if (negb (recipientLength =? Z.of_nat CANONICAL_IDENTITY_REFERENCE_BYTES) ||
            (blen value <? Z.of_nat offset + recipientLength + 20)) "Room message recipient binding is malformed.";;
  recipientIdentityReference ← utf8_decode (slice value offset (Z.to_nat recipientLength));
  let offset := (offset + Z.to_nat recipientLength)%nat in
  let eventId := uuid_text (slice value offset 16) in
  let offset := (offset + 16)%nat in
  payloadLength ← getU32 value offset;
  let offset := (offset + 4)%nat in
  throw_if ((ROOM_MESSAGE_V1_MAX_PAYLOAD_BYTES <? payloadLength) ||
            negb (Z.of_nat offset + payloadLength =? blen value)) "Room message payload length is malformed.";;
  identityBytes (expected_sender expected);;
  identityBytes (expected_recipient expected);;
  expectedRoom ← exactUuid (expected_roomId expected);
  throw_if (negb (bool_decide (roomId = expectedRoom)) ||
            negb (bool_decide (senderIdentityReference = expected_sender expected)) ||
            negb (bool_decide (recipientIdentityReference = expected_recipient expected)))
    "Room message participant or room binding mismatch.";;
  let payload := slice value offset (Z.to_nat payloadLength) in
  validateKindPayload kind_ payload;;
  identityBytes senderIdentityReference;;
  identityBytes recipientIdentityReference;;
  mret (room_message_v1 {| roomId := roomId; senderIdentityReference := senderIdentityReference;
    recipientIdentityReference := recipientIdentityReference; eventId := eventId; kind := kind_;
    payload := payload |}).

(** ** Bytes *)
Lemma code_of_code z : 0 <= z < 256 → code (ascii_of_N (Z.to_N z)) = z.
Proof. intros. unfold code. rewrite N_ascii_embedding by lia. lia. Qed.

Lemma of_code_code c : ascii_of_N (Z.to_N (code c)) = c.
Proof. unfold code. rewrite N2Z.id. apply ascii_N_embedding. Qed.

Lemma slice_app (a b c : bytes) off len : length a = off → length b = len → slice (a ++ b ++ c) off len = b.
Proof. intros <- <-. unfold slice. by rewrite drop_app_length, take_app_length. Qed.

Lemma slice_drop v off len : slice v off len ++ drop (off + len) v = drop off v.
Proof. unfold slice. rewrite <-drop_drop. apply take_drop. Qed.

Lemma slice_length v off len : (off + len ≤ length v)%nat → length (slice v off len) = len.
Proof. intros. unfold slice. rewrite length_take, length_drop. lia. Qed.

Lemma byte_at_middle a z c off : length a = off → 0 <= z < 256 → byte_at (a ++ of_codes [z] ++ c) off = Some z.
Proof. intros <- Hz. unfold byte_at. rewrite lookup_app_r, Nat.sub_diag by lia. simpl. by rewrite code_of_code. Qed.

Lemma byte_at_slice v off z : byte_at v off = Some z → slice v off 1 = of_codes [z] ∧ (off < length v)%nat.
Proof.
  unfold byte_at, slice. intros (c & Hc & ->)%fmap_Some. split; [|by eapply lookup_lt_Some].
  rewrite <-(take_drop_middle _ _ _ Hc). apply lookup_lt_Some in Hc.
  rewrite drop_app_length' by (rewrite length_take; lia). simpl. by rewrite of_code_code.
Qed.

Lemma getU16_put a z c off : length a = off → 0 <= z < 65536 → getU16 (a ++ putU16 z ++ c) off = Ok z.
Proof.
  intros <- Hz. unfold getU16, putU16.
  assert (0 <= z / 256 mod 256 < 256 ∧ 0 <= z mod 256 < 256) as [H1 H2] by (split; apply Z.mod_pos_bound; lia).
  change (of_codes [?x; ?y]) with (of_codes [x] ++ of_codes [y]). rewrite <-app_assoc.
  rewrite (byte_at_middle a _ _ _ eq_refl H1). cbn [require mbind res_bind].
  rewrite (app_assoc a), (byte_at_middle (a ++ of_codes [z / 256 mod 256]) (z mod 256) c)
    by (done || by rewrite length_app). cbn [require mbind res_bind mret res_ret].
  f_equal. rewrite (Z.mod_small (z / 256)) by (split; [apply Z.div_pos|apply Z.div_lt_upper_bound]; lia).
  symmetry. apply Z.div_mod. lia.
Qed.

Lemma putU32_split z : putU32 z = putU16 (z / 65536) ++ putU16 (z mod 65536).
Proof.
  assert (z = z mod 65536 + (256 * (z / 65536)) * 256) as Hz.
  { rewrite (Z.div_mod z 65536) at 1 by lia. lia. }
  assert (z / 16777216 = z / 65536 / 256) as E1 by (by rewrite Z.div_div by lia).
  assert (z / 256 mod 256 = z mod 65536 / 256 mod 256) as E3.
  { rewrite Hz at 1. by rewrite Z.div_add, (Z.mul_comm 256), Z.mod_add by lia. }
  assert (z mod 256 = z mod 65536 mod 256) as E4.
  { rewrite Hz at 1. by rewrite Z.mod_add by lia. }
  unfold putU32, putU16. by rewrite E1, E3, E4.
Qed.

Lemma getU32_put a z c off : length a = off → 0 <= z < 2 ^ 32 → getU32 (a ++ putU32 z ++ c) off = Ok z.
Proof.
  intros <- Hz. unfold getU32. rewrite putU32_split, <-app_assoc.
  rewrite (getU16_put a _ _ (length a)); [|done|split; [apply Z.div_pos|apply Z.div_lt_upper_bound]; lia].
  cbn [mbind res_bind].
  rewrite (app_assoc a), getU16_put; [|by rewrite length_app|apply Z.mod_pos_bound; lia].
  cbn. f_equal. symmetry. apply Z.div_mod. lia.
Qed.

Lemma getU16_slice v off z :
  getU16 v off = Ok z → slice v off 2 = putU16 z ∧ 0 <= z < 65536 ∧ (off + 1 < length v)%nat.
Proof.
  unfold getU16. intros H. res_inv H. subst z.
  assert (∀ o y, byte_at v o = Some y → 0 <= y < 256) as Hb.
  { intros o y (c & _ & ->)%fmap_Some. apply code_bounds. }
  pose proof (Hb _ _ H0). pose proof (Hb _ _ H1).
  apply byte_at_slice in H0 as [E0 ?], H1 as [E1 ?]. split_and!; [|lia..].
  assert (slice v off 2 = slice v off 1 ++ slice v (off + 1) 1) as ->.
  { unfold slice. rewrite <-(drop_drop _ 1 off) at 1. 
    destruct (drop off v) as [|? [|? l]]; done. }
  rewrite E0, E1. unfold putU16. simpl. f_equal; [|f_equal]; do 2 f_equal.
  - rewrite Z.mul_comm, Z.div_add_l, Z.div_small, Z.add_0_r, Z.mod_small by lia. done.
  - rewrite Z.add_comm, (Z.mul_comm 256), Z.mod_add, Z.mod_small by lia. done.
Qed.

Lemma getU32_slice v off z :
  getU32 v off = Ok z → slice v off 4 = putU32 z ∧ 0 <= z < 2 ^ 32 ∧ (off + 3 < length v)%nat.
Proof.
  unfold getU32. intros H. res_inv H. subst z.
  apply getU16_slice in H0 as (E0 & ? & ?), H1 as (E1 & ? & ?). split_and!; [|lia..].
  rewrite putU32_split, (Z.mul_comm 65536), Z.div_add_l, Z.div_small, Z.add_0_r by lia.
  rewrite Z.add_comm, Z.mod_add, Z.mod_small by lia. rewrite <-E0, <-E1. unfold slice.
  rewrite <-drop_drop. by destruct (drop off v) as [|? [|? [|? [|? l]]]].
Qed.

(** ** UUIDs *)
Lemma nibble_hex z : 0 <= z < 16 → nibble (hex_char z) = z ∧ is_hex_lower (hex_char z) = true.
Proof.
  intros. assert (z = 0 ∨ z = 1 ∨ z = 2 ∨ z = 3 ∨ z = 4 ∨ z = 5 ∨ z = 6 ∨ z = 7 ∨ z = 8 ∨ z = 9 ∨ z = 10 ∨
    z = 11 ∨ z = 12 ∨ z = 13 ∨ z = 14 ∨ z = 15) as Hz by lia.
  by repeat destruct Hz as [->|Hz]; [..|subst].
Qed.

Lemma hex_nibble c : is_hex_lower c = true → hex_char (nibble c) = c ∧ 0 <= nibble c < 16.
Proof.
  unfold is_hex_lower, is_digit, in_range. intros H.
  assert (48 <= code c <= 57 ∨ 97 <= code c <= 102) as [Hr|Hr] by (bool_prop; lia).
  - unfold nibble, is_digit, in_range. rewrite (proj2 (Z.leb_le 48 _)), (proj2 (Z.leb_le _ 57)) by lia. simpl.
    split; [|lia]. unfold hex_char. rewrite (proj2 (Z.ltb_lt _ _)) by lia.
    replace (48 + (code c - 48)) with (code c) by lia. apply of_code_code.
  - unfold nibble, is_digit, in_range. rewrite (proj2 (Z.leb_gt (code c) 57)), andb_false_r by lia.
    split; [|lia]. unfold hex_char. rewrite (proj2 (Z.ltb_ge _ _)) by lia.
    replace (87 + (code c - 87)) with (code c) by lia. apply of_code_code.
Qed.

Lemma code_nibbles c : 0 <= code c / 16 < 16 ∧ 0 <= code c mod 16 < 16.
Proof.
  pose proof (code_bounds c). split; [|by apply Z.mod_pos_bound].
  split; [apply Z.div_pos|apply Z.div_lt_upper_bound]; lia.
Qed.

Lemma unhex_hex b : unhex (hex b) = b.
Proof.
  induction b as [|c b IH]; [done|]. cbn [hex unhex]. destruct (code_nibbles c) as [H1 H2].
  rewrite (proj1 (nibble_hex _ H1)), (proj1 (nibble_hex _ H2)), IH, <-Z.div_mod by lia. by rewrite of_code_code.
Qed.

Lemma hex_length b : length (hex b) = (2 * length b)%nat.
Proof. induction b; simpl; lia. Qed.

Lemma hex_is_hex b : hex_run (hex b) = true.
Proof.
  induction b as [|c b IH]; [done|]. unfold hex_run in *. cbn [hex forallb]. destruct (code_nibbles c) as [H1 H2].
  by rewrite (proj2 (nibble_hex _ H1)), (proj2 (nibble_hex _ H2)).
Qed.

Lemma hex_unhex n v : length v = (2 * n)%nat → hex_run v = true → hex (unhex v) = v ∧ length (unhex v) = n.
Proof.
  revert v. induction n as [|n IH]; intros v Hl Hh; [by destruct v|].
  destruct v as [|a [|b v]]; simpl in Hl; [lia..|]. cbn [hex_run forallb] in Hh. bool_prop.
  destruct Hh as (Ha & Hb & Hv). apply hex_nibble in Ha as [Ea ?], Hb as [Eb ?].
  destruct (IH v) as [E1 E2]; [lia|done|]. cbn [unhex hex length]. rewrite code_of_code by lia.
  rewrite (Z.mul_comm 16), Z.div_add_l, Z.div_small, Z.add_0_r by lia.
  rewrite Z.add_comm, Z.mod_add, Z.mod_small by lia. split; [|lia]. unfold hex_run in *. congruence.
Qed.

Ltac destruct_conjs_bool H :=
  repeat (apply andb_true_iff in H; let H' := fresh "Hc" in destruct H as [H' H]).

Lemma uuid_ok_dashes v : uuid_ok v = true ↔ ∃ h, length h = 32%nat ∧ hex_run h = true ∧ v = dashes h.
Proof.
  split.
  - unfold uuid_ok. intros [Hl%Nat.eqb_eq H]%andb_true_iff.
    exists (slice v 0 8 ++ slice v 9 4 ++ slice v 14 4 ++ slice v 19 4 ++ slice v 24 12).
    do 36 (destruct v as [|? v]; [discriminate Hl|]). destruct v; [|discriminate Hl]. clear Hl.
    cbn -[is_hex_lower Ascii.eqb dash] in H. destruct_conjs_bool H. split; [done|]. split.
    + unfold hex_run. cbn -[is_hex_lower]. repeat (apply andb_true_iff; split); done.
    + repeat match goal with Hx : Ascii.eqb _ _ = true |- _ => apply Ascii.eqb_eq in Hx; subst end.
      reflexivity.
  - intros (h & Hl & Hh & ->). unfold uuid_ok. apply andb_true_iff. split.
    + do 32 (destruct h as [|? h]; [discriminate Hl|]). by destruct h.
    + do 32 (destruct h as [|? h]; [discriminate Hl|]). destruct h; [|discriminate Hl].
      unfold hex_run in Hh. cbn -[is_hex_lower] in Hh. destruct_conjs_bool Hh.
      cbn -[is_hex_lower Ascii.eqb dash]. repeat (apply andb_true_iff; split); done || apply Ascii.eqb_refl.
Qed.

Lemma undash_hex h : hex_run h = true → undash h = h.
Proof.
  unfold hex_run, undash. induction h as [|c h IH]; [done|]. cbn [forallb List.filter].
  intros [Hc Hh]%andb_true_iff. rewrite IH by done.
  destruct (Ascii.eqb_spec c dash) as [->|_]; [|done]. by vm_compute in Hc.
Qed.

Lemma undash_app a b : undash (a ++ b) = undash a ++ undash b.
Proof. apply List.filter_app. Qed.

Lemma undash_sep a b : undash (a ++ dash :: b) = undash a ++ undash b.
Proof. by rewrite undash_app. Qed.

Lemma undash_dashes h : length h = 32%nat → hex_run h = true → undash (dashes h) = h.
Proof.
  intros Hl Hh. transitivity (undash h); [|by apply undash_hex].
  unfold dashes. rewrite !undash_sep, <-!undash_app. f_equal.
  do 32 (destruct h as [|? h]; [discriminate Hl|]). by destruct h.
Qed.

Lemma roomUuidBytes_ok v b :
  roomUuidBytes v = Ok b ↔ uuid_ok v = true ∧ length b = 16%nat ∧ v = uuid_text b.
Proof.
  unfold roomUuidBytes, exactUuid, uuid_text. split.
  - intros H. res_inv H. subst. apply negb_false_iff in H1. split; [done|].
    apply uuid_ok_dashes in H1 as (h & Hl & Hh & ->). rewrite undash_dashes by done.
    destruct (hex_unhex 16 h Hl Hh) as [-> ->]. done.
  - intros (Hok & Hl & ->). rewrite Hok. cbn. rewrite undash_dashes, unhex_hex; [done| |apply hex_is_hex].
    rewrite hex_length. lia.
Qed.

Lemma uuid_text_ok b : length b = 16%nat → uuid_ok (uuid_text b) = true.
Proof.
  intros Hl. apply uuid_ok_dashes. exists (hex b). rewrite hex_length, hex_is_hex. split; [lia|done].
Qed.

(** ** Identity references *)
Lemma utf8_ascii v : forallb (in_range 0 127) v = true → utf8_valid v = true.
Proof.
  unfold utf8_valid. induction v as [|c v IH]; [done|]. cbn [forallb utf8_run].
  intros [-> Hv]%andb_true_iff. by apply IH.
Qed.

Lemma is_ref_char_ascii c : is_ref_char c = true → in_range 0 127 c = true.
Proof. unfold is_ref_char, is_upper, is_digit, in_range. pose proof (code_bounds c). bool_prop. lia. Qed.

Lemma identity_ok_spec v : identity_ok v = true →
  length v = 56%nat ∧ forallb (in_range 0 127) v = true ∧ startsWith v BOM = false.
Proof.
  unfold identity_ok. intros [[Hl%Nat.eqb_eq Hp]%andb_true_iff H]%andb_true_iff.
  apply bool_decide_eq_true in Hp. split; [done|].
  assert (v = str "K3 " ++ drop 3 v) as Hv by (rewrite <-Hp; symmetry; apply take_drop).
  split; [|rewrite Hv; unfold startsWith; cbn [forallb]; apply andb_false_iff; by right].
  rewrite Hv, forallb_app. apply andb_true_iff. split; [done|].
  apply forallb_forall. intros c Hc. apply list_elem_of_In, list_elem_of_lookup in Hc as [j Hj].
  rewrite lookup_drop in Hj. pose proof (lookup_lt_Some _ _ _ Hj).
  rewrite forallb_forall in H. specialize (H j). rewrite Hj in H. cbn [from_option] in H.
  assert (In j (seq 0 53)) as Hin by (apply in_seq; lia). specialize (H Hin).
  destruct (j mod 5 =? 4)%nat; [by apply Ascii.eqb_eq in H as ->|by apply is_ref_char_ascii].
Qed.

Lemma identityBytes_ok v w :
  identityBytes v = Ok w ↔ w = v ∧ identity_ok v = true.
Proof.
  unfold identityBytes. split.
  - intros H. res_inv H. subst. apply negb_false_iff, andb_true_iff in H0. tauto.
  - intros [-> H]. destruct (identity_ok_spec _ H) as [Hl _]. by rewrite H, Hl.
Qed.

Lemma identity_decodes v : identity_ok v = true → utf8_decode v = Ok v.
Proof.
  intros (_ & Ha & Hb)%identity_ok_spec. unfold utf8_decode. by rewrite utf8_ascii, Hb.
Qed.

Lemma utf8_decode_full v w : utf8_decode v = Ok w → length w = length v → v = w.
Proof.
  unfold utf8_decode. intros H Hl. res_inv H. subst w. destruct (startsWith v BOM) eqn:E; [|done].
  unfold startsWith in E. apply andb_true_iff in E as [E%Nat.leb_le _].
  rewrite length_drop in Hl. change (length BOM) with 3%nat in E. lia.
Qed.

Lemma BYTE_TO_KIND_TO_BYTE b k : BYTE_TO_KIND b = Some k ↔ b = KIND_TO_BYTE k.
Proof.
  unfold BYTE_TO_KIND, KIND_TO_BYTE. split.
  - repeat case_if; bool_prop; intros [= <-]; done.
  - intros ->. by destruct k.
Qed.

(** ** The frame *)
Definition frame (k : Z) (room sender recipient event pl : bytes) : bytes :=
  DOMAIN ++ of_codes [VERSION; k] ++ room ++ putU16 (blen sender) ++ sender ++
  putU16 (blen recipient) ++ recipient ++ event ++ putU32 (blen pl) ++ pl.

Record frame_parts (v : bytes) (k : Z) (room sender recipient event pl : bytes) : Prop := {
  fp_domain : slice v 0 22 = DOMAIN;
  fp_version : byte_at v 22 = Some VERSION;
  fp_kind : byte_at v 23 = Some k;
  fp_room : slice v 24 16 = room;
  fp_sender_len : getU16 v 40 = Ok 56;
  fp_sender : slice v 42 56 = sender;
  fp_recipient_len : getU16 v 98 = Ok 56;
  fp_recipient : slice v 100 56 = recipient;
  fp_event : slice v 156 16 = event;
  fp_payload_len : getU32 v 172 = Ok (blen pl);
  fp_payload : drop 176 v = pl }.

(** [at_ v off x]: the bytes [x] are at offset [off] of [v]. *)
Definition at_ (v : bytes) (off : nat) (x : bytes) : Prop := ∃ a c, v = a ++ x ++ c ∧ length a = off.

Lemma at_skip n a v off x : length a = n → (n <= off)%nat → at_ v (off - n) x → at_ (a ++ v) off x.
Proof.
  intros <- Hle (b & c & -> & Hb). exists (a ++ b), c. rewrite length_app, <-app_assoc. split; [done|lia].
Qed.
Lemma at_here x v : at_ (x ++ v) 0 x.
Proof. by exists [], v. Qed.
Lemma at_slice v off x len : at_ v off x → length x = len → slice v off len = x.
Proof. intros (a & c & -> & <-) <-. by apply slice_app. Qed.
Lemma at_byte v off z : 0 <= z < 256 → at_ v off (of_codes [z]) → byte_at v off = Some z.
Proof. intros Hz (a & c & -> & <-). by apply byte_at_middle. Qed.
Lemma at_U16 v off z : 0 <= z < 65536 → at_ v off (putU16 z) → getU16 v off = Ok z.
Proof. intros Hz (a & c & -> & <-). by apply getU16_put. Qed.
Lemma at_U32 v off z : 0 <= z < 2 ^ 32 → at_ v off (putU32 z) → getU32 v off = Ok z.
Proof. intros Hz (a & c & -> & <-). by apply getU32_put. Qed.

Ltac known_length :=
  match goal with |- ?l = ?n => let x := eval vm_compute in l in unify n x; reflexivity end.
Ltac find_at :=
  repeat first [apply at_here | eapply at_skip; [first [eassumption|known_length]|lia|cbn [Nat.sub]]].

Lemma frame_has_parts k room sender recipient event pl :
  0 <= k < 256 → length room = 16%nat → length sender = 56%nat → length recipient = 56%nat →
  length event = 16%nat → blen pl < 2 ^ 32 →
  frame_parts (frame k room sender recipient event pl) k room sender recipient event pl ∧
  blen (frame k room sender recipient event pl) = 176 + blen pl.
Proof.
  intros Hk Hr Hs Hp He Hl. unfold frame.
  assert (blen sender = 56 ∧ blen recipient = 56) as [-> ->] by (unfold blen; lia).
  assert (0 <= blen pl) by (unfold blen; lia).
  change (of_codes [VERSION; k]) with (of_codes [VERSION] ++ of_codes [k]).
  rewrite <-(app_assoc (of_codes [VERSION])). split.
  - constructor.
    + by apply at_slice; [find_at|].
    + apply at_byte; [unfold VERSION; lia|find_at].
    + apply at_byte; [lia|find_at].
    + by apply at_slice; [find_at|].
    + apply at_U16; [lia|find_at].
    + by apply at_slice; [find_at|].
    + apply at_U16; [lia|find_at].
    + by apply at_slice; [find_at|].
    + by apply at_slice; [find_at|].
    + apply at_U32; [lia|find_at].
    + rewrite !app_assoc. apply drop_app_length'. rewrite !length_app, Hr, Hs, Hp, He. done.
  - unfold blen. rewrite !length_app, Hr, Hs, Hp, He.
    change (length DOMAIN) with 22%nat. simpl. lia.
Qed.

Lemma drop_slice v off len off' : off' = (off + len)%nat → drop off v = slice v off len ++ drop off' v.
Proof. intros ->. by rewrite slice_drop. Qed.

(** The parts determine the frame. *)
Lemma parts_frame v k room sender recipient event pl :
  frame_parts v k room sender recipient event pl → length sender = 56%nat → length recipient = 56%nat →
  v = frame k room sender recipient event pl.
Proof.
  intros [H1 H2 H3 H4 H5 H6 H7 H8 H9 H10 H11] Hs Hr.
  apply byte_at_slice in H2 as [H2 _], H3 as [H3 _].
  apply getU16_slice in H5 as [H5 _], H7 as [H7 _]. apply getU32_slice in H10 as [H10 _].
  unfold frame. assert (blen sender = 56 ∧ blen recipient = 56) as [-> ->] by (unfold blen; lia).
  change (of_codes [VERSION; k]) with (of_codes [VERSION] ++ of_codes [k]).
  rewrite <-(app_assoc (of_codes [VERSION])), <-H1, <-H2, <-H3, <-H4, <-H5 at 1; rewrite <-H6, <-H7, <-H8, <-H9, <-H10, <-H11.
  rewrite <-!drop_slice by done. done.
Qed.

Lemma startsWith_take v p : startsWith v p = true ↔ take (length p) v = p.
Proof.
  unfold startsWith. rewrite andb_true_iff, Nat.leb_le, forallb_forall. split.
  - intros [Hl H]. apply list_eq. intros i. destruct (decide (i < length p)%nat) as [Hi|Hi].
    + destruct (lookup_lt_is_Some_2 p i Hi) as [b Hb]. rewrite lookup_take_lt by lia.
      rewrite Hb. specialize (H (i, b)). apply bool_decide_eq_true in H; [done|].
      apply list_elem_of_In, list_elem_of_lookup. exists i. rewrite list_lookup_imap, Hb. done.
    + rewrite !lookup_ge_None_2 by (rewrite ?length_take; lia). done.
  - intros H. assert (length p ≤ length v)%nat as Hl.
    { rewrite <-H at 1. rewrite length_take. lia. }
    split; [done|]. intros [i b] Hin. apply list_elem_of_In, list_elem_of_lookup in Hin as [j Hj].
    rewrite list_lookup_imap in Hj. destruct (p !! j) as [b'|] eqn:E; simplify_eq/=.
    apply bool_decide_eq_true. rewrite <-E, <-H. rewrite lookup_take_lt; [done|by eapply lookup_lt_Some].
Qed.

Lemma room_message_v1_inj a b : room_message_v1 a = room_message_v1 b → a = b.
Proof. by intros [=]. Qed.

(** Every accepted frame, by its parts. *)
Lemma decode_parts v e req m :
  decodeRoomMessage v e req = Ok (room_message_v1 m) →
  ∃ room event, length room = 16%nat ∧ length event = 16%nat ∧
    v = frame (KIND_TO_BYTE (kind m)) room (senderIdentityReference m) (recipientIdentityReference m) event (payload m) ∧
    roomId m = uuid_text room ∧ eventId m = uuid_text event ∧
    roomId m = expected_roomId e ∧ senderIdentityReference m = expected_sender e ∧
    recipientIdentityReference m = expected_recipient e ∧
    identity_ok (senderIdentityReference m) = true ∧ identity_ok (recipientIdentityReference m) = true ∧
    validateKindPayload (kind m) (payload m) = Ok tt.
Proof.
  unfold decodeRoomMessage. cbn zeta. intros H. apply bind_ok in H as (? & _ & H).
  destruct (startsWith v DOMAIN) eqn:Hd; cbn [negb] in H; [|res_inv H; discriminate].
  change HEADER_LENGTH with 64%nat in H. change (length DOMAIN) with 22%nat in H.
  change CANONICAL_IDENTITY_REFERENCE_BYTES with 56%nat in H.
  res_inv H. apply room_message_v1_inj in H. subst m. rename H0 into Hlen.
  apply orb_false_iff in H4 as [E3 _], H7 as [E6 _], H10 as [_ E9].
  apply negb_false_iff, Z.eqb_eq in E3, E6, E9. subst x3 x6. change (Z.to_nat (Z.of_nat 56)) with 56%nat in *.
  cbn [Nat.add] in *. rewrite !orb_false_iff, !negb_false_iff, !bool_decide_eq_true in H14.
  destruct H14 as [[HR HS] HP]. apply identityBytes_ok in H11 as [_ HoS], H12 as [_ HoP].
  rewrite <-HS in HoS. rewrite <-HP in HoP. apply negb_false_iff, bool_decide_eq_true in H1.
  apply Nat.ltb_ge in Hlen.
  destruct (getU16_slice _ _ _ H3) as (_ & _ & _), (getU32_slice _ _ _ H9) as (_ & Hx9 & Hl9).
  apply utf8_decode_full in H5; [|rewrite slice_length; [apply identity_ok_spec in HoS; tauto|lia]].
  apply utf8_decode_full in H8; [|rewrite slice_length; [apply identity_ok_spec in HoP; tauto|lia]].
  assert (slice v 176 (Z.to_nat x9) = drop 176 v ∧ blen (drop 176 v) = x9) as [Epl Hpl].
  { unfold slice, blen in *. rewrite length_drop. split; [|lia]. apply take_ge. rewrite length_drop. lia. }
  exists (slice v 24 16), (slice v 156 16). rewrite Epl in *.
  rewrite !slice_length by lia. split_and!; try done.
  - apply parts_frame; [|apply identity_ok_spec in HoS; tauto|apply identity_ok_spec in HoP; tauto].
    constructor; try done.
    + by apply startsWith_take in Hd.
    + apply bind_Some in H2 as (b & Hb & ->%BYTE_TO_KIND_TO_BYTE). done.
    + cbn [payload]. by rewrite Hpl.
  - unfold exactUuid in H13. res_inv H13. cbn [roomId]. congruence.
  - by destruct x15.
Qed.

(** C21: the frame format has one encoding per message: every byte string the strict decoder accepts
    as a room-bound message re-encodes, byte for byte, to itself, and the message it yields carries
    exactly the room, sender and recipient the receiver expected. *)
Theorem decode_is_canonical_and_bound v e req m :
  decodeRoomMessage v e req = Ok (room_message_v1 m) →
  encodeRoomMessageV1 m = Ok v ∧ roomId m = expected_roomId e ∧
  senderIdentityReference m = expected_sender e ∧ recipientIdentityReference m = expected_recipient e.
Proof.
  intros (room & event & Hr & He & Hv & HR & HE & ? & ? & ? & HS & HP & HK)%decode_parts.
  split; [|done]. unfold encodeRoomMessageV1.
  rewrite (proj2 (roomUuidBytes_ok (roomId m) room)) by (rewrite HR; split; [by apply uuid_text_ok|done]).
  rewrite (proj2 (identityBytes_ok _ _) (conj eq_refl HS)), (proj2 (identityBytes_ok _ _) (conj eq_refl HP)).
  cbn [mbind res_bind].
  unfold exactUuid. rewrite HE, uuid_text_ok by done. cbn [throw_if negb mbind res_bind mret res_ret].
  rewrite (proj2 (roomUuidBytes_ok (uuid_text event) event)) by (split; [by apply uuid_text_ok|done]).
  unfold kindByte. assert (KIND_TO_BYTE (kind m) =? 0 = false) as -> by (by destruct (kind m)).
  cbn [throw_if mbind res_bind mret res_ret]. rewrite HK. cbn [mbind res_bind].
  apply identity_ok_spec in HS as [-> _], HP as [-> _]. by rewrite Hv.
Qed.

Lemma exactUuid_ok v : uuid_ok v = true → exactUuid v = Ok v.
Proof. unfold exactUuid. by intros ->. Qed.

Lemma encode_ok m v :
  encodeRoomMessageV1 m = Ok v →
  ∃ room event, length room = 16%nat ∧ length event = 16%nat ∧
    v = frame (KIND_TO_BYTE (kind m)) room (senderIdentityReference m) (recipientIdentityReference m) event (payload m) ∧
    uuid_ok (roomId m) = true ∧ roomId m = uuid_text room ∧ eventId m = uuid_text event ∧
    identity_ok (senderIdentityReference m) = true ∧ identity_ok (recipientIdentityReference m) = true ∧
    validateKindPayload (kind m) (payload m) = Ok tt.
Proof.
  unfold encodeRoomMessageV1. intros H. res_inv H.
  apply roomUuidBytes_ok in H0 as (HuR & Hr & ER).
  apply identityBytes_ok in H1 as [-> HS], H2 as [-> HP].
  unfold exactUuid in H4. res_inv H4. subst x3.
  apply roomUuidBytes_ok in H3 as (HuE & He & EE).
  unfold kindByte in H5. res_inv H5. subst x4. exists x, x2. destruct x5. split_and!; done.
Qed.

Lemma validateKindPayload_size k p : validateKindPayload k p = Ok tt → blen p <= ROOM_MESSAGE_V1_MAX_PAYLOAD_BYTES.
Proof. unfold validateKindPayload. intros H. apply bind_ok in H as (? & H & _). res_inv H. bool_prop. lia. Qed.

(** C20: round trip: whatever the encoder accepts, the strict decoder accepts under the matching
    expectation and returns unchanged, with or without legacy messages allowed. *)
Theorem encode_decode_roundtrip m v req :
  encodeRoomMessageV1 m = Ok v →
  decodeRoomMessage v {| expected_roomId := roomId m; expected_sender := senderIdentityReference m;
    expected_recipient := recipientIdentityReference m |} req = Ok (room_message_v1 m).
Proof.
  intros (room & event & Hr & He & Hv & HU & ER & EE & HS & HP & HK)%encode_ok.
  pose proof (validateKindPayload_size _ _ HK) as Hpl. unfold ROOM_MESSAGE_V1_MAX_PAYLOAD_BYTES in Hpl.
  pose proof (identity_ok_spec _ HS) as (HSl & _). pose proof (identity_ok_spec _ HP) as (HPl & _).
  assert (0 <= KIND_TO_BYTE (kind m) < 256) as Hkb by (destruct (kind m); simpl; lia).
  destruct (frame_has_parts _ _ _ _ _ (payload m) Hkb Hr HSl HPl He) as [[P1 P2 P3 P4 P5 P6 P7 P8 P9 P10 P11] Hlen]; [lia|].
  rewrite <-Hv in *. assert (0 <= blen (payload m)) by (unfold blen; lia).
  unfold decodeRoomMessage. rewrite (proj2 (startsWith_take v DOMAIN)) by done. cbn [negb]. cbv zeta.
  eapply res_step.
  { apply throw_if_false, Z.ltb_ge. rewrite Hlen.
    change (_ <= _) with (176 + blen (payload m) <= 61616). lia. }
  eapply res_step; [apply throw_if_false, Nat.ltb_ge; change HEADER_LENGTH with 64%nat; unfold blen in *; lia|].
  eapply res_step; [apply throw_if_false, negb_false_iff, bool_decide_eq_true; exact P2|].
  eapply res_step; [apply require_ok, bind_Some; eexists; split; [exact P3|by apply BYTE_TO_KIND_TO_BYTE]|].
  eapply res_step; [exact P5|].
  eapply res_step; [apply throw_if_false, orb_false_iff; split; [done|apply Z.ltb_ge; simpl; lia]|].
  eapply res_step; [etrans; [apply (f_equal utf8_decode P6)|by apply identity_decodes]|].
  eapply res_step; [exact P7|].
  eapply res_step; [apply throw_if_false, orb_false_iff; split; [done|apply Z.ltb_ge; simpl; lia]|].
  eapply res_step; [etrans; [apply (f_equal utf8_decode P8)|by apply identity_decodes]|].
  eapply res_step; [exact P10|].
  eapply res_step; [apply throw_if_false, orb_false_iff; split;
    [apply Z.ltb_ge; unfold ROOM_MESSAGE_V1_MAX_PAYLOAD_BYTES; lia
    |apply negb_false_iff, Z.eqb_eq; rewrite Hlen; simpl; lia]|].
  eapply res_step; [by apply identityBytes_ok|]. eapply res_step; [by apply identityBytes_ok|].
  eapply res_step; [apply (exactUuid_ok _ HU)|].
  assert (slice v 24 16 = room) as Eroom by exact P4.
  assert (slice v 176 (Z.to_nat (blen (payload m))) = payload m) as Epl.
  { unfold slice, blen. rewrite P11. apply take_ge. lia. }
  eapply res_step; [apply throw_if_false, orb_false_iff; split; [apply orb_false_iff; split|];
    apply negb_false_iff, bool_decide_eq_true; [rewrite ER; exact (f_equal uuid_text Eroom)|done|done]|].
  eapply res_step; [etrans; [exact (f_equal (validateKindPayload (kind m)) Epl)|exact HK]|].
  eapply res_step; [by apply identityBytes_ok|]. eapply res_step; [by apply identityBytes_ok|].
  unfold mret, res_ret. do 2 f_equal. destruct m; cbn in *. f_equal; [|..|]; try done.
  - by rewrite ER, <-Eroom.
  - by rewrite EE, <-P9.
Qed.

Definition sample_message : RoomMessageV1 := {|
  roomId := str "00112233-4455-6677-8899-aabbccddeeff";
  senderIdentityReference := str "K3 AAAA BBBB CCCC DDDD EEEE FFFF GGGG HHHH IIII JJJJ KKK";
  recipientIdentityReference := str "K3 0000 1111 2222 3333 4444 5555 6666 7777 8888 9999 ABC";
  eventId := str "01234567-89ab-cdef-0123-456789abcdef"; kind := text; payload := str "hello" |}.
Definition sample_expectation : RoomMessageExpectation := {|
  expected_roomId := roomId sample_message; expected_sender := senderIdentityReference sample_message;
  expected_recipient := recipientIdentityReference sample_message |}.
Definition sample_frame : bytes :=
  match encodeRoomMessageV1 sample_message with Ok v => v | Err _ => [] end.

Lemma encode_decode_roundtrip_witness :
  decodeRoomMessage sample_frame sample_expectation true = Ok (room_message_v1 sample_message).
Proof. apply (encode_decode_roundtrip sample_message). vm_compute. reflexivity. Defined.

Lemma decode_is_canonical_and_bound_witness : encodeRoomMessageV1 sample_message = Ok sample_frame.
Proof.
  apply (decode_is_canonical_and_bound sample_frame sample_expectation true sample_message).
  vm_compute. reflexivity.
Defined.

(** ** Event identifiers and commitments *)
Section digests.
(** Web Crypto's SHA-256. *)
Context (sha256 : bytes → bytes).

Definition EVENT_ID_DOMAIN : bytes := str "K3NCRYPT/ROOM-MESSAGE-EVENT-ID" ++ of_codes [0].
Definition COMMITMENT_DOMAIN : bytes := str "K3NCRYPT/ROOM-MESSAGE-COMMITMENT" ++ of_codes [0].

(** The bytes hashed into an event identifier. *)
Definition event_id_input (room sender event : bytes) : bytes :=
  EVENT_ID_DOMAIN ++ room ++ putU16 (blen sender) ++ sender ++ event.

(* service/src/crypto/roomMessageV1.ts:165-179 roomMessageEventId *)
Definition roomMessageEventId (roomId senderIdentityReference eventId : bytes) : res bytes :=
  room ← roomUuidBytes roomId;
  sender ← identityBytes senderIdentityReference;
  event ← (v ← exactUuid eventId; roomUuidBytes v);
  mret (str "v1:" ++ hex (sha256 (event_id_input room sender event))).

(* service/src/crypto/roomMessageV1.ts:182-188 roomMessageCommitment *)
Definition roomMessageCommitment (canonicalWrapper : bytes) : bytes :=
  str "v1:" ++ hex (sha256 (COMMITMENT_DOMAIN ++ canonicalWrapper)).
End digests.

Lemma event_id_input_inj r1 s1 e1 r2 s2 e2 :
  length r1 = 16%nat → length r2 = 16%nat → length s1 = 56%nat → length s2 = 56%nat →
  event_id_input r1 s1 e1 = event_id_input r2 s2 e2 → r1 = r2 ∧ s1 = s2 ∧ e1 = e2.
Proof.
  intros Hr1 Hr2 Hs1 Hs2 H. unfold event_id_input in H. apply app_inv_head in H.
  assert (blen s1 = 56 ∧ blen s2 = 56) as [E1 E2] by (unfold blen; lia). rewrite E1, E2 in H.
  apply app_inj_1 in H as [-> H]; [|congruence]. apply app_inv_head in H.
  apply app_inj_1 in H as [-> ->]; [done|congruence].
Qed.

Lemma roomMessageEventId_ok sha r s e i :
  roomMessageEventId sha r s e = Ok i →
  ∃ room event, length room = 16%nat ∧ r = uuid_text room ∧ e = uuid_text event ∧ identity_ok s = true ∧
    i = str "v1:" ++ hex (sha (event_id_input room s event)).
Proof.
  unfold roomMessageEventId. intros H. res_inv H.
  apply roomUuidBytes_ok in H0 as (_ & Hr & ->). apply identityBytes_ok in H1 as [-> HS].
  unfold exactUuid in H3. res_inv H3. subst.
  match goal with Hx : roomUuidBytes _ = Ok _ |- _ => apply roomUuidBytes_ok in Hx as (_ & _ & ->) end.
  by eexists _, _.
Qed.

Lemma hex_inj a b : hex a = hex b → a = b.
Proof. intros H. by rewrite <-(unhex_hex a), <-(unhex_hex b), H. Qed.

(** the replay identity of a message determines its room, its sender and its event: two accepted
    triples with the same identifier are the same triple, as long as SHA-256 does not collide on
    these inputs (no delimiter or length ambiguity exists between the fields). *)
Theorem event_id_identifies sha r1 s1 e1 r2 s2 e2 i :
  (∀ x y, sha x = sha y → take 31 x = EVENT_ID_DOMAIN → take 31 y = EVENT_ID_DOMAIN → x = y) →
  roomMessageEventId sha r1 s1 e1 = Ok i → roomMessageEventId sha r2 s2 e2 = Ok i →
  r1 = r2 ∧ s1 = s2 ∧ e1 = e2.
Proof.
  intros Hsha (ro1 & ev1 & L1 & -> & -> & I1 & ->)%roomMessageEventId_ok
    (ro2 & ev2 & L2 & -> & -> & I2 & E)%roomMessageEventId_ok.
  apply app_inv_head, hex_inj, Hsha in E; [|done..].
  apply event_id_input_inj in E as (-> & -> & ->);
    [done|done|done|apply identity_ok_spec in I1; tauto|apply identity_ok_spec in I2; tauto].
Qed.

Lemma event_id_identifies_witness :
  let room := roomId sample_message in let s := senderIdentityReference sample_message in
  let e := eventId sample_message in
  room = room ∧ s = s ∧ e = e.
Proof.
  apply (event_id_identifies id _ _ _ _ _ _
    (str "v1:" ++ hex (event_id_input (unhex (undash (roomId sample_message)))
      (senderIdentityReference sample_message) (unhex (undash (eventId sample_message)))))).
  - done.
  - vm_compute. reflexivity.
  - vm_compute. reflexivity.
Defined.
