(* ===== verification/VersionFloor.v ===== *)
(** * The room-message version floor ([crypto/roomMessageVersionFloor.ts])

    Per room and pinned remote identity, the highest authenticated wrapper version seen so far,
    kept in secure storage and raised by compare-and-swap together with the acceptance of a message. *)
From S2P Require Import Prelude Json Storage.

Definition ROOM_MESSAGE_VERSION_FLOOR_RECORD : string := "room-message-version-floor".

(* service/src/crypto/roomMessageVersionFloor.ts:5-10 RoomMessageVersionFloor *)
Record RoomMessageVersionFloor := {
  floor_roomId : string; floor_remote : string; minimumWrapperVersion : Z }.

Definition CORRUPTED : string := "Persisted room message security state is corrupted.".
Definition INVALID : string := "Persisted room message security state is invalid.".

(** [Object.keys(item).sort().join('\0')] equal to that of the four expected names: the same
    set of keys, in any order (a parsed object has no duplicate key). *)
Definition exact_keys (fs : list (string * jsval)) (names : list string) : bool :=
  bool_decide (length (keys fs) = length names) && forallb (λ k, bool_decide (k ∈ names)) (keys fs).

Definition floor_keys : list string := ["minimumWrapperVersion"; "remoteIdentityReference"; "roomId"; "version"].

(** A byte array that decodes to a text, and the JSON value of that text. *)
(* service/src/crypto/roomMessageVersionFloor.ts:23-44 parseRoomMessageVersionFloor *)
Definition parseRoomMessageVersionFloor (bytes : option string) (roomId remote : string)
    : res (option RoomMessageVersionFloor) :=
  match bytes with
  | None => mret None
  | Some bytes =>
      value ← require (parse bytes) CORRUPTED;
      item ← require (as_object value) INVALID;
      throw_if (negb (exact_keys item floor_keys)) INVALID;;
      throw_if (negb (bool_decide (get item "version" = JNum (NInt 1)))) INVALID;;
      throw_if (negb (bool_decide (get item "roomId" = JStr roomId))) INVALID;;
      throw_if (negb (bool_decide (get item "remoteIdentityReference" = JStr remote))) INVALID;;
      n ← require (match get item "minimumWrapperVersion" with JNum n => safe_int n | _ => None end) INVALID;
      throw_if ((n <? 0) || (255 <? n)) INVALID;;
      mret (Some {| floor_roomId := roomId; floor_remote := remote; minimumWrapperVersion := n |})
  end.

(* service/src/crypto/roomMessageVersionFloor.ts:46-49 encodeRoomMessageVersionFloor *)
Definition encodeRoomMessageVersionFloor (value : RoomMessageVersionFloor) : string :=
  stringify (JObj [("version", JNum (NInt 1)); ("roomId", JStr (floor_roomId value));
    ("remoteIdentityReference", JStr (floor_remote value));
    ("minimumWrapperVersion", JNum (NInt (minimumWrapperVersion value)))]).

Section floor.
(** The base64url text of a SHA-256 digest. *)
Context (sha256_base64url : string → string).
Context `{SecureStorageLaws St}.

(* service/src/crypto/roomMessageVersionFloor.ts:16-21 roomMessageVersionFloorRecordId *)
Definition roomMessageVersionFloorRecordId (roomId remote : string) : res string :=
  throw_if (negb (nonempty roomId) || negb (nonempty remote)) "Room message security identity is unavailable.";;
  mret ("rmvf:" +:+ sha256_base64url ("K3NCRYPT/ROOM-MESSAGE-FLOOR/v1" +:+ str1 0 +:+ roomId +:+ str1 0 +:+ remote)).

(* service/src/crypto/roomMessageVersionFloor.ts:56-72 prepareRoomMessageVersionFloorRaise *)
Definition prepareRoomMessageVersionFloorRaise (storage : St) (roomId remote : string) (authenticatedVersion : jsnum)
    : res (Z * SecureRecordUpdate) :=
  v ← require (safe_int authenticatedVersion) "Authenticated room message version is invalid.";
  throw_if ((v <? 1) || (255 <? v)) "Authenticated room message version is invalid.";;
  recordId ← roomMessageVersionFloorRecordId roomId remote;
  let expected := read storage ROOM_MESSAGE_VERSION_FLOOR_RECORD recordId in
  current ← parseRoomMessageVersionFloor expected roomId remote;
  let floor := Z.max (from_option minimumWrapperVersion 0 current) v in
  let update next := {| recordType := ROOM_MESSAGE_VERSION_FLOOR_RECORD; recordId := recordId;
                        expected := expected; next := next |} in
  match current, expected with
  | Some c, Some bytes =>
      if floor =? minimumWrapperVersion c then mret (floor, update bytes)
      else mret (floor, update (encodeRoomMessageVersionFloor
                  {| floor_roomId := roomId; floor_remote := remote; minimumWrapperVersion := floor |}))
  | _, _ => mret (floor, update (encodeRoomMessageVersionFloor
                  {| floor_roomId := roomId; floor_remote := remote; minimumWrapperVersion := floor |}))
  end.

(* service/src/crypto/roomMessageVersionFloor.ts:75-94 prepareRoomMessageVersionFloorGuard *)
Definition prepareRoomMessageVersionFloorGuard (storage : St) (roomId remote : string)
    : res (Z * SecureRecordUpdate) :=
  recordId ← roomMessageVersionFloorRecordId roomId remote;
  let expected := read storage ROOM_MESSAGE_VERSION_FLOOR_RECORD recordId in
  current ← parseRoomMessageVersionFloor expected roomId remote;
  let floor := from_option minimumWrapperVersion 0 current in
  let next := default {| floor_roomId := roomId; floor_remote := remote; minimumWrapperVersion := 0 |} current in
  mret (floor, {| recordType := ROOM_MESSAGE_VERSION_FLOOR_RECORD; recordId := recordId; expected := expected;
                  next := default (encodeRoomMessageVersionFloor next) expected |}).

(* service/src/crypto/roomMessageVersionFloor.ts:96-104 readRoomMessageVersionFloor *)
Definition readRoomMessageVersionFloor (storage : St) (roomId remote : string) : res Z :=
  recordId ← roomMessageVersionFloorRecordId roomId remote;
  parsed ← parseRoomMessageVersionFloor (read storage ROOM_MESSAGE_VERSION_FLOOR_RECORD recordId) roomId remote;
  mret (from_option minimumWrapperVersion 0 parsed).

(** ** Lemmas *)
Lemma parse_encode_floor v :
  0 <= minimumWrapperVersion v <= 255 →
  parseRoomMessageVersionFloor (Some (encodeRoomMessageVersionFloor v)) (floor_roomId v) (floor_remote v) = Ok (Some v).
Proof.
  intros Hv. unfold parseRoomMessageVersionFloor, encodeRoomMessageVersionFloor.
  rewrite parse_stringify by done. cbn [require mbind res_bind as_object].
  assert (exact_keys [("version", JNum (NInt 1)); ("roomId", JStr (floor_roomId v));
    ("remoteIdentityReference", JStr (floor_remote v));
    ("minimumWrapperVersion", JNum (NInt (minimumWrapperVersion v)))] floor_keys = true) as -> by done.
  cbn [throw_if negb mbind res_bind get String.eqb Ascii.eqb Bool.eqb].
  rewrite !bool_decide_eq_true_2 by done. cbn [throw_if negb mbind res_bind].
  assert (safe_int (NInt (minimumWrapperVersion v)) = Some (minimumWrapperVersion v)) as ->.
  { apply safe_int_Some. split; [done|]. apply isSafeInteger_bounds. unfold MAX_SAFE_INTEGER. lia. }
  cbn -[Z.leb Z.ltb]. rewrite (proj2 (Z.ltb_ge _ 0)), (proj2 (Z.ltb_ge 255 _)) by lia. by destruct v.
Qed.

Lemma parse_floor_fields b r m c :
  parseRoomMessageVersionFloor (Some b) r m = Ok (Some c) →
  floor_roomId c = r ∧ floor_remote c = m ∧ 0 <= minimumWrapperVersion c <= 255.
Proof.
  unfold parseRoomMessageVersionFloor. intros H'. res_inv H'. injection H' as <-. simpl.
  bool_prop. split_and!; [done..|lia|lia].
Qed.

(** The update a raise prepares, in all its cases. *)
Lemma raise_prepares storage r m n f u :
  prepareRoomMessageVersionFloorRaise storage r m n = Ok (f, u) →
  ∃ v rid current, n = NInt v ∧ 1 <= v <= 255 ∧ roomMessageVersionFloorRecordId r m = Ok rid ∧
    recordType u = ROOM_MESSAGE_VERSION_FLOOR_RECORD ∧ recordId u = rid ∧
    expected u = read storage ROOM_MESSAGE_VERSION_FLOOR_RECORD rid ∧
    parseRoomMessageVersionFloor (expected u) r m = Ok current ∧
    f = Z.max (from_option minimumWrapperVersion 0 current) v ∧
    parseRoomMessageVersionFloor (Some (next u)) r m =
      Ok (Some {| floor_roomId := r; floor_remote := m; minimumWrapperVersion := f |}).
Proof.
  unfold prepareRoomMessageVersionFloorRaise. intros H'. apply bind_ok in H' as (v & Hv & H').
  apply require_ok, safe_int_Some in Hv as [-> _].
  apply bind_ok in H' as (? & Hr & H'). apply throw_if_ok in Hr.
  apply bind_ok in H' as (rid & Hrid & H'). cbv zeta in H'.
  apply bind_ok in H' as (current & Hc & H'). bool_prop.
  exists v, rid, current. split; [done|]. split; [lia|]. split; [done|].
  assert (∀ w, 0 <= w <= 255 → parseRoomMessageVersionFloor (Some (encodeRoomMessageVersionFloor
      {| floor_roomId := r; floor_remote := m; minimumWrapperVersion := w |})) r m =
    Ok (Some {| floor_roomId := r; floor_remote := m; minimumWrapperVersion := w |})) as Henc.
  { intros w Hw. by apply (parse_encode_floor {| floor_roomId := r; floor_remote := m; minimumWrapperVersion := w |}). }
  destruct current as [c|], (read storage _ rid) as [b|] eqn:Eb; try discriminate Hc.
  - destruct (parse_floor_fields _ _ _ _ Hc) as (E1 & E2 & ?).
    destruct (_ =? minimumWrapperVersion c) eqn:Ef; apply Ok_inj, pair_eq in H' as [<- <-];
      cbn [recordType recordId expected next]; split_and!; try done.
    + rewrite Hc. apply Z.eqb_eq in Ef. rewrite Ef. destruct c; cbn in *. by subst.
    + apply Henc. cbn [from_option]. lia.
  - apply Ok_inj, pair_eq in H' as [<- <-]. cbn [recordType recordId expected next]. split_and!; try done.
    apply Henc. cbn [from_option]. lia.
  - apply Ok_inj, pair_eq in H' as [<- <-]. cbn [recordType recordId expected next]. split_and!; try done.
    apply Henc. cbn [from_option]. lia.
Qed.

(** The wrapper-version floor never goes down, whatever happens between preparing a raise and
    committing it: if the commit's compare-and-swap succeeds (alone or in one transaction with other
    records), the stored floor becomes the announced one, which is at least the floor the store held
    at that moment and at least the authenticated version; if it fails, nothing changes. *)
Theorem floor_raise_is_monotone storage store1 r m n f u us :
  prepareRoomMessageVersionFloorRaise storage r m n = Ok (f, u) →
  NoDup (update_key <$> u :: us) →
  let commit := compareAndSwapRecords (u :: us) store1 in
  (commit.1 = true →
     ∃ f1 v, n = NInt v ∧ readRoomMessageVersionFloor store1 r m = Ok f1 ∧
       readRoomMessageVersionFloor commit.2 r m = Ok f ∧ f1 <= f ∧ v <= f) ∧
  (commit.1 = false → commit.2 = store1).
Proof.
  intros (v & rid & current & -> & Hv & Hrid & Ht & Hi & He & Hp & -> & Hn)%raise_prepares Hnd commit.
  split; [|apply cas_fail]. intros Hok.
  assert (read store1 ROOM_MESSAGE_VERSION_FLOOR_RECORD rid = expected u) as E1.
  { unfold commit in Hok. rewrite cas_result in Hok by done. unfold expectations_hold in Hok. simpl in Hok.
    apply andb_true_iff in Hok as [Hok%bool_decide_eq_true _]. by rewrite Ht, Hi in Hok. }
  assert (read commit.2 ROOM_MESSAGE_VERSION_FLOOR_RECORD rid = Some (next u)) as E2.
  { rewrite <-Ht, <-Hi. apply cas_written; [done..|set_solver]. }
  exists (from_option minimumWrapperVersion 0 current), v. unfold readRoomMessageVersionFloor.
  rewrite Hrid. cbn [mbind res_bind]. rewrite E1, E2, Hp, Hn. simpl. split_and!; [done..|lia|lia].
Qed.
End floor.

Definition toy_digest (s : string) : string := s.
Definition sample_raise : res (Z * SecureRecordUpdate) :=
  prepareRoomMessageVersionFloorRaise toy_digest (∅ : memory) "room" "K3 REF" (NInt 1).

Lemma floor_raise_is_monotone_witness :
  match sample_raise with
  | Ok (f, u) => f = 1 ∧ ∃ f1 v, NInt 1 = NInt v ∧
      readRoomMessageVersionFloor toy_digest (∅ : memory) "room" "K3 REF" = Ok f1 ∧
      readRoomMessageVersionFloor toy_digest (compareAndSwapRecords [u] (∅ : memory)).2 "room" "K3 REF" = Ok f ∧
      f1 <= f ∧ v <= f
  | Err _ => False
  end.
Proof.
  destruct sample_raise as [[f u]|] eqn:E; [|discriminate E]. split.
  - unfold sample_raise in E. vm_compute in E. congruence.
  - apply (floor_raise_is_monotone toy_digest (∅ : memory) ∅ "room" "K3 REF" (NInt 1) f u []).
    + exact E.
    + apply NoDup_singleton.
    + vm_compute in E. injection E as _ <-. vm_compute. reflexivity.
Defined.
