(* ===== verification/ReplayEvidence.v ===== *)
(** * Replay evidence of a conversation ([crypto/modernConversation.ts], loadReplayState and prepareReplayAppend)

    Which ciphertexts and which authenticated events were already accepted is kept in pages of at most 256 entries under a
    root record that counts the pages and the entries. An older format, one list at the address of the root, is migrated by
    the first append. An append is a set of compare-and-swap updates that the caller commits together with the ratchet and
    the message; the root and the pages are read one by one, other tabs append in between. *)
From S2P Require Import Prelude Json Storage VersionFloor.

(* service/src/crypto/modernConversation.ts:66-66 REPLAY_SEGMENT_CAPACITY *)
Definition REPLAY_SEGMENT_CAPACITY : nat := Z.to_nat 256.

(* service/src/crypto/modernConversation.ts:218-218 asBytes *)
Definition asBytes (value : jsval) : string := stringify value.

(** [/^v1:[0-9a-f]{64}$/] *)
Definition v1_digest (s : string) : bool :=
  match strip_prefix "v1:" s with Some h => hex64 h | None => false end.

(* service/src/crypto/modernConversation.ts:231-241 parseM1Seen *)
Definition parseM1Seen (bytes : option string) : res (list jsval) :=
  match bytes with
  | None => mret []
  | Some b =>
      value ← require (parse b) "Unexpected token in JSON";
      match value with
      | JObj fs =>
          match get fs "ids" with
          | JArr ids =>
              throw_if (negb (exact_keys fs ["ids"; "version"]) || negb (bool_decide (get fs "version" = JNum (NInt 1))) ||
                existsb (λ item, match item with JStr s => negb (v1_digest s) | _ => true end) ids)
                "Modern M1 replay state is invalid.";;
              mret ids
          | _ => Err "Modern M1 replay state is invalid."
          end
      | _ => Err "Modern M1 replay state is invalid."
      end
  end.

(* service/src/crypto/modernConversation.ts:243-243 ReplayRoot *)
Record ReplayRoot := { segmentCount : Z; entryCount : Z }.
(* service/src/crypto/modernConversation.ts:244-244 ReplayState *)
Record ReplayState := {
  items : list jsval; rootBytes : option string; pageCount : Z; lastSegmentBytes : option string; legacy : bool }.

Definition invalid_index : string := "Modern replay index is invalid.".
(* service/src/crypto/modernConversation.ts:245-255 parseReplayRoot *)
Definition parseReplayRoot (bytes : option string) : res (option ReplayRoot) :=
  match bytes with
  | None => mret None
  | Some b =>
      value ← require (parse b) "Unexpected token in JSON";
      match value with
      | JObj fs =>
          throw_if (negb (exact_keys fs ["entryCount"; "segmentCount"; "version"]) ||
            negb (bool_decide (get fs "version" = JNum (NInt 2)))) invalid_index;;
          s ← require (js_safe_int (get fs "segmentCount")) invalid_index;
          n ← require (js_safe_int (get fs "entryCount")) invalid_index;
          throw_if ((s <? 0) || (n <? 0) || negb (Bool.eqb (s =? 0) (n =? 0))) invalid_index;;
          mret (Some {| segmentCount := s; entryCount := n |})
      | _ => Err invalid_index
      end
  end.

(* service/src/crypto/modernConversation.ts:256-256 replaySegmentId *)
Definition replaySegmentId (roomId : string) (index : Z) : string := roomId +:+ ":replay:" +:+ Z_str index.

Definition invalid_segment : string := "Modern replay segment is invalid.".
(* service/src/crypto/modernConversation.ts:257-265 parseReplaySegment *)
Definition parseReplaySegment (parseEntry : jsval → bool) (bytes : option string) : res (list jsval) :=
  match bytes with
  | None => Err "Modern replay segment is missing."
  | Some b =>
      value ← require (parse b) "Unexpected token in JSON";
      match value with
      | JObj fs =>
          match get fs "entries" with
          | JArr entries =>
              throw_if (negb (exact_keys fs ["entries"; "version"]) || negb (bool_decide (get fs "version" = JNum (NInt 1))) ||
                bool_decide (length entries < 1)%nat || bool_decide (REPLAY_SEGMENT_CAPACITY < length entries)%nat ||
                existsb (λ e, negb (parseEntry e)) entries) invalid_segment;;
              mret entries
          | _ => Err invalid_segment
          end
      | _ => Err invalid_segment
      end
  end.

(* service/src/crypto/modernConversation.ts:266-266 isM1ReplayEntry *)
Definition isM1ReplayEntry (value : jsval) : bool := match value with JStr s => v1_digest s | _ => false end.
(* service/src/crypto/modernConversation.ts:267-270 isRoomMessageReplayEntry *)
Definition isRoomMessageReplayEntry (value : jsval) : bool :=
  match value with
  | JObj fs => exact_keys fs ["commitment"; "id"] && isM1ReplayEntry (get fs "id") && isM1ReplayEntry (get fs "commitment")
  | _ => false
  end.

(* service/src/crypto/modernConversation.ts:321-334 parseRoomMessageSeen *)
Definition parseRoomMessageSeen (bytes : option string) : res (list jsval) :=
  match bytes with
  | None => mret []
  | Some b =>
      value ← require (parse b) "Unexpected token in JSON";
      match value with
      | JObj fs =>
          match get fs "events" with
          | JArr events =>
              throw_if (negb (exact_keys fs ["events"; "version"]) || negb (bool_decide (get fs "version" = JNum (NInt 1))) ||
                existsb (λ e, negb (isRoomMessageReplayEntry e)) events) "Modern room-message replay state is invalid.";;
              mret events
          | _ => Err "Modern room-message replay state is invalid."
          end
      | _ => Err "Modern room-message replay state is invalid."
      end
  end.

(** [{ version: 1, entries }] and [{ version: 2, segmentCount, entryCount }] *)
Definition segment_bytes (entries : list jsval) : string := asBytes (JObj [("version", JNum (NInt 1)); ("entries", JArr entries)]).
Definition root_bytes (segments entries : Z) : string :=
  asBytes (JObj [("version", JNum (NInt 2)); ("segmentCount", JNum (NInt segments)); ("entryCount", JNum (NInt entries))]).

(** the results of [Promise.all] and [flatMap] *)
Fixpoint collect {A} (l : list (res (list A))) : res (list A) :=
  match l with
  | [] => mret []
  | x :: l' => a ← x; b ← collect l'; mret (a ++ b)
  end.

(** [l] cut into pieces of at most 256 entries: [slice(offset, offset + 256)], or [splice(0, 256)] until nothing is left *)
Fixpoint cut (fuel : nat) (l : list jsval) : list (list jsval) :=
  match fuel, l with
  | S n, _ :: _ => take REPLAY_SEGMENT_CAPACITY l :: cut n (drop REPLAY_SEGMENT_CAPACITY l)
  | _, _ => []
  end.
Definition pages (l : list jsval) : list (list jsval) := cut (length l) l.

Section evidence.
Context `{SecureStorageLaws St} (recordType roomId : string).
Context (parseLegacy : option string → res (list jsval)) (parseEntry : jsval → bool).

Definition read_root (d : St) : option string := read d recordType roomId.
Definition read_page (d : St) (i : Z) : option string := read d recordType (replaySegmentId roomId i).

(** The root is read first, from [d]; page [i] is read some time later, from [at_page i]. *)
(* service/src/crypto/modernConversation.ts:271-281 loadReplayState *)
Definition loadReplayState (d : St) (at_page : nat → St) : res ReplayState :=
  match read_root d with
  | None => mret {| items := []; rootBytes := None; pageCount := 0; lastSegmentBytes := None; legacy := false |}
  | Some b =>
      match parseReplayRoot (Some b) with
      | Ok (Some root) =>
          throw_if (4294967295 <? segmentCount root) "Invalid array length";;
          let page i := read_page (at_page i) (Z.of_nat i) in
          let indices := seq 0 (Z.to_nat (segmentCount root)) in
          items ← collect (map (λ i, parseReplaySegment parseEntry (page i)) indices);
          throw_if (negb (Z.of_nat (length items) =? entryCount root)) "Modern replay index count does not match its segments.";;
          mret {| items := items; rootBytes := Some b; pageCount := segmentCount root;
                  lastSegmentBytes := last indices ≫= page; legacy := false |}
      | _ =>
          items ← parseLegacy (Some b);
          mret {| items := items; rootBytes := Some b; pageCount := 0; lastSegmentBytes := None; legacy := true |}
      end
  end.

Definition page_update (index : Z) (e : option string) (entries : list jsval) : SecureRecordUpdate :=
  {| Storage.recordType := recordType; recordId := replaySegmentId roomId index; expected := e; next := segment_bytes entries |}.
Definition root_update (e : option string) (segments entries : Z) : SecureRecordUpdate :=
  {| Storage.recordType := recordType; recordId := roomId; expected := e; next := root_bytes segments entries |}.
(** new pages from index [n] on *)
Definition new_pages (n : Z) (l : list (list jsval)) : list SecureRecordUpdate :=
  imap (λ i page, page_update (n + Z.of_nat i) None page) l.

(* service/src/crypto/modernConversation.ts:282-318 prepareReplayAppend *)
Definition prepareReplayAppend (state : ReplayState) (additions : list jsval) : res (list SecureRecordUpdate) :=
  let all := items state ++ additions in
  let total := Z.of_nat (length all) in
  if legacy state then
    mret (new_pages 0 (pages all) ++ [root_update (rootBytes state) (Z.of_nat (length (pages all))) total])
  else
    root ← parseReplayRoot (rootBytes state);
    lastPage ← match lastSegmentBytes state with
               | Some b => parseReplaySegment (λ _, true) (Some b)
               | None => mret []
               end;
    let lastRoom := pageCount state - 1 in
    if bool_decide (0 < length lastPage)%nat && bool_decide (length lastPage + length additions <= REPLAY_SEGMENT_CAPACITY)%nat then
      root ← require root "Cannot read properties of undefined (reading 'segmentCount')";
      mret [page_update lastRoom (lastSegmentBytes state) (lastPage ++ additions);
            root_update (rootBytes state) (segmentCount root) total]
    else
      let room := (REPLAY_SEGMENT_CAPACITY - length lastPage)%nat in
      let fills := bool_decide (0 < length lastPage)%nat && bool_decide (0 < room)%nat && bool_decide (0 < length additions)%nat in
      let fill := if fills then take room additions else [] in
      let remaining := if fills then drop room additions else additions in
      mret ((if fills then [page_update lastRoom (lastSegmentBytes state) (lastPage ++ fill)] else []) ++
            new_pages (pageCount state) (pages remaining) ++
            [root_update (rootBytes state) (pageCount state + Z.of_nat (length (pages remaining))) total]).

Lemma new_pages_type n l : Forall (λ u, Storage.recordType u = recordType) (new_pages n l).
Proof. apply Forall_forall. intros u (i & x & -> & _)%elem_of_lookup_imap. done. Qed.
Lemma append_type state additions us : prepareReplayAppend state additions = Ok us → Forall (λ u, Storage.recordType u = recordType) us.
Proof.
  unfold prepareReplayAppend. destruct (legacy state); [intros [= <-]; apply Forall_app_2; [apply new_pages_type|by constructor]|].
  intros (root & _ & Hr)%bind_ok. apply bind_ok in Hr as (lp & _ & Hr). cbv zeta in Hr. destruct (_ && _).
  - apply bind_ok in Hr as (r & _ & [= <-]). by repeat constructor.
  - injection Hr as <-. apply Forall_app_2; [|apply Forall_app_2; [apply new_pages_type|by constructor]].
    destruct (_ && _); by repeat constructor.
Qed.

(** ** Texts *)
Context (entry_plain : ∀ v, parseEntry v = true → plain v = true).
Context (legacy_entries : ∀ b l, parseLegacy b = Ok l → Forall (λ v, parseEntry v = true) l).

Definition page_ok (p : list jsval) : Prop :=
  (1 <= length p <= REPLAY_SEGMENT_CAPACITY)%nat ∧ Forall (λ v, parseEntry v = true) p.

Lemma replaySegmentId_inj i j : replaySegmentId roomId i = replaySegmentId roomId j → i = j.
Proof.
  unfold replaySegmentId. intros Hij. assert (Z_str i = Z_str j) as E.
  { revert Hij. clear. induction roomId as [|c s IH]; intros Hij; [by injection Hij|]. rewrite !sapp_cons in Hij. injection Hij. apply IH. }
  enough (JNum (NInt i) = JNum (NInt j)) as [=] by done. by apply stringify_inj.
Qed.

Lemma replaySegmentId_root i : replaySegmentId roomId i ≠ roomId.
Proof.
  unfold replaySegmentId. intros E. apply (f_equal String.length) in E. rewrite !sapp_length in E. cbn in E. lia.
Qed.

Lemma parse_segment p : page_ok p → parseReplaySegment parseEntry (Some (segment_bytes p)) = Ok p.
Proof.
  intros [Hlen Hp]. unfold parseReplaySegment, segment_bytes, asBytes. rewrite parse_stringify.
  - cbn [require mbind res_bind get String.eqb Ascii.eqb Bool.eqb].
    rewrite bool_decide_eq_true_2 by done. change (exact_keys _ _) with true.
    rewrite !bool_decide_eq_false_2 by lia. cbn [negb orb].
    rewrite (proj2 (existsb_false _ p)); [done|]. eapply Forall_impl; [exact Hp|]. cbn. by intros v ->.
  - apply (plain_obj [("version", Some (JNum (NInt 1))); ("entries", Some (JArr p))]); [refine (proj1 (bool_decide_eq_true _) _); by vm_compute|].
    repeat constructor; cbn [from_option snd]. apply (plain_arr p). eapply Forall_impl; [exact Hp|]. apply entry_plain.
Qed.

Lemma parse_root s n :
  0 <= s <= MAX_SAFE_INTEGER → 0 <= n <= MAX_SAFE_INTEGER → (s = 0 ↔ n = 0) →
  parseReplayRoot (Some (root_bytes s n)) = Ok (Some {| segmentCount := s; entryCount := n |}).
Proof.
  intros Hs Hn Hsn. unfold parseReplayRoot, root_bytes, asBytes. rewrite parse_stringify by done.
  cbn [require mbind res_bind get String.eqb Ascii.eqb Bool.eqb js_safe_int].
  change (exact_keys _ _) with true. rewrite bool_decide_eq_true_2 by done. cbn [negb orb throw_if mbind res_bind].
  assert (safe_int (NInt s) = Some s ∧ safe_int (NInt n) = Some n) as [-> ->].
  { unfold safe_int. rewrite !(proj2 (isSafeInteger_bounds _)) by lia. done. }
  cbn [require mbind res_bind]. assert ((s <? 0) || (n <? 0) || negb (Bool.eqb (s =? 0) (n =? 0)) = false) as ->; [|done].
  apply orb_false_iff. split; [lia|]. destruct (Z.eqb_spec s 0), (Z.eqb_spec n 0); tauto.
Qed.

Lemma parse_segment_ok b p : parseReplaySegment parseEntry b = Ok p →
  page_ok p ∧ parseReplaySegment (λ _, true) b = Ok p.
Proof.
  unfold parseReplaySegment. destruct b as [b|]; [|done]. destruct (parse b) as [v|]; [|done]. cbn [require mbind res_bind].
  destruct v as [| | | | | |fs]; try done. destruct (get fs "entries") as [| | | | |l|]; try done. intros Hp. res_inv Hp. subst l.
  apply orb_false_iff in Hp0 as [Hp0 Hv]. rewrite Hp0. cbn [orb].
  rewrite !orb_false_iff, !bool_decide_eq_false in Hp0. destruct Hp0 as [[_ H1] H2].
  split; [split; [lia|]|].
  - apply existsb_false in Hv. eapply Forall_impl; [exact Hv|]. cbn. intros v. apply negb_false_iff.
  - by rewrite (proj2 (existsb_false _ p)) by (apply Forall_forall; done).
Qed.

Lemma cut_pages fuel l : (length l <= fuel)%nat → Forall (λ v, parseEntry v = true) l →
  concat (cut fuel l) = l ∧ Forall page_ok (cut fuel l).
Proof.
  revert l. induction fuel as [|n IH]; intros [|x l] Hl Hp; cbn [cut concat length] in *; try (by split; [|constructor]); [lia|].
  set (h := take _ (x :: l)). set (t := drop _ (x :: l)).
  assert (1 <= length h <= REPLAY_SEGMENT_CAPACITY)%nat as Hh.
  { unfold h. rewrite length_take. cbn [length]. unfold REPLAY_SEGMENT_CAPACITY. lia. }
  assert (x :: l = h ++ t) as E by (symmetry; apply take_drop). rewrite E in Hp. apply Forall_app in Hp as [Hph Hpt].
  destruct (IH t) as [Hc Ho]; [|done|].
  - apply (f_equal length) in E. rewrite length_app in E. cbn [length] in E. lia.
  - split; [by rewrite Hc|]. by constructor.
Qed.

Lemma pages_ok l : Forall (λ v, parseEntry v = true) l → concat (pages l) = l ∧ Forall page_ok (pages l).
Proof. by apply cut_pages. Qed.

(** ** What a store holds: nothing, a list in the old format, or pages *)
Inductive view :=
| Empty
| Legacy (b : string) (l : list jsval)
| Paged (ps : list (list jsval)).
Definition view_items (v : view) : list jsval :=
  match v with Empty => [] | Legacy _ l => l | Paged ps => concat ps end.

(** no array, and so no loaded evidence, is longer *)
Definition fits (l : list jsval) : Prop := Z.of_nat (length l) <= 4294967295.
Definition is_root (b : string) : bool := match parseReplayRoot (Some b) with Ok (Some _) => true | _ => false end.

Definition represents (d : St) (v : view) : Prop :=
  match v with
  | Empty => read_root d = None
  | Legacy b l => read_root d = Some b ∧ is_root b = false ∧ parseLegacy (Some b) = Ok l
  | Paged ps => fits (concat ps) ∧
      (∃ b, read_root d = Some b ∧ parseReplayRoot (Some b) =
        Ok (Some {| segmentCount := Z.of_nat (length ps); entryCount := Z.of_nat (length (concat ps)) |})) ∧
      (∀ i p, ps !! i = Some p → parseReplaySegment parseEntry (read_page d (Z.of_nat i)) = Ok p)
  end.

(** [v'] is [v] after appends: the old entries in front, each old page a prefix of the page at its place *)
Definition grown (v v' : view) : Prop :=
  (∃ l, l ≠ [] ∧ view_items v' = view_items v ++ l) ∧
  match v' with
  | Paged ps' => ∀ ps, v = Paged ps → ∀ i p, ps !! i = Some p → ∃ p', ps' !! i = Some p' ∧ p `prefix_of` p'
  | _ => False
  end.
Definition extends (v v' : view) : Prop := v' = v ∨ grown v v'.

#[export] Instance extends_preorder : PreOrder extends.
Proof.
  split; [by left|]. intros v1 v2 v3 [->|[(l1 & Hl1 & E1) H12]] [->|[(l2 & Hl2 & E2) H23]]; try (by left).
  - right. split; [by exists l2|done].
  - right. split; [by exists l1|done].
  - right. split.
    { exists (l1 ++ l2). rewrite E2, E1, (assoc_L (++)). split; [|done]. by destruct l1. }
    destruct v3 as [| |ps3]; try done. destruct v2 as [| |ps2]; try done. intros ps -> i p Hp.
    destruct (H12 ps eq_refl i p Hp) as (p2 & Hp2 & Hpre). destruct (H23 ps2 eq_refl i p2 Hp2) as (p3 & ? & ?).
    exists p3. split; [done|]. by etrans.
Qed.

Lemma extends_items v v' : extends v v' → view_items v `prefix_of` view_items v'.
Proof. intros [->|[(l & _ & ->) _]]; [done|]. by exists l. Qed.

(** What a load of [v] returns. *)
Definition snapshot_of (s : ReplayState) (v : view) : Prop :=
  items s = view_items v ∧
  match v with
  | Empty => rootBytes s = None ∧ legacy s = false ∧ pageCount s = 0 ∧ lastSegmentBytes s = None
  | Legacy b _ => rootBytes s = Some b ∧ legacy s = true ∧ is_root b = false
  | Paged ps => legacy s = false ∧ pageCount s = Z.of_nat (length ps) ∧
      (∃ b, rootBytes s = Some b ∧ parseReplayRoot (Some b) =
        Ok (Some {| segmentCount := Z.of_nat (length ps); entryCount := Z.of_nat (length (concat ps)) |})) ∧
      match last ps with
      | None => lastSegmentBytes s = None
      | Some p => ∃ b, lastSegmentBytes s = Some b ∧ parseReplaySegment parseEntry (Some b) = Ok p
      end
  end.

Lemma collect_ok (l : list (res (list jsval))) r :
  collect l = Ok r ↔ ∃ ls, Forall2 (λ x a, x = Ok a) l ls ∧ r = concat ls.
Proof.
  revert r. induction l as [|x l IH]; intros r; cbn [collect].
  - split; [intros [= <-]; by exists []|]. by intros (ls & H1%Forall2_nil_inv_l & ->); subst.
  - split.
    + intros Hr. apply bind_ok in Hr as (a & -> & Hr). apply bind_ok in Hr as (b & Hb & [= <-]).
      apply IH in Hb as (ls & Hls & ->). exists (a :: ls). split; [by constructor|done].
    + intros (ls & Hls & ->). apply Forall2_cons_inv_l in Hls as (a & ls' & -> & Hls & ->).
      rewrite (proj2 (IH (concat ls'))); [done|]. by exists ls'.
Qed.

(** Pages read at later stages that together have as many entries as the root announces are the pages of the root. *)
Lemma pages_exact (ps ps' : list (list jsval)) :
  Forall2 (λ p p', p `prefix_of` p') ps ps' → length (concat ps') = length (concat ps) → ps' = ps.
Proof.
  induction 1 as [|p p' ps ps' [t ->] Hps IH]; [done|]. cbn [concat]. rewrite !length_app. intros Hl.
  assert (length (concat ps) <= length (concat ps'))%nat.
  { clear -Hps. induction Hps as [|? ? ? ? [u ->] ? IH]; [done|]. cbn [concat]. rewrite !length_app. lia. }
  assert (t = []) as -> by (destruct t; [done|cbn [length] in Hl; lia]). rewrite app_nil_r in *. f_equal. apply IH. lia.
Qed.

Lemma load_paged d at_page (ps : list (list jsval)) b :
  read_root d = Some b →
  parseReplayRoot (Some b) = Ok (Some {| segmentCount := Z.of_nat (length ps); entryCount := Z.of_nat (length (concat ps)) |}) →
  loadReplayState d at_page =
    (throw_if (4294967295 <? Z.of_nat (length ps)) "Invalid array length";;
     items ← collect (map (λ i, parseReplaySegment parseEntry (read_page (at_page i) (Z.of_nat i))) (seq 0 (length ps)));
     throw_if (negb (Z.of_nat (length items) =? Z.of_nat (length (concat ps)))) "Modern replay index count does not match its segments.";;
     mret {| items := items; rootBytes := Some b; pageCount := Z.of_nat (length ps);
             lastSegmentBytes := last (seq 0 (length ps)) ≫= λ i, read_page (at_page i) (Z.of_nat i); legacy := false |}).
Proof. intros Hb Hr. unfold loadReplayState. rewrite Hb, Hr. cbn [segmentCount entryCount]. by rewrite Nat2Z.id. Qed.

Lemma last_seq n : last (seq 0 n) = match n with O => None | S m => Some m end.
Proof. destruct n as [|m]; [done|]. rewrite seq_S, last_snoc. f_equal. Qed.

(** A load during which other appends commit either fails or returns the evidence as it was when its root was read. *)
Lemma load_exact d at_page v s :
  represents d v → (∀ i, ∃ v', extends v v' ∧ represents (at_page i) v') →
  loadReplayState d at_page = Ok s → snapshot_of s v.
Proof.
  intros Hv Hat. destruct v as [|b l|ps]; cbn [represents] in Hv.
  - unfold loadReplayState. rewrite Hv. by intros [= <-].
  - destruct Hv as (Hb & Hn & Hl). unfold loadReplayState. rewrite Hb. unfold is_root in Hn.
    destruct (parseReplayRoot (Some b)) as [[r|]|] eqn:Er; [done|..]; rewrite Hl; intros [= <-]; split; try done; cbn;
      unfold is_root; by rewrite Er.
  - destruct Hv as (_ & (b & Hb & Hr) & Hps). rewrite (load_paged _ _ ps b) by done. intros Hs.
    apply bind_ok in Hs as (? & _ & Hs). apply bind_ok in Hs as (l & Hc & Hs). apply bind_ok in Hs as (? & Hlen & [= <-]).
    apply throw_if_ok, negb_false_iff, Z.eqb_eq in Hlen. apply collect_ok in Hc as (ps' & Hps' & ->).
    assert (length ps' = length ps) as Hn by (apply Forall2_length in Hps'; by rewrite length_map, length_seq in Hps').
    assert (∀ i p', ps' !! i = Some p' → parseReplaySegment parseEntry (read_page (at_page i) (Z.of_nat i)) = Ok p') as Hread.
    { intros i p' Hp'. destruct (Forall2_lookup_r _ _ _ i p' Hps' Hp') as (y & Hx & Hxp). rewrite <-Hxp.
      apply list_lookup_fmap_Some_1 in Hx as (j & -> & Hj). apply lookup_seq in Hj as [-> _]. done. }
    assert (ps' = ps) as ->.
    { apply pages_exact; [|lia]. apply Forall2_same_length_lookup_2; [done|]. intros i p p' Hp Hp'.
      specialize (Hread i p' Hp'). destruct (Hat i) as (v' & Hext & Hv').
      destruct Hext as [->|[_ Hg]].
      - destruct Hv' as (_ & _ & Hsame). rewrite (Hsame i p Hp) in Hread. by injection Hread as ->.
      - destruct v' as [| |qs]; try done. destruct (Hg ps eq_refl i p Hp) as (q & Hq & Hpre).
        destruct Hv' as (_ & _ & Hsame). rewrite (Hsame i q Hq) in Hread. by injection Hread as ->. }
    split; [done|]. cbn. split_and!; [done..|by exists b|]. rewrite last_seq.
    destruct (last ps) as [p|] eqn:El; [|by apply last_None in El as ->].
    apply last_Some in El as [ps0 ->]. rewrite length_app, Nat.add_comm. cbn [length Nat.add mbind option_bind].
    assert (parseReplaySegment parseEntry (read_page (at_page (length ps0)) (Z.of_nat (length ps0))) = Ok p) as Hp.
    { apply Hread. by rewrite lookup_app_r, Nat.sub_diag by lia. }
    destruct (read_page _ _) as [lb|] eqn:Elb; [|done]. by exists lb.
Qed.

Lemma load_total d v : represents d v → ∃ s, loadReplayState d (λ _, d) = Ok s.
Proof.
  destruct v as [|b l|ps]; cbn [represents].
  - intros Hb. unfold loadReplayState. rewrite Hb. by eexists.
  - intros (Hb & Hn & Hl). unfold loadReplayState, is_root in *. rewrite Hb.
    destruct (parseReplayRoot (Some b)) as [[r|]|]; [done|..]; rewrite Hl; by eexists.
  - intros (Hf & (b & Hb & Hr) & Hps). rewrite (load_paged _ _ ps b) by done.
    assert (length ps <= length (concat ps))%nat as Hle.
    { clear -Hps. assert (Forall (λ p : list jsval, 1 <= length p)%nat ps) as Ho.
      { apply Forall_lookup. intros i p Hp. apply Hps, parse_segment_ok in Hp as [[? _] _]. lia. }
      clear Hps. induction Ho as [|p ps Hp _ IH]; [done|]. cbn [concat length]. rewrite length_app. lia. }
    unfold fits in Hf. rewrite throw_if_false by lia. cbn [mbind res_bind].
    rewrite (proj2 (collect_ok _ (concat ps))).
    + cbn [mbind res_bind]. rewrite throw_if_false by (by rewrite Z.eqb_refl). by eexists.
    + exists ps. split; [|done]. apply Forall2_same_length_lookup_2; [by rewrite length_map, length_seq|].
      intros i x p Hx Hp. apply list_lookup_fmap_Some_1 in Hx as (j & -> & Hj). apply lookup_seq in Hj as [-> _]. by apply Hps.
Qed.

(** A store whose evidence can be loaded at rest is one of these. *)
Lemma load_represents d s : loadReplayState d (λ _, d) = Ok s → fits (items s) → ∃ v, represents d v ∧ view_items v = items s.
Proof.
  unfold loadReplayState. destruct (read_root d) as [b|] eqn:Hb; [|intros [= <-] _; by exists Empty].
  destruct (parseReplayRoot (Some b)) as [[r|]|] eqn:Hr.
  - intros Hs Hf. apply bind_ok in Hs as (? & _ & Hs). apply bind_ok in Hs as (l & Hc & Hs).
    apply bind_ok in Hs as (? & Hlen & [= <-]). apply throw_if_ok, negb_false_iff, Z.eqb_eq in Hlen.
    apply collect_ok in Hc as (ps & Hps & ->). exists (Paged ps). split; [|done].
    assert (length ps = Z.to_nat (segmentCount r)) as Hn by (apply Forall2_length in Hps; by rewrite length_map, length_seq in Hps).
    assert (0 <= segmentCount r) as H0r.
    { clear -Hr. unfold parseReplayRoot in Hr. destruct (parse b) as [v|]; [|done]. cbn [require mbind res_bind] in Hr.
      destruct v; try done. res_inv Hr. injection Hr as <-. cbn. bool_prop. lia. }
    split; [done|]. split.
    + exists b. split; [done|]. rewrite Hr. destruct r. cbn in *. do 3 f_equal; lia.
    + intros i p Hp. destruct (Forall2_lookup_r _ _ _ i p Hps Hp) as (y & Hx & Hxp). rewrite <-Hxp.
      apply list_lookup_fmap_Some_1 in Hx as (j & -> & Hj). apply lookup_seq in Hj as [-> _]. done.
  - intros Hs _. apply bind_ok in Hs as (l & Hl & [= <-]). exists (Legacy b l). split; [|done]. split_and!; try done.
    unfold is_root. by rewrite Hr.
  - intros Hs _. apply bind_ok in Hs as (l & Hl & [= <-]). exists (Legacy b l). split; [|done]. split_and!; try done.
    unfold is_root. by rewrite Hr.
Qed.

(** ** What an append writes: [ps1] stays, the pages [qs] replace the last one or follow, the root counts them *)
Definition writes (e : nat → option string) (ps1 qs : list (list jsval)) (b : option string) : list SecureRecordUpdate :=
  imap (λ i q, page_update (Z.of_nat (length ps1 + i)) (e i) q) qs ++
  [root_update b (Z.of_nat (length (ps1 ++ qs))) (Z.of_nat (length (concat (ps1 ++ qs))))].

Definition appends (v : view) (adds : list jsval) (us : list SecureRecordUpdate) (b : option string) : Prop :=
  ∃ e ps1 qs, us = writes e ps1 qs b ∧ qs ≠ [] ∧ Forall page_ok qs ∧ concat (ps1 ++ qs) = view_items v ++ adds ∧
    match v with
    | Paged ps => ps = ps1 ∨ ∃ p q qs', ps = ps1 ++ [p] ∧ qs = q :: qs' ∧ p `prefix_of` q
    | _ => ps1 = []
    end.

Lemma new_pages_writes n l e : (∀ i, e i = None) →
  new_pages (Z.of_nat n) l = imap (λ i q, page_update (Z.of_nat (n + i)) (e i) q) l.
Proof. intros He. apply imap_ext. intros i x _. rewrite He. f_equal. lia. Qed.

Lemma pages_nonempty l : l ≠ [] → pages l ≠ [].
Proof. by destruct l. Qed.

Lemma prepare_flat v s adds us :
  snapshot_of s v → match v with Paged (_ :: _) => False | _ => True end → adds ≠ [] →
  Forall (λ x, parseEntry x = true) (items s ++ adds) →
  prepareReplayAppend s adds = Ok us → appends v adds us (rootBytes s).
Proof.
  intros [Hi Hs] Hv Hadds Hall. destruct (pages_ok _ Hall) as [Hc Hp].
  assert (∀ ps, v = Paged ps → ps = []) as Hnil by (intros [|] ->; done).
  unfold prepareReplayAppend. destruct (legacy s) eqn:El.
  - intros [= <-]. exists (λ _, None), [], (pages (items s ++ adds)). split_and!.
    + unfold writes. cbn [app length]. rewrite Hc. by rewrite <-(new_pages_writes 0 _ (λ _, None)).
    + apply pages_nonempty. by destruct (items s).
    + done.
    + by rewrite <-Hi.
    + destruct v as [| |ps]; [done|done|]. left. by apply Hnil.
  - assert (lastSegmentBytes s = None ∧ pageCount s = 0 ∧ items s = [] ∧ ∃ r, parseReplayRoot (rootBytes s) = Ok r) as (-> & -> & Hi0 & r & ->).
    { destruct v as [|b l|[|p ps]]; [|destruct Hs as (_ & ? & _); congruence| |done].
      - destruct Hs as (-> & _ & -> & ->). split_and!; [done..|by eexists].
      - destruct Hs as (_ & -> & (b & -> & ->) & ->). split_and!; [done..|by eexists]. }
    rewrite Hi0 in *. cbn [mbind res_bind mret res_ret app length] in *.
    change (bool_decide (0 < 0)%nat) with false. cbn [andb app].
    intros [= <-]. exists (λ _, None), [], (pages adds). split_and!.
    + unfold writes. cbn [app length]. rewrite Hc. by rewrite <-(new_pages_writes 0 _ (λ _, None)).
    + by apply pages_nonempty.
    + done.
    + by rewrite <-Hi.
    + destruct v as [| |ps]; [done|done|]. left. by apply Hnil.
Qed.

Lemma prepare_paged s ps p adds us :
  snapshot_of s (Paged (ps ++ [p])) → adds ≠ [] → Forall (λ x, parseEntry x = true) adds →
  prepareReplayAppend s adds = Ok us → appends (Paged (ps ++ [p])) adds us (rootBytes s).
Proof.
  intros [Hi Hs] Hadds Hall. destruct Hs as (El & Hpc & (b & Hb & Hr) & Hlast).
  rewrite last_snoc in Hlast. destruct Hlast as (lb & Hlb & Hp). destruct (parse_segment_ok _ _ Hp) as [[Hplen Hpe] Hp'].
  unfold prepareReplayAppend. rewrite El, Hb, Hr, Hlb, Hp'. cbn [mbind res_bind]. rewrite (bool_decide_eq_true_2 (0 < _)%nat) by lia.
  rewrite Hpc, length_app, Nat.add_1_r. replace (Z.of_nat (S (length ps)) - 1) with (Z.of_nat (length ps)) by lia.
  destruct (decide (length p + length adds <= REPLAY_SEGMENT_CAPACITY)%nat) as [Hfit|Hfit].
  - rewrite bool_decide_eq_true_2 by done. cbn [andb require mbind res_bind segmentCount]. intros [= <-].
    exists (λ _, Some lb), ps, [p ++ adds]. split_and!.
    + unfold writes. cbn [imap app]. rewrite Nat.add_0_r.
      rewrite Hi, (length_app ps). cbn [length]. rewrite Nat.add_1_r. f_equal. f_equal. cbn [view_items].
      by rewrite !concat_app, !length_app; cbn [concat]; rewrite !app_nil_r, !length_app, Nat.add_assoc.
    + done.
    + apply Forall_singleton. split; [rewrite length_app; lia|by apply Forall_app].
    + cbn [view_items]. rewrite !concat_app. cbn [concat]. by rewrite !app_nil_r, (assoc_L (++)).
    + right. exists p, (p ++ adds), []. split_and!; [done..|by exists adds].
  - rewrite bool_decide_eq_false_2 by done. cbn [andb].
    rewrite (bool_decide_eq_true_2 (0 < length adds)%nat) by (destruct adds; [done|cbn; lia]). rewrite andb_true_r.
    set (room := (REPLAY_SEGMENT_CAPACITY - length p)%nat).
    destruct (decide (0 < room)%nat) as [Hroom|Hroom].
    + rewrite bool_decide_eq_true_2 by done. intros [= <-].
      assert (Forall (λ x, parseEntry x = true) (drop room adds)) as Hd by by apply Forall_drop.
      destruct (pages_ok _ Hd) as [Hc Hq].
      exists (λ i, match i with O => Some lb | S _ => None end), ps, ((p ++ take room adds) :: pages (drop room adds)). split_and!.
      * unfold writes. rewrite imap_cons. cbn [app]. rewrite Nat.add_0_r. f_equal. f_equal.
        -- rewrite (new_pages_writes (S (length ps)) _ (λ _, None)) by done. apply imap_ext. intros i x _. cbn. f_equal. lia.
        -- f_equal. f_equal; [rewrite length_app; cbn [length]; lia|]. rewrite Hi. cbn [view_items].
           rewrite !concat_app. cbn [concat]. rewrite Hc, app_nil_r, <-!(assoc_L (++)), take_drop. done.
      * done.
      * constructor; [|done]. split; [|apply Forall_app; split; [done|by apply Forall_take]].
        rewrite length_app, length_take. unfold room. lia.
      * cbn [view_items]. rewrite !concat_app. cbn [concat]. by rewrite Hc, app_nil_r, <-!(assoc_L (++)), take_drop.
      * right. exists p, (p ++ take room adds), (pages (drop room adds)). split_and!; [done..|by eexists].
    + rewrite bool_decide_eq_false_2 by done. cbn [app]. intros [= <-]. destruct (pages_ok _ Hall) as [Hc Hq].
      exists (λ _, None), (ps ++ [p]), (pages adds). split_and!.
      * unfold writes. f_equal.
        -- rewrite (new_pages_writes (S (length ps)) _ (λ _, None)) by done. apply imap_ext. intros i x _. cbn. f_equal.
           rewrite length_app. cbn [length]. lia.
        -- f_equal. f_equal; [rewrite !length_app; cbn [length]; lia|]. rewrite Hi. cbn [view_items]. by rewrite (concat_app (ps ++ [p])), Hc.
      * by apply pages_nonempty.
      * done.
      * by rewrite concat_app, Hc.
      * by left.
Qed.

Definition foreign (us : list SecureRecordUpdate) : Prop := Forall (λ u, Storage.recordType u ≠ recordType) us.

(** A committed append, alone or in one swap with other records. *)
Lemma writes_represent d v adds e ps1 qs b us rest :
  represents d v → us = writes e ps1 qs b → qs ≠ [] → Forall page_ok qs → concat (ps1 ++ qs) = view_items v ++ adds →
  (∀ i p, ps1 !! i = Some p → parseReplaySegment parseEntry (read_page d (Z.of_nat i)) = Ok p) →
  fits (view_items v ++ adds) → NoDup (update_key <$> us ++ rest) → foreign rest →
  let swap := compareAndSwapRecords (us ++ rest) d in
  swap.1 = true → represents swap.2 (Paged (ps1 ++ qs)).
Proof.
  intros Hd -> Hqs Hok Hc Hps1 Hf Hnd Hrest swap Htrue.
  assert (∀ u, u ∈ writes e ps1 qs b → read swap.2 (Storage.recordType u) (recordId u) = Some (next u)) as Hw.
  { intros u Hu. apply cas_written; [done..|set_solver]. }
  assert (∀ i, (i < length ps1)%nat → read_page swap.2 (Z.of_nat i) = read_page d (Z.of_nat i)) as Hkeep.
  { intros i Hi. apply cas_other. rewrite fmap_app, not_elem_of_app. split.
    - unfold writes. rewrite fmap_app, not_elem_of_app. split.
      + intros (u & Hu & Hin)%list_elem_of_fmap. apply elem_of_lookup_imap in Hin as (j & q & -> & Hj).
        injection Hu as Hu. apply replaySegmentId_inj in Hu. lia.
      + intros Hin%list_elem_of_singleton. injection Hin as Hin. by apply replaySegmentId_root in Hin.
    - intros (u & Hu & Hin)%list_elem_of_fmap. unfold foreign in Hrest. rewrite Forall_forall in Hrest.
      apply (Hrest u Hin). by injection Hu as <- _. }
  cbn [represents]. rewrite Hc. split; [done|]. split.
  - exists (root_bytes (Z.of_nat (length (ps1 ++ qs))) (Z.of_nat (length (concat (ps1 ++ qs))))).
    split; [apply (Hw (root_update b _ _)); unfold writes; set_solver|]. rewrite <-Hc.
    unfold fits in Hf. rewrite <-Hc in Hf.
    assert (length (ps1 ++ qs) <= length (concat (ps1 ++ qs)))%nat as Hle.
    { assert (Forall (λ p : list jsval, 1 <= length p)%nat (ps1 ++ qs)) as Ho.
      { apply Forall_app. split; [|eapply Forall_impl; [exact Hok|by intros p [? _]; lia]].
        apply Forall_lookup. intros i p Hp. apply Hps1, parse_segment_ok in Hp as [[? _] _]. lia. }
      revert Ho. generalize (ps1 ++ qs). induction 1 as [|p ps Hp _ IH]; [done|]. cbn [concat length]. rewrite length_app. lia. }
    apply parse_root; unfold MAX_SAFE_INTEGER; try lia.
    assert (length (ps1 ++ qs) ≠ 0)%nat by (rewrite length_app; destruct qs; [done|cbn; lia]). lia.
  - intros i p Hp. apply lookup_app_Some in Hp as [Hp|[Hle Hp]].
    + rewrite Hkeep by (by eapply lookup_lt_Some). by apply Hps1.
    + replace (read_page swap.2 (Z.of_nat i)) with (Some (segment_bytes p)).
      * apply parse_segment. rewrite Forall_lookup in Hok. by eapply Hok.
      * symmetry. set (j := (i - length ps1)%nat) in *. replace i with (length ps1 + j)%nat by lia.
        apply (Hw (page_update (Z.of_nat (length ps1 + j)) (e j) p)). unfold writes. apply elem_of_app. left.
        apply elem_of_lookup_imap. by exists j, p.
Qed.

Lemma appends_commit d v s adds us rest :
  represents d v → appends v adds us (rootBytes s) → adds ≠ [] → fits (view_items v ++ adds) →
  NoDup (update_key <$> us ++ rest) → foreign rest →
  let swap := compareAndSwapRecords (us ++ rest) d in
  swap.1 = true → ∃ v', represents swap.2 v' ∧ grown v v' ∧ view_items v' = view_items v ++ adds.
Proof.
  intros Hd (e & ps1 & qs & Hus & Hqs & Hok & Hc & Hps) Hadds Hf Hnd Hrest swap Htrue.
  exists (Paged (ps1 ++ qs)). split; [|split; [split|done]].
  - eapply writes_represent; try done. intros i p Hp. destruct v as [|b l|ps].
    1,2: by rewrite Hps in Hp.
    destruct Hd as (_ & _ & Hd). apply Hd. destruct Hps as [->|(p0 & q & qs' & -> & _)]; [done|]. by apply lookup_app_l_Some.
  - by exists adds.
  - intros ps -> i p Hp. destruct Hps as [->|(p0 & q & qs' & -> & -> & Hpre)].
    + exists p. split; [by apply lookup_app_l_Some|done].
    + apply lookup_app_Some in Hp as [Hp|[Hle Hp]]; [exists p; split; [by apply lookup_app_l_Some|done]|].
      apply list_lookup_singleton_Some in Hp as [Hi ->]. exists q. split; [|done].
      rewrite lookup_app_r by done. by rewrite Hi.
Qed.

(** The root alone tells two stages of an append-only store apart. *)
Lemma snapshot_current s v v' d' :
  extends v v' → snapshot_of s v → represents d' v' → read_root d' = rootBytes s → v' = v.
Proof.
  intros [->|[(l & Hl & E) Hg]]; [done|]. destruct v' as [| |ps']; try done.
  intros [_ Hs] (_ & (b' & Hb' & Hr) & _) Er. destruct v as [|b l0|ps].
  - destruct Hs as [? _]. congruence.
  - destruct Hs as (? & _ & Hn). assert (b' = b) as -> by congruence. unfold is_root in Hn. by rewrite Hr in Hn.
  - destruct Hs as (_ & _ & (b1 & Hb1 & Hr1) & _). assert (b' = b1) as -> by congruence. rewrite Hr1 in Hr. injection Hr as _ Hlen.
    cbn [view_items] in E. rewrite E, length_app in Hlen. destruct l; [done|]. cbn [length] in Hlen. lia.
Qed.

(** ** The store over time

    Snapshots taken by concurrent callers, each read piecewise from stages of the store in order, commits based on any of
    them, and writes to other records. *)
Record Log := { disk : St; past : list St; loaded : list ReplayState }.
Definition timeline (lg : Log) : list St := disk lg :: past lg.
Definition start (d : St) : Log := {| disk := d; past := []; loaded := [] |}.

(** what a caller does with a snapshot *)
Definition proposes (s : ReplayState) (adds : list jsval) (us rest : list SecureRecordUpdate) : Prop :=
  Forall (λ v, parseEntry v = true) adds ∧ adds ≠ [] ∧ fits (items s ++ adds) ∧
  prepareReplayAppend s adds = Ok us ∧ NoDup (update_key <$> us ++ rest) ∧ foreign rest.

Inductive log_step (lg : Log) : Log → Prop :=
| log_load r at_root k at_page s :
    timeline lg !! r = Some at_root →
    (∀ i : nat, (k i <= r)%nat ∧ timeline lg !! k i = Some (at_page i)) →
    loadReplayState at_root at_page = Ok s →
    log_step lg {| disk := disk lg; past := past lg; loaded := s :: loaded lg |}
| log_commit s adds us rest :
    s ∈ loaded lg → proposes s adds us rest →
    log_step lg {| disk := (compareAndSwapRecords (us ++ rest) (disk lg)).2; past := timeline lg; loaded := loaded lg |}
| log_other d :
    (∀ i, read d recordType i = read (disk lg) recordType i) →
    log_step lg {| disk := d; past := timeline lg; loaded := loaded lg |}.

Definition log_sound (lg : Log) (vs : list view) : Prop :=
  Forall2 represents (timeline lg) vs ∧
  (∀ i j v w, (i <= j)%nat → vs !! i = Some v → vs !! j = Some w → extends w v) ∧
  Forall (λ s, ∃ v, v ∈ vs ∧ snapshot_of s v) (loaded lg).

Lemma sound_push lg vs d v v' :
  log_sound lg (v :: vs) → represents d v' → extends v v' →
  log_sound {| disk := d; past := timeline lg; loaded := loaded lg |} (v' :: v :: vs).
Proof.
  intros (Hr & He & Hl) Hd Hv. split; [by constructor|]. split.
  - intros [|i] [|j] w w' Hij Hw Hw'; cbn in Hw, Hw'; simplify_eq.
    + done.
    + etrans; [|exact Hv]. by apply (He 0%nat j); [lia|..].
    + lia.
    + apply (He i j); [lia|done..].
  - eapply Forall_impl; [exact Hl|]. intros s (u & Hu & Hs). exists u. split; [set_solver|done].
Qed.

Lemma represents_same d d' v : (∀ i, read d' recordType i = read d recordType i) → represents d v → represents d' v.
Proof.
  intros Hs. unfold represents, read_root, read_page. destruct v; rewrite ?Hs; [done..|].
  intros (? & ? & Hps). split_and!; [done..|]. intros i p Hp. rewrite Hs. by apply Hps.
Qed.

Lemma represents_entries d v : represents d v → Forall (λ x, parseEntry x = true) (view_items v).
Proof.
  destruct v as [|b l|ps]; cbn [represents view_items]; [done|by intros (_ & _ & ?%legacy_entries)|].
  intros (_ & _ & Hps). apply Forall_concat, Forall_lookup. intros i p Hp. by apply Hps, parse_segment_ok in Hp as [[_ ?] _].
Qed.

Lemma commit_step lg v vs s adds us rest :
  log_sound lg (v :: vs) → s ∈ loaded lg → proposes s adds us rest →
  let swap := compareAndSwapRecords (us ++ rest) (disk lg) in
  if swap.1 then snapshot_of s v ∧ ∃ v', represents swap.2 v' ∧ grown v v' ∧ view_items v' = view_items v ++ adds
  else swap.2 = disk lg.
Proof.
  intros (Hr & He & Hl) Hs (Hadds & Hne & Hf & Hp & Hnd & Hrest) swap.
  destruct swap.1 eqn:Hswap; [|by apply cas_fail].
  inversion Hr as [|? ? ? ? Hv Hvs]; subst. rewrite Forall_forall in Hl. destruct (Hl s Hs) as (w & Hw & Hsw).
  assert (extends w v) as Hext by (apply list_elem_of_lookup in Hw as [j Hj]; by apply (He 0%nat j); [lia|..]).
  assert (Forall (λ x, parseEntry x = true) (view_items w)) as Hwe.
  { apply list_elem_of_lookup in Hw as [j Hj]. destruct (Forall2_lookup_r _ _ _ j w Hr Hj) as (d & _ & Hd).
    by eapply represents_entries. }
  assert (appends w adds us (rootBytes s)) as Happ.
  { destruct w as [|b l|ps]; [| |destruct ps as [|p ps _] using rev_ind]; [..|by eapply prepare_paged].
    all: eapply prepare_flat; try done; apply Forall_app; split; [|done]; by rewrite (proj1 Hsw). }
  assert (v = w) as ->.
  { eapply snapshot_current; try done. destruct Happ as (e & ps1 & qs & -> & _).
    unfold swap in Hswap. rewrite cas_result in Hswap by done. unfold expectations_hold in Hswap.
    rewrite forallb_app, andb_true_iff in Hswap. destruct Hswap as [Hswap _]. unfold writes in Hswap.
    rewrite forallb_app, andb_true_iff in Hswap. destruct Hswap as [_ Hswap]. cbn in Hswap.
    by rewrite andb_true_r, bool_decide_eq_true in Hswap. }
  split; [done|]. destruct Hsw as [Hi _]. rewrite Hi in Hf. by eapply appends_commit.
Qed.

Lemma log_step_sound lg lg' v vs :
  log_sound lg (v :: vs) → log_step lg lg' → ∃ v' vs', log_sound lg' (v' :: vs') ∧ extends v v'.
Proof.
  intros Hs Hstep. pose proof Hs as (Hr & He & Hl). destruct Hstep as [r d k at_page s Hd Hk Hload|s adds us rest Hin Hp|d Hd].
  - exists v, vs. split; [|done]. split_and!; [done..|]. apply Forall_cons. split; [|done].
    destruct (Forall2_lookup_l _ _ _ _ _ Hr Hd) as (w & Hw & Hdw). exists w. split; [by eapply list_elem_of_lookup_2|].
    eapply load_exact; try done. intros i. destruct (Hk i) as [Hi Hati].
    destruct (Forall2_lookup_l _ _ _ _ _ Hr Hati) as (u & Hu & ?). exists u. split; [by eapply (He (k i) r)|done].
  - pose proof (commit_step _ _ _ _ _ _ _ Hs Hin Hp) as Hc. cbn zeta in Hc.
    inversion Hr as [|? ? ? ? Hv Hvs]; subst.
    destruct (compareAndSwapRecords _ _).1.
    + destruct Hc as (_ & v' & Hv' & Hg & _). exists v', (v :: vs). split; [|by right]. apply sound_push; [done..|by right].
    + rewrite Hc. exists v, (v :: vs). split; [|done]. by apply sound_push.
  - inversion Hr as [|? ? ? ? Hv Hvs]; subst. exists v, (v :: vs). split; [|done].
    apply sound_push; [done| |done]. by eapply represents_same.
Qed.

Lemma log_reachable_sound lg lg' v vs :
  log_sound lg (v :: vs) → rtc log_step lg lg' → ∃ v' vs', log_sound lg' (v' :: vs') ∧ extends v v'.
Proof.
  intros Hs H1. revert v vs Hs. induction H1 as [lg|lg1 lg2 lg3 H12 _ IH]; intros v vs Hs; [by exists v, vs|].
  destruct (log_step_sound _ _ _ _ Hs H12) as (v2 & vs2 & Hs2 & He). destruct (IH _ _ Hs2) as (v3 & vs3 & Hs3 & He3).
  exists v3, vs3. split; [done|]. by etrans.
Qed.

(** The evidence a store holds, loaded at rest. *)
Definition evidence (d : St) : res (list jsval) := items <$> loadReplayState d (λ _, d).

Lemma evidence_represents d v : represents d v → evidence d = Ok (view_items v).
Proof.
  intros Hd. destruct (load_total d v Hd) as [s Hs]. unfold evidence. rewrite Hs. cbn. f_equal.
  eapply (load_exact d (λ _, d)); [done| |done]. intros _. by exists v.
Qed.

(** The evidence is in the records of its type. *)
Lemma load_same d d' : (∀ i, read d' recordType i = read d recordType i) → loadReplayState d' (λ _, d') = loadReplayState d (λ _, d).
Proof.
  intros Hs. assert (∀ i, read_page d' i = read_page d i) as Hp by (intros i; apply Hs).
  unfold loadReplayState, read_root. rewrite Hs. destruct (read d recordType roomId) as [b|]; [|done].
  destruct (parseReplayRoot (Some b)) as [[root|]|]; [|done..].
  assert (∀ l : list nat, map (λ i, parseReplaySegment parseEntry (read_page d' (Z.of_nat i))) l =
    map (λ i, parseReplaySegment parseEntry (read_page d (Z.of_nat i))) l) as -> by (intros l; apply map_ext; intros; by rewrite Hp).
  assert (∀ o : option nat, (o ≫= λ i, read_page d' (Z.of_nat i)) = (o ≫= λ i, read_page d (Z.of_nat i))) as -> by (intros [n|]; [apply Hp|done]).
  done.
Qed.
Lemma evidence_same d d' : (∀ i, read d' recordType i = read d recordType i) → evidence d' = evidence d.
Proof. intros Hs. unfold evidence. by rewrite (load_same d d'). Qed.
(** A swap that holds an append based on the current evidence. *)
Lemma evidence_appended d s adds us rest all :
  loadReplayState d (λ _, d) = Ok s → Forall (λ v, parseEntry v = true) adds → adds ≠ [] → fits (items s ++ adds) →
  prepareReplayAppend s adds = Ok us → foreign rest → all ≡ₚ us ++ rest → NoDup (update_key <$> all) →
  (compareAndSwapRecords all d).1 = true → evidence (compareAndSwapRecords all d).2 = Ok (items s ++ adds).
Proof.
  intros Hs Hadds Hne Hf Hp Hrest Hperm Hnd Htrue. assert (fits (items s)) as Hf'.
  { unfold fits in *. rewrite length_app in Hf. lia. }
  destruct (load_represents _ _ Hs Hf') as (v & Hv & Hi).
  assert (snapshot_of s v) as Hsn by (eapply load_exact; [exact Hv| |exact Hs]; by intros ?; exists v).
  destruct (cas_perm all (us ++ rest) d Hperm Hnd) as [Hr Hreads]. rewrite Hperm in Hnd.
  pose proof (commit_step {| disk := d; past := []; loaded := [s] |} v [] s adds us rest) as Hc. cbn zeta in Hc. cbn [disk] in Hc.
  rewrite Hr, Htrue in Hc. destruct Hc as (_ & v' & Hv' & _ & Hi').
  - split_and!; [by repeat constructor| |].
    + intros [|i] [|j] x y Hij Hx Hy; cbn in Hx, Hy; by simplify_eq.
    + constructor; [|done]. exists v. by split; [left|].
  - by left.
  - by split_and!.
  - rewrite (evidence_same (compareAndSwapRecords (us ++ rest) d).2 (compareAndSwapRecords all d).2) by (intros; by rewrite Hreads).
    rewrite (evidence_represents _ v') by done. by rewrite Hi', Hi.
Qed.

(** C19: the replay evidence of a conversation is exact, however many tabs use it: reads that take the root and the pages
    one by one while others append, appends from snapshots of any age, the migration of the old format. Evidence is only
    ever added, every snapshot is a state the evidence went through, and an append commits only if its snapshot is still
    current, and then the evidence is the old one followed by the addition: nothing is evicted, lost to a concurrent
    append or stored twice. *)
Theorem replay_evidence_is_append_only d0 l0 lg :
  evidence d0 = Ok l0 → fits l0 → rtc log_step (start d0) lg →
  ∃ l, evidence (disk lg) = Ok l ∧ l0 `prefix_of` l ∧ Forall (λ s, items s `prefix_of` l) (loaded lg) ∧
    ∀ s adds us rest, s ∈ loaded lg → proposes s adds us rest →
      let swap := compareAndSwapRecords (us ++ rest) (disk lg) in
      if swap.1 then items s = l ∧ evidence swap.2 = Ok (l ++ adds) else swap.2 = disk lg.
Proof.
  intros Hl0 Hf Hrun. unfold evidence in Hl0. destruct (loadReplayState d0 (λ _, d0)) as [s0|] eqn:Hs0; [|done].
  injection Hl0 as Hl0. rewrite <-Hl0 in Hf. destruct (load_represents _ _ Hs0 Hf) as (v0 & Hv0 & Hi0).
  assert (log_sound (start d0) [v0]) as Hs.
  { split_and!; [by repeat constructor| |constructor]. intros [|i] [|j] v w Hij Hv Hw; cbn in Hv, Hw; by simplify_eq. }
  destruct (log_reachable_sound _ _ _ _ Hs Hrun) as (v & vs & Hsound & Hext). pose proof Hsound as (Hr & He & Hl).
  inversion Hr as [|? ? ? ? Hv Hvs]; subst. exists (view_items v). split_and!.
  - by apply evidence_represents.
  - rewrite <-Hi0. by apply extends_items.
  - eapply Forall_impl; [exact Hl|]. intros s (w & Hw & [-> _]). apply extends_items.
    apply list_elem_of_lookup in Hw as [j Hj]. by apply (He 0%nat j); [lia|..].
  - intros s adds us rest Hin Hp. pose proof (commit_step _ _ _ _ _ _ _ Hsound Hin Hp) as Hc. cbn zeta in *.
    destruct (compareAndSwapRecords _ _).1; [|done]. destruct Hc as ([Hi _] & v' & Hv' & _ & Hi'). split; [done|].
    rewrite (evidence_represents _ v') by done. by rewrite Hi'.
Qed.
End evidence.

(** ** The two kinds of evidence *)
Lemma exact_keys_two fs a b : a ≠ b → exact_keys fs [a; b] = true → get fs a ≠ JUndef → get fs b ≠ JUndef →
  ∃ x y, fs = [(a, x); (b, y)] ∨ fs = [(b, y); (a, x)].
Proof.
  intros Hab He Ha Hb. unfold exact_keys, keys in He. apply andb_true_iff in He as [Hl _]. apply bool_decide_eq_true in Hl.
  rewrite length_fmap in Hl. destruct fs as [|[k1 v1] [|[k2 v2] [|? ?]]]; try done.
  apply get_present in Ha, Hb. cbn in Ha, Hb.
  assert (k1 = a ∧ k2 = b ∨ k1 = b ∧ k2 = a) as [[-> ->]|[-> ->]] by set_solver.
  - exists v1, v2. by left.
  - exists v2, v1. by right.
Qed.

Lemma m1_entry_plain v : isM1ReplayEntry v = true → plain v = true.
Proof. by destruct v. Qed.

Lemma room_message_entry_plain v : isRoomMessageReplayEntry v = true → plain v = true.
Proof.
  destruct v as [| | | | | |fs]; try done. cbn [isRoomMessageReplayEntry]. intros He.
  apply andb_true_iff in He as [He Hc]. apply andb_true_iff in He as [Hk Hi].
  destruct (exact_keys_two fs "commitment" "id") as (x & y & [-> | ->]); try done.
  - intros E. by rewrite E in Hc.
  - intros E. by rewrite E in Hi.
  - cbn in Hc, Hi. by destruct x, y.
  - cbn in Hc, Hi. by destruct x, y.
Qed.

Lemma m1_legacy_entries b l : parseM1Seen b = Ok l → Forall (λ v, isM1ReplayEntry v = true) l.
Proof.
  unfold parseM1Seen. destruct b as [b|]; [|intros [= <-]; constructor]. destruct (parse b) as [v|]; [|done]. cbn [require mbind res_bind].
  destruct v as [| | | | | |fs]; try done. destruct (get fs "ids") as [| | | | |ids|]; try done. intros Hp. res_inv Hp. subst ids.
  apply orb_false_iff in Hp0 as [_ Hp0]. apply existsb_false in Hp0. eapply Forall_impl; [exact Hp0|].
  intros [| | | |s| |]; try done. cbn. apply negb_false_iff.
Qed.

Lemma room_message_legacy_entries b l : parseRoomMessageSeen b = Ok l → Forall (λ v, isRoomMessageReplayEntry v = true) l.
Proof.
  unfold parseRoomMessageSeen. destruct b as [b|]; [|intros [= <-]; constructor]. destruct (parse b) as [v|]; [|done]. cbn [require mbind res_bind].
  destruct v as [| | | | | |fs]; try done. destruct (get fs "events") as [| | | | |ids|]; try done. intros Hp. res_inv Hp. subst ids.
  apply orb_false_iff in Hp0 as [_ Hp0]. apply existsb_false in Hp0. eapply Forall_impl; [exact Hp0|].
  intros v. apply negb_false_iff.
Qed.

(** ** A migration from the old format, and an append based on a snapshot taken before it *)
Definition M1_SEEN_RECORD : string := "modern-seen-m1-v1".
Fixpoint repeat_char (n : nat) (c : ascii) : string := match n with O => EmptyString | S m => String c (repeat_char m c) end.
Definition demo_id (c : ascii) : jsval := JStr ("v1:" +:+ repeat_char 64 c).
Definition demo_disk : memory :=
  {[ (M1_SEEN_RECORD, "room") := asBytes (JObj [("version", JNum (NInt 1)); ("ids", JArr [demo_id "a"])]) ]}.
Notation m1_load := (loadReplayState M1_SEEN_RECORD "room" parseM1Seen isM1ReplayEntry).
Notation m1_append := (prepareReplayAppend M1_SEEN_RECORD "room").
Definition demo_snapshot : ReplayState :=
  match m1_load demo_disk (λ _, demo_disk) with
  | Ok s => s
  | Err _ => {| items := []; rootBytes := None; pageCount := 0; lastSegmentBytes := None; legacy := false |}
  end.
Definition demo_updates (c : ascii) : list SecureRecordUpdate :=
  match m1_append demo_snapshot [demo_id c] with Ok us => us | Err _ => [] end.
Definition demo_log : Log (St := memory) :=
  {| disk := (compareAndSwapRecords (demo_updates "b" ++ []) demo_disk).2; past := [demo_disk]; loaded := [demo_snapshot] |}.

Lemma demo_proposes c : c = "b"%char ∨ c = "c"%char →
  proposes M1_SEEN_RECORD "room" isM1ReplayEntry demo_snapshot [demo_id c] (demo_updates c) [].
Proof.
  intros [-> | ->]; (split; [by apply Forall_singleton; vm_compute|]; split; [done|]; split; [by vm_compute|];
    split; [by vm_compute|]; split; [|by constructor]; refine (proj1 (bool_decide_eq_true _) _); by vm_compute).
Qed.

Lemma demo_run : rtc (log_step M1_SEEN_RECORD "room" parseM1Seen isM1ReplayEntry) (start demo_disk) demo_log.
Proof.
  eapply rtc_l; [apply (log_load _ _ _ _ _ 0 demo_disk (λ _, 0%nat) (λ _, demo_disk) demo_snapshot)|].
  - done.
  - intros i. by split.
  - by vm_compute.
  - eapply rtc_l; [|apply rtc_refl]. refine (log_commit _ _ _ _ {| disk := demo_disk; past := []; loaded := [demo_snapshot] |} demo_snapshot [demo_id "b"] (demo_updates "b") [] _ _).
    + by left.
    + apply demo_proposes. by left.
Qed.

Lemma replay_evidence_is_append_only_witness :
  (compareAndSwapRecords (demo_updates "c" ++ []) (disk demo_log)).2 = disk demo_log ∧
  ∃ l, evidence M1_SEEN_RECORD "room" parseM1Seen isM1ReplayEntry (disk demo_log) = Ok l ∧ [demo_id "a"] `prefix_of` l.
Proof.
  destruct (replay_evidence_is_append_only M1_SEEN_RECORD "room" parseM1Seen isM1ReplayEntry m1_entry_plain m1_legacy_entries
    demo_disk [demo_id "a"] demo_log) as (l & Hl & Hp & _ & Hc).
  - by vm_compute.
  - by vm_compute.
  - apply demo_run.
  - split; [|by exists l].
    specialize (Hc demo_snapshot [demo_id "c"] (demo_updates "c") [] (list_elem_of_here _ _) (demo_proposes "c" (or_intror eq_refl))).
    cbn zeta in Hc. assert ((compareAndSwapRecords (demo_updates "c" ++ []) (disk demo_log)).1 = false) as E by by vm_compute.
    by rewrite E in Hc.
Defined.
