(* ===== verification/Vault.v ===== *)
(** * The client's storage as one tab uses it ([core/contracts.ts], the [SecureStorage] port)

    Every access is asynchronous: before access number [n], [others n] is what other tabs and other parts of the client
    committed meanwhile, and [fault n] says whether the access is served, refused, or carried out although its completion
    is reported as a failure. [World] is that storage with the memory of the tab; the components that keep state in memory
    ([Ratchet], [Outbox], [Inbound]) instantiate the memory. *)
From S2P Require Import Prelude Json Storage.

(** ** [try], [catch] and [finally] *)
Definition catch_ {S A} (m : M S A) (h : string → M S A) : M S A :=
  λ s, match m s with (Ok a, s') => (Ok a, s') | (Err e, s') => h e s' end.
Definition finally_ {S A} (m : M S A) (f : S → S) : M S A := λ s, let '(r, s') := m s in (r, f s').
(** [try { m } catch { throw new Error(msg) }] *)
Definition rethrow_as {S A} (m : M S A) (msg : string) : M S A := catch_ m (λ _, throw msg).
(** [try { m } catch { }] *)
Definition swallow {S} (m : M S unit) : M S unit := catch_ m (λ _, mret tt).
Definition fail_if {S} (b : bool) (msg : string) : M S unit := lift (throw_if b msg).
Definition when {S} (b : bool) (m : M S unit) : M S unit := if b then m else mret tt.
Definition require_ {S A} (o : option A) (msg : string) : M S A := lift (require o msg).

Lemma bind_run {S A B} (m : M S A) (k : A → M S B) s a s' : m s = (Ok a, s') → (m ≫= k) s = k a s'.
Proof. unfold mbind, M_bind. by intros ->. Qed.

Lemma run_result {S A} (run : res A * S) x : run.1 = x → run = (x, run.2).
Proof. by destruct run; intros <-. Qed.
Lemma bind_bind {S A B C} (m : M S A) (k : A → M S B) (l : B → M S C) s : ((m ≫= k) ≫= l) s = (m ≫= λ a, k a ≫= l) s.
Proof. unfold mbind, M_bind. by destruct (m s) as [[a|e] s1]. Qed.

Lemma bind_ok_run {S A B} (m : M S A) (k : A → M S B) s b s' :
  (m ≫= k) s = (Ok b, s') → ∃ a s1, m s = (Ok a, s1) ∧ k a s1 = (Ok b, s').
Proof. intros [?|(? & _ & ?)]%bind_cases; done. Qed.
Lemma fail_if_run {S} b msg (s : S) u s' : fail_if b msg s = (Ok u, s') → b = false ∧ s' = s.
Proof. unfold fail_if, lift. destruct b; [done|]. by intros [= _ <-]. Qed.

Lemma lift_run {S A} (r : res A) (s : S) a s' : lift r s = (Ok a, s') → r = Ok a ∧ s' = s.
Proof. unfold lift. by intros [= -> <-]. Qed.

Lemma catch_cases {S A} (m : M S A) h s x s' :
  catch_ m h s = (x, s') → (∃ a, m s = (Ok a, s') ∧ x = Ok a) ∨ ∃ e s1, m s = (Err e, s1) ∧ h e s1 = (x, s').
Proof. unfold catch_. destruct (m s) as [[a|e] s1]; [intros [= <- <-]|]; eauto. Qed.

Lemma catch_ok {S A} (m : M S A) h s a s' : m s = (Ok a, s') → catch_ m h s = (Ok a, s').
Proof. unfold catch_. by intros ->. Qed.

Lemma finally_cases {S A} (m : M S A) f s x s' : finally_ m f s = (x, s') → ∃ s1, m s = (x, s1) ∧ s' = f s1.
Proof. unfold finally_. destruct (m s) as [r s1]. intros [= <- <-]. eauto. Qed.

Section always.
Context {S : Type} (R : S → S → Prop) `{!PreOrder R}.
Lemma always_catch {A} (m : M S A) h : always R m → (∀ e, always R (h e)) → always R (catch_ m h).
Proof.
  intros Hm Hh s x s' [(a & Hr & ->)|(e & s1 & Hr & Hr')]%catch_cases; [by eapply Hm|].
  etrans; [by eapply Hm|by eapply Hh].
Qed.
Lemma always_finally {A} (m : M S A) f : always R m → (∀ s, R s (f s)) → always R (finally_ m f).
Proof. intros Hm Hf s x s' (s1 & Hr & ->)%finally_cases. etrans; [by eapply Hm|apply Hf]. Qed.
Lemma always_if {A} (b : bool) (m n : M S A) : always R m → always R n → always R (if b then m else n).
Proof. by destruct b. Qed.
Lemma always_when b (m : M S unit) : always R m → always R (when b m).
Proof. destruct b; [done|]. intros _. by apply always_mret. Qed.
End always.
#[export] Hint Resolve always_catch always_finally always_if always_when : k3.

(** ** Triples: from [P], a computation that returns ends in [Q], one that throws in [E] *)
Definition triple {S A} (P : S → Prop) (m : M S A) (Q : A → S → Prop) (E : string → S → Prop) : Prop :=
  ∀ s, P s → match m s with (Ok a, s') => Q a s' | (Err e, s') => E e s' end.

Section triples.
Context {S : Type}.
Implicit Types (P : S → Prop) (E : string → S → Prop).

Lemma triple_weaken {A} (P P' : S → Prop) (m : M S A) (Q Q' : A → S → Prop) (E E' : string → S → Prop) :
  triple P' m Q' E' → (∀ s, P s → P' s) → (∀ a s, Q' a s → Q a s) → (∀ e s, E' e s → E e s) → triple P m Q E.
Proof. intros Hm HP HQ HE s Hs. specialize (Hm s (HP s Hs)). destruct (m s) as [[a|e] s']; auto. Qed.
Lemma triple_pre {A} (P P' : S → Prop) (m : M S A) Q E : triple P' m Q E → (∀ s, P s → P' s) → triple P m Q E.
Proof. intros Hm HP. by eapply triple_weaken. Qed.
Lemma triple_bind {A B} P (m : M S A) (k : A → M S B) R Q E :
  triple P m R E → (∀ a, triple (R a) (k a) Q E) → triple P (m ≫= k) Q E.
Proof.
  intros Hm Hk s Hs. specialize (Hm s Hs). unfold mbind, M_bind. destruct (m s) as [[a|e] s1]; [|done]. by apply Hk.
Qed.
Lemma triple_ret {A} (a : A) (Q : A → S → Prop) E : triple (Q a) (mret a) Q E.
Proof. by intros s. Qed.
Lemma triple_throw {A} e (Q : A → S → Prop) E : triple (E e) (throw e) Q E.
Proof. by intros s. Qed.
Lemma triple_catch {A} P (m : M S A) h Q F E : triple P m Q F → (∀ e, triple (F e) (h e) Q E) → triple P (catch_ m h) Q E.
Proof.
  intros Hm Hh s Hs. specialize (Hm s Hs). unfold catch_. destruct (m s) as [[a|e] s1]; [done|]. by apply Hh.
Qed.
Lemma triple_finally {A} P (m : M S A) f (Q : A → S → Prop) E :
  triple P m (λ a s, Q a (f s)) (λ e s, E e (f s)) → triple P (finally_ m f) Q E.
Proof. intros Hm s Hs. specialize (Hm s Hs). unfold finally_. by destruct (m s) as [[a|e] s1]. Qed.
Lemma triple_gets {A} (f : S → A) P E : triple P (gets f) (λ a s, a = f s ∧ P s) E.
Proof. by intros s. Qed.
Lemma triple_modify f (Q : unit → S → Prop) E : triple (λ s, Q tt (f s)) (modify f) Q E.
Proof. by intros s. Qed.
Lemma triple_lift {A} (r : res A) P (Q : A → S → Prop) (E : string → S → Prop) :
  (∀ a s, r = Ok a → P s → Q a s) → (∀ e s, r = Err e → P s → E e s) → triple P (lift r) Q E.
Proof. intros HQ HE s Hs. unfold lift. destruct r as [a|e]; auto. Qed.
Lemma triple_fail_if b msg P E : (∀ s, b = true → P s → E msg s) → triple P (fail_if b msg) (λ _ s, b = false ∧ P s) E.
Proof. intros HE. apply triple_lift; destruct b; try done; intros e s [= <-]. by apply HE. Qed.
Lemma triple_require {A} (o : option A) msg P (E : string → S → Prop) :
  (∀ s, o = None → P s → E msg s) → triple P (require_ o msg) (λ a s, o = Some a ∧ P s) E.
Proof. intros HE. apply triple_lift; destruct o; try done; intros e s [= <-]; [done|]. by apply HE. Qed.
Lemma triple_if {A} (b : bool) P (m n : M S A) Q E :
  (b = true → triple P m Q E) → (b = false → triple P n Q E) → triple P (if b then m else n) Q E.
Proof. destruct b; auto. Qed.
Lemma triple_when (b : bool) P (m : M S unit) Q E :
  (b = true → triple P m Q E) → (b = false → ∀ s, P s → Q tt s) → triple P (when b m) Q E.
Proof. destruct b; cbn; intros Hm Hn; [by apply Hm|]. intros s Hs. by apply Hn. Qed.
(** facts the precondition carries *)
Lemma triple_pure {A} (F : Prop) P (m : M S A) Q E : (F → triple P m Q E) → triple (λ s, F ∧ P s) m Q E.
Proof. intros Hm s [HF Hs]. by apply Hm. Qed.
Lemma triple_exists {A B} (P : B → S → Prop) (m : M S A) Q E : (∀ b, triple (P b) m Q E) → triple (λ s, ∃ b, P b s) m Q E.
Proof. intros Hm s [b Hs]. by eapply Hm. Qed.
(** the run a triple speaks of *)
Lemma triple_run {A} P (m : M S A) Q E s x s' : triple P m Q E → P s → m s = (x, s') →
  match x with Ok a => Q a s' | Err e => E e s' end.
Proof. intros Hm Hs Hr. specialize (Hm s Hs). rewrite Hr in Hm. by destruct x. Qed.
End triples.

(** what a triple already says *)
Ltac keep := let Hw := fresh "Hw" in first [intros ? Hw; exact Hw | intros ? ? Hw; exact Hw].
Tactic Notation "use_triple" uconstr(t) := eapply triple_weaken; [apply t|keep|keep|keep].

(** ** Storage and memory of a tab *)
Inductive Io := io_done | io_refused | io_unacknowledged.

Record World (St T : Type) := { disk : St; tick : nat; mem : T }.
Arguments disk {St T} _.
Arguments tick {St T} _.
Arguments mem {St T} _.

Definition io_error : string := "The vault is unavailable.".

Section vault.
Context `{SecureStorageLaws St} {T : Type} (others : nat → St → St) (fault : nat → Io).
Notation W := (World St T).

Definition with_mem (f : T → T) (w : W) : W := {| disk := disk w; tick := tick w; mem := f (mem w) |}.
Definition update_mem (f : T → T) : M W unit := modify (with_mem f).
Definition get_mem {A} (f : T → A) : M W A := gets (λ w, f (mem w)).

Definition access {A} (f : St → res A * St) : M W A := λ w,
  let d := others (tick w) (disk w) in
  let '(r, d') := f d in
  match fault (tick w) with
  | io_done => (r, {| disk := d'; tick := S (tick w); mem := mem w |})
  | io_refused => (Err io_error, {| disk := d; tick := S (tick w); mem := mem w |})
  | io_unacknowledged => (Err io_error, {| disk := d'; tick := S (tick w); mem := mem w |})
  end.

Definition read_ (t i : string) : M W (option string) := access (λ d, (Ok (read d t i), d)).
Definition write_ (t i v : string) : M W unit := access (λ d, (Ok tt, write t i v d)).
Definition delete_ (t i : string) : M W unit := access (λ d, (Ok tt, delete_record t i d)).
Definition swap_ (us : list SecureRecordUpdate) : M W bool :=
  access (λ d, let '(b, d') := compareAndSwapRecords us d in (Ok b, d')).

(** ** What an access can do *)
(** the storage after accesses [n], ..., [n + k - 1] that changed nothing *)
Definition drifted (n k : nat) (d : St) : St := foldl (λ d m, others m d) d (seq n k).
(** only others wrote to the storage *)
Definition drift (w w' : W) : Prop := ∃ k, tick w' = (tick w + k)%nat ∧ disk w' = drifted (tick w) k (disk w).

#[export] Instance drift_preorder : PreOrder drift.
Proof.
  split.
  - intros w. exists 0%nat. split; [lia|done].
  - intros w1 w2 w3 (k1 & Ht1 & Hd1) (k2 & Ht2 & Hd2). exists (k1 + k2)%nat. split; [lia|].
    unfold drifted in *. by rewrite seq_app, foldl_app, Hd2, Hd1, Ht1.
Qed.

Lemma drift_access (w : W) : drift w {| disk := others (tick w) (disk w); tick := S (tick w); mem := mem w |}.
Proof. exists 1%nat. cbn. split; [lia|done]. Qed.

Lemma drift_still (w w' : W) : disk w' = disk w → tick w' = tick w → drift w w'.
Proof. intros Hd Ht. exists 0%nat. rewrite Hd, Ht. split; [lia|done]. Qed.
Lemma drift_mem f (w : W) : drift w (with_mem f w).
Proof. exists 0%nat. cbn. split; [lia|done]. Qed.

Lemma read_cases t i w x w' : read_ t i w = (x, w') →
  drift w w' ∧ mem w' = mem w ∧ (x = Err io_error ∨ x = Ok (read (disk w') t i)).
Proof.
  unfold read_, access. destruct (fault (tick w)); intros [= <- <-]; (split; [apply drift_access|]); split; auto.
Qed.

Lemma always_read t i : always drift (read_ t i).
Proof. intros w x w' (Hd & _)%read_cases. done. Qed.
Lemma always_update_mem f : always drift (update_mem f).
Proof. intros w x w' [= _ <-]. apply drift_mem. Qed.
Lemma always_get_mem {A} (f : T → A) : always drift (get_mem f).
Proof. by apply always_gets, _. Qed.

(** A change to the storage, whose outcome may be unknown to the caller. *)
Lemma write_cases t i v w x w' : write_ t i v w = (x, w') →
  mem w' = mem w ∧ ((x = Err io_error ∧ drift w w') ∨
    (x = Ok tt ∨ x = Err io_error) ∧ ∃ w1, drift w w1 ∧ disk w' = write t i v (disk w1) ∧ tick w' = tick w1).
Proof.
  unfold write_, access. destruct (fault (tick w)); intros [= <- <-]; (split; [done|]).
  - right. split; [by left|]. eexists. split; [apply drift_access|done].
  - left. split; [done|apply drift_access].
  - right. split; [by right|]. eexists. split; [apply drift_access|done].
Qed.

Lemma delete_cases t i w x w' : delete_ t i w = (x, w') →
  mem w' = mem w ∧ ((x = Err io_error ∧ drift w w') ∨
    (x = Ok tt ∨ x = Err io_error) ∧ ∃ w1, drift w w1 ∧ disk w' = delete_record t i (disk w1) ∧ tick w' = tick w1).
Proof.
  unfold delete_, access. destruct (fault (tick w)); intros [= <- <-]; (split; [done|]).
  - right. split; [by left|]. eexists. split; [apply drift_access|done].
  - left. split; [done|apply drift_access].
  - right. split; [by right|]. eexists. split; [apply drift_access|done].
Qed.

(** The updates [us] were committed in one step between [w] and [w']. *)
Definition committed (us : list SecureRecordUpdate) (w w' : W) : Prop :=
  ∃ w1 w2, drift w w1 ∧ (compareAndSwapRecords us (disk w1)).1 = true ∧
    disk w2 = (compareAndSwapRecords us (disk w1)).2 ∧ tick w2 = tick w1 ∧ drift w2 w'.

(** an access so far was carried out although its completion was reported as a failure *)
Definition unacknowledged (w : W) : Prop := ∃ n, (n < tick w)%nat ∧ fault n = io_unacknowledged.
(** and after one, another access was not served *)
Definition unacknowledged_then_faulty : Prop := ∃ n m, (n < m)%nat ∧ fault n = io_unacknowledged ∧ fault m ≠ io_done.

Lemma swap_cases us w x w' : swap_ us w = (x, w') →
  mem w' = mem w ∧
  ((drift w w' ∧ (x = Ok false ∨ x = Err io_error)) ∨
   (committed us w w' ∧ (x = Ok true ∨ x = Err io_error ∧ unacknowledged w'))).
Proof.
  unfold swap_, access. set (d := others (tick w) (disk w)).
  destruct (compareAndSwapRecords us d) as [b d'] eqn:E.
  set (w1 := {| disk := d; tick := S (tick w); mem := mem w |}). pose proof (drift_access w : drift w w1) as Hw1.
  assert (b = false → d' = d) as Hf by (intros ->; pose proof (cas_fail d us) as Hc; rewrite E in Hc; by apply Hc).
  assert (b = true → committed us w {| disk := d'; tick := S (tick w); mem := mem w |}) as Hc.
  { intros ->. exists w1, {| disk := d'; tick := S (tick w); mem := mem w |}. change (disk w1) with d. by rewrite E. }
  destruct (fault (tick w)) eqn:Ef; intros [= <- <-]; (split; [done|]); destruct b; auto; rewrite ?Hf by done; auto.
  right. split; [by apply Hc|]. right. split; [done|]. exists (tick w). split; [cbn; lia|done].
Qed.

Lemma drift_unacknowledged w w' : drift w w' → unacknowledged w → unacknowledged w'.
Proof. intros (k & Hk & _) (n & ? & ?). exists n. split; [lia|done]. Qed.

Lemma read_fault t i w e w' : read_ t i w = (Err e, w') → fault (tick w) ≠ io_done.
Proof. unfold read_, access. by destruct (fault (tick w)). Qed.

Lemma committed_drift_l us w0 w w' : drift w0 w → committed us w w' → committed us w0 w'.
Proof. intros Hd (w1 & w2 & ? & ?). exists w1, w2. split; [by etrans|done]. Qed.
Lemma committed_drift_r us w w' w'' : committed us w w' → drift w' w'' → committed us w w''.
Proof. intros (w1 & w2 & ? & ? & ? & ? & ?) Hd. exists w1, w2. split_and!; try done. by etrans. Qed.

(** Records nobody else touches. *)
Lemma drift_read t i w w' : (∀ n d, read (others n d) t i = read d t i) → drift w w' → read (disk w') t i = read (disk w) t i.
Proof.
  intros Ho (k & _ & ->). unfold drifted. generalize (tick w). induction k as [|k IH] using nat_ind; intros n; [done|].
  rewrite seq_S, foldl_app. cbn. by rewrite Ho, IH.
Qed.

Lemma drift_invariant (P : St → Prop) w w' : (∀ n d, P d → P (others n d)) → drift w w' → P (disk w) → P (disk w').
Proof.
  intros Ho (k & _ & ->) Hp. unfold drifted. generalize (tick w). induction k as [|k IH] using nat_ind; intros n; [done|].
  rewrite seq_S, foldl_app. cbn. by apply Ho, IH.
Qed.

(** a committed record holds its new value, if nobody else touches it *)
Lemma committed_read us u w w' :
  NoDup (update_key <$> us) → u ∈ us →
  (∀ n d, read (others n d) (recordType u) (recordId u) = read d (recordType u) (recordId u)) →
  committed us w w' → read (disk w) (recordType u) (recordId u) = expected u ∧ read (disk w') (recordType u) (recordId u) = Some (next u).
Proof.
  intros Hnd Hu Ho (w1 & w2 & Hd1 & Hc & Hd2 & _ & Hd3). split.
  - rewrite <-(drift_read _ _ _ _ Ho Hd1). rewrite cas_result in Hc by done. unfold expectations_hold in Hc.
    rewrite forallb_forall in Hc. specialize (Hc u). rewrite <-list_elem_of_In, bool_decide_eq_true in Hc. by apply Hc.
  - rewrite (drift_read _ _ _ _ Ho Hd3), Hd2. by apply cas_written.
Qed.

(** ** Triples for the accesses *)
(** what others do to the storage cannot break [P] *)
Definition stable (P : W → Prop) : Prop := ∀ w w', P w → drift w w' → mem w' = mem w → P w'.

Lemma triple_read t i P : stable P → triple P (read_ t i) (λ x w, x = read (disk w) t i ∧ P w) (λ _ w, P w).
Proof.
  intros Hs w Hw. destruct (read_ t i w) as [x w'] eqn:E. apply read_cases in E as (Hd & Hm & [-> | ->]); [|split; [done|]];
    by eapply Hs.
Qed.

Lemma triple_swap us P : stable P →
  triple P (swap_ us)
    (λ b w, if b then ∃ w1, P w1 ∧ committed us w1 w ∧ mem w = mem w1 else P w)
    (λ _ w, P w ∨ (∃ w1, P w1 ∧ committed us w1 w ∧ mem w = mem w1) ∧ unacknowledged w).
Proof.
  intros Hs w Hw. destruct (swap_ us w) as [x w'] eqn:E.
  apply swap_cases in E as (Hm & [[Hd [-> | ->]]|[Hc [-> | [-> Hu]]]]).
  - by eapply Hs.
  - left. by eapply Hs.
  - by exists w.
  - right. split; [|done]. by exists w.
Qed.

(** a read that fails after a change that was not acknowledged *)
Lemma triple_read_unacknowledged t i P : stable P → (∀ w, P w → unacknowledged w) →
  triple P (read_ t i) (λ x w, x = read (disk w) t i ∧ P w) (λ _ w, P w ∧ unacknowledged_then_faulty).
Proof.
  intros Hs Hu w Hw. pose proof (triple_read t i P Hs w Hw) as Hr. destruct (read_ t i w) as [[x|e] w'] eqn:E; [done|].
  split; [done|]. destruct (Hu w Hw) as (n & Hn & Hf). exists n, (tick w). split; [done|]. split; [done|]. by eapply read_fault.
Qed.

Lemma triple_update_mem f P : triple (λ w, P (with_mem f w)) (update_mem f) (λ _ w, P w) (λ _ _, False).
Proof. by intros w. Qed.

Lemma triple_get_mem {A} (f : T → A) P : triple P (get_mem f) (λ a w, a = f (mem w) ∧ P w) (λ _ _, False).
Proof. by intros w. Qed.

(** a write or a removal, whose outcome may be unknown *)
Lemma triple_change (m : M W unit) (g : St → St) P Q :
  (∀ w x w', m w = (x, w') → mem w' = mem w ∧ ((x = Err io_error ∧ drift w w') ∨
    (x = Ok tt ∨ x = Err io_error) ∧ ∃ w1, drift w w1 ∧ disk w' = g (disk w1) ∧ tick w' = tick w1)) →
  stable P → (∀ w w', P w → disk w' = g (disk w) → mem w' = mem w → Q w') →
  triple P m (λ _ w, Q w) (λ _ w, P w ∨ Q w).
Proof.
  intros Hm Hs HQ w Hw. destruct (m w) as [x w'] eqn:E. apply Hm in E as (Hmem & [[-> Hd]|[Hx (w1 & Hd & Hg & Ht)]]).
  - left. by eapply Hs.
  - assert (Q w') as Hq.
    { apply (HQ {| disk := disk w1; tick := tick w1; mem := mem w |}); [|done..].
      apply (Hs w); [done| |done]. destruct Hd as (k & Hk & Hdk). by exists k. }
    destruct Hx as [-> | ->]; auto.
Qed.
End vault.
#[export] Hint Resolve always_read always_update_mem always_get_mem : k3.
