(* ===== verification/CallState.v ===== *)
(** * Calls: sessions, their state machine and the call service

    [calls/contracts.ts], [stateMachine.ts], [callSecurityPolicy.ts], [permissions.ts],
    [authorization.ts], [repository.ts], [eventProcessor.ts] and [service.ts]. *)
From S2P Require Import Prelude Json.

(** ** Data *)
(* service/src/calls/contracts.ts:1-1 CallState *)
Inductive CallState :=
| idle | inviting | ringing | accepted | connecting | connected | reconnecting
| ended | rejected | cancelled | expired | failed.
#[export] Instance CallState_eq_dec : EqDecision CallState.
Proof. solve_decision. Defined.

(* service/src/calls/contracts.ts:2-2 CallParticipant['verification'] *)
Inductive Verification := v_unknown | v_unverified | v_verified | v_changed_pending_review.
#[export] Instance Verification_eq_dec : EqDecision Verification.
Proof. solve_decision. Defined.

(* service/src/calls/contracts.ts:2-2 CallParticipant *)
Record CallParticipant := { participantId : string; identityId : string; verification : Verification }.
(* service/src/calls/contracts.ts:3-3 CallMediaMode *)
Inductive CallMediaMode := audio | video.
#[export] Instance CallMediaMode_eq_dec : EqDecision CallMediaMode.
Proof. solve_decision. Defined.

(* service/src/calls/contracts.ts:4-4 CallSession *)
Record CallSession := {
  callId : string; conversationId : string; participants : CallParticipant * CallParticipant;
  mediaMode : CallMediaMode; state : CallState; createdAt : Z; updatedAt : Z; expiresAt : Z;
  identityBinding : string }.

(* service/src/calls/contracts.ts:5-5 CallEvent *)
Inductive CallEvent :=
| e_invite | e_accept | e_reject | e_cancel | e_connect | e_connected | e_reconnect | e_end
| e_expire | e_fail | e_heartbeat.
#[export] Instance CallEvent_eq_dec : EqDecision CallEvent.
Proof. solve_decision. Defined.

(* service/src/calls/callSecurityPolicy.ts:1-1 CallSecurityPolicy *)
Record CallSecurityPolicy := {
  invitationLifetimeMs : Z; heartbeatTimeoutMs : Z; maxParticipants : Z; maxSequenceGap : Z }.
(* service/src/calls/callSecurityPolicy.ts:2-2 DEFAULT_CALL_SECURITY_POLICY *)
Definition DEFAULT_CALL_SECURITY_POLICY : CallSecurityPolicy :=
  {| invitationLifetimeMs := 60000; heartbeatTimeoutMs := 30000; maxParticipants := 2; maxSequenceGap := 1 |}.
(* service/src/calls/callSecurityPolicy.ts:4-4 CALL_SIGNAL_LIFETIME_MS *)
Definition CALL_SIGNAL_LIFETIME_MS : Z := 60000.

(* service/src/calls/callSecurityPolicy.ts:7-11 validateCallPolicy *)
Definition validateCallPolicy (policy : CallSecurityPolicy) : res unit :=
  throw_if (negb (isSafeInteger (invitationLifetimeMs policy)) || (invitationLifetimeMs policy <? 1000) ||
            (86400000 <? invitationLifetimeMs policy)) "Invalid call invitation lifetime.";;
  throw_if (negb (isSafeInteger (heartbeatTimeoutMs policy)) || (heartbeatTimeoutMs policy <? 1000) ||
            (300000 <? heartbeatTimeoutMs policy)) "Invalid call heartbeat timeout.";;
  throw_if (negb (maxParticipants policy =? 2) || negb (isSafeInteger (maxSequenceGap policy)) ||
            (maxSequenceGap policy <? 0)) "Invalid call policy.".

(** ** The state machine *)
(* service/src/calls/stateMachine.ts:3-5 transitions *)
Definition transitions (s : CallState) (e : CallEvent) : option CallState :=
  match s, e with
  | idle, e_invite => Some inviting
  | inviting, e_invite => Some ringing
  | inviting, e_accept | ringing, e_accept => Some accepted
  | inviting, e_reject | ringing, e_reject => Some rejected
  | (inviting | ringing | accepted | connecting), e_cancel => Some cancelled
  | (inviting | ringing | accepted | connecting), e_expire => Some expired
  | (inviting | ringing | accepted | connecting | connected | reconnecting), e_fail => Some failed
  | accepted, e_connect | reconnecting, e_connect => Some connecting
  | connecting, e_connected => Some connected
  | connected, e_heartbeat => Some connected
  | connected, e_reconnect => Some reconnecting
  | connected, e_end | reconnecting, e_end => Some ended
  | _, _ => None
  end.

(* service/src/calls/stateMachine.ts:6-6 terminal *)
Definition terminal (s : CallState) : bool :=
  bool_decide (s ∈ [ended; rejected; cancelled; expired; failed]).
(* service/src/calls/stateMachine.ts:7-7 invitationBound *)
Definition invitationBound (s : CallState) : bool :=
  bool_decide (s ∈ [idle; inviting; ringing; accepted; connecting]).

Definition with_state (session : CallSession) (st : CallState) (now : Z) : CallSession :=
  {| callId := callId session; conversationId := conversationId session; participants := participants session;
     mediaMode := mediaMode session; state := st; createdAt := createdAt session; updatedAt := now;
     expiresAt := expiresAt session; identityBinding := identityBinding session |}.

(* service/src/calls/stateMachine.ts:8-16 transitionCall *)
Definition transitionCall (session : CallSession) (event : CallEvent) (now : Z) (policy : CallSecurityPolicy)
    : res CallSession :=
  if decide (event = e_heartbeat) then
    mret (if bool_decide (state session = connected) && (now - updatedAt session <=? heartbeatTimeoutMs policy)
          then with_state session (state session) now else session)
  else
  throw_if (bool_decide (event = e_expire) && (now <? expiresAt session)) "Call has not expired.";;
  throw_if (negb (bool_decide (event = e_expire)) && invitationBound (state session) && (expiresAt session <=? now))
    "Call has expired.";;
  throw_if (terminal (state session)) "Invalid call transition.";;
  next ← require (transitions (state session) event) "Invalid call transition.";
  mret (with_state session next now).

(** ** Device permissions of a call *)
(* service/src/calls/contracts.ts:6-6 PermissionState *)
Inductive PermissionState := p_unknown | p_requested | p_granted | p_active | p_released | p_denied.
#[export] Instance PermissionState_eq_dec : EqDecision PermissionState.
Proof. solve_decision. Defined.
(* service/src/calls/contracts.ts:7-7 CallPermissions *)
Record CallPermissions := { microphone : PermissionState; camera : PermissionState }.
Inductive PermissionDevice := d_microphone | d_camera.

(* service/src/calls/permissions.ts:2-2 allowed *)
Definition allowed (p : PermissionState) : list PermissionState :=
  match p with
  | p_unknown => [p_requested]
  | p_requested => [p_granted; p_denied]
  | p_granted => [p_active; p_released]
  | p_active => [p_released]
  | p_released => [p_requested]
  | p_denied => [p_requested]
  end.

Definition permission (p : CallPermissions) (d : PermissionDevice) : PermissionState :=
  match d with d_microphone => microphone p | d_camera => camera p end.

(* service/src/calls/permissions.ts:3-6 transitionPermission *)
Definition transitionPermission (p : CallPermissions) (d : PermissionDevice) (next : PermissionState) : res CallPermissions :=
  throw_if (negb (bool_decide (next ∈ allowed (permission p d)))) "Invalid permission transition.";;
  mret match d with
       | d_microphone => {| microphone := next; camera := camera p |}
       | d_camera => {| microphone := microphone p; camera := next |}
       end.
(* service/src/calls/permissions.ts:7-7 initialCallPermissions *)
Definition initialCallPermissions : CallPermissions := {| microphone := p_unknown; camera := p_unknown |}.

(** ** Authorization: [CallIdentityVerifier] is the interface it consults *)
(* service/src/calls/contracts.ts:9-13 CallIdentityVerifier *)
Class CallIdentityVerifier := {
  isParticipant : string → string → bool;
  getVerification : string → Verification }.

(* service/src/calls/authorization.ts:5-12 CallAuthorization.assertParticipant *)
Definition assertParticipant `{CallIdentityVerifier} (session : CallSession) (participant : CallParticipant) : res unit :=
  throw_if (negb (String.eqb (participantId (participants session).1) (participantId participant)) &&
            negb (String.eqb (participantId (participants session).2) (participantId participant)))
    "Unauthorized call participant.";;
  throw_if (negb (isParticipant (conversationId session) (participantId participant))) "Unauthorized call participant.";;
  let v := getVerification (participantId participant) in
  throw_if (bool_decide (v = v_changed_pending_review)) "Call identity requires review.";;
  throw_if (negb (bool_decide (v = v_verified))) "Verification required for calls.";;
  throw_if (negb (bool_decide (v = verification participant))) "Call identity binding changed.".

(* service/src/calls/authorization.ts:13-13 CallAuthorization.assertSession *)
Definition assertSession `{CallIdentityVerifier} (session : CallSession) : res unit :=
  throw_if (String.eqb (participantId (participants session).1) (participantId (participants session).2))
    "Invalid call participants.";;
  assertParticipant session (participants session).1;;
  assertParticipant session (participants session).2.

(** ** The repository, the event processor and the service *)
Notation CallRepository := (gmap string CallSession).
(* service/src/calls/repository.ts:5-5 MemoryCallRepository.save *)
Definition save (session : CallSession) (r : CallRepository) : CallRepository := <[callId session := session]> r.

(** One call of [process], as its queue runs it: the read, the transition and the write. *)
(* service/src/calls/eventProcessor.ts:7-20 CallEventProcessor.process *)
Definition process (id : string) (event : CallEvent) (now : Z) : M CallRepository CallSession :=
  found ← gets (.!! id);
  session ← lift (require found "Unknown call.");
  updated ← lift (transitionCall session event now DEFAULT_CALL_SECURITY_POLICY);
  modify (save updated);;
  mret updated.

Section service.
Context `{CallIdentityVerifier} (policy : CallSecurityPolicy).

(** [uuid] is the value [generateUUID()] returns. *)
(* service/src/calls/service.ts:11-11 CallService.invite *)
Definition invite (uuid conversation : string) (ps : CallParticipant * CallParticipant) (binding : string)
    (mode : CallMediaMode) (now : Z) : M CallRepository CallSession :=
  lift (throw_if (negb (2 =? maxParticipants policy)) "Invalid call participants.");;
  let session := {| callId := uuid; conversationId := conversation; participants := ps; mediaMode := mode;
    state := idle; createdAt := now; updatedAt := now; expiresAt := now + invitationLifetimeMs policy;
    identityBinding := binding |} in
  lift (assertSession session);;
  modify (save session);;
  process (callId session) e_invite now.

(* service/src/calls/service.ts:12-12 CallService.receiveInvite *)
Definition receiveInvite (session : CallSession) (now : Z) : M CallRepository CallSession :=
  lift (throw_if (negb (bool_decide (state session = inviting))) "Invalid incoming call.");;
  existing ← gets (.!! callId session);
  lift (throw_if (bool_decide (is_Some existing)) "Call attempt already exists.");;
  lift (assertSession session);;
  modify (save session);;
  process (callId session) e_invite now.

(* service/src/calls/service.ts:14-14 CallService.event *)
Definition event (id : string) (e : CallEvent) (now : Z) : M CallRepository CallSession := process id e now.
End service.

(** ** The state machine: lemmas *)
Lemma transitionCall_keeps s e now pol s' :
  transitionCall s e now pol = Ok s' →
  callId s' = callId s ∧ participants s' = participants s ∧ expiresAt s' = expiresAt s ∧
  identityBinding s' = identityBinding s ∧ conversationId s' = conversationId s.
Proof.
  unfold transitionCall. destruct (decide _).
  - intros H. res_inv H. subst. by destruct (_ && _).
  - intros H. res_inv H. by subst.
Qed.

Lemma transitionCall_next s e now pol s' :
  transitionCall s e now pol = Ok s' → e ≠ e_heartbeat →
  transitions (state s) e = Some (state s') ∧
  (e ≠ e_expire → invitationBound (state s) = true → now < expiresAt s).
Proof.
  unfold transitionCall. destruct (decide (e = e_heartbeat)) as [->|Hne]; [done|]. intros H _. res_inv H. subst.
  simpl. split; [done|]. intros He Hb. rewrite (bool_decide_eq_false_2 _ He), Hb in H1. simpl in H1. lia.
Qed.

Lemma heartbeat_state s now pol s' :
  transitionCall s e_heartbeat now pol = Ok s' → state s' = state s.
Proof.
  unfold transitionCall. rewrite decide_True by done. intros H. res_inv H. subst. by destruct (_ && _).
Qed.

(** A history of successful events. *)
Inductive call_run (pol : CallSecurityPolicy) (s0 : CallSession) : list (CallEvent * Z) → CallSession → Prop :=
| run_nil : call_run pol s0 [] s0
| run_snoc evs s e now s' :
    call_run pol s0 evs s → transitionCall s e now pol = Ok s' → call_run pol s0 (evs ++ [(e, now)]) s'.

(** The states that lie after an acceptance, and after a connection. *)
Definition past_acceptance (s : CallState) : bool :=
  match s with accepted | connecting | connected | reconnecting | ended => true | _ => false end.
Definition past_connection (s : CallState) : bool :=
  match s with connected | reconnecting | ended => true | _ => false end.

(** A transition that enters either group, or stays in it. *)
Lemma transitions_past s e n :
  transitions s e = Some n →
  (past_acceptance n = true → past_acceptance s = true ∨ e = e_accept ∧ invitationBound s = true) ∧
  (past_connection n = true → past_connection s = true ∨ e = e_connected) ∧
  (past_connection s = true → past_acceptance s = true).
Proof. destruct s, e; simpl; intros [= <-]; naive_solver. Qed.

Lemma call_run_inv pol s0 evs s :
  call_run pol s0 evs s → past_acceptance (state s0) = false →
  expiresAt s = expiresAt s0 ∧
  (past_acceptance (state s) = true → ∃ t, (e_accept, t) ∈ evs ∧ t < expiresAt s0) ∧
  (past_connection (state s) = true → ∃ t, (e_connected, t) ∈ evs).
Proof.
  intros Hrun H0. induction Hrun as [|evs s e now s' Hrun [Hex [IHa IHc]] Ht].
  - split; [done|]. split; [congruence|]. by destruct (state s0).
  - pose proof (transitionCall_keeps _ _ _ _ _ Ht) as (_ & _ & Hex' & _). split; [congruence|].
    setoid_rewrite elem_of_app.
    destruct (decide (e = e_heartbeat)) as [->|Hne].
    + rewrite (heartbeat_state _ _ _ _ Ht). naive_solver.
    + destruct (transitionCall_next _ _ _ _ _ Ht Hne) as [Hn Hb].
      destruct (transitions_past _ _ _ Hn) as (Ha & Hc & _). split.
      * intros [Hp|[-> Hi]]%Ha; [naive_solver|]. exists now. rewrite list_elem_of_singleton.
        split; [by right|]. rewrite <-Hex. by apply Hb.
      * intros [Hp| ->]%Hc; [naive_solver|]. exists now. rewrite list_elem_of_singleton. by right.
Qed.

(** a call is never connected without consent: in every history of events from a session that is
    not yet accepted, being accepted, connecting or connected implies an accept event processed
    before the invitation expired, and having been connected implies a connected event. *)
Theorem call_needs_timely_acceptance pol s0 evs s :
  past_acceptance (state s0) = false → call_run pol s0 evs s →
  (past_acceptance (state s) = true → ∃ t, (e_accept, t) ∈ evs ∧ t < expiresAt s0) ∧
  (past_connection (state s) = true → ∃ t, (e_connected, t) ∈ evs).
Proof. intros H0 Hrun. by destruct (call_run_inv _ _ _ _ Hrun H0). Qed.

Definition sample_participants : CallParticipant * CallParticipant :=
  ({| participantId := "alice"; identityId := "ia"; verification := v_verified |},
   {| participantId := "bob"; identityId := "ib"; verification := v_verified |}).
Definition sample_session (st : CallState) : CallSession :=
  {| callId := "call"; conversationId := "room"; participants := sample_participants; mediaMode := audio;
     state := st; createdAt := 0; updatedAt := 0; expiresAt := 60000; identityBinding := "binding" |}.

Lemma call_needs_timely_acceptance_witness :
  ∃ t, (e_accept, t) ∈ [(e_invite, 0); (e_accept, 5); (e_connect, 6); (e_connected, 7)] ∧ t < 60000.
Proof.
  apply (call_needs_timely_acceptance DEFAULT_CALL_SECURITY_POLICY (sample_session idle) _
    (with_state (sample_session idle) connected 7)); [reflexivity| |reflexivity].
  apply (run_snoc _ _ [(e_invite, 0); (e_accept, 5); (e_connect, 6)] (with_state (sample_session idle) connecting 6)); [|reflexivity].
  apply (run_snoc _ _ [(e_invite, 0); (e_accept, 5)] (with_state (sample_session idle) accepted 5)); [|reflexivity].
  apply (run_snoc _ _ [(e_invite, 0)] (with_state (sample_session idle) inviting 0)); [|reflexivity].
  apply (run_snoc _ _ [] (sample_session idle)); [apply run_nil|reflexivity].
Defined.

(** The ends of a call are final and an invitation does not outlive its deadline: in a terminal
    state every event but a heartbeat (which changes nothing) fails, and once an unconnected call is
    past its deadline the only event that succeeds is its expiry, which leads to a terminal state
    whenever the call was ever offered. *)
Theorem call_ends_are_final s e now pol :
  (terminal (state s) = true → if decide (e = e_heartbeat) then transitionCall s e now pol = Ok s
                               else is_ok (transitionCall s e now pol) = false) ∧
  (invitationBound (state s) = true → expiresAt s <= now → e ≠ e_heartbeat →
   ∀ s', transitionCall s e now pol = Ok s' → e = e_expire ∧ state s' = expired ∧ terminal (state s') = true).
Proof.
  split.
  - intros Ht. destruct (decide (e = e_heartbeat)) as [->|Hne].
    + unfold transitionCall. rewrite decide_True by done.
      rewrite bool_decide_eq_false_2; [done|]. intros E. by rewrite E in Ht.
    + destruct (transitionCall s e now pol) as [s'|] eqn:E; [|done].
      destruct (transitionCall_next _ _ _ _ _ E Hne) as [Hn _]. by destruct (state s), e.
  - intros Hi Hle Hne s' H. destruct (transitionCall_next _ _ _ _ _ H Hne) as [Hn Hb].
    destruct (decide (e = e_expire)) as [->|Hx]; [|specialize (Hb Hx Hi); lia].
    split; [done|]. destruct (state s); try discriminate; by injection Hn as <-.
Qed.

Lemma call_ends_are_final_witness :
  transitionCall (sample_session rejected) e_heartbeat 5 DEFAULT_CALL_SECURITY_POLICY = Ok (sample_session rejected) ∧
  state (with_state (sample_session ringing) expired 60000) = expired.
Proof.
  split.
  - apply (proj1 (call_ends_are_final (sample_session rejected) e_heartbeat 5 DEFAULT_CALL_SECURITY_POLICY)).
    vm_compute. reflexivity.
  - refine (proj1 (proj2 (proj2 (call_ends_are_final (sample_session ringing) e_expire 60000 DEFAULT_CALL_SECURITY_POLICY)
      _ _ _ _ _))); [vm_compute; reflexivity|simpl; lia|discriminate|reflexivity].
Defined.

(** ** The event processor's queues

    [process] reads the session, and only in a later turn of the event loop writes the next one;
    what keeps two events of one call from overlapping is the per-call promise chain. The steps
    below interleave the turns of all pending calls of [process] arbitrarily. *)
Inductive task :=
| waiting (e : CallEvent) (now : Z)                           (* chained behind [previous] *)
| loaded (e : CallEvent) (now : Z) (found : option CallSession).  (* after [repository.get] *)

Record processor := { repo : CallRepository; queues : gmap string (list task) }.
Definition queue (p : processor) (id : string) : list task := default [] (queues p !! id).

(** The second turn: the transition and [repository.save]; a throw leaves the repository alone. *)
Definition finish (e : CallEvent) (now : Z) (found : option CallSession) (r : CallRepository) : CallRepository :=
  match found with
  | Some session =>
      match transitionCall session e now DEFAULT_CALL_SECURITY_POLICY with
      | Ok updated => save updated r
      | Err _ => r
      end
  | None => r
  end.

Inductive processor_step : processor → processor → Prop :=
| ps_enqueue p id e now :
    processor_step p {| repo := repo p; queues := <[id := queue p id ++ [waiting e now]]> (queues p) |}
| ps_read p id e now q :
    queue p id = waiting e now :: q →
    processor_step p {| repo := repo p; queues := <[id := loaded e now (repo p !! id) :: q]> (queues p) |}
| ps_finish p id e now found q :
    queue p id = loaded e now found :: q →
    processor_step p {| repo := finish e now found (repo p); queues := <[id := q]> (queues p) |}.

(** The atomic specification: whole events, one at a time. *)
Definition atomic_step (r r' : CallRepository) : Prop := ∃ id e now, r' = (process id e now r).2.

Definition is_waiting (t : task) : Prop := match t with waiting _ _ => True | _ => False end.

(** Only the head of a queue may have read, and what it read is still current. *)
Record processor_inv (p : processor) : Prop := {
  pi_keys id s : repo p !! id = Some s → callId s = id;
  pi_tail id t q : queue p id = t :: q → Forall is_waiting q;
  pi_head id e now found q : queue p id = loaded e now found :: q → found = repo p !! id }.

Lemma queue_insert r qs id q id' :
  queue {| repo := r; queues := <[id := q]> qs |} id' = if decide (id = id') then q else default [] (qs !! id').
Proof.
  unfold queue; simpl. destruct (decide (id = id')) as [->|Hne].
  - by rewrite lookup_insert_eq.
  - by rewrite lookup_insert_ne.
Qed.

Lemma finish_process id e now found r :
  found = r !! id → finish e now found r = (process id e now r).2.
Proof.
  intros ->. unfold finish, process. unfold mbind, M_bind, gets, lift, modify, mret, M_ret. simpl.
  destruct (r !! id) as [s|]; simpl; [|done]. by destruct (transitionCall _ _ _ _).
Qed.

Lemma finish_other e now found r id id' :
  (∀ s, found = Some s → callId s = id) → id ≠ id' → finish e now found r !! id' = r !! id'.
Proof.
  intros Hf Hne. unfold finish. destruct found as [s|]; [|done].
  destruct (transitionCall _ _ _ _) eqn:Ht; [|done]. unfold save.
  apply transitionCall_keeps in Ht as (-> & _). rewrite (Hf s) by done. by apply lookup_insert_ne.
Qed.

Lemma finish_keys e now found r id :
  (∀ i s, r !! i = Some s → callId s = i) → (∀ s, found = Some s → callId s = id) →
  ∀ i s, finish e now found r !! i = Some s → callId s = i.
Proof.
  intros Hr Hf i s. unfold finish. destruct found as [s0|]; [|apply Hr].
  destruct (transitionCall _ _ _ _) as [u|] eqn:Ht; [|apply Hr]. unfold save.
  destruct (decide (callId u = i)) as [<-|Hne]; [rewrite lookup_insert_eq; congruence|].
  rewrite lookup_insert_ne by done. apply Hr.
Qed.

Lemma processor_step_inv p p' :
  processor_inv p → processor_step p p' → processor_inv p' ∧ (repo p' = repo p ∨ atomic_step (repo p) (repo p')).
Proof.
  intros [Hk Ht Hh]. destruct 1 as [p id e now|p id e now q Hq|p id e now found q Hq]; cbn [repo].
  - split; [|by left]. constructor; cbn [repo]; [done|..].
    + intros id' t q. rewrite queue_insert. destruct (decide _) as [<-|]; [|apply Ht].
      destruct (queue p id) as [|t' q'] eqn:E; intros [= <- <-]; [done|].
      apply Forall_app; split; [by eapply Ht|by apply Forall_singleton].
    + intros id' e' now' f q. rewrite queue_insert. destruct (decide _) as [<-|]; [|apply Hh].
      destruct (queue p id) as [|t' q'] eqn:E; intros [= -> <-]. by eapply Hh.
  - split; [|by left]. constructor; cbn [repo]; [done|..].
    + intros id' t q'. rewrite queue_insert. destruct (decide _) as [<-|]; [|apply Ht].
      intros [= <- <-]. by eapply Ht.
    + intros id' e' now' f q'. rewrite queue_insert. destruct (decide _) as [<-|]; [|apply Hh].
      by intros [= <- <- <- <-].
  - pose proof (Hh _ _ _ _ _ Hq) as Hf. subst found.
    assert (∀ s, repo p !! id = Some s → callId s = id) as Hid by (intros; by apply Hk).
    split; [|right; exists id, e, now; by apply finish_process].
    pose proof (Ht _ _ _ Hq) as Hw. constructor; cbn [repo].
    + by eapply finish_keys.
    + intros id' t q'. rewrite queue_insert. destruct (decide _) as [<-|]; [|apply Ht].
      intros ->. by inversion_clear Hw.
    + intros id' e' now' f q'. rewrite queue_insert. destruct (decide _) as [<-|Hne].
      * intros ->. inversion_clear Hw. done.
      * rewrite (finish_other _ _ _ _ id); [apply Hh|done|done].
Qed.


Definition idle_processor : processor :=
  {| repo := {["call" := sample_session inviting]}; queues := ∅ |}.


(** ** Permissions *)
Inductive permission_run : list (PermissionDevice * PermissionState) → CallPermissions → Prop :=
| prun_nil : permission_run [] initialCallPermissions
| prun_snoc l p d next p' :
    permission_run l p → transitionPermission p d next = Ok p' → permission_run (l ++ [(d, next)]) p'.

(** a call captures a device only with permission: in every history of successful permission
    changes from the initial ones, a granted device was requested, and an active device was granted,
    by an earlier change of the same device. *)
Theorem capture_needs_permission l p d :
  permission_run l p →
  (permission p d = p_granted → (d, p_requested) ∈ l) ∧
  (permission p d = p_active → (d, p_granted) ∈ l ∧ (d, p_requested) ∈ l).
Proof.
  intros Hr. assert ((permission p d ≠ p_unknown → (d, p_requested) ∈ l) ∧
    (permission p d = p_granted ∨ permission p d = p_active → (d, p_granted) ∈ l)) as [H1 H2].
  { induction Hr as [|l p d' next p' Hr [IH1 IH2] Ht]; [destruct d; (split; [done|by intros [?|?]])|].
    unfold transitionPermission in Ht. res_inv Ht. apply negb_false_iff, bool_decide_eq_true in Ht0.
    rewrite !elem_of_app, !list_elem_of_singleton.
    assert (d' = d ∧ permission p' d = next ∨ d' ≠ d ∧ permission p' d = permission p d) as [[-> ->]|[Hne ->]];
      [subst p'; destruct d, d'; simpl; by auto| |naive_solver].
    destruct (permission p d) eqn:Ep, next; simpl in Ht0;
      rewrite ?elem_of_cons, ?elem_of_nil in Ht0;
      repeat destruct Ht0 as [Ht0|Ht0]; try discriminate Ht0; try destruct Ht0; split; intros Hx;
      try (destruct Hx; discriminate); first [by right|left; by auto]. }
  split; intros Hp; rewrite Hp in *; [|split]; [by apply H1|by apply H2; right|by apply H1].
Qed.

Lemma capture_needs_permission_witness :
  (d_camera, p_granted) ∈ [(d_camera, p_requested); (d_camera, p_granted); (d_camera, p_active)].
Proof.
  refine (proj1 (proj2 (capture_needs_permission _ {| microphone := p_unknown; camera := p_active |} d_camera _) _));
    [|reflexivity].
  apply (prun_snoc [_; _] {| microphone := p_unknown; camera := p_granted |} d_camera p_active); [|reflexivity].
  apply (prun_snoc [_] {| microphone := p_unknown; camera := p_requested |} d_camera p_granted); [|reflexivity].
  apply (prun_snoc [] initialCallPermissions d_camera p_requested); [apply prun_nil|reflexivity].
Defined.
