(* ===== verification/CallSignaling.v ===== *)
(** * Calls: signal digests, replay protection and the signaling gate

    [calls/signalBinding.ts], [replayProtection.ts], [signaling.ts] and [pendingSignals.ts]. Numbers of
    a signal are integers; the payload is any JSON value. *)
From S2P Require Import Prelude Json CallState.

(** ** Signals *)
(* service/src/calls/contracts.ts:15-15 CallSignalKind *)
Inductive CallSignalKind := control | offer | answer | ice_candidate.
#[export] Instance CallSignalKind_eq_dec : EqDecision CallSignalKind.
Proof. solve_decision. Defined.

(* service/src/calls/contracts.ts:17-17 CallSignal *)
Record CallSignal := {
  sig_callId : string; sig_conversationId : string; sender : CallParticipant;
  receiverIdentityId : string; sig_mediaMode : CallMediaMode; nonce : string;
  sig_event : CallEvent; kind : option CallSignalKind; payload : option jsval;
  sequence : Z; timestamp : Z; sig_expiresAt : Z; sig_identityBinding : string;
  payloadDigest : string; protocolVersion : option Z }.

(** The wire names of the enumerations. *)
Definition mode_name (m : CallMediaMode) : string := match m with audio => "audio" | video => "video" end.
Definition kind_name (k : CallSignalKind) : string :=
  match k with control => "control" | offer => "offer" | answer => "answer" | ice_candidate => "ice-candidate" end.
Definition event_name (e : CallEvent) : string :=
  match e with
  | e_invite => "invite" | e_accept => "accept" | e_reject => "reject" | e_cancel => "cancel"
  | e_connect => "connect" | e_connected => "connected" | e_reconnect => "reconnect" | e_end => "end"
  | e_expire => "expire" | e_fail => "fail" | e_heartbeat => "heartbeat"
  end.
Definition verification_name (v : Verification) : string :=
  match v with
  | v_unknown => "unknown" | v_unverified => "unverified" | v_verified => "verified"
  | v_changed_pending_review => "changed-pending-review"
  end.

(** ** The canonical text of a signal *)
Fixpoint join_with (sep : string) (l : list string) : string :=
  match l with
  | [] => EmptyString
  | [x] => x
  | x :: l' => x +:+ sep +:+ join_with sep l'
  end.

(** The order of [keys.sort()]. *)
Definition sort_fields {V} (fs : list (string * V)) : list (string * V) := js_sort (λ a b, string_cmp a.1 b.1) fs.

(* service/src/calls/signalBinding.ts:7-15 stableJson *)
Fixpoint stableJson (separator : string) (sortKeys : bool) (quote_ : string → string) (v : jsval) : string :=
  match v with
  | JStr s => quote_ s
  | JArr l => "[" +:+ join_with separator (List.map (stableJson separator sortKeys quote_) l) +:+ "]"
  | JObj fs =>
      let members := List.map (λ kv, (kv.1, stableJson separator sortKeys quote_ kv.2)) fs in
      "{" +:+ join_with separator
        (List.map (λ kv, quote_ kv.1 +:+ ":" +:+ kv.2) (if sortKeys then sort_fields members else members)) +:+ "}"
  | JUndef => "undefined"
  | v => stringify v
  end.

(** [JSON.stringify(signal.sender)] *)
Definition participant_json (p : CallParticipant) : jsval :=
  JObj [("participantId", JStr (participantId p)); ("identityId", JStr (identityId p));
        ("verification", JStr (verification_name (verification p)))].

Definition member_text (name value : string) : string := quote name +:+ ":" +:+ value.

(** The members of the template literal, between its braces. *)
Definition canonical_members (signal : CallSignal) (separator : string) (sortKeys : bool) : list string :=
  [ member_text "callId" (quote (sig_callId signal));
    member_text "conversationId" (quote (sig_conversationId signal));
    member_text "sender" (stringify (participant_json (sender signal)));
    member_text "receiverIdentityId" (quote (receiverIdentityId signal));
    member_text "mediaMode" (quote (mode_name (sig_mediaMode signal)));
    member_text "nonce" (quote (nonce signal));
    member_text "event" (quote (event_name (sig_event signal)));
    member_text "kind" (quote (kind_name (default control (kind signal))));
    member_text "payload" (stableJson separator sortKeys quote (default JNull (payload signal)));
    member_text "sequence" (Z_str (sequence signal));
    member_text "timestamp" (Z_str (timestamp signal));
    member_text "expiresAt" (Z_str (sig_expiresAt signal));
    member_text "identityBinding" (quote (sig_identityBinding signal)) ].

(** [quote] is the JavaScript one throughout; the Android variant only feeds diagnostics. *)
(* service/src/calls/signalBinding.ts:16-19 canonical *)
Definition canonical (signal : CallSignal) (separator : string) (sortKeys : bool) : string :=
  "{" +:+ join_with "," (canonical_members signal separator sortKeys) +:+ "}".

(* service/src/calls/signalBinding.ts:20-20 currentCanonical *)
Definition currentCanonical (signal : CallSignal) (separator : string) (sortKeys : bool) : string :=
  "k3ncrypt:call-signal-digest:v2" +:+ str1 0 +:+ "{" +:+ member_text "protocolVersion" "2" +:+ "," +:+
  join_with "," (canonical_members signal separator sortKeys) +:+ "}".

(* service/src/calls/signalBinding.ts:21-25 digestInput *)
Definition digestInput (signal : CallSignal) (separator : string) (sortKeys : bool) : res string :=
  if bool_decide (protocolVersion signal = Some 2) then mret (currentCanonical signal separator sortKeys)
  else if bool_decide (protocolVersion signal = None ∨ protocolVersion signal = Some 1)
  then mret (canonical signal separator sortKeys)
  else Err "Unsupported call signaling protocol version.".

(** ** Replay protection *)
(* service/src/calls/replayProtection.ts:1-1 ReplayClaimResult *)
Inductive ReplayClaimResult := c_accepted | c_duplicate | c_expired | c_capacity_exceeded.
#[export] Instance ReplayClaimResult_eq_dec : EqDecision ReplayClaimResult.
Proof. solve_decision. Defined.

(* service/src/calls/replayProtection.ts:2-2 ReplayProtectionStore *)
Class ReplayProtectionStore (R : Type) := claim : string → Z → Z → R → ReplayClaimResult * R.

(* service/src/calls/replayProtection.ts:20-22 MemoryReplayProtectionStore, fields *)
Record MemoryReplay := { entries : gmap string Z; maxEntries : Z }.

(* service/src/calls/replayProtection.ts:24-24 MemoryReplayProtectionStore.cleanup *)
Definition cleanup (now : Z) (m : MemoryReplay) : MemoryReplay :=
  {| entries := filter (λ kv, now < kv.2) (entries m); maxEntries := maxEntries m |}.

(* service/src/calls/replayProtection.ts:23-23 MemoryReplayProtectionStore.claim *)
Definition memory_claim (key : string) (expires now : Z) (m : MemoryReplay) : ReplayClaimResult * MemoryReplay :=
  let m := cleanup now m in
  if expires <=? now then (c_expired, m)
  else if bool_decide (is_Some (entries m !! key)) then (c_duplicate, m)
  else if maxEntries m <=? Z.of_nat (size (entries m)) then (c_capacity_exceeded, m)
  else (c_accepted, {| entries := <[key := expires]> (entries m); maxEntries := maxEntries m |}).
#[export] Instance memory_replay : ReplayProtectionStore MemoryReplay := memory_claim.

(** The deployment's store is reached through an adapter; the guard in front of it. *)
(* service/src/calls/replayProtection.ts:13-16 DurableReplayProtectionStore.claim *)
Definition durable_claim {R} (atomicClaim : string → jsnum → jsnum → R → ReplayClaimResult * R)
    (key : string) (expires now : jsnum) (r : R) : ReplayClaimResult * R :=
  let isFinite n := match n with NNaN | NInf | NNegInf => false | _ => true end in
  if negb (nonempty key) || negb (isFinite expires) || negb (isFinite now) then (c_expired, r)
  else atomicClaim key expires now r.

(** ** The gate *)
Definition payload_field (p : option jsval) (name : string) : option jsval :=
  match p with Some (JObj fs) => Some (get fs name) | _ => None end.
Definition nonempty_string_field (p : option jsval) (name : string) : bool :=
  match payload_field p name with Some (JStr s) => nonempty s | _ => false end.
Definition type_is (p : option jsval) (name : string) : bool := bool_decide (payload_field p "type" = Some (JStr name)).

(* service/src/calls/signaling.ts:7-17 validSignalSemantics *)
Definition validSignalSemantics (signal : CallSignal) : bool :=
  let kind := default control (kind signal) in
  let payload := payload signal in
  match sig_event signal with
  | e_invite | e_accept | e_reject | e_cancel | e_end | e_expire | e_fail =>
      bool_decide (kind = control) && bool_decide (payload = None)
  | e_connect | e_reconnect =>
      bool_decide (kind = offer) && type_is payload "offer" && nonempty_string_field payload "sdp"
  | e_connected =>
      if bool_decide (kind = answer) then type_is payload "answer" && nonempty_string_field payload "sdp"
      else bool_decide (kind = ice_candidate) && nonempty_string_field payload "candidate"
  | e_heartbeat => false
  end.

(* service/src/calls/signaling.ts:19-20 replayKey *)
Definition replayKey (signal : CallSignal) : string :=
  stringify (JArr [JStr (sig_conversationId signal); JStr (sig_callId signal);
    JStr (participantId (sender signal)); JNum (NInt (sequence signal))]).

Section gate.
(** The hexadecimal text of a SHA-256 digest (Web Crypto). *)
Context (sha256_hex : string → string).

(* service/src/calls/signalBinding.ts:30-30 signalDigest *)
Definition signalDigest (signal : CallSignal) : res string :=
  input ← digestInput signal "," true; mret (sha256_hex input).

(* service/src/calls/signalBinding.ts:69-72 verifySignalDigest *)
Definition verifySignalDigest (signal : CallSignal) : bool :=
  if negb (bool_decide (protocolVersion signal = None)) && negb (bool_decide (protocolVersion signal = Some 1)) &&
     negb (bool_decide (protocolVersion signal = Some 2)) then false
  else match signalDigest signal with Ok d => String.eqb (payloadDigest signal) d | Err _ => false end.

(* service/src/calls/signalBinding.ts:74-74 verifyCurrentSignalDigest *)
Definition verifyCurrentSignalDigest (signal : CallSignal) : bool :=
  bool_decide (protocolVersion signal = Some 2) &&
  match signalDigest signal with Ok d => String.eqb (payloadDigest signal) d | Err _ => false end.

(* service/src/calls/signalBinding.ts:73-73 verifyLegacySignalDigest *)
Definition verifyLegacySignalDigest (signal : CallSignal) : bool :=
  bool_decide (protocolVersion signal = None) && String.eqb (payloadDigest signal) (sha256_hex (canonical signal "," true)).

(** [localeCompare] orders the two identities. *)
(* service/src/calls/signalBinding.ts:75-80 identityBinding *)
Definition identityBinding_of (localeCompare : string → string → Z) (conversation : string)
    (ps : CallParticipant * CallParticipant) : string :=
  let ordered := js_sort (λ a b, localeCompare (identityId a) (identityId b)) [ps.1; ps.2] in
  sha256_hex ("k3ncrypt:call-binding:v1" +:+ str1 0 +:+ conversation +:+ str1 0 +:+
    join_with "|" (List.map (λ p, participantId p +:+ ":" +:+ identityId p) ordered)).

Context `{CallIdentityVerifier} `{ReplayProtectionStore R}.

(** The checks on times and digest that [send] and [receive] share. *)
Definition fresh_and_bound (signal : CallSignal) (now : Z) : bool :=
  isSafeInteger (timestamp signal) && isSafeInteger (sig_expiresAt signal) && (0 <=? timestamp signal) &&
  (now <? sig_expiresAt signal) && (timestamp signal <? sig_expiresAt signal) &&
  (sig_expiresAt signal - timestamp signal <=? CALL_SIGNAL_LIFETIME_MS) && (timestamp signal <=? now + 30000) &&
  verifySignalDigest signal.

Definition claim_signal (signal : CallSignal) (now : Z) : M R unit :=
  λ r, let '(result, r') := claim (replayKey signal) (sig_expiresAt signal) now r in
       (throw_if (negb (bool_decide (result = c_accepted))) "Call signal rejected.", r').

(** [Ok tt]: the signal was handed to the transport. *)
(* service/src/calls/signaling.ts:24-34 SecureCallSignaling.send *)
Definition send (session : CallSession) (signal : CallSignal) (now : Z) : M R unit :=
  lift (throw_if (negb (bool_decide (protocolVersion signal = Some 2) && validSignalSemantics signal &&
      String.eqb (sig_callId signal) (callId session) &&
      String.eqb (sig_conversationId signal) (conversationId session) &&
      String.eqb (sig_identityBinding signal) (identityBinding session) &&
      bool_decide (sig_mediaMode signal = mediaMode session) &&
      nonempty (nonce signal) && nonempty (receiverIdentityId signal) && fresh_and_bound signal now))
    "Invalid call signal.");;
  lift (throw_if (negb (isParticipant (conversationId session) (participantId (sender signal))))
    "Unauthorized call participant.");;
  lift (throw_if (negb (bool_decide (getVerification (participantId (sender signal)) = v_verified)))
    "Verification required for calls.");;
  lift (throw_if (bool_decide (verification (sender signal) = v_changed_pending_review))
    "Call identity requires review.");;
  claim_signal signal now.

(** [Ok tt]: the signal was handed to the listener. *)
(* service/src/calls/signaling.ts:37-48 SecureCallSignaling.receive *)
Definition receive (signal : CallSignal) (now : Z) : M R unit :=
  lift (throw_if (negb (bool_decide (protocolVersion signal = Some 2) && validSignalSemantics signal &&
      nonempty (sig_callId signal) && nonempty (sig_conversationId signal) &&
      nonempty (nonce signal) && nonempty (receiverIdentityId signal) && fresh_and_bound signal now))
    "Invalid call signal.");;
  lift (throw_if (negb (isParticipant (sig_conversationId signal) (participantId (sender signal))) ||
      negb (bool_decide (getVerification (participantId (sender signal)) = v_verified)) ||
      negb (bool_decide (verification (sender signal) = v_verified)))
    "Unauthorized call participant.");;
  claim_signal signal now.
End gate.

(** [VerifiedCallIdentityVerifier]: membership, and the current verification where the caller has one. *)
(* service/src/calls/signalBinding.ts:81-86 VerifiedCallIdentityVerifier *)
Definition VerifiedCallIdentityVerifier (members : gset string) (verifications : gmap string Verification)
    (currentVerification : option (res Verification)) : CallIdentityVerifier := {|
  isParticipant _ participant := bool_decide (participant ∈ members);
  getVerification participant :=
    if negb (bool_decide (participant ∈ members)) then v_unknown else
    match currentVerification with
    | Some (Ok v) => v
    | Some (Err _) => v_unknown
    | None => default v_unknown (verifications !! participant)
    end |}.

(** ** Signals held until the receiver is installed *)
(* service/src/calls/pendingSignals.ts:2-2 PENDING_CALL_SIGNAL_WINDOW_MS *)
Definition PENDING_CALL_SIGNAL_WINDOW_MS : Z := 30000.
Section pending.
Context {T : Type} (windowMs : Z) (cap : nat).
(* service/src/calls/pendingSignals.ts:12-15 PendingSignals.hold *)
Definition hold (value : T) (now : Z) (items : list (T * Z)) : list (T * Z) := take_last cap (items ++ [(value, now)]).
(** The values delivered, in order, and the items left. *)
(* service/src/calls/pendingSignals.ts:17-21 PendingSignals.drain *)
Definition drain (now : Z) (items : list (T * Z)) : list T * list (T * Z) :=
  ((List.filter (λ item, now - windowMs <=? item.2) items).*1, []).
End pending.

(** ** The canonical text determines the signal *)
Fixpoint sort_keys (v : jsval) : jsval :=
  match v with
  | JArr l => JArr (List.map sort_keys l)
  | JObj fs => JObj (sort_fields (List.map (λ kv, (kv.1, sort_keys kv.2)) fs))
  | v => v
  end.

Lemma join_with_comma l : join_with "," l = join l.
Proof. induction l as [|x [|y l] IH]; [done..|].
  change (x +:+ "," +:+ join_with "," (y :: l) = x +:+ "," +:+ join (y :: l)). by rewrite IH. Qed.

Lemma insert_sorted_map {V W} (f : string * V → string * W) x l :
  (∀ kv, (f kv).1 = kv.1) →
  insert_sorted (λ a b, string_cmp a.1 b.1) (f x) (List.map f l) =
  List.map f (insert_sorted (λ a b, string_cmp a.1 b.1) x l).
Proof.
  intros Hf. induction l as [|y l IH]; [done|]. cbn [List.map insert_sorted]. rewrite !Hf.
  destruct (_ <=? 0); cbn [List.map]; [done|by rewrite IH].
Qed.

Lemma sort_fields_map {V W} (f : string * V → string * W) l :
  (∀ kv, (f kv).1 = kv.1) → sort_fields (List.map f l) = List.map f (sort_fields l).
Proof.
  intros Hf. unfold sort_fields. induction l as [|x l IH]; [done|]. cbn [List.map js_sort].
  by rewrite IH, insert_sorted_map.
Qed.

Lemma sort_fields_perm {V} (fs : list (string * V)) : sort_fields fs ≡ₚ fs.
Proof. apply js_sort_perm. Qed.

Lemma forallb_perm {A} (P : A → bool) l1 l2 : l1 ≡ₚ l2 → forallb P l1 = forallb P l2.
Proof. induction 1; simpl; try congruence. by rewrite !andb_assoc, (andb_comm (P y)). Qed.

Lemma forallb_map_ext {A B} (P : B → bool) (Q : A → bool) (f : A → B) l :
  Forall (λ x, Q x = true → P (f x) = true) l → forallb Q l = true → forallb P (List.map f l) = true.
Proof. induction 1; simpl; [done|]. rewrite !andb_true_iff. naive_solver. Qed.

Lemma plain_sort_keys v : plain v = true → plain (sort_keys v) = true.
Proof.
  induction v as [| | | | |l IH|fs IH] using jsval_ind'; try done.
  - cbn [plain sort_keys]. by apply forallb_map_ext.
  - cbn [plain sort_keys]. rewrite !andb_true_iff, !bool_decide_eq_true. intros [Hp Hnd].
    rewrite (forallb_perm _ _ _ (sort_fields_perm _)). split.
    + by apply (forallb_map_ext (λ kv, plain kv.2) (λ kv, plain kv.2)).
    + unfold keys. rewrite sort_fields_perm.
      change (List.map ?f fs) with (f <$> fs). rewrite <-list_fmap_compose. done.
Qed.

(** The canonical payload text is the JSON text of the payload with its keys sorted at every level. *)
Lemma stableJson_stringify v :
  plain v = true → stableJson "," true quote v = stringify (sort_keys v).
Proof.
  induction v as [| | | | |l IH|fs IH] using jsval_ind'; try done; intros Hp.
  - cbn [stableJson sort_keys]. pose proof (plain_sort_keys _ Hp) as Hs. cbn [plain sort_keys] in Hp, Hs.
    rewrite stringify_arr by done. rewrite join_with_comma. do 3 f_equal. rewrite map_map.
    induction IH as [|v l Hv _ IHl]; [done|]. simpl in Hp, Hs. rewrite !andb_true_iff in Hp, Hs. simpl.
    destruct Hp, Hs. by rewrite Hv, IHl.
  - pose proof (plain_sort_keys _ Hp) as Hs. cbn [stableJson sort_keys] in *. cbn [plain] in Hp, Hs.
    rewrite !andb_true_iff in Hp, Hs. destruct Hp as [Hp _], Hs as [Hs _].
    rewrite stringify_obj by done. rewrite join_with_comma. do 3 f_equal.
    rewrite !(sort_fields_map (λ kv, (kv.1, _))) by done. rewrite !map_map.
    apply map_ext_in. intros kv Hin. cbn [fst snd]. unfold member; cbn [fst snd]. do 3 f_equal.
    apply list_elem_of_In in Hin. rewrite sort_fields_perm in Hin.
    eapply Forall_forall in IH; [|exact Hin]. apply IH.
    rewrite forallb_forall in Hp. apply Hp. by apply list_elem_of_In.
Qed.

(** The object whose JSON text is the canonical text. *)
Definition signal_object (signal : CallSignal) : list (string * jsval) :=
  [ ("callId", JStr (sig_callId signal)); ("conversationId", JStr (sig_conversationId signal));
    ("sender", participant_json (sender signal)); ("receiverIdentityId", JStr (receiverIdentityId signal));
    ("mediaMode", JStr (mode_name (sig_mediaMode signal))); ("nonce", JStr (nonce signal));
    ("event", JStr (event_name (sig_event signal)));
    ("kind", JStr (kind_name (default control (kind signal))));
    ("payload", sort_keys (default JNull (payload signal)));
    ("sequence", JNum (NInt (sequence signal))); ("timestamp", JNum (NInt (timestamp signal)));
    ("expiresAt", JNum (NInt (sig_expiresAt signal))); ("identityBinding", JStr (sig_identityBinding signal)) ].

Definition plain_payload (signal : CallSignal) : Prop := from_option (λ v, plain v = true) True (payload signal).

Lemma signal_object_plain signal : plain_payload signal → plain (JObj (signal_object signal)) = true.
Proof.
  intros Hp. assert (plain (sort_keys (default JNull (payload signal))) = true) as Hs.
  { apply plain_sort_keys. unfold plain_payload in Hp. by destruct (payload signal). }
  cbn [plain signal_object]. apply andb_true_iff. split; [|vm_compute; reflexivity].
  cbn -[plain sort_keys]. by rewrite Hs.
Qed.

Lemma canonical_stringify signal :
  plain_payload signal →
  "{" +:+ join_with "," (canonical_members signal "," true) +:+ "}" = stringify (JObj (signal_object signal)).
Proof.
  intros Hp. pose proof (signal_object_plain signal Hp) as Hs. cbn [plain] in Hs.
  apply andb_true_iff in Hs as [Hs _]. rewrite stringify_obj by done. rewrite join_with_comma. do 3 f_equal.
  unfold canonical_members, signal_object. cbn [map]. unfold member_text, member. cbn [fst snd].
  rewrite stableJson_stringify; [done|]. unfold plain_payload in Hp. by destruct (payload signal).
Qed.

Lemma names_inj :
  (∀ a b, mode_name a = mode_name b → a = b) ∧ (∀ a b, kind_name a = kind_name b → a = b) ∧
  (∀ a b, event_name a = event_name b → a = b) ∧ (∀ a b, verification_name a = verification_name b → a = b).
Proof. split_and!; by intros [] []. Qed.

Lemma participant_json_inj a b : participant_json a = participant_json b → a = b.
Proof.
  destruct a as [p i v], b as [p' i' v']. unfold participant_json; simpl. intros [= -> -> Hv].
  apply (proj2 (proj2 (proj2 names_inj))) in Hv. by subst.
Qed.

(** The fields of a version 2 signal its digest covers. *)
Definition digest_covers (s1 s2 : CallSignal) : Prop :=
  sig_callId s1 = sig_callId s2 ∧ sig_conversationId s1 = sig_conversationId s2 ∧ sender s1 = sender s2 ∧
  receiverIdentityId s1 = receiverIdentityId s2 ∧ sig_mediaMode s1 = sig_mediaMode s2 ∧ nonce s1 = nonce s2 ∧
  sig_event s1 = sig_event s2 ∧ default control (kind s1) = default control (kind s2) ∧
  sort_keys (default JNull (payload s1)) = sort_keys (default JNull (payload s2)) ∧
  sequence s1 = sequence s2 ∧ timestamp s1 = timestamp s2 ∧ sig_expiresAt s1 = sig_expiresAt s2 ∧
  sig_identityBinding s1 = sig_identityBinding s2.

Lemma signal_object_inj s1 s2 : signal_object s1 = signal_object s2 → digest_covers s1 s2.
Proof.
  intros H. destruct names_inj as (Hm & Hk & He & _).
  pose proof (f_equal (λ fs, get fs "sender") H) as Hs. apply participant_json_inj in Hs.
  unfold signal_object in H. rewrite Hs in H. injection H. clear H. intros.
  unfold digest_covers. split_and!; auto.
Qed.

Lemma currentCanonical_inj s1 s2 :
  plain_payload s1 → plain_payload s2 →
  currentCanonical s1 "," true = currentCanonical s2 "," true → digest_covers s1 s2.
Proof.
  intros H1 H2 H. unfold currentCanonical in H.
  do 5 apply (inj (String.append _)) in H.
  apply signal_object_inj. apply (f_equal (String.append "{")) in H. rewrite !canonical_stringify in H by done.
  apply stringify_inj in H; [congruence|by apply signal_object_plain..].
Qed.

(** a version 2 digest authenticates the whole signal: two signals whose digests verify and are
    equal agree on every field (the payload up to the order of its keys, and a missing kind meaning
    control), unless SHA-256 collides on their canonical texts. *)
Theorem signal_digest_binds_all_fields sha s1 s2 :
  (∀ x y, digestInput s1 "," true = Ok x → digestInput s2 "," true = Ok y → sha x = sha y → x = y) →
  plain_payload s1 → plain_payload s2 →
  verifyCurrentSignalDigest sha s1 = true → verifyCurrentSignalDigest sha s2 = true →
  payloadDigest s1 = payloadDigest s2 → digest_covers s1 s2.
Proof.
  unfold verifyCurrentSignalDigest. intros Hsha Hp1 Hp2 [Hv1 E1]%andb_true_iff [Hv2 E2]%andb_true_iff Hd.
  unfold signalDigest, digestInput in E1, E2, Hsha. rewrite Hv1, Hv2 in *.
  cbn in E1, E2. apply String.eqb_eq in E1, E2.
  apply currentCanonical_inj; [done..|]. apply (Hsha _ _ eq_refl eq_refl). congruence.
Qed.

Definition toy_hash (s : string) : string := s.
Definition sample_signal (seq t : Z) : CallSignal :=
  let s d := {| sig_callId := "call"; sig_conversationId := "room";
    sender := {| participantId := "alice"; identityId := "ia"; verification := v_verified |};
    receiverIdentityId := "ib"; sig_mediaMode := audio; nonce := "n"; sig_event := e_invite; kind := None;
    payload := None; sequence := seq; timestamp := t; sig_expiresAt := t + 30000;
    sig_identityBinding := "b"; payloadDigest := d; protocolVersion := Some 2 |} in
  s (toy_hash (currentCanonical (s EmptyString) "," true)).

Lemma signal_digest_binds_all_fields_witness : digest_covers (sample_signal 1 0) (sample_signal 1 0).
Proof.
  apply (signal_digest_binds_all_fields toy_hash); try exact I; try (vm_compute; reflexivity).
  intros x y H1 H2. congruence.
Defined.

(** ** Replay *)
Section replay.
Context (sha256_hex : string → string) `{CallIdentityVerifier}.

(** A run of the gate on incoming signals, with the signals it delivered and when. *)
Inductive gate_run : list (CallSignal * Z) → Z → MemoryReplay → Prop :=
| gate_start cap : gate_run [] 0 {| entries := ∅; maxEntries := cap |}
| gate_delivers l t r signal now r' :
    gate_run l t r → t <= now → receive sha256_hex signal now r = (Ok tt, r') →
    gate_run (l ++ [(signal, now)]) now r'
| gate_rejects l t r signal now e r' :
    gate_run l t r → t <= now → receive sha256_hex signal now r = (Err e, r') → gate_run l now r'.

Lemma receive_spec signal now r o r' :
  receive sha256_hex signal now r = (o, r') →
  (r' = r ∧ is_ok o = false) ∨
  (r' = (memory_claim (replayKey signal) (sig_expiresAt signal) now r).2 ∧
   is_ok o = bool_decide ((memory_claim (replayKey signal) (sig_expiresAt signal) now r).1 = c_accepted)).
Proof.
  unfold receive. unfold mbind, M_bind, lift.
  destruct (throw_if _ _); [|intros [= <- <-]; by left].
  destruct (throw_if _ _); [|intros [= <- <-]; by left].
  unfold claim_signal. change (claim ?k ?e ?n ?x) with (memory_claim k e n x).
  destruct (memory_claim _ _ _ _) as [res r1]. intros [= <- <-]. right. split; [done|]. simpl.
  by destruct (bool_decide (res = c_accepted)).
Qed.

Lemma memory_claim_effect key e now r :
  let '(res, r') := memory_claim key e now r in
  (∀ k v, entries r !! k = Some v → now < v → entries r' !! k = Some v) ∧
  (res = c_accepted → entries r' !! key = Some e ∧ ∀ v, entries r !! key = Some v → v <= now).
Proof.
  unfold memory_claim, cleanup. cbn [entries maxEntries].
  assert (∀ k v, entries r !! k = Some v → now < v →
    (filter (λ kv, now < kv.2) (entries r) : gmap string Z) !! k = Some v) as Hf.
  { intros k v Hk Hv. by apply map_lookup_filter_Some. }
  repeat case_if; cbn [entries]; (split; [|try done]); try done.
  - intros k v Hk Hv. rewrite lookup_insert_ne; [by apply Hf|]. intros <-.
    rewrite (Hf _ _ Hk Hv) in E0. done.
  - intros _. split; [apply lookup_insert_eq|]. intros v Hk.
    destruct (decide (now < v)) as [Hv|]; [|lia]. rewrite (Hf _ _ Hk Hv) in E0. done.
Qed.

Lemma receive_unexpired signal now r r' : receive sha256_hex signal now r = (Ok tt, r') → now < sig_expiresAt signal.
Proof.
  intros [[_ ?]|[_ Hok]]%receive_spec; [done|]. symmetry in Hok. apply bool_decide_eq_true in Hok.
  revert Hok. unfold memory_claim. destruct (Z.leb_spec (sig_expiresAt signal) now); [done|by intros _].
Qed.

(** Every delivery leaves a record that lasts until the signal's expiry. *)
Lemma gate_run_inv l t r :
  gate_run l t r →
  (∀ s a, (s, a) ∈ l → sig_expiresAt s <= t ∨ entries r !! replayKey s = Some (sig_expiresAt s)) ∧
  (∀ i j s1 a1 s2 a2, l !! i = Some (s1, a1) → l !! j = Some (s2, a2) → (i < j)%nat →
     replayKey s1 = replayKey s2 → sig_expiresAt s1 <= a2).
Proof.
  induction 1 as [cap|l t r signal now r' Hr [IH1 IH2] Hle Hrec|l t r signal now e r' Hr [IH1 IH2] Hle Hrec].
  - split; [set_solver|done].
  - apply receive_spec in Hrec as [[_ ?]|[-> Hok]]; [done|]. symmetry in Hok. apply bool_decide_eq_true in Hok.
    pose proof (memory_claim_effect (replayKey signal) (sig_expiresAt signal) now r) as He.
    destruct (memory_claim _ _ _ _) as [res r1]. simpl in Hok. subst res. destruct He as [Hkeep Hnew].
    destruct (Hnew eq_refl) as [Hin Hold]. cbn [snd]. split.
    + intros s a [Hin'|E%list_elem_of_singleton]%elem_of_app; [|by injection E as -> ->; right].
      destruct (IH1 s a Hin') as [?|Hs]; [left; lia|].
      destruct (decide (now < sig_expiresAt s)); [right; by apply Hkeep|left; lia].
    + intros i j s1 a1 s2 a2 Hi Hj Hij Hk.
      pose proof (lookup_lt_Some _ _ _ Hj) as Hlt. rewrite length_app in Hlt. simpl in Hlt.
      rewrite lookup_app_l in Hi by lia. destruct (decide (j < length l)%nat).
      { rewrite lookup_app_l in Hj by lia. by eapply IH2. }
      rewrite lookup_app_r in Hj by lia. replace (j - length l)%nat with 0%nat in Hj by lia.
      injection Hj as -> ->. destruct (IH1 s1 a1) as [?|Hs]; [by eapply list_elem_of_lookup_2|lia|].
      rewrite Hk in Hs. by apply Hold.
  - split; [|done]. intros s a Hin.
    apply receive_spec in Hrec as [[-> _]|[-> _]].
    { destruct (IH1 s a Hin); [left; lia|by right]. }
    pose proof (memory_claim_effect (replayKey signal) (sig_expiresAt signal) now r) as He.
    destruct (memory_claim _ _ _ _) as [res r1]. destruct He as [Hkeep _].
    destruct (IH1 s a Hin) as [?|Hs]; [left; lia|].
    destruct (decide (now < sig_expiresAt s)); [right; by apply Hkeep|left; lia].
Qed.
End replay.

Lemma replayKey_inj s1 s2 :
  replayKey s1 = replayKey s2 ↔
  sig_conversationId s1 = sig_conversationId s2 ∧ sig_callId s1 = sig_callId s2 ∧
  participantId (sender s1) = participantId (sender s2) ∧ sequence s1 = sequence s2.
Proof.
  split.
  - intros E. apply stringify_inj in E; [|done..]. by injection E.
  - unfold replayKey. by intros (-> & -> & -> & ->).
Qed.

(** Whatever the signaling gate hands to the listener is a well-formed version 2 signal, current
    (unexpired, from at most 30 seconds in the future, alive for at most a minute), whose digest
    matches its content and whose sender is a member with a locally verified identity. *)
Theorem receive_checks sha `{CallIdentityVerifier} signal now (r r' : MemoryReplay) :
  receive sha signal now r = (Ok tt, r') →
  protocolVersion signal = Some 2 ∧ validSignalSemantics signal = true ∧
  timestamp signal < sig_expiresAt signal ∧ now < sig_expiresAt signal ∧
  sig_expiresAt signal <= timestamp signal + CALL_SIGNAL_LIFETIME_MS ∧ timestamp signal <= now + 30000 ∧
  verifyCurrentSignalDigest sha signal = true ∧
  isParticipant (sig_conversationId signal) (participantId (sender signal)) = true ∧
  getVerification (participantId (sender signal)) = v_verified ∧ verification (sender signal) = v_verified.
Proof.
  unfold receive. unfold mbind, M_bind, lift.
  destruct (throw_if _ _) as [[]|] eqn:H1; [|done]. apply throw_if_ok, negb_false_iff in H1.
  destruct (throw_if _ _) as [[]|] eqn:H2 in |- *; [|done]. intros _.
  apply throw_if_ok in H2. rewrite !orb_false_iff, !negb_false_iff, !bool_decide_eq_true in H2.
  destruct H2 as [[? ?] ?]. unfold fresh_and_bound in H1.
  repeat match goal with H : _ && _ = true |- _ => apply andb_true_iff in H as [? ?] end.
  match goal with H : bool_decide (protocolVersion _ = _) = true |- _ => apply bool_decide_eq_true in H; rename H into Hv end.
  split_and!; try done; try lia.
  unfold verifyCurrentSignalDigest. rewrite Hv, bool_decide_eq_true_2 by done. simpl.
  match goal with H : verifySignalDigest _ _ = true |- _ => revert H end.
  unfold verifySignalDigest. rewrite Hv. by destruct (_ && _).
Qed.


Definition sample_verifier : CallIdentityVerifier :=
  VerifiedCallIdentityVerifier {["alice"; "bob"]} {["alice" := v_verified]} None.
Definition empty_replay : MemoryReplay := {| entries := ∅; maxEntries := 4096 |}.

Lemma receive_checks_witness : @getVerification sample_verifier "alice" = v_verified.
Proof.
  refine (proj1 (proj2 (proj2 (proj2 (proj2 (proj2 (proj2 (proj2 (proj2
    (receive_checks toy_hash (sample_signal 1 1000) 2000 empty_replay
      (memory_claim (replayKey (sample_signal 1 1000)) 31000 2000 empty_replay).2 _)))))))))).
  vm_compute. reflexivity.
Defined.

