(* ===== verification/DeviceList.v ===== *)
(** * Device entries and device lists

    [devices/deviceIdentity.ts], [deviceList.ts], [canonicalEncoding.ts] and [epoch.ts]. The
    constructors validate values of unknown shape, so they take JSON values. *)
From S2P Require Import Prelude Json CallSignaling.

(** ** Entries *)
(* service/src/devices/deviceIdentity.ts:3-3 DeviceLifecycleState *)
Inductive DeviceLifecycleState := pending_enrollment | approved_pending_confirmation | active | revoked.
#[export] Instance DeviceLifecycleState_eq_dec : EqDecision DeviceLifecycleState.
Proof. solve_decision. Defined.

Definition state_name (s : DeviceLifecycleState) : string :=
  match s with
  | pending_enrollment => "pending_enrollment"
  | approved_pending_confirmation => "approved_pending_confirmation"
  | active => "active"
  | revoked => "revoked"
  end.
Definition state_of_json (v : jsval) : option DeviceLifecycleState :=
  match v with
  | JStr s =>
      if String.eqb s "pending_enrollment" then Some pending_enrollment
      else if String.eqb s "approved_pending_confirmation" then Some approved_pending_confirmation
      else if String.eqb s "active" then Some active
      else if String.eqb s "revoked" then Some revoked else None
  | _ => None
  end.

(* service/src/devices/deviceIdentity.ts:5-13 DeviceEntry *)
Record DeviceEntry := {
  deviceId : string; publicIdentityReference : string; algorithm : string;
  state : DeviceLifecycleState; createdAt : Z; revokedAt : option Z; label : option string }.
#[export] Instance DeviceEntry_eq_dec : EqDecision DeviceEntry.
Proof. solve_decision. Defined.

(* service/src/devices/deviceIdentity.ts:15-21 DeviceList *)
Record DeviceList := {
  identityReference : string; epoch : Z; previousCommitment : option string; devices : list DeviceEntry }.
#[export] Instance DeviceList_eq_dec : EqDecision DeviceList.
Proof. solve_decision. Defined.

(* service/src/devices/deviceIdentity.ts:23-25 MAX_ID_LENGTH, MAX_ALGORITHM_LENGTH, MAX_LABEL_LENGTH *)
Definition MAX_ID_LENGTH : Z := 256.
Definition MAX_ALGORITHM_LENGTH : Z := 128.
Definition MAX_LABEL_LENGTH : Z := 128.

Definition INVALID_RECORD : string := "Invalid device identity record.".

(** The text check: non-empty, bounded, no control character (and in normal form C, as every string
    of the model is). *)
Definition text_ok (max : Z) (s : string) : bool :=
  nonempty s && (strlen s <=? max) && forall_chars (λ c, negb (is_control c)) s.

(* service/src/devices/deviceIdentity.ts:30-34 assertString *)
Definition assertString (value : jsval) (max : Z) : res string :=
  match value with
  | JStr s => throw_if (negb (text_ok max s)) INVALID_RECORD;; mret s
  | _ => Err INVALID_RECORD
  end.

(** [!Number.isSafeInteger(value) || value < 0] throws. *)
Definition natural (value : jsval) (msg : string) : res Z :=
  match value with
  | JNum n => z ← require (safe_int n) msg; throw_if (z <? 0) msg;; mret z
  | _ => Err msg
  end.
(* service/src/devices/deviceIdentity.ts:36-38 assertTimestamp *)
Definition assertTimestamp (value : jsval) : res Z := natural value INVALID_RECORD.

(* service/src/devices/deviceIdentity.ts:40-42 assertRecordKeys *)
Definition assertRecordKeys (fs : list (string * jsval)) (allowed : list string) : res unit :=
  throw_if (existsb (λ k, negb (existsb (String.eqb k) allowed)) (keys fs)) INVALID_RECORD.

(** [value === undefined ? undefined : check(value)] *)
Definition optional {A} (v : jsval) (check : jsval → res A) : res (option A) :=
  match v with JUndef => mret None | _ => a ← check v; mret (Some a) end.

(* service/src/devices/deviceIdentity.ts:47-70 createDeviceEntry *)
Definition createDeviceEntry (input : jsval) : res DeviceEntry :=
  value ← require (as_object input) INVALID_RECORD;
  assertRecordKeys value ["algorithm"; "createdAt"; "deviceId"; "label"; "publicIdentityReference"; "revokedAt"; "state"];;
  deviceId ← assertString (get value "deviceId") MAX_ID_LENGTH;
  publicIdentityReference ← assertString (get value "publicIdentityReference") MAX_ID_LENGTH;
  algorithm ← assertString (get value "algorithm") MAX_ALGORITHM_LENGTH;
  state ← require (state_of_json (get value "state")) "Invalid device lifecycle state.";
  createdAt ← assertTimestamp (get value "createdAt");
  revokedAt ← optional (get value "revokedAt") assertTimestamp;
  label ← optional (get value "label") (λ v, assertString v MAX_LABEL_LENGTH);
  throw_if (bool_decide (state = revoked) && bool_decide (revokedAt = None)) "Revoked devices require revokedAt.";;
  throw_if (negb (bool_decide (state = revoked)) && negb (bool_decide (revokedAt = None)))
    "Only revoked devices may have revokedAt.";;
  throw_if (from_option (λ r, r <? createdAt) false revokedAt) "Device revocation precedes creation.";;
  mret {| deviceId := deviceId; publicIdentityReference := publicIdentityReference; algorithm := algorithm;
          state := state; createdAt := createdAt; revokedAt := revokedAt; label := label |}.

(* service/src/devices/deviceIdentity.ts:73-75 isValidDeviceLifecycleTransition *)
Definition isValidDeviceLifecycleTransition (from to : DeviceLifecycleState) : bool :=
  bool_decide (from = to) ||
  (bool_decide (from = pending_enrollment) &&
     (bool_decide (to = approved_pending_confirmation) || bool_decide (to = revoked))) ||
  (bool_decide (from = approved_pending_confirmation) && (bool_decide (to = active) || bool_decide (to = revoked))) ||
  (bool_decide (from = active) && bool_decide (to = revoked)).

(* service/src/devices/deviceIdentity.ts:77-79 assertDeviceCanAuthorize *)
Definition assertDeviceCanAuthorize (entry : DeviceEntry) : res unit :=
  throw_if (negb (bool_decide (state entry = active))) "Only active devices may authorize operations.".

(** A typed entry as the JavaScript object it is: absent optional fields are absent keys. *)
Definition entry_json (e : DeviceEntry) : jsval :=
  obj [("deviceId", Some (JStr (deviceId e))); ("publicIdentityReference", Some (JStr (publicIdentityReference e)));
       ("algorithm", Some (JStr (algorithm e))); ("state", Some (JStr (state_name (state e))));
       ("createdAt", Some (JNum (NInt (createdAt e)))); ("revokedAt", (λ z, JNum (NInt z)) <$> revokedAt e);
       ("label", JStr <$> label e)].

(* service/src/devices/deviceIdentity.ts:81-87 assertDeviceEntryTransition *)
Definition assertDeviceEntryTransition (from to : DeviceEntry) : res unit :=
  throw_if (negb (String.eqb (deviceId from) (deviceId to)) ||
            negb (String.eqb (publicIdentityReference from) (publicIdentityReference to)))
    "Device identity cannot change through a lifecycle transition.";;
  throw_if (negb (isValidDeviceLifecycleTransition (state from) (state to))) "Invalid device lifecycle transition.";;
  createDeviceEntry (entry_json to);;
  mret tt.

(* service/src/devices/deviceIdentity.ts:89-89 isCommitment *)
Definition isCommitment (value : jsval) : bool := match value with JStr s => hex64 s | _ => false end.

(** ** Lists *)
Definition INVALID_LIST : string := "Invalid device list.".

(** [list.map(f)] where [f] may throw, and the check of the two [Set]s. *)
Fixpoint mapM_res {A B} (f : A → res B) (l : list A) : res (list B) :=
  match l with
  | [] => mret []
  | x :: l' => y ← f x; ys ← mapM_res f l'; mret (y :: ys)
  end.

Fixpoint no_duplicates (ids identities : list string) (l : list DeviceEntry) : res unit :=
  match l with
  | [] => mret tt
  | entry :: l' =>
      throw_if (existsb (String.eqb (deviceId entry)) ids) "Duplicate device identifier.";;
      throw_if (existsb (String.eqb (publicIdentityReference entry)) identities) "Duplicate device public identity.";;
      no_duplicates (deviceId entry :: ids) (publicIdentityReference entry :: identities) l'
  end.

(* service/src/devices/deviceList.ts:9-36 createDeviceList *)
Definition createDeviceList (input : jsval) : res DeviceList :=
  value ← require (as_object input) INVALID_LIST;
  throw_if (existsb (λ k, negb (existsb (String.eqb k)
    ["devices"; "epoch"; "identityReference"; "previousCommitment"; "version"])) (keys value)) INVALID_LIST;;
  throw_if (negb (bool_decide (get value "version" = JNum (NInt 1)))) "Unsupported device-list version.";;
  identityReference ← match get value "identityReference" with
                      | JStr s => throw_if (negb (text_ok 256 s)) INVALID_LIST;; mret s
                      | _ => Err INVALID_LIST
                      end;
  epoch ← natural (get value "epoch") INVALID_LIST;
  previousCommitment ← match get value "previousCommitment" with
                       | JNull => mret None
                       | JStr s => throw_if (negb (hex64 s)) INVALID_LIST;; mret (Some s)
                       | _ => Err INVALID_LIST
                       end;
  entries ← match get value "devices" with JArr l => mret l | _ => Err INVALID_LIST end;
  devices ← mapM_res createDeviceEntry entries;
  no_duplicates [] [] devices;;
  mret {| identityReference := identityReference; epoch := epoch; previousCommitment := previousCommitment;
          devices := devices |}.

(* service/src/devices/deviceList.ts:38-39 deviceEntryById *)
Definition deviceEntryById (l : DeviceList) (id : string) : option DeviceEntry :=
  js_find (λ entry, String.eqb (deviceId entry) id) (devices l).

(** A typed list as the JavaScript object it is. *)
Definition list_json (l : DeviceList) : jsval :=
  JObj [("version", JNum (NInt 1)); ("identityReference", JStr (identityReference l));
        ("epoch", JNum (NInt (epoch l)));
        ("previousCommitment", from_option JStr JNull (previousCommitment l));
        ("devices", JArr (entry_json <$> devices l))].

(** ** The canonical encoding *)
(* service/src/devices/canonicalEncoding.ts:7-18 canonicalEntry *)
Definition canonicalEntry (entry : DeviceEntry) : string := stringify (entry_json entry).

(* service/src/devices/canonicalEncoding.ts:21-32 canonicalDeviceListJson *)
Definition canonicalDeviceListJson (input : DeviceList) : res string :=
  list ← createDeviceList (list_json input);
  let sorted := js_sort (λ left right, string_cmp (deviceId left) (deviceId right)) (devices list) in
  entries ← mapM_res (λ entry, require (parse (canonicalEntry entry)) "SyntaxError") sorted;
  mret (stringify (JObj [("version", JNum (NInt 1)); ("identityReference", JStr (identityReference list));
    ("epoch", JNum (NInt (epoch list)));
    ("previousCommitment", from_option JStr JNull (previousCommitment list)); ("devices", JArr entries)])).

Section commitment.
Context (sha256_hex : string → string).
(* service/src/devices/canonicalEncoding.ts:40-44 deviceListCommitment *)
Definition deviceListCommitment (input : DeviceList) : res string :=
  bytes ← canonicalDeviceListJson input; mret (sha256_hex bytes).
(* service/src/devices/canonicalEncoding.ts:46-49 verifyDeviceListCommitment *)
Definition verifyDeviceListCommitment (input : DeviceList) (expected : string) : res bool :=
  if negb (hex64 expected) then mret false else
  c ← deviceListCommitment input; mret (String.eqb c expected).
End commitment.

(** ** Epochs *)
(* service/src/devices/epoch.ts:5-5 EpochValidation *)
Inductive EpochValidation := current | stale | future.
(* service/src/devices/epoch.ts:7-12 compareEpoch *)
Definition compareEpoch (cur candidate : Z) : res EpochValidation :=
  throw_if (negb (isSafeInteger cur) || (cur <? 0) || negb (isSafeInteger candidate) || (candidate <? 0))
    "Invalid device-list epoch.";;
  mret (if candidate =? cur then current else if candidate <? cur then stale else future).

(* service/src/devices/epoch.ts:14-20 assertNextEpoch *)
Definition assertNextEpoch (previous next : DeviceList) : res unit :=
  prior ← createDeviceList (list_json previous);
  candidate ← createDeviceList (list_json next);
  throw_if (negb (String.eqb (identityReference candidate) (identityReference prior)))
    "Device-list identity scope changed.";;
  throw_if (negb (epoch candidate =? epoch prior + 1)) "Device-list epoch must increase by one.";;
  throw_if (bool_decide (previousCommitment candidate = None)) "Next device list requires a previous commitment.".

(* service/src/devices/epoch.ts:22-28 assertNotRollback *)
Definition assertNotRollback (cur candidate : DeviceList) : res unit :=
  currentList ← createDeviceList (list_json cur);
  candidateList ← createDeviceList (list_json candidate);
  throw_if (negb (String.eqb (identityReference candidateList) (identityReference currentList)))
    "Device-list identity scope changed.";;
  throw_if (epoch candidateList <? epoch currentList) "Device-list rollback rejected.";;
  if epoch candidateList =? epoch currentList then
    a ← canonicalDeviceListJson candidateList;
    b ← canonicalDeviceListJson currentList;
    throw_if (negb (String.eqb a b)) "Same-epoch device-list fork rejected."
  else mret tt.

(* service/src/devices/epoch.ts:30-32 assertCurrentEpoch *)
Definition assertCurrentEpoch (cur : DeviceList) (candidateEpoch : Z) : res unit :=
  l ← createDeviceList (list_json cur);
  v ← compareEpoch (epoch l) candidateEpoch;
  match v with current => mret tt | _ => Err "Stale device-list epoch." end.

(** ** The order of [keys.sort()] is a total order *)
Lemma ascii_compare_N a b : Ascii.compare a b = (N_of_ascii a ?= N_of_ascii b)%N.
Proof. done. Qed.

Lemma string_cmp_le a b : string_cmp a b <= 0 ↔ String.compare a b ≠ Gt.
Proof. unfold string_cmp. destruct (String.compare a b); split; (congruence || lia || done). Qed.

Lemma string_cmp_total a b : string_cmp a b <= 0 ∨ string_cmp b a <= 0.
Proof. rewrite !string_cmp_le, (String.compare_antisym a b). destruct (String.compare b a); simpl; naive_solver. Qed.

Lemma string_cmp_anti a b : string_cmp a b <= 0 → string_cmp b a <= 0 → a = b.
Proof.
  rewrite !string_cmp_le, (String.compare_antisym b a). intros H1 H2.
  apply String.compare_eq_iff. by destruct (String.compare a b).
Qed.

Lemma string_cmp_trans a b c : string_cmp a b <= 0 → string_cmp b c <= 0 → string_cmp a c <= 0.
Proof.
  rewrite !string_cmp_le. revert b c. induction a as [|x a IH]; intros [|y b] [|z c]; simpl; try done.
  rewrite !ascii_compare_N. specialize (IH b c).
  destruct (N.compare_spec (N_of_ascii x) (N_of_ascii y)), (N.compare_spec (N_of_ascii y) (N_of_ascii z)),
    (N.compare_spec (N_of_ascii x) (N_of_ascii z)); try done; try lia; by apply IH.
Qed.

(** ** Well-formed entries and lists *)
Definition timestamp_ok (z : Z) : bool := isSafeInteger z && (0 <=? z).
Definition entry_ok (e : DeviceEntry) : bool :=
  text_ok MAX_ID_LENGTH (deviceId e) && text_ok MAX_ID_LENGTH (publicIdentityReference e) &&
  text_ok MAX_ALGORITHM_LENGTH (algorithm e) && timestamp_ok (createdAt e) &&
  from_option timestamp_ok true (revokedAt e) && from_option (text_ok MAX_LABEL_LENGTH) true (label e) &&
  match revokedAt e with
  | Some r => bool_decide (state e = revoked) && (createdAt e <=? r)
  | None => negb (bool_decide (state e = revoked))
  end.

Definition list_ok (l : DeviceList) : bool :=
  text_ok 256 (identityReference l) && timestamp_ok (epoch l) && from_option hex64 true (previousCommitment l) &&
  forallb entry_ok (devices l) && bool_decide (NoDup (deviceId <$> devices l)) &&
  bool_decide (NoDup (publicIdentityReference <$> devices l)).

Lemma assertString_ok v max s : assertString v max = Ok s ↔ v = JStr s ∧ text_ok max s = true.
Proof.
  unfold assertString. split.
  - intros H. destruct v; try discriminate. res_inv H. subst. apply negb_false_iff in H0. done.
  - intros [-> H]. by rewrite H.
Qed.

Lemma natural_ok msg v z : natural v msg = Ok z ↔ v = JNum (NInt z) ∧ timestamp_ok z = true.
Proof.
  unfold natural, timestamp_ok. split.
  - intros H. destruct v; try discriminate. res_inv H. subst. apply safe_int_Some in H0 as [-> ->]. split; [done|].
    simpl. lia.
  - intros [-> [H1 H2]%andb_true_iff]. rewrite (proj2 (safe_int_Some (NInt z) z)) by done. simpl.
    by rewrite (proj2 (Z.ltb_ge _ _)) by lia.
Qed.

Lemma assertTimestamp_ok v z : assertTimestamp v = Ok z ↔ v = JNum (NInt z) ∧ timestamp_ok z = true.
Proof. apply natural_ok. Qed.

Lemma optional_timestamp v o :
  optional v assertTimestamp = Ok o ↔
  v = from_option (λ z, JNum (NInt z)) JUndef o ∧ from_option timestamp_ok true o = true.
Proof.
  unfold optional. split.
  - destruct v; intros H; try (by injection H as <-); res_inv H; subst;
      apply assertTimestamp_ok in H0 as [? ?]; by simplify_eq.
  - destruct o as [z|]; intros [-> H]; [|done].
    eapply res_step; [by apply assertTimestamp_ok|done].
Qed.

Lemma optional_string v max o :
  optional v (λ v, assertString v max) = Ok o ↔
  v = from_option JStr JUndef o ∧ from_option (text_ok max) true o = true.
Proof.
  unfold optional. split.
  - destruct v; intros H; try (by injection H as <-); res_inv H; subst;
      apply assertString_ok in H0 as [? ?]; by simplify_eq.
  - destruct o as [z|]; intros [-> H]; [|done].
    eapply res_step; [by apply assertString_ok|done].
Qed.

Lemma state_of_json_name v s : state_of_json v = Some s ↔ v = JStr (state_name s).
Proof.
  split.
  - destruct v; simpl; try done. repeat case_if; intros [= <-]; bool_prop; by subst.
  - intros ->. by destruct s.
Qed.

(** The validated constructor, as a decision on the fields. *)
Lemma createDeviceEntry_ok v e :
  createDeviceEntry v = Ok e →
  entry_ok e = true ∧ ∃ fs, v = JObj fs ∧
    get fs "deviceId" = JStr (deviceId e) ∧ get fs "publicIdentityReference" = JStr (publicIdentityReference e) ∧
    get fs "algorithm" = JStr (algorithm e) ∧ get fs "state" = JStr (state_name (state e)) ∧
    get fs "createdAt" = JNum (NInt (createdAt e)) ∧
    get fs "revokedAt" = from_option (λ z, JNum (NInt z)) JUndef (revokedAt e) ∧
    get fs "label" = from_option JStr JUndef (label e).
Proof.
  unfold createDeviceEntry. intros H. apply bind_ok in H as (fs & Hfs & H). apply require_ok in Hfs.
  destruct v; try discriminate Hfs. injection Hfs as ->. res_inv H. subst e.
  apply assertString_ok in H1 as [E1 K1], H2 as [E2 K2], H3 as [E3 K3]. apply state_of_json_name in H4.
  apply assertTimestamp_ok in H5 as [E5 K5]. apply optional_timestamp in H6 as [E6 K6].
  apply optional_string in H7 as [E7 K7].
  split; [|by exists fs].
  unfold entry_ok. cbn [deviceId publicIdentityReference algorithm createdAt revokedAt label state].
  rewrite K1, K2, K3, K5, K6, K7. cbn [andb].
  match goal with |- match ?r with _ => _ end = true => destruct r as [r|] end;
    match goal with |- context [bool_decide ?P] => destruct (bool_decide P) end;
    cbn in H8, H9, H10; try discriminate; [|done]. simpl. lia.
Qed.

Lemma entry_json_fields e :
  ∃ fs, entry_json e = JObj fs ∧
    assertRecordKeys fs ["algorithm"; "createdAt"; "deviceId"; "label"; "publicIdentityReference"; "revokedAt"; "state"] = Ok tt ∧
    get fs "deviceId" = JStr (deviceId e) ∧ get fs "publicIdentityReference" = JStr (publicIdentityReference e) ∧
    get fs "algorithm" = JStr (algorithm e) ∧ get fs "state" = JStr (state_name (state e)) ∧
    get fs "createdAt" = JNum (NInt (createdAt e)) ∧
    get fs "revokedAt" = from_option (λ z, JNum (NInt z)) JUndef (revokedAt e) ∧
    get fs "label" = from_option JStr JUndef (label e).
Proof. destruct e as [? ? ? ? ? [?|] [?|]]; eexists; (split; [reflexivity|]); split_and!; reflexivity. Qed.

Lemma createDeviceEntry_json_inv e e' : createDeviceEntry (entry_json e) = Ok e' → e' = e.
Proof.
  intros (_ & fs & Hv & H1 & H2 & H3 & H4 & H5 & H6 & H7)%createDeviceEntry_ok.
  destruct (entry_json_fields e) as (fs' & Hv' & _ & E1 & E2 & E3 & E4 & E5 & E6 & E7).
  rewrite Hv in Hv'. injection Hv' as <-. destruct e, e'. cbn in *.
  assert (∀ a b, state_name a = state_name b → a = b) as Hst by (by intros [] []).
  assert (∀ a b : option Z, from_option (λ z, JNum (NInt z)) JUndef a = from_option (λ z, JNum (NInt z)) JUndef b → a = b)
    as Hz by (intros [|] [|]; simpl; congruence).
  assert (∀ a b : option string, from_option JStr JUndef a = from_option JStr JUndef b → a = b)
    as Hs by (intros [|] [|]; simpl; congruence).
  f_equal; try congruence; [apply Hst|apply Hz|apply Hs]; congruence.
Qed.

Lemma createDeviceEntry_json e : entry_ok e = true → createDeviceEntry (entry_json e) = Ok e.
Proof.
  unfold entry_ok. rewrite !andb_true_iff. intros ((((((K1 & K2) & K3) & K5) & K6) & K7) & K8).
  destruct (entry_json_fields e) as (fs & -> & Hk & E1 & E2 & E3 & E4 & E5 & E6 & E7).
  unfold createDeviceEntry. cbn [as_object require mbind res_bind].
  eapply res_step; [exact Hk|]. eapply res_step; [by apply assertString_ok|].
  eapply res_step; [by apply assertString_ok|]. eapply res_step; [by apply assertString_ok|].
  eapply res_step; [by apply require_ok, state_of_json_name|]. eapply res_step; [by apply assertTimestamp_ok|].
  eapply res_step; [by apply optional_timestamp|]. eapply res_step; [by apply optional_string|].
  destruct e as [id pub alg st cr [rv|] lb]; cbn in K8 |- *.
  - apply andb_true_iff in K8 as [K8 ?]. rewrite K8. cbn.
    by rewrite (proj2 (Z.ltb_ge _ _)) by lia.
  - apply negb_true_iff in K8. by rewrite K8.
Qed.

Lemma existsb_eqb s l : existsb (String.eqb s) l = bool_decide (s ∈ l).
Proof.
  induction l as [|x l IH]; cbn [existsb]; [by rewrite bool_decide_eq_false_2 by set_solver|].
  rewrite IH. destruct (String.eqb_spec s x) as [->|]; bdecide; set_solver.
Qed.

Lemma no_duplicates_ok ids identities l :
  no_duplicates ids identities l = Ok tt ↔
  NoDup (deviceId <$> l) ∧ NoDup (publicIdentityReference <$> l) ∧
  (∀ e, e ∈ l → deviceId e ∉ ids ∧ publicIdentityReference e ∉ identities).
Proof.
  revert ids identities. induction l as [|e l IH]; intros ids idents; cbn [no_duplicates].
  - split; [|done]. intros _. split_and!; [constructor..|set_solver].
  - rewrite !existsb_eqb, !fmap_cons, !NoDup_cons. split.
    + intros H. res_inv H. apply IH in H as (Hd & Hp & Hn). apply bool_decide_eq_false in H0, H1.
      split_and!; try done.
      * intros (e' & Heq & He)%list_elem_of_fmap. destruct (Hn e' He). set_solver.
      * intros (e' & Heq & He)%list_elem_of_fmap. destruct (Hn e' He). set_solver.
      * intros e' [->|He]%elem_of_cons; [done|]. destruct (Hn e' He). set_solver.
    + intros ([Hd1 Hd] & [Hp1 Hp] & Hn). destruct (Hn e) as [Ha Hb]; [set_solver|].
      rewrite !bool_decide_eq_false_2 by done. cbn. apply IH. split_and!; [done..|].
      intros e' He. destruct (Hn e') as [? ?]; [set_solver|]. rewrite !not_elem_of_cons. split_and!; [|done| |done].
      * intros Heq. apply Hd1. rewrite <-Heq. by apply list_elem_of_fmap_2.
      * intros Heq. apply Hp1. rewrite <-Heq. by apply list_elem_of_fmap_2.
Qed.

Lemma mapM_res_ok {A B} (f : A → res B) l ys :
  mapM_res f l = Ok ys ↔ Forall2 (λ x y, f x = Ok y) l ys.
Proof.
  revert ys. induction l as [|x l IH]; intros ys; cbn [mapM_res].
  - split; [intros [= <-]; constructor|by inversion_clear 1].
  - split.
    + intros H. res_inv H. subst. constructor; [done|by apply IH].
    + inversion_clear 1 as [|? y ? ys' Hy Hys]. rewrite Hy. cbn. apply IH in Hys. by rewrite Hys.
Qed.

Lemma createDeviceList_ok v l : createDeviceList v = Ok l → list_ok l = true.
Proof.
  unfold createDeviceList. intros H. apply bind_ok in H as (fs & Hfs & H). apply require_ok in Hfs.
  destruct v; try discriminate Hfs. injection Hfs as ->.
  apply bind_ok in H as (? & _ & H). apply bind_ok in H as (? & _ & H).
  apply bind_ok in H as (ir & Hir & H). apply bind_ok in H as (ep & Hep & H).
  apply bind_ok in H as (pc & Hpc & H). apply bind_ok in H as (es & _ & H).
  apply bind_ok in H as (ds & Hds & H). apply bind_ok in H as ([] & Hnd & H). apply Ok_inj in H. subst l.
  apply no_duplicates_ok in Hnd as (Hn1 & Hn2 & _).
  unfold list_ok. cbn [identityReference epoch previousCommitment devices].
  rewrite !bool_decide_eq_true_2 by done. rewrite !andb_true_r, !andb_true_iff. split_and!.
  - destruct (get fs "identityReference"); try discriminate. res_inv Hir. subst. by apply negb_false_iff.
  - by apply natural_ok in Hep as [_ ?].
  - destruct (get fs "previousCommitment"); try discriminate; res_inv Hpc; subst; [done|]. by apply negb_false_iff.
  - apply mapM_res_ok in Hds. apply forallb_forall. intros e He%list_elem_of_In.
    apply list_elem_of_lookup in He as [i Hi].
    destruct (Forall2_lookup_r _ _ _ _ _ Hds Hi) as (w & _ & Hx). by apply createDeviceEntry_ok in Hx as [? _].
Qed.

Lemma createDeviceList_json l l' : createDeviceList (list_json l) = Ok l' ↔ l' = l ∧ list_ok l = true.
Proof.
  assert (∀ l, list_ok l = true → createDeviceList (list_json l) = Ok l) as Hok.
  { clear. intros l. unfold list_ok. rewrite !andb_true_iff, !bool_decide_eq_true.
    intros (((((K1 & K2) & K3) & K4) & K5) & K6). unfold createDeviceList, list_json.
    cbn [as_object require mbind res_bind]. eapply res_step; [reflexivity|].
    cbn [get String.eqb Ascii.eqb Bool.eqb]. rewrite bool_decide_eq_true_2 by done.
    eapply res_step; [reflexivity|]. rewrite K1. eapply res_step; [reflexivity|].
    eapply res_step; [by apply natural_ok|].
    eapply (res_step _ _ (previousCommitment l)).
    { destruct (previousCommitment l); simpl in *; [by rewrite K3|done]. }
    eapply res_step; [reflexivity|]. eapply (res_step _ _ (devices l)).
    { apply mapM_res_ok, Forall2_fmap_l, Forall_Forall2_diag, Forall_forall. intros e He.
      apply createDeviceEntry_json. rewrite forallb_forall in K4. apply K4. by apply list_elem_of_In. }
    eapply res_step; [apply no_duplicates_ok; split_and!; [done..|set_solver]|]. by destruct l. }
  split; [|by intros [-> ?]; apply Hok]. intros H. pose proof (createDeviceList_ok _ _ H) as Hl'.
  assert (l' = l) as ->; [|done]. revert H. unfold createDeviceList, list_json.
  intros H. apply bind_ok in H as (fs & Hfs & H). apply require_ok in Hfs. injection Hfs as <-.
  apply bind_ok in H as (? & _ & H). apply bind_ok in H as (? & _ & H).
  apply bind_ok in H as (ir & Hir & H). apply bind_ok in H as (ep & Hep & H).
  apply bind_ok in H as (pc & Hpc & H). apply bind_ok in H as (es & Hes & H).
  apply bind_ok in H as (ds & Hds & H). apply bind_ok in H as ([] & _ & H). apply Ok_inj in H. subst l'.
  cbn [get String.eqb Ascii.eqb Bool.eqb] in *. res_inv Hir. apply natural_ok in Hep as [[= <-] _].
  assert (pc = previousCommitment l) as ->.
  { destruct (previousCommitment l); simpl in Hpc; res_inv Hpc; by subst. }
  res_inv Hes. subst. apply mapM_res_ok in Hds.
  assert (ds = devices l) as ->; [|by destruct l].
  apply Forall2_fmap_l in Hds. clear -Hds. induction Hds as [|e e' es es' He _ IH]; [done|]. f_equal; [|done].
  by apply createDeviceEntry_json_inv.
Qed.

(** Validation is a sound and stable boundary: whatever value the list constructor accepts, the
    list it returns is well formed (bounded control-free texts, safe non-negative integers, a
    commitment of 64 hexadecimal digits, revocation consistent with the state, no two devices with
    the same identifier or the same identity), and validating it again returns it unchanged. *)
Theorem device_list_validation v l :
  createDeviceList v = Ok l →
  list_ok l = true ∧ createDeviceList (list_json l) = Ok l ∧ ∀ e, e ∈ devices l → entry_ok e = true.
Proof.
  intros H%createDeviceList_ok. split_and!; [done|by apply createDeviceList_json|].
  intros e He. unfold list_ok in H. rewrite !andb_true_iff, forallb_forall in H.
  apply H. by apply list_elem_of_In.
Qed.

Definition sample_entry (i : string) : DeviceEntry :=
  {| deviceId := i; publicIdentityReference := "K3 " +:+ i; algorithm := "ed25519"; state := active;
     createdAt := 1; revokedAt := None; label := None |}.
Definition sample_list (ids : list string) : DeviceList :=
  {| identityReference := "account"; epoch := 3; previousCommitment := None; devices := sample_entry <$> ids |}.

Lemma device_list_validation_witness : list_ok (sample_list ["a"; "b"]) = true.
Proof.
  refine (proj1 (device_list_validation (list_json (sample_list ["a"; "b"])) (sample_list ["a"; "b"]) _)).
  vm_compute. reflexivity.
Defined.

(** ** The canonical encoding identifies the list *)
Definition same_list (a b : DeviceList) : Prop :=
  identityReference a = identityReference b ∧ epoch a = epoch b ∧
  previousCommitment a = previousCommitment b ∧ devices a ≡ₚ devices b.

Definition sort_devices (l : list DeviceEntry) : list DeviceEntry :=
  js_sort (λ left right, string_cmp (deviceId left) (deviceId right)) l.
Definition canonical_value (l : DeviceList) : jsval :=
  JObj [("version", JNum (NInt 1)); ("identityReference", JStr (identityReference l));
    ("epoch", JNum (NInt (epoch l))); ("previousCommitment", from_option JStr JNull (previousCommitment l));
    ("devices", JArr (entry_json <$> sort_devices (devices l)))].

Lemma entry_json_plain e : plain (entry_json e) = true.
Proof. destruct e as [? ? ? ? ? [?|] [?|]]; vm_compute; reflexivity. Qed.

Lemma canonical_value_plain l : plain (canonical_value l) = true.
Proof.
  assert (plain (JArr (entry_json <$> sort_devices (devices l))) = true) as Hd.
  { apply plain_arr, Forall_fmap, Forall_forall. intros e _. apply entry_json_plain. }
  cbn [plain] in Hd. unfold canonical_value. cbn [plain forallb snd]. rewrite Hd.
  by destruct (previousCommitment l).
Qed.

Lemma canonicalDeviceListJson_ok l t :
  canonicalDeviceListJson l = Ok t ↔ list_ok l = true ∧ t = stringify (canonical_value l).
Proof.
  unfold canonicalDeviceListJson. assert (∀ es, mapM_res (λ entry, require (parse (canonicalEntry entry)) "SyntaxError") es
    = Ok (entry_json <$> es)) as Hes.
  { intros es. apply mapM_res_ok, Forall2_fmap_r, Forall_Forall2_diag, Forall_forall. intros e _.
    unfold canonicalEntry. rewrite parse_stringify by apply entry_json_plain. done. }
  split.
  - intros H. apply bind_ok in H as (l' & [-> Hl]%createDeviceList_json & H). cbv zeta in H. rewrite Hes in H.
    split; [done|]. by apply Ok_inj in H.
  - intros [Hl ->]. eapply res_step; [by apply createDeviceList_json|]. cbv zeta. by rewrite Hes.
Qed.

Lemma entry_json_inj a b : entry_json a = entry_json b → entry_ok a = true → entry_ok b = true → a = b.
Proof.
  intros H Ha Hb. apply createDeviceEntry_json in Ha, Hb. rewrite H in Ha. congruence.
Qed.

Lemma list_ok_entries l e : list_ok l = true → e ∈ devices l → entry_ok e = true.
Proof.
  unfold list_ok. rewrite !andb_true_iff, forallb_forall. intros H He. apply H. by apply list_elem_of_In.
Qed.

Lemma sort_devices_perm l1 l2 : NoDup (deviceId <$> l1) → l1 ≡ₚ l2 → sort_devices l1 = sort_devices l2.
Proof.
  intros Hnd Hp. apply (js_sort_permutation _ (.∈ l1)); [..|by apply Forall_forall|done].
  - intros x y _ _. apply string_cmp_total.
  - intros x y z _ _ _. apply string_cmp_trans.
  - intros a b Ha Hb H1 H2. assert (deviceId a = deviceId b) as Heq by (by apply string_cmp_anti).
    apply list_elem_of_lookup in Ha as [i Hi], Hb as [j Hj].
    assert (i = j) as ->; [|congruence].
    eapply NoDup_lookup; [exact Hnd|by rewrite list_lookup_fmap, Hi|]. by rewrite list_lookup_fmap, Hj, Heq.
Qed.

Lemma fmap_json_inj (l1 l2 : list DeviceEntry) :
  (∀ e, e ∈ l1 → entry_ok e = true) → (∀ e, e ∈ l2 → entry_ok e = true) →
  entry_json <$> l1 = entry_json <$> l2 → l1 = l2.
Proof.
  revert l2. induction l1 as [|a l1 IH]; intros [|b l2] H1 H2 H; try done.
  rewrite !fmap_cons in H.
  assert (entry_json a = entry_json b ∧ entry_json <$> l1 = entry_json <$> l2) as [Hab Hl] by (split; congruence).
  assert (a = b) as -> by (apply entry_json_inj; [exact Hab|apply H1; set_solver|apply H2; set_solver]).
  f_equal. apply IH; [|intros e He; apply H2; set_solver|exact Hl]. intros e He. apply H1. set_solver.
Qed.

Lemma canonical_same l1 l2 :
  list_ok l1 = true → list_ok l2 = true →
  canonicalDeviceListJson l1 = canonicalDeviceListJson l2 → same_list l1 l2.
Proof.
  intros Hl1 Hl2.
  rewrite (proj2 (canonicalDeviceListJson_ok l1 _) (conj Hl1 eq_refl)),
    (proj2 (canonicalDeviceListJson_ok l2 _) (conj Hl2 eq_refl)).
  intros H%Ok_inj. apply stringify_inj in H; [|apply canonical_value_plain..].
  unfold canonical_value in H. injection H as Hi He Hp Hd. unfold same_list. split_and!; [done|done| |].
  - destruct (previousCommitment l1), (previousCommitment l2); simpl in Hp; congruence.
  - apply fmap_json_inj in Hd.
    + rewrite <-(js_sort_perm (λ left right, string_cmp (deviceId left) (deviceId right)) (devices l1)).
      rewrite <-(js_sort_perm (λ left right, string_cmp (deviceId left) (deviceId right)) (devices l2)).
      unfold sort_devices in Hd. by rewrite Hd.
    + intros e. unfold sort_devices. rewrite js_sort_perm. by apply list_ok_entries.
    + intros e. unfold sort_devices. rewrite js_sort_perm. by apply list_ok_entries.
Qed.

Lemma same_canonical l1 l2 :
  list_ok l1 = true → list_ok l2 = true → same_list l1 l2 →
  canonicalDeviceListJson l1 = canonicalDeviceListJson l2.
Proof.
  intros Hl1 Hl2 (Hi & He & Hp & Hd).
  rewrite (proj2 (canonicalDeviceListJson_ok l1 _) (conj Hl1 eq_refl)),
    (proj2 (canonicalDeviceListJson_ok l2 _) (conj Hl2 eq_refl)).
  do 2 f_equal. unfold canonical_value. rewrite Hi, He, Hp.
  rewrite (sort_devices_perm (devices l1) (devices l2)); [done| |done].
  unfold list_ok in Hl1. rewrite !andb_true_iff, !bool_decide_eq_true in Hl1. tauto.
Qed.

(** the canonical encoding identifies a device list: two well-formed lists have the same
    canonical text exactly when they agree on account, epoch and previous commitment and hold the
    same devices in any order; so a commitment neither depends on the order of the devices nor
    identifies two different lists (unless SHA-256 collides). *)
Theorem canonical_encoding_identifies l1 l2 :
  list_ok l1 = true → list_ok l2 = true →
  (canonicalDeviceListJson l1 = canonicalDeviceListJson l2 ↔ same_list l1 l2).
Proof. intros Hl1 Hl2. split; [by apply canonical_same|by apply same_canonical]. Qed.

Lemma canonical_encoding_identifies_witness :
  canonicalDeviceListJson (sample_list ["a"; "b"]) = canonicalDeviceListJson (sample_list ["b"; "a"]).
Proof.
  apply (canonical_encoding_identifies (sample_list ["a"; "b"]) (sample_list ["b"; "a"]));
    [vm_compute; reflexivity..|].
  split_and!; [reflexivity..|]. apply Permutation_swap.
Defined.

(** A list that passes the rollback check is for the same account and is either strictly newer or
    the same list: a device never accepts an older list, nor a second list for an epoch it has seen;
    and along a chain of accepted next lists the epoch grows by exactly one per step. *)
Theorem no_rollback_and_no_fork cur candidate :
  (assertNotRollback cur candidate = Ok tt →
     identityReference candidate = identityReference cur ∧
     (epoch cur < epoch candidate ∨ same_list cur candidate)) ∧
  (assertNextEpoch cur candidate = Ok tt →
     epoch candidate = epoch cur + 1 ∧ previousCommitment candidate ≠ None ∧ assertNotRollback cur candidate = Ok tt).
Proof.
  split.
  - unfold assertNotRollback. intros H.
    apply bind_ok in H as (c & [-> Hc]%createDeviceList_json & H).
    apply bind_ok in H as (d & [-> Hd]%createDeviceList_json & H).
    apply bind_ok in H as (? & Hi & H). apply bind_ok in H as (? & He & H).
    apply throw_if_ok, negb_false_iff, String.eqb_eq in Hi. apply throw_if_ok, Z.ltb_ge in He.
    split; [done|]. destruct (Z.eqb_spec (epoch candidate) (epoch cur)) as [E|E]; [right|left; lia].
    apply bind_ok in H as (a & Ha & H). apply bind_ok in H as (b & Hb & H).
    apply throw_if_ok, negb_false_iff, String.eqb_eq in H. subst b.
    apply canonical_same; [done..|congruence].
  - unfold assertNextEpoch. intros H.
    apply bind_ok in H as (c & [-> Hc]%createDeviceList_json & H).
    apply bind_ok in H as (d & [-> Hd]%createDeviceList_json & H).
    apply bind_ok in H as (? & Hi & H). apply bind_ok in H as (? & He & H).
    apply throw_if_ok, negb_false_iff in Hi. apply throw_if_ok, negb_false_iff, Z.eqb_eq in He.
    apply throw_if_ok, bool_decide_eq_false in H. split_and!; [done..|].
    unfold assertNotRollback. eapply res_step; [by apply createDeviceList_json|].
    eapply res_step; [by apply createDeviceList_json|]. rewrite Hi. eapply res_step; [done|].
    rewrite (proj2 (Z.ltb_ge _ _)) by lia. eapply res_step; [done|].
    by rewrite (proj2 (Z.eqb_neq _ _)) by lia.
Qed.

Definition next_sample (l : DeviceList) : DeviceList :=
  {| identityReference := identityReference l; epoch := epoch l + 1;
     previousCommitment := Some "0000000000000000000000000000000000000000000000000000000000000000";
     devices := devices l |}.

Lemma no_rollback_and_no_fork_witness :
  assertNotRollback (sample_list ["a"]) (next_sample (sample_list ["a"])) = Ok tt.
Proof.
  apply (no_rollback_and_no_fork (sample_list ["a"]) (next_sample (sample_list ["a"]))).
  vm_compute. reflexivity.
Defined.
