(* ===== verification/Lifecycle.v ===== *)
(** * Device enrollment and revocation ([devices/lifecycle.ts], [devices/authenticatedContext.ts])

    The lifecycle service over the persistence interface. [clock i] is the i-th reading of
    [this.now()] in an operation. The authorization verifier and SHA-256 are parameters. *)
From S2P Require Import Prelude Json DeviceList.

(** ** Data *)
(* service/src/devices/lifecycle.ts:8-8 DeviceAuthorizationOperation *)
Inductive DeviceAuthorizationOperation := enroll | revoke.
#[export] Instance DeviceAuthorizationOperation_eq_dec : EqDecision DeviceAuthorizationOperation.
Proof. solve_decision. Defined.
Definition operation_name (o : DeviceAuthorizationOperation) : string :=
  match o with enroll => "enroll" | revoke => "revoke" end.

(* service/src/devices/lifecycle.ts:11-16 AuthenticatedSenderIdentity *)
Record AuthenticatedSenderIdentity := {
  sender_deviceId : string; sender_identityReference : string; sender_userScope : string; verified : bool }.

(** A [CryptoSession], by its identity and its two flags. *)
Record CryptoSession := { session_id : Z; encrypted : bool; ready : bool }.

(** A context object; [proof] is its entry in the [WeakMap] of issued contexts (absent for an object
    that was not issued): the session it was issued for, and the payload it was issued with. *)
(* service/src/devices/lifecycle.ts:18-23 AuthenticatedDeviceContext *)
Record AuthenticatedDeviceContext := {
  cryptoSession : CryptoSession; conversationId : string; userScope : string;
  authenticatedSender : AuthenticatedSenderIdentity;
  proof : option (CryptoSession * option string) }.

(* service/src/devices/lifecycle.ts:25-36 EnrollmentRequest *)
Record EnrollmentRequest := {
  req_userScope : string; req_transactionNonce : string; requestedDeviceId : string;
  requestedPublicIdentityReference : string; req_algorithm : string; purpose : string;
  knownEpoch : Z; req_createdAt : Z; req_expiresAt : Z }.

(* service/src/devices/lifecycle.ts:38-54 DeviceAuthorization *)
Record DeviceAuthorization := {
  auth_version : Z; operation : DeviceAuthorizationOperation; auth_userScope : string; authorDeviceId : string;
  authorIdentityReference : string; targetDeviceId : string;
  targetPublicIdentityReference : option string; targetAlgorithm : option string;
  previousEpoch : Z; auth_previousCommitment : string; transactionNonce : string; sequence : Z;
  auth_createdAt : Z; auth_expiresAt : Z; authorizationDigest : string }.

(* service/src/devices/lifecycle.ts:56-65 EnrollmentConfirmation *)
Record EnrollmentConfirmation := {
  ec_version : Z; ec_authorizationDigest : string; ec_targetDeviceId : string; ec_targetIdentityReference : string;
  ec_nonce : string; ec_confirmedAt : Z; ec_expiresAt : Z; ec_digest : string }.
(* service/src/devices/lifecycle.ts:67-75 RevocationConfirmation *)
Record RevocationConfirmation := {
  rc_version : Z; rc_authorizationDigest : string; rc_targetDeviceId : string;
  rc_nonce : string; rc_confirmedAt : Z; rc_expiresAt : Z; rc_digest : string }.

(* service/src/devices/lifecycle.ts:77-80 LifecycleStateSnapshot *)
Record LifecycleStateSnapshot := { snapshot_list : DeviceList; commitment : string }.
(* service/src/devices/lifecycle.ts:82-89 AuthorizationRecord *)
Record AuthorizationRecord := {
  rec_operation : DeviceAuthorizationOperation; rec_transactionNonce : string; rec_authorDeviceId : string;
  rec_sequence : Z; rec_digest : string; rec_expiresAt : Z }.

(** The argument of the two commits. *)
Record CommitInput := {
  scope : string; expectedEpoch : Z; in_previousCommitment : string; nextList : DeviceList;
  nextCommitment : string; authorization : AuthorizationRecord }.

(** The operations of the persistence the service uses. [readAuthorization] gives the record's
    transaction nonce, the only field read from it. *)
(* service/src/devices/lifecycle.ts:92-115 DeviceLifecyclePersistence *)
Class DeviceLifecyclePersistence (P : Type) := {
  read_state : string → P → res (option LifecycleStateSnapshot);
  readAuthorization : string → string → P → res (option jsval);
  commit : CommitInput → M P unit }.

(** ** Guards *)
(* service/src/devices/lifecycle.ts:123-123 NONCE_PATTERN, DIGEST_PATTERN *)
Definition nonce_ok (s : string) : bool := base64url_between 16 128 s.

(* service/src/devices/authenticatedContext.ts:25-29 assertIssuedDeviceContext *)
Definition assertIssuedDeviceContext (context : AuthenticatedDeviceContext) (payload : option string) : res unit :=
  p ← require (proof context) "Invalid authenticated device context.";
  throw_if (negb (ready p.1) || negb (encrypted p.1) || negb (session_id p.1 =? session_id (cryptoSession context)))
    "Invalid authenticated device context.";;
  throw_if (match p.2 with None => false | Some issued => negb (bool_decide (payload = Some issued)) end)
    "Authenticated device payload mismatch.".

(** [DeviceContextAuthority]'s constructor of contexts. *)
(* service/src/devices/authenticatedContext.ts:18-23 DeviceContextAuthority.issue *)
Definition issue (session : CryptoSession) (conversation : string) (sender : AuthenticatedSenderIdentity)
    (payload : option string) : res AuthenticatedDeviceContext :=
  throw_if (negb (ready session) || negb (encrypted session) || negb (verified sender))
    "Authenticated device context unavailable.";;
  mret {| cryptoSession := session; conversationId := conversation; userScope := sender_userScope sender;
          authenticatedSender := sender; proof := Some (session, payload) |}.

(* service/src/devices/lifecycle.ts:129-134 assertContext *)
Definition assertContext (context : AuthenticatedDeviceContext) (payload : option string) : res unit :=
  assertIssuedDeviceContext context payload;;
  let sender := authenticatedSender context in
  throw_if (negb (encrypted (cryptoSession context)) || negb (ready (cryptoSession context)) || negb (verified sender))
    "Authenticated device context unavailable.";;
  throw_if (negb (nonempty (conversationId context)) || negb (nonempty (userScope context)) ||
            negb (String.eqb (userScope context) (sender_userScope sender)) ||
            negb (nonempty (sender_deviceId sender)) || negb (nonempty (sender_identityReference sender)))
    "Authenticated device context unavailable.".

(* service/src/devices/lifecycle.ts:136-138 assertWindow *)
Definition assertWindow (created expires now : Z) : res unit :=
  throw_if (negb (isSafeInteger created) || negb (isSafeInteger expires) || (expires <? created) ||
            (now <? created) || (expires <? now)) "Device authorization expired.".

(* service/src/devices/lifecycle.ts:139-143 assertAuthor *)
Definition assertAuthor (st : LifecycleStateSnapshot) (a : DeviceAuthorization) : res unit :=
  author ← require (deviceEntryById (snapshot_list st) (authorDeviceId a)) "Authorization issuer unavailable.";
  assertDeviceCanAuthorize author;;
  throw_if (negb (String.eqb (publicIdentityReference author) (authorIdentityReference a)) ||
            negb (String.eqb (identityReference (snapshot_list st)) (auth_userScope a)) ||
            negb (auth_version a =? 1) || negb (nonce_ok (transactionNonce a)) ||
            negb (sequence a =? previousEpoch a + 1)) "Authorization issuer or scope rejected.".

(** ** Canonical texts and digests *)
(* service/src/devices/lifecycle.ts:145-163 canonicalAuthorization *)
Definition canonicalAuthorization (a : DeviceAuthorization) : jsval :=
  obj [("version", Some (JNum (NInt 1))); ("operation", Some (JStr (operation_name (operation a))));
    ("userScope", Some (JStr (auth_userScope a))); ("authorDeviceId", Some (JStr (authorDeviceId a)));
    ("authorIdentityReference", Some (JStr (authorIdentityReference a)));
    ("targetDeviceId", Some (JStr (targetDeviceId a)));
    ("targetPublicIdentityReference", JStr <$> targetPublicIdentityReference a);
    ("targetAlgorithm", JStr <$> targetAlgorithm a);
    ("previousEpoch", Some (JNum (NInt (previousEpoch a))));
    ("previousCommitment", Some (JStr (auth_previousCommitment a)));
    ("transactionNonce", Some (JStr (transactionNonce a))); ("sequence", Some (JNum (NInt (sequence a))));
    ("createdAt", Some (JNum (NInt (auth_createdAt a)))); ("expiresAt", Some (JNum (NInt (auth_expiresAt a))))].

(** The two unsigned confirmations, in the field order of their constructors. *)
(* service/src/devices/lifecycle.ts:165-166 canonicalConfirmation *)
Definition canonicalEnrollmentConfirmation (c : EnrollmentConfirmation) : jsval :=
  JObj [("version", JNum (NInt (ec_version c))); ("authorizationDigest", JStr (ec_authorizationDigest c));
    ("targetDeviceId", JStr (ec_targetDeviceId c)); ("targetIdentityReference", JStr (ec_targetIdentityReference c));
    ("confirmationNonce", JStr (ec_nonce c)); ("confirmedAt", JNum (NInt (ec_confirmedAt c)));
    ("expiresAt", JNum (NInt (ec_expiresAt c)))].
Definition canonicalRevocationConfirmation (c : RevocationConfirmation) : jsval :=
  JObj [("version", JNum (NInt (rc_version c))); ("authorizationDigest", JStr (rc_authorizationDigest c));
    ("targetDeviceId", JStr (rc_targetDeviceId c));
    ("confirmationNonce", JStr (rc_nonce c)); ("confirmedAt", JNum (NInt (rc_confirmedAt c)));
    ("expiresAt", JNum (NInt (rc_expiresAt c)))].

Section service.
Context (sha256_hex : string → string).
(** [DeviceAuthorizationVerifier], implemented by the runtime. *)
Context (verify : AuthenticatedDeviceContext → DeviceAuthorization → res unit).

(* service/src/devices/lifecycle.ts:175-175 authorizationDigest *)
Definition authorizationDigest_of (a : DeviceAuthorization) : string := sha256_hex (stringify (canonicalAuthorization a)).

(** The digest is lowercase hexadecimal already. *)
(* service/src/devices/lifecycle.ts:177-180 verifyAuthorizationDigest *)
Definition verifyAuthorizationDigest (a : DeviceAuthorization) : bool :=
  hex64 (authorizationDigest a) && String.eqb (authorizationDigest_of a) (authorizationDigest a).

(* service/src/devices/lifecycle.ts:184-187 verifyConfirmationDigest *)
Definition verifyEnrollmentConfirmation (c : EnrollmentConfirmation) : bool :=
  hex64 (ec_digest c) && String.eqb (sha256_hex (stringify (canonicalEnrollmentConfirmation c))) (ec_digest c).
Definition verifyRevocationConfirmation (c : RevocationConfirmation) : bool :=
  hex64 (rc_digest c) && String.eqb (sha256_hex (stringify (canonicalRevocationConfirmation c))) (rc_digest c).

(** [JSON.stringify] of an authorization, and of an authorization with its confirmation. *)
Definition authorization_value (a : DeviceAuthorization) : jsval :=
  match canonicalAuthorization a with
  | JObj fs => JObj (fs ++ [("authorizationDigest", JStr (authorizationDigest a))])
  | v => v
  end.
Definition enrollment_payload (a : DeviceAuthorization) (c : EnrollmentConfirmation) : string :=
  stringify (JObj [("authorization", authorization_value a);
    ("confirmation", match canonicalEnrollmentConfirmation c with
                     | JObj fs => JObj (fs ++ [("confirmationDigest", JStr (ec_digest c))]) | v => v end)]).
Definition revocation_payload (a : DeviceAuthorization) (c : RevocationConfirmation) : string :=
  stringify (JObj [("authorization", authorization_value a);
    ("confirmation", match canonicalRevocationConfirmation c with
                     | JObj fs => JObj (fs ++ [("confirmationDigest", JStr (rc_digest c))]) | v => v end)]).

(* service/src/devices/lifecycle.ts:202-219 createEnrollmentRequest *)
Definition createEnrollmentRequest (scope device identity algorithm : string) (epoch now ttl : Z) (nonce : string)
    : res EnrollmentRequest :=
  let expires := now + ttl in
  throw_if (negb (nonempty scope) || negb (nonempty device) || negb (nonempty identity) || negb (nonempty algorithm) ||
            negb (nonce_ok nonce) || negb (isSafeInteger epoch) || (epoch <? 0) || negb (isSafeInteger now) ||
            negb (isSafeInteger expires) || (expires <=? now)) "Invalid enrollment request.";;
  mret {| req_userScope := scope; req_transactionNonce := nonce; requestedDeviceId := device;
          requestedPublicIdentityReference := identity; req_algorithm := algorithm; purpose := "device-enrollment";
          knownEpoch := epoch; req_createdAt := now; req_expiresAt := expires |}.

Context `{DeviceLifecyclePersistence P}.

Definition requireState (scope : string) : M P LifecycleStateSnapshot :=
  observe (λ p, o ← read_state scope p; require o "Device list unavailable.").

(** The list with one entry replaced. *)
Definition replace_entry (id : string) (e : DeviceEntry) (l : list DeviceEntry) : list DeviceEntry :=
  (λ entry, if String.eqb (deviceId entry) id then e else entry) <$> l.

Definition next_list (st : LifecycleStateSnapshot) (entries : list DeviceEntry) : DeviceList :=
  {| identityReference := identityReference (snapshot_list st); epoch := epoch (snapshot_list st) + 1;
     previousCommitment := Some (commitment st); devices := entries |}.

(** The common tail of the operations: validation, commitment and commit of the next list. *)
Definition commit_next (scope : string) (st : LifecycleStateSnapshot) (entries : list DeviceEntry)
    (record : AuthorizationRecord) : M P LifecycleStateSnapshot :=
  nextList ← lift (createDeviceList (list_json (next_list st entries)));
  lift (assertNextEpoch (snapshot_list st) nextList);;
  nextCommitment ← lift (deviceListCommitment sha256_hex nextList);
  commit {| scope := scope; expectedEpoch := epoch (snapshot_list st); in_previousCommitment := commitment st;
            nextList := nextList; nextCommitment := nextCommitment; authorization := record |};;
  mret {| snapshot_list := nextList; commitment := nextCommitment |}.

Definition sign (a : DeviceAuthorization) : DeviceAuthorization :=
  {| auth_version := auth_version a; operation := operation a; auth_userScope := auth_userScope a;
     authorDeviceId := authorDeviceId a; authorIdentityReference := authorIdentityReference a;
     targetDeviceId := targetDeviceId a; targetPublicIdentityReference := targetPublicIdentityReference a;
     targetAlgorithm := targetAlgorithm a; previousEpoch := previousEpoch a;
     auth_previousCommitment := auth_previousCommitment a; transactionNonce := transactionNonce a;
     sequence := sequence a; auth_createdAt := auth_createdAt a; auth_expiresAt := auth_expiresAt a;
     authorizationDigest := authorizationDigest_of a |}.

(* service/src/devices/lifecycle.ts:228-247 DeviceLifecycleService.approveEnrollment *)
Definition approveEnrollment (request : EnrollmentRequest) (context : AuthenticatedDeviceContext)
    (targetDevice targetIdentity : string) (clock : nat → Z) : M P DeviceAuthorization :=
  lift (assertContext context None);;
  lift (throw_if (negb (String.eqb (req_userScope request) (userScope context)) ||
      negb (String.eqb (purpose request) "device-enrollment") ||
      negb (String.eqb (requestedDeviceId request) targetDevice) ||
      negb (String.eqb (requestedPublicIdentityReference request) targetIdentity)) "Enrollment target mismatch.");;
  lift (assertWindow (req_createdAt request) (req_expiresAt request) (clock 0%nat));;
  let sender := authenticatedSender context in
  st ← requireState (userScope context);
  author ← lift (require (deviceEntryById (snapshot_list st) (sender_deviceId sender)) "Enrollment issuer unavailable.");
  lift (throw_if (negb (String.eqb (publicIdentityReference author) (sender_identityReference sender)))
    "Enrollment issuer unavailable.");;
  lift (assertDeviceCanAuthorize author);;
  lift (throw_if (negb (knownEpoch request =? epoch (snapshot_list st))) "Enrollment epoch mismatch.");;
  lift (throw_if (bool_decide (is_Some (deviceEntryById (snapshot_list st) (requestedDeviceId request))))
    "Device identifier already exists.");;
  mret (sign {| auth_version := 1; operation := enroll; auth_userScope := userScope context;
    authorDeviceId := sender_deviceId sender; authorIdentityReference := sender_identityReference sender;
    targetDeviceId := requestedDeviceId request;
    targetPublicIdentityReference := Some (requestedPublicIdentityReference request);
    targetAlgorithm := Some (req_algorithm request); previousEpoch := epoch (snapshot_list st);
    auth_previousCommitment := commitment st; transactionNonce := req_transactionNonce request;
    sequence := epoch (snapshot_list st) + 1; auth_createdAt := clock 1%nat; auth_expiresAt := req_expiresAt request;
    authorizationDigest := "" |}).

(* service/src/devices/lifecycle.ts:249-268 DeviceLifecycleService.applyEnrollment *)
Definition applyEnrollment (a : DeviceAuthorization) (context : AuthenticatedDeviceContext) (clock : nat → Z)
    : M P LifecycleStateSnapshot :=
  lift (assertContext context (Some (stringify (authorization_value a))));;
  lift (verify context a);;
  let sender := authenticatedSender context in
  lift (throw_if (negb (bool_decide (operation a = enroll)) || negb (String.eqb (auth_userScope a) (userScope context)) ||
      negb (String.eqb (authorDeviceId a) (sender_deviceId sender)) ||
      negb (String.eqb (authorIdentityReference a) (sender_identityReference sender)))
    "Enrollment authorization rejected.");;
  lift (throw_if (negb (verifyAuthorizationDigest a)) "Enrollment authorization rejected.");;
  lift (assertWindow (auth_createdAt a) (auth_expiresAt a) (clock 0%nat));;
  st ← requireState (userScope context);
  lift (throw_if (negb (epoch (snapshot_list st) =? previousEpoch a) ||
      negb (String.eqb (commitment st) (auth_previousCommitment a))) "Enrollment commitment mismatch.");;
  lift (assertAuthor st a);;
  lift (throw_if (bool_decide (is_Some (deviceEntryById (snapshot_list st) (targetDeviceId a))))
    "Device identifier already exists.");;
  entry ← lift (createDeviceEntry (obj [("deviceId", Some (JStr (targetDeviceId a)));
    ("publicIdentityReference", JStr <$> targetPublicIdentityReference a); ("algorithm", JStr <$> targetAlgorithm a);
    ("state", Some (JStr "approved_pending_confirmation")); ("createdAt", Some (JNum (NInt (auth_createdAt a))))]));
  commit_next (userScope context) st (devices (snapshot_list st) ++ [entry])
    {| rec_operation := enroll; rec_transactionNonce := transactionNonce a; rec_authorDeviceId := authorDeviceId a;
       rec_sequence := sequence a; rec_digest := authorizationDigest a; rec_expiresAt := auth_expiresAt a |}.

(** [createDeviceEntry({ ...target, state, revokedAt })] *)
Definition entry_with (target : DeviceEntry) (s : DeviceLifecycleState) (revoked_at : option Z) : res DeviceEntry :=
  createDeviceEntry (entry_json {| deviceId := deviceId target; publicIdentityReference := publicIdentityReference target;
    algorithm := algorithm target; state := s; createdAt := createdAt target; revokedAt := revoked_at;
    label := label target |}).

(* service/src/devices/lifecycle.ts:270-292 DeviceLifecycleService.confirmEnrollment *)
Definition confirmEnrollment (a : DeviceAuthorization) (context : AuthenticatedDeviceContext)
    (c : EnrollmentConfirmation) (clock : nat → Z) : M P LifecycleStateSnapshot :=
  lift (assertContext context (Some (enrollment_payload a c)));;
  lift (throw_if (negb (String.eqb (auth_userScope a) (userScope context)) || negb (ec_version c =? 1) ||
      negb (nonce_ok (ec_nonce c))) "Enrollment confirmation rejected.");;
  let sender := authenticatedSender context in
  lift (throw_if (negb (bool_decide (operation a = enroll)) ||
      negb (String.eqb (ec_authorizationDigest c) (authorizationDigest a)) ||
      negb (String.eqb (ec_targetDeviceId c) (targetDeviceId a)) ||
      negb (bool_decide (targetPublicIdentityReference a = Some (ec_targetIdentityReference c))) ||
      negb (String.eqb (sender_deviceId sender) (targetDeviceId a)) ||
      negb (bool_decide (targetPublicIdentityReference a = Some (sender_identityReference sender))))
    "Enrollment confirmation rejected.");;
  lift (throw_if (negb (verifyAuthorizationDigest a) || negb (verifyEnrollmentConfirmation c))
    "Enrollment confirmation rejected.");;
  lift (assertWindow (auth_createdAt a) (auth_expiresAt a) (clock 0%nat));;
  lift (assertWindow (ec_confirmedAt c) (ec_expiresAt c) (clock 1%nat));;
  st ← requireState (userScope context);
  lift (throw_if (negb (epoch (snapshot_list st) =? previousEpoch a + 1) ||
      (negb (String.eqb (commitment st) (auth_previousCommitment a)) &&
       negb (bool_decide (previousCommitment (snapshot_list st) = Some (auth_previousCommitment a)))))
    "Enrollment confirmation epoch mismatch.");;
  target ← lift (require (deviceEntryById (snapshot_list st) (targetDeviceId a)) "Enrollment target unavailable.");
  lift (assertAuthor st a);;
  approved ← observe (readAuthorization (userScope context) (authorizationDigest a));
  lift (throw_if (negb (match approved with
                        | Some (JObj fs) => bool_decide (get fs "transactionNonce" = JStr (transactionNonce a))
                        | _ => false end) ||
      negb (String.eqb (publicIdentityReference target) (ec_targetIdentityReference c)) ||
      negb (bool_decide (targetAlgorithm a = Some (algorithm target))))
    "Enrollment confirmation does not match stored approval.");;
  lift (throw_if (negb (bool_decide (state target = approved_pending_confirmation)))
    "Enrollment confirmation state invalid.");;
  active_ ← lift (entry_with target active (revokedAt target));
  commit_next (userScope context) st (replace_entry (deviceId target) active_ (devices (snapshot_list st)))
    {| rec_operation := enroll; rec_transactionNonce := ec_nonce c; rec_authorDeviceId := sender_deviceId sender;
       rec_sequence := sequence a + 1; rec_digest := ec_digest c; rec_expiresAt := ec_expiresAt c |}.

(** [nonce] is the value [randomNonce()] returns. *)
(* service/src/devices/lifecycle.ts:294-311 DeviceLifecycleService.approveRevocation *)
Definition approveRevocation (target_id : string) (context : AuthenticatedDeviceContext) (ttl : Z) (nonce : string)
    (clock : nat → Z) : M P DeviceAuthorization :=
  lift (assertContext context None);;
  let sender := authenticatedSender context in
  st ← requireState (userScope context);
  author ← lift (require (deviceEntryById (snapshot_list st) (sender_deviceId sender)) "Revocation issuer unavailable.");
  target ← lift (require (deviceEntryById (snapshot_list st) target_id) "Device cannot be revoked.");
  lift (throw_if (negb (String.eqb (publicIdentityReference author) (sender_identityReference sender)))
    "Revocation issuer unavailable.");;
  lift (assertDeviceCanAuthorize author);;
  lift (throw_if (bool_decide (state target = revoked) || String.eqb (deviceId target) (deviceId author))
    "Device cannot be revoked.");;
  mret (sign {| auth_version := 1; operation := revoke; auth_userScope := userScope context;
    authorDeviceId := sender_deviceId sender; authorIdentityReference := sender_identityReference sender;
    targetDeviceId := target_id; targetPublicIdentityReference := None; targetAlgorithm := None;
    previousEpoch := epoch (snapshot_list st); auth_previousCommitment := commitment st; transactionNonce := nonce;
    sequence := epoch (snapshot_list st) + 1; auth_createdAt := clock 0%nat; auth_expiresAt := clock 0%nat + ttl;
    authorizationDigest := "" |}).

(* service/src/devices/lifecycle.ts:313-337 DeviceLifecycleService.applyRevocation *)
Definition applyRevocation (a : DeviceAuthorization) (context : AuthenticatedDeviceContext)
    (confirmation : option RevocationConfirmation) (clock : nat → Z) : M P LifecycleStateSnapshot :=
  c ← lift (require confirmation "Explicit revocation confirmation required.");
  lift (assertContext context (Some (revocation_payload a c)));;
  lift (verify context a);;
  let sender := authenticatedSender context in
  lift (throw_if (negb (bool_decide (operation a = revoke)) || negb (String.eqb (auth_userScope a) (userScope context)) ||
      negb (String.eqb (authorDeviceId a) (sender_deviceId sender)) ||
      negb (String.eqb (authorIdentityReference a) (sender_identityReference sender)) ||
      negb (String.eqb (rc_authorizationDigest c) (authorizationDigest a)) ||
      negb (String.eqb (rc_targetDeviceId c) (targetDeviceId a))) "Revocation authorization rejected.");;
  lift (throw_if (negb (verifyRevocationConfirmation c)) "Revocation confirmation rejected.");;
  lift (throw_if (negb (verifyAuthorizationDigest a)) "Revocation authorization rejected.");;
  lift (assertWindow (auth_createdAt a) (auth_expiresAt a) (clock 0%nat));;
  st ← requireState (userScope context);
  lift (throw_if (negb (epoch (snapshot_list st) =? previousEpoch a) ||
      negb (String.eqb (commitment st) (auth_previousCommitment a))) "Revocation commitment mismatch.");;
  lift (assertAuthor st a);;
  lift (assertWindow (rc_confirmedAt c) (rc_expiresAt c) (clock 1%nat));;
  lift (throw_if (negb (rc_version c =? 1) || negb (nonce_ok (rc_nonce c))) "Revocation confirmation rejected.");;
  target ← lift (require (deviceEntryById (snapshot_list st) (targetDeviceId a)) "Device cannot be revoked.");
  lift (throw_if (bool_decide (state target = revoked) || String.eqb (deviceId target) (authorDeviceId a))
    "Device cannot be revoked.");;
  revoked_ ← lift (entry_with target revoked (Some (clock 2%nat)));
  commit_next (userScope context) st (replace_entry (deviceId target) revoked_ (devices (snapshot_list st)))
    {| rec_operation := revoke; rec_transactionNonce := transactionNonce a; rec_authorDeviceId := authorDeviceId a;
       rec_sequence := sequence a; rec_digest := authorizationDigest a; rec_expiresAt := auth_expiresAt a |}.
End service.

(** ** What a successful operation does to the device list *)
(** What the service relies on: on a store whose contents it wrote ([intact]), a successful commit is what
    the next read returns. *)
Class LifecyclePersistenceLaws (P : Type) `{DeviceLifecyclePersistence P} (intact : P → Prop) : Prop := {
  commit_read (input : CommitInput) (p p' : P) : intact p → commit input p = (Ok tt, p') →
    intact p' ∧
    read_state (scope input) p' = Ok (Some {| snapshot_list := nextList input; commitment := nextCommitment input |}) }.

Record lifecycle_step (st nx : DeviceList) : Prop := {
  ls_identity : identityReference nx = identityReference st;
  ls_epoch : epoch nx = epoch st + 1;
  ls_chain : previousCommitment nx ≠ None;
  ls_valid : list_ok nx = true;
  ls_kept d e : deviceEntryById st d = Some e →
    ∃ e', deviceEntryById nx d = Some e' ∧ publicIdentityReference e' = publicIdentityReference e ∧
      isValidDeviceLifecycleTransition (state e) (state e') = true;
  ls_new d e' : deviceEntryById nx d = Some e' → deviceEntryById st d = None →
    state e' = approved_pending_confirmation }.

Section find.
Lemma find_replace id e l d :
  deviceId e = id →
  js_find (λ x, String.eqb (deviceId x) d) (replace_entry id e l) =
  match js_find (λ x, String.eqb (deviceId x) d) l with
  | Some x => Some (if String.eqb id d then e else x)
  | None => None
  end.
Proof.
  intros He. induction l as [|x l IH]; [done|]. cbn [js_find List.find replace_entry fmap list_fmap].
  unfold js_find, replace_entry in IH. cbn [fmap list_fmap] in IH.
  destruct (String.eqb_spec (deviceId x) id) as [Hx|Hx].
  - rewrite He. subst id. rewrite Hx. destruct (String.eqb_spec (deviceId e) d) as [->|]; [done|]. apply IH.
  - destruct (String.eqb_spec (deviceId x) d) as [Hd|Hd]; [|apply IH].
    destruct (String.eqb_spec id d); [congruence|done].
Qed.

Lemma find_app_one (P : DeviceEntry → bool) l e :
  js_find P (l ++ [e]) = match js_find P l with Some x => Some x | None => if P e then Some e else None end.
Proof. induction l as [|x l IH]; simpl; [done|]. by destruct (P x). Qed.
End find.

Lemma deviceEntryById_id l d e : deviceEntryById l d = Some e → deviceId e = d.
Proof. intros [_ H]%js_find_Some. by apply String.eqb_eq. Qed.

Section properties.
Context (sha256_hex : string → string) (verify : AuthenticatedDeviceContext → DeviceAuthorization → res unit).
Context `{DeviceLifecyclePersistence P}.

Lemma requireState_ok sc (p p' : P) st :
  requireState sc p = (Ok st, p') → read_state sc p = Ok (Some st) ∧ p' = p.
Proof.
  unfold requireState. intros [Ho ->]%observe_ok. split; [|done].
  destruct (read_state sc p) as [[|]|]; simpl in Ho; congruence.
Qed.

Lemma commit_next_ok sc st entries r p p' nx :
  commit_next sha256_hex sc st entries r p = (Ok nx, p') →
  snapshot_list nx = next_list st entries ∧ list_ok (next_list st entries) = true ∧
  deviceListCommitment sha256_hex (snapshot_list nx) = Ok (commitment nx) ∧
  commit {| scope := sc; expectedEpoch := epoch (snapshot_list st); in_previousCommitment := commitment st;
            nextList := snapshot_list nx; nextCommitment := commitment nx; authorization := r |} p = (Ok tt, p').
Proof.
  unfold commit_next. intros Hc. m_inv Hc. apply createDeviceList_json in Hm as [-> Hok].
  subst nx. destruct x2. cbn [snapshot_list commitment]. split_and!; done.
Qed.

Lemma entry_with_ok t s r e : entry_with t s r = Ok e →
  deviceId e = deviceId t ∧ publicIdentityReference e = publicIdentityReference t ∧ state e = s ∧ algorithm e = algorithm t.
Proof. unfold entry_with. intros ->%createDeviceEntry_json_inv. done. Qed.

(** Replacing an entry by a later stage of itself is a step. *)
Lemma replace_step st target s r e :
  deviceEntryById (snapshot_list st) (deviceId target) = Some target →
  isValidDeviceLifecycleTransition (state target) s = true → entry_with target s r = Ok e →
  list_ok (next_list st (replace_entry (deviceId target) e (devices (snapshot_list st)))) = true →
  lifecycle_step (snapshot_list st) (next_list st (replace_entry (deviceId target) e (devices (snapshot_list st)))).
Proof.
  intros Hfind Hv (Hid & Hpub & Hst & _)%entry_with_ok Hok. split; try done.
  - intros d x Hx. unfold deviceEntryById in *. cbn [devices next_list]. rewrite find_replace, Hx by done.
    eexists; split; [done|]. destruct (String.eqb_spec (deviceId target) d) as [<-|Hne].
    + assert (x = target) as -> by congruence. by rewrite Hst.
    + split; [done|]. unfold isValidDeviceLifecycleTransition. by rewrite bool_decide_eq_true_2.
  - intros d e' He' Hnone. unfold deviceEntryById in *. cbn [devices next_list] in He'.
    rewrite find_replace, Hnone in He' by done. done.
Qed.

Lemma require_read sc (p : P) st :
  (o ← read_state sc p; require o "Device list unavailable.") = Ok st → read_state sc p = Ok (Some st).
Proof. intros Hr. res_inv Hr. congruence. Qed.

Lemma assertContext_ok ctx pl u : assertContext ctx pl = Ok u → verified (authenticatedSender ctx) = true ∧
  ∃ issued, proof ctx = Some issued ∧ (issued.2 = None ∨ issued.2 = pl).
Proof.
  unfold assertContext, assertIssuedDeviceContext. intros Hc. res_inv Hc.
  rewrite !orb_false_iff, !negb_false_iff in Hc3. split; [tauto|].
  eexists; split; [done|]. destruct (x0.2) as [i|]; [|by left]. right. by apply negb_false_iff, bool_decide_eq_true in Hc0.
Qed.

Lemma assertAuthor_ok st a u : assertAuthor st a = Ok u →
  ∃ author, deviceEntryById (snapshot_list st) (authorDeviceId a) = Some author ∧ state author = active ∧
    publicIdentityReference author = authorIdentityReference a.
Proof.
  unfold assertAuthor, assertDeviceCanAuthorize. intros Ha. res_inv Ha.
  rewrite !orb_false_iff, !negb_false_iff, ?String.eqb_eq in Ha.
  apply negb_false_iff, bool_decide_eq_true in Ha1. exists x. tauto.
Qed.

(** The author of an operation: an active device of the list, with the identity of the verified sender. *)
Definition authored_by (st : LifecycleStateSnapshot) (ctx : AuthenticatedDeviceContext) (author : DeviceEntry) : Prop :=
  deviceEntryById (snapshot_list st) (sender_deviceId (authenticatedSender ctx)) = Some author ∧
  state author = active ∧ publicIdentityReference author = sender_identityReference (authenticatedSender ctx) ∧
  verified (authenticatedSender ctx) = true.

Lemma applyEnrollment_spec a ctx clock p nx p' :
  applyEnrollment sha256_hex verify a ctx clock p = (Ok nx, p') →
  ∃ st author e r, read_state (userScope ctx) p = Ok (Some st) ∧ authored_by st ctx author ∧
    deviceEntryById (snapshot_list st) (targetDeviceId a) = None ∧
    deviceId e = targetDeviceId a ∧ state e = approved_pending_confirmation ∧
    commit_next sha256_hex (userScope ctx) st (devices (snapshot_list st) ++ [e]) r p = (Ok nx, p').
Proof.
  unfold applyEnrollment. intros Ha. do 10 m_step Ha.
  apply assertContext_ok in Hm as [Hver _].
  apply throw_if_ok in Hm1. rewrite !orb_false_iff, !negb_false_iff, !String.eqb_eq in Hm1.
  apply require_read in Hm4. apply assertAuthor_ok in Hm6 as (author & Hau & Hact & Hpub).
  apply throw_if_ok, bool_decide_eq_false in Hm7.
  destruct Hm1 as [[[_ _] Hd] Hi]. rewrite Hd in Hau. rewrite Hi in Hpub.
  eexists x4, author, x8, _. split_and!; try done.
  - by apply eq_None_not_Some.
  - apply createDeviceEntry_ok in Hm8 as (_ & fs & Hv & E1 & _). injection Hv as <-. cbn in E1. congruence.
  - apply createDeviceEntry_ok in Hm8 as (_ & fs & Hv & _ & _ & _ & E4 & _). injection Hv as <-.
    destruct (targetPublicIdentityReference a), (targetAlgorithm a); cbn in E4;
      destruct (state x8); cbn in E4; congruence.
Qed.

Lemma confirmEnrollment_spec a ctx c clock p nx p' :
  confirmEnrollment sha256_hex a ctx c clock p = (Ok nx, p') →
  ∃ st target e r, read_state (userScope ctx) p = Ok (Some st) ∧
    deviceEntryById (snapshot_list st) (targetDeviceId a) = Some target ∧
    state target = approved_pending_confirmation ∧ entry_with target active (revokedAt target) = Ok e ∧
    verified (authenticatedSender ctx) = true ∧ sender_deviceId (authenticatedSender ctx) = deviceId target ∧
    sender_identityReference (authenticatedSender ctx) = publicIdentityReference target ∧
    verifyAuthorizationDigest sha256_hex a = true ∧
    commit_next sha256_hex (userScope ctx) st (replace_entry (deviceId target) e (devices (snapshot_list st))) r p = (Ok nx, p').
Proof.
  unfold confirmEnrollment. intros Ha. do 14 m_step Ha.
  apply assertContext_ok in Hm as [Hver _].
  guard_inv Hm1. guard_inv Hm2. guard_inv Hm10. guard_inv Hm11.
  apply require_read in Hm5. apply require_ok in Hm7.
  destruct Hm1 as [[[[[_ _] _] Hti] Hsd] Hsi], Hm10 as [[_ Hpub] _].
  pose proof (deviceEntryById_id _ _ _ Hm7) as Hid.
  eexists x5, x7, x12, _. split_and!; try done; try congruence. tauto.
Qed.

Lemma applyRevocation_spec a ctx oc clock p nx p' :
  applyRevocation sha256_hex verify a ctx oc clock p = (Ok nx, p') →
  ∃ st author target e r, read_state (userScope ctx) p = Ok (Some st) ∧ authored_by st ctx author ∧
    deviceEntryById (snapshot_list st) (targetDeviceId a) = Some target ∧ state target ≠ revoked ∧
    deviceId target ≠ sender_deviceId (authenticatedSender ctx) ∧ is_Some oc ∧
    entry_with target revoked (Some (clock 2%nat)) = Ok e ∧
    commit_next sha256_hex (userScope ctx) st (replace_entry (deviceId target) e (devices (snapshot_list st))) r p = (Ok nx, p').
Proof.
  unfold applyRevocation. intros Ha. do 15 m_step Ha.
  apply require_ok in Hm. apply assertContext_ok in Hm0 as [Hver _].
  guard_inv Hm2. guard_inv Hm12. destruct Hm12 as [Hns Hnd].
  apply require_read in Hm6. apply assertAuthor_ok in Hm8 as (author & Hau & Hact & Hpub). apply require_ok in Hm11.
  destruct Hm2 as [[[[_ Hd] Hi] _] _]. rewrite Hd in Hau, Hnd. rewrite Hi in Hpub.
  eexists x6, author, x11, x13, _. split_and!; try done; eauto.
Qed.
(** The operations that change the list, for the scope of their context. *)
Inductive performs (ctx : AuthenticatedDeviceContext) (clock : nat → Z) (p : P) : P → LifecycleStateSnapshot → Prop :=
| enrolls a p' nx : applyEnrollment sha256_hex verify a ctx clock p = (Ok nx, p') → performs ctx clock p p' nx
| confirms a c p' nx : confirmEnrollment sha256_hex a ctx c clock p = (Ok nx, p') → performs ctx clock p p' nx
| revokes a c p' nx : applyRevocation sha256_hex verify a ctx c clock p = (Ok nx, p') → performs ctx clock p p' nx.

Context `{!LifecyclePersistenceLaws P intact}.

Lemma commit_next_read sc st entries r p p' nx :
  intact p → commit_next sha256_hex sc st entries r p = (Ok nx, p') → intact p' ∧ read_state sc p' = Ok (Some nx).
Proof.
  intros Hp (_ & _ & _ & Hc)%commit_next_ok. apply commit_read in Hc; [|done]. cbn [scope nextList nextCommitment] in Hc.
  by destruct nx.
Qed.

(** Enrolling a new device is a step. *)
Lemma enroll_step st e target :
  deviceEntryById (snapshot_list st) target = None → deviceId e = target → state e = approved_pending_confirmation →
  list_ok (next_list st (devices (snapshot_list st) ++ [e])) = true →
  lifecycle_step (snapshot_list st) (next_list st (devices (snapshot_list st) ++ [e])).
Proof.
  intros Hn He Hs Hok. split; try done; unfold deviceEntryById in *; cbn [devices next_list].
  - intros d x Hx. rewrite find_app_one, Hx. eexists; split; [done|split; [done|]].
    unfold isValidDeviceLifecycleTransition. by rewrite bool_decide_eq_true_2.
  - intros d e' He' Hnone. rewrite find_app_one, Hnone in He'. case_match; congruence.
Qed.

Lemma performs_step ctx clock p p' nx :
  intact p → performs ctx clock p p' nx →
  ∃ st, read_state (userScope ctx) p = Ok (Some st) ∧ (intact p' ∧ read_state (userScope ctx) p' = Ok (Some nx)) ∧
    lifecycle_step (snapshot_list st) (snapshot_list nx).
Proof.
  intros Hi [a p1 nx1 Ha|a c p1 nx1 Ha|a c p1 nx1 Ha].
  - apply applyEnrollment_spec in Ha as (st & au & e & r & Hr & _ & Hn & He & Hs & Hc).
    exists st. split; [done|]. split; [by eapply commit_next_read|].
    apply commit_next_ok in Hc as (-> & Hok & _ & _). by eapply enroll_step.
  - apply confirmEnrollment_spec in Ha as (st & t & e & r & Hr & Ht & Hp & He & _ & _ & _ & _ & Hc).
    exists st. split; [done|]. split; [by eapply commit_next_read|].
    apply commit_next_ok in Hc as (-> & Hok & _ & _). pose proof (deviceEntryById_id _ _ _ Ht) as Hid.
    rewrite <-Hid in Ht. eapply replace_step; try done. by rewrite Hp.
  - apply applyRevocation_spec in Ha as (st & au & t & e & r & Hr & _ & Ht & Hp & _ & _ & He & Hc).
    exists st. split; [done|]. split; [by eapply commit_next_read|].
    apply commit_next_ok in Hc as (-> & Hok & _ & _). pose proof (deviceEntryById_id _ _ _ Ht) as Hid.
    rewrite <-Hid in Ht. eapply replace_step; try done. by destruct (state t).
Qed.

(** Every enrollment, confirmation and revocation that succeeds takes the stored list of the context's
    scope to its stored successor: the epoch grows by one, the list keeps its identity, is valid and
    names its predecessor's commitment, existing devices keep their identity keys and only move along
    valid lifecycle transitions, and a new device starts unconfirmed. *)
Theorem lifecycle_operations_step ctx clock p p' nx :
  intact p → performs ctx clock p p' nx →
  ∃ st, read_state (userScope ctx) p = Ok (Some st) ∧ (intact p' ∧ read_state (userScope ctx) p' = Ok (Some nx)) ∧
    lifecycle_step (snapshot_list st) (snapshot_list nx).
Proof. apply performs_step. Qed.


Definition scope_step (sc : string) (p p' : P) : Prop :=
  ∃ ctx clock nx, userScope ctx = sc ∧ performs ctx clock p p' nx.

End properties.

(** ** A run: a two-device account revokes one device and enrolls another *)
Section example.
Definition map_persistence : Type := gmap string LifecycleStateSnapshot.
#[local] Instance map_lifecycle : DeviceLifecyclePersistence map_persistence := {|
  read_state sc p := Ok (p !! sc);
  readAuthorization _ _ p := Ok None;
  commit input p :=
    match p !! scope input with
    | Some st => if epoch (snapshot_list st) =? expectedEpoch input
                 then (Ok tt, <[scope input := {| snapshot_list := nextList input; commitment := nextCommitment input |}]> p)
                 else (Err "conflict", p)
    | None => (Err "conflict", p)
    end |}.
#[local] Instance map_lifecycle_laws : LifecyclePersistenceLaws map_persistence (λ _, True).
Proof.
  constructor. intros input p p' _. cbn. destruct (p !! scope input); [|discriminate].
  destruct (_ =? _); [|discriminate]. intros [= <-]. cbn. split; [done|]. apply f_equal, lookup_insert_eq.
Qed.

Definition sample_digest : string := "0000000000000000000000000000000000000000000000000000000000000000".
Definition sample_hash (_ : string) : string := sample_digest.
Definition sample_verify (_ : AuthenticatedDeviceContext) (_ : DeviceAuthorization) : res unit := Ok tt.
Definition sample_context : AuthenticatedDeviceContext :=
  {| cryptoSession := {| session_id := 1; encrypted := true; ready := true |}; conversationId := "room";
     userScope := "account";
     authenticatedSender := {| sender_deviceId := "a"; sender_identityReference := "K3 a"; sender_userScope := "account";
                               verified := true |};
     proof := Some ({| session_id := 1; encrypted := true; ready := true |}, None) |}.
Definition sample_state : map_persistence :=
  {["account" := {| snapshot_list := sample_list ["a"; "b"]; commitment := sample_digest |}]}.
Definition sample_authorization (o : DeviceAuthorizationOperation) (target : string) (e : Z) : DeviceAuthorization :=
  {| auth_version := 1; operation := o; auth_userScope := "account"; authorDeviceId := "a";
     authorIdentityReference := "K3 a"; targetDeviceId := target; targetPublicIdentityReference := Some ("K3 " +:+ target);
     targetAlgorithm := Some "ed25519"; previousEpoch := e; auth_previousCommitment := sample_digest;
     transactionNonce := "0123456789abcdef"; sequence := e + 1; auth_createdAt := 1; auth_expiresAt := 9;
     authorizationDigest := sample_digest |}.
Definition sample_confirmation : RevocationConfirmation :=
  {| rc_version := 1; rc_authorizationDigest := sample_digest; rc_targetDeviceId := "b"; rc_nonce := "0123456789abcdef";
     rc_confirmedAt := 1; rc_expiresAt := 9; rc_digest := sample_digest |}.

Definition run_revoke := applyRevocation sample_hash sample_verify (sample_authorization revoke "b" 3) sample_context
  (Some sample_confirmation) (λ _, 5) sample_state.
Definition run_enroll (p : map_persistence) := applyEnrollment sample_hash sample_verify
  (sample_authorization enroll "c" 4) sample_context (λ _, 5) p.
Definition snap (r : res LifecycleStateSnapshot * map_persistence) : LifecycleStateSnapshot :=
  match r.1 with Ok s => s | Err _ => {| snapshot_list := sample_list []; commitment := "" |} end.

Lemma lifecycle_operations_step_witness :
  ∃ st, read_state "account" sample_state = Ok (Some st) ∧
    (True ∧ read_state "account" run_revoke.2 = Ok (Some (snap run_revoke))) ∧
    lifecycle_step (snapshot_list st) (snapshot_list (snap run_revoke)).
Proof.
  apply (lifecycle_operations_step sample_hash sample_verify (intact := λ _, True) sample_context (λ _, 5) sample_state
    run_revoke.2 (snap run_revoke) I).
  apply (revokes sample_hash sample_verify sample_context (λ _, 5) sample_state
    (sample_authorization revoke "b" 3) (Some sample_confirmation)).
  vm_compute. reflexivity.
Defined.


End example.
