(* ===== verification/LifecycleStore.v ===== *)
(** * The stored device lifecycle ([devices/runtime.ts])

    [SecureStorageDeviceLifecyclePersistence]: the lifecycle record and its high-water mark, two JSON
    texts of the secure storage that change in one compare-and-swap. The record holds its replay
    history (authorizations) and its commitment history as the raw JSON values they are. The class is
    shown to discharge the laws the lifecycle service is proved against. *)
From S2P Require Import Prelude Json Storage DeviceList Lifecycle.

Definition RECORD_TYPE : string := "device-lifecycle".
Definition HIGHWATER_RECORD_TYPE : string := "device-lifecycle-highwater".

(* service/src/devices/runtime.ts:90-96 LifecycleRecord *)
Record LifecycleRecord := {
  lr_state : LifecycleStateSnapshot; authorizations : list jsval; highestEpoch : Z; commitmentHistory : list jsval }.
(* service/src/devices/runtime.ts:97-97 LifecycleHighwater *)
Record LifecycleHighwater := { hw_epoch : Z; hw_commitment : string }.

Definition snapshot_json (st : LifecycleStateSnapshot) : jsval :=
  JObj [("list", list_json (snapshot_list st)); ("commitment", JStr (commitment st))].
Definition record_json (r : LifecycleRecord) : jsval :=
  JObj [("version", JNum (NInt 2)); ("state", snapshot_json (lr_state r)); ("authorizations", JArr (authorizations r));
    ("highestEpoch", JNum (NInt (highestEpoch r))); ("commitmentHistory", JArr (commitmentHistory r))].
Definition highwater_json (h : LifecycleHighwater) : jsval :=
  JObj [("version", JNum (NInt 1)); ("highestEpoch", JNum (NInt (hw_epoch h))); ("commitment", JStr (hw_commitment h))].
Definition history_item (e : Z) (c : string) : jsval :=
  JObj [("epoch", JNum (NInt e)); ("commitment", JStr c)].
Definition authorization_json (a : AuthorizationRecord) : jsval :=
  JObj [("operation", JStr (operation_name (rec_operation a))); ("transactionNonce", JStr (rec_transactionNonce a));
    ("authorDeviceId", JStr (rec_authorDeviceId a)); ("sequence", JNum (NInt (rec_sequence a)));
    ("digest", JStr (rec_digest a)); ("expiresAt", JNum (NInt (rec_expiresAt a)))].

Definition is_record_id_char (c : ascii) : bool :=
  is_digit c || is_upper c || is_lower c || existsb (Z.eqb (code c)) [46; 95; 58; 45].

(** [list.some(pred)] where [pred] may throw. *)
Fixpoint some_res {A} (f : A → res bool) (l : list A) : res bool :=
  match l with
  | [] => mret false
  | x :: l' => b ← f x; if (b : bool) then mret true else some_res f l'
  end.
(** [list.find(pred)] where [pred] may throw. *)
Fixpoint find_res {A} (f : A → res bool) (l : list A) : res (option A) :=
  match l with
  | [] => mret None
  | x :: l' => b ← f x; if (b : bool) then mret (Some x) else find_res f l'
  end.

Section store.
Context (sha256_hex : string → string).
Context `{SecureStorage St}.

(** The separator after the domain is the character U+0000. *)
(* service/src/identity/machineIdentity.ts:2-7 canonicalIdentityRecordId *)
Definition canonicalIdentityRecordId (reference : string) : res string :=
  throw_if (negb (nonempty reference) || (256 <? strlen reference) || negb (forall_chars (λ c, negb (is_control c)) reference))
    "Invalid identity reference.";;
  mret (if (strlen reference <=? 128) && forall_chars is_record_id_char reference then reference
        else "identity-" +:+ sha256_hex ("k3ncrypt:identity-record:v1" +:+ str1 0 +:+ reference)).

(* service/src/devices/runtime.ts:110-117 readHighwater *)
Definition readHighwater (scope : string) (p : St) : res (option LifecycleHighwater) :=
  id ← canonicalIdentityRecordId scope;
  match read p HIGHWATER_RECORD_TYPE id with
  | None => mret None
  | Some stored =>
      let invalid := "Device lifecycle high-water mark is invalid." in
      value ← require (parse stored) invalid;
      version ← prop value "version";
      throw_if (negb (bool_decide (version = JNum (NInt 1)))) invalid;;
      e ← require (js_safe_int (oprop value "highestEpoch")) invalid;
      throw_if (e <? 0) invalid;;
      match oprop value "commitment" with
      | JStr c => mret (Some {| hw_epoch := e; hw_commitment := c |})
      | _ => Err invalid
      end
  end.

Definition bad_history_item (item : jsval) : res bool :=
  e ← prop item "epoch";
  mret (bool_decide (js_safe_int e = None) || negb (is_str (oprop item "commitment"))).

(* service/src/devices/runtime.ts:118-140 readRecord *)
Definition readRecord (scope : string) (p : St) : res (option LifecycleRecord) :=
  id ← canonicalIdentityRecordId scope;
  match read p RECORD_TYPE id with
  | None =>
      h ← readHighwater scope p;
      throw_if (bool_decide (is_Some h)) "Established lifecycle state is missing.";;
      mret None
  | Some stored =>
      let invalid := "Device lifecycle state is invalid." in
      value ← require (parse stored) invalid;
      let state := oprop value "state" in
      throw_if (negb (truthy (oprop state "list"))) invalid;;
      authorizations ← require (as_array (oprop value "authorizations")) invalid;
      throw_if (bool_decide (js_safe_int (oprop (oprop state "list") "epoch") = None)) invalid;;
      list ← createDeviceList (oprop state "list");
      throw_if (negb (String.eqb (identityReference list) scope)) "Device lifecycle scope mismatch.";;
      commitment ← deviceListCommitment sha256_hex list;
      throw_if (negb (bool_decide (oprop state "commitment" = JStr commitment))) "Device lifecycle commitment mismatch.";;
      throw_if (negb (bool_decide (nullish (oprop value "highestEpoch") (JNum (NInt (epoch list))) = JNum (NInt (epoch list))))
                || negb (isSafeInteger (epoch list)) || (epoch list <? 0)) "Device lifecycle epoch rollback detected.";;
      history ← require (as_array (nullish (oprop value "commitmentHistory") (JArr [history_item (epoch list) commitment])))
        "Device lifecycle history is invalid.";
      bad ← some_res bad_history_item history;
      throw_if bad "Device lifecycle history is invalid.";;
      matching ← find_res (λ item, e ← prop item "epoch"; mret (bool_decide (e = JNum (NInt (epoch list))))) history;
      throw_if (match matching with
                | Some item => negb (bool_decide (oprop item "commitment" = JStr commitment))
                | None => true end) "Device lifecycle commitment history mismatch.";;
      highwater ← readHighwater scope p;
      throw_if (match highwater with
                | Some h => (epoch list <? hw_epoch h) ||
                            ((hw_epoch h =? epoch list) && negb (String.eqb (hw_commitment h) commitment))
                | None => false end) "Device lifecycle rollback detected.";;
      mret (Some {| lr_state := {| snapshot_list := list; commitment := commitment |}; authorizations := authorizations;
                    highestEpoch := epoch list; commitmentHistory := history |})
  end.

Definition read_snapshot (scope : string) (p : St) : res (option LifecycleStateSnapshot) :=
  o ← readRecord scope p; mret (option_map lr_state o).

(* service/src/devices/runtime.ts:142-142 readAuthorization *)
Definition readAuthorization_ (scope digest : string) (p : St) : res (option jsval) :=
  o ← readRecord scope p;
  match o with
  | None => mret None
  | Some r => find_res (λ entry, d ← prop entry "digest"; mret (bool_decide (d = JStr digest))) (authorizations r)
  end.

(* service/src/devices/runtime.ts:213-219 writeAtomic *)
Definition writeAtomic (id : string) (expected_ highwater : option string) (nextRecord nextHighwater : string) : M St unit :=
  λ p, let '(ok, p') := compareAndSwapRecords
         [{| recordType := RECORD_TYPE; recordId := id; expected := expected_; next := nextRecord |};
          {| recordType := HIGHWATER_RECORD_TYPE; recordId := id; expected := highwater; next := nextHighwater |}] p in
       (throw_if (negb ok) "Device lifecycle state conflict.", p').

Definition write_state (id : string) (expected_ highwater : option string) (r : LifecycleRecord) : M St unit :=
  writeAtomic id expected_ highwater (stringify (record_json r))
    (stringify (highwater_json {| hw_epoch := highestEpoch r; hw_commitment := commitment (lr_state r) |})).

(** [list.slice(-256)] of the history with the new item *)
Definition next_history (r : LifecycleRecord) (l : DeviceList) (c : string) : list jsval :=
  take_last 256 (commitmentHistory r ++ [history_item (epoch l) c]).

(* service/src/devices/runtime.ts:143-153 suspendTrust *)
Definition suspendTrust (scope : string) (e : Z) (c : string) : M St unit :=
  id ← lift (canonicalIdentityRecordId scope);
  expected_ ← gets (λ p, read p RECORD_TYPE id);
  highwater ← gets (λ p, read p HIGHWATER_RECORD_TYPE id);
  text ← lift (require expected_ "Trust suspension storage unavailable.");
  previous ← observe (readHighwater scope);
  if match previous with Some h => e <? hw_epoch h | None => false end then mret tt else
  writeAtomic id expected_ highwater text (stringify (highwater_json {| hw_epoch := e; hw_commitment := c |})).

(* service/src/devices/runtime.ts:154-171 initialize *)
Definition initialize (scope : string) (list : DeviceList) : M St LifecycleStateSnapshot :=
  id ← lift (canonicalIdentityRecordId scope);
  expected_ ← gets (λ p, read p RECORD_TYPE id);
  expectedHighwater ← gets (λ p, read p HIGHWATER_RECORD_TYPE id);
  existing ← observe (readRecord scope);
  match existing with
  | Some r => mret (lr_state r)
  | None =>
      normalized ← lift (createDeviceList (list_json list));
      lift (throw_if (negb (String.eqb (identityReference normalized) scope)) "Device lifecycle scope mismatch.");;
      c ← lift (deviceListCommitment sha256_hex normalized);
      let st := {| snapshot_list := normalized; commitment := c |} in
      write_state id expected_ expectedHighwater
        {| lr_state := st; authorizations := []; highestEpoch := epoch normalized;
           commitmentHistory := [history_item (epoch normalized) c] |};;
      mret st
  end.

Definition authorization_record (a : DeviceAuthorization) : AuthorizationRecord :=
  {| rec_operation := enroll; rec_transactionNonce := transactionNonce a; rec_authorDeviceId := authorDeviceId a;
     rec_sequence := sequence a; rec_digest := authorizationDigest a; rec_expiresAt := auth_expiresAt a |}.

(* service/src/devices/runtime.ts:172-189 installEnrollmentApproval *)
Definition installEnrollmentApproval (scope : string) (st : LifecycleStateSnapshot) (a : DeviceAuthorization) : M St unit :=
  let rejected := "Enrollment approval rejected." in
  let list := snapshot_list st in
  lift (throw_if (negb (bool_decide (operation a = enroll)) || negb (String.eqb (auth_userScope a) scope) ||
    negb (previousEpoch a + 1 =? epoch list) || negb (String.eqb (identityReference list) scope) ||
    negb (bool_decide (previousCommitment list = Some (auth_previousCommitment a)))) rejected);;
  c ← lift (deviceListCommitment sha256_hex list);
  lift (throw_if (negb (String.eqb (commitment st) c) || negb (verifyAuthorizationDigest sha256_hex a)) rejected);;
  let author := js_find (λ entry, String.eqb (deviceId entry) (authorDeviceId a) &&
    String.eqb (publicIdentityReference entry) (authorIdentityReference a) && bool_decide (state entry = active)) (devices list) in
  let target := js_find (λ entry, String.eqb (deviceId entry) (targetDeviceId a) &&
    bool_decide (Some (publicIdentityReference entry) = targetPublicIdentityReference a) &&
    bool_decide (state entry = approved_pending_confirmation)) (devices list) in
  lift (require author rejected);;
  t ← lift (require target rejected);
  lift (throw_if (negb (bool_decide (Some (algorithm t) = targetAlgorithm a))) rejected);;
  id ← lift (canonicalIdentityRecordId scope);
  expected_ ← gets (λ p, read p RECORD_TYPE id);
  expectedHighwater ← gets (λ p, read p HIGHWATER_RECORD_TYPE id);
  lift (throw_if (bool_decide (is_Some expected_) || bool_decide (is_Some expectedHighwater)) "Enrollment approval replayed.");;
  write_state id None None
    {| lr_state := st; authorizations := [authorization_json (authorization_record a)]; highestEpoch := epoch list;
       commitmentHistory := [history_item (epoch list) (commitment st)] |}.

Definition peer_matches (device identity : string) (entry : DeviceEntry) : bool :=
  String.eqb (deviceId entry) device && String.eqb (publicIdentityReference entry) identity &&
  bool_decide (state entry = active).

(** What a peer's update may do to one device: nothing, or revoke it while it is active. *)
Definition trust_update_entry_ok (next : list DeviceEntry) (prior : DeviceEntry) : bool :=
  match js_find (λ entry, String.eqb (deviceId entry) (deviceId prior)) next with
  | None => false
  | Some updated =>
      String.eqb (publicIdentityReference updated) (publicIdentityReference prior) &&
      String.eqb (algorithm updated) (algorithm prior) &&
      (bool_decide (state prior = state updated) ||
       (bool_decide (state prior = active) && bool_decide (state updated = revoked)))
  end.

(* service/src/devices/runtime.ts:190-212 installTrustUpdate *)
Definition installTrustUpdate (scope : string) (cur nxt : LifecycleStateSnapshot) (peer_device peer_identity : string)
    : M St unit :=
  let rejected := "Trust update rejected." in
  let l := snapshot_list nxt in
  o ← observe (readRecord scope);
  r ← lift (require o rejected);
  lift (throw_if (negb (epoch (snapshot_list (lr_state r)) =? epoch (snapshot_list cur)) ||
    negb (String.eqb (commitment (lr_state r)) (commitment cur)) || negb (String.eqb (identityReference l) scope) ||
    negb (epoch l =? epoch (snapshot_list cur) + 1) || negb (bool_decide (previousCommitment l = Some (commitment cur)))) rejected);;
  c ← lift (deviceListCommitment sha256_hex l);
  lift (throw_if (negb (String.eqb (commitment nxt) c)) rejected);;
  lift (require (js_find (peer_matches peer_device peer_identity) (devices (snapshot_list cur))) rejected);;
  lift (require (js_find (peer_matches peer_device peer_identity) (devices l)) rejected);;
  lift (throw_if (negb (length (devices (snapshot_list cur)) =? length (devices l))%nat) rejected);;
  lift (throw_if (negb (forallb (trust_update_entry_ok (devices l)) (devices (snapshot_list cur)))) rejected);;
  id ← lift (canonicalIdentityRecordId scope);
  expected_ ← gets (λ p, read p RECORD_TYPE id);
  expectedHighwater ← gets (λ p, read p HIGHWATER_RECORD_TYPE id);
  write_state id expected_ expectedHighwater
    {| lr_state := nxt; authorizations := authorizations r; highestEpoch := epoch l;
       commitmentHistory := next_history r l (commitment nxt) |}.

(* service/src/devices/runtime.ts:220-238 SecureStorageDeviceLifecyclePersistence.commit *)
Definition commit_ (input : CommitInput) : M St unit :=
  let conflict := "Device lifecycle state conflict." in
  id ← lift (canonicalIdentityRecordId (scope input));
  expected_ ← gets (λ p, read p RECORD_TYPE id);
  expectedHighwater ← gets (λ p, read p HIGHWATER_RECORD_TYPE id);
  o ← observe (readRecord (scope input));
  normalized ← lift (createDeviceList (list_json (nextList input)));
  lift (throw_if (negb (String.eqb (identityReference normalized) (scope input))) "Device lifecycle scope mismatch.");;
  computed ← lift (deviceListCommitment sha256_hex normalized);
  r ← lift (require o conflict);
  lift (throw_if (negb (epoch (snapshot_list (lr_state r)) =? expectedEpoch input) ||
    negb (highestEpoch r =? expectedEpoch input) || negb (String.eqb (commitment (lr_state r)) (in_previousCommitment input)) ||
    negb (epoch normalized =? expectedEpoch input + 1) ||
    negb (bool_decide (previousCommitment normalized = Some (in_previousCommitment input))) ||
    negb (String.eqb computed (nextCommitment input))) conflict);;
  replayed ← lift (some_res (λ item, n ← prop item "transactionNonce";
    mret (bool_decide (n = JStr (rec_transactionNonce (authorization input))))) (authorizations r));
  lift (throw_if replayed conflict);;
  write_state id expected_ expectedHighwater
    {| lr_state := {| snapshot_list := normalized; commitment := computed |};
       authorizations := authorizations r ++ [authorization_json (authorization input)]; highestEpoch := epoch normalized;
       commitmentHistory := next_history r normalized computed |};;
  persisted ← observe (readRecord (scope input));
  lift (throw_if (match persisted with
                  | Some r' => negb (String.eqb (commitment (lr_state r')) computed) || negb (highestEpoch r' =? epoch normalized)
                  | None => true end) "Device lifecycle commit verification failed.").

#[export] Instance secure_storage_lifecycle : DeviceLifecyclePersistence St := {|
  read_state sc p := read_snapshot sc p; readAuthorization sc d p := readAuthorization_ sc d p;
  commit input := commit_ input |}.
End store.

(** ** Reading back what was written *)
(** Records whose raw parts are JSON this class wrote: replayable values, and commitments of epochs up to
    the current one. *)
Definition history_wf (top : Z) (item : jsval) : Prop :=
  ∃ e c, item = history_item e c ∧ isSafeInteger e = true ∧ e ≤ top.
Definition record_wf (r : LifecycleRecord) : Prop :=
  Forall (λ v, plain v = true) (authorizations r) ∧ Forall (history_wf (highestEpoch r)) (commitmentHistory r).

Lemma list_json_plain l : plain (list_json l) = true.
Proof.
  assert (plain (JArr (entry_json <$> devices l)) = true) as Hd.
  { apply plain_arr, Forall_fmap, Forall_forall. intros e _. apply entry_json_plain. }
  cbn [plain] in Hd. unfold list_json. cbn [plain forallb snd]. rewrite Hd. by destruct (previousCommitment l).
Qed.

Lemma history_item_plain top it : history_wf top it → plain it = true.
Proof. intros (e & c & -> & _). reflexivity. Qed.

Lemma plain_member fs k v : NoDup (keys fs) → Forall (λ kv, plain kv.2 = true) fs → plain (JObj fs) = true ∧ ((k, v) ∈ fs → plain v = true).
Proof.
  intros Hnd Hfs. split.
  - cbn [plain]. rewrite (bool_decide_eq_true_2 _ Hnd), andb_true_r. apply forallb_forall.
    intros kv Hkv. rewrite Forall_forall in Hfs. apply Hfs. by apply list_elem_of_In.
  - intros Hin. rewrite Forall_forall in Hfs. by apply (Hfs (k, v)).
Qed.

Lemma record_plain r : record_wf r → plain (record_json r) = true.
Proof.
  intros [Ha Hh]. apply (plain_member _ "" JNull); [refine (bool_decide_unpack _ _); reflexivity|].
  repeat apply Forall_cons_2; try apply Forall_nil_2; cbn [snd].
  - done.
  - unfold snapshot_json. cbn [plain forallb snd]. by rewrite list_json_plain.
  - by apply plain_arr.
  - done.
  - apply plain_arr. eapply Forall_impl; [exact Hh|]. intros it. apply history_item_plain.
Qed.

Lemma history_readable top h : Forall (history_wf top) h → some_res bad_history_item h = Ok false.
Proof.
  induction 1 as [|it h (e & c & -> & He & _) _ IH]; [done|]. cbn [some_res].
  unfold bad_history_item at 1. cbn. rewrite He. apply IH.
Qed.

Lemma find_history top h e c :
  Forall (history_wf top) h → top < e →
  find_res (λ item, x ← prop item "epoch"; mret (bool_decide (x = JNum (NInt e)))) (h ++ [history_item e c]) =
    Ok (Some (history_item e c)).
Proof.
  intros Hh Hlt. induction Hh as [|it h (e' & c' & -> & _ & Hle) _ IH].
  - cbn. by rewrite bool_decide_eq_true_2.
  - cbn [app find_res]. cbn [prop get history_item String.eqb Ascii.eqb Bool.eqb mbind res_bind mret res_ret].
    rewrite bool_decide_eq_false_2 by (intros [= ->]; lia). apply IH.
Qed.

Lemma some_res_false {A} (f : A → res bool) l : some_res f l = Ok false → ∀ x, x ∈ l → f x = Ok false.
Proof.
  induction l as [|x l IH]; intros Hs y Hy; [set_solver|]. cbn [some_res] in Hs.
  apply bind_ok in Hs as ([|] & Hx & Hs); [discriminate|].
  apply elem_of_cons in Hy as [->|Hy]; [done|]. by apply IH.
Qed.

Section store_laws.
Context (sha256_hex : string → string) `{SecureStorageLaws St}.
Notation read_record := (readRecord sha256_hex).

Lemma readHighwater_written sc id h (p : St) :
  canonicalIdentityRecordId sha256_hex sc = Ok id → isSafeInteger (hw_epoch h) = true → 0 ≤ hw_epoch h →
  read p HIGHWATER_RECORD_TYPE id = Some (stringify (highwater_json h)) → readHighwater sha256_hex sc p = Ok (Some h).
Proof.
  intros Hid Hs Hpos Hr. unfold readHighwater. eapply res_step; [exact Hid|]. rewrite Hr.
  rewrite parse_stringify by reflexivity. destruct h as [e c]. cbn in *. rewrite Hs. cbn.
  rewrite (proj2 (Z.ltb_ge _ _)) by lia. done.
Qed.

(** What a successful read establishes. *)
Record record_ok (sc : string) (p : St) (r : LifecycleRecord) : Prop := {
  ro_list : list_ok (snapshot_list (lr_state r)) = true;
  ro_scope : identityReference (snapshot_list (lr_state r)) = sc;
  ro_commitment : deviceListCommitment sha256_hex (snapshot_list (lr_state r)) = Ok (commitment (lr_state r));
  ro_epoch : highestEpoch r = epoch (snapshot_list (lr_state r));
  ro_highwater : ∃ o, readHighwater sha256_hex sc p = Ok o ∧ ∀ h, o = Some h →
    hw_epoch h < highestEpoch r ∨ (hw_epoch h = highestEpoch r ∧ hw_commitment h = commitment (lr_state r)) }.

Lemma readRecord_inv sc (p : St) r :
  read_record sc p = Ok (Some r) →
  record_ok sc p r ∧ ∃ id text value, canonicalIdentityRecordId sha256_hex sc = Ok id ∧
    read p RECORD_TYPE id = Some text ∧ parse text = Some value ∧
    as_array (oprop value "authorizations") = Some (authorizations r) ∧
    as_array (nullish (oprop value "commitmentHistory")
      (JArr [history_item (highestEpoch r) (commitment (lr_state r))])) = Some (commitmentHistory r) ∧
    nullish (oprop value "highestEpoch") (JNum (NInt (highestEpoch r))) = JNum (NInt (highestEpoch r)).
Proof.
  unfold readRecord. intros Hr. apply bind_ok in Hr as (id & Hid & Hr).
  destruct (read p RECORD_TYPE id) as [text|] eqn:Ht.
  2: { apply bind_ok in Hr as (? & _ & Hr). apply bind_ok in Hr as (? & _ & Hr). discriminate. }
  cbv zeta in Hr. res_inv Hr. injection Hr as <-. guard_inv Hr8. guard_inv Hr5.
  destruct Hr8 as [[Hep _] _].
  split; [split|].
  - by eapply createDeviceList_ok.
  - done.
  - done.
  - done.
  - exists x13. split; [done|]. intros h ->. cbn [highestEpoch lr_state commitment].
    guard_inv Hr15. destruct Hr15 as [Hle%Z.ltb_ge Hc].
    destruct (Z.eqb_spec (hw_epoch h) (epoch x3)) as [E|E]; [right|left; lia].
    split; [done|]. cbn in Hc. by apply negb_false_iff, String.eqb_eq in Hc.
  - exists id, text, x. done.
Qed.
End store_laws.

Lemma list_ok_epoch l : list_ok l = true → isSafeInteger (epoch l) = true ∧ 0 ≤ epoch l.
Proof. unfold list_ok, timestamp_ok. rewrite !andb_true_iff, Z.leb_le. tauto. Qed.

Section store_properties.
Context (sha256_hex : string → string) `{SecureStorageLaws St}.
Notation read_record := (readRecord sha256_hex).

Definition highwater_of (r : LifecycleRecord) : LifecycleHighwater :=
  {| hw_epoch := highestEpoch r; hw_commitment := commitment (lr_state r) |}.

Definition has_current (r : LifecycleRecord) : Prop :=
  find_res (λ item, x ← prop item "epoch"; mret (bool_decide (x = JNum (NInt (highestEpoch r))))) (commitmentHistory r) =
  Ok (Some (history_item (highestEpoch r) (commitment (lr_state r)))).

Lemma readRecord_written sc id r (p : St) :
  canonicalIdentityRecordId sha256_hex sc = Ok id → list_ok (snapshot_list (lr_state r)) = true →
  identityReference (snapshot_list (lr_state r)) = sc →
  deviceListCommitment sha256_hex (snapshot_list (lr_state r)) = Ok (commitment (lr_state r)) →
  highestEpoch r = epoch (snapshot_list (lr_state r)) → record_wf r → has_current r →
  read p RECORD_TYPE id = Some (stringify (record_json r)) →
  read p HIGHWATER_RECORD_TYPE id = Some (stringify (highwater_json (highwater_of r))) →
  read_record sc p = Ok (Some r).
Proof.
  intros Hid Hl Hsc Hc He Hwf Hcur Hr Hh.
  pose proof (list_ok_epoch _ Hl) as [Hsafe Hpos].
  assert (readHighwater sha256_hex sc p = Ok (Some (highwater_of r))) as Hhw.
  { eapply readHighwater_written; [done| | |done]; cbn [highwater_of hw_epoch]; by rewrite He. }
  unfold readRecord. eapply res_step; [exact Hid|]. rewrite Hr. cbv zeta.
  rewrite parse_stringify by (by apply record_plain). eapply res_step; [reflexivity|].
  cbn [oprop record_json snapshot_json get String.eqb Ascii.eqb Bool.eqb truthy list_json negb throw_if as_array require
       js_safe_int safe_int nullish].
  eapply res_step; [done|]. eapply res_step; [done|]. rewrite Hsafe.
  eapply res_step; [by rewrite bool_decide_eq_false_2|]. eapply res_step; [by apply createDeviceList_json|]. cbv beta.
  rewrite Hsc, String.eqb_refl. eapply res_step; [done|]. eapply res_step; [exact Hc|]. cbv beta.
  eapply res_step; [by rewrite bool_decide_eq_true_2|].
  eapply res_step; [by rewrite He, bool_decide_eq_true_2, Hsafe, (proj2 (Z.ltb_ge _ _) Hpos)|].
  eapply res_step; [done|]. destruct Hwf as [_ Hwf]. eapply res_step; [by eapply history_readable|].
  eapply res_step; [done|]. cbv beta. unfold has_current in Hcur. rewrite He in Hcur.
  eapply res_step; [exact Hcur|]. eapply res_step; [cbn; by rewrite bool_decide_eq_true_2|].
  eapply res_step; [exact Hhw|].
  eapply res_step; [cbn; by rewrite He, Z.ltb_irrefl, Z.eqb_refl, String.eqb_refl|].
  destruct r as [[l c] au h hi]; cbn in *. by subst.
Qed.

(** A storage whose lifecycle records were all written by this class. *)
Definition intact (p : St) : Prop := ∀ id text, read p RECORD_TYPE id = Some text →
  ∃ r, text = stringify (record_json r) ∧ record_wf r.

Lemma readRecord_wf sc (p : St) r : intact p → read_record sc p = Ok (Some r) → record_wf r.
Proof.
  intros Hp [_ (id & text & v & _ & Ht & Hparse & Ha & Hh & Hn)]%readRecord_inv.
  destruct (Hp id text Ht) as (r0 & -> & Hwf). rewrite parse_stringify in Hparse by (by apply record_plain).
  injection Hparse as <-. cbn in Ha, Hh, Hn. destruct Hwf as [Hwa Hwh].
  unfold record_wf. injection Ha as <-. injection Hh as <-. injection Hn as <-. by split.
Qed.

(** The record a write leaves. *)
Lemma writeAtomic_ok id e h n nh (p p' : St) :
  writeAtomic id e h n nh p = (Ok tt, p') →
  read p RECORD_TYPE id = e ∧ read p HIGHWATER_RECORD_TYPE id = h ∧
  read p' RECORD_TYPE id = Some n ∧ read p' HIGHWATER_RECORD_TYPE id = Some nh ∧
  ∀ t i, i ≠ id → read p' t i = read p t i.
Proof.
  unfold writeAtomic. set (us := [_; _]).
  assert (NoDup (update_key <$> us)) as Hnd.
  { subst us. cbn. apply NoDup_cons. split; [|apply NoDup_singleton]. rewrite list_elem_of_singleton. by intros [=]. }
  pose proof (cas_result p us Hnd) as Hres. pose proof (cas_written p us) as Hw. pose proof (cas_other p us) as Ho.
  destruct (compareAndSwapRecords us p) as [[|] p1]; cbn in *; [|discriminate]. intros [= <-].
  unfold expectations_hold in Hres. cbn in Hres. symmetry in Hres.
  rewrite !andb_true_iff, !bool_decide_eq_true in Hres. destruct Hres as (He & Hh & _). split_and!; try done.
  - refine (Hw {| recordType := _; recordId := _ |} Hnd eq_refl _). apply elem_of_cons. by left.
  - refine (Hw {| recordType := _; recordId := _ |} Hnd eq_refl _). apply elem_of_cons. right. by apply list_elem_of_singleton.
  - intros t i Hne. apply Ho. rewrite elem_of_cons, list_elem_of_singleton. intros [[=]|[=]]; done.
Qed.

Lemma write_state_err id e h r (p p' : St) msg : write_state id e h r p = (Err msg, p') → p' = p.
Proof.
  unfold write_state, writeAtomic. set (us := [_; _]). pose proof (cas_fail p us) as Hf.
  destruct (compareAndSwapRecords us p) as [[|] p1]; cbn in *; [discriminate|]. intros [= _ <-]. by apply Hf.
Qed.

Lemma write_state_intact id e h r (p p' : St) :
  record_wf r → intact p → write_state id e h r p = (Ok tt, p') → intact p'.
Proof.
  intros Hr Hp (_ & _ & Hw & _ & Ho)%writeAtomic_ok i text Ht. destruct (decide (i = id)) as [->|Hne].
  - exists r. split; [congruence|done].
  - rewrite Ho in Ht by done. by apply (Hp i).
Qed.
End store_properties.

Lemma take_last_snoc {A} n (l : list A) x : (0 < n)%nat → ∃ k, take_last n (l ++ [x]) = drop k l ++ [x].
Proof.
  intros Hn. unfold take_last. rewrite length_app. cbn [length]. exists (length l + 1 - n)%nat.
  by rewrite drop_app_le by lia.
Qed.

Section store_theorems.
Context (sha256_hex : string → string) `{SecureStorageLaws St}.
Notation read_record := (readRecord sha256_hex).

(** The record the commit of [input] over [r] writes. *)
Definition committed (input : CommitInput) (r : LifecycleRecord) : LifecycleRecord :=
  {| lr_state := {| snapshot_list := nextList input; commitment := nextCommitment input |};
     authorizations := authorizations r ++ [authorization_json (authorization input)];
     highestEpoch := epoch (nextList input);
     commitmentHistory := next_history r (nextList input) (nextCommitment input) |}.

Lemma next_history_wf r l c :
  record_wf r → epoch l = highestEpoch r + 1 → isSafeInteger (epoch l) = true →
  Forall (history_wf (epoch l)) (next_history r l c) ∧
  find_res (λ item, x ← prop item "epoch"; mret (bool_decide (x = JNum (NInt (epoch l))))) (next_history r l c) =
    Ok (Some (history_item (epoch l) c)).
Proof.
  intros [_ Hh] He Hs. unfold next_history.
  destruct (take_last_snoc 256 (commitmentHistory r) (history_item (epoch l) c)) as [k ->]; [lia|].
  assert (Forall (history_wf (highestEpoch r)) (drop k (commitmentHistory r))) as Hd by by apply Forall_drop.
  split; [|eapply find_history; [exact Hd|lia]]. apply Forall_app_2.
  - eapply Forall_impl; [exact Hd|]. intros it (e & c' & -> & ? & ?). exists e, c'. split_and!; try done. lia.
  - apply Forall_singleton. exists (epoch l), c. split_and!; try done; lia.
Qed.

Lemma committed_wf input r :
  record_wf r → epoch (nextList input) = highestEpoch r + 1 → isSafeInteger (epoch (nextList input)) = true →
  record_wf (committed input r) ∧ has_current (committed input r).
Proof.
  intros Hwf He Hs. destruct (next_history_wf r (nextList input) (nextCommitment input) Hwf He Hs) as [Hh Hf].
  split; [|exact Hf]. split; [|exact Hh]. cbn [committed authorizations]. apply Forall_app_2; [apply Hwf|].
  apply Forall_singleton. by destruct (rec_operation (authorization input)).
Qed.

(** The condition under which a commit over the record [r] is accepted. *)
Record commit_fits (input : CommitInput) (r : LifecycleRecord) : Prop := {
  cf_epoch : highestEpoch r = expectedEpoch input;
  cf_commitment : commitment (lr_state r) = in_previousCommitment input;
  cf_next : list_ok (nextList input) = true;
  cf_scope : identityReference (nextList input) = scope input;
  cf_next_epoch : epoch (nextList input) = expectedEpoch input + 1;
  cf_chain : previousCommitment (nextList input) = Some (in_previousCommitment input);
  cf_digest : deviceListCommitment sha256_hex (nextList input) = Ok (nextCommitment input);
  cf_fresh : Forall (λ item, prop item "transactionNonce" ≠ Ok (JStr (rec_transactionNonce (authorization input))))
    (authorizations r) }.

Lemma commit_outcome input (p : St) :
  intact p →
  (∃ msg, commit_ sha256_hex input p = (Err msg, p)) ∨
  (∃ p' r, commit_ sha256_hex input p = (Ok tt, p') ∧ read_record (scope input) p = Ok (Some r) ∧ commit_fits input r ∧
    intact p' ∧ read_record (scope input) p' = Ok (Some (committed input r)) ∧
    readHighwater sha256_hex (scope input) p' = Ok (Some (highwater_of (committed input r)))).
Proof.
  intros Hp. unfold commit_. cbv zeta.
  rewrite lift_bind. destruct (canonicalIdentityRecordId sha256_hex (scope input)) as [id|e] eqn:Hid; [|left; by exists e].
  rewrite !gets_bind, observe_bind. destruct (read_record (scope input) p) as [o|e] eqn:Hrec; [|left; by exists e].
  rewrite lift_bind. destruct (createDeviceList (list_json (nextList input))) as [l|e] eqn:Hl; [|left; by exists e].
  apply createDeviceList_json in Hl as [-> Hl].
  rewrite lift_bind. destruct (throw_if (negb (String.eqb _ _)) _) as [u|e] eqn:Hsc; [|left; by exists e]. guard_inv Hsc.
  rewrite lift_bind. destruct (deviceListCommitment sha256_hex (nextList input)) as [c|e] eqn:Hc; [|left; by exists e].
  rewrite lift_bind. destruct o as [r|]; cbn [require]; [|left; eauto].
  rewrite lift_bind. destruct (throw_if _ _) as [u2|e] eqn:Hg; [|left; by exists e]. guard_inv Hg.
  destruct Hg as [[[[[H1%Z.eqb_eq H2%Z.eqb_eq] H3] H4%Z.eqb_eq] H5] ->].
  rewrite lift_bind. destruct (some_res _ (authorizations r)) as [[|]|e] eqn:Hs; [left; eauto| |left; by exists e].
  cbn [throw_if]. rewrite lift_bind.
  pose proof (list_ok_epoch _ Hl) as [Hsafe Hpos]. pose proof (readRecord_inv _ _ _ _ Hrec) as [Hro _].
  assert (epoch (nextList input) = highestEpoch r + 1) as Hnext by lia.
  destruct (committed_wf input r (readRecord_wf _ _ _ _ Hp Hrec) Hnext Hsafe) as [Hwf Hcur].
  fold (committed input r). set (w := write_state _ _ _ _). destruct (w p) as [[u3|e] p'] eqn:Hw; subst w.
  2: { left. exists e. unfold mbind at 1, M_bind at 1. rewrite Hw. by apply write_state_err in Hw as ->. }
  destruct u3. pose proof (write_state_intact _ _ _ _ _ _ Hwf Hp Hw) as Hp'.
  pose proof (writeAtomic_ok _ _ _ _ _ _ _ Hw) as (_ & _ & Hr1 & Hr2 & _).
  assert (read_record (scope input) p' = Ok (Some (committed input r))) as Hrd by by eapply readRecord_written.
  right. exists p', r. unfold mbind at 1, M_bind at 1. rewrite Hw, observe_bind, Hrd. split_and!; try done.
  - cbn. by rewrite String.eqb_refl, Z.eqb_refl.
  - split; try done. apply Forall_forall. intros it Hit.
    pose proof (some_res_false _ _ Hs it Hit) as Hn. cbv beta in Hn. intros Heq. rewrite Heq in Hn. cbn in Hn.
    by rewrite bool_decide_eq_true_2 in Hn.
  - eapply readHighwater_written; [done|done|done|exact Hr2].
Qed.

#[export] Instance store_lifecycle_laws :
  @LifecyclePersistenceLaws St (secure_storage_lifecycle sha256_hex) intact.
Proof.
  constructor. intros input p p' Hp Hc. cbn in Hc |- *.
  destruct (commit_outcome input p Hp) as [[msg Hm]|(p1 & r & Hm & _ & _ & Hp1 & Hr & _)]; [congruence|].
  assert (p1 = p') as -> by congruence. split; [done|]. unfold read_snapshot. by rewrite Hr.
Qed.


Lemma suspended_highwater sc id e c ex hw text o (p p' : St) :
  canonicalIdentityRecordId sha256_hex sc = Ok id → isSafeInteger e = true → 0 ≤ e →
  writeAtomic id ex hw text (stringify (highwater_json {| hw_epoch := e; hw_commitment := c |})) p = (Ok tt, p') →
  readHighwater sha256_hex sc p' = Ok o → ∃ h, o = Some h ∧ e ≤ hw_epoch h.
Proof.
  intros Hid Hs Hpos (_ & _ & _ & Hw & _)%writeAtomic_ok Ho.
  pose proof (readHighwater_written sha256_hex sc id {| hw_epoch := e; hw_commitment := c |} p' Hid Hs Hpos Hw) as Hr.
  rewrite Hr in Ho. injection Ho as <-. eexists; split; [done|]. done.
Qed.

(** A stored record that reads back is a valid list of its scope with its own commitment, and the
    high-water mark names no later epoch and no other list of its epoch: a restored older record is
    refused; and once trust is suspended at a later epoch, no record below it is readable. *)
Theorem stored_rollback_detected sc (p : St) :
  (∀ r, read_record sc p = Ok (Some r) → record_ok sha256_hex sc p r) ∧
  (∀ h, readHighwater sha256_hex sc p = Ok (Some h) → read_record sc p ≠ Ok None) ∧
  (∀ e c p', isSafeInteger e = true → 0 ≤ e → suspendTrust sha256_hex sc e c p = (Ok tt, p') →
     ∀ r, read_record sc p' = Ok (Some r) → e ≤ highestEpoch r).
Proof.
  split_and!.
  - intros r Hr. by apply readRecord_inv in Hr as [? _].
  - intros h Hh. unfold readRecord. pose proof Hh as Hh'. unfold readHighwater in Hh'.
    destruct (canonicalIdentityRecordId sha256_hex sc) as [id|]; [|done]. cbn [mbind res_bind].
    destruct (read p RECORD_TYPE id).
    + cbv zeta. intros Hr. res_inv Hr. discriminate.
    + rewrite Hh. cbn [mbind res_bind]. by rewrite bool_decide_eq_true_2.
  - intros e c p' Hs Hpos Hsus r Hr. apply readRecord_inv in Hr as [Hro _].
    destruct (ro_highwater _ _ _ _ Hro) as (o & Ho & Hbound).
    assert (∃ h, o = Some h ∧ e ≤ hw_epoch h) as (h & -> & Hle).
    2: { destruct (Hbound h eq_refl); lia. }
    unfold suspendTrust in Hsus. rewrite lift_bind in Hsus.
    destruct (canonicalIdentityRecordId sha256_hex sc) as [id|] eqn:Hid; [|discriminate].
    rewrite !gets_bind, lift_bind in Hsus. destruct (read p RECORD_TYPE id); [|discriminate]. cbn [require] in Hsus.
    rewrite observe_bind in Hsus. destruct (readHighwater sha256_hex sc p) as [[h0|]|] eqn:Hh0; [..|discriminate].
    + destruct (Z.ltb_spec e (hw_epoch h0)) as [Hlt|Hlt].
      * injection Hsus as <-. rewrite Hh0 in Ho. injection Ho as <-. exists h0. split; [done|lia].
      * by eapply suspended_highwater.
    + by eapply suspended_highwater.
Qed.
End store_theorems.

(** ** A run over the in-memory storage *)
Definition initial_record : LifecycleRecord :=
  {| lr_state := {| snapshot_list := sample_list ["a"]; commitment := sample_digest |}; authorizations := [];
     highestEpoch := 3; commitmentHistory := [history_item 3 sample_digest] |}.
Definition next_list_sample : DeviceList :=
  {| identityReference := "account"; epoch := 4; previousCommitment := Some sample_digest;
     devices := sample_entry <$> ["a"; "b"] |}.
Definition initial_storage : memory := (write_state "account" None None initial_record (∅ : memory)).2.
Definition sample_commit : CommitInput :=
  {| scope := "account"; expectedEpoch := 3; in_previousCommitment := sample_digest; nextList := next_list_sample;
     nextCommitment := sample_digest;
     authorization := {| rec_operation := enroll; rec_transactionNonce := "0123456789abcdef"; rec_authorDeviceId := "a";
                         rec_sequence := 4; rec_digest := sample_digest; rec_expiresAt := 9 |} |}.

Example initialize_writes_it :
  stringify (record_json initial_record) =
  default "" (read (initialize sample_hash "account" (sample_list ["a"]) (∅ : memory)).2 RECORD_TYPE "account").
Proof. vm_compute. reflexivity. Qed.

Lemma initial_storage_intact : intact initial_storage.
Proof.
  refine (write_state_intact "account" None None initial_record (∅ : memory) _ _ _ _).
  - split; [apply Forall_nil_2|]. apply Forall_singleton. exists 3, sample_digest. done.
  - intros id text. cbn. intros Hl. by apply lookup_empty_Some in Hl.
  - unfold initial_storage. assert ((write_state "account" None None initial_record (∅ : memory)).1 = Ok tt) as Hw
      by (vm_compute; reflexivity).
    destruct (write_state "account" None None initial_record (∅ : memory)) as [r p]. cbn in *. by rewrite Hw.
Qed.


Example sample_commit_accepted : is_ok (commit_ sample_hash sample_commit initial_storage).1 = true.
Proof. vm_compute. reflexivity. Qed.

Lemma stored_rollback_detected_witness : record_ok sample_hash "account" initial_storage initial_record.
Proof.
  apply (stored_rollback_detected sample_hash "account" initial_storage). vm_compute. reflexivity.
Defined.

Example suspended_unreadable :
  readRecord sample_hash "account" (suspendTrust sample_hash "account" 5 sample_digest initial_storage).2 =
    Err "Device lifecycle rollback detected.".
Proof. vm_compute. reflexivity. Qed.
