(* ===== verification/ContactRegistry.v ===== *)
(** * Contact identities and their verification ([identity/contactIdentityRegistry.ts])

    The registry over the secure storage. A stored record is the JSON object it is, as its list of
    fields ([fields]): [parseStored] checks only some of them. The operations of one registry are
    serialized by its queue, so each is one step on the storage; [now] is the clock's value. *)
From S2P Require Import Prelude Json Storage Base64.

Definition RECORD_TYPE : string := "contact-identity".
Definition fields := list (string * jsval).

(* service/src/core/contracts.ts:69-72 ContactIdentity *)
Record ContactIdentity := { identityId : string; ci_algorithm : string; publicKey : string }.

(** The identity a record binds a contact to, and the presented one. *)
Definition identity_of (r : fields) : jsval * jsval * jsval := (get r "identityId", get r "algorithm", get r "publicKey").
Definition presented_of (i : ContactIdentity) : jsval * jsval * jsval :=
  (JStr (identityId i), JStr (ci_algorithm i), JStr (toBase64Url (publicKey i))).
Definition presented_fields (i : ContactIdentity) : fields :=
  [("identityId", JStr (identityId i)); ("algorithm", JStr (ci_algorithm i));
   ("publicKey", JStr (toBase64Url (publicKey i)))].

(** [{ ...base, ...update }] *)
Definition spread (base update : fields) : fields := foldl (λ fs kv, set_key fs kv.1 kv.2) base update.

(* service/src/identity/contactIdentityRegistry.ts:8-22 StoredContactIdentity *)
Definition stored_keys : list string :=
  ["algorithm"; "changeStatus"; "contactId"; "identityChangedAt"; "identityId"; "pendingIdentity"; "publicKey";
   "verification"; "verifiedAt"].
(* service/src/identity/contactIdentityRegistry.ts:24-25 ContactIdentityEvent *)
Inductive ContactIdentityEvent :=
| first_seen (current : fields)
| unchanged (current : fields)
| identity_changed (current : fields) (presented : ContactIdentity) (verifiedIdentityPreserved : bool).

Definition one_of (l : list string) (v : jsval) : bool := match v with JStr s => existsb (String.eqb s) l | _ => false end.

(* service/src/identity/contactIdentityRegistry.ts:29-42 parseStored *)
Definition parseStored (bytes : string) : res fields :=
  let corrupted := "Corrupted contact identity record." in
  parsed ← require (parse bytes) "SyntaxError";
  r ← require (as_object parsed) corrupted;
  throw_if (existsb (λ k, negb (existsb (String.eqb k) stored_keys)) (keys r) ||
    negb (is_str (get r "contactId")) || negb (is_str (get r "identityId")) ||
    negb (is_str (get r "algorithm")) || negb (is_str (get r "publicKey")) ||
    negb (one_of ["unknown"; "unverified"; "verified"] (get r "verification")) ||
    negb (one_of ["unchanged"; "changed-pending-review"] (get r "changeStatus"))) corrupted;;
  match get r "publicKey" with JStr k => fromBase64Url k;; mret r | _ => mret r end.

(* service/src/identity/contactIdentityRegistry.ts:44-45 encodeStored *)
Definition encodeStored (value : fields) : string := stringify (JObj value).

(** [value > z] for the values of a [verifiedAt] *)
Definition num_gt (n : jsnum) (z : Z) : bool :=
  match n with
  | NInt a => z <? a
  | NFrac m k => z * 10 ^ Z.of_N (k + 1) <? m
  | NInf => true
  | NNaN | NNegInf => false
  end.
Definition js_gt (v : jsval) (z : Z) : bool :=
  match v with JNum n => num_gt n z | JBool b => z <? (if b then 1 else 0) | JNull => z <? 0 | _ => false end.

Section registry.
Context `{SecureStorage St}.

(* service/src/identity/contactIdentityRegistry.ts:58-66 writeRecord *)
Definition writeRecord (contactId : string) (expected_ : option string) (value : fields) : M St unit :=
  λ p, let '(ok, p') := swap_record RECORD_TYPE contactId expected_ (encodeStored value) p in
       (throw_if (negb ok) "Contact state changed concurrently; review it again.", p').

Definition verification_is (s : string) (r : fields) : bool := bool_decide (get r "verification" = JStr s).
Definition downgrade (r : fields) : fields := spread r [("verification", JStr "unverified"); ("verifiedAt", JUndef)].

(* service/src/identity/contactIdentityRegistry.ts:171-180 applyRecoveryReset *)
Definition applyRecoveryReset (current : fields) (expected_ : string) (persist : bool) : M St fields :=
  marker ← gets (λ p, read p "contact-trust-reset" "local");
  match marker with
  | None => mret current
  | Some text =>
      if negb (verification_is "verified" current) then mret current else
      reset ← lift (require (parse text) "SyntaxError");
      version ← lift (prop reset "version");
      let at_ := js_safe_int (oprop reset "resetAt") in
      lift (throw_if (negb (bool_decide (version = JNum (NInt 1)))) "Contact trust reset state is invalid.");;
      resetAt ← lift (require at_ "Contact trust reset state is invalid.");
      if js_gt (nullish (get current "verifiedAt") (JNum (NInt 0))) resetAt then mret current else
      (if persist then match get current "contactId" with JStr c => writeRecord c (Some expected_) (downgrade current) | _ => mret tt end
       else mret tt);;
      mret (downgrade current)
  end.

(* service/src/identity/contactIdentityRegistry.ts:68-109 observe *)
Definition observe_contact (contactId : string) (presented : ContactIdentity) (now : Z) : M St ContactIdentityEvent :=
  storedBytes ← gets (λ p, read p RECORD_TYPE contactId);
  match storedBytes with
  | None =>
      let current := [("contactId", JStr contactId)] ++ presented_fields presented ++
        [("verification", JStr "unverified"); ("changeStatus", JStr "unchanged")] in
      writeRecord contactId None current;; mret (first_seen current)
  | Some text =>
      stored ← lift (parseStored text);
      current ← applyRecoveryReset stored text true;
      if bool_decide (identity_of current = presented_of presented) then mret (unchanged current) else
      let changed := spread current
        [("verification", if verification_is "verified" current then JStr "unverified" else get current "verification");
         ("changeStatus", JStr "changed-pending-review"); ("identityChangedAt", JNum (NInt now));
         ("pendingIdentity", JObj (presented_fields presented))] in
      writeRecord contactId
        (Some (if bool_decide (get current "verification" = get stored "verification") then text else encodeStored current)) changed;;
      mret (identity_changed changed presented (verification_is "verified" current))
  end.

(* service/src/identity/contactIdentityRegistry.ts:111-120 markVerified *)
Definition markVerified (contactId : string) (expectedIdentity : option string) (now : Z) : M St unit :=
  o ← gets (λ p, read p RECORD_TYPE contactId);
  text ← lift (require o "Unknown contact identity.");
  current ← lift (parseStored text);
  lift (throw_if (match expectedIdentity with
                  | Some e => negb (bool_decide (get current "identityId" = JStr e))
                  | None => false end) "Contact identity changed during comparison.");;
  lift (throw_if (negb (bool_decide (get current "changeStatus" = JStr "unchanged")))
    "Review the changed identity before verifying it.");;
  writeRecord contactId (Some text) (spread current [("verification", JStr "verified"); ("verifiedAt", JNum (NInt now))]).

(* service/src/identity/contactIdentityRegistry.ts:122-129 markUnverified *)
Definition markUnverified (contactId : string) : M St unit :=
  o ← gets (λ p, read p RECORD_TYPE contactId);
  text ← lift (require o "Unknown contact identity.");
  current ← lift (parseStored text);
  writeRecord contactId (Some text) (downgrade current).

(* service/src/identity/contactIdentityRegistry.ts:131-136 get *)
Definition get_contact (contactId : string) (persist : bool) : M St (option fields) :=
  o ← gets (λ p, read p RECORD_TYPE contactId);
  match o with
  | None => mret None
  | Some text => stored ← lift (parseStored text); r ← applyRecoveryReset stored text persist; mret (Some r)
  end.

(* service/src/identity/contactIdentityRegistry.ts:139-153 prepareVerifiedFileGuards *)
Definition prepareVerifiedFileGuards (contactId identity : string) : M St (list SecureRecordUpdate) :=
  o ← gets (λ p, read p RECORD_TYPE contactId);
  reset ← gets (λ p, read p "contact-trust-reset" "local");
  text ← lift (require o "File contact verification unavailable.");
  stored ← lift (parseStored text);
  current ← applyRecoveryReset stored text true;
  lift (throw_if (negb (bool_decide (get current "identityId" = JStr identity)) || negb (verification_is "verified" current) ||
    negb (bool_decide (get current "changeStatus" = JStr "unchanged"))) "Verified unchanged file contact required.");;
  mret [{| recordType := RECORD_TYPE; recordId := contactId; expected := Some text; next := text |};
        {| recordType := "contact-trust-reset"; recordId := "local"; expected := reset;
           next := default (stringify (JObj [("version", JNum (NInt 1)); ("resetAt", JNum (NInt 0))])) reset |}].

(** The spread of a pending identity that is not an object adds no key. *)
(* service/src/identity/contactIdentityRegistry.ts:155-169 acceptPendingChange *)
Definition acceptPendingChange (contactId : string) : M St unit :=
  o ← gets (λ p, read p RECORD_TYPE contactId);
  text ← lift (require o "Unknown contact identity.");
  current ← lift (parseStored text);
  let pending := get current "pendingIdentity" in
  lift (throw_if (negb (truthy pending)) "No pending identity change.");;
  writeRecord contactId (Some text)
    (spread (spread [("contactId", JStr contactId)] (default [] (as_object pending)))
       [("verification", JStr "unverified"); ("changeStatus", JStr "unchanged")]).
End registry.

(** ** Texts of records *)
Definition drop_undef (fs : fields) : fields := List.filter (λ kv, negb (bool_decide (kv.2 = JUndef))) fs.
(** Fields [JSON.stringify] keeps or drops: distinct keys, and values that are [undefined] or plain. *)
Definition kept (fs : fields) : Prop :=
  NoDup (keys fs) ∧ Forall (λ kv, kv.2 = JUndef ∨ plain kv.2 = true) fs.

Lemma stringify_drop_undef fs : stringify (JObj fs) = stringify (JObj (drop_undef fs)).
Proof.
  cbn [stringify]. do 3 f_equal. induction fs as [|[k v] fs IH]; [done|].
  unfold drop_undef in *. cbn [List.filter snd]. bdecide.
  - cbn in e. subst v. exact IH.
  - cbn [negb]. destruct v; try done; f_equal; exact IH.
Qed.

Lemma drop_undef_keys fs k : k ∈ keys (drop_undef fs) → k ∈ keys fs.
Proof.
  unfold keys, drop_undef. induction fs as [|[k' v] fs IH]; [done|]. cbn [List.filter snd].
  destruct (negb _); cbn; rewrite ?elem_of_cons; naive_solver.
Qed.

Lemma kept_plain fs : kept fs → plain (JObj (drop_undef fs)) = true.
Proof.
  intros [Hnd Hfs]. cbn [plain]. apply andb_true_iff. split.
  - apply forallb_forall. intros [k v] [Hin Hv]%filter_In. cbn in Hv. apply negb_true_iff, bool_decide_eq_false in Hv.
    rewrite Forall_forall in Hfs. apply list_elem_of_In in Hin. by destruct (Hfs (k, v) Hin).
  - apply bool_decide_eq_true. clear Hfs. unfold drop_undef. induction fs as [|[k v] fs IH]; [constructor|].
    apply NoDup_cons in Hnd as [Hk Hnd]. cbn [List.filter snd]. destruct (negb _); [|by apply IH].
    apply NoDup_cons. split; [|by apply IH]. intros Hin. apply Hk. by apply drop_undef_keys.
Qed.

Lemma get_absent fs k : k ∉ keys fs → get fs k = JUndef.
Proof.
  induction fs as [|[k' v] fs IH]; [done|]. cbn. rewrite elem_of_cons. intros Hk.
  destruct (String.eqb_spec k k'); [naive_solver|]. apply IH. naive_solver.
Qed.

Lemma get_drop_undef fs k : NoDup (keys fs) → get (drop_undef fs) k = get fs k.
Proof.
  unfold drop_undef. induction fs as [|[k' v] fs IH]; [done|]. intros [Hk Hnd]%NoDup_cons.
  cbn [List.filter snd get]. bdecide.
  - cbn [negb]. rewrite IH by done. destruct (String.eqb_spec k k') as [->|]; [|done].
    cbn in e. subst v. by apply get_absent.
  - cbn [negb get]. destruct (String.eqb_spec k k'); [done|]. by apply IH.
Qed.

Lemma set_key_keys fs k v k' : k' ∈ keys (set_key fs k v) ↔ k' = k ∨ k' ∈ keys fs.
Proof.
  induction fs as [|[k0 v0] fs IH]; cbn; [set_solver|].
  bdecide; cbn; rewrite !elem_of_cons; [subst; tauto|]. unfold keys in IH. rewrite IH. tauto.
Qed.

Lemma kept_cons k v fs : kept ((k, v) :: fs) ↔ k ∉ keys fs ∧ (v = JUndef ∨ plain v = true) ∧ kept fs.
Proof. unfold kept, keys. rewrite fmap_cons, NoDup_cons, Forall_cons. cbn. tauto. Qed.

Lemma kept_set_key fs k v : kept fs → v = JUndef ∨ plain v = true → kept (set_key fs k v).
Proof.
  intros Hk Hv. induction fs as [|[k0 v0] fs IH]; cbn.
  - split; [apply NoDup_singleton|by apply Forall_singleton].
  - apply kept_cons in Hk as (Hk & Hv0 & Hfs). bdecide; apply kept_cons.
    + by subst k0.
    + split_and!; [|done|by apply IH]. intros [->|?]%set_key_keys; naive_solver.
Qed.

Lemma kept_spread upd base :
  kept base → Forall (λ kv, kv.2 = JUndef ∨ plain kv.2 = true) upd → kept (spread base upd).
Proof.
  unfold spread. revert base. induction upd as [|[k v] upd IH]; intros base Hb Hu; [done|].
  apply Forall_cons in Hu as [Hv Hu]. cbn. apply IH; [|done]. by apply kept_set_key.
Qed.

Lemma plain_kept fs : plain (JObj fs) = true → kept fs.
Proof.
  cbn [plain]. rewrite andb_true_iff, bool_decide_eq_true, forallb_forall. intros [Hfs Hnd]. split; [done|].
  apply Forall_forall. intros kv Hkv. right. apply Hfs. by apply list_elem_of_In.
Qed.

Lemma foldl_app_set base upd k v k' v' :
  k ≠ k' → get (foldl (λ fs kv, set_key fs kv.1 kv.2) (foldl (λ fs kv, set_key fs kv.1 kv.2) base upd) [(k, v); (k', v')]) k = v.
Proof.
  intros Hne. cbn [foldl fst snd]. rewrite !get_set_key. destruct (String.eqb_spec k k'); [done|]. by rewrite String.eqb_refl.
Qed.

Lemma get_kept fs k : kept fs → get fs k = JUndef ∨ plain (get fs k) = true.
Proof.
  intros [_ Hfs]. induction Hfs as [|[k' v] fs Hv _ IH]; cbn; [by left|]. by destruct (String.eqb k k').
Qed.

Lemma downgrade_unverified r : verification_is "verified" (downgrade r) = false.
Proof. unfold verification_is, downgrade, spread. cbn [foldl fst snd]. by rewrite !get_set_key. Qed.

Lemma downgrade_kept r : kept r → kept (downgrade r).
Proof. intros Hr. apply kept_spread; [done|]. repeat constructor; by right. Qed.

(** ** Who can make a contact verified *)
Section registry_properties.
Context `{SecureStorageLaws St}.

(** Every stored contact record is a text the registry wrote. *)
Definition well_kept (p : St) : Prop := ∀ c text, read p RECORD_TYPE c = Some text →
  ∃ fs, text = encodeStored fs ∧ plain (JObj fs) = true.
Definition contact_record (p : St) (c : string) : option fields :=
  text ← read p RECORD_TYPE c; v ← parse text; as_object v.

(** A step after which no contact is verified that was not, under the same record, before. *)
Definition no_new_verification (p p' : St) : Prop :=
  well_kept p' ∧ ∀ d r, contact_record p' d = Some r → verification_is "verified" r = true → contact_record p d = Some r.

Lemma no_new_refl p : well_kept p → no_new_verification p p.
Proof. done. Qed.
Lemma no_new_trans p1 p2 p3 : no_new_verification p1 p2 → no_new_verification p2 p3 → no_new_verification p1 p3.
Proof. intros [_ H1] [Hw H2]. split; [done|]. intros d r Hr Hv. apply H1; [|done]. by apply H2. Qed.

Lemma contact_record_encoded (p : St) c fs :
  read p RECORD_TYPE c = Some (encodeStored fs) → kept fs → contact_record p c = Some (drop_undef fs).
Proof.
  intros Hr Hk. unfold encodeStored in Hr. rewrite stringify_drop_undef in Hr. unfold contact_record. rewrite Hr.
  cbn [mbind option_bind]. rewrite parse_stringify by (by apply kept_plain). done.
Qed.

(** The registry changes no record of another kind. *)
Section others.
Context (t i : string) (Ht : t ≠ RECORD_TYPE).
Definition untouched (d d' : St) : Prop := read d' t i = read d t i.
#[export] Instance untouched_preorder : PreOrder untouched.
Proof. split; [by intros ?|]. intros ? ? ? E E'. unfold untouched in *. congruence. Qed.
Lemma untouched_writeRecord c e v : always untouched (writeRecord c e v).
Proof.
  intros p x p'. unfold writeRecord. pose proof (swap_record_other RECORD_TYPE c e (encodeStored v) p t i) as Ho.
  destruct (swap_record _ _ _ _ p) as [ok p1]. intros [= _ <-]. apply Ho. congruence.
Qed.
Ltac untouched :=
  repeat match goal with
  | |- always untouched (_ ≫= _) => apply always_bind; [apply _| |intros ?]
  | |- always untouched (match ?x with _ => _ end) => destruct x
  | |- always untouched (if ?x then _ else _) => destruct x
  end; eauto using always_gets, always_lift, always_mret, untouched_writeRecord with typeclass_instances.
Lemma untouched_reset stored text persist : always untouched (applyRecoveryReset stored text persist).
Proof. unfold applyRecoveryReset. untouched. Qed.
Hint Resolve untouched_reset : core.
Lemma untouched_get_contact c persist : always untouched (get_contact c persist).
Proof. unfold get_contact. untouched. Qed.
Lemma untouched_observe c presented now : always untouched (observe_contact c presented now).
Proof. unfold observe_contact. untouched. Qed.
Lemma untouched_file_guards c identity : always untouched (prepareVerifiedFileGuards c identity).
Proof. unfold prepareVerifiedFileGuards. untouched. Qed.
End others.
Lemma get_contact_other c persist (d : St) t i : t ≠ RECORD_TYPE → read (get_contact c persist d).2 t i = read d t i.
Proof. intros Ht. destruct (get_contact c persist d) as [x d'] eqn:E. by eapply (untouched_get_contact t i Ht). Qed.

(** What a write leaves. *)
Lemma writeRecord_effect c e r (p : St) x p' :
  well_kept p → kept r → writeRecord c e r p = (x, p') →
  well_kept p' ∧ (∀ d, d ≠ c → contact_record p' d = contact_record p d) ∧
  (p' = p ∨ contact_record p' c = Some (drop_undef r)).
Proof.
  intros Hp Hr. unfold writeRecord. pose proof (swap_record_read RECORD_TYPE c e (encodeStored r) p) as Hread.
  pose proof (swap_record_fail RECORD_TYPE c e (encodeStored r) p) as Hfail.
  assert (∀ d, d ≠ c → read (swap_record RECORD_TYPE c e (encodeStored r) p).2 RECORD_TYPE d = read p RECORD_TYPE d) as Ho.
  { intros d Hd. apply swap_record_other. congruence. }
  destruct (swap_record RECORD_TYPE c e (encodeStored r) p) as [[|] p1]; cbn in *; intros [= _ <-].
  - split_and!.
    + intros d text Ht. destruct (decide (d = c)) as [->|Hd].
      * rewrite Hread in Ht by done. exists (drop_undef r). split; [|by apply kept_plain].
        injection Ht as <-. apply stringify_drop_undef.
      * rewrite Ho in Ht by done. by apply (Hp d).
    + intros d Hd. unfold contact_record. by rewrite Ho.
    + right. apply contact_record_encoded; [by apply Hread|done].
  - rewrite Hfail by done. split_and!; [done|done|by left].
Qed.

Lemma write_unverified c e r (p : St) x p' :
  well_kept p → kept r → verification_is "verified" r = false → writeRecord c e r p = (x, p') → no_new_verification p p'.
Proof.
  intros Hp Hr Hv (Hp' & Ho & Hc)%writeRecord_effect; [|done..]. split; [done|]. intros d r' Hr' Hv'.
  destruct (decide (d = c)) as [->|Hd]; [|by rewrite <-Ho]. destruct Hc as [->|Hc]; [done|].
  rewrite Hc in Hr'. injection Hr' as <-. unfold verification_is in *. rewrite get_drop_undef in Hv' by apply Hr.
  congruence.
Qed.

Lemma stored_kept (p : St) c text r :
  well_kept p → read p RECORD_TYPE c = Some text → parseStored text = Ok r → kept r ∧ contact_record p c = Some r.
Proof.
  intros Hp Ht Hr. destruct (Hp c text Ht) as (fs & -> & Hpl). unfold parseStored, encodeStored in Hr.
  rewrite parse_stringify in Hr by done. cbn [require as_object mbind res_bind] in Hr.
  apply bind_ok in Hr as (u & _ & Hr). assert (r = fs) as ->.
  { destruct (get fs "publicKey"); try (by apply Ok_inj in Hr). apply bind_ok in Hr as (? & _ & Hr). by apply Ok_inj in Hr. }
  split; [by apply plain_kept|]. unfold contact_record. rewrite Ht.
  cbn [mbind option_bind]. unfold encodeStored. by rewrite parse_stringify.
Qed.

Lemma applyRecoveryReset_effect cur text persist (p : St) x p' :
  well_kept p → kept cur → applyRecoveryReset cur text persist p = (x, p') →
  no_new_verification p p' ∧ ∀ r, x = Ok r → kept r.
Proof.
  intros Hp Hc. unfold applyRecoveryReset. rewrite gets_bind.
  destruct (read p "contact-trust-reset" "local") as [t|]; [|intros [= <- <-]; by split; [|intros r [= <-]]].
  destruct (negb _); [intros [= <- <-]; by split; [|intros r [= <-]]|].
  rewrite lift_bind. destruct (require _ _) as [v|]; [|intros [= <- <-]; by split].
  rewrite lift_bind. destruct (prop v "version") as [ver|]; [|intros [= <- <-]; by split].
  cbv zeta. rewrite lift_bind. destruct (throw_if _ _); [|intros [= <- <-]; by split].
  rewrite lift_bind. destruct (require _ _) as [z|]; [|intros [= <- <-]; by split].
  destruct (js_gt _ _); [intros [= <- <-]; by split; [|intros r [= <-]]|].
  pose proof (downgrade_kept _ Hc) as Hd. pose proof (downgrade_unverified cur) as Hu.
  destruct persist; [|intros [= <- <-]; by split; [|intros r [= <-]]].
  destruct (get cur "contactId"); try (intros [= <- <-]; by split; [|intros r [= <-]]).
  unfold mbind, M_bind. destruct (writeRecord s _ _ p) as [[u|e] p1] eqn:Hw; intros [= <- <-].
  all: split; [by eapply write_unverified|]; intros r [= <-]; done.
Qed.
End registry_properties.

Section verification_theorem.
Context `{SecureStorageLaws St}.

(* service/src/identity/contactIdentityRegistry.ts:50-56 ContactIdentityRegistry, operations *)
Inductive contact_op :=
| Observe (presented : ContactIdentity)
| MarkVerified (expectedIdentity : option string)
| MarkUnverified
| Get (persist : bool)
| PrepareGuards (identity : string)
| AcceptPending.

Definition run_op (op : contact_op) (c : string) (now : Z) : M St unit :=
  match op with
  | Observe i => observe_contact c i now;; mret tt
  | MarkVerified e => markVerified c e now
  | MarkUnverified => markUnverified c
  | Get persist => get_contact c persist;; mret tt
  | PrepareGuards i => prepareVerifiedFileGuards c i;; mret tt
  | AcceptPending => acceptPendingChange c
  end.

Lemma bind_unit {A} (m : M St A) (p : St) x p' : (m ;; mret tt) p = (x, p') → ∃ y, m p = (y, p').
Proof. unfold mbind, M_bind. destruct (m p) as [[a|e] p1]; intros [= _ <-]; by eexists. Qed.

Lemma observe_safe c i now (p : St) x p' :
  well_kept p → observe_contact c i now p = (x, p') → no_new_verification p p'.
Proof.
  intros Hp. unfold observe_contact. rewrite gets_bind. destruct (read p RECORD_TYPE c) as [text|] eqn:Ht.
  - rewrite lift_bind. destruct (parseStored text) as [r|] eqn:Hr; [|intros [= _ <-]; by apply no_new_refl].
    destruct (stored_kept _ _ _ _ Hp Ht Hr) as [Hk _].
    unfold mbind at 1, M_bind at 1. destruct (applyRecoveryReset r text true p) as [[cur|e] p1] eqn:Ha;
      destruct (applyRecoveryReset_effect _ _ _ _ _ _ Hp Hk Ha) as [Hn Hcur]; [|by intros [= _ <-]].
    specialize (Hcur cur eq_refl). destruct (bool_decide _); [by intros [= _ <-]|]. cbv zeta.
    unfold mbind, M_bind. destruct (writeRecord c _ _ p1) as [[u|e] p2] eqn:Hw; intros [= _ <-].
    all: eapply no_new_trans; [exact Hn|]; eapply write_unverified; [apply Hn| | |exact Hw].
    1, 3: apply kept_spread; [exact Hcur|].
    1, 2: repeat (apply Forall_cons_2; [|try apply Forall_nil_2]); try (by right); [].
    1, 2: cbn [snd]; destruct (verification_is "verified" cur); [by right|].
    1, 2: by apply get_kept.
    1, 2: unfold verification_is, spread; cbn [foldl fst snd]; rewrite !get_set_key; cbn.
    1, 2: destruct (bool_decide (get cur "verification" = JStr "verified")) eqn:E; [done|exact E].
  - cbv zeta. unfold mbind, M_bind. destruct (writeRecord c None _ p) as [[u|e] p1] eqn:Hw; intros [= _ <-].
    all: eapply write_unverified; [exact Hp| | |exact Hw]; [apply plain_kept|]; reflexivity.
Qed.

Lemma get_safe c persist (p : St) x p' :
  well_kept p → get_contact c persist p = (x, p') → no_new_verification p p'.
Proof.
  intros Hp. unfold get_contact. rewrite gets_bind. destruct (read p RECORD_TYPE c) as [text|] eqn:Ht; [|by intros [= _ <-]].
  rewrite lift_bind. destruct (parseStored text) as [r|] eqn:Hr; [|by intros [= _ <-]].
  destruct (stored_kept _ _ _ _ Hp Ht Hr) as [Hk _]. unfold mbind, M_bind.
  destruct (applyRecoveryReset r text persist p) as [[cur|e] p1] eqn:Ha; intros [= _ <-];
    by destruct (applyRecoveryReset_effect _ _ _ _ _ _ Hp Hk Ha).
Qed.

Lemma guards_safe c i (p : St) x p' :
  well_kept p → prepareVerifiedFileGuards c i p = (x, p') → no_new_verification p p'.
Proof.
  intros Hp. unfold prepareVerifiedFileGuards. rewrite !gets_bind, lift_bind.
  destruct (read p RECORD_TYPE c) as [text|] eqn:Ht; [|by intros [= _ <-]]. cbn [require].
  rewrite lift_bind. destruct (parseStored text) as [r|] eqn:Hr; [|by intros [= _ <-]].
  destruct (stored_kept _ _ _ _ Hp Ht Hr) as [Hk _]. unfold mbind at 1, M_bind at 1.
  destruct (applyRecoveryReset r text true p) as [[cur|e] p1] eqn:Ha;
    destruct (applyRecoveryReset_effect _ _ _ _ _ _ Hp Hk Ha) as [Hn _]; [|by intros [= _ <-]].
  rewrite lift_bind. destruct (throw_if _ _); by intros [= _ <-].
Qed.

Lemma accept_safe c (p : St) x p' :
  well_kept p → acceptPendingChange c p = (x, p') → no_new_verification p p'.
Proof.
  intros Hp. unfold acceptPendingChange. rewrite gets_bind, lift_bind.
  destruct (read p RECORD_TYPE c) as [text|] eqn:Ht; [|by intros [= _ <-]]. cbn [require].
  rewrite lift_bind. destruct (parseStored text) as [r|] eqn:Hr; [|by intros [= _ <-]].
  destruct (stored_kept _ _ _ _ Hp Ht Hr) as [Hk _]. cbv zeta. rewrite lift_bind.
  destruct (throw_if _ _); [|by intros [= _ <-]]. intros Hw. eapply write_unverified; [exact Hp| | |exact Hw].
  - apply kept_spread; [apply kept_spread|].
    + apply plain_kept. reflexivity.
    + destruct (get_kept r "pendingIdentity" Hk) as [->|Hpl]; [apply Forall_nil_2|].
      destruct (get r "pendingIdentity") as [| | | | | |fs]; try apply Forall_nil_2. by apply plain_kept in Hpl as [_ Hf].
    + repeat constructor; by right.
  - unfold verification_is, spread. rewrite foldl_app_set by discriminate. reflexivity.
Qed.

Lemma unmark_safe c (p : St) x p' :
  well_kept p → markUnverified c p = (x, p') → no_new_verification p p'.
Proof.
  intros Hp. unfold markUnverified. rewrite gets_bind, lift_bind.
  destruct (read p RECORD_TYPE c) as [text|] eqn:Ht; [|by intros [= _ <-]]. cbn [require].
  rewrite lift_bind. destruct (parseStored text) as [r|] eqn:Hr; [|by intros [= _ <-]].
  destruct (stored_kept _ _ _ _ Hp Ht Hr) as [Hk _]. intros Hw.
  eapply write_unverified; [exact Hp|by apply downgrade_kept|apply downgrade_unverified|exact Hw].
Qed.

(** The record a contact is marked verified in: the one compared, unchanged, under the identity named. *)
Definition marked (expectedIdentity : option string) (r r' : fields) : Prop :=
  identity_of r' = identity_of r ∧ get r "changeStatus" = JStr "unchanged" ∧
  ∀ e, expectedIdentity = Some e → get r "identityId" = JStr e.

Lemma mark_effect c e now (p : St) x p' :
  well_kept p → markVerified c e now p = (x, p') →
  well_kept p' ∧ ∀ d r', contact_record p' d = Some r' → verification_is "verified" r' = true →
    contact_record p d = Some r' ∨ (d = c ∧ ∃ r, contact_record p c = Some r ∧ marked e r r').
Proof.
  intros Hp. unfold markVerified. rewrite gets_bind, lift_bind.
  destruct (read p RECORD_TYPE c) as [text|] eqn:Ht; [|intros [= _ <-]; split; [done|by left]]. cbn [require].
  rewrite lift_bind. destruct (parseStored text) as [r|] eqn:Hr; [|intros [= _ <-]; split; [done|by left]].
  destruct (stored_kept _ _ _ _ Hp Ht Hr) as [Hk Hrec].
  rewrite lift_bind. destruct (throw_if _ _) as [u|] eqn:He; [|intros [= _ <-]; split; [done|by left]].
  rewrite lift_bind. destruct (throw_if (negb _) _) as [u2|] eqn:Hs; [|intros [= _ <-]; split; [done|by left]].
  intros Hw. set (r1 := spread r _) in Hw. assert (kept r1) as Hk1.
  { apply kept_spread; [done|]. repeat constructor; by right. }
  apply (writeRecord_effect _ _ _ _ _ _ Hp Hk1) in Hw as (Hp' & Ho & Hc). split; [done|]. intros d r' Hr' Hv.
  destruct (decide (d = c)) as [->|Hd]; [|left; by rewrite <-Ho]. destruct Hc as [->|Hc]; [by left|].
  right. split; [done|]. exists r. split; [done|]. rewrite Hc in Hr'. injection Hr' as <-. split_and!.
  - unfold identity_of. rewrite !get_drop_undef by apply Hk1. subst r1. unfold spread. cbn [foldl fst snd].
    by rewrite !get_set_key.
  - by guard_inv Hs.
  - intros i ->. by guard_inv He.
Qed.

(** C37: A changed key never inherits verification: whatever operation runs, a contact record is verified
    afterwards only if that same record was verified before, or if the operation was an explicit
    [markVerified] of that contact over a record with the same identity, not pending review, and with
    the identity the caller compared. *)
Theorem verified_only_by_marking op c now (p p' : St) x :
  well_kept p → run_op op c now p = (x, p') →
  well_kept p' ∧ ∀ d r', contact_record p' d = Some r' → verification_is "verified" r' = true →
    contact_record p d = Some r' ∨
    (d = c ∧ ∃ e r, op = MarkVerified e ∧ contact_record p c = Some r ∧ marked e r r').
Proof.
  intros Hp Hop. assert (no_new_verification p p' ∨ ∃ e, op = MarkVerified e) as [[Hp' Hn]|[e ->]].
  - destruct op; cbn [run_op] in Hop; try apply bind_unit in Hop as (y & Hop).
    + left. by eapply observe_safe.
    + right. by eexists.
    + left. by eapply unmark_safe.
    + left. by eapply get_safe.
    + left. by eapply guards_safe.
    + left. by eapply accept_safe.
  - split; [done|]. intros d r' Hr' Hv. left. by apply Hn.
  - apply mark_effect in Hop as [Hp' Hm]; [|done]. split; [done|]. intros d r' Hr' Hv.
    destruct (Hm d r' Hr' Hv) as [?|(-> & r & Hr & Hmk)]; [by left|]. right. split; [done|]. by exists e, r.
Qed.
End verification_theorem.

(** A key change seen after verification. *)
Definition sample_identity (k : string) : ContactIdentity := {| identityId := k; ci_algorithm := "ed25519"; publicKey := k |}.
Definition run_ops (ops : list contact_op) (p : memory) : memory :=
  foldl (λ p op, (run_op op "bob" 7 p).2) p ops.

Example key_change_needs_review :
  (λ r, (get r "verification", get r "changeStatus", get r "identityId")) <$>
    contact_record (run_ops [Observe (sample_identity "k1"); MarkVerified (Some "k1"); Observe (sample_identity "k2")] ∅) "bob"
  = Some (JStr "unverified", JStr "changed-pending-review", JStr "k1").
Proof. vm_compute. reflexivity. Qed.

Lemma verified_only_by_marking_witness :
  well_kept (∅ : memory) ∧ well_kept (run_op (Observe (sample_identity "k1")) "bob" 7 (∅ : memory)).2.
Proof.
  assert (well_kept (∅ : memory)) as Hw.
  { intros c text. cbn. intros Hl. by apply lookup_empty_Some in Hl. }
  split; [exact Hw|].
  apply (verified_only_by_marking (Observe (sample_identity "k1")) "bob" 7 (∅ : memory) _
    (run_op (Observe (sample_identity "k1")) "bob" 7 (∅ : memory)).1 Hw). apply surjective_pairing.
Defined.
