(* ===== verification/Trust.v ===== *)
(** * Enforcing device trust ([devices/trust.ts], [devices/freshness.ts])

    The freshness gate, the enforcer shared by messaging, calls and sync, and the coordinator that
    validates trust notifications. The durable lifecycle state is read through the persistence
    interface of [Lifecycle]; its [suspendTrust] is a parameter, implemented in [LifecycleStore]. *)
From S2P Require Import Prelude Json DeviceList Lifecycle.

(** ** Freshness evidence *)
(* service/src/devices/freshness.ts:3-10 TrustFreshnessEvidence *)
Record TrustFreshnessEvidence := {
  fe_version : Z; fe_deviceId : string; fe_identityReference : string; fe_epoch : Z; fe_commitment : string;
  evidenceId : string }.

(** The [Map] of the gate, by device. *)
Definition evidence_map := gmap string TrustFreshnessEvidence.

(** The evidence is stored before its number is checked. *)
(* service/src/devices/freshness.ts:21-30 recordAuthenticatedEvidence *)
Definition recordAuthenticatedEvidence (maxMembers : Z) (e : TrustFreshnessEvidence) (st : LifecycleStateSnapshot)
    : M evidence_map unit :=
  let rejected := "Trust freshness evidence rejected." in
  lift (throw_if (negb (fe_version e =? 1) || negb (nonempty (fe_deviceId e)) || negb (nonempty (fe_identityReference e)) ||
    negb (nonempty (evidenceId e)) || negb (isSafeInteger (fe_epoch e)) || (fe_epoch e <? 0) ||
    negb (hex64 (fe_commitment e))) rejected);;
  device ← lift (require (deviceEntryById (snapshot_list st) (fe_deviceId e)) rejected);
  lift (throw_if (negb (bool_decide (state device = active)) ||
    negb (String.eqb (publicIdentityReference device) (fe_identityReference e))) rejected);;
  lift (throw_if (negb (fe_epoch e =? epoch (snapshot_list st)) || negb (String.eqb (fe_commitment e) (commitment st)))
    "Trust freshness evidence is stale.");;
  prior ← gets (λ m : evidence_map, m !! fe_deviceId e);
  lift (throw_if (match prior with
                  | Some p => negb (String.eqb (evidenceId p) (evidenceId e)) || negb (String.eqb (fe_commitment p) (fe_commitment e))
                  | None => false end) "Trust freshness evidence conflicts.");;
  modify (λ m, <[fe_deviceId e := e]> m);;
  n ← gets (λ m : evidence_map, Z.of_nat (size m));
  lift (throw_if (maxMembers <? n) "Trust freshness evidence unavailable.").

Definition active_entry (st : LifecycleStateSnapshot) (d : string) : option DeviceEntry :=
  js_find (λ c, String.eqb (deviceId c) d && bool_decide (state c = active)) (devices (snapshot_list st)).

Definition member_current (localDeviceId : string) (m : evidence_map) (st : LifecycleStateSnapshot) (d : string) : res unit :=
  entry ← require (active_entry st d) "Trust freshness membership rejected.";
  if String.eqb d localDeviceId then mret tt else
  e ← require (m !! d) "Trust freshness is unavailable.";
  throw_if (negb (String.eqb (fe_identityReference e) (publicIdentityReference entry)) ||
    negb (fe_epoch e =? epoch (snapshot_list st)) || negb (String.eqb (fe_commitment e) (commitment st)))
    "Trust freshness is unavailable.".

Fixpoint for_each {A} (f : A → res unit) (l : list A) : res unit :=
  match l with [] => mret tt | x :: l' => f x;; for_each f l' end.

(* service/src/devices/freshness.ts:32-41 assertCurrent *)
Definition assertCurrent (localDeviceId : string) (maxMembers : Z) (m : evidence_map) (st : LifecycleStateSnapshot)
    (members : list string) : res unit :=
  throw_if (Nat.eqb (length members) 0 || (maxMembers <? Z.of_nat (length members)) || negb (bool_decide (NoDup members)))
    "Trust freshness membership rejected.";;
  for_each (member_current localDeviceId m st) members.

(** ** The enforcer *)
(* service/src/devices/trust.ts:5-5 DeviceTrustDecision *)
Inductive DeviceTrustDecision := trusted | revoked_ | unavailable.
(* service/src/devices/trust.ts:7-7 TrustState *)
Inductive TrustState := ts_active | ts_revoked.

(* service/src/devices/trust.ts:10-20 TrustStateEvent *)
Record TrustStateEvent := {
  ev_version : Z; eventId : string; ev_scope : string; ev_epoch : Z; ev_commitment : string; ev_deviceId : string;
  ev_identityReference : string; ev_state : TrustState; ev_createdAt : Z }.

Section enforcer.
Context (sha256_hex : string → string).
Context `{DeviceLifecyclePersistence P}.
Context (suspendTrust : string → Z → string → M P unit).

(** The enforcer's fields and the persistence behind it; the last one is the coordinator's [seen] set,
    oldest first. *)
(* service/src/devices/trust.ts:27-30 DeviceTrustEnforcer, fields *)
Record enforcer := {
  suspended : bool; freshnessMembers : option (list string); freshness : evidence_map; store : P; seen : list string }.
Definition set_suspended (s : enforcer) : enforcer :=
  {| suspended := true; freshnessMembers := freshnessMembers s; freshness := freshness s; store := store s; seen := seen s |}.
Definition set_store (p : P) (s : enforcer) : enforcer :=
  {| suspended := suspended s; freshnessMembers := freshnessMembers s; freshness := freshness s; store := p; seen := seen s |}.
Definition set_freshness (m : evidence_map) (s : enforcer) : enforcer :=
  {| suspended := suspended s; freshnessMembers := freshnessMembers s; freshness := m; store := store s; seen := seen s |}.
Definition set_seen (l : list string) (s : enforcer) : enforcer :=
  {| suspended := suspended s; freshnessMembers := freshnessMembers s; freshness := freshness s; store := store s; seen := l |}.

(** The enforcer of one device of one scope. *)
Context (scope_ deviceId_ identity : string).

(* service/src/devices/trust.ts:31-35 suspend *)
Definition suspend (e : Z) (c : string) : M enforcer unit := λ s,
  let '(r, p') := suspendTrust scope_ e c (store s) in (r, set_store p' (set_suspended s)).

(* service/src/devices/trust.ts:38-38 configureFreshnessMembers *)
Definition configureFreshnessMembers (members : list string) : M enforcer unit := modify (λ s,
  {| suspended := suspended s; freshnessMembers := Some members; freshness := freshness s; store := store s; seen := seen s |}).

(* service/src/devices/trust.ts:41-47 snapshot *)
Definition snapshot (s : enforcer) : res LifecycleStateSnapshot :=
  throw_if (suspended s) "Device trust is unavailable: freshness conflicts.";;
  o ← read_state scope_ (store s);
  st ← require o "Device trust is unavailable.";
  c ← deviceListCommitment sha256_hex (snapshot_list st);
  throw_if (negb (String.eqb c (commitment st))) "Device trust state is corrupted.";;
  mret st.

(* service/src/devices/trust.ts:39-39 recordFreshnessEvidence *)
Definition recordFreshnessEvidence (e : TrustFreshnessEvidence) : M enforcer unit := λ s,
  match snapshot s with
  | Ok st => let '(r, m) := recordAuthenticatedEvidence 8 e st (freshness s) in (r, set_freshness m s)
  | Err msg => (Err msg, s)
  end.

(* service/src/devices/trust.ts:49-56 decision *)
Definition decision (s : enforcer) : DeviceTrustDecision :=
  match snapshot s with
  | Ok st =>
      match deviceEntryById (snapshot_list st) deviceId_ with
      | Some device =>
          if negb (String.eqb (publicIdentityReference device) identity) then unavailable else
          if bool_decide (state device = active) then trusted else
          if bool_decide (state device = revoked) then revoked_ else unavailable
      | None => unavailable
      end
  | Err _ => unavailable
  end.

(* service/src/devices/trust.ts:58-60 assertTrusted *)
Definition assertTrusted (s : enforcer) : res unit :=
  match decision s with trusted => mret tt | _ => Err "Device trust is unavailable." end.

(* service/src/devices/trust.ts:63-71 assertTrustedAt *)
Definition assertTrustedAt (e : Z) (s : enforcer) : res unit :=
  st ← snapshot s;
  throw_if (negb (epoch (snapshot_list st) =? e)) "Device trust is stale.";;
  match freshnessMembers s with Some ms => assertCurrent deviceId_ 8 (freshness s) st ms | None => mret tt end;;
  entry ← require (deviceEntryById (snapshot_list st) deviceId_) "Device trust is unavailable.";
  throw_if (negb (String.eqb (publicIdentityReference entry) identity) || negb (bool_decide (state entry = active)))
    "Device trust is unavailable.".

(** ** Notifications *)
Definition state_matches (t : TrustState) (s : DeviceLifecycleState) : bool :=
  match t with ts_active => bool_decide (s = active) | ts_revoked => bool_decide (s = revoked) end.

(** [seen.add(id)], and the oldest entry dropped beyond [maxSeen]. *)
Definition remember (maxSeen : nat) (id : string) (l : list string) : list string :=
  let l' := l ++ [id] in if (maxSeen <? length l')%nat then tail l' else l'.

(* service/src/devices/trust.ts:83-97 TrustStateEventCoordinator.accept *)
Definition accept (maxSeen : nat) (e : TrustStateEvent) : M enforcer LifecycleStateSnapshot :=
  lift (throw_if (negb (ev_version e =? 1) || negb (String.eqb (ev_scope e) scope_) || negb (nonempty (eventId e)) ||
    negb (isSafeInteger (ev_epoch e)) || (ev_epoch e <? 0) || negb (isSafeInteger (ev_createdAt e)) ||
    negb (hex64 (ev_commitment e)) || negb (nonempty (ev_deviceId e)) || negb (nonempty (ev_identityReference e)))
    "Trust state event is invalid.");;
  known ← gets seen;
  lift (throw_if (existsb (String.eqb (eventId e)) known) "Trust state event replayed.");;
  current ← observe snapshot;
  lift (throw_if (ev_epoch e <? epoch (snapshot_list current)) "Trust state event is stale.");;
  (if epoch (snapshot_list current) <? ev_epoch e then
     suspend (ev_epoch e) (ev_commitment e);; throw "Trust state event is unavailable."
   else mret tt);;
  (if negb (String.eqb (ev_commitment e) (commitment current)) then
     suspend (ev_epoch e) (ev_commitment e);; throw "Trust state event conflicts with current state."
   else mret tt);;
  entry ← lift (require (deviceEntryById (snapshot_list current) (ev_deviceId e))
    "Trust state event does not match current state.");
  lift (throw_if (negb (String.eqb (publicIdentityReference entry) (ev_identityReference e)) ||
    negb (state_matches (ev_state e) (state entry))) "Trust state event does not match current state.");;
  modify (λ s, set_seen (remember maxSeen (eventId e) (seen s)) s);;
  mret current.

(** ** What the boundary guarantees *)
Lemma suspended_decision s : suspended s = true → decision s = unavailable ∧ ∀ e, assertTrustedAt e s ≠ Ok tt.
Proof. intros Hs. unfold decision, assertTrustedAt, snapshot. by rewrite Hs. Qed.

Lemma suspend_suspends e c s r s' : suspend e c s = (r, s') → suspended s' = true.
Proof. unfold suspend. destruct (suspendTrust _ _ _ _). by intros [= _ <-]. Qed.

Lemma decision_seen s l : decision (set_seen l s) = decision s.
Proof. done. Qed.

Lemma suspend_throws {A} e c msg (k : unit → M enforcer A) s r s' :
  ((suspend e c;; throw (A := unit) msg) ≫= k) s = (r, s') → is_ok r = false ∧ suspended s' = true.
Proof.
  unfold mbind, M_bind. destruct (suspend e c s) as [[u|m] s1] eqn:Hs; apply suspend_suspends in Hs;
    cbn; intros [= <- <-]; done.
Qed.

Record event_holds (e : TrustStateEvent) (st : LifecycleStateSnapshot) : Prop := {
  eh_epoch : ev_epoch e = epoch (snapshot_list st);
  eh_commitment : ev_commitment e = commitment st;
  eh_entry : ∃ entry, deviceEntryById (snapshot_list st) (ev_deviceId e) = Some entry ∧
    publicIdentityReference entry = ev_identityReference e ∧ state_matches (ev_state e) (state entry) = true }.

Lemma accept_cases maxSeen e s r s' :
  accept maxSeen e s = (r, s') →
  (∃ msg, r = Err msg ∧ s' = s) ∨ (is_ok r = false ∧ suspended s' = true) ∨
  (∃ st, r = Ok st ∧ snapshot s = Ok st ∧ event_holds e st ∧ eventId e ∉ seen s ∧
    s' = set_seen (remember maxSeen (eventId e) (seen s)) s).
Proof.
  unfold accept. rewrite lift_bind. destruct (throw_if _ _); [|intros [= <- <-]; left; by eexists].
  rewrite gets_bind, lift_bind. destruct (throw_if (existsb _ _) _) as [u|] eqn:Hseen; [|intros [= <- <-]; left; by eexists].
  rewrite observe_bind. destruct (snapshot s) as [st|] eqn:Hst; [|intros [= <- <-]; left; by eexists].
  rewrite lift_bind. destruct (throw_if (ev_epoch e <? _) _) as [u2|] eqn:Hstale; [|intros [= <- <-]; left; by eexists].
  destruct (Z.ltb_spec (epoch (snapshot_list st)) (ev_epoch e)).
  { intros Hs%suspend_throws. right. by left. }
  cbn [mbind M_bind mret M_ret]. destruct (String.eqb_spec (ev_commitment e) (commitment st)) as [Hc|Hc]; cbn [negb].
  2: { rewrite mret_bind. intros Hs%suspend_throws. right. by left. }
  rewrite !mret_bind. m_result entry He; [|intros [= <- <-]; left; by eexists].
  m_result u3 Hm; [|intros [= <- <-]; left; by eexists].
  cbn. intros [= <- <-]. right. right. exists st. guard_inv Hstale. guard_inv Hm. apply Z.ltb_ge in Hstale.
  apply require_ok in He. split_and!; try done.
  - constructor; [lia|done|]. exists entry. tauto.
  - apply throw_if_ok in Hseen. intros Hin. assert (existsb (String.eqb (eventId e)) (seen s) = true); [|congruence].
    apply existsb_exists. exists (eventId e). split; [by apply list_elem_of_In|apply String.eqb_refl].
Qed.

(** Trust notifications never create trust. A notification is accepted only when it restates the stored
    list's epoch, commitment and device state and was not seen before; whatever it says, afterwards the
    device is decided as before or is unavailable; and one about a later epoch, or another list of the
    same epoch, suspends the device for good. *)
Theorem trust_events_fail_closed maxSeen e s r s' :
  accept maxSeen e s = (r, s') →
  (decision s' = decision s ∨ decision s' = unavailable) ∧
  (∀ st, r = Ok st → snapshot s = Ok st ∧ event_holds e st ∧ eventId e ∉ seen s) ∧
  (∀ st, snapshot s = Ok st → eventId e ∉ seen s → suspended s' = false → is_ok r = false → s' = s) ∧
  (suspended s = true → suspended s' = true).
Proof.
  intros [(msg & -> & ->)|[[Hr Hs]|(st & -> & Hst & Hev & Hfresh & ->)]]%accept_cases.
  - split_and!; try done. by left.
  - destruct (suspended_decision _ Hs) as [Hd _]. split_and!; [by right| | |done].
    + by intros st ->.
    + congruence.
  - split_and!; try done; [by left|]. intros st' [= <-]. done.
Qed.

Lemma for_each_ok {A} (f : A → res unit) l u : for_each f l = Ok u → ∀ x, x ∈ l → f x = Ok tt.
Proof.
  induction l as [|y l IH]; cbn; intros Hf x Hx; [set_solver|]. apply bind_ok in Hf as ([] & Hy & Hf).
  apply elem_of_cons in Hx as [->|Hx]; [done|by apply IH].
Qed.

(** An operation admitted at an epoch runs on exactly that epoch of an unsuspended, uncorrupted state in
    which this device is active under its own identity, and every configured member is active and (but
    for this device) has shown evidence of the same epoch and commitment. *)
Theorem trusted_at_is_current e s :
  assertTrustedAt e s = Ok tt →
  suspended s = false ∧ decision s = trusted ∧ ∃ st, snapshot s = Ok st ∧ epoch (snapshot_list st) = e ∧
  ∀ ms d, freshnessMembers s = Some ms → d ∈ ms → ∃ entry, active_entry st d = Some entry ∧
    (d = deviceId_ ∨ ∃ ev, freshness s !! d = Some ev ∧ fe_epoch ev = e ∧ fe_commitment ev = commitment st ∧
      fe_identityReference ev = publicIdentityReference entry).
Proof.
  unfold assertTrustedAt. intros Ha. destruct (snapshot s) as [st|] eqn:Hst; [|done]. cbn [mbind res_bind] in Ha.
  apply bind_ok in Ha as (u & He & Ha). guard_inv He. apply Z.eqb_eq in He.
  apply bind_ok in Ha as (u2 & Hf & Ha). apply bind_ok in Ha as (entry & Hentry & Ha). apply require_ok in Hentry.
  guard_inv Ha. destruct Ha as [Hid Hact]. split_and!.
  - unfold snapshot in Hst. by destruct (suspended s).
  - unfold decision. rewrite Hst, Hentry, Hid, String.eqb_refl. cbn. by rewrite bool_decide_eq_true_2.
  - exists st. split_and!; [done..|]. intros ms d Hms Hd. rewrite Hms in Hf. unfold assertCurrent in Hf.
    apply bind_ok in Hf as (? & _ & Hf). pose proof (for_each_ok _ _ _ Hf d Hd) as Hm. unfold member_current in Hm.
    apply bind_ok in Hm as (en & Hen & Hm). apply require_ok in Hen. exists en. split; [done|].
    destruct (String.eqb_spec d deviceId_); [by left|]. apply bind_ok in Hm as (ev & Hev & Hm). apply require_ok in Hev.
    guard_inv Hm. destruct Hm as [[Hi Hep%Z.eqb_eq] Hc]. right. exists ev. split_and!; congruence.
Qed.
End enforcer.

(** ** A device deciding on itself *)
Section example.
#[local] Existing Instance map_lifecycle.
Definition no_suspension (_ : string) (_ : Z) (_ : string) : M map_persistence unit := mret tt.
Definition sample_enforcer : enforcer (P := map_persistence) :=
  {| suspended := false; freshnessMembers := Some ["a"; "b"];
     freshness := {["b" := {| fe_version := 1; fe_deviceId := "b"; fe_identityReference := "K3 b"; fe_epoch := 3;
                              fe_commitment := sample_digest; evidenceId := "e" |}]};
     store := sample_state; seen := [] |}.
Definition later_event : TrustStateEvent :=
  {| ev_version := 1; eventId := "x"; ev_scope := "account"; ev_epoch := 4; ev_commitment := sample_digest;
     ev_deviceId := "a"; ev_identityReference := "K3 a"; ev_state := ts_active; ev_createdAt := 1 |}.
Definition after_later := accept sample_hash no_suspension "account" 1024 later_event sample_enforcer.

Example later_event_suspends : decision sample_hash "account" "a" "K3 a" after_later.2 = unavailable.
Proof. vm_compute. reflexivity. Qed.

Lemma trust_events_fail_closed_witness :
  decision sample_hash "account" "a" "K3 a" after_later.2 = decision sample_hash "account" "a" "K3 a" sample_enforcer ∨
  decision sample_hash "account" "a" "K3 a" after_later.2 = unavailable.
Proof.
  apply (trust_events_fail_closed sample_hash no_suspension "account" "a" "K3 a" 1024 later_event sample_enforcer
    after_later.1 after_later.2). apply surjective_pairing.
Defined.

Lemma trusted_at_is_current_witness : decision sample_hash "account" "a" "K3 a" sample_enforcer = trusted.
Proof.
  apply (trusted_at_is_current sample_hash "account" "a" "K3 a" 3 sample_enforcer). vm_compute. reflexivity.
Defined.
End example.
