(* ===== verification/Groups.v ===== *)
(** * Group membership ([groups/*.ts])

    The membership authorization, the event protocol, the state service, the runtime that derives
    authorship from an issued device context, and the adapter that commits membership and group key in one
    swap. The vault's record of a group is kept as the typed record it encodes. [clock i] is the i-th
    reading of the clock in an operation, [key_] the key its key update draws. *)
From S2P Require Import Prelude Json CallSignaling DeviceList Lifecycle.

(** ** Data *)
(* service/src/groups/contracts.ts:1-1 GroupMemberState *)
Inductive GroupMemberState := pending | mactive | removed.
#[export] Instance GroupMemberState_eq_dec : EqDecision GroupMemberState.
Proof. solve_decision. Defined.
Inductive Role := administrator | member.
#[export] Instance Role_eq_dec : EqDecision Role.
Proof. solve_decision. Defined.
(* service/src/groups/contracts.ts:2-2 GroupMember *)
Record GroupMember := {
  memberId : string; userIdentityReference : string; gm_deviceId : string; gm_state : GroupMemberState; role : option Role }.
(* service/src/groups/contracts.ts:3-3 GroupIdentity *)
Record GroupIdentity := { groupId : string; genesisCommitment : string; g_epoch : Z }.
(* service/src/groups/contracts.ts:4-4 GroupMembershipSnapshot *)
Record GroupMembershipSnapshot := { group : GroupIdentity; members : list GroupMember; transcriptCommitment : string }.
(* service/src/groups/protocol.ts:4-4 GroupMembershipOperation *)
Inductive GroupAction := observe_ | add | activate | remove.
#[export] Instance GroupAction_eq_dec : EqDecision GroupAction.
Proof. solve_decision. Defined.
(* service/src/groups/contracts.ts:5-5 GroupAuthorization *)
Record GroupAuthorization := {
  ga_groupId : string; actorDeviceId : string; ga_target : option string; ga_epoch : Z; ga_expiresAt : Z;
  action : option GroupAction }.
(* service/src/groups/protocol.ts:5-15 GroupMembershipEvent *)
Record GroupMembershipEvent := {
  ge_version : Z; ge_eventId : string; ge_operation : GroupAction; ge_authorization : GroupAuthorization;
  ge_targetDeviceId : string; ge_epoch : Z; ge_transcriptCommitment : string; ge_createdAt : Z; ge_digest : string }.

Definition member_by_device (s : GroupMembershipSnapshot) (d : string) : option GroupMember :=
  js_find (λ m, String.eqb (gm_deviceId m) d) (members s).

(** ** Authorization *)
Definition GROUP_REJECTED : string := "Group authorization rejected.".

(* service/src/groups/membership.ts:4-9 GroupMembershipService.authorize *)
Definition authorize_change (change : GroupAuthorization) (s : GroupMembershipSnapshot) (now : Z) : res unit :=
  throw_if (negb (String.eqb (ga_groupId change) (groupId (group s))) || negb (ga_epoch change =? g_epoch (group s)) ||
    negb (isSafeInteger (ga_expiresAt change)) || (ga_expiresAt change <=? now)) GROUP_REJECTED;;
  actor ← require (member_by_device s (actorDeviceId change)) GROUP_REJECTED;
  throw_if (negb (bool_decide (gm_state actor = mactive)) ||
    (match action change with
     | Some a => negb (bool_decide (a = observe_)) && negb (bool_decide (role actor = Some administrator))
     | None => false end)) GROUP_REJECTED;;
  throw_if (match ga_target change with
            | Some t => nonempty t && negb (bool_decide (action change = Some add)) &&
                        negb (existsb (λ m, String.eqb (gm_deviceId m) t) (members s))
            | None => false end) GROUP_REJECTED.

(** ** Texts and digests *)
Definition state_text (s : GroupMemberState) : string :=
  match s with pending => "pending" | mactive => "active" | removed => "removed" end.
Definition role_text (r : Role) : string := match r with administrator => "administrator" | member => "member" end.
Definition action_text (a : GroupAction) : string :=
  match a with observe_ => "observe" | add => "add" | activate => "activate" | remove => "remove" end.
Definition member_json (m : GroupMember) : jsval :=
  obj [("memberId", Some (JStr (memberId m))); ("userIdentityReference", Some (JStr (userIdentityReference m)));
    ("deviceId", Some (JStr (gm_deviceId m))); ("state", Some (JStr (state_text (gm_state m))));
    ("role", JStr ∘ role_text <$> role m)].
Definition authorization_json (a : GroupAuthorization) : jsval :=
  obj [("groupId", Some (JStr (ga_groupId a))); ("actorDeviceId", Some (JStr (actorDeviceId a)));
    ("targetDeviceId", JStr <$> ga_target a); ("epoch", Some (JNum (NInt (ga_epoch a))));
    ("expiresAt", Some (JNum (NInt (ga_expiresAt a)))); ("action", JStr ∘ action_text <$> action a)].
Definition unsigned_fields (e : GroupMembershipEvent) : list (string * jsval) :=
  [("version", JNum (NInt (ge_version e))); ("eventId", JStr (ge_eventId e));
   ("operation", JStr (action_text (ge_operation e))); ("authorization", authorization_json (ge_authorization e));
   ("targetDeviceId", JStr (ge_targetDeviceId e)); ("epoch", JNum (NInt (ge_epoch e)));
   ("transcriptCommitment", JStr (ge_transcriptCommitment e)); ("createdAt", JNum (NInt (ge_createdAt e)))].
Definition event_text (e : GroupMembershipEvent) : string :=
  stringify (JObj (unsigned_fields e ++ [("digest", JStr (ge_digest e))])).

(** ** Persistence *)
(* service/src/groups/persistence.ts:5-11 GroupSecurityRecord *)
Record GroupSecurityRecord := {
  snapshot_ : GroupMembershipSnapshot; keyEpoch : Z; keyMaterial : string; removedMemberIds : list string }.

(** The calls a key update makes on the [GroupKeyManagementAdapter]. *)
(* service/src/groups/contracts.ts:6-6 GroupKeyManagementAdapter *)
Inductive key_call := establish | rotate | removeMember (id : string).

Notation vault := (gmap string GroupSecurityRecord).
Definition vault_read (v : vault) (g : string) : option GroupMembershipSnapshot := snapshot_ <$> v !! g.
Definition string_le (a b : string) : Z := string_cmp a b.

(** The pending update staged by the calls: the key drawn, and the removed members. *)
(* service/src/groups/persistence.ts:42-44 establish, rotate, removeMember *)
Definition stage (key_ : string) (calls : list key_call) (removed0 : list string) : option string * list string :=
  foldl (λ '(k, r) c, match c with
                      | establish | rotate => (Some key_, r)
                      | removeMember id => (k, if existsb (String.eqb id) r then r else r ++ [id])
                      end) (None, removed0) calls.

(* service/src/groups/persistence.ts:31-41 compareAndSwapWithKeyUpdate *)
Definition compareAndSwapWithKeyUpdate (g : string) (expectedEpoch : Z) (next : GroupMembershipSnapshot)
    (calls : list key_call) (key_ : string) : M vault bool :=
  current ← gets (λ v : vault, v !! g);
  if negb (match current with Some r => g_epoch (group (snapshot_ r)) | None => -1 end =? expectedEpoch) ||
     negb (String.eqb (groupId (group next)) g) || negb (g_epoch (group next) =? expectedEpoch + 1) then mret false else
  let '(k, removed_ids) := stage key_ calls (match current with Some r => removedMemberIds r | None => [] end) in
  k ← lift (require k "Group key update was not staged.");
  modify (λ v : vault, <[g := {| snapshot_ := next; keyEpoch := g_epoch (group next); keyMaterial := k;
                         removedMemberIds := js_sort string_le removed_ids |}]> v);;
  mret true.

(* service/src/groups/persistence.ts:45-50 keyForActiveMember *)
Definition keyForActiveMember (g id : string) (v : vault) : res string :=
  let rejected := "Group key access rejected." in
  r ← require (v !! g) rejected;
  m ← require (js_find (λ m, String.eqb (memberId m) id) (members (snapshot_ r))) rejected;
  throw_if (negb (bool_decide (gm_state m = mactive)) || existsb (String.eqb id) (removedMemberIds r)) rejected;;
  mret (keyMaterial r).

Section groups.
Context (sha256_hex : string → string) (localeCompare : string → string → Z).

(* service/src/groups/protocol.ts:20-20 groupMembershipDigest *)
Definition groupMembershipDigest (e : GroupMembershipEvent) : string := sha256_hex (stringify (JObj (unsigned_fields e))).

(* service/src/groups/protocol.ts:21-24 nextGroupTranscriptCommitment *)
Definition nextGroupTranscriptCommitment (s : GroupMembershipSnapshot) (ms : list GroupMember) : string :=
  sha256_hex (stringify (JObj [("version", JNum (NInt 1)); ("groupId", JStr (groupId (group s)));
    ("previousEpoch", JNum (NInt (g_epoch (group s)))); ("previousCommitment", JStr (transcriptCommitment s));
    ("nextEpoch", JNum (NInt (g_epoch (group s) + 1)));
    ("members", JArr (member_json <$> js_sort (λ a b, localeCompare (gm_deviceId a) (gm_deviceId b)) ms))])).

(** The runtime's state: the vault and the protocol's [seen] event identifiers. *)
Record groups_state := { vault_ : vault; seen_events : gset string }.
Definition on_vault {A} (m : M vault A) : M groups_state A := λ s,
  let '(r, v) := m (vault_ s) in (r, {| vault_ := v; seen_events := seen_events s |}).

(* service/src/groups/protocol.ts:30-36 GroupMembershipProtocol.validate *)
Definition validate (e : GroupMembershipEvent) (s : GroupMembershipSnapshot) (now clock1 : Z) : M groups_state unit :=
  seen ← gets seen_events;
  let a := ge_authorization e in
  lift (throw_if (negb (ge_version e =? 1) || negb (nonempty (ge_eventId e)) || bool_decide (ge_eventId e ∈ seen) ||
    negb (hex64 (ge_transcriptCommitment e)) || negb (hex64 (ge_digest e)) || negb (ge_epoch e =? g_epoch (group s)) ||
    negb (String.eqb (ge_transcriptCommitment e) (transcriptCommitment s)) || negb (isSafeInteger (ge_createdAt e)) ||
    negb (isSafeInteger now) || (now <? ge_createdAt e) || (ge_createdAt e + 300000 <? now) ||
    negb (String.eqb (ga_groupId a) (groupId (group s))) || negb (ga_epoch a =? g_epoch (group s)) ||
    negb (bool_decide (action a = Some (ge_operation e))) || negb (bool_decide (ga_target a = Some (ge_targetDeviceId e))) ||
    negb (String.eqb (groupMembershipDigest e) (ge_digest e))) "Group membership event rejected.");;
  lift (authorize_change a s clock1);;
  modify (λ st, {| vault_ := vault_ st; seen_events := {[ge_eventId e]} ∪ seen_events st |}).

(** ** The state service *)
Definition next_snapshot (s : GroupMembershipSnapshot) (ms : list GroupMember) : GroupMembershipSnapshot :=
  {| group := {| groupId := groupId (group s); genesisCommitment := genesisCommitment (group s);
                 g_epoch := g_epoch (group s) + 1 |};
     members := ms; transcriptCommitment := nextGroupTranscriptCommitment s ms |}.
Definition with_state (st : GroupMemberState) (d : string) (ms : list GroupMember) : list GroupMember :=
  (λ m, if String.eqb (gm_deviceId m) d then
          {| memberId := memberId m; userIdentityReference := userIdentityReference m; gm_deviceId := gm_deviceId m;
             gm_state := st; role := role m |} else m) <$> ms.
Definition with_action (a : GroupAction) (t : option string) (c : GroupAuthorization) : GroupAuthorization :=
  {| ga_groupId := ga_groupId c; actorDeviceId := actorDeviceId c; ga_target := t; ga_epoch := ga_epoch c;
     ga_expiresAt := ga_expiresAt c; action := Some a |}.

(* service/src/groups/state.ts:28-35 GroupStateService.commit *)
Definition commit_members (s : GroupMembershipSnapshot) (ms : list GroupMember) (calls : list key_call) (key_ : string)
    : M groups_state GroupMembershipSnapshot :=
  let next := next_snapshot s ms in
  ok ← on_vault (compareAndSwapWithKeyUpdate (groupId (group s)) (g_epoch (group s)) next calls key_);
  lift (throw_if (negb ok) "Group state changed concurrently.");;
  mret next.

(* service/src/groups/state.ts:7-11 GroupStateService.addPending *)
Definition addPending (c : GroupAuthorization) (s : GroupMembershipSnapshot) (m : GroupMember) (now : Z) (key_ : string)
    : M groups_state GroupMembershipSnapshot :=
  lift (authorize_change (with_action add (ga_target c) c) s now);;
  lift (throw_if (negb (bool_decide (gm_state m = pending)) ||
    existsb (λ x, String.eqb (gm_deviceId x) (gm_deviceId m) || String.eqb (memberId x) (memberId m)) (members s))
    "Group member addition rejected.");;
  commit_members s (members s ++ [m]) [rotate] key_.

(* service/src/groups/state.ts:12-17 GroupStateService.activate *)
Definition activate_member (c : GroupAuthorization) (s : GroupMembershipSnapshot) (d : string) (now : Z) (key_ : string)
    : M groups_state GroupMembershipSnapshot :=
  lift (authorize_change (with_action activate (Some d) c) s now);;
  target ← lift (require (member_by_device s d) "Group member activation rejected.");
  lift (throw_if (negb (bool_decide (gm_state target = pending))) "Group member activation rejected.");;
  commit_members s (with_state mactive d (members s)) [rotate] key_.

(* service/src/groups/state.ts:18-27 GroupStateService.remove *)
Definition remove_member (c : GroupAuthorization) (s : GroupMembershipSnapshot) (d : string) (now : Z) (key_ : string)
    : M groups_state GroupMembershipSnapshot :=
  lift (authorize_change (with_action remove (Some d) c) s now);;
  target ← lift (require (member_by_device s d) "Group member removal rejected.");
  lift (throw_if (negb (bool_decide (gm_state target = mactive)) || String.eqb (gm_deviceId target) (actorDeviceId c))
    "Group member removal rejected.");;
  commit_members s (with_state removed d (members s)) [removeMember (memberId target); rotate] key_.

(** ** The runtime *)
(* service/src/groups/runtime.ts:56-59 matchesContext *)
Definition matchesContext (m : GroupMember) (ctx : AuthenticatedDeviceContext) : bool :=
  ready (cryptoSession ctx) && encrypted (cryptoSession ctx) && verified (authenticatedSender ctx) &&
  String.eqb (gm_deviceId m) (sender_deviceId (authenticatedSender ctx)) &&
  String.eqb (userIdentityReference m) (sender_identityReference (authenticatedSender ctx)).

Definition is_administrator (m : GroupMember) : bool :=
  bool_decide (gm_state m = mactive) && bool_decide (role m = Some administrator).

(* service/src/groups/runtime.ts:20-26 create *)
Definition create (s : GroupMembershipSnapshot) (ctx : AuthenticatedDeviceContext) (key_ : string)
    : M groups_state GroupMembershipSnapshot :=
  lift (assertIssuedDeviceContext ctx None);;
  existing ← gets (λ st, vault_read (vault_ st) (groupId (group s)));
  lift (throw_if (negb (g_epoch (group s) =? 0) ||
    negb (match List.filter is_administrator (members s) with [a] => matchesContext a ctx | _ => false end) ||
    bool_decide (is_Some existing)) "Group creation rejected.");;
  ok ← on_vault (compareAndSwapWithKeyUpdate (groupId (group s)) (-1) s [establish] key_);
  lift (throw_if (negb ok) "Group creation rejected.");;
  mret s.

(* service/src/groups/runtime.ts:46-54 authorize *)
Definition authorize (e : GroupMembershipEvent) (ctx : AuthenticatedDeviceContext) (clock : nat → Z)
    : M groups_state GroupMembershipSnapshot :=
  lift (assertIssuedDeviceContext ctx (Some (event_text e)));;
  o ← gets (λ st, vault_read (vault_ st) (ga_groupId (ge_authorization e)));
  s ← lift (require o "Group state unavailable.");
  actor ← lift (require (member_by_device s (actorDeviceId (ge_authorization e))) GROUP_REJECTED);
  lift (throw_if (negb (matchesContext actor ctx)) GROUP_REJECTED);;
  validate e s (clock 0%nat) (clock 1%nat);;
  mret s.

(* service/src/groups/runtime.ts:28-32 add *)
Definition add_ (e : GroupMembershipEvent) (m : GroupMember) (ctx : AuthenticatedDeviceContext) (clock : nat → Z)
    (key_ : string) : M groups_state GroupMembershipSnapshot :=
  lift (throw_if (negb (bool_decide (ge_operation e = add)) || negb (String.eqb (ge_targetDeviceId e) (gm_deviceId m)))
    "Group membership event rejected.");;
  s ← authorize e ctx clock;
  addPending (ge_authorization e) s m (clock 2%nat) key_.

(* service/src/groups/runtime.ts:34-38 activate *)
Definition activate_ (e : GroupMembershipEvent) (ctx : AuthenticatedDeviceContext) (clock : nat → Z) (key_ : string)
    : M groups_state GroupMembershipSnapshot :=
  lift (throw_if (negb (bool_decide (ge_operation e = activate))) "Group membership event rejected.");;
  s ← authorize e ctx clock;
  activate_member (ge_authorization e) s (ge_targetDeviceId e) (clock 2%nat) key_.

(* service/src/groups/runtime.ts:40-44 remove *)
Definition remove_ (e : GroupMembershipEvent) (ctx : AuthenticatedDeviceContext) (clock : nat → Z) (key_ : string)
    : M groups_state GroupMembershipSnapshot :=
  lift (throw_if (negb (bool_decide (ge_operation e = remove))) "Group membership event rejected.");;
  s ← authorize e ctx clock;
  remove_member (ge_authorization e) s (ge_targetDeviceId e) (clock 2%nat) key_.
End groups.

(** ** Every membership change is an administrator's *)
Section properties.
Context (sha256_hex : string → string) (localeCompare : string → string → Z).

Lemma on_vault_ok {A} (m : M vault A) st x st' :
  on_vault m st = (Ok x, st') → m (vault_ st) = (Ok x, vault_ st') ∧ seen_events st' = seen_events st.
Proof. unfold on_vault. destruct (m (vault_ st)) as [r v]. by intros [= -> <-]. Qed.

(** The record a committed change of a group leaves. *)
Definition committed_record (old : option GroupSecurityRecord) (next : GroupMembershipSnapshot) (calls : list key_call)
    (key_ : string) (r : GroupSecurityRecord) : Prop :=
  snapshot_ r = next ∧ keyEpoch r = g_epoch (group next) ∧ keyMaterial r = key_ ∧
  removedMemberIds r = js_sort string_le (stage key_ calls (from_option removedMemberIds [] old)).2.

Lemma stage_key key_ calls rm k rm' : stage key_ calls rm = (Some k, rm') → k = key_.
Proof.
  unfold stage. assert (∀ o, o = None ∨ o = Some key_ → ∀ rm, foldl (λ '(k, r) c, match c with
    | establish | rotate => (Some key_, r) | removeMember id => (k, if existsb (String.eqb id) r then r else r ++ [id]) end)
    (o, rm) calls = (Some k, rm') → k = key_) as H; [|by apply H; left].
  induction calls as [|c calls IH]; cbn; intros o Ho rm0.
  - intros [= -> ->]. destruct Ho; [done|congruence].
  - destruct c; apply IH; auto.
Qed.

Lemma swap_ok g e next calls key_ v v' :
  compareAndSwapWithKeyUpdate g e next calls key_ v = (Ok true, v') →
  match v !! g with Some r => g_epoch (group (snapshot_ r)) = e | None => e = -1 end ∧
  ∃ r, v' = <[g := r]> v ∧ committed_record (v !! g) next calls key_ r.
Proof.
  unfold compareAndSwapWithKeyUpdate. rewrite gets_bind.
  destruct (negb _ || _ || _) eqn:Hg; [discriminate|]. guard_inv Hg. destruct Hg as [[He%Z.eqb_eq _] _].
  destruct (stage key_ calls _) as [k rm] eqn:Hst. m_result k' Hk; [|discriminate]. apply require_ok in Hk. subst k.
  intros [= <-]. split; [by destruct (v !! g)|]. eexists; split; [done|]. unfold committed_record.
  pose proof (stage_key _ _ _ _ _ Hst) as ->. split_and!; [done..|].
  assert (from_option removedMemberIds [] (v !! g) = match v !! g with Some r => removedMemberIds r | None => [] end) as ->
    by by destruct (v !! g).
  by rewrite Hst.
Qed.

Lemma commit_members_ok s ms calls key_ st nx st' :
  commit_members sha256_hex localeCompare s ms calls key_ st = (Ok nx, st') →
  nx = next_snapshot sha256_hex localeCompare s ms ∧ seen_events st' = seen_events st ∧
  ∃ r, vault_ st' = <[groupId (group s) := r]> (vault_ st) ∧
    committed_record (vault_ st !! groupId (group s)) nx calls key_ r.
Proof.
  unfold commit_members. intros Hc. m_inv Hc. subst nx. split; [done|].
  apply throw_if_ok, negb_false_iff in Hm0. subst x. apply on_vault_ok in Hm as [Hs Hseen]. split; [done|].
  apply swap_ok in Hs as [_ (r & -> & Hr)]. by exists r.
Qed.

(** What an accepted event proves about its author. *)
Record authored (e : GroupMembershipEvent) (ctx : AuthenticatedDeviceContext) (st : groups_state)
    (s : GroupMembershipSnapshot) : Prop := {
  au_stored : vault_read (vault_ st) (ga_groupId (ge_authorization e)) = Some s;
  au_group : groupId (group s) = ga_groupId (ge_authorization e);
  au_actor : ∃ actor, member_by_device s (actorDeviceId (ge_authorization e)) = Some actor ∧
    gm_state actor = mactive ∧ role actor = Some administrator ∧ matchesContext actor ctx = true;
  au_fresh : ge_eventId e ∉ seen_events st;
  au_epoch : ge_epoch e = g_epoch (group s);
  au_digest : ge_digest e = groupMembershipDigest sha256_hex e }.

Lemma authorize_ok e ctx clock st s st' :
  ge_operation e ≠ observe_ → authorize sha256_hex e ctx clock st = (Ok s, st') →
  authored e ctx st s ∧ vault_ st' = vault_ st ∧ seen_events st' = {[ge_eventId e]} ∪ seen_events st.
Proof.
  intros Hop. unfold authorize. intros Ha. m_inv Ha. unfold validate in Hm4. m_inv Hm4.
  apply Ok_inj in Hm5 as <-, Hm0 as <-. subst s. clear Hm4.
  apply require_ok in Hm1, Hm2. apply throw_if_ok, negb_false_iff in Hm3.
  guard_inv Hm6. destruct Hm6 as [[[[[[[[[[[[[[[_ _] Hfresh] _] _] Hep%Z.eqb_eq] _] _] _] _] _] Hgid] _] Hact] _] Hdig].
  unfold authorize_change in Hm7. apply bind_ok in Hm7 as (? & _ & Hc).
  apply bind_ok in Hc as (actor & Hactor & Hc). apply bind_ok in Hc as (? & Hr & _). apply require_ok in Hactor.
  guard_inv Hr. destruct Hr as [Hst Hrole]. rewrite Hact in Hrole. rewrite bool_decide_eq_false_2 in Hrole by done.
  cbn in Hrole. guard_inv Hrole. split; [|done]. rewrite Hactor in Hm2. injection Hm2 as ->.
  split; try done. by exists x2.
Qed.

Record committed_change (e : GroupMembershipEvent) (ctx : AuthenticatedDeviceContext) (key_ : string)
    (st st' : groups_state) (nx : GroupMembershipSnapshot) (ms : GroupMembershipSnapshot → list GroupMember)
    (calls : list key_call) : Prop := {
  cc_authored : ∃ s, authored e ctx st s ∧ nx = next_snapshot sha256_hex localeCompare s (ms s);
  cc_seen : seen_events st' = {[ge_eventId e]} ∪ seen_events st;
  cc_stored : ∃ r, vault_ st' = <[ga_groupId (ge_authorization e) := r]> (vault_ st) ∧
    committed_record (vault_ st !! ga_groupId (ge_authorization e)) nx calls key_ r }.

Lemma add_ok e m ctx clock key_ st nx st' :
  add_ sha256_hex localeCompare e m ctx clock key_ st = (Ok nx, st') →
  committed_change e ctx key_ st st' nx (λ s, members s ++ [m]) [rotate] ∧ gm_state m = pending ∧
  gm_deviceId m = ge_targetDeviceId e ∧
  ∀ s x, vault_read (vault_ st) (ga_groupId (ge_authorization e)) = Some s → x ∈ members s →
    gm_deviceId x ≠ gm_deviceId m ∧ memberId x ≠ memberId m.
Proof.
  unfold add_. intros Ha. m_step Ha. guard_inv Hm. destruct Hm as [Hop Htgt]. m_step Ha.
  apply authorize_ok in Hm as (Hau & Hv & Hs); [|by rewrite Hop].
  unfold addPending in Ha. m_step Ha. m_step Ha. guard_inv Hm0. destruct Hm0 as [Hpend Hdup].
  apply commit_members_ok in Ha as (-> & Hs' & r & Hv' & Hr). rewrite (au_group _ _ _ _ Hau), Hv in *.
  split_and!; [|done|done|].
  - split; [by exists x0|by rewrite Hs'|by exists r].
  - intros s1 y Hread Hy. rewrite (au_stored _ _ _ _ Hau) in Hread. injection Hread as <-.
    assert (String.eqb (gm_deviceId y) (gm_deviceId m) || String.eqb (memberId y) (memberId m) = false) as Hy'.
    { apply not_true_is_false. intros Ht. apply not_true_iff_false in Hdup. apply Hdup, existsb_exists.
      exists y. split; [by apply list_elem_of_In|done]. }
    by guard_inv Hy'.
Qed.

Lemma activate_ok e ctx clock key_ st nx st' :
  activate_ sha256_hex localeCompare e ctx clock key_ st = (Ok nx, st') →
  committed_change e ctx key_ st st' nx (λ s, with_state mactive (ge_targetDeviceId e) (members s)) [rotate] ∧
  ∃ s t, vault_read (vault_ st) (ga_groupId (ge_authorization e)) = Some s ∧
    member_by_device s (ge_targetDeviceId e) = Some t ∧ gm_state t = pending.
Proof.
  unfold activate_. intros Ha. m_step Ha. guard_inv Hm. m_step Ha.
  apply authorize_ok in Hm0 as (Hau & Hv & Hs); [|by rewrite Hm].
  unfold activate_member in Ha. do 3 m_step Ha. guard_inv Hm2. apply require_ok in Hm1.
  apply commit_members_ok in Ha as (-> & Hs' & r & Hv' & Hr). rewrite (au_group _ _ _ _ Hau), Hv in *.
  split.
  - split; [by exists x0|by rewrite Hs'|by exists r].
  - exists x0, x2. split_and!; [apply Hau|done..].
Qed.

Lemma remove_ok e ctx clock key_ st nx st' :
  remove_ sha256_hex localeCompare e ctx clock key_ st = (Ok nx, st') →
  ∃ s t, vault_read (vault_ st) (ga_groupId (ge_authorization e)) = Some s ∧
    member_by_device s (ge_targetDeviceId e) = Some t ∧ gm_state t = mactive ∧
    ge_targetDeviceId e ≠ actorDeviceId (ge_authorization e) ∧
    committed_change e ctx key_ st st' nx (λ s, with_state removed (ge_targetDeviceId e) (members s))
      [removeMember (memberId t); rotate].
Proof.
  unfold remove_. intros Ha. m_step Ha. guard_inv Hm. m_step Ha.
  apply authorize_ok in Hm0 as (Hau & Hv & Hs); [|by rewrite Hm].
  unfold remove_member in Ha. do 3 m_step Ha. guard_inv Hm2. destruct Hm2 as [Hact Hne]. apply require_ok in Hm1.
  apply commit_members_ok in Ha as (-> & Hs' & r & Hv' & Hr). rewrite (au_group _ _ _ _ Hau), Hv in *.
  pose proof (js_find_Some _ _ _ Hm1) as [_ Hd%String.eqb_eq].
  exists x0, x2. split_and!; [apply Hau|done..|congruence|].
  split; [by exists x0|by rewrite Hs'|by exists r].
Qed.

(** C39: Every accepted membership event is the fresh, digest-checked act of an active administrator of the
    stored group speaking through its own verified session; it advances epoch and transcript by one,
    rotates the group key in the same commit, and changes the members exactly as its operation says:
    adds an unknown member as pending, activates a pending one, or removes an active one other than
    the author. *)
Theorem group_changes_are_authorized e ctx clock key_ st nx st' :
  (∀ m, add_ sha256_hex localeCompare e m ctx clock key_ st = (Ok nx, st') →
    committed_change e ctx key_ st st' nx (λ s, members s ++ [m]) [rotate] ∧ gm_state m = pending ∧
    ∀ s x, vault_read (vault_ st) (ga_groupId (ge_authorization e)) = Some s → x ∈ members s →
      gm_deviceId x ≠ gm_deviceId m ∧ memberId x ≠ memberId m) ∧
  (activate_ sha256_hex localeCompare e ctx clock key_ st = (Ok nx, st') →
    committed_change e ctx key_ st st' nx (λ s, with_state mactive (ge_targetDeviceId e) (members s)) [rotate] ∧
    ∃ s t, vault_read (vault_ st) (ga_groupId (ge_authorization e)) = Some s ∧
      member_by_device s (ge_targetDeviceId e) = Some t ∧ gm_state t = pending) ∧
  (remove_ sha256_hex localeCompare e ctx clock key_ st = (Ok nx, st') →
    ∃ s t, vault_read (vault_ st) (ga_groupId (ge_authorization e)) = Some s ∧
      member_by_device s (ge_targetDeviceId e) = Some t ∧ gm_state t = mactive ∧
      ge_targetDeviceId e ≠ actorDeviceId (ge_authorization e) ∧
      committed_change e ctx key_ st st' nx (λ s, with_state removed (ge_targetDeviceId e) (members s))
        [removeMember (memberId t); rotate]).
Proof.
  split_and!.
  - intros m Ha. apply add_ok in Ha as (? & ? & _ & ?). by split_and!.
  - apply activate_ok.
  - apply remove_ok.
Qed.
End properties.

(** ** A removed member never gets a key again *)
Section removal.
Context (sha256_hex : string → string) (localeCompare : string → string → Z).

(** Group records are never dropped, and their lists of removed members only grow. *)
Definition keeps_removed (v v' : vault) : Prop := ∀ g r id, v !! g = Some r → id ∈ removedMemberIds r →
  ∃ r', v' !! g = Some r' ∧ id ∈ removedMemberIds r'.
#[local] Instance keeps_removed_preorder : PreOrder keeps_removed.
Proof.
  split.
  - intros v g r id Hr Hid. by exists r.
  - intros v1 v2 v3 H1 H2 g r id Hr Hid. destruct (H1 g r id Hr Hid) as (r' & Hr' & Hid'). by eapply H2.
Qed.

Lemma stage_removed key_ calls id rm :
  id ∈ rm ∨ removeMember id ∈ calls → id ∈ (stage key_ calls rm).2.
Proof.
  unfold stage. generalize (None : option string). revert rm. induction calls as [|c calls IH]; intros rm o H; cbn.
  - set_solver.
  - destruct c as [| |i]; apply IH; rewrite elem_of_cons in H; [naive_solver|naive_solver|].
    destruct H as [H|[[= ->]|H]]; [left| |by right].
    + destruct (existsb _ rm); [done|]. apply elem_of_app. by left.
    + left. destruct (existsb (String.eqb i) rm) eqn:E.
      * apply existsb_exists in E as (y & Hy & ->%String.eqb_eq). by apply list_elem_of_In.
      * apply elem_of_app. right. by apply list_elem_of_singleton.
Qed.

Lemma swap_keeps g e next calls key_ : always keeps_removed (compareAndSwapWithKeyUpdate g e next calls key_).
Proof.
  unfold compareAndSwapWithKeyUpdate. intros v x v'. rewrite gets_bind. destruct (_ || _ || _); [by intros [= _ <-]|].
  destruct (stage _ _ _) as [k rm] eqn:Hst. m_result k' Hk; intros [= _ <-]; [|done].
  intros g' r id Hr Hid. destruct (decide (g' = g)) as [->|Hne].
  - eexists. rewrite lookup_insert_eq. split; [done|]. cbn. rewrite js_sort_perm.
    rewrite Hr in Hst. pose proof (stage_removed key_ calls id (removedMemberIds r) (or_introl Hid)) as Hin.
    by rewrite Hst in Hin.
  - exists r. by rewrite lookup_insert_ne.
Qed.

Definition state_keeps (st st' : groups_state) : Prop := keeps_removed (vault_ st) (vault_ st').
#[local] Instance state_keeps_preorder : PreOrder state_keeps.
Proof.
  split; unfold state_keeps.
  - intros st. reflexivity.
  - intros s1 s2 s3 H1 H2. by etrans.
Qed.

Lemma on_vault_keeps {A} (m : M vault A) : always keeps_removed m → always state_keeps (on_vault m).
Proof. intros Hm st x st'. unfold on_vault. destruct (m (vault_ st)) as [r v] eqn:E. intros [= _ <-]. by eapply Hm. Qed.

Lemma validate_keeps e s now c1 : always state_keeps (validate sha256_hex e s now c1).
Proof.
  unfold validate. repeat (apply always_bind; [typeclasses eauto|auto with k3 typeclass_instances|intros ?]).
  apply always_modify. intros st. unfold state_keeps. reflexivity.
Qed.

(** The operations of the runtime. *)
Inductive group_op :=
| op_create (s : GroupMembershipSnapshot)
| op_add (e : GroupMembershipEvent) (m : GroupMember)
| op_activate (e : GroupMembershipEvent)
| op_remove (e : GroupMembershipEvent).
Definition run_group_op (o : group_op) (ctx : AuthenticatedDeviceContext) (clock : nat → Z) (key_ : string)
    : M groups_state GroupMembershipSnapshot :=
  match o with
  | op_create s => create s ctx key_
  | op_add e m => add_ sha256_hex localeCompare e m ctx clock key_
  | op_activate e => activate_ sha256_hex localeCompare e ctx clock key_
  | op_remove e => remove_ sha256_hex localeCompare e ctx clock key_
  end.

Lemma commit_members_keeps s ms calls key_ : always state_keeps (commit_members sha256_hex localeCompare s ms calls key_).
Proof.
  unfold commit_members. apply always_bind; [typeclasses eauto|apply on_vault_keeps, swap_keeps|intros ok].
  apply always_bind; [typeclasses eauto|by apply always_lift; typeclasses eauto|intros u]. by apply always_mret; typeclasses eauto.
Qed.

Ltac keeps := repeat first
  [ apply commit_members_keeps | apply validate_keeps | apply on_vault_keeps, swap_keeps
  | apply always_bind; [typeclasses eauto| |intros ?]
  | apply always_lift; typeclasses eauto | apply always_gets; typeclasses eauto | apply always_mret; typeclasses eauto ].

Lemma run_group_op_keeps o ctx clock key_ : always state_keeps (run_group_op o ctx clock key_).
Proof.
  destruct o; cbn [run_group_op]; unfold create, add_, activate_, remove_, authorize, addPending, activate_member,
    remove_member; keeps.
Qed.

Definition group_step (st st' : groups_state) : Prop :=
  ∃ o ctx clock key_ x, run_group_op o ctx clock key_ st = (x, st').

(** Once an administrator removed a member, no later sequence of group operations, successful or not, ever
    gives that member the group key again; and the removal itself put a newly drawn key in place. *)
Theorem removed_member_loses_keys e ctx clock key_ st nx st1 st2 g id :
  remove_ sha256_hex localeCompare e ctx clock key_ st = (Ok nx, st1) →
  g = ga_groupId (ge_authorization e) →
  (∃ s t, vault_read (vault_ st) g = Some s ∧ member_by_device s (ge_targetDeviceId e) = Some t ∧ memberId t = id) →
  rtc group_step st1 st2 →
  keyMaterial <$> vault_ st1 !! g = Some key_ ∧ is_ok (keyForActiveMember g id (vault_ st2)) = false.
Proof.
  intros Hrm -> (s & t & Hs & Ht & <-) Hsteps.
  apply remove_ok in Hrm as (s' & t' & Hs' & Ht' & _ & _ & Hc). rewrite Hs in Hs'. injection Hs' as <-.
  rewrite Ht in Ht'. injection Ht' as <-. destruct (cc_stored _ _ _ _ _ _ _ _ _ _ Hc) as (r & Hv & Hr).
  destruct Hr as (_ & _ & Hkey & Hrem). split; [by rewrite Hv, lookup_insert_eq, <-Hkey|].
  assert (memberId t ∈ removedMemberIds r) as Hin.
  { rewrite Hrem, js_sort_perm. apply stage_removed. right. by apply elem_of_cons; left. }
  assert (state_keeps st1 st2) as Hkeep.
  { clear -Hsteps. induction Hsteps as [|x y z (o & c & k & ky & r & Hrun) _ IH]; [done|].
    etrans; [by eapply run_group_op_keeps|exact IH]. }
  destruct (Hkeep (ga_groupId (ge_authorization e)) r (memberId t)) as (r2 & Hr2 & Hin2);
    [by rewrite Hv, lookup_insert_eq|done|].
  unfold keyForActiveMember. rewrite Hr2. cbn [require mbind res_bind]. destruct (js_find _ _) as [m|]; [|done].
  cbn [require mbind res_bind]. assert (existsb (String.eqb (memberId t)) (removedMemberIds r2) = true) as ->.
  { apply existsb_exists. exists (memberId t). split; [by apply list_elem_of_In|apply String.eqb_refl]. }
  by rewrite orb_true_r.
Qed.
End removal.

(** ** A group that removes a member *)
Definition sample_member (d : string) (r : Role) : GroupMember :=
  {| memberId := d; userIdentityReference := "K3 " +:+ d; gm_deviceId := d; gm_state := mactive; role := Some r |}.
Definition sample_group : GroupMembershipSnapshot :=
  {| group := {| groupId := "group"; genesisCommitment := sample_digest; g_epoch := 0 |};
     members := [sample_member "a" administrator; sample_member "b" member]; transcriptCommitment := sample_digest |}.
Definition removal_event : GroupMembershipEvent :=
  {| ge_version := 1; ge_eventId := "remove-b"; ge_operation := remove;
     ge_authorization := {| ga_groupId := "group"; actorDeviceId := "a"; ga_target := Some "b"; ga_epoch := 0;
                            ga_expiresAt := 9; action := Some remove |};
     ge_targetDeviceId := "b"; ge_epoch := 0; ge_transcriptCommitment := sample_digest; ge_createdAt := 1;
     ge_digest := sample_digest |}.
Definition created_group : groups_state :=
  (create sample_group sample_context "key-0" {| vault_ := ∅; seen_events := ∅ |}).2.
Definition removal := remove_ sample_hash string_cmp removal_event sample_context (λ _, 5) "key-1" created_group.
Definition removal_snapshot : GroupMembershipSnapshot := match removal.1 with Ok s => s | Err _ => sample_group end.

Lemma removal_runs : removal = (Ok removal_snapshot, removal.2).
Proof. vm_compute. reflexivity. Qed.

Lemma group_changes_are_authorized_witness :
  ∃ s t, vault_read (vault_ created_group) "group" = Some s ∧ member_by_device s "b" = Some t ∧ gm_state t = mactive ∧
    "b" ≠ "a" ∧ committed_change sample_hash string_cmp removal_event sample_context "key-1" created_group removal.2
      removal_snapshot (λ s, with_state removed "b" (members s)) [removeMember (memberId t); rotate].
Proof.
  apply (proj2 (proj2 (group_changes_are_authorized sample_hash string_cmp removal_event sample_context (λ _, 5) "key-1"
    created_group removal_snapshot removal.2))). exact removal_runs.
Defined.

Lemma removed_member_loses_keys_witness :
  keyMaterial <$> vault_ removal.2 !! "group" = Some "key-1" ∧ is_ok (keyForActiveMember "group" "b" (vault_ removal.2)) = false.
Proof.
  apply (removed_member_loses_keys sample_hash string_cmp removal_event sample_context (λ _, 5) "key-1" created_group
    removal_snapshot removal.2 removal.2 "group" "b").
  - exact removal_runs.
  - reflexivity.
  - exists sample_group, (sample_member "b" member). split_and!; vm_compute; reflexivity.
  - apply rtc_refl.
Defined.

Example old_key_readable : keyForActiveMember "group" "b" (vault_ created_group) = Ok "key-0".
Proof. vm_compute. reflexivity. Qed.
