(* ===== verification/DeviceAuthority.v ===== *)
(** * The relay's durable device-trust authority ([backend/security/durableDeviceTrust.ts], [lifecycleEvent.ts])

    Public lifecycle records, the registry of device identifiers and the one-time proof claims, kept in
    three collections with unique indexes; each store operation is one atomic document operation.
    HMAC and Ed25519 are parameters, [now] the clock's value in an operation. The texts signed list the
    fields in the order of their types. *)
From S2P Require Import Prelude Json.

(** ** Data *)
Inductive device_state := pending | active | revoked.
#[export] Instance device_state_eq_dec : EqDecision device_state.
Proof. solve_decision. Defined.

(* backend/security/deviceTrust.ts:8-8 DeviceLifecycleRecord *)
Record DeviceLifecycleRecord := {
  accountIdentityReference : string; deviceId : string; deviceIdentityReference : string;
  verificationKeyReference : string; dr_state : device_state; trustEpoch : Z; createdAt : Z; revokedAt : option Z;
  lastTrustUpdate : Z }.

(** A [DeviceResourceContext], by its fields in order. *)
(* backend/security/deviceTrust.ts:4-7 DeviceResourceContext *)
Definition resource := list (string * string).
Definition resource_json (r : resource) : jsval := JObj ((λ kv, (kv.1, JStr kv.2)) <$> r).
Definition rget (r : resource) (k : string) : string := match get ((λ kv, (kv.1, JStr kv.2)) <$> r) k with JStr s => s | _ => "" end.

(* backend/security/deviceTrust.ts:9-9 DeviceAuthorizationProof *)
Record DeviceAuthorizationProof := {
  pr_proofId : string; pr_account : string; pr_deviceId : string; pr_identity : string; pr_operation : string;
  pr_trustEpoch : Z; pr_nonce : string; pr_resource : option resource; pr_issuedAt : Z; pr_expiresAt : Z;
  pr_signature : string }.

(* service/src/devices/trustProtocol.ts:2-2 EnrollmentEvent *)
Record EnrollmentEvent := {
  en_eventId : string; en_account : string; en_issuerDeviceId : string; en_issuerIdentity : string; en_issuerEpoch : Z;
  en_targetDeviceId : string; en_targetIdentity : string; en_targetKey : string; en_targetFingerprint : string;
  en_nonce : string; en_createdAt : Z; en_expiresAt : Z; en_signature : string }.
(* service/src/devices/trustProtocol.ts:16-16 DeviceProofRequest *)
Record DeviceProofRequest := {
  rq_requestId : string; rq_account : string; rq_deviceId : string; rq_identity : string; rq_operation : string;
  rq_nonce : string; rq_epoch : Z; rq_resource : option resource; rq_createdAt : Z; rq_expiresAt : Z; rq_signature : string }.
(* service/src/devices/trustProtocol.ts:17-17 BootstrapRequest *)
Record BootstrapRequest := {
  bs_version : Z; bs_requestId : string; bs_deviceId : string; bs_identity : string; bs_key : string;
  bs_fingerprint : string; bs_createdAt : Z; bs_expiresAt : Z; bs_nonce : string; bs_signature : string }.

(* backend/security/lifecycleEvent.ts:7-7 LifecycleOperation *)
Inductive LifecycleOperation := lo_enroll | lo_activate | lo_revoke | lo_epoch_update.
#[export] Instance LifecycleOperation_eq_dec : EqDecision LifecycleOperation.
Proof. solve_decision. Defined.
(* backend/security/lifecycleEvent.ts:8-8 SignedLifecycleEvent *)
Record SignedLifecycleEvent := {
  le_version : Z; le_eventId : string; le_account : string; le_issuerDeviceId : string; le_issuerIdentity : string;
  le_targetDeviceId : string; le_targetIdentity : string; le_operation : LifecycleOperation; previousEpoch : Z;
  nextEpoch : Z; le_createdAt : Z; le_expiresAt : Z; le_signature : string }.

(* backend/security/lifecycleEvent.ts:5-5 LIFECYCLE_CLOCK_SKEW_MS *)
Definition LIFECYCLE_CLOCK_SKEW_MS : Z := 5000.
(* backend/security/durableDeviceTrust.ts:9-10 deviceOperations, PROOF_REQUEST_CLOCK_SKEW_MS *)
Definition PROOF_REQUEST_CLOCK_SKEW_MS : Z := 5000.
Definition deviceOperations : list string :=
  ["relay:connect"; "relay:subscribe"; "relay:message"; "relay:signal"; "attachment:create"; "attachment:write";
   "attachment:read"; "attachment:delete"; "private-network:relay"; "bridge:authorize"; "device-control"].

(** ** Texts *)
Definition num (z : Z) : jsval := JNum (NInt z).
Definition operation_text (o : LifecycleOperation) : string :=
  match o with lo_enroll => "enroll" | lo_activate => "activate" | lo_revoke => "revoke" | lo_epoch_update => "epoch-update" end.
Definition proof_text (p : DeviceAuthorizationProof) : string := stringify (obj
  [("version", Some (num 1)); ("proofId", Some (JStr (pr_proofId p))); ("accountIdentityReference", Some (JStr (pr_account p)));
   ("deviceId", Some (JStr (pr_deviceId p))); ("deviceIdentityReference", Some (JStr (pr_identity p)));
   ("operation", Some (JStr (pr_operation p))); ("trustEpoch", Some (num (pr_trustEpoch p)));
   ("nonce", Some (JStr (pr_nonce p))); ("resource", resource_json <$> pr_resource p);
   ("issuedAt", Some (num (pr_issuedAt p))); ("expiresAt", Some (num (pr_expiresAt p)))]).
Definition enrollment_text (e : EnrollmentEvent) : string := stringify (JObj
  [("version", num 1); ("eventId", JStr (en_eventId e)); ("accountIdentityReference", JStr (en_account e));
   ("issuerDeviceId", JStr (en_issuerDeviceId e)); ("issuerIdentityReference", JStr (en_issuerIdentity e));
   ("issuerEpoch", num (en_issuerEpoch e)); ("targetDeviceId", JStr (en_targetDeviceId e));
   ("targetIdentityReference", JStr (en_targetIdentity e)); ("targetVerificationKey", JStr (en_targetKey e));
   ("targetFingerprint", JStr (en_targetFingerprint e)); ("nonce", JStr (en_nonce e));
   ("createdAt", num (en_createdAt e)); ("expiresAt", num (en_expiresAt e))]).
Definition request_text (r : DeviceProofRequest) : string := stringify (obj
  [("version", Some (num 1)); ("requestId", Some (JStr (rq_requestId r))); ("accountIdentityReference", Some (JStr (rq_account r)));
   ("deviceId", Some (JStr (rq_deviceId r))); ("deviceIdentityReference", Some (JStr (rq_identity r)));
   ("operation", Some (JStr (rq_operation r))); ("nonce", Some (JStr (rq_nonce r))); ("epoch", Some (num (rq_epoch r)));
   ("resource", resource_json <$> rq_resource r); ("createdAt", Some (num (rq_createdAt r)));
   ("expiresAt", Some (num (rq_expiresAt r)))]).
Definition bootstrap_text (r : BootstrapRequest) : string := stringify (JObj
  [("version", num (bs_version r)); ("requestId", JStr (bs_requestId r)); ("deviceId", JStr (bs_deviceId r));
   ("deviceIdentityReference", JStr (bs_identity r)); ("verificationKey", JStr (bs_key r));
   ("fingerprint", JStr (bs_fingerprint r)); ("createdAt", num (bs_createdAt r)); ("expiresAt", num (bs_expiresAt r));
   ("nonce", JStr (bs_nonce r))]).
Definition lifecycle_text (e : SignedLifecycleEvent) : string := stringify (JObj
  [("version", num (le_version e)); ("eventId", JStr (le_eventId e)); ("accountIdentityReference", JStr (le_account e));
   ("issuerDeviceId", JStr (le_issuerDeviceId e)); ("issuerIdentityReference", JStr (le_issuerIdentity e));
   ("targetDeviceId", JStr (le_targetDeviceId e)); ("targetIdentityReference", JStr (le_targetIdentity e));
   ("operation", JStr (operation_text (le_operation e))); ("previousEpoch", num (previousEpoch e));
   ("nextEpoch", num (nextEpoch e)); ("createdAt", num (le_createdAt e)); ("expiresAt", num (le_expiresAt e))]).

(** ** The store *)
(* backend/security/durableDeviceTrust.ts:15-19 MongoDeviceTrustStore, collections *)
Record trust_store := {
  devices : gmap (string * string) DeviceLifecycleRecord;
  proofs : gmap (string * string) Z;
  identities : gmap string string }.
Definition with_devices (d : gmap (string * string) DeviceLifecycleRecord) (s : trust_store) : trust_store :=
  {| devices := d; proofs := proofs s; identities := identities s |}.
Definition with_proofs (p : gmap (string * string) Z) (s : trust_store) : trust_store :=
  {| devices := devices s; proofs := p; identities := identities s |}.
Definition with_identities (i : gmap string string) (s : trust_store) : trust_store :=
  {| devices := devices s; proofs := proofs s; identities := i |}.

(* backend/security/durableDeviceTrust.ts:20-20 read *)
Definition read_device (account device : string) (s : trust_store) : option DeviceLifecycleRecord := devices s !! (account, device).
(* backend/security/durableDeviceTrust.ts:21-21 readAnyDevice *)
Definition readAnyDevice (device : string) (s : trust_store) : bool :=
  existsb (λ k, String.eqb (k : string * string).2 device) (map_to_list (devices s)).*1.

(** [$set] of a record keeps a [revokedAt] it does not name. *)
Definition merge_record (old : option DeviceLifecycleRecord) (r : DeviceLifecycleRecord) : DeviceLifecycleRecord :=
  {| accountIdentityReference := accountIdentityReference r; deviceId := deviceId r;
     deviceIdentityReference := deviceIdentityReference r; verificationKeyReference := verificationKeyReference r;
     dr_state := dr_state r; trustEpoch := trustEpoch r; createdAt := createdAt r;
     revokedAt := match revokedAt r with Some t => Some t | None => o ← old; revokedAt o end;
     lastTrustUpdate := lastTrustUpdate r |}.

(* backend/security/durableDeviceTrust.ts:22-29 upsert *)
Definition upsert (r : DeviceLifecycleRecord) (expectedEpoch : option Z) : M trust_store bool := λ s,
  let key := (accountIdentityReference r, deviceId r) in
  match devices s !! key, expectedEpoch with
  | Some old, Some e => if trustEpoch old =? e then (Ok true, with_devices (<[key := merge_record (Some old) r]> (devices s)) s)
                        else (Ok false, s)
  | None, Some _ => (Ok false, s)
  | old, None => (Ok true, with_devices (<[key := merge_record old r]> (devices s)) s)
  end.

(* backend/security/durableDeviceTrust.ts:30-33 consume *)
Definition consume (proofId device : string) (expiresAt now : Z) : M trust_store bool := λ s,
  if expiresAt <=? now then (Ok false, s)
  else match proofs s !! (proofId, device) with
       | Some _ => (Ok false, s)
       | None => (Ok true, with_proofs (<[(proofId, device) := expiresAt]> (proofs s)) s)
       end.

(* backend/security/durableDeviceTrust.ts:36-39 reserveDeviceId *)
Definition reserveDeviceId (device account : string) : M trust_store bool := λ s,
  match identities s !! device with
  | Some _ => (Ok false, s)
  | None => (Ok true, with_identities (<[device := account]> (identities s)) s)
  end.
(* backend/security/durableDeviceTrust.ts:40-43 bindReservedDeviceId *)
Definition bindReservedDeviceId (device account : string) : M trust_store bool := λ s,
  if bool_decide (identities s !! device = Some "bootstrap-pending")
  then (Ok true, with_identities (<[device := account]> (identities s)) s) else (Ok false, s).
(* backend/security/durableDeviceTrust.ts:44-44 releaseDeviceId *)
Definition releaseDeviceId (device account : string) : M trust_store unit := λ s,
  (Ok tt, if bool_decide (identities s !! device = Some account) then with_identities (delete device (identities s)) s else s).

(** The time-to-live index on [expiresAt]. *)
Definition expire_proofs (now : Z) (s : trust_store) : trust_store := with_proofs (filter (λ kv, now < kv.2) (proofs s)) s.

(** ** The authority *)
Section authority.
Context (hmac : string → string) (ed25519_ok : string → string → string → bool) (muxRelayEnabled : bool).

(* backend/security/durableDeviceTrust.ts:50-50 sign *)
Definition sign (text : string) : string := hmac ("k3ncrypt-device-proof-v1" +:+ str1 0 +:+ text).

(* backend/security/lifecycleEvent.ts:17-25 verifyLifecycleEvent *)
Definition verifyLifecycleEvent (e : SignedLifecycleEvent) (key : string) (now : Z) : bool :=
  (le_version e =? 1) && uuid_strict (le_eventId e) && nonempty (le_account e) && nonempty (le_issuerDeviceId e) &&
  nonempty (le_issuerIdentity e) && nonempty (le_targetDeviceId e) && nonempty (le_targetIdentity e) &&
  isSafeInteger (previousEpoch e) && isSafeInteger (nextEpoch e) && (nextEpoch e =? previousEpoch e + 1) &&
  isSafeInteger (le_createdAt e) && isSafeInteger (le_expiresAt e) &&
  (le_createdAt e <=? now + LIFECYCLE_CLOCK_SKEW_MS) && (now <=? le_expiresAt e) &&
  (le_expiresAt e - le_createdAt e <=? 5 * 60000) &&
  nonempty key && forall_chars is_base64url key && nonempty (le_signature e) && forall_chars is_base64url (le_signature e) &&
  ed25519_ok key (lifecycle_text e) (le_signature e).

(* backend/security/durableDeviceTrust.ts:120-128 verify *)
Definition verify (p : DeviceAuthorizationProof) (expectedOperation : string) (expectedResource : option resource) (now : Z)
    : M trust_store DeviceLifecycleRecord :=
  let rejected := "Device proof rejected." in
  lift (throw_if ((String.eqb expectedOperation "relay:connect" || String.eqb expectedOperation "relay:subscribe") &&
    negb muxRelayEnabled) rejected);;
  lift (throw_if (negb (String.eqb (pr_operation p) expectedOperation) || (pr_expiresAt p <=? now) ||
    negb (String.eqb (pr_signature p) (sign (proof_text p))) ||
    match expectedResource with
    | Some r => negb (String.eqb (stringify (resource_json (default [] (pr_resource p)))) (stringify (resource_json r)))
    | None => false
    end) rejected);;
  o ← gets (read_device (pr_account p) (pr_deviceId p));
  r ← lift (require o rejected);
  lift (throw_if (negb (bool_decide (dr_state r = active)) || negb (String.eqb (deviceIdentityReference r) (pr_identity p)) ||
    negb (trustEpoch r =? pr_trustEpoch p)) rejected);;
  fresh ← consume (pr_proofId p) (pr_deviceId p) (pr_expiresAt p) now;
  lift (throw_if (negb fresh) rejected);;
  mret r.

(** [uuid] is the value of [randomUUID()]. *)
(* backend/security/durableDeviceTrust.ts:51-61 bootstrap *)
Definition bootstrap (r : BootstrapRequest) (uuid : string) (now : Z) : M trust_store DeviceLifecycleRecord :=
  let rejected := "Initial device bootstrap rejected." in
  lift (throw_if (negb (bs_version r =? 1) || negb (uuid_loose (bs_requestId r)) || negb (uuid_loose (bs_deviceId r)) ||
    negb (nonempty (bs_identity r)) || negb (String.eqb (bs_fingerprint r) (bs_identity r)) ||
    negb (base64url_between 43 43 (bs_key r)) || negb (base64url_between 16 128 (bs_nonce r)) ||
    (now + LIFECYCLE_CLOCK_SKEW_MS <? bs_createdAt r) || (bs_expiresAt r <=? now) ||
    (5 * 60000 <? bs_expiresAt r - bs_createdAt r) || negb (ed25519_ok (bs_key r) (bootstrap_text r) (bs_signature r))) rejected);;
  known ← gets (readAnyDevice (bs_deviceId r));
  lift (throw_if known rejected);;
  reserved ← reserveDeviceId (bs_deviceId r) "bootstrap-pending";
  lift (throw_if (negb reserved) rejected);;
  let record := {| accountIdentityReference := "account-" +:+ uuid; deviceId := bs_deviceId r;
    deviceIdentityReference := bs_identity r; verificationKeyReference := bs_key r; dr_state := active; trustEpoch := 1;
    createdAt := now; revokedAt := None; lastTrustUpdate := now |} in
  stored ← upsert record None;
  (if negb stored then releaseDeviceId (bs_deviceId r) "bootstrap-pending";; throw rejected else mret tt);;
  bound ← bindReservedDeviceId (bs_deviceId r) ("account-" +:+ uuid);
  lift (throw_if (negb bound) rejected);;
  fresh ← consume (bs_requestId r) (bs_deviceId r) (bs_expiresAt r) now;
  lift (throw_if (negb fresh) rejected);;
  mret record.

(* backend/security/durableDeviceTrust.ts:62-79 enroll *)
Definition enroll (e : EnrollmentEvent) (issuerProof : DeviceAuthorizationProof) (now : Z) : M trust_store DeviceLifecycleRecord :=
  let rejected := "Lifecycle enrollment rejected." in
  target ← gets (read_device (en_account e) (en_targetDeviceId e));
  o ← gets (read_device (en_account e) (en_issuerDeviceId e));
  lift (throw_if (bool_decide (is_Some target)) rejected);;
  issuer ← lift (require o rejected);
  lift (throw_if (negb (bool_decide (dr_state issuer = active)) || negb (nonempty (verificationKeyReference issuer)) ||
    (en_expiresAt e <=? now) || (now + LIFECYCLE_CLOCK_SKEW_MS <? en_createdAt e) ||
    String.eqb (en_issuerDeviceId e) (en_targetDeviceId e) || negb (en_issuerEpoch e =? trustEpoch issuer) ||
    negb (String.eqb (en_issuerIdentity e) (deviceIdentityReference issuer)) || negb (nonempty (en_targetFingerprint e)) ||
    negb (ed25519_ok (verificationKeyReference issuer) (enrollment_text e) (en_signature e))) rejected);;
  verified ← verify issuerProof "device-control" None now;
  lift (throw_if (negb (String.eqb (accountIdentityReference verified) (en_account e)) ||
    negb (String.eqb (deviceId verified) (en_issuerDeviceId e)) ||
    negb (String.eqb (deviceIdentityReference verified) (en_issuerIdentity e)) ||
    negb (trustEpoch verified =? en_issuerEpoch e)) rejected);;
  reserved ← reserveDeviceId (en_targetDeviceId e) (en_account e);
  lift (throw_if (negb reserved) rejected);;
  let record := {| accountIdentityReference := en_account e; deviceId := en_targetDeviceId e;
    deviceIdentityReference := en_targetIdentity e; verificationKeyReference := en_targetKey e; dr_state := pending;
    trustEpoch := en_issuerEpoch e + 1; createdAt := now; revokedAt := None; lastTrustUpdate := now |} in
  stored ← upsert record None;
  (if negb stored then releaseDeviceId (en_targetDeviceId e) (en_account e);; throw "Lifecycle enrollment conflict." else mret tt);;
  fresh ← consume (en_eventId e) (en_issuerDeviceId e) (en_expiresAt e) now;
  lift (throw_if (negb fresh) "Lifecycle enrollment replay protection unavailable.");;
  mret record.

Definition advanced (r : DeviceLifecycleRecord) (s : device_state) (e now : Z) (rev : option Z) : DeviceLifecycleRecord :=
  {| accountIdentityReference := accountIdentityReference r; deviceId := deviceId r;
     deviceIdentityReference := deviceIdentityReference r; verificationKeyReference := verificationKeyReference r;
     dr_state := s; trustEpoch := e; createdAt := createdAt r; revokedAt := rev; lastTrustUpdate := now |}.

(* backend/security/durableDeviceTrust.ts:81-88 activate *)
Definition activate (e : SignedLifecycleEvent) (now : Z) : M trust_store DeviceLifecycleRecord :=
  let rejected := "Lifecycle activation rejected." in
  o ← gets (read_device (le_account e) (le_targetDeviceId e));
  target ← lift (require o rejected);
  lift (throw_if (negb (bool_decide (dr_state target = pending)) || negb (bool_decide (le_operation e = lo_activate)) ||
    negb (String.eqb (le_issuerDeviceId e) (deviceId target)) ||
    negb (String.eqb (le_issuerIdentity e) (deviceIdentityReference target)) ||
    negb (String.eqb (le_targetIdentity e) (deviceIdentityReference target)) ||
    negb (previousEpoch e =? trustEpoch target) || negb (nextEpoch e =? trustEpoch target + 1) ||
    negb (verifyLifecycleEvent e (verificationKeyReference target) now)) rejected);;
  let next := advanced target active (nextEpoch e) now (revokedAt target) in
  stored ← upsert next (Some (trustEpoch target));
  lift (throw_if (negb stored) "Lifecycle activation conflict.");;
  fresh ← consume (le_eventId e) (deviceId target) (le_expiresAt e) now;
  lift (throw_if (negb fresh) "Lifecycle activation replay protection unavailable.");;
  mret next.

(* backend/security/durableDeviceTrust.ts:89-100 update *)
Definition update (e : SignedLifecycleEvent) (issuerProof : DeviceAuthorizationProof) (now : Z) : M trust_store DeviceLifecycleRecord :=
  let rejected := "Lifecycle update rejected." in
  oi ← gets (read_device (le_account e) (le_issuerDeviceId e));
  ot ← gets (read_device (le_account e) (le_targetDeviceId e));
  issuer ← lift (require oi rejected);
  target ← lift (require ot rejected);
  lift (throw_if (negb (bool_decide (dr_state issuer = active)) || negb (bool_decide (dr_state target = active)) ||
    String.eqb (le_issuerDeviceId e) (le_targetDeviceId e) || negb (bool_decide (le_operation e = lo_revoke)) ||
    negb (trustEpoch issuer =? previousEpoch e) || negb (nextEpoch e =? previousEpoch e + 1) ||
    negb (verifyLifecycleEvent e (verificationKeyReference issuer) now)) rejected);;
  verified ← verify issuerProof "device-control" None now;
  lift (throw_if (negb (String.eqb (accountIdentityReference verified) (le_account e)) ||
    negb (String.eqb (deviceId verified) (le_issuerDeviceId e)) || negb (trustEpoch verified =? previousEpoch e)) rejected);;
  let next := advanced target revoked (trustEpoch target + 1) now (Some now) in
  stored ← upsert next (Some (trustEpoch target));
  lift (throw_if (negb stored) "Lifecycle update conflict.");;
  fresh ← consume (le_eventId e) (le_issuerDeviceId e) (le_expiresAt e) now;
  lift (throw_if (negb fresh) "Lifecycle update replay protection unavailable.");;
  mret next.

Definition sorted_keys (r : resource) : string := String.concat "," (js_sort (λ a b, if String.leb a b then -1 else 1) r.*1).
Definition resource_id (s : string) : bool := base64url_between 1 128 s.

(* backend/security/durableDeviceTrust.ts:101-119 issue, validMuxResource *)
Definition validMuxResource (r : DeviceProofRequest) : bool :=
  if String.eqb (rq_operation r) "relay:connect" then
    match rq_resource r with
    | Some c => String.eqb (sorted_keys c) "connectionGeneration" && resource_id (rget c "connectionGeneration")
    | None => false
    end
  else if String.eqb (rq_operation r) "relay:subscribe" then
    match rq_resource r with
    | Some c => String.eqb (sorted_keys c) "connectionGeneration,conversationId,peerRoutingAddress,routingAddress" &&
        resource_id (rget c "connectionGeneration") && uuid_loose (rget c "conversationId") &&
        uuid_loose (rget c "routingAddress") && uuid_loose (rget c "peerRoutingAddress")
    | None => false
    end
  else true.

(* backend/security/durableDeviceTrust.ts:101-119 issue *)
Definition issue (r : DeviceProofRequest) (uuid : string) (now : Z) : M trust_store DeviceAuthorizationProof :=
  let rejected := "Device proof request rejected." in
  lift (throw_if ((String.eqb (rq_operation r) "relay:connect" || String.eqb (rq_operation r) "relay:subscribe") &&
    negb muxRelayEnabled) rejected);;
  o ← gets (read_device (rq_account r) (rq_deviceId r));
  let maxLifetime := if String.eqb (rq_operation r) "relay:subscribe" then 5 * 60000 else 30000 in
  record ← lift (require o rejected);
  lift (throw_if (negb (bool_decide (dr_state record = active)) || negb (existsb (String.eqb (rq_operation r)) deviceOperations) ||
    negb (String.eqb (deviceIdentityReference record) (rq_identity r)) || negb (trustEpoch record =? rq_epoch r) ||
    negb (validMuxResource r) || (rq_expiresAt r <=? now) || (maxLifetime <? rq_expiresAt r - rq_createdAt r) ||
    (now + PROOF_REQUEST_CLOCK_SKEW_MS <? rq_createdAt r) ||
    negb (ed25519_ok (verificationKeyReference record) (request_text r) (rq_signature r))) rejected);;
  fresh ← consume (rq_requestId r) (rq_deviceId r) (rq_expiresAt r) now;
  lift (throw_if (negb fresh) rejected);;
  fresh ← consume (rq_nonce r) (rq_deviceId r) (rq_expiresAt r) now;
  lift (throw_if (negb fresh) rejected);;
  let unsigned (sig : string) := {| pr_proofId := uuid; pr_account := rq_account r; pr_deviceId := rq_deviceId r;
    pr_identity := rq_identity r; pr_operation := rq_operation r; pr_trustEpoch := rq_epoch r; pr_nonce := rq_nonce r;
    pr_resource := rq_resource r; pr_issuedAt := now; pr_expiresAt := Z.min (rq_expiresAt r) (now + maxLifetime);
    pr_signature := sig |} in
  mret (unsigned (sign (proof_text (unsigned "")))).
End authority.

(** ** Proofs are used at most once *)
Section replay.
Context (hmac : string → string) (ed25519_ok : string → string → string → bool) (mux : bool).

(** Claims are never dropped by an operation. *)
Definition claims_kept (s s' : trust_store) : Prop := ∀ k v, proofs s !! k = Some v → proofs s' !! k = Some v.
#[local] Instance claims_kept_preorder : PreOrder claims_kept.
Proof. split; [by intros s k v|]. intros s1 s2 s3 H1 H2 k v Hk. by apply H2, H1. Qed.

Lemma consume_keeps i d e now : always claims_kept (consume i d e now).
Proof.
  intros s x s'. unfold consume. destruct (e <=? now); [by intros [= _ <-]|].
  destruct (proofs s !! (i, d)) eqn:Hp; intros [= _ <-]; [done|]. intros k v Hk. cbn. rewrite lookup_insert_ne; congruence.
Qed.
Lemma upsert_keeps r e : always claims_kept (upsert r e).
Proof. intros s x s'. unfold upsert. destruct (devices s !! _), e; [case_if|..]; intros [= _ <-] k v Hk; exact Hk. Qed.
Lemma reserve_keeps d a : always claims_kept (reserveDeviceId d a).
Proof. intros s x s'. unfold reserveDeviceId. destruct (identities s !! d); intros [= _ <-] k v Hk; exact Hk. Qed.
Lemma bind_keeps d a : always claims_kept (bindReservedDeviceId d a).
Proof. intros s x s'. unfold bindReservedDeviceId. case_if; intros [= _ <-] k v Hk; exact Hk. Qed.
Lemma release_keeps d a : always claims_kept (releaseDeviceId d a).
Proof. intros s x s'. unfold releaseDeviceId. case_if; intros [= _ <-] k v Hk; exact Hk. Qed.

Ltac claims := repeat first
  [ apply consume_keeps | apply upsert_keeps | apply reserve_keeps | apply bind_keeps | apply release_keeps
  | apply always_bind; [typeclasses eauto| |intros ?]
  | apply always_lift; typeclasses eauto | apply always_gets; typeclasses eauto | apply always_mret; typeclasses eauto
  | apply always_throw; typeclasses eauto | match goal with |- context [if ?b then _ else _] => destruct b end ].

Lemma verify_keeps p o r now : always claims_kept (verify hmac mux p o r now).
Proof. unfold verify. claims. Qed.

(** The requests of the authority. *)
Inductive request :=
| Bootstrap (r : BootstrapRequest) (uuid : string)
| Enroll (e : EnrollmentEvent) (p : DeviceAuthorizationProof)
| Activate (e : SignedLifecycleEvent)
| Update (e : SignedLifecycleEvent) (p : DeviceAuthorizationProof)
| Issue (r : DeviceProofRequest) (uuid : string)
| Verify (p : DeviceAuthorizationProof) (operation : string) (r : option resource).
Definition handle (q : request) (now : Z) : M trust_store unit :=
  match q with
  | Bootstrap r u => bootstrap ed25519_ok r u now;; mret tt
  | Enroll e p => enroll hmac ed25519_ok mux e p now;; mret tt
  | Activate e => activate ed25519_ok e now;; mret tt
  | Update e p => update hmac ed25519_ok mux e p now;; mret tt
  | Issue r u => issue hmac ed25519_ok mux r u now;; mret tt
  | Verify p o r => verify hmac mux p o r now;; mret tt
  end.

Lemma handle_keeps q now : always claims_kept (handle q now).
Proof.
  destruct q; cbn [handle]; unfold bootstrap, enroll, activate, update, issue; claims; apply verify_keeps.
Qed.

(** The relay's steps: a request handled, or expired claims dropped, at a clock that never goes back. *)
Inductive relay_step : Z * trust_store → Z * trust_store → Prop :=
| step_request q t now s x s' : t ≤ now → handle q now s = (x, s') → relay_step (t, s) (now, s')
| step_expire t now s : t ≤ now → relay_step (t, s) (now, expire_proofs now s).

Definition claimed (p : DeviceAuthorizationProof) (st : Z * trust_store) : Prop :=
  st.1 < pr_expiresAt p → proofs st.2 !! (pr_proofId p, pr_deviceId p) = Some (pr_expiresAt p).

Lemma claimed_step p st st' : relay_step st st' → claimed p st → claimed p st'.
Proof.
  unfold claimed. destruct 1 as [q t now s x s' Hle Hh|t now s Hle]; cbn; intros Hc Hlt.
  - eapply handle_keeps; [exact Hh|]. apply Hc. lia.
  - apply map_lookup_filter_Some. split; [apply Hc; lia|done].
Qed.

Lemma verify_outcome p o r now s x s' :
  verify hmac mux p o r now s = (x, s') →
  (is_ok x = false ∧ s' = s) ∨
  (∃ d, x = Ok d ∧ read_device (pr_account p) (pr_deviceId p) s = Some d ∧ dr_state d = active ∧
    deviceIdentityReference d = pr_identity p ∧ trustEpoch d = pr_trustEpoch p ∧ pr_operation p = o ∧
    pr_signature p = sign hmac (proof_text p) ∧ now < pr_expiresAt p ∧
    proofs s !! (pr_proofId p, pr_deviceId p) = None ∧
    s' = with_proofs (<[(pr_proofId p, pr_deviceId p) := pr_expiresAt p]> (proofs s)) s).
Proof.
  unfold verify. m_result u1 H1; [|intros [= <- <-]; by left]. m_result u2 H2; [|intros [= <- <-]; by left].
  rewrite gets_bind. m_result d H3; [|intros [= <- <-]; by left]. m_result u3 H4; [|intros [= <- <-]; by left].
  unfold consume, mbind, M_bind. destruct (Z.leb_spec (pr_expiresAt p) now) as [Hle|Hlt]; [intros [= <- <-]; by left|].
  destruct (proofs s !! _) eqn:Hp; [intros [= <- <-]; by left|]. intros [= <- <-]. right. exists d.
  guard_inv H2. guard_inv H4. apply require_ok in H3. destruct H2 as [[[Ho _] Hs] _], H4 as [[Ha Hi] He%Z.eqb_eq].
  by split_and!.
Qed.

(** C38: A device proof admits an operation at most once: after a proof was accepted, no later sequence of
    requests and claim expirations, under a clock that never goes back, lets the relay accept it again; and
    it was accepted only for its own operation, unexpired, signed, and for a device active at its epoch. *)
Theorem proof_accepted_at_most_once p o r now s d s1 t2 s2 o2 r2 now2 :
  verify hmac mux p o r now s = (Ok d, s1) → rtc relay_step (now, s1) (t2, s2) → t2 ≤ now2 →
  (pr_operation p = o ∧ now < pr_expiresAt p ∧ pr_signature p = sign hmac (proof_text p) ∧ dr_state d = active ∧
   trustEpoch d = pr_trustEpoch p ∧ read_device (pr_account p) (pr_deviceId p) s = Some d) ∧
  is_ok (verify hmac mux p o2 r2 now2 s2).1 = false.
Proof.
  intros Hv Hsteps Hle. apply verify_outcome in Hv as [[? _]|(d' & [= <-] & Hr & Ha & _ & He & Ho & Hsig & Hlt & _ & ->)]; [done|].
  split; [by split_and!|].
  assert (claimed p (t2, s2)) as Hc.
  { eapply (rtc_ind_l (λ st, claimed p st → claimed p (t2, s2))) in Hsteps; [exact Hsteps| | |].
    - done.
    - intros x y Hxy _ IH Hx. apply IH. by eapply claimed_step.
    - intros _. cbn. apply lookup_insert_eq. }
  destruct (verify hmac mux p o2 r2 now2 s2) as [x s3] eqn:E.
  apply verify_outcome in E as [[? _]|(d2 & -> & _ & _ & _ & _ & _ & _ & Hlt2 & Hnone & _)]; [done|].
  rewrite Hc in Hnone by (cbn; lia). discriminate.
Qed.
End replay.

(** ** Identifiers are unique and records only move forward *)
Section evolution.
Context (hmac : string → string) (ed25519_ok : string → string → string → bool) (mux : bool).

(** Every record is under its own key, and its device identifier is registered to its account. *)
Definition registered (s : trust_store) : Prop := ∀ a d r, devices s !! (a, d) = Some r →
  accountIdentityReference r = a ∧ deviceId r = d ∧ identities s !! d = Some a.

Definition rank (s : device_state) : Z := match s with pending => 0 | active => 1 | revoked => 2 end.
Record later (r r' : DeviceLifecycleRecord) : Prop := {
  la_account : accountIdentityReference r' = accountIdentityReference r;
  la_device : deviceId r' = deviceId r;
  la_identity : deviceIdentityReference r' = deviceIdentityReference r;
  la_key : verificationKeyReference r' = verificationKeyReference r;
  la_state : (dr_state r' = dr_state r ∧ trustEpoch r' = trustEpoch r) ∨
    (rank (dr_state r) < rank (dr_state r') ∧ trustEpoch r < trustEpoch r') }.

Lemma later_refl r : later r r.
Proof. split; try done. by left. Qed.
Lemma later_trans a b c : later a b → later b c → later a c.
Proof.
  intros [A1 A2 A3 A4 A5] [B1 B2 B3 B4 B5]. split; try congruence.
  destruct A5 as [[As Ae]|[As Ae]], B5 as [[Bs Be]|[Bs Be]]; rewrite ?As, ?Ae, ?Bs, ?Be in *; [by left|right..]; lia.
Qed.

Definition evolves (s s' : trust_store) : Prop :=
  ∀ k r, devices s !! k = Some r → ∃ r', devices s' !! k = Some r' ∧ later r r'.
Definition advances (s s' : trust_store) : Prop := registered s' ∧ evolves s s'.

Lemma advances_same s s' : registered s → devices s' = devices s → identities s' = identities s → advances s s'.
Proof.
  intros Hs Hd Hi. split.
  - intros a d r. rewrite Hd, Hi. apply Hs.
  - intros k r Hk. rewrite Hd. exists r. split; [done|apply later_refl].
Qed.

(** A new record of a fresh device identifier. *)
Lemma advances_new s s' r :
  registered s → identities s !! deviceId r = None →
  devices s' = <[(accountIdentityReference r, deviceId r) := r]> (devices s) →
  identities s' = <[deviceId r := accountIdentityReference r]> (identities s) → advances s s'.
Proof.
  intros Hs Hfresh Hd Hi. assert (∀ a, devices s !! (a, deviceId r) = None) as Hnone.
  { intros a. destruct (devices s !! (a, deviceId r)) as [x|] eqn:E; [|done]. apply Hs in E as (_ & _ & E). congruence. }
  split.
  - intros a d x. rewrite Hd, Hi. destruct (decide ((accountIdentityReference r, deviceId r) = (a, d))) as [[= <- <-]|Hne].
    + rewrite !lookup_insert_eq. by intros [= <-].
    + rewrite lookup_insert_ne by done. intros Hx. destruct (decide (deviceId r = d)) as [<-|Hd'].
      { by rewrite Hnone in Hx. }
      rewrite lookup_insert_ne by done. by apply Hs.
  - intros k x Hx. rewrite Hd. exists x. split; [|apply later_refl]. rewrite lookup_insert_ne; [done|].
    intros <-. by rewrite Hnone in Hx.
Qed.

(** A record that is replaced by a later one. *)
Lemma advances_update s s' a d r r' :
  registered s → devices s !! (a, d) = Some r → later r r' →
  devices s' = <[(a, d) := r']> (devices s) → identities s' = identities s → advances s s'.
Proof.
  intros Hs Hr Hl Hd Hi. pose proof (Hs a d r Hr) as (Ha & Hdev & Hid). split.
  - intros a' d' x. rewrite Hd, Hi. destruct (decide ((a, d) = (a', d'))) as [[= <- <-]|Hne].
    + rewrite lookup_insert_eq. intros [= <-]. destruct Hl. split_and!; congruence.
    + rewrite lookup_insert_ne by done. by apply Hs.
  - intros k x Hx. rewrite Hd. destruct (decide (k = (a, d))) as [->|Hne].
    + exists r'. rewrite lookup_insert_eq. split; [done|]. by replace x with r by congruence.
    + exists x. rewrite lookup_insert_ne by done. split; [done|apply later_refl].
Qed.

Lemma merge_none r : merge_record None r = r.
Proof. destruct r as [? ? ? ? ? ? ? [?|] ?]; reflexivity. Qed.

Lemma upsert_new r s :
  devices s !! (accountIdentityReference r, deviceId r) = None →
  upsert r None s = (Ok true, with_devices (<[(accountIdentityReference r, deviceId r) := r]> (devices s)) s).
Proof. intros Hn. unfold upsert. by rewrite Hn, merge_none. Qed.

Lemma consume_devices i d e now s x s' :
  consume i d e now s = (x, s') → devices s' = devices s ∧ identities s' = identities s.
Proof. unfold consume. destruct (e <=? now); [|destruct (proofs s !! _)]; by intros [= _ <-]. Qed.

(** The claim that ends every operation changes no record. *)
Lemma tail_devices {A} i d e now msg (y : A) s x s' :
  (fresh ← consume i d e now; lift (throw_if (negb fresh) msg);; mret y) s = (x, s') →
  devices s' = devices s ∧ identities s' = identities s.
Proof.
  unfold mbind at 1, M_bind at 1. destruct (consume i d e now s) as [[b|msg'] s1] eqn:Hc; apply consume_devices in Hc.
  - m_result u Hu; intros [= _ <-]; exact Hc.
  - intros [= _ <-]. exact Hc.
Qed.

Lemma bootstrap_advances r u now s x s' :
  registered s → bootstrap ed25519_ok r u now s = (x, s') → advances s s'.
Proof.
  intros Hs. unfold bootstrap. m_result u1 H1; [|intros [= _ <-]; by apply advances_same].
  rewrite gets_bind. m_result u2 H2; [|intros [= _ <-]; by apply advances_same].
  unfold reserveDeviceId, mbind at 1, M_bind at 1.
  destruct (identities s !! bs_deviceId r) eqn:Hid; [intros [= _ <-]; by apply advances_same|].
  cbn [negb throw_if]. rewrite lift_bind. cbv zeta. set (record := Build_DeviceLifecycleRecord _ _ _ _ _ _ _ _ _).
  set (s1 := with_identities _ s). assert (devices s1 !! (accountIdentityReference record, deviceId record) = None) as Hnone.
  { destruct (devices s1 !! _) as [y|] eqn:E; [|done]. apply (Hs (accountIdentityReference record)) in E as (_ & _ & E).
    cbn in E. congruence. }
  unfold mbind at 1, M_bind at 1. rewrite upsert_new by done. cbn [negb]. rewrite mret_bind.
  unfold mbind at 1, M_bind at 1, bindReservedDeviceId. cbn [identities with_devices s1 with_identities].
  rewrite lookup_insert_eq, bool_decide_eq_true_2 by done. cbn [negb throw_if]. rewrite lift_bind.
  intros [Hd Hi]%tail_devices. apply (advances_new s s' record); [done|done| |].
  - rewrite Hd. reflexivity.
  - rewrite Hi. cbn. by rewrite insert_insert_eq.
Qed.

Lemma verify_advances p o res now s x s' :
  registered s → verify hmac mux p o res now s = (x, s') → advances s s'.
Proof.
  intros Hs [[_ ->]|(d & _ & _ & _ & _ & _ & _ & _ & _ & _ & ->)]%verify_outcome; by apply advances_same.
Qed.

Lemma verify_devices p o res now s x s' :
  verify hmac mux p o res now s = (x, s') → devices s' = devices s ∧ identities s' = identities s.
Proof. by intros [[_ ->]|(d & _ & _ & _ & _ & _ & _ & _ & _ & _ & ->)]%verify_outcome. Qed.

Lemma enroll_advances e p now s x s' :
  registered s → enroll hmac ed25519_ok mux e p now s = (x, s') → advances s s'.
Proof.
  intros Hs. unfold enroll. rewrite !gets_bind. m_result u1 H1; [|intros [= _ <-]; by apply advances_same].
  m_result issuer H2; [|intros [= _ <-]; by apply advances_same].
  m_result u2 H3; [|intros [= _ <-]; by apply advances_same].
  unfold mbind at 1, M_bind at 1. destruct (verify hmac mux p "device-control" None now s) as [[v|m] s0] eqn:Hv.
  2: { intros [= _ <-]. by eapply verify_advances. }
  apply verify_devices in Hv as [Hd0 Hi0].
  m_result u3 H4; [|intros [= _ <-]; by apply advances_same].
  unfold reserveDeviceId, mbind at 1, M_bind at 1.
  destruct (identities s0 !! en_targetDeviceId e) eqn:Hid; [intros [= _ <-]; by apply advances_same|].
  cbn [negb throw_if]. rewrite lift_bind. cbv zeta. set (record := Build_DeviceLifecycleRecord _ _ _ _ _ _ _ _ _).
  rewrite Hi0 in Hid. set (s1 := with_identities _ s0).
  assert (devices s1 !! (accountIdentityReference record, deviceId record) = None) as Hnone.
  { destruct (devices s1 !! _) as [y|] eqn:E; [|done]. cbn in E. rewrite Hd0 in E.
    apply (Hs (accountIdentityReference record)) in E as (_ & _ & E). cbn in E. congruence. }
  unfold mbind at 1, M_bind at 1. rewrite upsert_new by done. cbn [negb]. rewrite mret_bind.
  intros [Hd Hi]%tail_devices. apply (advances_new s s' record); [done|done| |].
  - rewrite Hd. cbn. by rewrite Hd0.
  - rewrite Hi. cbn. by rewrite Hi0.
Qed.

(** A transition of a stored record, guarded by its epoch. *)
Lemma transition_advances {A} a d t st e now rev i dev ex msg1 msg2 (y : A) s s0 x s' :
  registered s → devices s0 = devices s → identities s0 = identities s →
  devices s !! (a, d) = Some t → rank (dr_state t) < rank st → trustEpoch t < e →
  (stored ← upsert (advanced t st e now rev) (Some (trustEpoch t));
   lift (throw_if (negb stored) msg1);;
   fresh ← consume i dev ex now; lift (throw_if (negb fresh) msg2);; mret y) s0 = (x, s') → advances s s'.
Proof.
  intros Hs Hd0 Hi0 Ht Hrank He. pose proof (Hs a d t Ht) as (Ha & Hdev & _).
  unfold mbind at 1, M_bind at 1, upsert. cbn [accountIdentityReference deviceId advanced]. rewrite Ha, Hdev, Hd0, Ht, Z.eqb_refl.
  cbn [negb throw_if]. rewrite lift_bind. intros [Hd Hi]%tail_devices.
  eapply advances_update; [done|exact Ht| |rewrite Hd; reflexivity|by rewrite Hi].
  split; try done. right. split; done.
Qed.

Lemma activate_advances e now s x s' : registered s → activate ed25519_ok e now s = (x, s') → advances s s'.
Proof.
  intros Hs. unfold activate. rewrite gets_bind. m_result t H1; [|intros [= _ <-]; by apply advances_same].
  m_result u1 H2; [|intros [= _ <-]; by apply advances_same]. cbv zeta. apply require_ok in H1. guard_inv H2.
  destruct H2 as [[[[[[[Hst _] _] _] _] _] Hep%Z.eqb_eq] _].
  eapply transition_advances; [done|done|done|exact H1| |lia]. rewrite Hst. cbn. lia.
Qed.

Lemma update_advances e p now s x s' : registered s → update hmac ed25519_ok mux e p now s = (x, s') → advances s s'.
Proof.
  intros Hs. unfold update. rewrite !gets_bind. m_result i H0; [|intros [= _ <-]; by apply advances_same].
  m_result t H1; [|intros [= _ <-]; by apply advances_same].
  m_result u1 H2; [|intros [= _ <-]; by apply advances_same]. apply require_ok in H1. guard_inv H2.
  destruct H2 as [[[[[[_ Hst] _] _] _] _] _].
  unfold mbind at 1, M_bind at 1. destruct (verify hmac mux p "device-control" None now s) as [[v|m] s0] eqn:Hv.
  2: { intros [= _ <-]. by eapply verify_advances. }
  apply verify_devices in Hv as [Hd0 Hi0].
  m_result u3 H4; [|intros [= _ <-]; by apply advances_same]. cbv zeta.
  eapply transition_advances; [done|done|done|exact H1| |lia]. rewrite Hst. cbn. lia.
Qed.

Lemma issue_devices r u now s x s' :
  issue hmac ed25519_ok mux r u now s = (x, s') → devices s' = devices s ∧ identities s' = identities s.
Proof.
  unfold issue. m_result u1 H1; [|by intros [= _ <-]]. rewrite gets_bind. cbv zeta. m_result d H2; [|by intros [= _ <-]].
  m_result u3 H3; [|by intros [= _ <-]]. unfold mbind at 1, M_bind at 1.
  destruct (consume _ _ _ _ s) as [[b|m] s1] eqn:Hc; apply consume_devices in Hc as [Hd Hi]; [|by intros [= _ <-]].
  m_result u4 H4; [|by intros [= _ <-]]. intros [Hd' Hi']%tail_devices. split; congruence.
Qed.

Lemma handle_advances q now s x s' : registered s → handle hmac ed25519_ok mux q now s = (x, s') → advances s s'.
Proof.
  intros Hs. assert (∀ A (m : M trust_store A), (m;; mret tt) s = (x, s') → ∃ y, m s = (y, s')) as Hunit.
  { intros A m. unfold mbind, M_bind. destruct (m s) as [[a|e] s1]; intros [= _ <-]; by eexists. }
  destruct q; cbn [handle]; intros (y & Hy)%Hunit.
  - by eapply bootstrap_advances.
  - by eapply enroll_advances.
  - by eapply activate_advances.
  - by eapply update_advances.
  - apply issue_devices in Hy as [? ?]. by apply advances_same.
  - by eapply verify_advances.
Qed.

(** From a registered store, whatever requests the relay handles and whenever its claims expire: a device
    identifier stays with the one account it was registered to, a record keeps its identity and its
    verification key forever and only moves from pending to active to revoked, its epoch growing with
    every move; so a revoked device is never active again. *)
Theorem device_records_only_advance t s t' s' :
  registered s → rtc (relay_step hmac ed25519_ok mux) (t, s) (t', s') →
  registered s' ∧
  (∀ a d r, devices s !! (a, d) = Some r → ∃ r', devices s' !! (a, d) = Some r' ∧ later r r' ∧
    (dr_state r = revoked → dr_state r' = revoked) ∧ ∀ a2, is_Some (devices s' !! (a2, d)) → a2 = a).
Proof.
  intros Hs Hsteps. assert (advances s s') as [Hreg Hev].
  { remember (t, s) as st eqn:E1. remember (t', s') as st' eqn:E2. revert t s E1 Hs.
    induction Hsteps as [st|st st1 st2 Hstep _ IH]; intros t s -> Hs.
    - injection E2 as -> ->. by apply advances_same.
    - assert (∃ t1 s1, st1 = (t1, s1) ∧ advances s s1) as (t1 & s1 & -> & [Hr1 He1]).
      { inversion Hstep; subst; do 2 eexists; (split; [done|]); [by eapply handle_advances|by apply advances_same]. }
      destruct (IH E2 t1 s1 eq_refl Hr1) as [Hr2 He2]. split; [done|]. intros k r Hk.
      destruct (He1 k r Hk) as (r1 & Hk1 & Hl1). destruct (He2 k r1 Hk1) as (r2 & Hk2 & Hl2).
      exists r2. split; [done|]. by eapply later_trans. }
  split; [done|]. intros a d r Hr. destruct (Hev (a, d) r Hr) as (r' & Hr' & Hl). exists r'. split_and!; [done|done| |].
  - intros Hrev. destruct (la_state _ _ Hl) as [[-> _]|[Hlt _]]; [done|]. rewrite Hrev in Hlt.
    destruct (dr_state r'); cbn in Hlt; lia.
  - intros a2 [x Hx]. apply Hreg in Hx as (_ & _ & Hx), Hr' as (_ & _ & Hr'). congruence.
Qed.
End evolution.

(** ** A device that registers and signals *)
Definition any_hmac (_ : string) : string := "signature".
Definition any_ed25519 (_ _ _ : string) : bool := true.
Definition sample_bootstrap : BootstrapRequest :=
  {| bs_version := 1; bs_requestId := "00000000-0000-4000-8000-000000000001";
     bs_deviceId := "00000000-0000-4000-8000-00000000000a"; bs_identity := "K3 a";
     bs_key := "0000000000000000000000000000000000000000000"; bs_fingerprint := "K3 a"; bs_createdAt := 1; bs_expiresAt := 1000;
     bs_nonce := "0123456789abcdef"; bs_signature := "s" |}.
Definition empty_store : trust_store := {| devices := ∅; proofs := ∅; identities := ∅ |}.
Definition booted : trust_store := (handle any_hmac any_ed25519 false (Bootstrap sample_bootstrap "u") 5 empty_store).2.
Definition sample_proof : DeviceAuthorizationProof :=
  {| pr_proofId := "p"; pr_account := "account-u"; pr_deviceId := "00000000-0000-4000-8000-00000000000a"; pr_identity := "K3 a";
     pr_operation := "relay:signal"; pr_trustEpoch := 1; pr_nonce := "n"; pr_resource := None; pr_issuedAt := 5;
     pr_expiresAt := 100; pr_signature := "signature" |}.
Definition sample_device : DeviceLifecycleRecord :=
  {| accountIdentityReference := "account-u"; deviceId := "00000000-0000-4000-8000-00000000000a";
     deviceIdentityReference := "K3 a"; verificationKeyReference := "0000000000000000000000000000000000000000000";
     dr_state := active; trustEpoch := 1; createdAt := 5; revokedAt := None; lastTrustUpdate := 5 |}.
Definition verified_store : trust_store := (verify any_hmac false sample_proof "relay:signal" None 6 booted).2.

Lemma sample_proof_accepted : verify any_hmac false sample_proof "relay:signal" None 6 booted = (Ok sample_device, verified_store).
Proof.
  assert ((verify any_hmac false sample_proof "relay:signal" None 6 booted).1 = Ok sample_device) as H
    by (vm_compute; reflexivity).
  unfold verified_store. by destruct (verify any_hmac false sample_proof "relay:signal" None 6 booted) as [x s] eqn:E; cbn in H; subst.
Qed.

Lemma proof_accepted_at_most_once_witness :
  is_ok (verify any_hmac false sample_proof "relay:signal" None 7 verified_store).1 = false.
Proof.
  apply (proof_accepted_at_most_once any_hmac any_ed25519 false sample_proof "relay:signal" None 6 booted sample_device
    verified_store 6 verified_store "relay:signal" None 7); [|apply rtc_refl|lia].
  exact sample_proof_accepted.
Defined.

Lemma device_records_only_advance_witness : registered empty_store ∧ registered booted.
Proof.
  assert (registered empty_store) as He by (intros a d r; cbn; rewrite lookup_empty; discriminate).
  split; [exact He|].
  apply (device_records_only_advance any_hmac any_ed25519 false 5 empty_store 5 booted He).
  apply rtc_once. eapply (step_request any_hmac any_ed25519 false (Bootstrap sample_bootstrap "u") 5 5); [lia|].
  apply surjective_pairing.
Defined.
