(* ===== verification/Rooms.v ===== *)
(** * The relay's rooms, invitations and pre-key publications
    ([backend/api/chatHash/*.ts], [backend/security/controlCapability.ts], the room part of [backend/db])

    The HTTP handlers as functions from a request and the in-memory database to a response and the new
    database. [now] is the clock of the request, [uuid] and [proof] the random values it draws. In the
    in-memory mode the durable routing store is absent. SHA-256 is a parameter. *)
From S2P Require Import Prelude Json CallSignaling.

(** ** Data *)
(* backend/api/chatHash/utils/link.ts:5-12 LinkType *)
Record LinkType := {
  hash : string; expired : bool; deleted : bool; controlCapabilityHash : string;
  invitationExpiresAt : option Z; invitationPublications : option Z }.
(** A pre-key publication. *)
Record Publication := {
  p_channel : string; p_address : string; bundle : list (string * jsval); renewalProofHash : string; p_createdAt : Z;
  p_expiresAt : Z }.
Record relay_db := { rooms : list LinkType; publications : list Publication }.

(** A response: its status and its body. *)
Definition response : Type := Z * jsval.
Definition error (status : Z) (msg : string) : response := (status, JObj [("error", JStr msg)]).

Definition set_rooms (l : list LinkType) (s : relay_db) : relay_db := {| rooms := l; publications := publications s |}.
Definition set_publications (l : list Publication) (s : relay_db) : relay_db := {| rooms := rooms s; publications := l |}.

(** ** The in-memory collections *)
(** A condition value must be truthy to match. *)
(* backend/db/inMemDB.ts:2-9 findOneFromArr *)
Definition field_matches (condition value : string) : bool := nonempty condition && String.eqb value condition.

Definition is_room (channel : string) (r : LinkType) : bool := field_matches channel (hash r).
Definition is_publication (channel address : string) (p : Publication) : bool :=
  field_matches channel (p_channel p) && field_matches address (p_address p).

(* backend/db/inMemDB.ts:25-31 findOneFromDB *)
Definition find_room (channel : string) (s : relay_db) : option LinkType := js_find (is_room channel) (rooms s).
Definition find_publication (channel address : string) (s : relay_db) : option Publication :=
  js_find (is_publication channel address) (publications s).
(* backend/db/inMemDB.ts:14-24 insertInDb *)
Definition insert_room (r : LinkType) (s : relay_db) : relay_db := set_rooms (rooms s ++ [r]) s.
Definition insert_publication (p : Publication) (s : relay_db) : relay_db := set_publications (publications s ++ [p]) s.
(* backend/db/inMemDB.ts:32-49 updateOneFromDb *)
Definition update_room (channel : string) (f : LinkType → LinkType) (s : relay_db) : relay_db :=
  set_rooms (update_first (is_room channel) f (rooms s)) s.
Definition update_publication (channel address : string) (f : Publication → Publication) (s : relay_db) : relay_db :=
  set_publications (update_first (is_publication channel address) f (publications s)) s.

Definition one_time_keys (b : list (string * jsval)) : list jsval := default [] (as_array (get b "oneTimeKeys")).
Definition key_is (id : string) (k : jsval) : bool := bool_decide (oprop k "id" = JStr id).
Definition offers (channel address keyId : string) (now : Z) (p : Publication) : bool :=
  String.eqb (p_channel p) channel && String.eqb (p_address p) address && (now <? p_expiresAt p) &&
  existsb (key_is keyId) (one_time_keys (bundle p)).
Definition without_key (keyId : string) (p : Publication) : Publication :=
  {| p_channel := p_channel p; p_address := p_address p;
     bundle := set_key (bundle p) "oneTimeKeys" (JArr (remove_first (key_is keyId) (one_time_keys (bundle p))));
     renewalProofHash := renewalProofHash p; p_createdAt := p_createdAt p; p_expiresAt := p_expiresAt p |}.

(* backend/db/inMemDB.ts:52-64 claimOneTimeKey *)
Definition claimOneTimeKey (channel address keyId : string) (now : Z) (s : relay_db) : option jsval * relay_db :=
  match js_find (offers channel address keyId now) (publications s) with
  | None => (None, s)
  | Some p => (js_find (key_is keyId) (one_time_keys (bundle p)),
               set_publications (update_first (offers channel address keyId now) (without_key keyId) (publications s)) s)
  end.

(* backend/db/inMemDB.ts:66-73 deleteExpiredPrekeyBundles *)
Definition deleteExpiredPrekeyBundles (now : Z) (s : relay_db) : relay_db :=
  set_publications (List.filter (λ p, now <? p_expiresAt p) (publications s)) s.

(** ** Invitations *)
(* backend/db/index.ts:96-106 reserveInvitationPublication, in-memory branch *)
Definition reserveInvitationPublication (channel : string) (now : Z) (s : relay_db) : bool * relay_db :=
  match find_room channel s with
  | None => (false, s)
  | Some room =>
      if deleted room || expired room then (false, s) else
      match invitationExpiresAt room with
      | None => (true, s)
      | Some e =>
          match invitationPublications room with
          | Some n =>
              if (e <=? now) || negb (isSafeInteger n) || (2 <=? n) then (false, s) else
              (true, update_room channel (λ r,
                 {| hash := hash r; expired := expired r; deleted := deleted r; controlCapabilityHash := controlCapabilityHash r;
                    invitationExpiresAt := invitationExpiresAt r; invitationPublications := Some (n + 1) |}) s)
          | None => (false, s)
          end
      end
  end.

Definition mark_deleted (r : LinkType) : LinkType :=
  {| hash := hash r; expired := expired r; deleted := true; controlCapabilityHash := controlCapabilityHash r;
     invitationExpiresAt := invitationExpiresAt r; invitationPublications := invitationPublications r |}.

(* backend/db/index.ts:119-130 revokePendingInvitation, in-memory branch *)
Definition revokePendingInvitation (channel : string) (s : relay_db) : bool * relay_db :=
  match find_room channel s with
  | None => (false, s)
  | Some room =>
      if deleted room || expired room then (false, s) else
      match invitationExpiresAt room, invitationPublications room with
      | Some _, Some n =>
          if negb (isSafeInteger n) || (n <? 0) || (2 <=? n) then (false, s)
          else (true, update_room channel mark_deleted s)
      | _, _ => (false, s)
      end
  end.

(* backend/api/chatHash/utils/validateChannel.ts:5-10 CHANNEL_STATE *)
Inductive CHANNEL_STATE := NOT_FOUND | ACTIVE | DELETED | EXPIRED.
#[export] Instance CHANNEL_STATE_eq_dec : EqDecision CHANNEL_STATE.
Proof. solve_decision. Defined.
Definition state_text (s : CHANNEL_STATE) : string :=
  match s with NOT_FOUND => "NOT_FOUND" | ACTIVE => "ACTIVE" | DELETED => "DELETED" | EXPIRED => "EXPIRED" end.

(* backend/api/chatHash/utils/validateChannel.ts:17-39 channelValid *)
Definition channelValid (channel : string) (s : relay_db) : bool * CHANNEL_STATE :=
  match find_room channel s with
  | None => (false, NOT_FOUND)
  | Some r => if deleted r then (false, DELETED) else if expired r then (false, EXPIRED) else (true, ACTIVE)
  end.

(** ** Control capabilities *)
(* backend/security/controlCapability.ts:12-16 isValidRoomId, isValidControlCapability *)
Definition isValidRoomId (s : string) : bool := uuid_strict s.
Definition isValidControlCapability (s : option string) : bool :=
  match s with Some c => base64url_between 43 43 c | None => false end.
(* backend/security/controlCapability.ts:19-20 isValidControlCapabilityHash *)
Definition isValidControlCapabilityHash (v : jsval) : bool := match v with JStr s => hex64 s | _ => false end.

Section handlers.
Context (sha256_hex : string → string) (production : bool).

(* backend/security/controlCapability.ts:22-23 hashControlCapability *)
Definition hashControlCapability (capability : string) : string := sha256_hex capability.

(* backend/security/controlCapability.ts:34-42 authorizeRoomControl *)
Definition authorizeRoomControl (channel capability : string) (s : relay_db) : option LinkType :=
  match find_room channel s with
  | Some room =>
      if negb (hex64 (controlCapabilityHash room)) then None
      else if String.eqb (hashControlCapability capability) (controlCapabilityHash room) then Some room else None
  | None => None
  end.

(* backend/api/chatHash/utils/link.ts:22-37 generateHash *)
Definition generateHash (capabilityHash uuid : string) (now : Z) : LinkType :=
  {| hash := uuid; expired := false; deleted := false; controlCapabilityHash := capabilityHash;
     invitationExpiresAt := Some (now + 24 * 60 * 60 * 1000); invitationPublications := Some 0 |}.

(* backend/db/storageCaps.ts:9-14 STORAGE_CAPS, STORAGE_FULL_MESSAGE *)
Definition STORAGE_CAPS_rooms : Z := 10000.
Definition STORAGE_FULL_MESSAGE : string := "K3NCRYPT is full right now. Try again later.".
(** The in-memory collections are not counted. *)
(* backend/db/index.ts:269-269 collectionCount *)
Definition collectionCount (_ : relay_db) : Z := 0.

(* backend/api/chatHash/index.ts:25-41 router, create *)
Definition create_room (body : list (string * jsval)) (uuid : string) (now : Z) (s : relay_db) : response * relay_db :=
  match get body "controlCapabilityHash" with
  | JStr h =>
      if existsb (λ k, negb (String.eqb k "controlCapabilityHash")) (keys body) || negb (hex64 h)
      then (error 400 "Invalid control capability verifier", s)
      else if STORAGE_CAPS_rooms <=? collectionCount s then (error 503 STORAGE_FULL_MESSAGE, s)
      else ((200, JObj [("hash", JStr uuid); ("expired", JBool false); ("deleted", JBool false)]),
            insert_room (generateHash h uuid now) s)
  | _ => (error 400 "Invalid control capability verifier", s)
  end.

(* backend/api/chatHash/index.ts:42-70 router, status *)
Definition room_status (channel : string) (capability : option string) (s : relay_db) : response :=
  if negb (isValidRoomId channel) || negb (isValidControlCapability capability) then error 400 "Malformed room control request" else
  match authorizeRoomControl channel (default "" capability) s with
  | None => error 401 "Unauthorized room control capability"
  | Some record =>
      let '(valid, st) := channelValid channel s in
      if negb valid then
        match st with
        | DELETED => (410, JObj [("error", JStr "Channel deleted"); ("state", JStr (state_text st))])
        | _ => (404, JObj [("error", JStr "Invalid channel"); ("state", JStr (state_text st))])
        end
      else (200, obj [("status", Some (JStr "ok")); ("state", Some (JStr (state_text st)));
        ("invitation", e ← invitationExpiresAt record;
           Some (JObj [("expiresAt", JNum (NInt e));
             ("revocable", JBool (match invitationPublications record with
                                  | Some n => isSafeInteger n && (0 <=? n) && (n <? 2) | None => false end))]))])
  end.

(** [pendingInvitation] is the query parameter of that name. *)
(* backend/api/chatHash/index.ts:71-98 router, delete *)
Definition delete_room (channel : string) (capability pendingInvitation : option string) (s : relay_db) : response * relay_db :=
  if negb (isValidRoomId channel) || negb (isValidControlCapability capability)
  then (error 400 "Malformed room control request", s) else
  if bool_decide (authorizeRoomControl channel (default "" capability) s = None)
  then (error 401 "Unauthorized room control capability", s) else
  match (channelValid channel s).2 with
  | DELETED | NOT_FOUND => (error 404 "Invalid channel", s)
  | _ =>
      match pendingInvitation with
      | Some q =>
          if negb (String.eqb q "true") then (error 400 "Invalid pending invitation operation", s) else
          let '(ok, s') := revokePendingInvitation channel s in
          if ok then ((200, JObj [("status", JStr "ok")]), s')
          else (error 409 "Invitation is joined or its pending state cannot be established safely.", s')
      | None => ((200, JObj [("status", JStr "ok")]), update_room channel mark_deleted s)
      end
  end.

(** ** Pre-key publications *)
(* backend/api/chatHash/prekeys.ts:14-21 MAX_BUNDLE_BYTES, MAX_KEYS, PREKEY_BUNDLE_TTL_MS *)
Definition MAX_BUNDLE_BYTES : Z := 32 * 1024.
Definition MAX_KEYS : Z := 100.
Definition PREKEY_BUNDLE_TTL_MS : Z := 7 * 24 * 60 * 60 * 1000.

(* backend/api/chatHash/prekeys.ts:22-22 proofHash *)
Definition proofHash (proof : string) : string := sha256_hex ("k3ncrypt-prekey-renewal-v1" +:+ str1 0 +:+ proof).
(* backend/api/chatHash/prekeys.ts:23-28 proofMatches *)
Definition proofMatches (proof : option string) (expected : string) : bool :=
  match proof with
  | Some p => base64url_between 43 43 p && hex64 expected && String.eqb (proofHash p) expected
  | None => false
  end.

(* backend/api/chatHash/prekeys.ts:30-31 exactKeys *)
Definition exactKeys (fs : list (string * jsval)) (expected : list string) : bool :=
  String.eqb (String.concat (str1 0) (js_sort string_cmp (keys fs))) (String.concat (str1 0) (js_sort string_cmp expected)).
(* backend/api/chatHash/prekeys.ts:33-33 validKey *)
Definition validKey (v : jsval) : bool := match v with JStr s => base64url_between 43 43 s | _ => false end.

(** A key entry of a bundle, with its identifier. *)
Definition key_entry (v : jsval) : option string :=
  match v with
  | JObj fs =>
      match get fs "id" with
      | JStr id => if exactKeys fs ["id"; "key"] && base64url_between 8 128 id && validKey (get fs "key") then Some id else None
      | _ => None
      end
  | _ => None
  end.
Fixpoint valid_keys (seen : list string) (l : list jsval) : option (list string) :=
  match l with
  | [] => Some seen
  | v :: l' => id ← key_entry v; if existsb (String.eqb id) seen then None else valid_keys (id :: seen) l'
  end.

(* backend/api/chatHash/prekeys.ts:35-56 validBundle *)
Definition validBundle (value : jsval) : bool :=
  match value with
  | JObj b =>
      (strlen (stringify value) <=? MAX_BUNDLE_BYTES) &&
      (exactKeys b ["fallbackKey"; "identity"; "oneTimeKeys"; "protocol"; "version"] ||
       exactKeys b ["identity"; "oneTimeKeys"; "protocol"; "version"]) &&
      bool_decide (get b "version" = JNum (NInt 1)) && bool_decide (get b "protocol" = JStr "vodozemac-olm-v1") &&
      match as_array (get b "oneTimeKeys") with
      | None => false
      | Some l =>
          (Z.of_nat (length l) <=? MAX_KEYS) &&
          match get b "identity" with
          | JObj i => exactKeys i ["curve25519"; "ed25519"] && validKey (get i "curve25519") && validKey (get i "ed25519")
          | _ => false
          end &&
          match valid_keys [] l with
          | None => false
          | Some ids =>
              match get b "fallbackKey" with
              | JUndef => true
              | f => match key_entry f with Some id => negb (existsb (String.eqb id) ids) | None => false end
              end
          end
      end
  | _ => false
  end.

(* backend/api/chatHash/prekeys.ts:58-62 authorize *)
Definition authorize (channel : string) (capability : option string) (s : relay_db) : bool :=
  isValidRoomId channel && isValidControlCapability capability &&
  match authorizeRoomControl channel (default "" capability) s with
  | Some room => negb (deleted room) && negb (expired room)
  | None => false
  end.

(* backend/db/index.ts:94-94 prekeyStorageReady *)
Definition ready : bool := negb production.
Definition UNAVAILABLE : string := "Pre-key bundle unavailable".
Definition fields_of (v : jsval) : list (string * jsval) := default [] (as_object v).

(* backend/api/chatHash/prekeys.ts:66-77 router, publish *)
Definition publish (channel : string) (capability : option string) (body : jsval) (uuid proof : string) (now : Z)
    (s : relay_db) : response * relay_db :=
  if negb ready then (error 503 "Modern pre-key storage is unavailable", s) else
  let s := deleteExpiredPrekeyBundles now s in
  if negb (authorize channel capability s) || negb (validBundle body) then (error 400 "Invalid pre-key bundle", s) else
  let '(ok, s) := reserveInvitationPublication channel now s in
  if negb ok then (error 410 "Invitation expired or already accepted", s) else
  ((201, JObj [("address", JStr uuid); ("renewalProof", JStr proof)]),
   insert_publication {| p_channel := channel; p_address := uuid; bundle := fields_of body; renewalProofHash := proofHash proof;
                         p_createdAt := now; p_expiresAt := now + PREKEY_BUNDLE_TTL_MS |} s).

(* backend/api/chatHash/prekeys.ts:79-88 router, read *)
Definition read_bundle (channel address : string) (capability : option string) (now : Z) (s : relay_db) : response * relay_db :=
  if negb ready then (error 503 "Modern pre-key storage is unavailable", s) else
  let s := deleteExpiredPrekeyBundles now s in
  if negb (uuid_loose address) || negb (authorize channel capability s) then (error 404 UNAVAILABLE, s) else
  match find_publication channel address s with
  | Some p => if now <? p_expiresAt p then ((200, JObj (bundle p)), s) else (error 404 UNAVAILABLE, s)
  | None => (error 404 UNAVAILABLE, s)
  end.

Definition identity_keys (b : list (string * jsval)) : jsval * jsval :=
  (oprop (get b "identity") "curve25519", oprop (get b "identity") "ed25519").

(* backend/api/chatHash/prekeys.ts:90-112 router, renew *)
Definition renew (channel address : string) (capability renewalProof : option string) (body : jsval) (now : Z)
    (s : relay_db) : response * relay_db :=
  if negb ready then (error 503 "Modern pre-key storage is unavailable", s) else
  let s := deleteExpiredPrekeyBundles now s in
  if negb (uuid_loose address) || negb (authorize channel capability s) || negb (validBundle body)
  then (error 404 UNAVAILABLE, s) else
  match find_publication channel address s with
  | None => (error 403 "Pre-key renewal rejected", s)
  | Some existing =>
      if negb (proofMatches renewalProof (renewalProofHash existing)) || negb (truthy (get (bundle existing) "identity")) ||
         negb (truthy (get (fields_of body) "identity")) ||
         negb (bool_decide (identity_keys (bundle existing) = identity_keys (fields_of body)))
      then (error 403 "Pre-key renewal rejected", s)
      else ((200, JObj [("status", JStr "renewed")]), update_publication channel address (λ p,
        {| p_channel := p_channel p; p_address := p_address p; bundle := fields_of body; renewalProofHash := renewalProofHash p;
           p_createdAt := now; p_expiresAt := now + PREKEY_BUNDLE_TTL_MS |}) s)
  end.

(* backend/api/chatHash/prekeys.ts:114-126 router, claim *)
Definition claim (channel address : string) (capability : option string) (keyId : jsval) (now : Z) (s : relay_db)
    : response * relay_db :=
  if negb ready then (error 503 "Modern pre-key storage is unavailable", s) else
  let s := deleteExpiredPrekeyBundles now s in
  match keyId with
  | JStr id =>
      if negb (uuid_loose address) || negb (base64url_between 8 128 id) || negb (authorize channel capability s)
      then (error 404 "Pre-key unavailable", s) else
      let '(claimed, s) := claimOneTimeKey channel address id now s in
      match claimed with Some k => ((200, k), s) | None => (error 409 "Pre-key unavailable", s) end
  | _ => (error 404 "Pre-key unavailable", s)
  end.
End handlers.

(** ** Sequences of requests *)
Inductive request :=
| RCreate (body : list (string * jsval)) (uuid : string)
| RStatus (channel : string) (capability : option string)
| RDelete (channel : string) (capability pending : option string)
| RPublish (channel : string) (capability : option string) (body : jsval) (uuid proof : string)
| RRead (channel address : string) (capability : option string)
| RRenew (channel address : string) (capability renewalProof : option string) (body : jsval)
| RClaim (channel address : string) (capability : option string) (keyId : jsval).

Section sequences.
Context (sha256_hex : string → string) (production : bool).

Definition serve (r : request) (now : Z) (s : relay_db) : response * relay_db :=
  match r with
  | RCreate body uuid => create_room body uuid now s
  | RStatus ch cap => (room_status sha256_hex ch cap s, s)
  | RDelete ch cap pending => delete_room sha256_hex ch cap pending s
  | RPublish ch cap body uuid proof => publish sha256_hex production ch cap body uuid proof now s
  | RRead ch addr cap => read_bundle sha256_hex production ch addr cap now s
  | RRenew ch addr cap proof body => renew sha256_hex production ch addr cap proof body now s
  | RClaim ch addr cap key => claim sha256_hex production ch addr cap key now s
  end.

(** What a client sees: its request and the status of the response. *)
Fixpoint serve_all (l : list (request * Z)) (s : relay_db) : list (request * Z) * relay_db :=
  match l with
  | [] => ([], s)
  | (r, now) :: l' =>
      let '((status, _), s1) := serve r now s in
      let '(log, s2) := serve_all l' s1 in ((r, status) :: log, s2)
  end.

Definition published (ch : string) (e : request * Z) : bool :=
  match e with (RPublish c _ _ _ _, 201) => String.eqb c ch | _ => false end.
Definition revoked_pending (ch : string) (e : request * Z) : bool :=
  match e with (RDelete c _ (Some _), 200) => String.eqb c ch | _ => false end.
Definition closed (ch : string) (e : request * Z) : bool :=
  match e with (RDelete c _ _, 200) => String.eqb c ch | _ => false end.
Definition claimed (ch addr id : string) (e : request * Z) : bool :=
  match e with (RClaim c a _ (JStr k), 200) => String.eqb c ch && String.eqb a addr && String.eqb k id | _ => false end.
Definition renewed (ch addr : string) (e : request * Z) : bool :=
  match e with (RRenew c a _ _ _, 200) => String.eqb c ch && String.eqb a addr | _ => false end.
Definition count (f : request * Z → bool) (log : list (request * Z)) : Z := Z.of_nat (length (List.filter f log)).
End sequences.

(** The addresses a list of requests would publish at. *)
Definition drawn (l : list (request * Z)) : list string :=
  omap (λ e, match e.1 with RPublish _ _ _ uuid _ => Some uuid | _ => None end) l.

Definition relay_empty : relay_db := {| rooms := []; publications := [] |}.

(** ** What a request does to one room *)
Lemma is_room_iff ch r : is_room ch r = true ↔ ch ≠ "" ∧ hash r = ch.
Proof. unfold is_room, field_matches. rewrite andb_true_iff, nonempty_true, String.eqb_eq. naive_solver. Qed.

Lemma find_room_insert ch r s :
  find_room ch (insert_room r s) =
  match find_room ch s with Some x => Some x | None => if is_room ch r then Some r else None end.
Proof.
  unfold find_room, js_find. simpl. induction (rooms s) as [|x l IH]; simpl; [by destruct (is_room ch r)|].
  by destruct (is_room ch x).
Qed.

Lemma find_room_update ch c f s :
  (∀ r, hash (f r) = hash r) →
  find_room ch (update_room c f s) = if String.eqb c ch then f <$> find_room ch s else find_room ch s.
Proof.
  intros Hf. unfold find_room, js_find, update_room. simpl.
  assert (∀ x r, is_room x (f r) = is_room x r) as Hr by (intros x r; unfold is_room; by rewrite Hf).
  destruct (String.eqb_spec c ch) as [->|Hne].
  - induction (rooms s) as [|x l IH]; simpl; [done|].
    destruct (is_room ch x) eqn:E; simpl; [by rewrite Hr, E|]. by rewrite E.
  - induction (rooms s) as [|x l IH]; simpl; [done|].
    destruct (is_room c x) eqn:E; simpl; [|by destruct (is_room ch x)].
    rewrite Hr. destruct (is_room ch x) eqn:E'; [|done].
    apply is_room_iff in E as [_ E], E' as [_ E']. congruence.
Qed.

Definition joined_once_more (r : LinkType) : LinkType :=
  {| hash := hash r; expired := expired r; deleted := deleted r; controlCapabilityHash := controlCapabilityHash r;
     invitationExpiresAt := invitationExpiresAt r; invitationPublications := Z.succ <$> invitationPublications r |}.

(** [room_move o (publishes, closes, revokes) o']: a request that publishes in the room, closes it, revokes its
    pending invitation, or does none of these, takes the room from [o] to [o']. *)
Inductive room_move : option LinkType → bool * bool * bool → option LinkType → Prop :=
| move_other o : room_move o (false, false, false) o
| move_create h ch now : room_move None (false, false, false) (Some (generateHash h ch now))
| move_publish r n : deleted r = false → invitationPublications r = Some n → n < 2 →
    room_move (Some r) (true, false, false) (Some (joined_once_more r))
| move_publish_unbounded r : deleted r = false → invitationExpiresAt r = None → room_move (Some r) (true, false, false) (Some r)
| move_close r : room_move (Some r) (false, true, false) (Some (mark_deleted r))
| move_revoke r n : deleted r = false → invitationPublications r = Some n → n < 2 →
    room_move (Some r) (false, true, true) (Some (mark_deleted r)).

Definition flags (ch : string) (e : request * Z) : bool * bool * bool := (published ch e, closed ch e, revoked_pending ch e).

Lemma flags_failed ch r st : st ≠ 200 → st ≠ 201 → flags ch (r, st) = (false, false, false).
Proof. intros H1 H2. unfold flags, published, closed, revoked_pending. by repeat (case_match; simplify_eq). Qed.

Lemma failed_moves ch r st o : st ≠ 200 → st ≠ 201 → room_move o (flags ch (r, st)) o.
Proof. intros. rewrite flags_failed by done. constructor. Qed.

Lemma reserve_room ch c now s ok s' :
  reserveInvitationPublication c now s = (ok, s') →
  if ok then room_move (find_room c s) (true, false, false) (find_room c s') ∧
    (c ≠ ch → find_room ch s' = find_room ch s)
  else s' = s.
Proof.
  unfold reserveInvitationPublication. destruct (find_room c s) as [r|] eqn:E; [|by intros [= <- <-]].
  destruct (deleted r) eqn:Ed; [by intros [= <- <-]|]. destruct (expired r); simpl; [by intros [= <- <-]|].
  destruct (invitationExpiresAt r) eqn:Ee; [|intros [= <- <-]; rewrite E; split; [by constructor|done]].
  destruct (invitationPublications r) as [n|] eqn:En; [|by intros [= <- <-]].
  destruct (_ || _) eqn:G; intros [= <- <-]; [done|]. rewrite !orb_false_iff in G.
  rewrite !find_room_update by done. rewrite String.eqb_refl, E. split.
  - simpl. match goal with |- room_move _ _ (Some ?x) => assert (x = joined_once_more r) as -> end.
    { unfold joined_once_more. by rewrite En. }
    apply (move_publish r n); [done|done|lia].
  - intros Hc. by rewrite (proj2 (String.eqb_neq _ _) Hc).
Qed.

Section one_room.
Context (sha256_hex : string → string) (production : bool) (ch : string).
Notation serve := (serve sha256_hex production).

Lemma delete_room_moves c cap pending s st b s' :
  delete_room sha256_hex c cap pending s = ((st, b), s') →
  room_move (find_room ch s) (flags ch (RDelete c cap pending, st)) (find_room ch s').
Proof.
  unfold delete_room. do 2 (case_if; [intros [= <- _ <-]; by apply failed_moves|]).
  unfold channelValid. destruct (find_room c s) as [r|] eqn:Er; simpl; [|intros [= <- _ <-]; by apply failed_moves].
  destruct (deleted r) eqn:Ed; simpl; [intros [= <- _ <-]; by apply failed_moves|].
  assert (∀ fl, room_move (Some r) (false, true, fl) (Some (mark_deleted r)) →
    room_move (find_room ch s) (false, String.eqb c ch, if String.eqb c ch then fl else false)
      (find_room ch (update_room c mark_deleted s))) as Hup.
  { intros fl Hm. rewrite find_room_update by done. destruct (String.eqb_spec c ch) as [<-|]; [by rewrite Er|constructor]. }
  destruct pending as [q|].
  2: { destruct (expired r); intros [= <- _ <-]; unfold flags; simpl;
       specialize (Hup false); (destruct (String.eqb c ch); apply Hup; constructor). }
  unfold revokePendingInvitation. rewrite Er, Ed. simpl.
  destruct (expired r) eqn:Ex; simpl; (destruct (String.eqb q "true"); simpl; [|intros [= <- _ <-]; by apply failed_moves]);
    [intros [= <- _ <-]; by apply failed_moves|].
  destruct (invitationExpiresAt r); [|intros [= <- _ <-]; by apply failed_moves].
  destruct (invitationPublications r) as [n|] eqn:En; [|intros [= <- _ <-]; by apply failed_moves].
  clear E E0. case_if; simpl; intros [= <- _ <-]; [by apply failed_moves|].
  rewrite !orb_false_iff in E. specialize (Hup true). unfold flags. simpl.
  destruct (String.eqb c ch); apply Hup; apply (move_revoke r n); (done || lia).
Qed.

Lemma serve_moves r now s st b s' :
  serve r now s = ((st, b), s') → room_move (find_room ch s) (flags ch (r, st)) (find_room ch s').
Proof.
  destruct r as [body uuid|c cap|c cap pending|c cap body uuid proof|c addr cap|c addr cap proof body|c addr cap key].
  all: unfold serve.
  - unfold create_room. destruct (get body _) as [| | | |h| |]; try (intros [= <- _ <-]; by apply failed_moves).
    case_if; [intros [= <- _ <-]; by apply failed_moves|]. intros [= <- _ <-].
    change (flags ch _) with (false, false, false). rewrite find_room_insert.
    destruct (find_room ch s); [constructor|]. case_if; constructor.
  - intros [= E <-]. replace (flags _ _) with (false, false, false) by (unfold flags; simpl; by repeat case_match). constructor.
  - apply delete_room_moves.
  - unfold publish. case_if; [intros [= <- _ <-]; by apply failed_moves|].
    case_if; [intros [= <- _ <-]; by apply failed_moves|].
    destruct (reserveInvitationPublication _ _ _) as [ok s1] eqn:Er. apply (reserve_room ch) in Er.
    destruct ok; simpl; [|subst; intros [= <- _ <-]; by apply failed_moves].
    intros [= <- _ <-]. unfold flags. simpl. destruct Er as [Hm Hne].
    change (find_room ch (insert_publication _ s1)) with (find_room ch s1).
    destruct (String.eqb_spec c ch) as [<-|Hc]; [done|]. rewrite Hne by done. constructor.
  - unfold read_bundle. intros E. replace (find_room ch s') with (find_room ch s); [|by repeat case_match; simplify_eq].
    replace (flags _ _) with (false, false, false) by (unfold flags; simpl; by repeat case_match). constructor.
  - unfold renew. intros E. replace (find_room ch s') with (find_room ch s); [|by repeat case_match; simplify_eq].
    replace (flags _ _) with (false, false, false) by (unfold flags; simpl; by repeat case_match). constructor.
  - unfold claim, claimOneTimeKey. intros E.
    replace (find_room ch s') with (find_room ch s); [|by repeat case_match; simplify_eq].
    replace (flags _ _) with (false, false, false) by (unfold flags; simpl; by repeat case_match). constructor.
Qed.
End one_room.

(** ** Invitations *)
Lemma count_app f l1 l2 : count f (l1 ++ l2) = count f l1 + count f l2.
Proof. unfold count. rewrite List.filter_app, length_app. lia. Qed.
Lemma count_cons f e l : count f (e :: l) = (if f e then 1 else 0) + count f l.
Proof. unfold count. simpl. destruct (f e); simpl; lia. Qed.
Lemma count_nonneg f l : 0 ≤ count f l.
Proof. unfold count. lia. Qed.

(** What the room's record says about the requests served so far. *)
Definition room_history (ch : string) (log : list (request * Z)) (o : option LinkType) : Prop :=
  match o with
  | None => count (published ch) log = 0 ∧ count (closed ch) log = 0 ∧ count (revoked_pending ch) log = 0
  | Some r => invitationExpiresAt r ≠ None ∧ ∃ n, invitationPublications r = Some n ∧ count (published ch) log ≤ n ≤ 2 ∧
      (0 < count (closed ch) log → deleted r = true) ∧ (0 < count (revoked_pending ch) log → deleted r = true ∧ n < 2)
  end.

Lemma room_history_step ch log o o' e :
  room_history ch log o → room_move o (flags ch e) o' →
  room_history ch (log ++ [e]) o' ∧ (published ch e = true → count (closed ch) log = 0).
Proof.
  unfold flags. remember (published ch e, _, _) as fl eqn:Hfl. intros Ho Hm.
  assert (∀ f, count f (log ++ [e]) = count f log + if f e then 1 else 0) as Hc.
  { intros f. rewrite count_app, count_cons. change (count f []) with 0. lia. }
  unfold room_history in *. rewrite !Hc. clear Hc. pose proof (count_nonneg (closed ch) log).
  destruct Hm as [o|h c now|r n Hd Hn Hlt|r Hd He|r|r n Hd Hn Hlt]; injection Hfl as <- <- <-.
  - rewrite !Z.add_0_r. by split.
  - simpl. destruct Ho as (-> & -> & ->). split; [|done]. split; [done|]. exists 0. split_and!; (done || lia).
  - destruct Ho as (He & m & Hm & Hb & Hcl & Hrv). assert (m = n) as -> by congruence. rewrite Hd in Hcl, Hrv. split.
    + split; [done|]. exists (n + 1). simpl. rewrite Hn, Hd. split_and!; [simpl; f_equal; lia|lia|lia|..].
      * intros. apply Hcl. lia.
      * intros. destruct Hrv; [lia|done].
    + intros _. destruct (decide (0 < count (closed ch) log)) as [Hc|]; [by specialize (Hcl Hc)|lia].
  - by destruct Ho.
  - destruct Ho as (He & m & Hm & Hb & Hcl & Hrv). split; [|done]. split; [done|]. exists m. simpl.
    rewrite !Z.add_0_r. split_and!; try done; lia.
  - destruct Ho as (He & m & Hm & Hb & Hcl & Hrv). split; [|done]. split; [done|].
    exists m. simpl. assert (m = n) as -> by congruence. split_and!; try done; try lia.
Qed.

Section invitations.
Context (sha256_hex : string → string) (production : bool) (ch : string).
Notation serve := (serve sha256_hex production).
Notation serve_all := (serve_all sha256_hex production).

Lemma serve_all_history l past s log s' :
  room_history ch past (find_room ch s) → serve_all l s = (log, s') →
  room_history ch (past ++ log) (find_room ch s') ∧
  ∀ log1 e log2, log = log1 ++ e :: log2 → published ch e = true → count (closed ch) (past ++ log1) = 0.
Proof.
  revert past s log. induction l as [|[r now] l IH]; intros past s log Hs; simpl.
  - intros [= <- <-]. rewrite app_nil_r. split; [done|]. by intros [].
  - destruct (serve r now s) as [[st b] s1] eqn:E. destruct (serve_all l s1) as [log' s2] eqn:El.
    intros [= <- <-]. apply (serve_moves sha256_hex production ch) in E. destruct (room_history_step _ _ _ _ _ Hs E) as [Hs1 Hp].
    destruct (IH _ _ _ Hs1 El) as [Hfin Hrest]. rewrite <-app_assoc in Hfin. split; [done|].
    intros [|e1 log1] e log2 [= Hhd Htl] He; [rewrite app_nil_r; apply Hp; by rewrite Hhd|].
    specialize (Hrest _ _ _ Htl He). rewrite <-Hhd. by rewrite <-app_assoc in Hrest.
Qed.

(** C28: over any sequence of requests served from an empty relay, at most two pre-key bundles are ever accepted for a
    room (its inviter's and the one party who joined), none after the room was deleted, and at most one when the
    inviter's request to revoke the pending invitation was granted. *)
Theorem invitation_joined_once l log s' :
  serve_all l relay_empty = (log, s') →
  count (published ch) log ≤ 2 ∧
  (0 < count (revoked_pending ch) log → count (published ch) log ≤ 1) ∧
  ∀ log1 e log2, log = log1 ++ e :: log2 → published ch e = true → count (closed ch) log1 = 0.
Proof.
  intros H. destruct (serve_all_history l [] relay_empty log s') as [Hh Hp]; [done|done|]. simpl in *.
  destruct (find_room ch s') as [r|]; simpl in Hh; [|split_and!; [lia|lia|done]].
  destruct Hh as (_ & n & _ & ? & _ & Hrv). split_and!; [lia| |done]. intros [_ ?]%Hrv. lia.
Qed.
End invitations.

(** ** One-time keys *)
Definition key_ids (p : Publication) : list jsval := map (λ k, oprop k "id") (one_time_keys (bundle p)).
Definition at_address (ch addr : string) (p : Publication) : Prop := p_channel p = ch ∧ p_address p = addr.
(** No publication at the address offers the key. *)
Definition spent (ch addr id : string) (l : list Publication) : Prop :=
  Forall (λ p, at_address ch addr p → JStr id ∉ key_ids p) l.
Definition publications_ok (l : list Publication) : Prop :=
  NoDup (p_address <$> l) ∧ Forall (λ p, NoDup (key_ids p)) l.

Lemma existsb_key id p : existsb (key_is id) (one_time_keys (bundle p)) = true ↔ JStr id ∈ key_ids p.
Proof.
  rewrite existsb_exists. unfold key_ids, key_is. rewrite list_elem_of_In, in_map_iff.
  setoid_rewrite bool_decide_eq_true. naive_solver.
Qed.

Lemma valid_keys_distinct seen l ids :
  valid_keys seen l = Some ids → NoDup seen → NoDup ids ∧ ids ≡ₚ seen ++ omap key_entry l ∧
    map (λ k, oprop k "id") l = JStr <$> omap key_entry l.
Proof.
  revert seen. induction l as [|v l IH]; intros seen; simpl.
  - intros [= <-] ?. by rewrite app_nil_r.
  - destruct (key_entry v) as [id|] eqn:Ek; simpl; [|done].
    destruct (existsb _ seen) eqn:Es; [done|]. intros H Hs. apply IH in H as (Hn & Hp & Hm).
    + split_and!; [done|by rewrite Hp, <-Permutation_middle|]. rewrite Hm. f_equal.
      revert Ek. unfold key_entry. destruct v as [| | | | | |fs]; try done. simpl.
      destruct (get fs "id"); try done. case_if; by intros [= ->].
    + constructor; [|done]. intros Hin. assert (existsb (String.eqb id) seen = true); [|congruence].
      apply existsb_exists. exists id. by rewrite <-list_elem_of_In, String.eqb_refl.
Qed.

Lemma valid_bundle_keys body p :
  validBundle body = true → bundle p = fields_of body → NoDup (key_ids p).
Proof.
  unfold validBundle, key_ids. intros Hv ->. destruct body as [| | | | | |b]; try done.
  apply andb_true_iff in Hv as [_ Hv]. change (fields_of (JObj b)) with b. unfold one_time_keys.
  destruct (as_array (get b "oneTimeKeys")) as [l|]; [|done]. simpl.
  apply andb_true_iff in Hv as [_ Hv]. destruct (valid_keys [] l) as [ids|] eqn:E; [|done].
  apply valid_keys_distinct in E as (Hn & Hp & ->); [|constructor].
  apply NoDup_fmap; [by intros ?? [=]|]. by rewrite Hp in Hn.
Qed.

Lemma without_key_ids id p : key_ids (without_key id p) `sublist_of` key_ids p.
Proof.
  unfold key_ids, without_key, one_time_keys. simpl. rewrite get_set_key, String.eqb_refl. simpl.
  apply (fmap_sublist _), remove_first_sublist.
Qed.

Lemma without_key_spent id p : NoDup (key_ids p) → JStr id ∉ key_ids (without_key id p).
Proof.
  unfold key_ids, without_key, one_time_keys. simpl. rewrite get_set_key, String.eqb_refl. simpl.
  generalize (default [] (as_array (get (bundle p) "oneTimeKeys"))) as l.
  induction l as [|k l IH]; simpl; [set_solver|]. intros Hn. inversion_clear Hn as [|?? Hk Hl].
  unfold key_is at 1. case_bool_decide as E; [by rewrite <-E|]. simpl. set_solver.
Qed.

Lemma publications_ok_filter P l : publications_ok l → publications_ok (List.filter P l).
Proof.
  intros [Hn Hk]. pose proof (filter_sublist P l) as Hs. split; [|by eapply Forall_sublist].
  eapply sublist_NoDup; [exact Hn|]. by apply (fmap_sublist _).
Qed.

Lemma publications_ok_update P f l :
  publications_ok l → (∀ p, p_address (f p) = p_address p) → (∀ p, NoDup (key_ids p) → NoDup (key_ids (f p))) →
  publications_ok (update_first P f l).
Proof.
  intros [Hn Hk] Ha Hf. split; [by rewrite update_first_map|]. apply Forall_update; auto.
Qed.

(** The publication a claim takes the key from is the only one at its address. *)
Lemma update_spends ch addr id now l p :
  publications_ok l → js_find (offers ch addr id now) l = Some p →
  spent ch addr id (update_first (offers ch addr id now) (without_key id) l) ∧ ¬ spent ch addr id l.
Proof.
  intros [Hn Hk] Hp. destruct (update_first_spec _ (without_key id) _ _ Hp) as (l1 & l2 & -> & -> & _ & Ho & _).
  unfold offers in Ho. rewrite !andb_true_iff, !String.eqb_eq, existsb_key in Ho. destruct Ho as [[[Hc Ha] _] Hid].
  rewrite fmap_app, fmap_cons in Hn. apply NoDup_app in Hn as (_ & Hd & Hn). apply NoDup_cons in Hn as [Hn _].
  apply Forall_app in Hk as [_ Hk]. inversion_clear Hk as [|?? Hkp _]. split.
  - apply Forall_app. split; [|constructor].
    + apply Forall_forall. intros q Hq [_ Hqa]. destruct (Hd (p_address q)); [by apply list_elem_of_fmap_2|].
      rewrite Hqa, Ha. set_solver.
    + intros _. by apply without_key_spent.
    + apply Forall_forall. intros q Hq [_ Hqa]. destruct Hn. rewrite Ha, <-Hqa. by apply list_elem_of_fmap_2.
  - intros Hs. apply Forall_app in Hs as [_ Hs]. inversion_clear Hs as [|?? Hs' _]. by apply Hs'.
Qed.

Section one_time.
Context (sha256_hex : string → string) (production : bool).
Notation serve := (serve sha256_hex production).
Notation serve_all := (serve_all sha256_hex production).

(** [publications_move r st l l']: how a request with response status [st] changes the publications. *)
Inductive publications_move (now : Z) : request → Z → list Publication → list Publication → Prop :=
| pub_same r st l : (∀ ch addr id, claimed ch addr id (r, st) = false) → publications_move now r st l l
| pub_publish ch cap body uuid proof st l p : p_address p = uuid → NoDup (key_ids p) →
    publications_move now (RPublish ch cap body uuid proof) st l (l ++ [p])
| pub_renew ch addr cap proof body l f : (∀ p, p_channel (f p) = p_channel p ∧ p_address (f p) = p_address p ∧ NoDup (key_ids (f p))) →
    publications_move now (RRenew ch addr cap proof body) 200 l (update_first (is_publication ch addr) f l)
| pub_claim ch addr cap id p l : js_find (offers ch addr id now) l = Some p →
    publications_move now (RClaim ch addr cap (JStr id)) 200 l (update_first (offers ch addr id now) (without_key id) l).

Lemma serve_publications r now s st b s' :
  serve r now s = ((st, b), s') →
  ∃ l, (l = publications s ∨ l = publications (deleteExpiredPrekeyBundles now s)) ∧
    publications_move now r st l (publications s').
Proof.
  destruct r as [body uuid|c cap|c cap pending|c cap body uuid proof|c addr cap|c addr cap proof body|c addr cap key].
  all: unfold serve.
  - unfold create_room. intros E. exists (publications s). split; [by left|].
    replace (publications s') with (publications s) by (repeat case_match; by simplify_eq). by constructor.
  - intros [= E <-]. exists (publications s). split; [by left|]. by constructor.
  - unfold delete_room, revokePendingInvitation. intros E. exists (publications s). split; [by left|].
    replace (publications s') with (publications s); [by constructor|].
    repeat (case_match || case_if); by simplify_eq.
  - unfold publish. case_if; [intros [= <- _ <-]; exists (publications s); split; [by left|by constructor]|].
    exists (publications (deleteExpiredPrekeyBundles now s)). split; [by right|]. revert H.
    case_if; [intros [= <- _ <-]; by constructor|].
    rewrite orb_false_iff, !negb_false_iff in E0. destruct E0 as [_ Hv].
    unfold reserveInvitationPublication. intros H.
    assert (∀ x, publications s' = publications (deleteExpiredPrekeyBundles now s) ++ [x] → p_address x = uuid → bundle x = fields_of body →
      publications_move now (RPublish c cap body uuid proof) st (publications (deleteExpiredPrekeyBundles now s)) (publications s')) as Hx.
    { intros x -> Ha Hb. constructor; [done|by eapply valid_bundle_keys]. }
    repeat case_match; simplify_eq; try (by constructor); by eapply Hx.
  - unfold read_bundle. intros E. exists (publications s'). split; [|by constructor].
    repeat case_match; simplify_eq; auto.
  - unfold renew. case_if; [intros [= <- _ <-]; exists (publications s); split; [by left|by constructor]|].
    intros H. exists (publications (deleteExpiredPrekeyBundles now s)). split; [by right|]. revert H.
    case_if; [intros [= <- _ <-]; by constructor|].
    rewrite orb_false_iff, !negb_false_iff in E0. destruct E0 as [_ Hv].
    destruct (find_publication _ _ _) as [old|]; [|intros [= <- _ <-]; by constructor].
    case_if; [intros [= <- _ <-]; by constructor|]. intros [= <- _ <-]. apply pub_renew. intros p. split_and!; try done.
    by eapply valid_bundle_keys.
  - unfold claim. case_if; [intros [= <- _ <-]; exists (publications s); split; [by left|constructor; intros; by destruct key]|].
    intros H. exists (publications (deleteExpiredPrekeyBundles now s)). split; [by right|]. revert H.
    destruct key as [| | | |id| |]; try (intros [= <- _ <-]; by constructor).
    case_if; [intros [= <- _ <-]; by constructor|]. unfold claimOneTimeKey.
    destruct (js_find (offers c addr id now) _) as [p|] eqn:Ep; [|intros [= <- _ <-]; by constructor].
    destruct (js_find (key_is id) _) as [k|] eqn:Ek; intros [= <- _ <-]; [by apply (pub_claim _ _ _ _ _ p)|].
    apply js_find_Some in Ep as [_ Ho]. unfold offers in Ho. apply andb_true_iff in Ho as [_ Ho].
    apply existsb_exists in Ho as (k & Hin & Hk). rewrite js_find_None in Ek.
    rewrite (Ek k) in Hk; [done|]. by apply list_elem_of_In.
Qed.

Definition addresses (s : relay_db) : list string := p_address <$> publications s.
(** No request draws an address twice, or one in use. *)
Definition fresh (l : list (request * Z)) (s : relay_db) : Prop := NoDup (addresses s ++ drawn l).

Lemma serve_keys r now s st b s' l :
  publications_ok (publications s) → fresh ((r, now) :: l) s → serve r now s = ((st, b), s') →
  publications_ok (publications s') ∧ fresh l s' ∧
  ∀ ch addr id,
    (claimed ch addr id (r, st) = true → addr ∈ addresses s ∧ spent ch addr id (publications s')) ∧
    (spent ch addr id (publications s) → addr ∉ drawn ((r, now) :: l) →
       claimed ch addr id (r, st) = false ∧ (renewed ch addr (r, st) = false → spent ch addr id (publications s'))).
Proof.
  intros Hok Hf H. apply serve_publications in H as (q & Hq & Hm).
  assert (q `sublist_of` publications s) as Hsub by (destruct Hq as [->| ->]; [done|apply filter_sublist]).
  assert (publications_ok q) as Hq' by (destruct Hq as [->| ->]; [done|by apply publications_ok_filter]).
  assert (∀ ch addr id, spent ch addr id (publications s) → spent ch addr id q) as Hsp by (intros; by eapply Forall_sublist).
  assert ((p_address <$> q) `sublist_of` addresses s) as Hsa by (by apply (fmap_sublist _)).
  assert (∀ l', addresses s' = p_address <$> q → drawn ((r, now) :: l) = l' ++ drawn l → fresh l s') as Hfr.
  { unfold fresh. intros l' -> Hd. eapply sublist_NoDup; [exact Hf|]. rewrite Hd.
    apply sublist_app; [done|]. by apply sublist_inserts_l. }
  assert (∃ l', drawn ((r, now) :: l) = l' ++ drawn l) as [l' Hl'].
  { unfold drawn. simpl. case_match; [eexists [_]|exists []]; reflexivity. }
  clear Hq. unfold addresses in *. destruct s' as [rs ps]. cbn [publications] in *.
  inversion Hm as [r0 st0 q0 Hcl|c cap body uuid proof st0 q0 p Ha Hk|c addr cap proof body q0 f Hu|c addr cap id p q0 Hp]; subst.
  - split_and!; [done|by eapply Hfr|]. intros ch addr id. rewrite Hcl. split; [done|]. intros Hs _. split; [done|]. auto.
  - change (drawn ((RPublish c cap body (p_address p) proof, now) :: l)) with (p_address p :: drawn l) in *.
    assert (p_address p ∉ p_address <$> q) as Hnew.
    { apply NoDup_app in Hf as (_ & Hd & _). intros Hin. apply (Hd (p_address p)); [|set_solver].
      by apply (elem_of_sublist _ _ _ Hin Hsa). }
    split_and!.
    + destruct Hq' as [Hn Hks]. split; [|apply Forall_app; split; [done|by constructor]].
      rewrite fmap_app. apply NoDup_app. split_and!; [done|set_solver|apply NoDup_singleton].
    + unfold fresh, addresses. simpl. rewrite fmap_app, <-app_assoc. simpl. eapply sublist_NoDup; [exact Hf|]. by apply sublist_app.
    + intros ch addr id. split; [done|]. intros Hs Ho. split; [done|]. intros _. apply Forall_app. split; [by apply Hsp|].
      constructor; [|constructor]. intros [_ Hpa]. set_solver.
  - assert (p_address <$> update_first (is_publication c addr) f q = p_address <$> q) as Hadd
      by (apply update_first_map; intros x; apply Hu).
    split_and!; [|by eapply Hfr|].
    + apply publications_ok_update; [done|intros x; apply Hu|intros x _; apply Hu].
    + intros ch a id. split; [done|]. intros Hs _. split; [done|]. intros Hr.
      apply Forall_update; [by apply Hsp|]. intros x _ Hx Hx' [Hc Ha]. exfalso.
      unfold is_publication, field_matches in Hx. rewrite !andb_true_iff, !String.eqb_eq in Hx.
      destruct Hx as [[_ Hxc] [_ Hxa]]. destruct (Hu x) as (Hfc & Hfa & _). simpl in Hr.
      rewrite <-Hc, <-Ha, Hfc, Hfa, Hxc, Hxa, !String.eqb_refl in Hr. done.
  - destruct (update_spends _ _ _ _ _ _ Hq' Hp) as [Hnow Hbefore].
    assert (p_address <$> update_first (offers c addr id now) (without_key id) q = p_address <$> q) as Hadd
      by (by apply update_first_map).
    split_and!; [|by eapply Hfr|].
    + apply publications_ok_update; [done|done|]. intros x Hx. eapply sublist_NoDup; [exact Hx|]. apply without_key_ids.
    + intros ch a i. simpl. rewrite andb_true_iff, andb_true_iff, !String.eqb_eq. split.
      * intros [[-> ->] ->]. split; [|done]. apply js_find_Some in Hp as [Hin Ho]. unfold offers in Ho.
        rewrite !andb_true_iff, !String.eqb_eq in Ho. destruct Ho as [[[_ <-] _] _].
        eapply elem_of_sublist; [|exact Hsa]. by apply list_elem_of_fmap_2.
      * intros Hs _. split.
        -- apply not_true_is_false. rewrite !andb_true_iff, !String.eqb_eq. intros [[-> ->] ->]. by apply Hbefore, Hsp.
        -- intros _. apply Forall_update; [by apply Hsp|]. intros x _ _ Hx Hat Hin. apply Hx; [done|].
           eapply elem_of_sublist; [exact Hin|]. apply without_key_ids.
Qed.

Lemma spent_until_renewed l s log s' ch addr id :
  publications_ok (publications s) → fresh l s → serve_all l s = (log, s') →
  spent ch addr id (publications s) → addr ∉ drawn l →
  ∀ log1 e log2, log = log1 ++ e :: log2 → claimed ch addr id e = true → 0 < count (renewed ch addr) log1.
Proof.
  revert s log. induction l as [|[r now] l IH]; intros s log Hok Hf; simpl; [by intros [= <- <-] _ _ []|].
  destruct (serve r now s) as [[st b] s1] eqn:E. destruct (serve_all l s1) as [log' s2] eqn:El.
  intros [= <- <-] Hs Hd. destruct (serve_keys _ _ _ _ _ _ _ Hok Hf E) as (Hok1 & Hf1 & Hk).
  destruct (Hk ch addr id) as [_ Hk']. destruct (Hk' Hs Hd) as [Hc Hr].
  intros [|e1 log1] e log2 [= Hhd Htl] He; [congruence|]. rewrite count_cons, <-Hhd.
  destruct (renewed ch addr (r, st)); [pose proof (count_nonneg (renewed ch addr) log1); lia|].
  rewrite Z.add_0_l. eapply (IH s1); try done; [by apply Hr|].
  intros Hin. apply Hd. unfold drawn in *. simpl. case_match; set_solver.
Qed.

Lemma claims_separated l s log s' ch addr id :
  publications_ok (publications s) → fresh l s → serve_all l s = (log, s') →
  ∀ log1 e1 log2 e2 log3, log = log1 ++ e1 :: log2 ++ e2 :: log3 →
    claimed ch addr id e1 = true → claimed ch addr id e2 = true → 0 < count (renewed ch addr) log2.
Proof.
  revert s log. induction l as [|[r now] l IH]; intros s log Hok Hf; simpl; [by intros [= <- <-] []|].
  destruct (serve r now s) as [[st b] s1] eqn:E. destruct (serve_all l s1) as [log' s2] eqn:El.
  intros [= <- <-]. destruct (serve_keys _ _ _ _ _ _ _ Hok Hf E) as (Hok1 & Hf1 & Hk).
  intros [|e0 log1] e1 log2 e2 log3 [= Hhd Htl] He1 He2; [|by eapply (IH s1)].
  rewrite <-Hhd in He1. destruct (Hk ch addr id) as [Hk' _]. destruct (Hk' He1) as [Hin Hs].
  eapply (spent_until_renewed l s1); try done.
  apply NoDup_app in Hf as (_ & Hd & _). specialize (Hd _ Hin). unfold drawn in *. simpl in Hd. case_match; set_solver.
Qed.

(** C29: when the addresses the relay draws are distinct, a one-time pre-key is handed out at most once: between two
    requests that are granted the same key of the same publication, the publication's owner renewed it. *)
Theorem one_time_key_claimed_once l log s' ch addr id log1 e1 log2 e2 log3 :
  NoDup (drawn l) → serve_all l relay_empty = (log, s') → log = log1 ++ e1 :: log2 ++ e2 :: log3 →
  claimed ch addr id e1 = true → claimed ch addr id e2 = true → 0 < count (renewed ch addr) log2.
Proof.
  intros Hd H. eapply (claims_separated l relay_empty); [|done|done]. split; constructor.
Qed.
End one_time.

(** A concrete relay: one room, a bundle with two one-time keys, the constant function as SHA-256. *)
Module Demo.
Definition zeros64 : string := "0000000000000000000000000000000000000000000000000000000000000000".
Definition key43 : string := "AAAAAAAAAAAAAAAAAAAAAAAAAAAAAAAAAAAAAAAAAAA".
Definition sha (_ : string) : string := zeros64.
Definition room1 : string := "00000000-0000-1000-8000-000000000001".
Definition addr1 : string := "00000000-0000-1000-8000-00000000000a".
Definition addr2 : string := "00000000-0000-1000-8000-00000000000b".
Definition one_time (id : string) : jsval := JObj [("id", JStr id); ("key", JStr key43)].
Definition bundle1 : jsval := JObj [("version", JNum (NInt 1)); ("protocol", JStr "vodozemac-olm-v1");
  ("identity", JObj [("curve25519", JStr key43); ("ed25519", JStr key43)]);
  ("oneTimeKeys", JArr [one_time "key-0001"; one_time "key-0002"])].
Definition create1 : request := RCreate [("controlCapabilityHash", JStr zeros64)] room1.
Definition publish_at (addr : string) : request := RPublish room1 (Some key43) bundle1 addr key43.
Definition claim_key (id : string) : request := RClaim room1 addr1 (Some key43) (JStr id).
Definition renew1 : request := RRenew room1 addr1 (Some key43) (Some key43) bundle1.
Definition joining : list (request * Z) :=
  [(create1, 0); (publish_at addr1, 1); (publish_at addr2, 2); (publish_at "x", 3); (RDelete room1 (Some key43) (Some "true"), 4);
   (RDelete room1 (Some key43) None, 5)].
Definition claiming : list (request * Z) :=
  [(create1, 0); (publish_at addr1, 1); (claim_key "key-0001", 2); (claim_key "key-0001", 3); (renew1, 4);
   (claim_key "key-0001", 5)].
End Demo.

Example invitation_demo :
  (serve_all Demo.sha false Demo.joining relay_empty).1.*2 = [200; 201; 201; 410; 409; 200].
Proof. vm_compute. reflexivity. Qed.

Lemma invitation_joined_once_witness :
  count (published Demo.room1) (serve_all Demo.sha false Demo.joining relay_empty).1 ≤ 2.
Proof.
  apply (invitation_joined_once Demo.sha false Demo.room1 Demo.joining
    (serve_all Demo.sha false Demo.joining relay_empty).1 (serve_all Demo.sha false Demo.joining relay_empty).2).
  by destruct (serve_all _ _ _ _).
Defined.

Example claim_demo :
  (serve_all Demo.sha false Demo.claiming relay_empty).1.*2 = [200; 201; 200; 409; 200; 200].
Proof. vm_compute. reflexivity. Qed.

Lemma claiming_log : ∃ s', serve_all Demo.sha false Demo.claiming relay_empty =
  ([(Demo.create1, 200); (Demo.publish_at Demo.addr1, 201)] ++ (Demo.claim_key "key-0001", 200) ::
   [(Demo.claim_key "key-0001", 409); (Demo.renew1, 200)] ++ (Demo.claim_key "key-0001", 200) :: [], s').
Proof. eexists. vm_compute. reflexivity. Qed.

Lemma one_time_key_claimed_once_witness :
  0 < count (renewed Demo.room1 Demo.addr1) [(Demo.claim_key "key-0001", 409); (Demo.renew1, 200)].
Proof.
  destruct claiming_log as [s' E].
  apply (one_time_key_claimed_once Demo.sha false Demo.claiming _ s' Demo.room1 Demo.addr1 "key-0001"
    [(Demo.create1, 200); (Demo.publish_at Demo.addr1, 201)] (Demo.claim_key "key-0001", 200)
    [(Demo.claim_key "key-0001", 409); (Demo.renew1, 200)] (Demo.claim_key "key-0001", 200) []
    (NoDup_singleton _) E eq_refl); reflexivity.
Defined.
