(* ===== verification/Messages.v ===== *)
(** * Saved messages ([client/src/product/messageStore.ts], [callHistory.ts])

    The message history of a room, a JSON array in the client's secure storage, and the quarantine its
    invalid entries move to. [others n k] is what other tabs do to the storage at attempt [n] of a retry
    loop, between its reads and its swap; [date_parse] is [Date.parse] ([None] where it is [NaN]) and
    [to_iso] is [Date.prototype.toISOString] on a time value. *)
From S2P Require Import Prelude Json Storage.

Definition TYPE : string := "product-messages".
Definition QUARANTINE_TYPE : string := "product-message-quarantine".
Definition MAX_MESSAGES : nat := Z.to_nat 2000.
Definition MAX_QUARANTINE_BYTES : Z := 3 * 1024 * 1024.

(* client/src/product/messageStore.ts:17-17 deliveryRank *)
Definition deliveryRank (delivery : jsval) : Z :=
  match delivery with
  | JStr s => if String.eqb s "accepted" then 3 else if String.eqb s "held" then 2 else if String.eqb s "failed" then 1 else 0
  | _ => 0
  end.

(* client/src/product/callHistory.ts:18-22 validLocalCallEvent *)
Definition validLocalCallEvent (value : jsval) : bool :=
  match value with
  | JObj e =>
      forallb (includes ["mode"; "outcome"; "direction"; "durationSeconds"]) (keys e) &&
      includes ["audio"; "video"] (js_String (get e "mode")) &&
      includes ["completed"; "missed"; "declined"; "canceled"; "failed"] (js_String (get e "outcome")) &&
      includes ["incoming"; "outgoing"] (js_String (get e "direction")) &&
      (bool_decide (get e "durationSeconds" = JUndef) ||
       match js_safe_int (get e "durationSeconds") with Some d => 0 <=? d | None => false end)
  | _ => false
  end.

(** A throwing read of a JSON text. *)
Definition json_of (bytes : string) (msg : string) : res jsval := require (parse bytes) msg.

Section messages.
Context (date_parse : string → option Z) (to_iso : Z → string).

(* client/src/product/messageStore.ts:19-29 valid *)
Definition valid (value : jsval) : bool :=
  match value with
  | JObj item =>
      match get item "id", get item "text", get item "timestamp" with
      | JStr id, JStr text, JStr timestamp =>
          (0 <? strlen id) && is_str (get item "sender") && (strlen text <=? 192 * 1024) &&
          (bool_decide (get item "type" = JStr "sent") || bool_decide (get item "type" = JStr "received")) &&
          bool_decide (is_Some (date_parse timestamp)) &&
          (bool_decide (get item "callEvent" = JUndef) ||
           startsWith "local-call:" id && validLocalCallEvent (get item "callEvent")) &&
          (bool_decide (get item "delivery" = JUndef) ||
           includes ["pending"; "accepted"; "failed"; "held"] (js_String (get item "delivery"))) &&
          (bool_decide (get item "relayAccepted" = JUndef) ||
           match get item "relayAccepted" with JBool _ => true | _ => false end)
      | _, _, _ => false
      end
  | _ => false
  end.

Definition too_long (l : list jsval) : bool := bool_decide (MAX_MESSAGES < length l)%nat.

(* client/src/product/messageStore.ts:31-36 decode *)
Definition decode (bytes : option string) : res (list jsval) :=
  match bytes with
  | None => mret []
  | Some b =>
      values ← json_of b "Unexpected token in JSON";
      match values with
      | JArr l => if too_long l || existsb (λ v, negb (valid v)) l then Err "Saved messages are invalid." else mret l
      | _ => Err "Saved messages are invalid."
      end
  end.

Definition bad_entry (item : jsval) : bool :=
  match item with
  | JObj fs => bool_decide (js_safe_int (get fs "index") = None) ||
      negb (bool_decide (get fs "reason" = JStr "invalid-message-entry")) || negb (existsb (String.eqb "value") (keys fs))
  | _ => true
  end.

(** The entries of the quarantine. *)
(* client/src/product/messageStore.ts:41-54 readQuarantine *)
Definition readQuarantine (bytes : option string) : res (list jsval) :=
  let invalid := "Saved message quarantine is invalid." in
  match bytes with
  | None => mret []
  | Some b =>
      value ← json_of b invalid;
      match value with
      | JObj fs =>
          throw_if (negb (bool_decide (get fs "version" = JNum (NInt 1)))) invalid;;
          entries ← require (as_array (get fs "entries")) invalid;
          throw_if (existsb bad_entry entries) invalid;;
          mret entries
      | _ => Err invalid
      end
  end.

(* client/src/product/messageStore.ts:56-62 parseHistoryArray *)
Definition parseHistoryArray (bytes : string) : res (list jsval) :=
  value ← json_of bytes "Saved messages are invalid.";
  match value with
  | JArr l => if too_long l then Err "Saved messages are invalid." else mret l
  | _ => Err "Saved messages are invalid."
  end.

(* client/src/product/messageStore.ts:64-65 encode *)
Definition encode (messages : list jsval) : string := stringify (JArr (take_last MAX_MESSAGES messages)).

(** A message of the user interface: its fields, and its timestamp as a time value. *)
Record Message := { fields : list (string * jsval); m_timestamp : Z }.
(* client/src/product/messageStore.ts:67-67 toStored *)
Definition toStored (m : Message) : jsval := JObj (set_key (fields m) "timestamp" (JStr (to_iso (m_timestamp m)))).
(** [{ ...item, timestamp: new Date(item.timestamp) }] *)
Definition fromStored (v : jsval) : Message :=
  {| fields := default [] (as_object v);
     m_timestamp := match oprop v "timestamp" with JStr t => default 0 (date_parse t) | _ => 0 end |}.

Definition quarantine_entry (index : nat) (value : jsval) : jsval :=
  JObj [("index", JNum (NInt (Z.of_nat index))); ("value", value); ("reason", JStr "invalid-message-entry")].
(** [values.flatMap((value, index) => valid(value) ? [] : [entry])] *)
Fixpoint quarantined (index : nat) (values : list jsval) : list jsval :=
  match values with
  | [] => []
  | v :: l => (if valid v then [] else [quarantine_entry index v]) ++ quarantined (S index) l
  end.
Definition quarantine_text (entries : list jsval) : string :=
  stringify (JObj [("version", JNum (NInt 1)); ("entries", JArr entries)]).

(* client/src/product/messageStore.ts:151-162 mergeHistory *)
Definition merge_one (result : list (string * jsval)) (message : jsval) : list (string * jsval) :=
  let id := js_String (oprop message "id") in
  match get result id with
  | JObj existing =>
      let merged := if deliveryRank (get existing "delivery") <? deliveryRank (oprop message "delivery")
                    then set_key existing "delivery" (oprop message "delivery") else existing in
      set_key result id (JObj (if bool_decide (oprop message "relayAccepted" = JBool true)
                               then set_key merged "relayAccepted" (JBool true) else merged))
  | _ => set_key result id message
  end.
Definition time_of (v : jsval) : Z := m_timestamp (fromStored v).
Definition by_id (l : list jsval) : list (string * jsval) :=
  foldl (λ acc m, set_key acc (js_String (oprop m "id")) m) [] l.
Definition mergeHistory (current incoming : list jsval) : list jsval :=
  take_last MAX_MESSAGES (js_sort (λ l r, time_of l - time_of r) (foldl merge_one (by_id current) incoming).*2).

Section stored.
Context `{SecureStorage St}.
Context (atomic : bool) (others : nat → nat → St → St) (roomId : string).

(* client/src/product/messageStore.ts:69-95 readMessages *)
Definition readMessages_attempt (attempt : nat) (st : St) : res (option (list Message)) * St :=
  match read st TYPE roomId with
  | None => (Ok (Some []), st)
  | Some expected =>
      let found := parseHistoryArray expected in
      match found with
      | Err e => (Err e, st)
      | Ok values =>
          let validMessages := List.filter valid values in
          if (length validMessages =? length values)%nat then (Ok (Some (fromStored <$> validMessages)), st) else
          if negb atomic then (Err "Saved messages are invalid.", st) else
          let st := others attempt 0%nat st in
          let quarantineExpected := read st QUARANTINE_TYPE roomId in
          match readQuarantine quarantineExpected with
          | Err e => (Err e, st)
          | Ok prior =>
              let text := quarantine_text (prior ++ quarantined 0 values) in
              if MAX_QUARANTINE_BYTES <? utf8_length text then (Err "Saved messages are invalid.", st) else
              let '(updated, st) := compareAndSwapRecords
                [{| recordType := QUARANTINE_TYPE; recordId := roomId; expected := quarantineExpected; next := text |};
                 {| recordType := TYPE; recordId := roomId; expected := Some expected; next := encode validMessages |}]
                (others attempt 1%nat st) in
              (Ok (if updated then Some (fromStored <$> validMessages) else None), st)
          end
      end
  end.

(** Runs an attempt until it gives a result. *)
Fixpoint attempts {A} (one : nat → St → res (option A) * St) (exhausted : string) (n attempt : nat) (st : St) : res A * St :=
  match n with
  | O => (Err exhausted, st)
  | S n' =>
      match one attempt st with
      | (Ok (Some a), st') => (Ok a, st')
      | (Ok None, st') => attempts one exhausted n' (S attempt) st'
      | (Err e, st') => (Err e, st')
      end
  end.
Definition readMessages : St → res (list Message) * St :=
  attempts readMessages_attempt "Message history changed too often to restore safely." 8 0.

Definition update_of (expected : option string) (next : string) : SecureRecordUpdate :=
  {| recordType := TYPE; recordId := roomId; expected := expected; next := next |}.
Definition has_id (id : jsval) (item : jsval) : bool := bool_decide (oprop item "id" = id).

(* client/src/product/messageStore.ts:98-114 prepareMessageAcceptance *)
Definition prepareMessageAcceptance (message : Message) (st : St) : res SecureRecordUpdate :=
  let expected := read st TYPE roomId in
  current ← decode expected;
  let stored := toStored message in
  match js_find (has_id (oprop stored "id")) current with
  | Some existing =>
      if negb (bool_decide (oprop existing "sender" = oprop stored "sender")) ||
         negb (bool_decide (oprop existing "text" = oprop stored "text")) ||
         negb (bool_decide (oprop existing "type" = oprop stored "type"))
      then Err "Accepted message identity conflicts with saved history."
      else mret (update_of expected (default (encode current) expected))
  | None => mret (update_of expected (encode (current ++ [stored])))
  end.

(* client/src/product/messageStore.ts:117-132 prepareHeldTextRetry *)
Definition prepareHeldTextRetry (previousMessageId : string) (replacement : Message) (st : St) : res SecureRecordUpdate :=
  let expected := read st TYPE roomId in
  current ← decode expected;
  match js_find (λ i, has_id (JStr previousMessageId) i && bool_decide (oprop i "type" = JStr "sent")) current with
  | Some previous =>
      if negb (bool_decide (oprop previous "delivery" = JStr "held")) ||
         startsWith "k3ncrypt-file-" (js_String (oprop previous "text")) ||
         negb (bool_decide (oprop previous "text" = get (fields replacement) "text"))
      then Err "This message needs a new secure send action."
      else mret (update_of expected
        (encode (List.filter (λ i, negb (has_id (JStr previousMessageId) i)) current ++ [toStored replacement])))
  | None => Err "This message needs a new secure send action."
  end.

(* client/src/product/messageStore.ts:135-149 writeMessages *)
Definition writeMessages_attempt (incoming : list jsval) (attempt : nat) (st : St) : res (option unit) * St :=
  let expected := read st TYPE roomId in
  match decode expected with
  | Err e => (Err e, st)
  | Ok current =>
      let '(updated, st) := compareAndSwapRecords [update_of expected (encode (mergeHistory current incoming))]
        (others attempt 0%nat st) in
      (Ok (if updated then Some tt else None), st)
  end.
Definition writeMessages (messages : list Message) (st : St) : res unit * St :=
  let incoming := toStored <$> messages in
  if negb atomic then
    match decode (read st TYPE roomId) with
    | Err e => (Err e, st)
    | Ok current => (Ok tt, write TYPE roomId (encode (mergeHistory current incoming)) (others 0%nat 0%nat st))
    end
  else attempts (writeMessages_attempt incoming) "Message history changed too often to persist safely." 8 0 st.
End stored.
End messages.

(** ** Merging *)
(** [m'] is [m] with its delivery possibly further along; nothing else changes. *)
Definition same_message (m m' : jsval) : Prop :=
  (∀ k, k ≠ "delivery" → k ≠ "relayAccepted" → oprop m' k = oprop m k) ∧
  deliveryRank (oprop m "delivery") <= deliveryRank (oprop m' "delivery") ∧
  (oprop m "relayAccepted" = JBool true → oprop m' "relayAccepted" = JBool true).
#[export] Instance same_message_preorder : PreOrder same_message.
Proof.
  split.
  - intros m. repeat split; auto. lia.
  - intros m1 m2 m3 (H1 & H2 & H3) (H1' & H2' & H3'). repeat split; auto; [|lia].
    intros. rewrite H1' by done. by apply H1.
Qed.

Lemma get_In fs k v : get fs k = v → v ≠ JUndef → (k, v) ∈ fs.
Proof.
  induction fs as [|[k' v'] fs IH]; simpl; [by intros <- ?|]. destruct (String.eqb_spec k k') as [->|]; [intros -> _; set_solver|].
  intros Hg Hv. apply elem_of_cons. auto.
Qed.

Section merging.
Context (date_parse : string → option Z).
Notation valid := (valid date_parse).
Notation time_of := (time_of date_parse).
Notation mergeHistory := (mergeHistory date_parse).

Definition message_id (m : jsval) : string := js_String (oprop m "id").
(** An entry of the map: a message under its own identifier. *)
Definition entry_ok (kv : string * jsval) : Prop := ∃ fs, kv.2 = JObj fs ∧ get fs "id" = JStr kv.1.

Lemma valid_entry m : valid m = true → entry_ok (message_id m, m).
Proof.
  unfold valid, entry_ok, message_id. destruct m as [| | | | | |fs]; try done. intros H. exists fs. split; [done|]. simpl.
  destruct (get fs "id"); done.
Qed.

Lemma merge_one_same result message : entry_ok (message_id message, message) →
  ∀ k fs, get result k = JObj fs → ∃ fs', get (merge_one result message) k = JObj fs' ∧ same_message (JObj fs) (JObj fs').
Proof.
  intros (ms & Hms & Hid) k fs Hk. unfold merge_one. fold (message_id message). simpl in Hms, Hid. subst message.
  destruct (String.eqb_spec k (message_id (JObj ms))) as [->|Hne].
  - rewrite Hk, get_set_key, String.eqb_refl. eexists. split; [done|].
    assert (∀ fs k v k', oprop (JObj (set_key fs k v)) k' = if String.eqb k' k then v else oprop (JObj fs) k') as Ho
      by (intros; apply get_set_key).
    set (merged := if _ <? _ then _ else _).
    assert (same_message (JObj fs) (JObj merged)) as Hm.
    { subst merged. destruct (Z.ltb_spec (deliveryRank (get fs "delivery")) (deliveryRank (oprop (JObj ms) "delivery"))); [|done].
      split_and!; [intros k Hk1 Hk2|..]; rewrite ?Ho; simpl; [by rewrite (proj2 (String.eqb_neq _ _) Hk1)|simpl in *; lia|done]. }
    case_bool_decide; [|done]. etrans; [exact Hm|].
    split_and!; [intros k Hk1 Hk2|..]; rewrite ?Ho; simpl; [by rewrite (proj2 (String.eqb_neq _ _) Hk2)|lia|done].
  - exists fs. split; [|done]. rewrite <-Hk.
    destruct (get result (message_id (JObj ms))); rewrite get_set_key, (proj2 (String.eqb_neq _ _) Hne); done.
Qed.

Definition index_ok (r : list (string * jsval)) : Prop :=
  ∀ k, get r k = JUndef ∨ ∃ fs, get r k = JObj fs ∧ get fs "id" = JStr k.
(** Every message of [r] is still a message of [r']. *)
Definition keeps (r r' : list (string * jsval)) : Prop :=
  ∀ k fs, get r k = JObj fs → ∃ fs', get r' k = JObj fs' ∧ same_message (JObj fs) (JObj fs').

Lemma keeps_trans r1 r2 r3 : keeps r1 r2 → keeps r2 r3 → keeps r1 r3.
Proof.
  intros H1 H2 k fs Hk. destruct (H1 _ _ Hk) as (fs2 & Hk2 & Hs2). destruct (H2 _ _ Hk2) as (fs3 & Hk3 & Hs3).
  exists fs3. split; [done|]. by etrans.
Qed.

Lemma merge_one_ok r message : entry_ok (message_id message, message) → index_ok r →
  index_ok (merge_one r message) ∧ ∃ fs, get (merge_one r message) (message_id message) = JObj fs.
Proof.
  intros Hm Hr. pose proof (merge_one_same r message Hm) as Hs. destruct Hm as (ms & Hms & Hid). simpl in Hms, Hid.
  assert (∀ k, (∃ fs, get r k = JObj fs) ∨ get (merge_one r message) k = (if String.eqb k (message_id message) then message else JUndef)) as Hnew.
  { intros k. destruct (Hr k) as [Hk|(fs & Hk & _)]; [|left; by eexists]. right.
    unfold merge_one. fold (message_id message). destruct (String.eqb_spec k (message_id message)) as [->|Hne].
    - by rewrite Hk, get_set_key, String.eqb_refl.
    - destruct (get r (message_id message)); by rewrite get_set_key, (proj2 (String.eqb_neq _ _) Hne). }
  split.
  - intros k. destruct (Hnew k) as [[fs Hk]| ->].
    + right. destruct (Hs k fs Hk) as (fs' & Hk' & Hsame & _). exists fs'. split; [done|].
      destruct (Hr k) as [Hk0|(fs0 & Hk0 & Hid0)]; [congruence|]. assert (fs0 = fs) as -> by congruence.
      rewrite <-Hid0. by apply (Hsame "id").
    + destruct (String.eqb_spec k (message_id message)) as [->|]; [right; subst; by eexists|by left].
  - destruct (Hnew (message_id message)) as [[fs Hk]|Hk].
    + destruct (Hs _ fs Hk) as (fs' & Hk' & _). by eexists.
    + rewrite Hk, String.eqb_refl. subst. by eexists.
Qed.

Lemma merge_all r incoming : Forall (λ m, entry_ok (message_id m, m)) incoming → index_ok r →
  index_ok (foldl merge_one r incoming) ∧ keeps r (foldl merge_one r incoming) ∧
  ∀ m, m ∈ incoming → ∃ fs, get (foldl merge_one r incoming) (message_id m) = JObj fs.
Proof.
  intros Hi. revert r. induction Hi as [|m l Hm Hl IH]; intros r Hr; simpl.
  - split_and!; [done| |set_solver]. intros k fs Hk. by exists fs.
  - destruct (merge_one_ok r m Hm Hr) as [Hok (fs & Hfs)]. destruct (IH _ Hok) as (Hok' & Hk' & Hin).
    split_and!; [done| |].
    + eapply keeps_trans; [|done]. intros k fs0 Hk0. by apply merge_one_same.
    + intros m' [->|Hm']%elem_of_cons; [|by apply Hin]. destruct (Hk' _ _ Hfs) as (fs' & ? & _). by exists fs'.
Qed.

Lemma by_id_get l acc m : NoDup (message_id <$> l) → Forall (λ m, entry_ok (message_id m, m)) l → index_ok acc →
  index_ok (foldl (λ acc m, set_key acc (message_id m) m) acc l) ∧
  (m ∈ l → get (foldl (λ acc m, set_key acc (message_id m) m) acc l) (message_id m) = m) ∧
  (message_id m ∉ message_id <$> l →
    get (foldl (λ acc m, set_key acc (message_id m) m) acc l) (message_id m) = get acc (message_id m)).
Proof.
  revert acc. induction l as [|x l IH]; intros acc; simpl; [intros _ _ ?; split_and!; [done|set_solver|done]|].
  rewrite NoDup_cons. intros [Hx Hn] Hf Ha. inversion_clear Hf as [|?? Hxo Hlo].
  destruct (IH (set_key acc (message_id x) x) Hn Hlo) as (Hok & Hin & Hout).
  { intros k. rewrite get_set_key. destruct (String.eqb_spec k (message_id x)) as [->|]; [|apply Ha].
    right. destruct Hxo as (fs & E & Hid). simpl in E, Hid. rewrite E in *. by exists fs. }
  split_and!; [done| |].
  - intros [->|Hm]%elem_of_cons; [|by apply Hin]. rewrite Hout by done. by rewrite get_set_key, String.eqb_refl.
  - intros Hm. rewrite not_elem_of_cons in Hm. destruct Hm as [Hne Hm]. rewrite Hout by done.
    by rewrite get_set_key, (proj2 (String.eqb_neq _ _) Hne).
Qed.

(** [m] is in the merged history, unless it is full of messages that are no older. *)
Definition in_window (m : jsval) (l : list jsval) : Prop :=
  m ∈ l ∨ length l = MAX_MESSAGES ∧ Forall (λ x, time_of m <= time_of x) l.

Lemma sorted_window (r : list (string * jsval)) m : m ∈ r.*2 → in_window m (take_last MAX_MESSAGES (js_sort (λ x y, time_of x - time_of y) r.*2)).
Proof.
  intros Hm. destruct (take_last_sorted (λ x y, time_of x - time_of y <= 0) MAX_MESSAGES (js_sort (λ x y, time_of x - time_of y) r.*2) m)
    as [Hin|[Hl Hall]].
  - apply (js_sort_sorted _ (λ _, True)); [lia|lia|]. by apply Forall_true.
  - by rewrite js_sort_perm.
  - by left.
  - right. split; [done|]. eapply Forall_impl; [exact Hall|]. simpl. lia.
Qed.

Lemma merge_history_keeps current incoming :
  Forall (λ m, valid m = true) current → NoDup (message_id <$> current) → Forall (λ m, entry_ok (message_id m, m)) incoming →
  (∀ m, m ∈ current → ∃ m', same_message m m' ∧ in_window m' (mergeHistory current incoming)) ∧
  (∀ m, m ∈ incoming → ∃ m', message_id m' = message_id m ∧ in_window m' (mergeHistory current incoming)).
Proof.
  intros Hv Hn Hi. assert (Forall (λ m, entry_ok (message_id m, m)) current) as Hc.
  { eapply Forall_impl; [exact Hv|]. intros m. apply valid_entry. }
  assert (index_ok []) as H0 by (by left).
  assert (index_ok (by_id current)) as Hok by (apply (by_id_get current [] JNull Hn Hc H0)).
  destruct (merge_all (by_id current) incoming Hi Hok) as (Hok' & Hk & Hin). split.
  - intros m Hm. pose proof (proj1 (proj2 (by_id_get current [] m Hn Hc H0)) Hm) as Hg.
    rewrite Forall_forall in Hc. destruct (Hc _ Hm) as (fs & Hfs & _). simpl in Hfs.
    destruct (Hk (message_id m) fs) as (fs' & Hg' & Hs); [by rewrite <-Hfs|]. exists (JObj fs'). rewrite Hfs. split; [done|].
    apply sorted_window. apply get_In in Hg'; [|done]. by apply (list_elem_of_fmap_2 snd) in Hg'.
  - intros m Hm. destruct (Hin m Hm) as (fs & Hg). exists (JObj fs). split.
    + destruct (Hok' (message_id m)) as [?|(fs' & Hg' & Hid)]; [congruence|]. unfold message_id at 1. simpl.
      assert (fs' = fs) as -> by congruence. by rewrite Hid.
    + apply sorted_window. apply get_In in Hg; [|done]. by apply (list_elem_of_fmap_2 snd) in Hg.
Qed.
End merging.

(** ** Writes and reads under concurrent writers *)
Lemma attempts_ok {St A} (one : nat → St → res (option A) * St) msg n k st a st' :
  attempts one msg n k st = (Ok a, st') → ∃ k' st1, one k' st1 = (Ok (Some a), st').
Proof.
  revert k st. induction n as [|n IH]; intros k st; simpl; [done|].
  destruct (one k st) as [[[b|]|e] st1] eqn:E; [|apply IH|done]. intros [= <- <-]. by exists k, st.
Qed.

Lemma decode_ok date_parse bytes l :
  decode date_parse bytes = Ok l → Forall (λ m, valid date_parse m = true) l ∧ (length l ≤ MAX_MESSAGES)%nat.
Proof.
  destruct bytes as [b|]; simpl; [|intros [= <-]; split; [constructor|simpl; lia]].
  intros H. res_inv H. destruct x as [| | | | |vs|]; try done. destruct (_ || _) eqn:E; [done|]. injection H as <-.
  rewrite orb_false_iff in E. destruct E as [E1 E2]. unfold too_long in E1. apply bool_decide_eq_false in E1. split; [|lia].
  apply Forall_forall. intros m Hm. destruct (valid date_parse m) eqn:Ev; [done|].
  assert (existsb (λ v, negb (valid date_parse v)) vs = true); [|congruence].
  apply existsb_exists. exists m. by rewrite <-list_elem_of_In, Ev.
Qed.

(** A message of the user interface that has an identifier. *)
Definition identified (m : Message) : Prop := ∃ id, get (fields m) "id" = JStr id.

Lemma toStored_entry to_iso m : identified m → entry_ok (message_id (toStored to_iso m), toStored to_iso m).
Proof.
  intros (id & Hid). assert (oprop (toStored to_iso m) "id" = JStr id) as Ho by (simpl; by rewrite get_set_key).
  eexists. split; [reflexivity|]. simpl in *. unfold message_id. simpl. by rewrite Ho.
Qed.

Section concurrent.
Context (date_parse : string → option Z) (to_iso : Z → string).
Context `{SecureStorageLaws St}.
Context (others : nat → nat → St → St) (roomId : string).

(** a save of the history that succeeds commits, in one swap on the record [st0] it finds at that moment
    (whatever other tabs wrote before): every message saved in [st0] survives with its sender, text and time, its
    delivery not moved back, and every message of the user interface is in the history, unless 2000 messages no
    older than it are; no other record changes. *)
Theorem write_messages_keeps_history messages st st' :
  Forall identified messages →
  writeMessages date_parse to_iso true others roomId messages st = (Ok tt, st') →
  ∃ st0 current merged, decode date_parse (read st0 TYPE roomId) = Ok current ∧
    read st' TYPE roomId = Some (stringify (JArr merged)) ∧
    (∀ t i, (t, i) ≠ (TYPE, roomId) → read st' t i = read st0 t i) ∧
    (NoDup (message_id <$> current) →
      (∀ m, m ∈ current → ∃ m', same_message m m' ∧ in_window date_parse m' merged) ∧
      (∀ m, m ∈ messages → ∃ m', message_id m' = message_id (JObj (fields m)) ∧ in_window date_parse m' merged)).
Proof.
  intros Hid Hrun. unfold writeMessages in Hrun. apply attempts_ok in Hrun as (k & st1 & Hrun).
  unfold writeMessages_attempt in Hrun. destruct (decode date_parse _) as [current|] eqn:Ed; [|done].
  set (m := mergeHistory date_parse current (toStored to_iso <$> messages)) in *.
  change (compareAndSwapRecords [update_of roomId (read st1 TYPE roomId) (encode m)] (others k 0%nat st1))
    with (swap_record TYPE roomId (read st1 TYPE roomId) (encode m) (others k 0%nat st1)) in Hrun.
  destruct (swap_record _ _ _ _ _) as [[] st2] eqn:Es; [|done]. injection Hrun as <-.
  exists (others k 0%nat st1), current, m.
  assert ((swap_record TYPE roomId (read st1 TYPE roomId) (encode m) (others k 0%nat st1)).1 = true) as Hs by (by rewrite Es).
  split_and!.
  - apply swap_record_true in Hs. by rewrite Hs.
  - apply swap_record_read in Hs. rewrite Es in Hs. simpl in Hs. rewrite Hs. unfold encode. do 3 f_equal. apply take_last_all.
    unfold m, mergeHistory. apply take_last_length.
  - intros t i Hne. replace st2 with (swap_record TYPE roomId (read st1 TYPE roomId) (encode m) (others k 0%nat st1)).2 by (by rewrite Es).
    by apply swap_record_other.
  - intros Hn. apply decode_ok in Ed as [Hv _].
    assert (Forall (λ m, entry_ok (message_id m, m)) (toStored to_iso <$> messages)) as Hi.
    { apply Forall_fmap. eapply Forall_impl; [exact Hid|]. intros x Hx. by apply toStored_entry. }
    destruct (merge_history_keeps date_parse current _ Hv Hn Hi) as [Hc Hin]. split; [done|].
    intros x Hx. destruct (Hin (toStored to_iso x)) as (m' & Hm' & Hw); [by apply list_elem_of_fmap_2|].
    exists m'. split; [|done]. rewrite Hm'. unfold message_id, toStored. simpl. by rewrite get_set_key.
Qed.

Lemma quarantined_elem i values v :
  v ∈ values → valid date_parse v = true ∨ ∃ j, quarantine_entry (i + j) v ∈ quarantined date_parse i values ∧ values !! j = Some v.
Proof.
  revert i. induction values as [|x l IH]; intros i Hv; [set_solver|]. simpl.
  apply elem_of_cons in Hv as [->|Hv].
  - destruct (valid date_parse x) eqn:E; [by left|right]. exists 0%nat. rewrite Nat.add_0_r. split; [set_solver|done].
  - destruct (IH (S i) Hv) as [?|(j & Hj & Hl)]; [by left|right]. exists (S j).
    replace (i + S j)%nat with (S i + j)%nat by lia. split; [|done]. apply elem_of_app. by right.
Qed.

Lemma filter_valid_all values :
  length (List.filter (valid date_parse) values) = length values → List.filter (valid date_parse) values = values.
Proof.
  induction values as [|v l IH]; simpl; [done|]. destruct (valid date_parse v); simpl; intros E; [f_equal; apply IH; lia|].
  pose proof (filter_length_le (valid date_parse) l). lia.
Qed.

(** reading a history with invalid entries loses none of them. The messages shown are the valid entries of a stored
    history [values], in order; when some entry is invalid, the storage [st0] that holds [values] is replaced in one
    swap: the valid entries remain the history, every other entry joins the entries already quarantined, with its
    position, and no other record changes. *)
Theorem read_messages_loses_nothing st st' ms :
  readMessages date_parse true others roomId st = (Ok ms, st') →
  ∃ values, ms = fromStored date_parse <$> List.filter (valid date_parse) values ∧
    ((∀ v, v ∈ values → valid date_parse v = true) ∧
       (read st' TYPE roomId = None ∧ values = [] ∨ ∃ text, read st' TYPE roomId = Some text ∧ parseHistoryArray text = Ok values)
     ∨ ∃ st0 text prior entries, read st0 TYPE roomId = Some text ∧ parseHistoryArray text = Ok values ∧
         readQuarantine (read st0 QUARANTINE_TYPE roomId) = Ok prior ∧
         read st' TYPE roomId = Some (stringify (JArr (List.filter (valid date_parse) values))) ∧
         read st' QUARANTINE_TYPE roomId = Some (quarantine_text (prior ++ entries)) ∧
         (∀ v, v ∈ values → valid date_parse v = true ∨ ∃ i, values !! i = Some v ∧ quarantine_entry i v ∈ entries) ∧
         ∀ t i, (t, i) ≠ (TYPE, roomId) → (t, i) ≠ (QUARANTINE_TYPE, roomId) → read st' t i = read st0 t i).
Proof.
  intros Hrun. apply attempts_ok in Hrun as (k & st1 & Hrun). unfold readMessages_attempt in Hrun.
  destruct (read st1 TYPE roomId) as [text|] eqn:Et.
  2: { injection Hrun as <- <-. exists []. split; [done|]. left. split; [set_solver|]. by left. }
  destruct (parseHistoryArray text) as [values|] eqn:Ep; [|done]. exists values.
  destruct (length _ =? length _)%nat eqn:El.
  { injection Hrun as <- <-. split; [done|]. left. apply Nat.eqb_eq, filter_valid_all in El.
    split; [|right; by exists text]. intros v. rewrite list_elem_of_In, <-El, filter_In. by intros []. }
  simpl in Hrun. set (st2 := others k 0%nat st1) in *. destruct (readQuarantine _) as [prior|] eqn:Eq; [|done].
  destruct (MAX_QUARANTINE_BYTES <? _) eqn:Em; [done|].
  match type of Hrun with context [compareAndSwapRecords ?us ?s0] => set (updates := us) in *; set (st0 := s0) in * end.
  destruct (compareAndSwapRecords updates st0) as [ok st3] eqn:Es. destruct ok; [|done]. injection Hrun as <- <-.
  assert (NoDup (update_key <$> updates)) as Hn by (apply NoDup_cons; split; [set_solver|apply NoDup_singleton]).
  assert ((compareAndSwapRecords updates st0).1 = true) as Hs by (by rewrite Es).
  pose proof Hs as He. rewrite cas_result in He by done. unfold expectations_hold in He. simpl in He.
  rewrite !andb_true_iff, !bool_decide_eq_true in He. destruct He as (Hq & Ht & _).
  split; [done|]. right. exists st0, text, prior, (quarantined date_parse 0 values). split_and!.
  - done.
  - done.
  - by rewrite Hq.
  - pose proof (cas_written st0 updates _ Hn Hs (list_elem_of_further _ _ _ (list_elem_of_here _ _))) as Hw.
    rewrite Es in Hw. simpl in Hw. rewrite Hw. unfold encode. do 3 f_equal. apply take_last_all.
    assert (length values ≤ MAX_MESSAGES)%nat; [|pose proof (filter_length_le (valid date_parse) values); lia].
    unfold parseHistoryArray in Ep. res_inv Ep. destruct x; try done. destruct (too_long l) eqn:E; [done|].
    injection Ep as ->. unfold too_long in E. apply bool_decide_eq_false in E. lia.
  - pose proof (cas_written st0 updates _ Hn Hs (list_elem_of_here _ _)) as Hw. by rewrite Es in Hw.
  - intros v Hv. destruct (quarantined_elem 0 values v Hv) as [?|(j & Hj & Hl)]; [by left|right]. by exists j.
  - intros t i H1 H2. pose proof (cas_other st0 updates t i) as Ho. rewrite Es in Ho. apply Ho. set_solver.
Qed.
End concurrent.

(** A concrete history: two saved messages, one of them without a text. *)
Module MessagesDemo.
Definition dates (s : string) : option Z := Some (strlen s).
Definition iso (t : Z) : string := "t".
Definition room : string := "room-1".
Definition saved (id text : string) : list (string * jsval) :=
  [("id", JStr id); ("sender", JStr "a"); ("text", JStr text); ("type", JStr "received"); ("timestamp", JStr "t")].
Definition good : jsval := JObj (saved "m1" "hello").
Definition broken : jsval := JObj [("id", JStr "m2")].
Definition later : jsval := JObj (saved "m3" "from another tab").
Definition shown : Message := {| fields := saved "m1" "hello" ++ [("delivery", JStr "accepted")]; m_timestamp := 1 |}.
Definition store (l : list jsval) : memory := {[ (TYPE, room) := encode l ]}.
Definition quiet (_ _ : nat) (st : memory) : memory := st.
(** another tab saves a message before the first attempt's swap *)
Definition busy (attempt _ : nat) (st : memory) : memory :=
  match attempt with O => write TYPE room (encode [good; later]) st | _ => st end.
End MessagesDemo.

Example write_demo :
  read (writeMessages MessagesDemo.dates MessagesDemo.iso true MessagesDemo.busy MessagesDemo.room [MessagesDemo.shown]
    (MessagesDemo.store [MessagesDemo.good])).2 TYPE MessagesDemo.room =
  Some (encode [JObj (MessagesDemo.saved "m1" "hello" ++ [("delivery", JStr "accepted")]); MessagesDemo.later]).
Proof. vm_compute. reflexivity. Qed.

Lemma write_messages_keeps_history_witness :
  ∃ st0 current merged, decode MessagesDemo.dates (read st0 TYPE MessagesDemo.room) = Ok current ∧
    read (writeMessages MessagesDemo.dates MessagesDemo.iso true MessagesDemo.busy MessagesDemo.room [MessagesDemo.shown]
      (MessagesDemo.store [MessagesDemo.good])).2 TYPE MessagesDemo.room = Some (stringify (JArr merged)).
Proof.
  destruct (writeMessages MessagesDemo.dates MessagesDemo.iso true MessagesDemo.busy MessagesDemo.room [MessagesDemo.shown]
    (MessagesDemo.store [MessagesDemo.good])) as [r st'] eqn:E.
  assert (r = Ok tt) as -> by (change r with (r, st').1; rewrite <-E; vm_compute; reflexivity).
  destruct (write_messages_keeps_history MessagesDemo.dates MessagesDemo.iso MessagesDemo.busy MessagesDemo.room
    [MessagesDemo.shown] (MessagesDemo.store [MessagesDemo.good]) st') as (st0 & cur & m & Hd & Hr & _).
  - apply Forall_singleton. by exists "m1".
  - exact E.
  - exists st0, cur, m. split; [exact Hd|exact Hr].
Defined.

Lemma read_messages_loses_nothing_witness :
  ∃ values, (readMessages MessagesDemo.dates true MessagesDemo.quiet MessagesDemo.room
      (MessagesDemo.store [MessagesDemo.good; MessagesDemo.broken])).1
    = Ok (fromStored MessagesDemo.dates <$> List.filter (valid MessagesDemo.dates) values).
Proof.
  destruct (readMessages MessagesDemo.dates true MessagesDemo.quiet MessagesDemo.room
    (MessagesDemo.store [MessagesDemo.good; MessagesDemo.broken])) as [r st'] eqn:E.
  assert (r = Ok [fromStored MessagesDemo.dates MessagesDemo.good]) as ->
    by (change r with (r, st').1; rewrite <-E; vm_compute; reflexivity).
  destruct (read_messages_loses_nothing MessagesDemo.dates MessagesDemo.quiet MessagesDemo.room
    (MessagesDemo.store [MessagesDemo.good; MessagesDemo.broken]) st' _ E) as (values & Hms & _).
  exists values. simpl. by rewrite <-Hms.
Defined.
