(* ===== verification/Sessions.v ===== *)
(** * Saved conversations ([client/src/product/sessionStore.ts], [profileMetadata.ts])

    The list of saved conversations and the markers of removed ones, two JSON arrays of the secure storage that every
    change swaps together. A descriptor is the list of fields of its JSON object. [others n k] is what other tabs do
    to the storage during attempt [n] of a change, between its reads; [now] is the clock. A failure with a
    [safeDiagnosticCode] is an error with that code as its message. *)
From S2P Require Import Prelude Json Storage ContactRegistry.

Definition RECORD_TYPE : string := "product-session".
Definition RECORD_ID : string := "conversations".
Definition REMOVALS_ID : string := "conversation-removals".
Definition CONVERSATION_WINDOW : nat := Z.to_nat 1000.
Definition MAX_CONFLICT_RETRIES : nat := 64.

Definition room_ok (s : string) : bool := uuid_strict s.

(** [String.prototype.trim] on U+0000-U+00FF *)
Definition is_space (c : ascii) : bool := in_range 9 13 c || (code c =? 32) || (code c =? 160).
Fixpoint trim_start (s : string) : string :=
  match s with String c s' => if is_space c then trim_start s' else s | EmptyString => s end.
Fixpoint trim_end (s : string) : string :=
  match s with
  | EmptyString => EmptyString
  | String c s' => match trim_end s' with EmptyString => if is_space c then EmptyString else String c EmptyString | t => String c t end
  end.
Definition trim (s : string) : string := trim_end (trim_start s).

(** [/^K3 [A-Z0-9_ -]{20,128}$/] *)
Definition commitment_ok (s : string) : bool :=
  match strip_prefix "K3 " s with
  | Some r => (20 <=? strlen r) && (strlen r <=? 128) &&
      forall_chars (λ c, is_upper c || is_digit c || existsb (Z.eqb (code c)) [95; 32; 45]) r
  | None => false
  end.

Definition undefined (v : jsval) : bool := bool_decide (v = JUndef).
Definition is_bool (v : jsval) : bool := match v with JBool _ => true | _ => false end.
Definition str_such (P : string → bool) (v : jsval) : bool := match v with JStr s => P s | _ => false end.
Definition safe_nonneg (v : jsval) : bool := match js_safe_int v with Some z => 0 <=? z | None => false end.
Definition nickname_ok (s : string) : bool :=
  nonempty (trim s) && (strlen s <=? 80) && forall_chars (λ c, negb (is_control c)) s.

(** The object literal with the keys whose value is present. *)
Definition present (l : list (string * option jsval)) : fields := omap (λ '(k, o), pair k <$> o) l.
Definition if_some {A} (b : bool) (v : A) : option A := if b then Some v else None.
Definition trimmed (v : jsval) : jsval := match v with JStr s => JStr (trim s) | _ => v end.

(** The check each field must pass; an optional field may be absent. *)
Definition optional (P : jsval → bool) (v : jsval) : bool := undefined v || P v.
Definition descriptor_checks : list (string * (jsval → bool)) :=
  [("relationship", optional (λ v, includes ["invitation"; "accepted"] (js_String v)));
   ("version", λ v, bool_decide (v = JNum (NInt 1))); ("roomId", str_such room_ok);
   ("controlCapability", str_such (base64url_between 43 43));
   ("remoteAddress", optional (str_such (λ s, 8 <=? strlen s)));
   ("remoteIdentityCommitment", optional (str_such commitment_ok));
   ("bootstrapState", optional (λ v, includes ["PENDING_LOCAL"; "PENDING_REMOTE"; "ESTABLISHED"; "FAILED_OR_UNSUPPORTED"] (js_String v)));
   ("signedInvitation", optional (λ v, bool_decide (oprop v "version" = JNum (NInt 2))));
   ("pendingInvitationExpiresAt", optional safe_nonneg); ("localNickname", optional (str_such nickname_ok));
   ("locallyDismissed", optional is_bool); ("locallyArchived", optional is_bool);
   ("label", str_such (λ s, nonempty (trim s) && (strlen s <=? 80))); ("updatedAt", safe_nonneg)].
Definition descriptor_ok (item : fields) : bool := forallb (λ kc, kc.2 (get item kc.1)) descriptor_checks.
Definition clean_descriptor (item : fields) : fields :=
  let keep k := if_some (truthy (get item k)) (get item k) in
  present
    [("version", Some (JNum (NInt 1)));
     ("relationship", if_some (bool_decide (get item "relationship" = JStr "invitation") ||
                               bool_decide (get item "relationship" = JStr "accepted")) (get item "relationship"));
     ("roomId", Some (get item "roomId")); ("controlCapability", Some (get item "controlCapability"));
     ("remoteAddress", keep "remoteAddress"); ("remoteIdentityCommitment", keep "remoteIdentityCommitment");
     ("signedInvitation", keep "signedInvitation");
     ("pendingInvitationExpiresAt", if_some (safe_nonneg (get item "pendingInvitationExpiresAt")) (get item "pendingInvitationExpiresAt"));
     ("bootstrapState", keep "bootstrapState"); ("label", Some (trimmed (get item "label")));
     ("localNickname", if_some (str_such nickname_ok (get item "localNickname")) (trimmed (get item "localNickname")));
     ("locallyDismissed", if_some (is_bool (get item "locallyDismissed")) (get item "locallyDismissed"));
     ("locallyArchived", if_some (is_bool (get item "locallyArchived")) (get item "locallyArchived"));
     ("updatedAt", Some (get item "updatedAt"))].
(* client/src/product/sessionStore.ts:46-79 validateConversationDescriptor *)
Definition validateConversationDescriptor (value : jsval) : res fields :=
  match value with
  | JObj item => if descriptor_ok item then mret (clean_descriptor item) else Err "Saved conversation is invalid."
  | _ => Err "Saved conversation is invalid."
  end.

(** ** Profiles ([profileMetadata.ts]) *)
Definition PROFILE_PREFIX : string := "k3ncrypt-profile:".
Definition PROFILE_TYPE : string := "product-remote-profile".
Definition MAX_DISPLAY_NAME_BYTES : Z := 160.

(** [replace(/\s+/g, ' ')] *)
Fixpoint collapse (in_run : bool) (s : string) : string :=
  match s with
  | EmptyString => EmptyString
  | String c s' => if is_space c then (if in_run then collapse true s' else String " " (collapse true s')) else String c (collapse false s')
  end.
(* client/src/product/profileMetadata.ts:10-16 normalizeDisplayName *)
Definition normalizeDisplayName (value : jsval) : res string :=
  match value with
  | JStr s =>
      let name := collapse false (trim s) in
      throw_if (negb (nonempty name) || (40 <? strlen name) || (MAX_DISPLAY_NAME_BYTES <? utf8_length name) ||
                negb (forall_chars (λ c, negb (is_control c || in_range 128 159 c)) s))
        "Display name must be 1-40 characters and at most 160 UTF-8 bytes.";;
      mret name
  | _ => Err "Display name is invalid."
  end.

(* client/src/product/profileMetadata.ts:6-6 ClaimedProfile *)
Record ClaimedProfile := { displayName : string; identityFingerprint : string; revision : Z }.
Definition profile_json (p : ClaimedProfile) : jsval :=
  JObj [("version", JNum (NInt 1)); ("displayName", JStr (displayName p));
    ("identityFingerprint", JStr (identityFingerprint p)); ("revision", JNum (NInt (revision p)))].
(** [Object.keys(item).sort().join(',') === expected] *)
Definition sorted_keys (item : fields) : string := join (js_sort string_cmp (keys item)).

(* client/src/product/profileMetadata.ts:18-26 parse *)
Definition parse_profile (value : jsval) : option ClaimedProfile :=
  match value with
  | JObj item =>
      match get item "identityFingerprint", js_safe_int (get item "revision"), normalizeDisplayName (get item "displayName") with
      | JStr f, Some r, Ok name =>
          if String.eqb (sorted_keys item) "displayName,identityFingerprint,revision,version" &&
             bool_decide (get item "version" = JNum (NInt 1)) && commitment_ok f && (1 <=? r)
          then Some {| displayName := name; identityFingerprint := f; revision := r |} else None
      | _, _, _ => None
      end
  | _ => None
  end.
(* client/src/product/profileMetadata.ts:28-32 encodeProfileMessage *)
Definition encodeProfileMessage (profile : ClaimedProfile) : res string :=
  p ← require (parse_profile (profile_json profile)) "Profile metadata is invalid.";
  mret (PROFILE_PREFIX +:+ stringify (profile_json p)).
(* client/src/product/profileMetadata.ts:34-37 decodeProfileMessage *)
Definition decodeProfileMessage (text : string) : option ClaimedProfile :=
  rest ← strip_prefix PROFILE_PREFIX text;
  if 1024 <? utf8_length text then None else v ← parse rest; parse_profile v.

Section store.
Context `{SecureStorage St}.

(* client/src/product/profileMetadata.ts:39-46 readRemoteProfile *)
Definition readRemoteProfile (roomId : string) (fingerprint : option string) (st : St) : option ClaimedProfile :=
  bytes ← read st PROFILE_TYPE roomId; f ← fingerprint;
  v ← parse bytes; p ← parse_profile v;
  if nonempty f && String.eqb (identityFingerprint p) f then Some p else None.

(* client/src/product/profileMetadata.ts:49-56 prepareProfileAcceptance *)
Definition prepareProfileAcceptance (roomId text : string) (fingerprint : option string) (st : St) : list SecureRecordUpdate :=
  match decodeProfileMessage text, fingerprint with
  | Some profile, Some f =>
      if negb (nonempty f) || negb (String.eqb (identityFingerprint profile) f) then [] else
      let store := [{| recordType := PROFILE_TYPE; recordId := roomId; expected := read st PROFILE_TYPE roomId;
                       next := stringify (profile_json profile) |}] in
      match readRemoteProfile roomId fingerprint st with
      | Some current => if revision profile <=? revision current then [] else store
      | None => store
      end
  | _, _ => []
  end.

(** ** The conversation list *)
Definition num_of (v : jsval) : Z := match v with JNum (NInt z) => z | _ => 0 end.
Definition room_of (d : fields) : string := js_String (get d "roomId").
(** newest first *)
Definition newest (l : list fields) : list fields :=
  take CONVERSATION_WINDOW (js_sort (λ a b, num_of (get b "updatedAt") - num_of (get a "updatedAt")) l).
Fixpoint distinct_descriptors (seen : list string) (values : list jsval) : list fields :=
  match values with
  | [] => []
  | v :: l =>
      match validateConversationDescriptor v with
      | Ok item => if existsb (String.eqb (room_of item)) seen then distinct_descriptors seen l
                   else item :: distinct_descriptors (room_of item :: seen) l
      | Err _ => distinct_descriptors seen l
      end
  end.
Definition js_opt_str (v : jsval) : option string := match v with JStr s => Some s | _ => None end.
Definition with_profile (st : St) (item : fields) : fields :=
  let commitment := js_opt_str (get item "remoteIdentityCommitment") in
  let pinned :=
    match get item "remoteAddress" with
    | JStr address =>
        match bytes ← read st "contact-identity" address; parse bytes with
        | Some (JObj contact) =>
            if bool_decide (get contact "identityId" = get item "remoteIdentityCommitment") &&
               existsb (String.eqb "identityId") (keys contact) && bool_decide (get contact "changeStatus" = JStr "unchanged")
            then commitment else None
        | _ => None
        end
    | _ => commitment
    end in
  spread item [("remoteDisplayName", match readRemoteProfile (room_of item) pinned st with Some p => JStr (displayName p) | None => JUndef end)].

(* client/src/product/sessionStore.ts:81-106 readConversationDescriptors *)
Definition readConversationDescriptors (projectProfiles : bool) (st : St) : list fields :=
  match bytes ← read st RECORD_TYPE RECORD_ID; parse bytes with
  | Some (JArr parsed) =>
      let found := newest (distinct_descriptors [] parsed) in
      if projectProfiles then with_profile st <$> found else found
  | _ => []
  end.

(* client/src/product/sessionStore.ts:110-114 decodeArray *)
Definition decodeArray (bytes : option string) : res (list jsval) :=
  match bytes with
  | None => mret []
  | Some b => v ← require (parse b) "SyntaxError"; require (as_array v) "Saved conversation list is invalid."
  end.
(* client/src/product/sessionStore.ts:116-118 roomOf *)
Definition roomOf (value : jsval) : option string :=
  match validateConversationDescriptor value with Ok d => Some (room_of d) | Err _ => None end.

(** The state a change is computed from, and the swap it makes. *)
Definition is_room (roomId : string) (v : jsval) : bool := bool_decide (roomOf v = Some roomId).
Definition plan (roomId : string) (change : option (option fields → res fields)) (raw removals : list jsval)
    : res (list jsval * list jsval) :=
  throw_if (existsb (λ v, negb (str_such room_ok v)) removals) "Saved removal markers are invalid.";;
  let removed := existsb (λ v, bool_decide (v = JStr roomId)) removals in
  throw_if (bool_decide (is_Some change) && removed) "CONVERSATION_REMOVED";;
  let matches := List.filter (is_room roomId) raw in
  throw_if (1 <? Z.of_nat (length matches)) "Saved conversation is invalid.";;
  current ← match matches with [] => mret None | m :: _ => d ← validateConversationDescriptor m; mret (Some d) end;
  let retained := List.filter (λ v, negb (is_room roomId v)) raw in
  match change with
  | None => mret (retained, if removed then removals else removals ++ [JStr roomId])
  | Some f =>
      next ← f current;
      throw_if (bool_decide (current = None) &&
                (Z.of_nat CONVERSATION_WINDOW <=? Z.of_nat (length (List.filter (λ v, bool_decide (is_Some (roomOf v))) raw))))
        "CONVERSATION_INDEX_LIMIT";;
      mret (JObj (spread (default [] (m ← head matches; as_object m)) next) :: retained, removals)
  end.

Context (others : nat → nat → St → St).

(* client/src/product/sessionStore.ts:121-148 mutate *)
Fixpoint mutate_loop (n : nat) (attempt : nat) (roomId : string) (change : St → option (option fields → res fields)) (st : St)
    : res (list fields) * St :=
  match n with
  | O => (Err "CONVERSATION_STORAGE_CONFLICT", st)
  | S n' =>
      let bytes := read st RECORD_TYPE RECORD_ID in
      let removalsBytes := read st RECORD_TYPE REMOVALS_ID in
      let st := others attempt 0%nat st in
      match raw ← decodeArray bytes; removals ← decodeArray removalsBytes; plan roomId (change st) raw removals with
      | Err e => (Err e, st)
      | Ok (nextRaw, nextRemovals) =>
          let '(ok, st) := compareAndSwapRecords
            [{| recordType := RECORD_TYPE; recordId := RECORD_ID; expected := bytes; next := stringify (JArr nextRaw) |};
             {| recordType := RECORD_TYPE; recordId := REMOVALS_ID; expected := removalsBytes; next := stringify (JArr nextRemovals) |}]
            (others attempt 1%nat st) in
          if ok then (Ok (readConversationDescriptors false st), st)
          else mutate_loop n' (S attempt) roomId change (others attempt 2%nat st)
      end
  end.
Definition mutate (roomId : string) (change : St → option (option fields → res fields)) (st : St) : res (list fields) * St :=
  if negb (room_ok roomId) then (Err "Saved conversation is invalid.", st)
  else mutate_loop MAX_CONFLICT_RETRIES 0 roomId change st.

Definition field_is (d : fields) (k s : string) : bool := bool_decide (get d k = JStr s).
Definition or_else (a b : jsval) : jsval := nullish a b.

(* client/src/product/sessionStore.ts:151-162 saveConversationDescriptor *)
Definition save_change (valid : fields) (current : option fields) : res fields :=
  match current with
  | None => mret valid
  | Some c =>
      throw_if (negb (bool_decide (get c "controlCapability" = get valid "controlCapability")) ||
                truthy (get c "remoteAddress") && negb (bool_decide (get c "remoteAddress" = get valid "remoteAddress")) ||
                truthy (get c "remoteIdentityCommitment") &&
                  negb (bool_decide (get c "remoteIdentityCommitment" = get valid "remoteIdentityCommitment")))
        "ROOM_MEMBERSHIP_MISMATCH";;
      validateConversationDescriptor (JObj (spread (spread c valid)
        [("signedInvitation", or_else (get c "signedInvitation") (get valid "signedInvitation"));
         ("bootstrapState", if field_is c "bootstrapState" "ESTABLISHED" then get c "bootstrapState"
                            else or_else (get valid "bootstrapState") (get c "bootstrapState"));
         ("relationship", if field_is c "relationship" "accepted" then get c "relationship"
                          else or_else (get valid "relationship") (get c "relationship"));
         ("localNickname", or_else (get valid "localNickname") (get c "localNickname"));
         ("locallyArchived", get c "locallyArchived")]))
  end.
Definition saveConversationDescriptor (descriptor : jsval) (st : St) : res (list fields) * St :=
  match validateConversationDescriptor descriptor with
  | Err e => (Err e, st)
  | Ok valid => mutate (room_of valid) (λ _, Some (save_change valid)) st
  end.

(** A patch is a list of the fields [ConversationPatch] names. *)
(* client/src/product/sessionStore.ts:165-180 updateConversationDescriptor *)
Definition update_change (patch : fields) (now : Z) (st : St) (current : option fields) : res fields :=
  match current with
  | None => Err "CONVERSATION_REMOVED"
  | Some c =>
      let has k := existsb (String.eqb k) (keys patch) in
      throw_if (has "remoteAddress" && negb (truthy (get patch "remoteAddress")) ||
                has "remoteIdentityCommitment" && negb (truthy (get patch "remoteIdentityCommitment"))) "ROOM_MEMBERSHIP_MISMATCH";;
      throw_if (truthy (get patch "remoteAddress") && truthy (get c "remoteAddress") &&
                negb (bool_decide (get patch "remoteAddress" = get c "remoteAddress"))) "ROOM_MEMBERSHIP_MISMATCH";;
      (if truthy (get patch "remoteIdentityCommitment") &&
          negb (bool_decide (get patch "remoteIdentityCommitment" = get c "remoteIdentityCommitment"))
       then
         let address := or_else (get patch "remoteAddress") (get c "remoteAddress") in
         contact ← match address with
                   | JStr a => if nonempty a then
                       match read st "contact-identity" a with Some b => require (parse b) "SyntaxError" | None => mret JUndef end
                       else mret JUndef
                   | _ => mret JUndef
                   end;
         throw_if (match contact with
                   | JObj fs => negb (bool_decide (get fs "identityId" = get patch "remoteIdentityCommitment")) ||
                                negb (bool_decide (get fs "contactId" = address))
                   | _ => true end) "ROOM_MEMBERSHIP_MISMATCH"
       else mret tt);;
      validateConversationDescriptor (JObj (spread (spread c patch)
        [("updatedAt", JNum (NInt now));
         ("bootstrapState", if field_is c "bootstrapState" "ESTABLISHED" then JStr "ESTABLISHED"
                            else or_else (get patch "bootstrapState") (get c "bootstrapState"));
         ("relationship", if field_is c "relationship" "accepted" then JStr "accepted"
                          else or_else (get patch "relationship") (get c "relationship"))]))
  end.
Definition updateConversationDescriptor (roomId : string) (patch : fields) (now : Z) (st : St) : res (list fields) * St :=
  mutate roomId (λ st, Some (update_change patch now st)) st.

(* client/src/product/sessionStore.ts:182-184 removeConversationDescriptor *)
Definition removeConversationDescriptor (roomId : string) (st : St) : res (list fields) * St :=
  mutate roomId (λ _, None) st.
End store.

(** ** Descriptors *)
Lemma get_present_cons k o l k' :
  k ∉ l.*1 → get (present ((k, o) :: l)) k' = if String.eqb k' k then default JUndef o else get (present l) k'.
Proof.
  intros Hk. unfold present. simpl. destruct o as [v|]; simpl; [done|].
  destruct (String.eqb_spec k' k) as [->|]; [|done]. simpl. apply get_absent. intros Hin. apply Hk.
  unfold keys in Hin. apply list_elem_of_fmap in Hin as ((k0 & v0) & -> & Hin).
  apply list_elem_of_omap in Hin as ((k1 & o1) & Hin & Ho). destruct o1; [|done]. injection Ho as -> ->.
  by apply (list_elem_of_fmap_2 fst) in Hin.
Qed.

Lemma trim_start_length s : strlen (trim_start s) <= strlen s.
Proof. unfold strlen. induction s as [|c s IH]; simpl; [lia|]. destruct (is_space c); simpl; lia. Qed.
Lemma trim_end_length s : strlen (trim_end s) <= strlen s.
Proof.
  unfold strlen. induction s as [|c s IH]; [done|]. simpl.
  destruct (trim_end s); [destruct (is_space c); simpl; lia|simpl in *; lia].
Qed.
Lemma trim_length s : strlen (trim s) <= strlen s.
Proof. unfold trim. pose proof (trim_end_length (trim_start s)). pose proof (trim_start_length s). lia. Qed.

Lemma trim_chars P s : forall_chars P s = true → forall_chars P (trim s) = true.
Proof.
  unfold trim. intros H. assert (forall_chars P (trim_start s) = true) as Hs.
  { induction s as [|c s IH]; simpl in *; [done|]. apply andb_true_iff in H as [Hc H]. destruct (is_space c); [by apply IH|].
    simpl. by rewrite Hc. }
  revert Hs. generalize (trim_start s). clear. induction s as [|c s IH]; simpl; [done|]. intros [Hc Hs]%andb_true_iff.
  specialize (IH Hs). destruct (trim_end s); [destruct (is_space c); simpl; by rewrite ?Hc|simpl in *; by rewrite Hc].
Qed.

(** Trimming twice is trimming once. *)
Lemma trim_start_head s : match trim_start s with EmptyString => True | String c _ => is_space c = false end.
Proof. induction s as [|c s IH]; simpl; [done|]. destruct (is_space c) eqn:E; [done|by simpl]. Qed.
Lemma trim_end_idem s : trim_end (trim_end s) = trim_end s.
Proof.
  induction s as [|c s IH]; [done|]. cbn [trim_end].
  destruct (trim_end s) as [|c' t] eqn:E; [destruct (is_space c) eqn:Ec; cbn; by rewrite ?Ec|].
  cbn [trim_end] in *. by rewrite IH.
Qed.
Lemma trim_idem s : trim (trim s) = trim s.
Proof.
  unfold trim. pose proof (trim_start_head s) as Hh. destruct (trim_start s) as [|c t]; [done|].
  assert (∃ t', trim_end (String c t) = String c t') as [t' E].
  { cbn [trim_end]. destruct (trim_end t); [rewrite Hh|]; by eexists. }
  rewrite E. cbn [trim_start]. rewrite Hh. rewrite <-E. apply trim_end_idem.
Qed.

Lemma trimmed_ok v : str_such nickname_ok v = true → str_such nickname_ok (trimmed v) = true.
Proof.
  destruct v; try done. simpl. unfold nickname_ok. rewrite trim_idem, !andb_true_iff, !Z.leb_le. intros [[? ?] ?].
  pose proof (trim_length s). split_and!; [done|lia|by apply trim_chars].
Qed.

(** The checks only look at the named fields. *)
Lemma descriptor_ok_iff item : descriptor_ok item = true ↔ ∀ k c, (k, c) ∈ descriptor_checks → c (get item k) = true.
Proof.
  unfold descriptor_ok. rewrite forallb_forall. split.
  - intros H k c Hin. apply (H (k, c)). by apply list_elem_of_In.
  - intros H [k c] Hin. apply H. by apply list_elem_of_In.
Qed.

Lemma descriptor_ok_ext f g : (∀ k, get f k = get g k) → descriptor_ok f = descriptor_ok g ∧ clean_descriptor f = clean_descriptor g.
Proof.
  intros H. split.
  - unfold descriptor_ok. induction descriptor_checks as [|[k c] l IH]; cbn [forallb]; [done|]. cbn [fst snd]. by rewrite H, IH.
  - unfold clean_descriptor. cbv zeta.
    by rewrite (H "relationship"), (H "roomId"), (H "controlCapability"), (H "remoteAddress"), (H "remoteIdentityCommitment"),
      (H "signedInvitation"), (H "pendingInvitationExpiresAt"), (H "bootstrapState"), (H "label"), (H "localNickname"),
      (H "locallyDismissed"), (H "locallyArchived"), (H "updatedAt").
Qed.

Lemma if_some_optional P (b : bool) v : (b = true → P v = true) → optional P (default JUndef (if_some b v)) = true.
Proof. unfold optional. destruct b; simpl; [intros ->; [apply orb_true_r|done]|done]. Qed.

(** What each field of a cleaned descriptor is. *)
Definition clean_field (item : fields) (k : string) : jsval :=
  let v := get item k in
  let keep (b : bool) w := if b then w else JUndef in
  if String.eqb k "version" then JNum (NInt 1)
  else if includes ["roomId"; "controlCapability"; "updatedAt"] k then v
  else if includes ["remoteAddress"; "remoteIdentityCommitment"; "signedInvitation"; "bootstrapState"] k then keep (truthy v) v
  else if String.eqb k "relationship" then keep (bool_decide (v = JStr "invitation") || bool_decide (v = JStr "accepted")) v
  else if String.eqb k "pendingInvitationExpiresAt" then keep (safe_nonneg v) v
  else if String.eqb k "label" then trimmed v
  else if String.eqb k "localNickname" then keep (str_such nickname_ok v) (trimmed v)
  else if includes ["locallyDismissed"; "locallyArchived"] k then keep (is_bool v) v
  else JUndef.

Lemma default_if_some (b : bool) (v : jsval) : default JUndef (if_some b v) = if b then v else JUndef.
Proof. by destruct b. Qed.

Lemma get_clean item k : get (clean_descriptor item) k = clean_field item k.
Proof.
  unfold clean_descriptor, clean_field. cbv zeta.
  repeat (rewrite get_present_cons by (by apply (bool_decide_unpack _)); unfold includes; cbn [existsb];
    match goal with |- (if String.eqb k ?a then _ else _) = _ => destruct (String.eqb_spec k a) as [->|]; [cbn; by rewrite ?default_if_some|] end).
  cbn. repeat (rewrite (proj2 (String.eqb_neq _ _)) by done). done.
Qed.

Ltac each_check Hin := repeat (apply elem_of_cons in Hin as [Hin|Hin]; [injection Hin as -> ->|]); [..|by apply elem_of_nil in Hin].

Lemma clean_ok item : descriptor_ok item = true → descriptor_ok (clean_descriptor item) = true.
Proof.
  rewrite !descriptor_ok_iff. intros H k c Hin. pose proof (H k c Hin) as Hc. rewrite get_clean. clear H.
  each_check Hin; unfold clean_field; cbn [String.eqb Ascii.eqb Bool.eqb includes existsb orb] in *; try done.
  all: try (unfold optional in Hc |- *; destruct (truthy _); [exact Hc|done]).
  - unfold optional in *. destruct (bool_decide _ || bool_decide _); [exact Hc|done].
  - unfold optional in *. destruct (safe_nonneg _) eqn:E; [by rewrite E, orb_true_r|done].
  - unfold optional in *. destruct (str_such nickname_ok _) eqn:E; [|done]. rewrite trimmed_ok by done. apply orb_true_r.
  - unfold optional in *. destruct (is_bool _) eqn:E; [by rewrite E, orb_true_r|done].
  - unfold optional in *. destruct (is_bool _) eqn:E; [by rewrite E, orb_true_r|done].
  - destruct (get item "label"); try done. simpl in *. rewrite trim_idem. rewrite andb_true_iff in *.
    pose proof (trim_length s). destruct Hc as [? Hl%Z.leb_le]. split; [done|]. apply Z.leb_le. lia.
Qed.

Lemma get_spread upd base k : NoDup (keys upd) →
  get (spread base upd) k = if bool_decide (k ∈ keys upd) then get upd k else get base k.
Proof.
  unfold spread. revert base. induction upd as [|[k0 v] upd IH]; intros base Hn; [done|].
  apply NoDup_cons in Hn as [Hk Hn]. cbn [foldl fst snd get]. rewrite IH by done. rewrite get_set_key.
  destruct (String.eqb_spec k k0) as [->|Hne].
  - rewrite bool_decide_eq_false_2 by done. rewrite bool_decide_eq_true_2; [done|]. by apply elem_of_cons; left.
  - assert (k ∈ keys ((k0, v) :: upd) ↔ k ∈ keys upd) as Hiff by (unfold keys; rewrite fmap_cons, elem_of_cons; naive_solver).
    by rewrite (bool_decide_ext _ _ Hiff).
Qed.

Lemma kept_present l : NoDup l.*1 → Forall (λ kv, from_option (λ v, v = JUndef ∨ plain v = true) True kv.2) l → kept (present l).
Proof.
  unfold present. induction l as [|[k [v|]] l IH]; simpl; intros Hn Hl;
    inversion_clear Hn as [|?? Hk Hn']; inversion_clear Hl as [|?? Hv Hl'].
  - split; constructor.
  - apply kept_cons. split_and!; [|done|by apply IH]. unfold keys. intros Hin. apply Hk.
    apply list_elem_of_fmap in Hin as ((k0 & v0) & -> & Hin). apply list_elem_of_omap in Hin as ((k1 & o1) & Hin & Ho).
    destruct o1; [|done]. injection Ho as -> ->. by apply (list_elem_of_fmap_2 fst) in Hin.
  - by apply IH.
Qed.

Lemma kept_clean item : kept item → kept (clean_descriptor item).
Proof.
  intros Hk. assert (∀ k, get item k = JUndef ∨ plain (get item k) = true) as Hv by (intros; by apply get_kept).
  unfold clean_descriptor. cbv zeta. apply kept_present; [by apply (bool_decide_unpack _)|].
  repeat (apply Forall_cons_2); try apply Forall_nil_2; cbn [snd]; unfold if_some; repeat case_if; cbn [from_option];
    try done; try apply Hv; try (by right).
  - destruct (Hv "label") as [->|Hp]; [by left|]. right. by destruct (get item "label").
  - destruct (Hv "localNickname") as [->|Hp]; [by left|]. right. by destruct (get item "localNickname").
Qed.

(** ** What a change of a conversation preserves *)
Definition preserves (d d' : fields) : Prop :=
  get d' "controlCapability" = get d "controlCapability" ∧
  (truthy (get d "remoteAddress") = true → get d' "remoteAddress" = get d "remoteAddress") ∧
  (truthy (get d "signedInvitation") = true → get d' "signedInvitation" = get d "signedInvitation") ∧
  (get d "bootstrapState" = JStr "ESTABLISHED" → get d' "bootstrapState" = JStr "ESTABLISHED") ∧
  (get d "relationship" = JStr "accepted" → get d' "relationship" = JStr "accepted").
#[export] Instance preserves_preorder : PreOrder preserves.
Proof.
  split.
  - intros d. by repeat split.
  - intros d1 d2 d3 (H1 & H2 & H3 & H4 & H5) (G1 & G2 & G3 & G4 & G5). repeat split.
    + congruence.
    + intros T. rewrite G2, H2; [done|done|by rewrite H2].
    + intros T. rewrite G3, H3; [done|done|by rewrite H3].
    + auto.
    + auto.
Qed.

(** A change computes a valid descriptor of the room, and preserves the current one. *)
Definition good_change (room : string) (f : option fields → res fields) : Prop :=
  ∀ cur new, match cur with Some d => descriptor_ok d = true ∧ get d "roomId" = JStr room ∧ kept d | None => True end →
    f cur = Ok new →
    descriptor_ok new = true ∧ get new "roomId" = JStr room ∧ kept new ∧ match cur with Some d => preserves d new | None => True end.

Lemma validate_ok v d : validateConversationDescriptor v = Ok d →
  ∃ item, v = JObj item ∧ descriptor_ok item = true ∧ d = clean_descriptor item ∧ descriptor_ok d = true.
Proof.
  destruct v as [| | | | | |item]; try done. simpl. destruct (descriptor_ok item) eqn:E; [|done]. intros [= <-].
  exists item. split_and!; try done. by apply clean_ok.
Qed.

Lemma roomId_str d : descriptor_ok d = true → ∃ s, get d "roomId" = JStr s ∧ room_of d = s.
Proof.
  intros H. apply descriptor_ok_iff with (k := "roomId") (c := str_such room_ok) in H; [|set_solver].
  unfold room_of. destruct (get d "roomId") as [| | | |s| |]; try done. by exists s.
Qed.

Lemma preserves_clean c item : preserves c item → preserves c (clean_descriptor item).
Proof.
  intros (H1 & H2 & H3 & H4 & H5). unfold preserves. rewrite !get_clean. unfold clean_field. cbn -[get]. repeat split.
  - done.
  - intros T. rewrite H2 by done. by rewrite T.
  - intros T. rewrite H3 by done. by rewrite T.
  - intros T. by rewrite H4.
  - intros T. by rewrite H5.
Qed.

Lemma get_update c u upd k : NoDup (keys u) → NoDup (keys upd) →
  get (spread (spread c u) upd) k =
  if bool_decide (k ∈ keys upd) then get upd k else if bool_decide (k ∈ keys u) then get u k else get c k.
Proof. intros. rewrite get_spread by done. by rewrite get_spread. Qed.

Lemma in_keys fs k : get fs k ≠ JUndef → bool_decide (k ∈ keys fs) = true.
Proof. intros Hne. apply bool_decide_eq_true. destruct (decide (k ∈ keys fs)); [done|]. by rewrite get_absent in Hne. Qed.

Lemma or_else_kept a b : a = JUndef ∨ plain a = true → b = JUndef ∨ plain b = true → or_else a b = JUndef ∨ plain (or_else a b) = true.
Proof. unfold or_else, nullish. destruct a; auto. Qed.

(** A successful validation of an updated descriptor. *)
Lemma validated_update room c item new :
  validateConversationDescriptor (JObj item) = Ok new → kept item → get item "roomId" = JStr room → preserves c item →
  descriptor_ok new = true ∧ get new "roomId" = JStr room ∧ kept new ∧ preserves c new.
Proof.
  intros (item' & [= <-] & _ & -> & Hok)%validate_ok Hk Hr Hp. split_and!; [done| |by apply kept_clean|by apply preserves_clean].
  by rewrite get_clean.
Qed.

Ltac decide_key b :=
  match goal with |- context [bool_decide (?k ∈ keys ?u)] => replace (bool_decide (k ∈ keys u)) with b by (symmetry; vm_compute; reflexivity) end; cbv iota.

Lemma save_change_good valid : descriptor_ok valid = true → kept valid → good_change (room_of valid) (save_change valid).
Proof.
  intros Hok Hk [c|] new; [|intros _ [= <-]; destruct (roomId_str valid Hok) as (s & Hs & <-); auto].
  intros (Hc & Hroom & Hkc) H. destruct (roomId_str valid Hok) as (s & Hs & Hrs). rewrite Hrs in *.
  unfold save_change in H. apply bind_ok in H as (u & Hguard & H). guard_inv Hguard. destruct Hguard as [[Hcap Hra] Hric].
  revert H. match goal with |- context [spread (spread c valid) ?u] => set (upd := u) end. intros H.
  assert (NoDup (keys upd)) as Hnd by (by apply (bool_decide_unpack _)).
  pose proof (λ k, get_update c valid upd k (proj1 Hk) Hnd) as Hg.
  assert (∀ k, get c k = JUndef ∨ plain (get c k) = true) as Hvc by (intros; by apply get_kept).
  assert (∀ k, get valid k = JUndef ∨ plain (get valid k) = true) as Hvv by (intros; by apply get_kept).
  apply (validated_update s c) in H; [done| | |].
  - apply kept_spread; [by apply kept_spread; [|apply Hk]|]. unfold upd.
    repeat (apply Forall_cons_2); try apply Forall_nil_2; cbn [snd]; try case_if; auto using or_else_kept.
  - rewrite Hg. decide_key false. by rewrite in_keys by (by rewrite Hs).
  - unfold preserves. rewrite !Hg. repeat split.
    + decide_key false. rewrite <-Hcap, in_keys; [done|]. rewrite <-Hcap.
      assert (str_such (base64url_between 43 43) (get c "controlCapability") = true) as Hcc
        by (apply (proj1 (descriptor_ok_iff c) Hc "controlCapability"); by do 3 right; left).
      by destruct (get c "controlCapability").
    + intros T. decide_key false. rewrite T in Hra. cbn in Hra. apply negb_false_iff, bool_decide_eq_true in Hra.
      rewrite <-Hra, in_keys; [done|]. rewrite <-Hra. by destruct (get c "remoteAddress").
    + intros T. decide_key true. cbn. unfold or_else, nullish. by destruct (get c "signedInvitation").
    + intros T. decide_key true. cbn. unfold field_is. by rewrite T.
    + intros T. decide_key true. cbn. unfold field_is. by rewrite T.
Qed.

(** The fields a patch may have ([ConversationPatch]). *)
Definition patch_keys : list string :=
  ["label"; "localNickname"; "bootstrapState"; "relationship"; "remoteAddress"; "remoteIdentityCommitment"; "locallyDismissed";
   "locallyArchived"; "pendingInvitationExpiresAt"].
Definition patch_ok (patch : fields) : Prop := kept patch ∧ ∀ k, k ∈ keys patch → k ∈ patch_keys.

Lemma not_patched patch k : patch_ok patch → includes patch_keys k = false → bool_decide (k ∈ keys patch) = false.
Proof.
  intros [_ Hk] Hn. apply bool_decide_eq_false. intros Hin%Hk. apply not_true_iff_false in Hn. apply Hn.
  apply existsb_exists. exists k. by rewrite <-list_elem_of_In, String.eqb_refl.
Qed.

Lemma update_change_good `{SecureStorage St} room patch now (st : St) : patch_ok patch → good_change room (update_change patch now st).
Proof.
  intros Hp [c|] new; [|done]. intros (Hc & Hroom & Hkc) H0. unfold update_change in H0.
  apply bind_ok in H0 as (u1 & Hg1 & H0). apply bind_ok in H0 as (u2 & Hg2 & H0). apply bind_ok in H0 as (u3 & _ & H0).
  guard_inv Hg1. guard_inv Hg2. destruct Hg1 as [Hra Hric].
  revert H0. match goal with |- context [spread (spread c patch) ?u] => set (upd := u) end. intros H0.
  assert (NoDup (keys upd)) as Hnd by (by apply (bool_decide_unpack _)). destruct Hp as [Hk Hsub].
  pose proof (λ k, get_update c patch upd k (proj1 Hk) Hnd) as Hg.
  assert (∀ k, get c k = JUndef ∨ plain (get c k) = true) as Hvc by (intros; by apply get_kept).
  assert (∀ k, get patch k = JUndef ∨ plain (get patch k) = true) as Hvv by (intros; by apply get_kept).
  apply (validated_update room c) in H0; [done| | |].
  - apply kept_spread; [by apply kept_spread; [|apply Hk]|]. unfold upd.
    repeat (apply Forall_cons_2); try apply Forall_nil_2; cbn [snd]; try case_if; auto using or_else_kept.
  - rewrite Hg. decide_key false. by rewrite not_patched by done.
  - unfold preserves. rewrite !Hg. repeat split.
    + decide_key false. by rewrite not_patched by done.
    + intros T. decide_key false. destruct (decide ("remoteAddress" ∈ keys patch)) as [Hin|Hin];
        [rewrite bool_decide_eq_true_2 by done|by rewrite bool_decide_eq_false_2].
      assert (existsb (String.eqb "remoteAddress") (keys patch) = true) as He
        by (apply existsb_exists; exists "remoteAddress"; by rewrite <-list_elem_of_In, String.eqb_refl).
      rewrite He in Hra. cbn in Hra. apply negb_false_iff in Hra. rewrite Hra, T in Hg2. cbn in Hg2.
      by apply negb_false_iff, bool_decide_eq_true in Hg2.
    + intros T. decide_key false. by rewrite not_patched by done.
    + intros T. decide_key true. cbn. unfold field_is. by rewrite T.
    + intros T. decide_key true. cbn. unfold field_is. by rewrite T.
Qed.

(** ** The stored list *)
Definition saved_in (raw : list jsval) (room : string) : option fields :=
  v ← js_find (is_room room) raw; match validateConversationDescriptor v with Ok d => Some d | Err _ => None end.

Lemma names_room_iff room v : is_room room v = true ↔ ∃ item, v = JObj item ∧ descriptor_ok item = true ∧ get item "roomId" = JStr room.
Proof.
  unfold is_room, roomOf. rewrite bool_decide_eq_true. split.
  - destruct (validateConversationDescriptor v) as [d|] eqn:E; [|done]. intros [= Hr].
    apply validate_ok in E as (item & -> & Hok & -> & Hd). exists item. split_and!; [done|done|].
    destruct (roomId_str _ Hd) as (s & Hs & Hrs). rewrite get_clean in Hs. cbn -[get] in Hs. congruence.
  - intros (item & -> & Hok & Hr). unfold validateConversationDescriptor. rewrite Hok. unfold room_of.
    change (mret (clean_descriptor item)) with (Ok (clean_descriptor item)). cbv iota. rewrite get_clean.
    change (clean_field item "roomId") with (get item "roomId"). by rewrite Hr.
Qed.

Lemma saved_in_ok raw room d : Forall (λ v, plain v = true) raw → saved_in raw room = Some d →
  ∃ item, JObj item ∈ raw ∧ d = clean_descriptor item ∧ descriptor_ok d = true ∧ get d "roomId" = JStr room ∧ kept d.
Proof.
  unfold saved_in. intros Hp H0. destruct (js_find (is_room room) raw) as [v|] eqn:Ef; [|done]. cbn in H0.
  apply js_find_Some in Ef as [Hin Hr]. apply names_room_iff in Hr as (item & -> & Hok & Hroom).
  unfold validateConversationDescriptor in H0. rewrite Hok in H0. injection H0 as <-. exists item. rewrite Forall_forall in Hp.
  split_and!; [done|done|by apply clean_ok|by rewrite get_clean|by apply kept_clean, plain_kept, Hp].
Qed.

Lemma find_retained room r (raw : list jsval) :
  js_find (is_room r) (List.filter (λ v, negb (is_room room v)) raw) = if String.eqb r room then None else js_find (is_room r) raw.
Proof.
  assert (r ≠ room → ∀ v, is_room room v = true → is_room r v = false) as Hd.
  { intros Hne v H1. destruct (is_room r v) eqn:H2; [|done]. unfold is_room in *.
    apply bool_decide_eq_true in H1, H2. congruence. }
  unfold js_find. destruct (String.eqb_spec r room) as [->|Hne]; induction raw as [|v raw IH]; cbn; try done.
  - destruct (is_room room v) eqn:E; cbn; [done|]. by rewrite E.
  - destruct (is_room room v) eqn:E; cbn; [by rewrite (Hd Hne v E)|]. by rewrite IH.
Qed.

(** What reading back a list with a changed first entry gives. *)
Definition stored_entry (fs : fields) : jsval := JObj (drop_undef fs).
Lemma parse_entries fs l : kept fs → Forall (λ v, plain v = true) l →
  parse (stringify (JArr (JObj fs :: l))) = Some (JArr (stored_entry fs :: l)).
Proof.
  intros Hk Hl. assert (stringify (JArr (JObj fs :: l)) = stringify (JArr (stored_entry fs :: l))) as ->.
  { change (stringify (JArr (JObj fs :: l))) with ("[" +:+ join (stringify (JObj fs) ::
      (fix go l := match l with [] => [] | JUndef :: l' => "null" :: go l' | v :: l' => stringify v :: go l' end) l) +:+ "]").
    by rewrite stringify_drop_undef. }
  apply parse_stringify, plain_arr. constructor; [by apply kept_plain|done].
Qed.

Lemma stored_entry_saved room fs l : kept fs → descriptor_ok fs = true → get fs "roomId" = JStr room →
  is_room room (stored_entry fs) = true ∧ saved_in (stored_entry fs :: l) room = Some (clean_descriptor fs).
Proof.
  intros Hk Hok Hr. assert (∀ k, get (drop_undef fs) k = get fs k) as Hg by (intros; apply get_drop_undef, Hk).
  destruct (descriptor_ok_ext _ _ Hg) as [Ho Hc].
  assert (is_room room (stored_entry fs) = true) as Hroom.
  { apply names_room_iff. eexists. split; [reflexivity|]. split; [by rewrite Ho|]. by rewrite Hg. }
  split; [done|]. unfold saved_in, js_find. cbn [List.find]. rewrite Hroom. cbn [mbind option_bind].
  unfold stored_entry, validateConversationDescriptor. by rewrite Ho, Hok, Hc.
Qed.

(** A mix of two descriptors that pass every check passes them too. *)
Lemma spread_ok base new : descriptor_ok base = true → descriptor_ok new = true → kept new → descriptor_ok (spread base new) = true.
Proof.
  rewrite !descriptor_ok_iff. intros Hb Hn Hk k c Hin. rewrite get_spread by apply Hk. case_bool_decide; auto.
Qed.

Lemma spread_preserves item new : kept new → preserves (clean_descriptor item) new →
  preserves (clean_descriptor item) (clean_descriptor (spread item new)).
Proof.
  intros Hk Hp. apply preserves_clean. destruct Hp as (H1 & H2 & H3 & H4 & H5).
  assert (∀ k, (get (spread item new) k = get new k) ∨ (get new k = JUndef ∧ get (spread item new) k = get item k)) as Hg.
  { intros k. rewrite get_spread by apply Hk. case_bool_decide; [by left|]. right. by rewrite get_absent. }
  unfold preserves. rewrite !get_clean in *. unfold clean_field in *. cbn -[get] in *. repeat split.
  - destruct (Hg "controlCapability") as [->|[_ ->]]; done.
  - intros T. specialize (H2 T). destruct (Hg "remoteAddress") as [->|[Hu ->]]; [done|]. rewrite Hu in H2. by rewrite <-H2 in T.
  - intros T. specialize (H3 T). destruct (Hg "signedInvitation") as [->|[Hu ->]]; [done|]. rewrite Hu in H3. by rewrite <-H3 in T.
  - intros T. specialize (H4 T). destruct (Hg "bootstrapState") as [->|[Hu ->]]; [done|]. by rewrite Hu in H4.
  - intros T. specialize (H5 T). destruct (Hg "relationship") as [->|[Hu ->]]; [done|]. by rewrite Hu in H5.
Qed.

(** ** One change of the stored list *)
(** [raw] and [removals] are what the two records hold; the removed rooms are not saved. *)
Definition list_ok (raw removals : list jsval) : Prop :=
  Forall (λ v, plain v = true) raw ∧ Forall (λ v, str_such room_ok v = true) removals ∧
  ∀ r, JStr r ∈ removals → saved_in raw r = None.
(** Removals last; a saved conversation stays saved, and preserved, unless it is removed. *)
Definition list_advances (raw removals raw' removals' : list jsval) : Prop :=
  (∀ r, JStr r ∈ removals → JStr r ∈ removals') ∧
  ∀ r d, saved_in raw r = Some d → JStr r ∈ removals' ∨ ∃ d', saved_in raw' r = Some d' ∧ preserves d d'.

Lemma removed_iff room removals : existsb (λ v, bool_decide (v = JStr room)) removals = true ↔ JStr room ∈ removals.
Proof.
  rewrite existsb_exists. setoid_rewrite bool_decide_eq_true. setoid_rewrite <-list_elem_of_In. naive_solver.
Qed.

Lemma plain_names l : Forall (λ v, str_such room_ok v = true) l → Forall (λ v, plain v = true) l.
Proof. intros H. eapply Forall_impl; [exact H|]. by intros []. Qed.

(** The entries of the other rooms. *)
Definition retained (room : string) (raw : list jsval) : list jsval := List.filter (λ v, negb (is_room room v)) raw.
Lemma saved_retained room raw r : saved_in (retained room raw) r = if String.eqb r room then None else saved_in raw r.
Proof. unfold saved_in, retained. rewrite find_retained. by destruct (String.eqb r room). Qed.
Lemma retained_plain room raw : Forall (λ v, plain v = true) raw → Forall (λ v, plain v = true) (retained room raw).
Proof. apply Forall_sublist, filter_sublist. Qed.
Lemma find_head {A} (P : A → bool) l : js_find P l = head (List.filter P l).
Proof. unfold js_find. induction l as [|v l IH]; cbn; [done|]. by destruct (P v). Qed.

(** Entries of different rooms. *)
Lemma saved_other room v l r : is_room room v = true → r ≠ room → saved_in (v :: l) r = saved_in l r.
Proof.
  intros Hv Hne. unfold saved_in, js_find. cbn [List.find]. destruct (is_room r v) eqn:E; [|done].
  unfold is_room in *. apply bool_decide_eq_true in E, Hv. congruence.
Qed.

(** The list after a change of the room's entry [base]. *)
Lemma changed_list room base new raw removals :
  list_ok raw removals → JStr room ∉ removals → kept base → kept new →
  descriptor_ok (spread base new) = true → get new "roomId" = JStr room →
  (∀ d, saved_in raw room = Some d → d = clean_descriptor base ∧ preserves d new) →
  let stored := stored_entry (spread base new) :: retained room raw in
  parse (stringify (JArr (JObj (spread base new) :: retained room raw))) = Some (JArr stored) ∧
  list_ok stored removals ∧ list_advances raw removals stored removals.
Proof.
  intros (Hraw & Hrem & Hsep) Hnr Hkb Hk Hok Hr Hp.
  assert (kept (spread base new)) as Hks by (apply kept_spread; [done|apply Hk]).
  assert (get (spread base new) "roomId" = JStr room) as Hrs by (rewrite get_spread by apply Hk; by rewrite in_keys by (by rewrite Hr)).
  pose proof (retained_plain room raw Hraw) as Hret.
  destruct (stored_entry_saved room (spread base new) (retained room raw) Hks Hok Hrs) as [Hes Hsv]. cbv zeta.
  split_and!; [by apply parse_entries|..].
  - split_and!; [constructor; [by apply kept_plain|done]|done|]. intros r Hin. assert (r ≠ room) as Hne by (intros ->; done).
    rewrite (saved_other room) by done. rewrite saved_retained, (proj2 (String.eqb_neq _ _) Hne). by apply Hsep.
  - split; [done|]. intros r d Hd. right. destruct (decide (r = room)) as [->|Hne].
    + rewrite Hsv. eexists. split; [done|]. destruct (Hp d Hd) as [-> Hpd]. by apply spread_preserves.
    + exists d. split; [|done]. rewrite (saved_other room) by done. by rewrite saved_retained, (proj2 (String.eqb_neq _ _) Hne).
Qed.

(** The list after a removal. *)
Lemma removed_list room raw removals (removals' : list jsval) :
  room_ok room = true → list_ok raw removals → (removals' = removals ∧ JStr room ∈ removals ∨ removals' = removals ++ [JStr room]) →
  parse (stringify (JArr (retained room raw))) = Some (JArr (retained room raw)) ∧
  list_ok (retained room raw) removals' ∧ list_advances raw removals (retained room raw) removals'.
Proof.
  intros Hroom (Hraw & Hrem & Hsep) Hr. pose proof (retained_plain room raw Hraw) as Hret.
  assert (JStr room ∈ removals') as Hin by (destruct Hr as [[-> ?]| ->]; set_solver).
  assert (∀ r, JStr r ∈ removals' → r = room ∨ JStr r ∈ removals) as Hsub.
  { intros r Hx. destruct Hr as [[-> _]| ->]; [by right|]. apply elem_of_app in Hx as [?|Hx]; [by right|left].
    apply list_elem_of_singleton in Hx. congruence. }
  split_and!; [by apply parse_stringify, plain_arr|split_and!|split].
  - done.
  - destruct Hr as [[-> _]| ->]; [done|]. apply Forall_app; split; [done|by repeat constructor].
  - intros r Hx. rewrite saved_retained. destruct (String.eqb_spec r room); [done|]. apply Hsep. by destruct (Hsub r Hx).
  - intros r Hx. destruct Hr as [[-> _]| ->]; set_solver.
  - intros r d Hd. destruct (String.eqb_spec r room) as [->|Hne]; [by left|right].
    exists d. split; [|done]. by rewrite saved_retained, (proj2 (String.eqb_neq _ _) Hne).
Qed.

(** The entry a change starts from. *)
Lemma current_entry room raw current :
  Forall (λ v, plain v = true) raw →
  match List.filter (is_room room) raw with [] => mret None | m :: _ => d ← validateConversationDescriptor m; mret (Some d) end = Ok current →
  let base := default [] (m ← head (List.filter (is_room room) raw); as_object m) in
  saved_in raw room = current ∧ kept base ∧
  match current with
  | Some d => d = clean_descriptor base ∧ descriptor_ok base = true ∧ get base "roomId" = JStr room
  | None => base = []
  end.
Proof.
  intros Hraw Hcur. cbv zeta. unfold saved_in. rewrite find_head.
  destruct (List.filter (is_room room) raw) as [|m ms] eqn:Em; cbn in Hcur |- *.
  - injection Hcur as <-. split_and!; [done|split; constructor|done].
  - assert (js_find (is_room room) raw = Some m) as Hm by (by rewrite find_head, Em).
    apply js_find_Some in Hm as [Hin Hm]. apply names_room_iff in Hm as (item & -> & Hok & Hr). cbn [as_object].
    unfold validateConversationDescriptor in *. rewrite Hok in *. injection Hcur as <-. rewrite Forall_forall in Hraw.
    split_and!; [done|by apply plain_kept, Hraw|done|done|done].
Qed.

Lemma plan_advances room change raw removals raw' removals' :
  room_ok room = true → (∀ f, change = Some f → good_change room f) → list_ok raw removals →
  plan room change raw removals = Ok (raw', removals') →
  ∃ stored, parse (stringify (JArr raw')) = Some (JArr stored) ∧ parse (stringify (JArr removals')) = Some (JArr removals') ∧
    list_ok stored removals' ∧ list_advances raw removals stored removals' ∧ (is_Some change → JStr room ∉ removals).
Proof.
  intros Hroom Hgood Hok H. pose proof Hok as (Hraw & Hrem & _). unfold plan in H. fold (retained room raw) in H.
  apply bind_ok in H as (u1 & _ & H). apply bind_ok in H as (u2 & Hrm & H). apply bind_ok in H as (u3 & _ & H).
  apply bind_ok in H as (current & Hcur & H). apply current_entry in Hcur as (Hs & Hkb & Hbase); [|done].
  assert (∀ l, Forall (λ v, str_such room_ok v = true) l → parse (stringify (JArr l)) = Some (JArr l)) as Hnames
    by (intros; by apply parse_stringify, plain_arr, plain_names).
  destruct change as [f|].
  - apply throw_if_ok in Hrm. assert (JStr room ∉ removals) as Hnr.
    { intros Hin%removed_iff. rewrite Hin in Hrm. by rewrite bool_decide_eq_true_2 in Hrm by (by eexists). }
    apply bind_ok in H as (new & Hf & H). apply bind_ok in H as (u4 & _ & H). apply Ok_inj in H. injection H as <- <-.
    revert Hkb Hbase. generalize (default [] (m ← head (List.filter (is_room room) raw); as_object m)). intros base Hkb Hbase.
    destruct (Hgood f eq_refl current new) as (Hn & Hr & Hk & Hp); [|done|].
    { destruct current as [d|]; [|done]. destruct Hbase as (-> & Hb & Hbr).
      split_and!; [by apply clean_ok|by rewrite get_clean|by apply kept_clean]. }
    destruct (changed_list room base new raw removals) as (H1 & H2 & H3); try done.
    + destruct current as [d|]; [destruct Hbase as (_ & Hb & _); by apply spread_ok|]. subst base. rewrite <-Hn. apply descriptor_ok_ext. intros k.
      rewrite get_spread by apply Hk. destruct (decide (k ∈ keys new)); [by rewrite bool_decide_eq_true_2|]. rewrite bool_decide_eq_false_2 by done. cbn [get]. by rewrite get_absent by done.
    + intros d Hd. rewrite Hd in Hs. subst current. by destruct Hbase as (? & _).
    + eexists. split_and!; [exact H1|by apply Hnames|exact H2|exact H3|done].
  - apply Ok_inj in H. injection H as <- Hr. destruct (removed_list room raw removals removals') as (H1 & H2 & H3); try done.
    + revert Hr. case_if; intros <-; [left; split; [done|by apply removed_iff]|by right].
    + exists (retained room raw). split_and!; [done|apply Hnames, H2|done|done|by intros []].
Qed.

(** ** The storage *)
Section storage.
Context `{SecureStorageLaws St}.

Definition index_of (st : St) : res (list jsval) := decodeArray (read st RECORD_TYPE RECORD_ID).
Definition removals_of (st : St) : res (list jsval) := decodeArray (read st RECORD_TYPE REMOVALS_ID).
Definition removed (st : St) (room : string) : Prop := ∃ l, removals_of st = Ok l ∧ JStr room ∈ l.
Definition saved (st : St) (room : string) : option fields :=
  match index_of st with Ok raw => saved_in raw room | Err _ => None end.
(** The records hold integers only, and a removed conversation is not saved. *)
Definition store_ok (st : St) : Prop := ∃ raw l, index_of st = Ok raw ∧ removals_of st = Ok l ∧ list_ok raw l.
(** What no operation undoes. *)
Definition advances (st st' : St) : Prop :=
  store_ok st → store_ok st' ∧ (∀ room, removed st room → removed st' room) ∧
    ∀ room d, saved st room = Some d → removed st' room ∨ ∃ d', saved st' room = Some d' ∧ preserves d d'.
#[export] Instance advances_preorder : PreOrder advances.
Proof.
  split.
  - intros st Hok. split_and!; [done|done|]. intros room d Hd. right. by exists d.
  - intros s1 s2 s3 H12 H23 H1. destruct (H12 H1) as (H2 & Hr2 & Hs2). destruct (H23 H2) as (H3 & Hr3 & Hs3).
    split_and!; [done|auto|]. intros room d Hd. destruct (Hs2 room d Hd) as [?|(d' & Hd' & Hp)]; [auto|].
    destruct (Hs3 room d' Hd') as [?|(d2 & Hd2 & Hp2)]; [auto|]. right. exists d2. split; [done|]. by etrans.
Qed.

Lemma list_ok_removed (raw l : list jsval) room : list_ok raw l → JStr room ∈ l → room_ok room = true.
Proof. intros (_ & Hr & _) Hin. rewrite Forall_forall in Hr. by apply Hr in Hin. Qed.

(** One successful swap. *)
Lemma swap_advances room change (st0 st' : St) bytes rbytes raw l raw' l' ok :
  room_ok room = true → (∀ f, change = Some f → good_change room f) →
  decodeArray bytes = Ok raw → decodeArray rbytes = Ok l → plan room change raw l = Ok (raw', l') →
  compareAndSwapRecords
    [{| recordType := RECORD_TYPE; recordId := RECORD_ID; expected := bytes; next := stringify (JArr raw') |};
     {| recordType := RECORD_TYPE; recordId := REMOVALS_ID; expected := rbytes; next := stringify (JArr l') |}] st0 = (ok, st') →
  advances st0 st' ∧ (ok = true → store_ok st0 → is_Some change → ¬ removed st0 room).
Proof.
  intros Hroom Hgood Hraw Hl Hplan Hcas.
  match type of Hcas with compareAndSwapRecords ?u _ = _ => set (us := u) in * end.
  assert (NoDup (update_key <$> us)) as Hn by (apply NoDup_cons; split; [set_solver|apply NoDup_singleton]).
  destruct ok.
  2: { pose proof (cas_fail st0 us) as Hf. rewrite Hcas in Hf. cbn in Hf. rewrite (Hf eq_refl). split; [reflexivity|done]. }
  assert ((compareAndSwapRecords us st0).1 = true) as Hs by (by rewrite Hcas).
  pose proof (cas_written st0 us _ Hn Hs (list_elem_of_here _ _)) as Hw1.
  pose proof (cas_written st0 us _ Hn Hs (list_elem_of_further _ _ _ (list_elem_of_here _ _))) as Hw2.
  rewrite cas_result in Hs by done. unfold expectations_hold in Hs. cbn in Hs.
  rewrite !andb_true_iff, !bool_decide_eq_true in Hs. destruct Hs as (He1 & He2 & _). rewrite Hcas in Hw1, Hw2.
  cbn [recordType recordId next snd] in Hw1, Hw2.
  assert (index_of st0 = Ok raw) as Hi0 by (unfold index_of; by rewrite He1).
  assert (removals_of st0 = Ok l) as Hr0 by (unfold removals_of; by rewrite He2).
  assert (store_ok st0 → ∃ stored, index_of st' = Ok stored ∧ removals_of st' = Ok l' ∧ list_ok stored l' ∧
    list_advances raw l stored l' ∧ (is_Some change → JStr room ∉ l)) as Hgo.
  { intros (raw0 & l0 & Hri & Hrr & Hok).
    assert (raw0 = raw) as -> by congruence. assert (l0 = l) as -> by congruence.
    destruct (plan_advances _ _ _ _ _ _ Hroom Hgood Hok Hplan) as (stored & Hp1 & Hp2 & Hlo & Hla & Hnr).
    exists stored. split_and!; try done; unfold index_of, removals_of, decodeArray; [rewrite Hw1|rewrite Hw2]; cbn [require mbind res_bind].
    - by rewrite Hp1.
    - by rewrite Hp2. }
  split.
  - intros Hst. destruct (Hgo Hst) as (stored & Hi & Hr & Hlo & [Hla1 Hla2] & _). split_and!.
    + by exists stored, l'.
    + intros r (l1 & Hl1 & Hin). assert (l1 = l) as -> by congruence. exists l'. auto.
    + intros r d. unfold saved. rewrite Hi0, Hi. intros Hd. destruct (Hla2 r d Hd) as [?|?]; [left; by exists l'|by right].
  - intros _ Hst Hc (l1 & Hl1 & Hin). destruct (Hgo Hst) as (stored & _ & _ & _ & _ & Hnr).
    assert (l1 = l) as -> by congruence. by apply Hnr.
Qed.

Context (others : nat → nat → St → St) (Hothers : ∀ n k st, advances st (others n k st)).

Lemma mutate_advances room (change : St → option (option fields → res fields)) (st : St) x st' :
  (∀ s f, change s = Some f → good_change room f) → mutate others room change st = (x, st') →
  advances st st' ∧ ((∀ s, is_Some (change s)) → store_ok st → removed st room → is_ok x = false).
Proof.
  intros Hgood. unfold mutate. destruct (room_ok room) eqn:Hroom; cbn [negb]; [|by intros [= <- <-]].
  generalize 0%nat at 1 as attempt. generalize MAX_CONFLICT_RETRIES as n. intros n. revert st.
  induction n as [|n IH]; intros st attempt; cbn [mutate_loop]; [by intros [= <- <-]|]. cbv zeta.
  set (st1 := others attempt 0%nat st). assert (advances st st1) as H1 by apply Hothers.
  destruct (raw ← _; _) as [[raw' l']|e] eqn:Ep; [|by intros [= <- <-]].
  apply bind_ok in Ep as (raw & Hraw & Ep). apply bind_ok in Ep as (l & Hl & Hplan).
  set (st2 := others attempt 1%nat st1). assert (advances st1 st2) as H2 by apply Hothers.
  destruct (compareAndSwapRecords _ st2) as [ok st3] eqn:Ec.
  destruct (swap_advances room (change st1) st2 st3 _ _ raw l raw' l' ok Hroom (Hgood st1) Hraw Hl Hplan Ec) as [H3 Hnot].
  assert (advances st st2) as H02 by (by etrans). destruct ok.
  - intros [= <- <-]. split; [by etrans|]. intros Hc Hok Hrem. exfalso. destruct (H02 Hok) as (Hok2 & Hr2 & _).
    apply (Hnot eq_refl Hok2 (Hc st1)). auto.
  - intros Hrun. apply IH in Hrun as [Hadv Herr].
    assert (advances st (others attempt 2%nat st3)) as H03 by (etrans; [by etrans|apply Hothers]).
    split; [by etrans|]. intros Hc Hok Hrem. destruct (H03 Hok) as (Hok3 & Hr3 & _). by apply Herr; [|done|apply Hr3].
Qed.

(** What a tab may ask for. *)
Inductive conversation_op :=
| Save (descriptor : fields)
| Update (room : string) (patch : fields) (now : Z)
| Remove (room : string).
Definition op_ok (op : conversation_op) : Prop :=
  match op with Save d => kept d | Update _ p _ => patch_ok p | Remove _ => True end.
Definition op_room (op : conversation_op) : option string :=
  match op with Save d => Some (room_of d) | Update r _ _ => Some r | Remove _ => None end.
Definition run_op (op : conversation_op) (st : St) : res (list fields) * St :=
  match op with
  | Save d => saveConversationDescriptor others (JObj d) st
  | Update r p now => updateConversationDescriptor others r p now st
  | Remove r => removeConversationDescriptor others r st
  end.

(** whatever other tabs do to the conversation list meanwhile, as long as they too only advance it, saving, updating
    or removing a conversation advances the list, whether it succeeds or fails: removal markers stay; a saved
    conversation stays saved with its control capability, its remote address, its signed invitation and its established
    or accepted state, unless it is removed; and saving or updating a removed conversation never succeeds. *)
Theorem conversations_only_advance op st x st' :
  op_ok op → run_op op st = (x, st') →
  advances st st' ∧ ∀ room, store_ok st → op_room op = Some room → removed st room → is_ok x = false.
Proof.
  destruct op as [d|r p now|r]; cbn; intros Hop Hrun.
  - unfold saveConversationDescriptor in Hrun. destruct (validateConversationDescriptor (JObj d)) as [valid|] eqn:Ev;
      [|injection Hrun as <- <-; by split].
    apply validate_ok in Ev as (item & [= <-] & Hd & -> & Hok). assert (room_of (clean_descriptor d) = room_of d) as Hrd.
    { unfold room_of. by rewrite get_clean. }
    apply mutate_advances in Hrun as [Hadv Herr].
    + split; [done|]. intros room Hst [= <-] Hrem. rewrite Hrd in *. apply Herr; [by eexists|done|done].
    + intros s f [= <-]. by apply save_change_good; [|apply kept_clean].
  - apply mutate_advances in Hrun as [Hadv Herr].
    + split; [done|]. intros room Hst [= <-] Hrem. by apply Herr.
    + intros s f [= <-]. by apply update_change_good.
  - apply mutate_advances in Hrun as [Hadv _]; [|done]. split; [done|]. by intros.
Qed.
End storage.

Module SessionsDemo.
Definition room : string := "00000000-0000-1000-8000-000000000001".
Definition cap : string := "AAAAAAAAAAAAAAAAAAAAAAAAAAAAAAAAAAAAAAAAAAA".
Definition quiet (_ _ : nat) (st : memory) : memory := st.
Definition descriptor (state : string) : fields :=
  [("version", JNum (NInt 1)); ("roomId", JStr room); ("controlCapability", JStr cap); ("bootstrapState", JStr state);
   ("label", JStr " Ada "); ("updatedAt", JNum (NInt 7))].
(** saves the conversation as established, then as pending *)
Definition resaved : memory :=
  (run_op quiet (Save (descriptor "PENDING_LOCAL")) (run_op quiet (Save (descriptor "ESTABLISHED")) ∅).2).2.
Definition removed_store : memory := (run_op quiet (Remove room) ∅).2.
End SessionsDemo.

Example resave_demo : (d ← saved SessionsDemo.resaved SessionsDemo.room; Some (get d "bootstrapState", get d "label"))
  = Some (JStr "ESTABLISHED", JStr "Ada").
Proof. vm_compute. reflexivity. Qed.

Lemma removed_store_demo : removed SessionsDemo.removed_store SessionsDemo.room.
Proof. exists [JStr SessionsDemo.room]. split; [vm_compute; reflexivity|apply list_elem_of_here]. Qed.

Lemma conversations_only_advance_witness :
  is_ok (run_op SessionsDemo.quiet (Save (SessionsDemo.descriptor "ESTABLISHED")) SessionsDemo.removed_store).1 = false.
Proof.
  assert (∀ n k (st : memory), advances st (SessionsDemo.quiet n k st)) as Hq by (intros; reflexivity).
  assert (store_ok (∅ : memory)) as H0.
  { exists [], []. split_and!; [reflexivity|reflexivity|]. split_and!; [constructor|constructor|set_solver]. }
  destruct (conversations_only_advance SessionsDemo.quiet Hq (Remove SessionsDemo.room) (∅ : memory)
    (run_op SessionsDemo.quiet (Remove SessionsDemo.room) ∅).1 SessionsDemo.removed_store I) as [Hadv _].
  { unfold SessionsDemo.removed_store. by destruct (run_op _ _ _). }
  destruct (Hadv H0) as (H1 & _ & _).
  destruct (conversations_only_advance SessionsDemo.quiet Hq (Save (SessionsDemo.descriptor "ESTABLISHED")) SessionsDemo.removed_store
    (run_op SessionsDemo.quiet (Save (SessionsDemo.descriptor "ESTABLISHED")) SessionsDemo.removed_store).1
    (run_op SessionsDemo.quiet (Save (SessionsDemo.descriptor "ESTABLISHED")) SessionsDemo.removed_store).2) as [_ Herr].
  - by apply plain_kept.
  - by destruct (run_op _ _ _).
  - apply (Herr SessionsDemo.room); [done|reflexivity|]. exact removed_store_demo.
Defined.
