(* ===== verification/Routing.v ===== *)
(** * Durable routing ownership ([backend/security/routingOwnership.ts], fingerprint of [identity/vodozemacIdentity.ts])

    Who may receive at an address of a room: at most two owners per room, each bound to a device, kept as tombstones
    once revoked. The rooms, publications and devices are Mongo collections with unique keys; a transaction is one
    atomic step, retried when it aborts with a transient error ([transient n] for attempt [n]); [others n] is what
    other writers commit before that attempt. SHA-256 is a parameter, [clock] gives the times one call reads. *)
From S2P Require Import Prelude Json Base64 DeviceAuthority.

(** ** Identities *)
(* service/src/identity/vodozemacIdentity.ts:9-12 VodozemacPublicIdentity *)
Record VodozemacPublicIdentity := { curve25519 : string; ed25519 : string }.

Definition upper_char (c : ascii) : ascii := if is_lower c then chr (code c - 32) else c.
Fixpoint map_chars (f : ascii → ascii) (s : string) : string :=
  match s with EmptyString => EmptyString | String c s' => String (f c) (map_chars f s') end.
(** [s.match(/.{1,4}/g).join(' ')] *)
Fixpoint groups_of_4 (k : nat) (s : string) : string :=
  match s with
  | EmptyString => EmptyString
  | String c s' => match k with
                   | O => String " " (String c (groups_of_4 3 s'))
                   | S k' => String c (groups_of_4 k' s')
                   end
  end.

Section routing.
Context (sha256 sha256_hex : string → string).

Definition normalizeKey (key : string) : string := chars (strip_all (to_url <$> unchars key)).
(* service/src/identity/vodozemacIdentity.ts:57-65 fingerprintVodozemacIdentity *)
Definition fingerprintVodozemacIdentity (i : VodozemacPublicIdentity) : string :=
  "K3 " +:+ groups_of_4 4 (map_chars upper_char (toBase64Url
    (sha256 ("k3ncrypt:vodozemac-identity:v1" +:+ str1 0 +:+ normalizeKey (curve25519 i) +:+ str1 0 +:+ normalizeKey (ed25519 i))))).

(** ** Data *)
Inductive owner_state := o_active | o_revoked.
#[export] Instance owner_state_eq_dec : EqDecision owner_state.
Proof. solve_decision. Defined.
(* backend/security/routingOwnership.ts:9-13 RoutingOwner *)
Record RoutingOwner := {
  address : string; identity : VodozemacPublicIdentity; o_identityReference : string; renewalProofHash : string;
  o_account : string; o_deviceId : string; deviceEpoch : Z; o_verificationKey : string; o_state : owner_state; generation : Z;
  establishedAt : Z; o_revokedAt : option Z }.
(* backend/security/routingOwnership.ts:14-14 RoutingRoom *)
Record RoutingRoom := {
  r_deleted : bool; r_expired : bool; routingOwnershipVersion : option Z; routingOwnershipRevision : Z;
  routingOwners : list RoutingOwner }.
Record publication := { pub_bundle : jsval; pub_proofHash : string; pub_createdAt : Z; pub_expiresAt : Z }.
(** [fences] is the field [routingAuthorizationFence] of the device documents. *)
Record routing_world := {
  w_rooms : gmap string RoutingRoom; w_prekeys : gmap (string * string) publication;
  w_devices : gmap (string * string) DeviceLifecycleRecord; w_fences : gmap (string * string) Z }.

Definition set_room (channel : string) (r : RoutingRoom) (w : routing_world) : routing_world :=
  {| w_rooms := <[channel := r]> (w_rooms w); w_prekeys := w_prekeys w; w_devices := w_devices w; w_fences := w_fences w |}.
Definition set_prekey (k : string * string) (p : publication) (w : routing_world) : routing_world :=
  {| w_rooms := w_rooms w; w_prekeys := <[k := p]> (w_prekeys w); w_devices := w_devices w; w_fences := w_fences w |}.

Definition DENIED : string := "Routing authorization unavailable.".
(* backend/security/routingOwnership.ts:15-16 RoutingAuthorizationError, deny *)
Definition deny {A} : M routing_world A := throw DENIED.
(* backend/security/routingOwnership.ts:17-17 live *)
Definition live (r : RoutingRoom) : bool := negb (r_deleted r) && negb (r_expired r).
(* backend/security/routingOwnership.ts:18-18 routingProofHash *)
Definition routingProofHash (proof : string) : string := sha256_hex ("k3ncrypt-prekey-renewal-v1" +:+ str1 0 +:+ proof).
(* backend/security/routingOwnership.ts:19-22 routingProofMatches *)
Definition routingProofMatches (proof hash : string) : bool :=
  base64url_between 43 43 proof && hex64 hash && String.eqb (routingProofHash proof) hash.
(* backend/security/routingOwnership.ts:23-26 matchesDevice *)
Definition matchesDevice (owner : RoutingOwner) (device : DeviceLifecycleRecord) : bool :=
  bool_decide (dr_state device = active) && String.eqb (o_account owner) (accountIdentityReference device) &&
  String.eqb (o_deviceId owner) (deviceId device) && (deviceEpoch owner =? trustEpoch device) &&
  String.eqb (o_identityReference owner) (deviceIdentityReference device) &&
  String.eqb (o_verificationKey owner) (verificationKeyReference device).

Definition is_owner (addr : string) (o : RoutingOwner) : bool := String.eqb (address o) addr.
Definition owner_at (r : RoutingRoom) (addr : string) : option RoutingOwner := js_find (is_owner addr) (routingOwners r).
(** The device document an owner is authorized by. *)
Definition authorized_device (owner : RoutingOwner) (w : routing_world) : bool :=
  match w_devices w !! (o_account owner, o_deviceId owner) with
  | Some d => matchesDevice owner d
  | None => false
  end.

(** ** The store *)
(* backend/security/routingOwnership.ts:35-50 current *)
Definition current (channel addr : string) (w : routing_world) : option RoutingOwner :=
  r ← w_rooms w !! channel;
  if live r then js_find (λ o, is_owner addr o && bool_decide (o_state o = o_active) && authorized_device o w) (routingOwners r)
  else None.

(* backend/security/routingOwnership.ts:51-51 deadline *)
Definition deadline (until now : Z) : M routing_world unit := lift (throw_if (until <=? now) DENIED).

(** An attempt that throws, or aborts with a transient error, leaves no writes. *)
(* backend/security/routingOwnership.ts:52-65 transact *)
Fixpoint transact {A} (n attempt : nat) (transient : nat → bool) (others : nat → routing_world → routing_world)
    (run : nat → M routing_world A) : M routing_world A := λ w,
  match n with
  | O => (Err DENIED, w)
  | S n' =>
      let w := others attempt w in
      if transient attempt
      then (if (attempt =? 2)%nat then (Err "TransientTransactionError", w) else transact n' (S attempt) transient others run w)
      else match run attempt w with (Err e, _) => (Err e, w) | (Ok a, w') => (Ok a, w') end
  end.

(* backend/security/routingOwnership.ts:67-73 fenceDevice *)
Definition fenceDevice (owner : RoutingOwner) : M routing_world unit := λ w,
  if authorized_device owner w then
    let k := (o_account owner, o_deviceId owner) in
    (Ok tt, {| w_rooms := w_rooms w; w_prekeys := w_prekeys w; w_devices := w_devices w;
               w_fences := <[k := default 0 (w_fences w !! k) + 1]> (w_fences w) |})
  else (Err DENIED, w).

Definition bump (r : RoutingRoom) : RoutingRoom :=
  {| r_deleted := r_deleted r; r_expired := r_expired r; routingOwnershipVersion := routingOwnershipVersion r;
     routingOwnershipRevision := routingOwnershipRevision r + 1; routingOwners := routingOwners r |}.
Definition with_owners (owners : list RoutingOwner) (version : option Z) (r : RoutingRoom) : RoutingRoom :=
  {| r_deleted := r_deleted r; r_expired := r_expired r; routingOwnershipVersion := version;
     routingOwnershipRevision := routingOwnershipRevision r + 1; routingOwners := owners |}.

(** The identity of a stored bundle. *)
Definition bundle_identity (bundle : jsval) : option (res VodozemacPublicIdentity) :=
  let i := oprop bundle "identity" in
  if truthy i then
    Some (match oprop i "curve25519", oprop i "ed25519" with
          | JStr c, JStr e => Ok {| curve25519 := c; ed25519 := e |}
          | _, _ => Err "TypeError"
          end)
  else None.

Definition check (b : bool) : M routing_world unit := lift (throw_if (negb b) DENIED).
Definition live_room (channel : string) : M routing_world RoutingRoom :=
  observe (λ w, match w_rooms w !! channel with Some r => if live r then Ok r else Err DENIED | None => Err DENIED end).

Definition adopt_new (channel addr proof : string) (admitted : DeviceLifecycleRecord) (until : Z) (t : nat → Z) (r : RoutingRoom)
    : M routing_world RoutingOwner :=
  check (length (routingOwners r) <? 2)%nat;;
  p ← observe (λ w, require (w_prekeys w !! (channel, addr)) DENIED);
  check (t 1%nat <? pub_expiresAt p);;
  i ← lift (require (bundle_identity (pub_bundle p)) DENIED);
  check (routingProofMatches proof (pub_proofHash p));;
  identity ← lift i;
  let reference := fingerprintVodozemacIdentity identity in
  check (bool_decide (dr_state admitted = active) && String.eqb (deviceIdentityReference admitted) reference &&
         String.eqb (verificationKeyReference admitted) (ed25519 identity));;
  let owner := {| address := addr; identity := identity; o_identityReference := reference; renewalProofHash := pub_proofHash p;
    o_account := accountIdentityReference admitted; o_deviceId := deviceId admitted; deviceEpoch := trustEpoch admitted;
    o_verificationKey := verificationKeyReference admitted; o_state := o_active; generation := 1; establishedAt := t 2%nat;
    o_revokedAt := None |} in
  fenceDevice owner;;
  deadline until (t 3%nat);;
  modify (set_room channel (with_owners (routingOwners r ++ [owner]) (Some 1) r));;
  mret owner.

Context (transient : nat → bool) (others : nat → routing_world → routing_world) (clock : nat → nat → Z).

(* backend/security/routingOwnership.ts:74-99 adopt *)
Definition adopt (channel addr proof : string) (admitted : DeviceLifecycleRecord) (until now : Z) : M routing_world RoutingOwner :=
  deadline until now;;
  transact 3 0 transient others (λ n,
    deadline until (clock n 0%nat);;
    r ← live_room channel;
    match owner_at r addr with
    | Some existing =>
        check (bool_decide (o_state existing = o_active) && matchesDevice existing admitted &&
               routingProofMatches proof (renewalProofHash existing));;
        fenceDevice existing;;
        deadline until (clock n 1%nat);;
        modify (set_room channel (bump r));;
        mret existing
    | None => adopt_new channel addr proof admitted until (clock n) r
    end).

(** The checks of [renew] and [revoke]. *)
Definition owned (channel addr proof : string) (admitted : DeviceLifecycleRecord) : M routing_world (RoutingRoom * RoutingOwner) :=
  r ← live_room channel;
  owner ← lift (require (owner_at r addr) DENIED);
  check (bool_decide (o_state owner = o_active) && matchesDevice owner admitted && routingProofMatches proof (renewalProofHash owner));;
  mret (r, owner).

(* backend/security/routingOwnership.ts:100-114 renew *)
Definition renew (channel addr proof : string) (admitted : DeviceLifecycleRecord) (until now : Z) (bundle : jsval)
    : M routing_world unit :=
  deadline until now;;
  transact 3 0 transient others (λ n,
    '(r, owner) ← owned channel addr proof admitted;
    check (bool_decide (oprop (oprop bundle "identity") "curve25519" = JStr (curve25519 (identity owner))) &&
           bool_decide (oprop (oprop bundle "identity") "ed25519" = JStr (ed25519 (identity owner))));;
    fenceDevice owner;;
    deadline until (clock n 1%nat);;
    modify (set_room channel (bump r));;
    modify (set_prekey (channel, addr) {| pub_bundle := bundle; pub_proofHash := renewalProofHash owner;
      pub_createdAt := clock n 2%nat; pub_expiresAt := clock n 2%nat + 7 * 86400000 |})).

Definition revoke_owner (now : Z) (o : RoutingOwner) : RoutingOwner :=
  {| address := address o; identity := identity o; o_identityReference := o_identityReference o;
     renewalProofHash := renewalProofHash o; o_account := o_account o; o_deviceId := o_deviceId o; deviceEpoch := deviceEpoch o;
     o_verificationKey := o_verificationKey o; o_state := o_revoked; generation := generation o + 1;
     establishedAt := establishedAt o; o_revokedAt := Some now |}.
(* backend/security/routingOwnership.ts:115-124 revoke *)
Definition revoke_ownership (channel addr proof : string) (admitted : DeviceLifecycleRecord) (until now : Z) : M routing_world unit :=
  deadline until now;;
  transact 3 0 transient others (λ n,
    '(r, owner) ← owned channel addr proof admitted;
    fenceDevice owner;;
    deadline until (clock n 1%nat);;
    modify (set_room channel (with_owners ((λ o, if is_owner addr o then revoke_owner (clock n 2%nat) o else o) <$> routingOwners r)
      (routingOwnershipVersion r) r))).

(** ** Decisions of the relay. [durable] is [durableRoutingEnabled()]; a relay without a Mongo database has no store. *)
Context (durable : bool).

Definition has_owner (channel addr : string) (w : routing_world) : bool :=
  match w_rooms w !! channel with Some r => existsb (is_owner addr) (routingOwners r) | None => false end.
Definition version_1 (channel : string) (w : routing_world) : bool :=
  match w_rooms w !! channel with Some r => bool_decide (routingOwnershipVersion r = Some 1) | None => false end.

(* backend/security/routingOwnership.ts:133-140 currentRoutingIdentity *)
Definition currentRoutingIdentity (channel addr : string) (allowLegacy : bool) (now : Z) (w : routing_world) : res (option string) :=
  if has_owner channel addr w then mret (o_identityReference <$> current channel addr w) else
  if negb allowLegacy || (version_1 channel w && negb durable) then mret None else
  match w_prekeys w !! (channel, addr) with
  | Some p => if pub_expiresAt p <=? now then mret None else
              match bundle_identity (pub_bundle p) with
              | Some i => identity ← i; mret (Some (fingerprintVodozemacIdentity identity))
              | None => mret None
              end
  | None => mret None
  end.

(* backend/security/routingOwnership.ts:141-149 authorizeCurrentRouting *)
Definition authorizeCurrentRouting (channel addr proof : string) (now : Z) (w : routing_world) : bool :=
  if has_owner channel addr w then
    match current channel addr w with
    | Some owner => routingProofMatches proof (renewalProofHash owner) && durable
    | None => false
    end
  else if version_1 channel w && negb durable then false else
  match w_prekeys w !! (channel, addr) with
  | Some p => (now <? pub_expiresAt p) && routingProofMatches proof (pub_proofHash p)
  | None => false
  end.

(* backend/security/routingOwnership.ts:150-161 bindVerifiedRouting *)
Definition bindVerifiedRouting (channel addr proof : string) (admitted : DeviceLifecycleRecord) (until now : Z)
    : M routing_world (option RoutingOwner) :=
  if negb durable then (b ← gets (version_1 channel); if (b : bool) then deny else mret None) else
  b ← gets (has_owner channel addr);
  if (b : bool) then
    owner ← observe (λ w, require (current channel addr w) DENIED);
    check (matchesDevice owner admitted && routingProofMatches proof (renewalProofHash owner) && (now <? until));;
    mret (Some owner)
  else owner ← adopt channel addr proof admitted until now; mret (Some owner).

(* backend/security/routingOwnership.ts:162-168 boundRoutingDevice *)
Definition boundRoutingDevice (channel addr account device : string) (epoch : Z) (w : routing_world) : bool :=
  if negb durable && negb (version_1 channel w) then true else
  if negb durable then false else
  match current channel addr w with
  | Some o => String.eqb (o_account o) account && String.eqb (o_deviceId o) device && (deviceEpoch o =? epoch)
  | None => false
  end.

(* backend/security/routingOwnership.ts:170-178 routingContinuation *)
Definition assertTrusted (channel addr : string) (owner : RoutingOwner) (until now : Z) (w : routing_world) : res unit :=
  throw_if (negb durable || (until <=? now)) DENIED;;
  o ← require (current channel addr w) DENIED;
  throw_if (negb (generation o =? generation owner) || negb (String.eqb (o_identityReference o) (o_identityReference owner)) ||
            negb (String.eqb (o_deviceId o) (o_deviceId owner)) || negb (String.eqb (o_account o) (o_account owner)) ||
            negb (deviceEpoch o =? deviceEpoch owner)) DENIED.
End routing.

(** ** What no writer undoes *)
(** The same slot later: bound to the same identity, proof and device; a tombstone does not change. *)
Definition owner_follows (o o' : RoutingOwner) : Prop :=
  (address o', identity o', o_identityReference o', renewalProofHash o', o_account o', o_deviceId o', deviceEpoch o', o_verificationKey o')
    = (address o, identity o, o_identityReference o, renewalProofHash o, o_account o, o_deviceId o, deviceEpoch o, o_verificationKey o) ∧
  generation o <= generation o' ∧ (o_state o = o_revoked → o' = o).
#[export] Instance owner_follows_preorder : PreOrder owner_follows.
Proof.
  split.
  - intros o. split_and!; [done|lia|done].
  - intros o1 o2 o3 (E1 & G1 & R1) (E2 & G2 & R2). split_and!; [congruence|lia|].
    intros Hr. specialize (R1 Hr) as ->. auto.
Qed.

Definition room_follows (r r' : RoutingRoom) : Prop :=
  (live r' = true → live r = true) ∧
  ∀ addr o, owner_at r addr = Some o → ∃ o', owner_at r' addr = Some o' ∧ owner_follows o o'.
#[export] Instance room_follows_preorder : PreOrder room_follows.
Proof.
  split.
  - intros r. split; [done|]. intros addr o Ho. by exists o.
  - intros r1 r2 r3 [L1 H1] [L2 H2]. split; [auto|]. intros addr o Ho.
    destruct (H1 addr o Ho) as (o2 & Ho2 & F2). destruct (H2 addr o2 Ho2) as (o3 & Ho3 & F3). exists o3. split; [done|]. by etrans.
Qed.

(** At most two slots, at distinct addresses. *)
Definition room_ok (r : RoutingRoom) : Prop := (length (routingOwners r) ≤ 2)%nat ∧ NoDup (address <$> routingOwners r).
Definition world_ok (w : routing_world) : Prop := map_Forall (λ _, room_ok) (w_rooms w).
Definition evolves (w w' : routing_world) : Prop :=
  world_ok w → world_ok w' ∧
    ∀ ch r, w_rooms w !! ch = Some r → ∃ r', w_rooms w' !! ch = Some r' ∧ room_follows r r'.
#[export] Instance evolves_preorder : PreOrder evolves.
Proof.
  split.
  - intros w Hw. split; [done|]. intros ch r Hr. by exists r.
  - intros w1 w2 w3 H12 H23 H1. destruct (H12 H1) as [H2 F2]. destruct (H23 H2) as [H3 F3]. split; [done|].
    intros ch r Hr. destruct (F2 ch r Hr) as (r2 & Hr2 & G2). destruct (F3 ch r2 Hr2) as (r3 & Hr3 & G3).
    exists r3. split; [done|]. by etrans.
Qed.

Lemma evolves_set ch r r' (w : routing_world) w' :
  w_rooms w !! ch = Some r → w_rooms w' = <[ch := r']> (w_rooms w) → room_follows r r' → (room_ok r → room_ok r') → evolves w w'.
Proof.
  intros Hr Hw' Hf Hok Hw. unfold world_ok. rewrite Hw'. split.
  - apply map_Forall_insert_2; [|done]. apply Hok. by apply (Hw ch).
  - intros c x Hx. destruct (decide (c = ch)) as [->|Hne].
    + rewrite lookup_insert_eq. exists r'. by simplify_eq.
    + rewrite lookup_insert_ne by done. by exists x.
Qed.

Lemma evolves_same (w w' : routing_world) : w_rooms w' = w_rooms w → evolves w w'.
Proof. intros Hr Hw. unfold world_ok. rewrite Hr. split; [done|]. intros ch r Hc. by exists r. Qed.

Lemma bump_follows r : room_follows r (bump r) ∧ (room_ok r → room_ok (bump r)).
Proof. split; [|done]. split; [done|]. intros addr o Ho. by exists o. Qed.

Lemma append_follows r o v :
  owner_at r (address o) = None → (length (routingOwners r) <? 2)%nat = true →
  room_follows r (with_owners (routingOwners r ++ [o]) v r) ∧ (room_ok r → room_ok (with_owners (routingOwners r ++ [o]) v r)).
Proof.
  intros Hno Hlen. apply Nat.ltb_lt in Hlen. split; [split; [done|]|].
  - intros addr x Hx. exists x. split; [|done]. unfold owner_at, js_find in *. cbn [routingOwners with_owners].
    induction (routingOwners r) as [|y l IH]; cbn in *; [done|]. destruct (is_owner addr y); [done|]. apply IH; [|lia|done].
    by destruct (is_owner (address o) y).
  - intros [_ Hn]. split; cbn [routingOwners with_owners].
    + rewrite length_app. cbn. lia.
    + rewrite fmap_app. apply NoDup_app. split_and!; [done| |apply NoDup_singleton].
      intros a Ha. cbn. rewrite list_elem_of_singleton. intros ->.
      apply list_elem_of_fmap in Ha as (y & Hy & Hin). unfold owner_at in Hno. rewrite js_find_None in Hno.
      specialize (Hno y Hin). unfold is_owner in Hno. by rewrite Hy, String.eqb_refl in Hno.
Qed.

Lemma revoke_follows r addr v now :
  (∀ o, owner_at r addr = Some o → o_state o = o_active) → NoDup (address <$> routingOwners r) →
  room_follows r (with_owners ((λ o, if is_owner addr o then revoke_owner now o else o) <$> routingOwners r) v r) ∧
  (room_ok r → room_ok (with_owners ((λ o, if is_owner addr o then revoke_owner now o else o) <$> routingOwners r) v r)).
Proof.
  intros Hact Hn. assert (∀ o, address (if is_owner addr o then revoke_owner now o else o) = address o) as Ha
    by (intros o; by destruct (is_owner addr o)). split; [split; [done|]|].
  - intros a o Ho. exists (if is_owner addr o then revoke_owner now o else o).
    split.
    + unfold owner_at, js_find in *. cbn [routingOwners with_owners]. clear Hact Hn. induction (routingOwners r) as [|y l IH]; cbn in *; [done|].
      assert (is_owner a (if is_owner addr y then revoke_owner now y else y) = is_owner a y) as -> by (unfold is_owner at 1; by rewrite Ha).
      destruct (is_owner a y); [by injection Ho as ->|]. by apply IH.
    + destruct (is_owner addr o) eqn:E; [|done]. split_and!; [done|cbn; lia|].
      intros Hr. assert (a = addr) as ->.
      { unfold owner_at in Ho. apply js_find_Some in Ho as [_ Ho]. unfold is_owner in *. apply String.eqb_eq in Ho, E. congruence. }
      by rewrite (Hact o Ho) in Hr.
  - intros [Hl Hd]. split; cbn [routingOwners with_owners]; [by rewrite length_fmap|].
    rewrite <-list_fmap_compose. replace ((address ∘ _) <$> routingOwners r) with (address <$> routingOwners r); [done|].
    apply list_fmap_ext. intros i x _. cbn. by rewrite Ha.
Qed.

(** ** The operations *)
Section operations.
Context (sha256 sha256_hex : string → string).
Context (transient : nat → bool) (others : nat → routing_world → routing_world) (clock : nat → nat → Z).
Context (Hothers : ∀ n w, evolves w (others n w)).

(** A transaction either commits one run, on the world other writers left, or writes nothing. *)
Lemma transact_spec {A} (run : nat → M routing_world A) n k w x w' :
  transact n k transient others run w = (x, w') →
  ∃ w0, evolves w w0 ∧ ((is_ok x = false ∧ w' = w0) ∨ ∃ m a, x = Ok a ∧ run m w0 = (Ok a, w')).
Proof.
  revert k w. induction n as [|n IH]; intros k w; cbn [transact]; [intros [= <- <-]; exists w; split; [done|by left]|].
  destruct (transient k).
  - destruct (k =? 2)%nat; [intros [= <- <-]; exists (others k w); split; [done|by left]|].
    intros (w0 & He & H)%IH. exists w0. split; [|done]. etrans; [apply Hothers|exact He].
  - destruct (run k (others k w)) as [[a|e] w1] eqn:E; intros [= <- <-]; exists (others k w); (split; [done|]).
    + right. by exists k, a.
    + by left.
Qed.

Lemma live_room_ok (o : option RoutingRoom) r :
  match o with Some r => if live r then Ok r else Err DENIED | None => Err DENIED end = Ok r → o = Some r ∧ live r = true.
Proof. destruct o as [r0|]; [|done]. destruct (live r0) eqn:El; [|done]. by intros [= <-]. Qed.

Lemma fence_ok o (w w' : routing_world) u : fenceDevice o w = (Ok u, w') →
  authorized_device o w = true ∧ w_rooms w' = w_rooms w ∧ w_devices w' = w_devices w ∧ w_prekeys w' = w_prekeys w.
Proof. unfold fenceDevice. destruct (authorized_device o w); [|done]. by intros [= _ <-]. Qed.

(** What a granted operation on the address was checked against, in the world [w0] it committed on. *)
Definition authorized (ch addr proof : string) (admitted : DeviceLifecycleRecord) (o : RoutingOwner) (w0 : routing_world) : Prop :=
  ∃ r, w_rooms w0 !! ch = Some r ∧ live r = true ∧ address o = addr ∧ o_state o = o_active ∧
    routingProofMatches sha256_hex proof (renewalProofHash o) = true ∧ matchesDevice o admitted = true ∧
    authorized_device o w0 = true ∧ (owner_at r addr = Some o ∨ owner_at r addr = None ∧ (length (routingOwners r) < 2)%nat).

Lemma owner_at_ok r addr o : owner_at r addr = Some o → address o = addr.
Proof. unfold owner_at. intros [_ H]%js_find_Some. by apply String.eqb_eq in H. Qed.

Lemma adopt_new_run ch addr proof admitted until t r (w w' : routing_world) o :
  w_rooms w !! ch = Some r → live r = true → owner_at r addr = None →
  adopt_new sha256 sha256_hex ch addr proof admitted until t r w = (Ok o, w') →
  evolves w w' ∧ authorized ch addr proof admitted o w ∧ until > t 3%nat.
Proof.
  intros Hr Hl Hno H. unfold adopt_new in H. m_step H. guard_inv Hm. rename Hm into Hlen. m_step H. m_step H.
  guard_inv Hm0. rename Hm0 into Hexp. m_step H. m_step H. guard_inv Hm1. rename Hm1 into Hproof. m_step H. m_step H.
  guard_inv Hm2. rename Hm2 into Hdev. m_step H. apply fence_ok in Hm2 as (Hauth & Hrooms & _ & _). m_step H. m_step H.
  clear Hm3. apply mret_ok in H as [<- ->]. guard_inv Hm2. rewrite !andb_true_iff in Hdev. destruct Hdev as [[Ha Hi] Hk].
  split_and!.
  - match goal with |- evolves _ (set_room _ (with_owners (_ ++ [?o]) ?v _) _) => destruct (append_follows r o v Hno Hlen) as [Hf Hok] end.
    eapply (evolves_set ch r); [exact Hr| |exact Hf|exact Hok]. cbn. by rewrite Hrooms.
  - exists r. cbn. apply Nat.ltb_lt in Hlen. apply String.eqb_eq in Hi, Hk. split_and!; try done; [|by right].
    unfold matchesDevice. cbn. rewrite Ha, Hi, !String.eqb_refl, Z.eqb_refl. done.
  - lia.
Qed.

Lemma adopt_run ch addr proof admitted until now (w : routing_world) x w' :
  adopt sha256 sha256_hex transient others clock ch addr proof admitted until now w = (x, w') →
  evolves w w' ∧ ∀ o, x = Ok o → ∃ w0, evolves w w0 ∧ authorized ch addr proof admitted o w0 ∧ now < until.
Proof.
  unfold adopt, deadline. rewrite lift_bind. destruct (throw_if _ _) eqn:Eg; [|by intros [= <- <-]]. apply throw_if_ok, Z.leb_gt in Eg.
  intros (w0 & He & [[Hx ->]|(n & v & -> & H)])%transact_spec; [split; [done|by intros o ->]|].
  m_step H. m_step H. apply live_room_ok in Hm0 as (Hr & Hl). rename select RoutingRoom into r.
  destruct (owner_at r addr) as [e|] eqn:Eo.
  - m_step H. guard_inv Hm0. rename Hm0 into Hc. m_step H. apply fence_ok in Hm0 as (Hauth & Hrooms & _ & _).
    m_step H. m_step H. clear Hm1. apply mret_ok in H as [<- ->]. rewrite !andb_true_iff in Hc. destruct Hc as [[Ha Hmd] Hp].
    apply bool_decide_eq_true in Ha. split.
    + etrans; [exact He|]. destruct (bump_follows r) as [Hf Hok].
      eapply (evolves_set ch r); [exact Hr| |exact Hf|exact Hok]. cbn. by rewrite Hrooms.
    + intros o [= <-]. exists w0. split_and!; [done| |lia]. exists r. split_and!; try done; [by eapply owner_at_ok|by left].
  - apply (adopt_new_run ch addr proof admitted until (clock n) r) in H as (Hev & Hauth & _); [|done..].
    split; [by etrans|]. intros o [= <-]. by exists w0.
Qed.

Lemma owned_ok ch addr proof admitted (w w' : routing_world) r o :
  owned sha256_hex ch addr proof admitted w = (Ok (r, o), w') →
  w' = w ∧ w_rooms w !! ch = Some r ∧ live r = true ∧ owner_at r addr = Some o ∧ o_state o = o_active ∧
  matchesDevice o admitted = true ∧ routingProofMatches sha256_hex proof (renewalProofHash o) = true.
Proof.
  unfold owned. intros H. m_step H. apply live_room_ok in Hm as (Hr & Hl). m_step H. m_step H.
  guard_inv Hm0. rename Hm0 into Hc. apply mret_ok in H as [[= <- <-] ->]. apply require_ok in Hm.
  rewrite !andb_true_iff, bool_decide_eq_true in Hc. by destruct Hc as [[? ?] ?].
Qed.

Lemma renew_run ch addr proof admitted until now bundle (w : routing_world) x w' :
  renew sha256_hex transient others clock ch addr proof admitted until now bundle w = (x, w') →
  evolves w w' ∧ (x = Ok tt → ∃ w0 o, evolves w w0 ∧ authorized ch addr proof admitted o w0 ∧ now < until).
Proof.
  unfold renew, deadline. rewrite lift_bind. destruct (throw_if _ _) eqn:Eg; [|by intros [= <- <-]]. apply throw_if_ok, Z.leb_gt in Eg.
  intros (w0 & He & [[Hx ->]|(n & v & -> & H)])%transact_spec; [split; [done|by intros ->]|].
  m_step H. destruct x as [r o]. apply owned_ok in Hm as (-> & Hr & Hl & Ho & Ha & Hmd & Hp). m_step H. clear Hm.
  m_step H. apply fence_ok in Hm as (Hauth & Hrooms & _ & _). m_step H. m_step H. clear Hm0. injection H as _ <-. split.
  - etrans; [exact He|]. destruct (bump_follows r) as [Hf Hok].
    eapply (evolves_set ch r); [exact Hr| |exact Hf|exact Hok]. cbn. by rewrite Hrooms.
  - intros _. exists w0, o. split_and!; [done| |lia]. exists r. split_and!; try done; [by eapply owner_at_ok|by left].
Qed.

Lemma revoke_run ch addr proof admitted until now (w : routing_world) x w' :
  revoke_ownership sha256_hex transient others clock ch addr proof admitted until now w = (x, w') →
  evolves w w' ∧ (x = Ok tt → ∃ w0 o, evolves w w0 ∧ authorized ch addr proof admitted o w0 ∧ now < until).
Proof.
  unfold revoke_ownership, deadline. rewrite lift_bind. destruct (throw_if _ _) eqn:Eg; [|by intros [= <- <-]]. apply throw_if_ok, Z.leb_gt in Eg.
  intros (w0 & He & [[Hx ->]|(n & v & -> & H)])%transact_spec; [split; [done|by intros ->]|].
  m_step H. destruct x as [r o]. apply owned_ok in Hm as (-> & Hr & Hl & Ho & Ha & Hmd & Hp).
  m_step H. apply fence_ok in Hm as (Hauth & Hrooms & _ & _). m_step H. injection H as _ <-. split.
  - etrans; [exact He|]. intros Hok0.
    destruct (revoke_follows r addr (routingOwnershipVersion r) (clock n 2%nat)) as [Hf Hok]; [congruence|by apply (Hok0 ch)|].
    eapply (evolves_set ch r); [exact Hr| |exact Hf|exact Hok|done]. cbn. by rewrite Hrooms.
  - intros _. exists w0, o. split_and!; [done| |lia]. exists r. split_and!; try done; [by eapply owner_at_ok|by left].
Qed.
End operations.

(** ** Properties *)
Inductive routing_op :=
| Adopt (ch addr proof : string) (admitted : DeviceLifecycleRecord) (until now : Z)
| Renew (ch addr proof : string) (admitted : DeviceLifecycleRecord) (until now : Z) (bundle : jsval)
| Revoke (ch addr proof : string) (admitted : DeviceLifecycleRecord) (until now : Z)
| Bind (ch addr proof : string) (admitted : DeviceLifecycleRecord) (until now : Z).
Definition op_target (op : routing_op) : string * string * string * DeviceLifecycleRecord * Z * Z :=
  match op with
  | Adopt ch a p d u n | Renew ch a p d u n _ | Revoke ch a p d u n | Bind ch a p d u n => (ch, a, p, d, u, n)
  end.

Section properties.
Context (sha256 sha256_hex : string → string).
Context (transient : nat → bool) (others : nat → routing_world → routing_world) (clock : nat → nat → Z).
Context (Hothers : ∀ n w, evolves w (others n w)).

Definition run_routing (op : routing_op) (durable : bool) (w : routing_world) : bool * routing_world :=
  match op with
  | Adopt ch a p d u n => let '(x, w') := adopt sha256 sha256_hex transient others clock ch a p d u n w in (is_ok x, w')
  | Renew ch a p d u n b => let '(x, w') := renew sha256_hex transient others clock ch a p d u n b w in (is_ok x, w')
  | Revoke ch a p d u n => let '(x, w') := revoke_ownership sha256_hex transient others clock ch a p d u n w in (is_ok x, w')
  | Bind ch a p d u n => let '(x, w') := bindVerifiedRouting sha256 sha256_hex transient others clock durable ch a p d u n w in
      (match x with Ok (Some _) => true | _ => false end, w')
  end.

Lemma current_ok ch addr (w : routing_world) o : current ch addr w = Some o →
  ∃ r, w_rooms w !! ch = Some r ∧ live r = true ∧ o ∈ routingOwners r ∧ address o = addr ∧ o_state o = o_active ∧ authorized_device o w = true.
Proof.
  unfold current. destruct (w_rooms w !! ch) as [r|] eqn:Er; [|done]. cbn. destruct (live r) eqn:El; [|done].
  intros [Hin Hp]%js_find_Some. rewrite !andb_true_iff, bool_decide_eq_true in Hp. destruct Hp as [[Ha%String.eqb_eq Hst] Hd].
  by exists r.
Qed.

(** The owners of a room have distinct addresses, so an owner is found at its address. *)
Lemma owner_at_in r o : NoDup (address <$> routingOwners r) → o ∈ routingOwners r → owner_at r (address o) = Some o.
Proof.
  unfold owner_at, js_find. induction (routingOwners r) as [|x l IH]; cbn; [set_solver|].
  intros [Hx Hn]%NoDup_cons [->|Hin]%elem_of_cons; unfold is_owner at 1; [by rewrite String.eqb_refl|].
  destruct (String.eqb_spec (address x) (address o)) as [E|]; [|by apply IH].
  exfalso. apply Hx. rewrite E. by apply list_elem_of_fmap_2.
Qed.

(** What each operation does, and what a granted one was checked against. *)
Lemma run_routing_spec op durable (w : routing_world) b w' :
  world_ok w → run_routing op durable w = (b, w') →
  evolves w w' ∧ (b = true → ∃ w0 o, evolves w w0 ∧
    let '(ch, addr, proof, d, until, now) := op_target op in authorized sha256_hex ch addr proof d o w0 ∧ now < until).
Proof.
  intros Hw. destruct op as [ch a p d u n|ch a p d u n bd|ch a p d u n|ch a p d u n]; cbn [run_routing op_target].
  - destruct (adopt _ _ _ _ _ _ _ _ _ _ _ w) as [x w1] eqn:E. intros [= <- <-].
    apply (adopt_run _ _ _ _ _ Hothers) in E as [He Ho]. split; [done|].
    destruct x as [o|]; [|done]. intros _. destruct (Ho o eq_refl) as (w0 & H0 & Ha & Hl). by exists w0, o.
  - destruct (renew _ _ _ _ _ _ _ _ _ _ _ w) as [x w1] eqn:E. intros [= <- <-].
    apply (renew_run _ _ _ _ Hothers) in E as [He Ho]. split; [done|]. destruct x as [[]|]; [|done]. intros _. by apply Ho.
  - destruct (revoke_ownership _ _ _ _ _ _ _ _ _ _ w) as [x w1] eqn:E. intros [= <- <-].
    apply (revoke_run _ _ _ _ Hothers) in E as [He Ho]. split; [done|]. destruct x as [[]|]; [|done]. intros _. by apply Ho.
  - unfold bindVerifiedRouting. destruct durable; cbn [negb].
    2: { rewrite gets_bind. by destruct (version_1 ch w); intros [= <- <-]. }
    rewrite gets_bind. destruct (has_owner ch a w).
    + rewrite observe_bind. destruct (current ch a w) as [o|] eqn:Ec; cbn [require]; [|by intros [= <- <-]].
      unfold check. rewrite lift_bind. destruct (throw_if _ _) eqn:Eg; intros [= <- <-]; (split; [done|]); [|done]. intros _.
      guard_inv Eg. rewrite !andb_true_iff in Eg. destruct Eg as [[Hm Hp] Hl]. exists w, o. split; [done|]. split; [|lia].
      apply current_ok in Ec as (r & Hr & Hlv & Hin & Ha & Hst & Hd). exists r. split_and!; try done. left.
      rewrite <-Ha. apply owner_at_in; [by apply (Hw ch)|done].
    + unfold mbind at 1, M_bind at 1. destruct (adopt _ _ _ _ _ _ _ _ _ _ _ w) as [x w1] eqn:E.
      apply (adopt_run _ _ _ _ _ Hothers) in E as [He Ho]. destruct x as [o|e]; intros [= <- <-]; (split; [done|]); [|done].
      intros _. destruct (Ho o eq_refl) as (w0 & H0 & Ha & Hl). by exists w0, o.
Qed.

(** every routing operation, whatever other relay processes commit meanwhile and however its transactions abort, keeps
    at most two slots per room, at distinct addresses, each bound for ever to its identity, renewal proof and device,
    with a tombstone never changing; and an operation is granted only when, in the database state it committed on, the
    room was live, the address was free or actively owned, the proof matched, and the admitted device was the
    registered active device the owner is bound to. *)
Theorem routing_slots_are_permanent op durable (w w' : routing_world) b :
  world_ok w → run_routing op durable w = (b, w') →
  evolves w w' ∧ (b = true → ∃ w0 o, evolves w w0 ∧
    let '(ch, addr, proof, d, until, now) := op_target op in authorized sha256_hex ch addr proof d o w0 ∧ now < until).
Proof. apply run_routing_spec. Qed.

(** The slot of a revoked address. *)
Definition tombstone (ch addr : string) (w : routing_world) : Prop :=
  ∃ r o, w_rooms w !! ch = Some r ∧ owner_at r addr = Some o ∧ o_state o = o_revoked.

Lemma tombstone_evolves ch addr (w w' : routing_world) : world_ok w → evolves w w' → tombstone ch addr w → tombstone ch addr w'.
Proof.
  intros Hw He (r & o & Hr & Ho & Hs). destruct (He Hw) as [_ Hf]. destruct (Hf ch r Hr) as (r' & Hr' & _ & Hown).
  destruct (Hown addr o Ho) as (o' & Ho' & _ & _ & Hsame). exists r', o'. split_and!; [done|done|]. by rewrite (Hsame Hs).
Qed.

Lemma tombstone_current ch addr (w : routing_world) : world_ok w → tombstone ch addr w → current ch addr w = None.
Proof.
  intros Hw (r & o & Hr & Ho & Hs). destruct (current ch addr w) as [o'|] eqn:Ec; [|done].
  apply current_ok in Ec as (r' & Hr' & _ & Hin & Ha & Hst & _). assert (r' = r) as -> by congruence.
  pose proof (owner_at_in r o' (proj2 (Hw ch r Hr)) Hin) as Hat. rewrite Ha in Hat. congruence.
Qed.

Lemma tombstone_owner ch addr (w : routing_world) : tombstone ch addr w → has_owner ch addr w = true.
Proof.
  intros (r & o & Hr & Ho & _). unfold has_owner. rewrite Hr. unfold owner_at in Ho. apply js_find_Some in Ho as [Hin Ho].
  apply existsb_exists. exists o. split; [by apply list_elem_of_In|done].
Qed.

End properties.

(** ** Witnesses *)
Definition zeros64 : string := "0000000000000000000000000000000000000000000000000000000000000000".
Definition demo_proof : string := "AAAAAAAAAAAAAAAAAAAAAAAAAAAAAAAAAAAAAAAAAAA".
Definition demo_device : DeviceLifecycleRecord := {|
  accountIdentityReference := "alice"; deviceId := "phone"; deviceIdentityReference := "ref"; verificationKeyReference := "key";
  dr_state := active; trustEpoch := 1; createdAt := 0; revokedAt := None; lastTrustUpdate := 0 |}.
Definition demo_owner : RoutingOwner := {|
  address := "box"; identity := {| curve25519 := "c"; ed25519 := "key" |}; o_identityReference := "ref"; renewalProofHash := zeros64;
  o_account := "alice"; o_deviceId := "phone"; deviceEpoch := 1; o_verificationKey := "key"; o_state := o_active; generation := 1;
  establishedAt := 0; o_revokedAt := None |}.
Definition demo_room : RoutingRoom := {|
  r_deleted := false; r_expired := false; routingOwnershipVersion := Some 1; routingOwnershipRevision := 1; routingOwners := [demo_owner] |}.
Definition demo_world : routing_world := {|
  w_rooms := {["room" := demo_room]}; w_prekeys := ∅; w_devices := {[("alice", "phone") := demo_device]}; w_fences := ∅ |}.
Definition demo_sha : string → string := λ _, "digest".
Definition demo_hex : string → string := λ _, zeros64.
Definition demo_run := run_routing demo_sha demo_hex (λ n, (n =? 0)%nat) (λ _ w, w) (λ _ _, 5).

Lemma demo_evolves : ∀ (n : nat) w, evolves w ((λ _ w, w) n w).
Proof. done. Qed.

Lemma demo_world_ok : world_ok demo_world.
Proof.
  unfold world_ok, demo_world. cbn [w_rooms]. apply map_Forall_singleton. split; [cbn; lia|]. apply NoDup_singleton.
Qed.

(** the first attempt aborts, the second revokes the owner *)
Lemma demo_revoked : (demo_run (Revoke "room" "box" demo_proof demo_device 10 5) true demo_world).1 = true.
Proof. vm_compute. done. Qed.

Lemma routing_slots_are_permanent_witness :
  let w' := (demo_run (Revoke "room" "box" demo_proof demo_device 10 5) true demo_world).2 in
  evolves demo_world w' ∧ ∃ w0 o, evolves demo_world w0 ∧ authorized demo_hex "room" "box" demo_proof demo_device o w0 ∧ 5 < 10.
Proof.
  pose proof (routing_slots_are_permanent demo_sha demo_hex (λ n, (n =? 0)%nat) (λ _ w, w) (λ _ _, 5) demo_evolves
    (Revoke "room" "box" demo_proof demo_device 10 5) true demo_world _ _ demo_world_ok (surjective_pairing _)) as [H1 H2].
  split; [exact H1|exact (H2 demo_revoked)].
Defined.

Definition demo_dead : routing_world := (demo_run (Revoke "room" "box" demo_proof demo_device 10 5) true demo_world).2.
Lemma demo_dead_ok : world_ok demo_dead.
Proof.
  destruct (run_routing_spec demo_sha demo_hex (λ n, (n =? 0)%nat) (λ _ w, w) (λ _ _, 5) demo_evolves
    (Revoke "room" "box" demo_proof demo_device 10 5) true demo_world _ _ demo_world_ok (surjective_pairing _)) as [H _].
  by apply H, demo_world_ok.
Qed.
Lemma demo_dead_tombstone : tombstone "room" "box" demo_dead.
Proof. eexists _, (revoke_owner 5 demo_owner). split_and!; vm_compute; reflexivity. Qed.

