(* ===== verification/Sockets.v ===== *)
(** * The relay's sockets and who owns an address ([backend/socket.io]: [multiplexed.ts], [listeners.ts], [clients.ts])

    What the relay keeps in memory about its connections, and the parts of the handlers that run without suspension. An
    address of a room is owned by at most one socket: a legacy socket, registered in [Presence], or a multiplexed socket with
    a subscription. Every suspension lets other handlers run ([EventLoop]); the relay's stores are behind [RelayServices],
    whose operations may fail, and which [DeviceAuthority], [Rooms], [Routing] and [Mailbox] implement.

    A socket object outlives its connection ([connected]); [io.sockets.sockets] holds the connected ones. A subscription object
    is compared by identity, which equality is, since each has a [stamp] of its own. [Date.now()] does not move within a segment. Log messages are not
    modelled. *)
From S2P Require Import Prelude Json Storage RateLimit EventLoop Presence DeviceAuthority.

(* backend/socket.io/multiplexed.ts:42-53 MuxRoomSubscription *)
Record MuxRoomSubscription := {
  stamp : nat; sub_roomId : string; routingAddress : string; peerRoutingAddress : string; connectionGeneration : string; nonce : string;
  sub_expiresAt : Z; controlCapability : string; sub_routingProof : string; sub_features : list string }.
#[export] Instance subscription_eq_dec : EqDecision MuxRoomSubscription.
Proof. solve_decision. Defined.
Definition same_subscription (a b : MuxRoomSubscription) : bool := bool_decide (a = b).

(** The properties the relay adds to a socket; an absent map of subscriptions is an empty one. *)
(* backend/socket.io/index.ts:9-18 CustomSocket *)
Record CustomSocket := {
  userID : option string; channelID : option string; s_deviceId : option string; s_account : option string; deviceTrustEpoch : option Z;
  s_features : option (list string); muxConnectionGeneration : option string; muxSubscriptions : gmap string MuxRoomSubscription;
  connected : bool }.
Definition new_socket : CustomSocket :=
  {| userID := None; channelID := None; s_deviceId := None; s_account := None; deviceTrustEpoch := None; s_features := None;
     muxConnectionGeneration := None; muxSubscriptions := ∅; connected := true |}.
Definition with_room (user channel : string) (f : list string) (s : CustomSocket) : CustomSocket :=
  {| userID := Some user; channelID := Some channel; s_deviceId := s_deviceId s; s_account := s_account s; deviceTrustEpoch := deviceTrustEpoch s;
     s_features := Some f; muxConnectionGeneration := muxConnectionGeneration s; muxSubscriptions := muxSubscriptions s; connected := connected s |}.
Definition with_device (device account : string) (epoch : Z) (s : CustomSocket) : CustomSocket :=
  {| userID := userID s; channelID := channelID s; s_deviceId := Some device; s_account := Some account; deviceTrustEpoch := Some epoch;
     s_features := s_features s; muxConnectionGeneration := muxConnectionGeneration s; muxSubscriptions := muxSubscriptions s; connected := connected s |}.
Definition with_features (f : list string) (s : CustomSocket) : CustomSocket :=
  {| userID := userID s; channelID := channelID s; s_deviceId := s_deviceId s; s_account := s_account s; deviceTrustEpoch := deviceTrustEpoch s;
     s_features := Some f; muxConnectionGeneration := muxConnectionGeneration s; muxSubscriptions := muxSubscriptions s; connected := connected s |}.
Definition with_generation (g : option string) (s : CustomSocket) : CustomSocket :=
  {| userID := userID s; channelID := channelID s; s_deviceId := s_deviceId s; s_account := s_account s; deviceTrustEpoch := deviceTrustEpoch s;
     s_features := s_features s; muxConnectionGeneration := g; muxSubscriptions := muxSubscriptions s; connected := connected s |}.
Definition with_subscriptions (m : gmap string MuxRoomSubscription) (s : CustomSocket) : CustomSocket :=
  {| userID := userID s; channelID := channelID s; s_deviceId := s_deviceId s; s_account := s_account s; deviceTrustEpoch := deviceTrustEpoch s;
     s_features := s_features s; muxConnectionGeneration := muxConnectionGeneration s; muxSubscriptions := m; connected := connected s |}.
Definition with_connected (b : bool) (s : CustomSocket) : CustomSocket :=
  {| userID := userID s; channelID := channelID s; s_deviceId := s_deviceId s; s_account := s_account s; deviceTrustEpoch := deviceTrustEpoch s;
     s_features := s_features s; muxConnectionGeneration := muxConnectionGeneration s; muxSubscriptions := muxSubscriptions s; connected := b |}.

(** [sockets], [deviceSockets], [muxRoomSockets] and the registry of legacy clients *)
(* backend/socket.io/multiplexed.ts:62-67 tables: deviceSockets, muxRoomSockets *)
Record Registry := {
  sockets : gmap string CustomSocket; deviceSockets : gmap (string * string) string;
  muxRoomSockets : gmap string (list (string * string)); clients : Clients }.
Definition no_sockets : Registry := {| sockets := ∅; deviceSockets := ∅; muxRoomSockets := ∅; clients := no_clients |}.
(** the variables of a socket a handler holds; the object exists as long as that *)
Definition closed_socket : CustomSocket := with_connected false new_socket.
Definition on_socket (sid : string) (f : CustomSocket → CustomSocket) (g : Registry) : Registry :=
  {| sockets := <[sid := f (default closed_socket (sockets g !! sid))]> (sockets g); deviceSockets := deviceSockets g; muxRoomSockets := muxRoomSockets g; clients := clients g |}.
Definition with_devices (m : gmap (string * string) string) (g : Registry) : Registry :=
  {| sockets := sockets g; deviceSockets := m; muxRoomSockets := muxRoomSockets g; clients := clients g |}.
Definition with_rooms (m : gmap string (list (string * string))) (g : Registry) : Registry :=
  {| sockets := sockets g; deviceSockets := deviceSockets g; muxRoomSockets := m; clients := clients g |}.
Definition with_clients (c : Clients) (g : Registry) : Registry :=
  {| sockets := sockets g; deviceSockets := deviceSockets g; muxRoomSockets := muxRoomSockets g; clients := c |}.

(* backend/socket.io/multiplexed.ts:69-69 MailboxPump *)
Record MailboxPump := { p_socket : string; p_subscription : MuxRoomSubscription; running : bool; requested : bool; p_timer : option nat }.
(** the variables a connection's listeners share *)
(* backend/socket.io/listeners.ts:219-223 variables of connectionListener *)
Record Listener := { replayRunning : bool; replayRequested : bool; replayTimer : option nat; releaseDeviceSlot : option nat; replayFailureCount : Z }.
Definition new_listener : Listener :=
  {| replayRunning := false; replayRequested := false; replayTimer := None; releaseDeviceSlot := None; replayFailureCount := 0 |}.
(** what a timer does when it fires *)
Inductive Job := expire_subscription (sid : string) (sub : MuxRoomSubscription) | pump_mailbox (pump : nat) | replay_mailbox (sid : string).
Record Timer := { due : Z; job : Job }.
(* backend/socket.io/multiplexed.ts:64-64 OperationQueue *)
Record OperationQueue := { tail : nat; q_pending : Z }.
(** What an emission may wait for: no answer yet, an answer, or the end of the wait. *)
Inductive Reply := answered (v : jsval) | timed_out.
(** What the relay does that others see: a packet to a socket and the acknowledgement of a packet. *)
Inductive Event := emitted (sid topic : string) (data : jsval) | acknowledged (request : nat) (response : jsval).

(** what waits and what will run *)
(* backend/socket.io/multiplexed.ts:65-70 tables: operationQueues, subscriptionTimers, roomOwnershipLocks, mailboxPumps *)
Record Waiting := {
  promises : gmap nat bool; roomOwnershipLocks : gmap (string * string) nat; operationQueues : gmap string OperationQueue;
  timers : gmap nat Timer; subscriptionTimers : gmap (string * string) nat;
  pumps : gmap nat MailboxPump; mailboxPumps : gmap (string * string) nat; listeners : gmap string Listener; replies : gmap nat Reply }.
Definition nothing_waits : Waiting :=
  {| promises := ∅; roomOwnershipLocks := ∅; operationQueues := ∅; timers := ∅; subscriptionTimers := ∅; pumps := ∅; mailboxPumps := ∅;
     listeners := ∅; replies := ∅ |}.
Definition with_promises (m : gmap nat bool) (q : Waiting) : Waiting :=
  {| promises := m; roomOwnershipLocks := roomOwnershipLocks q; operationQueues := operationQueues q; timers := timers q;
     subscriptionTimers := subscriptionTimers q; pumps := pumps q; mailboxPumps := mailboxPumps q; listeners := listeners q; replies := replies q |}.
Definition with_locks (m : gmap (string * string) nat) (q : Waiting) : Waiting :=
  {| promises := promises q; roomOwnershipLocks := m; operationQueues := operationQueues q; timers := timers q;
     subscriptionTimers := subscriptionTimers q; pumps := pumps q; mailboxPumps := mailboxPumps q; listeners := listeners q; replies := replies q |}.
Definition with_queues (m : gmap string OperationQueue) (q : Waiting) : Waiting :=
  {| promises := promises q; roomOwnershipLocks := roomOwnershipLocks q; operationQueues := m; timers := timers q;
     subscriptionTimers := subscriptionTimers q; pumps := pumps q; mailboxPumps := mailboxPumps q; listeners := listeners q; replies := replies q |}.
Definition with_timers (m : gmap nat Timer) (q : Waiting) : Waiting :=
  {| promises := promises q; roomOwnershipLocks := roomOwnershipLocks q; operationQueues := operationQueues q; timers := m;
     subscriptionTimers := subscriptionTimers q; pumps := pumps q; mailboxPumps := mailboxPumps q; listeners := listeners q; replies := replies q |}.
Definition with_subscription_timers (m : gmap (string * string) nat) (q : Waiting) : Waiting :=
  {| promises := promises q; roomOwnershipLocks := roomOwnershipLocks q; operationQueues := operationQueues q; timers := timers q;
     subscriptionTimers := m; pumps := pumps q; mailboxPumps := mailboxPumps q; listeners := listeners q; replies := replies q |}.
Definition with_pumps (m : gmap nat MailboxPump) (l : gmap (string * string) nat) (q : Waiting) : Waiting :=
  {| promises := promises q; roomOwnershipLocks := roomOwnershipLocks q; operationQueues := operationQueues q; timers := timers q;
     subscriptionTimers := subscriptionTimers q; pumps := m; mailboxPumps := l; listeners := listeners q; replies := replies q |}.
Definition with_listeners (m : gmap string Listener) (q : Waiting) : Waiting :=
  {| promises := promises q; roomOwnershipLocks := roomOwnershipLocks q; operationQueues := operationQueues q; timers := timers q;
     subscriptionTimers := subscriptionTimers q; pumps := pumps q; mailboxPumps := mailboxPumps q; listeners := m; replies := replies q |}.
Definition with_replies (m : gmap nat Reply) (q : Waiting) : Waiting :=
  {| promises := promises q; roomOwnershipLocks := roomOwnershipLocks q; operationQueues := operationQueues q; timers := timers q;
     subscriptionTimers := subscriptionTimers q; pumps := pumps q; mailboxPumps := mailboxPumps q; listeners := listeners q; replies := m |}.

Record Limits := {
  muxOperationRateLimiter : RateLimiter; rateLimiter : RateLimiter; controlEventLimiter : RateLimiter; deliveryAckLimiter : RateLimiter;
  deviceSlots : slots }.
Inductive limiter := mux_operations | room_messages | control_events | delivery_acks.
Definition limiter_of (k : limiter) (l : Limits) : RateLimiter :=
  match k with mux_operations => muxOperationRateLimiter l | room_messages => rateLimiter l | control_events => controlEventLimiter l
             | delivery_acks => deliveryAckLimiter l end.
Definition with_limiter (k : limiter) (r : RateLimiter) (l : Limits) : Limits :=
  match k with
  | mux_operations => {| muxOperationRateLimiter := r; rateLimiter := rateLimiter l; controlEventLimiter := controlEventLimiter l;
                         deliveryAckLimiter := deliveryAckLimiter l; deviceSlots := deviceSlots l |}
  | room_messages => {| muxOperationRateLimiter := muxOperationRateLimiter l; rateLimiter := r; controlEventLimiter := controlEventLimiter l;
                        deliveryAckLimiter := deliveryAckLimiter l; deviceSlots := deviceSlots l |}
  | control_events => {| muxOperationRateLimiter := muxOperationRateLimiter l; rateLimiter := rateLimiter l; controlEventLimiter := r;
                         deliveryAckLimiter := deliveryAckLimiter l; deviceSlots := deviceSlots l |}
  | delivery_acks => {| muxOperationRateLimiter := muxOperationRateLimiter l; rateLimiter := rateLimiter l;
                        controlEventLimiter := controlEventLimiter l; deliveryAckLimiter := r; deviceSlots := deviceSlots l |}
  end.
Definition with_slots (s : slots) (l : Limits) : Limits :=
  {| muxOperationRateLimiter := muxOperationRateLimiter l; rateLimiter := rateLimiter l; controlEventLimiter := controlEventLimiter l;
     deliveryAckLimiter := deliveryAckLimiter l; deviceSlots := s |}.
(** bursts and refills per second: [listeners.ts] and [socketLimits.ts], [multiplexed.ts] *)
(* backend/socket.io/listeners.ts:29-30 the rateLimiter *)
Definition fresh_limits : Limits :=
  {| muxOperationRateLimiter := newRateLimiter {| capacity := 160; refillPerSecond := 20 |};
     rateLimiter := newRateLimiter {| capacity := 40; refillPerSecond := 10 |};
     controlEventLimiter := newRateLimiter {| capacity := 10; refillPerSecond := 1 |};
     deliveryAckLimiter := newRateLimiter {| capacity := 128; refillPerSecond := 20 |};
     deviceSlots := no_slots |}.

(** [counter] numbers subscriptions, promises, pumps, timers and emissions; [db] is the stores. *)
Record Relay (D : Type) := {
  registry : Registry; waiting : Waiting; limits : Limits; now : Z; counter : nat; db : D; trace : list Event }.
Arguments registry {D} _.
Arguments waiting {D} _.
Arguments limits {D} _.
Arguments now {D} _.
Arguments counter {D} _.
Arguments db {D} _.
Arguments trace {D} _.

Section relay.
Context {D : Type}.
Notation R := (Relay D).
Definition on_registry (f : Registry → Registry) (r : R) : R :=
  {| registry := f (registry r); waiting := waiting r; limits := limits r; now := now r; counter := counter r; db := db r; trace := trace r |}.
Definition on_waiting (f : Waiting → Waiting) (r : R) : R :=
  {| registry := registry r; waiting := f (waiting r); limits := limits r; now := now r; counter := counter r; db := db r; trace := trace r |}.
Definition on_limits (f : Limits → Limits) (r : R) : R :=
  {| registry := registry r; waiting := waiting r; limits := f (limits r); now := now r; counter := counter r; db := db r; trace := trace r |}.
Definition with_db (d : D) (r : R) : R :=
  {| registry := registry r; waiting := waiting r; limits := limits r; now := now r; counter := counter r; db := d; trace := trace r |}.
Definition counted (r : R) : R :=
  {| registry := registry r; waiting := waiting r; limits := limits r; now := now r; counter := S (counter r); db := db r; trace := trace r |}.
Definition traced (e : Event) (r : R) : R :=
  {| registry := registry r; waiting := waiting r; limits := limits r; now := now r; counter := counter r; db := db r; trace := trace r ++ [e] |}.
Definition edit (f : Registry → Registry) : M R unit := modify (on_registry f).
Definition tell (e : Event) : M R unit := modify (traced e).
(** a number nothing else has *)
Definition fresh : M R nat := λ r, (Ok (counter r), counted r).
Definition date_now : M R Z := gets now.
Definition socket_of (sid : string) : M R (option CustomSocket) := gets (λ r, sockets (registry r) !! sid).
(** an operation of the stores, with the time *)
Definition store {A} (f : Z → M D A) : async R A := call (λ r, let '(x, d) := f (now r) (db r) in (x, with_db d r)).

(** ** Timers *)
Definition setTimeout (j : Job) (delay : Z) : M R nat :=
  n ← fresh;
  t ← date_now;
  modify (on_waiting (λ q, with_timers (<[n := {| due := t + Z.max 1 delay; job := j |}]> (timers q)) q));;
  mret n.
Definition clearTimeout (o : option nat) : M R unit :=
  match o with Some n => modify (on_waiting (λ q, with_timers (delete n (timers q)) q)) | None => mret tt end.

(** ** Ownership *)
(* backend/socket.io/multiplexed.ts:82-83 isCurrentMuxSocket *)
Definition isCurrentMuxSocket (g : Registry) (sid : string) : bool :=
  match sockets g !! sid with
  | Some s => match s_account s, s_deviceId s with
              | Some a, Some d => nonempty a && nonempty d && bool_decide (deviceSockets g !! (a, d) = Some sid)
              | _, _ => false
              end
  | None => false
  end.
Definition subscription_in (g : Registry) (sid roomId : string) : option MuxRoomSubscription :=
  s ← sockets g !! sid; muxSubscriptions s !! roomId.
Definition is_connected (g : Registry) (sid : string) : bool := match sockets g !! sid with Some s => connected s | None => false end.
(* backend/socket.io/multiplexed.ts:265-267 locallyOwnsSubscription *)
Definition locallyOwnsSubscription (t : Z) (g : Registry) (sid : string) (sub : MuxRoomSubscription) : bool :=
  is_connected g sid &&
  match subscription_in g sid (sub_roomId sub) with Some x => same_subscription x sub | None => false end &&
  (t <? sub_expiresAt sub) && String.eqb (connectionGeneration sub) sid && isCurrentMuxSocket g sid.
Definition owns (sid : string) (sub : MuxRoomSubscription) : M R bool := gets (λ r, locallyOwnsSubscription (now r) (registry r) sid sub).
Definition mux_entries (g : Registry) (roomId : string) : list (string * string) := default [] (muxRoomSockets g !! roomId).
Definition mux_entry (g : Registry) (roomId address : string) : option string := user_sid (mux_entries g roomId) address.

Definition on_pump (n : nat) (f : MailboxPump → MailboxPump) : M R unit :=
  modify (on_waiting (λ q, with_pumps (alter f n (pumps q)) (mailboxPumps q) q)).
Definition set_pump (timer : option nat) (req : bool) (p : MailboxPump) : MailboxPump :=
  {| p_socket := p_socket p; p_subscription := p_subscription p; running := running p; requested := req; p_timer := timer |}.
Definition forget_pump (key : string * string) : M R unit :=
  modify (on_waiting (λ q, with_pumps (pumps q) (delete key (mailboxPumps q)) q)).
(* backend/socket.io/multiplexed.ts:393-402 cancelMailboxPump *)
Definition cancelMailboxPump (sid roomId : string) : M R unit :=
  sub ← gets (λ r, subscription_in (registry r) sid roomId);
  let key := (roomId, match sub with Some s => routingAddress s | None => "" end) in
  found ← gets (λ r, n ← mailboxPumps (waiting r) !! key; p ← pumps (waiting r) !! n; Some (n, p));
  match found with
  | Some (n, p) =>
      if negb (String.eqb (p_socket p) sid) then mret tt else
      clearTimeout (p_timer p);;
      on_pump n (set_pump None false);;
      if running p then mret tt else forget_pump key
  | None => mret tt
  end.

Definition drop_subscription (sid roomId : string) (g : Registry) : Registry :=
  on_socket sid (λ s, with_subscriptions (delete roomId (muxSubscriptions s)) s) g.
(** the address's entry, if it is this socket's; a room without entries is forgotten *)
Definition drop_entry (sid : string) (sub : MuxRoomSubscription) (g : Registry) : Registry :=
  match muxRoomSockets g !! sub_roomId sub with
  | Some l =>
      let l' := if bool_decide (user_sid l (routingAddress sub) = Some sid) then delete_user l (routingAddress sub) else l in
      with_rooms (match l' with [] => delete (sub_roomId sub) (muxRoomSockets g) | _ => <[sub_roomId sub := l']> (muxRoomSockets g) end) g
  | None => g
  end.
(* backend/socket.io/multiplexed.ts:411-422 removeSubscription *)
Definition removeSubscription (sid : string) (sub : MuxRoomSubscription) : M R unit :=
  held ← gets (λ r, subscription_in (registry r) sid (sub_roomId sub));
  if negb (match held with Some x => same_subscription x sub | None => false end) then mret tt else
  cancelMailboxPump sid (sub_roomId sub);;
  edit (drop_subscription sid (sub_roomId sub));;
  timer ← gets (λ r, subscriptionTimers (waiting r) !! (sid, sub_roomId sub));
  clearTimeout timer;;
  modify (on_waiting (λ q, with_subscription_timers (delete (sid, sub_roomId sub) (subscriptionTimers q)) q));;
  edit (drop_entry sid sub).
End relay.

Section sockets.
Context {D : Type} (muxRelayEnabled : bool).
Notation R := (Relay D).

(** ** Sockets *)
(** [socket.emit]; nothing goes to a closed connection *)
Definition emit (sid topic : string) (data : jsval) : M R unit :=
  b ← gets (λ r, is_connected (registry r) sid); if (b : bool) then tell (emitted sid topic data) else mret tt.
(** [io.sockets.sockets.get(sid)] *)
Definition live_socket (g : Registry) (sid : string) : option CustomSocket :=
  s ← sockets g !! sid; if connected s then Some s else None.
(* backend/socket.io/index.ts:85-92 socketEmit *)
Definition socketEmit (topic sid : string) (data : jsval) : M R unit := emit sid topic data.
Definition listener_of (sid : string) (r : R) : Listener := default new_listener (listeners (waiting r) !! sid).
Definition on_listener (sid : string) (f : Listener → Listener) : M R unit :=
  modify (λ r, on_waiting (λ q, with_listeners (<[sid := f (default new_listener (listeners q !! sid))]> (listeners q)) q) r).
Definition set_replay (run req : bool) (timer : option nat) (failures : Z) (l : Listener) : Listener :=
  {| replayRunning := run; replayRequested := req; replayTimer := timer; releaseDeviceSlot := releaseDeviceSlot l; replayFailureCount := failures |}.
Definition set_slot (h : option nat) (l : Listener) : Listener :=
  {| replayRunning := replayRunning l; replayRequested := replayRequested l; replayTimer := replayTimer l; releaseDeviceSlot := h;
     replayFailureCount := replayFailureCount l |}.
Definition reset_limiter (k : limiter) (sid : string) : M R unit :=
  modify (on_limits (λ l, with_limiter k (resetKey (limiter_of k l) sid) l)).
(** [limiter.consume(socket.id)] *)
Definition consume_ (k : limiter) (sid : string) : M R bool := λ r,
  let '(b, l) := RateLimit.consume (limiter_of k (limits r)) sid 1 (now r) in (Ok b, on_limits (with_limiter k l) r).
Definition client_sid (address roomId : string) : M R (option string) := observe (λ r, getSIDByIDs (clients (registry r)) address roomId).
Definition delete_client (address roomId sid : string) : M R bool := λ r,
  let '(b, c) := deleteClient (clients (registry r)) address roomId sid in (Ok b, on_registry (with_clients c) r).
Definition truthy_id (o : option string) : option string := match o with Some s => if nonempty s then Some s else None | None => None end.
(* backend/socket.io/listeners.ts:209-215 findPeerSid *)
Definition findPeerSid (sid : string) : M R (option string) :=
  s ← socket_of sid;
  match truthy_id (s ≫= userID), truthy_id (s ≫= channelID) with
  | Some u, Some c =>
      receiver ← observe (λ r, getReceiverIDBySenderID (clients (registry r)) u c);
      match truthy_id receiver with Some x => client_sid x c | None => mret None end
  | _, _ => mret None
  end.
(* backend/socket.io/listeners.ts:107-108 currentLegacyOwner *)
Definition currentLegacyOwner (sid : string) : M R bool :=
  s ← socket_of sid;
  match s, truthy_id (s ≫= userID), truthy_id (s ≫= channelID) with
  | Some so, Some u, Some c => if connected so then x ← client_sid u c; mret (bool_decide (x = Some sid)) else mret false
  | _, _, _ => mret false
  end.

(** ** Disconnection *)
(** [for (const x of l) f(x)] *)
Fixpoint each {A} (f : A → M R unit) (l : list A) : M R unit := match l with [] => mret tt | x :: l' => f x;; each f l' end.
Definition subscriptions_of (sid : string) (r : R) : list MuxRoomSubscription :=
  match sockets (registry r) !! sid with Some s => (map_to_list (muxSubscriptions s)).*2 | None => [] end.
Definition timers_of (sid : string) (r : R) : list ((string * string) * nat) :=
  List.filter (λ kv, String.eqb kv.1.1 sid) (map_to_list (subscriptionTimers (waiting r))).
(** [deviceSockets] forgets a device whose entry is this socket *)
Definition forget_device (sid : string) (g : Registry) : Registry :=
  match sockets g !! sid with
  | Some s => match s_account s, s_deviceId s with
              | Some a, Some d => if nonempty a && nonempty d && bool_decide (deviceSockets g !! (a, d) = Some sid)
                                  then with_devices (delete (a, d) (deviceSockets g)) g else g
              | _, _ => g
              end
  | None => g
  end.
(** [try { m } catch {}] *)
Definition quietly (m : M R unit) : M R unit := λ r, (Ok tt, (m r).2).
(* backend/socket.io/multiplexed.ts:727-739 on disconnect in registerMultiplexedRelay *)
Definition on_mux_disconnect (sid : string) : M R unit :=
  reset_limiter mux_operations sid;;
  subs ← gets (subscriptions_of sid);
  each (removeSubscription sid) subs;;
  ts ← gets (timers_of sid);
  each (λ kv : (string * string) * nat, clearTimeout (Some kv.2);;
          modify (on_waiting (λ q, with_subscription_timers (delete kv.1 (subscriptionTimers q)) q))) ts;;
  edit (forget_device sid);;
  edit (on_socket sid (with_generation None)).
(* backend/socket.io/listeners.ts:579-598 on disconnect in connectionListener *)
Definition on_legacy_disconnect (sid : string) : M R unit :=
  s ← socket_of sid;
  l ← gets (listener_of sid);
  clearTimeout (replayTimer l);;
  reset_limiter room_messages sid;; reset_limiter control_events sid;; reset_limiter delivery_acks sid;;
  match releaseDeviceSlot l with Some h => modify (on_limits (λ x, with_slots (release h (deviceSlots x)) x)) | None => mret tt end;;
  on_listener sid (λ l, set_slot None (set_replay (replayRunning l) false (replayTimer l) (replayFailureCount l) l));;
  match truthy_id (s ≫= channelID), truthy_id (s ≫= userID) with
  | Some c, Some u =>
      quietly (receiver ← findPeerSid sid;
               removed_ ← delete_client u c sid;
               match truthy_id receiver with
               | Some x => if (removed_ : bool) then socketEmit "on-alice-disconnect" x JNull else mret tt
               | None => mret tt
               end)
  | _, _ => mret tt
  end.
(** [socket.disconnect(true)]: the socket leaves the server and its listeners run, unless it had left *)
Definition disconnect (sid : string) : M R unit :=
  b ← gets (λ r, is_connected (registry r) sid);
  if (b : bool) then
    edit (on_socket sid (with_connected false));;
    (if muxRelayEnabled then on_mux_disconnect sid else mret tt);;
    on_legacy_disconnect sid
  else mret tt.

(** ** Owners *)
(* backend/socket.io/multiplexed.ts:424-432 invalidateMuxDeviceSocket *)
Definition invalidateMuxDeviceSocket (sid : string) : M R unit :=
  subs ← gets (subscriptions_of sid);
  each (removeSubscription sid) subs;;
  edit (forget_device sid);;
  disconnect sid.
(* backend/socket.io/multiplexed.ts:435-441 revokeMuxDeviceSubscriptions *)
Definition revokeMuxDeviceSubscriptions (account device : string) : M R unit :=
  current ← gets (λ r, deviceSockets (registry r) !! (account, device));
  match current with
  | Some sid => edit (λ g, with_devices (delete (account, device) (deviceSockets g)) g);; invalidateMuxDeviceSocket sid
  | None => mret tt
  end.
(** the routes of a room: legacy users and multiplexed addresses *)
Definition routes (g : Registry) (roomId : string) : list string :=
  remove_dups ((default [] (clientRecord (clients g) !! roomId)).*1 ++ (mux_entries g roomId).*1).
(* backend/socket.io/multiplexed.ts:444-449 muxWouldExceedChannelCapacity *)
Definition muxWouldExceedChannelCapacity (g : Registry) (address roomId : string) (capacity : Z) : bool :=
  negb (nonempty address) || negb (nonempty roomId) || (capacity <? 1) ||
  (capacity <=? Z.of_nat (length (routes g roomId))) && negb (bool_decide (address ∈ routes g roomId)).
(* backend/socket.io/multiplexed.ts:452-458 legacyRoomOwner *)
Definition legacyRoomOwner (roomId address : string) : M R (option string) :=
  o ← client_sid address roomId;
  match truthy_id o with
  | Some sid =>
      owner ← gets (λ r, live_socket (registry r) sid);
      if match owner with
         | Some s => bool_decide (userID s = Some address) && bool_decide (channelID s = Some roomId)
         | None => false
         end
      then mret (Some sid) else delete_client address roomId sid;; mret None
  | None => mret None
  end.
(* backend/socket.io/multiplexed.ts:460-466 muxRoomOwner *)
Definition muxRoomOwner (roomId address : string) : M R (option string) :=
  o ← gets (λ r, mux_entry (registry r) roomId address);
  match o with
  | Some sid =>
      sub ← gets (λ r, subscription_in (registry r) sid roomId);
      match sub with
      | Some x =>
          b ← owns sid x;
          if String.eqb (routingAddress x) address && b then mret (Some sid) else removeSubscription sid x;; mret None
      | None => mret None
      end
  | None => mret None
  end.
(* backend/socket.io/multiplexed.ts:468-470 sameDeviceOwner *)
Definition sameDeviceOwner (owner contender : CustomSocket) : bool :=
  bool_decide (is_Some (truthy_id (s_deviceId contender))) && bool_decide (is_Some (truthy_id (s_account contender))) &&
  bool_decide (s_deviceId owner = s_deviceId contender) && bool_decide (s_account owner = s_account contender) &&
  bool_decide (deviceTrustEpoch owner = deviceTrustEpoch contender).
(* backend/socket.io/multiplexed.ts:473-476 releaseMuxRoomOwner *)
Definition releaseMuxRoomOwner (sid roomId : string) : M R unit :=
  sub ← gets (λ r, subscription_in (registry r) sid roomId);
  match sub with Some x => removeSubscription sid x | None => mret tt end.
(* backend/socket.io/multiplexed.ts:478-490 scheduleSubscriptionExpiry *)
Definition scheduleSubscriptionExpiry (sid : string) (sub : MuxRoomSubscription) : M R unit :=
  previous ← gets (λ r, subscriptionTimers (waiting r) !! (sid, sub_roomId sub));
  clearTimeout previous;;
  t ← date_now;
  n ← setTimeout (expire_subscription sid sub) (Z.max 0 (sub_expiresAt sub - t));
  modify (on_waiting (λ q, with_subscription_timers (<[(sid, sub_roomId sub) := n]> (subscriptionTimers q)) q)).
(** the timer of [scheduleSubscriptionExpiry] *)
(* backend/socket.io/multiplexed.ts:483-487 the timer in scheduleSubscriptionExpiry *)
Definition expireSubscription (sid : string) (sub : MuxRoomSubscription) : M R unit :=
  held ← gets (λ r, subscription_in (registry r) sid (sub_roomId sub));
  t ← date_now;
  if match held with Some x => same_subscription x sub | None => false end && (sub_expiresAt sub <=? t) then removeSubscription sid sub else mret tt.
(* backend/socket.io/multiplexed.ts:179-185 muxPeerForLegacy *)
Definition muxPeerForLegacy (roomId address : string) : M R (option string) :=
  gets (λ r, snd <$> js_find (λ e : string * string,
    match subscription_in (registry r) e.2 roomId with
    | Some sub => negb (String.eqb e.1 address) && String.eqb (peerRoutingAddress sub) address && locallyOwnsSubscription (now r) (registry r) e.2 sub
    | None => false
    end) (mux_entries (registry r) roomId)).
End sockets.
