(* ===== verification/Delivery.v ===== *)
(** * Authorization and delivery on the relay's sockets ([backend/socket.io/multiplexed.ts], [listeners.ts])

    Everything the relay does for a socket is authorized against the stores first, and what it sends is decided again after
    each suspension, in the segment of the emission. A message of a mailbox is claimed for a lease, sent, and removed when its
    recipient accepted it; a mailbox is delivered by one loop per address, which other handlers only request. *)
From S2P Require Import Prelude Json Storage RateLimit EventLoop Presence DeviceAuthority Sockets.

(** A row of a mailbox, as [claimOfflineMessage] returns it. *)
Record MailboxMessage := {
  m_id : string; m_timestamp : Z; m_sender : string; m_envelope : jsval; m_claimId : string }.
(** a row as [storeOfflineMessage] returns it *)
Record StoredEnvelope := { e_id : string; e_timestamp : Z; e_rejected : bool }.
(** what the relay stores for a recipient *)
Record RoomEnvelope := {
  n_id : string; n_channel : string; n_mailbox : string; n_sender : string; n_envelope : jsval; n_timestamp : Z; n_expiresAt : Z;
  n_senderDevice : option string }.
Inductive rejection := rej_rejected | rej_duplicate | rej_stale.
#[export] Instance rejection_eq_dec : EqDecision rejection.
Proof. solve_decision. Defined.

(** The stores the handlers use, at the given time; an operation that fails throws. *)
Class RelayServices (D : Type) := {
  db_read_device (account device : string) (now : Z) : M D (option DeviceLifecycleRecord);
  db_verify (proof : jsval) (operation : string) (r : option resource) (now : Z) : M D DeviceLifecycleRecord;
  db_authorizeRoomControl (roomId capability : string) (now : Z) : M D bool;
  db_authorizeCurrentRouting (roomId address : string) (proof : jsval) (now : Z) : M D bool;
  db_boundRoutingDevice (roomId address account device : string) (epoch now : Z) : M D bool;
  db_currentRoutingIdentity (roomId address : string) (allowLegacy : bool) (now : Z) : M D bool;
  db_prekey_expiry (roomId address : string) (now : Z) : M D (option Z);
  db_bindVerifiedRouting (roomId address : string) (proof : jsval) (d : DeviceLifecycleRecord) (until : jsval) (now : Z) : M D unit;
  db_channelValid (roomId : string) (now : Z) : M D bool;
  db_claimOfflineMessage (mailbox roomId : string) (until : Z) (claimId : string) (now : Z) : M D (option MailboxMessage);
  db_offlineMessageClaimUntil (mailbox roomId : string) (now : Z) : M D (option Z);
  db_countOfflineMessages (mailbox roomId : string) (now : Z) : M D Z;
  db_rejectOfflineMessage (id mailbox roomId claimId reason : string) (now : Z) : M D rejection;
  db_ackOfflineMessage (id mailbox roomId : string) (claimId : option string) (now : Z) : M D bool;
  db_find_envelope (dedupeKey : string) (now : Z) : M D (option StoredEnvelope);
  db_storeOfflineMessage (e : RoomEnvelope) (dedupeKey : string) (now : Z) : M D StoredEnvelope;
  db_recordOfflineRejection (e : RoomEnvelope) (dedupeKey reason : string) (now : Z) : M D rejection;
  db_cleanupExpired (now : Z) : M D unit }.

(** How the relay is run: the features and modes of its environment, [randomUUID], and the bound of its delivery loops. *)
Record Config := { muxRelayEnabled : bool; durableRouting : bool; production : bool; storageReady : bool; randomUUID : nat → string;
  sha256_hex : string → string; rounds : nat }.

Definition jint (z : Z) : jsval := JNum (NInt z).
Definition strings (l : list string) : jsval := JArr (JStr <$> l).
Definition MUX_PROTOCOL_VERSION : jsval := jint 1.
(* backend/socket.io/multiplexed.ts:25-26 MUX_SUBSCRIPTION_LEASE_MS *)
Definition MUX_SUBSCRIPTION_LEASE_MS : Z := 5 * 60000.
Definition MUX_MAILBOX_LEASE_MS : Z := 30000.
(* backend/socket.io/multiplexed.ts:34-34 MUX_MAILBOX_RETRY_MARGIN_MS *)
Definition MUX_MAILBOX_RETRY_MARGIN_MS : Z := 25.
(* backend/socket.io/listeners.ts:23-26 limits: MAX_ENVELOPE_BYTES, OFFLINE_TTL_MS *)
Definition OFFLINE_TTL_MS : Z := 7 * 24 * 60 * 60 * 1000.
Definition MAX_OFFLINE_PER_MAILBOX : nat := 64.
Definition OFFLINE_LEASE_MS : Z := 30 * 1000.
Definition MAX_ENVELOPE_BYTES : Z := 32 * 1024.
(* backend/socket.io/listeners.ts:34-35 permanentReason *)
Definition permanentReason (v : jsval) : option string :=
  match v with
  | JStr s => if includes ["authenticated-invalid"; "unsupported-message"; "identity-changed"] s then Some s else None
  | _ => None
  end.

Section delivery.
Context {D : Type} `{!RelayServices D} (c : Config).
Notation R := (Relay D).
Notation A := (async R).
Notation disconnect := (disconnect (muxRelayEnabled c)).
Notation invalidateMuxDeviceSocket := (invalidateMuxDeviceSocket (muxRelayEnabled c)).

(** ** Authorization *)
Inductive BoundDeviceAuthorization := active_device | inactive | unavailable.
#[export] Instance bound_eq_dec : EqDecision BoundDeviceAuthorization.
Proof. solve_decision. Defined.
(* backend/socket.io/multiplexed.ts:106-116 boundDeviceAuthorization *)
Definition boundDeviceAuthorization (sid : string) : A BoundDeviceAuthorization :=
  s ← sync (socket_of sid);
  match truthy_id (s ≫= s_deviceId), truthy_id (s ≫= s_account), s ≫= deviceTrustEpoch with
  | Some device, Some account, Some _ =>
      try_ (record ← store (db_read_device account device);
            s ← sync (socket_of sid);
            match record with
            | Some d =>
                if negb (bool_decide (dr_state d = active)) || negb (bool_decide (Some (trustEpoch d) = s ≫= deviceTrustEpoch)) then mret inactive else
                match truthy_id (s ≫= channelID), truthy_id (s ≫= userID) with
                | Some room, Some user =>
                    b ← awaited (store (db_boundRoutingDevice room user (accountIdentityReference d) (deviceId d) (trustEpoch d)));
                    mret (if (b : bool) then active_device else inactive)
                | _, _ => mret active_device
                end
            | None => mret inactive
            end)
        (λ _, mret unavailable)
  | _, _, _ => mret inactive
  end.
(* backend/socket.io/multiplexed.ts:118-122 activeBoundDevice *)
Definition activeMuxDevice (sid : string) : A bool :=
  a ← awaited (boundDeviceAuthorization sid);
  (if bool_decide (a = inactive) then sync (invalidateMuxDeviceSocket sid) else mret tt);;
  mret (bool_decide (a = active_device)).
(** a legacy socket whose device is no longer active gives its room up *)
Definition eject_legacy (sid : string) : M R unit :=
  s ← socket_of sid;
  match truthy_id (s ≫= userID), truthy_id (s ≫= channelID) with
  | Some u, Some r => delete_client u r sid;; mret tt
  | _, _ => mret tt
  end;;
  disconnect sid.
(* backend/socket.io/listeners.ts:110-117 activeBoundDevice *)
Definition activeLegacyDevice (sid : string) : A bool :=
  a ← awaited (boundDeviceAuthorization sid);
  (if bool_decide (a = inactive) then sync (eject_legacy sid) else mret tt);;
  mret (bool_decide (a = active_device)).
(* backend/socket.io/listeners.ts:119-128 assertReplayOwnerAuthorized *)
Definition assertReplayOwnerAuthorized (sid : string) : A bool :=
  a ← awaited (boundDeviceAuthorization sid);
  match a with
  | inactive => sync (eject_legacy sid);; mret false
  | unavailable => fail "Replay authorization is temporarily unavailable."
  | active_device => mret true
  end.
(* backend/socket.io/multiplexed.ts:404-408 currentRouteRecord *)
Definition currentRouteRecord (roomId address : string) : A bool :=
  if durableRouting c then awaited (store (db_currentRoutingIdentity roomId address true)) else
  record ← store (db_prekey_expiry roomId address);
  t ← sync date_now;
  mret (match record with Some e => t <? e | None => false end).

(** [a || b || ...] over steps: the first that holds decides *)
Fixpoint any (l : list (A bool)) : A bool := match l with [] => mret false | m :: l' => b ← m; if (b : bool) then mret true else any l' end.
Definition refuses (m : A bool) : A bool := b ← awaited m; mret (negb b).
Definition look (f : R → bool) : A bool := sync (gets f).

(* backend/socket.io/multiplexed.ts:167-177 currentSubscription *)
Definition currentSubscription (sid roomId : string) : A (option MuxRoomSubscription) :=
  if negb (muxRelayEnabled c) then mret None else
  o ← sync (gets (λ r, subscription_in (registry r) sid roomId));
  match o with
  | None => mret None
  | Some sub =>
      stale ← any
        [look (λ r, (sub_expiresAt sub <=? now r) ||
            negb (bool_decide (sockets (registry r) !! sid ≫= muxConnectionGeneration = Some (connectionGeneration sub))) ||
            negb (String.eqb (connectionGeneration sub) sid) || negb (isCurrentMuxSocket (registry r) sid) || negb (is_connected (registry r) sid));
         refuses (activeMuxDevice sid);
         refuses (store (db_authorizeRoomControl roomId (controlCapability sub)));
         refuses (store (db_authorizeCurrentRouting roomId (routingAddress sub) (JStr (sub_routingProof sub))));
         (s ← sync (socket_of sid);
          refuses (store (db_boundRoutingDevice roomId (routingAddress sub) (default "" (s ≫= s_account)) (default "" (s ≫= s_deviceId))
            (default 0 (s ≫= deviceTrustEpoch)))));
         refuses (currentRouteRecord roomId (peerRoutingAddress sub));
         refuses (store (db_channelValid roomId))];
      b ← sync (owns sid sub);
      mret (if negb stale && b then Some sub else None)
  end.

(** ** Telling the other participant *)
(* backend/socket.io/multiplexed.ts:213-222 notifyRoomSender *)
Definition notifyRoomSender (roomId address id status : string) : A unit :=
  mux ← sync (muxRoomOwner roomId address);
  match mux with
  | Some sid =>
      o ← awaited (currentSubscription sid roomId);
      match o with
      | Some sub =>
          b ← sync (owns sid sub);
          if (b : bool) then sync (emit sid "mux-delivery-status"
            (JObj [("version", MUX_PROTOCOL_VERSION); ("roomId", JStr roomId); ("id", JStr id); ("status", JStr status)])) else mret tt
      | None => mret tt
      end
  | None =>
      legacy ← sync (legacyRoomOwner roomId address);
      match legacy with
      | Some sid =>
          b ← awaited (activeMuxDevice sid);
          if negb b then mret tt else
          o ← sync (legacyRoomOwner roomId address);
          if bool_decide (o = Some sid) then sync (emit sid (if String.eqb status "accepted" then "delivered" else "not-accepted") (JStr id)) else mret tt
      | None => mret tt
      end
  end.
(** whether [source] still is the participant at [address] *)
Definition sourceCurrent (source roomId address : string) (sourceMux : option MuxRoomSubscription) : M R bool :=
  match sourceMux with
  | Some sub => b ← owns source sub; mret (String.eqb (routingAddress sub) address && b)
  | None => o ← legacyRoomOwner roomId address; mret (bool_decide (o = Some source))
  end.
(** who is at the other address of the room *)
Definition peer_address (roomId address : string) (sourceMux : option MuxRoomSubscription) : M R (option string) :=
  match sourceMux with
  | Some sub => mret (Some (peerRoutingAddress sub))
  | None =>
      o ← observe (λ r, getReceiverIDBySenderID (clients (registry r)) address roomId);
      match o with
      | Some x => mret (Some x)
      | None => p ← muxPeerForLegacy roomId address;
                gets (λ r, sid ← p; sub ← subscription_in (registry r) sid roomId; Some (routingAddress sub))
      end
  end.
(* backend/socket.io/multiplexed.ts:189-211 notifyRoomPeerFeatures *)
Definition notifyRoomPeerFeatures (source roomId address : string) : A (list string) :=
  sourceMux ← sync (gets (λ r, subscription_in (registry r) source roomId));
  b ← sync (sourceCurrent source roomId address sourceMux);
  if negb b then mret [] else
  b ← awaited (activeMuxDevice source);
  if negb b then mret [] else
  o ← sync (peer_address roomId address sourceMux);
  match truthy_id o with
  | None => mret []
  | Some peerAddress =>
      peerMux ← sync (muxRoomOwner roomId peerAddress);
      peer ← match peerMux with Some p => mret (Some p) | None => sync (legacyRoomOwner roomId peerAddress) end;
      match peer with
      | None => mret []
      | Some peer =>
          subscription ← match peerMux with Some p => awaited (currentSubscription p roomId) | None => mret None end;
          refused ← match peerMux with
                    | Some _ => mret (match subscription with Some s => negb (String.eqb (peerRoutingAddress s) address) | None => true end)
                    | None => b ← awaited (activeMuxDevice peer); mret (negb b)
                    end;
          if (refused : bool) then mret [] else
          b ← sync (sourceCurrent source roomId address sourceMux);
          if negb b then mret [] else
          s ← sync (socket_of source);
          let features := match sourceMux with Some m => sub_features m | None => default [] (s ≫= s_features) end in
          p ← sync (socket_of peer);
          match subscription with
          | Some sub =>
              b ← sync (owns peer sub);
              if negb b then mret [] else
              sync (emit peer "mux-peer-subscription" (JObj [("version", MUX_PROTOCOL_VERSION); ("roomId", JStr roomId);
                ("connectionGeneration", JStr (connectionGeneration sub)); ("subscriptionNonce", JStr (nonce sub));
                ("peerRoutingAddress", JStr address); ("peerFeatures", strings features)]));;
              mret (sub_features sub)
          | None =>
              o ← sync (legacyRoomOwner roomId peerAddress);
              if negb (bool_decide (o = Some peer)) then mret [] else
              sync (emit peer "on-alice-join" (JObj [("protocolFeatures", strings features)]));;
              mret (default [] (p ≫= s_features))
          end
      end
  end.

(** ** Packets that wait for an answer *)
(* backend/socket.io/multiplexed.ts:298-305 the response in deliverMuxMailboxBatch *)
Definition emit_ack (sid topic : string) (data : jsval) : A Reply :=
  n ← sync fresh;
  sync (emit sid topic data);;
  wait (λ r, bool_decide (is_Some (replies (waiting r) !! n)));;
  sync (gets (λ r, default timed_out (replies (waiting r) !! n))).
Definition new_uuid : M R string := n ← fresh; mret (randomUUID c n).

(** ** Storing for a recipient *)
Definition envelope_key (field : string) (e : RoomEnvelope) : string :=
  sha256_hex c (stringify (JObj [(field, JStr (n_channel e)); ("mailbox", JStr (n_mailbox e)); ("sender", JStr (n_sender e));
                                 ("envelope", n_envelope e)])).
(* backend/socket.io/roomEnvelopeStore.ts:7-8 roomEnvelopeDedupeKey *)
Definition roomEnvelopeDedupeKey (e : RoomEnvelope) : string := envelope_key "channel" e.
(* backend/socket.io/roomEnvelopeStore.ts:12-21 storeRoomEnvelope *)
Definition storeRoomEnvelope (e : RoomEnvelope) : A StoredEnvelope :=
  refused ← (if durableRouting c then any [refuses (store (db_currentRoutingIdentity (n_channel e) (n_sender e) false));
                                           refuses (store (db_currentRoutingIdentity (n_channel e) (n_mailbox e) false))]
             else mret false);
  if (refused : bool) then fail "Authenticated routing ownership is unavailable." else
  prior ← store (db_find_envelope (envelope_key "roomId" e));
  match prior with Some p => mret p | None => store (db_storeOfflineMessage e (roomEnvelopeDedupeKey e)) end.

(** ** One loop per mailbox *)
Inductive MailboxBatchResult := drained | inactive_batch | batch_limit | retry (at_ : Z).
Definition on_pump_unit (n : nat) (f : MailboxPump → MailboxPump) : A unit := sync (on_pump n f).
Definition pump_of (n : nat) : A (option MailboxPump) := sync (gets (λ r, pumps (waiting r) !! n)).
Definition answers (current : MuxRoomSubscription) (m : MailboxMessage) (response : jsval) : bool :=
  bool_decide (oprop response "roomId" = JStr (sub_roomId current)) && bool_decide (oprop response "id" = JStr (m_id m)) &&
  bool_decide (oprop response "claimId" = JStr (m_claimId m)) &&
  bool_decide (oprop response "connectionGeneration" = JStr (connectionGeneration current)) &&
  bool_decide (oprop response "subscriptionNonce" = JStr (nonce current)).
Definition mux_envelope (current : MuxRoomSubscription) (m : MailboxMessage) : jsval :=
  JObj [("version", MUX_PROTOCOL_VERSION); ("roomId", JStr (sub_roomId current)); ("id", JStr (m_id m)); ("timestamp", jint (m_timestamp m));
        ("senderRoutingAddress", JStr (m_sender m)); ("recipientRoutingAddress", JStr (routingAddress current)); ("envelope", m_envelope m);
        ("claimId", JStr (m_claimId m)); ("connectionGeneration", JStr (connectionGeneration current)); ("subscriptionNonce", JStr (nonce current))].
(** what ends a batch when the subscription is no longer current *)
Definition given_up (sid : string) (sub : MuxRoomSubscription) (leaseUntil : Z) : A (option MailboxBatchResult) :=
  b ← sync (owns sid sub); mret (Some (if (b : bool) then retry (leaseUntil + MUX_MAILBOX_RETRY_MARGIN_MS) else inactive_batch)).
(** what an empty claim means *)
(* backend/socket.io/multiplexed.ts:277-287 nothing claimed in deliverMuxMailboxBatch *)
Definition nothing_claimed (current : MuxRoomSubscription) : A MailboxBatchResult :=
  until ← store (db_offlineMessageClaimUntil (routingAddress current) (sub_roomId current));
  match until with
  | Some t => mret (retry (t + MUX_MAILBOX_RETRY_MARGIN_MS))
  | None =>
      n ← store (db_countOfflineMessages (routingAddress current) (sub_roomId current));
      t ← sync date_now;
      mret (if 0 <? n then retry (t + MUX_MAILBOX_RETRY_MARGIN_MS) else drained)
  end.
(** one message: [None] when the next one follows *)
(* backend/socket.io/multiplexed.ts:289-337 one message in deliverMuxMailboxBatch *)
Definition deliver_one (sid : string) (sub current : MuxRoomSubscription) (leaseUntil : Z) (m : MailboxMessage) : A (option MailboxBatchResult) :=
  let again := retry (leaseUntil + MUX_MAILBOX_RETRY_MARGIN_MS) in
  authorized ← awaited (currentSubscription sid (sub_roomId current));
  if negb (match authorized with Some x => String.eqb (nonce x) (nonce current) | None => false end)
  then given_up sid sub leaseUntil else
  reply ← emit_ack sid "mux-envelope" (mux_envelope current m);
  let response := match reply with answered (JObj fs) => JObj fs | _ => JUndef end in
  match bool_decide (oprop response "outcome" = JStr "permanent-rejection") && answers current m response,
        permanentReason (oprop response "reasonClass") with
  | true, Some reason =>
      o ← awaited (currentSubscription sid (sub_roomId current));
      if negb (bool_decide (is_Some o)) then given_up sid sub leaseUntil else
      result ← store (db_rejectOfflineMessage (m_id m) (routingAddress current) (sub_roomId current) (m_claimId m) reason);
      match result with
      | rej_stale => mret (Some again)
      | rej_duplicate => mret None
      | rej_rejected =>
          awaited (notifyRoomSender (sub_roomId current) (m_sender m) (m_id m) "rejected");;
          (if String.eqb reason "identity-changed" then sync (emit sid "mux-room-suspended"
             (JObj [("version", MUX_PROTOCOL_VERSION); ("roomId", JStr (sub_roomId current));
                    ("connectionGeneration", JStr (connectionGeneration current)); ("subscriptionNonce", JStr (nonce current))]))
           else mret tt);;
          mret None
      end
  | _, _ =>
      if negb (bool_decide (oprop response "outcome" = JStr "accepted") && answers current m response) then mret (Some again) else
      o ← awaited (currentSubscription sid (sub_roomId current));
      if negb (bool_decide (is_Some o)) then given_up sid sub leaseUntil else
      b ← store (db_ackOfflineMessage (m_id m) (routingAddress current) (sub_roomId current) (Some (m_claimId m)));
      if negb b then mret (Some again) else
      awaited (notifyRoomSender (sub_roomId current) (m_sender m) (m_id m) "accepted");;
      mret None
  end.
(* backend/socket.io/multiplexed.ts:269-340 deliverMuxMailboxBatch *)
Fixpoint deliver_batch (count : nat) (sid : string) (sub : MuxRoomSubscription) : A MailboxBatchResult :=
  match count with
  | O => mret batch_limit
  | S count =>
      o ← awaited (currentSubscription sid (sub_roomId sub));
      match o with
      | None => mret inactive_batch
      | Some current =>
          if negb (String.eqb (nonce current) (nonce sub)) then mret inactive_batch else
          claimId ← sync new_uuid;
          t ← sync date_now;
          let leaseUntil := t + MUX_MAILBOX_LEASE_MS in
          message ← store (db_claimOfflineMessage (routingAddress current) (sub_roomId current) leaseUntil claimId);
          match message with
          | None => nothing_claimed current
          | Some m =>
              result ← deliver_one sid sub current leaseUntil m;
              match result with Some x => mret x | None => deliver_batch count sid sub end
          end
      end
  end.
Definition deliverMuxMailboxBatch (sid : string) (sub : MuxRoomSubscription) : A MailboxBatchResult := deliver_batch MAX_OFFLINE_PER_MAILBOX sid sub.
Definition set_pump_timer (t : option nat) (p : MailboxPump) : MailboxPump := set_pump t (requested p) p.
(* backend/socket.io/multiplexed.ts:342-350 scheduleMailboxPump *)
Definition scheduleMailboxPump (n : nat) (delay : Z) : M R unit :=
  p ← gets (λ r, pumps (waiting r) !! n);
  clearTimeout (p ≫= p_timer);;
  t ← setTimeout (pump_mailbox n) (Z.max 1 delay);
  on_pump n (set_pump_timer (Some t)).
Definition set_running (b : bool) (p : MailboxPump) : MailboxPump :=
  {| p_socket := p_socket p; p_subscription := p_subscription p; running := b; requested := requested p; p_timer := p_timer p |}.
Definition set_requested (b : bool) (p : MailboxPump) : MailboxPump := set_pump (p_timer p) b p.
(** [while (pump.requested)] *)
(* backend/socket.io/multiplexed.ts:357-375 the loop in startMailboxPump *)
Fixpoint pump_loop (k n : nat) : A unit :=
  match k with
  | O => hang
  | S k =>
      o ← pump_of n;
      match o with
      | None => mret tt
      | Some p =>
          if negb (requested p) then mret tt else
          on_pump_unit n (set_requested false);;
          result ← try_ (awaited (deliverMuxMailboxBatch (p_socket p) (p_subscription p)))
                        (λ _, t ← sync date_now; mret (retry (t + MUX_MAILBOX_LEASE_MS + MUX_MAILBOX_RETRY_MARGIN_MS)));
          o ← pump_of n;
          match o with
          | None => mret tt
          | Some p =>
              if requested p then pump_loop k n else
              match result with
              | retry at_ =>
                  b ← sync (owns (p_socket p) (p_subscription p));
                  t ← sync date_now;
                  if (b : bool) then sync (scheduleMailboxPump n (at_ - t)) else mret tt
              | batch_limit => sync (scheduleMailboxPump n 1)
              | inactive_batch => mret tt
              | drained => pump_loop k n
              end
          end
      end
  end.
(* backend/socket.io/multiplexed.ts:352-380 startMailboxPump *)
Fixpoint startMailboxPump (k : nat) (key : string * string) (n : nat) : A unit :=
  o ← pump_of n;
  if match o with Some p => running p | None => true end then mret tt else
  on_pump_unit n (set_running true);;
  fork (finally_async (pump_loop (rounds c) n)
    (on_pump_unit n (set_running false);;
     o ← pump_of n;
     if match o with Some p => requested p | None => false end then
       match k with O => hang | S k => startMailboxPump k key n end
     else
       current ← sync (gets (λ r, mailboxPumps (waiting r) !! key));
       if bool_decide ((o ≫= p_timer) = None) && bool_decide (current = Some n) then sync (forget_pump key) else mret tt)).
Definition aim_pump (sid : string) (sub : MuxRoomSubscription) (p : MailboxPump) : MailboxPump :=
  {| p_socket := sid; p_subscription := sub; running := running p; requested := true; p_timer := None |}.
(* backend/socket.io/multiplexed.ts:382-391 requestMuxMailboxDelivery *)
Definition requestMuxMailboxDelivery (sid : string) (sub : MuxRoomSubscription) : A unit :=
  let key := (sub_roomId sub, routingAddress sub) in
  found ← sync (gets (λ r, mailboxPumps (waiting r) !! key));
  n ← match found with
      | Some n => mret n
      | None =>
          sync (n ← fresh;
                modify (on_waiting (λ q, with_pumps (<[n := {| p_socket := sid; p_subscription := sub; running := false; requested := false;
                  p_timer := None |}]> (pumps q)) (mailboxPumps q) q));;
                mret n)
      end;
  o ← pump_of n;
  sync (clearTimeout (o ≫= p_timer));;
  on_pump_unit n (aim_pump sid sub);;
  sync (modify (on_waiting (λ q, with_pumps (pumps q) (<[key := n]> (mailboxPumps q)) q)));;
  startMailboxPump (rounds c) key n.

(** ** Replay for a legacy socket *)
Definition here (sid : string) : M R (string * string) := s ← socket_of sid; mret (default "" (s ≫= userID), default "" (s ≫= channelID)).
(** [currentLegacyOwner(socket) && await check && currentLegacyOwner(socket)] *)
Definition owner_and (check : A bool) (sid : string) : A bool :=
  b ← sync (currentLegacyOwner sid);
  if negb b then mret false else
  b ← awaited check;
  if negb b then mret false else sync (currentLegacyOwner sid).
Definition still_owner (sid : string) : A bool := owner_and (assertReplayOwnerAuthorized sid) sid.
Definition chat_message (m : MailboxMessage) : jsval :=
  JObj [("id", JStr (m_id m)); ("timestamp", jint (m_timestamp m)); ("sender", JStr (m_sender m)); ("envelope", m_envelope m);
        ("claimId", JStr (m_claimId m))].
(** the recipient's answer; a wait that ends counts as [{ outcome: 'retryable' }] *)
Definition recipient_outcome (r : Reply) : jsval := match r with answered v => v | timed_out => JObj [("outcome", JStr "retryable")] end.
(* backend/socket.io/listeners.ts:36-36 acceptedOutcome *)
Definition acceptedOutcome (v : jsval) : bool :=
  bool_decide (oprop v "accepted" = JBool true) || bool_decide (oprop v "outcome" = JStr "accepted").
Definition permanent_outcome (v : jsval) : option string :=
  if bool_decide (oprop v "outcome" = JStr "permanent-rejection") then permanentReason (oprop v "reasonClass") else None.
(** one message of the mailbox; [true] when the next one follows *)
(* backend/socket.io/listeners.ts:171-198 one message in deliverOffline *)
Definition replay_one (sid : string) (m : MailboxMessage) : A bool :=
  b ← still_owner sid;
  if negb b then mret false else
  reply ← emit_ack sid "chat-message" (chat_message m);
  let outcome := recipient_outcome reply in
  match permanent_outcome outcome with
  | Some reason =>
      b ← still_owner sid;
      if negb b then mret false else
      '(u, ch) ← sync (here sid);
      terminal ← store (db_rejectOfflineMessage (m_id m) u ch (m_claimId m) reason);
      match terminal with
      | rej_stale => mret false
      | rej_duplicate => mret true
      | rej_rejected => '(u, ch) ← sync (here sid); awaited (notifyRoomSender ch (m_sender m) (m_id m) "rejected");; mret true
      end
  | None =>
      if negb (acceptedOutcome outcome) then mret false else
      b ← still_owner sid;
      if negb b then mret false else
      '(u, ch) ← sync (here sid);
      removed_ ← store (db_ackOfflineMessage (m_id m) u ch (Some (m_claimId m)));
      if negb removed_ then mret false else
      '(u, ch) ← sync (here sid);
      awaited (notifyRoomSender ch (m_sender m) (m_id m) "accepted");;
      mret true
  end.
(** [db.cleanupExpiredOfflineMessages()] is not awaited *)
Definition cleanup : A unit := fork (try_ (store db_cleanupExpired) (λ _, mret tt)).
Fixpoint replay_rows (count : nat) (sid : string) : A unit :=
  match count with
  | O => mret tt
  | S count =>
      b ← still_owner sid;
      if negb b then mret tt else
      claimId ← sync new_uuid;
      '(u, ch) ← sync (here sid);
      t ← sync date_now;
      message ← store (db_claimOfflineMessage u ch (t + OFFLINE_LEASE_MS) claimId);
      match message with
      | None => mret tt
      | Some m => b ← replay_one sid m; if (b : bool) then replay_rows count sid else mret tt
      end
  end.
(* backend/socket.io/listeners.ts:161-200 deliverOffline *)
Definition deliverOffline (sid : string) : A unit :=
  '(u, ch) ← sync (here sid);
  if negb (nonempty u) || negb (nonempty ch) then mret tt else
  cleanup;;
  replay_rows MAX_OFFLINE_PER_MAILBOX sid.

Definition with_timer (t : option nat) (l : Listener) : Listener := set_replay (replayRunning l) (replayRequested l) t (replayFailureCount l) l.
Definition with_requested (b : bool) (l : Listener) : Listener := set_replay (replayRunning l) b (replayTimer l) (replayFailureCount l) l.
Definition with_running (b : bool) (l : Listener) : Listener := set_replay b (replayRequested l) (replayTimer l) (replayFailureCount l) l.
Definition with_failures (n : Z) (l : Listener) : Listener := set_replay (replayRunning l) (replayRequested l) (replayTimer l) n l.
(* backend/socket.io/listeners.ts:224-228 scheduleReplay *)
Definition scheduleReplay (sid : string) (delay : Z) : M R unit :=
  l ← gets (listener_of sid);
  b ← currentLegacyOwner sid;
  if bool_decide (is_Some (replayTimer l)) || negb b then mret tt else
  n ← setTimeout (replay_mailbox sid) delay;
  on_listener sid (with_timer (Some n)).
(* backend/socket.io/listeners.ts:229-233 scheduleBackoff *)
Definition scheduleBackoff (sid : string) : M R unit :=
  l ← gets (listener_of sid);
  on_listener sid (with_failures (replayFailureCount l + 1));;
  scheduleReplay sid (Z.min 30000 (250 * 2 ^ Z.min (replayFailureCount l) 7)).
(* backend/socket.io/listeners.ts:234-243 schedulePendingReplay *)
Definition schedulePendingReplay (sid : string) : A unit :=
  b ← sync (currentLegacyOwner sid);
  if negb b then mret tt else
  '(u, ch) ← sync (here sid);
  lease ← store (db_offlineMessageClaimUntil u ch);
  '(u, ch) ← sync (here sid);
  pending ← store (db_countOfflineMessages u ch);
  if pending =? 0 then sync (on_listener sid (with_failures 0)) else
  match lease with
  | Some until =>
      sync (on_listener sid (with_failures 0));;
      t ← sync date_now;
      sync (scheduleReplay sid (Z.max 250 (until - t + 25)))
  | None => sync (scheduleBackoff sid)
  end.
(* backend/socket.io/listeners.ts:244-250 backoffAfterReplayFailure *)
Definition backoffAfterReplayFailure (sid : string) : A unit :=
  a ← awaited (boundDeviceAuthorization sid);
  if bool_decide (a = inactive) then
    '(u, ch) ← sync (here sid);
    sync (delete_client u ch sid);;
    sync (disconnect sid)
  else sync (scheduleBackoff sid).
(** [while (replayRequested && currentLegacyOwner(socket))] *)
Fixpoint replay_loop (k : nat) (sid : string) : A unit :=
  match k with
  | O => hang
  | S k =>
      l ← sync (gets (listener_of sid));
      b ← sync (currentLegacyOwner sid);
      if replayRequested l && b then sync (on_listener sid (with_requested false));; awaited (deliverOffline sid);; replay_loop k sid
      else mret tt
  end.
(* backend/socket.io/listeners.ts:251-268 requestReplay *)
Fixpoint requestReplay (k : nat) (sid : string) : A unit :=
  l ← sync (gets (listener_of sid));
  sync (clearTimeout (replayTimer l);; on_listener sid (λ l, with_timer None (with_requested true l)));;
  b ← sync (currentLegacyOwner sid);
  if replayRunning l || negb b then mret tt else
  sync (on_listener sid (with_running true));;
  fork (finally_async
    (try_ (replay_loop (rounds c) sid;; awaited (schedulePendingReplay sid)) (λ _, awaited (backoffAfterReplayFailure sid)))
    (sync (on_listener sid (with_running false));;
     l ← sync (gets (listener_of sid));
     b ← sync (currentLegacyOwner sid);
     if replayRequested l && b then match k with O => hang | S k => requestReplay k sid end else mret tt)).

(* backend/socket.io/multiplexed.ts:252-261 wakeRoomMailbox *)
Definition wakeRoomMailbox (roomId address : string) : A unit :=
  mux ← sync (muxRoomOwner roomId address);
  match mux with
  | Some sid =>
      o ← awaited (currentSubscription sid roomId);
      match o with
      | Some sub => b ← sync (owns sid sub); if (b : bool) then requestMuxMailboxDelivery sid sub else mret tt
      | None => mret tt
      end
  | None =>
      legacy ← sync (legacyRoomOwner roomId address);
      match legacy with Some sid => requestReplay (rounds c) sid | None => mret tt end
  end.

(** ** Signals of calls *)
Definition speaks_calls (features : list string) : bool := includes features "room-call-signal-v2".
Definition speaks_calls_legacy (sid : string) : M R bool := s ← socket_of sid; mret (speaks_calls (default [] (s ≫= s_features))).
(** [source] is, and may signal as, the participant at [sender] *)
Definition may_signal (source roomId sender recipient : string) (sub : option MuxRoomSubscription) : A bool :=
  match sub with
  | Some sub =>
      if negb (String.eqb (routingAddress sub) sender) || negb (String.eqb (peerRoutingAddress sub) recipient) ||
         negb (speaks_calls (sub_features sub)) then mret false else
      o ← awaited (currentSubscription source roomId);
      mret (match o with Some x => same_subscription x sub | None => false end)
  | None =>
      o ← sync (legacyRoomOwner roomId sender);
      b ← sync (speaks_calls_legacy source);
      if negb (bool_decide (o = Some source)) || negb b then mret false else awaited (activeMuxDevice source)
  end.
(* backend/socket.io/multiplexed.ts:225-250 routeRoomSignal *)
Definition routeRoomSignal (source roomId sender recipient : string) (envelope : jsval) : A bool :=
  targetMux ← sync (muxRoomOwner roomId recipient);
  target ← match targetMux with Some t => mret (Some t) | None => sync (legacyRoomOwner roomId recipient) end;
  match target with
  | None => mret false
  | Some target =>
      sourceSub ← sync (gets (λ r, subscription_in (registry r) source roomId));
      b ← may_signal source roomId sender recipient sourceSub;
      if negb b then mret false else
      targetSub ← match targetMux with Some t => awaited (currentSubscription t roomId) | None => mret None end;
      b ← match targetMux with
          | Some _ => mret (match targetSub with
                            | Some x => String.eqb (peerRoutingAddress x) sender && speaks_calls (sub_features x)
                            | None => false
                            end)
          | None => b ← sync (speaks_calls_legacy target); if negb b then mret false else awaited (activeMuxDevice target)
          end;
      if negb b then mret false else
      b ← sync (match sourceSub with
                | Some sub => owns source sub
                | None => o ← legacyRoomOwner roomId sender; mret (bool_decide (o = Some source))
                end);
      if negb b then mret false else
      match targetSub with
      | Some sub =>
          b ← sync (owns target sub);
          if negb b then mret false else
          sync (emit target "mux-call-signal" (JObj [("version", MUX_PROTOCOL_VERSION); ("roomId", JStr roomId); ("senderRoutingAddress", JStr sender);
            ("recipientRoutingAddress", JStr recipient); ("connectionGeneration", JStr (connectionGeneration sub));
            ("subscriptionNonce", JStr (nonce sub)); ("envelope", envelope)]));;
          mret true
      | None =>
          o ← sync (legacyRoomOwner roomId recipient);
          if negb (bool_decide (o = Some target)) then mret false else
          sync (emit target "webrtc-session-description" (JObj [("envelope", envelope)]));;
          mret true
      end
  end.
End delivery.
