(* ===== verification/Multiplexed.v ===== *)
(** * The multiplexed relay ([backend/socket.io/multiplexed.ts])

    A device authenticates a socket once and subscribes it to rooms. A subscription is installed under a lock of its room and
    address, after every incumbent was authorized again; from the last check to the installation nothing else runs. Requests
    of a socket run one after another in its queue. *)
From S2P Require Import Prelude Json Storage RateLimit EventLoop Presence DeviceAuthority Rooms Sockets Delivery.

(** the acknowledgement a client may ask for *)
Definition Ack := option nat.
Definition refusal (msg : string) : jsval := JObj [("error", JStr msg)].
Definition refusal_code (msg code_ : string) : jsval := JObj [("error", JStr msg); ("code", JStr code_); ("retryable", JBool true)].
(* backend/socket.io/multiplexed.ts:38-39 MUX_MAX_PENDING_OPERATIONS, FEATURES *)
Definition MUX_MAX_PENDING_OPERATIONS : Z := 64.
Definition MUX_MAX_ROOM_SUBSCRIPTIONS : nat := 128.
Definition FEATURES : list string := ["join-introduction-v1"; "room-message-v1"; "room-call-signal-v2"].
Definition room_id (v : jsval) : option string := match v with JStr s => if isValidRoomId s then Some s else None | _ => None end.
(* backend/socket.io/multiplexed.ts:100-101 validFeatures *)
Definition validFeatures (v : jsval) : option (list string) :=
  match v with
  | JArr l =>
      fs ← mapM (λ x, match x with JStr s => if includes FEATURES s then Some s else None | _ => None end) l;
      if (length fs <=? length FEATURES)%nat && bool_decide (NoDup fs) then Some fs else None
  | _ => None
  end.
Definition proof_of (carrier : jsval) : jsval := oprop carrier "deviceAuthorizationProof".
Definition proof_nonce (carrier : jsval) : string := match oprop (proof_of carrier) "nonce" with JStr s => s | _ => "" end.
Definition proof_expiry (carrier : jsval) : Z := default 0 (js_safe_int (oprop (proof_of carrier) "expiresAt")).
Definition room_resource (roomId address peer generation : string) : resource :=
  [("conversationId", roomId); ("routingAddress", address); ("peerRoutingAddress", peer); ("connectionGeneration", generation)].

Section multiplexed.
Context {D : Type} `{!RelayServices D} (c : Config).
Notation R := (Relay D).
Notation A := (async R).
Notation disconnect := (disconnect (muxRelayEnabled c)).
Notation invalidateMuxDeviceSocket := (invalidateMuxDeviceSocket (muxRelayEnabled c)).

(* backend/socket.io/safeAck.ts:5-10 safeAck *)
Definition answer (o : Ack) (v : jsval) : M R unit := match o with Some n => tell (acknowledged n v) | None => mret tt end.
(* backend/socket.io/safeAck.ts:19-26 onSafe *)
Definition onSafe (ack : Ack) (handler : A unit) : A unit :=
  suspend;; try_ handler (λ _, sync (answer ack (refusal "Request failed."))).

(** ** Locks and queues *)
Definition new_promise (done : bool) : M R nat :=
  n ← fresh; modify (on_waiting (λ q, with_promises (<[n := done]> (promises q)) q));; mret n.
Definition resolve (n : nat) : M R unit := modify (on_waiting (λ q, with_promises (<[n := true]> (promises q)) q)).
Definition resolved (r : R) (n : nat) : bool := bool_decide (promises (waiting r) !! n = Some true).
Definition settled (o : option nat) (r : R) : bool := match o with Some n => resolved r n | None => true end.
Definition set_lock (key : string * string) (o : option nat) : M R unit :=
  modify (on_waiting (λ q, with_locks (match o with Some n => <[key := n]> | None => delete key end (roomOwnershipLocks q)) q)).
(** [tail] is resolved exactly when [gate] is: the operation, which resolves it, starts after [previous] *)
(* backend/socket.io/multiplexed.ts:125-138 withRoomOwnershipLock *)
Definition withRoomOwnershipLock {X} (roomId address : string) (operation : A X) : A X :=
  let key := (roomId, address) in
  previous ← sync (gets (λ r, roomOwnershipLocks (waiting r) !! key));
  gate ← sync (new_promise false);
  sync (set_lock key (Some gate));;
  wait (settled previous);;
  finally_async (awaited operation)
    (sync (resolve gate;;
           held ← gets (λ r, roomOwnershipLocks (waiting r) !! key);
           if bool_decide (held = Some gate) then set_lock key None else mret tt)).
Definition set_queue (sid : string) (q : OperationQueue) : M R unit :=
  modify (on_waiting (λ w, with_queues (<[sid := q]> (operationQueues w)) w)).
Definition leave_queue (sid : string) (next : nat) : M R unit :=
  modify (on_waiting (λ w, with_queues (alter (λ q, {| tail := tail q; q_pending := q_pending q - 1 |}) sid (operationQueues w)) w));;
  resolve next.
(* backend/socket.io/multiplexed.ts:84-99 enqueue *)
Definition enqueue (sid : string) (operation : A unit) (ack : Ack) (failure : string) : A unit :=
  if negb (muxRelayEnabled c) then sync (answer ack (refusal failure)) else
  b ← sync (consume_ mux_operations sid);
  if negb b then sync (answer ack (refusal_code failure "rate-limited")) else
  found ← sync (gets (λ r, operationQueues (waiting r) !! sid));
  queue ← sync (match found with Some q => mret q | None => n ← new_promise true; mret {| tail := n; q_pending := 0 |} end);
  if MUX_MAX_PENDING_OPERATIONS <=? q_pending queue then sync (answer ack (refusal_code failure "backpressure")) else
  next ← sync (new_promise false);
  sync (set_queue sid {| tail := next; q_pending := q_pending queue + 1 |});;
  fork (wait (λ r, resolved r (tail queue));;
        finally_async (try_ (awaited operation) (λ _, sync (answer ack (refusal failure)))) (sync (leave_queue sid next))).

(** ** Proofs of a device *)
Definition bind_device (sid : string) (d : DeviceLifecycleRecord) : M R unit :=
  edit (on_socket sid (with_device (deviceId d) (accountIdentityReference d) (trustEpoch d))).
(* backend/socket.io/multiplexed.ts:140-165 verifyMuxCarrier *)
Definition verifyMuxCarrier (sid : string) (carrier : jsval) (operation : string) (r : resource) (bind : bool) : A bool :=
  if negb (bool_decide (oprop carrier "proofOperation" = JStr operation)) ||
     negb (bool_decide (oprop carrier "proofNonce" = oprop (proof_of carrier) "nonce")) then mret false else
  try_ (record ← store (db_verify (proof_of carrier) operation (Some r));
        s ← sync (socket_of sid);
        if bool_decide (is_Some (truthy_id (s ≫= s_deviceId))) &&
           (negb (bool_decide (s ≫= s_deviceId = Some (deviceId record))) ||
            negb (bool_decide (s ≫= s_account = Some (accountIdentityReference record)))) then mret false else
        b ← (if String.eqb operation "relay:subscribe" && nonempty (rget r "conversationId") && nonempty (rget r "routingAddress") then
               if negb (truthy (oprop carrier "routingProof")) then mret false else
               store (db_bindVerifiedRouting (rget r "conversationId") (rget r "routingAddress") (oprop carrier "routingProof") record
                 (oprop (proof_of carrier) "expiresAt"));;
               mret true
             else mret true);
        if negb b then mret false else
        (if bind then sync (bind_device sid record) else mret tt);;
        mret true)
    (λ _, mret false).

(** ** [mux-authenticate] *)
Definition reject_connection (sid : string) (ack : Ack) : M R unit := answer ack (refusal "Relay authentication rejected.");; disconnect sid.
(* backend/socket.io/multiplexed.ts:496-517 mux-authenticate *)
Definition mux_authenticate (sid : string) (payload : jsval) (ack : Ack) : A unit :=
  b ← match as_object payload with
      | Some body =>
          if negb (exactKeys body ["connectionGeneration"; "deviceAuthorizationProof"; "proofNonce"; "proofOperation"]) ||
             negb (bool_decide (get body "connectionGeneration" = JStr sid)) then mret false
          else awaited (verifyMuxCarrier sid payload "relay:connect" [("connectionGeneration", sid)] true)
      | None => mret false
      end;
  if negb b then sync (reject_connection sid ack) else
  s ← sync (socket_of sid);
  match truthy_id (s ≫= s_deviceId), truthy_id (s ≫= s_account) with
  | Some device, Some account =>
      previous ← sync (gets (λ r, deviceSockets (registry r) !! (account, device)));
      sync (edit (λ g, with_devices (<[(account, device) := sid]> (deviceSockets g)) g));;
      sync (edit (on_socket sid (with_generation (Some sid))));;
      (match previous with Some p => if String.eqb p sid then mret tt else sync (disconnect p) | None => mret tt end);;
      sync (answer ack (JObj [("version", MUX_PROTOCOL_VERSION); ("status", JStr "authenticated"); ("connectionGeneration", JStr sid)]))
  | _, _ => sync (reject_connection sid ack)
  end.

(** ** [mux-subscribe] *)
(** a well-formed request of the socket's generation *)
Record SubscribeRequest := {
  rq_room : string; rq_address : string; rq_peer : string; rq_capability : string; rq_routingProof : string; rq_features : list string }.
(* backend/socket.io/multiplexed.ts:520-537 the request in mux-subscribe *)
Definition parse_subscribe (sid : string) (generation : option string) (payload : jsval) : option SubscribeRequest :=
  body ← as_object payload;
  if negb (bool_decide (generation = Some sid)) || negb (nonempty sid) ||
     negb (exactKeys body ["connectionGeneration"; "controlCapability"; "deviceAuthorizationProof"; "peerRoutingAddress"; "proofNonce";
       "proofOperation"; "protocolFeatures"; "roomId"; "routingAddress"; "routingProof"; "version"]) ||
     negb (bool_decide (get body "version" = MUX_PROTOCOL_VERSION)) || negb (bool_decide (get body "connectionGeneration" = JStr sid)) then None else
  room ← room_id (get body "roomId");
  address ← room_id (get body "routingAddress");
  peer ← room_id (get body "peerRoutingAddress");
  if String.eqb address peer then None else
  match get body "controlCapability", get body "routingProof" with
  | JStr capability, JStr proof =>
      if negb (isValidControlCapability (Some capability)) then None else
      features ← validFeatures (get body "protocolFeatures");
      Some {| rq_room := room; rq_address := address; rq_peer := peer; rq_capability := capability; rq_routingProof := proof; rq_features := features |}
  | _, _ => None
  end.
Definition room_denied (q : SubscribeRequest) : list (A bool) :=
  [refuses (store (db_authorizeRoomControl (rq_room q) (rq_capability q)));
   refuses (store (db_authorizeCurrentRouting (rq_room q) (rq_address q) (JStr (rq_routingProof q))));
   refuses (currentRouteRecord c (rq_room q) (rq_peer q));
   refuses (store (db_channelValid (rq_room q)))].
Definition subscriptions_full (roomId : string) (s : option CustomSocket) : bool :=
  match s with
  | Some s => bool_decide (muxSubscriptions s !! roomId = None) && (MUX_MAX_ROOM_SUBSCRIPTIONS <=? size (muxSubscriptions s))%nat
  | None => false
  end.
Definition not_current (sid : string) (r : R) : bool :=
  negb (isCurrentMuxSocket (registry r) sid) || negb (is_connected (registry r) sid) ||
  negb (bool_decide (sockets (registry r) !! sid ≫= muxConnectionGeneration = Some sid)).

(** an owner whose device is no longer active gives the address up *)
(* backend/socket.io/multiplexed.ts:568-573 an inactive owner in admission *)
Definition evict (owner roomId address : string) : M R unit :=
  wasMuxOwner ← gets (λ r, match sockets (registry r) !! owner with Some s => (0 <? size (muxSubscriptions s))%nat | None => false end);
  m ← muxRoomOwner roomId address;
  (if bool_decide (m = Some owner) then invalidateMuxDeviceSocket owner else mret tt);;
  l ← client_sid address roomId;
  (if bool_decide (l = Some owner) then delete_client address roomId owner;; mret tt else mret tt);;
  if wasMuxOwner : bool then mret tt else disconnect owner.
Inductive incumbency := gave_way | stays_unknown | stays.
#[export] Instance incumbency_eq_dec : EqDecision incumbency.
Proof. solve_decision. Defined.
(** whether every other owner is evicted or is the same device *)
(* backend/socket.io/multiplexed.ts:564-576 the owners in admission *)
Fixpoint owners_yield (sid roomId address : string) (l : list string) : A bool :=
  match l with
  | [] => mret true
  | owner :: l' =>
      if String.eqb owner sid then owners_yield sid roomId address l' else
      a ← awaited (boundDeviceAuthorization owner);
      match a with
      | unavailable => mret false
      | inactive => sync (evict owner roomId address);; owners_yield sid roomId address l'
      | active_device =>
          o ← sync (socket_of owner);
          s ← sync (socket_of sid);
          if match o, s with Some o, Some s => sameDeviceOwner o s | _, _ => false end then owners_yield sid roomId address l' else mret false
      end
  end.
Definition owners_of (first second : option string) : list string := remove_dups (option_list first ++ option_list second).

(** what is installed; from here to [install] nothing else runs *)
Definition add_subscription (sid : string) (sub : MuxRoomSubscription) (g : Registry) : Registry :=
  on_socket sid (λ s, with_subscriptions (<[sub_roomId sub := sub]> (muxSubscriptions s)) s) g.
Definition add_entry (sid : string) (sub : MuxRoomSubscription) (g : Registry) : Registry :=
  with_rooms (<[sub_roomId sub := set_user (mux_entries g (sub_roomId sub)) (routingAddress sub) sid]> (muxRoomSockets g)) g.
(* backend/socket.io/multiplexed.ts:594-606 the installation in admission *)
Definition install (sid : string) (next : MuxRoomSubscription) : M R (option string * option string) :=
  let roomId := sub_roomId next in
  let address := routingAddress next in
  oldLegacy ← legacyRoomOwner roomId address;
  oldMux ← muxRoomOwner roomId address;
  (match oldLegacy with Some o => delete_client address roomId o;; mret tt | None => mret tt end);;
  (match oldMux with Some o => if String.eqb o sid then mret tt else releaseMuxRoomOwner o roomId | None => mret tt end);;
  previous ← gets (λ r, subscription_in (registry r) sid roomId);
  (match previous with Some p => removeSubscription sid p | None => mret tt end);;
  edit (add_subscription sid next);;
  edit (add_entry sid next);;
  scheduleSubscriptionExpiry sid next;;
  mret (oldLegacy, oldMux).
(* backend/socket.io/multiplexed.ts:581-593 next in admission *)
Definition next_subscription (sid : string) (q : SubscribeRequest) (payload : jsval) : M R MuxRoomSubscription :=
  n ← fresh;
  t ← date_now;
  mret {| stamp := n; sub_roomId := rq_room q; routingAddress := rq_address q; peerRoutingAddress := rq_peer q; connectionGeneration := sid;
          nonce := proof_nonce payload; sub_expiresAt := Z.min (proof_expiry payload) (t + MUX_SUBSCRIPTION_LEASE_MS);
          controlCapability := rq_capability q; sub_routingProof := rq_routingProof q; sub_features := rq_features q |}.
(* backend/socket.io/multiplexed.ts:555-607 admission *)
Definition admit_mux (sid : string) (q : SubscribeRequest) (payload : jsval) : A (option (MuxRoomSubscription * (option string * option string))) :=
  denied ← any (room_denied q);
  if (denied : bool) then mret None else
  owners ← sync (l ← legacyRoomOwner (rq_room q) (rq_address q); m ← muxRoomOwner (rq_room q) (rq_address q); mret (owners_of l m));
  b ← owners_yield sid (rq_room q) (rq_address q) owners;
  if negb b then mret None else
  refused ← any [look (not_current sid); refuses (activeMuxDevice c sid);
                 look (λ r, muxWouldExceedChannelCapacity (registry r) (rq_address q) (rq_room q) 2);
                 look (λ r, subscriptions_full (rq_room q) (sockets (registry r) !! sid))];
  if (refused : bool) then mret None else
  sync (next ← next_subscription sid q payload; old ← install sid next; mret (Some (next, old))).
(* backend/socket.io/multiplexed.ts:519-615 mux-subscribe *)
Definition mux_subscribe (sid : string) (payload : jsval) (ack : Ack) : A unit :=
  let reject := sync (answer ack (refusal "Room subscription rejected.")) in
  s ← sync (socket_of sid);
  match parse_subscribe sid (s ≫= muxConnectionGeneration) payload with
  | None => reject
  | Some q =>
      refused ← any ([refuses (activeMuxDevice c sid); look (λ r, negb (isCurrentMuxSocket (registry r) sid))] ++ room_denied q ++
        [look (λ r, subscriptions_full (rq_room q) (sockets (registry r) !! sid));
         refuses (verifyMuxCarrier sid payload "relay:subscribe" (room_resource (rq_room q) (rq_address q) (rq_peer q) sid) false);
         refuses (activeMuxDevice c sid); look (not_current sid)]);
      if (refused : bool) then reject else
      admission ← awaited (withRoomOwnershipLock (rq_room q) (rq_address q) (admit_mux sid q payload));
      match admission with
      | None => reject
      | Some (next, (oldLegacy, oldMux)) =>
          (match oldLegacy with Some o => sync (disconnect o) | None => mret tt end);;
          (match oldMux with Some o => if String.eqb o sid then mret tt else sync (disconnect o) | None => mret tt end);;
          features ← awaited (notifyRoomPeerFeatures c sid (rq_room q) (rq_address q));
          b ← sync (owns sid next);
          if negb b then reject else
          sync (answer ack (JObj [("version", MUX_PROTOCOL_VERSION); ("status", JStr "subscribed"); ("roomId", JStr (rq_room q));
            ("connectionGeneration", JStr sid); ("subscriptionNonce", JStr (nonce next)); ("expiresAt", jint (sub_expiresAt next));
            ("peerFeatures", strings features)]))
      end
  end.

(** ** The other requests *)
(* backend/socket.io/multiplexed.ts:617-629 mux-unsubscribe *)
Definition mux_unsubscribe (sid : string) (payload : jsval) (ack : Ack) : A unit :=
  s ← sync (socket_of sid);
  let roomId := oprop payload "roomId" in
  let held := match roomId with JStr x => s ← s; muxSubscriptions s !! x | _ => None end in
  match held with
  | None => sync (answer ack (refusal "Room unsubscribe rejected."))
  | Some sub =>
      refused ← any
        [mret (negb (match as_object payload with Some body => exactKeys body ["connectionGeneration"; "roomId"; "subscriptionNonce"] | None => false end) ||
               negb (bool_decide (oprop payload "connectionGeneration" = JStr sid)) ||
               negb (bool_decide (s ≫= muxConnectionGeneration = Some sid)) ||
               negb (bool_decide (oprop payload "subscriptionNonce" = JStr (nonce sub))));
         refuses (activeMuxDevice c sid);
         look (λ r, negb (isCurrentMuxSocket (registry r) sid))];
      if (refused : bool) then sync (answer ack (refusal "Room unsubscribe rejected.")) else
      sync (removeSubscription sid sub);;
      sync (answer ack (JObj [("status", JStr "unsubscribed"); ("roomId", roomId); ("connectionGeneration", JStr sid)]))
  end.

(** [typeof roomId === 'string' ? await currentSubscription(socket, roomId) : undefined] *)
Definition current_for (sid : string) (payload : jsval) : A (option MuxRoomSubscription) :=
  match oprop payload "roomId" with JStr roomId => awaited (currentSubscription c sid roomId) | _ => mret None end.
Definition message_keys : list string := ["deviceAuthorizationProof"; "envelope"; "proofNonce"; "proofOperation"; "roomId"; "version"].
Definition has_generation (sid : string) (r : R) : bool :=
  bool_decide (is_Some (truthy_id (sockets (registry r) !! sid ≫= muxConnectionGeneration))).
Definition well_framed (payload : jsval) (ks : list string) : bool :=
  match as_object payload with Some body => exactKeys body ks && bool_decide (get body "version" = MUX_PROTOCOL_VERSION) | None => false end.
Definition byteLength (v : jsval) : Z := utf8_length (stringify v).
(* backend/socket.io/multiplexed.ts:639-641 the envelope in mux-send-message *)
Definition message_envelope (v : jsval) : bool :=
  match v with
  | JObj fs => bool_decide (is_Some (js_safe_int (get fs "version"))) && is_str (get fs "strategy") && includes (keys fs) "data" &&
               (byteLength v <=? MAX_ENVELOPE_BYTES)
  | _ => false
  end.
Definition strategy_name (s : string) : bool :=
  (1 <=? strlen s) && (strlen s <=? 64) && forall_chars (λ x, is_digit x || is_upper x || is_lower x || includes ["."; "_"; "-"] (String x "")) s.
(** an opaque, versioned envelope *)
Definition wire_envelope (fs : list (string * jsval)) : bool :=
  match js_safe_int (get fs "version"), get fs "strategy" with
  | Some v, JStr name => (1 <=? v) && (v <=? 16) && strategy_name name &&
                         negb (bool_decide (get fs "data" = JUndef)) && negb (bool_decide (get fs "data" = JNull))
  | _, _ => false
  end.
Definition subscription_resource (sub : MuxRoomSubscription) : resource :=
  room_resource (sub_roomId sub) (routingAddress sub) (peerRoutingAddress sub) (connectionGeneration sub).
(** the proof of the request, and the subscription once more *)
Definition still_may (sid : string) (payload : jsval) (operation : string) (sub : MuxRoomSubscription) : A bool :=
  b ← awaited (verifyMuxCarrier sid payload operation (subscription_resource sub) false);
  if negb b then mret false else
  o ← awaited (currentSubscription c sid (sub_roomId sub)); mret (bool_decide (is_Some o)).
(* backend/socket.io/multiplexed.ts:631-681 mux-send-message *)
Definition mux_send_message (sid : string) (payload : jsval) (ack : Ack) : A unit :=
  let reject := sync (answer ack (refusal "Multiplexed message rejected.")) in
  o ← current_for sid payload;
  g ← look (has_generation sid);
  match o with
  | None => reject
  | Some sub =>
      if negb (muxRelayEnabled c) || negb (well_framed payload message_keys) || negb (includes (sub_features sub) "room-message-v1") || negb g ||
         negb (message_envelope (oprop payload "envelope")) then reject else
      b ← still_may sid payload "relay:message" sub;
      if negb b then reject else
      t ← sync date_now;
      id ← sync (new_uuid c);
      try_ (cleanup;;
            (if production c && negb (storageReady c) then fail "OFFLINE_DELIVERY_UNAVAILABLE" else mret tt);;
            stored ← awaited (storeRoomEnvelope c {| n_id := id; n_channel := sub_roomId sub; n_mailbox := peerRoutingAddress sub;
              n_sender := routingAddress sub; n_envelope := oprop payload "envelope"; n_timestamp := t; n_expiresAt := t + OFFLINE_TTL_MS;
              n_senderDevice := None |});
            if e_rejected stored then
              awaited (notifyRoomSender c (sub_roomId sub) (routingAddress sub) (e_id stored) "rejected");;
              sync (answer ack (JObj [("id", JStr (e_id stored)); ("timestamp", jint (e_timestamp stored)); ("terminalRejection", JBool true)]))
            else
              sync (answer ack (JObj [("version", MUX_PROTOCOL_VERSION); ("status", JStr "stored"); ("id", JStr (e_id stored));
                ("timestamp", jint (e_timestamp stored))]));;
              awaited (wakeRoomMailbox c (sub_roomId sub) (peerRoutingAddress sub)))
        (λ _, reject)
  end.
(* backend/socket.io/multiplexed.ts:683-711 mux-send-signal *)
Definition mux_send_signal (sid : string) (payload : jsval) (ack : Ack) : A unit :=
  let reject := sync (answer ack (refusal "Multiplexed call signal rejected.")) in
  o ← current_for sid payload;
  g ← look (has_generation sid);
  match o, oprop payload "envelope" with
  | Some sub, JObj envelope =>
      if negb (muxRelayEnabled c) || negb (well_framed payload message_keys) || negb (bool_decide (oprop payload "proofOperation" = JStr "relay:signal")) ||
         negb (speaks_calls (sub_features sub)) || negb (wire_envelope envelope) || (MAX_ENVELOPE_BYTES <? byteLength (JObj envelope)) || negb g
      then reject else
      b ← still_may sid payload "relay:signal" sub;
      if negb b then reject else
      b ← awaited (routeRoomSignal c sid (sub_roomId sub) (routingAddress sub) (peerRoutingAddress sub) (JObj envelope));
      if negb b then reject else
      sync (answer ack (JObj [("version", MUX_PROTOCOL_VERSION); ("status", JStr "routed"); ("roomId", JStr (sub_roomId sub))]))
  | _, _ => reject
  end.
(* backend/socket.io/multiplexed.ts:713-725 mux-mailbox-replay *)
Definition mux_mailbox_replay (sid : string) (payload : jsval) (ack : Ack) : A unit :=
  o ← current_for sid payload;
  match o with
  | Some sub =>
      if muxRelayEnabled c && well_framed payload ["connectionGeneration"; "roomId"; "subscriptionNonce"; "version"] &&
         bool_decide (oprop payload "connectionGeneration" = JStr (connectionGeneration sub)) &&
         bool_decide (oprop payload "subscriptionNonce" = JStr (nonce sub)) && includes (sub_features sub) "room-message-v1"
      then
        sync (answer ack (JObj [("version", MUX_PROTOCOL_VERSION); ("status", JStr "accepted"); ("roomId", oprop payload "roomId")]));;
        requestMuxMailboxDelivery c sid sub
      else sync (answer ack (refusal "Multiplexed mailbox replay rejected."))
  | None => sync (answer ack (refusal "Multiplexed mailbox replay rejected."))
  end.

(** ** The requests of a socket *)
Inductive mux_request := MuxAuthenticate | MuxSubscribe | MuxUnsubscribe | MuxSendMessage | MuxSendSignal | MuxMailboxReplay.
(* backend/socket.io/multiplexed.ts:493-496 the handlers of registerMultiplexedRelay *)
Definition serve_mux (sid : string) (q : mux_request) (payload : jsval) (ack : Ack) : A unit :=
  onSafe ack (match q with
    | MuxAuthenticate => enqueue sid (mux_authenticate sid payload ack) ack "Relay authentication rejected."
    | MuxSubscribe => enqueue sid (mux_subscribe sid payload ack) ack "Room subscription rejected."
    | MuxUnsubscribe => enqueue sid (mux_unsubscribe sid payload ack) ack "Room unsubscribe rejected."
    | MuxSendMessage => enqueue sid (mux_send_message sid payload ack) ack "Multiplexed message rejected."
    | MuxSendSignal => enqueue sid (mux_send_signal sid payload ack) ack "Multiplexed call signal rejected."
    | MuxMailboxReplay => enqueue sid (mux_mailbox_replay sid payload ack) ack "Multiplexed mailbox replay rejected."
    end).
End multiplexed.
