(* ===== verification/Listeners.v ===== *)
(** * The legacy relay ([backend/socket.io/listeners.ts])

    A socket joins one room at one address, sends messages and signals to the other participant, and accepts what its mailbox
    holds. The join is admitted under the lock of the address, as a subscription is. *)
From S2P Require Import Prelude Json Storage RateLimit EventLoop Presence DeviceAuthority Rooms Sockets Delivery Multiplexed.

(* backend/socket.io/listeners.ts:50-56 isPayloadTooLarge *)
Definition isPayloadTooLarge (payload : jsval) : bool := MAX_ENVELOPE_BYTES <? byteLength (nullish payload (JObj [])).
(* backend/socket.io/listeners.ts:61-70 isValidWireEnvelope *)
Definition isValidWireEnvelope (v : jsval) : bool :=
  match v with JObj fs => exactKeys fs ["version"; "strategy"; "data"] && wire_envelope fs | _ => false end.
(* backend/socket.io/listeners.ts:72-78 parseProtocolFeatures *)
Definition parseProtocolFeatures (v : jsval) : option (list string) := match v with JUndef => Some [] | _ => validFeatures v end.
(* backend/socket.io/listeners.ts:81-83 validCarrier *)
Definition validCarrier (v : jsval) : bool :=
  truthy (proof_of v) && is_str (oprop v "proofNonce") && bool_decide (oprop v "proofNonce" = oprop (proof_of v) "nonce").
Definition is_room_id (v : jsval) : bool := bool_decide (is_Some (room_id v)).
(* backend/socket.io/listeners.ts:84-88 validEnvelopePayload *)
Definition validEnvelopePayload (payload : jsval) : bool :=
  match payload with
  | JObj body =>
      (exactKeys body ["envelope"; "deviceAuthorizationProof"; "proofNonce"; "proofOperation"] ||
       exactKeys body ["envelope"; "recipientRoutingId"; "deviceAuthorizationProof"; "proofNonce"; "proofOperation"]) &&
      isValidWireEnvelope (get body "envelope") &&
      (bool_decide (get body "recipientRoutingId" = JUndef) || is_room_id (get body "recipientRoutingId")) &&
      validCarrier payload && is_str (get body "proofOperation")
  | _ => false
  end.
Definition MAX_SOCKETS_PER_DEVICE : Z := 10.
Definition proof_room (payload : jsval) : jsval := oprop (oprop (proof_of payload) "resource") "conversationId".

Section listeners.
Context {D : Type} `{!RelayServices D} (c : Config).
Notation R := (Relay D).
Notation A := (async R).
Notation disconnect := (disconnect (muxRelayEnabled c)).

(** the room a proof is for, at a join *)
Record Routing := { rt_channel : string; rt_address : string; rt_proof : jsval }.
Definition other_device (s : option CustomSocket) (d : DeviceLifecycleRecord) : bool :=
  match truthy_id (s ≫= s_deviceId) with Some x => negb (String.eqb x (deviceId d)) | None => false end ||
  match truthy_id (s ≫= s_account) with Some x => negb (String.eqb x (accountIdentityReference d)) | None => false end.
(* backend/socket.io/listeners.ts:90-105 verifyCarrier *)
Definition verifyCarrier (sid : string) (carrier : jsval) (operation : string) (bind : bool) (routing : option Routing) : A bool :=
  try_ (record ← store (db_verify (proof_of carrier) operation None);
        s ← sync (socket_of sid);
        if negb (bool_decide (oprop (proof_of carrier) "deviceId" = JStr (deviceId record))) || other_device s record then mret false else
        b ← match routing with
            | Some q =>
                if durableRouting c && negb (bool_decide (proof_room carrier = JStr (rt_channel q))) then mret false else
                store (db_bindVerifiedRouting (rt_channel q) (rt_address q) (rt_proof q) record (oprop (proof_of carrier) "expiresAt"));;
                mret true
            | None =>
                match truthy_id (s ≫= channelID), truthy_id (s ≫= userID) with
                | Some ch, Some u => store (db_boundRoutingDevice ch u (accountIdentityReference record) (deviceId record) (trustEpoch record))
                | _, _ => mret true
                end
            end;
        if negb b then mret false else
        (if bind then sync (bind_device sid record) else mret tt);;
        mret true)
    (λ _, mret false).

(** ** [chat-join] *)
Record JoinRequest := { j_user : string; j_channel : string; j_capability : string; j_proof : jsval; j_features : list string }.
Definition JOIN_KEYS : list string :=
  ["userID"; "channelID"; "controlCapability"; "routingProof"; "deviceAuthorizationProof"; "proofNonce"; "protocolFeatures"].
(* backend/socket.io/listeners.ts:274-286 the request in chat-join *)
Definition parse_join (data : jsval) : option JoinRequest :=
  body ← as_object data;
  features ← parseProtocolFeatures (get body "protocolFeatures");
  if negb (forallb (includes JOIN_KEYS) (keys body)) ||
     negb (forallb (includes (keys body)) ["userID"; "channelID"; "controlCapability"; "deviceAuthorizationProof"; "proofNonce"]) ||
     negb (validCarrier data) then None else
  user ← room_id (get body "userID");
  channel ← room_id (get body "channelID");
  match get body "controlCapability" with
  | JStr capability =>
      if negb (isValidControlCapability (Some capability)) then None else
      Some {| j_user := user; j_channel := channel; j_capability := capability; j_proof := get body "routingProof"; j_features := features |}
  | _ => None
  end.
(* backend/socket.io/listeners.ts:273-273 rejectJoin *)
Definition rejectJoin (ack : Ack) (msg code_ : string) : M R unit :=
  answer ack (if production c then refusal msg else JObj [("error", JStr msg); ("code", JStr code_)]).
Inductive admission_error := room_authorization | device_proof | room_transport_conflict | channel_full.
(** the slot of the device, held until the socket leaves *)
(* backend/socket.io/listeners.ts:303-311 the slot in chat-join *)
Definition admitDeviceSocket (sid : string) : M R bool :=
  l ← gets (listener_of sid);
  s ← socket_of sid;
  match releaseDeviceSlot l, truthy_id (s ≫= s_deviceId) with
  | None, Some device =>
      h ← (λ r, let '(h, x) := admitSlot MAX_SOCKETS_PER_DEVICE device (deviceSlots (limits r)) in (Ok h, on_limits (with_slots x) r));
      on_listener sid (set_slot h);;
      mret (bool_decide (is_Some h))
  | _, _ => mret true
  end.
(** [setClientToChannel] and the socket's own variables, after the incumbents gave way *)
(* backend/socket.io/listeners.ts:347-353 the installation in admission *)
Definition install_legacy (sid : string) (q : JoinRequest) : M R (option string) :=
  previousLegacy ← legacyRoomOwner (j_channel q) (j_user q);
  previousMux ← muxRoomOwner (j_channel q) (j_user q);
  (match previousMux with Some o => releaseMuxRoomOwner o (j_channel q) | None => mret tt end);;
  edit (λ g, with_clients (setClientToChannel (clients g) (j_user q) (j_channel q) sid) g);;
  edit (on_socket sid (with_room (j_user q) (j_channel q) (j_features q)));;
  mret previousLegacy.
(* backend/socket.io/listeners.ts:318-355 admission *)
Definition admit_legacy (sid : string) (q : JoinRequest) : A (admission_error + option string) :=
  denied ← try_ (any [refuses (store (db_authorizeRoomControl (j_channel q) (j_capability q)));
                      refuses (store (db_authorizeCurrentRouting (j_channel q) (j_user q) (j_proof q)));
                      refuses (store (db_channelValid (j_channel q)))])
             (λ _, mret true);
  if (denied : bool) then mret (inl room_authorization) else
  refused ← any [look (λ r, negb (is_connected (registry r) sid)); refuses (activeLegacyDevice c sid)];
  if (refused : bool) then mret (inl device_proof) else
  owners ← sync (m ← muxRoomOwner (j_channel q) (j_user q); l ← legacyRoomOwner (j_channel q) (j_user q); mret (owners_of m l));
  b ← owners_yield c sid (j_channel q) (j_user q) owners;
  if negb b then mret (inl room_transport_conflict) else
  full ← look (λ r, muxWouldExceedChannelCapacity (registry r) (j_user q) (j_channel q) 2);
  if (full : bool) then mret (inl channel_full) else
  refused ← any [look (λ r, negb (is_connected (registry r) sid));
                 a ← awaited (boundDeviceAuthorization sid); mret (negb (bool_decide (a = active_device)))];
  if (refused : bool) then mret (inl device_proof) else
  previous ← sync (install_legacy sid q);
  mret (inr previous).
(* backend/socket.io/listeners.ts:356-367 a refused admission in chat-join *)
Definition refuse_admission (sid : string) (ack : Ack) (e : admission_error) : M R unit :=
  match e with
  | channel_full =>
      socketEmit "limit-reached" sid JNull;; disconnect sid;; rejectJoin ack "Channel is full." "channel-full"
  | device_proof => rejectJoin ack "Device authorization rejected." "device-proof";; disconnect sid
  | room_authorization => rejectJoin ack "Channel join rejected." "room-control"
  | room_transport_conflict => rejectJoin ack "Room delivery is already owned by another device." "room-transport-conflict"
  end.
(** after the admission *)
(* backend/socket.io/listeners.ts:368-382 after the admission in chat-join *)
Definition joined (sid : string) (q : JoinRequest) (previous : option string) (ack : Ack) : A unit :=
  sync (edit (on_socket sid (with_features (j_features q))));;
  (match previous with
   | Some p => if nonempty p && negb (String.eqb p sid) then sync (disconnect p) else mret tt
   | None => mret tt
   end);;
  features ← awaited (notifyRoomPeerFeatures c sid (j_channel q) (j_user q));
  b ← sync (currentLegacyOwner sid);
  if negb b then sync (rejectJoin ack "Room owner changed; retry the connection." "room-transport-conflict") else
  sync (answer ack (JObj [("status", JStr "accepted"); ("peerFeatures", strings features)])).
(* backend/socket.io/listeners.ts:270-383 chat-join *)
Definition chat_join (sid : string) (data : jsval) (ack : Ack) : A unit :=
  b ← sync (consume_ control_events sid);
  if negb b then sync (answer ack (refusal "Rate limit exceeded.")) else
  s ← sync (socket_of sid);
  if bool_decide (is_Some (truthy_id (s ≫= muxConnectionGeneration)))
  then sync (answer ack (refusal "Legacy room join is unavailable on a multiplexed connection.")) else
  match parse_join data with
  | None => sync (rejectJoin ack "Channel join rejected." "malformed-request")
  | Some q =>
      b ← store (db_authorizeRoomControl (j_channel q) (j_capability q));
      if negb b then sync (rejectJoin ack "Channel join rejected." "room-control") else
      b ← store (db_authorizeCurrentRouting (j_channel q) (j_user q) (j_proof q));
      if negb b then sync (rejectJoin ack "Channel join rejected." "routing-authorization") else
      b ← awaited (verifyCarrier sid data "relay:message" true (Some {| rt_channel := j_channel q; rt_address := j_user q; rt_proof := j_proof q |}));
      if negb b then sync (rejectJoin ack "Device authorization rejected." "device-proof";; disconnect sid) else
      b ← sync (admitDeviceSocket sid);
      if negb b then sync (rejectJoin ack "Too many connections from this device." "device-socket-limit";; disconnect sid) else
      b ← store (db_channelValid (j_channel q));
      if negb b then sync (rejectJoin ack "Channel join rejected." "invalid-channel") else
      admission ← awaited (withRoomOwnershipLock (j_channel q) (j_user q) (admit_legacy sid q));
      match admission with
      | inl e => sync (refuse_admission sid ack e)
      | inr previous => joined sid q previous ack
      end
  end.

(** ** [mailbox-replay] *)
(* backend/socket.io/listeners.ts:385-402 mailbox-replay *)
Definition mailbox_replay (sid : string) (ack : Ack) : A unit :=
  b ← sync (consume_ control_events sid);
  if negb b then sync (answer ack (refusal "Rate limit exceeded.")) else
  b ← owner_and (activeLegacyDevice c sid) sid;
  if negb b then sync (answer ack (refusal "Mailbox replay rejected.")) else
  try_ (awaited (deliverOffline c sid);;
        awaited (schedulePendingReplay sid);;
        sync (answer ack (JObj [("status", JStr "accepted")])))
    (λ _, awaited (backoffAfterReplayFailure c sid);;
          sync (answer ack (refusal "Mailbox replay temporarily unavailable."))).

(** ** [chat-message] *)
(* backend/socket.io/listeners.ts:130-159 retainUndeliveredEnvelope *)
Definition retainUndeliveredEnvelope (e : RoomEnvelope) : A StoredEnvelope :=
  (if production c && negb (storageReady c) then fail "OFFLINE_DELIVERY_UNAVAILABLE" else mret tt);;
  cleanup;;
  stored ← awaited (storeRoomEnvelope c e);
  if e_rejected stored then mret stored else
  n ← store (db_countOfflineMessages (n_mailbox e) (n_channel e));
  if Z.of_nat MAX_OFFLINE_PER_MAILBOX <? n then
    store (db_ackOfflineMessage (e_id stored) (n_mailbox e) (n_channel e) None);;
    fail "MAILBOX_QUOTA"
  else mret stored.
Definition queue_error (e : string) : string :=
  if String.eqb e "STORAGE_FULL" then STORAGE_FULL_MESSAGE else
  if String.eqb e "MAILBOX_QUOTA" then "Mailbox quota exceeded." else "Message could not be queued.".
Definition stored_answer (s : StoredEnvelope) : jsval :=
  obj [("id", Some (JStr (e_id s))); ("timestamp", Some (jint (e_timestamp s))); ("stored", Some (JBool (negb (e_rejected s))));
       ("terminalRejection", if e_rejected s then Some (JBool true) else None)].
(** the envelope waits in the recipient's mailbox *)
Definition queue_for (e : RoomEnvelope) (ack : Ack) : A unit :=
  try_ (stored ← awaited (retainUndeliveredEnvelope e);
        sync (answer ack (stored_answer stored));;
        if e_rejected stored then mret tt else awaited (wakeRoomMailbox c (n_channel e) (n_mailbox e)))
    (λ x, sync (answer ack (refusal (queue_error x)))).
Definition sender_envelope (sid mailbox id : string) (t : Z) (payload : jsval) : M R RoomEnvelope :=
  s ← socket_of sid;
  '(u, ch) ← here sid;
  mret {| n_id := id; n_channel := ch; n_mailbox := mailbox; n_sender := u; n_envelope := oprop payload "envelope"; n_timestamp := t;
          n_expiresAt := t + OFFLINE_TTL_MS; n_senderDevice := truthy_id (s ≫= s_deviceId) |}.
(** what is recorded of a rejected message: not its content *)
Definition rejected_envelope (e : RoomEnvelope) : RoomEnvelope :=
  {| n_id := n_id e; n_channel := n_channel e; n_mailbox := n_mailbox e; n_sender := n_sender e; n_envelope := JUndef; n_timestamp := n_timestamp e;
     n_expiresAt := n_expiresAt e; n_senderDevice := None |}.
(** [true] when the recipient's permanent rejection is on record *)
Definition record_rejection (sid receiver id : string) (t : Z) (payload : jsval) (reason : string) : A bool :=
  try_ (e ← sync (sender_envelope sid receiver id t payload);
        recorded ← store (db_recordOfflineRejection (rejected_envelope e) (roomEnvelopeDedupeKey c e) reason);
        mret (bool_decide (recorded = rej_rejected) || bool_decide (recorded = rej_duplicate)))
    (λ _, mret false).
Definition live_message (sid id : string) (t : Z) (payload : jsval) : M R jsval :=
  '(u, _) ← here sid;
  mret (JObj [("id", JStr id); ("timestamp", jint t); ("sender", JStr u); ("envelope", oprop payload "envelope")]).
(** delivery to a receiver that is connected *)
(* backend/socket.io/listeners.ts:445-493 chat-message, live delivery *)
Definition deliver_live (sid receiverSid id : string) (t : Z) (payload : jsval) (ack : Ack) : A unit :=
  let gone := sync (answer ack (refusal "Receiver is unavailable.")) in
  b ← awaited (activeLegacyDevice c receiverSid);
  r ← sync (currentLegacyOwner receiverSid);
  s ← sync (currentLegacyOwner sid);
  if negb b || negb r || negb s then gone else
  '(u, ch) ← sync (here sid);
  o ← sync (observe (λ r, getReceiverIDBySenderID (clients (registry r)) u ch));
  match truthy_id o with
  | None => gone
  | Some receiver =>
      m ← sync (live_message sid id t payload);
      reply ← emit_ack receiverSid "chat-message" m;
      let delivered := recipient_outcome reply in
      stillOwns ← owner_and (activeLegacyDevice c receiverSid) receiverSid;
      rejected_ ← (if (stillOwns : bool) then
                     match permanent_outcome delivered with Some reason => record_rejection sid receiver id t payload reason | None => mret false end
                   else mret false);
      if (rejected_ : bool) then
        sync (answer ack (JObj [("id", JStr id); ("timestamp", jint t); ("terminalRejection", JBool true)]))
      else if stillOwns && acceptedOutcome delivered then sync (answer ack (JObj [("id", JStr id); ("timestamp", jint t)]))
      else e ← sync (sender_envelope sid receiver id t payload); queue_for e ack
  end.
(* backend/socket.io/listeners.ts:404-444 chat-message *)
Definition chat_message_handler (sid : string) (payload : jsval) (ack : Ack) : A unit :=
  '(u, ch) ← sync (here sid);
  if negb (nonempty u) || negb (nonempty ch) then sync (answer ack (refusal "Join a channel before sending messages.")) else
  b ← sync (consume_ room_messages sid);
  if negb b then sync (answer ack (refusal "Rate limit exceeded.")) else
  if isPayloadTooLarge payload || negb (validEnvelopePayload payload)
  then sync (answer ack (refusal "Invalid or oversized encrypted envelope.")) else
  b ← (if bool_decide (oprop payload "proofOperation" = JStr "relay:message") && bool_decide (proof_room payload = JStr ch)
       then owner_and (verifyCarrier sid payload "relay:message" false None) sid else mret false);
  if negb b then sync (answer ack (refusal "Device authorization rejected.")) else
  receiverSid ← sync (findPeerSid sid);
  id ← sync (new_uuid c);
  t ← sync date_now;
  match truthy_id receiverSid with
  | None =>
      match oprop payload "recipientRoutingId" with
      | JStr mailbox => e ← sync (sender_envelope sid mailbox id t payload); queue_for e ack
      | _ => sync (answer ack (refusal "No receiver is in the channel."))
      end
  | Some receiver =>
      live ← look (λ r, is_connected (registry r) receiver);
      if negb live then sync (answer ack (refusal "Receiver is unavailable.")) else deliver_live sid receiver id t payload ack
  end.

(** ** [webrtc-signal] *)
(** the address of a multiplexed participant of the socket's room *)
Definition mux_peer_address (sid : string) : M R (option string) :=
  '(u, ch) ← here sid;
  p ← muxPeerForLegacy ch u;
  gets (λ r, x ← p; sub ← subscription_in (registry r) x ch; Some (routingAddress sub)).
(* backend/socket.io/listeners.ts:496-533 webrtc-signal *)
Definition webrtc_signal (sid : string) (payload : jsval) (ack : Ack) : A unit :=
  '(u, ch) ← sync (here sid);
  if negb (nonempty u) || negb (nonempty ch) then sync (answer ack (refusal "Join a channel before signaling.")) else
  b ← sync (consume_ room_messages sid);
  if negb b then sync (answer ack (refusal "Rate limit exceeded.")) else
  if isPayloadTooLarge payload || negb (validEnvelopePayload payload)
  then sync (answer ack (refusal "Invalid or oversized encrypted envelope.")) else
  b ← match oprop payload "proofOperation" with
      | JStr operation =>
          if (String.eqb operation "relay:signal" || String.eqb operation "device-control") && bool_decide (proof_room payload = JStr ch)
          then owner_and (verifyCarrier sid payload operation false None) sid else mret false
      | _ => mret false
      end;
  if negb b then sync (answer ack (refusal "Device authorization rejected.")) else
  receiverSid ← sync (findPeerSid sid);
  match truthy_id receiverSid with
  | None =>
      recipient ← sync (mux_peer_address sid);
      '(u, ch) ← sync (here sid);
      b ← match truthy_id recipient with
          | Some x => awaited (routeRoomSignal c sid ch u x (oprop payload "envelope"))
          | None => mret false
          end;
      sync (answer ack (if (b : bool) then JObj [("status", JStr "ok")] else refusal "No receiver is in the channel."))
  | Some receiver =>
      live ← look (λ r, is_connected (registry r) receiver);
      present ← (if (live : bool) then awaited (activeLegacyDevice c receiver) else mret false);
      s ← sync (currentLegacyOwner sid);
      r ← sync (currentLegacyOwner receiver);
      if negb present || negb s || negb r then sync (answer ack (refusal "Receiver is unavailable.")) else
      sync (socketEmit "webrtc-session-description" receiver (JObj [("envelope", oprop payload "envelope")]));;
      sync (answer ack (JObj [("status", JStr "ok")]))
  end.

(** ** [recipient-rejected] and [received] *)
(** who to tell about a message of the mailbox *)
Definition sender_address (sid : string) : M R (option string) :=
  '(u, ch) ← here sid;
  o ← observe (λ r, getReceiverIDBySenderID (clients (registry r)) u ch);
  match o with Some x => mret (Some x) | None => mux_peer_address sid end.
Definition tell_sender (sid id status : string) : A unit :=
  peer ← sync (sender_address sid);
  '(_, ch) ← sync (here sid);
  match truthy_id peer with Some x => awaited (notifyRoomSender c ch x id status) | None => mret tt end.
Definition rejection_name (r : rejection) : string :=
  match r with rej_rejected => "rejected" | rej_duplicate => "duplicate" | rej_stale => "stale" end.
(* backend/socket.io/listeners.ts:535-561 recipient-rejected *)
Definition recipient_rejected (sid : string) (payload : jsval) (ack : Ack) : A unit :=
  let refuse := sync (answer ack (refusal "Terminal mailbox result rejected.")) in
  b ← sync (consume_ delivery_acks sid);
  if negb b then sync (answer ack (refusal "Rate limit exceeded.")) else
  if negb (match payload with JObj body => exactKeys body ["id"; "roomId"; "claimId"; "reasonClass"] | _ => false end) then refuse else
  match room_id (oprop payload "id"), room_id (oprop payload "roomId"), room_id (oprop payload "claimId"), permanentReason (oprop payload "reasonClass") with
  | Some id, Some roomId, Some claimId, Some reason =>
      '(_, ch) ← sync (here sid);
      b ← (if String.eqb roomId ch then owner_and (activeLegacyDevice c sid) sid else mret false);
      if negb b then refuse else
      try_ ('(u, ch) ← sync (here sid);
            result ← store (db_rejectOfflineMessage id u ch claimId reason);
            match result with
            | rej_stale => refuse
            | _ => tell_sender sid id "rejected";; sync (answer ack (JObj [("status", JStr (rejection_name result))]))
            end)
        (λ _, sync (answer ack (refusal "Terminal mailbox result unavailable.")))
  | _, _, _, _ => refuse
  end.
(* backend/socket.io/listeners.ts:563-577 received *)
Definition received (sid : string) (payload : jsval) : A unit :=
  b ← sync (consume_ delivery_acks sid);
  if negb b then mret tt else
  match payload with
  | JObj body =>
      match forallb (includes ["id"; "claimId"]) (keys body), room_id (get body "id") with
      | true, Some id =>
          if negb (bool_decide (get body "claimId" = JUndef)) && negb (is_room_id (get body "claimId")) then mret tt else
          let claimId := room_id (get body "claimId") in
          b ← owner_and (activeLegacyDevice c sid) sid;
          if negb b then mret tt else
          '(u, ch) ← sync (here sid);
          removed_ ← store (db_ackOfflineMessage id u ch claimId);
          if bool_decide (is_Some claimId) && negb removed_ then mret tt else tell_sender sid id "accepted"
      | _, _ => mret tt
      end
  | _ => mret tt
  end.

(** ** The requests of a socket *)
Inductive legacy_request := ChatJoin | MailboxReplay | ChatMessage | WebrtcSignal | RecipientRejected | Received.
Definition serve_legacy (sid : string) (q : legacy_request) (payload : jsval) (ack : Ack) : A unit :=
  onSafe ack (match q with
    | ChatJoin => chat_join sid payload ack
    | MailboxReplay => mailbox_replay sid ack
    | ChatMessage => chat_message_handler sid payload ack
    | WebrtcSignal => webrtc_signal sid payload ack
    | RecipientRejected => recipient_rejected sid payload ack
    | Received => received sid payload
    end).

(** ** Connections and timers *)
(** a socket the server accepted: nothing is known of it yet *)
(* backend/socket.io/listeners.ts:217-218 the start of connectionListener *)
Definition connect (sid : string) : M R unit :=
  s ← socket_of sid;
  match s with
  | Some _ => mret tt
  | None =>
      edit (λ g, {| sockets := <[sid := new_socket]> (sockets g); deviceSockets := deviceSockets g; muxRoomSockets := muxRoomSockets g; clients := clients g |});;
      on_listener sid (λ _, new_listener);;
      emit sid "message" (JStr "ping!")
  end.
(** a timer that is due leaves the table and does its work *)
Definition pump_key (n : nat) (r : R) : string * string :=
  match pumps (waiting r) !! n with Some p => (sub_roomId (p_subscription p), routingAddress (p_subscription p)) | None => ("", "") end.
Definition run_job (j : Job) : A unit :=
  match j with
  | expire_subscription sid sub => sync (expireSubscription sid sub)
  | pump_mailbox n =>
      on_pump_unit n (λ p, set_pump None true p);;
      key ← sync (gets (pump_key n));
      startMailboxPump c (rounds c) key n
  | replay_mailbox sid => sync (on_listener sid (with_timer None));; requestReplay c (rounds c) sid
  end.
Definition fire (n : nat) : A unit :=
  o ← sync (gets (λ r, timers (waiting r) !! n));
  t ← sync date_now;
  match o with
  | Some x => if due x <=? t then sync (clearTimeout (Some n));; run_job (job x) else mret tt
  | None => mret tt
  end.
End listeners.
