(* ===== verification/OwnershipSafety.v ===== *)
(** * Exclusive ownership of addresses

    An address of a room never has two owners, whatever the order in which handlers, timers, revocations and failures of the
    stores interleave. The index of multiplexed owners and the subscriptions that sockets hold say the same, and an address
    with a multiplexed owner has no legacy client. Every step only gives addresses up ([gives_up]), except the two
    installations, before which the address was freed in the same segment. *)
From S2P Require Import Prelude Json Storage RateLimit EventLoop Presence DeviceAuthority Rooms Sockets Delivery Multiplexed Listeners.

Definition legacy_entry (g : Registry) (roomId address : string) : option string :=
  u ← clientRecord (clients g) !! roomId; user_sid u address.
Record exclusive (g : Registry) : Prop := {
  entry_held roomId address sid : mux_entry g roomId address = Some sid →
    ∃ sub, subscription_in g sid roomId = Some sub ∧ routingAddress sub = address;
  held_entry sid roomId sub : subscription_in g sid roomId = Some sub →
    sub_roomId sub = roomId ∧ mux_entry g roomId (routingAddress sub) = Some sid;
  one_transport roomId address sid : mux_entry g roomId address = Some sid → legacy_entry g roomId address = None;
  legacy_named roomId address : legacy_entry g roomId address ≠ Some "" }.

(** ** Steps that only give addresses up *)
Record recedes (g g' : Registry) : Prop := {
  rc_exclusive : exclusive g → exclusive g';
  rc_mux roomId address sid : mux_entry g' roomId address = Some sid → mux_entry g roomId address = Some sid;
  rc_legacy roomId address sid : legacy_entry g' roomId address = Some sid → legacy_entry g roomId address = Some sid;
  rc_held sid roomId sub : subscription_in g' sid roomId = Some sub → subscription_in g sid roomId = Some sub }.
#[export] Instance recedes_preorder : PreOrder recedes.
Proof.
  split; [by intros g|]. intros g1 g2 g3 [H1 H2 H3 H4] [K1 K2 K3 K4]. split; eauto.
Qed.
Definition same_owners (g g' : Registry) : Prop :=
  (∀ roomId address, mux_entry g' roomId address = mux_entry g roomId address) ∧
  (∀ roomId address, legacy_entry g' roomId address = legacy_entry g roomId address) ∧
  ∀ sid roomId, subscription_in g' sid roomId = subscription_in g sid roomId.
Lemma same_recedes g g' : same_owners g g' → recedes g g'.
Proof.
  intros (Hm & Hl & Hs). split; [|intros *; rewrite Hm; done|intros *; rewrite Hl; done|intros *; rewrite Hs; done].
  intros [H1 H2 H3 H4]. split; intros *; rewrite ?Hm, ?Hl, ?Hs; [apply H1|apply H2|apply H3|apply H4].
Qed.

Lemma subscription_on_socket g sid f sid' roomId :
  subscription_in (on_socket sid f g) sid' roomId =
  if decide (sid' = sid) then muxSubscriptions (f (default closed_socket (sockets g !! sid))) !! roomId else subscription_in g sid' roomId.
Proof.
  unfold subscription_in, on_socket. cbn. case_decide as E; [subst; by rewrite lookup_insert_eq|by rewrite lookup_insert_ne].
Qed.
Lemma subscription_default g sid roomId : muxSubscriptions (default closed_socket (sockets g !! sid)) !! roomId = subscription_in g sid roomId.
Proof. unfold subscription_in. by destruct (sockets g !! sid). Qed.
Lemma same_on_socket sid f g : (∀ s, muxSubscriptions (f s) = muxSubscriptions s) → same_owners g (on_socket sid f g).
Proof.
  intros Hf. split; [done|]. split; [done|]. intros sid' roomId. rewrite subscription_on_socket. case_decide; [subst|done].
  by rewrite Hf, subscription_default.
Qed.

(** an owner's subscription and its entry *)
Definition remove_owner (sid : string) (sub : MuxRoomSubscription) (g : Registry) : Registry :=
  drop_entry sid sub (drop_subscription sid (sub_roomId sub) g).
Lemma remove_owner_held sid sub g sid' roomId :
  subscription_in (remove_owner sid sub g) sid' roomId =
  if decide (sid' = sid ∧ roomId = sub_roomId sub) then None else subscription_in g sid' roomId.
Proof.
  unfold remove_owner. set (g' := drop_subscription _ _ _).
  assert (subscription_in (drop_entry sid sub g') sid' roomId = subscription_in g' sid' roomId) as ->.
  { unfold drop_entry. by destruct (muxRoomSockets g' !! _). }
  unfold g', drop_subscription. rewrite subscription_on_socket. cbn. destruct (decide (sid' = sid)) as [->|Hn].
  - destruct (decide (roomId = sub_roomId sub)) as [->|Hr]; [by rewrite lookup_delete_eq, decide_True|].
    rewrite lookup_delete_ne, decide_False by naive_solver. apply subscription_default.
  - rewrite decide_False by naive_solver. done.
Qed.
Lemma remove_owner_entry sid sub g roomId address :
  mux_entry (remove_owner sid sub g) roomId address =
  if decide (roomId = sub_roomId sub ∧ address = routingAddress sub ∧ mux_entry g roomId address = Some sid) then None
  else mux_entry g roomId address.
Proof.
  unfold remove_owner, drop_entry, mux_entry, mux_entries. cbn. destruct (muxRoomSockets g !! sub_roomId sub) as [l|] eqn:El.
  - set (l' := if bool_decide _ then _ else _). cbn.
    assert (default [] (match l' with [] => delete (sub_roomId sub) (muxRoomSockets g) | _ => <[sub_roomId sub := l']> (muxRoomSockets g) end
      !! roomId) = if decide (roomId = sub_roomId sub) then l' else default [] (muxRoomSockets g !! roomId)) as ->.
    { destruct (decide (roomId = sub_roomId sub)) as [->|Hr].
      - destruct l'; [by rewrite lookup_delete_eq|by rewrite lookup_insert_eq].
      - destruct l'; [by rewrite lookup_delete_ne|by rewrite lookup_insert_ne]. }
    destruct (decide (roomId = sub_roomId sub)) as [->|Hr]; [rewrite El; cbn|by rewrite decide_False by naive_solver].
    unfold l'. bdec (user_sid l (routingAddress sub) = Some sid).
    + rewrite user_sid_delete. bdec (address = routingAddress sub); [by subst; rewrite decide_True|by rewrite decide_False by naive_solver].
    + by rewrite decide_False by naive_solver.
  - rewrite decide_False; [done|]. intros (-> & _ & H). by rewrite El in H.
Qed.
Lemma remove_owner_clients sid sub g : clients (remove_owner sid sub g) = clients g.
Proof. unfold remove_owner, drop_entry. by destruct (muxRoomSockets _ !! _). Qed.
Lemma remove_owner_recedes sid sub g : subscription_in g sid (sub_roomId sub) = Some sub → recedes g (remove_owner sid sub g).
Proof.
  intros Hs. split.
  - intros [H1 H2 H3 H4]. split; intros *; unfold legacy_entry; rewrite ?remove_owner_clients; try apply H4.
    + rewrite remove_owner_entry. case_decide as Hd; [done|]. intros He. destruct (H1 _ _ _ He) as (x & Hx & Ha). exists x.
      rewrite remove_owner_held, decide_False; [done|]. intros [-> ->]. rewrite Hs in Hx. injection Hx as <-. naive_solver.
    + rewrite remove_owner_held. case_decide as Hd; [done|]. intros Hx. destruct (H2 _ _ _ Hx) as [Hr He]. split; [done|].
      rewrite remove_owner_entry, decide_False; [done|]. intros (-> & Ha & He'). rewrite He in He'. injection He' as ->. naive_solver.
    + rewrite remove_owner_entry. case_decide; [done|]. apply H3.
  - intros *. rewrite remove_owner_entry. by case_decide.
  - intros *. unfold legacy_entry. by rewrite remove_owner_clients.
  - intros *. rewrite remove_owner_held. by case_decide.
Qed.
Lemma delete_client_entry g address roomId sid room a :
  legacy_entry (with_clients (deleteClient (clients g) address roomId sid).2 g) room a =
  if decide (room = roomId ∧ a = address ∧ legacy_entry g room a = Some sid) then None else legacy_entry g room a.
Proof.
  unfold legacy_entry, deleteClient. cbn. destruct (clientRecord (clients g) !! roomId) as [u|] eqn:Eu.
  2: { cbn. rewrite decide_False; [done|]. intros (-> & _ & H). by rewrite Eu in H. }
  destruct (user_sid u address) as [x|] eqn:Ex.
  2: { cbn. rewrite decide_False; [done|]. intros (-> & -> & H). rewrite Eu in H. cbn in H. congruence. }
  bdec (x = sid).
  - subst x. cbn. destruct (decide (room = roomId)) as [->|Hr].
    + rewrite Eu. cbn. transitivity (user_sid (delete_user u address) a).
      { destruct (delete_user u address) eqn:Ed; [by rewrite lookup_delete_eq|by rewrite lookup_insert_eq]. }
      rewrite user_sid_delete. bdec (a = address); [subst; by rewrite decide_True|by rewrite decide_False by naive_solver].
    + rewrite decide_False by naive_solver. destruct (delete_user u address); [by rewrite lookup_delete_ne|by rewrite lookup_insert_ne].
  - cbn. rewrite decide_False; [done|]. intros (-> & -> & E). rewrite Eu in E. cbn in E. congruence.
Qed.
Lemma delete_client_recedes g address roomId sid : recedes g (with_clients (deleteClient (clients g) address roomId sid).2 g).
Proof.
  assert (∀ room a x, legacy_entry (with_clients (deleteClient (clients g) address roomId sid).2 g) room a = Some x → legacy_entry g room a = Some x) as Hd.
  { intros *. rewrite delete_client_entry. by case_decide. }
  split; [|done|exact Hd|done]. intros [H1 H2 H3 H4]. split; [exact H1|exact H2| |].
  - intros * He. apply eq_None_not_Some. intros [x Hx%Hd]. apply H3 in He. congruence.
  - intros * Hx%Hd. by apply H4 in Hx.
Qed.

(** ** The relay's operations *)
Definition silent {D A} (m : M (Relay D) A) : Prop := ∀ r, ∃ x r', m r = (Ok x, r') ∧ registry r' = registry r.
Section silent.
Context {D : Type}.
Notation R := (Relay D).
Lemma silent_bind {A B} (m : M R A) (k : A → M R B) : silent m → (∀ x, silent (k x)) → silent (m ≫= k).
Proof.
  intros Hm Hk r. destruct (Hm r) as (x & r1 & E1 & H1). destruct (Hk x r1) as (y & r2 & E2 & H2). exists y, r2.
  unfold mbind, M_bind. rewrite E1, E2. split; [done|by rewrite H2].
Qed.
Lemma silent_gets {A} (f : R → A) : silent (gets f).
Proof. intros r. by exists (f r), r. Qed.
Lemma silent_mret {A} (x : A) : silent (mret x : M R A).
Proof. intros r. by exists x, r. Qed.
Lemma silent_waiting f : silent (modify (on_waiting f) : M R unit).
Proof. intros r. by eexists _, _. Qed.
Lemma silent_fresh : silent (fresh : M R nat).
Proof. intros r. by eexists _, _. Qed.
Hint Resolve silent_bind silent_gets silent_mret silent_waiting silent_fresh : k3.
Lemma silent_clearTimeout o : silent (clearTimeout o : M R unit).
Proof. destruct o; cbn; auto with k3. Qed.
Lemma silent_setTimeout j delay : silent (setTimeout j delay : M R nat).
Proof. unfold setTimeout, date_now. auto 10 with k3. Qed.
Hint Resolve silent_clearTimeout silent_setTimeout : k3.
Lemma silent_on_pump n f : silent (on_pump n f : M R unit).
Proof. unfold on_pump. auto with k3. Qed.
Lemma silent_forget_pump key : silent (forget_pump key : M R unit).
Proof. unfold forget_pump. auto with k3. Qed.
Lemma silent_on_listener sid f : silent (on_listener sid f : M R unit).
Proof. intros r. by eexists _, _. Qed.
Hint Resolve silent_on_pump silent_forget_pump silent_on_listener : k3.
Lemma silent_if {A} (b : bool) (m n : M R A) : silent m → silent n → silent (if b then m else n).
Proof. by destruct b. Qed.
Hint Resolve silent_if : k3.
Lemma silent_cancelMailboxPump sid roomId : silent (cancelMailboxPump sid roomId : M R unit).
Proof. unfold cancelMailboxPump. apply silent_bind; [auto with k3|]. intros o. apply silent_bind; [auto with k3|]. intros [[n p]|]; auto 8 with k3. Qed.
Lemma silent_next {A B} (m : M R A) (k : A → M R B) r : silent m →
  ∃ x r1, registry r1 = registry r ∧ (m ≫= k) r = k x r1.
Proof. intros Hm. destruct (Hm r) as (x & r1 & E & H). exists x, r1. split; [done|]. unfold mbind, M_bind. by rewrite E. Qed.
(** a subscription object that the socket no longer holds is left alone *)
Lemma removeSubscription_run sid sub (r : R) : ∃ r', removeSubscription sid sub r = (Ok tt, r') ∧
  registry r' = if decide (subscription_in (registry r) sid (sub_roomId sub) = Some sub) then remove_owner sid sub (registry r) else registry r.
Proof.
  unfold removeSubscription. rewrite gets_bind. unfold same_subscription.
  destruct (subscription_in (registry r) sid (sub_roomId sub)) as [x|] eqn:Ex; cbn [negb].
  2: { exists r. by rewrite decide_False. }
  bdec (x = sub); cbn [negb]; [subst|exists r; split; [done|by rewrite decide_False by congruence]]. rewrite decide_True by done.
  destruct (silent_next (cancelMailboxPump sid (sub_roomId sub)) (λ _, edit (drop_subscription sid (sub_roomId sub));;
    timer ← gets (λ r, subscriptionTimers (waiting r) !! (sid, sub_roomId sub)); clearTimeout timer;;
    modify (on_waiting (λ q, with_subscription_timers (delete (sid, sub_roomId sub) (subscriptionTimers q)) q));; edit (drop_entry sid sub))
    r (silent_cancelMailboxPump _ _)) as (u & r1 & H1 & ->).
  set (r2 := on_registry (drop_subscription sid (sub_roomId sub)) r1). change ((edit _ ≫= ?k) r1) with (k tt r2). cbv beta.
  rewrite gets_bind. destruct (silent_next (clearTimeout (subscriptionTimers (waiting r2) !! (sid, sub_roomId sub))) (λ _,
    modify (on_waiting (λ q, with_subscription_timers (delete (sid, sub_roomId sub) (subscriptionTimers q)) q));; edit (drop_entry sid sub))
    r2 (silent_clearTimeout _)) as (v & r3 & H3 & ->).
  eexists. split; [done|]. cbn. rewrite H3. unfold r2, remove_owner. cbn. by rewrite H1.
Qed.
End silent.
#[export] Hint Resolve silent_bind silent_gets silent_mret silent_waiting silent_fresh silent_clearTimeout silent_setTimeout silent_on_pump
  silent_forget_pump silent_on_listener silent_if silent_cancelMailboxPump : k3.

Definition gives_up {D} (r r' : Relay D) : Prop := recedes (registry r) (registry r').
Definition keeps {D} (r r' : Relay D) : Prop := exclusive (registry r) → exclusive (registry r').
#[export] Instance gives_up_preorder {D} : PreOrder (@gives_up D).
Proof. split; [by intros r; unfold gives_up|]. intros r1 r2 r3 H1 H2. unfold gives_up in *. by etrans. Qed.
#[export] Instance keeps_preorder {D} : PreOrder (@keeps D).
Proof. split; [by intros r ?|]. intros r1 r2 r3 H1 H2 H. by apply H2, H1. Qed.
Lemma gives_up_keeps {D A} (m : M (Relay D) A) : always gives_up m → always keeps m.
Proof. intros Hm r x r' E. by destruct (Hm r x r' E). Qed.

Ltac yielding := along ltac:(unfold socket_of, owns, client_sid, date_now).

Section operations.
Context {D : Type} (mux : bool).
Notation R := (Relay D).
Notation yields m := (always gives_up (m : M R _)).
Lemma yields_silent {A} (m : M R A) : silent m → yields m.
Proof. intros Hm r x r' E. destruct (Hm r) as (y & r1 & E1 & H1). rewrite E in E1. injection E1 as -> ->. unfold gives_up. by rewrite H1. Qed.
Lemma yields_same f : (∀ r, registry (f r) = registry r) → yields (modify f).
Proof. intros Hf. apply always_modify. intros r. unfold gives_up. by rewrite Hf. Qed.
Lemma yields_edit f : (∀ g, same_owners g (f g)) → yields (edit f).
Proof. intros Hf. apply always_modify. intros r. apply same_recedes, Hf. Qed.
Lemma yields_tell e : yields (tell e).
Proof. by apply yields_same. Qed.
Lemma yields_limiter k sid : yields (reset_limiter k sid).
Proof. by apply yields_same. Qed.
Lemma yields_consume k sid : yields (consume_ k sid).
Proof. intros r x r'. unfold consume_. destruct (RateLimit.consume _ _ _ _). by intros [= _ <-]. Qed.
Lemma yields_socket_edit sid f : (∀ s, muxSubscriptions (f s) = muxSubscriptions s) → yields (edit (on_socket sid f)).
Proof. intros Hf. apply yields_edit. intros g. by apply same_on_socket. Qed.
Lemma yields_removeSubscription sid sub : yields (removeSubscription sid sub).
Proof.
  intros r x r' E. destruct (removeSubscription_run sid sub r) as (r1 & E1 & H1). rewrite E in E1. injection E1 as _ ->. unfold gives_up.
  rewrite H1. case_decide; [by apply remove_owner_recedes|done].
Qed.
Lemma yields_delete_client address roomId sid : yields (delete_client address roomId sid).
Proof.
  intros r x r'. unfold delete_client. destruct (deleteClient _ _ _ _) as [b c'] eqn:E. intros [= _ <-]. unfold gives_up. cbn.
  pose proof (delete_client_recedes (registry r) address roomId sid) as H. by rewrite E in H.
Qed.
Lemma yields_forget_device sid : yields (edit (forget_device sid)).
Proof.
  apply yields_edit. intros g. unfold forget_device. destruct (sockets g !! sid) as [s|]; [|done].
  destruct (s_account s); [|done]. destruct (s_deviceId s); [|done]. by destruct (_ && _).
Qed.
Hint Resolve yields_tell yields_limiter yields_consume yields_removeSubscription yields_delete_client yields_forget_device : k3.
Hint Extern 1 (PreOrder _) => apply _ : k3.
Hint Extern 2 (always gives_up _) => (apply yields_silent; auto 6 with k3; fail) : k3.
Hint Extern 2 (always gives_up (modify _)) => (apply yields_same; done) : k3.
Hint Extern 2 (always gives_up (edit (on_socket _ _))) => (apply yields_socket_edit; done) : k3.
Lemma yields_emit sid topic data : yields (emit sid topic data).
Proof. unfold emit. apply always_bind; [apply _|auto with k3|]. intros []; auto with k3. Qed.
Lemma yields_each {A} (f : A → M R unit) l : (∀ x, yields (f x)) → yields (each f l).
Proof. intros Hf. induction l as [|x l IH]; cbn; auto with k3. Qed.
Lemma yields_quietly m : yields m → yields (quietly m).
Proof. intros Hm r x r' [= _ <-]. destruct (m r) as [y r1] eqn:E. by apply Hm in E. Qed.
Hint Resolve yields_emit yields_each yields_quietly : k3.
Lemma yields_on_mux_disconnect sid : yields (on_mux_disconnect sid).
Proof. unfold on_mux_disconnect. yielding. Qed.
Lemma yields_findPeerSid sid : yields (findPeerSid sid).
Proof. unfold findPeerSid. yielding. Qed.
Lemma yields_currentLegacyOwner sid : yields (currentLegacyOwner sid).
Proof. unfold currentLegacyOwner. yielding. Qed.
Hint Resolve yields_on_mux_disconnect yields_findPeerSid yields_currentLegacyOwner : k3.
Lemma yields_on_legacy_disconnect sid : yields (on_legacy_disconnect sid).
Proof. unfold on_legacy_disconnect, socketEmit. yielding. apply yields_quietly. yielding. Qed.
Hint Resolve yields_on_legacy_disconnect : k3.
Lemma yields_disconnect sid : yields (disconnect mux sid).
Proof. unfold disconnect. yielding. Qed.
Hint Resolve yields_disconnect : k3.
Lemma yields_invalidate sid : yields (invalidateMuxDeviceSocket mux sid).
Proof. unfold invalidateMuxDeviceSocket. yielding. Qed.
Hint Resolve yields_invalidate : k3.
Lemma yields_revoke account device : yields (revokeMuxDeviceSubscriptions mux account device).
Proof. unfold revokeMuxDeviceSubscriptions. yielding. by apply yields_edit. Qed.
Lemma yields_legacyRoomOwner roomId address : yields (legacyRoomOwner roomId address).
Proof. unfold legacyRoomOwner. yielding. Qed.
Lemma yields_muxRoomOwner roomId address : yields (muxRoomOwner roomId address).
Proof. unfold muxRoomOwner. yielding. Qed.
Lemma yields_release sid roomId : yields (releaseMuxRoomOwner sid roomId).
Proof. unfold releaseMuxRoomOwner. yielding. Qed.
Lemma silent_scheduleExpiry sid sub : silent (scheduleSubscriptionExpiry sid sub : M R unit).
Proof. unfold scheduleSubscriptionExpiry, date_now. auto 10 with k3. Qed.
Lemma yields_expire sid sub : yields (expireSubscription sid sub).
Proof. unfold expireSubscription. yielding. Qed.
Lemma yields_muxPeer roomId address : yields (muxPeerForLegacy roomId address).
Proof. unfold muxPeerForLegacy. yielding. Qed.
Hint Resolve yields_revoke yields_legacyRoomOwner yields_muxRoomOwner yields_release silent_scheduleExpiry yields_expire yields_muxPeer : k3.

(** ** What the owner queries leave *)
Lemma muxRoomOwner_run roomId address (r r' : R) x : exclusive (registry r) → muxRoomOwner roomId address r = (x, r') →
  ∃ o, x = Ok o ∧ mux_entry (registry r') roomId address = o.
Proof.
  intros Hx. unfold muxRoomOwner. rewrite gets_bind. destruct (mux_entry (registry r) roomId address) as [sid|] eqn:Ee.
  2: { intros [= <- <-]. by exists None. }
  destruct (entry_held _ Hx _ _ _ Ee) as (sub & Hs & Ha). destruct (held_entry _ Hx _ _ _ Hs) as [Hr _]. subst roomId.
  rewrite gets_bind, Hs. unfold owns. rewrite gets_bind. destruct (_ && _); [intros [= <- <-]; by exists (Some sid)|].
  destruct (removeSubscription_run sid sub r) as (r1 & E1 & H1). unfold mbind, M_bind. rewrite E1. intros [= <- <-]. exists None. split; [done|].
  by rewrite H1, decide_True, remove_owner_entry, decide_True.
Qed.
Lemma legacyRoomOwner_run roomId address (r r' : R) o : exclusive (registry r) → legacyRoomOwner roomId address r = (Ok o, r') →
  legacy_entry (registry r') roomId address = o.
Proof.
  intros Hx. unfold legacyRoomOwner, client_sid. rewrite observe_bind. destruct (getSIDByIDs _ _ _) as [x|e] eqn:Ex; [|done].
  apply getSIDByIDs_lookup in Ex. fold (legacy_entry (registry r) roomId address) in Ex. symmetry in Ex. destruct x as [sid|]; cbn [truthy_id].
  2: { by intros [= <- <-]. }
  destruct (nonempty sid) eqn:En.
  2: { apply negb_false_iff in En. apply String.eqb_eq in En as ->. by destruct (legacy_named _ Hx roomId address). }
  rewrite gets_bind. destruct (match live_socket _ _ with Some _ => _ | None => false end); [by intros [= <- <-]|].
  unfold mbind, M_bind, delete_client. destruct (deleteClient _ _ _ _) as [b c'] eqn:Ed. intros [= <- <-]. cbn.
  pose proof (delete_client_entry (registry r) address roomId sid roomId address) as Hd. rewrite Ed in Hd. cbn in Hd. rewrite Hd.
  by rewrite decide_True.
Qed.
Lemma release_run sid roomId address (r r' : R) x : exclusive (registry r) → mux_entry (registry r) roomId address = Some sid →
  releaseMuxRoomOwner sid roomId r = (x, r') → x = Ok tt ∧ mux_entry (registry r') roomId address = None.
Proof.
  intros Hx He. destruct (entry_held _ Hx _ _ _ He) as (sub & Hs & Ha). destruct (held_entry _ Hx _ _ _ Hs) as [Hr _]. subst.
  unfold releaseMuxRoomOwner. rewrite gets_bind, Hs. destruct (removeSubscription_run sid sub r) as (r1 & -> & H1). intros [= <- <-].
  split; [done|]. by rewrite H1, decide_True, remove_owner_entry, decide_True.
Qed.
End operations.
#[export] Hint Resolve yields_tell yields_limiter yields_consume yields_removeSubscription yields_delete_client yields_forget_device yields_emit
  yields_quietly yields_disconnect yields_invalidate yields_revoke yields_legacyRoomOwner yields_muxRoomOwner yields_release
  silent_scheduleExpiry yields_expire yields_muxPeer yields_findPeerSid yields_currentLegacyOwner : k3.
#[export] Hint Extern 1 (PreOrder _) => apply _ : k3.
#[export] Hint Extern 2 (always gives_up _) => (apply yields_silent; auto 6 with k3; fail) : k3.
#[export] Hint Extern 2 (always gives_up (modify _)) => (apply yields_same; done) : k3.
#[export] Hint Extern 2 (always gives_up (edit (on_socket _ _))) => (apply yields_socket_edit; done) : k3.

(** ** The installations *)
Lemma recedes_no_mux g g' roomId address : recedes g g' → mux_entry g roomId address = None → mux_entry g' roomId address = None.
Proof. intros H E. apply eq_None_not_Some. intros [x Hx%(rc_mux _ _ H)]. congruence. Qed.
Lemma recedes_no_legacy g g' roomId address : recedes g g' → legacy_entry g roomId address = None → legacy_entry g' roomId address = None.
Proof. intros H E. apply eq_None_not_Some. intros [x Hx%(rc_legacy _ _ H)]. congruence. Qed.
Lemma recedes_no_held g g' sid roomId : recedes g g' → subscription_in g sid roomId = None → subscription_in g' sid roomId = None.
Proof. intros H E. apply eq_None_not_Some. intros [x Hx%(rc_held _ _ H)]. congruence. Qed.

Definition add_owner (sid : string) (sub : MuxRoomSubscription) (g : Registry) : Registry := add_entry sid sub (add_subscription sid sub g).
Lemma add_owner_held sid sub g sid' roomId : subscription_in (add_owner sid sub g) sid' roomId =
  if decide (sid' = sid ∧ roomId = sub_roomId sub) then Some sub else subscription_in g sid' roomId.
Proof.
  unfold add_owner, add_entry. change (subscription_in (add_subscription sid sub g) sid' roomId = if decide (sid' = sid ∧ roomId = sub_roomId sub)
    then Some sub else subscription_in g sid' roomId).
  unfold add_subscription. rewrite subscription_on_socket. destruct (decide (sid' = sid)) as [->|].
  - cbn. destruct (decide (roomId = sub_roomId sub)) as [->|]; [by rewrite lookup_insert_eq, decide_True|].
    rewrite lookup_insert_ne, decide_False by naive_solver. apply subscription_default.
  - by rewrite decide_False by naive_solver.
Qed.
Lemma add_owner_entry sid sub g roomId address : mux_entry (add_owner sid sub g) roomId address =
  if decide (roomId = sub_roomId sub ∧ address = routingAddress sub) then Some sid else mux_entry g roomId address.
Proof.
  unfold mux_entry, mux_entries, add_owner, add_entry, add_subscription. cbn. destruct (decide (roomId = sub_roomId sub)) as [->|].
  - rewrite lookup_insert_eq. cbn. rewrite user_sid_set. bdec (address = routingAddress sub); [by rewrite decide_True|by rewrite decide_False by naive_solver].
  - rewrite lookup_insert_ne, decide_False by naive_solver. done.
Qed.
Lemma add_owner_exclusive sid sub g : exclusive g → mux_entry g (sub_roomId sub) (routingAddress sub) = None →
  subscription_in g sid (sub_roomId sub) = None → legacy_entry g (sub_roomId sub) (routingAddress sub) = None → exclusive (add_owner sid sub g).
Proof.
  intros [H1 H2 H3 H4] Hm Hs Hl. split; [intros r a x|intros x r y|intros r a x|exact H4].
  - rewrite add_owner_entry. case_decide as Hd; [intros [= ->]; destruct Hd as [-> ->]; exists sub; by rewrite add_owner_held, decide_True|].
    intros (y & Hy & <-)%H1. exists y. rewrite add_owner_held, decide_False; [done|]. intros [-> ->]. congruence.
  - rewrite add_owner_held. case_decide as Hd; [intros [= ->]; destruct Hd as [-> ->]; by rewrite add_owner_entry, decide_True|].
    intros [Hr He]%H2. rewrite add_owner_entry, decide_False; [done|]. intros [-> Ha]. rewrite Ha in He. congruence.
  - rewrite add_owner_entry. case_decide as Hd; [by destruct Hd as [-> ->]|]. apply H3.
Qed.
Lemma set_client_entry g address roomId sid room a :
  legacy_entry (with_clients (setClientToChannel (clients g) address roomId sid) g) room a =
  if decide (room = roomId ∧ a = address) then Some sid else legacy_entry g room a.
Proof.
  unfold legacy_entry, setClientToChannel. cbn. destruct (decide (room = roomId)) as [->|Hr].
  - destruct (clientRecord (clients g) !! roomId) as [u|]; cbn; rewrite lookup_insert_eq; cbn.
    + rewrite user_sid_set. bdec (a = address); [by rewrite decide_True|by rewrite decide_False by naive_solver].
    + bdec (address = a); [by rewrite decide_True|by rewrite decide_False by naive_solver].
  - rewrite decide_False by naive_solver. destruct (clientRecord (clients g) !! roomId); cbn; by rewrite lookup_insert_ne.
Qed.
Lemma set_client_exclusive g address roomId sid : sid ≠ "" → exclusive g → mux_entry g roomId address = None →
  exclusive (with_clients (setClientToChannel (clients g) address roomId sid) g).
Proof.
  intros Hsid [H1 H2 H3 H4] Hm. split; [exact H1|exact H2|intros r a x He|intros r a].
  - rewrite set_client_entry. case_decide as Hd; [|by eapply H3]. destruct Hd as [-> ->]. change (mux_entry g roomId address = Some x) in He. congruence.
  - rewrite set_client_entry. case_decide; [by injection 1|apply H4].
Qed.

Section installs.
Context {D : Type}.
Notation R := (Relay D).
Lemma freed_release o roomId address (r r' : R) x : exclusive (registry r) →
  (∀ y, mux_entry (registry r) roomId address = Some y → y = o) → releaseMuxRoomOwner o roomId r = (x, r') →
  mux_entry (registry r') roomId address = None.
Proof.
  intros Hx Ho E. destruct (mux_entry (registry r) roomId address) as [y|] eqn:Ey.
  - rewrite <-(Ho y eq_refl) in E. by eapply release_run in E as [_ ?].
  - eapply recedes_no_mux; [|exact Ey]. by apply yields_release in E.
Qed.
Lemma freed_client o roomId address (r r' : R) x :
  (∀ y, legacy_entry (registry r) roomId address = Some y → y = o) → delete_client address roomId o r = (x, r') →
  legacy_entry (registry r') roomId address = None.
Proof.
  intros Ho. unfold delete_client. destruct (deleteClient _ _ _ _) as [b c'] eqn:E. intros [= _ <-]. cbn.
  pose proof (delete_client_entry (registry r) address roomId o roomId address) as Hd. rewrite E in Hd. cbn in Hd. rewrite Hd.
  case_decide as Hn; [done|]. destruct (legacy_entry (registry r) roomId address) as [y|] eqn:Ey; [|done]. destruct Hn. by rewrite (Ho y eq_refl).
Qed.
(** the incumbents of an address, as the installing segment finds them *)
Lemma incumbents {A} roomId address (k : option string → option string → M R A) (r r' : R) x : exclusive (registry r) →
  (l ← legacyRoomOwner roomId address; m ← muxRoomOwner roomId address; k l m) r = (x, r') →
  exclusive (registry r') ∨ ∃ l m r1, k l m r1 = (x, r') ∧ exclusive (registry r1) ∧ mux_entry (registry r1) roomId address = m ∧
    ∀ y, legacy_entry (registry r1) roomId address = Some y → Some y = l.
Proof.
  intros Hx E. apply bind_cases in E as [(l & r1 & E1 & E)|(e & E1 & _)]; pose proof (yields_legacyRoomOwner _ _ _ _ _ E1) as G1.
  2: { left. by apply G1. }
  assert (exclusive (registry r1)) as Hx1 by by apply G1. apply legacyRoomOwner_run in E1 as Hl; [|done].
  apply bind_cases in E as [(m & r2 & E2 & E)|(e & E2 & _)]; pose proof (yields_muxRoomOwner _ _ _ _ _ E2) as G2.
  2: { left. by apply G2. }
  apply muxRoomOwner_run in E2 as (o & [= ->] & Hm); [|done]. right. exists l, o, r2. split_and!; [done|by apply G2|done|].
  intros y Hy. apply (rc_legacy _ _ G2) in Hy. congruence.
Qed.
(** the socket's previous subscription of the room gives way *)
Lemma own_release sid roomId address (r r' : R) x : exclusive (registry r) →
  (∀ y, mux_entry (registry r) roomId address = Some y → y = sid) →
  (match subscription_in (registry r) sid roomId with Some p => removeSubscription sid p | None => mret tt end) r = (x, r') →
  gives_up r r' ∧ mux_entry (registry r') roomId address = None ∧ subscription_in (registry r') sid roomId = None.
Proof.
  intros Hx Hm E. destruct (subscription_in (registry r) sid roomId) as [p|] eqn:Ep.
  - destruct (held_entry _ Hx _ _ _ Ep) as [Hr Hp]. destruct (removeSubscription_run sid p r) as (r0 & E0 & H0).
    rewrite E in E0. injection E0 as _ ->. split; [by eapply yields_removeSubscription|]. rewrite Hr, decide_True in H0 by done.
    rewrite H0. split; [|rewrite remove_owner_held, decide_True; [done|by rewrite Hr]]. rewrite remove_owner_entry. case_decide as Hd; [done|].
    destruct (mux_entry (registry r) roomId address) as [y|] eqn:Ey; [|done]. exfalso. rewrite (Hm _ eq_refl) in Ey.
    destruct (entry_held _ Hx _ _ _ Ey) as (q & Hq & Ha). apply Hd. split_and!; [done|congruence|f_equal; by apply Hm].
  - injection E as _ <-. split_and!; [unfold gives_up; done| |done]. apply eq_None_not_Some. intros [y Hy].
    rewrite (Hm _ Hy) in Hy. destruct (entry_held _ Hx _ _ _ Hy) as (q & Hq & _). congruence.
Qed.
Lemma install_keeps sid next : always keeps (install sid next : M R _).
Proof.
  intros r x r' E Hx. unfold install in E. cbv zeta in E. apply incumbents in E as [|(l & m & r1 & E & Hx1 & Hm & Hl)]; [done| |done].
  set (room := sub_roomId next) in *. set (a := routingAddress next) in *.
  apply bind_cases in E as [(u & r2 & E2 & E)|(e & E2 & _)].
  2: { destruct l; [|done]. apply bind_cases in E2 as [(? & ? & ? & [= ])|(? & E2 & _)]. by apply yields_delete_client in E2; apply E2. }
  assert (gives_up r1 r2 ∧ legacy_entry (registry r2) room a = None) as [G2 Hl2].
  { destruct l as [o|].
    - apply bind_cases in E2 as [(b & r0 & E2 & [= _ <-])|(? & _ & [=])]. split; [by eapply yields_delete_client|].
      eapply freed_client; [|exact E2]. intros y Hy%Hl. congruence.
    - injection E2 as _ <-. split; [unfold gives_up; done|]. apply eq_None_not_Some. intros [y Hy%Hl]. congruence. }
  apply bind_cases in E as [(v & r3 & E3 & E)|(e & E3 & _)].
  2: { destruct m as [o|]; [|done]. destruct (String.eqb o sid); [done|]. apply yields_release in E3. apply E3. by apply G2. }
  assert (gives_up r2 r3 ∧ ∀ y, mux_entry (registry r3) room a = Some y → y = sid) as [G3 Hm3].
  { destruct m as [o|].
    - destruct (String.eqb_spec o sid) as [->|].
      + injection E3 as _ <-. split; [unfold gives_up; done|]. intros y Hy%(rc_mux _ _ G2). congruence.
      + split; [by eapply yields_release|]. intros y. erewrite freed_release; [done|by apply G2| |exact E3].
        intros z Hz%(rc_mux _ _ G2). congruence.
    - injection E3 as _ <-. split; [unfold gives_up; done|]. intros y Hy%(rc_mux _ _ G2). congruence. }
  assert (exclusive (registry r3)) as Hx3 by by apply G3, G2.
  rewrite gets_bind in E. apply bind_cases in E as [(w & r4 & E4 & E)|(e & E4 & _)]; destruct (own_release _ _ _ _ _ _ Hx3 Hm3 E4) as (G4 & Hm4 & Hs4).
  2: by apply G4.
  set (r5 := on_registry (add_entry sid next) (on_registry (add_subscription sid next) r4)).
  change ((scheduleSubscriptionExpiry sid next;; mret (l, m)) r5 = (x, r')) in E.
  assert (exclusive (registry r5)) as Hx5.
  { apply add_owner_exclusive; [by apply G4|done|done|]. by eapply recedes_no_legacy; [exact G4|eapply recedes_no_legacy; [exact G3|]]. }
  destruct (silent_next (scheduleSubscriptionExpiry sid next) (λ _, mret (l, m)) r5 (silent_scheduleExpiry _ _)) as (z & r6 & H6 & Ez).
  rewrite Ez in E. injection E as _ <-. by rewrite H6.
Qed.
Lemma install_legacy_keeps sid q : sid ≠ "" → always keeps (install_legacy sid q : M R _).
Proof.
  intros Hsid r x r' E Hx. unfold install_legacy in E. apply incumbents in E as [|(l & m & r1 & E & Hx1 & Hm & _)]; [done| |done].
  apply bind_cases in E as [(u & r2 & E2 & E)|(e & E2 & _)].
  2: { destruct m as [o|]; [|done]. by apply yields_release in E2; apply E2. }
  assert (gives_up r1 r2 ∧ mux_entry (registry r2) (j_channel q) (j_user q) = None) as [G2 Hm2].
  { destruct m as [o|].
    - split; [by eapply yields_release|]. eapply freed_release; [exact Hx1| |exact E2]. intros y Hy. congruence.
    - injection E2 as _ <-. split; [unfold gives_up; done|done]. }
  set (r3 := on_registry (λ g, with_clients (setClientToChannel (clients g) (j_user q) (j_channel q) sid) g) r2).
  change (edit (on_socket sid (with_room (j_user q) (j_channel q) (j_features q))) r3 = (Ok tt, r')) in E || injection E as _ <-.
  cbn. eapply rc_exclusive; [by apply same_recedes, same_on_socket|]. apply set_client_exclusive; [done|by apply G2|done].
Qed.
End installs.

(** ** The handlers *)
Lemma kept_any {D} (l : list (async (Relay D) bool)) : Forall (throughout keeps) l → throughout keeps (any l).
Proof.
  induction 1 as [|m l Hm _ IH]; [by apply throughout_ret, _|]. apply throughout_bind; [apply _|done|]. intros []; [by apply throughout_ret, _|done].
Qed.
Lemma kept_refuses {D} (m : async (Relay D) bool) : throughout keeps m → throughout keeps (refuses m).
Proof.
  intros Hm. apply throughout_bind; [apply _|by apply throughout_awaited; [apply _|]|]. intros b. by apply throughout_ret, _.
Qed.
Ltac serving :=
  repeat match goal with
  | |- throughout _ (_ ≫= _) => apply throughout_bind; [apply _| |intros ?]
  | |- throughout _ (mret _) => apply throughout_ret; apply _
  | |- throughout _ (try_ _ _) => apply throughout_try; [apply _| |intros ?]
  | |- throughout _ (awaited _) => apply throughout_awaited; [apply _|]
  | |- throughout _ (finally_async _ _) => apply throughout_finally; [apply _| |]
  | |- throughout _ (fork _) => apply throughout_fork
  | |- throughout _ (wait _) => apply throughout_wait; apply _
  | |- throughout _ suspend => apply throughout_wait; apply _
  | |- throughout _ hang => apply throughout_hang; apply _
  | |- throughout _ (any _) => apply kept_any
  | |- throughout _ (refuses _) => apply kept_refuses
  | |- Forall _ [] => apply Forall_nil_2
  | |- Forall _ (_ :: _) => apply Forall_cons_2
  | |- Forall _ (_ ++ _) => apply Forall_app_2
  | |- Forall _ _ => solve [eauto with own]
  | |- throughout _ (look _) => apply throughout_sync
  | |- throughout _ (sync _) => apply throughout_sync
  | |- throughout _ (match ?x with _ => _ end) => destruct x
  | |- throughout _ (if ?x then _ else _) => destruct x
  | |- throughout _ _ => solve [eauto with own]
  | |- always keeps (_ ≫= _) => apply always_bind; [apply _| |intros ?]
  | |- always keeps (match ?x with _ => _ end) => destruct x
  | |- always keeps (if ?x then _ else _) => destruct x
  | |- always keeps _ => solve [unfold socket_of, owns, client_sid, date_now; eauto with own | apply gives_up_keeps; unfold socket_of, owns, client_sid, date_now; eauto with k3]
  end.
Create HintDb own.
Section handlers.
Context {D : Type} `{!RelayServices D} (c : Config).
Notation R := (Relay D).
Notation kept m := (throughout keeps (m : async R _)).
Lemma kept_store {A} (f : Z → M D A) : kept (store f).
Proof.
  apply throughout_call; [apply _|]. intros r x r'. destruct (f (now r) (db r)). intros [= _ <-]. by intros ?.
Qed.
Hint Resolve kept_store : own.
Lemma kept_bound sid : kept (boundDeviceAuthorization sid).
Proof. unfold boundDeviceAuthorization. serving. Qed.
Hint Resolve kept_bound : own.
Lemma kept_activeMux sid : kept (activeMuxDevice c sid).
Proof. unfold activeMuxDevice. serving. Qed.
Lemma yields_eject sid : always gives_up (eject_legacy c sid : M R unit).
Proof. unfold eject_legacy. yielding. Qed.
Hint Resolve yields_eject : k3.
Lemma kept_activeLegacy sid : kept (activeLegacyDevice c sid).
Proof. unfold activeLegacyDevice. serving. Qed.
Lemma kept_replayOwner sid : kept (assertReplayOwnerAuthorized c sid).
Proof. unfold assertReplayOwnerAuthorized, fail. serving. Qed.
Hint Resolve kept_activeMux kept_activeLegacy kept_replayOwner : own.
Lemma kept_routeRecord roomId address : kept (currentRouteRecord c roomId address).
Proof. unfold currentRouteRecord. serving. Qed.
Hint Resolve kept_routeRecord : own.
Lemma kept_currentSubscription sid roomId : kept (currentSubscription c sid roomId).
Proof. unfold currentSubscription. serving. Qed.
Hint Resolve kept_currentSubscription : own.
Lemma kept_notifySender roomId address id status : kept (notifyRoomSender c roomId address id status).
Proof. unfold notifyRoomSender. serving. Qed.
Lemma yields_sourceCurrent source roomId address o : always gives_up (sourceCurrent source roomId address o : M R bool).
Proof. unfold sourceCurrent. yielding. Qed.
Lemma yields_peer_address roomId address o : always gives_up (peer_address roomId address o : M R _).
Proof. unfold peer_address. yielding. Qed.
Hint Resolve yields_sourceCurrent yields_peer_address : k3.
Lemma kept_notifyPeer source roomId address : kept (notifyRoomPeerFeatures c source roomId address).
Proof. unfold notifyRoomPeerFeatures. serving. Qed.
Hint Resolve kept_notifySender kept_notifyPeer : own.
Lemma kept_emit_ack sid topic data : kept (emit_ack sid topic data).
Proof. unfold emit_ack. serving. Qed.
Lemma kept_storeEnvelope e : kept (storeRoomEnvelope c e).
Proof. unfold storeRoomEnvelope, fail. serving. Qed.
Lemma kept_given_up sid sub t : kept (given_up sid sub t).
Proof. unfold given_up. serving. Qed.
Lemma kept_nothing sub : kept (nothing_claimed sub).
Proof. unfold nothing_claimed. serving. Qed.
Hint Resolve kept_emit_ack kept_storeEnvelope kept_given_up kept_nothing : own.
Lemma kept_deliver_one sid sub current t m : kept (deliver_one c sid sub current t m).
Proof. unfold deliver_one. cbv zeta. serving. Qed.
Hint Resolve kept_deliver_one : own.
Lemma kept_batch n sid sub : kept (deliver_batch c n sid sub).
Proof. induction n as [|n IH]; cbn [deliver_batch]; unfold new_uuid; serving. Qed.
Lemma kept_on_pump n f : kept (on_pump_unit n f).
Proof. unfold on_pump_unit. serving. Qed.
Lemma kept_pump_of n : kept (pump_of n).
Proof. unfold pump_of. serving. Qed.
Lemma silent_schedulePump n delay : silent (scheduleMailboxPump n delay : M R unit).
Proof. unfold scheduleMailboxPump. auto 8 with k3. Qed.
Hint Resolve kept_batch kept_on_pump kept_pump_of : own.
Hint Resolve silent_schedulePump : k3.
Lemma kept_pump_loop k n : kept (pump_loop c k n).
Proof. induction k as [|k IH]; cbn [pump_loop]; unfold deliverMuxMailboxBatch; serving. Qed.
Hint Resolve kept_pump_loop : own.
Lemma kept_startPump k key n : kept (startMailboxPump c k key n).
Proof. induction k as [|k IH]; cbn [startMailboxPump]; serving. Qed.
Hint Resolve kept_startPump : own.
Lemma kept_requestMux sid sub : kept (requestMuxMailboxDelivery c sid sub).
Proof. unfold requestMuxMailboxDelivery. cbv zeta. serving. Qed.
Hint Resolve kept_requestMux : own.

(** *** Replay for a legacy socket *)
Lemma yields_here sid : always gives_up (here sid : M R _).
Proof. unfold here. yielding. Qed.
Hint Resolve yields_here : k3.
Lemma kept_owner_and check sid : kept check → kept (owner_and check sid).
Proof. intros Hc. unfold owner_and. serving. Qed.
Hint Resolve kept_owner_and : own.
Lemma kept_replay_one sid m : kept (replay_one c sid m).
Proof. unfold replay_one, still_owner. cbv zeta. serving. Qed.
Hint Resolve kept_replay_one : own.
Lemma kept_replay_rows n sid : kept (replay_rows c n sid).
Proof. induction n as [|n IH]; cbn [replay_rows]; unfold still_owner, new_uuid; serving. Qed.
Lemma kept_cleanup : kept cleanup.
Proof. unfold cleanup. serving. Qed.
Hint Resolve kept_replay_rows kept_cleanup : own.
Lemma kept_deliverOffline sid : kept (deliverOffline c sid).
Proof. unfold deliverOffline. serving. Qed.
Lemma yields_scheduleReplay sid delay : always gives_up (scheduleReplay sid delay : M R unit).
Proof. unfold scheduleReplay. yielding. Qed.
Hint Resolve yields_scheduleReplay : k3.
Lemma yields_scheduleBackoff sid : always gives_up (scheduleBackoff sid : M R unit).
Proof. unfold scheduleBackoff. yielding. Qed.
Hint Resolve yields_scheduleBackoff : k3.
Hint Resolve kept_deliverOffline : own.
Lemma kept_pendingReplay sid : kept (schedulePendingReplay sid).
Proof. unfold schedulePendingReplay. serving. Qed.
Lemma kept_backoff sid : kept (backoffAfterReplayFailure c sid).
Proof. unfold backoffAfterReplayFailure. serving. Qed.
Lemma kept_replay_loop k sid : kept (replay_loop c k sid).
Proof. induction k as [|k IH]; cbn [replay_loop]; serving. Qed.
Hint Resolve kept_pendingReplay kept_backoff kept_replay_loop : own.
Lemma kept_requestReplay k sid : kept (requestReplay c k sid).
Proof. induction k as [|k IH]; cbn [requestReplay]; serving. Qed.
Hint Resolve kept_requestReplay : own.
Lemma kept_wake roomId address : kept (wakeRoomMailbox c roomId address).
Proof. unfold wakeRoomMailbox. serving. Qed.
Lemma kept_may_signal source roomId sender recipient o : kept (may_signal c source roomId sender recipient o).
Proof. unfold may_signal, speaks_calls_legacy. serving. Qed.
Hint Resolve kept_wake kept_may_signal : own.
Lemma kept_routeSignal source roomId sender recipient envelope : kept (routeRoomSignal c source roomId sender recipient envelope).
Proof. unfold routeRoomSignal, speaks_calls_legacy. serving. Qed.
Hint Resolve kept_routeSignal : own.

(** *** Locks, queues and proofs *)
Lemma silent_answer o v : silent (answer o v : M R unit).
Proof. destruct o; cbn; intros r; by eexists _, _. Qed.
Lemma silent_new_promise b : silent (new_promise b : M R nat).
Proof. unfold new_promise. auto with k3. Qed.
Lemma silent_resolve n : silent (resolve n : M R unit).
Proof. unfold resolve. auto with k3. Qed.
Lemma silent_set_lock key o : silent (set_lock key o : M R unit).
Proof. unfold set_lock. auto with k3. Qed.
Lemma silent_set_queue sid q : silent (set_queue sid q : M R unit).
Proof. unfold set_queue. auto with k3. Qed.
Hint Resolve silent_answer silent_new_promise silent_resolve silent_set_lock silent_set_queue : k3.
Lemma silent_leave_queue sid n : silent (leave_queue sid n : M R unit).
Proof. unfold leave_queue. auto with k3. Qed.
Hint Resolve silent_leave_queue : k3.
Lemma kept_lock {X} roomId address (m : async R X) : kept m → kept (withRoomOwnershipLock roomId address m).
Proof. intros Hm. unfold withRoomOwnershipLock. cbv zeta. serving. Qed.
Lemma kept_onSafe ack m : kept m → kept (onSafe ack m).
Proof. intros Hm. unfold onSafe. serving. Qed.
Lemma kept_enqueue sid m ack failure : kept m → kept (enqueue c sid m ack failure).
Proof. intros Hm. unfold enqueue. serving. Qed.
Lemma yields_bind_device sid d : always gives_up (bind_device sid d : M R unit).
Proof. unfold bind_device. auto with k3. Qed.
Hint Resolve yields_bind_device : k3.
Lemma kept_verifyMux sid carrier operation r b : kept (verifyMuxCarrier sid carrier operation r b).
Proof. unfold verifyMuxCarrier. serving. Qed.
Hint Resolve kept_verifyMux : own.

(** *** The requests of a multiplexed socket *)
Lemma yields_devices f : always gives_up (edit (λ g, with_devices (f g) g) : M R unit).
Proof. by apply yields_edit. Qed.
Hint Resolve yields_devices : k3.
Lemma kept_authenticate sid payload ack : kept (mux_authenticate c sid payload ack).
Proof. unfold mux_authenticate, reject_connection. serving. Qed.
Lemma yields_evict owner roomId address : always gives_up (evict c owner roomId address : M R unit).
Proof. unfold evict. yielding. Qed.
Hint Resolve yields_evict : k3.
Lemma kept_owners_yield sid roomId address l : kept (owners_yield c sid roomId address l).
Proof. induction l as [|o l IH]; cbn [owners_yield]; serving. Qed.
Lemma kept_room_denied q : Forall (throughout keeps) (room_denied c q : list (async R bool)).
Proof. unfold room_denied. serving. Qed.
Hint Resolve kept_owners_yield kept_room_denied install_keeps : own.
Lemma kept_admit_mux sid q payload : kept (admit_mux c sid q payload).
Proof. unfold admit_mux, next_subscription. serving. Qed.
Hint Resolve kept_admit_mux kept_lock : own.
Lemma kept_subscribe sid payload ack : kept (mux_subscribe c sid payload ack).
Proof. unfold mux_subscribe. cbv zeta. serving. Qed.
Lemma kept_unsubscribe sid payload ack : kept (mux_unsubscribe c sid payload ack).
Proof. unfold mux_unsubscribe. cbv zeta. serving. Qed.
Lemma kept_current_for sid payload : kept (current_for c sid payload).
Proof. unfold current_for. serving. Qed.
Lemma kept_still_may sid payload operation sub : kept (still_may c sid payload operation sub).
Proof. unfold still_may. serving. Qed.
Hint Resolve kept_current_for kept_still_may : own.
Lemma kept_send_message sid payload ack : kept (mux_send_message c sid payload ack).
Proof. unfold mux_send_message, new_uuid, fail. cbv zeta. serving. Qed.
Lemma kept_send_signal sid payload ack : kept (mux_send_signal c sid payload ack).
Proof. unfold mux_send_signal. cbv zeta. serving. Qed.
Lemma kept_mailbox_replay sid payload ack : kept (mux_mailbox_replay c sid payload ack).
Proof. unfold mux_mailbox_replay. serving. Qed.
Hint Resolve kept_authenticate kept_subscribe kept_unsubscribe kept_send_message kept_send_signal kept_mailbox_replay : own.
Lemma kept_serve_mux sid q payload ack : kept (serve_mux c sid q payload ack).
Proof. apply kept_onSafe. destruct q; apply kept_enqueue; eauto with own. Qed.

(** *** The requests of a legacy socket *)
Lemma kept_verifyCarrier sid carrier operation b o : kept (verifyCarrier c sid carrier operation b o).
Proof. unfold verifyCarrier. serving. Qed.
Lemma yields_rejectJoin ack msg code_ : always gives_up (rejectJoin c ack msg code_ : M R unit).
Proof. unfold rejectJoin. auto with k3. Qed.
Lemma yields_slot sid : always gives_up (admitDeviceSocket sid : M R bool).
Proof.
  unfold admitDeviceSocket. yielding. intros r y r'. destruct (admitSlot _ _ _). intros [= _ <-]. unfold gives_up. done.
Qed.
Hint Resolve kept_verifyCarrier : own.
Hint Resolve yields_rejectJoin yields_slot : k3.
Lemma kept_admit_legacy sid q : sid ≠ "" → kept (admit_legacy c sid q).
Proof. intros Hsid. pose proof (install_legacy_keeps (D := D) sid q Hsid) as Hi. unfold admit_legacy. serving. Qed.
Lemma yields_refuse_admission sid ack e : always gives_up (refuse_admission c sid ack e : M R unit).
Proof. unfold refuse_admission, socketEmit. yielding. Qed.
Hint Resolve yields_refuse_admission : k3.
Lemma kept_joined sid q o ack : kept (joined c sid q o ack).
Proof. unfold joined. serving. Qed.
Hint Resolve kept_joined kept_admit_legacy : own.
Lemma kept_chat_join sid data ack : sid ≠ "" → kept (chat_join c sid data ack).
Proof. intros Hsid. unfold chat_join. serving. Qed.
Lemma kept_legacy_replay sid ack : kept (mailbox_replay c sid ack).
Proof. unfold mailbox_replay. serving. Qed.
Lemma kept_retain e : kept (retainUndeliveredEnvelope c e).
Proof. unfold retainUndeliveredEnvelope, fail. serving. Qed.
Hint Resolve kept_retain : own.
Lemma kept_queue_for e ack : kept (queue_for c e ack).
Proof. unfold queue_for. serving. Qed.
Lemma yields_sender_envelope sid mailbox id t payload : always gives_up (sender_envelope sid mailbox id t payload : M R _).
Proof. unfold sender_envelope. yielding. Qed.
Lemma yields_live_message sid id t payload : always gives_up (live_message sid id t payload : M R jsval).
Proof. unfold live_message. yielding. Qed.
Hint Resolve yields_sender_envelope yields_live_message : k3.
Lemma kept_record sid receiver id t payload reason : kept (record_rejection c sid receiver id t payload reason).
Proof. unfold record_rejection. serving. Qed.
Hint Resolve kept_queue_for kept_record : own.
Lemma kept_deliver_live sid receiver id t payload ack : kept (deliver_live c sid receiver id t payload ack).
Proof. unfold deliver_live. cbv zeta. serving. Qed.
Hint Resolve kept_deliver_live : own.
Lemma kept_chat_message sid payload ack : kept (chat_message_handler c sid payload ack).
Proof. unfold chat_message_handler, new_uuid. serving. Qed.
Lemma yields_mux_peer sid : always gives_up (mux_peer_address sid : M R _).
Proof. unfold mux_peer_address. yielding. Qed.
Hint Resolve yields_mux_peer : k3.
Lemma kept_signal sid payload ack : kept (webrtc_signal c sid payload ack).
Proof. unfold webrtc_signal, socketEmit. serving. Qed.
Lemma yields_sender_address sid : always gives_up (sender_address sid : M R _).
Proof. unfold sender_address. yielding. Qed.
Hint Resolve yields_sender_address : k3.
Lemma kept_tell_sender sid id status : kept (tell_sender c sid id status).
Proof. unfold tell_sender. serving. Qed.
Hint Resolve kept_tell_sender : own.
Lemma kept_rejected sid payload ack : kept (recipient_rejected c sid payload ack).
Proof. unfold recipient_rejected. cbv zeta. serving. Qed.
Lemma kept_received sid payload : kept (received c sid payload).
Proof. unfold received. cbv zeta. serving. Qed.
Hint Resolve kept_chat_join kept_legacy_replay kept_chat_message kept_signal kept_rejected kept_received : own.
Lemma kept_serve_legacy sid q payload ack : sid ≠ "" → kept (serve_legacy c sid q payload ack).
Proof. intros Hsid. apply kept_onSafe. destruct q; eauto with own. Qed.

(** *** Connections and timers *)
Lemma yields_connect sid : always gives_up (connect sid : M R unit).
Proof.
  intros r x r' E. unfold connect, socket_of in E. rewrite gets_bind in E. destruct (sockets (registry r) !! sid) as [s|] eqn:Es.
  { injection E as _ <-. unfold gives_up. done. }
  apply bind_cases in E as [([] & r1 & [= <-] & E)|(? & [=] & _)]. apply (always_bind gives_up _ _ (yields_silent _ (silent_on_listener _ _))
    (λ _, yields_emit _ _ _)) in E. unfold gives_up in *. etrans; [|exact E]. apply same_recedes. split; [done|]. split; [done|].
  intros sid' roomId. unfold subscription_in. cbn. destruct (decide (sid' = sid)) as [->|]; [|by rewrite lookup_insert_ne].
  by rewrite lookup_insert_eq, Es.
Qed.
Lemma kept_fire n : kept (fire c n).
Proof. unfold fire, run_job. serving. Qed.
End handlers.

(** ** Whatever happens *)
Section reachable.
Context {D : Type} `{!RelayServices D} (c : Config).
(** what starts a handler; the ids of sockets are not empty *)
Inductive relay_event : async (Relay D) unit → Prop :=
| mux_asks sid q payload ack : relay_event (serve_mux c sid q payload ack)
| legacy_asks sid q payload ack : sid ≠ "" → relay_event (serve_legacy c sid q payload ack)
| connects sid : relay_event (sync (connect sid))
| leaves sid : relay_event (sync (disconnect (muxRelayEnabled c) sid))
| timer_fires n : relay_event (fire c n)
| device_revoked account device : relay_event (sync (revokeMuxDeviceSubscriptions (muxRelayEnabled c) account device)).
(** the world around: time passes, clients answer, and other code changes the stores *)
Definition outside (r r' : Relay D) : Prop := registry r' = registry r.
Definition relay_step : System (Relay D) → System (Relay D) → Prop := sys_step relay_event outside.
Lemma relay_event_keeps m : relay_event m → throughout keeps m.
Proof.
  intros [sid q payload ack|sid q payload ack Hs|sid|sid|n|account device].
  - apply kept_serve_mux.
  - by apply kept_serve_legacy.
  - apply throughout_sync, gives_up_keeps, yields_connect.
  - apply throughout_sync, gives_up_keeps, yields_disconnect.
  - apply kept_fire.
  - apply throughout_sync, gives_up_keeps, yields_revoke.
Qed.
Lemma start_exclusive : exclusive no_sockets.
Proof.
  split.
  - intros roomId address sid H. unfold mux_entry, mux_entries in H. cbn in H. by rewrite lookup_empty in H.
  - intros sid roomId sub H. unfold subscription_in in H. cbn in H. by rewrite lookup_empty in H.
  - intros roomId address sid H. unfold mux_entry, mux_entries in H. cbn in H. by rewrite lookup_empty in H.
  - intros roomId address H. unfold legacy_entry in H. cbn in H. by rewrite lookup_empty in H.
Qed.
Lemma reachable_exclusive s0 s : registry (world s0) = no_sockets → EventLoop.pending s0 = [] → rtc relay_step s0 s → exclusive (registry (world s)).
Proof.
  intros H0 Hp Hs. eapply (system_reaches _ _ keeps) in Hs; [|exact relay_event_keeps| |by rewrite Hp].
  - apply Hs. rewrite H0. apply start_exclusive.
  - intros w w' Hw. unfold keeps. by rewrite Hw.
Qed.

(** C13: Ownership of an address is exclusive. However requests of multiplexed and legacy sockets, connections, disconnections,
    timers, revocations and store failures interleave at the handlers' suspensions: at most one socket holds a subscription for an
    address of a room, the index [muxRoomSockets] names exactly that socket, and while there is one the address has no legacy
    client, so a message for it has one recipient. *)
Theorem address_has_one_owner s0 s roomId address :
  registry (world s0) = no_sockets → EventLoop.pending s0 = [] → rtc relay_step s0 s →
  let g := registry (world s) in
  (∀ sid, mux_entry g roomId address = Some sid ↔ ∃ sub, subscription_in g sid roomId = Some sub ∧ routingAddress sub = address) ∧
  (∀ sid1 sid2 sub1 sub2, subscription_in g sid1 roomId = Some sub1 → subscription_in g sid2 roomId = Some sub2 →
     routingAddress sub1 = address → routingAddress sub2 = address → sid1 = sid2) ∧
  (∀ sid sub o, subscription_in g sid roomId = Some sub → routingAddress sub = address →
     getSIDByIDs (clients g) address roomId = Ok o → o = None).
Proof.
  intros H0 Hp Hs. cbv zeta. pose proof (reachable_exclusive _ _ H0 Hp Hs) as [H1 H2 H3 _]. split_and!.
  - intros sid. split; [apply H1|]. intros (sub & Hsub & <-). by apply H2 in Hsub as [_ ?].
  - intros sid1 sid2 sub1 sub2 [_ E1]%H2 [_ E2]%H2 <- Ha. rewrite Ha, E1 in E2. congruence.
  - intros sid sub o [_ E]%H2 <- Ho. apply getSIDByIDs_lookup in Ho. subst o. by eapply H3.
Qed.
End reachable.

(** ** A run: a phone subscribes an address, then joins it with a second connection *)
Module Handover.
Definition key43 : string := "AAAAAAAAAAAAAAAAAAAAAAAAAAAAAAAAAAAAAAAAAAA".
Definition room1 : string := "00000000-0000-1000-8000-000000000001".
Definition addr1 : string := "00000000-0000-1000-8000-00000000000a".
Definition addr2 : string := "00000000-0000-1000-8000-00000000000b".
Definition phone : DeviceLifecycleRecord := {|
  accountIdentityReference := "alice"; deviceId := "phone"; deviceIdentityReference := "ref"; verificationKeyReference := "key";
  dr_state := active; trustEpoch := 1; createdAt := 0; revokedAt := None; lastTrustUpdate := 0 |}.
Definition yes {A} (a : A) : M unit A := mret a.
#[export] Instance stores : RelayServices unit := {|
  db_read_device _ _ _ := yes (Some phone); db_verify _ _ _ _ := yes phone; db_authorizeRoomControl _ _ _ := yes true;
  db_authorizeCurrentRouting _ _ _ _ := yes true; db_boundRoutingDevice _ _ _ _ _ _ := yes true; db_currentRoutingIdentity _ _ _ _ := yes true;
  db_prekey_expiry _ _ _ := yes (Some 1000000); db_bindVerifiedRouting _ _ _ _ _ _ := yes tt; db_channelValid _ _ := yes true;
  db_claimOfflineMessage _ _ _ _ _ := yes None; db_offlineMessageClaimUntil _ _ _ := yes None; db_countOfflineMessages _ _ _ := yes 0;
  db_rejectOfflineMessage _ _ _ _ _ _ := yes rej_stale; db_ackOfflineMessage _ _ _ _ _ := yes false; db_find_envelope _ _ := yes None;
  db_storeOfflineMessage e _ _ := yes {| e_id := n_id e; e_timestamp := n_timestamp e; e_rejected := false |};
  db_recordOfflineRejection _ _ _ _ := yes rej_rejected; db_cleanupExpired _ := yes tt |}.
Definition config : Config := {| muxRelayEnabled := true; durableRouting := false; production := false; storageReady := true;
  randomUUID := λ _, "id"; sha256_hex := λ s, s; rounds := 4 |}.
Definition relay : Relay unit := {| registry := no_sockets; waiting := nothing_waits; limits := fresh_limits; now := 5; counter := 0; db := tt; trace := [] |}.
Definition start : System (Relay unit) := {| world := relay; EventLoop.pending := [] |}.
Definition proof (operation : string) : list (string * jsval) :=
  [("deviceAuthorizationProof", JObj [("nonce", JStr "n"); ("deviceId", JStr "phone"); ("expiresAt", jint 400000)]); ("proofNonce", JStr "n");
   ("proofOperation", JStr operation)].
Definition subscribe : jsval := JObj (proof "relay:subscribe" ++ [("connectionGeneration", JStr "s1"); ("controlCapability", JStr key43);
  ("peerRoutingAddress", JStr addr2); ("protocolFeatures", JArr []); ("roomId", JStr room1); ("routingAddress", JStr addr1);
  ("routingProof", JStr "p"); ("version", jint 1)]).
Definition join : jsval := JObj [("userID", JStr addr1); ("channelID", JStr room1); ("controlCapability", JStr key43); ("routingProof", JStr "p");
  ("deviceAuthorizationProof", JObj [("nonce", JStr "n"); ("deviceId", JStr "phone"); ("expiresAt", jint 400000)]); ("proofNonce", JStr "n")].
Definition steps : list (async (Relay unit) unit) :=
  [sync (connect "s1"); sync (connect "s2");
   serve_mux config "s1" MuxAuthenticate (JObj (("connectionGeneration", JStr "s1") :: proof "relay:connect")) (Some 0%nat);
   serve_mux config "s1" MuxSubscribe subscribe (Some 1%nat)].
Definition run (l : list (async (Relay unit) unit)) (s : System (Relay unit)) : System (Relay unit) :=
  fold_left (λ s m, run_ready 400 (arrive m s)) l s.
Definition subscribed : System (Relay unit) := run steps start.
Definition handed_over : System (Relay unit) := run [serve_legacy config "s2" ChatJoin join (Some 2%nat)] subscribed.
End Handover.

Section handover.
Import Handover.
Lemma run_reaches l s : Forall (relay_event config) l → rtc (relay_step config) s (run l s).
Proof.
  revert s. induction l as [|m l IH]; intros s Hl; [done|]. apply Forall_cons in Hl as [Hm Hl].
  change (run (m :: l) s) with (run l (run_ready 400 (arrive m s))). etrans; [by apply arrive_reaches|]. etrans; [apply run_ready_reaches|]. by apply IH.
Qed.
Lemma handover_reached : rtc (relay_step config) start subscribed ∧ rtc (relay_step config) start handed_over.
Proof.
  assert (rtc (relay_step config) start subscribed) as H by (apply run_reaches; repeat constructor).
  split; [done|]. etrans; [exact H|]. apply run_reaches. repeat constructor; done.
Qed.
Lemma subscribed_entry : mux_entry (registry (world subscribed)) room1 addr1 = Some "s1".
Proof. vm_compute. reflexivity. Qed.
Lemma handed_over_entry : getSIDByIDs (clients (registry (world handed_over))) addr1 room1 = Ok (Some "s2").
Proof. vm_compute. reflexivity. Qed.
(** the first connection owns the address with a subscription; after the join nobody has one *)
Lemma address_has_one_owner_witness :
  (∃ sub, subscription_in (registry (world subscribed)) "s1" room1 = Some sub ∧ routingAddress sub = addr1) ∧
  ∀ sid sub, subscription_in (registry (world handed_over)) sid room1 = Some sub → routingAddress sub ≠ addr1.
Proof.
  destruct handover_reached as [H1 H2]. split.
  - apply (address_has_one_owner config start subscribed room1 addr1 eq_refl eq_refl H1). exact subscribed_entry.
  - intros sid sub Hs Ha. destruct (address_has_one_owner config start handed_over room1 addr1 eq_refl eq_refl H2) as (_ & _ & H3).
    by pose proof (H3 _ _ _ Hs Ha handed_over_entry).
Defined.
End handover.
