(* ===== verification/MuxConnection.v ===== *)
(** * The client's multiplexed connection ([service/src/transports/multiplexedRelayConnection.ts])

    One authenticated socket carries the rooms of a device. Every room is an object with an immutable peer, a lease that is
    renewed before it ends, and a handler for what arrives; a room transport is the same object seen by one conversation.
    Every [await] is a suspension ([EventLoop]): the relay's acknowledgements, the proofs of the device and the decisions of
    the handlers come later, in any order, after the socket may have reconnected.

    Counters and hooks for tests are not modelled, nor [document] and [window] beyond the events they report. An [ApiError] is
    known by what the code reads of it: [api_status], [retry_after]. *)
From S2P Require Import Prelude Json VersionFloor EventLoop.

(* service/src/transports/multiplexedRelayConnection.ts:11-13 limits: MUX_RELAY_MAX_ROOMS, RENEWAL_EARLY_REFRESH_MS *)
Definition MUX_RELAY_MAX_ROOMS : nat := 128.
Definition RENEWAL_EARLY_REFRESH_MS : Z := 60000.
Definition MUX_RELAY_PROTOCOL_VERSION : jsval := JNum (NInt 1).
Definition ROOM_CALL_SIGNAL_V2_FEATURE : string := "room-call-signal-v2".
(* service/src/transports/multiplexedRelayConnection.ts:20-20 ALLOWED_FEATURES *)
Definition ALLOWED_FEATURES : list string := ["join-introduction-v1"; "room-message-v1"; ROOM_CALL_SIGNAL_V2_FEATURE].
(* service/src/transports/multiplexedRelayConnection.ts:21-24 strictFeatures *)
Definition strictFeatures (features : list string) : res (list string) :=
  throw_if (negb (forallb (includes ALLOWED_FEATURES) features) || negb (bool_decide (NoDup features))) "Unsupported mux protocol feature.";;
  mret features.

(** A room and the transport that is bound to it; a set of features is a list of its members. *)
(* service/src/transports/multiplexedRelayConnection.ts:15-16 RoomConfig, RoomState *)
Record RoomState := {
  roomId : string; peerRoutingAddress : string; localRoutingAddress : string; controlCapability : string; routingProof : string;
  protocolFeatures : list string; handler : bool; nonce : option string; expiresAt : option Z; peerFeatures : list string;
  renewalTimer : option nat; joining : option nat; renewalFailures : Z; renewalBlocked : bool; nextRenewalAt : option Z;
  waitingForNetwork : bool; closed : bool;
  m_closed : bool; authenticatedMessageVersionFloor : Z; deliveryStatusHandler : bool }.
Definition new_room (room peer : string) : RoomState := {|
  roomId := room; peerRoutingAddress := peer; localRoutingAddress := ""; controlCapability := ""; routingProof := "";
  protocolFeatures := []; handler := false; nonce := None; expiresAt := None; peerFeatures := []; renewalTimer := None; joining := None;
  renewalFailures := 0; renewalBlocked := false; nextRenewalAt := None; waitingForNetwork := false; closed := false;
  m_closed := false; authenticatedMessageVersionFloor := 0; deliveryStatusHandler := false |}.
(** the fields that change together *)
Definition with_authorization (local capability proof : string) (r : RoomState) : RoomState := {|
  roomId := roomId r; peerRoutingAddress := peerRoutingAddress r; localRoutingAddress := local; controlCapability := capability; routingProof := proof;
  protocolFeatures := protocolFeatures r; handler := handler r; nonce := nonce r; expiresAt := expiresAt r; peerFeatures := peerFeatures r;
  renewalTimer := renewalTimer r; joining := joining r; renewalFailures := renewalFailures r; renewalBlocked := renewalBlocked r;
  nextRenewalAt := nextRenewalAt r; waitingForNetwork := waitingForNetwork r; closed := closed r;
  m_closed := m_closed r; authenticatedMessageVersionFloor := authenticatedMessageVersionFloor r; deliveryStatusHandler := deliveryStatusHandler r |}.
Definition with_lease (n : option string) (e : option Z) (features : list string) (r : RoomState) : RoomState := {|
  roomId := roomId r; peerRoutingAddress := peerRoutingAddress r; localRoutingAddress := localRoutingAddress r; controlCapability := controlCapability r;
  routingProof := routingProof r; protocolFeatures := protocolFeatures r; handler := handler r; nonce := n; expiresAt := e; peerFeatures := features;
  renewalTimer := renewalTimer r; joining := joining r; renewalFailures := renewalFailures r; renewalBlocked := renewalBlocked r;
  nextRenewalAt := nextRenewalAt r; waitingForNetwork := waitingForNetwork r; closed := closed r;
  m_closed := m_closed r; authenticatedMessageVersionFloor := authenticatedMessageVersionFloor r; deliveryStatusHandler := deliveryStatusHandler r |}.
Definition with_renewal (timer : option nat) (failures : Z) (blocked : bool) (next : option Z) (waiting : bool) (r : RoomState) : RoomState := {|
  roomId := roomId r; peerRoutingAddress := peerRoutingAddress r; localRoutingAddress := localRoutingAddress r; controlCapability := controlCapability r;
  routingProof := routingProof r; protocolFeatures := protocolFeatures r; handler := handler r; nonce := nonce r; expiresAt := expiresAt r;
  peerFeatures := peerFeatures r; renewalTimer := timer; joining := joining r; renewalFailures := failures; renewalBlocked := blocked;
  nextRenewalAt := next; waitingForNetwork := waiting; closed := closed r;
  m_closed := m_closed r; authenticatedMessageVersionFloor := authenticatedMessageVersionFloor r; deliveryStatusHandler := deliveryStatusHandler r |}.
Definition with_use (features : list string) (h : bool) (j : option nat) (c : bool) (r : RoomState) : RoomState := {|
  roomId := roomId r; peerRoutingAddress := peerRoutingAddress r; localRoutingAddress := localRoutingAddress r; controlCapability := controlCapability r;
  routingProof := routingProof r; protocolFeatures := features; handler := h; nonce := nonce r; expiresAt := expiresAt r;
  peerFeatures := peerFeatures r; renewalTimer := renewalTimer r; joining := j; renewalFailures := renewalFailures r;
  renewalBlocked := renewalBlocked r; nextRenewalAt := nextRenewalAt r; waitingForNetwork := waitingForNetwork r; closed := c;
  m_closed := m_closed r; authenticatedMessageVersionFloor := authenticatedMessageVersionFloor r; deliveryStatusHandler := deliveryStatusHandler r |}.
Definition with_manager (c : bool) (floor : Z) (status : bool) (r : RoomState) : RoomState := {|
  roomId := roomId r; peerRoutingAddress := peerRoutingAddress r; localRoutingAddress := localRoutingAddress r; controlCapability := controlCapability r;
  routingProof := routingProof r; protocolFeatures := protocolFeatures r; handler := handler r; nonce := nonce r; expiresAt := expiresAt r;
  peerFeatures := peerFeatures r; renewalTimer := renewalTimer r; joining := joining r; renewalFailures := renewalFailures r;
  renewalBlocked := renewalBlocked r; nextRenewalAt := nextRenewalAt r; waitingForNetwork := waitingForNetwork r; closed := closed r;
  m_closed := c; authenticatedMessageVersionFloor := floor; deliveryStatusHandler := status |}.
Definition set_joining (j : option nat) (r : RoomState) : RoomState := with_use (protocolFeatures r) (handler r) j (closed r) r.
Definition set_timer (t : option nat) (r : RoomState) : RoomState :=
  with_renewal t (renewalFailures r) (renewalBlocked r) (nextRenewalAt r) (waitingForNetwork r) r.
Definition no_lease (r : RoomState) : RoomState := with_lease None None [] r.

(** What a handler of envelopes decides; a plain [true] or [false] is an acceptance or a retry. *)
(* service/src/core/contracts.ts:24-27 InboundTransportDecision *)
Inductive Decision := accepted | retryable | permanent_rejection (reason : string) | handler_failed.
(** An acknowledgement of the relay, or the end of the wait for it. *)
Inductive AckReply := acked (v : jsval) | unanswered.
(** A proof of the device, and what the others have answered so far, by the number of the request: nothing here is written by
    the connection. *)
(* service/src/devices/trustProtocol.ts:20-20 DeviceProofCarrier *)
Record DeviceProofCarrier := { deviceAuthorizationProof : jsval; proofNonce : string }.
Record Arrivals := {
  acks : gmap nat AckReply; proofs : gmap nat (res DeviceProofCarrier); decisions : gmap nat Decision; connects : gmap nat (res unit) }.
(** What the connection does that others see. A delivery to a handler records the room as it is then, the generation of the
    socket, the time, and what is delivered: the logical channel and the frame. *)
Inductive Action :=
| opened (id : string)
| sent (request : nat) (event : string) (payload : jsval)
| proof_asked (request : nat) (operation : string) (resource : jsval)
| delivered (call : nat) (r : RoomState) (generation : option string) (time : Z) (channel : string) (frame : list (string * jsval))
| answered (frame : nat) (response : jsval)
| status_told (r : RoomState) (id status : string).

(** the rest of the connection's fields, its socket, and what has arrived *)
(* service/src/transports/multiplexedRelayConnection.ts:27-37 MultiplexedRelayConnection, fields *)
Record Connection := {
  socketId : option string; online : bool; proofProvider : bool; authenticatedGeneration : option string; authenticating : option nat;
  disposed : bool; rooms : list (string * nat); objects : gmap nat RoomState; timers : gmap nat (Z * nat); now : Z; counter : nat; trace : list Action;
  outcomes : gmap nat (res unit); arrived : Arrivals }.
Definition connected (w : Connection) : bool := bool_decide (is_Some (socketId w)).
Definition with_socket (id auth : option string) (running : option nat) (gone : bool) (w : Connection) : Connection := {|
  socketId := id; online := online w; proofProvider := proofProvider w; authenticatedGeneration := auth; authenticating := running;
  disposed := gone; rooms := rooms w; objects := objects w; timers := timers w; now := now w; counter := counter w; trace := trace w;
  outcomes := outcomes w; arrived := arrived w |}.
Definition with_rooms (l : list (string * nat)) (o : gmap nat RoomState) (w : Connection) : Connection := {|
  socketId := socketId w; online := online w; proofProvider := proofProvider w; authenticatedGeneration := authenticatedGeneration w;
  authenticating := authenticating w; disposed := disposed w; rooms := l; objects := o; timers := timers w; now := now w; counter := counter w;
  trace := trace w; outcomes := outcomes w; arrived := arrived w |}.
Definition with_timers (t : gmap nat (Z * nat)) (w : Connection) : Connection := {|
  socketId := socketId w; online := online w; proofProvider := proofProvider w; authenticatedGeneration := authenticatedGeneration w;
  authenticating := authenticating w; disposed := disposed w; rooms := rooms w; objects := objects w; timers := t; now := now w; counter := counter w;
  trace := trace w; outcomes := outcomes w; arrived := arrived w |}.
Definition with_provider (b : bool) (w : Connection) : Connection := {|
  socketId := socketId w; online := online w; proofProvider := b; authenticatedGeneration := authenticatedGeneration w;
  authenticating := authenticating w; disposed := disposed w; rooms := rooms w; objects := objects w; timers := timers w; now := now w;
  counter := counter w; trace := trace w; outcomes := outcomes w; arrived := arrived w |}.
Definition with_outcomes (o : gmap nat (res unit)) (w : Connection) : Connection := {|
  socketId := socketId w; online := online w; proofProvider := proofProvider w; authenticatedGeneration := authenticatedGeneration w;
  authenticating := authenticating w; disposed := disposed w; rooms := rooms w; objects := objects w; timers := timers w; now := now w;
  counter := counter w; trace := trace w; outcomes := o; arrived := arrived w |}.
Definition traced (a : Action) (w : Connection) : Connection := {|
  socketId := socketId w; online := online w; proofProvider := proofProvider w; authenticatedGeneration := authenticatedGeneration w;
  authenticating := authenticating w; disposed := disposed w; rooms := rooms w; objects := objects w; timers := timers w; now := now w;
  counter := counter w; trace := trace w ++ [a]; outcomes := outcomes w; arrived := arrived w |}.
Definition counted (w : Connection) : Connection := {|
  socketId := socketId w; online := online w; proofProvider := proofProvider w; authenticatedGeneration := authenticatedGeneration w;
  authenticating := authenticating w; disposed := disposed w; rooms := rooms w; objects := objects w; timers := timers w; now := now w;
  counter := S (counter w); trace := trace w; outcomes := outcomes w; arrived := arrived w |}.
(** time passes, the network comes and goes, and answers arrive *)
Definition elapsed (on : bool) (t : Z) (a : Arrivals) (w : Connection) : Connection := {|
  socketId := socketId w; online := on; proofProvider := proofProvider w; authenticatedGeneration := authenticatedGeneration w;
  authenticating := authenticating w; disposed := disposed w; rooms := rooms w; objects := objects w; timers := timers w; now := t;
  counter := counter w; trace := trace w; outcomes := outcomes w; arrived := a |}.

Section connection.
(** [(error as ApiError).status] and a finite [retryAfterMs] of what a rejected proof throws; [Math.random() * 2^53] at each draw;
    and the rounds a loop over the live map of rooms may take. *)
Context (api_status : string → option Z) (retry_after : string → option Z) (random : nat → Z) (bound : nat).
Notation C := Connection.
Notation A := (async C).

(** ** Rooms, timers and promises *)
Definition fresh : M C nat := λ w, (Ok (counter w), counted w).
Definition tell (a : Action) : M C unit := modify (traced a).
Definition date_now : M C Z := gets now.
Definition room_named (roomId : string) (w : C) : option nat := snd <$> js_find (λ e, String.eqb e.1 roomId) (rooms w).
(** the object of a room, and a change of its fields *)
Definition this (n : nat) : M C RoomState := observe (λ w, require (objects w !! n) "unreachable").
Definition edit (n : nat) (f : RoomState → RoomState) : M C unit := modify (λ w, with_rooms (rooms w) (alter f n (objects w)) w).
(** [if (room.renewalTimer) clearTimeout(room.renewalTimer)]; [setTimeout] for the room *)
Definition clear_timer (n : nat) : M C unit :=
  modify (λ w, match objects w !! n ≫= renewalTimer with Some t => with_timers (delete t (timers w)) w | None => w end).
Definition set_timeout (n : nat) (delay : Z) : M C nat := t ← fresh; modify (λ w, with_timers (<[t := (now w + delay, n)]> (timers w)) w);; mret t.
#[export] Instance connection_promises : Promises C := {|
  claim_promise := fresh;
  settle_promise p r := modify (λ w, with_outcomes (<[p := r]> (outcomes w)) w);
  promise_outcome p w := outcomes w !! p |}.
(** [operation.catch(() => undefined)] *)
Definition quietly (m : A unit) : A unit := try_ m (λ _, mret tt).

(** ** Requests *)
(** an error that the relay itself answered: the message of a [MuxRelayOperationError] *)
(* service/src/transports/multiplexedRelayConnection.ts:519-519 MuxRelayOperationError *)
Definition MuxRelayOperationError (msg : string) : string := "MuxRelayOperationError: " +:+ msg.
(* service/src/transports/multiplexedRelayConnection.ts:506-516 emitAck *)
Definition emitAck (event : string) (payload : jsval) : A jsval :=
  n ← sync fresh;
  sync (tell (sent n event payload));;
  wait (λ w, bool_decide (is_Some (acks (arrived w) !! n)));;
  reply ← sync (gets (λ w, acks (arrived w) !! n));
  match reply with
  | Some (acked response) =>
      match response with
      | JObj _ | JArr _ =>
          let error := oprop response "error" in
          if truthy error then fail (MuxRelayOperationError (match error with JStr e => e | _ => "Mux relay operation rejected." end)) else mret response
      | _ => fail "Mux relay operation rejected."
      end
  | _ => fail "Mux relay acknowledgement timed out."
  end.
(** [await this.proofProvider!.acquire(operation, resource)] *)
Definition acquire (operation : string) (resource : jsval) : A DeviceProofCarrier :=
  p ← sync (gets proofProvider);
  if negb p then fail "TypeError" else
  n ← sync fresh;
  sync (tell (proof_asked n operation resource));;
  wait (λ w, bool_decide (is_Some (proofs (arrived w) !! n)));;
  r ← sync (gets (λ w, default (Err "unreachable") (proofs (arrived w) !! n)));
  sync (lift r).
(** [{ ...proof, proofOperation }] *)
Definition proven (proof : DeviceProofCarrier) (operation : string) : list (string * jsval) :=
  [("deviceAuthorizationProof", deviceAuthorizationProof proof); ("proofNonce", JStr (proofNonce proof)); ("proofOperation", JStr operation)].
(* service/src/transports/multiplexedRelayConnection.ts:488-504 waitForConnect *)
Definition waitForConnect : A unit :=
  c ← sync (gets connected);
  if (c : bool) then mret tt else
  n ← sync fresh;
  wait (λ w, bool_decide (is_Some (connects (arrived w) !! n)));;
  r ← sync (gets (λ w, default (Err "unreachable") (connects (arrived w) !! n)));
  sync (lift r).
(** the id of the socket when it is a non-empty string *)
Definition generation_or (msg : string) : A string :=
  id ← sync (gets socketId);
  match id with Some g => if nonempty g then mret g else fail msg | None => fail msg end.

(** ** Authentication *)
(* service/src/transports/multiplexedRelayConnection.ts:205-210 ensureAuthenticated, the operation *)
Definition authenticate (generation : string) : A unit :=
  proof ← acquire "relay:connect" (JObj [("connectionGeneration", JStr generation)]);
  response ← emitAck "mux-authenticate" (JObj (("connectionGeneration", JStr generation) :: proven proof "relay:connect"));
  id ← sync (gets socketId);
  if negb (bool_decide (oprop response "status" = JStr "authenticated")) || negb (bool_decide (oprop response "connectionGeneration" = JStr generation)) ||
     negb (bool_decide (id = Some generation)) then fail "Mux device authentication rejected." else
  sync (modify (λ w, with_socket (socketId w) (Some generation) (authenticating w) (disposed w) w)).
Definition set_authenticating (p : option nat) : M C unit := modify (λ w, with_socket (socketId w) (authenticatedGeneration w) p (disposed w) w).
(* service/src/transports/multiplexedRelayConnection.ts:198-213 ensureAuthenticated *)
Definition ensureAuthenticated : A unit :=
  p ← sync (gets proofProvider);
  if negb p then fail "Mux device authorization is unavailable." else
  awaited waitForConnect;;
  generation ← generation_or "Mux connection generation is unavailable.";
  auth ← sync (gets authenticatedGeneration);
  if bool_decide (auth = Some generation) then mret tt else
  running ← sync (gets authenticating);
  done ← match running with
         | Some q => await_promise q;; sync (gets (λ w, bool_decide (authenticatedGeneration w = socketId w)))
         | None => mret false
         end;
  if (done : bool) then mret tt else
  operation ← start_promise (authenticate generation);
  sync (set_authenticating (Some operation));;
  finally_async (await_promise operation)
    (now ← sync (gets authenticating); if bool_decide (now = Some operation) then sync (set_authenticating None) else mret tt).

(** ** Renewal *)
(* service/src/transports/multiplexedRelayConnection.ts:401-408 scheduleRenewal *)
Definition scheduleRenewal (n : nat) : M C unit :=
  clear_timer n;;
  room ← this n;
  t ← date_now;
  timer ← set_timeout n (Z.max 1000 (default t (expiresAt room) - t - 60000));
  edit n (set_timer (Some timer)).
(* service/src/transports/multiplexedRelayConnection.ts:458-466 scheduleRetry *)
Definition scheduleRetry (n : nat) (delay : Z) : M C unit :=
  clear_timer n;;
  t ← date_now;
  let retryDelayMs := Z.max 1000 delay in
  edit n (λ r, with_renewal (renewalTimer r) (renewalFailures r) (renewalBlocked r) (Some (t + retryDelayMs)) false r);;
  timer ← set_timeout n retryDelayMs;
  edit n (set_timer (Some timer)).
(* service/src/transports/multiplexedRelayConnection.ts:521-527 isTerminalRenewalFailure *)
Definition isTerminalRenewalFailure (error : string) : bool :=
  String.eqb error (MuxRelayOperationError "Room subscription rejected.") ||
  bool_decide (api_status error = Some 401) || bool_decide (api_status error = Some 403) || bool_decide (api_status error = Some 409).
(** [Math.round(base * (0.8 + Math.random() * 0.4))], up to the rounding of the floating-point product *)
Definition jittered (base u : Z) : Z := (2 * base * (4 * 2 ^ 53 + 2 * u) + 5 * 2 ^ 53) / (2 * (5 * 2 ^ 53)).
(* service/src/transports/multiplexedRelayConnection.ts:529-534 retryDelay *)
Definition retryDelay (failures : Z) (error : string) (u : Z) : Z :=
  let base := Z.min (5 * 60000) (2000 * 2 ^ Z.min (Z.max 0 (failures - 1)) 7) in
  Z.max (jittered base u) (default 0 (retry_after error)).

(** ** Subscription *)
(** the conditions that the handle is still the room's, and that the socket is still that of the operation *)
Definition gone (n : nat) (w : C) : bool :=
  disposed w || match objects w !! n with Some r => closed r || negb (bool_decide (room_named (roomId r) w = Some n)) | None => true end.
Definition room_resource (room : RoomState) (generation : string) : jsval :=
  JObj [("conversationId", JStr (roomId room)); ("routingAddress", JStr (localRoutingAddress room));
        ("peerRoutingAddress", JStr (peerRoutingAddress room)); ("connectionGeneration", JStr generation)].
(** the members of [ALLOWED_FEATURES] that a relay's answer names; a set has each once *)
Definition peer_features (v : jsval) : list string :=
  match v with
  | JArr l => remove_dups (filter (λ s, includes ALLOWED_FEATURES s = true) (omap (λ x, match x with JStr s => Some s | _ => None end) l))
  | _ => []
  end.
Definition moved_on (n : nat) (generation : string) (w : C) : bool := gone n w || negb (bool_decide (socketId w = Some generation)).
Definition changed_during_renewal : string := "Mux room authorization changed during renewal.".
(* service/src/transports/multiplexedRelayConnection.ts:224-235 subscribeState, the request *)
Definition room_subscription (room : RoomState) (generation : string) (proof : DeviceProofCarrier) : jsval :=
  JObj ([("version", MUX_RELAY_PROTOCOL_VERSION); ("roomId", JStr (roomId room)); ("routingAddress", JStr (localRoutingAddress room));
         ("peerRoutingAddress", JStr (peerRoutingAddress room)); ("controlCapability", JStr (controlCapability room));
         ("routingProof", JStr (routingProof room)); ("connectionGeneration", JStr generation);
         ("protocolFeatures", JArr (JStr <$> protocolFeatures room))] ++ proven proof "relay:subscribe").
(* service/src/transports/multiplexedRelayConnection.ts:245-251 subscribeState, the granted lease *)
Definition granted (n : nat) (x : string) (expires : Z) (features : list string) : M C unit :=
  edit n (with_lease (Some x) (Some expires) features);;
  edit n (λ r, with_renewal (renewalTimer r) 0 (renewalBlocked r) None false r);;
  scheduleRenewal n.
(* service/src/transports/multiplexedRelayConnection.ts:236-253 subscribeState, after the response *)
Definition subscribed (n : nat) (generation : string) (room : RoomState) (response : jsval) : A unit :=
  changed ← sync (gets (moved_on n generation));
  if (changed : bool) then
    match oprop response "subscriptionNonce" with
    | JStr nonce => quietly (emitAck "mux-unsubscribe" (JObj [("roomId", JStr (roomId room)); ("connectionGeneration", JStr generation);
                                                             ("subscriptionNonce", JStr nonce)]);; mret tt)
    | _ => mret tt
    end;;
    fail changed_during_renewal
  else
  if negb (bool_decide (oprop response "status" = JStr "subscribed")) || negb (bool_decide (oprop response "roomId" = JStr (roomId room))) ||
     negb (bool_decide (oprop response "connectionGeneration" = JStr generation)) then fail "Mux room subscription rejected." else
  match oprop response "subscriptionNonce", js_safe_int (oprop response "expiresAt") with
  | JStr nonce, Some expires =>
      sync (granted n nonce expires (peer_features (oprop response "peerFeatures")));;
      emitAck "mux-mailbox-replay" (JObj [("version", MUX_RELAY_PROTOCOL_VERSION); ("roomId", JStr (roomId room));
                                          ("connectionGeneration", JStr generation); ("subscriptionNonce", JStr nonce)]);;
      mret tt
  | _, _ => fail "Mux room subscription rejected."
  end.
(* service/src/transports/multiplexedRelayConnection.ts:215-235 subscribeState *)
Definition subscribeState (n : nat) : A unit :=
  g ← sync (gets (gone n));
  if (g : bool) then fail "Mux room handle is closed." else
  awaited ensureAuthenticated;;
  generation ← generation_or "Mux connection generation changed.";
  auth ← sync (gets authenticatedGeneration);
  if negb (bool_decide (auth = Some generation)) then fail "Mux connection generation changed." else
  room ← sync (this n);
  proof ← acquire "relay:subscribe" (room_resource room generation);
  changed ← sync (gets (moved_on n generation));
  if (changed : bool) then fail changed_during_renewal else
  room ← sync (this n);
  response ← emitAck "mux-subscribe" (room_subscription room generation proof);
  subscribed n generation room response.
(** what a failed renewal leaves *)
(* service/src/transports/multiplexedRelayConnection.ts:439-453 renewRoom, the rejection *)
Definition renewal_failed (n : nat) (error : string) : M C unit :=
  if isTerminalRenewalFailure error then
    edit n (λ r, with_renewal (renewalTimer r) (renewalFailures r) true None false r);;
    clear_timer n;;
    edit n (set_timer None);;
    edit n no_lease
  else
    edit n (λ r, with_renewal (renewalTimer r) (renewalFailures r + 1) (renewalBlocked r) (nextRenewalAt r) (waitingForNetwork r) r);;
    room ← this n;
    draw ← fresh;
    scheduleRetry n (retryDelay (renewalFailures room) error (random draw)).
(* service/src/transports/multiplexedRelayConnection.ts:426-456 renewRoom *)
Definition renewRoom (n : nat) (force : bool) : A unit :=
  g ← sync (gets (gone n));
  room ← sync (this n);
  t ← sync date_now;
  on ← sync (gets online);
  if g || renewalBlocked room || negb (nonempty (localRoutingAddress room)) || negb (nonempty (controlCapability room)) ||
     negb (nonempty (routingProof room)) then mret tt else
  let early := match nextRenewalAt room with Some next => t <? next | None => false end in
  if early then
    match renewalTimer room, nextRenewalAt room with
    | None, Some next => sync (scheduleRetry n (next - t))
    | _, _ => mret tt
    end
  else
  if negb force && match expiresAt room with Some e => t <? e | None => false end then mret tt else
  if negb on then sync (scheduleRetry n 30000;; edit n (λ r, with_renewal (renewalTimer r) (renewalFailures r) (renewalBlocked r) (nextRenewalAt r) true r)) else
  match joining room with
  | Some p => await_promise p
  | None =>
      operation ← sync (gets counter); (* the promise that the next statement makes *)
      p ← start_promise (finally_async (awaited (try_ (awaited (subscribeState n)) (λ e, sync (renewal_failed n e))))
             (now ← sync (this n); if bool_decide (joining now = Some operation) then sync (edit n (set_joining None)) else mret tt));
      sync (edit n (set_joining (Some p)));;
      await_promise p
  end.

(** ** Rooms of the connection *)
Definition closed_handle : string := "Mux room handle is closed.".
(* service/src/transports/multiplexedRelayConnection.ts:482-486 requireRoom *)
Definition requireRoom (roomId : string) : M C nat := observe (λ w, require (room_named roomId w) closed_handle).
(* service/src/transports/multiplexedRelayConnection.ts:144-148 createRoom *)
Definition createRoom (roomId peer : string) : M C nat :=
  w ← gets id;
  lift (throw_if (bool_decide (is_Some (room_named roomId w))) "A mux room handle already exists for this room.");;
  lift (throw_if (MUX_RELAY_MAX_ROOMS <=? length (rooms w))%nat "Mux room subscription limit reached.");;
  n ← fresh;
  modify (λ w, with_rooms (rooms w ++ [(roomId, n)]) (<[n := new_room roomId peer]> (objects w)) w);;
  mret n.
(* service/src/transports/multiplexedRelayConnection.ts:63-66 forRoom *)
Definition forRoom (roomId peer : string) : M C nat :=
  lift (throw_if (negb (nonempty roomId) || negb (nonempty peer)) "A mux room requires immutable room and peer routing IDs.");;
  createRoom roomId peer.
(* service/src/transports/multiplexedRelayConnection.ts:150-153 setHandler *)
Definition setHandler (roomId : string) (h : bool) : M C unit :=
  n ← requireRoom roomId; edit n (λ r, with_use (protocolFeatures r) h (joining r) (closed r) r).
(* service/src/transports/multiplexedRelayConnection.ts:159-163 setFeatures *)
Definition setFeatures (roomId : string) (features : list string) : M C unit :=
  n ← requireRoom roomId;
  l ← lift (strictFeatures (filter (λ f, f ≠ "join-introduction-v1") features));
  edit n (λ r, with_use l (handler r) (joining r) (closed r) r).
(* service/src/transports/multiplexedRelayConnection.ts:196-196 peerSupportsFeature *)
Definition peerSupportsFeature (roomId feature : string) : M C bool :=
  n ← requireRoom roomId; room ← this n; mret (includes (peerFeatures room) feature).
(* service/src/transports/multiplexedRelayConnection.ts:84-86 currentGeneration *)
Definition currentGeneration (w : C) : option string :=
  if connected w && bool_decide (authenticatedGeneration w = socketId w) then socketId w else None.
(* service/src/transports/multiplexedRelayConnection.ts:79-82 connectionState *)
Definition connectionState (w : C) : string := if disposed w then "stopped" else if connected w then "connected" else "connecting".
(* service/src/transports/multiplexedRelayConnection.ts:68-68 start *)
Definition start : A unit := d ← sync (gets disposed); sync (lift (throw_if d "Mux relay connection is closed.")).
(* service/src/transports/multiplexedRelayConnection.ts:165-179 subscribe *)
Definition subscribe (roomId local capability : string) (proof : option string) : A unit :=
  n ← sync (requireRoom roomId);
  room ← sync (this n);
  if closed room then fail closed_handle else
  match proof with
  | None => fail "Mux room authorization is incomplete."
  | Some proof =>
      if negb (nonempty local) || negb (nonempty capability) || negb (nonempty proof) then fail "Mux room authorization is incomplete." else
      sync (edit n (with_authorization local capability proof);; edit n (λ r, with_renewal (renewalTimer r) 0 false None false r));;
      match joining room with
      | Some p => await_promise p
      | None =>
          p ← start_promise (subscribeState n);
          sync (edit n (set_joining (Some p)));;
          finally_async (await_promise p) (sync (edit n (set_joining None)))
      end
  end.
(** the socket is the authenticated one of [generation] and the room holds a nonce: [(generation, nonce)] *)
Definition active_lease (n : nat) (w : C) : option (string * string) :=
  match socketId w, objects w !! n ≫= nonce with
  | Some g, Some x => if connected w && nonempty g && bool_decide (authenticatedGeneration w = Some g) && nonempty x then Some (g, x) else None
  | _, _ => None
  end.
(* service/src/transports/multiplexedRelayConnection.ts:181-194 unsubscribe *)
Definition unsubscribe (roomId : string) : A unit :=
  o ← sync (gets (room_named roomId));
  match o with
  | None => mret tt
  | Some n =>
      sync (edit n (λ r, with_use (protocolFeatures r) (handler r) (joining r) true r);;
            clear_timer n;;
            edit n (λ r, with_renewal None (renewalFailures r) (renewalBlocked r) None false r));;
      lease ← sync (gets (active_lease n));
      match lease with
      | Some (generation, nonce) =>
          emitAck "mux-unsubscribe" (JObj [("roomId", JStr roomId); ("connectionGeneration", JStr generation); ("subscriptionNonce", JStr nonce)]);; mret tt
      | None => mret tt
      end;;
      sync (modify (λ w, with_rooms (filter (λ e, e.1 ≠ roomId) (rooms w)) (objects w) w))
  end.
(** what a room's lease leaves behind when the socket goes *)
Definition drop_lease (n : nat) : M C unit := clear_timer n;; edit n (λ r, no_lease (set_timer None r)).
Fixpoint each (f : nat → M C unit) (l : list nat) : M C unit := match l with [] => mret tt | n :: l' => f n;; each f l' end.
(* service/src/transports/multiplexedRelayConnection.ts:41-50 disconnect handler *)
Definition on_disconnect : M C unit :=
  modify (λ w, with_socket None None (authenticating w) (disposed w) w);;
  l ← gets (λ w, (rooms w).*2);
  each drop_lease l.
(* service/src/transports/multiplexedRelayConnection.ts:70-77 close *)
Fixpoint unsubscribe_all (l : list string) : A unit :=
  match l with [] => mret tt | roomId :: l' => awaited (quietly (awaited (unsubscribe roomId)));; unsubscribe_all l' end.
Definition close : A unit :=
  d ← sync (gets disposed);
  if (d : bool) then mret tt else
  sync (modify (λ w, with_socket (socketId w) (authenticatedGeneration w) (authenticating w) true w));;
  l ← sync (gets (λ w, (rooms w).*1));
  unsubscribe_all l;;
  sync (c ← gets connected; if (c : bool) then on_disconnect else mret tt).

(** ** Loops over the rooms

    A JavaScript map is iterated live: the next entry is the first one inserted after the last visited, and rooms are numbered
    in the order of their insertion. *)
Definition next_room (last : option nat) (w : C) : option nat :=
  snd <$> js_find (λ e, match last with Some m => (m <? e.2)%nat | None => true end) (rooms w).
Fixpoint over_rooms (rounds : nat) (visit : nat → A unit) (last : option nat) : A unit :=
  match rounds with
  | O => hang
  | S rounds => o ← sync (gets (next_room last));
                match o with Some n => visit n;; over_rooms rounds visit (Some n) | None => mret tt end
  end.
(* service/src/transports/multiplexedRelayConnection.ts:414-423 refreshRooms, the loop's body *)
Definition refresh (networkRestored : bool) (n : nat) : A unit :=
  room ← sync (this n);
  t ← sync date_now;
  let networkRetry := networkRestored && waitingForNetwork room in
  (if networkRetry then sync (clear_timer n;; edit n (λ r, with_renewal None (renewalFailures r) (renewalBlocked r) None false r)) else mret tt);;
  if networkRetry || match expiresAt room with Some e => e <=? t + RENEWAL_EARLY_REFRESH_MS | None => true end then awaited (renewRoom n true) else mret tt.
(* service/src/transports/multiplexedRelayConnection.ts:410-424 refreshRooms *)
Definition refreshRooms (networkRestored : bool) : A unit :=
  skip ← sync (gets (λ w, disposed w || negb (online w)));
  if (skip : bool) then mret tt else over_rooms bound (refresh networkRestored) None.
(* service/src/transports/multiplexedRelayConnection.ts:475-478 restoreRooms, the loop's body *)
Definition restore (n : nat) : A unit :=
  room ← sync (this n);
  if negb (nonempty (localRoutingAddress room)) || negb (nonempty (controlCapability room)) || negb (nonempty (routingProof room)) then mret tt else
  awaited (renewRoom n true).
(* service/src/transports/multiplexedRelayConnection.ts:468-480 restoreRooms *)
Definition restoreRooms : A unit :=
  sync (modify (λ w, with_socket (socketId w) None (authenticating w) (disposed w) w));;
  skip ← sync (gets (λ w, disposed w || bool_decide (rooms w = []) || negb (proofProvider w)));
  if (skip : bool) then mret tt else
  quietly (awaited ensureAuthenticated;; over_rooms bound restore None).
(* service/src/transports/multiplexedRelayConnection.ts:51-51 connect handler *)
Definition on_connect (id : string) : A unit :=
  sync (tell (opened id);; modify (λ w, with_socket (Some id) (authenticatedGeneration w) (authenticating w) (disposed w) w));;
  restoreRooms.
(** a timer of a room fires: both kinds renew it *)
Definition fire (timer : nat) : A unit :=
  w ← sync (gets id);
  match timers w !! timer with
  | Some (due, n) => if now w <? due then mret tt else sync (modify (λ w, with_timers (delete timer (timers w)) w));; renewRoom n true
  | None => mret tt
  end.

(** ** Sending *)
Record SendResult := { sr_id : option string; sr_timestamp : option Z; sr_terminalRejection : bool }.
(** the lease is on the authenticated socket of [generation], and has not ended *)
Definition lease_lives (n : nat) (generation : string) (w : C) : bool :=
  bool_decide (authenticatedGeneration w = Some generation) &&
  match objects w !! n with
  | Some r => match nonce r, expiresAt r with Some x, Some e => nonempty x && (now w <? e) | _, _ => false end
  | None => false
  end.
(* service/src/transports/multiplexedRelayConnection.ts:262-278 sendCallSignal *)
Definition sendCallSignal (n : nat) (envelope : jsval) : A SendResult :=
  let required := "An active room subscription is required before call signaling." in
  room ← sync (this n);
  if negb (includes (peerFeatures room) ROOM_CALL_SIGNAL_V2_FEATURE) then
    fail "The peer has not negotiated authenticated room call signaling over the multiplexed relay." else
  awaited ensureAuthenticated;;
  generation ← generation_or required;
  w ← sync (gets id);
  if negb (lease_lives n generation w) || negb (proofProvider w) then fail required else
  room ← sync (this n);
  proof ← acquire "relay:signal" (room_resource room generation);
  response ← emitAck "mux-send-signal" (JObj ([("version", MUX_RELAY_PROTOCOL_VERSION); ("roomId", JStr (roomId room)); ("envelope", envelope)] ++
                                              proven proof "relay:signal"));
  if negb (bool_decide (oprop response "status" = JStr "routed")) || negb (bool_decide (oprop response "roomId" = JStr (roomId room))) then
    fail "Mux relay did not route the encrypted call signal." else
  mret {| sr_id := None; sr_timestamp := None; sr_terminalRejection := false |}.
Definition not_accepted : string := "Mux relay did not durably accept the encrypted envelope.".
(** what the relay answers to a message *)
(* service/src/transports/multiplexedRelayConnection.ts:318-323 sendMuxEnvelope, the response *)
Definition message_result (response : jsval) : res SendResult :=
  let rejected := bool_decide (oprop response "terminalRejection" = JBool true) in
  match oprop response "id", js_safe_int (oprop response "timestamp") with
  | JStr i, Some t =>
      if rejected || bool_decide (oprop response "status" = JStr "stored")
      then Ok {| sr_id := Some i; sr_timestamp := Some t; sr_terminalRejection := rejected |} else Err not_accepted
  | _, _ => Err not_accepted
  end.
(* service/src/transports/multiplexedRelayConnection.ts:297-324 sendMuxEnvelope *)
Definition sendMuxEnvelope (n : nat) (envelope : jsval) : A SendResult :=
  let required := "An active room subscription is required before sending." in
  awaited ensureAuthenticated;;
  generation ← generation_or required;
  w ← sync (gets id);
  if negb (lease_lives n generation w) then fail required else
  if negb (proofProvider w) then fail "Mux device authorization is unavailable." else
  room ← sync (this n);
  proof ← acquire "relay:message" (room_resource room generation);
  response ← emitAck "mux-send-message" (JObj ([("version", MUX_RELAY_PROTOCOL_VERSION); ("roomId", JStr (roomId room)); ("envelope", envelope)] ++
                                               proven proof "relay:message"));
  sync (lift (message_result response)).
(* service/src/transports/multiplexedRelayConnection.ts:255-260 sendEnvelope *)
Definition connection_sendEnvelope (roomId channel : string) (envelope : jsval) (authenticatedFloor : Z) : A SendResult :=
  n ← sync (requireRoom roomId);
  if String.eqb channel "signaling" then sendCallSignal n envelope else
  room ← sync (this n);
  if negb (includes (peerFeatures room) "room-message-v1") && negb (authenticatedFloor =? 1) then
    fail "The peer has not negotiated room-message-v1 over the multiplexed relay." else
  sendMuxEnvelope n envelope.

(** ** Receiving *)
Definition envelope_keys : list string :=
  ["claimId"; "connectionGeneration"; "envelope"; "id"; "recipientRoutingAddress"; "roomId"; "senderRoutingAddress"; "subscriptionNonce"; "timestamp"; "version"].
Definition signal_keys : list string :=
  ["connectionGeneration"; "envelope"; "recipientRoutingAddress"; "roomId"; "senderRoutingAddress"; "subscriptionNonce"; "version"].
Definition room_of (frame : jsval) (w : C) : option nat := match oprop frame "roomId" with JStr id => room_named id w | _ => None end.
(** what the frames of both channels must agree with: the routes, the socket, and a lease that has not ended *)
(* service/src/transports/multiplexedRelayConnection.ts:283-290 acceptCallSignal, the guard *)
Definition frame_current (names : list string) (feature : string) (body : list (string * jsval)) (room : RoomState) (w : C) : bool :=
  handler room && exact_keys body names && bool_decide (get body "version" = MUX_RELAY_PROTOCOL_VERSION) &&
  bool_decide (get body "roomId" = JStr (roomId room)) && bool_decide (get body "recipientRoutingAddress" = JStr (localRoutingAddress room)) &&
  bool_decide (get body "senderRoutingAddress" = JStr (peerRoutingAddress room)) &&
  bool_decide (get body "connectionGeneration" = from_option JStr JUndef (socketId w)) &&
  bool_decide (get body "connectionGeneration" = from_option JStr JUndef (authenticatedGeneration w)) &&
  bool_decide (get body "connectionGeneration" = from_option JStr JUndef (currentGeneration w)) &&
  bool_decide (get body "subscriptionNonce" = from_option JStr JUndef (nonce room)) &&
  match expiresAt room with Some e => now w <? e | None => false end && includes (peerFeatures room) feature &&
  bool_decide (is_Some (as_object (get body "envelope"))).
(* service/src/transports/multiplexedRelayConnection.ts:340-347 acceptEnvelope, the guard *)
Definition message_current (body : list (string * jsval)) (room : RoomState) (w : C) : bool :=
  frame_current envelope_keys "room-message-v1" body room w && is_str (get body "id") && is_str (get body "claimId") &&
  bool_decide (is_Some (js_safe_int (get body "timestamp"))).
(** [await room.handler(...)]: the call and, later, its decision *)
(* service/src/transports/multiplexedRelayConnection.ts:352-356 acceptEnvelope, the handler *)
Definition deliver (room : RoomState) (channel : string) (body : list (string * jsval)) : A Decision :=
  call ← sync fresh;
  sync (w ← gets id; tell (delivered call room (currentGeneration w) (now w) channel body));;
  wait (λ w, bool_decide (is_Some (decisions (arrived w) !! call)));;
  sync (gets (λ w, default retryable (decisions (arrived w) !! call))).
Definition copied (body : list (string * jsval)) (room : RoomState) : list (string * jsval) :=
  [("roomId", JStr (roomId room)); ("id", get body "id"); ("claimId", get body "claimId");
   ("connectionGeneration", get body "connectionGeneration"); ("subscriptionNonce", get body "subscriptionNonce")].
(** the answer to a frame of a room *)
(* service/src/transports/multiplexedRelayConnection.ts:335-363 acceptEnvelope, the answers *)
Definition response_to (d : Decision) (body : list (string * jsval)) (room : RoomState) : jsval :=
  match d with
  | accepted => JObj (("outcome", JStr "accepted") :: copied body room)
  | permanent_rejection reason =>
      JObj (("outcome", JStr "permanent-rejection") :: (if nonempty reason then [("reasonClass", JStr reason)] else []) ++ copied body room)
  | retryable | handler_failed => JObj (("outcome", JStr "retryable") :: copied body room)
  end.
(* service/src/transports/multiplexedRelayConnection.ts:330-334 respond *)
Definition respond (ack : option nat) (response : jsval) : M C unit := match ack with Some k => tell (answered k response) | None => mret tt end.
(* service/src/transports/multiplexedRelayConnection.ts:326-364 acceptEnvelope *)
Definition acceptEnvelope (frame : jsval) (ack : option nat) : A unit :=
  w ← sync (gets id);
  match frame, room_of frame w ≫= λ n, objects w !! n with
  | JObj body, Some room =>
      if negb (message_current body room w) then sync (respond ack (response_to retryable body room)) else
      decision ← deliver room "message" body;
      sync (respond ack (response_to decision body room))
  | _, _ => mret tt
  end.
(* service/src/transports/multiplexedRelayConnection.ts:280-295 acceptCallSignal *)
Definition acceptCallSignal (frame : jsval) : A unit :=
  w ← sync (gets id);
  match frame, room_of frame w ≫= λ n, objects w !! n with
  | JObj body, Some room =>
      if frame_current signal_keys ROOM_CALL_SIGNAL_V2_FEATURE body room w then deliver room "signaling" body;; mret tt else mret tt
  | _, _ => mret tt
  end.
(* service/src/transports/multiplexedRelayConnection.ts:572-572 dispatchDeliveryStatus *)
Definition dispatchDeliveryStatus (n : nat) (id status : string) : M C unit :=
  room ← this n; if deliveryStatusHandler room then tell (status_told room id status) else mret tt.
(* service/src/transports/multiplexedRelayConnection.ts:366-376 acceptDeliveryStatus *)
Definition acceptDeliveryStatus (payload : jsval) : M C unit :=
  match payload with
  | JObj body =>
      if negb (exact_keys body ["id"; "roomId"; "status"; "version"]) || negb (bool_decide (get body "version" = MUX_RELAY_PROTOCOL_VERSION))
      then mret tt else
      match get body "roomId", get body "id", get body "status" with
      | JStr roomId, JStr id, JStr status =>
          if negb (includes ["accepted"; "rejected"] status) then mret tt else
          o ← gets (room_named roomId);
          match o with Some n => dispatchDeliveryStatus n id status | None => mret tt end
      | _, _, _ => mret tt
      end
  | _ => mret tt
  end.
(** features that are all allowed, each once *)
Definition allowed_features (v : jsval) : option (list string) :=
  match v with
  | JArr l => l' ← mapM (λ x, match x with JStr s => if includes ALLOWED_FEATURES s then Some s else None | _ => None end) l;
              if bool_decide (NoDup l') then Some l' else None
  | _ => None
  end.
(* service/src/transports/multiplexedRelayConnection.ts:378-389 acceptPeerSubscription *)
Definition acceptPeerSubscription (payload : jsval) : M C unit :=
  match payload with
  | JObj body =>
      if negb (exact_keys body ["connectionGeneration"; "peerFeatures"; "peerRoutingAddress"; "roomId"; "subscriptionNonce"; "version"]) ||
         negb (bool_decide (get body "version" = MUX_RELAY_PROTOCOL_VERSION)) then mret tt else
      match get body "roomId", get body "connectionGeneration", get body "subscriptionNonce", get body "peerRoutingAddress", allowed_features (get body "peerFeatures") with
      | JStr roomId, JStr generation, JStr x, JStr peer, Some features =>
          w ← gets id;
          match room_named roomId w with
          | Some n =>
              room ← this n;
              if negb (bool_decide (socketId w = Some generation)) || negb (bool_decide (authenticatedGeneration w = Some generation)) ||
                 negb (bool_decide (nonce room = Some x)) || negb (String.eqb peer (peerRoutingAddress room)) ||
                 match expiresAt room with Some e => e <=? now w | None => true end then mret tt
              else edit n (λ r, with_lease (nonce r) (expiresAt r) features r)
          | None => mret tt
          end
      | _, _, _, _, _ => mret tt
      end
  | _ => mret tt
  end.
(* service/src/transports/multiplexedRelayConnection.ts:391-399 acceptRoomSuspended *)
Definition acceptRoomSuspended (payload : jsval) : A unit :=
  match payload with
  | JObj body =>
      if negb (exact_keys body ["connectionGeneration"; "roomId"; "subscriptionNonce"; "version"]) ||
         negb (bool_decide (get body "version" = MUX_RELAY_PROTOCOL_VERSION)) then mret tt else
      match get body "roomId", get body "connectionGeneration", get body "subscriptionNonce" with
      | JStr roomId, JStr generation, JStr x =>
          w ← sync (gets id);
          match room_named roomId w with
          | Some n =>
              room ← sync (this n);
              if negb (bool_decide (socketId w = Some generation)) || negb (bool_decide (authenticatedGeneration w = Some generation)) ||
                 negb (bool_decide (nonce room = Some x)) then mret tt
              else awaited (quietly (awaited (unsubscribe roomId)))
          | None => mret tt
          end
      | _, _, _ => mret tt
      end
  | _ => mret tt
  end.

(** ** The transport of one room *)
(* service/src/transports/multiplexedRelayConnection.ts:546-546 MultiplexedRoomTransportManager.start *)
Definition manager_start (n : nat) : A unit :=
  room ← sync (this n);
  if m_closed room then fail closed_handle else awaited start.
(* service/src/transports/multiplexedRelayConnection.ts:548-548 MultiplexedRoomTransportManager.close *)
Definition manager_close (n : nat) : A unit :=
  room ← sync (this n);
  if m_closed room then mret tt else
  sync (edit n (with_manager true 0 (deliveryStatusHandler room)));;
  awaited (unsubscribe (roomId room)).
(* service/src/transports/multiplexedRelayConnection.ts:549-553 MultiplexedRoomTransportManager.join *)
Definition join (n : nat) (name local capability : string) (proof : option string) : A unit :=
  room ← sync (this n);
  if negb (String.eqb name (roomId room)) || m_closed room then fail "Mux room handle cannot change its bound room." else
  awaited (manager_start n);;
  awaited (subscribe (roomId room) local capability proof).
(* service/src/transports/multiplexedRelayConnection.ts:555-558 MultiplexedRoomTransportManager.sendEnvelope *)
Definition sendEnvelope (n : nat) (channel : string) (envelope : jsval) (recipient : option string) : A SendResult :=
  room ← sync (this n);
  if match recipient with Some r => nonempty r && negb (String.eqb r (peerRoutingAddress room)) | None => false end then
    fail "Mux room recipient does not match its immutable peer route." else
  awaited (connection_sendEnvelope (roomId room) channel envelope (authenticatedMessageVersionFloor room)).
(* service/src/transports/multiplexedRelayConnection.ts:564-567 setAuthenticatedMessageVersionFloor *)
Definition setAuthenticatedMessageVersionFloor (n : nat) (floor : Z) : M C unit :=
  lift (throw_if (negb (floor =? 0) && negb (floor =? 1)) "Invalid authenticated message-version floor.");;
  edit n (λ r, with_manager (m_closed r) floor (deliveryStatusHandler r) r).
(* service/src/transports/multiplexedRelayConnection.ts:571-571 setDeliveryStatusHandler *)
Definition setDeliveryStatusHandler (n : nat) (h : bool) : M C unit :=
  edit n (λ r, with_manager (m_closed r) (authenticatedMessageVersionFloor r) h r).
(* service/src/transports/multiplexedRelayConnection.ts:61-61 setDeviceProofProvider *)
Definition setDeviceProofProvider (b : bool) : M C unit := modify (with_provider b).
End connection.
