(* ===== verification/MuxSafety.v ===== *)
(** * What the client's multiplexed connection keeps

    In everything the connection reaches, whatever the order of the relay's answers, the handlers' decisions, timers, calls and
    reconnections: a room of the connection holds a lease only on the socket that is connected and authenticated; a handler is
    only given frames of the lease the room holds at that moment; and a message is only reported as accepted after the handler
    accepted exactly that frame. The argument is rely and guarantee ([EventLoop.respects]): what a suspended operation learnt is
    kept by everything that runs before it resumes. *)
From S2P Require Import Prelude Json VersionFloor EventLoop MuxConnection.

(** ** The invariant *)
Definition lease_of (r : RoomState) : option string * option Z := (nonce r, expiresAt r).
(** the socket's session is authenticated *)
Definition authenticated (g : string) (w : Connection) : Prop := socketId w = Some g ∧ authenticatedGeneration w = Some g.
Definition lease_held (w : Connection) (r : RoomState) : Prop :=
  lease_of r = (None, None) ∨ ∃ x e g, lease_of r = (Some x, Some e) ∧ authenticated g w.
(** the frame agrees with the room and with the lease it holds at [time] *)
Definition frame_matches (room : RoomState) (generation : option string) (time : Z) (body : list (string * jsval)) : Prop :=
  handler room = true ∧ get body "roomId" = JStr (roomId room) ∧ get body "recipientRoutingAddress" = JStr (localRoutingAddress room) ∧
  get body "senderRoutingAddress" = JStr (peerRoutingAddress room) ∧
  ∃ g x e, generation = Some g ∧ get body "connectionGeneration" = JStr g ∧
    nonce room = Some x ∧ get body "subscriptionNonce" = JStr x ∧ expiresAt room = Some e ∧ time < e.
(** the answer [accepted] was the decision of a handler that was given this frame *)
Definition says_accepted (response : jsval) : Prop := oprop response "outcome" = JStr "accepted".
Definition answer_earned (w : Connection) (response : jsval) : Prop :=
  says_accepted response → ∃ call room g t body, delivered call room g t "message" body ∈ trace w ∧
    decisions (arrived w) !! call = Some accepted ∧ response = response_to accepted body room.
Record honest (w : Connection) : Prop := {
  h_frames call room g t channel body : delivered call room g t channel body ∈ trace w → frame_matches room g t body;
  h_answers k response : answered k response ∈ trace w → answer_earned w response }.
Record sound (w : Connection) : Prop := {
  snd_opened g : socketId w = Some g → opened g ∈ trace w;
  snd_auth g : authenticatedGeneration w = Some g → socketId w = Some g;
  snd_leases name n r : (name, n) ∈ rooms w → objects w !! n = Some r → lease_held w r;
  snd_past : honest w }.
(** what is kept: the past, the decisions, and the session's authentication while it lasts *)
Record kept (w w' : Connection) : Prop := {
  k_trace a : a ∈ trace w → a ∈ trace w';
  k_decisions c d : decisions (arrived w) !! c = Some d → decisions (arrived w') !! c = Some d;
  k_session g : opened g ∈ trace w → socketId w' = Some g →
    socketId w = Some g ∧ (authenticatedGeneration w = Some g → authenticatedGeneration w' = Some g) }.
Definition evolves (w w' : Connection) : Prop := sound w → sound w' ∧ kept w w'.
#[export] Instance kept_preorder : PreOrder kept.
Proof.
  split; [by intros w; split|]. intros w1 w2 w3 [T1 D1 S1] [T2 D2 S2]. split; [auto..|].
  intros g H1 H3. destruct (S2 g (T1 _ H1) H3) as [H2 A2]. destruct (S1 g H1 H2). auto.
Qed.
#[export] Instance evolves_preorder : PreOrder evolves.
Proof.
  split; [by intros w H|]. intros w1 w2 w3 H12 H23 H1. destruct (H12 H1) as [H2 K12]. destruct (H23 H2) as [H3 K23]. split; [done|by etrans].
Qed.

(** ** Quiet steps: they give leases up at most *)
Definition neutral (a : Action) : Prop := match a with sent _ _ _ | proof_asked _ _ _ | status_told _ _ _ => True | _ => False end.
Definition inherited (w w' : Connection) : Prop := ∀ name n r', (name, n) ∈ rooms w' → objects w' !! n = Some r' →
  lease_of r' = (None, None) ∨ ∃ r, (name, n) ∈ rooms w ∧ objects w !! n = Some r ∧ lease_of r = lease_of r'.
Record quiet (w w' : Connection) : Prop := {
  q_socket : socketId w' = socketId w; q_auth : authenticatedGeneration w' = authenticatedGeneration w;
  q_trace : ∃ l, trace w' = trace w ++ l ∧ Forall neutral l;
  q_decisions c d : decisions (arrived w) !! c = Some d → decisions (arrived w') !! c = Some d;
  q_rooms : inherited w w' }.
#[export] Instance quiet_preorder : PreOrder quiet.
Proof.
  split.
  - intros w. split; [done..| |done|]; [exists []; by rewrite app_nil_r|intros name n r; eauto].
  - intros w1 w2 w3 [S1 A1 (l1 & T1 & N1) D1 I1] [S2 A2 (l2 & T2 & N2) D2 I2]. split; [congruence..| |auto|].
    + exists (l1 ++ l2). rewrite T2, T1, app_assoc. split; [done|by apply Forall_app_2].
    + intros name n r Hr Ho. destruct (I2 name n r Hr Ho) as [|(r2 & H2 & O2 & E2)]; [by left|].
      destruct (I1 name n r2 H2 O2) as [|(r1 & H1 & O1 & E1)]; [left; congruence|right; exists r1; split; [done|]; split; [done|congruence]].
Qed.
Lemma honest_stays w w' : (∃ l, trace w' = trace w ++ l ∧ Forall neutral l) →
  (∀ c d, decisions (arrived w) !! c = Some d → decisions (arrived w') !! c = Some d) → honest w → honest w'.
Proof.
  intros (l & Ht & Hn) Hd [Hf Han].
  assert (∀ a, a ∈ trace w' → a ∈ trace w ∨ neutral a) as Hback.
  { intros a. rewrite Ht, elem_of_app. intros [|H]; [by left|right]. by eapply Forall_forall in Hn. }
  split; [intros call room g t ch body [H|[]]%Hback; by eapply Hf|]. intros k response [H|[]]%Hback Hacc.
  destruct (Han k response H Hacc) as (call & room & g & t & body & H1 & H2 & H3). exists call, room, g, t, body.
  split; [rewrite Ht; set_solver|auto].
Qed.
Lemma quiet_evolves w w' : quiet w w' → evolves w w'.
Proof.
  intros [Hs Ha Ht Hd Hr] [Ho Hu Hl Hp].
  assert (∀ a, a ∈ trace w → a ∈ trace w') as Hsub by (destruct Ht as (l & -> & _); set_solver).
  split; [|by split; [..|intros g _; rewrite Hs, Ha; auto]]. split; [intros g; rewrite Hs; auto|intros g; rewrite Hs, Ha; auto| |by eapply honest_stays].
  intros name n r Hin Hob. destruct (Hr name n r Hin Hob) as [|(r0 & H0 & O0 & E0)]; [by left|].
  unfold lease_held, authenticated. rewrite Hs, Ha, <-E0. by apply (Hl name n r0).
Qed.
Lemma quiet_always {A} (m : M Connection A) : always quiet m → always evolves m.
Proof. intros H w x w' E. by eapply quiet_evolves, H. Qed.
Lemma quiet_fields w w' : socketId w' = socketId w → authenticatedGeneration w' = authenticatedGeneration w → trace w' = trace w →
  arrived w' = arrived w → rooms w' = rooms w → objects w' = objects w → quiet w w'.
Proof.
  intros ? ? Ht Ha Hr Ho. split; [done..| |by rewrite Ha|]; [exists []; by rewrite app_nil_r|].
  intros name n r. rewrite Hr, Ho. eauto.
Qed.
Lemma quiet_modify f : (∀ w, quiet w (f w)) → always quiet (modify f).
Proof. intros H. by apply always_modify. Qed.
Lemma quiet_edit n f : (∀ r, lease_of (f r) = lease_of r ∨ lease_of (f r) = (None, None)) → always quiet (edit n f).
Proof.
  intros Hf. apply quiet_modify. intros w. split; [done..| |done|]; [exists []; by rewrite app_nil_r|].
  intros name m r' Hin Ho. cbn in *. apply lookup_alter_Some in Ho as [(<- & r & Hr & ->)|[_ Ho]]; [|eauto].
  destruct (Hf r) as [E|E]; [right; eauto|by left].
Qed.
Lemma quiet_tell a : neutral a → always quiet (tell a).
Proof.
  intros Ha. apply quiet_modify. intros w. split; [done..|by exists [a]; auto|done|]. intros name n r. eauto.
Qed.
Lemma quiet_fresh : always quiet fresh.
Proof. intros w x w' [= _ <-]. by apply quiet_fields. Qed.
#[export] Hint Resolve quiet_tell quiet_fresh : k3.
#[export] Hint Extern 1 (PreOrder _) => apply _ : k3.
#[export] Hint Extern 1 (neutral _) => exact I : k3.
#[export] Hint Extern 2 (always quiet (edit _ _)) => (apply quiet_edit; by auto) : k3.
#[export] Hint Extern 3 (always quiet (modify _)) => (apply quiet_modify; intros ?; by apply quiet_fields) : k3.
(** case analysis over a step of the code *)
Ltac steps := along ltac:(unfold this, date_now, requireRoom).
Section operations.
Context (api_status : string → option Z) (retry_after : string → option Z) (random : nat → Z) (bound : nat).
Notation C := Connection.
Lemma quiet_clear_timer n : always quiet (clear_timer n).
Proof. apply quiet_modify. intros w. destruct (objects w !! n ≫= renewalTimer); [by apply quiet_fields|done]. Qed.
Lemma quiet_set_timeout n d : always quiet (set_timeout n d).
Proof. unfold set_timeout. steps. Qed.
Hint Resolve quiet_clear_timer quiet_set_timeout : k3.
Lemma quiet_scheduleRenewal n : always quiet (scheduleRenewal n).
Proof. unfold scheduleRenewal. steps. Qed.
Lemma quiet_scheduleRetry n d : always quiet (scheduleRetry n d).
Proof. unfold scheduleRetry. steps. Qed.
Hint Resolve quiet_scheduleRenewal quiet_scheduleRetry : k3.
Lemma quiet_renewal_failed n e : always quiet (renewal_failed api_status retry_after random n e).
Proof. unfold renewal_failed. steps. Qed.
Lemma quiet_drop_lease n : always quiet (drop_lease n).
Proof. unfold drop_lease. steps. Qed.
Lemma quiet_createRoom roomId peer : always quiet (createRoom roomId peer).
Proof.
  unfold createRoom. steps. clear. intros w _ _ [= <- <-]. split; [done..| |done|]; [exists []; by rewrite app_nil_r|].
  intros name n r. cbn. rewrite elem_of_app, list_elem_of_singleton. intros Hin [[<- <-]|[Hn Ho]]%lookup_insert_Some; [by left|].
  destruct Hin as [|[= _ ->]]; [right; eauto|done].
Qed.
Lemma quiet_forget roomId : always quiet (modify (λ w, with_rooms (filter (λ e, e.1 ≠ roomId) (rooms w)) (objects w) w)).
Proof.
  apply quiet_modify. intros w. split; [done..| |done|]; [exists []; by rewrite app_nil_r|].
  intros name n r. cbn. rewrite list_elem_of_filter. intros [_ ?]. eauto.
Qed.
Lemma quiet_set_authenticating p : always quiet (set_authenticating p).
Proof. unfold set_authenticating. eauto with k3. Qed.
Lemma quiet_dispatch n i s : always quiet (dispatchDeliveryStatus n i s).
Proof. unfold dispatchDeliveryStatus. steps. Qed.
Hint Resolve quiet_renewal_failed quiet_drop_lease quiet_createRoom quiet_forget quiet_set_authenticating quiet_dispatch : k3.
Lemma quiet_status payload : always quiet (acceptDeliveryStatus payload).
Proof. unfold acceptDeliveryStatus. steps. Qed.
Lemma quiet_peer payload : always quiet (acceptPeerSubscription payload).
Proof. unfold acceptPeerSubscription. steps. Qed.

(** ** The asynchronous operations that are quiet *)
Lemma evolves_sound w w' : evolves w w' → sound w → sound w'.
Proof. intros H Hs. by destruct (H Hs). Qed.
Notation steady m := (respects evolves sound m).
Lemma steady_quiet {A} (m : M C A) : always quiet m → steady (sync m).
Proof. intros Hm. apply respects_sync; [apply _|exact evolves_sound|by apply quiet_always]. Qed.
Hint Extern 1 (respects evolves sound (sync _)) => (apply steady_quiet; steps; fail) : loop.
Hint Extern 0 (PreOrder _) => apply _ : loop.
Hint Extern 0 (∀ w w', evolves w w' → sound w → sound w') => exact evolves_sound : loop.
Ltac steadily :=
  repeat match goal with
  | |- respects _ _ (_ ≫= _) => apply respects_bind; [apply _|exact evolves_sound| |intros ?]
  | |- respects _ _ (match ?x with _ => _ end) => destruct x
  | |- respects _ _ (if ?x then _ else _) => destruct x
  | |- respects _ _ _ => solve [eauto 2 with loop]
  end.
Lemma steady_start m : steady m → steady (start_promise m).
Proof. intros Hm. apply respects_start; [apply _|exact evolves_sound|cbn; steadily|intros p r; cbn; steadily|done]. Qed.
Lemma steady_await p : steady (await_promise p).
Proof. apply respects_await; [apply _|exact evolves_sound]. Qed.
Lemma steady_quietly m : steady m → steady (MuxConnection.quietly m).
Proof. intros Hm. apply respects_try; [apply _|exact evolves_sound|done|intros e; steadily]. Qed.
Lemma steady_emitAck event payload : steady (emitAck event payload).
Proof. unfold emitAck, fail. steadily. Qed.
Lemma steady_acquire operation r : steady (acquire operation r).
Proof. unfold acquire, fail. steadily. Qed.
Lemma steady_waitForConnect : steady waitForConnect.
Proof. unfold waitForConnect. steadily. Qed.
Lemma steady_generation msg : steady (generation_or msg).
Proof. unfold generation_or, fail. steadily. Qed.
Hint Resolve steady_start steady_await steady_quietly steady_emitAck steady_acquire steady_waitForConnect steady_generation : loop.

(** ** Authentication *)
Lemma authenticates g (w : C) : socketId w = Some g → evolves w (with_socket (socketId w) (Some g) (authenticating w) (disposed w) w).
Proof.
  intros Hg [Ho Hu Hl Hp]. split.
  - split; [done| |intros name n r H1 H2|by destruct Hp]; [by intros g' [= <-]|].
    destruct (Hl name n r H1 H2) as [|(x & e & g' & E & H & _)]; [by left|right]. exists x, e, g. by split.
  - split; [done..|]. cbn. intros g' _ Hg'. split; [done|]. intros _. congruence.
Qed.
Lemma steady_authenticate g : steady (authenticate g).
Proof.
  unfold authenticate, fail. do 2 (apply respects_bind; [apply _|exact evolves_sound|steadily|intros ?]). intros w Hw.
  apply runs_gets_bind; [apply _|]. destruct (decide (socketId w = Some g)) as [Hg|Hg].
  - rewrite (bool_decide_eq_true_2 _ Hg), orb_false_r. destruct (_ || _); apply runs_sync; intros x w2 [= <- <-]; [done|].
    split; [by apply authenticates|done].
  - rewrite (bool_decide_eq_false_2 _ Hg), orb_true_r. apply runs_sync. by intros x w2 [= <- <-].
Qed.
Hint Resolve steady_authenticate : loop.
Lemma steady_ensureAuthenticated : steady ensureAuthenticated.
Proof.
  unfold ensureAuthenticated, fail. steadily. apply respects_finally; [apply _|exact evolves_sound|steadily..].
Qed.
Hint Resolve steady_ensureAuthenticated : loop.

(** ** Subscription *)
(** the session has been authenticated, and still is if the socket is the same *)
Definition since (g : string) (w : C) : Prop := opened g ∈ trace w ∧ (socketId w = Some g → authenticatedGeneration w = Some g).
Lemma since_stays g w w' : sound w → evolves w w' → since g w → since g w'.
Proof.
  intros Hs He [Ho Ha]. destruct (He Hs) as [_ [Kt _ Ks]]. split; [by apply Kt|]. intros Hg. destruct (Ks g Ho Hg) as [H1 H2]. auto.
Qed.
Lemma leases n x e features g (w : C) : since g w → socketId w = Some g →
  evolves w (with_rooms (rooms w) (alter (with_lease (Some x) (Some e) features) n (objects w)) w).
Proof.
  intros [_ Ha] Hg [Ho Hu Hl [Hf Han]]. split; [|by split]. split; [done..| |by split]. intros name m r Hin. cbn in *.
  intros [(<- & r0 & Hr & ->)|[_ Hr]]%lookup_alter_Some; [|by apply (Hl name m r)].
  right. exists x, e, g. split; [done|]. split; [done|]. by apply Ha.
Qed.
Lemma granted_steps n x e features g (w : C) : since g w → socketId w = Some g → evolves w (granted n x e features w).2.
Proof.
  intros Hs Hg. etrans; [by eapply (leases n x e features g)|]. set (w1 := with_rooms _ _ w).
  assert (always quiet (edit n (λ r, with_renewal (renewalTimer r) 0 (renewalBlocked r) None false r);; scheduleRenewal n)) as Hq by steps.
  apply quiet_evolves. apply (Hq w1 ((edit n (λ r, with_renewal (renewalTimer r) 0 (renewalBlocked r) None false r);; scheduleRenewal n) w1).1).
  apply surjective_pairing.
Qed.
Lemma moved_on_socket n g (w : C) : moved_on n g w = false → socketId w = Some g.
Proof. unfold moved_on. intros [_ H]%orb_false_iff. by apply negb_false_iff, bool_decide_eq_true in H. Qed.
(** an operation that learns nothing *)
Lemma steadily_runs {B} (m : async C B) w : sound w → steady m → runs evolves anything m w.
Proof. intros Hw Hm. by apply Hm. Qed.
Lemma runs_subscribed n g room response (w : C) : sound w → since g w → runs evolves anything (subscribed n g room response) w.
Proof.
  intros Hw Hs. apply runs_gets_bind; [apply _|]. destruct (moved_on n g w) eqn:Em.
  - apply steadily_runs; [done|]. unfold fail. steadily. apply steady_quietly. steadily.
  - apply moved_on_socket in Em. unfold fail. destruct (_ || _); [by apply steadily_runs; [|steadily]|].
    destruct (oprop response "subscriptionNonce") as [| | | |x| |]; try by (apply steadily_runs; [|steadily]).
    destruct (js_safe_int _) as [e|]; [|by apply steadily_runs; [|steadily]].
    apply (runs_bind _ anything); [|intros u w' Hr _; apply steadily_runs; [by eapply evolves_sound|steadily]|done].
    apply runs_sync. intros y w' E. split; [|done]. change w' with (y, w').2. rewrite <-E. by eapply granted_steps.
Qed.
Lemma generation_current msg w : runs evolves (λ r w', ∀ g, r = Ok g → socketId w' = Some g) (generation_or msg) w.
Proof.
  unfold generation_or, fail. apply runs_gets_bind; [apply _|].
  destruct (socketId w) as [g|] eqn:Hg; [destruct (nonempty g); [apply runs_ret; [apply _|]; by intros g' [= <-]|]|]; apply runs_sync; by intros r w' [= <- <-].
Qed.
Lemma steady_subscribeState n : steady (subscribeState n).
Proof.
  unfold subscribeState, fail. apply respects_bind; [apply _|exact evolves_sound|steadily|intros []; [steadily|]].
  apply respects_bind; [apply _|exact evolves_sound|apply respects_awaited; [apply _|exact evolves_sound|steadily]|intros _].
  intros w0 Hw0. eapply runs_bind; [apply _|apply generation_current| |done]. intros g w H0 Hg.
  assert (sound w) as Hw by by eapply evolves_sound. specialize (Hg _ eq_refl).
  apply runs_gets_bind; [apply _|]. case_bool_decide as Ha; cbn [negb]; [|by apply steadily_runs; [|steadily]].
  assert (since g w) as Hs by (split; [by apply (snd_opened w Hw)|done]).
  eapply runs_bind; [apply _|by apply (steadily_runs (sync (this n))); [|steadily]|intros room w1 H1 _|done].
  eapply runs_bind; [apply _|apply steadily_runs; [by eapply evolves_sound|steadily]|intros proof w2 H2 _|done].
  apply runs_gets_bind; [apply _|]. assert (sound w1) as Hw1 by by eapply evolves_sound. assert (sound w2) as Hw2 by by eapply evolves_sound.
  destruct (moved_on n g w2); [by apply steadily_runs; [|steadily]|].
  eapply runs_bind; [apply _|by apply (steadily_runs (sync (this n))); [|steadily]|intros room' w3 H3 _|done].
  eapply runs_bind; [apply _|apply steadily_runs; [by eapply evolves_sound|steadily]|intros response w4 H4 _|done].
  assert (sound w3) as Hw3 by by eapply evolves_sound. apply runs_subscribed; [by eapply evolves_sound|].
  apply (since_stays g w3 w4); [done..|]. apply (since_stays g w2 w3); [done..|]. apply (since_stays g w1 w2); [done..|].
  by apply (since_stays g w w1).
Qed.
Hint Resolve steady_subscribeState : loop.
Hint Extern 1 (respects evolves sound (fail _)) => (unfold fail; steadily; fail) : loop.
Hint Extern 2 (respects evolves sound (awaited _)) => (apply respects_awaited; [apply _|exact evolves_sound|]) : loop.
Hint Extern 2 (respects evolves sound (finally_async _ _)) => (apply respects_finally; [apply _|exact evolves_sound| |]) : loop.
Hint Extern 2 (respects evolves sound (try_ _ _)) => (apply respects_try; [apply _|exact evolves_sound| |intros ?]) : loop.

(** ** The other operations *)
Lemma steady_renewRoom n force : steady (renewRoom api_status retry_after random n force).
Proof.
  unfold renewRoom. steadily. apply steady_start. apply respects_finally; [apply _|exact evolves_sound| |steadily].
  apply respects_awaited; [apply _|exact evolves_sound|]. apply respects_try; [apply _|exact evolves_sound| |intros e; steadily].
  apply respects_awaited; [apply _|exact evolves_sound|]. steadily.
Qed.
Lemma steady_subscribe roomId local capability proof : steady (subscribe roomId local capability proof).
Proof. unfold subscribe. steadily. Qed.
Lemma steady_unsubscribe roomId : steady (unsubscribe roomId).
Proof. unfold unsubscribe. steadily. Qed.
Hint Resolve steady_renewRoom steady_subscribe steady_unsubscribe : loop.
Lemma steady_awaited {A} (m : async C A) : steady m → steady (awaited m).
Proof. apply respects_awaited; [apply _|exact evolves_sound]. Qed.
Hint Resolve steady_awaited : loop.
Lemma steady_unsubscribe_all l : steady (unsubscribe_all l).
Proof. induction l as [|roomId l IH]; cbn; [steadily|]. apply respects_bind; [apply _|exact evolves_sound|eauto with loop|done]. Qed.
Lemma steady_over_rooms rounds visit last : (∀ n, steady (visit n)) → steady (over_rooms rounds visit last).
Proof.
  intros Hv. revert last. induction rounds as [|rounds IH]; intros last; cbn; [apply respects_hang; [apply _|exact evolves_sound]|].
  apply respects_bind; [apply _|exact evolves_sound|steadily|]. intros [n|]; [|steadily].
  by apply respects_bind; [apply _|exact evolves_sound|apply Hv|intros _; apply IH].
Qed.
Lemma steady_refresh restored n : steady (refresh api_status retry_after random restored n).
Proof. unfold refresh. steadily. Qed.
Lemma steady_restore n : steady (restore api_status retry_after random n).
Proof. unfold restore. steadily. Qed.
Hint Resolve steady_unsubscribe_all steady_over_rooms steady_refresh steady_restore : loop.
Lemma steady_refreshRooms restored : steady (refreshRooms api_status retry_after random bound restored).
Proof. unfold refreshRooms. steadily. Qed.
Lemma steady_fire timer : steady (fire api_status retry_after random timer).
Proof. unfold fire. steadily. Qed.
Lemma steady_sendCallSignal n e : steady (sendCallSignal n e).
Proof. unfold sendCallSignal. steadily. Qed.
Lemma steady_sendMuxEnvelope n e : steady (sendMuxEnvelope n e).
Proof. unfold sendMuxEnvelope. steadily. Qed.
Hint Resolve steady_refreshRooms steady_fire steady_sendCallSignal steady_sendMuxEnvelope : loop.
Lemma steady_connection_send roomId channel e floor : steady (connection_sendEnvelope roomId channel e floor).
Proof. unfold connection_sendEnvelope. steadily. Qed.
Lemma steady_suspended payload : steady (acceptRoomSuspended payload).
Proof. unfold acceptRoomSuspended. steadily. eauto with loop. Qed.
Lemma steady_manager_start n : steady (manager_start n).
Proof. unfold manager_start, start. steadily. apply steady_awaited. steadily. Qed.
Lemma steady_manager_close n : steady (manager_close n).
Proof. unfold manager_close. steadily. Qed.
Hint Resolve steady_connection_send steady_suspended steady_manager_start steady_manager_close : loop.
Lemma steady_join n name local capability proof : steady (join n name local capability proof).
Proof. unfold join. steadily. Qed.
Lemma steady_send n channel e recipient : steady (sendEnvelope n channel e recipient).
Proof. unfold sendEnvelope. steadily. Qed.

(** ** The socket comes and goes *)
Lemma drop_lease_run n (w : C) : ∃ w', drop_lease n w = (Ok tt, w') ∧ ∀ r, objects w' !! n = Some r → lease_of r = (None, None).
Proof.
  eexists. split; [done|]. cbn. intros r. rewrite lookup_alter_eq. by destruct (objects _ !! n); [intros [= <-]|].
Qed.
Lemma quiet_each l : always quiet (each drop_lease l).
Proof. induction l as [|n l IH]; cbn; [eauto with k3|]. apply always_bind; [apply _|apply quiet_drop_lease|done]. Qed.
Lemma each_drops l (w : C) name n r : n ∈ l → (name, n) ∈ rooms (each drop_lease l w).2 → objects (each drop_lease l w).2 !! n = Some r →
  lease_of r = (None, None).
Proof.
  revert w. induction l as [|m l IH]; intros w; [by intros ?%elem_of_nil|]. cbn. destruct (drop_lease_run m w) as (w1 & E1 & Hd).
  unfold mbind, M_bind. rewrite E1. rewrite elem_of_cons. intros [->|Hin]; [|by apply IH]. intros Hr Ho.
  destruct (quiet_each l w1 _ _ (surjective_pairing _)) as [_ _ _ _ Hi]. destruct (Hi name m r Hr Ho) as [|(r0 & _ & H0 & <-)]; [done|].
  by apply Hd.
Qed.
Lemma disconnects : always evolves on_disconnect.
Proof.
  intros w x w' E [Ho Hu Hl Hp]. set (w1 := with_socket None None (authenticating w) (disposed w) w).
  assert (each drop_lease (rooms w).*2 w1 = (x, w')) as E1 by exact E. destruct (quiet_each _ _ _ _ E1) as [Hs Ha Ht Hd Hi]. cbn in Hs, Ha.
  assert (∀ a, a ∈ trace w → a ∈ trace w') as Hsub by (destruct Ht as (l & -> & _); set_solver).
  split; [|split; [done..|by rewrite Hs]]. split; [by rewrite Hs|by rewrite Ha| |by eapply (honest_stays w)].
  intros name n r Hin Hob. left. replace w' with (each drop_lease (rooms w).*2 w1).2 in Hin, Hob by by rewrite E1.
  destruct (Hi name n r) as [|(r0 & H0 & O0 & E0)]; [by rewrite E1 in Hin|by rewrite E1 in Hob|done|].
  eapply each_drops; [|exact Hin|exact Hob]. apply list_elem_of_fmap. by exists (name, n).
Qed.
(** a new session: every connection of the socket has an id of its own *)
Lemma connects_anew id (w : C) : socketId w = None → opened id ∉ trace w →
  evolves w (with_socket (Some id) None (authenticating w) (disposed w) (traced (opened id) w)).
Proof.
  intros Hn Hid [Ho Hu Hl [Hf Han]]. split.
  - split; [intros g [= <-]; cbn; set_solver|done| |].
    + intros name n r Hin Hob. left. destruct (Hl name n r Hin Hob) as [|(x & e & g & _ & H & _)]; [done|congruence].
    + split; cbn; [intros call room g t ch body [H|[=]%list_elem_of_singleton]%elem_of_app; by eapply Hf|].
      intros k response [H|[=]%list_elem_of_singleton]%elem_of_app Hacc.
      destruct (Han k response H Hacc) as (call & room & g & t & body & H1 & H2). exists call, room, g, t, body. cbn. set_solver.
  - split; cbn; [set_solver|done|]. by intros g Hg [= <-].
Qed.
Definition was_open (id : string) (w : C) : bool := existsb (λ a, match a with opened i => String.eqb i id | _ => false end) (trace w).
Lemma was_open_false id w : was_open id w = false → opened id ∉ trace w.
Proof.
  intros H Hin. assert (was_open id w = true); [|congruence]. apply existsb_exists. exists (opened id). split; [by apply list_elem_of_In|].
  apply String.eqb_refl.
Qed.
Definition connects_as (id : string) : async C unit := λ w,
  if was_open id w || connected w then (w, Done (Ok tt)) else on_connect api_status retry_after random bound id w.
Lemma steady_connects id : steady (connects_as id).
Proof.
  intros w Hw. unfold runs, connects_as. destruct (was_open id w || connected w) eqn:E; [by split|].
  apply orb_false_iff in E as [Hid%was_open_false Hc%bool_decide_eq_false]. assert (socketId w = None) as Hn.
  { destruct (socketId w); [by destruct Hc|done]. }
  assert (authenticatedGeneration w = None) as Ha.
  { destruct (authenticatedGeneration w) as [g|] eqn:Eg; [|done]. apply (snd_auth w Hw) in Eg. congruence. }
  set (w1 := with_socket (Some id) None (authenticating w) (disposed w) (traced (opened id) w)).
  assert (evolves w w1) as H1 by by apply connects_anew. assert (quiet w1 (with_socket (Some id) None (authenticating w1) (disposed w1) w1)) as H2.
  { by apply quiet_fields. }
  change (runs evolves anything (on_connect api_status retry_after random bound id) w). unfold on_connect.
  apply (runs_sync_bind _ _ _ _ _ tt w1); [unfold w1; by rewrite <-Ha|exact H1|].
  unfold restoreRooms. eapply runs_sync_bind; [apply _|done|by apply quiet_evolves|]. apply steadily_runs; [by eapply evolves_sound, H1; [apply quiet_evolves|]|].
  steadily. apply steady_quietly. steadily.
Qed.

(** ** Frames *)
Lemma room_named_in roomId n (w : C) : room_named roomId w = Some n → ∃ name, (name, n) ∈ rooms w.
Proof.
  unfold room_named. intros (e & H & He)%fmap_Some. exists e.1. rewrite He. destruct e as [name m]. cbn in *. subst m.
  apply list_elem_of_In. unfold js_find in H. by apply find_some in H as [H _].
Qed.
Lemma frame_current_matches names feature body room name n (w : C) : sound w → (name, n) ∈ rooms w → objects w !! n = Some room →
  frame_current names feature body room w = true → frame_matches room (currentGeneration w) (now w) body.
Proof.
  intros Hw Hin Ho. unfold frame_current. rewrite !andb_true_iff, !bool_decide_eq_true.
  intros ((((((((((((H1 & _) & _) & H2) & H3) & H4) & H5) & _) & H6) & H7) & H8) & _) & _).
  destruct (snd_leases w Hw name n room Hin Ho) as [E|(x & e & g & E & Hs & Ha)]; unfold lease_of in E; [by destruct (expiresAt room)|].
  injection E as Ex Ee. rewrite Ex in H7. rewrite Ee in H8. rewrite Hs in H5. cbn in H5, H7. repeat split; try done.
  exists g, x, e. repeat split; try done; [|by apply Z.ltb_lt].
  unfold currentGeneration, connected. rewrite Ha, Hs. by rewrite !bool_decide_eq_true_2 by done.
Qed.
Lemma delivers call room channel body g t (w : C) : frame_matches room g t body → evolves w (traced (delivered call room g t channel body) w).
Proof.
  intros Hm [Ho Hu Hl [Hf Han]]. assert (∀ a, a ∈ trace w → a ∈ trace w ++ [delivered call room g t channel body]) as Hsub by set_solver.
  split; [|by split; [done..|]]. split; [intros g' Hg; by apply Hsub, Ho|done|done|]. split; cbn.
  - intros call' room' g' t' ch' body' [H|[= -> -> -> -> -> ->]%list_elem_of_singleton]%elem_of_app; [by eapply Hf|done].
  - intros k response [H|[=]%list_elem_of_singleton]%elem_of_app Hacc.
    destruct (Han k response H Hacc) as (c' & r' & g' & t' & b' & H1 & H2). exists c', r', g', t', b'. cbn. split; [by apply Hsub|done].
Qed.
Lemma answers k response (w : C) : answer_earned w response → evolves w (traced (answered k response) w).
Proof.
  intros He [Ho Hu Hl [Hf Han]]. assert (∀ a, a ∈ trace w → a ∈ trace w ++ [answered k response]) as Hsub by set_solver.
  split; [|by split; [done..|]]. split; [intros g' Hg; by apply Hsub, Ho|done|done|]. split; cbn.
  - intros call' room' g' t' ch' body' [H|[=]%list_elem_of_singleton]%elem_of_app; by eapply Hf.
  - intros k' response' H Hacc. assert (answer_earned w response') as He'.
    { apply elem_of_app in H as [H|[= -> ->]%list_elem_of_singleton]; [by eapply Han|done]. }
    destruct (He' Hacc) as (c' & r' & g' & t' & b' & H1 & H2). exists c', r', g', t', b'. cbn. split; [by apply Hsub|done].
Qed.
Lemma accepting d body room : says_accepted (response_to d body room) → d = accepted.
Proof. unfold says_accepted. by destruct d. Qed.
Lemma runs_respond ack response (w : C) : answer_earned w response → runs evolves anything (sync (respond ack response)) w.
Proof.
  intros He. apply runs_sync. intros x w' E. split; [|done]. destruct ack as [k|]; injection E as _ <-; [by apply answers|done].
Qed.
(** the handler is called in the segment of the frame; what it decides is known when the frame is answered *)
Definition decided (room : RoomState) (channel : string) (body : list (string * jsval)) (r : res Decision) (w : C) : Prop :=
  ∃ call g t d, r = Ok d ∧ delivered call room g t channel body ∈ trace w ∧ decisions (arrived w) !! call = Some d.
Lemma runs_deliver room channel body (w : C) : sound w → frame_matches room (currentGeneration w) (now w) body →
  runs evolves (decided room channel body) (deliver room channel body) w.
Proof.
  intros Hw Hm. unfold deliver.
  apply (runs_sync_bind _ _ _ _ _ (counter w) (counted w)); [done|by apply quiet_evolves, quiet_fields|].
  set (w1 := traced (delivered (counter w) room (currentGeneration w) (now w) channel body) (counted w)).
  assert (evolves (counted w) w1) as H1 by by apply delivers.
  assert (sound w1) as Hw1 by by eapply evolves_sound; [|eapply evolves_sound; [apply quiet_evolves, quiet_fields|exact Hw]].
  eapply (runs_sync_bind _ _ _ _ _ tt w1); [done|done|].
  eapply runs_bind; [apply _|apply (runs_wait _ (λ r w', ∃ d, r = Ok tt ∧ delivered (counter w) room (currentGeneration w) (now w) channel body ∈ trace w' ∧
    decisions (arrived w') !! counter w = Some d))| |by intros e w' _ (d & [=] & _)].
  - intros w2 H2 Hr. apply bool_decide_eq_true in Hr as [d Hd]. exists d. split; [done|]. split; [|done].
    destruct (H2 Hw1) as [_ Hk]. apply (k_trace _ _ Hk). cbn. set_solver.
  - intros u w2 _ (d & _ & Ht & Hd). apply runs_sync. intros x w3 [= <- <-]. split; [done|].
    exists (counter w), (currentGeneration w), (now w), d. by rewrite Hd.
Qed.
Lemma steady_acceptEnvelope frame ack : steady (acceptEnvelope frame ack).
Proof.
  intros w Hw. apply runs_gets_bind; [apply _|]. unfold id.
  destruct frame as [| | | | | |body]; try by apply steadily_runs; [|steadily].
  destruct (room_of (JObj body) w) as [n|] eqn:En; cbn; [|by apply steadily_runs; [|steadily]].
  destruct (objects w !! n) as [room|] eqn:Er; [|by apply steadily_runs; [|steadily]].
  destruct (message_current body room w) eqn:Em; cbn [negb]; [|by apply runs_respond; intros ?%(accepting retryable)].
  unfold room_of in En. destruct (oprop (JObj body) "roomId"); try done. apply room_named_in in En as [name Hin].
  unfold message_current in Em. rewrite !andb_true_iff in Em. destruct Em as [[[Em _] _] _].
  eapply runs_bind; [apply _|apply runs_deliver; [done|by eapply frame_current_matches]| |done].
  intros d w1 _ (call & g & t & d' & [= <-] & Ht & Hd). apply runs_respond. intros ->%accepting. by exists call, room, g, t, body.
Qed.
Lemma steady_acceptCallSignal frame : steady (acceptCallSignal frame).
Proof.
  intros w Hw. apply runs_gets_bind; [apply _|]. unfold id.
  destruct frame as [| | | | | |body]; try by apply steadily_runs; [|steadily].
  destruct (room_of (JObj body) w) as [n|] eqn:En; cbn; [|by apply steadily_runs; [|steadily]].
  destruct (objects w !! n) as [room|] eqn:Er; [|by apply steadily_runs; [|steadily]].
  destruct (frame_current _ _ body room w) eqn:Em; [|by apply steadily_runs; [|steadily]].
  unfold room_of in En. destruct (oprop (JObj body) "roomId"); try done. apply room_named_in in En as [name Hin].
  eapply runs_bind; [apply _|apply runs_deliver; [done|by eapply frame_current_matches]| |done].
  intros d w1 H1 _. apply runs_ret; [apply _|done].
Qed.

(** ** Everything that may happen *)
Definition ignored {A} (m : async C A) : async C unit := m;; mret tt.
Inductive happens : async C unit → Prop :=
| hp_connect id : happens (connects_as id)
| hp_disconnect : happens (sync on_disconnect)
| hp_envelope frame ack : happens (acceptEnvelope frame ack)
| hp_signal frame : happens (acceptCallSignal frame)
| hp_peer payload : happens (sync (acceptPeerSubscription payload))
| hp_status payload : happens (sync (acceptDeliveryStatus payload))
| hp_suspended payload : happens (acceptRoomSuspended payload)
| hp_visible : happens (refreshRooms api_status retry_after random bound false)
| hp_online : happens (refreshRooms api_status retry_after random bound true)
| hp_timer t : happens (fire api_status retry_after random t)
| hp_provider b : happens (sync (setDeviceProofProvider b))
| hp_close : happens close
| hp_forRoom roomId peer : happens (sync (forRoom roomId peer;; mret tt))
| hp_handler roomId h : happens (sync (setHandler roomId h))
| hp_features roomId l : happens (sync (setFeatures roomId l))
| hp_join n name local capability proof : happens (join n name local capability proof)
| hp_closeRoom n : happens (manager_close n)
| hp_send n channel e recipient : happens (ignored (sendEnvelope n channel e recipient))
| hp_floor n floor : happens (sync (setAuthenticatedMessageVersionFloor n floor))
| hp_statusHandler n h : happens (sync (setDeliveryStatusHandler n h)).
(** answers arrive for good: the first one counts *)
Definition outside (w w' : C) : Prop := ∃ on t a, w' = elapsed on t a w ∧ now w ≤ t ∧ acks (arrived w) ⊆ acks a ∧ proofs (arrived w) ⊆ proofs a ∧
  decisions (arrived w) ⊆ decisions a ∧ connects (arrived w) ⊆ connects a.
Lemma outside_evolves w w' : outside w w' → evolves w w'.
Proof.
  intros (on & t & a & -> & _ & _ & _ & Hd & _). apply quiet_evolves. split; [done..| | |]; cbn; [exists []; by rewrite app_nil_r| |intros name n r; eauto].
  intros c d Hc. by eapply lookup_weaken.
Qed.
Lemma happens_steady m : happens m → steady m.
Proof.
  intros []; eauto using steady_connects, steady_acceptEnvelope, steady_acceptCallSignal, quiet_peer, quiet_status, steady_quiet, steady_suspended,
    steady_refreshRooms, steady_fire, steady_join, steady_manager_close.
  - apply respects_sync; [apply _|exact evolves_sound|exact disconnects].
  - unfold setDeviceProofProvider. apply steady_quiet. eauto with k3.
  - unfold close. steadily. apply respects_sync; [apply _|exact evolves_sound|]. apply always_bind; [apply _|apply always_gets; apply _|].
    intros []; [exact disconnects|apply always_mret; apply _].
  - unfold forRoom. apply steady_quiet. steps.
  - unfold setHandler. apply steady_quiet. steps.
  - unfold setFeatures. apply steady_quiet. steps.
  - unfold ignored. apply respects_bind; [apply _|exact evolves_sound|apply steady_send|intros r; steadily].
  - unfold setAuthenticatedMessageVersionFloor. apply steady_quiet. steps.
  - unfold setDeliveryStatusHandler. apply steady_quiet. eauto with k3.
Qed.
(** a connection that was just made *)
Definition new_connection (on : bool) (t : Z) : C := {|
  socketId := None; online := on; proofProvider := false; authenticatedGeneration := None; authenticating := None; disposed := false; rooms := [];
  objects := ∅; timers := ∅; now := t; counter := 1; trace := []; outcomes := ∅;
  arrived := {| acks := ∅; proofs := ∅; decisions := ∅; connects := ∅ |} |}.
Definition reaches (w : C) : Prop := ∃ on t l, rtc (sys_step happens outside) {| world := new_connection on t; pending := [] |} {| world := w; pending := l |}.
Lemma new_sound on t : sound (new_connection on t).
Proof. by split; [..|intros name n r []%elem_of_nil|split; intros * []%elem_of_nil]. Qed.
Lemma reaches_sound w : reaches w → sound w.
Proof.
  intros (on & t & l & H). destruct (system_runs evolves sound evolves_sound happens outside {| world := new_connection on t; pending := [] |}
    {| world := w; pending := l |} happens_steady outside_evolves (new_sound on t) (Forall_nil_2 _) H) as [He _]. by apply (He (new_sound on t)).
Qed.

(** C3: a message is answered as accepted only after the conversation's handler was given exactly that frame and accepted it; and
    the handler was given it while the room held the lease the frame names, on the connected and authenticated socket, for its own
    address and its own peer. This holds however reconnections, renewals, timers, other rooms and late answers interleave. *)
Theorem accepted_frames_were_decided w k response : reaches w → answered k response ∈ trace w → says_accepted response →
  ∃ call room generation time body, delivered call room generation time "message" body ∈ trace w ∧
    frame_matches room generation time body ∧ decisions (arrived w) !! call = Some accepted ∧ response = response_to accepted body room.
Proof.
  intros Hw%reaches_sound Ha Hs. destruct (h_answers _ (snd_past _ Hw) _ _ Ha Hs) as (call & room & g & t & body & H1 & H2 & H3).
  exists call, room, g, t, body. split; [done|]. split; [|done]. by apply (h_frames _ (snd_past _ Hw) _ _ _ _ _ _ H1).
Qed.
(** C4: a room of the connection holds a lease only on the socket that is connected and authenticated now, although a renewal
    waits for a proof and an answer in which the socket may be replaced; and a lease always has an end. *)
Theorem leases_follow_the_socket w name n r x : reaches w → (name, n) ∈ rooms w → objects w !! n = Some r → nonce r = Some x →
  is_Some (expiresAt r) ∧ ∃ g, socketId w = Some g ∧ currentGeneration w = Some g.
Proof.
  intros Hw%reaches_sound Hin Ho Hx. destruct (snd_leases w Hw name n r Hin Ho) as [E|(y & e & g & E & Hs & Ha)]; unfold lease_of in E; [congruence|].
  injection E as _ ->. split; [done|]. exists g. split; [done|]. unfold currentGeneration, connected. rewrite Ha, Hs. by rewrite !bool_decide_eq_true_2 by done.
Qed.

(** ** Every frame is answered *)
Lemma accept_current frame body n room k (w : C) : frame = JObj body → room_of frame w = Some n → objects w !! n = Some room →
  message_current body room w = true →
  ∃ ready resume, acceptEnvelope frame (Some k) w =
    (traced (delivered (counter w) room (currentGeneration w) (now w) "message" body) (counted w), Await ready resume) ∧
    ∀ w', ready w' = bool_decide (is_Some (decisions (arrived w') !! counter w)) ∧
      ∀ d, decisions (arrived w') !! counter w = Some d → resume w' = (traced (answered k (response_to d body room)) w', Done (Ok tt)).
Proof.
  intros -> Hn Ho Hm. unfold acceptEnvelope, deliver, mbind at 1, async_bind at 1, sync at 1, gets at 1, id. cbn [bind_task].
  rewrite Hn. cbn [mbind option_bind]. rewrite Ho, Hm. cbn [negb]. do 2 eexists. split; [done|]. intros w'. split; [done|].
  intros d Hd. cbn. by rewrite Hd.
Qed.
Definition reachable (s : System C) : Prop := ∃ on t, rtc (sys_step happens outside) {| world := new_connection on t; pending := [] |} s.
(** C5: a frame for a room of the connection is always answered: at once with [retryable] when it does not match the lease the
    room holds; otherwise it is given to the handler, and whatever else happens meanwhile its answer has been sent, or is one step
    of its own away as soon as the handler has decided. *)
Theorem every_frame_is_answered s s' frame body n room k : reachable s →
  frame = JObj body → room_of frame (world s) = Some n → objects (world s) !! n = Some room →
  rtc (sys_step happens outside) (arrive (acceptEnvelope frame (Some k)) s) s' →
  if message_current body room (world s) then
    ∃ call, delivered call room (currentGeneration (world s)) (now (world s)) "message" body ∈ trace (world s') ∧
      ((∃ d, answered k (response_to d body room) ∈ trace (world s')) ∨
       ∀ d, decisions (arrived (world s')) !! call = Some d →
         ∃ s'', sys_step happens outside s' s'' ∧ answered k (response_to d body room) ∈ trace (world s''))
  else answered k (response_to retryable body room) ∈ trace (world s').
Proof.
  intros (on & t & H0) Hf Hn Ho Hs. set (s1 := arrive (acceptEnvelope frame (Some k)) s) in *.
  destruct (system_runs evolves sound evolves_sound happens outside {| world := new_connection on t; pending := [] |} s happens_steady outside_evolves
    (new_sound on t) (Forall_nil_2 _) H0) as [He Hp].
  assert (sound (world s)) as Hw by by apply (He (new_sound on t)).
  assert (sys_step happens outside s s1) as H1 by by apply arrives, hp_envelope.
  destruct (system_runs evolves sound evolves_sound happens outside s _ happens_steady outside_evolves Hw Hp (rtc_once _ _ H1)) as [He1 Hp1].
  assert (sound (world s1)) as Hw1 by by apply He1.
  destruct (system_runs evolves sound evolves_sound happens outside _ s' happens_steady outside_evolves Hw1 Hp1 Hs) as [He2 _].
  pose proof (k_trace _ _ (proj2 (He2 Hw1))) as Hkept. destruct (message_current body room (world s)) eqn:Em.
  - destruct (accept_current frame body n room k (world s) Hf Hn Ho Em) as (ready & resume & E & Hr).
    exists (counter (world s)). split; [apply Hkept; unfold s1, arrive; rewrite E; cbn; set_solver|].
    destruct (pending_until evolves sound evolves_sound happens outside (λ w, ∃ d, answered k (response_to d body room) ∈ trace w) ready resume
      s1 s' happens_steady outside_evolves Hw1 Hp1) as [H|Hin]; [| | |done|by left|right].
    + intros w w' Hsw Hev (d & Hd). exists d. by apply (k_trace _ _ (proj2 (Hev Hsw))).
    + intros w Hrw. destruct (Hr w) as [E1 E2]. rewrite E1 in Hrw. apply bool_decide_eq_true in Hrw as [d Hd]. exists d.
      rewrite (E2 d Hd). cbn. set_solver.
    + unfold s1, arrive. rewrite E. cbn. set_solver.
    + intros d Hd. destruct (Hr (world s')) as [E1 E2].
      apply list_elem_of_split in Hin as (l1 & l2 & El). eexists. split; [eapply resumes; [exact El|]|].
      * rewrite E1. by apply bool_decide_eq_true.
      * cbn. rewrite (E2 d Hd). cbn. set_solver.
  - apply Hkept. unfold s1, arrive, acceptEnvelope, mbind, async_bind, sync, gets, id. cbn [bind_task]. subst frame.
    rewrite Hn. cbn [mbind option_bind]. rewrite Ho, Em. cbn. set_solver.
Qed.
End operations.

(** ** An example: a room joins, and is given a message *)
Module Example.
Definition no_status (e : string) : option Z := None.
Definition draws (n : nat) : Z := 0.
Notation happens := (happens no_status no_status draws 5).
Definition carrier := {| deviceAuthorizationProof := JObj [("nonce", JStr "n")]; proofNonce := "n" |}.
Definition numbered {A} (x : A) : gmap nat A := list_to_map ((λ i, (i, x)) <$> seq 0 12).
Definition relay : gmap nat AckReply := list_to_map
  [(5%nat, acked (JObj [("status", JStr "authenticated"); ("connectionGeneration", JStr "s1")]));
   (7%nat, acked (JObj [("status", JStr "subscribed"); ("roomId", JStr "room"); ("connectionGeneration", JStr "s1"); ("subscriptionNonce", JStr "x");
                        ("expiresAt", JNum (NInt 300000)); ("peerFeatures", JArr [JStr "room-message-v1"])]));
   (9%nat, acked (JObj []))].
Definition frame_body : list (string * jsval) :=
  [("version", JNum (NInt 1)); ("roomId", JStr "room"); ("id", JStr "m"); ("claimId", JStr "c"); ("timestamp", JNum (NInt 900));
   ("connectionGeneration", JStr "s1"); ("subscriptionNonce", JStr "x"); ("recipientRoutingAddress", JStr "me"); ("senderRoutingAddress", JStr "peer");
   ("envelope", JObj [("version", JNum (NInt 1))])].
Definition proven_by : Arrivals := {| acks := relay; proofs := numbered (Ok carrier); decisions := ∅; connects := ∅ |}.
Definition decided_by : Arrivals := {| acks := relay; proofs := numbered (Ok carrier); decisions := {[ 10%nat := accepted ]}; connects := ∅ |}.
Definition go (m : async Connection unit) (s : System Connection) : System Connection := run_ready 30 (arrive m s).
Definition after (a : Arrivals) (s : System Connection) : System Connection :=
  run_ready 30 {| world := elapsed true (now (world s) + 1) a (world s); pending := pending s |}.
Definition begun : System Connection := {| world := new_connection true 1000; pending := [] |}.
Definition ready_to_join : System Connection :=
  go (sync (setFeatures "room" ["room-message-v1"])) (go (sync (setHandler "room" true)) (go (sync (forRoom "room" "peer";; mret tt))
    (go (sync (setDeviceProofProvider true)) (go (connects_as no_status no_status draws 5 "s1") begun)))).
Definition joining_room : System Connection := go (join 1 "room" "me" "cap" (Some "proof")) ready_to_join.
Definition joined : System Connection := after proven_by joining_room.
Definition given : System Connection := arrive (acceptEnvelope (JObj frame_body) (Some 3%nat)) joined.
Definition finished : System Connection := after decided_by given.
Lemma go_reaches m s : happens m → rtc (sys_step happens outside) s (go m s).
Proof. intros Hm. etrans; [by apply arrive_reaches|apply run_ready_reaches]. Qed.
Lemma after_reaches a s : arrived (world s) = {| acks := ∅; proofs := ∅; decisions := ∅; connects := ∅ |} ∨
    arrived (world s) = proven_by ∧ a = decided_by → rtc (sys_step happens outside) s (after a s).
Proof.
  intros Ha. eapply rtc_l; [|apply run_ready_reaches]. apply moves. eexists _, _, _. split; [done|]. split; [lia|].
  destruct Ha as [->|[-> ->]]; cbn; repeat split; try apply map_empty_subseteq; done.
Qed.
Lemma joined_reached : rtc (sys_step happens outside) begun joined.
Proof.
  etrans; [|apply after_reaches; left; by vm_compute].
  unfold joining_room, ready_to_join. do 6 (etrans; [|by apply go_reaches; constructor]). done.
Qed.
Lemma finished_reached : rtc (sys_step happens outside) begun finished.
Proof.
  etrans; [apply joined_reached|]. etrans; [by apply arrive_reaches, hp_envelope|]. apply after_reaches. right. by vm_compute.
Qed.
Lemma finished_from_given : rtc (sys_step happens outside) (arrive (acceptEnvelope (JObj frame_body) (Some 3%nat)) joined) finished.
Proof. apply (after_reaches decided_by given). right. by vm_compute. Qed.
Lemma reaches_world s : rtc (sys_step happens outside) begun s → reaches no_status no_status draws 5 (world s).
Proof. intros H. exists true, 1000, (pending s). by destruct s. Qed.
Definition acceptance : jsval := JObj [("outcome", JStr "accepted"); ("roomId", JStr "room"); ("id", JStr "m"); ("claimId", JStr "c");
  ("connectionGeneration", JStr "s1"); ("subscriptionNonce", JStr "x")].
Lemma finished_answer : trace (world finished) !! 7%nat = Some (answered 3 acceptance).
Proof. by vm_compute. Qed.
Lemma joined_room : ∃ r, (room_of (JObj frame_body) (world joined) = Some 1%nat ∧ rooms (world joined) = [("room", 1%nat)]) ∧
  objects (world joined) !! 1%nat = Some r ∧ nonce r = Some "x" ∧ message_current frame_body r (world joined) = true.
Proof. eexists. split; [by vm_compute|]. split; [by vm_compute|]. by vm_compute. Qed.
End Example.
Lemma accepted_frames_were_decided_witness : ∃ call room generation time body,
  delivered call room generation time "message" body ∈ trace (world Example.finished) ∧ frame_matches room generation time body ∧
  decisions (arrived (world Example.finished)) !! call = Some accepted ∧ Example.acceptance = response_to accepted body room.
Proof.
  apply (accepted_frames_were_decided Example.no_status Example.no_status Example.draws 5 (world Example.finished) 3 Example.acceptance).
  - apply Example.reaches_world, Example.finished_reached.
  - apply list_elem_of_lookup_2 with 7%nat. apply Example.finished_answer.
  - reflexivity.
Defined.
Lemma leases_follow_the_socket_witness : ∃ r, objects (world Example.joined) !! 1%nat = Some r ∧ is_Some (expiresAt r) ∧
  ∃ g, socketId (world Example.joined) = Some g ∧ currentGeneration (world Example.joined) = Some g.
Proof.
  destruct Example.joined_room as (r & [_ Hr] & Ho & Hx & _). exists r. split; [exact Ho|].
  apply (leases_follow_the_socket Example.no_status Example.no_status Example.draws 5 (world Example.joined) "room" 1 r "x").
  - apply Example.reaches_world, Example.joined_reached.
  - rewrite Hr. apply elem_of_cons. left. reflexivity.
  - exact Ho.
  - exact Hx.
Defined.
Lemma every_frame_is_answered_witness : ∃ room call, delivered call room (currentGeneration (world Example.joined)) (now (world Example.joined)) "message"
    Example.frame_body ∈ trace (world Example.finished) ∧
  ((∃ d, answered 3 (response_to d Example.frame_body room) ∈ trace (world Example.finished)) ∨
   ∀ d, decisions (arrived (world Example.finished)) !! call = Some d → ∃ s'', sys_step (happens Example.no_status Example.no_status Example.draws 5) outside
     Example.finished s'' ∧ answered 3 (response_to d Example.frame_body room) ∈ trace (world s'')).
Proof.
  destruct Example.joined_room as (r & [Hn _] & Ho & _ & Hm). exists r.
  pose proof (every_frame_is_answered Example.no_status Example.no_status Example.draws 5 Example.joined Example.finished (JObj Example.frame_body)
    Example.frame_body 1 r 3) as H.
  rewrite Hm in H. apply H.
  - exists true, 1000. apply Example.joined_reached.
  - reflexivity.
  - exact Hn.
  - exact Ho.
  - apply Example.finished_from_given.
Defined.
