(* ===== verification/SecureVault.v ===== *)
(** * The encrypted vault ([service/src/storage/secureVault.ts], [persistence.ts])

    The implementation of the storage port ([Storage]) in a browser. A random master key is wrapped under a key derived from the
    user's secret and kept as metadata; records are sealed under a key derived from the master key, with their address as
    authenticated data, and kept as texts by a persistence that other tabs share. What the port promises - a compare-and-swap of
    plaintexts is atomic - is proved of the ciphertexts: [BrowserSecureStorage] decrypts, compares, encrypts and lets the
    persistence swap the texts it has read.

    The world is that of [Vault]: before access number [n] to the persistence other tabs did [others n], and the access may be
    refused or fail after it was carried out; [locks n] says whether this tab locked the vault meanwhile. AES-GCM, Argon2id, HKDF
    and random bytes are parameters. Zero-filling of key material has no effect on what is computed and is left out. *)
From S2P Require Import Prelude Json Base64 VersionFloor Storage Vault.

(* service/src/storage/secureVault.ts:7-12 PRODUCTION_ARGON2ID_PARAMETERS *)
Definition MEMORY_KIB : Z := 19456.
Definition ITERATIONS : Z := 2.
Definition PARALLELISM : Z := 1.
(* service/src/storage/secureVault.ts:14-21 constants: STORAGE_VERSION *)
Definition STORAGE_VERSION : jsval := JNum (NInt 1).
Definition ALGORITHM : string := "AES-256-GCM".
Definition NONCE_BYTES : Z := 12.
Definition SALT_BYTES : Z := 16.
Definition MASTER_KEY_BYTES : Z := 32.
Definition STORAGE_INFO : string := "k3ncrypt:storage-record:v1".
Definition PICKLE_INFO : string := "k3ncrypt:vodozemac-pickle:v1".

(** ** Persistence *)
Record Update := { key : string; before : option string; after : string }.
Record Shared := { metadata : option string; records : gmap string string }.
Definition set_records (r : gmap string string) (s : Shared) : Shared := {| metadata := metadata s; records := r |}.
Definition put_all (us : list Update) (r : gmap string string) : gmap string string := foldl (λ r u, <[key u := after u]> r) r us.
Definition all_match (us : list Update) (r : gmap string string) : bool := forallb (λ u, bool_decide (r !! key u = before u)) us.
(* service/src/storage/persistence.ts:1-9 VaultPersistence *)
Class VaultPersistence := { swap_records : list Update → gmap string string → res (bool * gmap string string) }.
(** what the vault relies on *)
Class VaultPersistenceLaws `{VaultPersistence} : Prop := {
  swap_true us r r' : swap_records us r = Ok (true, r') → NoDup (key <$> us) ∧ all_match us r = true ∧ r' = put_all us r;
  swap_false us r r' : swap_records us r = Ok (false, r') → all_match us r = false ∧ r' = r;
  swap_serves us r : us ≠ [] → NoDup (key <$> us) → ∃ x, swap_records us r = Ok x }.
(* service/src/storage/persistence.ts:17-22 MemoryVaultPersistence.compareAndSwapRecords *)
Definition memory_swap (us : list Update) (r : gmap string string) : res (bool * gmap string string) :=
  throw_if (negb (bool_decide (NoDup (key <$> us)))) "Duplicate transaction key.";;
  mret (if all_match us r then (true, put_all us r) else (false, r)).
(** The requests of one transaction are answered in order; a mismatch aborts it, the last match stores all the values. *)
(* service/src/storage/persistence.ts:110-117 IndexedDbVaultPersistence.compareAndSwapRecords, the requests *)
Fixpoint get_requests (us : list Update) (remaining : nat) (all : list Update) (r : gmap string string) : bool * gmap string string :=
  match us with
  | [] => (true, r)
  | u :: us' =>
      if negb (bool_decide (r !! key u = before u)) then (false, r) else
      match remaining with
      | 1%nat => get_requests us' 0 all (put_all all r)
      | _ => get_requests us' (pred remaining) all r
      end
  end.
(* service/src/storage/persistence.ts:98-119 IndexedDbVaultPersistence.compareAndSwapRecords *)
Definition indexedDb_swap (us : list Update) (r : gmap string string) : res (bool * gmap string string) :=
  throw_if (bool_decide (us = []) || negb (bool_decide (NoDup (key <$> us)))) "Invalid transaction.";;
  mret (get_requests us (length us) us r).
(* service/src/storage/persistence.ts:13-16 MemoryVaultPersistence.listRecordKeys *)
Definition list_keys (prefix : string) (limit : Z) (r : gmap string string) : list string * bool :=
  let keys := js_sort string_cmp (List.filter (startsWith prefix) (map_to_list r).*1) in
  (take (Z.to_nat limit) keys, limit <? Z.of_nat (length keys)).

(** ** Formats *)
(* service/src/storage/secureVault.ts:61-62 validLabel *)
Definition label_char (c : ascii) : bool :=
  is_upper c || is_lower c || is_digit c || (code c =? 46) || (code c =? 95) || (code c =? 58) || (code c =? 45).
Definition validLabel (s : string) : bool := (1 <=? strlen s) && (strlen s <=? 128) && forall_chars label_char s.
Definition bad_encoding : string := "Corrupted secure-storage encoding.".
(* service/src/storage/secureVault.ts:64-73 decodeFixed *)
Definition decodeFixed (v : jsval) (expectedLength : option Z) : res string :=
  match v with
  | JStr s =>
      throw_if (negb (nonempty s) || negb (forall_chars is_base64url s)) bad_encoding;;
      decoded ← fromBase64Url s;
      throw_if (negb (String.eqb (toBase64Url decoded) s) || match expectedLength with Some n => negb (strlen decoded =? n) | None => false end) bad_encoding;;
      mret decoded
  | _ => Err bad_encoding
  end.
(* service/src/storage/secureVault.ts:75-88 validateSecret *)
Definition validateSecret (secret type : string) : res unit :=
  if String.eqb type "pin" then
    throw_if (negb ((8 <=? strlen secret) && (strlen secret <=? 64) && forall_chars is_digit secret)) "A numeric PIN must contain between 8 and 64 digits."
  else throw_if ((strlen secret <? 12) || (1024 <? strlen secret)) "A passphrase or password must contain between 12 and 1024 characters.".
(** [kdf] is the object as it stands in the text: its members, in their order, are authenticated *)
(* service/src/storage/secureVault.ts:23-39 KdfMetadata, VaultMetadata *)
Record VaultMetadata := { unlockSecretType : string; kdf : list (string * jsval); wrappedNonce : string; wrappedCiphertext : string }.
Definition corrupted_metadata : string := "Corrupted secure-storage metadata.".
Definition unsafe_kdf : string := "Unsupported or unsafe secure-storage KDF parameters.".
(** [Number.isInteger(x)], with the value *)
Definition integer (v : jsval) : option Z := match v with JNum (NInt z) => Some z | _ => None end.
Definition integer_between (lo hi : Z) (v : jsval) : bool := match integer v with Some z => (lo <=? z) && (z <=? hi) | None => false end.
Definition kdf_safe (k : list (string * jsval)) : bool :=
  exact_keys k ["name"; "version"; "memoryKiB"; "iterations"; "parallelism"; "hashLength"; "salt"] &&
  bool_decide (get k "name" = JStr "Argon2id") && bool_decide (get k "version" = JNum (NInt 1)) && bool_decide (get k "hashLength" = JNum (NInt 32)) &&
  integer_between MEMORY_KIB 262144 (get k "memoryKiB") && integer_between 2 10 (get k "iterations") && integer_between 1 4 (get k "parallelism").
(* service/src/storage/secureVault.ts:90-129 parseMetadata *)
Definition parseMetadata (serialized : string) : res VaultMetadata :=
  value ← require (parse serialized) corrupted_metadata;
  fs ← require (as_object value) corrupted_metadata;
  throw_if (negb (exact_keys fs ["storageVersion"; "algorithm"; "unlockSecretType"; "kdf"; "wrappedMasterKey"])) corrupted_metadata;;
  throw_if (negb (bool_decide (get fs "storageVersion" = STORAGE_VERSION)) || negb (bool_decide (get fs "algorithm" = JStr ALGORITHM)))
    "Unsupported secure-storage version or algorithm.";;
  type ← require (match get fs "unlockSecretType" with JStr t => if includes ["passphrase"; "password"; "pin"] t then Some t else None | _ => None end)
    corrupted_metadata;
  k ← require (as_object (get fs "kdf")) unsafe_kdf;
  throw_if (negb (kdf_safe k)) unsafe_kdf;;
  decodeFixed (get k "salt") (Some SALT_BYTES);;
  wrapped ← require (as_object (get fs "wrappedMasterKey")) corrupted_metadata;
  throw_if (negb (exact_keys wrapped ["nonce"; "ciphertext"])) corrupted_metadata;;
  decodeFixed (get wrapped "nonce") (Some NONCE_BYTES);;
  ciphertext ← decodeFixed (get wrapped "ciphertext") None;
  throw_if (negb (strlen ciphertext =? MASTER_KEY_BYTES + 16)) corrupted_metadata;;
  match get wrapped "nonce", get wrapped "ciphertext" with
  | JStr n, JStr c => Ok {| unlockSecretType := type; kdf := k; wrappedNonce := n; wrappedCiphertext := c |}
  | _, _ => Err corrupted_metadata
  end.
(** the authenticated data of a wrapped key and of a record *)
(* service/src/storage/secureVault.ts:131-132 wrapAad, recordAad *)
Definition metadata_header (type : string) (k : list (string * jsval)) : list (string * jsval) :=
  [("storageVersion", STORAGE_VERSION); ("algorithm", JStr ALGORITHM); ("unlockSecretType", JStr type); ("kdf", JObj k)].
Definition record_header (recordType recordId : string) : list (string * jsval) :=
  [("version", STORAGE_VERSION); ("algorithm", JStr ALGORITHM); ("recordType", JStr recordType); ("recordId", JStr recordId)].
Definition wrapAad (type : string) (k : list (string * jsval)) : string := stringify (JObj (metadata_header type k)).
Definition recordAad (recordType recordId : string) : string := stringify (JObj (record_header recordType recordId)).
Definition metadata_json (m : VaultMetadata) : jsval :=
  JObj (metadata_header (unlockSecretType m) (kdf m) ++
        [("wrappedMasterKey", JObj [("nonce", JStr (wrappedNonce m)); ("ciphertext", JStr (wrappedCiphertext m))])]).
Definition record_json (recordType recordId nonce ciphertext : string) : jsval :=
  JObj (record_header recordType recordId ++ [("nonce", JStr nonce); ("ciphertext", JStr ciphertext)]).
(* service/src/storage/secureVault.ts:133-133 persistenceKey *)
Definition persistenceKey (recordType recordId : string) : string := recordType +:+ ":" +:+ recordId.
Definition corrupted_record : string := "Corrupted secure-record envelope.".
(* service/src/storage/secureVault.ts:373-396 parseRecord *)
Definition parseRecord (serialized expectedType expectedId : string) : res (string * string) :=
  value ← require (parse serialized) corrupted_record;
  fs ← require (as_object value) corrupted_record;
  throw_if (negb (exact_keys fs ["version"; "algorithm"; "recordType"; "recordId"; "nonce"; "ciphertext"])) corrupted_record;;
  throw_if (negb (bool_decide (get fs "version" = STORAGE_VERSION)) || negb (bool_decide (get fs "algorithm" = JStr ALGORITHM)))
    "Unsupported secure-record version or algorithm.";;
  throw_if (negb (bool_decide (get fs "recordType" = JStr expectedType)) || negb (bool_decide (get fs "recordId" = JStr expectedId)))
    "Secure-record metadata mismatch.";;
  nonce ← decodeFixed (get fs "nonce") (Some NONCE_BYTES);
  ciphertext ← decodeFixed (get fs "ciphertext") None;
  throw_if (strlen ciphertext <? 16) corrupted_record;;
  mret (nonce, ciphertext).

(** ** Operations *)
(* service/src/storage/secureVault.ts:161-165 BrowserSecureStorage, fields *)
Record Keys := { masterKey : option string; storageKey : option string }.
Definition no_keys : Keys := {| masterKey := None; storageKey := None |}.
Definition locked_error : string := "Secure storage is locked.".
Definition not_initialized : string := "Secure storage is not initialized.".

Section vault.
(** [encrypt key nonce aad plaintext] and its inverse; [argon2id secret salt memory iterations parallelism]; [hkdf master info] with the
    fixed salt of the code; the bytes of draw [n], as many as asked for. *)
Context (encrypt : string → string → string → string → string) (decrypt : string → string → string → string → option string)
  (argon2id : string → string → Z → Z → Z → string) (hkdf : string → string → string) (random : nat → Z → string).
Context `{VaultPersistence} (others : nat → Shared → Shared) (fault : nat → Io) (locks : nat → bool).
Notation W := (World Shared Keys).

(* service/src/storage/secureVault.ts:204-208 lock *)
Definition lock : M W unit := update_mem (λ _, no_keys).
(** one access to the persistence, during which the vault may be locked *)
Definition touch {A} (f : Shared → res A * Shared) : M W A := λ w,
  let '(r, w') := access others fault f w in (r, if locks (tick w) then with_mem (λ _, no_keys) w' else w').
Definition loadMetadata : M W (option string) := touch (λ s, (Ok (metadata s), s)).
Definition saveMetadata (v : string) : M W unit := touch (λ s, (Ok tt, {| metadata := Some v; records := records s |})).
Definition readRecord (k : string) : M W (option string) := touch (λ s, (Ok (records s !! k), s)).
Definition writeRecord (k v : string) : M W unit := touch (λ s, (Ok tt, set_records (<[k := v]> (records s)) s)).
Definition deleteRecord (k : string) : M W unit := touch (λ s, (Ok tt, set_records (delete k (records s)) s)).
Definition swapRecords (us : list Update) : M W bool :=
  touch (λ s, match swap_records us (records s) with Ok (b, r) => (Ok b, set_records r s) | Err e => (Err e, s) end).
(** [randomBytes(length)]: the draws are counted with the accesses *)
Definition randomBytes (n : Z) : M W string :=
  λ w, (Ok (random (tick w) n), {| disk := others (tick w) (disk w); tick := S (tick w); mem := mem w |}).

(* service/src/storage/secureVault.ts:398-402 validateRecordAddress *)
Definition validateRecordAddress (recordType recordId : string) : res unit :=
  throw_if (negb (validLabel recordType) || negb (validLabel recordId)) "Invalid secure-record type or identifier.".
(* service/src/storage/secureVault.ts:404-409 requireStorageKey *)
Definition requireStorageKey : M W string := k ← get_mem storageKey; require_ k locked_error.
(* service/src/storage/secureVault.ts:411-416 requireMasterKey *)
Definition requireMasterKey : M W string := k ← get_mem masterKey; require_ k locked_error.
(* service/src/storage/secureVault.ts:135-150 deriveKek *)
Definition deriveKek (secret : string) (k : list (string * jsval)) : res string :=
  salt ← decodeFixed (get k "salt") (Some SALT_BYTES);
  let number name := default 0 (integer (get k name)) in
  Ok (argon2id secret salt (number "memoryKiB") (number "iterations") (number "parallelism")).
(** the parameters of a new wrapping *)
Definition production_kdf (salt : string) : list (string * jsval) :=
  [("name", JStr "Argon2id"); ("version", JNum (NInt 1)); ("memoryKiB", JNum (NInt MEMORY_KIB)); ("iterations", JNum (NInt ITERATIONS));
   ("parallelism", JNum (NInt PARALLELISM)); ("hashLength", JNum (NInt 32)); ("salt", JStr (toBase64Url salt))].
(* service/src/storage/secureVault.ts:331-345 wrapMasterKey *)
Definition wrapMasterKey (master secret type : string) (k : list (string * jsval)) : M W VaultMetadata :=
  nonce ← randomBytes NONCE_BYTES;
  kek ← lift (deriveKek secret k);
  mret {| unlockSecretType := type; kdf := k; wrappedNonce := toBase64Url nonce;
          wrappedCiphertext := toBase64Url (encrypt kek nonce (wrapAad type k) master) |}.
(* service/src/storage/secureVault.ts:347-371 unwrapMasterKey *)
Definition unwrapMasterKey (m : VaultMetadata) (secret : string) : res string :=
  kek ← deriveKek secret (kdf m);
  rethrow (nonce ← decodeFixed (JStr (wrappedNonce m)) (Some NONCE_BYTES);
           ciphertext ← decodeFixed (JStr (wrappedCiphertext m)) None;
           master ← require (decrypt kek nonce (wrapAad (unlockSecretType m) (kdf m)) ciphertext) "OperationError";
           throw_if (negb (strlen master =? MASTER_KEY_BYTES)) "Invalid master key length.";;
           mret master) "Invalid unlock secret or corrupted secure-storage metadata.".
(* service/src/storage/secureVault.ts:324-329 activate *)
Definition activate (master : string) : M W unit :=
  let storageKey := hkdf master STORAGE_INFO in
  lock;;
  update_mem (λ _, {| masterKey := Some master; storageKey := Some storageKey |}).
(* service/src/storage/secureVault.ts:167-169 isLocked *)
Definition isLocked (k : Keys) : bool := match masterKey k, storageKey k with Some _, Some _ => false | _, _ => true end.
(* service/src/storage/secureVault.ts:171-191 initializeWithPassphrase *)
Definition initializeWithPassphrase (secret type : string) : M W unit :=
  lift (validateSecret secret type);;
  existing ← loadMetadata;
  fail_if (match existing with Some t => nonempty t | None => false end) "Secure storage is already initialized.";;
  master ← randomBytes MASTER_KEY_BYTES;
  salt ← randomBytes SALT_BYTES;
  m ← wrapMasterKey master secret type (production_kdf salt);
  saveMetadata (stringify (metadata_json m));;
  activate master.
(** the metadata, which must be there *)
Definition load_metadata : M W VaultMetadata :=
  serialized ← loadMetadata;
  text ← require_ (match serialized with Some t => if nonempty t then Some t else None | None => None end) not_initialized;
  lift (parseMetadata text).
(* service/src/storage/secureVault.ts:193-202 unlock *)
Definition unlock (secret : string) : M W unit :=
  m ← load_metadata;
  lift (validateSecret secret (unlockSecretType m));;
  master ← lift (unwrapMasterKey m secret);
  activate master.
(* service/src/storage/secureVault.ts:210-233 changeUnlockSecret *)
Definition changeUnlockSecret (currentSecret nextSecret nextType : string) : M W unit :=
  lift (validateSecret nextSecret nextType);;
  current ← load_metadata;
  lift (validateSecret currentSecret (unlockSecretType current));;
  master ← lift (unwrapMasterKey current currentSecret);
  salt ← randomBytes SALT_BYTES;
  m ← wrapMasterKey master nextSecret nextType (production_kdf salt);
  saveMetadata (stringify (metadata_json m));;
  activate master.
(** what a stored text is worth under a key, at an address *)
Definition open_record (k recordType recordId : string) (serialized : option string) : res (option string) :=
  match serialized with
  | None => Ok None
  | Some text =>
      '(nonce, ciphertext) ← parseRecord text recordType recordId;
      plaintext ← rethrow (require (decrypt k nonce (recordAad recordType recordId) ciphertext) "OperationError") "Secure record authentication failed.";
      mret (Some plaintext)
  end.
(* service/src/storage/secureVault.ts:235-253 read *)
Definition read_record (recordType recordId : string) : M W (option string) :=
  k ← requireStorageKey;
  lift (validateRecordAddress recordType recordId);;
  serialized ← readRecord (persistenceKey recordType recordId);
  lift (open_record k recordType recordId serialized).
(* service/src/storage/secureVault.ts:285-305 encryptRecord *)
Definition encryptRecord (recordType recordId plaintext : string) : M W string :=
  k ← requireStorageKey;
  lift (validateRecordAddress recordType recordId);;
  fail_if (4 * 1024 * 1024 <? strlen plaintext) "Secure records must be ArrayBuffers no larger than 4 MiB.";;
  nonce ← randomBytes NONCE_BYTES;
  mret (stringify (record_json recordType recordId (toBase64Url nonce) (toBase64Url (encrypt k nonce (recordAad recordType recordId) plaintext)))).
(* service/src/storage/secureVault.ts:255-257 write *)
Definition write_record (recordType recordId plaintext : string) : M W unit :=
  text ← encryptRecord recordType recordId plaintext;
  writeRecord (persistenceKey recordType recordId) text.
(* service/src/storage/secureVault.ts:259-266 listRecordIds *)
Definition listRecordIds (type : string) (limit : Z) : M W (list string * bool) :=
  requireStorageKey;;
  lift (validateRecordAddress type "diagnostic");;
  fail_if (negb (isSafeInteger limit) || (limit <? 1) || (1000 <? limit)) "Record metadata unavailable.";;
  '(keys, truncated) ← touch (λ s, (Ok (list_keys (type +:+ ":") limit (records s)), s));
  mret ((λ k, String.substring (String.length type + 1) (String.length k) k) <$> keys, truncated).
(** one update of a swap: [None] when the record is not what was expected, or changed between the two reads *)
(* service/src/storage/secureVault.ts:271-280 compareAndSwapRecords, the loop's body *)
Definition prepare (u : SecureRecordUpdate) : M W (option Update) :=
  let k := persistenceKey (recordType u) (recordId u) in
  lift (validateRecordAddress (recordType u) (recordId u));;
  before ← readRecord k;
  plaintext ← read_record (recordType u) (recordId u);
  if negb (bool_decide (plaintext = expected u)) then mret None else
  again ← readRecord k;
  if negb (bool_decide (again = before)) then mret None else
  text ← encryptRecord (recordType u) (recordId u) (next u);
  mret (Some {| key := k; before := before; after := text |}).
Fixpoint prepare_all (us : list SecureRecordUpdate) : M W (option (list Update)) :=
  match us with
  | [] => mret (Some [])
  | u :: us' =>
      o ← prepare u;
      match o with
      | None => mret None
      | Some p => rest ← prepare_all us'; mret (cons p <$> rest)
      end
  end.
(* service/src/storage/secureVault.ts:268-283 compareAndSwapRecords *)
Definition compareAndSwap (us : list SecureRecordUpdate) : M W bool :=
  prepared ← prepare_all us;
  match prepared with
  | None => mret false
  | Some l => requireStorageKey;; swapRecords l
  end.
(* service/src/storage/secureVault.ts:307-311 delete *)
Definition delete_record_ (recordType recordId : string) : M W unit :=
  requireStorageKey;;
  lift (validateRecordAddress recordType recordId);;
  deleteRecord (persistenceKey recordType recordId).
(* service/src/storage/secureVault.ts:314-322 withVodozemacPickleKey *)
Definition withVodozemacPickleKey {A} (operation : string → M W A) : M W A :=
  master ← requireMasterKey;
  operation (hkdf master PICKLE_INFO).
End vault.
