(* ===== verification/VaultSafety.v ===== *)
(** * The encrypted vault keeps the promise of the storage port

    [swap_is_atomic]: a compare-and-swap of the vault is one atomic step on plaintexts, although it reads, decrypts and encrypts
    record by record while other tabs write. [secret_opens_the_vault]: what a secret was set for is what it opens. The laws of
    AES-GCM used are that decryption inverts encryption and that the tag has 16 bytes; nothing is assumed of what does not
    decrypt. *)
From S2P Require Import Prelude Json Base64 VersionFloor Storage Vault SecureVault.

(** ** The two persistences *)
Lemma put_all_other us r k : k ∉ key <$> us → put_all us r !! k = r !! k.
Proof.
  revert r. induction us as [|u us IH]; intros r Hk; [done|]. rewrite fmap_cons, not_elem_of_cons in Hk. destruct Hk as [Hu Hk].
  unfold put_all in *. cbn. rewrite IH by done. by apply lookup_insert_ne.
Qed.
Lemma put_all_key us r u : NoDup (key <$> us) → u ∈ us → put_all us r !! key u = Some (after u).
Proof.
  revert r. induction us as [|u' us IH]; intros r Hnd Hu; [by apply elem_of_nil in Hu|]. rewrite fmap_cons, NoDup_cons in Hnd. destruct Hnd as [Hn Hnd].
  apply elem_of_cons in Hu as [->|Hu]; [|by apply (IH (<[key u' := after u']> r))].
  etrans; [by apply (put_all_other us (<[key u' := after u']> r))|]. apply lookup_insert_eq.
Qed.
Definition memory_persistence : VaultPersistence := {| swap_records := memory_swap |}.
Lemma memory_laws : @VaultPersistenceLaws memory_persistence.
Proof.
  split; cbn; unfold memory_swap; intros us r.
  - intros r' H. res_inv H. apply negb_false_iff, bool_decide_eq_true in H0. destruct (all_match us r); [|done]. by injection H as <-.
  - intros r' H. res_inv H. destruct (all_match us r); [done|]. by injection H as <-.
  - intros _ Hn. rewrite bool_decide_eq_true_2 by done. by eexists.
Qed.
Definition indexedDb_persistence : VaultPersistence := {| swap_records := indexedDb_swap |}.
Lemma get_requests_spec all r us : get_requests us (length us) all r =
  if all_match us r then (true, if bool_decide (us = []) then r else put_all all r) else (false, r).
Proof.
  induction us as [|u us IH]; [done|]. cbn [get_requests length all_match forallb]. destruct (bool_decide (r !! key u = before u)); cbn [negb andb]; [|done].
  destruct us as [|u' us]; [done|]. etrans; [exact IH|]. by rewrite !bool_decide_eq_false_2 by done.
Qed.
Lemma indexedDb_laws : @VaultPersistenceLaws indexedDb_persistence.
Proof.
  split; cbn; unfold indexedDb_swap; intros us r.
  - intros r' H. res_inv H. apply orb_false_iff in H0 as [Hne%bool_decide_eq_false Hn%negb_false_iff%bool_decide_eq_true].
    rewrite get_requests_spec, bool_decide_eq_false_2 in H by done. destruct (all_match us r); [|done]. by injection H as <-.
  - intros r' H. res_inv H. rewrite get_requests_spec in H. destruct (all_match us r); [done|]. by injection H as <-.
  - intros Hne Hn. rewrite bool_decide_eq_false_2, bool_decide_eq_true_2 by done. by eexists.
Qed.

Lemma decode_encoded s o : s ≠ "" → match o with Some n => strlen s = n | None => True end → decodeFixed (JStr (toBase64Url s)) o = Ok s.
Proof.
  intros Hs Ho. unfold decodeFixed. rewrite toBase64Url_nonempty, toBase64Url_chars by done. cbn [negb orb throw_if mbind res_bind].
  rewrite base64url_roundtrip by done. cbn [mbind res_bind]. rewrite String.eqb_refl. cbn [negb orb].
  destruct o as [n|]; [|done]. by rewrite Ho, Z.eqb_refl.
Qed.
Lemma strlen_pos s : 0 < strlen s → s ≠ "".
Proof. by intros H ->. Qed.

Section vault.
Context (encrypt : string → string → string → string → string) (decrypt : string → string → string → string → option string)
  (argon2id : string → string → Z → Z → Z → string) (hkdf : string → string → string) (random : nat → Z → string).
Context `{VaultPersistenceLaws} (others : nat → Shared → Shared) (fault : nat → Io) (locks : nat → bool).
Context (decrypt_encrypt : ∀ k n a p, decrypt k n a (encrypt k n a p) = Some p)
  (encrypt_length : ∀ k n a p, strlen (encrypt k n a p) = strlen p + 16)
  (random_length : ∀ n l, 0 ≤ l → strlen (random n l) = l).
Notation W := (World Shared Keys).
Notation drift := (drift others).
Notation open_record := (open_record decrypt).
Notation compareAndSwap := (compareAndSwap encrypt decrypt random others fault locks).
Notation prepare := (prepare encrypt decrypt random others fault locks).
Notation prepare_all := (prepare_all encrypt decrypt random others fault locks).

(** ** Records *)
Lemma open_sealed_record k t i nonce plaintext : strlen nonce = NONCE_BYTES →
  open_record k t i (Some (stringify (record_json t i (toBase64Url nonce) (toBase64Url (encrypt k nonce (recordAad t i) plaintext))))) = Ok (Some plaintext).
Proof using decrypt_encrypt encrypt_length.
  intros Hn. unfold SecureVault.open_record, parseRecord. rewrite parse_stringify by done. cbn [require mbind res_bind as_object record_json].
  change (exact_keys _ _) with true. cbn [negb throw_if mbind res_bind]. cbn [record_header app get String.eqb Ascii.eqb Bool.eqb].
  rewrite !bool_decide_eq_true_2 by done. cbn [negb orb throw_if mbind res_bind].
  assert (nonce ≠ "") by (apply strlen_pos; by rewrite Hn).
  rewrite (decode_encoded nonce (Some NONCE_BYTES)) by assumption. cbn [mbind res_bind].
  pose proof (encrypt_length k nonce (recordAad t i) plaintext) as Hl. assert (0 ≤ strlen plaintext) by (unfold strlen; lia).
  assert (encrypt k nonce (recordAad t i) plaintext ≠ "") by (apply strlen_pos; lia).
  rewrite (decode_encoded _ None) by done. cbn [mbind res_bind].
  rewrite (proj2 (Z.ltb_ge _ _)) by lia. cbn. by rewrite decrypt_encrypt.
Qed.

(** ** Steps that only read *)
(** others may write, and the vault may be locked *)
Definition fading (w w' : W) : Prop := drift w w' ∧ (mem w' = mem w ∨ mem w' = no_keys).
#[local] Instance fading_preorder : PreOrder fading.
Proof.
  split; [intros w; split; [done|by left]|]. intros w1 w2 w3 [D1 M1] [D2 M2]. split; [by etrans|].
  destruct M2 as [->|?]; [done|by right].
Qed.
Lemma fading_touch {A} (f : Shared → A) : always fading (touch others fault locks (λ s, (Ok (f s), s))).
Proof.
  intros w x w'. unfold touch, access. intros E. assert (drift w w' ∧ mem w' = if locks (tick w) then no_keys else mem w) as [Hd Hm].
  { destruct (fault (tick w)), (locks (tick w)); injection E as <- <-; (split; [|done]); exists 1%nat; cbn; split; (lia || done). }
  split; [done|]. rewrite Hm. destruct (locks (tick w)); auto.
Qed.
Lemma fading_random n : always fading (randomBytes random others n).
Proof. intros w x w' [= _ <-]. split; [|by left]. exists 1%nat. cbn. split; [lia|done]. Qed.
Lemma fading_key : always fading requireStorageKey.
Proof. apply always_bind; [apply _|by apply always_gets, _|]. intros k. by apply always_lift, _. Qed.
Hint Extern 1 (PreOrder _) => apply _ : k3.
Hint Resolve fading_touch fading_random fading_key : k3.
Lemma fading_read t i : always fading (read_record decrypt others fault locks t i).
Proof. unfold read_record, readRecord. along idtac. Qed.
Lemma fading_encrypt t i p : always fading (encryptRecord encrypt random others t i p).
Proof. unfold encryptRecord, fail_if. along idtac. Qed.

(** ** What they learn *)
Lemma key_run w k w' : requireStorageKey w = (Ok k, w') → storageKey (mem w) = Some k ∧ w' = w.
Proof. unfold requireStorageKey, get_mem, require_. rewrite gets_bind. intros (Hk & ->)%lift_run. by apply require_ok in Hk. Qed.
Lemma fading_back w w' k : fading w w' → storageKey (mem w') = Some k → storageKey (mem w) = Some k.
Proof. by intros [_ [->| ->]]. Qed.
Lemma readRecord_run k w o w' : readRecord others fault locks k w = (Ok o, w') → fading w w' ∧ o = records (disk w') !! k.
Proof.
  intros E. split; [by apply (fading_touch (λ s, records s !! k) _ _ _ E)|]. unfold readRecord, touch, access in E.
  destruct (fault (tick w)), (locks (tick w)); try done; by injection E as <- <-.
Qed.
Lemma read_record_run t i w p w' : read_record decrypt others fault locks t i w = (Ok p, w') →
  ∃ k, storageKey (mem w) = Some k ∧ fading w w' ∧ open_record k t i (records (disk w') !! persistenceKey t i) = Ok p.
Proof.
  intros E. pose proof (fading_read t i w _ _ E) as Hf. unfold read_record in E. apply bind_ok_run in E as (k & w1 & [Hk ->]%key_run & E).
  apply bind_ok_run in E as (u & w2 & [_ ->]%lift_run & E). apply bind_ok_run in E as (o & w3 & [_ ->]%readRecord_run & E).
  apply lift_run in E as [E ->]. eauto.
Qed.
Lemma encrypt_run t i p w text w' : encryptRecord encrypt random others t i p w = (Ok text, w') →
  ∃ k, storageKey (mem w) = Some k ∧ fading w w' ∧ open_record k t i (Some text) = Ok (Some p).
Proof using decrypt_encrypt encrypt_length random_length.
  intros E. pose proof (fading_encrypt t i p w _ _ E) as Hf. unfold encryptRecord in E. apply bind_ok_run in E as (k & w1 & [Hk ->]%key_run & E).
  apply bind_ok_run in E as (u & w2 & [_ ->]%lift_run & E). apply bind_ok_run in E as (u' & w3 & [_ ->]%fail_if_run & E).
  apply bind_ok_run in E as (nonce & w4 & E4 & E). injection E as <- ->. exists k. split; [done|]. split; [done|].
  apply open_sealed_record. injection E4 as <- _. by apply random_length.
Qed.

(** ** The swap *)
(** While an update is prepared the text of its record does not change and change back: new texts have new nonces, and a record is
    not created and deleted again meanwhile. *)
Context (no_return : ∀ n j k s key, (j ≤ k)%nat → records (drifted others n k s) !! key = records s !! key →
  records (drifted others n j s) !! key = records s !! key).
Definition prepared (k : string) (u : SecureRecordUpdate) (p : Update) : Prop :=
  key p = persistenceKey (recordType u) (recordId u) ∧ open_record k (recordType u) (recordId u) (before p) = Ok (expected u) ∧
  open_record k (recordType u) (recordId u) (Some (after p)) = Ok (Some (next u)).
Lemma fading_prepare u : always fading (prepare u).
Proof. unfold SecureVault.prepare, readRecord. pose proof fading_read. pose proof fading_encrypt. along idtac. Qed.
Lemma fading_prepare_all us : always fading (prepare_all us).
Proof.
  induction us as [|u us IH]; cbn; [by apply always_mret, _|]. apply always_bind; [apply _|apply fading_prepare|]. intros [p|]; [|by apply always_mret, _].
  apply always_bind; [apply _|done|]. intros o. by apply always_mret, _.
Qed.
Lemma prepare_run u w p w' : prepare u w = (Ok (Some p), w') → ∃ k, storageKey (mem w) = Some k ∧ prepared k u p.
Proof using decrypt_encrypt encrypt_length no_return random_length.
  unfold SecureVault.prepare. intros E. apply bind_ok_run in E as (u' & w0 & [_ ->]%lift_run & E).
  apply bind_ok_run in E as (o & w1 & [H1 Ho]%readRecord_run & E). apply bind_ok_run in E as (x & w2 & (k & Hk & H2 & Hx)%read_record_run & E).
  case_bool_decide as Hx'; [|done]. cbn [negb] in E. apply bind_ok_run in E as (o' & w3 & [H3 Ho']%readRecord_run & E).
  case_bool_decide as He; [|done]. cbn [negb] in E. apply bind_ok_run in E as (text & w4 & (k' & Hk' & H4 & Ht)%encrypt_run & E).
  injection E as <- <-. assert (storageKey (mem w1) = Some k') as Hk1.
  { eapply fading_back; [|exact Hk']. by etrans. }
  assert (k' = k) as -> by congruence. exists k. split; [by eapply fading_back|]. split; [done|]. cbn. split; [|exact Ht].
  destruct H2 as [(j & T2 & D2) _], H3 as [(j' & T3 & D3) _].
  assert (records (disk w2) !! persistenceKey (recordType u) (recordId u) = records (disk w1) !! persistenceKey (recordType u) (recordId u)) as Eq.
  { rewrite D2. apply (no_return (tick w1) j (j + j')%nat); [lia|]. unfold drifted in *. by rewrite seq_app, foldl_app, <-D2, <-T2, <-D3, <-Ho', He, Ho. }
  rewrite Ho, <-Eq, <-Hx'. done.
Qed.
Lemma prepare_all_run us w l w' k : prepare_all us w = (Ok (Some l), w') → storageKey (mem w') = Some k → Forall2 (prepared k) us l.
Proof using decrypt_encrypt encrypt_length no_return random_length.
  revert w l. induction us as [|u us IH]; intros w l; cbn; [by intros [= <- <-]|]. intros E Hk.
  apply bind_ok_run in E as (o & w1 & E1 & E). destruct o as [p|]; [|done]. apply bind_ok_run in E as (rest & w2 & E2 & E).
  injection E as Er <-. destruct rest as [l'|]; [|done]. injection Er as <-. pose proof (fading_prepare_all us w1 _ _ E2) as Hf.
  constructor; [|by eapply IH]. pose proof (fading_prepare u w _ _ E1) as Hf1. apply prepare_run in E1 as (k' & Hk' & Hp).
  assert (storageKey (mem w) = Some k) as Hk2 by (eapply fading_back; [|exact Hk]; by etrans). congruence.
Qed.
(** what the port promises of a swap that took place, from storage [s] to [s'] *)
Definition address (u : SecureRecordUpdate) : string := persistenceKey (recordType u) (recordId u).
Definition opened (k : string) (s : Shared) (u : SecureRecordUpdate) : res (option string) :=
  open_record k (recordType u) (recordId u) (records s !! address u).
Definition swapped (k : string) (us : list SecureRecordUpdate) (s s' : Shared) : Prop :=
  (∀ u, u ∈ us → opened k s u = Ok (expected u) ∧ opened k s' u = Ok (Some (next u))) ∧
  (∀ key, key ∉ address <$> us → records s' !! key = records s !! key) ∧ metadata s' = metadata s.
Lemma put_swapped k us l s r : Forall2 (prepared k) us l → swap_records l (records s) = Ok (true, r) → swapped k us s (set_records r s).
Proof using H0.
  intros Hp (Hnd & Hm & ->)%swap_true. assert (key <$> l = address <$> us) as Ek.
  { clear Hnd Hm. induction Hp as [|u p us l (Hk & _) _ IH]; [done|]. by rewrite !fmap_cons, IH, Hk. }
  split; [|split; [|done]].
  - intros u (i & Hi)%list_elem_of_lookup_1. destruct (Forall2_lookup_l _ _ _ _ _ Hp Hi) as (p & Hp' & Hk & Hb & Ha).
    apply list_elem_of_lookup_2 in Hp'. unfold opened, address. cbn. rewrite <-!Hk. rewrite (put_all_key l _ p) by done. split; [|done].
    unfold all_match in Hm. rewrite forallb_forall in Hm. apply list_elem_of_In in Hp'. apply Hm, bool_decide_eq_true in Hp' as ->. done.
  - intros k' Hk'. cbn. apply put_all_other. by rewrite Ek.
Qed.

(** ** Secrets *)
Notation unwrapMasterKey := (unwrapMasterKey decrypt argon2id).
Notation unlock := (unlock decrypt argon2id hkdf others fault locks).
Notation initializeWithPassphrase := (initializeWithPassphrase encrypt argon2id hkdf random others fault locks).
Notation changeUnlockSecret := (changeUnlockSecret encrypt decrypt argon2id hkdf random others fault locks).
Definition keys_of (m : string) : Keys := {| masterKey := Some m; storageKey := Some (hkdf m STORAGE_INFO) |}.
(** the text stored as metadata opens with the secret, to the master key *)
Definition unlocks (text secret m : string) : Prop := nonempty text = true ∧ ∃ md, parseMetadata text = Ok md ∧
  validateSecret secret (unlockSecretType md) = Ok tt ∧ unwrapMasterKey md secret = Ok m.
Lemma parse_metadata type salt nonce ciphertext : includes ["passphrase"; "password"; "pin"] type = true → strlen salt = SALT_BYTES →
  strlen nonce = NONCE_BYTES → strlen ciphertext = MASTER_KEY_BYTES + 16 →
  let md := {| unlockSecretType := type; kdf := production_kdf salt; wrappedNonce := toBase64Url nonce; wrappedCiphertext := toBase64Url ciphertext |} in
  parseMetadata (stringify (metadata_json md)) = Ok md.
Proof.
  intros Ht Hs Hn Hc md. assert (salt ≠ "" ∧ nonce ≠ "" ∧ ciphertext ≠ "") as (Hs' & Hn' & Hc') by (split_and!; apply strlen_pos; by rewrite ?Hs, ?Hn, ?Hc).
  unfold parseMetadata. rewrite parse_stringify by done. subst md. cbn [require mbind res_bind as_object metadata_json unlockSecretType kdf wrappedNonce wrappedCiphertext].
  change (exact_keys _ ["storageVersion"; "algorithm"; "unlockSecretType"; "kdf"; "wrappedMasterKey"]) with true. cbn [negb throw_if mbind res_bind metadata_header app get String.eqb Ascii.eqb Bool.eqb].
  rewrite !bool_decide_eq_true_2 by done. cbn [negb orb throw_if mbind res_bind]. rewrite Ht. cbn [require mbind res_bind as_object].
  change (kdf_safe _) with true. cbn [negb throw_if mbind res_bind production_kdf get String.eqb Ascii.eqb Bool.eqb].
  rewrite (decode_encoded salt (Some SALT_BYTES)) by assumption. cbn [mbind res_bind require as_object].
  change (exact_keys _ ["nonce"; "ciphertext"]) with true. cbn [negb throw_if mbind res_bind get String.eqb Ascii.eqb Bool.eqb].
  rewrite (decode_encoded nonce (Some NONCE_BYTES)) by assumption. cbn [mbind res_bind].
  rewrite (decode_encoded ciphertext None) by done. cbn [mbind res_bind]. by rewrite Hc, Z.eqb_refl.
Qed.
Lemma derive_kek secret salt : strlen salt = SALT_BYTES → ∃ kek, deriveKek argon2id secret (production_kdf salt) = Ok kek.
Proof.
  intros Hs. assert (salt ≠ "") by (apply strlen_pos; by rewrite Hs). unfold deriveKek, production_kdf. cbn [get String.eqb Ascii.eqb Bool.eqb].
  rewrite (decode_encoded salt (Some SALT_BYTES)) by assumption. by eexists.
Qed.
Lemma wrap_run m secret type salt w md w' : includes ["passphrase"; "password"; "pin"] type = true → strlen salt = SALT_BYTES → strlen m = MASTER_KEY_BYTES →
  validateSecret secret type = Ok tt → wrapMasterKey encrypt argon2id random others m secret type (production_kdf salt) w = (Ok md, w') →
  drift w w' ∧ unlocks (stringify (metadata_json md)) secret m.
Proof using decrypt_encrypt encrypt_length random_length.
  intros Ht Hs Hm Hv E. unfold wrapMasterKey in E. apply bind_ok_run in E as (nonce & w1 & E1 & E).
  pose proof (fading_random NONCE_BYTES w _ _ E1) as [Hd _]. injection E1 as En _.
  assert (strlen nonce = NONCE_BYTES) as Hn by (rewrite <-En; by apply random_length).
  apply bind_ok_run in E as (kek & w2 & [Hk ->]%lift_run & E). injection E as <- <-. split; [done|]. split; [done|].
  assert (strlen (encrypt kek nonce (wrapAad type (production_kdf salt)) m) = MASTER_KEY_BYTES + 16) as Hc by by rewrite encrypt_length, Hm.
  eexists. split; [by apply parse_metadata|]. split; [done|]. unfold SecureVault.unwrapMasterKey. cbn [kdf unlockSecretType wrappedNonce wrappedCiphertext].
  rewrite Hk. cbn [mbind res_bind]. assert (nonce ≠ "") by (apply strlen_pos; by rewrite Hn). rewrite (decode_encoded nonce (Some NONCE_BYTES)) by assumption.
  cbn [mbind res_bind]. rewrite (decode_encoded _ None); [|by apply strlen_pos; rewrite Hc|done]. cbn [mbind res_bind].
  rewrite decrypt_encrypt. cbn [require mbind res_bind]. by rewrite Hm, Z.eqb_refl.
Qed.
Lemma save_run v w w' : saveMetadata others fault locks v w = (Ok tt, w') → metadata (disk w') = Some v.
Proof. unfold saveMetadata, touch, access. destruct (fault (tick w)), (locks (tick w)); try done; by intros [= <-]. Qed.
Lemma activate_run m w : activate hkdf m w = (Ok tt, {| disk := disk w; tick := tick w; mem := keys_of m |}).
Proof. done. Qed.
Lemma unlock_run text secret m w : fault (tick w) = io_done → metadata (others (tick w) (disk w)) = Some text → unlocks text secret m →
  ∃ w', unlock secret w = (Ok tt, w') ∧ mem w' = keys_of m.
Proof.
  intros Hf Hm (Hne & md & Hp & Hv & Hu). unfold SecureVault.unlock, load_metadata, loadMetadata, touch, access, mbind, M_bind. rewrite Hf, Hm.
  cbn. destruct (locks (tick w)); cbn; rewrite Hne; cbn; rewrite Hp; cbn; rewrite Hv; cbn; rewrite Hu; cbn; by eexists.
Qed.
Lemma load_metadata_run w md w' : load_metadata others fault locks w = (Ok md, w') → fading w w' ∧ ∃ text, metadata (disk w') = Some text ∧ nonempty text = true ∧
  parseMetadata text = Ok md.
Proof.
  intros E. unfold load_metadata in E. apply bind_ok_run in E as (o & w1 & E1 & E). pose proof (fading_touch metadata w _ _ E1) as Hf.
  apply bind_ok_run in E as (text & w2 & [Ht ->]%lift_run & E). apply lift_run in E as [Hp ->]. split; [done|]. exists text. apply require_ok in Ht.
  assert (o = metadata (disk w1)) as ->; [|by destruct (metadata (disk w1)) as [t|]; [|done]; destruct (nonempty t) eqn:En; [injection Ht as ->|done]].
  unfold loadMetadata, touch, access in E1. destruct (fault (tick w)), (locks (tick w)); try done; by injection E1 as <- <-.
Qed.
Lemma unwrap_length md secret m : unwrapMasterKey md secret = Ok m → strlen m = MASTER_KEY_BYTES.
Proof.
  unfold SecureVault.unwrapMasterKey. intros (kek & _ & E)%bind_ok. apply rethrow_ok in E. apply bind_ok in E as (n & _ & E).
  apply bind_ok in E as (c & _ & E). apply bind_ok in E as (master & _ & E). apply bind_ok in E as (u & Hl & E).
  apply throw_if_ok, negb_false_iff, Z.eqb_eq in Hl. by injection E as <-.
Qed.
Lemma activated m text w w' : metadata (disk w) = Some text → activate hkdf m w = (Ok tt, w') → mem w' = keys_of m ∧ metadata (disk w') = Some text.
Proof. by intros Hm [= <-]. Qed.
Lemma initialize_run secret type w w' : includes ["passphrase"; "password"; "pin"] type = true → initializeWithPassphrase secret type w = (Ok tt, w') →
  ∃ m text, mem w' = keys_of m ∧ metadata (disk w') = Some text ∧ unlocks text secret m.
Proof using decrypt_encrypt encrypt_length random_length.
  intros Ht E. unfold SecureVault.initializeWithPassphrase in E. apply bind_ok_run in E as ([] & w0 & [Hv ->]%lift_run & E).
  apply bind_ok_run in E as (o & w1 & _ & E). apply bind_ok_run in E as (u & w2 & [_ ->]%fail_if_run & E).
  apply bind_ok_run in E as (m & w3 & E3 & E). injection E3 as Em _. apply bind_ok_run in E as (salt & w4 & E4 & E). injection E4 as Es _.
  apply bind_ok_run in E as (md & w5 & E5 & E). apply bind_ok_run in E as ([] & w6 & E6%save_run & E). exists m, (stringify (metadata_json md)).
  apply wrap_run in E5 as [_ Hu]; [|done|by rewrite <-Es; apply random_length|by rewrite <-Em; apply random_length|done].
  destruct (activated m _ w6 w' E6 E) as [? ?]. done.
Qed.
Lemma change_run current secret type w w' : includes ["passphrase"; "password"; "pin"] type = true → changeUnlockSecret current secret type w = (Ok tt, w') →
  ∃ m text, mem w' = keys_of m ∧ metadata (disk w') = Some text ∧ unlocks text secret m ∧
    ∃ w1 text1, drift w w1 ∧ metadata (disk w1) = Some text1 ∧ unlocks text1 current m.
Proof using decrypt_encrypt encrypt_length random_length.
  intros Ht E. unfold SecureVault.changeUnlockSecret in E. apply bind_ok_run in E as ([] & w0 & [Hv ->]%lift_run & E).
  apply bind_ok_run in E as (md0 & w1 & ([Hd _] & text1 & Ht1 & Hne & Hp)%load_metadata_run & E). apply bind_ok_run in E as ([] & w2 & [Hv1 ->]%lift_run & E).
  apply bind_ok_run in E as (m & w3 & [Hu1 ->]%lift_run & E). pose proof (unwrap_length _ _ _ Hu1) as Hl.
  apply bind_ok_run in E as (salt & w4 & E4 & E). injection E4 as Es _. apply bind_ok_run in E as (md & w5 & E5 & E).
  apply bind_ok_run in E as ([] & w6 & E6%save_run & E). exists m, (stringify (metadata_json md)).
  apply wrap_run in E5 as [_ Hu]; [|done|by rewrite <-Es; apply random_length|done..].
  destruct (activated m _ w6 w' E6 E) as [? ?]. split; [done|]. split; [done|]. split; [done|]. exists w1, text1. split; [done|].
  split; [done|]. split; [done|]. by exists md0.
Qed.
(** wherever the stored metadata is found, the secret unlocks the vault to the keys that are in memory *)
Definition reopens (secret m : string) (w : W) : Prop := mem w = keys_of m ∧
  ∀ v, fault (tick v) = io_done → metadata (others (tick v) (disk v)) = metadata (disk w) → ∃ v', unlock secret v = (Ok tt, v') ∧ mem v' = mem w.
(** C12: a vault opens with the secret that was set for it, to the same keys. After a vault was initialised with a secret, or the
    secret was changed, unlocking with that secret succeeds wherever and whenever the stored metadata is found, and yields exactly
    the keys that initialising or changing left in memory, so every record sealed before stays readable; and changing the secret
    keeps the master key that the old secret opened. *)
Theorem secret_opens_the_vault secret type w w' : includes ["passphrase"; "password"; "pin"] type = true →
  (initializeWithPassphrase secret type w = (Ok tt, w') → ∃ m, reopens secret m w') ∧
  (∀ current, changeUnlockSecret current secret type w = (Ok tt, w') →
    ∃ m, reopens secret m w' ∧ ∃ w1 text, drift w w1 ∧ metadata (disk w1) = Some text ∧ unlocks text current m).
Proof using decrypt_encrypt encrypt_length random_length.
  intros Ht. assert (∀ m text, mem w' = keys_of m → metadata (disk w') = Some text → unlocks text secret m → reopens secret m w') as Hr.
  { intros m text Hk Hm Hu. split; [done|]. intros v Hf Hv. rewrite Hk. apply (unlock_run text); [done|by rewrite Hv|done]. }
  split.
  - intros (m & text & Hk & Hm & Hu)%initialize_run; [|done]. exists m. by eapply Hr.
  - intros current (m & text & Hk & Hm & Hu & Hc)%change_run; [|done]. exists m. split; [by eapply Hr|done].
Qed.
End vault.

(** ** A vault, with toy ciphers *)
Module Toy.
Fixpoint pad (n : nat) : string := match n with O => "" | S n => String "x" (pad n) end.
Definition encrypt (k n a p : string) : string := pad 16 +:+ p.
Definition decrypt (k n a c : string) : option string := strip_prefix (pad 16) c.
Definition argon2id (secret salt : string) (m i p : Z) : string := secret.
Definition hkdf (m info : string) : string := info +:+ m.
Definition random (n : nat) (l : Z) : string := pad (Z.to_nat l).
(** another tab writes a record of its own before each access *)
Definition others (n : nat) (s : Shared) : Shared := set_records (<["other:record" := "text"]> (records s)) s.
Definition served (n : nat) : Io := io_done.
Definition unlocked (n : nat) : bool := false.
Lemma decrypt_encrypt k n a p : decrypt k n a (encrypt k n a p) = Some p.
Proof. done. Qed.
Lemma encrypt_length k n a p : strlen (encrypt k n a p) = strlen p + 16.
Proof. unfold strlen, encrypt. rewrite sapp_length. cbn. lia. Qed.
Lemma pad_length n : String.length (pad n) = n.
Proof. induction n; cbn; congruence. Qed.
Lemma random_length n l : 0 ≤ l → strlen (random n l) = l.
Proof. intros H. unfold strlen, random. rewrite pad_length. lia. Qed.
Lemma drifted_once n k s : records (drifted others n (S k) s) = <["other:record" := "text"]> (records s).
Proof.
  assert (∀ l x, records (foldl (λ d m, others m d) s (l ++ [x])) = <["other:record" := "text"]> (records s)) as Hl.
  { intros l x. rewrite foldl_app. cbn. induction l as [|y l IH] using rev_ind; [done|]. rewrite foldl_app. cbn. rewrite IH.
    by rewrite insert_insert_eq. }
  unfold drifted. rewrite seq_S. apply Hl.
Qed.
Lemma no_return n j k s key : (j ≤ k)%nat → records (drifted others n k s) !! key = records s !! key →
  records (drifted others n j s) !! key = records s !! key.
Proof. intros Hj. destruct j as [|j]; [done|]. destruct k as [|k]; [lia|]. by rewrite !drifted_once. Qed.
Definition empty : World Shared Keys := {| disk := {| metadata := None; records := ∅ |}; tick := 0; mem := no_keys |}.
Definition secret : string := "correct horse battery".
Definition made := @initializeWithPassphrase encrypt argon2id hkdf random others served unlocked secret "passphrase" empty.
Definition changed := @changeUnlockSecret encrypt decrypt argon2id hkdf random others served unlocked secret "87654321" "pin" made.2.
Definition updates : list SecureRecordUpdate :=
  [{| recordType := "notes"; recordId := "a"; expected := None; next := "first" |};
   {| recordType := "notes"; recordId := "b"; expected := None; next := "second" |}].
Definition written := @compareAndSwap encrypt decrypt random indexedDb_persistence others served unlocked updates made.2.
Lemma made_ok : made = (Ok tt, made.2).
Proof. by vm_compute. Qed.
Lemma changed_ok : changed = (Ok tt, changed.2).
Proof. by vm_compute. Qed.
Lemma written_ok : written = (Ok true, written.2).
Proof. by vm_compute. Qed.
End Toy.
Lemma secret_opens_the_vault_witness : ∃ m, reopens Toy.decrypt Toy.argon2id Toy.hkdf Toy.others Toy.served Toy.unlocked "87654321" m Toy.changed.2 ∧
  ∃ w1 text, drift Toy.others Toy.made.2 w1 ∧ metadata (disk w1) = Some text ∧ unlocks Toy.decrypt Toy.argon2id text Toy.secret m.
Proof.
  apply (secret_opens_the_vault Toy.encrypt Toy.decrypt Toy.argon2id Toy.hkdf Toy.random Toy.others Toy.served Toy.unlocked Toy.decrypt_encrypt
    Toy.encrypt_length Toy.random_length "87654321" "pin" Toy.made.2 Toy.changed.2).
  - reflexivity.
  - apply Toy.changed_ok.
Defined.
