(* ===== verification/Calls.v ===== *)
(** * Calls between two participants ([service/src/calls/composition.ts], [authenticatedTransport.ts])

    The composition ties the parts of a call together: the service and its sessions ([CallState]), the gate for signals
    ([CallSignaling]), the encrypted transport, the expiry timers, and the negotiator that is given the media signals. Every
    operation and every signal runs on the event loop ([EventLoop]): what the identity verifier, the transport and the negotiator
    answer comes later, and the verification of a contact may change meanwhile.

    An event of a call is one step, which [CallState.event_queue_is_atomic] justifies. [decode] is not modelled: a plaintext is the
    signal it decodes to, if any. Diagnostics are left out, and [watchVerification], which only calls its callback. *)
From S2P Require Import Prelude Json CallState CallSignaling EventLoop.

(** What the verifier and the device trust answer now. *)
Record Authority := {
  trusted : bool; verifier : CallIdentityVerifier; bindingOf : string → CallParticipant * CallParticipant → string }.
(** Who caused an event: the user of this device, a signal of the contact, the expiry timer, or the composition itself and the negotiator. *)
Inductive Origin := here | from (signal : CallSignal) | clock | machinery.
Inductive TimerKind := expiry_of (id : string) | cooling.
(** What others see: [media] is a signal given to a listener of the negotiator, with the session it was given. *)
Inductive Action :=
| transmitted (request : nat) (signal : CallSignal)
| notified (session : CallSession)
| media (call : nat) (listener : nat) (session : CallSession) (signal : CallSignal)
| protocol_issue (id : string) (received : Z)
| proofs_warmed | proofs_cooled
| happened (origin : Origin) (id : string) (e : CallEvent) (time : Z).

(* service/src/calls/composition.ts:61-78 createAuthenticatedCallComposition, the state *)
Record Calls (RS : Type) := {
  repository : CallRepository; replay : RS; activeCallId : option string; sequences : gmap string Z; endings : gmap string nat;
  expiryTimers : gmap string nat; coolTimer : option nat; timers : gmap nat (Z * TimerKind); pendingMedia : list (CallSignal * Z);
  mediaListeners : list nat; authority : Authority; now : Z; counter : nat; trace : list Action;
  promises : gmap nat (res unit); results : gmap nat (res unit) }.
Arguments repository {RS} _. Arguments replay {RS} _. Arguments activeCallId {RS} _. Arguments sequences {RS} _. Arguments endings {RS} _.
Arguments expiryTimers {RS} _. Arguments coolTimer {RS} _. Arguments timers {RS} _. Arguments pendingMedia {RS} _. Arguments mediaListeners {RS} _.
Arguments authority {RS} _. Arguments now {RS} _. Arguments counter {RS} _. Arguments trace {RS} _. Arguments promises {RS} _. Arguments results {RS} _.
Section setters.
Context {RS : Type}.
Notation W := (Calls RS).
Definition with_sessions (r : CallRepository) (p : RS) (l : list Action) (w : W) : W := {|
  repository := r; replay := p; activeCallId := activeCallId w; sequences := sequences w; endings := endings w; expiryTimers := expiryTimers w;
  coolTimer := coolTimer w; timers := timers w; pendingMedia := pendingMedia w; mediaListeners := mediaListeners w; authority := authority w;
  now := now w; counter := counter w; trace := trace w ++ l; promises := promises w; results := results w |}.
Definition with_active (a : option string) (s : gmap string Z) (e : gmap string nat) (w : W) : W := {|
  repository := repository w; replay := replay w; activeCallId := a; sequences := s; endings := e; expiryTimers := expiryTimers w;
  coolTimer := coolTimer w; timers := timers w; pendingMedia := pendingMedia w; mediaListeners := mediaListeners w; authority := authority w;
  now := now w; counter := counter w; trace := trace w; promises := promises w; results := results w |}.
Definition with_timers (x : gmap string nat) (c : option nat) (t : gmap nat (Z * TimerKind)) (w : W) : W := {|
  repository := repository w; replay := replay w; activeCallId := activeCallId w; sequences := sequences w; endings := endings w; expiryTimers := x;
  coolTimer := c; timers := t; pendingMedia := pendingMedia w; mediaListeners := mediaListeners w; authority := authority w;
  now := now w; counter := counter w; trace := trace w; promises := promises w; results := results w |}.
Definition with_media (p : list (CallSignal * Z)) (l : list nat) (w : W) : W := {|
  repository := repository w; replay := replay w; activeCallId := activeCallId w; sequences := sequences w; endings := endings w;
  expiryTimers := expiryTimers w; coolTimer := coolTimer w; timers := timers w; pendingMedia := p; mediaListeners := l; authority := authority w;
  now := now w; counter := counter w; trace := trace w; promises := promises w; results := results w |}.
Definition with_promises (n : nat) (p : gmap nat (res unit)) (w : W) : W := {|
  repository := repository w; replay := replay w; activeCallId := activeCallId w; sequences := sequences w; endings := endings w;
  expiryTimers := expiryTimers w; coolTimer := coolTimer w; timers := timers w; pendingMedia := pendingMedia w; mediaListeners := mediaListeners w;
  authority := authority w; now := now w; counter := n; trace := trace w; promises := p; results := results w |}.
(** time passes, the authority changes, and results arrive *)
Definition elapsed (a : Authority) (t : Z) (r : gmap nat (res unit)) (w : W) : W := {|
  repository := repository w; replay := replay w; activeCallId := activeCallId w; sequences := sequences w; endings := endings w;
  expiryTimers := expiryTimers w; coolTimer := coolTimer w; timers := timers w; pendingMedia := pendingMedia w; mediaListeners := mediaListeners w;
  authority := a; now := t; counter := counter w; trace := trace w; promises := promises w; results := r |}.
Definition fresh : M W nat := λ w, (Ok (counter w), with_promises (S (counter w)) (promises w) w).
(** a promise is settled once *)
#[export] Instance calls_promises : Promises W := {|
  claim_promise := fresh;
  settle_promise p r := modify (λ w, match promises w !! p with Some _ => w | None => with_promises (counter w) (<[p := r]> (promises w)) w end);
  promise_outcome p w := promises w !! p |}.
End setters.

(* service/src/calls/composition.ts:16-17 TERMINAL_SIGNAL_WAIT_MS, TERMINAL_EVENTS *)
Definition TERMINAL_SIGNAL_WAIT_MS : Z := 3000.
Definition TERMINAL_EVENTS : list CallEvent := [e_reject; e_cancel; e_end; e_fail; e_expire].
Definition is_terminal_event (e : CallEvent) : bool := bool_decide (e ∈ TERMINAL_EVENTS).
(** the groups of states the code names *)
Definition unconnected (s : CallState) : bool := bool_decide (s ∈ [inviting; ringing; accepted; connecting]).
Definition negotiating (s : CallState) : bool := bool_decide (s ∈ [accepted; connecting; connected; reconnecting]).

Definition with_version (v : option Z) (s : CallSignal) : CallSignal := {|
  sig_callId := sig_callId s; sig_conversationId := sig_conversationId s; sender := sender s; receiverIdentityId := receiverIdentityId s;
  sig_mediaMode := sig_mediaMode s; nonce := nonce s; sig_event := sig_event s; kind := kind s; payload := payload s; sequence := sequence s;
  timestamp := timestamp s; sig_expiresAt := sig_expiresAt s; sig_identityBinding := sig_identityBinding s; payloadDigest := payloadDigest s;
  protocolVersion := v |}.

(** the conversation and its two participants; SHA-256; the UUIDs that are drawn; when the composition was made; and the rounds that
    the loop over the live set of listeners may take *)
(* service/src/calls/composition.ts:23-36 AuthenticatedCallCompositionInput *)
Class CallEndpoint := {
  conversation : string; local : CallParticipant; remote : CallParticipant; sha256_hex : string → string; uuid : nat → string;
  startedAt : Z; bound : nat }.

Section calls.
Context `{CallEndpoint} `{ReplayProtectionStore RS}.
Notation W := (Calls RS).
Notation A := (async W).
Definition participants_of : CallParticipant * CallParticipant := (local, remote).
Definition tell (a : Action) : M W unit := modify (λ w, with_sessions (repository w) (replay w) [a] w).
Definition date_now : M W Z := gets now.
Definition ask {B} (f : Authority → B) : A B := call (gets (λ w, f (authority w))).
Definition set_active (a : option string) : M W unit := modify (λ w, with_active a (sequences w) (endings w) w).
(** [(sequences.get(id) ?? d) + 1], which becomes the next one *)
Definition next_sequence (id : string) (d : Z) : M W Z :=
  s ← gets (λ w, default d (sequences w !! id) + 1);
  modify (λ w, with_active (activeCallId w) (<[id := s]> (sequences w)) (endings w) w);;
  mret s.

(** ** The service on the event loop *)
Definition service_get (id : string) : A (option CallSession) := awaited (sync (gets (λ w, repository w !! id))).
Definition on_repository {B} (m : M CallRepository B) (l : list Action) : M W B :=
  λ w, let '(r, s) := m (repository w) in (r, with_sessions s (replay w) (match r with Ok _ => l | Err _ => [] end) w).
(** what [process] does at its turn, with the time at which it was asked *)
Definition processed (origin : Origin) (id : string) (e : CallEvent) (t : Z) : A CallSession :=
  call (on_repository (process id e t) [happened origin id e t]).
(* service/src/calls/service.ts:14-14 CallService.event *)
Definition service_event (origin : Origin) (id : string) (e : CallEvent) : A CallSession :=
  t ← sync date_now;
  processed origin id e t.
(* service/src/calls/authorization.ts:5-12 CallAuthorization.assertParticipant *)
Definition assert_participant (session : CallSession) (p : CallParticipant) : A unit :=
  if negb (String.eqb (participantId (participants session).1) (participantId p)) && negb (String.eqb (participantId (participants session).2) (participantId p))
  then fail "Unauthorized call participant." else
  member ← ask (λ a, @isParticipant (verifier a) (conversationId session) (participantId p));
  if negb member then fail "Unauthorized call participant." else
  v ← ask (λ a, @getVerification (verifier a) (participantId p));
  if bool_decide (v = v_changed_pending_review) then fail "Call identity requires review." else
  if negb (bool_decide (v = v_verified)) then fail "Verification required for calls." else
  if negb (bool_decide (v = verification p)) then fail "Call identity binding changed." else mret tt.
(* service/src/calls/authorization.ts:13-13 CallAuthorization.assertSession *)
Definition assert_session (session : CallSession) : A unit :=
  if String.eqb (participantId (participants session).1) (participantId (participants session).2) then fail "Invalid call participants." else
  awaited (assert_participant session (participants session).1);;
  awaited (assert_participant session (participants session).2).
(* service/src/calls/service.ts:11-11 CallService.invite *)
Definition service_invite (binding : string) (mode : CallMediaMode) : A CallSession :=
  t ← sync date_now;
  draw ← sync fresh;
  let session := {| callId := uuid draw; conversationId := conversation; participants := participants_of; mediaMode := mode; state := idle;
    createdAt := t; updatedAt := t; expiresAt := t + invitationLifetimeMs DEFAULT_CALL_SECURITY_POLICY; identityBinding := binding |} in
  awaited (assert_session session);;
  awaited (sync (on_repository (modify (save session)) []));;
  processed here (callId session) e_invite t.
(* service/src/calls/service.ts:12-12 CallService.receiveInvite *)
Definition service_receiveInvite (signal : CallSignal) (session : CallSession) : A CallSession :=
  if negb (bool_decide (state session = inviting)) then fail "Invalid incoming call." else
  existing ← service_get (callId session);
  if bool_decide (is_Some existing) then fail "Call attempt already exists." else
  awaited (assert_session session);;
  awaited (sync (on_repository (modify (save session)) []));;
  service_event (from signal) (callId session) e_invite.

(** ** Signals *)
(* service/src/calls/authenticatedTransport.ts:56-63 AuthenticatedCallSignalTransport.send *)
Definition transport_send (signal : CallSignal) : A unit :=
  let rejected := "Call signal origin rejected." in
  if negb (String.eqb (sig_conversationId signal) conversation) || negb (String.eqb (identityId (sender signal)) (identityId local)) ||
     negb (nonempty (receiverIdentityId signal)) || negb (nonempty (nonce signal)) then fail rejected else
  if negb (bool_decide (protocolVersion signal = Some 2)) then fail "Call protocol version rejected." else
  member ← ask (λ a, @isParticipant (verifier a) conversation (participantId (sender signal)));
  if negb member || negb (bool_decide (verification (sender signal) = v_verified)) then fail rejected else
  digest ← awaited (mret (verifyCurrentSignalDigest sha256_hex signal));
  if negb digest then fail "Call signal integrity rejected." else
  n ← sync fresh;
  sync (tell (transmitted n signal));;
  wait (λ w, bool_decide (is_Some (results w !! n)));;
  r ← sync (gets (λ w, default (Err "unreachable") (results w !! n)));
  sync (lift r).
(** the replay store's claim *)
Definition claim_replay (signal : CallSignal) (t : Z) : A unit :=
  call (λ w, let '(r, p) := claim_signal signal t (replay w) in (r, with_sessions (repository w) p [] w)).
(* service/src/calls/signaling.ts:24-34 SecureCallSignaling.send *)
Definition signaling_send (session : CallSession) (signal : CallSignal) : A unit :=
  t ← sync date_now;
  current ← awaited (mret (fresh_and_bound sha256_hex signal t));
  if negb (bool_decide (protocolVersion signal = Some 2) && validSignalSemantics signal && String.eqb (sig_callId signal) (callId session) &&
      String.eqb (sig_conversationId signal) (conversationId session) && String.eqb (sig_identityBinding signal) (identityBinding session) &&
      bool_decide (sig_mediaMode signal = mediaMode session) && nonempty (nonce signal) && nonempty (receiverIdentityId signal) && current)
  then fail "Invalid call signal." else
  member ← ask (λ a, @isParticipant (verifier a) (conversationId session) (participantId (sender signal)));
  if negb member then fail "Unauthorized call participant." else
  v ← ask (λ a, @getVerification (verifier a) (participantId (sender signal)));
  if negb (bool_decide (v = v_verified)) then fail "Verification required for calls." else
  if bool_decide (verification (sender signal) = v_changed_pending_review) then fail "Call identity requires review." else
  claim_replay signal t;;
  awaited (transport_send signal).
(* service/src/calls/composition.ts:84-89 assertVerifiedContact *)
Definition required : string := "Verification required for calls.".
Definition assert_verified (p : CallParticipant) : A unit :=
  member ← ask (λ a, @isParticipant (verifier a) conversation (participantId p));
  if negb member then fail required else
  v ← ask (λ a, @getVerification (verifier a) (participantId p));
  if negb (bool_decide (v = v_verified)) then fail required else mret tt.
Definition assertVerifiedContact : A unit :=
  t ← ask trusted;
  if negb t then fail "Device trust rejected." else
  assert_verified local;;
  assert_verified remote.
(* service/src/calls/composition.ts:90-116 sendEvent *)
Definition sendEvent (session : CallSession) (e : CallEvent) (seq : Z) (k : CallSignalKind) (body : option jsval) : A unit :=
  (if is_terminal_event e then mret tt else awaited assertVerifiedContact);;
  if bool_decide (e = e_heartbeat) || bool_decide (e = e_expire) then fail "Unsupported call signal event." else
  t ← sync date_now;
  draw ← sync fresh;
  let unsigned digest := {|
    sig_callId := callId session; sig_conversationId := conversationId session; sender := local;
    receiverIdentityId := if negb (String.eqb (identityId (participants session).1) (identityId local)) then identityId (participants session).1
                          else if negb (String.eqb (identityId (participants session).2) (identityId local)) then identityId (participants session).2 else "";
    sig_mediaMode := mediaMode session; nonce := uuid draw; sig_event := e; kind := Some k; payload := body; sequence := seq; timestamp := t;
    sig_expiresAt := if bool_decide (e = e_invite) then Z.min (expiresAt session) (t + CALL_SIGNAL_LIFETIME_MS) else t + CALL_SIGNAL_LIFETIME_MS;
    sig_identityBinding := identityBinding session; payloadDigest := digest; protocolVersion := Some 2 |} in
  digest ← awaited (sync (lift (signalDigest sha256_hex (unsigned ""))));
  awaited (signaling_send session (unsigned digest)).

(** ** Notifications and expiry *)
(* service/src/calls/composition.ts:117-121 clearExpiry *)
Definition clearExpiry (id : string) : M W unit :=
  modify (λ w, with_timers (delete id (expiryTimers w)) (coolTimer w) (match expiryTimers w !! id with Some t => delete t (timers w) | None => timers w end) w).
Definition set_timeout (delay : Z) (k : TimerKind) : M W nat :=
  t ← fresh; modify (λ w, with_timers (expiryTimers w) (coolTimer w) (<[t := (now w + delay, k)]> (timers w)) w);; mret t.
(* service/src/calls/composition.ts:122-129 notify *)
Definition notify (session : CallSession) : M W unit :=
  (if negb (unconnected (state session)) then clearExpiry (callId session) else mret tt);;
  active ← gets activeCallId;
  (if terminal (state session) && bool_decide (active = Some (callId session)) then set_active None else mret tt);;
  modify (λ w, with_timers (expiryTimers w) (coolTimer w) (match coolTimer w with Some t => delete t (timers w) | None => timers w end) w);;
  active ← gets activeCallId;
  (if match active with Some id => nonempty id | None => false end then tell proofs_warmed
   else t ← set_timeout (TERMINAL_SIGNAL_WAIT_MS + 500) cooling; modify (λ w, with_timers (expiryTimers w) (Some t) (timers w) w));;
  tell (notified session).
(* service/src/calls/composition.ts:132-145 scheduleExpiry, the callback *)
Definition expire (id : string) : A unit :=
  current ← service_get id;
  match current with
  | Some s =>
      if negb (unconnected (state s)) then mret tt else
      finally_async (try_ (expired_ ← service_event clock id e_expire; sync (notify expired_)) (λ _, mret tt)) (sync (clearExpiry id))
  | None => mret tt
  end.
(* service/src/calls/composition.ts:130-150 scheduleExpiry *)
Definition scheduleExpiry (session : CallSession) : M W unit :=
  clearExpiry (callId session);;
  t ← date_now;
  timer ← set_timeout (Z.max 0 (expiresAt session - t + 1)) (expiry_of (callId session));
  modify (λ w, with_timers (<[callId session := timer]> (expiryTimers w)) (coolTimer w) (timers w) w).
Definition fire (timer : nat) : A unit :=
  w ← sync (gets (λ w, w));
  match timers w !! timer with
  | Some (due, k) =>
      if now w <? due then mret tt else
      sync (modify (λ w, with_timers (expiryTimers w) (coolTimer w) (delete timer (timers w)) w));;
      match k with expiry_of id => expire id | cooling => sync (tell proofs_cooled) end
  | None => mret tt
  end.

(** ** Incoming signals *)
(* service/src/calls/composition.ts:151-165 sendCompetingResponse *)
Definition sendCompetingResponse (signal : CallSignal) (e : CallEvent) : A unit :=
  t ← sync date_now;
  let session := {| callId := sig_callId signal; conversationId := sig_conversationId signal; participants := participants_of;
    mediaMode := sig_mediaMode signal; state := ringing; createdAt := timestamp signal; updatedAt := t; expiresAt := sig_expiresAt signal;
    identityBinding := sig_identityBinding signal |} in
  awaited (sendEvent session e (sequence signal + 1) control None).
Definition ignoring (m : A unit) : A unit := try_ m (λ _, mret tt).
(** a call that is active already: the greater identifier of two simultaneous invitations gives way; [true] to go on ringing *)
(* service/src/calls/composition.ts:178-190 createAuthenticatedCallComposition, the handler of signals: competing calls *)
Definition compete (signal : CallSignal) (activeId : string) : A bool :=
  active ← service_get activeId;
  match active with
  | Some a =>
      if bool_decide (state a = inviting) && (0 <? string_cmp (callId a) (sig_callId signal)) then
        awaited (cancelled_ ← service_event machinery (callId a) e_cancel; sync (notify cancelled_));;
        seq ← sync (next_sequence (callId a) 1);
        ignoring (awaited (sendEvent a e_cancel seq control None));;
        mret true
      else ignoring (awaited (sendCompetingResponse signal e_reject));; mret false
  | None => ignoring (awaited (sendCompetingResponse signal e_reject));; mret false
  end.
(* service/src/calls/composition.ts:171-208 createAuthenticatedCallComposition, the handler of signals: a new call *)
Definition ring (signal : CallSignal) : A unit :=
  if negb (bool_decide (sig_event signal = e_invite)) || negb (bool_decide (kind signal = Some control)) ||
     negb (String.eqb (receiverIdentityId signal) (identityId local)) then mret tt else
  binding ← ask (λ a, bindingOf a conversation participants_of);
  if negb (String.eqb (sig_identityBinding signal) binding) then mret tt else
  t ← sync date_now;
  if (timestamp signal <? startedAt - PENDING_CALL_SIGNAL_WINDOW_MS) || (sig_expiresAt signal <=? t) then mret tt else
  active ← sync (gets activeCallId);
  go ← match active with
       | Some id => if nonempty id && negb (String.eqb id (sig_callId signal)) then compete signal id else mret true
       | None => mret true
       end;
  if negb go then mret tt else
  let incoming := {| callId := sig_callId signal; conversationId := sig_conversationId signal; participants := participants_of;
    mediaMode := sig_mediaMode signal; state := inviting; createdAt := timestamp signal; updatedAt := timestamp signal;
    expiresAt := sig_expiresAt signal; identityBinding := sig_identityBinding signal |} in
  received ← awaited (service_receiveInvite signal incoming);
  sync (set_active (Some (sig_callId signal));; scheduleExpiry received;; notify received).
(** a listener is called in the segment before its first suspension; what it answers comes later *)
Definition give (listener : nat) (session : CallSession) (signal : CallSignal) : A unit :=
  n ← sync fresh;
  sync (tell (media n listener session signal));;
  wait (λ w, bool_decide (is_Some (results w !! n)));;
  r ← sync (gets (λ w, default (Err "unreachable") (results w !! n)));
  sync (lift r).
(** [for (const listener of mediaListeners)]: the set is iterated live, in the order of insertion *)
Definition next_listener (last : option nat) (w : W) : option nat :=
  js_find (λ n, match last with Some m => (m <? n)%nat | None => true end) (mediaListeners w).
(* service/src/calls/composition.ts:221-221 createAuthenticatedCallComposition, the loop over the listeners *)
Fixpoint give_all (rounds : nat) (last : option nat) (session : CallSession) (signal : CallSignal) : A unit :=
  match rounds with
  | O => hang
  | S rounds => o ← sync (gets (next_listener last));
                match o with Some n => give n session signal;; give_all rounds (Some n) session signal | None => mret tt end
  end.
(* service/src/calls/composition.ts:217-226 createAuthenticatedCallComposition, the handler of signals: a known call *)
Definition advance (existing : CallSession) (signal : CallSignal) : A unit :=
  if negb (String.eqb (sig_conversationId signal) (conversationId existing)) || negb (String.eqb (sig_identityBinding signal) (identityBinding existing)) ||
     negb (String.eqb (receiverIdentityId signal) (identityId local)) || negb (bool_decide (sig_mediaMode signal = mediaMode existing))
  then fail "Call signal binding rejected." else
  if match kind signal with Some k => negb (bool_decide (k = control)) | None => false end then
    if negb (negotiating (state existing)) then mret tt else
    listeners ← sync (gets mediaListeners);
    if bool_decide (listeners = []) then
      sync (t ← date_now; modify (λ w, with_media (hold 32 signal t (pendingMedia w)) (mediaListeners w) w))
    else try_ (give_all bound None existing signal) (λ _, fail "Call media handler rejected.")
  else
    updated ← try_ (service_event (from signal) (sig_callId signal) (sig_event signal)) (λ _, fail "Call state transition rejected.");
    sync (notify updated).
(* service/src/calls/composition.ts:166-227 createAuthenticatedCallComposition, the handler of signals *)
Definition on_signal (signal : CallSignal) : A unit :=
  (if is_terminal_event (sig_event signal) then mret tt
   else try_ (awaited assertVerifiedContact) (λ _, fail "Call device trust rejected."));;
  existing ← service_get (sig_callId signal);
  match existing with
  | None => ring signal
  | Some session =>
      if bool_decide (sig_event signal = e_invite) then
        active ← sync (gets activeCallId);
        if negb (bool_decide (active = Some (sig_callId signal))) && terminal (state session)
        then ignoring (awaited (sendCompetingResponse signal e_reject)) else mret tt
      else advance session signal
  end.
(* service/src/calls/signaling.ts:37-48 SecureCallSignaling.receive *)
Definition signaling_receive (signal : CallSignal) : A unit :=
  t ← sync date_now;
  current ← awaited (mret (fresh_and_bound sha256_hex signal t));
  if negb (bool_decide (protocolVersion signal = Some 2) && validSignalSemantics signal && nonempty (sig_callId signal) &&
      nonempty (sig_conversationId signal) && nonempty (nonce signal) && nonempty (receiverIdentityId signal) && current)
  then fail "Invalid call signal." else
  member ← ask (λ a, @isParticipant (verifier a) (sig_conversationId signal) (participantId (sender signal)));
  if negb member then fail "Unauthorized call participant." else
  v ← ask (λ a, @getVerification (verifier a) (participantId (sender signal)));
  if negb (bool_decide (v = v_verified)) || negb (bool_decide (verification (sender signal) = v_verified)) then fail "Unauthorized call participant." else
  claim_replay signal t;;
  awaited (on_signal signal).
(* service/src/calls/authenticatedTransport.ts:73-107 AuthenticatedCallSignalTransport.receivePlaintext *)
Definition receivePlaintext (decoded : option CallSignal) : A unit :=
  let rejected := "Call signal origin rejected." in
  match decoded with
  | None => fail rejected
  | Some signal =>
      if negb (String.eqb (sig_conversationId signal) conversation) || negb (String.eqb (identityId (sender signal)) (identityId remote)) ||
         negb (String.eqb (receiverIdentityId signal) (identityId local)) || negb (nonempty (nonce signal)) ||
         negb (bool_decide (verification (sender signal) = v_verified)) || negb (String.eqb (participantId (sender signal)) (participantId remote))
      then fail rejected else
      member ← ask (λ a, @isParticipant (verifier a) conversation (participantId (sender signal)));
      if negb member then fail rejected else
      v ← ask (λ a, @getVerification (verifier a) (participantId (sender signal)));
      if negb (bool_decide (v = v_verified)) then fail required else
      binding ← ask (λ a, bindingOf a conversation ({| participantId := participantId local; identityId := identityId local; verification := v_verified |},
                                                    {| participantId := participantId remote; identityId := identityId remote; verification := v_verified |}));
      if negb (String.eqb (sig_identityBinding signal) binding) then fail "Call signal identity binding rejected." else
      t ← sync date_now;
      if (timestamp signal <? 0) || (t + 30000 <? timestamp signal) || (sequence signal <? 1) then fail rejected else
      match protocolVersion signal with
      | Some 2 =>
          digest ← awaited (mret (verifyCurrentSignalDigest sha256_hex signal));
          if negb digest then fail rejected else
          try_ (awaited (signaling_receive signal)) (λ _, fail "Call signal handler rejected.")
      | None =>
          if (sig_expiresAt signal <=? t) || (sig_expiresAt signal <=? timestamp signal) || negb (verifyLegacySignalDigest sha256_hex signal)
          then fail "Call signal integrity rejected." else sync (tell (protocol_issue (sig_callId signal) 1))
      | Some v =>
          if timestamp signal <? t - CALL_SIGNAL_LIFETIME_MS then fail "Call signal is stale." else
          altered ← awaited (mret (verifyCurrentSignalDigest sha256_hex (with_version (Some 2) signal)));
          if (altered : bool) then fail "Call signal protocol version was altered." else sync (tell (protocol_issue (sig_callId signal) v))
      end
  end.

(** ** What the user does *)
(* service/src/calls/composition.ts:228-247 invite *)
Definition place_call (mode : CallMediaMode) : A CallSession :=
  awaited assertVerifiedContact;;
  active ← sync (gets activeCallId);
  if match active with Some id => nonempty id | None => false end then fail "Call already active or ringing." else
  binding ← ask (λ a, bindingOf a conversation participants_of);
  session ← awaited (service_invite binding mode);
  sync (set_active (Some (callId session));;
        modify (λ w, with_active (activeCallId w) (<[callId session := 1]> (sequences w)) (endings w) w);;
        scheduleExpiry session;;
        notify session);;
  try_ (awaited (sendEvent session e_invite 1 control None))
    (λ e, ignoring (current ← service_get (callId session);
                    match current with
                    | Some s => if bool_decide (state s ∈ [inviting; ringing]) then failed_ ← service_event machinery (callId session) e_fail; sync (notify failed_) else mret tt
                    | None => mret tt
                    end);;
          fail e);;
  mret session.
(* service/src/calls/composition.ts:248-265 respond *)
Definition respond (id : string) (e : CallEvent) : A CallSession :=
  awaited assertVerifiedContact;;
  session ← service_event here id e;
  seq ← sync (next_sequence id 0);
  (if bool_decide (e = e_cancel) then sync (notify session) else mret tt);;
  try_ (awaited (sendEvent session e seq control None))
    (λ err, (if bool_decide (e = e_accept) then ignoring (failed_ ← service_event machinery id e_fail; sync (notify failed_)) else mret tt);; fail err);;
  (if bool_decide (e = e_cancel) then mret tt else sync (notify session));;
  mret session.
(** [Promise.race] of sending and a timeout: the first to settle decides *)
Definition race_send (m : A unit) : A unit :=
  p ← sync fresh;
  fork (r ← try_ (m;; mret (Ok tt)) (λ e, mret (Err e)); sync (settle_promise p r));;
  t ← sync date_now;
  fork (wait (λ w, t + TERMINAL_SIGNAL_WAIT_MS <=? now w);; sync (settle_promise p (Ok tt)));;
  await_promise p.
(* service/src/calls/composition.ts:269-289 end, the operation *)
Definition end_once (id : string) : A unit :=
  current ← service_get id;
  match current with
  | Some s =>
      if terminal (state s) then mret tt else
      let e := if bool_decide (state s ∈ [connected; reconnecting]) then e_end else e_cancel in
      updated ← service_event here id e;
      seq ← sync (next_sequence id 0);
      sync (notify updated);;
      race_send (sendEvent s e seq control None)
  | None => mret tt
  end.
(* service/src/calls/composition.ts:266-293 end *)
Definition end_call (id : string) : A unit :=
  ongoing ← sync (gets (λ w, endings w !! id));
  match ongoing with
  | Some p => await_promise p
  | None =>
      p ← start_promise (end_once id);
      sync (modify (λ w, with_active (activeCallId w) (sequences w) (<[id := p]> (endings w)) w));;
      fork (ignoring (await_promise p);;
            sync (modify (λ w, if bool_decide (endings w !! id = Some p) then with_active (activeCallId w) (sequences w) (delete id (endings w)) w else w)));;
      await_promise p
  end.
(* service/src/calls/composition.ts:294-302 terminateLocally *)
Definition terminateLocally (id : string) : A unit :=
  current ← service_get id;
  match current with
  | Some s => if terminal (state s) then mret tt else ignoring (failed_ ← service_event machinery id e_fail; sync (notify failed_))
  | None => mret tt
  end.
(* service/src/calls/composition.ts:329-334 sendMediaSignal *)
Definition sendMediaSignal (id : string) (e : CallEvent) (k : CallSignalKind) (body : jsval) : A unit :=
  awaited assertVerifiedContact;;
  o ← service_get id;
  match o with
  | Some session =>
      if negb (negotiating (state session)) then fail "Call is not negotiating or established." else
      seq ← sync (next_sequence id 1);
      awaited (sendEvent session e seq k (Some body))
  | None => fail "Call is not negotiating or established."
  end.
(** the signals held for a listener, given to it one after the other *)
(* service/src/calls/composition.ts:337-340 onMediaSignal, the delivery of held signals *)
Fixpoint give_pending (listener : nat) (l : list CallSignal) : A unit :=
  match l with
  | [] => mret tt
  | signal :: l' =>
      ignoring (awaited (current ← service_get (sig_callId signal);
                         w ← sync (gets (λ w, w));
                         match current with
                         | Some s => if bool_decide (listener ∈ mediaListeners w) && negotiating (state s) then give listener s signal else mret tt
                         | None => mret tt
                         end));;
      give_pending listener l'
  end.
(* service/src/calls/composition.ts:335-342 onMediaSignal *)
Definition onMediaSignal : A nat :=
  listener ← sync fresh;
  sync (modify (λ w, with_media (pendingMedia w) (mediaListeners w ++ [listener]) w));;
  ready ← sync (λ w, let '(ready, rest) := drain PENDING_CALL_SIGNAL_WINDOW_MS (now w) (pendingMedia w) in (Ok ready, with_media rest (mediaListeners w) w));
  fork (give_pending listener ready);;
  mret listener.
(* service/src/calls/composition.ts:341-341 onMediaSignal, the result *)
Definition offMediaSignal (listener : nat) : M W unit :=
  modify (λ w, with_media (pendingMedia w) (filter (λ n, n ≠ listener) (mediaListeners w)) w).

(** ** The system: what the user, the contact, the timers and the negotiator do, in any order; [expected] is what may arrive *)
Inductive call_activity (expected : option CallSignal → Prop) : A unit → Prop :=
| place_activity mode : call_activity expected (place_call mode;; mret tt)
| respond_activity id e : e ∈ [e_accept; e_reject; e_cancel] → call_activity expected (respond id e;; mret tt)
| end_activity id : call_activity expected (end_call id)
| terminate_activity id : call_activity expected (terminateLocally id)
| send_activity id e k body : e ∈ [e_connect; e_connected; e_reconnect] → call_activity expected (sendMediaSignal id e k body)
| listen_activity : call_activity expected (onMediaSignal;; mret tt)
| unlisten_activity n : call_activity expected (sync (offMediaSignal n))
| negotiator_activity id e : e ∈ [e_connect; e_connected; e_reconnect] → call_activity expected (service_event machinery id e;; mret tt)
| receive_activity decoded : expected decoded → call_activity expected (receivePlaintext decoded)
| fire_activity timer : call_activity expected (fire timer).
(** the clock, the verifier's and the device trust's state, and the results of requests are not the composition's *)
Inductive call_surroundings (w : W) : W → Prop :=
| surroundings a t r : now w <= t → results w ⊆ r → call_surroundings w (elapsed a t r w).
Definition new_calls (a : Authority) (t : Z) (replay0 : RS) : W := {|
  repository := ∅; replay := replay0; activeCallId := None; sequences := ∅; endings := ∅; expiryTimers := ∅; coolTimer := None; timers := ∅;
  pendingMedia := []; mediaListeners := []; authority := a; now := t; counter := 1; trace := []; promises := ∅; results := ∅ |}.
End calls.
