(* ===== verification/CallSafety.v ===== *)
(** * What a call composition keeps

    In everything a composition reaches, whatever the order in which the user, the contact, the timers, the verifier and the relay
    act: the negotiator is given a media signal only for a call that was accepted before its invitation expired, and the acceptance
    was the user's or an authentic signal of the contact for this call. The argument is rely and guarantee ([EventLoop.respects]). *)
From S2P Require Import Prelude Json CallState CallSignaling EventLoop Calls.

Section safety.
Context `{CallEndpoint} `{ReplayProtectionStore RS}.
Notation W := (Calls RS).
Notation A := (async W).

(** ** The invariant *)
(** a version 2 signal of the contact, with a digest that covers it *)
Definition authentic (signal : CallSignal) : Prop :=
  participantId (sender signal) = participantId remote ∧ identityId (sender signal) = identityId remote ∧ protocolVersion signal = Some 2 ∧
  verifyCurrentSignalDigest sha256_hex signal = true.
Definition consent (origin : Origin) (id : string) (e : CallEvent) : Prop :=
  match origin with here => True | from signal => authentic signal ∧ sig_callId signal = id ∧ sig_event signal = e | _ => False end.
Definition answered (w : W) (s : CallSession) : Prop :=
  ∃ origin t, happened origin (callId s) e_accept t ∈ trace w ∧ t < expiresAt s ∧ consent origin (callId s) e_accept.
Definition consented (w : W) (s : CallSession) : Prop := past_acceptance (state s) = true → answered w s.
Record sound (w : W) : Prop := {
  s_ids id s : repository w !! id = Some s → callId s = id;
  s_consent id s : repository w !! id = Some s → consented w s;
  s_held signal t : (signal, t) ∈ pendingMedia w → authentic signal;
  s_media n l s signal : media n l s signal ∈ trace w →
    negotiating (state s) = true ∧ answered w s ∧ callId s = sig_callId signal ∧ authentic signal }.
Definition evolves (w w' : W) : Prop := sound w → sound w' ∧ ∀ a, a ∈ trace w → a ∈ trace w'.
#[export] Instance evolves_preorder : PreOrder evolves.
Proof.
  split; [by intros w Hw|]. intros w1 w2 w3 H12 H23 H1. destruct (H12 H1) as [H2 T2]. destruct (H23 H2) as [H3 T3]. auto.
Qed.
Lemma calls_evolves_sound w w' : evolves w w' → sound w → sound w'.
Proof. intros He Hw. by destruct (He Hw). Qed.
Lemma answered_stays w w' s : (∀ a, a ∈ trace w → a ∈ trace w') → answered w s → answered w' s.
Proof. intros Ht (o & t & Hin & ?). exists o, t. split; [by apply Ht|done]. Qed.
Lemma consented_stays w w' s : (∀ a, a ∈ trace w → a ∈ trace w') → consented w s → consented w' s.
Proof. intros Ht Hc Hp. eapply answered_stays; [done|by apply Hc]. Qed.

(** ** Steps that concern neither the sessions nor the media *)
Definition neutral (a : Action) : Prop := match a with media _ _ _ _ => False | _ => True end.
Record quiet (w w' : W) : Prop := {
  q_repository : repository w' = repository w;
  q_held x : x ∈ pendingMedia w' → x ∈ pendingMedia w;
  q_trace : ∃ l, trace w' = trace w ++ l ∧ Forall neutral l }.
#[export] Instance quiet_preorder : PreOrder quiet.
Proof.
  split; [by intros w; split; [..|exists []; rewrite app_nil_r]|].
  intros w1 w2 w3 [R1 P1 (l1 & T1 & N1)] [R2 P2 (l2 & T2 & N2)]. split; [congruence|auto|].
  exists (l1 ++ l2). rewrite T2, T1, app_assoc. split; [done|by apply Forall_app_2].
Qed.
Lemma media_past l0 l n k s signal : Forall neutral l → media n k s signal ∈ l0 ++ l → media n k s signal ∈ l0.
Proof. intros Hl [|Hin]%elem_of_app; [done|]. rewrite Forall_forall in Hl. by destruct (Hl _ Hin). Qed.
Lemma calls_quiet_evolves w w' : quiet w w' → evolves w w'.
Proof.
  intros [Hr Hp (l & Ht & Hl)] [Hi Hc Hh Hm]. assert (∀ a, a ∈ trace w → a ∈ trace w') as Hsub by (rewrite Ht; set_solver).
  split; [|done]. split; [by rewrite Hr| |eauto|].
  - intros id s. rewrite Hr. intros E. eapply consented_stays; eauto.
  - intros n k s signal Hin. destruct (Hm n k s signal) as (? & ? & ? & ?); [rewrite Ht in Hin; by eapply media_past|]. split_and!; [done| |done..].
    by eapply answered_stays.
Qed.
Lemma calls_quiet_always {B} (m : M W B) : always quiet m → always evolves m.
Proof. intros Hm w x w' E. by eapply calls_quiet_evolves, Hm. Qed.
Lemma calls_quiet_fields w w' : repository w' = repository w → pendingMedia w' = pendingMedia w → trace w' = trace w → quiet w w'.
Proof. intros ? Hp Ht. split; [done|by rewrite Hp|exists []; by rewrite app_nil_r]. Qed.
Lemma calls_quiet_tell a : neutral a → always quiet (tell a).
Proof. intros Ha. apply always_modify. intros w. split; [done..|exists [a]; auto]. Qed.
Lemma calls_quiet_fresh : always quiet (fresh : M W nat).
Proof. intros w x w' [= _ <-]. by apply calls_quiet_fields. Qed.
Hint Resolve calls_quiet_tell calls_quiet_fresh : k3.
Hint Extern 1 (PreOrder _) => apply _ : k3.
Hint Extern 1 (neutral _) => exact I : k3.
Lemma calls_quiet_modify f : (∀ w, quiet w (f w)) → always quiet (modify f).
Proof. by apply always_modify. Qed.
Hint Extern 3 (always quiet (modify _)) => (apply calls_quiet_modify; intros ?; repeat case_match; by apply calls_quiet_fields) : k3.
Ltac steps := along ltac:(unfold date_now, set_active, next_sequence).
Lemma quiet_next_sequence id d : always quiet (next_sequence id d).
Proof. unfold next_sequence. steps. Qed.
Lemma quiet_clearExpiry id : always quiet (clearExpiry id).
Proof. unfold clearExpiry. steps. Qed.
Lemma calls_quiet_set_timeout d k : always quiet (set_timeout d k).
Proof. unfold set_timeout. steps. Qed.
Hint Resolve quiet_next_sequence quiet_clearExpiry calls_quiet_set_timeout : k3.
Lemma quiet_notify s : always quiet (notify s).
Proof. unfold notify. steps. Qed.
Lemma quiet_scheduleExpiry s : always quiet (scheduleExpiry s).
Proof. unfold scheduleExpiry. steps. Qed.
Lemma quiet_settle p r : always quiet (settle_promise p r).
Proof. cbn. steps. Qed.
Hint Resolve quiet_notify quiet_scheduleExpiry quiet_settle : k3.

(** ** Steps of the sessions *)
Lemma process_spec id e t (r : CallRepository) o r' : process id e t r = (o, r') →
  match o with Ok s' => ∃ s, r !! id = Some s ∧ transitionCall s e t DEFAULT_CALL_SECURITY_POLICY = Ok s' ∧ r' = save s' r | Err _ => r' = r end.
Proof.
  unfold process. rewrite gets_bind, lift_bind. destruct (r !! id) as [s|]; cbn [require]; [|by intros [= <- <-]].
  rewrite lift_bind. destruct (transitionCall s e t _) as [s'|] eqn:E; intros [= <- <-]; eauto.
Qed.
(** a session that is saved with its consent *)
Lemma saved_evolves s (p : RS) l (w : W) : Forall neutral l → (consented w s ∨ ∃ o t, happened o (callId s) e_accept t ∈ l ∧ t < expiresAt s ∧
    consent o (callId s) e_accept) → evolves w (with_sessions (save s (repository w)) p l w).
Proof.
  unfold save. intros Hl Hs [Hi Hc Hh Hm]. assert (∀ a, a ∈ trace w → a ∈ trace w ++ l) as Hsub by set_solver. split; [split; cbn|done].
  - intros id s0 [[<- <-]|[_ E]]%lookup_insert_Some; [done|eauto].
  - intros id s0 [[<- <-]|[_ E]]%lookup_insert_Some Hp; [|by eapply answered_stays; [|eapply Hc]].
    destruct Hs as [Hs|(o & t & Hin & Ht)]; [by eapply answered_stays; [|apply Hs]|]. exists o, t. split; [cbn; set_solver|done].
  - done.
  - intros n k s0 signal Hin. apply media_past in Hin; [|done]. destruct (Hm _ _ _ _ Hin) as (? & ? & ? & ?).
    split_and!; [done|by eapply answered_stays|done..].
Qed.
Lemma save_evolves s : past_acceptance (state s) = false → always evolves (on_repository (modify (save s)) []).
Proof. intros Hp w x w' [= _ <-]. apply saved_evolves; [done|]. left. unfold consented. congruence. Qed.
Lemma process_evolves origin id e t : (e = e_accept → consent origin id e_accept) → always evolves (on_repository (process id e t) [happened origin id e t]).
Proof.
  intros He w x w'. unfold on_repository. destruct (process id e t (repository w)) as [o r'] eqn:E. intros [= <- <-]. apply process_spec in E.
  destruct o as [s'|]; [|subst r'; apply calls_quiet_evolves; split; [done..|]; by exists []]. destruct E as (s & Hs & Ht & ->).
  intros Hw. assert (callId s = id) as Hid by by eapply (s_ids w Hw). pose proof (s_consent w Hw id s Hs) as Hc.
  pose proof (transitionCall_keeps _ _ _ _ _ Ht) as (Ei & _ & Ex & _). revert Hw. apply saved_evolves; [by repeat constructor|].
  assert (past_acceptance (state s) = true → consented w s') as Hpast.
  { intros Hp _. destruct (Hc Hp) as (o & t0 & ?). exists o, t0. by rewrite Ei, Ex. }
  destruct (decide (e = e_heartbeat)) as [->|Hn].
  { apply heartbeat_state in Ht. left. intros Hp. apply Hpast; [|done]. by rewrite <-Ht. }
  destruct (transitionCall_next _ _ _ _ _ Ht Hn) as [Htr Hb]. destruct (transitions_past _ _ _ Htr) as (Hnext & _ & _).
  destruct (past_acceptance (state s')) eqn:Ep; [|by left; intros; congruence]. destruct (Hnext eq_refl) as [Hp|[-> Hi]]; [left; auto|].
  right. exists origin, t. rewrite Ei, Hid, Ex. split; [set_solver|]. split; [by apply Hb|auto].
Qed.

(** ** The operations *)
Notation steady m := (respects evolves sound m).
Lemma steady_sync {B} (m : M W B) : always evolves m → steady (sync m).
Proof. by apply respects_sync; [apply _|exact calls_evolves_sound]. Qed.
Lemma calls_steady_quiet {B} (m : M W B) : always quiet m → steady (sync m).
Proof. intros Hm. apply steady_sync. by apply calls_quiet_always. Qed.
Lemma steady_quiet_call {B} (m : M W B) : always quiet m → steady (call m).
Proof. intros Hm. apply respects_call; [apply _|exact calls_evolves_sound|]. by apply calls_quiet_always. Qed.
Hint Extern 1 (respects evolves sound (sync _)) => (apply calls_steady_quiet; steps; fail) : loop.
Hint Extern 1 (respects evolves sound (call _)) => (apply steady_quiet_call; steps; fail) : loop.
Hint Extern 0 (PreOrder _) => apply _ : loop.
Hint Extern 0 (∀ w w', evolves w w' → sound w → sound w') => exact calls_evolves_sound : loop.
Ltac steadily :=
  repeat match goal with
  | |- respects _ _ (_ ≫= _) => apply respects_bind; [apply _|exact calls_evolves_sound| |intros ?]
  | |- respects _ _ (try_ _ _) => apply respects_try; [apply _|exact calls_evolves_sound| |intros ?]
  | |- respects _ _ (ignoring _) => unfold ignoring
  | |- respects _ _ (awaited _) => apply respects_awaited; [apply _|exact calls_evolves_sound|]
  | |- respects _ _ (finally_async _ _) => apply respects_finally; [apply _|exact calls_evolves_sound| |]
  | |- respects _ _ (fork _) => apply respects_fork; [apply _|exact calls_evolves_sound|]
  | |- respects _ _ (match ?x with _ => _ end) => destruct x eqn:?
  | |- respects _ _ (if ?x then _ else _) => destruct x eqn:?
  | |- respects _ _ (let _ := _ in _) => cbv zeta
  | |- respects _ _ _ => solve [eauto 2 with loop]
  end.
Lemma steady_ask {B} (f : Authority → B) : steady (ask f : A B).
Proof. unfold ask. steadily. Qed.
Lemma steady_get id : steady (service_get id : A _).
Proof. unfold service_get. steadily. Qed.
Hint Resolve steady_ask steady_get : loop.
Lemma steady_processed origin id e t : (e = e_accept → consent origin id e_accept) → steady (processed origin id e t).
Proof. intros He. apply respects_call; [apply _|exact calls_evolves_sound|]. by apply process_evolves. Qed.
Lemma steady_event origin id e : (e = e_accept → consent origin id e_accept) → steady (service_event origin id e).
Proof. intros He. unfold service_event. steadily. by apply steady_processed. Qed.
Lemma steady_save s : past_acceptance (state s) = false → steady (sync (on_repository (modify (save s)) [])).
Proof. intros Hs. by apply steady_sync, save_evolves. Qed.
Lemma steady_assert_session s : steady (assert_session s).
Proof. unfold assert_session, assert_participant. steadily. Qed.
Lemma steady_contact : steady assertVerifiedContact.
Proof. unfold assertVerifiedContact, assert_verified. steadily. Qed.
Hint Resolve steady_assert_session steady_contact : loop.
Lemma steady_transport signal : steady (transport_send signal).
Proof. unfold transport_send. steadily. Qed.
Lemma steady_claim signal t : steady (claim_replay signal t).
Proof.
  apply steady_quiet_call. intros w x w'. destruct (claim_signal signal t (replay w)) as [r p]. intros [= _ <-].
  split; [done..|]. by exists [].
Qed.
Hint Resolve steady_transport steady_claim : loop.
Lemma steady_signaling_send s signal : steady (signaling_send s signal).
Proof. unfold signaling_send. steadily. Qed.
Hint Resolve steady_signaling_send : loop.
Lemma steady_sendEvent s e n k body : steady (sendEvent s e n k body).
Proof. unfold sendEvent. steadily. Qed.
Hint Resolve steady_sendEvent : loop.
Hint Extern 2 (respects _ _ (service_event _ _ _)) => (apply steady_event; done) : loop.
Lemma steady_competing signal e : steady (sendCompetingResponse signal e).
Proof. unfold sendCompetingResponse. steadily. Qed.
Hint Resolve steady_competing : loop.
Lemma steady_compete signal id : steady (compete signal id).
Proof. unfold compete. steadily. Qed.
Lemma steady_receiveInvite signal s : state s = inviting → steady (service_receiveInvite signal s).
Proof. intros Hs. unfold service_receiveInvite. steadily. apply steady_save. by rewrite Hs. Qed.
Lemma steady_service_invite binding mode : steady (service_invite binding mode).
Proof. unfold service_invite. steadily; [by apply steady_save|by apply steady_processed]. Qed.
Hint Resolve steady_compete steady_service_invite : loop.
Lemma steady_ring signal : steady (ring signal).
Proof. unfold ring. steadily. by apply steady_receiveInvite. Qed.
Lemma steady_expire id : steady (expire id).
Proof. unfold expire. steadily. Qed.
Hint Resolve steady_ring steady_expire : loop.
Lemma calls_steady_fire timer : steady (fire timer).
Proof. unfold fire. steadily. Qed.
Lemma steady_place_call mode : steady (place_call mode).
Proof. unfold place_call. steadily. Qed.
Lemma steady_respond id e : steady (respond id e).
Proof. unfold respond. steadily. Qed.
Lemma steady_race m : steady m → steady (race_send m).
Proof. intros Hm. unfold race_send. steadily. Qed.
Lemma steady_end_once id : steady (end_once id).
Proof. unfold end_once. steadily. apply steady_race. steadily. Qed.
Lemma steady_end_call id : steady (end_call id).
Proof.
  unfold end_call. steadily. apply respects_start; [apply _|exact calls_evolves_sound|cbn; steadily|intros p r; steadily|].
  apply steady_end_once.
Qed.
Lemma steady_terminate id : steady (terminateLocally id).
Proof. unfold terminateLocally. steadily. Qed.
Lemma steady_media id e k body : steady (sendMediaSignal id e k body).
Proof. unfold sendMediaSignal. steadily. Qed.
Hint Resolve calls_steady_fire steady_place_call steady_respond steady_end_call steady_terminate steady_media : loop.

(** ** Media signals: what is learnt from the repository *)
Definition known (s : CallSession) (w : W) : Prop := sound w ∧ answered w s.
Lemma known_stays s w w' : evolves w w' → known s w → known s w'.
Proof. intros He [Hw Ha]. destruct (He Hw) as [? ?]. split; [done|by eapply answered_stays]. Qed.
Lemma negotiating_past st : negotiating st = true → past_acceptance st = true.
Proof. by destruct st. Qed.
Lemma calls_steadily_runs {B} (m : A B) w : sound w → steady m → runs evolves anything m w.
Proof. intros Hw Hm. by apply Hm. Qed.
Lemma known_give l s signal : negotiating (state s) = true → callId s = sig_callId signal → authentic signal →
  respects evolves (known s) (give l s signal).
Proof.
  intros Hn Hi Hs w [Hw Ha]. eapply runs_bind; [apply _|by apply (calls_steady_quiet fresh); [steps|]| |done].
  intros n w1 H1 _. destruct (known_stays s w w1 H1 (conj Hw Ha)) as [Hw1 Ha1]. unfold tell.
  assert (evolves w1 (with_sessions (repository w1) (replay w1) [media n l s signal] w1)) as He.
  { intros [Hids Hc Hh Hm]. assert (∀ a, a ∈ trace w1 → a ∈ trace w1 ++ [media n l s signal]) as Hsub by set_solver.
    split; [split; cbn; [done| |done|]|done]; [intros id s0 E; eapply consented_stays; eauto|].
    intros k j s0 sig [Hin|E%list_elem_of_singleton]%elem_of_app; [destruct (Hm _ _ _ _ Hin) as (? & ? & ? & ?)|injection E as -> -> -> ->];
      (split_and!; [done|by eapply answered_stays|done..]). }
  set (w2 := with_sessions _ _ _ w1) in He. pose proof (calls_evolves_sound w1 w2 He Hw1) as Hw2.
  apply (runs_sync_bind _ _ _ _ _ tt w2); [done..|]. apply calls_steadily_runs; [done|steadily].
Qed.
Lemma known_give_all rounds last s signal : negotiating (state s) = true → callId s = sig_callId signal → authentic signal →
  respects evolves (known s) (give_all rounds last s signal).
Proof.
  intros Hn Hi Hs. revert last. induction rounds as [|rounds IH]; intros last; cbn; [by intros w|].
  apply respects_bind; [apply _|by apply known_stays| |intros [n|]].
  - apply respects_sync; [apply _|by apply known_stays|]. by intros w x w' [= _ <-].
  - apply respects_bind; [apply _|by apply known_stays|by apply known_give|intros _; apply IH].
  - apply respects_ret; [apply _|by apply known_stays].
Qed.
Lemma runs_get id w : sound w → runs evolves (λ r w', ∀ s, r = Ok (Some s) → callId s = id ∧ consented w' s) (service_get id) w.
Proof.
  intros Hw. apply runs_awaited; [apply _|]. apply runs_sync. intros r w' [= <- <-]. split; [done|]. intros w2 H2 s [= Hs].
  split; [by eapply (s_ids w Hw)|]. eapply consented_stays; [apply (H2 Hw)|by apply (s_consent w Hw id)].
Qed.
Lemma hold_authentic signal t w : authentic signal → evolves w (with_media (hold 32 signal t (pendingMedia w)) (mediaListeners w) w).
Proof.
  intros Ha [Hi Hc Hh Hm]. split; [|done]. split; cbn; [done|done| |done]. intros sig t0 Hin. unfold hold, take_last in Hin.
  apply subseteq_drop, elem_of_app in Hin as [|[= -> ->]%list_elem_of_singleton]; [by eapply Hh|done].
Qed.
Lemma runs_advance s signal w : sound w → authentic signal → callId s = sig_callId signal → consented w s → runs evolves anything (advance s signal) w.
Proof.
  intros Hw Ha Hi Hc. unfold advance. case_match; [by apply calls_steadily_runs; [|steadily]|]. case_match.
  - destruct (negotiating (state s)) eqn:En; cbn [negb]; [|by apply calls_steadily_runs; [|steadily]]. apply runs_gets_bind; [apply _|]. destruct (bool_decide (mediaListeners w = [])).
    + apply runs_sync. intros x w' [= <- <-]. split; [by apply hold_authentic|done].
    + eapply runs_try; [apply _|apply known_give_all; [done..|]; split; [done|by apply Hc, negotiating_past]| |done].
      intros e w' He _. apply calls_steadily_runs; [by eapply calls_evolves_sound|steadily].
  - apply calls_steadily_runs; [done|steadily].
Qed.
Lemma steady_on_signal signal : authentic signal → steady (on_signal signal).
Proof.
  intros Ha. unfold on_signal. apply respects_bind; [apply _|exact calls_evolves_sound|steadily|intros _]. intros w Hw.
  eapply runs_bind; [apply _|by apply runs_get| |done]. intros [s|] w' He Hs; [|apply calls_steadily_runs; [by eapply calls_evolves_sound|steadily]].
  destruct (Hs s eq_refl). case_bool_decide; [apply calls_steadily_runs; [by eapply calls_evolves_sound|steadily]|].
  apply runs_advance; [by eapply calls_evolves_sound|done..].
Qed.
Lemma steady_signaling_receive signal : authentic signal → steady (signaling_receive signal).
Proof. intros Ha. unfold signaling_receive. steadily. by apply steady_on_signal. Qed.
Lemma verified_digest signal (w : W) : runs evolves (λ r _, r = Ok true → verifyCurrentSignalDigest sha256_hex signal = true)
  (awaited (mret (verifyCurrentSignalDigest sha256_hex signal))) w.
Proof. apply runs_awaited; [apply _|]. apply runs_ret; [apply _|]. by intros w' _ [= ?]. Qed.
Lemma steady_receive decoded : steady (receivePlaintext decoded).
Proof.
  unfold receivePlaintext. destruct decoded as [signal|]; [|steadily]. cbv zeta. destruct (_ || _) eqn:Eo; [steadily|].
  rewrite !orb_false_iff, !negb_false_iff, !String.eqb_eq in Eo. destruct Eo as [[[[[_ Hr] _] _] _] Hp].
  do 8 (first [apply respects_bind; [apply _|exact calls_evolves_sound|steadily|intros ?]|case_match; [steadily|]]).
  destruct (decide (protocolVersion signal = Some 2)) as [Hv|Hv].
  - rewrite Hv. intros w Hw. eapply runs_bind; [apply _|apply verified_digest| |done]. intros [] w' He Hd; cbn [negb].
    + apply calls_steadily_runs; [by eapply calls_evolves_sound|]. steadily. apply steady_signaling_receive.
      split_and!; [done|done|done|by apply Hd].
    + apply calls_steadily_runs; [by eapply calls_evolves_sound|steadily].
  - repeat case_match; try done; steadily.
Qed.
Lemma runs_give_pending_one listener signal w : sound w → authentic signal → runs evolves anything (
    current ← service_get (sig_callId signal);
    w ← sync (gets (λ w, w));
    match current with
    | Some s => if bool_decide (listener ∈ mediaListeners w) && negotiating (state s) then give listener s signal else mret tt
    | None => mret tt
    end) w.
Proof.
  intros Hw Ha. eapply runs_bind; [apply _|by apply runs_get| |done]. intros o w1 H1 Hs. assert (sound w1) as Hw1 by by eapply calls_evolves_sound.
  apply runs_gets_bind; [apply _|]. destruct o as [s|]; [|by apply calls_steadily_runs; [|steadily]].
  destruct (negotiating (state s)) eqn:En; [|rewrite andb_false_r; by apply calls_steadily_runs; [|steadily]]. rewrite andb_true_r.
  case_bool_decide; [|by apply calls_steadily_runs; [|steadily]]. destruct (Hs s eq_refl) as [Hi Hc].
  apply known_give; [done..|]. split; [done|]. by apply Hc, negotiating_past.
Qed.
Lemma steady_give_pending listener l : Forall authentic l → steady (give_pending listener l).
Proof.
  induction 1 as [|signal l Ha Hl IH]; cbn; [steadily|]. apply respects_bind; [apply _|exact calls_evolves_sound| |done].
  apply respects_try; [apply _|exact calls_evolves_sound| |intros e; steadily]. apply respects_awaited; [apply _|exact calls_evolves_sound|].
  intros w Hw. by apply runs_give_pending_one.
Qed.
Lemma steady_onMediaSignal : steady onMediaSignal.
Proof.
  unfold onMediaSignal. do 2 (apply respects_bind; [apply _|exact calls_evolves_sound|steadily|intros ?]). intros w Hw.
  eapply (runs_bind _ (λ r _, ∀ l, r = Ok l → Forall authentic l)); [apply runs_sync| |done].
  - unfold drain. intros r w' [= <- <-]. split.
    + apply calls_quiet_evolves. split; [done|cbn; set_solver|exists []; by rewrite app_nil_r].
    + intros l [= <-]. apply Forall_forall. intros signal ([sig t] & -> & Hin)%list_elem_of_fmap. apply list_elem_of_In, filter_In in Hin as [Hin%list_elem_of_In _].
      by eapply (s_held w Hw).
  - intros l w' He Hl. apply calls_steadily_runs; [by eapply calls_evolves_sound|]. steadily. by apply steady_give_pending, Hl.
Qed.
Lemma activity_steady m : call_activity (λ _, True) m → steady m.
Proof.
  destruct 1 as [mode|id e He|id|id|id e k body He| |n|id e He|decoded _|timer]; try (steadily; fail).
  - steadily. apply steady_onMediaSignal.
  - apply calls_steady_quiet, calls_quiet_modify. intros w. split; [done..|]. exists []. by rewrite app_nil_r.
  - steadily. apply steady_event. intros ->. set_solver.
  - apply steady_receive.
Qed.
Lemma surroundings_evolve w w' : call_surroundings w w' → evolves w w'.
Proof. intros [a t r _ _]. by apply calls_quiet_evolves, calls_quiet_fields. Qed.
Lemma calls_new_sound a t p : sound (new_calls a t p).
Proof. split; cbn; set_solver. Qed.
Definition call_reaches (w : W) : Prop := ∃ a t p l, rtc (sys_step (call_activity (λ _, True)) call_surroundings) {| world := new_calls a t p; pending := [] |} {| world := w; pending := l |}.

(** C22: the negotiator is given a media signal only for a call that has been answered: whatever the user, the contact, the timers, the
    verifier and the relay did and in whatever order, a signal was handed to a listener with a session of its own call that was
    negotiating, the signal is an authentic one of the contact (version 2, with a digest that covers it), and the call was accepted
    before its invitation expired: by this device's user, or by an authentic signal of the contact for this very call. *)
Theorem media_waits_for_acceptance w listener n session signal : call_reaches w → media n listener session signal ∈ trace w →
  callId session = sig_callId signal ∧ negotiating (state session) = true ∧ authentic signal ∧
  ∃ origin t, happened origin (callId session) e_accept t ∈ trace w ∧ t < expiresAt session ∧ consent origin (callId session) e_accept.
Proof.
  intros (a & t & p & l & Hs) Hin.
  destruct (system_runs evolves sound calls_evolves_sound (call_activity (λ _, True)) call_surroundings {| world := new_calls a t p; pending := [] |}
    {| world := w; pending := l |} activity_steady surroundings_evolve (calls_new_sound a t p) (Forall_nil_2 _) Hs) as [He _].
  pose proof (calls_evolves_sound _ _ He (calls_new_sound a t p)) as Hw. cbn in Hw.
  destruct (s_media w Hw n listener session signal Hin) as (? & Ha & ? & ?). by split_and!.
Qed.
End safety.

(** ** Examples: bob's device, in a conversation with alice *)
Module Example.
Definition alice : CallParticipant := {| participantId := "alice"; identityId := "ia"; verification := v_verified |}.
Definition bob : CallParticipant := {| participantId := "bob"; identityId := "ib"; verification := v_verified |}.
#[export] Instance bobs_device : CallEndpoint := {|
  conversation := "room"; local := bob; remote := alice; sha256_hex := toy_hash; uuid n := str1 (Z.of_nat n); startedAt := 1000; bound := 5 |}.
Definition checked : Authority := {|
  trusted := true; bindingOf _ _ := "b";
  verifier := VerifiedCallIdentityVerifier {["alice"; "bob"]} {["alice" := v_verified; "bob" := v_verified]} None |}.
Definition signed (e : CallEvent) (k : CallSignalKind) (body : option jsval) (seq t : Z) : CallSignal :=
  let s d := {| sig_callId := "call"; sig_conversationId := "room"; sender := alice; receiverIdentityId := "ib"; sig_mediaMode := audio; nonce := "n";
    sig_event := e; kind := Some k; payload := body; sequence := seq; timestamp := t; sig_expiresAt := t + 60000; sig_identityBinding := "b";
    payloadDigest := d; protocolVersion := Some 2 |} in
  s (toy_hash (currentCanonical (s "") "," true)).
Notation W := (Calls MemoryReplay).
Definition begun : System W := {| world := new_calls checked 1000 empty_replay; pending := [] |}.
(** every request succeeds *)
Definition delivered : gmap nat (res unit) := list_to_map ((λ i, (i, Ok tt)) <$> seq 0 40).
Definition go (m : async W unit) (s : System W) : System W := run_ready 100 (arrive m s).
Definition after (t : Z) (s : System W) : System W := run_ready 100 {| world := elapsed checked (now (world s) + t) delivered (world s); pending := pending s |}.
Definition offer_body : jsval := JObj [("type", JStr "offer"); ("sdp", JStr "x")].
Definition invitation : CallSignal := signed e_invite control None 1 1000.
Definition acceptance : CallSignal := signed e_accept control None 2 1000.
Definition media_offer : CallSignal := signed e_connect offer (Some offer_body) 2 1001.
Definition ringing_here : System W := go (receivePlaintext (Some invitation)) (go (onMediaSignal;; mret tt) begun).
Definition accepted_here : System W := after 1 (go (respond "call" e_accept;; mret tt) ringing_here).
Definition offered : System W := go (receivePlaintext (Some media_offer)) accepted_here.
Definition answered_uninvited : System W := go (receivePlaintext (Some acceptance)) (go (receivePlaintext (Some invitation)) begun).
Section runs.
Context (event : async W unit → Prop).
Lemma calls_go_reaches m s : event m → rtc (sys_step event call_surroundings) s (go m s).
Proof. intros Hm. etrans; [by apply arrive_reaches|apply run_ready_reaches]. Qed.
Lemma calls_after_reaches t s : 0 <= t → results (world s) = ∅ ∨ results (world s) = delivered → rtc (sys_step event call_surroundings) s (after t s).
Proof.
  intros Ht Hr. eapply rtc_l; [|apply run_ready_reaches]. apply moves. apply surroundings; [lia|].
  destruct Hr as [-> | ->]; [apply map_empty_subseteq|done].
Qed.
End runs.
Notation any := (call_activity (λ _, True)).
Lemma accepted_reached : rtc (sys_step any call_surroundings) begun accepted_here.
Proof.
  etrans; [|apply calls_after_reaches; [done|left; by vm_compute]]. unfold ringing_here.
  etrans; [|apply calls_go_reaches; constructor; set_solver]. do 2 (etrans; [|apply calls_go_reaches; by constructor]). done.
Qed.
Lemma offered_reached : rtc (sys_step any call_surroundings) begun offered.
Proof. etrans; [apply accepted_reached|]. apply calls_go_reaches. by constructor. Qed.
Lemma offered_media : ∃ n listener session, trace (world offered) !! 7%nat = Some (media n listener session media_offer).
Proof. do 3 eexists. by vm_compute. Qed.
Lemma uninvited_reached : rtc (sys_step (λ m, ∃ decoded, m = receivePlaintext decoded) call_surroundings) begun answered_uninvited.
Proof. do 2 (etrans; [|by apply calls_go_reaches; eexists]). done. Qed.
End Example.
#[local] Existing Instance Example.bobs_device.
Lemma media_waits_for_acceptance_witness : ∃ session : CallSession, ∃ origin t,
  happened origin (callId session) e_accept t ∈ trace (world Example.offered) ∧ t < expiresAt session ∧ consent origin (callId session) e_accept.
Proof.
  destruct Example.offered_media as (n & listener & session & E). exists session.
  apply (media_waits_for_acceptance (world Example.offered) listener n session Example.media_offer).
  - exists Example.checked, 1000, empty_replay, (EventLoop.pending Example.offered). pose proof Example.offered_reached as H. destruct Example.offered. exact H.
  - apply list_elem_of_lookup_2 with 7%nat. exact E.
Defined.

Lemma no_user_event l id e t : Forall (λ a, match a with happened here _ _ _ => False | _ => True end) l → happened here id e t ∉ l.
Proof. intros Hl Hin. rewrite Forall_forall in Hl. by apply (Hl _ Hin). Qed.
(** What the composition does not ask for is the consent of this device's user: a contact that invites this device to a call and
    then sends the acceptance of its own invitation, both authentic, moves the call here from ringing to accepted, with no action of
    the user, and the interface is told that the call was accepted. *)
Theorem contact_can_answer_its_own_call : ∃ s : System (Calls MemoryReplay),
  rtc (sys_step (λ m, ∃ decoded, m = receivePlaintext decoded) call_surroundings) Example.begun s ∧
  ∃ session t, repository (world s) !! "call" = Some session ∧ state session = accepted ∧ notified session ∈ trace (world s) ∧
    happened (from Example.invitation) "call" e_invite t ∈ trace (world s) ∧ ∀ id e t', happened here id e t' ∉ trace (world s).
Proof.
  exists Example.answered_uninvited. split; [apply Example.uninvited_reached|].
  assert (∃ session, repository (world Example.answered_uninvited) !! "call" = Some session ∧ state session = accepted ∧
    trace (world Example.answered_uninvited) = [happened (from Example.invitation) "call" e_invite 1000; proofs_warmed; notified (with_state session ringing 1000);
      happened (from Example.acceptance) "call" e_accept 1000; proofs_warmed; notified session]) as (session & H1 & H2 & H3).
  { eexists. split; [by vm_compute|]. split; by vm_compute. }
  exists session, 1000. split; [done|]. split; [done|]. split; [rewrite H3; by apply (list_elem_of_lookup_2 _ 5%nat)|].
  split; [rewrite H3; by apply (list_elem_of_lookup_2 _ 0%nat)|]. intros id e t'.
  apply (no_user_event (trace (world Example.answered_uninvited))). rewrite H3. by repeat constructor.
Qed.
