(* ===== verification/CallRestart.v ===== *)
(** * A call that is restarted late

    An established call whose media path is lost is restarted: the negotiator moves it from connected over reconnecting to
    connecting. Connecting is a state whose events are bound by the deadline of the invitation, sixty seconds after it was sent, so in
    an older call every event but the expiry is refused from then on; and the expiry timer was cleared when the call was connected.
    The theorem says that such a call stays where it is, active, whatever the user, the negotiator and the contact's client do. *)
From S2P Require Import Prelude Json CallState CallSignaling EventLoop Calls CallSafety.

Section restart.
Context `{CallEndpoint} `{ReplayProtectionStore RS} (id : string) (s : CallSession).
Notation W := (Calls RS).
Notation A := (async W).

(** connecting, past the deadline of its invitation, active, and without an expiry timer *)
Record stuck (w : W) : Prop := {
  st_session : repository w !! id = Some s; st_state : state s = connecting; st_late : expiresAt s <= now w;
  st_active : activeCallId w = Some id; st_name : nonempty id = true;
  st_timers t due k : timers w !! t = Some (due, expiry_of k) → k ≠ id;
  st_ids k x : repository w !! k = Some x → callId x = k }.
Definition stays (w w' : W) : Prop := stuck w → stuck w'.
#[export] Instance stays_preorder : PreOrder stays.
Proof. split; [by intros w Hw|]. unfold stays. auto. Qed.
Lemma stays_stuck w w' : stays w w' → stuck w → stuck w'.
Proof. done. Qed.

(** ** Steps that leave the sessions alone *)
Record calm (w w' : W) : Prop := {
  c_repository : repository w' = repository w; c_active : activeCallId w' = activeCallId w; c_now : now w' = now w;
  c_timers t due k : timers w' !! t = Some (due, expiry_of k) → timers w !! t = Some (due, expiry_of k) }.
#[export] Instance calm_preorder : PreOrder calm.
Proof. split; [done|]. intros w1 w2 w3 [] []. split; [congruence..|]. naive_solver. Qed.
Lemma calm_stays w w' : calm w w' → stays w w'.
Proof. intros [R1 A1 N1 T1] [S St L Ac Nm T I]. split; [by rewrite ?R1, ?A1, ?N1..| |by rewrite R1]. eauto. Qed.
Lemma calm_always {B} (m : M W B) : always calm m → always stays m.
Proof. intros Hm w x w' E. by eapply calm_stays, Hm. Qed.
Lemma calm_modify f : (∀ w, calm w (f w)) → always calm (modify f).
Proof. by apply always_modify. Qed.
Lemma calm_fields w w' : repository w' = repository w → activeCallId w' = activeCallId w → now w' = now w → timers w' = timers w → calm w w'.
Proof. intros ? ? ? Ht. split; [done..|]. by rewrite Ht. Qed.
Lemma calm_fresh : always calm (fresh : M W nat).
Proof. intros w x w' [= _ <-]. by apply calm_fields. Qed.
Lemma calm_unset f n (w : W) : calm w (with_timers f n (timers w) w).
Proof. by apply calm_fields. Qed.
Lemma calm_delete f c n (w : W) : calm w (with_timers f c (delete n (timers w)) w).
Proof. split; [done..|]. intros t due k. cbn. by intros [_ ?]%lookup_delete_Some. Qed.
Hint Resolve calm_fresh calm_unset calm_delete : k3.
Hint Extern 1 (PreOrder _) => apply _ : k3.
Hint Extern 3 (always calm (modify _)) => (apply calm_modify; intros ?; repeat case_match; first [by apply calm_fields|by auto with k3]) : k3.
Ltac steps := along ltac:(unfold date_now, tell, next_sequence, offMediaSignal).
Lemma calm_clearExpiry k : always calm (clearExpiry k).
Proof. unfold clearExpiry. steps. Qed.
Lemma calm_set_cooling d : always calm (set_timeout d cooling).
Proof.
  unfold set_timeout. steps. apply calm_modify. intros w. split; [done..|]. intros t due k. cbn.
  intros [[_ ?]|[_ ?]]%lookup_insert_Some; done.
Qed.
Hint Resolve calm_clearExpiry calm_set_cooling : k3.
(** an update that is not the end of this call *)
Definition bearable (x : CallSession) : Prop := callId x = id → state x = connecting.
Lemma notify_stays x : bearable x → always stays (notify x).
Proof.
  intros Hx. unfold notify. apply always_bind; [apply _|apply calm_always; steps|intros _].
  intros w y w' E Hw. rewrite gets_bind in E. revert E.
  assert (terminal (state x) && bool_decide (activeCallId w = Some (callId x)) = false) as ->.
  { rewrite (st_active w Hw). case_bool_decide as Hi; [|by rewrite andb_false_r]. injection Hi as Hi. by rewrite Hx. }
  intros E. revert Hw. assert (always calm (A := unit) (mret tt;; modify (λ w : W, with_timers (expiryTimers w) (coolTimer w)
    (match coolTimer w with Some t => delete t (timers w) | None => timers w end) w);;
    active ← gets activeCallId;
    (if match active with Some i => nonempty i | None => false end then tell proofs_warmed
     else t ← set_timeout (TERMINAL_SIGNAL_WAIT_MS + 500) cooling; modify (λ w, with_timers (expiryTimers w) (Some t) (timers w) w));;
    tell (notified x))) as Hc by steps.
  by eapply calm_stays, Hc.
Qed.

(** ** Events of calls *)
Definition endurable (k : string) (e : CallEvent) : Prop := k = id → e ≠ e_expire.
Lemma process_stays o k e t w x w' : stuck w → endurable k e → expiresAt s <= t →
  on_repository (process k e t) [happened o k e t] w = (x, w') → stuck w' ∧ ∀ y, x = Ok y → bearable y.
Proof.
  intros Hw He Ht. unfold on_repository. destruct (process k e t (repository w)) as [r m] eqn:E. intros [= <- <-]. apply process_spec in E.
  destruct r as [y|]; [|subst m; split; [revert Hw; by apply calm_stays|done]]. destruct E as (s0 & Hs & Hy & ->).
  pose proof (st_ids w Hw k s0 Hs) as Hk. pose proof (transitionCall_keeps _ _ _ _ _ Hy) as (Ei & _). destruct Hw as [S St L Ac Nm T I].
  assert (y = s ∨ k ≠ id) as Hor.
  { destruct (decide (k = id)) as [->|]; [left|by right]. rewrite S in Hs. injection Hs as <-.
    unfold transitionCall in Hy. destruct (decide (e = e_heartbeat)); [rewrite St in Hy; by injection Hy|].
    rewrite (bool_decide_eq_false_2 (e = e_expire)) in Hy by by apply He. rewrite St in Hy. cbn in Hy.
    rewrite (proj2 (Z.leb_le _ _) Ht) in Hy. done. }
  split; [split; cbn; [|done..| |]|].
  - unfold save. destruct Hor as [->|Hn]; [by rewrite (I _ _ S), lookup_insert_eq|].
    rewrite lookup_insert_ne; [done|]. by rewrite Ei, Hk.
  - done.
  - unfold save. intros j z [[<- <-]|[_ Hz]]%lookup_insert_Some; [done|by apply I].
  - intros z [= <-] Hz. destruct Hor as [->|Hn]; [done|]. by rewrite Ei, Hk in Hz.
Qed.
Lemma runs_event o k e w : stuck w → endurable k e → runs stays (λ r _, ∀ y, r = Ok y → bearable y) (service_event o k e) w.
Proof.
  intros Hw He. unfold service_event, date_now. apply runs_gets_bind; [apply _|]. apply runs_call; [apply _|].
  intros w1 x w2 H1 E. pose proof (st_late w Hw) as Hl. split; [intros Hw1; by eapply process_stays|].
  intros _ _. by eapply process_stays; [apply H1|..].
Qed.

(** ** The operations *)
Notation firm m := (respects stays stuck m).
Lemma firm_calm {B} (m : M W B) : always calm m → firm (sync m).
Proof. intros Hm. apply respects_sync; [apply _|exact stays_stuck|by apply calm_always]. Qed.
Lemma firm_calm_call {B} (m : M W B) : always calm m → firm (call m).
Proof. intros Hm. apply respects_call; [apply _|exact stays_stuck|by apply calm_always]. Qed.
Hint Extern 1 (respects stays stuck (sync _)) => (apply firm_calm; steps; fail) : loop.
Hint Extern 1 (respects stays stuck (call _)) => (apply firm_calm_call; steps; fail) : loop.
Hint Extern 0 (PreOrder _) => apply _ : loop.
Hint Extern 0 (∀ w w', stays w w' → stuck w → stuck w') => exact stays_stuck : loop.
(** an event and what is done with its outcome *)
Lemma firm_event_bind {B} o k e (K : CallSession → A B) : endurable k e → (∀ x, bearable x → firm (K x)) → firm (service_event o k e ≫= K).
Proof.
  intros He HK w Hw. eapply runs_bind; [apply _|by apply runs_event| |done]. intros x w' H1 Hx. apply HK; [by apply Hx|by apply H1].
Qed.
Lemma firm_event_try {B} o k e msg (K : CallSession → A B) : endurable k e → (∀ x, bearable x → firm (K x)) →
  firm (try_ (service_event o k e) (λ _, fail msg) ≫= K).
Proof.
  intros He HK w Hw. eapply (runs_bind _ (λ r _, ∀ y, r = Ok y → bearable y)); [|intros x w' H1 Hx; apply HK; [by apply Hx|by apply H1]|done].
  eapply runs_try; [apply _|by apply runs_event| |done]. intros _ w' H1 _. apply runs_sync. by intros r w2 [= <- <-].
Qed.
Lemma firm_notify x : bearable x → firm (sync (notify x)).
Proof. intros Hx. apply respects_sync; [apply _|exact stays_stuck|by apply notify_stays]. Qed.
Ltac firmly :=
  repeat match goal with
  | |- respects _ _ (service_event _ _ _ ≫= _) => apply firm_event_bind; [try (unfold endurable; intros ?; first [done|congruence])|intros ? ?]
  | |- respects _ _ (try_ (service_event _ _ _) _ ≫= _) => apply firm_event_try; [try (unfold endurable; intros ?; first [done|congruence])|intros ? ?]
  | |- respects _ _ (_ ≫= _) => apply respects_bind; [apply _|exact stays_stuck| |intros ?]
  | |- respects _ _ (sync (notify _)) => by apply firm_notify
  | |- respects _ _ (try_ _ _) => apply respects_try; [apply _|exact stays_stuck| |intros ?]
  | |- respects _ _ (ignoring _) => unfold ignoring
  | |- respects _ _ (awaited _) => apply respects_awaited; [apply _|exact stays_stuck|]
  | |- respects _ _ (finally_async _ _) => apply respects_finally; [apply _|exact stays_stuck| |]
  | |- respects _ _ (fork _) => apply respects_fork; [apply _|exact stays_stuck|]
  | |- respects _ _ (match ?x with _ => _ end) => destruct x eqn:?
  | |- respects _ _ (if ?x then _ else _) => destruct x eqn:?
  | |- respects _ _ (let _ := _ in _) => cbv zeta
  | |- respects _ _ _ => solve [eauto 2 with loop]
  end.
Lemma firm_ask {B} (f : Authority → B) : firm (ask f : A B).
Proof. unfold ask. firmly. Qed.
Lemma firm_get k : firm (service_get k : A _).
Proof. unfold service_get. firmly. Qed.
Hint Resolve firm_ask firm_get : loop.
Lemma firm_contact : firm assertVerifiedContact.
Proof. unfold assertVerifiedContact, assert_verified. firmly. Qed.
Lemma firm_transport signal : firm (transport_send signal).
Proof. unfold transport_send. firmly. Qed.
Lemma firm_claim signal t : firm (claim_replay signal t).
Proof.
  apply firm_calm_call. intros w x w'. destruct (claim_signal signal t (replay w)) as [r p]. intros [= _ <-]. by apply calm_fields.
Qed.
Hint Resolve firm_contact firm_transport firm_claim : loop.
Lemma firm_signaling_send x signal : firm (signaling_send x signal).
Proof. unfold signaling_send. firmly. Qed.
Hint Resolve firm_signaling_send : loop.
Lemma firm_sendEvent x e n k body : firm (sendEvent x e n k body).
Proof. unfold sendEvent. firmly. Qed.
Hint Resolve firm_sendEvent : loop.
Lemma firm_competing signal e : firm (sendCompetingResponse signal e).
Proof. unfold sendCompetingResponse. firmly. Qed.
Hint Resolve firm_competing : loop.
Lemma firmly_runs {B} (m : A B) w : stuck w → firm m → runs stays anything m w.
Proof. intros Hw Hm. by apply Hm. Qed.
(** the user's side *)
Lemma firm_place_call mode : firm (place_call mode).
Proof.
  unfold place_call. apply respects_bind; [apply _|exact stays_stuck|firmly|intros _]. intros w Hw. apply runs_gets_bind; [apply _|].
  rewrite (st_active w Hw), (st_name w Hw). apply firmly_runs; [done|firmly].
Qed.
Lemma firm_respond k e : e ≠ e_expire → firm (respond k e).
Proof. intros He. unfold respond. firmly. Qed.
Lemma calm_settle p r : always calm (settle_promise p r).
Proof. cbn. steps. Qed.
Hint Resolve calm_settle : k3.
Lemma firm_race m : firm m → firm (race_send m).
Proof. intros Hm. unfold race_send. firmly. Qed.
Lemma firm_end_once k : firm (end_once k).
Proof. unfold end_once. firmly. all: try (intros _; by case_match). apply firm_race. firmly. Qed.
Lemma firm_end_call k : firm (end_call k).
Proof.
  unfold end_call. firmly. apply respects_start; [apply _|exact stays_stuck|cbn; firmly|intros p r; cbn; firmly|]. apply firm_end_once.
Qed.
Lemma firm_terminate k : firm (terminateLocally k).
Proof. unfold terminateLocally. firmly. Qed.
Lemma firm_media k e n body : firm (sendMediaSignal k e n body).
Proof. unfold sendMediaSignal. firmly. Qed.
(** the timers *)
Lemma firm_expire k : k ≠ id → firm (expire k).
Proof. intros Hk. unfold expire. firmly. Qed.
Lemma firm_fire timer : firm (fire timer).
Proof.
  unfold fire. intros w Hw. apply runs_gets_bind; [apply _|]. destruct (timers w !! timer) as [[due [k|]]|] eqn:E; [| |apply firmly_runs; [done|firmly]].
  - pose proof (firm_expire k (st_timers w Hw _ _ _ E)). apply firmly_runs; [done|firmly].
  - apply firmly_runs; [done|firmly].
Qed.
(** the contact's side *)
Lemma runs_found k w : stuck w → runs stays (λ r _, ∀ o, r = Ok o → k = id → o = Some s) (service_get k) w.
Proof. intros Hw. apply runs_awaited; [apply _|]. apply runs_sync. intros r w' [= <- <-]. split; [done|]. intros w2 _ o [= <-] ->. apply Hw. Qed.
Lemma busy_compete signal w : stuck w → runs stays (λ r _, ∀ b, r = Ok b → b = false) (compete signal id) w.
Proof.
  intros Hw. unfold compete. eapply runs_bind; [apply _|by apply runs_found| |done]. intros o w1 H1 Ho. rewrite (Ho o eq_refl eq_refl).
  rewrite (st_state w Hw). cbn. eapply (runs_bind _ anything); [|intros u w2 _ _; apply runs_ret; [apply _|by intros b [= ->]]|done].
  apply firmly_runs; [by apply H1|firmly].
Qed.
Lemma firm_ring signal : sig_callId signal ≠ id → firm (ring signal).
Proof.
  intros Hn. unfold ring. case_match; [firmly|]. apply respects_bind; [apply _|exact stays_stuck|firmly|intros binding].
  case_match; [firmly|]. apply respects_bind; [apply _|exact stays_stuck|firmly|intros t]. case_match; [firmly|].
  intros w Hw. apply runs_gets_bind; [apply _|]. rewrite (st_active w Hw), (st_name w Hw).
  rewrite (proj2 (String.eqb_neq id (sig_callId signal))) by done. cbn [andb negb].
  eapply runs_bind; [apply _|by apply busy_compete| |done]. intros b w1 Hw1 Hb. rewrite (Hb b eq_refl). cbn [negb]. apply firmly_runs; [by apply Hw1|firmly].
Qed.
Lemma firm_give l x signal : firm (give l x signal).
Proof. unfold give. firmly. Qed.
Hint Resolve firm_give : loop.
Lemma firm_give_all rounds last x signal : firm (give_all rounds last x signal).
Proof. revert last. induction rounds as [|rounds IH]; intros last; cbn; firmly. Qed.
Hint Resolve firm_give_all : loop.
Lemma firm_advance x signal : sig_event signal ≠ e_expire → firm (advance x signal).
Proof. intros He. unfold advance. firmly. Qed.
Lemma firm_on_signal signal : sig_event signal ≠ e_expire → firm (on_signal signal).
Proof.
  intros He. unfold on_signal. apply respects_bind; [apply _|exact stays_stuck|firmly|intros _]. intros w Hw.
  eapply runs_bind; [apply _|by apply runs_found| |done]. intros [x|] w1 H1 Ho; (apply firmly_runs; [by apply H1|]).
  - firmly. by apply firm_advance.
  - apply firm_ring. intros Hi. by specialize (Ho None eq_refl Hi).
Qed.
Lemma firm_receive decoded : (∀ signal, decoded = Some signal → sig_event signal ≠ e_expire) → firm (receivePlaintext decoded).
Proof.
  intros He. unfold receivePlaintext, signaling_receive. destruct decoded as [signal|]; [|firmly]. specialize (He signal eq_refl).
  pose proof (firm_on_signal signal He). firmly.
Qed.
Lemma firm_give_pending l signals : firm (give_pending l signals).
Proof. induction signals as [|signal signals IH]; cbn; firmly. Qed.
Lemma firm_onMediaSignal : firm onMediaSignal.
Proof.
  unfold onMediaSignal. firmly; [|apply firm_give_pending]. apply firm_calm. intros w x w' [= _ <-]. by apply calm_fields.
Qed.

(** what arrives from a K3NCRYPT client: [sendEvent] refuses to send an expiry *)
Definition from_a_client (decoded : option CallSignal) : Prop := ∀ signal, decoded = Some signal → sig_event signal ≠ e_expire.
Lemma activity_firm m : call_activity from_a_client m → firm m.
Proof.
  destruct 1 as [mode|k e He|k|k|k e n body He| |n|k e He|decoded He|timer].
  - pose proof (firm_place_call mode). firmly.
  - assert (e ≠ e_expire) as Hx by (intros ->; set_solver). pose proof (firm_respond k e Hx). firmly.
  - apply firm_end_call.
  - apply firm_terminate.
  - apply firm_media.
  - pose proof firm_onMediaSignal. firmly.
  - firmly.
  - assert (e ≠ e_expire) as Hx by (intros ->; set_solver). firmly.
  - by apply firm_receive.
  - apply firm_fire.
Qed.
Lemma surroundings_stay w w' : call_surroundings w w' → stays w w'.
Proof. intros [a t r Ht _] [S St L Ac Nm T I]. split; cbn; [done|done|lia|done..]. Qed.
(** C23: a call that is restarted after the deadline of its invitation can neither be established again nor ended: once it is connecting,
    past the deadline and without the expiry timer (which has run while the call was established), nothing that the user, the
    negotiator, the timers or the contact's client do changes its session, and it stays the active call, so that every new call of
    the composition is refused. *)
Theorem late_restart_is_stuck w s' : stuck w → rtc (sys_step (call_activity from_a_client) call_surroundings) {| world := w; pending := [] |} s' →
  repository (world s') !! id = Some s ∧ state s = connecting ∧ activeCallId (world s') = Some id.
Proof.
  intros Hw Hs. destruct (system_runs stays stuck stays_stuck (call_activity from_a_client) call_surroundings {| world := w; pending := [] |} s'
    activity_firm surroundings_stay Hw (Forall_nil_2 _) Hs) as [Hst _]. specialize (Hst Hw). split_and!; apply Hst.
Qed.
End restart.

(** ** An example: alice calls bob, bob accepts, the call is connected, and more than a minute later the media path is lost *)
Module Late.
Import CallSafety.Example.
Notation negotiates e s := (go (service_event machinery "call" e;; mret tt) s).
Definition talking : System W := negotiates e_connected (negotiates e_connect accepted_here).
Definition a_minute_later : System W := go (fire 2) (after 70000 talking).
Definition restarted : System W := negotiates e_connect (negotiates e_reconnect a_minute_later).
Definition session : CallSession := default (sample_session idle) (repository (world restarted) !! "call").
Definition hung_up : System W := after 5000 (go (end_call "call") restarted).
Notation ordinary := (call_activity from_a_client).
Lemma from_the_contact signal : sig_event signal ≠ e_expire → from_a_client (Some signal).
Proof. by intros He _ [= <-]. Qed.
Lemma restarted_reached : rtc (sys_step ordinary call_surroundings) begun restarted.
Proof.
  assert (rtc (sys_step ordinary call_surroundings) begun accepted_here) as Ha.
  { etrans; [|apply calls_after_reaches; [done|left; by vm_compute]]. unfold ringing_here.
    etrans; [|apply calls_go_reaches; constructor; set_solver]. etrans; [|apply calls_go_reaches; constructor; by apply from_the_contact].
    etrans; [|apply calls_go_reaches; by constructor]. done. }
  assert (rtc (sys_step ordinary call_surroundings) begun talking) as Ht.
  { do 2 (etrans; [|apply calls_go_reaches; constructor; set_solver]). done. }
  do 2 (etrans; [|apply calls_go_reaches; constructor; set_solver]). etrans; [|apply calls_go_reaches; constructor].
  etrans; [exact Ht|]. apply calls_after_reaches; [done|right; by vm_compute].
Qed.
Lemma hung_up_reached : rtc (sys_step ordinary call_surroundings) {| world := world restarted; pending := [] |} hung_up.
Proof.
  replace {| world := world restarted; pending := [] |} with restarted.
  - etrans; [|apply calls_after_reaches; [done|right; by vm_compute]]. apply calls_go_reaches. constructor.
  - assert (EventLoop.pending restarted = []) as E by by vm_compute. revert E. generalize restarted. intros [w l] E. cbn in E. by subst.
Qed.
Lemma restarted_stuck : stuck "call" session (world restarted).
Proof.
  assert (repository (world restarted) = {["call" := session]} ∧ timers (world restarted) = ∅) as [Er Et] by (split; by vm_compute).
  assert (state session = connecting ∧ callId session = "call" ∧ (expiresAt session <=? now (world restarted)) = true) as (Es & Ei & El)
    by (split_and!; by vm_compute).
  split; [rewrite Er; apply lookup_singleton_eq|done|by apply Z.leb_le|by vm_compute|done|by rewrite Et|].
  intros k x. rewrite Er. by intros [<- <-]%lookup_singleton_Some.
Qed.
End Late.
#[local] Existing Instance CallSafety.Example.bobs_device.
Lemma late_restart_is_stuck_witness : rtc (sys_step (call_activity from_a_client) call_surroundings) CallSafety.Example.begun Late.restarted ∧
  repository (world Late.hung_up) !! "call" = Some Late.session ∧ state Late.session = connecting ∧ activeCallId (world Late.hung_up) = Some "call".
Proof.
  split; [apply Late.restarted_reached|].
  apply (late_restart_is_stuck "call" Late.session (world Late.restarted) Late.hung_up); [apply Late.restarted_stuck|apply Late.hung_up_reached].
Defined.
