(* ===== verification/Ratchet.v ===== *)
(** * The session runtime ([crypto/vodozemacRuntime.ts], [core/vodozemacCryptoSession.ts], [identity/vodozemacSessionStore.ts],
      [PersistentVodozemacIdentity] of [identity/vodozemacIdentity.ts])

    One runtime per open conversation: it owns the opaque account and session handles of the WebAssembly library and
    decides when their state may be used. A message is encrypted or decrypted by advancing the session in memory; the new
    session, the account and the records of the caller are then committed in one compare-and-swap, and when that fails
    memory is put back to what the storage holds, or the session is discarded. The handles are parameters ([Olm]); a handle
    that throws has no message the code looks at. The mutex of the runtime makes its operations exclusive; what other tabs
    do to the storage is [others] of [Vault]. *)
From S2P Require Import Prelude Json Storage RoomMessage Vault Routing.

(** ** Library handles *)
Class Olm (Session Account : Type) := {
  handle_encrypt : bytes → Session → option string * Session;
  handle_decrypt : string → Session → option bytes * Session;
  handle_id : Session → string;
  handle_save : Session → string;
  handle_load : string → option Session;
  account_create : nat → Account;
  account_load : string → option Account;
  account_save : Account → string;
  account_identity_keys : Account → string;
  account_available : Account → Z;
  account_generate : Z → Account → Account;
  account_fallback : Account → Account;
  account_mark_published : Account → Account;
  account_sign : bytes → Account → string;
  account_outbound : string → string → Account → option Session * Account;
  account_inbound : string → string → Account → option (Session * bytes) * Account }.

(* service/src/crypto/vodozemacErrors.ts:2-19 VodozemacErrorCode, VodozemacBoundaryError *)
Definition boundary (c : string) : string := "VodozemacBoundaryError " +:+ c.
(** [error instanceof VodozemacBoundaryError ? error : new VodozemacBoundaryError(code, ...)] *)
(* service/src/crypto/vodozemacRuntime.ts:117-121 error mapping in initialize *)
Definition as_boundary (c e : string) : string := if Json.startsWith "VodozemacBoundaryError " e then e else boundary c.
(* service/src/crypto/vodozemacRuntime.ts:22-22 RetryableFirstPrekeyAccountConflict *)
Definition retryable_conflict : string := "RetryableFirstPrekeyAccountConflict".
(* service/src/crypto/vodozemacRuntime.ts:21-21 MAX_FIRST_PREKEY_ACCOUNT_CAS_RETRIES *)
Definition MAX_FIRST_PREKEY_ACCOUNT_CAS_RETRIES : nat := 3.

(* service/src/crypto/vodozemacRuntime.ts:39-47 VodozemacLifecycleState, members *)
Inductive LifecycleState :=
  uninitialized | crypto_ready | identity_restored | session_establishing | active | persisted | closed | error.
#[export] Instance lifecycle_eq_dec : EqDecision LifecycleState.
Proof. solve_decision. Defined.

(** ** Envelopes *)
Inductive CryptoChannel := message | signaling.
(* service/src/core/vodozemacCryptoSession.ts:3-6 VODOZEMAC_STRATEGY_ID, VODOZEMAC_ENVELOPE_VERSION, INNER_VERSION, MAX_WIRE_MESSAGE_LENGTH *)
Definition VODOZEMAC_STRATEGY_ID : string := "vodozemac-olm-v1".
Definition MAX_WIRE_MESSAGE_LENGTH : Z := 192 * 1024.
(* service/src/core/vodozemacCryptoSession.ts:22-22 channelByte *)
Definition channelByte (channel : CryptoChannel) : Z := match channel with message => 1 | signaling => 2 end.
(* service/src/core/vodozemacCryptoSession.ts:24-33 framePlaintext *)
Definition framePlaintext (channel : CryptoChannel) (plaintext : bytes) : res bytes :=
  throw_if (64 * 1024 <? blen plaintext) "Vodozemac plaintext is too large.";;
  mret (of_codes [1; channelByte channel] ++ plaintext).
(* service/src/core/vodozemacCryptoSession.ts:35-49 parseEnvelopeData *)
Definition parseEnvelopeData (value : jsval) : res string :=
  match value with
  | JObj fs =>
      throw_if (negb (bool_decide (length (keys fs) = 2%nat)) || negb (forallb (includes ["olmMessage"; "version"]) (keys fs)))
        "Malformed vodozemac envelope data.";;
      match get fs "olmMessage" with
      | JStr m =>
          throw_if (negb (bool_decide (get fs "version" = JNum (NInt 1))) || (strlen m <? 1) || (MAX_WIRE_MESSAGE_LENGTH <? strlen m))
            "Unsupported or malformed vodozemac envelope data.";;
          mret m
      | _ => Err "Unsupported or malformed vodozemac envelope data."
      end
  | _ => Err "Malformed vodozemac envelope data."
  end.
(** [EncryptedEnvelope] around a ciphertext *)
Definition envelope_of (olmMessage : string) : jsval :=
  JObj [("version", JNum (NInt 2)); ("strategy", JStr VODOZEMAC_STRATEGY_ID);
        ("data", JObj [("version", JNum (NInt 1)); ("olmMessage", JStr olmMessage)])].

(** ** The record types of the storage *)
Definition ACCOUNT_RECORD_TYPE : string := "vodozemac-account".
Definition SESSION_RECORD_TYPE : string := "vodozemac-session".
Definition TRANSACTION_RECORD_TYPE : string := "vodozemac-commit".

(* service/src/crypto/vodozemacRuntime.ts:23-26 isAccountOnlyFirstPrekeyConflict *)
Definition isAccountOnlyFirstPrekeyConflict (updates : list SecureRecordUpdate) (durable : list (option string)) : bool :=
  match updates, durable with
  | u :: us, d :: ds =>
      bool_decide (1 <= length us)%nat && bool_decide (length ds = length us) &&
      negb (bool_decide (d = expected u)) && forallb (λ p, bool_decide (p.2 = expected p.1)) (zip us ds)
  | _, _ => false
  end.
(** [updates.every((item, index) => equalBytes(durable[index], item.next))], and the same with [expected] *)
(* service/src/crypto/vodozemacRuntime.ts:315-315 updates.every next in decryptAndCommitInbound *)
Definition all_next (updates : list SecureRecordUpdate) (durable : list (option string)) : bool :=
  bool_decide (durable = (λ u, Some (next u)) <$> updates).
(* service/src/crypto/vodozemacRuntime.ts:431-431 updates.every expected in establishInboundSessionAndCommit *)
Definition all_expected (updates : list SecureRecordUpdate) (durable : list (option string)) : bool :=
  bool_decide (durable = expected <$> updates).

Section runtime.
Context {Session Account : Type} `{Olm Session Account} `{SecureStorageLaws St} {C : Type}.
Context (others : nat → St → St) (fault : nat → Io) (sha256 : string → string).
(** the protocol version of the loaded bindings, if loading succeeds; the public bundle of an account *)
Context (loadBindings : option Z).
(** what zero-filling the buffers of these updates does to buffers the caller still holds *)
Context (wipe : list SecureRecordUpdate → C → C).

(* service/src/core/vodozemacCryptoSession.ts:56-68 VodozemacCryptoSession, fields *)
Record CryptoSession := { handle : Session; initialized : bool }.
(** [account] and [publicIdentity] of the one [PersistentVodozemacIdentity]; [publicIdentity] is its fingerprint *)
(* service/src/identity/vodozemacIdentity.ts:68-75 PersistentVodozemacIdentity, fields *)
Record Identity := { account : option Account; publicIdentity : option (string * VodozemacPublicIdentity) }.
(** the fields of the runtime, and the local variables of the running operation that its handlers read *)
(* service/src/crypto/vodozemacRuntime.ts:61-75 VodozemacRuntime, fields *)
Record Tab := {
  state : LifecycleState; bindings : bool; identityHeld : bool; identity : Identity;
  session : option CryptoSession; conversationId : option string;
  mutated : bool; buildError : option string; acceptanceUpdates : list SecureRecordUpdate; client : C }.
Notation W := (World St Tab).

Definition set_state (s : LifecycleState) (t : Tab) : Tab :=
  {| state := s; bindings := bindings t; identityHeld := identityHeld t; identity := identity t; session := session t;
     conversationId := conversationId t; mutated := mutated t; buildError := buildError t;
     acceptanceUpdates := acceptanceUpdates t; client := client t |}.
Definition set_bindings (b : bool) (t : Tab) : Tab :=
  {| state := state t; bindings := b; identityHeld := identityHeld t; identity := identity t; session := session t;
     conversationId := conversationId t; mutated := mutated t; buildError := buildError t;
     acceptanceUpdates := acceptanceUpdates t; client := client t |}.
Definition set_identity (held : bool) (i : Identity) (t : Tab) : Tab :=
  {| state := state t; bindings := bindings t; identityHeld := held; identity := i; session := session t;
     conversationId := conversationId t; mutated := mutated t; buildError := buildError t;
     acceptanceUpdates := acceptanceUpdates t; client := client t |}.
Definition set_session (s : option CryptoSession) (t : Tab) : Tab :=
  {| state := state t; bindings := bindings t; identityHeld := identityHeld t; identity := identity t; session := s;
     conversationId := conversationId t; mutated := mutated t; buildError := buildError t;
     acceptanceUpdates := acceptanceUpdates t; client := client t |}.
Definition set_conversation (c : option string) (t : Tab) : Tab :=
  {| state := state t; bindings := bindings t; identityHeld := identityHeld t; identity := identity t; session := session t;
     conversationId := c; mutated := mutated t; buildError := buildError t;
     acceptanceUpdates := acceptanceUpdates t; client := client t |}.
Definition set_locals (m : bool) (b : option string) (us : list SecureRecordUpdate) (t : Tab) : Tab :=
  {| state := state t; bindings := bindings t; identityHeld := identityHeld t; identity := identity t; session := session t;
     conversationId := conversationId t; mutated := m; buildError := b; acceptanceUpdates := us; client := client t |}.
Definition set_client (c : C) (t : Tab) : Tab :=
  {| state := state t; bindings := bindings t; identityHeld := identityHeld t; identity := identity t; session := session t;
     conversationId := conversationId t; mutated := mutated t; buildError := buildError t;
     acceptanceUpdates := acceptanceUpdates t; client := c |}.

Notation get_mem := (get_mem (T := Tab)).
Notation read_ := (read_ others fault).
Notation write_ := (write_ others fault).
Notation delete_ := (delete_ others fault).
Notation swap_ := (swap_ others fault).
Definition set_mutated (m : bool) : M W unit := update_mem (λ t, set_locals m (buildError t) (acceptanceUpdates t) t).
Definition enter (s : LifecycleState) : M W unit := update_mem (set_state s).

(** [requireState(...allowed)] *)
(* service/src/crypto/vodozemacRuntime.ts:892-896 requireState *)
Definition requireState (allowed : list LifecycleState) : M W unit :=
  s ← get_mem state; fail_if (negb (bool_decide (s ∈ allowed))) (boundary "INVALID_LIFECYCLE").

(** *** The session adapter *)
(** [initialize(expectedSessionId)] of a new adapter *)
(* service/src/core/vodozemacCryptoSession.ts:70-78 initialize *)
Definition session_initialize (h : Session) (expectedSessionId : string) : res CryptoSession :=
  throw_if (negb (nonempty expectedSessionId) || negb (bool_decide (handle_id h = expectedSessionId))) "Vodozemac session identity mismatch.";;
  mret {| handle := h; initialized := true |}.
(** the session in memory, which its methods require to be initialised *)
(* service/src/core/vodozemacCryptoSession.ts:119-123 assertReady *)
Definition assertReady : M W CryptoSession :=
  s ← get_mem session;
  s ← require_ s "Session unavailable.";
  fail_if (negb (initialized s)) "Vodozemac session is not initialized.";;
  mret s.
Definition advance_session (h : Session) : M W unit :=
  update_mem (λ t, set_session ((λ s, {| handle := h; initialized := initialized s |}) <$> session t) t).
(* service/src/core/vodozemacCryptoSession.ts:80-87 encrypt *)
Definition session_encrypt (channel : CryptoChannel) (plaintext : bytes) : M W jsval :=
  s ← assertReady;
  framed ← lift (framePlaintext channel plaintext);
  let '(olm, h) := handle_encrypt framed (handle s) in
  advance_session h;;
  olm ← require_ olm "RuntimeError";
  mret (envelope_of olm).
(* service/src/core/vodozemacCryptoSession.ts:89-103 decrypt *)
Definition session_decrypt (channel : CryptoChannel) (envelope : jsval) : M W bytes :=
  s ← assertReady;
  fail_if (negb (bool_decide (oprop envelope "version" = JNum (NInt 2))) ||
    negb (bool_decide (oprop envelope "strategy" = JStr VODOZEMAC_STRATEGY_ID))) "Unsupported vodozemac protocol version or strategy.";;
  olm ← lift (parseEnvelopeData (oprop envelope "data"));
  let '(plaintext, h) := handle_decrypt olm (handle s) in
  advance_session h;;
  plaintext ← require_ plaintext "RuntimeError";
  fail_if (bool_decide (length plaintext < 2)%nat || negb (bool_decide (take 2 plaintext = of_codes [1; channelByte channel])))
    "Vodozemac plaintext channel binding failed.";;
  mret (drop 2 plaintext).

(* service/src/crypto/vodozemacRuntime.ts:801-806 serializeCurrentSession *)
Definition serializeCurrentSession : M W string := s ← assertReady; mret (handle_save (handle s)).
(* service/src/crypto/vodozemacRuntime.ts:886-890 quarantineSession *)
Definition quarantineSession : M W unit := update_mem (λ t, set_state error (set_session None t)).
(* service/src/crypto/vodozemacRuntime.ts:808-811 assertUniqueUpdates *)
Definition assertUniqueUpdates (updates : list SecureRecordUpdate) : M W unit :=
  fail_if (negb (bool_decide (NoDup ((λ u, recordType u +:+ ":" +:+ recordId u) <$> updates))))
    "Inbound acceptance contains duplicate records.".
(* service/src/crypto/vodozemacRuntime.ts:813-830 restoreSessionSnapshot *)
Definition restoreSessionSnapshot (snapshot sessionId : string) : M W unit :=
  b ← get_mem bindings;
  (if (b : bool) then mret tt else quarantineSession;; throw "Session recovery unavailable.");;
  match handle_load snapshot with
  | None => quarantineSession;; throw "RuntimeError"
  | Some recovered =>
      match session_initialize recovered sessionId with
      | Err e => quarantineSession;; throw e
      | Ok replacement => update_mem (λ t, set_state active (set_session (Some replacement) t))
      end
  end.
(* service/src/crypto/vodozemacRuntime.ts:178-194 establishSession *)
Definition establishSession (conversation : string) (h : Session) (expectedSessionId : string) : M W unit :=
  requireState [identity_restored; persisted];;
  fail_if (negb (nonempty conversation) || negb (nonempty expectedSessionId)) (boundary "IDENTITY_MISMATCH");;
  enter session_establishing;;
  match session_initialize h expectedSessionId with
  | Err _ => enter error;; throw (boundary "IDENTITY_MISMATCH")
  | Ok s => update_mem (λ t, set_state active (set_conversation (Some conversation) (set_session (Some s) t)))
  end.

(** *** The account *)
Definition invalid_identity : string := "Malformed vodozemac public identity.".
(* service/src/identity/vodozemacIdentity.ts:42-55 parsePublicIdentity *)
Definition parsePublicIdentity (value : string) : res VodozemacPublicIdentity :=
  throw_if (1024 <? strlen value) "Vodozemac public identity is too large.";;
  parsed ← require (parse value) "Unexpected token in JSON";
  match parsed with
  | JObj fs =>
      throw_if (negb (bool_decide (length (keys fs) = 2%nat)) || negb (forallb (includes ["curve25519"; "ed25519"]) (keys fs))) invalid_identity;;
      match get fs "curve25519", get fs "ed25519" with
      | JStr c, JStr e =>
          throw_if ((strlen c <? 40) || (128 <? strlen c) || (strlen e <? 40) || (128 <? strlen e)) invalid_identity;;
          mret {| curve25519 := c; ed25519 := e |}
      | _, _ => Err invalid_identity
      end
  | _ => Err invalid_identity
  end.
Definition set_account (i : Identity) : M W unit := update_mem (λ t, set_identity (identityHeld t) i t).
Definition no_identity : Identity := {| account := None; publicIdentity := None |}.
(* service/src/identity/vodozemacIdentity.ts:77-108 getOrCreate *)
Definition getOrCreate : M W string :=
  i ← get_mem identity;
  match publicIdentity i with
  | Some p => mret p.1
  | None =>
      stored ← read_ ACCOUNT_RECORD_TYPE "local";
      a ← match stored with
          | Some b => require_ (account_load b) "RuntimeError"
          | None =>
              n ← gets tick;
              let created := account_fallback (account_generate 10 (account_create n)) in
              write_ ACCOUNT_RECORD_TYPE "local" (account_save created);;
              mret created
          end;
      ks ← lift (parsePublicIdentity (account_identity_keys a));
      let fingerprint := fingerprintVodozemacIdentity sha256 ks in
      set_account {| account := Some a; publicIdentity := Some (fingerprint, ks) |};;
      mret fingerprint
  end.
(* service/src/identity/vodozemacIdentity.ts:111-114 withAccount *)
Definition withAccount {A} (operation : Account → option A * Account) : M W A :=
  getOrCreate;;
  i ← get_mem identity;
  a ← require_ (account i) "Messaging identity is locked.";
  let '(r, a') := operation a in
  set_account {| account := Some a'; publicIdentity := publicIdentity i |};;
  require_ r "RuntimeError".
(* service/src/identity/vodozemacIdentity.ts:117-126 persistAccount *)
Definition persistAccount : M W unit :=
  i ← get_mem identity;
  a ← require_ (account i) "Messaging identity is locked.";
  write_ ACCOUNT_RECORD_TYPE "local" (account_save a).
(* service/src/identity/vodozemacIdentity.ts:129-136 serializeAccountForCommit *)
Definition serializeAccountForCommit : M W string :=
  i ← get_mem identity;
  a ← require_ (account i) "Messaging identity is locked.";
  mret (account_save a).
(* service/src/identity/vodozemacIdentity.ts:155-161 signControlEvent *)
Definition identity_signControlEvent (payload : bytes) : M W string :=
  fail_if (bool_decide (payload = []) || (16 * 1024 <? blen payload)) "Control event is invalid.";;
  withAccount (λ a, (Some (account_sign payload a), a)).
(* service/src/identity/vodozemacIdentity.ts:163-168 markPublicKeysPublished *)
Definition identity_markPublicKeysPublished : M W unit :=
  withAccount (λ a, (Some tt, account_mark_published a));; persistAccount.
(* service/src/identity/vodozemacIdentity.ts:171-178 replenishOneTimeKeys *)
Definition identity_replenishOneTimeKeys (minimum : Z) : M W unit :=
  fail_if ((minimum <? 1) || (100 <? minimum)) "Invalid one-time-key target.";;
  withAccount (λ a, (Some tt, if account_available a <? minimum then account_generate (minimum - account_available a) a else a));;
  persistAccount.
(** [identity.lock()] *)
(* service/src/identity/vodozemacIdentity.ts:180-184 lock *)
Definition identity_lock : M W unit := set_account no_identity.

(** *** Opening the runtime *)
(** [{ version: 1, conversationId, sessionId, phase }] *)
(* service/src/crypto/vodozemacRuntime.ts:12-13 CommitMarker, CommitPhase *)
Definition commit_marker (conversation sid phase : string) : string :=
  stringify (JObj [("version", JNum (NInt 1)); ("conversationId", JStr conversation); ("sessionId", JStr sid); ("phase", JStr phase)]).
(* service/src/crypto/vodozemacRuntime.ts:869-875 marker in recoverPendingCommit *)
Definition parse_marker (b : string) : option (string * string) :=
  match parse b with
  | Some (JObj fs) =>
      match get fs "conversationId", get fs "sessionId", get fs "phase" with
      | JStr c, JStr _, JStr phase =>
          if bool_decide (get fs "version" = JNum (NInt 1)) && includes ["prepared"; "account-written"; "committed"] phase
          then Some (c, phase) else None
      | _, _, _ => None
      end
  | _ => None
  end.
(* service/src/crypto/vodozemacRuntime.ts:866-884 recoverPendingCommit *)
Definition recoverPendingCommit : M W unit :=
  b ← read_ TRANSACTION_RECORD_TYPE "local";
  match b with
  | None => mret tt
  | Some b =>
      match parse_marker b with
      | None => delete_ TRANSACTION_RECORD_TYPE "local";; throw (boundary "CORRUPTED_SESSION")
      | Some (conversation, phase) =>
          when (negb (String.eqb phase "committed")) (delete_ SESSION_RECORD_TYPE conversation);;
          delete_ TRANSACTION_RECORD_TYPE "local"
      end
  end.
(* service/src/crypto/vodozemacRuntime.ts:106-122 initialize *)
Definition initialize : M W unit :=
  requireState [uninitialized];;
  catch_
    (v ← require_ loadBindings "RuntimeError";
     fail_if (negb (v =? 1)) (boundary "UNSUPPORTED_PROTOCOL");;
     update_mem (set_bindings true);;
     recoverPendingCommit;;
     enter crypto_ready)
    (λ e, enter error;; throw (as_boundary "WASM_INIT_FAILED" e)).
(* service/src/crypto/vodozemacRuntime.ts:124-137 restoreOrCreateIdentity *)
Definition restoreOrCreateIdentity : M W string :=
  requireState [crypto_ready];;
  b ← get_mem bindings;
  fail_if (negb b) (boundary "WASM_INIT_FAILED");;
  update_mem (set_identity true no_identity);;
  catch_ (v ← getOrCreate; enter identity_restored;; mret v)
         (λ _, enter error;; throw (boundary "CORRUPTED_ACCOUNT")).
(** the operations on the identity, each guarded in the same way *)
Definition with_identity {A} (m : M W A) (c : string) : M W A :=
  requireState [identity_restored; active; persisted];;
  held ← get_mem identityHeld;
  fail_if (negb held) (boundary "CORRUPTED_ACCOUNT");;
  rethrow_as m (boundary c).
(* service/src/crypto/vodozemacRuntime.ts:155-160 signControlEvent *)
Definition signControlEvent (payload : bytes) : M W string := with_identity (identity_signControlEvent payload) "WASM_INIT_FAILED".
(* service/src/crypto/vodozemacRuntime.ts:163-168 markPublicKeysPublished *)
Definition markPublicKeysPublished : M W unit := with_identity identity_markPublicKeysPublished "CORRUPTED_ACCOUNT".
(* service/src/crypto/vodozemacRuntime.ts:170-175 replenishOneTimeKeys *)
Definition replenishOneTimeKeys (minimum : Z) : M W unit := with_identity (identity_replenishOneTimeKeys minimum) "CORRUPTED_ACCOUNT".

Definition session_missing : string := "Vodozemac session state is missing.".
Definition restore_failure (category : string) : string := boundary ("CORRUPTED_SESSION " +:+ category).
(* service/src/identity/vodozemacSessionStore.ts:24-35 load *)
Definition session_load (conversation : string) : M W Session :=
  serialized ← read_ SESSION_RECORD_TYPE conversation;
  serialized ← require_ serialized session_missing;
  require_ (handle_load serialized) "RuntimeError".
(* service/src/crypto/vodozemacRuntime.ts:534-552 restoreSession *)
Definition restoreSession (conversation expectedSessionId : string) : M W unit :=
  requireState [identity_restored; persisted];;
  b ← get_mem bindings;
  fail_if (negb b) (boundary "WASM_INIT_FAILED");;
  h ← catch_ (session_load conversation)
        (λ e, let missing := String.eqb e session_missing in
              enter (if missing then identity_restored else error);;
              throw (restore_failure (if missing then "session-record-missing" else "session-load-failed")));
  establishSession conversation h expectedSessionId.
(* service/src/crypto/vodozemacRuntime.ts:783-790 close *)
Definition close : M W unit :=
  update_mem (λ t, set_state closed (set_bindings false (set_identity false no_identity (set_session None t)))).

(** *** One signal: the session is saved before the ciphertext or the plaintext is released *)
(* service/src/crypto/vodozemacRuntime.ts:777-781 prepareMutation *)
Definition prepareMutation : M W unit :=
  c ← get_mem conversationId;
  s ← get_mem session;
  match c, s with
  | Some c, Some s =>
      fail_if (negb (nonempty c)) "Session unavailable.";;
      write_ TRANSACTION_RECORD_TYPE "local" (commit_marker c (handle_id (handle s)) "prepared")
  | _, _ => throw "Session unavailable."
  end.
(* service/src/crypto/vodozemacRuntime.ts:792-799 persistSessionUnsafe *)
Definition persistSessionUnsafe : M W unit :=
  requireState [active; persisted];;
  c ← get_mem conversationId;
  b ← get_mem bindings;
  match c with
  | Some c =>
      s ← get_mem session;
      fail_if (negb (bool_decide (is_Some s)) || negb (nonempty c) || negb b) (boundary "MISSING_SESSION");;
      serialized ← serializeCurrentSession;
      write_ SESSION_RECORD_TYPE c serialized;;
      enter active
  | None => throw (boundary "MISSING_SESSION")
  end.
(** [if (!this.session) throw new VodozemacBoundaryError('MISSING_SESSION', ...)] *)
(* service/src/crypto/vodozemacRuntime.ts:557-557 session guard in encrypt *)
Definition require_session : M W unit :=
  s ← get_mem session; fail_if (negb (bool_decide (is_Some s))) (boundary "MISSING_SESSION").
(* service/src/crypto/vodozemacRuntime.ts:563-564 persist in encrypt *)
Definition save_mutation : M W unit := persistSessionUnsafe;; delete_ TRANSACTION_RECORD_TYPE "local".
Definition quarantine_as {A} (c : string) : M W A := quarantineSession;; throw (boundary c).
(* service/src/crypto/vodozemacRuntime.ts:554-571 encrypt *)
Definition encrypt (channel : CryptoChannel) (plaintext : bytes) : M W jsval :=
  requireState [active; persisted];; require_session;; prepareMutation;;
  envelope ← catch_ (session_encrypt channel plaintext) (λ _, quarantine_as "INVALID_CIPHERTEXT");
  catch_ save_mutation (λ _, quarantine_as "CORRUPTED_SESSION");;
  mret envelope.
(* service/src/crypto/vodozemacRuntime.ts:754-772 decrypt *)
Definition decrypt (channel : CryptoChannel) (envelope : jsval) : M W bytes :=
  requireState [active; persisted];; require_session;; prepareMutation;;
  plaintext ← catch_ (session_decrypt channel envelope) (λ _, quarantine_as "INVALID_CIPHERTEXT");
  catch_ save_mutation (λ _, quarantine_as "CORRUPTED_SESSION");;
  mret plaintext.

(** *** Commits: what decides about the state in memory after a swap *)
(* service/src/crypto/vodozemacRuntime.ts:303-303 session update in decryptAndCommitInbound *)
Definition session_update (conversation : string) (e : option string) (n : string) : SecureRecordUpdate :=
  {| recordType := SESSION_RECORD_TYPE; recordId := conversation; expected := e; next := n |}.
(* service/src/crypto/vodozemacRuntime.ts:412-412 account update in establishInboundSessionAndCommit *)
Definition account_update (e : option string) (n : string) : SecureRecordUpdate :=
  {| recordType := ACCOUNT_RECORD_TYPE; recordId := "local"; expected := e; next := n |}.
(** [Promise.all(updates.map((item) => this.storage.read(item.recordType, item.recordId)))] *)
(* service/src/crypto/vodozemacRuntime.ts:313-313 durable in decryptAndCommitInbound *)
Fixpoint read_all (us : list SecureRecordUpdate) : M W (list (option string)) :=
  match us with
  | [] => mret []
  | u :: us' => d ← read_ (recordType u) (recordId u); ds ← read_all us'; mret (d :: ds)
  end.
(* service/src/crypto/vodozemacRuntime.ts:319-325 restore in decryptAndCommitInbound *)
Definition restore_or_quarantine (durable : option string) (snapshot sid : string) : M W unit :=
  if bool_decide (durable = Some snapshot) then restoreSessionSnapshot snapshot sid else quarantineSession.
(** the caller's callback; its error is thrown again as it is *)
(* service/src/crypto/vodozemacRuntime.ts:299-300 acceptanceBuildError in decryptAndCommitInbound *)
Definition build {A} (m : M W A) : M W A :=
  catch_ m (λ e, update_mem (λ t, set_locals (mutated t) (Some e) (acceptanceUpdates t) t);; throw e).
Definition keep_updates (us : list SecureRecordUpdate) : M W unit :=
  update_mem (λ t, set_locals (mutated t) (buildError t) us t).
(** [if (acceptanceBuildError) throw acceptanceBuildError; throw error instanceof VodozemacBoundaryError ? error : ...] *)
(* service/src/crypto/vodozemacRuntime.ts:351-353 rethrow in decryptAndCommitInbound *)
Definition throw_build_error {A} (e : string) : M W A :=
  b ← get_mem buildError; throw (match b with Some b => b | None => as_boundary "CORRUPTED_SESSION" e end).
Definition no_locals : M W unit := update_mem (set_locals false None []).
(** the [finally] block: the buffers of the caller's updates are zero-filled *)
Definition wipe_updates (w : W) : W := with_mem (λ t, set_client (wipe (acceptanceUpdates t) (client t)) t) w.

(** the same before the operation ends, after which nothing is left to wipe *)
(* service/src/crypto/vodozemacRuntime.ts:747-752 clearRecordUpdates *)
Definition clearRecordUpdates (w : W) : W :=
  with_mem (λ t, set_locals (mutated t) (buildError t) [] (set_client (wipe (acceptanceUpdates t) (client t)) t)) w.

(** the swap of [decryptAndCommitInbound], with its two conflict paths *)
(* service/src/crypto/vodozemacRuntime.ts:310-340 swap in decryptAndCommitInbound *)
Definition commit_inbound (conversation snapshot sid : string) (updates : list SecureRecordUpdate) : M W unit :=
  committed ← catch_ (b ← swap_ updates; mret (Some b))
    (λ e, durable ← read_all updates;
          if all_next updates durable then enter active;; mret None
          else restore_or_quarantine (default None (durable !! 0%nat)) snapshot sid;; set_mutated false;; throw e);
  match committed with
  | None => mret tt
  | Some true => enter active
  | Some false =>
      durable ← read_ SESSION_RECORD_TYPE conversation;
      restore_or_quarantine durable snapshot sid;; set_mutated false;;
      throw "Inbound acceptance transaction conflicted."
  end.
(* service/src/crypto/vodozemacRuntime.ts:268-363 decryptAndCommitInbound *)
Definition decryptAndCommitInbound (envelope : jsval) (buildUpdates : bytes → M W (list SecureRecordUpdate)) : M W unit :=
  requireState [active; persisted];;
  no_locals;;
  s ← get_mem session;
  c ← get_mem conversationId;
  match s, c with
  | Some s, Some c =>
      fail_if (negb (nonempty c)) (boundary "CORRUPTED_SESSION");;
      let sid := handle_id (handle s) in
      finally_
        (expectedSession ← catch_ (e ← read_ SESSION_RECORD_TYPE c;
                                   e ← require_ e "Persisted inbound session is missing.";
                                   current ← read_ SESSION_RECORD_TYPE c;
                                   fail_if (negb (bool_decide (current = Some e))) "Persisted inbound session changed.";;
                                   mret e)
                                  throw_build_error;
         catch_
           (set_mutated true;;
            plaintext ← catch_ (session_decrypt message envelope) (λ _, throw (boundary "INVALID_CIPHERTEXT"));
            acceptance ← build (buildUpdates plaintext);
            keep_updates acceptance;;
            nextSession ← serializeCurrentSession;
            let updates := session_update c (Some expectedSession) nextSession :: acceptance in
            assertUniqueUpdates updates;;
            commit_inbound c expectedSession sid updates)
           (λ e, m ← get_mem mutated;
                 when m (catch_ (durable ← read_ SESSION_RECORD_TYPE c; restore_or_quarantine durable expectedSession sid)
                                (λ _, quarantineSession));;
                 throw_build_error e))
        wipe_updates
  | _, _ => throw (boundary "CORRUPTED_SESSION")
  end.

(* service/src/crypto/vodozemacRuntime.ts:832-839 resetUncommittedFirstSession *)
Definition resetUncommittedFirstSession : M W unit :=
  quarantineSession;;
  update_mem (λ t, set_conversation None (set_identity true no_identity t));;
  getOrCreate;;
  enter identity_restored.
(** [this.quarantineSession(); identity.lock(); this.identity = undefined; this.state = 'error';] *)
(* service/src/crypto/vodozemacRuntime.ts:436-439 give up in establishInboundSessionAndCommit *)
Definition discard_all : M W unit :=
  quarantineSession;; update_mem (λ t, set_state error (set_identity false no_identity t)).
(** what a first-session commit that was not applied leads to *)
(* service/src/crypto/vodozemacRuntime.ts:428-445 conflict in establishInboundSessionAndCommit *)
Definition first_session_conflict (updates : list SecureRecordUpdate) (durable : list (option string)) (e : string) : M W unit :=
  if isAccountOnlyFirstPrekeyConflict updates durable
  then resetUncommittedFirstSession;; set_mutated false;; throw retryable_conflict
  else (if all_expected updates durable then resetUncommittedFirstSession else discard_all);; set_mutated false;; throw e.
(* service/src/crypto/vodozemacRuntime.ts:418-472 swap in establishInboundSessionAndCommit *)
Definition commit_first (updates : list SecureRecordUpdate) : M W unit :=
  committed ← catch_ (b ← swap_ updates; mret (Some b))
    (λ e, durable ← read_all updates;
          if all_next updates durable then enter active;; set_mutated false;; mret None
          else first_session_conflict updates durable e;; mret None);
  match committed with
  | None => mret tt
  | Some true => enter active;; set_mutated false
  | Some false =>
      durable ← read_all updates;
      first_session_conflict updates durable "Inbound acceptance transaction conflicted."
  end.
(* service/src/crypto/vodozemacRuntime.ts:375-510 attempt in establishInboundSessionAndCommit *)
Definition establish_attempt (conversation senderIdentityKey preKeyMessage : string)
    (buildUpdates : bytes → M W (list SecureRecordUpdate)) : M W unit :=
  requireState [identity_restored; persisted];;
  no_locals;;
  held ← get_mem identityHeld;
  fail_if (negb held || negb (nonempty senderIdentityKey) || negb (nonempty preKeyMessage)) (boundary "IDENTITY_MISMATCH");;
  finally_
    (before ← catch_ (a ← read_ ACCOUNT_RECORD_TYPE "local"; e ← read_ SESSION_RECORD_TYPE conversation; mret (a, e)) throw_build_error;
     let '(expectedAccount, expectedSession) := before in
     catch_
       (set_mutated true;;
        inbound ← withAccount (account_inbound senderIdentityKey preKeyMessage);
        let '(h, plaintext) := inbound in
        establishSession conversation h (handle_id h);;
        acceptance ← build (buildUpdates plaintext);
        keep_updates acceptance;;
        accountNext ← serializeAccountForCommit;
        sessionNext ← serializeCurrentSession;
        let updates := account_update expectedAccount accountNext :: session_update conversation expectedSession sessionNext :: acceptance in
        assertUniqueUpdates updates;;
        commit_first updates)
       (λ e, if String.eqb e retryable_conflict then throw e else
             m ← get_mem mutated;
             when m (catch_ (durableAccount ← read_ ACCOUNT_RECORD_TYPE "local";
                             durableSession ← read_ SESSION_RECORD_TYPE conversation;
                             if bool_decide (durableAccount = expectedAccount) && bool_decide (durableSession = expectedSession)
                             then resetUncommittedFirstSession else discard_all)
                            (λ _, discard_all));;
             throw_build_error e))
    wipe_updates.
(** [retries] attempts may still follow *)
(* service/src/crypto/vodozemacRuntime.ts:372-518 retry loop in establishInboundSessionAndCommit *)
Fixpoint establish_retry (retries : nat) (conversation senderIdentityKey preKeyMessage : string)
    (buildUpdates : bytes → M W (list SecureRecordUpdate)) : M W unit :=
  catch_ (establish_attempt conversation senderIdentityKey preKeyMessage buildUpdates)
    (λ e, match retries with
          | S n => if String.eqb e retryable_conflict then establish_retry n conversation senderIdentityKey preKeyMessage buildUpdates else throw e
          | O => throw e
          end).
(* service/src/crypto/vodozemacRuntime.ts:366-518 establishInboundSessionAndCommit *)
Definition establishInboundSessionAndCommit (conversation senderIdentityKey preKeyMessage : string)
    (buildUpdates : bytes → M W (list SecureRecordUpdate)) : M W unit :=
  establish_retry MAX_FIRST_PREKEY_ACCOUNT_CAS_RETRIES conversation senderIdentityKey preKeyMessage buildUpdates.

(* service/src/crypto/vodozemacRuntime.ts:29-33 OutboundSessionInitialization *)
Record OutboundSessionInitialization := {
  init_conversationId : string; recipientIdentityKey : string; recipientOneTimeKey : string }.
(* service/src/crypto/vodozemacRuntime.ts:719-730 outboundCryptoStateMatches *)
Definition outboundCryptoStateMatches (updates : list SecureRecordUpdate) (durable : list (option string))
    (expectedAccount expectedSession : option string) : bool :=
  forallb (λ p : SecureRecordUpdate * option string,
    if String.eqb (recordType p.1) SESSION_RECORD_TYPE then bool_decide (p.2 = expectedSession)
    else if String.eqb (recordType p.1) ACCOUNT_RECORD_TYPE then bool_decide (p.2 = expectedAccount) else true) (zip updates durable).
(* service/src/crypto/vodozemacRuntime.ts:732-745 restoreUncommittedOutbound *)
Definition restoreUncommittedOutbound (initial held : bool) (sessionBefore : option string) (sid : string) : M W unit :=
  if initial then
    fail_if (negb held) "Outbound identity recovery is unavailable.";;
    resetUncommittedFirstSession
  else
    b ← require_ sessionBefore "Outbound session recovery is unavailable.";
    restoreSessionSnapshot b sid.
(** [this.quarantineSession(); if (identity) identity.lock(); this.identity = undefined;] *)
(* service/src/crypto/vodozemacRuntime.ts:656-658 drop in encryptAndCommitOutbound *)
Definition drop_session_and_identity : M W unit :=
  quarantineSession;; update_mem (set_identity false no_identity).
(** What the operation found before it touched memory. *)
Record Before := { b_initial : bool; b_held : bool; b_account : option string; b_session : option string; b_snapshot : option string }.
(** One attempt to commit; [true] once the message is committed, [false] when only the caller's records conflicted. *)
(* service/src/crypto/vodozemacRuntime.ts:634-695 attempt in encryptAndCommitOutbound *)
Definition outbound_attempt (conversation : string) (b : Before) (sid : string) (accountNext sessionNext : string)
    (additional : M W (list SecureRecordUpdate)) : M W bool :=
  more ← additional;
  let updates := (if b_initial b then [account_update (b_account b) accountNext] else []) ++
                 session_update conversation (b_session b) sessionNext :: more in
  keep_updates more;;
  assertUniqueUpdates updates;;
  committed ← catch_ (c ← swap_ updates; mret (Some c))
    (λ e, durable ← read_all updates;
          if all_next updates durable then enter active;; set_mutated false;; mret None
          else finally_
            ((if outboundCryptoStateMatches updates durable (b_account b) (b_session b)
              then restoreUncommittedOutbound (b_initial b) (b_held b) (b_snapshot b) sid
              else drop_session_and_identity);; set_mutated false;; throw e) clearRecordUpdates);
  match committed with
  | None => mret true
  | Some true => enter active;; set_mutated false;; mret true
  | Some false =>
      durable ← read_all updates;
      if all_next updates durable then enter active;; set_mutated false;; mret true
      else modify clearRecordUpdates;;
      if outboundCryptoStateMatches updates durable (b_account b) (b_session b) then mret false
      else drop_session_and_identity;; set_mutated false;; throw "The outbound session transaction conflicted."
  end.
(** attempts 0, ..., 3: the ciphertext and the advanced session are kept, the caller's records are built again *)
(* service/src/crypto/vodozemacRuntime.ts:633-699 attempts in encryptAndCommitOutbound *)
Fixpoint outbound_attempts (n : nat) (conversation : string) (b : Before) (sid accountNext sessionNext : string)
    (additional : M W (list SecureRecordUpdate)) : M W unit :=
  done ← outbound_attempt conversation b sid accountNext sessionNext additional;
  if (done : bool) then mret tt else
  match n with
  | S n' => outbound_attempts n' conversation b sid accountNext sessionNext additional
  | O => restoreUncommittedOutbound (b_initial b) (b_held b) (b_snapshot b) sid;; set_mutated false;;
         throw "The outbound session transaction conflicted."
  end.
(* service/src/crypto/vodozemacRuntime.ts:596-624 preconditions in encryptAndCommitOutbound *)
Definition prepare_outbound (conversation : option string) (initialization : option OutboundSessionInitialization)
    : M W (string * Before) :=
  held ← get_mem identityHeld;
  match initialization with
  | Some i =>
      requireState [identity_restored; persisted];;
      s ← get_mem session;
      let c := init_conversationId i in
      fail_if (negb held || bool_decide (is_Some s) || negb (nonempty (recipientIdentityKey i)) ||
        negb (nonempty (recipientOneTimeKey i)) || negb (nonempty c)) (boundary "MISSING_SESSION");;
      a ← read_ ACCOUNT_RECORD_TYPE "local";
      e ← read_ SESSION_RECORD_TYPE c;
      fail_if (negb (bool_decide (is_Some a)) || bool_decide (is_Some e)) "The initial outbound session state changed.";;
      mret (c, {| b_initial := true; b_held := held; b_account := a; b_session := e; b_snapshot := None |})
  | None =>
      requireState [active; persisted];;
      s ← get_mem session;
      match s, conversation with
      | Some s, Some c =>
          fail_if (negb (nonempty c) || negb (initialized s)) (boundary "MISSING_SESSION");;
          e ← read_ SESSION_RECORD_TYPE c;
          before ← serializeCurrentSession;
          fail_if (negb (bool_decide (e = Some before))) "The persisted outbound session changed.";;
          mret (c, {| b_initial := false; b_held := held; b_account := None; b_session := e; b_snapshot := Some before |})
      | _, _ => throw (boundary "MISSING_SESSION")
      end
  end.
(** restoring after an error that left memory ahead of the storage *)
(* service/src/crypto/vodozemacRuntime.ts:701-707 undo in encryptAndCommitOutbound *)
Definition undo_outbound (b : Before) (sid : string) (e : string) : M W jsval :=
  m ← get_mem mutated;
  when m (catch_ (restoreUncommittedOutbound (b_initial b) (b_held b) (b_snapshot b) sid) (λ _, drop_session_and_identity));;
  throw (as_boundary "CORRUPTED_SESSION" e).
(* service/src/crypto/vodozemacRuntime.ts:574-717 encryptAndCommitOutbound *)
Definition encryptAndCommitOutbound (plaintext : bytes) (buildUpdates : jsval → string → M W (list SecureRecordUpdate))
    (initialization : option OutboundSessionInitialization) : M W jsval :=
  no_locals;;
  conversation ← get_mem conversationId;
  finally_
    ('(c, b) ← catch_ (prepare_outbound conversation initialization) (λ e, throw (as_boundary "CORRUPTED_SESSION" e));
     sid ← catch_
       (match initialization with
        | Some i =>
            set_mutated true;;
            h ← withAccount (account_outbound (recipientIdentityKey i) (recipientOneTimeKey i));
            establishSession c h (handle_id h)
        | None => mret tt
        end;;
        s ← get_mem session;
        s ← require_ s (boundary "MISSING_SESSION");
        mret (handle_id (handle s)))
       (λ e, undo_outbound b "" e;; throw e);
     catch_
       (set_mutated true;;
        envelope ← catch_ (session_encrypt message plaintext) (λ _, throw (boundary "INVALID_CIPHERTEXT"));
        sessionNext ← serializeCurrentSession;
        accountNext ← (if b_initial b then serializeAccountForCommit else mret "");
        outbound_attempts 3 c b sid accountNext sessionNext (buildUpdates envelope sid);;
        mret envelope)
       (undo_outbound b sid))
    wipe_updates.
End runtime.
