(* ===== verification/RatchetSafety.v ===== *)
(** * The session in memory and the session in storage ([crypto/vodozemacRuntime.ts])

    Theorems about [Ratchet]: every message is committed in at most one swap, together with the records of the caller, and
    is released exactly when it was; whatever fails, the session in memory afterwards is the stored one or there is none.
    They assume what the tab lock of a conversation is for, that nobody else writes its session record, and of the handles
    that loading is the inverse of saving and that a message advances the saved state. *)
From S2P Require Import Prelude Json Storage RoomMessage Vault Ratchet.

Class OlmLaws (Session Account : Type) `{Olm Session Account} : Prop := {
  load_save b (s : Session) : handle_load b = Some s → handle_save s = b;
  encrypt_advances p (s s' : Session) c : handle_encrypt p s = (Some c, s') → handle_save s' ≠ handle_save s;
  decrypt_advances c (s s' : Session) p : handle_decrypt c s = (Some p, s') → handle_save s' ≠ handle_save s }.

(** Handles that count their messages, for running the operations: the key of a message is the count. *)
Module Tally.
Fixpoint tally (n : nat) : string := match n with O => "" | S n => String "I" (tally n) end.
Definition untally (b : string) : option nat := if String.eqb (tally (String.length b)) b then Some (String.length b) else None.
Definition identity_keys : string :=
  stringify (JObj [("curve25519", JStr (tally 43)); ("ed25519", JStr (tally 43))]).
Definition ciphertext (n : nat) (p : bytes) : string := tally n +:+ ":" +:+ string_of_list_ascii p.
#[export] Instance olm : Olm nat nat := {|
  handle_encrypt p n := (Some (ciphertext n p), S n);
  handle_decrypt c n := (Some (of_codes [1; 1; Z.of_nat n]), S n);
  handle_id _ := "session"; handle_save := tally; handle_load := untally;
  account_create n := 0%nat; account_load := untally; account_save := tally; account_identity_keys _ := identity_keys;
  account_available _ := 5; account_generate k a := a; account_fallback a := a; account_mark_published a := a;
  account_sign p a := string_of_list_ascii p; account_outbound k m a := (Some 0%nat, S a);
  account_inbound k m a := (Some (0%nat, of_codes [7]), S a) |}.
Lemma length_tally n : String.length (tally n) = n.
Proof. induction n as [|n IH]; cbn; congruence. Qed.
#[export] Instance olm_laws : OlmLaws nat nat.
Proof.
  split.
  - intros b n. cbn. unfold untally. destruct (String.eqb_spec (tally (String.length b)) b) as [E|]; [|done]. by intros [= <-].
  - intros p n n' c [= _ <-] E. apply (f_equal String.length) in E. change (String.length (tally (S n)) = String.length (tally n)) in E.
    rewrite !length_tally in E. lia.
  - intros c n n' p [= _ <-] E. apply (f_equal String.length) in E. change (String.length (tally (S n)) = String.length (tally n)) in E.
    rewrite !length_tally in E. lia.
Qed.
(** a conversation with session 0 in memory and in storage; the caller writes one record of its own *)
Definition Counting : Type := (Tab (Session := nat) (Account := nat) (C := unit)).
Definition tab : Counting :=
  {| state := active; bindings := true; identityHeld := true; identity := no_identity;
     session := Some {| handle := 0%nat; initialized := true |}; conversationId := Some "room";
     mutated := false; buildError := None; acceptanceUpdates := []; client := tt |}.
Definition world : World memory Counting :=
  {| disk := write SESSION_RECORD_TYPE "room" (tally 0) (∅ : memory); tick := 0; mem := tab |}.
Definition record_of (v : string) : SecureRecordUpdate := {| recordType := "outbox"; recordId := "m"; expected := None; next := v |}.
Definition accept (p : bytes) : M (World memory Counting) (list SecureRecordUpdate) := mret [record_of (string_of_list_ascii p)].
Definition queue (e : jsval) (s : string) : M (World memory Counting) (list SecureRecordUpdate) := mret [record_of (stringify e)].
Definition alone (n : nat) (d : memory) : memory := d.
Definition sound (n : nat) : Io := io_done.
Definition untouched (us : list SecureRecordUpdate) (c : unit) : unit := c.
End Tally.

Section safety.
Context {Session Account : Type} `{OlmLaws Session Account} `{SecureStorageLaws St} {C : Type}.
Context (others : nat → St → St) (fault : nat → Io) (sha256 : string → string) (loadBindings : option Z)
  (wipe : list SecureRecordUpdate → C → C).
Context (sessions_locked : ∀ n d c, read (others n d) SESSION_RECORD_TYPE c = read d SESSION_RECORD_TYPE c).
Notation Tab := (Tab (Session := Session) (Account := Account) (C := C)).
Notation W := (World St Tab).
Notation drift := (drift others (T := Tab)).
Notation stable := (stable others (T := Tab)).

Implicit Types w : W.
Definition stored_session (c : string) w : option string := read (disk w) SESSION_RECORD_TYPE c.

Lemma drift_stored c w w' : drift w w' → stored_session c w' = stored_session c w.
Proof. intros Hd. eapply drift_read; [|exact Hd]. intros n d. apply sessions_locked. Qed.

(** What may happen to the storage besides the swap of a message: others write, and the caller's callback may write records of
    its own; neither touches a session. *)
Context (moved : W → W → Prop) `{!PreOrder moved} (drift_moved : ∀ w w', drift w w' → moved w w')
  (moved_stored : ∀ c w w', moved w w' → stored_session c w' = stored_session c w).
(** the updates [us] were committed in one step between [w] and [w'] *)
Definition committed (us : list SecureRecordUpdate) w w' : Prop := ∃ w1, moved w w1 ∧ Vault.committed others us w1 w'.
Lemma moved_drift w0 w w' : moved w0 w → drift w w' → moved w0 w'.
Proof. intros Hw Hd. etrans; [exact Hw|by apply drift_moved]. Qed.
Lemma moved_mem w0 w f : moved w0 w → moved w0 (with_mem f w).
Proof. intros Hw. eapply moved_drift; [exact Hw|apply drift_mem]. Qed.
Lemma committed_later us w0 w w' : committed us w0 w → drift w w' → committed us w0 w'.
Proof. intros (w1 & Hm & Hc) Hd. exists w1. split; [done|]. by eapply committed_drift_r. Qed.
Lemma committed_session us c e n w0 w :
  NoDup (update_key <$> us) → session_update c e n ∈ us → committed us w0 w → stored_session c w = Some n.
Proof.
  intros Hnd Hin (w1 & _ & Hc). apply (committed_read others us (session_update c e n) w1 w); [done..|by intros; apply sessions_locked|done].
Qed.

(** The session in memory is [h], of conversation [c], whose session record is [old]. *)
Definition holds (c : string) (h : Session) (t : Tab) : Prop :=
  session t = Some {| handle := h; initialized := true |} ∧ state t = active ∧ conversationId t = Some c ∧ c ≠ "".
Definition ahead (c : string) (old : option string) (h : Session) w : Prop := holds c h (mem w) ∧ stored_session c w = old.
(** Memory is not ahead of the storage. *)
Definition backed w : Prop := session (mem w) = None ∨ ∃ c h, ahead c (Some (handle_save h)) h w.

Lemma stable_mem_stored c old (P : Tab → Prop) : stable (λ w, P (mem w) ∧ stored_session c w = old).
Proof. intros w w' [Hp Ho] Hd Hm. rewrite Hm. split; [done|]. by rewrite (drift_stored _ _ _ Hd). Qed.

Lemma stable_and (P Q : W → Prop) : stable P → stable Q → stable (λ w, P w ∧ Q w).
Proof. intros HP HQ w w' [Hp Hq] Hd Hm. split; eauto. Qed.
Lemma stable_or (P Q : W → Prop) : stable P → stable Q → stable (λ w, P w ∨ Q w).
Proof. intros HP HQ w w' [Hp|Hq] Hd Hm; [left|right]; eauto. Qed.
Lemma stable_mem (P : Tab → Prop) : stable (λ w, P (mem w)).
Proof. intros w w' Hp _ Hm. by rewrite Hm. Qed.
Lemma stable_stored c old : stable (λ w, stored_session c w = old).
Proof. intros w w' Ho Hd _. by rewrite (drift_stored _ _ _ Hd). Qed.
Lemma stable_committed us w0 : stable (committed us w0).
Proof. intros w w' Hw Hd _. by eapply committed_later. Qed.
Lemma stable_backed : stable backed.
Proof.
  intros w w' [Hn|(c & h & Ha)] Hd Hm; [left; by rewrite Hm|right]. exists c, h.
  by apply (stable_mem_stored c (Some (handle_save h)) (holds c h) w).
Qed.

(** ** Putting memory back *)
Definition unheld (t : Tab) : Prop := session t = None.
Definition same_place (c : string) (t t' : Tab) : Prop := bindings t' = bindings t ∧ conversationId t' = conversationId t.

Lemma quarantine_run w : quarantineSession w = (Ok tt, with_mem (λ t, set_state error (set_session None t)) w).
Proof. done. Qed.

(** [P] does not depend on the state and the session in memory *)
Definition blind (P : W → Prop) : Prop := ∀ w s st, P w → P (with_mem (λ t, set_state st (set_session s t)) w).

Lemma triple_quarantine P : blind P → triple P quarantineSession (λ _ w, unheld (mem w) ∧ P w) (λ _ _, False).
Proof. intros Hb w Hw. rewrite quarantine_run. split; [done|]. by apply Hb. Qed.

Lemma triple_restore P c snapshot sid :
  blind P → c ≠ "" → (∀ w, P w → conversationId (mem w) = Some c ∧ stored_session c w = Some snapshot) →
  triple P (restoreSessionSnapshot snapshot sid) (λ _ w, backed w ∧ P w) (λ _ w, unheld (mem w) ∧ P w).
Proof.
  intros Hb Hc HP w Hw. unfold restoreSessionSnapshot. unfold get_mem. rewrite gets_bind.
  destruct (bindings (mem w)) eqn:Eb; [|split; [done|by apply Hb]].
  rewrite mret_bind. destruct (handle_load snapshot) as [h|] eqn:El; [|split; [done|by apply Hb]].
  unfold session_initialize. destruct (negb _ || negb _); [split; [done|by apply Hb]|]. cbn [mbind res_bind throw_if mret res_ret].
  split; [|by apply Hb]. destruct (HP w Hw) as [Hconv Hst]. right. exists c, h.
  rewrite (load_save _ _ El). split; [|done]. done.
Qed.

Lemma triple_restore_or_quarantine P c durable snapshot sid :
  blind P → c ≠ "" → (∀ w, P w → conversationId (mem w) = Some c ∧ stored_session c w = durable) →
  triple P (restore_or_quarantine durable snapshot sid) (λ _ w, backed w ∧ P w ∧ (durable ≠ Some snapshot → unheld (mem w)))
    (λ _ w, unheld (mem w) ∧ P w).
Proof.
  intros Hb Hc HP. unfold restore_or_quarantine. apply triple_if; intros Ed.
  - apply bool_decide_eq_true in Ed. subst durable.
    eapply triple_weaken; [by eapply triple_restore|done| |done]. intros _ w [? ?]. split_and!; [done..|by intros []].
  - eapply triple_weaken; [by apply triple_quarantine|done| |done]. intros _ w [Hu ?]. split_and!; [by left|done|done].
Qed.

(** ** Callbacks and errors *)
(** The caller's callback reads the storage and may change the caller's own state; it leaves the session alone. *)
Definition kept (t t' : Tab) : Prop :=
  state t' = state t ∧ bindings t' = bindings t ∧ session t' = session t ∧ conversationId t' = conversationId t ∧
  mutated t' = mutated t ∧ buildError t' = buildError t ∧ identityHeld t' = identityHeld t.
Definition quiet {A} (m : M W A) : Prop := always (λ w w', moved w w' ∧ kept (mem w) (mem w')) m.

Lemma kept_holds c h t t' : kept t t' → holds c h t → holds c h t'.
Proof. intros (? & ? & ? & ? & _) (? & ? & ? & ?). unfold holds. split_and!; congruence. Qed.

Lemma triple_quiet {A} (m : M W A) P :
  quiet m → (∀ w w', P w → moved w w' → kept (mem w) (mem w') → P w') →
  triple P m (λ a w', P w' ∧ ∃ w, P w ∧ m w = (Ok a, w')) (λ _ w, P w).
Proof.
  intros Hm HP w Hw. destruct (m w) as [[a|e] w'] eqn:E; destruct (Hm _ _ _ E); [|by eapply HP].
  split; [by eapply HP|by exists w].
Qed.

Lemma always_read_all us : always drift (read_all others fault us).
Proof. induction us as [|u us IH]; cbn [read_all]; eauto 10 with k3 typeclass_instances. Qed.

Lemma triple_read_all us (P : W → Prop) :
  stable P →
  triple P (read_all others fault us)
    (λ ds w, P w ∧ Forall2 (λ u d, recordType u = SESSION_RECORD_TYPE → d = stored_session (recordId u) w) us ds) (λ _ w, P w).
Proof.
  intros HP. induction us as [|u us IH]; cbn [read_all]; [by intros w Hw|].
  eapply triple_bind; [by apply triple_read|]. intros d.
  set (P' w := (recordType u = SESSION_RECORD_TYPE → d = stored_session (recordId u) w) ∧ P w).
  assert (stable P') as HP'.
  { intros w w' [Hd Hw] Hdr Hm. split; [|by eapply HP]. intros Hu. rewrite (drift_stored _ _ _ Hdr). by apply Hd. }
  eapply triple_bind with (R := λ ds w, P' w ∧ Forall2 (λ u d, recordType u = SESSION_RECORD_TYPE → d = stored_session (recordId u) w) us ds).
  - eapply (triple_pre _ P'); [|intros w [-> Hw]; split; [intros E; unfold stored_session; by rewrite E|done]].
    intros w [Hd Hw]. specialize (IH w Hw). revert IH.
    pose proof (always_read_all us w) as Ha. destruct (read_all others fault us w) as [[ds|e] w'] eqn:E; [|done].
    intros [Hw' Hds]. split; [|done]. split; [|done]. intros Hu. rewrite (Hd Hu). symmetry. apply drift_stored. by eapply Ha.
  - intros ds w [[Hd Hw] Hds]. split; [done|by constructor].
Qed.

Lemma read_all_fault us w e w' : read_all others fault us w = (Err e, w') → ∃ m, (tick w ≤ m)%nat ∧ fault m ≠ io_done.
Proof.
  revert w. induction us as [|u us IH]; cbn [read_all]; intros w; [done|].
  unfold mbind, M_bind. destruct (read_ others fault _ _ w) as [[d|e'] w1] eqn:E.
  - destruct (read_all others fault us w1) as [[ds|e'] w2] eqn:E2; [done|]. intros [= -> ->].
    apply read_cases in E as ((k & Hk & _) & _). destruct (IH _ E2) as (m & Hm & Hf). exists m. split; [lia|done].
  - intros [= -> ->]. exists (tick w). split; [lia|]. by eapply read_fault.
Qed.

Lemma elem_of_zip_image {A B} (f : A → B) (l : list A) p : p ∈ zip l (f <$> l) → p.2 = f p.1.
Proof. induction l as [|a l IH]; cbn; [set_solver|]. intros [->|?]%elem_of_cons; auto. Qed.

(** ** Decrypting a message and accepting it in one swap *)
Section inbound.
Context (w0 : W) (c old : string) (h0 : Session) (envelope : jsval) (buildUpdates : bytes → M W (list SecureRecordUpdate)).
Context (builds : ∀ p, quiet (buildUpdates p)) (Hold : old = handle_save h0).

(** the caller's own state is as it was *)
Definition same_client w : Prop := client (mem w) = client (mem w0).
(** where the committed session and the committed updates come from *)
Definition decrypted (next : string) (more : list SecureRecordUpdate) (h : Session) : Prop :=
  ∃ olm framed wb wb', parseEnvelopeData (oprop envelope "data") = Ok olm ∧ handle_decrypt olm h0 = (Some framed, h) ∧
    next = handle_save h ∧ moved w0 wb ∧ same_client wb ∧ buildUpdates (drop 2 framed) wb = (Ok more, wb').
Definition accepted_with (next : string) (more : list SecureRecordUpdate) w : Prop :=
  committed (session_update c (Some old) next :: more) w0 w ∧ stored_session c w = Some next ∧
  NoDup (update_key <$> session_update c (Some old) next :: more).

(** memory may be ahead of the storage, or behind it *)
Definition unsettled w : Prop :=
  conversationId (mem w) = Some c ∧
  ((stored_session c w = Some old ∧ moved w0 w) ∨ ∃ next more h, decrypted next more h ∧ accepted_with next more w).
Definition failed w : Prop :=
  backed w ∧ (moved w0 w ∨ unheld (mem w) ∧ ∃ next more h, decrypted next more h ∧ accepted_with next more w).
Definition done_ w : Prop := ∃ next more h, decrypted next more h ∧ accepted_with next more w ∧ holds c h (mem w).
Definition interrupted w : Prop := (mutated (mem w) = true ∧ unsettled w) ∨ (mutated (mem w) = false ∧ failed w).

Lemma decrypted_new next more h : decrypted next more h → next ≠ old.
Proof. intros (olm & framed & _ & _ & _ & Hd & -> & _). rewrite Hold. by eapply decrypt_advances. Qed.

Lemma stable_accepted next more : stable (accepted_with next more).
Proof. apply stable_and; [apply stable_committed|]. apply stable_and; [apply stable_stored|by intros w w']. Qed.
Lemma stable_unsettled : stable unsettled.
Proof.
  intros w w' [Hc Hu] Hd Hm. split; [by rewrite Hm|]. destruct Hu as [[Ho Hw]|(n & m & h & Hk & Ha)].
  - left. split; [by rewrite (drift_stored _ _ _ Hd)|by eapply moved_drift].
  - right. exists n, m, h. split; [done|]. by eapply stable_accepted.
Qed.
Lemma blind_unsettled : blind unsettled.
Proof. intros w s st [Hc [[Ho Hd]|Ha]]; (split; [exact Hc|]); [left|by right]. split; [exact Ho|by apply moved_mem]. Qed.
Lemma unsettled_mem w f : conversationId (f (mem w)) = conversationId (mem w) → unsettled w → unsettled (with_mem f w).
Proof. intros Hf [Hc [[Ho Hd]|Ha]]; (split; [by cbn; rewrite Hf|]); [left|by right]. split; [exact Ho|by apply moved_mem]. Qed.

Lemma settled w : unsettled w → backed w → (∀ old', stored_session c w = Some old' → old' ≠ old → unheld (mem w)) → failed w.
Proof.
  intros [Hc [[Ho Hd]|(n & m & h & Hk & Ha)]] Hb Hu; (split; [done|]); [by left|right]. split; [|by exists n, m, h].
  apply (Hu n); [by destruct Ha as (_ & ? & _)|by eapply decrypted_new].
Qed.

(** memory follows the storage again *)
Lemma triple_settle durable sid P :
  c ≠ "" → (∀ w, P w → unsettled w ∧ stored_session c w = durable) → blind P →
  triple P (restore_or_quarantine durable old sid) (λ _ w, failed w) (λ _ w, failed w ∧ P w).
Proof.
  intros Hc HP Hb. eapply triple_weaken; [apply (triple_restore_or_quarantine P c); try done| |..].
  - intros w Hw. destruct (HP w Hw) as [[Hconv _] Hs]. done.
  - done.
  - intros _ w (Hbk & Hw & Hu). destruct (HP w Hw) as [Hun Hs]. apply settled; [done..|].
    intros old' Hs' Hne. apply Hu. congruence.
  - intros _ w (Hu & Hw). destruct (HP w Hw) as [Hun Hs]. split; [|done]. apply settled; [done|by left|by intros].
Qed.

(** nothing here looks at the locals and the caller's own state *)
Lemma failed_mem w m e us cl : failed w → failed (with_mem (λ t, set_locals m e us (set_client cl t)) w).
Proof.
  intros [Hb Hw]. split; [exact Hb|]. destruct Hw as [Hd|Hw]; [left; by apply moved_mem|by right].
Qed.

Definition pending w : Prop := mutated (mem w) = true ∧ unsettled w.
Lemma stable_pending : stable pending.
Proof. apply stable_and; [by apply (stable_mem (λ t, mutated t = true))|apply stable_unsettled]. Qed.

Lemma blind_pending_at d : blind (λ w, pending w ∧ stored_session c w = d).
Proof. intros w s st [[Hm Hu] Hs]. split; [|exact Hs]. split; [exact Hm|by apply blind_unsettled]. Qed.
Lemma blind_unsettled_at d : blind (λ w, unsettled w ∧ stored_session c w = d).
Proof. intros w s st [Hu Hs]. split; [by apply blind_unsettled|exact Hs]. Qed.

Lemma triple_settle_throw {A} durable sid e (P : W → Prop) :
  c ≠ "" → (∀ w, P w → pending w ∧ stored_session c w = durable) → blind P →
  triple P (restore_or_quarantine durable old sid;; set_mutated false;; throw e : M W A) (λ _ _, False) (λ _ w, interrupted w).
Proof.
  intros Hc HP Hb. eapply triple_bind.
  - eapply triple_weaken; [apply (triple_settle durable sid P); [done| |done]|done|intros a w Hw; exact Hw|].
    + intros w Hw. destruct (HP w Hw) as [[_ Hu] Hs]. done.
    + intros _ w [_ Hw]. left. by apply HP.
  - intros [] w Hw. right. split; [done|]. by apply failed_mem.
Qed.

Lemma unique_keys us w w' :
  assertUniqueUpdates us w = (Ok tt, w') → NoDup (update_key <$> us) ∧ w' = w.
Proof.
  unfold assertUniqueUpdates, fail_if. intros [Hu ->]%lift_ok. split; [|done].
  apply throw_if_ok, negb_false_iff, bool_decide_eq_true in Hu.
  apply (NoDup_fmap_1 (λ k : string * string, k.1 +:+ ":" +:+ k.2)). rewrite <-list_fmap_compose. exact Hu.
Qed.

(** the swap, once the callback has agreed *)
Section swap.
Context (next : string) (more : list SecureRecordUpdate) (h : Session) (sid : string).
Context (Hk : decrypted next more h) (Hc : c ≠ "").
Notation updates := (session_update c (Some old) next :: more).
Context (Hnd : NoDup (update_key <$> updates)).

Definition before_swap w : Prop := holds c h (mem w) ∧ mutated (mem w) = true ∧ stored_session c w = Some old ∧ moved w0 w.
Definition after_swap w : Prop := holds c h (mem w) ∧ mutated (mem w) = true ∧ accepted_with next more w.

Lemma stable_before : stable before_swap.
Proof.
  intros w w' (Hh & Hm & Hs & Hw) Hd Hmem. unfold before_swap. rewrite Hmem, (drift_stored _ _ _ Hd). split_and!; [done..|by eapply moved_drift].
Qed.
Lemma stable_after : stable after_swap.
Proof.
  intros w w' (Hh & Hm & Ha) Hd Hmem. unfold after_swap. rewrite Hmem. split_and!; [done..|]. by eapply stable_accepted.
Qed.
Lemma before_pending w : before_swap w → pending w.
Proof. intros ((_ & _ & ? & _) & ? & ? & ?). split; [done|]. split; [done|]. by left. Qed.
Lemma after_pending w : after_swap w → pending w.
Proof. intros ((_ & _ & ? & _) & ? & ?). split; [done|]. split; [done|]. right. by exists next, more, h. Qed.
Lemma after_done w : after_swap w → done_ (with_mem (set_state active) w).
Proof.
  intros ((? & _ & ? & ?) & _ & Ha). exists next, more, h. split; [done|]. split; [exact Ha|]. by unfold holds.
Qed.

Lemma triple_swap_inbound :
  triple before_swap (swap_ others fault updates) (λ b w, if b then after_swap w else before_swap w) (λ _ w, before_swap w ∨ after_swap w).
Proof.
  assert (∀ w, (∃ w1, before_swap w1 ∧ Vault.committed others updates w1 w ∧ mem w = mem w1) → after_swap w) as Ha.
  { intros w (w1 & (Hh & Hm & _ & Hd) & Hc1 & Hmem). unfold after_swap. rewrite Hmem. split_and!; [done..|].
    assert (committed updates w0 w) as Hcm by by exists w1. split; [done|].
    split; [|exact Hnd]. apply (committed_session updates c (Some old) next w0 w); [done|set_solver|done]. }
  eapply triple_weaken; [apply (triple_swap others fault updates before_swap stable_before)|done|..].
  - intros [] w; [apply Ha|done].
  - intros _ w [Hw|[Hw _]]; [by left|right; by apply Ha].
Qed.

Lemma triple_commit_inbound :
  triple before_swap (commit_inbound others fault c old sid updates) (λ _ w, done_ w) (λ _ w, interrupted w).
Proof.
  unfold commit_inbound.
  eapply triple_bind with (R := λ r w, match r with None => done_ w | Some true => after_swap w | Some false => before_swap w end).
  - eapply triple_catch.
    + eapply triple_bind; [apply triple_swap_inbound|]. intros b w Hw. exact Hw.
    + intros e. cbn beta. eapply triple_bind.
      { eapply triple_weaken; [apply (triple_read_all updates (λ w, before_swap w ∨ after_swap w))|done|intros ds w Hw; exact Hw|].
        - apply stable_or; [apply stable_before|apply stable_after].
        - intros _ w [Hw|Hw]; left; [by apply before_pending|by apply after_pending]. }
      intros ds. apply triple_if; intros E.
      * eapply triple_bind with (R := λ _ w, done_ w); [|by intros [] w Hw].
        intros w [Hw Hds]. apply after_done. destruct Hw as [(_ & _ & Ho & _)|Hw]; [|done]. exfalso.
        unfold all_next in E. apply bool_decide_eq_true in E. subst ds. apply Forall2_cons_1 in Hds as [Hd _].
        specialize (Hd eq_refl). cbn in Hd. apply (decrypted_new _ _ _ Hk). cbn in *. congruence.
      * eapply triple_weaken; [apply (triple_settle_throw (default None (ds !! 0%nat)) sid e
          (λ w, pending w ∧ stored_session c w = default None (ds !! 0%nat)) Hc)|..]; [done|apply blind_pending_at| |done|done].
        intros w [Hw Hds]. split; [destruct Hw; [by apply before_pending|by apply after_pending]|].
        apply Forall2_cons_inv_l in Hds as (d & ds' & Hd & _ & ->). symmetry. by apply Hd.
  - intros [[]|].
    + intros w Hw. by apply after_done.
    + eapply triple_bind.
      { eapply triple_weaken; [apply triple_read, stable_before|done|intros d w Hw; exact Hw|].
        intros ? w Hw. left. by apply before_pending. }
      intros durable. eapply triple_weaken; [apply (triple_settle_throw durable sid _ (λ w, pending w ∧ stored_session c w = durable) Hc)|..];
        [done|apply blind_pending_at| |done|done].
      intros w [Hd Hw]. split; [by apply before_pending|by symmetry].
    + by intros w Hw.
Qed.
End swap.

(** the whole operation *)
Definition advanced (h : Session) w : Prop :=
  holds c h (mem w) ∧ mutated (mem w) = true ∧ stored_session c w = Some old ∧ moved w0 w.
Lemma advanced_pending h w : advanced h w → pending w.
Proof. intros ((_ & _ & ? & _) & ? & ? & ?). split; [done|]. split; [done|]. by left. Qed.
Lemma advanced_kept h w w' : advanced h w → moved w w' → kept (mem w) (mem w') → advanced h w'.
Proof.
  intros (Hh & Hm & Hs & Hw) Hd Hk. split; [by eapply kept_holds|]. rewrite (moved_stored _ _ _ Hd).
  split; [|split; [done|by etrans]]. destruct Hk as (_ & _ & _ & _ & -> & _). done.
Qed.

Lemma advanced_local h f w : holds c h (f (mem w)) = holds c h (mem w) → mutated (f (mem w)) = mutated (mem w) →
  advanced h w → advanced h (with_mem f w).
Proof.
  intros Hf Hm (Hh & Hmut & Hs & Hd). unfold advanced, with_mem. cbn [mem]. rewrite Hf, Hm. split_and!; [done..|by apply moved_mem].
Qed.

Lemma ready_run h w : holds c h (mem w) → assertReady w = (Ok {| handle := h; initialized := true |}, w).
Proof. intros (Hs & _). unfold assertReady, get_mem. rewrite gets_bind, Hs. done. Qed.

Lemma advance_run h h' w : holds c h (mem w) → ∃ w', advance_session h' w = (Ok tt, w') ∧ holds c h' (mem w') ∧
  disk w' = disk w ∧ tick w' = tick w ∧ mutated (mem w') = mutated (mem w).
Proof.
  intros (Hs & ? & ? & ?). eexists. split; [reflexivity|]. split; [|done]. unfold holds. cbn. by rewrite Hs.
Qed.

Lemma advance_client h w w' : advance_session h w = (Ok tt, w') → client (mem w') = client (mem w).
Proof. by intros [= <-]. Qed.

Lemma triple_session_decrypt :
  triple (λ w, advanced h0 w ∧ same_client w) (session_decrypt message envelope)
    (λ p w, ∃ olm framed h, parseEnvelopeData (oprop envelope "data") = Ok olm ∧ handle_decrypt olm h0 = (Some framed, h) ∧
      p = drop 2 framed ∧ advanced h w ∧ same_client w)
    (λ _ w, ∃ h, advanced h w).
Proof.
  intros w [Hw Hc]. pose proof Hw as (Hh & Hm & Hs & Hd). unfold session_decrypt.
  rewrite (bind_run _ _ _ _ _ (ready_run _ _ Hh)). cbn [handle].
  unfold fail_if. rewrite lift_bind. destruct (throw_if _ _); [|by exists h0].
  rewrite lift_bind. destruct (parseEnvelopeData _) as [olm|]; [|by exists h0].
  destruct (handle_decrypt olm h0) as [p h] eqn:Ed.
  destruct (advance_run h0 h w Hh) as (w1 & Hr & Hh1 & Hd1 & Ht1 & Hm1). rewrite (bind_run _ _ _ _ _ Hr).
  assert (same_client w1) as Hc1 by (unfold same_client; by rewrite (advance_client _ _ _ Hr)).
  assert (advanced h w1) as Ha.
  { split; [done|]. rewrite Hm1. split; [done|]. unfold stored_session. rewrite Hd1. split; [done|].
    eapply moved_drift; [exact Hd|by apply drift_still]. }
  unfold require_. rewrite lift_bind. destruct p as [framed|]; cbn [require]; [|by exists h]. rewrite lift_bind. destruct (throw_if _ _); [|by exists h]. by exists olm, framed, h.
Qed.

Lemma triple_build {A} (m : M W A) (P : W → Prop) :
  quiet m → (∀ w w', P w → moved w w' → kept (mem w) (mem w') → P w') → (∀ w e, P w → P (with_mem (λ t, set_locals (mutated t) e (acceptanceUpdates t) t) w)) →
  triple P (build m) (λ a w', P w' ∧ ∃ w, P w ∧ m w = (Ok a, w')) (λ _ w, P w).
Proof.
  intros Hm HP He. unfold build. eapply triple_catch; [by apply triple_quiet|].
  intros e w Hw. by apply He.
Qed.

Lemma triple_wrap {A} (P : W → Prop) Q (E : string → W → Prop) e :
  (∀ w e, P w → E e w) → triple P (throw_build_error e : M W A) Q E.
Proof. intros HE w Hw. by apply HE. Qed.

Definition resting w : Prop :=
  holds c h0 (mem w) ∧ mutated (mem w) = false ∧ stored_session c w = Some old ∧ moved w0 w.
Lemma stable_resting : stable resting.
Proof.
  intros w w' (Hh & Hm & Hs & Hw) Hd Hmem. unfold resting. rewrite Hmem, (drift_stored _ _ _ Hd). split_and!; [done..|by eapply moved_drift].
Qed.
Lemma resting_failed w : resting w → failed w.
Proof. intros (Hh & _ & Hs & Hd). split; [|by left]. right. exists c, h0. by rewrite <-Hold. Qed.

Definition at_rest w : Prop := resting w ∧ same_client w.
Lemma stable_at_rest : stable at_rest.
Proof. apply stable_and; [apply stable_resting|by apply (stable_mem (λ t, client t = client (mem w0)))]. Qed.
Lemma triple_expected :
  triple at_rest (e ← read_ others fault SESSION_RECORD_TYPE c; e ← require_ e "Persisted inbound session is missing.";
                  current ← read_ others fault SESSION_RECORD_TYPE c;
                  fail_if (negb (bool_decide (current = Some e))) "Persisted inbound session changed.";; mret e : M W string)
    (λ e w, e = old ∧ at_rest w) (λ _ w, at_rest w).
Proof.
  eapply triple_bind; [apply triple_read, stable_at_rest|]. intros e.
  eapply triple_bind with (R := λ e w, e = old ∧ at_rest w).
  { eapply triple_weaken; [apply (triple_require e _ (λ w, e = Some old ∧ at_rest w) (λ _ w, at_rest w))|..].
    - intros w _ [_ Hw]. exact Hw.
    - intros w [-> Hw]. split; [apply Hw|done].
    - intros a w (Ha & He & Hw). split; [congruence|done].
    - done. }
  clear e. intros e. apply triple_pure. intros ->.
  eapply triple_bind; [apply triple_read, stable_at_rest|]. intros cur.
  eapply triple_bind; [eapply triple_fail_if; intros w _ [_ Hw]; exact Hw|]. intros [] w (_ & _ & Hw). by split.
Qed.

Lemma triple_settle_last sid e :
  c ≠ "" →
  triple interrupted
    (m ← get_mem mutated;
     when m (catch_ (durable ← read_ others fault SESSION_RECORD_TYPE c; restore_or_quarantine durable old sid) (λ _, quarantineSession));;
     throw_build_error e : M W unit)
    (λ _ _, False) (λ _ w, failed w).
Proof.
  intros Hc. eapply triple_bind; [eapply triple_weaken; [apply triple_get_mem|done|intros ? w Hw; exact Hw|done]|]. intros m.
  eapply triple_bind with (R := λ _ w, failed w); [|intros []; by apply triple_wrap].
  apply triple_when; intros Em.
  - eapply triple_catch with (F := λ _ w, unsettled w).
    + eapply triple_bind.
      { eapply triple_weaken; [apply (triple_read others fault SESSION_RECORD_TYPE c unsettled), stable_unsettled|..];
          [|intros d w Hw; exact Hw|done]. intros w [Hm [[_ Hu]|[Hn _]]]; [done|]. subst m. congruence. }
      intros durable.
      eapply triple_weaken; [apply (triple_settle durable sid (λ w, unsettled w ∧ stored_session c w = durable) Hc)|..].
      * done.
      * by apply blind_unsettled_at.
      * intros w [Hd Hw]. split; [done|by symmetry].
      * done.
      * intros _ w (_ & Hw & _). exact Hw.
    + intros _. intros w Hw. apply settled; [by apply blind_unsettled|by left|done].
  - intros w [Hm [[Hm' _]|[_ Hw]]]; [congruence|done].
Qed.

Lemma triple_accept sid :
  c ≠ "" →
  triple (λ w, advanced h0 w ∧ same_client w)
    (plaintext ← catch_ (session_decrypt message envelope) (λ _, throw (boundary "INVALID_CIPHERTEXT"));
     acceptance ← build (buildUpdates plaintext);
     keep_updates acceptance;;
     nextSession ← serializeCurrentSession;
     assertUniqueUpdates (session_update c (Some old) nextSession :: acceptance);;
     commit_inbound others fault c old sid (session_update c (Some old) nextSession :: acceptance))
    (λ _ w, done_ w) (λ _ w, interrupted w).
Proof.
  intros Hc. assert (∀ h w, advanced h w → interrupted w) as Hint by (intros h w Hw; left; by apply (advanced_pending h)).
  eapply triple_bind.
  { eapply triple_catch; [apply triple_session_decrypt|]. intros e w [h Hw]. by eapply Hint. }
  intros plaintext. do 3 (apply triple_exists; intros ?). do 3 (apply triple_pure; intros ?). subst plaintext.
  rename b into olm, b0 into framed, b1 into h.
  eapply triple_bind with (R := λ more w, advanced h w ∧ ∃ wb, (advanced h wb ∧ same_client wb) ∧ buildUpdates (drop 2 framed) wb = (Ok more, w)).
  { intros wb [Hwb Hcb]. unfold build, catch_. pose proof (builds (drop 2 framed) wb) as Hq.
    destruct (buildUpdates (drop 2 framed) wb) as [[more|e] w] eqn:Eb; destruct (Hq _ _ eq_refl) as [Hmv Hk].
    - split; [by eapply advanced_kept|by exists wb].
    - apply (Hint h). apply (advanced_local h (λ t, set_locals (mutated t) (Some e) (acceptanceUpdates t) t)); [done..|].
      by eapply advanced_kept. }
  intros more w (Hw & wb & Hwb & Hrun). set (w1 := with_mem (λ t, set_locals (mutated t) (buildError t) more t) w).
  rewrite (bind_run (keep_updates more) _ w tt w1) by done. assert (advanced h w1) as Hw1 by by apply advanced_local.
  pose proof Hw1 as (Hh1 & Hm1 & Hs1 & Hd1).
  rewrite (bind_run serializeCurrentSession _ w1 (handle_save h) w1) by (unfold serializeCurrentSession; by rewrite (bind_run _ _ _ _ _ (ready_run _ _ Hh1))).
  destruct (assertUniqueUpdates (session_update c (Some old) (handle_save h) :: more) w1) as [[[]|e] w2] eqn:Eu.
  - rewrite (bind_run _ _ _ _ _ Eu). apply unique_keys in Eu as [Hnd ->].
    apply (triple_commit_inbound (handle_save h) more h sid); [|done..].
    exists olm, framed, wb, w. destruct Hwb as [(_ & _ & _ & ?) ?]. by split_and!.
  - unfold mbind, M_bind. rewrite Eu. apply (Hint h). unfold assertUniqueUpdates, fail_if, lift in Eu. by injection Eu as _ <-.
Qed.

Lemma failed_wiped w : failed w → failed (wipe_updates wipe w).
Proof. intros [Hb Hw]. split; [exact Hb|]. destruct Hw as [Hd|Hw]; [left; by apply moved_mem|by right]. Qed.
Lemma done_wiped w : done_ w → done_ (wipe_updates wipe w).
Proof. by intros Hw. Qed.

Lemma triple_inbound :
  ahead c (Some old) h0 w0 →
  triple (λ w, w = w0) (decryptAndCommitInbound others fault wipe envelope buildUpdates) (λ _ w, done_ w) (λ _ w, failed w).
Proof.
  intros [Hh Hs] ? ->. pose proof Hh as (Hses & Hst & Hconv & Hc). unfold decryptAndCommitInbound.
  rewrite (bind_run _ _ w0 tt w0) by (unfold requireState, get_mem; by rewrite gets_bind, Hst).
  set (w1 := with_mem (set_locals false None []) w0). rewrite (bind_run no_locals _ w0 tt w1) by done.
  assert (at_rest w1) as Hw1 by (split; [split_and!; [done..|by apply moved_mem]|done]).
  rewrite (bind_run (get_mem session) _ w1 (session (mem w0)) w1), Hses by done.
  rewrite (bind_run (get_mem conversationId) _ w1 (conversationId (mem w0)) w1), Hconv by done. cbn [handle].
  assert (nonempty c = true) as -> by (destruct c; done). cbn [negb].
  rewrite (bind_run (fail_if false _) _ w1 tt w1) by done. revert Hw1. generalize w1. clear w1.
  match goal with |- ∀ w, _ → match ?m w with _ => _ end => change (triple at_rest m (λ _ w, done_ w) (λ _ w, failed w)) end.
  apply triple_finally. eapply triple_bind with (R := λ e w, e = old ∧ at_rest w).
  { eapply triple_catch; [apply triple_expected|]. intros e. apply triple_wrap. intros w e' [Hw _]. by apply failed_wiped, resting_failed. }
  intros e. apply triple_pure. intros ->.
  eapply triple_catch with (F := λ _ w, interrupted w).
  - eapply triple_weaken with (Q' := λ _ w, done_ w); [|intros w Hw; exact Hw|intros [] w; apply done_wiped|intros e w Hw; exact Hw].
    eapply triple_bind with (R := λ _ w, advanced h0 w ∧ same_client w); [|intros []; by apply triple_accept].
    intros w ((? & _ & ? & ?) & ?). split; [split_and!; [done..|by apply moved_mem]|done].
  - intros e. eapply triple_weaken; [by apply (triple_settle_last (handle_id h0) e)|intros w Hw; exact Hw|intros [] w []|]. intros ? w. apply failed_wiped.
Qed.
End inbound.

(** ** Encrypting a message and committing it with the records of the caller *)
(** the session and the identity discarded *)
Definition dropped w : W := with_mem (set_identity false no_identity) (with_mem (λ t, set_state error (set_session None t)) w).
Lemma triple_drop (Q R : W → Prop) : (∀ w, Q w → R (dropped w)) → triple Q drop_session_and_identity (λ _ w, R w) (λ _ _, False).
Proof. intros HQ w Hw. by apply HQ. Qed.

Section attempt.
Context (w0 : W) (c sid accountNext sessionNext : string) (h1 : Session) (b : Before).
Context (additional : M W (list SecureRecordUpdate)) (builds : quiet additional).
Context (Hnext : sessionNext = handle_save h1) (Hnew : b_session b ≠ Some sessionNext).
Notation restore := (restoreUncommittedOutbound others fault sha256 (b_initial b) (b_held b) (b_snapshot b) sid).

Definition outbound_updates (more : list SecureRecordUpdate) : list SecureRecordUpdate :=
  (if b_initial b then [account_update (b_account b) accountNext] else []) ++ session_update c (b_session b) sessionNext :: more.
Definition sealed w : Prop := ∃ more wb wb', moved w0 wb ∧ additional wb = (Ok more, wb') ∧
  committed (outbound_updates more) w0 w ∧ stored_session c w = Some sessionNext.
Definition sent w : Prop := holds c h1 (mem w) ∧ sealed w.
(** the session is committed, but that could not be found out *)
Definition behind w : Prop := sealed w ∧ unacknowledged_then_faulty fault.
Definition unsent w : Prop := holds c h1 (mem w) ∧ mutated (mem w) = true ∧ stored_session c w = b_session b ∧ moved w0 w.

(** what restoring achieves: from [P], [F] *)
Context (P F : W → Prop) (unsent_P : ∀ w, unsent w → P w) (stable_P : stable P).
Definition open_P w : Prop := P w ∧ mutated (mem w) = true.
Context (restore_P : triple open_P restore (λ _ w, F w) (λ _ w, open_P w)).
Context (drop_P : ∀ w, P w → F (dropped w)) (drop_S : ∀ w, sealed w → F (dropped w)).
Context (P_local : ∀ m e us cl w, P w → P (with_mem (λ t, set_locals m e us (set_client cl t)) w)).
Context (F_local : ∀ m e us cl w, F w → F (with_mem (λ t, set_locals m e us (set_client cl t)) w)).

Definition unfinished w : Prop := (mutated (mem w) = true ∧ (P w ∨ behind w)) ∨ (mutated (mem w) = false ∧ F w).

Lemma stable_sealed : stable sealed.
Proof.
  intros w w' (more & wb & wb' & ? & ? & Hc & Hs) Hd Hm. exists more, wb, wb'. split_and!; [done..| |].
  - by eapply committed_later.
  - by rewrite (drift_stored _ _ _ Hd).
Qed.
Lemma stable_unsent : stable unsent.
Proof. intros w w' (? & ? & ? & ?) Hd Hm. unfold unsent. rewrite Hm, (drift_stored _ _ _ Hd). split_and!; [done..|by eapply moved_drift]. Qed.
Lemma unsent_mem f w : holds c h1 (f (mem w)) = holds c h1 (mem w) → mutated (f (mem w)) = mutated (mem w) → unsent w → unsent (with_mem f w).
Proof.
  intros Hf Hm (Hh & Hmut & Hs & Hd). unfold unsent, with_mem. cbn [mem]. rewrite Hf, Hm. split_and!; [done..|by apply moved_mem].
Qed.
Definition sent_open w : Prop := sent w ∧ mutated (mem w) = true.
Lemma stable_sent_open : stable sent_open.
Proof.
  intros w w' [[? ?] ?] Hd Hm. unfold sent_open, sent. rewrite Hm. split; [|done]. split; [done|]. by eapply stable_sealed.
Qed.

(** what the read-back says about the session record *)
Definition read_back (us : list SecureRecordUpdate) (ds : list (option string)) w : Prop :=
  Forall2 (λ u d, recordType u = SESSION_RECORD_TYPE → d = stored_session (recordId u) w) us ds.
Lemma read_back_session more ds w : read_back (outbound_updates more) ds w →
  (session_update c (b_session b) sessionNext, stored_session c w) ∈ zip (outbound_updates more) ds.
Proof.
  unfold outbound_updates, read_back. destruct (b_initial b); cbn [app].
  - intros (d & ds' & _ & (d' & ds'' & Hd & _ & ->)%Forall2_cons_inv_l & ->)%Forall2_cons_inv_l.
    rewrite (Hd eq_refl). cbn. right. left.
  - intros (d & ds' & Hd & _ & ->)%Forall2_cons_inv_l. rewrite (Hd eq_refl). cbn. left.
Qed.
Lemma all_next_session more ds w :
  read_back (outbound_updates more) ds w → all_next (outbound_updates more) ds = true → stored_session c w = Some sessionNext.
Proof.
  intros Hr%read_back_session Ha. unfold all_next in Ha. apply bool_decide_eq_true in Ha. subst ds.
  by apply elem_of_zip_image in Hr.
Qed.
Lemma matches_session more ds w :
  read_back (outbound_updates more) ds w →
  outboundCryptoStateMatches (outbound_updates more) ds (b_account b) (b_session b) = true → stored_session c w = b_session b.
Proof.
  intros Hr%read_back_session Hm. unfold outboundCryptoStateMatches in Hm. rewrite forallb_forall in Hm.
  apply list_elem_of_In, Hm in Hr. cbn in Hr. by apply bool_decide_eq_true in Hr.
Qed.

Lemma triple_read_back more (Q : W → Prop) :
  stable Q → triple Q (read_all others fault (outbound_updates more)) (λ ds w, Q w ∧ read_back (outbound_updates more) ds w) (λ _ w, Q w).
Proof. apply triple_read_all. Qed.
Lemma triple_read_back_unacknowledged more (Q : W → Prop) :
  stable Q → (∀ w, Q w → unacknowledged fault w) →
  triple Q (read_all others fault (outbound_updates more)) (λ ds w, Q w ∧ read_back (outbound_updates more) ds w)
    (λ _ w, Q w ∧ unacknowledged_then_faulty fault).
Proof.
  intros HQ Hu w Hw. pose proof (triple_read_back more Q HQ w Hw) as Hr. pose proof (read_all_fault (outbound_updates more) w) as Hf.
  destruct (read_all _ _ _ w) as [[ds|e] w'] eqn:E; [done|]. split; [done|]. destruct (Hu w Hw) as (n & Hn & Hn').
  destruct (Hf e w' eq_refl) as (m & Hm & Hm'). exists n, m. split; [lia|done].
Qed.

Lemma triple_swap_outbound more :
  NoDup (update_key <$> outbound_updates more) →
  triple (λ w, unsent w ∧ ∃ wb wb', moved w0 wb ∧ additional wb = (Ok more, wb')) (swap_ others fault (outbound_updates more))
    (λ s w, if s then sent_open w else unsent w) (λ _ w, unsent w ∨ sent_open w ∧ unacknowledged fault w).
Proof.
  intros Hnd w [Hw (wb & wb' & Hwb & Hadd)].
  assert (∀ w, (∃ w1, unsent w1 ∧ Vault.committed others (outbound_updates more) w1 w ∧ mem w = mem w1) → sent_open w) as Ha.
  { clear w Hw. intros w (w1 & (Hh & Hm & _ & Hd) & Hc1 & Hmem). unfold sent_open, sent. rewrite Hmem. split; [|done]. split; [done|].
    assert (committed (outbound_updates more) w0 w) as Hcm by by exists w1.
    exists more, wb, wb'. split_and!; [done..|].
    apply (committed_session (outbound_updates more) c (b_session b) sessionNext w0 w); [done| |done].
    unfold outbound_updates. destruct (b_initial b); set_solver. }
  pose proof (triple_swap others fault (outbound_updates more) unsent stable_unsent) as Ht.
  specialize (Ht w Hw). destruct (swap_ _ _ _ w) as [[[]|e] w']; [by apply Ha|done|].
  destruct Ht as [?|[? ?]]; [by left|right]. split; [by apply Ha|done].
Qed.

Lemma finish_sent {A} (a : A) w : sent w → ∃ w', (enter active;; set_mutated false;; mret a) w = (Ok a, w') ∧ sent w'.
Proof.
  intros [Hh Hs]. eexists. split; [reflexivity|]. split; [|exact Hs]. by destruct Hh as (? & ? & ? & ?).
Qed.
Lemma triple_finish_sent {A} (a : A) (Q : A → W → Prop) E :
  (∀ w, sent w → Q a w) → triple sent (enter active;; set_mutated false;; mret a) Q E.
Proof. intros HQ w Hw. destruct (finish_sent a w Hw) as (w' & -> & Hw'). by apply HQ. Qed.

(** memory follows the storage, then the operation throws *)
Lemma triple_close {A} (m : M W unit) Q e :
  triple Q m (λ _ w, F w) (λ _ w, open_P w) → triple Q (m;; set_mutated false;; throw e : M W A) (λ _ _, False) (λ _ w, unfinished w).
Proof.
  intros Hm. eapply triple_bind; [eapply triple_weaken; [exact Hm|intros w Hw; exact Hw|intros a w Hw; exact Hw|]|].
  - intros _ w [? ?]. left. split; [done|by left].
  - intros [] w Hw. right. split; [done|]. by apply (F_local false (buildError (mem w)) (acceptanceUpdates (mem w)) (client (mem w))).
Qed.
Lemma triple_recover (matches : bool) Q :
  (∀ w, Q w → matches = true → open_P w) → (∀ w, Q w → P w ∨ sealed w) →
  triple Q (if matches then restore else drop_session_and_identity) (λ _ w, F w) (λ _ w, open_P w).
Proof.
  intros HP HS. apply triple_if; intros E.
  - eapply triple_pre; [exact restore_P|]. intros w Hw. by apply HP.
  - eapply triple_weaken; [apply (triple_drop (λ w, P w ∨ sealed w) F)|exact HS|intros a w Hw; exact Hw|by intros _ w []].
    intros w [Hw|Hw]; [by apply drop_P|by apply drop_S].
Qed.
Lemma unfinished_cleared w : unfinished w → unfinished (clearRecordUpdates wipe w).
Proof.
  intros [[Hm [Hw|Hw]]|[Hm Hw]]; [left|left|right]; (split; [done|]).
  - left. by apply P_local.
  - right. exact Hw.
  - by apply F_local.
Qed.
Lemma P_unfinished w : mutated (mem w) = true → P w → unfinished w.
Proof. intros Hm Hw. left. split; [done|]. by left. Qed.

(** the swap threw: the storage decides *)
Lemma triple_swap_threw more e :
  triple (λ w, unsent w ∨ sent_open w ∧ unacknowledged fault w)
    (durable ← read_all others fault (outbound_updates more);
     if all_next (outbound_updates more) durable then enter active;; set_mutated false;; mret None
     else finally_
       ((if outboundCryptoStateMatches (outbound_updates more) durable (b_account b) (b_session b) then restore
         else drop_session_and_identity);; set_mutated false;; throw e) (clearRecordUpdates wipe) : M W (option bool))
    (λ r w, r = None ∧ sent w) (λ _ w, unfinished w).
Proof.
  eapply triple_bind with (R := λ ds w, (unsent w ∨ sent_open w) ∧ read_back (outbound_updates more) ds w).
  { intros w [Hw|Hw].
    - pose proof (triple_read_back more unsent stable_unsent w Hw) as Hr. destruct (read_all others fault (outbound_updates more) w) as [[ds|e'] w'].
      + destruct Hr. split; [by left|done].
      + apply P_unfinished; [apply Hr|by apply unsent_P].
    - assert (stable (λ w, sent_open w ∧ unacknowledged fault w)) as Hst.
      { apply stable_and; [apply stable_sent_open|]. intros u u' Hu Hd _. by eapply drift_unacknowledged. }
      pose proof (triple_read_back_unacknowledged more _ Hst (λ w Hw, proj2 Hw) w Hw) as Hr.
      destruct (read_all others fault (outbound_updates more) w) as [[ds|e'] w'].
      + destruct Hr as [[? _] ?]. split; [by right|done].
      + destruct Hr as [[[[_ Hs] Hm] _] Hf]. left. split; [done|]. right. by split. }
  intros ds. apply triple_if; intros En.
  - eapply triple_pre; [apply triple_finish_sent; intros w Hw; exact (conj eq_refl Hw)|]. intros w [[Hw|Hw] Hr]; [|apply Hw]. exfalso.
    pose proof (all_next_session _ _ _ Hr En) as Hs. destruct Hw as (_ & _ & Hb & _). congruence.
  - apply triple_finally. eapply triple_weaken; [apply (triple_close (A := option bool))|intros w Hw; exact Hw|by intros ? ? []|].
    + apply triple_recover.
      * intros w [[Hw|[[_ Hw] _]] Hr] Em; [split; [by apply unsent_P|apply Hw]|]. exfalso.
        pose proof (matches_session _ _ _ Hr Em) as Hb. destruct Hw as (? & ? & ? & _ & _ & _ & Hs). congruence.
      * intros w [[Hw|Hw] _]; [left; by apply unsent_P|right; apply Hw].
    + intros ? w. apply unfinished_cleared.
Qed.

Lemma triple_swap_refused more :
  triple unsent
    (durable ← read_all others fault (outbound_updates more);
     if all_next (outbound_updates more) durable then enter active;; set_mutated false;; mret true
     else modify (clearRecordUpdates wipe);;
     if outboundCryptoStateMatches (outbound_updates more) durable (b_account b) (b_session b) then mret false
     else drop_session_and_identity;; set_mutated false;; throw "The outbound session transaction conflicted.")
    (λ d w, if d then sent w else unsent w) (λ _ w, unfinished w).
Proof.
  eapply triple_bind.
  { eapply triple_weaken; [apply (triple_read_back more unsent stable_unsent)|intros w Hw; exact Hw|intros a w Hw; exact Hw|].
    intros ? w Hw. apply P_unfinished; [apply Hw|by apply unsent_P]. }
  intros ds. apply triple_if; intros En.
  - intros w [(_ & _ & Hb & _) Hr]. pose proof (all_next_session _ _ _ Hr En). congruence.
  - eapply triple_bind with (R := λ _ w, unsent w).
    { intros w [Hw _]. by apply unsent_mem. }
    intros []. apply triple_if; intros Em; [by intros w Hw|].
    eapply triple_weaken; [apply (triple_close (A := bool) drop_session_and_identity P)|..].
    + eapply triple_weaken; [exact (triple_drop P F drop_P)|intros w Hw; exact Hw|intros a w Hw; exact Hw|by intros ? w []].
    + exact unsent_P.
    + by intros ? ? [].
    + intros ? w Hw. exact Hw.
Qed.

Lemma triple_attempt :
  triple unsent (outbound_attempt others fault sha256 wipe c b sid accountNext sessionNext additional)
    (λ d w, if d then sent w else unsent w) (λ _ w, unfinished w).
Proof.
  unfold outbound_attempt. eapply triple_bind.
  { eapply triple_weaken; [apply (triple_quiet additional unsent builds)|intros w Hw; exact Hw|intros a w Hw; exact Hw|].
    - intros w w' (Hh & Hm & Hs & Hw) Hd Hk. split; [by eapply kept_holds|]. rewrite (moved_stored _ _ _ Hd).
      split; [|split; [done|by etrans]]. destruct Hk as (_ & _ & _ & _ & -> & _). done.
    - intros ? w Hw. apply P_unfinished; [apply Hw|by apply unsent_P]. }
  intros more. fold (outbound_updates more).
  eapply triple_bind with (R := λ _ w, unsent w ∧ ∃ wb wb', moved w0 wb ∧ additional wb = (Ok more, wb')).
  { intros w [Hw (wb & Hwb & Hadd)]. split; [by apply unsent_mem|]. exists wb, w. split; [apply Hwb|done]. }
  intros []. eapply triple_bind with (R := λ _ w, NoDup (update_key <$> outbound_updates more) ∧ unsent w ∧ ∃ wb wb', moved w0 wb ∧ additional wb = (Ok more, wb')).
  { intros w Hw. destruct (assertUniqueUpdates (outbound_updates more) w) as [[[]|e] w'] eqn:E.
    - apply unique_keys in E as [? ->]. done.
    - unfold assertUniqueUpdates, fail_if, lift in E. injection E as _ <-. apply P_unfinished; [apply Hw|apply unsent_P, Hw]. }
  intros []. apply triple_pure. intros Hnd.
  eapply triple_bind with (R := λ r w, match r with None => sent w | Some true => sent_open w | Some false => unsent w end).
  - eapply triple_catch.
    + eapply triple_bind; [by apply triple_swap_outbound|]. intros r w Hw. exact Hw.
    + intros e. eapply triple_weaken; [apply (triple_swap_threw more e)|intros w Hw; exact Hw| |intros ? w Hw; exact Hw]. by intros r w [-> Hw].
  - intros [[]|].
    + eapply triple_pre; [apply triple_finish_sent; intros w Hw; exact Hw|]. by intros w [Hw _].
    + apply triple_swap_refused.
    + by intros w Hw.
Qed.

Lemma triple_attempts n :
  triple unsent (outbound_attempts others fault sha256 wipe n c b sid accountNext sessionNext additional) (λ _ w, sent w) (λ _ w, unfinished w).
Proof.
  induction n as [|n IH]; cbn [outbound_attempts].
  - eapply triple_bind; [apply triple_attempt|]. intros []; [by intros w Hw|].
    eapply triple_weaken; [apply (triple_close (A := unit) restore unsent)|intros w Hw; exact Hw|by intros ? ? []|intros ? w Hw; exact Hw].
    eapply triple_pre; [exact restore_P|]. intros w Hw. split; [by apply unsent_P|apply Hw].
  - eapply triple_bind; [apply triple_attempt|]. intros []; [by intros w Hw|exact IH].
Qed.

(** what an error leaves, once memory was put back as far as it could be *)
Lemma triple_undo_open e : triple open_P (undo_outbound others fault sha256 b sid e) (λ _ _, False) (λ _ w, F w).
Proof.
  unfold undo_outbound. intros w [Hw Hm]. unfold get_mem. rewrite gets_bind, Hm. cbn [when]. revert w Hw Hm.
  enough (triple open_P (catch_ restore (λ _, drop_session_and_identity)) (λ _ w, F w) (λ _ _, False)) as Hr.
  { intros w Hw Hm. specialize (Hr w (conj Hw Hm)). unfold mbind, M_bind. by destruct (catch_ _ _ w) as [[a|e'] w']. }
  eapply triple_catch; [exact restore_P|]. intros ?. eapply triple_pre; [exact (triple_drop P F drop_P)|]. by intros w [Hw _].
Qed.
Context (restore_behind : triple behind restore (λ _ w, behind w) (λ _ w, behind w)) (drop_behind : ∀ w, behind w → behind (dropped w)).
Lemma triple_undo e :
  triple unfinished (undo_outbound others fault sha256 b sid e) (λ _ _, False) (λ _ w, F w ∨ behind w).
Proof.
  intros w [[Hm [Hw|Hw]]|[Hm Hw]].
  - pose proof (triple_undo_open e w (conj Hw Hm)) as Hr. destruct (undo_outbound others fault sha256 b sid e w) as [[a|e'] w']; [done|by left].
  - unfold undo_outbound, get_mem. rewrite gets_bind, Hm. cbn [when]. specialize (restore_behind w Hw).
    unfold mbind, M_bind, catch_. destruct (restore w) as [[a|e'] w'].
    + by right.
    + right. by apply drop_behind.
  - unfold undo_outbound, get_mem. rewrite gets_bind, Hm. by left.
Qed.
End attempt.

(** *** With an established session *)
Section established.
Context (w0 : W) (c : string) (h0 : Session) (plaintext : bytes) (buildUpdates : jsval → string → M W (list SecureRecordUpdate)).
Context (builds : ∀ e s, quiet (buildUpdates e s)).

(** the released ciphertext, and the session it leaves *)
Definition encrypted (envelope : jsval) (h1 : Session) : Prop :=
  ∃ framed olm, framePlaintext message plaintext = Ok framed ∧ handle_encrypt framed h0 = (Some olm, h1) ∧ envelope = envelope_of olm.
(** the swap that made it durable *)
Definition committed_outbound (envelope : jsval) (h1 : Session) w : Prop :=
  ∃ more wb wb', moved w0 wb ∧ buildUpdates envelope (handle_id h0) wb = (Ok more, wb') ∧
    committed (session_update c (Some (handle_save h0)) (handle_save h1) :: more) w0 w ∧ stored_session c w = Some (handle_save h1).
Notation prior held := {| b_initial := false; b_held := held; b_account := None; b_session := Some (handle_save h0); b_snapshot := Some (handle_save h0) |}.
Definition held_back w : Prop := conversationId (mem w) = Some c ∧ c ≠ "" ∧ stored_session c w = Some (handle_save h0) ∧ moved w0 w.
Definition settled_outbound w : Prop :=
  backed w ∧ (moved w0 w ∨ unheld (mem w) ∧ ∃ e h1, encrypted e h1 ∧ committed_outbound e h1 w).

Lemma held_back_restored held sid :
  triple (open_P held_back) (restoreUncommittedOutbound others fault sha256 (b_initial (prior held)) (b_held (prior held)) (b_snapshot (prior held)) sid)
    (λ _ w, settled_outbound w) (λ _ w, open_P held_back w).
Proof.
  cbn [b_initial b_snapshot]. unfold restoreUncommittedOutbound.
  intros w Hw. cbn. pose proof Hw as [(_ & Hc & _) _]. revert w Hw.
  change (triple (open_P held_back) (restoreSessionSnapshot (handle_save h0) sid) (λ _ w, settled_outbound w) (λ _ w, open_P held_back w)).
  eapply triple_weaken; [apply (triple_restore (open_P held_back) c)|intros w Hw; exact Hw|..].
  - intros w s st [(? & ? & ? & ?) ?]. split; [|done]. split_and!; [done..|by apply moved_mem].
  - done.
  - by intros w [(? & _ & ? & _) _].
  - intros _ w [Hb [(_ & _ & _ & Hd) _]]. split; [done|by left].
  - by intros _ w [_ Hw].
Qed.

Section release.
Context (envelope : jsval) (h1 : Session) (sid : string) (Henc : encrypted envelope h1) (Hsid : sid = handle_id h0).
Notation sealed_ := (sealed w0 c "" (handle_save h1) (prior false) (buildUpdates envelope sid)).

Lemma encrypted_new : Some (handle_save h0) ≠ Some (handle_save h1).
Proof. destruct Henc as (framed & olm & _ & He & _). intros [= E]. by eapply encrypt_advances. Qed.
Lemma sealed_committed w : sealed_ w → committed_outbound envelope h1 w.
Proof. intros (more & wb & wb' & Hd & Hb & Hc & Hs). subst sid. by exists more, wb, wb'. Qed.
Lemma sealed_dropped w : sealed_ w → settled_outbound (dropped w).
Proof.
  intros Hs%sealed_committed. split; [by left|]. right. split; [done|]. by exists envelope, h1.
Qed.
Lemma restored_behind held :
  triple (behind w0 c "" (handle_save h1) (prior false) (buildUpdates envelope sid))
    (restoreUncommittedOutbound others fault sha256 (b_initial (prior held)) (b_held (prior held)) (b_snapshot (prior held)) sid)
    (λ _ w, behind w0 c "" (handle_save h1) (prior false) (buildUpdates envelope sid) w)
    (λ _ w, behind w0 c "" (handle_save h1) (prior false) (buildUpdates envelope sid) w).
Proof.
  intros w Hw. change (restoreUncommittedOutbound _ _ _ _ _ _ _ w) with (restoreSessionSnapshot (handle_save h0) sid w).
  unfold restoreSessionSnapshot, get_mem. rewrite gets_bind. destruct (bindings (mem w)); [|exact Hw].
  rewrite mret_bind. destruct (handle_load _); [|exact Hw]. by destruct (session_initialize _ _).
Qed.
End release.

Definition outbound_failed w : Prop :=
  settled_outbound w ∨ (unacknowledged_then_faulty fault ∧ ∃ e h1, encrypted e h1 ∧ committed_outbound e h1 w).
Definition outbound_done (e : jsval) w : Prop := ∃ h1, encrypted e h1 ∧ holds c h1 (mem w) ∧ committed_outbound e h1 w.

Notation resting := (resting w0 c (handle_save h0) h0).
Notation advanced := (advanced w0 c (handle_save h0)).
Notation unfinished e := (unfinished w0 c "" (handle_save e.2) (prior false) (buildUpdates e.1 (handle_id h0)) held_back settled_outbound).
(** an operation that stopped after the session had advanced *)
Definition stopped w : Prop := open_P held_back w ∨ ∃ e, encrypted e.1 e.2 ∧ unfinished e w.

Lemma resting_settled w : resting w → settled_outbound w.
Proof. intros (Hh & _ & Hs & Hd). split; [|by left]. right. by exists c, h0. Qed.
Lemma advanced_open h w : advanced h w → open_P held_back w.
Proof. intros ((_ & _ & ? & ?) & ? & ? & ?). by split_and!. Qed.

Lemma triple_prepare :
  triple resting (prepare_outbound others fault (Some c) None) (λ r w, (∃ held, r = (c, prior held)) ∧ resting w) (λ _ w, resting w).
Proof.
  intros w Hw. pose proof Hw as (Hh & _ & _ & _). pose proof Hh as (Hs & Hst & _ & Hc). unfold prepare_outbound.
  rewrite (bind_run (get_mem identityHeld) _ w (identityHeld (mem w)) w) by done.
  rewrite (bind_run _ _ w tt w) by (unfold requireState, get_mem; by rewrite gets_bind, Hst).
  rewrite (bind_run (get_mem session) _ w (session (mem w)) w), Hs by done. cbn [initialized].
  assert (nonempty c = true) as -> by (destruct c; done). cbn [negb orb].
  rewrite (bind_run (fail_if false _) _ w tt w) by done.
  generalize (identityHeld (mem w)). intros held. revert w Hw Hh Hs Hst.
  match goal with |- ∀ w, _ → _ → _ → _ → match ?m w with _ => _ end =>
    enough (triple resting m (λ r w, (∃ held, r = (c, prior held)) ∧ resting w) (λ _ w, resting w)) as Ht by (intros w Hw _ _ _; exact (Ht w Hw)) end.
  eapply triple_bind; [apply triple_read; apply stable_resting|]. intros e w [-> Hw]. pose proof Hw as (Hh & _ & Hst & _).
  unfold serializeCurrentSession.
  rewrite (bind_run _ _ w (handle_save h0) w) by (by rewrite (bind_run _ _ _ _ _ (ready_run _ _ _ Hh))).
  unfold stored_session in Hst. rewrite Hst. rewrite bool_decide_true by done. cbn. split; [by exists held|done].
Qed.

Lemma triple_session_encrypt :
  triple (advanced h0) (catch_ (session_encrypt message plaintext) (λ _, throw (boundary "INVALID_CIPHERTEXT")))
    (λ e w, ∃ h1, encrypted e h1 ∧ advanced h1 w) (λ _ w, stopped w).
Proof.
  eapply triple_catch with (F := λ _ w, ∃ h, advanced h w); [|intros e w [h Hw]; left; by eapply advanced_open].
  intros w Hw. pose proof Hw as (Hh & Hm & Hs & Hd). unfold session_encrypt.
  rewrite (bind_run _ _ _ _ _ (ready_run _ _ _ Hh)). cbn [handle].
  rewrite lift_bind. destruct (framePlaintext _ _) as [framed|] eqn:Ef; [|by exists h0].
  destruct (handle_encrypt framed h0) as [olm h] eqn:Ee.
  destruct (advance_run _ h0 h w Hh) as (w1 & Hr & Hh1 & Hd1 & Ht1 & Hm1). rewrite (bind_run _ _ _ _ _ Hr).
  assert (advanced h w1) as Ha.
  { split; [done|]. rewrite Hm1. split; [done|]. unfold stored_session. rewrite Hd1. split; [done|].
    eapply moved_drift; [exact Hd|by apply drift_still]. }
  unfold require_. rewrite lift_bind. destruct olm as [olm|]; cbn [require]; [|by exists h].
  exists h. split; [by exists framed, olm|done].
Qed.

Lemma dropped_settled w : held_back w → settled_outbound (dropped w).
Proof. intros (_ & _ & _ & Hd). split; [by left|]. left. by do 2 apply moved_mem. Qed.
Lemma settled_wiped w : settled_outbound w → settled_outbound (wipe_updates wipe w).
Proof. intros [Hb Hw]. split; [exact Hb|]. destruct Hw as [Hd|Hw]; [left; by apply moved_mem|by right]. Qed.
Lemma failed_outbound_wiped w : outbound_failed w → outbound_failed (wipe_updates wipe w).
Proof. intros [Hw|Hw]; [left; by apply settled_wiped|by right]. Qed.
Lemma stable_held_back : stable held_back.
Proof. intros w w' (? & ? & ? & ?) Hd Hm. unfold held_back. rewrite Hm, (drift_stored _ _ _ Hd). split_and!; [done..|by eapply moved_drift]. Qed.

Lemma triple_release held e h1 : encrypted e h1 →
  triple (advanced h1)
    (sessionNext ← serializeCurrentSession;
     accountNext ← (if b_initial (prior held) then serializeAccountForCommit else mret "");
     outbound_attempts others fault sha256 wipe 3 c (prior held) (handle_id h0) accountNext sessionNext (buildUpdates e (handle_id h0));;
     mret e)
    outbound_done (λ _ w, stopped w).
Proof.
  intros He w Hw. pose proof Hw as (Hh & _).
  rewrite (bind_run serializeCurrentSession _ w (handle_save h1) w) by (unfold serializeCurrentSession; by rewrite (bind_run _ _ _ _ _ (ready_run _ _ _ Hh))).
  cbn [b_initial]. rewrite mret_bind. revert w Hw Hh.
  match goal with |- ∀ w, _ → _ → match ?m w with _ => _ end =>
    enough (triple (advanced h1) m outbound_done (λ _ w, stopped w)) as Ht by (intros w Hw _; exact (Ht w Hw)) end.
  eapply triple_bind with (R := λ _ w, outbound_done e w); [|by intros [] w Hw].
  eapply triple_weaken; [apply (triple_attempts w0 c (handle_id h0) "" (handle_save h1) h1 (prior held) _ (builds e (handle_id h0)) eq_refl)
    with (P := held_back) (F := settled_outbound)|..].
  - exact (encrypted_new e h1 He).
  - intros w ((_ & _ & ? & ?) & _ & ? & ?). by split_and!.
  - exact stable_held_back.
  - apply held_back_restored.
  - intros w (_ & _ & _ & Hd). split; [by left|]. left. by do 2 apply moved_mem.
  - intros w Hw. by apply (sealed_dropped e h1 (handle_id h0) He eq_refl).
  - intros m e' us cl w (? & ? & ? & ?). split_and!; [done..|by apply moved_mem].
  - intros m e' us cl w [Hb Hw]. split; [exact Hb|]. destruct Hw as [Hd|Hw]; [left; by apply moved_mem|by right].
  - intros w Hw. exact Hw.
  - intros [] w [Hh Hs]. exists h1. split; [done|]. split; [done|]. by apply (sealed_committed e h1 (handle_id h0)).
  - intros ? w Hw. right. by exists (e, h1).
Qed.

Lemma triple_stopped held e :
  triple stopped (undo_outbound others fault sha256 (prior held) (handle_id h0) e) outbound_done (λ _ w, outbound_failed w).
Proof.
  intros w [Hw|([env h1] & He & Hw)]; cbn in *.
  - pose proof (triple_undo_open (handle_id h0) (prior held) held_back settled_outbound (held_back_restored held _)) as Ht.
    specialize (Ht dropped_settled e w Hw).
    destruct (undo_outbound others fault sha256 (prior held) (handle_id h0) e w) as [[a|e'] w']; [done|by left].
  - pose proof (triple_undo w0 c (handle_id h0) "" (handle_save h1) (prior held) (buildUpdates env (handle_id h0))
      held_back settled_outbound (held_back_restored held _)) as Ht.
    specialize (Ht dropped_settled
      (restored_behind env h1 (handle_id h0) held) (λ w Hb, Hb) e w Hw).
    destruct (undo_outbound others fault sha256 (prior held) (handle_id h0) e w) as [[a|e'] w']; [done|].
    destruct Ht as [?|[Hs Hf]]; [by left|right]. split; [done|]. exists env, h1. split; [done|].
    by apply (sealed_committed env h1 (handle_id h0)).
Qed.

Lemma triple_outbound :
  ahead c (Some (handle_save h0)) h0 w0 →
  triple (λ w, w = w0) (encryptAndCommitOutbound others fault sha256 wipe plaintext buildUpdates None) outbound_done (λ _ w, outbound_failed w).
Proof.
  intros [Hh Hs] ? ->. pose proof Hh as (Hses & Hst & Hconv & Hc). unfold encryptAndCommitOutbound.
  set (w1 := with_mem (set_locals false None []) w0). rewrite (bind_run no_locals _ w0 tt w1) by done.
  assert (resting w1) as Hw1 by (split_and!; [done..|by apply moved_mem]).
  rewrite (bind_run (get_mem conversationId) _ w1 (conversationId (mem w0)) w1), Hconv by done.
  revert Hw1. generalize w1. clear w1.
  match goal with |- ∀ w, _ → match ?m w with _ => _ end => change (triple resting m outbound_done (λ _ w, outbound_failed w)) end.
  apply triple_finally. eapply triple_bind with (R := λ r w, (∃ held, r = (c, prior held)) ∧ resting w).
  { eapply triple_catch; [apply triple_prepare|]. intros e w Hw. left. by apply settled_wiped, resting_settled. }
  intros r. apply triple_pure. intros [held ->]. eapply triple_bind with (R := λ sid w, sid = handle_id h0 ∧ resting w).
  { intros w Hw. pose proof Hw as ((Hs' & _) & _). unfold catch_. rewrite mret_bind, (bind_run (get_mem session) _ w (session (mem w)) w), Hs' by done.
    done. }
  intros sid. apply triple_pure. intros ->. eapply triple_catch with (F := λ _ w, stopped w).
  - eapply triple_weaken with (Q' := outbound_done); [|intros w Hw; exact Hw|intros e w Hw; exact Hw|intros ? w Hw; exact Hw].
    eapply triple_bind with (R := λ _ w, advanced h0 w); [intros w (? & _ & ? & ?); split_and!; [done..|by apply moved_mem]|]. intros [].
    eapply triple_bind; [apply triple_session_encrypt|]. intros e. apply triple_exists. intros h1. apply triple_pure. intros He.
    by apply triple_release.
  - intros e. eapply triple_weaken; [apply (triple_stopped held e)|intros w Hw; exact Hw|intros a w Hw; exact Hw|].
    intros ? w Hw. by apply failed_outbound_wiped.
Qed.
End established.

(** C16: A message is decrypted and accepted as one: if [decryptAndCommitInbound] returns, then the stored session and all the
    records its callback asked for were replaced in a single swap, the message was decrypted by exactly the session that was
    stored before, and the advanced session is both in memory and stored. If it throws, either nothing was written, or that
    swap did happen and the session is gone from memory; in either case the session in memory is the stored one or there is
    none. Other tabs, and the callback itself ([moved]), may write anything but a session, and any access to the storage may
    fail, a swap even after it was carried out. *)
Theorem inbound_message_committed_once w0 c h0 envelope (buildUpdates : bytes → M W (list SecureRecordUpdate)) x w :
  (∀ p, quiet (buildUpdates p)) → ahead c (Some (handle_save h0)) h0 w0 →
  decryptAndCommitInbound others fault wipe envelope buildUpdates w0 = (x, w) →
  match x with
  | Ok _ => done_ w0 c (handle_save h0) h0 envelope buildUpdates w
  | Err _ => failed w0 c (handle_save h0) h0 envelope buildUpdates w
  end.
Proof.
  intros Hb Ha Hr. exact (triple_run _ _ _ _ _ _ _ (triple_inbound w0 c (handle_save h0) h0 envelope buildUpdates Hb eq_refl Ha) eq_refl Hr).
Qed.

End safety.

(** The widest such relation: the records of the sessions are as before. *)
Section sessions.
Context {Session Account : Type} `{Olm Session Account} `{SecureStorageLaws St} {C : Type}.
Context (others : nat → St → St) (sessions_locked : ∀ n d c, read (others n d) SESSION_RECORD_TYPE c = read d SESSION_RECORD_TYPE c).
Notation W := (World St (Tab (Session := Session) (Account := Account) (C := C))).
Definition sessions_kept (w w' : W) : Prop := ∀ c, stored_session c w' = stored_session c w.
#[export] Instance sessions_kept_preorder : PreOrder sessions_kept.
Proof. split; [by intros w c|]. intros w1 w2 w3 E1 E2 c. by rewrite E2, E1. Qed.
Lemma drift_sessions w w' : drift others w w' → sessions_kept w w'.
Proof. intros Hd c. by eapply drift_stored. Qed.
End sessions.

Import Tally.
Definition inbound_run := decryptAndCommitInbound Tally.alone Tally.sound Tally.untouched (envelope_of "x") Tally.accept Tally.world.
Definition outbound_run :=
  encryptAndCommitOutbound Tally.alone Tally.sound (λ s, s) Tally.untouched (of_codes [104; 105]) Tally.queue None Tally.world.
Definition outbound_envelope : jsval := envelope_of (Tally.ciphertext 0 (of_codes [1; 1; 104; 105])).
Lemma inbound_run_result : inbound_run.1 = Ok tt ∧ read (disk inbound_run.2) "outbox" "m" = Some (string_of_list_ascii (of_codes [0])).
Proof. by vm_compute. Qed.
Lemma outbound_run_result : outbound_run.1 = Ok outbound_envelope ∧ read (disk outbound_run.2) SESSION_RECORD_TYPE "room" = Some (Tally.tally 1).
Proof. by vm_compute. Qed.

Lemma inbound_message_committed_once_witness :
  read (disk inbound_run.2) "outbox" "m" = Some (string_of_list_ascii (of_codes [0])) ∧
  done_ Tally.alone (drift Tally.alone) Tally.world "room" (handle_save 0%nat) 0%nat (envelope_of "x") Tally.accept inbound_run.2.
Proof.
  split; [apply inbound_run_result|].
  apply (inbound_message_committed_once Tally.alone Tally.sound (λ s, s) Tally.untouched (λ _ _ _, eq_refl)
    (drift Tally.alone) (λ _ _ Hd, Hd) (drift_stored Tally.alone (λ _ _ _, eq_refl)) Tally.world "room" 0%nat
    (envelope_of "x") Tally.accept (Ok tt) inbound_run.2).
  - by intros p w x w' [= <- <-].
  - done.
  - apply run_result, inbound_run_result.
Defined.

