(* ===== verification/RatchetInvariant.v ===== *)
(** * Memory never runs ahead of the storage, whatever the runtime is asked to do ([crypto/vodozemacRuntime.ts])

    Every operation of the runtime, on every path, ends with the session in memory equal to the stored one or with no session
    in memory ([backed]); so a ciphertext is never made twice from one state, and a message is never read by a session the
    storage does not know. *)
From S2P Require Import Prelude Json Storage RoomMessage Vault Routing Ratchet RatchetSafety.

Section invariant.
Context {Session Account : Type} `{OlmLaws Session Account} `{SecureStorageLaws St} {C : Type}.
Context (others : nat → St → St) (fault : nat → Io) (sha256 : string → string) (loadBindings : option Z)
  (wipe : list SecureRecordUpdate → C → C).
Context (sessions_locked : ∀ n d c, read (others n d) SESSION_RECORD_TYPE c = read d SESSION_RECORD_TYPE c).
Notation Tab := (Tab (Session := Session) (Account := Account) (C := C)).
Notation W := (World St Tab).
Implicit Types w : W.

(** ** Steps that leave the session alone *)
Definition undisturbed w w' : Prop :=
  session (mem w') = session (mem w) ∧ state (mem w') = state (mem w) ∧ conversationId (mem w') = conversationId (mem w) ∧
  mutated (mem w') = mutated (mem w) ∧ ∀ c, stored_session c w' = stored_session c w.
#[local] Instance undisturbed_preorder : PreOrder undisturbed.
Proof.
  split; [by intros w|]. intros w1 w2 w3 (? & ? & ? & ? & E1) (? & ? & ? & ? & E2). unfold undisturbed.
  split_and!; congruence.
Qed.

Lemma drift_undisturbed w w' : drift others w w' → mem w' = mem w → undisturbed w w'.
Proof. intros Hd Hm. unfold undisturbed. rewrite Hm. split_and!; [done..|]. intros c. by eapply drift_stored. Qed.
Lemma undisturbed_read t i : always undisturbed (read_ others fault t i).
Proof. intros w x w' (Hd & Hm & _)%read_cases. by apply drift_undisturbed. Qed.
Lemma changed_undisturbed (m : M W unit) g :
  (∀ w x w', m w = (x, w') → mem w' = mem w ∧ ((x = Err io_error ∧ drift others w w') ∨
    (x = Ok tt ∨ x = Err io_error) ∧ ∃ w1, drift others w w1 ∧ disk w' = g (disk w1) ∧ tick w' = tick w1)) →
  (∀ d c, read (g d) SESSION_RECORD_TYPE c = read d SESSION_RECORD_TYPE c) → always undisturbed m.
Proof.
  intros Hm Hg w x w' (Hmem & [[_ Hd]|[_ (w1 & Hd & Hw' & _)]])%Hm; [by apply drift_undisturbed|].
  unfold undisturbed. rewrite Hmem. split_and!; [done..|]. intros c. unfold stored_session at 1. rewrite Hw', Hg. by eapply drift_stored.
Qed.
Lemma undisturbed_write t i v : t ≠ SESSION_RECORD_TYPE → always undisturbed (write_ others fault t i v).
Proof. intros Ht. eapply changed_undisturbed; [by apply write_cases|]. intros d c. apply read_write_ne. congruence. Qed.
Lemma undisturbed_delete t i : t ≠ SESSION_RECORD_TYPE → always undisturbed (delete_ others fault t i).
Proof. intros Ht. eapply changed_undisturbed; [by apply delete_cases|]. intros d c. apply read_delete_ne. congruence. Qed.
Lemma undisturbed_identity h i : always undisturbed (update_mem (set_identity h i) : M W unit).
Proof. by intros w x w' [= <- <-]. Qed.
Lemma undisturbed_account i : always undisturbed (set_account i : M W unit).
Proof. by intros w x w' [= <- <-]. Qed.
Lemma undisturbed_get {A} (f : Tab → A) : always undisturbed (get_mem f : M W A).
Proof. by intros w x w' [= <- <-]. Qed.
Lemma undisturbed_require {A} (o : option A) e : always undisturbed (require_ o e : M W A).
Proof. by apply always_lift, _. Qed.
Lemma undisturbed_fail b e : always undisturbed (fail_if b e : M W unit).
Proof. by apply always_lift, _. Qed.
#[local] Hint Resolve undisturbed_read undisturbed_identity undisturbed_account undisturbed_get undisturbed_require undisturbed_fail : k3.

Lemma undisturbed_getOrCreate : always undisturbed (getOrCreate others fault sha256).
Proof.
  unfold getOrCreate. apply always_bind; [apply _|auto with k3|]. intros i. destruct (publicIdentity i) as [p|]; [by apply always_mret, _|].
  apply always_bind; [apply _|auto with k3|]. intros stored. apply always_bind; [apply _| |].
  - destruct stored as [b|]; [auto with k3|]. apply always_bind; [apply _|by apply always_gets, _|]. intros n.
    apply always_bind; [apply _|by apply undisturbed_write|]. intros _. by apply always_mret, _.
  - intros a. apply always_bind; [apply _|by apply always_lift, _|]. intros ks. apply always_bind; [apply _|auto with k3|].
    intros _. by apply always_mret, _.
Qed.
#[local] Hint Resolve undisturbed_getOrCreate : k3.
Lemma undisturbed_withAccount {A} (f : Account → option A * Account) : always undisturbed (withAccount others fault sha256 f).
Proof.
  unfold withAccount. do 3 (apply always_bind; [apply _|auto with k3|]; intros ?). destruct (f _) as [r a'].
  apply always_bind; auto with k3. apply _.
Qed.
#[local] Hint Resolve undisturbed_withAccount : k3.

(** what such steps keep *)
Definition calm (P : W → Prop) : Prop := ∀ w w', P w → undisturbed w w' → P w'.
Definition dormant w : Prop := unheld (mem w).
Lemma calm_dormant : calm dormant.
Proof. intros w w' Hw (Hs & _). unfold dormant, unheld. by rewrite Hs. Qed.
Lemma calm_holds c h : calm (λ w, holds c h (mem w)).
Proof. intros w w' (? & ? & ? & ?) (Hs & Ht & Hc & _). unfold holds. split_and!; congruence. Qed.
Lemma calm_stored c old : calm (λ w, stored_session c w = old).
Proof. intros w w' Hw (_ & _ & _ & _ & Hs). by rewrite Hs. Qed.
Lemma calm_and (P Q : W → Prop) : calm P → calm Q → calm (λ w, P w ∧ Q w).
Proof. intros HP HQ w w' [? ?] Hu. split; [by eapply HP|by eapply HQ]. Qed.
Lemma calm_mutated m : calm (λ w, mutated (mem w) = m).
Proof. intros w w' <- (_ & _ & _ & Hm & _). done. Qed.
Lemma calm_ahead c old h : calm (ahead c old h).
Proof. apply calm_and; [apply calm_holds|apply calm_stored]. Qed.
Lemma calm_backed : calm backed.
Proof. intros w w' [Hw|(c & h & Hw)] Hu; [left; by eapply calm_dormant|right]. exists c, h. by eapply calm_ahead. Qed.
Lemma calm_state (l : list LifecycleState) : calm (λ w, state (mem w) ∈ l).
Proof. intros w w' Hw (_ & Ht & _). by rewrite Ht. Qed.

Lemma triple_calm {A} (m : M W A) P : always undisturbed m → calm P → triple P m (λ _ w, P w) (λ _ w, P w).
Proof. intros Hm HP w Hw. destruct (m w) as [[a|e] w'] eqn:E; eapply HP; eauto. Qed.
Lemma calm_then {A B} (m : M W A) (k : A → M W B) P Q (E : string → W → Prop) :
  always undisturbed m → calm P → (∀ w e, P w → E e w) → (∀ a, triple P (k a) Q E) → triple P (m ≫= k) Q E.
Proof.
  intros Hm HP HE Hk. eapply triple_bind; [|exact Hk].
  eapply triple_weaken; [by apply (triple_calm m P)|intros w Hw; exact Hw|intros a w Hw; exact Hw|intros e w Hw; by apply HE].
Qed.
Lemma undisturbed_requireState (l : list LifecycleState) : always undisturbed (requireState l : M W unit).
Proof. unfold requireState. apply always_bind; auto with k3. apply _. Qed.
Lemma triple_requireState (l : list LifecycleState) P :
  calm P → triple P (requireState l : M W unit) (λ _ w, P w ∧ state (mem w) ∈ l) (λ _ w, P w).
Proof.
  intros HP w Hw. unfold requireState, get_mem. rewrite gets_bind. unfold fail_if, lift.
  destruct (bool_decide (state (mem w) ∈ l)) eqn:E; [|done]. cbn. split; [done|]. by apply bool_decide_eq_true in E.
Qed.
Lemma backed_dormant w : backed w → state (mem w) ≠ active → dormant w.
Proof. intros [Hw|(c & h & (_ & ? & _) & _)] Hs; [done|]. congruence. Qed.

#[local] Hint Resolve undisturbed_requireState : k3.

(** ** Opening and closing: there is no session before, and none after *)
Definition asleep w w' : Prop := dormant w → dormant w'.
#[local] Instance asleep_preorder : PreOrder asleep.
Proof. split; [intros w Hw; exact Hw|]. intros w1 w2 w3 H12 H23 Hw. by apply H23, H12. Qed.
Lemma asleep_undisturbed {A} (m : M W A) : always undisturbed m → always asleep m.
Proof. intros Hm w x w' E Hw. eapply calm_dormant; [done|]. by eapply Hm. Qed.
Lemma asleep_mem (f : Tab → Tab) : (∀ t, session (f t) = session t) → always asleep (update_mem f : M W unit).
Proof. intros Hf w x w' [= _ <-] Hw. unfold dormant, unheld. cbn. by rewrite Hf. Qed.
Lemma asleep_delete t i : always asleep (delete_ others fault t i).
Proof. intros w x w' [Hm _]%delete_cases Hw. unfold dormant. by rewrite Hm. Qed.
#[local] Hint Resolve asleep_undisturbed asleep_mem asleep_delete : k3.

Lemma triple_dormant {A} (m : M W A) : always asleep m → triple dormant m (λ _ w, backed w) (λ _ w, backed w).
Proof. intros Hm w Hw. destruct (m w) as [[a|e] w'] eqn:E; left; by eapply Hm. Qed.
Lemma from_state {A} (l : list LifecycleState) (m : M W A) Q (E : string → W → Prop) :
  active ∉ l → (∀ e w, backed w → E e w) → triple dormant m Q E → triple backed (requireState l;; m) Q E.
Proof.
  intros Hl HE Hm. eapply triple_bind.
  - eapply triple_weaken; [apply (triple_requireState l backed calm_backed)|keep|keep|intros e w; apply HE].
  - intros []. eapply triple_pre; [exact Hm|]. intros w [Hw Hs]. apply backed_dormant; [done|]. by intros E'; rewrite E' in Hs.
Qed.

Lemma asleep_recover : always asleep (recoverPendingCommit others fault).
Proof.
  unfold recoverPendingCommit. apply always_bind; [apply _|auto with k3|]. intros [b|]; [|by apply always_mret, _].
  destruct (parse_marker b) as [[c phase]|]; apply always_bind; try apply _; auto with k3.
  - unfold when. destruct (negb _); [auto with k3|by apply always_mret, _].
  - intros _. by apply always_throw, _.
Qed.
Lemma triple_initialize :
  triple backed (initialize others fault loadBindings) (λ _ w, backed w) (λ _ w, backed w).
Proof.
  apply from_state; [set_solver|done|]. apply triple_dormant, always_catch; [apply _| |].
  - apply always_bind; [apply _|auto with k3|]. intros v. apply always_bind; [apply _|auto with k3|]. intros [].
    apply always_bind; [apply _|by apply asleep_mem|]. intros [].
    apply always_bind; [apply _|apply asleep_recover|]. intros []. by apply asleep_mem.
  - intros e. apply always_bind; [apply _|by apply asleep_mem|]. intros []. by apply always_throw, _.
Qed.
Lemma triple_restoreOrCreate :
  triple backed (restoreOrCreateIdentity others fault sha256) (λ _ w, backed w) (λ _ w, backed w).
Proof.
  apply from_state; [set_solver|done|]. apply triple_dormant.
  apply always_bind; [apply _|auto with k3|]. intros b. apply always_bind; [apply _|auto with k3|]. intros [].
  apply always_bind; [apply _|auto with k3|]. intros []. apply always_catch; [apply _| |].
  - apply always_bind; [apply _|auto with k3|]. intros v. apply always_bind; [apply _|by apply asleep_mem|]. intros []. by apply always_mret, _.
  - intros e. apply always_bind; [apply _|by apply asleep_mem|]. intros []. by apply always_throw, _.
Qed.
Lemma triple_shut : triple backed (close : M W unit) (λ _ w, backed w) (λ _ w, backed w).
Proof. intros w _. by left. Qed.

(** the operations on the identity *)
Lemma triple_identity {A} (m : M W A) c : always undisturbed m → triple backed (with_identity m c) (λ _ w, backed w) (λ _ w, backed w).
Proof.
  intros Hm. apply triple_calm; [|exact calm_backed]. unfold with_identity.
  apply always_bind; [apply _|auto with k3|]. intros []. apply always_bind; [apply _|auto with k3|]. intros b.
  apply always_bind; [apply _|auto with k3|]. intros []. apply always_catch; [apply _|done|]. intros e. by apply always_throw, _.
Qed.
Lemma undisturbed_persist : always undisturbed (persistAccount others fault).
Proof.
  unfold persistAccount. apply always_bind; [apply _|auto with k3|]. intros i. apply always_bind; [apply _|auto with k3|]. intros a.
  by apply undisturbed_write.
Qed.

(** ** Taking a session into memory *)
(** [P] does not depend on the fields an opened session changes *)
Definition unopened (P : W → Prop) : Prop := ∀ w s st cv, P w → P (with_mem (λ t, set_state st (set_conversation cv (set_session s t))) w).
Lemma triple_establishSession c h sid P :
  unopened P → (∀ w st, P w → P (with_mem (set_state st) w)) →
  triple (λ w, dormant w ∧ P w) (establishSession c h sid : M W unit)
    (λ _ w, holds c h (mem w) ∧ P w) (λ e w, (dormant w ∧ P w) ∧ e ≠ retryable_conflict).
Proof.
  intros HP HP' w [Hw Hp]. unfold establishSession, requireState, get_mem, fail_if.
  rewrite bind_bind, gets_bind, lift_bind. destruct (bool_decide (state (mem w) ∈ _)); cbn [negb throw_if]; [|done].
  rewrite lift_bind. destruct (negb (nonempty c) || negb (nonempty sid)) eqn:Ei; cbn [throw_if]; [done|].
  rewrite (bind_run (enter session_establishing) _ w tt (with_mem (set_state session_establishing) w)) by done.
  destruct (session_initialize h sid) as [s|e] eqn:Es.
  - assert (s = {| handle := h; initialized := true |}) as ->.
    { unfold session_initialize in Es. destruct (_ || _) in Es; [done|]. by injection Es as <-. }
    split; [|by apply (HP w _ active (Some c))]. split_and!; [done..|]. intros ->. done.
  - split; [|done]. split; [done|]. exact (HP' _ error (HP' _ session_establishing Hp)).
Qed.

Lemma triple_restoreSession c sid :
  triple backed (restoreSession others fault c sid) (λ _ w, backed w) (λ _ w, backed w).
Proof.
  apply from_state; [set_solver|done|]. apply calm_then; [auto with k3|exact calm_dormant|by left|]. intros b.
  apply calm_then; [auto with k3|exact calm_dormant|by left|]. intros [].
  eapply triple_bind with (R := λ h w, dormant w ∧ stored_session c w = Some (handle_save h)).
  - eapply triple_catch with (F := λ _ w, dormant w).
    + unfold session_load. eapply triple_bind.
      { use_triple (triple_read others fault SESSION_RECORD_TYPE c dormant). intros w w' Hw _ Hm. unfold dormant. by rewrite Hm. }
      intros serialized w [-> Hw]. unfold require_. rewrite lift_bind.
      destruct (read (disk w) SESSION_RECORD_TYPE c) as [b'|] eqn:Er; cbn [require]; [|done].
      destruct (handle_load b') as [h|] eqn:El; cbn; [|done]. split; [done|]. by rewrite (load_save _ _ El).
    + intros e w Hw. left. by destruct (String.eqb e session_missing).
  - intros h. eapply triple_weaken; [apply (triple_establishSession c h sid (λ w, stored_session c w = Some (handle_save h)))|keep|..].
    + by intros w s st cv Hw.
    + by intros w st Hw.
    + intros [] w [? ?]. right. by exists c, h.
    + intros e w [[? _] _]. by left.
Qed.

(** ** A signal *)
Lemma triple_persist c h :
  triple (λ w, holds c h (mem w)) (persistSessionUnsafe others fault) (λ _ w, ahead c (Some (handle_save h)) h w) (λ _ _, True).
Proof.
  intros w Hw. pose proof Hw as (Hs & Hst & Hc & Hne). unfold persistSessionUnsafe, fail_if.
  rewrite (bind_run _ _ w tt w) by (unfold requireState, get_mem; by rewrite gets_bind, Hst).
  unfold get_mem. rewrite !gets_bind, Hc, gets_bind, Hs, lift_bind. destruct (throw_if _ _); [|done].
  unfold serializeCurrentSession. rewrite (bind_run _ _ w (handle_save h) w) by (by rewrite (bind_run _ _ _ _ _ (ready_run _ _ _ Hw))).
  unfold mbind, M_bind. destruct (write_ others fault SESSION_RECORD_TYPE c (handle_save h) w) as [[[]|e] w'] eqn:E; [|done].
  apply write_cases in E as (Hm & [[? _]|[_ (w1 & _ & Hd & _)]]); [done|]. cbn. split.
  - cbn. rewrite Hm. by split_and!.
  - unfold stored_session. cbn. rewrite Hd. apply read_write.
Qed.
Lemma triple_save_signal {A} c h (a : A) :
  triple (λ w, holds c h (mem w)) (catch_ (save_mutation others fault) (λ _, quarantine_as "CORRUPTED_SESSION");; mret a : M W A)
    (λ _ w, backed w) (λ _ w, backed w).
Proof.
  eapply triple_bind with (R := λ _ w, backed w); [|intros [] w Hw; exact Hw].
  eapply triple_catch with (F := λ _ _, True); [|intros e w _; by left].
  unfold save_mutation. eapply triple_bind; [apply triple_persist|]. intros [].
  eapply triple_weaken; [apply (triple_calm _ (ahead c (Some (handle_save h)) h)); [by apply undisturbed_delete|apply calm_ahead]|keep| |done].
  intros [] w Hw. right. by exists c, h.
Qed.
(** both ways a signal advances the session *)
Lemma triple_signal {A} (m : M W A) :
  (∀ c h, triple (λ w, holds c h (mem w)) m (λ _ w, ∃ h', holds c h' (mem w)) (λ _ _, True)) →
  triple backed
    (requireState [active; persisted];; require_session;; prepareMutation others fault;;
     a ← catch_ m (λ _, quarantine_as "INVALID_CIPHERTEXT");
     catch_ (save_mutation others fault) (λ _, quarantine_as "CORRUPTED_SESSION");;
     mret a) (λ _ w, backed w) (λ _ w, backed w).
Proof.
  intros Hm. apply calm_then; [auto with k3|exact calm_backed|done|]. intros [].
  eapply triple_bind with (R := λ _ w, ∃ c h, holds c h (mem w) ∧ backed w).
  { intros w [Hw|(c & h & Hh & Hs)]; unfold require_session, get_mem; rewrite gets_bind.
    - rewrite Hw. by left.
    - pose proof Hh as (-> & _). cbn. exists c, h. split; [done|]. right. by exists c, h. }
  intros []. apply triple_exists. intros c. apply triple_exists. intros h.
  apply calm_then; [| |by intros w e [_ Hw]|].
  - unfold prepareMutation. do 2 (apply always_bind; [apply _|auto with k3|]; intros ?). repeat case_match; try by apply always_throw, _.
    apply always_bind; [apply _|auto with k3|]. intros []. by apply undisturbed_write.
  - apply calm_and; [apply calm_holds|exact calm_backed].
  - intros []. eapply triple_bind with (R := λ _ w, ∃ h', holds c h' (mem w)).
    + eapply triple_catch with (F := λ _ _, True); [eapply triple_pre; [apply (Hm c h)|by intros w [Hw _]]|]. intros e w _. by left.
    + intros a. apply triple_exists. intros h'. apply triple_save_signal.
Qed.
Lemma triple_encrypt channel plaintext :
  triple backed (encrypt others fault channel plaintext) (λ _ w, backed w) (λ _ w, backed w).
Proof.
  apply triple_signal. intros c h w Hw. unfold session_encrypt. rewrite (bind_run _ _ _ _ _ (ready_run _ _ _ Hw)).
  rewrite lift_bind. destruct (framePlaintext _ _) as [framed|]; [|done]. cbn [handle]. destruct (handle_encrypt framed h) as [olm h'].
  destruct (advance_run _ h h' w Hw) as (w1 & Hr & Hh1 & _). rewrite (bind_run _ _ _ _ _ Hr). unfold require_. rewrite lift_bind.
  destruct olm as [olm|]; [|done]. by exists h'.
Qed.
Lemma triple_decrypt channel envelope :
  triple backed (decrypt others fault channel envelope) (λ _ w, backed w) (λ _ w, backed w).
Proof.
  apply triple_signal. intros c h w Hw. unfold session_decrypt. rewrite (bind_run _ _ _ _ _ (ready_run _ _ _ Hw)). unfold fail_if.
  rewrite lift_bind. destruct (throw_if _ _); [|done]. rewrite lift_bind. destruct (parseEnvelopeData _) as [olm|]; [|done].
  cbn [handle]. destruct (handle_decrypt olm h) as [p h'].
  destruct (advance_run _ h h' w Hw) as (w1 & Hr & Hh1 & _). rewrite (bind_run _ _ _ _ _ Hr). unfold require_. rewrite lift_bind.
  destruct p as [p|]; [|done]. cbn [require]. rewrite lift_bind. destruct (throw_if _ _); [|done]. by exists h'.
Qed.

(** ** Messages in an established session *)
Notation quiet := (quiet sessions_kept).
Lemma triple_inbound_backed envelope (buildUpdates : bytes → M W (list SecureRecordUpdate)) :
  (∀ p, quiet (buildUpdates p)) →
  triple backed (decryptAndCommitInbound others fault wipe envelope buildUpdates) (λ _ w, backed w) (λ _ w, backed w).
Proof.
  intros Hb w [Hw|(c & h & Ha)].
  - unfold decryptAndCommitInbound. pose proof (triple_requireState [active; persisted] dormant calm_dormant w Hw) as Hr.
    unfold mbind at 1, M_bind at 1. destruct (requireState [active; persisted] w) as [[[]|e] w1]; [|by left].
    destruct Hr as [Hw1 _]. unfold no_locals, get_mem. rewrite (bind_run (update_mem _) _ w1 tt (with_mem (set_locals false None []) w1)) by done.
    rewrite gets_bind. cbn [mem with_mem]. change (session (set_locals false None [] (mem w1))) with (session (mem w1)). rewrite Hw1. by left.
  - pose proof (triple_inbound others fault sha256 wipe sessions_locked sessions_kept (drift_sessions others sessions_locked) (λ c w w' E, E c) w c (handle_save h) h envelope buildUpdates Hb eq_refl Ha w eq_refl) as Hr.
    destruct (decryptAndCommitInbound others fault wipe envelope buildUpdates w) as [[[]|e] w']; [|by destruct Hr].
    destruct Hr as (n & more & h' & (olm & framed & wb & wb' & _ & _ & -> & _) & (_ & Hs & _) & Hh). right. by exists c, h'.
Qed.
Context (recovers : ¬ unacknowledged_then_faulty fault).
Lemma triple_outbound_backed plaintext (buildUpdates : jsval → string → M W (list SecureRecordUpdate)) :
  (∀ e s, quiet (buildUpdates e s)) →
  triple backed (encryptAndCommitOutbound others fault sha256 wipe plaintext buildUpdates None) (λ _ w, backed w) (λ _ w, backed w).
Proof.
  intros Hb w [Hw|(c & h & Ha)].
  - unfold encryptAndCommitOutbound, no_locals. rewrite (bind_run (update_mem _) _ w tt (with_mem (set_locals false None []) w)) by done.
    assert (dormant (with_mem (set_locals false None []) w)) as Hw1 by done. revert Hw1. generalize (with_mem (set_locals false None []) w). clear w Hw.
    intros w Hw. rewrite (bind_run (get_mem conversationId) _ w (conversationId (mem w)) w) by done.
    generalize (conversationId (mem w)). intros cv. revert w Hw.
    match goal with |- ∀ w, _ → match ?m w with _ => _ end => change (triple dormant m (λ _ w, backed w) (λ _ w, backed w)) end.
    apply triple_finally. eapply triple_bind with (R := λ _ _, False); [|by intros a w []].
    eapply triple_catch with (F := λ _ w, dormant w); [|intros e w Hw; by left].
    unfold prepare_outbound. apply calm_then; [auto with k3|exact calm_dormant|done|]. intros held.
    apply calm_then; [auto with k3|exact calm_dormant|done|]. intros [] w Hw. unfold get_mem. by rewrite gets_bind, Hw.
  - pose proof (triple_outbound others fault sha256 wipe sessions_locked sessions_kept (drift_sessions others sessions_locked) (λ c w w' E, E c) w c h plaintext buildUpdates Hb Ha w eq_refl) as Hr.
    destruct (encryptAndCommitOutbound others fault sha256 wipe plaintext buildUpdates None w) as [[e|e] w'].
    + destruct Hr as (h1 & _ & Hh & (more & wb & wb' & _ & _ & _ & Hs)). right. by exists c, h1.
    + destruct Hr as [[? _]|[Hf _]]; [done|]. by destruct recovers.
Qed.

(** ** The first message of a conversation *)
(** a session that is neither stored nor discarded is left only where the operation will still discard it *)
Definition dangling w : Prop := mutated (mem w) = true.
Definition crashed (e : string) w : Prop := dormant w ∨ (dangling w ∧ e ≠ retryable_conflict).

Lemma triple_reset m :
  triple (λ w, mutated (mem w) = m) (resetUncommittedFirstSession others fault sha256)
    (λ _ w, dormant w ∧ mutated (mem w) = m) (λ _ w, dormant w ∧ mutated (mem w) = m).
Proof.
  unfold resetUncommittedFirstSession. eapply triple_bind with (R := λ _ w, dormant w ∧ mutated (mem w) = m); [by intros w Hw|]. intros [].
  eapply triple_bind with (R := λ _ w, dormant w ∧ mutated (mem w) = m); [by intros w Hw|]. intros [].
  apply calm_then; [auto with k3| |by intros w e Hw|]; [apply calm_and; [exact calm_dormant|apply calm_mutated]|].
  intros v w Hw. exact Hw.
Qed.
Lemma triple_discard_all : triple (λ _, True) (discard_all : M W unit) (λ _ w, dormant w) (λ _ _, False).
Proof. by intros w _. Qed.
Lemma triple_conflict us ds e :
  triple (λ _, True) (first_session_conflict others fault sha256 us ds e) (λ _ _, False) (λ _ w, dormant w).
Proof.
  assert (∀ (m : M W unit) e', triple (λ _, True) m (λ _ w, dormant w) (λ _ w, dormant w) →
    triple (λ _, True) (m;; set_mutated false;; throw e' : M W unit) (λ _ _, False) (λ _ w, dormant w)) as Ht.
  { intros m e' Hm. eapply triple_bind; [exact Hm|]. by intros [] w Hw. }
  assert (triple (λ _, True) (resetUncommittedFirstSession others fault sha256) (λ _ w, dormant w) (λ _ w, dormant w)) as Hr.
  { intros w _. pose proof (triple_reset (mutated (mem w)) w eq_refl) as Hr.
    destruct (resetUncommittedFirstSession others fault sha256 w) as [[a|e'] w']; apply Hr. }
  unfold first_session_conflict. apply triple_if; intros _; apply Ht; [exact Hr|].
  apply triple_if; intros _; [exact Hr|]. eapply triple_weaken; [exact triple_discard_all|keep|keep|]. by intros e' w [].
Qed.

Lemma read_all_error us w e w' : read_all others fault us w = (Err e, w') → e = io_error.
Proof.
  revert w. induction us as [|u us IH]; intros w; [done|]. cbn [read_all]. intros [(d & w1 & _ & E)|(e' & E & He)]%bind_cases.
  - apply bind_cases in E as [(ds & w2 & _ & E)|(e' & E & [= <-])]; [done|]. by eapply IH.
  - injection He as <-. by apply read_cases in E as (_ & _ & [[= ->]|]).
Qed.

Section commit.
Context (c : string) (h : Session) (a e : option string) (accountNext : string) (more : list SecureRecordUpdate).
Notation updates := (account_update a accountNext :: session_update c e (handle_save h) :: more).
Context (Hnd : NoDup (update_key <$> updates)).
Definition open_first w : Prop := holds c h (mem w) ∧ dangling w.
Lemma stable_open_first : stable others open_first.
Proof. intros w w' Hw _ Hm. unfold open_first, dangling. by rewrite Hm. Qed.

Lemma triple_first_read_back :
  triple open_first (read_all others fault updates)
    (λ ds w, open_first w ∧ (all_next updates ds = true → stored_session c w = Some (handle_save h))) crashed.
Proof.
  intros w Hw. pose proof (triple_read_all others fault sessions_locked updates open_first stable_open_first w Hw) as Hr.
  pose proof (read_all_error updates w) as He.
  destruct (read_all others fault updates w) as [[ds|err] w'].
  - destruct Hr as [Hw' Hds]. split; [done|]. intros Hn. unfold all_next in Hn. apply bool_decide_eq_true in Hn. subst ds.
    apply Forall2_cons_1 in Hds as [_ Hds]. apply Forall2_cons_1 in Hds as [Hd _]. symmetry. by apply Hd.
  - right. split; [apply Hr|]. by rewrite (He _ _ eq_refl).
Qed.

Lemma triple_swap_first :
  triple open_first (swap_ others fault updates)
    (λ b w, open_first w ∧ (b = true → stored_session c w = Some (handle_save h))) (λ _ w, open_first w).
Proof.
  intros w Hw. destruct (swap_ others fault updates w) as [x w'] eqn:E. apply swap_cases in E as (Hm & Hc).
  assert (open_first w') as Hw' by (unfold open_first, dangling; by rewrite Hm).
  destruct Hc as [[_ [-> | ->]]|[Hc [-> | [-> _]]]]; [done..| |done]. split; [done|]. intros _.
  apply (committed_read others updates (session_update c e (handle_save h)) w w'); [done|set_solver|by intros; apply sessions_locked|done].
Qed.
Lemma finish_first w : open_first w → stored_session c w = Some (handle_save h) →
  ahead c (Some (handle_save h)) h (with_mem (λ t, set_locals false (buildError t) (acceptanceUpdates t) (set_state active t)) w).
Proof. intros [(? & ? & ? & ?) _] Hs. split; [by split_and!|exact Hs]. Qed.

Lemma triple_commit_first :
  triple open_first (commit_first others fault sha256 updates) (λ _ w, ahead c (Some (handle_save h)) h w) crashed.
Proof.
  unfold commit_first.
  eapply triple_bind with (R := λ r w, match r with
    | None => ahead c (Some (handle_save h)) h w
    | Some true => open_first w ∧ stored_session c w = Some (handle_save h)
    | Some false => open_first w end).
  - eapply triple_catch with (F := λ e w, open_first w).
    + eapply triple_bind; [apply triple_swap_first|]. intros [] w [Hw Hs]; [|done]. split; [done|by apply Hs].
    + intros err. eapply triple_bind; [apply triple_first_read_back|]. intros ds. apply triple_if; intros En.
      * intros w [Hw Hs]. apply (finish_first w Hw), Hs, En.
      * eapply triple_bind with (R := λ _ _, False); [|by intros [] w []].
        eapply triple_weaken; [apply triple_conflict|done|by intros [] w []|]. intros e' w Hw. by left.
  - intros [[]|].
    + intros w [Hw Hs]. by apply (finish_first w Hw).
    + eapply triple_bind; [apply triple_first_read_back|]. intros ds.
      eapply triple_weaken; [apply triple_conflict|done|by intros [] w []|]. intros e' w Hw. by left.
    + by intros w Hw.
Qed.
End commit.

Section first.
Context (c key prekey : string) (buildUpdates : bytes → M W (list SecureRecordUpdate)).
Context (builds : ∀ p, quiet (buildUpdates p)) (own_error : ∀ p w, (buildUpdates p w).1 ≠ Err retryable_conflict).

Lemma undisturbed_serialize : always undisturbed (serializeAccountForCommit : M W string).
Proof.
  unfold serializeAccountForCommit. do 2 (apply always_bind; [apply _|auto with k3|]; intros ?). by apply always_mret, _.
Qed.
Lemma serialize_error w e w' : (serializeAccountForCommit : M W string) w = (Err e, w') → e = "Messaging identity is locked.".
Proof.
  unfold serializeAccountForCommit, get_mem. rewrite gets_bind. unfold require_. rewrite lift_bind. by destruct (account _) as [a|]; intros [= <-].
Qed.

Lemma triple_build_first h p :
  triple (open_first c h) (build (buildUpdates p)) (λ _ w, open_first c h w) crashed.
Proof.
  intros w Hw. unfold build, catch_. pose proof (own_error p w) as He. destruct (buildUpdates p w) as [[more|e] w'] eqn:E.
  - destruct (builds p _ _ _ E) as [_ Hk]. destruct Hw as [Hh Hm]. split; [by eapply kept_holds|].
    unfold dangling. destruct Hk as (_ & _ & _ & _ & -> & _). done.
  - destruct (builds p _ _ _ E) as [_ Hk]. right. split; [|by intros ->]. destruct Hk as (_ & _ & _ & _ & Hm & _). unfold dangling.
    transitivity (mutated (mem w')); [done|]. rewrite Hm. apply Hw.
Qed.

Lemma triple_first_body expectedAccount expectedSession :
  triple (λ w, dormant w)
    (set_mutated true;;
     inbound ← withAccount others fault sha256 (account_inbound key prekey);
     let '(h, plaintext) := inbound in
     establishSession c h (handle_id h);;
     acceptance ← build (buildUpdates plaintext);
     keep_updates acceptance;;
     accountNext ← serializeAccountForCommit;
     sessionNext ← serializeCurrentSession;
     let updates := account_update expectedAccount accountNext :: session_update c expectedSession sessionNext :: acceptance in
     assertUniqueUpdates updates;;
     commit_first others fault sha256 updates) (λ _ w, backed w) crashed.
Proof.
  eapply triple_bind with (R := λ _ w, dormant w ∧ dangling w); [by intros w Hw|]. intros [].
  apply calm_then; [auto with k3|apply calm_and; [exact calm_dormant|apply calm_mutated]|by intros w e [Hw _]; left|].
  intros [h plaintext]. eapply triple_bind.
  { eapply triple_weaken; [apply (triple_establishSession c h (handle_id h) dangling); [by intros w s st cv Hw|by intros w st Hw]|keep|keep|]. intros e w [[Hw _] _]. by left. }
  intros []. eapply triple_bind; [use_triple triple_build_first|]. intros more.
  eapply triple_bind with (R := λ _ w, open_first c h w); [by intros w Hw|]. intros [].
  eapply triple_bind with (R := λ _ w, open_first c h w).
  { intros w Hw. pose proof (serialize_error w) as He. pose proof undisturbed_serialize w as Hu.
    destruct (serializeAccountForCommit w) as [[a|e] w'].
    - destruct Hw as [Hh Hm]. split; [by eapply (calm_holds c h); [exact Hh|eapply Hu]|]. by eapply (calm_mutated true); [exact Hm|eapply Hu].
    - right. rewrite (He _ _ eq_refl). split; [|done]. by eapply (calm_mutated true); [exact (proj2 Hw)|eapply Hu]. }
  intros accountNext w Hw. unfold serializeCurrentSession.
  rewrite (bind_run _ _ w (handle_save h) w) by (by rewrite (bind_run _ _ _ _ _ (ready_run _ _ _ (proj1 Hw)))).
  set (updates := account_update expectedAccount accountNext :: session_update c expectedSession (handle_save h) :: more).
  unfold mbind, M_bind. destruct (assertUniqueUpdates updates w) as [[[]|e] w'] eqn:E.
  - apply unique_keys in E as [Hnd ->].
    pose proof (triple_commit_first c h expectedAccount expectedSession accountNext more Hnd w Hw) as Hr. fold updates in Hr.
    destruct (commit_first others fault sha256 updates w) as [[[]|e] w']; [|done]. right. by exists c, h.
  - unfold assertUniqueUpdates, fail_if, lift in E. destruct (negb _); [|done]. injection E as <- <-.
    right. split; [apply Hw|done].
Qed.

(** the handler discards what is dangling *)
Lemma triple_first_handler expectedAccount expectedSession e :
  triple (crashed e)
    (if String.eqb e retryable_conflict then throw e else
     m ← get_mem mutated;
     when m (catch_ (durableAccount ← read_ others fault ACCOUNT_RECORD_TYPE "local";
                     durableSession ← read_ others fault SESSION_RECORD_TYPE c;
                     if bool_decide (durableAccount = expectedAccount) && bool_decide (durableSession = expectedSession)
                     then resetUncommittedFirstSession others fault sha256 else discard_all)
                    (λ _, discard_all));;
     throw_build_error e : M W unit) (λ _ _, False) (λ _ w, dormant w).
Proof.
  apply triple_if; intros Ee.
  - apply String.eqb_eq in Ee. intros w [Hw|[_ Hn]]; [done|congruence].
  - eapply triple_bind; [eapply triple_weaken; [apply triple_get_mem|keep|keep|by intros ? w []]|]. intros m.
    eapply triple_bind with (R := λ _ w, dormant w); [|intros []; by apply triple_wrap]. apply triple_when; intros Em.
    + eapply triple_catch with (F := λ _ _, True); [|intros e'; eapply triple_weaken; [exact triple_discard_all|keep|keep|by intros ? w []]].
      eapply triple_pre with (P' := λ _, True); [|done].
      apply calm_then; [auto with k3|done|done|]. intros a. apply calm_then; [auto with k3|done|done|]. intros s'.
      apply triple_if; intros _; [|eapply triple_weaken; [exact triple_discard_all|keep|keep|done]].
      intros w _. pose proof (triple_reset (mutated (mem w)) w eq_refl) as Hr.
      destruct (resetUncommittedFirstSession others fault sha256 w) as [[a'|e'] w']; [apply Hr|done].
    + intros w [Hm [Hw|[Hd _]]]; [done|]. unfold dangling in Hd. congruence.
Qed.

Lemma triple_establish_attempt :
  triple backed (establish_attempt others fault sha256 wipe c key prekey buildUpdates) (λ _ w, backed w) (λ _ w, backed w).
Proof.
  apply from_state; [set_solver|done|].
  eapply triple_bind with (R := λ _ w, dormant w); [by intros w Hw|]. intros [].
  apply calm_then; [auto with k3|exact calm_dormant|by left|]. intros held.
  apply calm_then; [auto with k3|exact calm_dormant|by left|]. intros []. apply triple_finally.
  eapply triple_bind with (R := λ _ w, dormant w).
  - eapply triple_catch with (F := λ _ w, dormant w); [|intros e; apply triple_wrap; intros w e' Hw; by left].
    apply calm_then; [auto with k3|exact calm_dormant|done|]. intros a. apply calm_then; [auto with k3|exact calm_dormant|done|].
    intros s'. by intros w Hw.
  - intros [a s']. eapply triple_catch; [eapply triple_weaken; [apply (triple_first_body a s')|keep| |keep]|].
    + by intros [] w Hw.
    + intros e. eapply triple_weaken; [apply triple_first_handler|keep|by intros ? w []|]. intros e' w Hw. by left.
Qed.

Lemma triple_establish :
  triple backed (establishInboundSessionAndCommit others fault sha256 wipe c key prekey buildUpdates) (λ _ w, backed w) (λ _ w, backed w).
Proof.
  unfold establishInboundSessionAndCommit. induction MAX_FIRST_PREKEY_ACCOUNT_CAS_RETRIES as [|n IH]; cbn [establish_retry].
  - eapply triple_catch; [apply triple_establish_attempt|]. by intros e w Hw.
  - eapply triple_catch; [apply triple_establish_attempt|]. intros e. apply triple_if; intros _; [exact IH|by intros w Hw].
Qed.
End first.

(** ** The first message sent *)
Section outbound_first.
Context (i : OutboundSessionInitialization) (plaintext : bytes) (buildUpdates : jsval → string → M W (list SecureRecordUpdate)).
Context (builds : ∀ e s, quiet (buildUpdates e s)).
Notation c := (init_conversationId i).
Notation anything := (λ _ : W, True).
Definition fresh_first (b : Before) : Prop := b_initial b = true ∧ b_session b = None.
(** memory will be put back, or was *)
Definition halted w : Prop := dangling w ∨ (mutated (mem w) = false ∧ dormant w).

Lemma restore_first b sid : fresh_first b →
  triple (open_P anything) (restoreUncommittedOutbound others fault sha256 (b_initial b) (b_held b) (b_snapshot b) sid)
    (λ _ w, dormant w) (λ _ w, open_P anything w).
Proof.
  intros [Hi _] w [_ Hm]. unfold restoreUncommittedOutbound, fail_if. rewrite Hi, lift_bind. destruct (throw_if _ _) as [[]|]; [|done].
  pose proof (triple_reset true w Hm) as Hr. destruct (resetUncommittedFirstSession others fault sha256 w) as [[a|e] w']; [apply Hr|].
  split; [done|apply Hr].
Qed.
Lemma triple_undo_first b sid e : fresh_first b →
  triple halted (undo_outbound others fault sha256 b sid e) (λ _ _, False) (λ _ w, dormant w).
Proof.
  intros Hb w [Hw|[Hm Hw]].
  - by apply (triple_undo_open others fault sha256 sid b anything dormant (restore_first b sid Hb) (λ w _, eq_refl) e w).
  - unfold undo_outbound, get_mem. by rewrite gets_bind, Hm.
Qed.

Lemma triple_prepare_first cv :
  triple backed (prepare_outbound others fault cv (Some i))
    (λ r w, (∃ b, r = (c, b) ∧ fresh_first b) ∧ dormant w ∧ stored_session c w = None) (λ _ w, backed w).
Proof.
  unfold prepare_outbound. apply calm_then; [auto with k3|exact calm_backed|done|]. intros held. apply from_state; [set_solver|done|].
  apply calm_then; [auto with k3|exact calm_dormant|by left|]. intros s.
  apply calm_then; [auto with k3|exact calm_dormant|by left|]. intros [].
  apply calm_then; [auto with k3|exact calm_dormant|by left|]. intros a.
  eapply triple_bind; [eapply triple_weaken; [apply (triple_read others fault SESSION_RECORD_TYPE c dormant)|keep|keep|by left]|].
  { intros w w' Hw _ Hm. unfold dormant. by rewrite Hm. }
  intros e w [-> Hw]. unfold fail_if. rewrite lift_bind. fold (stored_session c w).
  destruct (throw_if _ _) eqn:Et; [|by left]. unfold throw_if in Et. destruct (negb _ || _) eqn:Eg in Et; [done|].
  apply orb_false_iff in Eg as [_ Eg]. apply bool_decide_eq_false in Eg. rewrite <-eq_None_not_Some in Eg.
  split; [|done]. by eexists.
Qed.

Lemma triple_open_first b : fresh_first b →
  triple (λ w, dormant w ∧ stored_session c w = None)
    (catch_
       ((set_mutated true;;
         h ← withAccount others fault sha256 (account_outbound (recipientIdentityKey i) (recipientOneTimeKey i));
         establishSession c h (handle_id h));;
        s ← get_mem session;
        s ← require_ s (boundary "MISSING_SESSION");
        mret (handle_id (handle s)))
       (λ e, undo_outbound others fault sha256 b "" e;; throw e))
    (λ _ w, ∃ h, open_first c h w ∧ stored_session c w = None) (λ _ w, dormant w).
Proof.
  intros Hb. eapply triple_catch with (F := λ _ w, halted w).
  2: { intros e. eapply triple_bind with (R := λ _ _, False); [exact (triple_undo_first b "" e Hb)|by intros a w []]. }
  eapply triple_bind with (R := λ _ w, ∃ h, open_first c h w ∧ stored_session c w = None).
  - eapply triple_bind with (R := λ _ w, dormant w ∧ dangling w ∧ stored_session c w = None); [by intros w [Hw Hs]|]. intros [].
    apply calm_then; [auto with k3| |intros w e (_ & Hd & _); by left|].
    { apply calm_and; [exact calm_dormant|apply calm_and; [apply calm_mutated|apply calm_stored]]. }
    intros h. eapply triple_weaken; [apply (triple_establishSession c h (handle_id h) (λ w, dangling w ∧ stored_session c w = None))|keep|..].
    + by intros w s st cv Hw.
    + by intros w st Hw.
    + intros [] w (Hh & Hd & Hs). by exists h.
    + intros e w [(_ & Hd & _) _]. by left.
  - intros [] w (h & [Hh Hd] & Hs). unfold get_mem. rewrite gets_bind. pose proof Hh as (-> & _). by exists h.
Qed.

Lemma triple_send_first b sid : fresh_first b →
  triple (λ w, ∃ h, open_first c h w ∧ stored_session c w = None)
    (set_mutated true;;
     envelope ← catch_ (session_encrypt message plaintext) (λ _, throw (boundary "INVALID_CIPHERTEXT"));
     sessionNext ← serializeCurrentSession;
     accountNext ← (if b_initial b then serializeAccountForCommit else mret "");
     outbound_attempts others fault sha256 wipe 3 c b sid accountNext sessionNext (buildUpdates envelope sid);;
     mret envelope) (λ _ w, backed w) (λ _ w, halted w).
Proof.
  intros Hb. eapply triple_bind with (R := λ _ w, ∃ h, open_first c h w ∧ stored_session c w = None).
  { intros w (h & [Hh _] & Hs). by exists h. }
  intros [].
  eapply triple_bind with (R := λ _ w, ∃ h, open_first c h w ∧ stored_session c w = None).
  { eapply triple_catch with (F := λ _ w, dangling w); [|intros e w Hw; by left].
    intros w (h & [Hh Hd] & Hs). unfold session_encrypt. rewrite (bind_run _ _ _ _ _ (ready_run _ _ _ Hh)). cbn [handle].
    rewrite lift_bind. destruct (framePlaintext _ _) as [framed|]; [|done]. destruct (handle_encrypt framed h) as [olm h1].
    destruct (advance_run _ h h1 w Hh) as (w1 & Hr & Hh1 & Hd1 & _ & Hm1). rewrite (bind_run _ _ _ _ _ Hr).
    unfold require_, dangling. rewrite lift_bind. destruct olm as [olm|]; cbn [require]; [|by rewrite Hm1].
    exists h1. split; [split; [done|exact (eq_trans Hm1 Hd)]|]. unfold stored_session. by rewrite Hd1. }
  intros envelope. apply triple_exists. intros h w (Hw & Hs). unfold serializeCurrentSession.
  rewrite (bind_run _ _ w (handle_save h) w) by (by rewrite (bind_run _ _ _ _ _ (ready_run _ _ _ (proj1 Hw)))).
  destruct Hb as [Hi Hse]. rewrite Hi.
  destruct (serializeAccountForCommit w) as [[accountNext|e] w1] eqn:Ea; pose proof (undisturbed_serialize w _ _ Ea) as Hu.
  2: { unfold mbind, M_bind. rewrite Ea. left. eapply (calm_mutated true); [exact (proj2 Hw)|exact Hu]. }
  rewrite (bind_run _ _ _ _ _ Ea).
  assert (unsent sessions_kept w1 c h b w1) as Hun.
  { split; [eapply (calm_holds c h); [exact (proj1 Hw)|exact Hu]|]. split; [eapply (calm_mutated true); [exact (proj2 Hw)|exact Hu]|].
    split; [|done]. rewrite Hse. eapply calm_stored; [exact Hs|exact Hu]. }
  assert (b_session b ≠ Some (handle_save h)) as Hne by (by rewrite Hse).
  pose proof (triple_attempts others fault sha256 wipe sessions_locked sessions_kept (drift_sessions others sessions_locked) (λ c w w' E, E c) w1 c sid accountNext (handle_save h) h b
    (buildUpdates envelope sid) (builds envelope sid) eq_refl Hne anything dormant) as Ht.
  specialize (Ht (λ _ _, I) (λ _ _ _ _ _, I) (restore_first b sid (conj Hi Hse)) (λ _ _, eq_refl) (λ _ _, eq_refl)
    (λ _ _ _ _ _ _, I) (λ _ _ _ _ _ Hd, Hd) 3%nat w1 Hun).
  unfold mbind, M_bind.
  destruct (outbound_attempts others fault sha256 wipe 3 c b sid accountNext (handle_save h) (buildUpdates envelope sid) w1) as [[u|e] w2].
  - destruct Ht as [Hh (more & wb & wb' & _ & _ & _ & Hs2)]. right. by exists c, h.
  - destruct Ht as [[Hm _]|[Hm Hd]]; [by left|by right].
Qed.

Lemma triple_outbound_first :
  triple backed (encryptAndCommitOutbound others fault sha256 wipe plaintext buildUpdates (Some i)) (λ _ w, backed w) (λ _ w, backed w).
Proof.
  unfold encryptAndCommitOutbound. eapply triple_bind with (R := λ _ w, backed w); [by intros w Hw|]. intros [].
  apply calm_then; [auto with k3|exact calm_backed|done|]. intros cv. apply triple_finally.
  eapply triple_weaken with (Q' := λ _ w, backed w) (E' := λ _ w, backed w); [|keep|by intros e w Hw|by intros e w Hw].
  eapply triple_bind.
  { eapply triple_catch; [apply (triple_prepare_first cv)|]. by intros e w Hw. }
  intros r. apply triple_pure. intros (b & -> & Hb).
  eapply triple_bind; [eapply triple_weaken; [apply (triple_open_first b Hb)|keep|keep|intros e w Hw; by left]|].
  intros sid. eapply triple_catch; [by apply triple_send_first|]. intros e.
  eapply triple_weaken; [by apply triple_undo_first|keep|by intros a w []|]. intros e' w Hw. by left.
Qed.
End outbound_first.

(** ** Every operation *)
Inductive RuntimeOp :=
| op_initialize
| op_restoreOrCreateIdentity
| op_signControlEvent (payload : bytes)
| op_markPublicKeysPublished
| op_replenishOneTimeKeys (minimum : Z)
| op_restoreSession (conversation expectedSessionId : string)
| op_encrypt (channel : CryptoChannel) (plaintext : bytes)
| op_decrypt (channel : CryptoChannel) (envelope : jsval)
| op_inbound (envelope : jsval) (buildUpdates : bytes → M W (list SecureRecordUpdate))
| op_establish (conversation senderIdentityKey preKeyMessage : string) (buildUpdates : bytes → M W (list SecureRecordUpdate))
| op_outbound (plaintext : bytes) (buildUpdates : jsval → string → M W (list SecureRecordUpdate)) (init : option OutboundSessionInitialization)
| op_close.
Definition perform (op : RuntimeOp) w : W :=
  match op with
  | op_initialize => (initialize others fault loadBindings w).2
  | op_restoreOrCreateIdentity => (restoreOrCreateIdentity others fault sha256 w).2
  | op_signControlEvent p => (signControlEvent others fault sha256 p w).2
  | op_markPublicKeysPublished => (markPublicKeysPublished others fault sha256 w).2
  | op_replenishOneTimeKeys n => (replenishOneTimeKeys others fault sha256 n w).2
  | op_restoreSession c sid => (restoreSession others fault c sid w).2
  | op_encrypt ch p => (encrypt others fault ch p w).2
  | op_decrypt ch e => (decrypt others fault ch e w).2
  | op_inbound e f => (decryptAndCommitInbound others fault wipe e f w).2
  | op_establish c k m f => (establishInboundSessionAndCommit others fault sha256 wipe c k m f w).2
  | op_outbound p f i => (encryptAndCommitOutbound others fault sha256 wipe p f i w).2
  | op_close => ((close : M W unit) w).2
  end.
(** the callbacks read the storage and keep to their own state; the runtime's private error is not theirs to throw *)
Definition well_behaved (op : RuntimeOp) : Prop :=
  match op with
  | op_inbound _ f => ∀ p, quiet (f p)
  | op_establish _ _ _ f => (∀ p, quiet (f p)) ∧ ∀ p w, (f p w).1 ≠ Err retryable_conflict
  | op_outbound _ f _ => ∀ e s, quiet (f e s)
  | _ => True
  end.

Lemma triple_state {A} (m : M W A) w : triple backed m (λ _ w, backed w) (λ _ w, backed w) → backed w → backed (m w).2.
Proof. intros Hm Hw. specialize (Hm w Hw). by destruct (m w) as [[a|e] w']. Qed.

Lemma perform_backed op w : well_behaved op → backed w → backed (perform op w).
Proof.
  intros Hop. destruct op; cbn [perform]; apply triple_state.
  - apply triple_initialize.
  - apply triple_restoreOrCreate.
  - apply triple_identity. unfold identity_signControlEvent. apply always_bind; auto with k3. apply _.
  - apply triple_identity. unfold identity_markPublicKeysPublished. apply always_bind; [apply _|auto with k3|]. intros _. apply undisturbed_persist.
  - apply triple_identity. unfold identity_replenishOneTimeKeys. do 2 (apply always_bind; [apply _|auto with k3|]; intros _). apply undisturbed_persist.
  - apply triple_restoreSession.
  - apply triple_encrypt.
  - apply triple_decrypt.
  - by apply triple_inbound_backed.
  - by apply triple_establish; destruct Hop.
  - destruct init as [i|]; [by apply triple_outbound_first|by apply triple_outbound_backed].
  - apply triple_shut.
Qed.

End invariant.

Import Tally.
(** ** A run, and the fault that [recovers] excludes *)
Definition three_operations : list (RuntimeOp (St := memory) (Session := nat) (Account := nat) (C := unit)) :=
  [op_inbound (envelope_of "x") Tally.accept; op_encrypt signaling (of_codes [1]);
   op_restoreSession "room" "session"].
Definition three_run : World memory Tally.Counting :=
  foldl (λ w op, perform Tally.alone Tally.sound (λ s, s) (Some 1) Tally.untouched op w) Tally.world three_operations.
Lemma three_run_result : session (mem three_run) = Some {| handle := 2%nat; initialized := true |}.
Proof. by vm_compute. Qed.

(** A swap that is carried out but reported as failed, and a read-back that fails, put the old session back into memory while
    the storage holds the new one; the message that was committed will be sent, and the next signal is encrypted by the same
    session state, hence under the same message key. *)
Definition lost (n : nat) : Io := match n with 1 => io_unacknowledged | 2 => io_refused | _ => io_done end%nat.
Definition failed_send := encryptAndCommitOutbound Tally.alone lost (λ s, s) Tally.untouched (of_codes [104; 105]) Tally.queue None Tally.world.
Definition next_signal := encrypt Tally.alone lost signaling (of_codes [33]) failed_send.2.
Example failed_read_back_reuses_the_session :
  failed_send.1 = Err (boundary "CORRUPTED_SESSION") ∧
  read (disk failed_send.2) "outbox" "m" = Some (stringify (envelope_of (Tally.ciphertext 0 (of_codes [1; 1; 104; 105])))) ∧
  next_signal.1 = Ok (envelope_of (Tally.ciphertext 0 (of_codes [1; 2; 33]))).
Proof. by vm_compute. Qed.
