(* ===== verification/PublicBundle.v ===== *)
(** * Public key bundles and the record of a conversation's mode ([identity/vodozemacBundle.ts], [crypto/conversationMode.ts])

    What a device publishes so that others can open a session with it, and how a bundle from the relay is checked before any
    of its keys is used; and the record that names the session and the addresses of a conversation. A checked bundle is the
    JSON value it was, since the contact registry stores the text of its identity as the relay wrote it. *)
From S2P Require Import Prelude Json Base64 Storage VersionFloor ContactRegistry Vault Routing.

(* service/src/identity/vodozemacBundle.ts:4-7 VODOZEMAC_BUNDLE_VERSION, VODOZEMAC_BUNDLE_PROTOCOL, MAX_BUNDLE_BYTES, MAX_ONE_TIME_KEYS *)
Definition MAX_ONE_TIME_KEYS : nat := 100.
Definition VODOZEMAC_BUNDLE_PROTOCOL : string := "vodozemac-olm-v1".

(* service/src/identity/vodozemacBundle.ts:25-33 validKey *)
Definition validKey (value : jsval) : bool :=
  match value with
  | JStr s =>
      nonempty s && forall_chars is_base64url s &&
      match fromBase64Url s with
      | Ok decoded => (strlen decoded =? 32) && String.eqb (toBase64Url decoded) s
      | Err _ => false
      end
  | _ => false
  end.
(* service/src/identity/vodozemacBundle.ts:35-35 canonicalPublicKey *)
Definition canonicalPublicKey (value : string) : string := chars (strip_all (to_url <$> unchars value)).
Definition malformed_identity : string := "Malformed vodozemac public identity.".
(* service/src/identity/vodozemacBundle.ts:37-47 parseIdentity *)
Definition parseIdentity (value : jsval) : res fields :=
  fs ← require (as_object value) malformed_identity;
  throw_if (negb (exact_keys fs ["curve25519"; "ed25519"])) malformed_identity;;
  throw_if (negb (validKey (get fs "curve25519")) || negb (validKey (get fs "ed25519"))) malformed_identity;;
  mret fs.
Definition malformed_key : string := "Malformed vodozemac one-time key.".
(* service/src/identity/vodozemacBundle.ts:49-59 parseKey *)
Definition parseKey (value : jsval) : res fields :=
  fs ← require (as_object value) malformed_key;
  throw_if (negb (exact_keys fs ["id"; "key"])) malformed_key;;
  throw_if (match get fs "id" with JStr i => negb (base64url_between 8 128 i) | _ => true end || negb (validKey (get fs "key"))) malformed_key;;
  mret fs.

(** the checked parts of a bundle *)
(* service/src/identity/vodozemacBundle.ts:14-20 VodozemacPublicBundle *)
Record PublicBundle := { pb_identity : fields; pb_oneTimeKeys : list fields; pb_fallbackKey : option fields }.
Fixpoint parse_keys (l : list jsval) : res (list fields) :=
  match l with [] => mret [] | v :: l' => k ← parseKey v; ks ← parse_keys l'; mret (k :: ks) end.
Definition key_ids (ks : list fields) : list jsval := (λ k, get k "id") <$> ks.
(* service/src/identity/vodozemacBundle.ts:61-87 validateVodozemacPublicBundle *)
Definition validateVodozemacPublicBundle (value : jsval) : res PublicBundle :=
  throw_if (bool_decide (value = JUndef)) "TypeError";;
  bundle ← require (if 32 * 1024 <? strlen (stringify value) then None else as_object value) "Vodozemac public bundle is too large or malformed.";
  throw_if (negb (exact_keys bundle ["fallbackKey"; "identity"; "oneTimeKeys"; "protocol"; "version"]) &&
    negb (exact_keys bundle ["identity"; "oneTimeKeys"; "protocol"; "version"])) "Malformed vodozemac public bundle.";;
  keys_ ← require (if bool_decide (get bundle "version" = JNum (NInt 1)) && bool_decide (get bundle "protocol" = JStr VODOZEMAC_BUNDLE_PROTOCOL)
                   then as_array (get bundle "oneTimeKeys") else None) "Unsupported vodozemac public bundle.";
  throw_if (bool_decide (MAX_ONE_TIME_KEYS < length keys_)%nat) "Unsupported vodozemac public bundle.";;
  oneTimeKeys ← parse_keys keys_;
  throw_if (negb (bool_decide (NoDup (key_ids oneTimeKeys)))) "Duplicate vodozemac one-time key id.";;
  fallback ← (if bool_decide (get bundle "fallbackKey" = JUndef) then mret None else k ← parseKey (get bundle "fallbackKey"); mret (Some k));
  throw_if (match fallback with Some k => bool_decide (get k "id" ∈ key_ids oneTimeKeys) | None => false end)
    "Duplicate vodozemac fallback key id.";;
  identity ← parseIdentity (get bundle "identity");
  mret {| pb_identity := identity; pb_oneTimeKeys := oneTimeKeys; pb_fallbackKey := fallback |}.

(** the identity of a checked bundle, with its two keys *)
Definition field_str (fs : fields) (k : string) : string := match get fs k with JStr s => s | _ => "" end.
Definition keys_of (identity : fields) : VodozemacPublicIdentity :=
  {| curve25519 := field_str identity "curve25519"; ed25519 := field_str identity "ed25519" |}.

Section bundle.
Context (sha256 : string → string).
(* service/src/identity/vodozemacBundle.ts:89-94 keyId *)
Definition keyId (key kind : string) : string :=
  kind +:+ "-" +:+ String.substring 0 22 (toBase64Url (sha256 ("k3ncrypt:" +:+ kind +:+ ":v1" +:+ str1 0 +:+ key))).
Definition key_material (kind key : string) : jsval := JObj [("id", JStr (keyId key kind)); ("key", JStr key)].
(** [identityKeys], [oneTimeKeys] and [fallback] are what the account handle says *)
(* service/src/identity/vodozemacBundle.ts:97-114 createVodozemacPublicBundle *)
Definition createVodozemacPublicBundle (identityKeys : string) (oneTimeKeys : list string) (fallback : option string) : res PublicBundle :=
  accountIdentity ← require (parse identityKeys) "Unexpected token in JSON";
  c ← prop accountIdentity "curve25519";
  e ← prop accountIdentity "ed25519";
  c ← require (match c with JStr s => Some s | _ => None end) "TypeError";
  e ← require (match e with JStr s => Some s | _ => None end) "TypeError";
  identity ← parseIdentity (JObj [("curve25519", JStr (canonicalPublicKey c)); ("ed25519", JStr (canonicalPublicKey e))]);
  let fallback_ := match fallback with Some f => if nonempty f then Some (canonicalPublicKey f) else None | None => None end in
  validateVodozemacPublicBundle (obj [("version", Some (JNum (NInt 1))); ("protocol", Some (JStr VODOZEMAC_BUNDLE_PROTOCOL));
    ("identity", Some (JObj identity)); ("oneTimeKeys", Some (JArr ((λ k, key_material "otk" (canonicalPublicKey k)) <$> oneTimeKeys)));
    ("fallbackKey", key_material "fallback" <$> match fallback_ with Some f => if nonempty f then Some f else None | None => None end)]).
End bundle.

(** ** The mode of a conversation *)
Definition MODE_RECORD_TYPE : string := "conversation-protocol".
Definition mode_keys : list string := ["version"; "mode"; "sessionId"; "localAddress"; "remoteAddress"; "routingProof"].
(* service/src/crypto/conversationMode.ts:15-24 decodeMode *)
Definition decodeMode (b : string) : res fields :=
  let invalid := "Conversation protocol record is invalid." in
  value ← require (parse b) "Unexpected token in JSON";
  fs ← require (as_object value) invalid;
  throw_if (negb (bool_decide (get fs "version" = JNum (NInt 1))) || negb (bool_decide (get fs "mode" = JStr "modern")) ||
    negb (forallb (includes mode_keys) (keys fs)) ||
    existsb (λ k, match get fs k with JUndef => false | JStr s => 128 <? strlen s | _ => true end) ["sessionId"; "localAddress"; "remoteAddress"] ||
    match get fs "routingProof" with JUndef => false | JStr s => negb (base64url_between 43 43 s) | _ => true end) invalid;;
  mret fs.
(* service/src/crypto/conversationMode.ts:26-27 encodeMode *)
Definition encodeMode (value : fields) : string := stringify (JObj value).
(** [{ version: 1, mode: 'modern', ...current, ...update }] *)
Definition next_mode (current : option fields) (update : fields) : fields :=
  spread (spread [("version", JNum (NInt 1)); ("mode", JStr "modern")] (default [] current)) update.

Section mode.
Context `{SecureStorageLaws St} {T : Type} (others : nat → St → St) (fault : nat → Io).
Notation W := (World St T).
(* service/src/crypto/conversationMode.ts:32-36 read *)
Definition modes_read (room : string) : M W (option fields) :=
  b ← read_ others fault MODE_RECORD_TYPE room;
  match b with None => mret None | Some b => v ← lift (decodeMode b); mret (Some v) end.
(* service/src/crypto/conversationMode.ts:38-42 write *)
Definition modes_write (room : string) (update : fields) : M W unit :=
  current ← modes_read room; write_ others fault MODE_RECORD_TYPE room (encodeMode (next_mode current update)).
(* service/src/crypto/conversationMode.ts:45-50 prepareWrite *)
Definition modes_prepareWrite (room : string) (update : fields) : M W SecureRecordUpdate :=
  expected_ ← read_ others fault MODE_RECORD_TYPE room;
  current ← lift (match expected_ with None => mret None | Some b => v ← decodeMode b; mret (Some v) end);
  mret {| recordType := MODE_RECORD_TYPE; recordId := room; expected := expected_; next := encodeMode (next_mode current update) |}.
End mode.
