(* ===== verification/Outbox.v ===== *)
(** * The outbox of a conversation ([crypto/modernConversation.ts], [delivery/deliveryCoordinator.ts], [delivery/envelopeIdentity.ts])

    Messages that were encrypted and committed but not yet accepted by the recipient, one JSON array per room. A send appends
    to it in the swap that commits the advanced session; a retry submits its entries to the relay, marks them, and writes the
    whole list back; the relay's reports remove an entry or mark it rejected; an authenticated message of a newer format
    holds the entries of the older one. An entry is the JSON object it is.

    The state is [Conversation], the fields of the object, kept as the client's part of the runtime's memory ([Ratchet]).
    The contact registry and the version floor are used as one access each. Parameters: what the connection says
    ([transport]) and the relay answers ([relay]) at each moment, the clock, and the check of this device's trust. *)
From S2P Require Import Prelude Json Base64 Storage RoomMessage VersionFloor ReplayEvidence Vault ContactRegistry Ratchet.

Definition OUTBOX_RECORD : string := "modern-outbox".
Definition SESSION_RENEWAL_RECORD : string := "conversation-session-renewal".
Definition JOIN_INTRODUCTION_RECORD : string := "conversation-join-introduction".
(* service/src/crypto/modernConversation.ts:63-63 MAX_PENDING *)
Definition MAX_PENDING : nat := 32.

(** ** Envelopes *)
(* service/src/delivery/envelopeIdentity.ts:28-39 validatedOlmMessage *)
Definition validatedOlmMessage (envelope : jsval) : res string :=
  match as_object envelope with
  | None => Err "Unsupported modern message."
  | Some e =>
      throw_if (negb (bool_decide (get e "version" = JNum (NInt 2))) || negb (bool_decide (get e "strategy" = JStr VODOZEMAC_STRATEGY_ID)) ||
        negb (bool_decide (is_Some (as_object (get e "data"))))) "Unsupported modern message.";;
      let data := default [] (as_object (get e "data")) in
      match get data "olmMessage" with
      | JStr m =>
          throw_if (negb (exact_keys data ["olmMessage"; "version"]) || negb (bool_decide (get data "version" = JNum (NInt 1))) ||
            (strlen m <? 1) || (192 * 1024 <? strlen m)) "Malformed modern message.";;
          mret m
      | _ => Err "Malformed modern message."
      end
  end.
(* service/src/crypto/modernConversation.ts:336-342 firstMessage *)
Definition firstMessage (envelope : jsval) : res string :=
  prop envelope "version";;
  throw_if (negb (bool_decide (oprop envelope "version" = JNum (NInt 2))) ||
    negb (bool_decide (oprop envelope "strategy" = JStr VODOZEMAC_STRATEGY_ID)) ||
    negb (bool_decide (is_Some (as_object (oprop envelope "data"))))) "Unsupported modern message.";;
  validatedOlmMessage envelope.

(* service/src/crypto/modernConversation.ts:219-223 isSenderOriginMetadata *)
Definition isSenderOriginMetadata (value : jsval) : bool :=
  match as_object value with
  | Some item => exact_keys item ["basis"; "version"] && bool_decide (get item "version" = JNum (NInt 1)) &&
      bool_decide (get item "basis" = JStr "durable-commit")
  | None => false
  end.
(* service/src/crypto/modernConversation.ts:143-143 SENDER_ORIGIN *)
Definition SENDER_ORIGIN : jsval := JObj [("version", JNum (NInt 1)); ("basis", JStr "durable-commit")].

(* service/src/crypto/modernConversation.ts:224-229 parseList *)
Definition parseList (b : option string) : res (list jsval) :=
  match b with
  | None => mret []
  | Some b =>
      value ← require (parse b) "Unexpected token in JSON";
      require (as_array value) "Modern delivery state is invalid."
  end.

(* service/src/crypto/modernConversation.ts:114-122 parseSessionRenewal *)
Definition parseSessionRenewal (b : option string) : res (option fields) :=
  match b with
  | None => mret None
  | Some b =>
      value ← require (parse b) "Unexpected token in JSON";
      item ← require (as_object value) "Session renewal state is invalid.";
      throw_if (negb (bool_decide (get item "version" = JNum (NInt 1))) || negb (is_str (get item "previousSessionId")) ||
        negb (truthy (get item "previousSessionId")) ||
        negb (bool_decide (get item "clientId" = JUndef)) && (negb (is_str (get item "clientId")) || negb (truthy (get item "clientId"))))
        "Session renewal state is invalid.";;
      mret (Some item)
  end.

Definition optional_ (P : jsval → bool) (v : jsval) : bool := bool_decide (v = JUndef) || P v.
Definition nonempty_str (v : jsval) : bool := is_str v && truthy v.
Definition uuid_text_loose (v : jsval) : bool := match v with JStr s => uuid_loose s | _ => false end.
Definition introduction_keys : list string :=
  ["version"; "recipientAddress"; "recipientIdentityCommitment"; "envelope"; "clientId"; "senderOrigin"; "roomMessageVersion"; "invitationId";
   "state"; "relayId"; "authenticatedCapabilities"].
Definition introduction_invalid : string := "Saved join introduction is invalid.".
Definition capabilities : jsval := JArr [JStr "join-introduction-v1"; JStr "room-message-v1"].
(** A record whose envelope is not a valid one throws the error of [firstMessage]. *)
(* service/src/crypto/modernConversation.ts:387-407 parseJoinIntroductionRecord *)
Definition parseJoinIntroductionRecord (b : option string) : res (option fields) :=
  match b with
  | None => mret None
  | Some b =>
      value ← require (parse b) introduction_invalid;
      item ← require (as_object value) introduction_invalid;
      throw_if (negb (forallb (includes introduction_keys) (keys item)) || negb (bool_decide (get item "version" = JNum (NInt 1))) ||
        negb (uuid_text_loose (get item "recipientAddress")) ||
        match get item "recipientIdentityCommitment" with JStr c => (strlen c <? 8) || (128 <? strlen c) | _ => true end) introduction_invalid;;
      (if bool_decide (get item "envelope" = JUndef) then mret "" else firstMessage (get item "envelope"));;
      throw_if (negb (optional_ nonempty_str (get item "clientId")) ||
        negb (optional_ (λ v, bool_decide (v = JNum (NInt 1))) (get item "roomMessageVersion")) ||
        negb (optional_ isSenderOriginMetadata (get item "senderOrigin")) ||
        negb (optional_ uuid_text_loose (get item "invitationId")) ||
        negb (optional_ (λ v, includes ["PENDING_LOCAL"; "PENDING_REMOTE"; "ESTABLISHED"; "FAILED_OR_UNSUPPORTED"] (js_String v)) (get item "state")) ||
        negb (optional_ nonempty_str (get item "relayId")) ||
        negb (optional_ (λ v, bool_decide (v = capabilities)) (get item "authenticatedCapabilities"))) introduction_invalid;;
      mret (Some item)
  end.

(** ** Lists of entries *)
(** [list.some((item) => ...)] with a callback that may throw *)
Fixpoint some_ (P : jsval → res bool) (l : list jsval) : res bool :=
  match l with [] => mret false | x :: l' => b ← P x; if (b : bool) then mret true else some_ P l' end.
(** [{ ...value, key: v }] *)
Definition own (v : jsval) : fields :=
  match v with
  | JObj fs => fs
  | JArr l => imap (λ i x, (N_str (N.of_nat i), x)) l
  | JStr s => imap (λ i c, (N_str (N.of_nat i), JStr (String c EmptyString))) (list_ascii_of_string s)
  | _ => []
  end.
Definition with_key (v : jsval) (k : string) (x : jsval) : jsval := JObj (set_key (own v) k x).
(** a callback that reads properties of every entry throws on [null] *)
Definition entries_exist (l : list jsval) : res unit :=
  throw_if (existsb (λ v, match v with JNull | JUndef => true | _ => false end) l) "TypeError".

Definition flag (k : string) (item : jsval) : bool := truthy (oprop item k).
(** written in the older format, and neither held nor rejected *)
Definition unsafe_legacy (item : jsval) : bool :=
  negb (flag "roomMessageVersion" item) && negb (flag "heldNotSentSecurely" item) && negb (flag "terminallyRejected" item).
Definition hold_item (item : jsval) : jsval :=
  if negb (flag "roomMessageVersion" item) && negb (flag "terminallyRejected" item) then with_key item "heldNotSentSecurely" (JBool true) else item.

(** an entry [readPending] refuses *)
Definition bad_entry (item : jsval) : res bool :=
  if negb (truthy item) then mret true else
  firstMessage (oprop item "envelope");;
  mret (negb (optional_ nonempty_str (oprop item "clientId")) || negb (optional_ isSenderOriginMetadata (oprop item "senderOrigin"))).
Definition pending_of (b : option string) : res (list jsval) :=
  values ← parseList b;
  bad ← (if bool_decide (MAX_PENDING < length values)%nat then mret true else some_ bad_entry values);
  throw_if bad "Modern pending delivery state is invalid.";;
  mret values.

(** ** The state of a conversation *)
Inductive Health := healthy | unhealthy | renewal_pending.
#[export] Instance health_eq_dec : EqDecision Health.
Proof. solve_decision. Defined.
(** what an accepted delivery was reported as: [deliveryObserver(clientId, state)] *)
Record Notice := { n_client : jsval; n_state : string }.
(** an entry given to the relay, its recipient, and the version floor the connection was told to enforce *)
Record Submission := { s_item : jsval; s_recipient : option string; s_floor : Z }.
(** The variables of [receiveUnlocked] that the callback of the runtime reads and writes: the sender's identity, the replay
    evidence found before, and what is left to do after the commit - the route to adopt and the clients to report as held. *)
(* service/src/crypto/modernConversation.ts:1703-1703 senderFingerprint in receiveUnlocked *)
Record Receiving := {
  rc_fingerprint : option string; rc_seen : option string; rc_m1 : ReplayState; rc_events : ReplayState;
  rc_route : option (string * string); rc_held : list jsval }.
Definition no_evidence : ReplayState := {| items := []; rootBytes := None; pageCount := 0; lastSegmentBytes := None; legacy := false |}.
Definition not_receiving : Receiving :=
  {| rc_fingerprint := None; rc_seen := None; rc_m1 := no_evidence; rc_events := no_evidence; rc_route := None; rc_held := [] |}.
(* service/src/crypto/modernConversation.ts:410-440 ModernConversation, fields *)
Record Conversation := {
  roomId : option string; capability : option string; remoteAddress : option string; remoteIdentityCommitment : option string;
  localIdentityId : option string; localAddress : option string; trustEpoch : option Z; sessionHealth : Health;
  joinIntroductionPending : bool; earlyJoinIntroductionDeliveries : list string;
  messageVersionFloor : Z; notices : list Notice; submissions : list Submission; receiving : Receiving }.

Definition set_health (h : Health) (c : Conversation) : Conversation :=
  {| roomId := roomId c; capability := capability c; remoteAddress := remoteAddress c; remoteIdentityCommitment := remoteIdentityCommitment c;
     localIdentityId := localIdentityId c; localAddress := localAddress c; trustEpoch := trustEpoch c; sessionHealth := h;
     joinIntroductionPending := joinIntroductionPending c; earlyJoinIntroductionDeliveries := earlyJoinIntroductionDeliveries c;
     messageVersionFloor := messageVersionFloor c; notices := notices c; submissions := submissions c; receiving := receiving c |}.
Definition set_introduction (pending : bool) (early : list string) (c : Conversation) : Conversation :=
  {| roomId := roomId c; capability := capability c; remoteAddress := remoteAddress c; remoteIdentityCommitment := remoteIdentityCommitment c;
     localIdentityId := localIdentityId c; localAddress := localAddress c; trustEpoch := trustEpoch c; sessionHealth := sessionHealth c;
     joinIntroductionPending := pending; earlyJoinIntroductionDeliveries := early;
     messageVersionFloor := messageVersionFloor c; notices := notices c; submissions := submissions c; receiving := receiving c |}.
Definition set_remote (address commitment : option string) (c : Conversation) : Conversation :=
  {| roomId := roomId c; capability := capability c; remoteAddress := address; remoteIdentityCommitment := commitment;
     localIdentityId := localIdentityId c; localAddress := localAddress c; trustEpoch := trustEpoch c; sessionHealth := sessionHealth c;
     joinIntroductionPending := joinIntroductionPending c; earlyJoinIntroductionDeliveries := earlyJoinIntroductionDeliveries c;
     messageVersionFloor := messageVersionFloor c; notices := notices c; submissions := submissions c; receiving := receiving c |}.
Definition set_epoch (e : option Z) (c : Conversation) : Conversation :=
  {| roomId := roomId c; capability := capability c; remoteAddress := remoteAddress c; remoteIdentityCommitment := remoteIdentityCommitment c;
     localIdentityId := localIdentityId c; localAddress := localAddress c; trustEpoch := e; sessionHealth := sessionHealth c;
     joinIntroductionPending := joinIntroductionPending c; earlyJoinIntroductionDeliveries := earlyJoinIntroductionDeliveries c;
     messageVersionFloor := messageVersionFloor c; notices := notices c; submissions := submissions c; receiving := receiving c |}.
Definition set_floor (f : Z) (c : Conversation) : Conversation :=
  {| roomId := roomId c; capability := capability c; remoteAddress := remoteAddress c; remoteIdentityCommitment := remoteIdentityCommitment c;
     localIdentityId := localIdentityId c; localAddress := localAddress c; trustEpoch := trustEpoch c; sessionHealth := sessionHealth c;
     joinIntroductionPending := joinIntroductionPending c; earlyJoinIntroductionDeliveries := earlyJoinIntroductionDeliveries c;
     messageVersionFloor := f; notices := notices c; submissions := submissions c; receiving := receiving c |}.
Definition add_notices (l : list Notice) (c : Conversation) : Conversation :=
  {| roomId := roomId c; capability := capability c; remoteAddress := remoteAddress c; remoteIdentityCommitment := remoteIdentityCommitment c;
     localIdentityId := localIdentityId c; localAddress := localAddress c; trustEpoch := trustEpoch c; sessionHealth := sessionHealth c;
     joinIntroductionPending := joinIntroductionPending c; earlyJoinIntroductionDeliveries := earlyJoinIntroductionDeliveries c;
     messageVersionFloor := messageVersionFloor c; notices := notices c ++ l; submissions := submissions c; receiving := receiving c |}.
Definition add_submission (s : Submission) (c : Conversation) : Conversation :=
  {| roomId := roomId c; capability := capability c; remoteAddress := remoteAddress c; remoteIdentityCommitment := remoteIdentityCommitment c;
     localIdentityId := localIdentityId c; localAddress := localAddress c; trustEpoch := trustEpoch c; sessionHealth := sessionHealth c;
     joinIntroductionPending := joinIntroductionPending c; earlyJoinIntroductionDeliveries := earlyJoinIntroductionDeliveries c;
     messageVersionFloor := messageVersionFloor c; notices := notices c; submissions := submissions c ++ [s]; receiving := receiving c |}.
Definition set_receiving (r : Receiving) (c : Conversation) : Conversation :=
  {| roomId := roomId c; capability := capability c; remoteAddress := remoteAddress c; remoteIdentityCommitment := remoteIdentityCommitment c;
     localIdentityId := localIdentityId c; localAddress := localAddress c; trustEpoch := trustEpoch c; sessionHealth := sessionHealth c;
     joinIntroductionPending := joinIntroductionPending c; earlyJoinIntroductionDeliveries := earlyJoinIntroductionDeliveries c;
     messageVersionFloor := messageVersionFloor c; notices := notices c; submissions := submissions c; receiving := r |}.

(** [activeTransport()]: whether it requires, and whether the peer supports, room-message-v1 *)
Record Transport := { requiresRoomMessageV1 : bool; peerSupportsRoomMessageV1 : bool }.
Record DeliverySubmissionResult := { sent_id : option string; terminalRejection : bool }.

Section outbox.
Context {Session Account : Type} `{Olm Session Account} `{SecureStorageLaws St}.
Context (others : nat → St → St) (fault : nat → Io) (sha256 : string → string).
Context (transport : nat → option Transport) (relay : nat → jsval → option string → option DeliverySubmissionResult) (clock : nat → Z).
Notation T := (Tab (Session := Session) (Account := Account) (C := Conversation)).
Notation W := (World St T).
(** the lifecycle epoch of this device, if it is trusted at it ([deviceTrust.snapshot], [assertTrustedAt]) *)
Context (trusted_epoch : M W Z).

Notation read_ := (read_ others fault).
Notation write_ := (write_ others fault).
Notation delete_ := (delete_ others fault).
Notation swap_ := (swap_ others fault).
Definition get_ {A} (f : Conversation → A) : M W A := get_mem (λ t : T, f (client t)).
Definition update_ (f : Conversation → Conversation) : M W unit := update_mem (λ t : T, set_client (f (client t)) t).
Definition activeTransport : M W (option Transport) := gets (λ w, transport (tick w)).
Definition requires_v1 (t : option Transport) : bool := match t with Some t => requiresRoomMessageV1 t | None => false end.
Definition notify (client_ : jsval) (s : string) : M W unit := update_ (add_notices [{| n_client := client_; n_state := s |}]).

(* service/src/crypto/modernConversation.ts:2221-2234 assertCurrentDeviceTrust *)
Definition assertCurrentDeviceTrust : M W unit :=
  catch_ (epoch ← trusted_epoch;
          known ← get_ trustEpoch;
          fail_if (match known with Some k => epoch <? k | None => false end) "Device trust is stale.";;
          update_ (set_epoch (Some epoch)))
    (λ e, close;; throw e).
(** [registry.get(contactId)] *)
Definition registry_get (contactId : string) : M W (option fields) := access others fault (get_contact contactId true).
(* service/src/crypto/modernConversation.ts:1389-1391 getContact *)
Definition getContact : M W (option fields) :=
  remote ← get_ remoteAddress;
  match remote with Some r => if nonempty r then registry_get r else mret None | None => mret None end.
Definition floor_of (room identity : string) : M W Z := access others fault (λ d, (readRoomMessageVersionFloor sha256 d room identity, d)).
(** [contact?.identityId], a string in every stored contact *)
Definition identity_of (contact : option fields) : option string :=
  match contact with
  | Some c => match get c "identityId" with JStr i => if nonempty i then Some i else None | _ => None end
  | None => None
  end.
Definition contact_is (k v : string) (contact : option fields) : bool :=
  match contact with Some c => bool_decide (get c k = JStr v) | None => false end.
Definition contact_floor (room : string) (contact : option fields) : M W Z :=
  match identity_of contact with Some i => floor_of room i | None => mret 0 end.

(* service/src/crypto/modernConversation.ts:2304-2312 readPending *)
Definition readPending (room : string) : M W (list jsval) := b ← read_ OUTBOX_RECORD room; lift (pending_of b).

(** [this.roomId], when it is set *)
Definition bound : M W (option string) := get_ (λ c, match roomId c with Some r => if nonempty r then Some r else None | None => None end).
(** the entries a hold reports *)
Definition newly_held (current next : list jsval) : list Notice :=
  omap (λ item, if flag "heldNotSentSecurely" item && negb (existsb (λ prior, bool_decide (oprop prior "clientId" = oprop item "clientId") &&
                     flag "heldNotSentSecurely" prior) current) && flag "clientId" item
                then Some {| n_client := oprop item "clientId"; n_state := "held" |} else None) next.
(** attempts that are left; [current] is the list of the attempt before *)
Fixpoint hold_attempts (n : nat) (room : string) (current : list jsval) : M W (list jsval) :=
  match n with
  | O => throw "Outbox changed too often to apply the secure hold."
  | S n' =>
      lift (entries_exist current);;
      if negb (existsb unsafe_legacy current) then mret current else
      expected_ ← read_ OUTBOX_RECORD room;
      current' ← lift (parseList expected_);
      lift (entries_exist current');;
      let next_ := hold_item <$> current' in
      done ← swap_ [{| recordType := OUTBOX_RECORD; recordId := room; expected := expected_; next := asBytes (JArr next_) |}];
      if (done : bool) then update_ (add_notices (newly_held current' next_));; mret next_
      else again ← read_ OUTBOX_RECORD room; again ← lift (parseList again); hold_attempts n' room again
  end.
(* service/src/crypto/modernConversation.ts:1301-1319 holdLegacyPending *)
Definition holdLegacyPending (room : string) (pending : list jsval) : M W (list jsval) := hold_attempts 8 room pending.

(** ** Retrying *)
(** [item.relayId && item.sentAt && this.now() - item.sentAt < 5000] *)
Definition sent_recently (now : Z) (item : jsval) : bool :=
  flag "relayId" item && flag "sentAt" item && js_gt (oprop item "sentAt") (now - 5000).
Record Work := {
  skip : jsval → option Transport → bool; beforeSubmit : jsval → M W unit; persist : list jsval → M W unit;
  onTerminalRejection : jsval → M W unit }.
Definition opt_str (o : option string) : jsval := match o with Some s => JStr s | None => JUndef end.
Definition submit (item : jsval) (recipient : option string) : M W DeliverySubmissionResult :=
  f ← get_ messageVersionFloor;
  update_ (add_submission {| s_item := item; s_recipient := recipient; s_floor := f |});;
  t ← gets tick;
  require_ (relay t (oprop item "envelope") recipient) "The relay did not accept the message.".
(** one entry: [None] where the loop goes on, [Some] the list with the entry as it was changed *)
Definition retry_item (work : Work) (recipient : option string) (i : nat) (item : jsval) (pending : list jsval) : M W (list jsval) :=
  beforeSubmit work item;;
  sent ← submit item recipient;
  now ← gets (λ w, clock (tick w));
  let item' := with_key (with_key item "relayId" (opt_str (sent_id sent))) "sentAt" (JNum (NInt now)) in
  (if terminalRejection sent then onTerminalRejection work item' else mret tt);;
  let pending' := <[i := if terminalRejection sent then with_key item' "terminallyRejected" (JBool true) else item']> pending in
  persist work pending';;
  mret pending'.
(** the entries from position [i] on; an error ends the loop *)
Fixpoint retry_from (n i : nat) (work : Work) (recipient : option string) (pending : list jsval) : M W unit :=
  match n, pending !! i with
  | S n', Some item =>
      t ← activeTransport;
      now ← gets (λ w, clock (tick w));
      if skip work item t || sent_recently now item then retry_from n' (S i) work recipient pending else
      r ← catch_ (p ← retry_item work recipient i item pending; mret (Some p)) (λ _, mret None);
      match r with Some pending' => retry_from n' (S i) work recipient pending' | None => mret tt end
  | _, _ => mret tt
  end.
(* service/src/delivery/deliveryCoordinator.ts:26-43 retry *)
Definition retry (work : Work) (recipient : option string) (pending : list jsval) : M W unit :=
  retry_from (length pending) 0 work recipient pending.

(** the entry may not be sent to the contact as it is now *)
(* service/src/crypto/modernConversation.ts:1265-1270 skip in retryPending *)
Definition skip_entry (contact : option fields) (health : Health) (renewal : option fields) (item : jsval) (t : option Transport) : bool :=
  flag "terminallyRejected" item || flag "heldNotSentSecurely" item || negb (contact_is "changeStatus" "unchanged" contact) ||
  match identity_of contact with
  | None => true
  | Some i => negb (bool_decide (oprop item "recipientIdentityReference" = JStr i))
  end ||
  (bool_decide (oprop item "requiresVerifiedContact" = JBool true) && negb (contact_is "verification" "verified" contact)) ||
  (bool_decide (health = renewal_pending) &&
   negb (bool_decide (oprop item "clientId" = match renewal with Some r => get r "clientId" | None => JUndef end))) ||
  (requires_v1 t && negb (bool_decide (oprop item "roomMessageVersion" = JNum (NInt 1)))).
(* service/src/crypto/modernConversation.ts:1271-1281 beforeSubmit in retryPending *)
Definition authorize_entry (room : string) (contact : option fields) (item : jsval) : M W unit :=
  assertCurrentDeviceTrust;;
  current ← getContact;
  fail_if (negb (contact_is "changeStatus" "unchanged" current) || negb (bool_decide (is_Some (identity_of current))) ||
    negb (bool_decide (identity_of current = identity_of contact))) "Review this contact's changed identity before sending queued messages.";;
  fail_if (bool_decide (oprop item "requiresVerifiedContact" = JBool true) && negb (contact_is "verification" "verified" current))
    "Verify this contact before sending queued files.";;
  f ← contact_floor room current;
  update_ (set_floor (if 1 <=? f then 1 else 0)).
Definition stored_notices (pending : list jsval) : list Notice :=
  omap (λ item, if flag "clientId" item && flag "relayId" item && bool_decide (oprop item "roomMessageVersion" = JNum (NInt 1)) &&
                   negb (flag "terminallyRejected" item) && negb (flag "heldNotSentSecurely" item)
                then Some {| n_client := oprop item "clientId"; n_state := "stored" |} else None) pending.
(* service/src/crypto/modernConversation.ts:1282-1290 persist in retryPending *)
Definition write_pending (room : string) (pending : list jsval) : M W unit :=
  write_ OUTBOX_RECORD room (asBytes (JArr pending));; update_ (add_notices (stored_notices pending)).
Definition reject_notice (item : jsval) : M W unit :=
  if flag "clientId" item then notify (oprop item "clientId") (if flag "heldNotSentSecurely" item then "held" else "rejected") else mret tt.
(* service/src/crypto/modernConversation.ts:1250-1298 retryPending *)
Definition retryPending : M W unit :=
  health ← get_ sessionHealth;
  if bool_decide (health = unhealthy) then mret tt else
  room ← bound;
  match room with
  | None => mret tt
  | Some room =>
      pending ← readPending room;
      contact ← getContact;
      f ← contact_floor room contact;
      safe ← (if 1 <=? f then holdLegacyPending room pending else mret pending);
      health ← get_ sessionHealth;
      renewal ← (if bool_decide (health = renewal_pending) then b ← read_ SESSION_RENEWAL_RECORD room; lift (parseSessionRenewal b) else mret None);
      recipient ← get_ remoteAddress;
      finally_
        (retry {| skip := skip_entry contact health renewal; beforeSubmit := authorize_entry room contact;
                  persist := write_pending room; onTerminalRejection := reject_notice |} recipient safe)
        (with_mem (λ t, set_client (set_floor 0 (client t)) t))
  end.

(** ** What the relay reports *)
(** the early reports, of which the 32 youngest are kept *)
Definition remember_early (relayId : string) (early : list string) : list string :=
  take_last 32 (if bool_decide (relayId ∈ early) then early else early ++ [relayId]).
(* service/src/crypto/modernConversation.ts:1333-1370 acceptDelivery *)
Definition acceptDelivery (relayId : string) : M W unit :=
  room ← bound;
  match room with
  | None => mret tt
  | Some room =>
      introBytes ← read_ JOIN_INTRODUCTION_RECORD room;
      introduction ← lift (parseJoinIntroductionRecord introBytes);
      match introduction with
      | None => mret tt
      | Some intro =>
          if bool_decide (get intro "relayId" = JStr relayId) && negb (bool_decide (get intro "state" = JStr "ESTABLISHED")) then
            write_ JOIN_INTRODUCTION_RECORD room (asBytes (with_key (JObj intro) "state" (JStr "ESTABLISHED")));;
            early ← get_ earlyJoinIntroductionDeliveries;
            update_ (set_introduction false early);;
            (if truthy (get intro "clientId") then notify (get intro "clientId") "accepted" else mret tt)
          else if truthy (get intro "envelope") && truthy (get intro "clientId") && negb (truthy (get intro "relayId")) &&
               (bool_decide (get intro "state" = JStr "PENDING_LOCAL") || bool_decide (get intro "state" = JStr "PENDING_REMOTE")) then
            p ← get_ joinIntroductionPending;
            early ← get_ earlyJoinIntroductionDeliveries;
            update_ (set_introduction p (remember_early relayId early))
          else mret tt
      end;;
      pending ← readPending room;
      let accepted := js_find (λ item, bool_decide (oprop item "relayId" = JStr relayId)) pending in
      if match accepted with Some a => flag "terminallyRejected" a || flag "heldNotSentSecurely" a | None => false end then mret tt else
      let next_ := List.filter (λ item, negb (bool_decide (oprop item "relayId" = JStr relayId))) pending in
      (if bool_decide (length next_ = length pending) then mret tt else write_ OUTBOX_RECORD room (asBytes (JArr next_)));;
      b ← read_ SESSION_RENEWAL_RECORD room;
      renewal ← lift (parseSessionRenewal b);
      let client_ := match accepted with Some a => oprop a "clientId" | None => JUndef end in
      (if truthy client_ && match renewal with Some r => bool_decide (get r "clientId" = client_) | None => false end then
         delete_ SESSION_RENEWAL_RECORD room;; update_ (set_health healthy)
       else mret tt);;
      (if truthy client_ then notify client_ "accepted" else mret tt)
  end.
(* service/src/crypto/modernConversation.ts:1372-1387 rejectDelivery *)
Definition rejectDelivery (relayId : string) : M W unit :=
  room ← bound;
  match room with
  | None => mret tt
  | Some room =>
      introBytes ← read_ JOIN_INTRODUCTION_RECORD room;
      introduction ← lift (parseJoinIntroductionRecord introBytes);
      match introduction with
      | Some intro =>
          if bool_decide (get intro "relayId" = JStr relayId) && negb (bool_decide (get intro "state" = JStr "ESTABLISHED"))
          then write_ JOIN_INTRODUCTION_RECORD room (asBytes (with_key (JObj intro) "state" (JStr "FAILED_OR_UNSUPPORTED"))) else mret tt
      | None => mret tt
      end;;
      pending ← readPending room;
      match list_find (λ item, oprop item "relayId" = JStr relayId) pending with
      | None => mret tt
      | Some (i, rejected) =>
          if flag "terminallyRejected" rejected then mret tt else
          write_ OUTBOX_RECORD room (asBytes (JArr (<[i := with_key rejected "terminallyRejected" (JBool true)]> pending)));;
          reject_notice rejected
      end
  end.
(* service/src/crypto/modernConversation.ts:1321-1323 isHeldNotSentSecurely *)
Definition isHeldNotSentSecurely (room clientId : string) : M W bool :=
  pending ← readPending room;
  mret (existsb (λ item, bool_decide (oprop item "clientId" = JStr clientId) && bool_decide (oprop item "heldNotSentSecurely" = JBool true)) pending).
(* service/src/crypto/modernConversation.ts:1325-1327 heldNotSentSecurelyClientIds *)
Definition heldNotSentSecurelyClientIds (room : string) : M W (list jsval) :=
  pending ← readPending room;
  mret (omap (λ item, if flag "heldNotSentSecurely" item && flag "clientId" item then Some (oprop item "clientId") else None) pending).
(* service/src/crypto/modernConversation.ts:1329-1331 isTerminallyRejected *)
Definition isTerminallyRejected (room clientId : string) : M W bool :=
  pending ← readPending room;
  mret (existsb (λ item, bool_decide (oprop item "clientId" = JStr clientId) && bool_decide (oprop item "terminallyRejected" = JBool true)) pending).
End outbox.
