(* ===== verification/Attachments.v ===== *)
(** * Portable attachments: contexts, manifests, sealed objects ([attachments/portable*.ts])

    A byte array is a [list ascii], as in [RoomMessage]. AES-GCM is a parameter: encryption is a function of the key, the
    nonce, the additional data and the plaintext, and decryption either fails or yields a plaintext. Names are strings of
    code units up to U+00FF, so a name's UTF-8 encoding uses one or two bytes per unit; a byte sequence that encodes
    other characters is outside the model, and [utf8_string] refuses it. *)
From S2P Require Import Prelude Json Base64 RoomMessage.

(** ** Integers of a fixed width, strings *)
Definition chr_of (z : Z) : ascii := ascii_of_N (Z.to_N z).
(** the [n] big-endian bytes of a number *)
Fixpoint be_bytes (n : nat) (z : Z) : list ascii :=
  match n with O => [] | S n' => be_bytes n' (z / 256) ++ [chr_of (z mod 256)] end.
Definition be_value (l : list ascii) : Z := fold_left (λ acc c, acc * 256 + code c) l 0.
(** [DataView.getUint16], [getUint32] and [getBigUint64], a [RangeError] outside *)
Definition read_be (v : list ascii) (off n : nat) : res Z :=
  throw_if (length v <? off + n)%nat "RangeError";; mret (be_value (slice v off n)).

Definition to_lower (c : ascii) : ascii := if is_upper c then chr_of (code c + 32) else c.
Fixpoint lowercase (s : string) : string :=
  match s with EmptyString => EmptyString | String c s' => String (to_lower c) (lowercase s') end.

(** [new TextEncoder().encode(s)] *)
Definition utf8_char (c : ascii) : list ascii :=
  if code c <? 128 then [c] else [chr_of (192 + code c / 64); chr_of (128 + code c mod 64)].
Fixpoint utf8 (s : string) : list ascii :=
  match s with EmptyString => [] | String c s' => utf8_char c ++ utf8 s' end.
(** [new TextDecoder('utf-8', { fatal: true }).decode(v)] *)
Fixpoint utf8_string (v : list ascii) : res string :=
  match v with
  | [] => mret EmptyString
  | c :: v' =>
      if code c <? 128 then s ← utf8_string v'; mret (String c s)
      else match v' with
           | d :: v'' =>
               if in_range 194 195 c && in_range 128 191 d
               then s ← utf8_string v''; mret (String (chr_of ((code c - 192) * 64 + (code d - 128))) s)
               else Err "The encoded data was not valid."
           | [] => Err "The encoded data was not valid."
           end
  end.

(** ** The authenticated context ([portableContext.ts]) *)
(* service/src/attachments/portableContext.ts:1-1 AttachmentObjectType *)
Inductive AttachmentObjectType := manifest_object | chunk_object.
(* service/src/attachments/portableContext.ts:3-14 AttachmentAuthenticatedContext *)
Record AttachmentAuthenticatedContext := {
  transferId : string; conversationId : string; senderParticipantId : string; recipientParticipantId : string;
  senderIdentityReference : string; recipientIdentityReference : string; fileSize : Z; chunkSize : Z; chunkCount : Z }.
#[export] Instance context_eq_dec : EqDecision AttachmentAuthenticatedContext.
Proof. solve_decision. Defined.

Definition invalid_context : string := "Invalid attachment context.".
(* service/src/attachments/portableContext.ts:16-16 IDENTITY_REFERENCE *)
Definition identity_reference (s : string) : bool := identity_ok (str s).
(* service/src/attachments/portableContext.ts:18-23 validString *)
Definition validString (value : string) (max : Z) : res (list ascii) :=
  throw_if ((strlen value =? 0) || (max <? strlen value) || negb (forall_chars (λ c, negb (is_control c)) value)) invalid_context;;
  let encoded := utf8 value in
  throw_if ((max * 4 <? blen encoded) || negb (match utf8_string encoded with Ok s => String.eqb s value | Err _ => false end))
    invalid_context;;
  mret encoded.
(** Parsing hexadecimal digits ignores their case. *)
(* service/src/attachments/portableContext.ts:24-27 uuidBytes *)
Definition uuidBytes (value : string) : res (list ascii) :=
  throw_if (negb (uuid_strict value)) invalid_context;; mret (unhex (undash (str (lowercase value)))).
(* service/src/attachments/portableContext.ts:28-34 unsigned *)
Definition unsigned (value : Z) (width : nat) : res (list ascii) :=
  throw_if (negb (isSafeInteger value) || (value <? 0) || (2 ^ (8 * Z.of_nat width) <=? value)) invalid_context;;
  mret (be_bytes width value).
(** [Math.ceil(a / b)] *)
Definition ceil_div (a b : Z) : Z := - (- a / b).

Definition CONTEXT_DOMAIN : list ascii := str "k3ncrypt/attachment-aad/v2" ++ of_codes [0].
Definition type_code (t : AttachmentObjectType) : Z := match t with manifest_object => 1 | chunk_object => 2 end.
(* service/src/attachments/portableContext.ts:49-56 encodeAttachmentContext *)
Definition encodeAttachmentContext (t : AttachmentObjectType) (context : AttachmentAuthenticatedContext)
    (chunkIndex : option Z) : res (list ascii) :=
  throw_if (negb (uuid_strict (transferId context)) || negb (uuid_strict (conversationId context)) ||
    negb (uuid_strict (senderParticipantId context)) || negb (uuid_strict (recipientParticipantId context)) ||
    String.eqb (senderParticipantId context) (recipientParticipantId context) ||
    String.eqb (senderIdentityReference context) (recipientIdentityReference context) ||
    negb (identity_reference (senderIdentityReference context)) || negb (identity_reference (recipientIdentityReference context)) ||
    negb (isSafeInteger (fileSize context)) || (fileSize context <? 1) || (50 * 1024 * 1024 <? fileSize context) ||
    (chunkSize context <? 1) || (256 * 1024 <? chunkSize context) ||
    negb (chunkCount context =? ceil_div (fileSize context) (chunkSize context)) || (chunkCount context <? 1) ||
    (256 <? chunkCount context)) invalid_context;;
  sender ← validString (senderIdentityReference context) 512;
  recipient ← validString (recipientIdentityReference context) 512;
  index ← match t, chunkIndex with
          | manifest_object, None => mret 4294967295
          | chunk_object, Some i => throw_if (negb (isSafeInteger i) || (i <? 0) || (chunkCount context <=? i)) invalid_context;; mret i
          | _, _ => Err invalid_context
          end;
  transfer ← uuidBytes (transferId context);
  conversation ← uuidBytes (conversationId context);
  from ← uuidBytes (senderParticipantId context);
  to ← uuidBytes (recipientParticipantId context);
  sender_length ← unsigned (blen sender) 2;
  recipient_length ← unsigned (blen recipient) 2;
  size ← unsigned (fileSize context) 8;
  chunk ← unsigned (chunkSize context) 4;
  count ← unsigned (chunkCount context) 4;
  at_ ← unsigned index 4;
  mret (CONTEXT_DOMAIN ++ of_codes [2; type_code t] ++ transfer ++ conversation ++ from ++ to ++ sender_length ++ sender ++
        recipient_length ++ recipient ++ size ++ chunk ++ count ++ at_).

(** ** The manifest ([portableManifest.ts]) *)
(* service/src/attachments/portableManifest.ts:1-1 AttachmentManifestV2 *)
Record AttachmentManifestV2 := {
  m_fileSize : Z; m_chunkSize : Z; m_chunkCount : Z; createdAt : Z; expiresAt : Z; filename : string; mimeType : string }.
#[export] Instance manifest_eq_dec : EqDecision AttachmentManifestV2.
Proof. solve_decision. Defined.
Definition invalid_manifest : string := "Invalid attachment manifest.".
(* service/src/attachments/portableManifest.ts:4-7 integer *)
Definition integer (value : Z) (width : nat) : res (list ascii) :=
  throw_if (negb (isSafeInteger value) || (value <? 0) || (2 ^ (Z.of_nat width * 8) <=? value)) invalid_manifest;;
  mret (be_bytes width value).

(** [[. ]] and the characters a name may not have *)
Definition is_edge (c : ascii) : bool := (code c =? 46) || (code c =? 32).
Definition is_forbidden (c : ascii) : bool :=
  (code c <=? 31) || in_range 127 159 c || existsb (Z.eqb (code c)) [47; 92; 58; 42; 63; 34; 60; 62; 124].
Fixpoint drop_edges (l : list ascii) : list ascii :=
  match l with c :: l' => if is_edge c then drop_edges l' else l | [] => [] end.
(** [.replace(/^[. ]+|[. ]+$/g, '')] *)
Definition trim_edges (l : list ascii) : list ascii := rev (drop_edges (rev (drop_edges l))).
(** [/^(con|prn|aux|nul|com[0-9]|lpt[0-9])(?:\.|$)/i] *)
Definition is_reserved (l : list ascii) : bool :=
  let stem := take 3 (to_lower <$> l) in
  let ends (k : nat) := match l !! k with Some c => code c =? 46 | None => true end in
  (existsb (λ s, bool_decide (stem = str s)) ["con"; "prn"; "aux"; "nul"] && ends 3%nat) ||
  (existsb (λ s, bool_decide (stem = str s)) ["com"; "lpt"] &&
   match l !! 3%nat with Some c => is_digit c | None => false end && ends 4%nat).
(* service/src/attachments/portableManifest.ts:8-12 safeName *)
Definition safeName (value : string) : res string :=
  throw_if (512 <? strlen value) "Invalid attachment filename.";;
  let result := take 120 (trim_edges ((λ c, if is_forbidden c then "_"%char else c) <$> unchars value)) in
  mret (if match result with [] => true | _ => false end || is_reserved result then "protected-file" else chars result).

Definition is_mime_char (c : ascii) : bool :=
  is_digit c || is_upper c || is_lower c || existsb (Z.eqb (code c)) [33; 35; 36; 38; 94; 95; 46; 43; 45].
(** [/^[a-z0-9!#$&^_.+-]+\/[a-z0-9!#$&^_.+-]+$/i]: a slash is not in the class, so it occurs exactly once. *)
Fixpoint mime_tail (seen_slash : bool) (run : nat) (l : list ascii) : bool :=
  match l with
  | [] => seen_slash && negb (run =? 0)%nat
  | c :: l' =>
      if is_mime_char c then mime_tail seen_slash (S run) l'
      else (code c =? 47) && negb seen_slash && negb (run =? 0)%nat && mime_tail true 0 l'
  end.
(* service/src/attachments/portableManifest.ts:13-13 mime *)
Definition mime (value : string) : string :=
  if (strlen value <=? 127) && mime_tail false 0 (unchars value) then lowercase value else "application/octet-stream".

Definition MANIFEST_DOMAIN : list ascii := str "k3ncrypt/manifest/v2" ++ of_codes [0].
Definition WEEK : Z := 7 * 24 * 60 * 60 * 1000.
(* service/src/attachments/portableManifest.ts:15-20 encodeAttachmentManifest *)
Definition encodeAttachmentManifest (value : AttachmentManifestV2) : res (list ascii) :=
  throw_if (negb (isSafeInteger (m_fileSize value)) || (m_fileSize value <? 1) || (50 * 1024 * 1024 <? m_fileSize value) ||
    negb (isSafeInteger (m_chunkSize value)) || (m_chunkSize value <? 1) || (256 * 1024 <? m_chunkSize value) ||
    negb (isSafeInteger (m_chunkCount value)) || (m_chunkCount value <? 1) ||
    negb (m_chunkCount value =? ceil_div (m_fileSize value) (m_chunkSize value)) || (256 <? m_chunkCount value) ||
    negb (isSafeInteger (createdAt value)) || (createdAt value <? 0) || negb (isSafeInteger (expiresAt value)) ||
    (expiresAt value <=? createdAt value) || (WEEK <? expiresAt value - createdAt value)) invalid_manifest;;
  safe ← safeName (filename value);
  let name := utf8 safe in
  let contentType := utf8 (mime (mimeType value)) in
  throw_if ((1024 <? blen name) || (127 <? blen contentType)) invalid_manifest;;
  size ← integer (m_fileSize value) 8; chunk ← integer (m_chunkSize value) 4; count ← integer (m_chunkCount value) 4;
  created ← integer (createdAt value) 8; expires ← integer (expiresAt value) 8;
  name_length ← integer (blen name) 2; type_length ← integer (blen contentType) 2;
  mret (MANIFEST_DOMAIN ++ size ++ chunk ++ count ++ created ++ expires ++ name_length ++ name ++ type_length ++ contentType).

(** [take(max)]: a field with its length before it, and the offset after it. *)
Definition take_field (input : list ascii) (at_ : nat) (max : Z) : res (list ascii * nat) :=
  throw_if (length input <? at_ + 2)%nat invalid_manifest;;
  len ← read_be input at_ 2;
  throw_if ((max <? len) || (length input <? at_ + 2 + Z.to_nat len)%nat) invalid_manifest;;
  mret (slice input (at_ + 2) (Z.to_nat len), (at_ + 2 + Z.to_nat len)%nat).
Definition u64 (input : list ascii) (at_ : nat) : res Z :=
  result ← read_be input at_ 8; throw_if (MAX_SAFE_INTEGER <? result) invalid_manifest;; mret result.
(** [a.some((value, index) => value !== bytes[index])] *)
Definition some_differs (a input : list ascii) : bool := negb (bool_decide (take (length a) input = a)).
(* service/src/attachments/portableManifest.ts:21-33 decodeAttachmentManifest *)
Definition decodeAttachmentManifest (input : list ascii) : res AttachmentManifestV2 :=
  let at0 := length MANIFEST_DOMAIN in
  throw_if ((length input <? at0 + 36)%nat || negb (bool_decide (take at0 input = MANIFEST_DOMAIN))) invalid_manifest;;
  fileSize ← u64 input at0;
  chunkSize ← read_be input (at0 + 8) 4;
  chunkCount ← read_be input (at0 + 12) 4;
  createdAt ← u64 input (at0 + 16);
  expiresAt ← u64 input (at0 + 24);
  '(name, at1) ← take_field input (at0 + 32) 1024;
  filename ← utf8_string name;
  '(type_, at2) ← take_field input at1 127;
  mimeType ← utf8_string type_;
  throw_if (negb (at2 =? length input)%nat) invalid_manifest;;
  let manifest := {| m_fileSize := fileSize; m_chunkSize := chunkSize; m_chunkCount := chunkCount; createdAt := createdAt;
                     expiresAt := expiresAt; filename := filename; mimeType := mimeType |} in
  again ← encodeAttachmentManifest manifest;
  throw_if (some_differs again input) invalid_manifest;;
  mret manifest.

(** ** Sealed objects ([portableAead.ts]) *)
(* service/src/attachments/portableAead.ts:5-5 AttachmentCiphertext *)
Record AttachmentCiphertext := { nonce : list ascii; ciphertext : list ascii }.
Definition auth_failed : string := "Attachment authentication failed.".

Section aead.
(** AES-GCM with a 128-bit tag *)
Context (encrypt : list ascii → list ascii → list ascii → list ascii → list ascii)
  (decrypt : list ascii → list ascii → list ascii → list ascii → option (list ascii)).

(* service/src/attachments/portableAead.ts:15-18 importKey *)
Definition importKey (key : list ascii) : res (list ascii) :=
  throw_if (negb (length key =? 32)%nat) "Invalid attachment key.";; mret key.
(* service/src/attachments/portableAead.ts:20-24 sealAttachmentObject *)
Definition sealAttachmentObject (random : list ascii) (key : list ascii) (t : AttachmentObjectType)
    (context : AttachmentAuthenticatedContext) (i : option Z) (plaintext : list ascii) : res AttachmentCiphertext :=
  aad ← encodeAttachmentContext t context i;
  k ← importKey key;
  mret {| nonce := random; ciphertext := encrypt k random aad plaintext |}.
(* service/src/attachments/portableAead.ts:25-31 openAttachmentObject *)
Definition openAttachmentObject (key : list ascii) (t : AttachmentObjectType) (context : AttachmentAuthenticatedContext)
    (i : option Z) (sealed : AttachmentCiphertext) : res (list ascii) :=
  throw_if (negb (length (nonce sealed) =? 12)%nat || (length (ciphertext sealed) <? 16)%nat) auth_failed;;
  rethrow (aad ← encodeAttachmentContext t context i;
           k ← importKey key;
           require (decrypt k (nonce sealed) aad (ciphertext sealed)) "OperationError") auth_failed.
Definition same_geometry (m : AttachmentManifestV2) (c : AttachmentAuthenticatedContext) : bool :=
  (m_fileSize m =? fileSize c) && (m_chunkSize m =? chunkSize c) && (m_chunkCount m =? chunkCount c).
(* service/src/attachments/portableAead.ts:33-36 sealAttachmentManifest *)
Definition sealAttachmentManifest (random key : list ascii) (context : AttachmentAuthenticatedContext)
    (manifest : AttachmentManifestV2) : res AttachmentCiphertext :=
  throw_if (negb (same_geometry manifest context)) "Attachment manifest/context mismatch.";;
  plaintext ← encodeAttachmentManifest manifest;
  sealAttachmentObject random key manifest_object context None plaintext.
(* service/src/attachments/portableAead.ts:37-41 openAttachmentManifest *)
Definition openAttachmentManifest (key : list ascii) (context : AttachmentAuthenticatedContext) (sealed : AttachmentCiphertext)
    : res AttachmentManifestV2 :=
  plaintext ← openAttachmentObject key manifest_object context None sealed;
  manifest ← decodeAttachmentManifest plaintext;
  throw_if (negb (same_geometry manifest context)) "Attachment manifest/context mismatch.";;
  mret manifest.
(* service/src/attachments/portableAead.ts:42-45 expectedChunkLength *)
Definition expectedChunkLength (context : AttachmentAuthenticatedContext) (i : Z) : res Z :=
  throw_if (negb (isSafeInteger i) || (i <? 0) || (chunkCount context <=? i)) invalid_context;;
  mret (Z.min (chunkSize context) (fileSize context - i * chunkSize context)).
(* service/src/attachments/portableAead.ts:46-49 sealAttachmentChunk *)
Definition sealAttachmentChunk (random key : list ascii) (context : AttachmentAuthenticatedContext) (i : Z)
    (plaintext : list ascii) : res AttachmentCiphertext :=
  expected ← expectedChunkLength context i;
  throw_if (negb (blen plaintext =? expected)) "Attachment chunk length mismatch.";;
  sealAttachmentObject random key chunk_object context (Some i) plaintext.
(* service/src/attachments/portableAead.ts:50-54 openAttachmentChunk *)
Definition openAttachmentChunk (key : list ascii) (context : AttachmentAuthenticatedContext) (i : Z)
    (sealed : AttachmentCiphertext) : res (list ascii) :=
  plaintext ← openAttachmentObject key chunk_object context (Some i) sealed;
  expected ← expectedChunkLength context i;
  throw_if (negb (blen plaintext =? expected)) "Attachment chunk length mismatch.";;
  mret plaintext.
End aead.

(** ** Numbers and strings as bytes *)
Lemma code_chr_of z : 0 <= z < 256 → code (chr_of z) = z.
Proof. apply code_of_code. Qed.

Lemma be_bytes_length n z : length (be_bytes n z) = n.
Proof. revert z. induction n as [|n IH]; intros z; simpl; [done|]. rewrite length_app, IH. simpl. lia. Qed.

Lemma be_value_app a c : be_value (a ++ [c]) = be_value a * 256 + code c.
Proof. unfold be_value. by rewrite fold_left_app. Qed.

Lemma be_value_bytes n z : 0 <= z < 2 ^ (8 * Z.of_nat n) → be_value (be_bytes n z) = z.
Proof.
  revert z. induction n as [|n IH]; intros z Hz; [change (2 ^ (8 * Z.of_nat 0)) with 1 in Hz; simpl; cbn; lia|].
  cbn [be_bytes]. replace (2 ^ (8 * Z.of_nat (S n))) with (2 ^ (8 * Z.of_nat n) * 256) in Hz.
  2: { change 256 with (2 ^ 8). rewrite <-Z.pow_add_r by lia. f_equal. lia. }
  rewrite be_value_app, code_chr_of by (apply Z.mod_pos_bound; lia).
  rewrite IH; [rewrite Z.mul_comm; symmetry; apply Z.div_mod; lia|].
  split; [apply Z.div_pos; lia|apply Z.div_lt_upper_bound; lia].
Qed.

Lemma read_be_at v off n z : at_ v off (be_bytes n z) → 0 <= z < 2 ^ (8 * Z.of_nat n) → read_be v off n = Ok z.
Proof.
  intros (a & c & -> & <-) Hz. unfold read_be.
  rewrite throw_if_false by (apply Nat.ltb_ge; rewrite !length_app, be_bytes_length; lia). cbn [mbind res_bind].
  rewrite slice_app; [|done|apply be_bytes_length]. by rewrite be_value_bytes.
Qed.

Lemma utf8_string_utf8 s rest : utf8_string (utf8 s ++ rest) = (t ← utf8_string rest; mret (s +:+ t)).
Proof.
  induction s as [|c s IH]; [simpl; by destruct (utf8_string rest)|].
  pose proof (code_bounds c) as Hc. cbn [utf8]. rewrite <-app_assoc. unfold utf8_char.
  destruct (Z.ltb_spec (code c) 128) as [Hlt|Hge]; cbn [app utf8_string].
  - rewrite (proj2 (Z.ltb_lt _ _) Hlt), IH. by destruct (utf8_string rest).
  - assert (code c / 64 = 2 ∨ code c / 64 = 3) as Hq by (Z.to_euclidean_division_equations; lia).
    assert (0 <= code c mod 64 < 64) as Hm by (apply Z.mod_pos_bound; lia).
    rewrite !code_chr_of by lia. rewrite (proj2 (Z.ltb_ge _ _)) by lia.
    unfold in_range. rewrite !code_chr_of by lia.
    rewrite !(proj2 (Z.leb_le _ _)) by lia. cbn [andb]. rewrite IH.
    replace ((192 + code c / 64 - 192) * 64 + (128 + code c mod 64 - 128)) with (code c)
      by (pose proof (Z.div_mod (code c) 64); lia).
    unfold chr_of at 1. rewrite of_code_code. by destruct (utf8_string rest).
Qed.

Lemma utf8_roundtrip s : utf8_string (utf8 s) = Ok s.
Proof.
  rewrite <-(app_nil_r (utf8 s)), utf8_string_utf8. cbn. f_equal. apply sapp_nil_r.
Qed.

Lemma utf8_ascii_str s : forallb (in_range 0 127) (str s) = true → utf8 s = str s.
Proof.
  unfold str. induction s as [|c s IH]; [done|]. cbn. intros [Hc Hs]%andb_true_iff. rewrite IH by done.
  unfold utf8_char. unfold in_range in Hc. rewrite (proj2 (Z.ltb_lt _ _)) by lia. done.
Qed.

Lemma str_inj s t : str s = str t → s = t.
Proof.
  intros H. rewrite <-(string_of_list_ascii_of_string s), <-(string_of_list_ascii_of_string t). unfold str in H. by rewrite H.
Qed.

(** ** Contexts *)
Definition template_lower (t c : ascii) : Prop :=
  template_char t c = true → Ascii.eqb t dash = false → is_hex_lower (to_lower c) = true.

Lemma hex_to_lower c : is_hex c = true → is_hex_lower (to_lower c) = true.
Proof.
  unfold is_hex, is_hex_lower, to_lower, is_upper, is_digit, in_range. intros H.
  pose proof (code_bounds c). destruct (Z.leb_spec 65 (code c)), (Z.leb_spec (code c) 90); cbn [andb] in *;
    rewrite ?code_chr_of by lia; bool_prop; lia.
Qed.

Lemma template_hex t c : In t (str "xvy") → template_char t c = true → is_hex_lower (to_lower c) = true.
Proof.
  intros Ht H. apply hex_to_lower. cbn in Ht. unfold is_hex, is_hex_lower, is_digit, in_range. destruct Ht as [<-|[<-|[<-|[]]]].
  - done.
  - change (in_range 49 56 c = true) in H. unfold in_range in H. bool_prop. lia.
  - change (in_range 56 57 c || existsb (Z.eqb (code c)) [97; 98; 65; 66] = true) in H. unfold in_range in H. cbn [existsb] in H.
    bool_prop. lia.
Qed.

Lemma template_dash c : template_char dash c = true → to_lower c = dash.
Proof. cbn -[Ascii.eqb]. intros H. apply Ascii.eqb_eq in H as <-. done. Qed.

Lemma template_length t v : matches_template t v = true → String.length v = String.length t.
Proof.
  revert v. induction t as [|a t IH]; intros [|c v]; simpl; try done.
  intros [_ H]%andb_true_iff. by rewrite (IH v).
Qed.

Lemma uuid_strict_ok v : uuid_strict v = true → uuid_ok (str (lowercase v)) = true.
Proof.
  unfold uuid_strict. intros H. pose proof (template_length _ _ H) as Hl.
  do 36 (destruct v as [|? v]; [discriminate Hl|]). destruct v; [|discriminate Hl]. clear Hl.
  cbn -[template_char to_lower] in H. unfold uuid_ok. cbn -[is_hex_lower Ascii.eqb dash to_lower].
  repeat (apply andb_true_iff in H; let Hc := fresh "Hc" in destruct H as [Hc H]).
  repeat (apply andb_true_iff; split); try done;
    first [ match goal with |- is_hex_lower (to_lower ?c) = true =>
              match goal with Hc : template_char _ c = true |- _ => refine (template_hex _ c _ Hc); cbn; tauto end end
          | match goal with |- Ascii.eqb dash (to_lower ?c) = true =>
              match goal with Hc : template_char _ c = true |- _ => rewrite (template_dash c Hc); apply Ascii.eqb_refl end end ].
Qed.

Lemma uuidBytes_ok v b : uuidBytes v = Ok b → length b = 16%nat ∧ str (lowercase v) = uuid_text b.
Proof.
  unfold uuidBytes. intros H. res_inv H. guard_inv H0. apply uuid_strict_ok in H0.
  assert (roomUuidBytes (str (lowercase v)) = Ok b) as Hb.
  { unfold roomUuidBytes, exactUuid. rewrite H0. cbn. by rewrite H. }
  by apply roomUuidBytes_ok in Hb as (_ & ? & ?).
Qed.

Lemma uuidBytes_inj v w b : uuidBytes v = Ok b → uuidBytes w = Ok b → lowercase v = lowercase w.
Proof. intros [_ Hv]%uuidBytes_ok [_ Hw]%uuidBytes_ok. apply str_inj. congruence. Qed.

Lemma unsigned_ok z n b : unsigned z n = Ok b → 0 <= z < 2 ^ (8 * Z.of_nat n) ∧ b = be_bytes n z.
Proof. unfold unsigned. intros H. res_inv H. guard_inv H0. split; [|done]. lia. Qed.

Lemma be_bytes_inj n x y :
  0 <= x < 2 ^ (8 * Z.of_nat n) → 0 <= y < 2 ^ (8 * Z.of_nat n) → be_bytes n x = be_bytes n y → x = y.
Proof. intros Hx Hy H. by rewrite <-(be_value_bytes n x), <-(be_value_bytes n y), H. Qed.

Lemma reference_ok s v : identity_reference s = true → validString s 512 = Ok v → v = str s ∧ length v = 56%nat.
Proof.
  unfold identity_reference. intros (Hl & Ha & _)%identity_ok_spec H. unfold validString in H. res_inv H.
  subst v. by rewrite utf8_ascii_str.
Qed.

(** The number a context carries for its object: the chunk's index, or all ones for the manifest. *)
Definition index_code (i : option Z) : Z := default 4294967295 i.

Record context_frame (t : AttachmentObjectType) (c : AttachmentAuthenticatedContext) (i : option Z) (b : list ascii) : Prop := {
  cf_split : ∃ u1 u2 u3 u4, b = CONTEXT_DOMAIN ++ of_codes [2; type_code t] ++ u1 ++ u2 ++ u3 ++ u4 ++
      be_bytes 2 56 ++ str (senderIdentityReference c) ++ be_bytes 2 56 ++ str (recipientIdentityReference c) ++
      be_bytes 8 (fileSize c) ++ be_bytes 4 (chunkSize c) ++ be_bytes 4 (chunkCount c) ++ be_bytes 4 (index_code i) ∧
      uuidBytes (transferId c) = Ok u1 ∧ uuidBytes (conversationId c) = Ok u2 ∧
      uuidBytes (senderParticipantId c) = Ok u3 ∧ uuidBytes (recipientParticipantId c) = Ok u4;
  cf_sender : length (str (senderIdentityReference c)) = 56%nat;
  cf_recipient : length (str (recipientIdentityReference c)) = 56%nat;
  cf_size : 0 <= fileSize c < 2 ^ 64;
  cf_chunk : 0 <= chunkSize c < 2 ^ 32;
  cf_count : 0 <= chunkCount c < 2 ^ 32;
  cf_index : 0 <= index_code i < 2 ^ 32;
  cf_type : match t, i with manifest_object, None => True | chunk_object, Some j => 0 <= j < chunkCount c | _, _ => False end;
  cf_geometry : 1 <= fileSize c ∧ 1 <= chunkSize c <= 262144 ∧ chunkCount c = ceil_div (fileSize c) (chunkSize c) ∧ 1 <= chunkCount c <= 256 }.

Lemma encode_context_frame t c i b : encodeAttachmentContext t c i = Ok b → context_frame t c i b.
Proof.
  unfold encodeAttachmentContext. intros H. apply bind_ok in H as (u & Hg & H). guard_inv Hg.
  apply bind_ok in H as (sv & Hs & H). apply bind_ok in H as (rv & Hr & H).
  destruct Hg as [[[[[[[[[[[[[[[_ _] _] _] _] _] Rs] Rr] _] Hf] _] Hc1] Hc2] Hn] Hn1] Hn2].
  apply reference_ok in Hs as [-> Ls]; [|done]. apply reference_ok in Hr as [-> Lr]; [|done].
  apply bind_ok in H as (ix & Hi & H).
  apply bind_ok in H as (u1 & H1 & H). apply bind_ok in H as (u2 & H2 & H).
  apply bind_ok in H as (u3 & H3 & H). apply bind_ok in H as (u4 & H4 & H).
  apply bind_ok in H as (l1 & E1 & H). apply bind_ok in H as (l2 & E2 & H).
  apply bind_ok in H as (v1 & N1 & H). apply bind_ok in H as (v2 & N2 & H).
  apply bind_ok in H as (v3 & N3 & H). apply bind_ok in H as (v4 & N4 & H). apply Ok_inj in H.
  apply unsigned_ok in E1 as [_ ->], E2 as [_ ->], N1 as [? ->], N2 as [? ->], N3 as [? ->], N4 as [? ->].
  unfold blen in H. rewrite Ls, Lr in H.
  assert (ix = index_code i ∧ match t, i with manifest_object, None => True | chunk_object, Some j => 0 <= j < chunkCount c | _, _ => False end)
    as [-> Ht].
  { destruct t, i as [j|]; try discriminate Hi; [by injection Hi as <-|]. res_inv Hi. guard_inv Hi0. subst ix. simpl. split; [done|lia]. }
  constructor; try done; [|lia]. by exists u1, u2, u3, u4.
Qed.

(** Two contexts that name the same objects: the letter case of a UUID does not matter. *)
Definition same_context (c d : AttachmentAuthenticatedContext) : Prop :=
  lowercase (transferId c) = lowercase (transferId d) ∧ lowercase (conversationId c) = lowercase (conversationId d) ∧
  lowercase (senderParticipantId c) = lowercase (senderParticipantId d) ∧
  lowercase (recipientParticipantId c) = lowercase (recipientParticipantId d) ∧
  senderIdentityReference c = senderIdentityReference d ∧ recipientIdentityReference c = recipientIdentityReference d ∧
  fileSize c = fileSize d ∧ chunkSize c = chunkSize d ∧ chunkCount c = chunkCount d.

(** The additional data of an object determines its type, its index and its context. *)
Lemma encode_context_inj t c i t' c' i' b :
  encodeAttachmentContext t c i = Ok b → encodeAttachmentContext t' c' i' = Ok b → t = t' ∧ i = i' ∧ same_context c c'.
Proof.
  intros [(u1 & u2 & u3 & u4 & -> & H1 & H2 & H3 & H4) S1 R1 F1 K1 N1 I1 T1 _]%encode_context_frame
    [(w1 & w2 & w3 & w4 & E & G1 & G2 & G3 & G4) S2 R2 F2 K2 N2 I2 T2 _]%encode_context_frame.
  pose proof (proj1 (uuidBytes_ok _ _ H1)). pose proof (proj1 (uuidBytes_ok _ _ H2)).
  pose proof (proj1 (uuidBytes_ok _ _ H3)). pose proof (proj1 (uuidBytes_ok _ _ H4)).
  pose proof (proj1 (uuidBytes_ok _ _ G1)). pose proof (proj1 (uuidBytes_ok _ _ G2)).
  pose proof (proj1 (uuidBytes_ok _ _ G3)). pose proof (proj1 (uuidBytes_ok _ _ G4)).
  apply app_inv_head in E. apply app_inj_1 in E as [Et E]; [|done].
  do 4 (apply app_inj_1 in E as [? E]; [|congruence]). apply app_inv_head in E.
  apply app_inj_1 in E as [Es E]; [|congruence]. apply app_inv_head in E.
  apply app_inj_1 in E as [Er E]; [|congruence].
  do 3 (apply app_inj_1 in E as [? E]; [|by rewrite !be_bytes_length]). apply be_bytes_inj in E; [|done..].
  repeat match goal with Hb : be_bytes _ _ = be_bytes _ _ |- _ => apply be_bytes_inj in Hb; [|done..] end. subst.
  assert (t = t') as <- by (by destruct t, t').
  split_and!; [done| |].
  - destruct t, i as [i|], i' as [i'|]; try done. simpl in E. by subst.
  - unfold same_context. split_and!; try done; try (by eapply uuidBytes_inj); by apply str_inj.
Qed.

(** ** Sealed objects *)
Section sealed.
Context (encrypt : list ascii → list ascii → list ascii → list ascii → list ascii)
  (decrypt : list ascii → list ascii → list ascii → list ascii → option (list ascii))
  (gcm_opens : ∀ k n a p, decrypt k n a (encrypt k n a p) = Some p)
  (gcm_binds : ∀ k n a a' p q, decrypt k n a' (encrypt k n a p) = Some q → a' = a)
  (gcm_tag : ∀ k n a p, (16 ≤ length (encrypt k n a p))%nat).

Lemma seal_object_ok random key t c i p s :
  sealAttachmentObject encrypt random key t c i p = Ok s →
  ∃ aad, encodeAttachmentContext t c i = Ok aad ∧ length key = 32%nat ∧ s = {| nonce := random; ciphertext := encrypt key random aad p |}.
Proof.
  unfold sealAttachmentObject, importKey. intros H. res_inv H. subst. exists x. split_and!; try done.
  by apply negb_false_iff, Nat.eqb_eq in H2.
Qed.

Lemma open_object_ok key t c i s p :
  openAttachmentObject decrypt key t c i s = Ok p →
  ∃ aad, encodeAttachmentContext t c i = Ok aad ∧ decrypt key (nonce s) aad (ciphertext s) = Some p.
Proof.
  unfold openAttachmentObject, importKey. intros H. apply bind_ok in H as (_ & _ & H). apply rethrow_ok in H.
  apply bind_ok in H as (aad & Ha & H). apply bind_ok in H as (k & Hk & H). res_inv Hk. apply require_ok in H. subst. by exists aad.
Qed.

Lemma open_sealed random key t c i p s :
  length random = 12%nat → sealAttachmentObject encrypt random key t c i p = Ok s → openAttachmentObject decrypt key t c i s = Ok p.
Proof.
  intros Hn (aad & Ha & Hk & ->)%seal_object_ok. unfold openAttachmentObject, importKey. cbn [nonce ciphertext].
  rewrite Hn, Hk, Ha. rewrite (proj2 (Nat.ltb_ge _ _)) by apply gcm_tag. cbn. by rewrite gcm_opens.
Qed.

Lemma open_sealed_bound random key t c i p s t' c' i' q :
  sealAttachmentObject encrypt random key t c i p = Ok s → openAttachmentObject decrypt key t' c' i' s = Ok q →
  t' = t ∧ i' = i ∧ same_context c' c ∧ q = p.
Proof.
  intros (aad & Ha & _ & ->)%seal_object_ok (aad' & Ha' & Hq)%open_object_ok. cbn [nonce ciphertext] in Hq.
  pose proof (gcm_binds _ _ _ _ _ _ Hq) as ->. rewrite gcm_opens in Hq. injection Hq as <-.
  destruct (encode_context_inj _ _ _ _ _ _ _ Ha' Ha) as (-> & -> & Hc). done.
Qed.

(** a sealed chunk opens, under its key, in its own context and at its own index to exactly the plaintext that was
    sealed, and nowhere else: whatever context and index a receiver tries, a chunk that opens is the chunk of that very
    transfer, conversation, pair of participants and identities, geometry and index, and no chunk opens as a manifest.
    The relay can therefore not reorder chunks, move them between transfers or readdress them. *)
Theorem sealed_chunk_bound_to_its_place random key c i p s :
  length random = 12%nat → sealAttachmentChunk encrypt random key c i p = Ok s →
  openAttachmentChunk decrypt key c i s = Ok p ∧
  (∀ c' j q, openAttachmentChunk decrypt key c' j s = Ok q → j = i ∧ same_context c' c ∧ q = p) ∧
  (∀ c' m, openAttachmentManifest decrypt key c' s ≠ Ok m).
Proof.
  unfold sealAttachmentChunk. intros Hn H. apply bind_ok in H as (n & He & H). apply bind_ok in H as ([] & Hl & H).
  split_and!.
  - unfold openAttachmentChunk. rewrite (open_sealed _ _ _ _ _ _ _ Hn H). cbn [mbind res_bind]. rewrite He. cbn [mbind res_bind].
    by rewrite Hl.
  - unfold openAttachmentChunk. intros c' j q Ho. apply bind_ok in Ho as (q' & Ho & Ho').
    destruct (open_sealed_bound _ _ _ _ _ _ _ _ _ _ _ H Ho) as (_ & [= ->] & Hc & ->).
    apply bind_ok in Ho' as (n' & _ & Ho'). apply bind_ok in Ho' as (_ & _ & Ho'). by injection Ho' as ->.
  - unfold openAttachmentManifest. intros c' m Ho. apply bind_ok in Ho as (q & Ho & _).
    by destruct (open_sealed_bound _ _ _ _ _ _ _ _ _ _ _ H Ho).
Qed.
End sealed.

(** ** Manifests *)
Lemma unchars_length s : length (unchars s) = String.length s.
Proof. induction s; simpl; congruence. Qed.
Lemma chars_length l : String.length (chars l) = length l.
Proof. induction l; simpl; congruence. Qed.
Lemma chars_unchars s : chars (unchars s) = s.
Proof. induction s; simpl; congruence. Qed.

(** [safeName] changes no name it has produced, unless it cut it right after a dot or a space. *)
Definition ends_cleanly (n : string) : bool := match last (unchars n) with Some c => negb (is_edge c) | None => false end.

Lemma drop_edges_suffix l : ∃ p, l = p ++ drop_edges l.
Proof.
  induction l as [|c l [p IH]]; simpl; [by exists []|]. destruct (is_edge c); [|by exists []].
  exists (c :: p). simpl. by f_equal.
Qed.
Lemma drop_edges_head l c : head (drop_edges l) = Some c → is_edge c = false.
Proof. induction l as [|d l IH]; simpl; [done|]. destruct (is_edge d) eqn:E; [done|]. by intros [= ->]. Qed.
Lemma drop_edges_id l : (∀ c, head l = Some c → is_edge c = false) → drop_edges l = l.
Proof. destruct l as [|c l]; simpl; [done|]. intros H. by rewrite (H c). Qed.

Lemma last_rev {A} (l : list A) : last (rev l) = head l.
Proof. destruct l as [|x l]; [done|]. simpl. apply last_snoc. Qed.
Lemma head_rev {A} (l : list A) : head (rev l) = last l.
Proof. rewrite <-(rev_involutive l) at 2. by rewrite last_rev. Qed.

Lemma trim_edges_spec l :
  (∀ c, head (trim_edges l) = Some c → is_edge c = false) ∧ (∀ c, last (trim_edges l) = Some c → is_edge c = false) ∧
  (∀ c, c ∈ trim_edges l → c ∈ l).
Proof.
  unfold trim_edges. destruct (drop_edges_suffix (rev (drop_edges l))) as [p Hp].
  assert (drop_edges l = rev (drop_edges (rev (drop_edges l))) ++ rev p) as Hl.
  { rewrite <-rev_app_distr, <-Hp. by rewrite rev_involutive. }
  split_and!.
  - intros c Hc. apply (drop_edges_head l). rewrite Hl. by destruct (rev (drop_edges (rev (drop_edges l)))).
  - intros c. rewrite last_rev. apply drop_edges_head.
  - intros c Hc. destruct (drop_edges_suffix l) as [q Hq]. rewrite Hq. apply elem_of_app. right. rewrite Hl. apply elem_of_app. by left.
Qed.

Definition clean (c : ascii) : ascii := if is_forbidden c then "_"%char else c.
Lemma clean_allowed (l : list ascii) c : c ∈ clean <$> l → is_forbidden c = false.
Proof. intros (d & -> & _)%list_elem_of_fmap. unfold clean. by destruct (is_forbidden d) eqn:E. Qed.
Lemma clean_id (l : list ascii) : (∀ c, c ∈ l → is_forbidden c = false) → clean <$> l = l.
Proof.
  induction l as [|c l IH]; intros H; [done|]. rewrite fmap_cons, IH by set_solver. unfold clean. by rewrite (H c) by set_solver.
Qed.

(** A shortened prefix has a shorter encoding. *)
Lemma utf8_app s t : utf8 (s +:+ t) = utf8 s ++ utf8 t.
Proof. induction s as [|c s IH]; [done|]. rewrite sapp_cons. cbn [utf8]. by rewrite IH, app_assoc. Qed.
Lemma chars_app a b : chars (a ++ b) = chars a +:+ chars b.
Proof. induction a as [|c a IH]; [done|]. cbn [app chars]. by rewrite IH, sapp_cons. Qed.
Lemma utf8_at_least s : (String.length s ≤ length (utf8 s))%nat.
Proof. induction s as [|c s IH]; [done|]. cbn. rewrite length_app. unfold utf8_char. case_match; simpl; lia. Qed.

Definition protect (l : list ascii) : string :=
  if match l with [] => true | _ => false end || is_reserved l then "protected-file" else chars l.

(** [safeName] on characters that are all allowed and do not begin with a dot or a space. *)
Lemma safeName_allowed r :
  (length r ≤ 120)%nat → (∀ c, c ∈ r → is_forbidden c = false) → (∀ c, head r = Some c → is_edge c = false) →
  safeName (chars r) = Ok (protect (rev (drop_edges (rev r)))).
Proof.
  intros Hl Hf Hh. unfold safeName. rewrite throw_if_false.
  2: { apply Z.ltb_ge. unfold strlen. rewrite chars_length. lia. }
  cbn [mbind res_bind mret res_ret]. rewrite unchars_chars. fold clean. rewrite clean_id by done.
  unfold trim_edges. rewrite (drop_edges_id r) by done. rewrite take_ge; [done|].
  destruct (drop_edges_suffix (rev r)) as [p Hp]. apply (f_equal length) in Hp.
  rewrite !length_rev, length_app in *. lia.
Qed.

(** Where the trailing dots and spaces of a non-empty list end. *)
Lemma trailing_edges r c : last r = Some c → is_edge c = true → ∃ r' t, r = r' ++ t ∧ t ≠ [] ∧ rev (drop_edges (rev r)) = r'.
Proof.
  intros Hl He. destruct (drop_edges_suffix (rev r)) as [p Hp]. exists (rev (drop_edges (rev r))), (rev p).
  split_and!; [|intros H|done].
  - by rewrite <-rev_app_distr, <-Hp, rev_involutive.
  - apply (f_equal (@rev ascii)) in H. rewrite rev_involutive in H. simpl in H. subst p. simpl in Hp.
    rewrite <-head_rev in Hl. rewrite Hp in Hl. apply drop_edges_head in Hl. congruence.
Qed.

Lemma protect_shorter r' t : (20 < length (r' ++ t))%nat → t ≠ [] →
  (length (utf8 (protect r')) < length (utf8 (chars (r' ++ t))))%nat.
Proof.
  intros Hl Ht. unfold protect. case_if.
  - pose proof (utf8_at_least (chars (r' ++ t))) as H. rewrite chars_length in H.
    change (length (utf8 "protected-file")) with 14%nat. lia.
  - rewrite chars_app, utf8_app, length_app. pose proof (utf8_at_least (chars t)) as H. rewrite chars_length in H.
    destruct t; [done|]. simpl in *. lia.
Qed.

(** The result of [safeName], with what it says of a second application. *)
Lemma safeName_ok f n : safeName f = Ok n →
  (ends_cleanly n = true ∧ safeName n = Ok n) ∨
  (ends_cleanly n = false ∧ 120 < strlen f ∧ ∃ n', safeName n = Ok n' ∧ (length (utf8 n') < length (utf8 n))%nat).
Proof.
  unfold safeName at 1. intros H. res_inv H. clear H0. fold clean in H. revert H.
  set (tr := trim_edges (clean <$> unchars f)). set (r := take 120 tr).
  change (protect r = n → (ends_cleanly n = true ∧ safeName n = Ok n) ∨
    (ends_cleanly n = false ∧ 120 < strlen f ∧ ∃ n', safeName n = Ok n' ∧ (length (utf8 n') < length (utf8 n))%nat)).
  destruct (trim_edges_spec (clean <$> unchars f)) as (Hh & Hla & Hin). fold tr in Hh, Hla, Hin.
  unfold protect. destruct (match r with [] => true | _ => false end || is_reserved r) eqn:Hp; intros <-.
  { left. by vm_compute. }
  assert (length r ≤ 120)%nat as Hlen by (unfold r; rewrite length_take; lia).
  assert (∀ c, c ∈ r → is_forbidden c = false) as Hf.
  { intros c Hc. apply (clean_allowed (unchars f)), Hin. unfold r in Hc. apply elem_of_take in Hc as (i & Hi & _).
    by eapply list_elem_of_lookup_2. }
  assert (∀ c, head r = Some c → is_edge c = false) as Hhr.
  { intros c Hc. apply Hh. unfold r in Hc. destruct tr; [done|]. done. }
  pose proof (safeName_allowed r Hlen Hf Hhr) as Hs. unfold ends_cleanly. rewrite unchars_chars.
  destruct (last r) as [c|] eqn:Hl; [|by destruct r; [discriminate Hp|rewrite last_cons in Hl; case_match]].
  destruct (is_edge c) eqn:He; cbn [negb]; [right|left].
  - destruct (trailing_edges r c Hl He) as (r' & t & Hr & Ht & Hd).
    assert (120 < length tr)%nat as Htr.
    { destruct (decide (120 < length tr)%nat); [done|]. unfold r in Hl. rewrite take_ge in Hl by lia.
      apply Hla in Hl. congruence. }
    split_and!; [done| |].
    + assert (length tr ≤ length (unchars f))%nat as Hle.
      { unfold tr, trim_edges. destruct (drop_edges_suffix (clean <$> unchars f)) as [p1 H1].
        destruct (drop_edges_suffix (rev (drop_edges (clean <$> unchars f)))) as [p2 H2].
        apply (f_equal length) in H1, H2. rewrite length_app, ?length_rev, ?length_fmap in *. lia. }
      rewrite unchars_length in Hle. unfold strlen. lia.
    + exists (protect r'). rewrite Hs, Hd. split; [done|]. rewrite Hr. apply protect_shorter; [|done].
      rewrite <-Hr. unfold r. rewrite length_take. lia.
  - split; [done|]. rewrite Hs. rewrite (drop_edges_id (rev r)), rev_involutive.
    + unfold protect. by rewrite Hp.
    + intros d. rewrite head_rev, Hl. by intros [= <-].
Qed.

(** A decidable property of every character. *)
Lemma all_chars (P : ascii → bool) : forallb P (ascii_of_nat <$> seq 0 256) = true → ∀ c, P c = true.
Proof.
  intros H c. rewrite forallb_forall in H. apply H. apply list_elem_of_In, list_elem_of_fmap. exists (nat_of_ascii c).
  split; [by rewrite ascii_nat_embedding|]. apply list_elem_of_In, in_seq. pose proof (nat_ascii_bounded c). lia.
Qed.

Lemma to_lower_mime c : is_mime_char (to_lower c) = is_mime_char c ∧ (code (to_lower c) =? 47) = (code c =? 47) ∧ to_lower (to_lower c) = to_lower c.
Proof.
  assert (bool_decide (is_mime_char (to_lower c) = is_mime_char c ∧ (code (to_lower c) =? 47) = (code c =? 47) ∧
    to_lower (to_lower c) = to_lower c) = true) as H.
  { revert c. apply (all_chars (λ c, bool_decide _)). by vm_compute. }
  by apply bool_decide_eq_true in H.
Qed.

Lemma lowercase_length s : String.length (lowercase s) = String.length s.
Proof. induction s; simpl; congruence. Qed.

Lemma mime_tail_lower b k s : mime_tail b k (unchars (lowercase s)) = mime_tail b k (unchars s).
Proof.
  revert b k. induction s as [|c s IH]; intros b k; [done|]. cbn [lowercase unchars mime_tail].
  destruct (to_lower_mime c) as (-> & -> & _). by rewrite !IH.
Qed.

Lemma mime_idem s : mime (mime s) = mime s.
Proof.
  unfold mime at 2 3. destruct ((strlen s <=? 127) && mime_tail false 0 (unchars s)) eqn:E; [|by vm_compute].
  unfold mime, strlen. rewrite lowercase_length, mime_tail_lower. unfold strlen in E. rewrite E.
  induction s as [|c s IH]; [done|]. cbn. destruct (to_lower_mime c) as (_ & _ & ->). f_equal.
  clear. induction s as [|d s IH]; [done|]. cbn. destruct (to_lower_mime d) as (_ & _ & ->). by rewrite IH.
Qed.

Definition manifest_frame (size chunk count created expires : Z) (name type_ : list ascii) : list ascii :=
  MANIFEST_DOMAIN ++ be_bytes 8 size ++ be_bytes 4 chunk ++ be_bytes 4 count ++ be_bytes 8 created ++ be_bytes 8 expires ++
  be_bytes 2 (blen name) ++ name ++ be_bytes 2 (blen type_) ++ type_.

Lemma integer_ok z n b : integer z n = Ok b → 0 <= z < 2 ^ (8 * Z.of_nat n) ∧ z <= MAX_SAFE_INTEGER ∧ b = be_bytes n z.
Proof.
  unfold integer. intros H. res_inv H. guard_inv H0. destruct H0 as [[H0 H1] H2].
  apply isSafeInteger_bounds in H0. rewrite (Z.mul_comm 8). split; [lia|]. split; [lia|done].
Qed.

(** An encoded manifest: its integers in range and its two strings, sanitised. *)
Lemma encode_manifest_frame m b : encodeAttachmentManifest m = Ok b →
  ∃ n, safeName (filename m) = Ok n ∧
    b = manifest_frame (m_fileSize m) (m_chunkSize m) (m_chunkCount m) (createdAt m) (expiresAt m) (utf8 n) (utf8 (mime (mimeType m))) ∧
    (0 <= m_fileSize m <= MAX_SAFE_INTEGER ∧ 0 <= m_chunkSize m < 2 ^ 32 ∧ 0 <= m_chunkCount m < 2 ^ 32 ∧
     0 <= createdAt m <= MAX_SAFE_INTEGER ∧ 0 <= expiresAt m <= MAX_SAFE_INTEGER) ∧
    blen (utf8 n) <= 1024 ∧ blen (utf8 (mime (mimeType m))) <= 127.
Proof.
  unfold encodeAttachmentManifest. intros H. apply bind_ok in H as (_ & _ & H). apply bind_ok in H as (n & Hn & H).
  apply bind_ok in H as (? & Hg & H). guard_inv Hg.
  apply bind_ok in H as (v1 & N1 & H). apply bind_ok in H as (v2 & N2 & H). apply bind_ok in H as (v3 & N3 & H).
  apply bind_ok in H as (v4 & N4 & H). apply bind_ok in H as (v5 & N5 & H). apply bind_ok in H as (v6 & N6 & H).
  apply bind_ok in H as (v7 & N7 & H). apply Ok_inj in H.
  apply integer_ok in N1 as (? & ? & ->), N2 as (? & ? & ->), N3 as (? & ? & ->), N4 as (? & ? & ->), N5 as (? & ? & ->),
    N6 as (? & ? & ->), N7 as (? & ? & ->).
  exists n. split_and!; try done; lia.
Qed.

Lemma at_end x : at_ x 0 x.
Proof. exists [], []. by rewrite app_nil_r. Qed.

Lemma take_field_at v off f max : at_ v off (be_bytes 2 (blen f) ++ f) → blen f <= max → max < 65536 →
  take_field v off max = Ok (f, (off + 2 + length f)%nat).
Proof.
  intros (a & c & -> & <-) Hf Hm. unfold take_field. assert (0 <= blen f) by (unfold blen; lia).
  rewrite throw_if_false by (apply Nat.ltb_ge; rewrite !length_app, be_bytes_length; lia). cbn [mbind res_bind].
  rewrite (read_be_at _ _ 2 (blen f)); [|exists a, (f ++ c); by rewrite <-!app_assoc|change (2 ^ (8 * Z.of_nat 2)) with 65536; lia].
  cbn [mbind res_bind]. rewrite throw_if_false.
  2: { apply orb_false_iff. split; [lia|]. apply Nat.ltb_ge. unfold blen. rewrite !length_app, be_bytes_length. lia. }
  cbn [mbind res_bind mret res_ret]. unfold blen. rewrite !Nat2Z.id.
  replace (a ++ (be_bytes 2 (Z.of_nat (length f)) ++ f) ++ c) with ((a ++ be_bytes 2 (Z.of_nat (length f))) ++ f ++ c)
    by (by rewrite <-!app_assoc).
  rewrite slice_app; [done| |done]. by rewrite length_app, be_bytes_length.
Qed.

Lemma u64_at v off z : at_ v off (be_bytes 8 z) → 0 <= z <= MAX_SAFE_INTEGER → u64 v off = Ok z.
Proof.
  intros Ha Hz. unfold u64. rewrite (read_be_at _ _ 8 z) by (done || unfold MAX_SAFE_INTEGER in *; lia). cbn [mbind res_bind].
  rewrite throw_if_false by lia. done.
Qed.

(** The decoder's run on a frame, down to the check that the frame is the canonical one. *)
Lemma decode_frame size chunk count created expires name type_ :
  0 <= size <= MAX_SAFE_INTEGER → 0 <= chunk < 2 ^ 32 → 0 <= count < 2 ^ 32 → 0 <= created <= MAX_SAFE_INTEGER →
  0 <= expires <= MAX_SAFE_INTEGER → blen (utf8 name) <= 1024 → blen (utf8 type_) <= 127 →
  let v := manifest_frame size chunk count created expires (utf8 name) (utf8 type_) in
  let m := {| m_fileSize := size; m_chunkSize := chunk; m_chunkCount := count; createdAt := created; expiresAt := expires;
              filename := name; mimeType := type_ |} in
  decodeAttachmentManifest v = (again ← encodeAttachmentManifest m; throw_if (some_differs again v) invalid_manifest;; mret m).
Proof.
  intros Hs Hk Hc Hcr Hex Hn Ht v m. unfold decodeAttachmentManifest. change (length MANIFEST_DOMAIN) with 21%nat. cbn [Nat.add].
  assert (length v = 57 + length (utf8 name) + length (utf8 type_))%nat as Hl.
  { unfold v, manifest_frame. rewrite !length_app, !be_bytes_length. change (length MANIFEST_DOMAIN) with 21%nat. lia. }
  rewrite throw_if_false.
  2: { apply orb_false_iff. split; [apply Nat.ltb_ge; lia|]. apply negb_false_iff, bool_decide_eq_true. done. }
  cbn [mbind res_bind].
  assert (at_ v 21 (be_bytes 8 size) ∧ at_ v 29 (be_bytes 4 chunk) ∧ at_ v 33 (be_bytes 4 count) ∧
    at_ v 37 (be_bytes 8 created) ∧ at_ v 45 (be_bytes 8 expires)) as (H1 & H2 & H3 & H4 & H5).
  { unfold v, manifest_frame. split_and!; find_at. }
  assert (at_ v 53 (be_bytes 2 (blen (utf8 name)) ++ utf8 name)) as H6.
  { unfold v, manifest_frame. do 6 (eapply at_skip; [first [apply be_bytes_length|known_length]|lia|cbn [Nat.sub]]).
    rewrite app_assoc. apply at_here. }
  assert (at_ v (55 + length (utf8 name)) (be_bytes 2 (blen (utf8 type_)) ++ utf8 type_)) as H7.
  { unfold v, manifest_frame. do 7 (eapply at_skip; [first [apply be_bytes_length|known_length]|lia|]).
    eapply at_skip; [reflexivity|lia|]. replace (_ - _)%nat with 0%nat by lia. apply at_end. }
  rewrite (u64_at v 21 size), (read_be_at v 29 4 chunk), (read_be_at v 33 4 count), (u64_at v 37 created), (u64_at v 45 expires) by done.
  cbn [mbind res_bind].
  rewrite (take_field_at v 53 (utf8 name) 1024) by (done || lia). cbn [mbind res_bind Nat.add]. rewrite utf8_roundtrip.
  cbn [mbind res_bind]. rewrite (take_field_at v _ (utf8 type_) 127) by (done || lia). cbn [mbind res_bind]. rewrite utf8_roundtrip.
  cbn [mbind res_bind]. rewrite throw_if_false by (apply negb_false_iff, Nat.eqb_eq; lia). done.
Qed.

(** Two frames with names of different lengths differ within the shorter one. *)
Lemma frames_differ a b c d e n t n' t' : (length n' < length n)%nat → blen n <= 1024 →
  some_differs (manifest_frame a b c d e n' t') (manifest_frame a b c d e n t) = true.
Proof.
  intros Hl Hn. unfold some_differs. apply negb_true_iff, bool_decide_eq_false. intros H.
  set (f := manifest_frame a b c d e n t) in *. set (f' := manifest_frame a b c d e n' t') in *.
  assert (at_ f 53 (be_bytes 2 (blen n))) as H1 by (unfold f, manifest_frame; find_at).
  assert (at_ f 53 (be_bytes 2 (blen n'))) as H2.
  { rewrite <-(take_drop (length f') f), H. unfold f', manifest_frame. rewrite <-!app_assoc. find_at. }
  apply (at_slice _ _ _ 2) in H1; [|apply be_bytes_length]. apply (at_slice _ _ _ 2) in H2; [|apply be_bytes_length].
  rewrite H2 in H1. unfold blen in *. apply be_bytes_inj in H1; change (2 ^ (8 * Z.of_nat 2)) with 65536; lia.
Qed.

(** Encoding depends on the name and the media type only through their sanitised forms. *)
Lemma encode_renamed m b name type_ n :
  encodeAttachmentManifest m = Ok b → safeName name = Ok n → blen (utf8 n) <= 1024 → mime type_ = mime (mimeType m) →
  encodeAttachmentManifest {| m_fileSize := m_fileSize m; m_chunkSize := m_chunkSize m; m_chunkCount := m_chunkCount m;
    createdAt := createdAt m; expiresAt := expiresAt m; filename := name; mimeType := type_ |} =
  Ok (manifest_frame (m_fileSize m) (m_chunkSize m) (m_chunkCount m) (createdAt m) (expiresAt m) (utf8 n) (utf8 (mime (mimeType m)))).
Proof.
  unfold encodeAttachmentManifest. intros H Hn Hb Ht. apply bind_ok in H as (? & Hg1 & H). apply bind_ok in H as (n0 & _ & H).
  apply bind_ok in H as (? & Hg & H). guard_inv Hg.
  apply bind_ok in H as (v1 & N1 & H). apply bind_ok in H as (v2 & N2 & H). apply bind_ok in H as (v3 & N3 & H).
  apply bind_ok in H as (v4 & N4 & H). apply bind_ok in H as (v5 & N5 & H). apply bind_ok in H as (? & _ & H).
  apply bind_ok in H as (v7 & N7 & _).
  cbn [m_fileSize m_chunkSize m_chunkCount createdAt expiresAt filename mimeType]. rewrite Hg1, Hn, Ht, N1, N2, N3, N4, N5, N7.
  cbn [mbind res_bind]. rewrite throw_if_false by lia.
  assert (integer (blen (utf8 n)) 2 = Ok (be_bytes 2 (blen (utf8 n)))) as ->.
  { unfold integer. rewrite throw_if_false; [done|]. unfold isSafeInteger, MAX_SAFE_INTEGER. change (2 ^ _) with 65536.
    unfold blen in *. lia. }
  apply integer_ok in N1 as (_ & _ & ->), N2 as (_ & _ & ->), N3 as (_ & _ & ->), N4 as (_ & _ & ->), N5 as (_ & _ & ->),
    N7 as (_ & _ & ->). done.
Qed.

(** a manifest decodes to what was encoded, its name and media type sanitised once; the only manifests that do not
    come back are those whose name was longer than 120 characters and was cut right after a dot or a space, and the
    decoder refuses exactly those. *)
Theorem manifest_roundtrip m b n :
  encodeAttachmentManifest m = Ok b → safeName (filename m) = Ok n →
  decodeAttachmentManifest b =
    (if ends_cleanly n
     then Ok {| m_fileSize := m_fileSize m; m_chunkSize := m_chunkSize m; m_chunkCount := m_chunkCount m;
                createdAt := createdAt m; expiresAt := expiresAt m; filename := n; mimeType := mime (mimeType m) |}
     else Err invalid_manifest) ∧
  (ends_cleanly n = false → 120 < strlen (filename m)).
Proof.
  intros He Hn. destruct (encode_manifest_frame m b He) as (n0 & Hn0 & Hb & (? & ? & ? & ? & ?) & Hl & Ht).
  assert (n0 = n) as -> by congruence.
  pose proof (decode_frame (m_fileSize m) (m_chunkSize m) (m_chunkCount m) (createdAt m) (expiresAt m) n (mime (mimeType m))) as Hd.
  cbn zeta in Hd. rewrite <-Hb in Hd. rewrite Hd by done. clear Hd. destruct (safeName_ok _ _ Hn) as [[Hc Hs]|(Hc & Hlong & n' & Hs & Hlt)].
  - rewrite Hc. rewrite (encode_renamed m b n _ n He Hs Hl (mime_idem _)), <-Hb. cbn [mbind res_bind].
    unfold some_differs. rewrite take_ge, bool_decide_eq_true_2 by done. done.
  - rewrite Hc. rewrite (encode_renamed m b n _ n' He Hs); [|unfold blen in *; lia|apply mime_idem].
    cbn [mbind res_bind]. rewrite Hb, frames_differ by done. done.
Qed.

Definition sample_manifest (name : string) : AttachmentManifestV2 :=
  {| m_fileSize := 300000; m_chunkSize := 262144; m_chunkCount := 2; createdAt := 1700000000000; expiresAt := 1700000100000;
     filename := name; mimeType := "Text/Plain" |}.
(** A report whose 120th character is the dot before its extension. *)
Definition long_name : string := chars (replicate 119 "a"%char) +:+ ".txt".
Definition encoded (m : AttachmentManifestV2) : list ascii := match encodeAttachmentManifest m with Ok b => b | Err _ => [] end.

Lemma manifest_roundtrip_witness :
  decodeAttachmentManifest (encoded (sample_manifest "re:port")) =
    Ok {| m_fileSize := 300000; m_chunkSize := 262144; m_chunkCount := 2; createdAt := 1700000000000; expiresAt := 1700000100000;
          filename := "re_port"; mimeType := "text/plain" |} ∧
  decodeAttachmentManifest (encoded (sample_manifest long_name)) = Err invalid_manifest.
Proof.
  split.
  - destruct (manifest_roundtrip (sample_manifest "re:port") (encoded (sample_manifest "re:port")) "re_port") as [H _];
      [by vm_compute|by vm_compute|]. rewrite H. reflexivity.
  - destruct (manifest_roundtrip (sample_manifest long_name) (encoded (sample_manifest long_name))
      (chars (replicate 119 "a"%char ++ ["."%char]))) as [H _]; [by vm_compute|by vm_compute|]. rewrite H. reflexivity.
Defined.

(** A cipher with the properties the theorem asks of AES-GCM (and no secrecy): the ciphertext carries the length of the
    additional data in unary, the data itself, the plaintext and sixteen bytes in place of a tag. *)
Definition toy_header (a : list ascii) : list ascii := replicate (length a) "1"%char ++ "0"%char :: a.
Definition toy_encrypt (k n a p : list ascii) : list ascii := toy_header a ++ p ++ replicate 16 "t"%char.
Definition toy_decrypt (k n a c : list ascii) : option (list ascii) :=
  let rest := drop (length (toy_header a)) c in
  if decide (take (length (toy_header a)) c = toy_header a) then Some (take (length rest - 16) rest) else None.

Lemma toy_opens k n a p : toy_decrypt k n a (toy_encrypt k n a p) = Some p.
Proof.
  unfold toy_decrypt, toy_encrypt. rewrite take_app_length, drop_app_length, decide_True by done.
  rewrite length_app, length_replicate, Nat.add_sub. by rewrite take_app_length.
Qed.

Lemma toy_header_inj a a' c c' : toy_header a ++ c = toy_header a' ++ c' → a = a'.
Proof.
  unfold toy_header. rewrite <-!app_assoc. cbn [app]. intros H.
  assert (∀ n m (x y : list ascii), replicate n "1"%char ++ "0"%char :: x = replicate m "1"%char ++ "0"%char :: y → n = m ∧ x = y) as Hr.
  { induction n as [|n IH]; intros [|m] x y; cbn; intros [= E]; [done|].
    by destruct (IH m x y E) as [-> ->]. }
  apply Hr in H as [Hl H]. by apply app_inj_1 in H as [-> _].
Qed.

Lemma toy_binds k n a a' p q : toy_decrypt k n a' (toy_encrypt k n a p) = Some q → a' = a.
Proof.
  unfold toy_decrypt, toy_encrypt. case_decide as H; [intros _|done].
  symmetry. rewrite <-(take_drop (length (toy_header a')) (toy_header a ++ _)) in H. rewrite take_app_length' in H.
  2: { rewrite length_take. apply (f_equal length) in H. rewrite length_take, take_drop in H. lia. }
  set (c := drop (length (toy_header a')) (toy_header a ++ p ++ replicate 16 "t"%char)).
  apply (toy_header_inj _ _ (p ++ replicate 16 "t"%char) c). rewrite <-H. unfold c. by rewrite take_drop.
Qed.

Lemma toy_tag k n a p : (16 ≤ length (toy_encrypt k n a p))%nat.
Proof. unfold toy_encrypt. rewrite !length_app, length_replicate. lia. Qed.

Definition sample_context (id : string) : AttachmentAuthenticatedContext :=
  {| transferId := id; conversationId := "00000000-0000-4000-8000-00000000000c";
     senderParticipantId := "00000000-0000-4000-8000-00000000000a"; recipientParticipantId := "00000000-0000-4000-8000-00000000000b";
     senderIdentityReference := "K3 AAAA AAAA AAAA AAAA AAAA AAAA AAAA AAAA AAAA AAAA AAA";
     recipientIdentityReference := "K3 BBBB BBBB BBBB BBBB BBBB BBBB BBBB BBBB BBBB BBBB BBB";
     fileSize := 5; chunkSize := 4; chunkCount := 2 |}.
Definition sample_key : list ascii := replicate 32 "k"%char.
Definition sample_nonce : list ascii := replicate 12 "n"%char.
Definition sample_chunk : AttachmentCiphertext :=
  match sealAttachmentChunk toy_encrypt sample_nonce sample_key (sample_context "00000000-0000-4000-8000-000000000001") 1 (str "!") with
  | Ok s => s | Err _ => {| nonce := []; ciphertext := [] |} end.

Lemma sealed_chunk_bound_to_its_place_witness :
  openAttachmentChunk toy_decrypt sample_key (sample_context "00000000-0000-4000-8000-000000000001") 1 sample_chunk = Ok (str "!") ∧
  (∀ c' j q, openAttachmentChunk toy_decrypt sample_key c' j sample_chunk = Ok q →
     j = 1 ∧ same_context c' (sample_context "00000000-0000-4000-8000-000000000001") ∧ q = str "!") ∧
  (∀ c' m, openAttachmentManifest toy_decrypt sample_key c' sample_chunk ≠ Ok m).
Proof.
  apply (sealed_chunk_bound_to_its_place toy_encrypt toy_decrypt toy_opens toy_binds toy_tag sample_nonce); [reflexivity|].
  vm_compute. reflexivity.
Defined.
