(* ===== verification/FileProtocol.v ===== *)
(** * The file-transfer protocol and its progress ([files/protocol.ts], [files/state.ts])

    Objects that arrive as JSON are [jsval]s, checked field by field before they become records. *)
From Stdlib Require Import DecimalString DecimalN.
From S2P Require Import Prelude Json Base64 RoomMessage Attachments.

(** ** Limits and data *)
(* service/src/files/protocol.ts:3-3 FILE_LIMITS *)
Definition MAX_FILE_SIZE : Z := 8 * 1024 * 1024.
Definition MAX_CHUNK_SIZE : Z := 256 * 1024.
Definition MAX_CHUNK_COUNT : Z := 32.
Definition MAX_METADATA_SIZE : Z := 2048.
Definition MAX_ACTIVE_TRANSFERS : Z := 2.
Definition MAX_STORED_BYTES_PER_USER : Z := 12 * 1024 * 1024.
Definition MAX_INCOMPLETE_BYTES_PER_USER : Z := 12 * 1024 * 1024.
Definition MAX_RECORDS : Z := 32.
Definition TRANSFER_EXPIRY : Z := 24 * 60 * 60 * 1000.
(* service/src/files/protocol.ts:4-4 FILE_PREFIX *)
Definition FILE_PREFIX : string := "k3ncrypt-file-v2:".

(* service/src/files/protocol.ts:5-5 FileBinding *)
Record FileBinding := {
  fb_conversationId : string; fb_senderParticipantId : string; fb_recipientParticipantId : string;
  fb_senderIdentityReference : string; fb_recipientIdentityReference : string }.
Definition binding_of (c : AttachmentAuthenticatedContext) : FileBinding :=
  {| fb_conversationId := conversationId c; fb_senderParticipantId := senderParticipantId c;
     fb_recipientParticipantId := recipientParticipantId c; fb_senderIdentityReference := senderIdentityReference c;
     fb_recipientIdentityReference := recipientIdentityReference c |}.
(* service/src/files/protocol.ts:6-6 FileReference *)
Record FileReference := { fr_context : AttachmentAuthenticatedContext; fr_key : list ascii; fr_createdAt : Z; fr_expiresAt : Z }.
(* service/src/files/protocol.ts:7-7 WireObject *)
Record WireObject := { w_nonce : string; w_ciphertext : string }.
#[export] Instance wire_eq_dec : EqDecision WireObject.
Proof. solve_decision. Defined.
Inductive FileState := incomplete | available | canceled | expired.
#[export] Instance FileState_eq_dec : EqDecision FileState.
Proof. solve_decision. Defined.
(* service/src/files/protocol.ts:8-8 FileStatus *)
Record FileStatus := {
  fs_context : AttachmentAuthenticatedContext; fs_createdAt : Z; fs_expiresAt : Z; fs_state : FileState;
  indices : list Z; fs_manifest : option WireObject }.

(** ** Encodings *)
(* service/src/files/protocol.ts:9-9 b64 *)
Definition b64 (value : list ascii) : string := chars (strip_all (to_url <$> unchars (btoa (chars value)))).
Definition invalid_object : string := "Invalid file object.".
(* service/src/files/protocol.ts:10-14 unb64 *)
Definition unb64 (s : string) (max : Z) : res (list ascii) :=
  throw_if ((ceil_div (max * 4) 3 <? strlen s) || negb (nonempty s) || negb (forall_chars is_base64url s)) invalid_object;;
  decoded ← atob (chars ((of_url <$> unchars s) ++ padding (String.length s)));
  let value := unchars decoded in
  throw_if ((max <? blen value) || negb (String.eqb (b64 value) s)) invalid_object;;
  mret value.
(** [unb64] of a JSON value: [typeof s !== 'string'] throws. *)
Definition unb64_value (v : jsval) (max : Z) : res (list ascii) :=
  match v with JStr s => unb64 s max | _ => Err invalid_object end.
(* service/src/files/protocol.ts:15-15 wire *)
Definition wire (v : AttachmentCiphertext) : WireObject := {| w_nonce := b64 (nonce v); w_ciphertext := b64 (ciphertext v) |}.
Definition wire_json (w : WireObject) : jsval := JObj [("nonce", JStr (w_nonce w)); ("ciphertext", JStr (w_ciphertext w))].
(* service/src/files/protocol.ts:17-17 exact *)
Definition exact (value : jsval) (ks : list string) : res (list (string * jsval)) :=
  match value with
  | JObj fs =>
      throw_if (negb (String.eqb (join (js_sort string_cmp (keys fs))) (join (js_sort string_cmp ks)))) "Invalid file protocol.";;
      mret fs
  | _ => Err "Invalid file protocol."
  end.
(* service/src/files/protocol.ts:16-16 sealed *)
Definition sealed (v : jsval) (max : Z) : res AttachmentCiphertext :=
  fs ← exact v ["nonce"; "ciphertext"];
  n ← unb64_value (get fs "nonce") 12;
  c ← unb64_value (get fs "ciphertext") max;
  throw_if (negb (length n =? 12)%nat || (length c <? 16)%nat) invalid_object;;
  mret {| nonce := n; ciphertext := c |}.

(** ** Contexts and references *)
Definition context_keys : list string :=
  ["transferId"; "conversationId"; "senderParticipantId"; "recipientParticipantId"; "senderIdentityReference";
   "recipientIdentityReference"; "fileSize"; "chunkSize"; "chunkCount"].
Definition as_str (v : jsval) : option string := match v with JStr s => Some s | _ => None end.
Definition as_int (v : jsval) : option Z := match v with JNum (NInt z) => Some z | _ => None end.
(** The context a JSON object denotes; an object with a field of another type is refused by the encoder's checks, as a
    value that is no UUID, no identity reference or no safe integer. *)
Definition context_of (fs : list (string * jsval)) : option AttachmentAuthenticatedContext :=
  t ← as_str (get fs "transferId"); c ← as_str (get fs "conversationId");
  s ← as_str (get fs "senderParticipantId"); r ← as_str (get fs "recipientParticipantId");
  si ← as_str (get fs "senderIdentityReference"); ri ← as_str (get fs "recipientIdentityReference");
  n ← as_int (get fs "fileSize"); k ← as_int (get fs "chunkSize"); m ← as_int (get fs "chunkCount");
  mret {| transferId := t; conversationId := c; senderParticipantId := s; recipientParticipantId := r;
          senderIdentityReference := si; recipientIdentityReference := ri; fileSize := n; chunkSize := k; chunkCount := m |}.
(* service/src/files/protocol.ts:18-18 validateFileContext *)
Definition validateFileContext (v : jsval) : res AttachmentAuthenticatedContext :=
  fs ← exact v context_keys;
  c ← require (context_of fs) invalid_context;
  encodeAttachmentContext manifest_object c None;;
  throw_if ((MAX_FILE_SIZE <? fileSize c) || negb (chunkSize c =? MAX_CHUNK_SIZE) || (MAX_CHUNK_COUNT <? chunkCount c))
    "File exceeds limits.";;
  mret c.
(* service/src/files/protocol.ts:20-20 validateFileReference *)
Definition validateFileReference (r : jsval) : res FileReference :=
  fs ← exact r ["version"; "context"; "key"; "createdAt"; "expiresAt"];
  throw_if (negb (bool_decide (get fs "version" = JNum (NInt 2)))) "Unsupported file version.";;
  c ← validateFileContext (get fs "context");
  key ← unb64_value (get fs "key") 32;
  created ← require (js_safe_int (get fs "createdAt")) "Invalid file reference.";
  throw_if (negb (length key =? 32)%nat || (created <? 0) ||
    negb (bool_decide (get fs "expiresAt" = JNum (NInt (created + TRANSFER_EXPIRY))))) "Invalid file reference.";;
  mret {| fr_context := c; fr_key := key; fr_createdAt := created; fr_expiresAt := created + TRANSFER_EXPIRY |}.
(* service/src/files/protocol.ts:19-19 serializeFileReference *)
Definition serializeFileReference (r : jsval) : res string := validateFileReference r;; mret (FILE_PREFIX +:+ stringify r).
(* service/src/files/protocol.ts:21-21 parseFileReference *)
Definition parseFileReference (text : string) : res FileReference :=
  let unsupported := "Unsupported file version." in
  body ← require (strip_prefix FILE_PREFIX text) unsupported;
  throw_if (4096 <? strlen text) unsupported;;
  r ← require (parse body) "SyntaxError";
  validateFileReference r.
(* service/src/files/protocol.ts:22-22 sameBinding *)
Definition sameBinding (a b : FileBinding) : bool :=
  String.eqb (fb_conversationId a) (fb_conversationId b) && String.eqb (fb_senderParticipantId a) (fb_senderParticipantId b) &&
  String.eqb (fb_recipientParticipantId a) (fb_recipientParticipantId b) &&
  String.eqb (fb_senderIdentityReference a) (fb_senderIdentityReference b) &&
  String.eqb (fb_recipientIdentityReference a) (fb_recipientIdentityReference b).
(* service/src/files/protocol.ts:24-24 reservationBytes *)
Definition reservationBytes (size count : Z) : Z := ceil_div ((size + count * 16) * 4) 3 + count * 256 + 16384.

(** ** Progress of one transfer ([state.ts]) *)
(* service/src/files/state.ts:1-1 FilePhase *)
Inductive FilePhase := Idle | Preparing | Encrypting | Uploading | WaitingForRecipient | Downloading | Verifying | Complete
  | Canceled | Failed | Expired | RestartRequired.
#[export] Instance FilePhase_eq_dec : EqDecision FilePhase.
Proof. solve_decision. Defined.
(* service/src/files/state.ts:2-2 FileProgress *)
Record FileProgress := {
  phase : FilePhase; bytes_ : Z; total : Z; p_filename : option string; failure : option string; retryable : bool;
  diagnosticCode : option string }.
(* service/src/files/state.ts:3-10 transitions *)
Definition transitions (p : FilePhase) : list FilePhase :=
  match p with
  | Preparing => [Encrypting; Downloading; Canceled; Failed; Expired; RestartRequired]
  | Encrypting => [Uploading; Canceled; Failed; Expired; RestartRequired]
  | Uploading => [Encrypting; WaitingForRecipient; Canceled; Failed; Expired; RestartRequired]
  | Downloading => [Verifying; Canceled; Failed; Expired; RestartRequired]
  | Verifying => [Downloading; Complete; Canceled; Failed; Expired; RestartRequired]
  | Idle | WaitingForRecipient | Complete | Canceled | Failed | Expired | RestartRequired => []
  end.
(** The state, with what the [changed] callback has been given. *)
(* service/src/files/state.ts:12-14 FileTransferState, fields *)
Record FileTransferState := { generation : Z; current : FileProgress; reported : list FileProgress }.
Definition initial_state : FileTransferState :=
  {| generation := 0; reported := [];
     current := {| phase := Idle; bytes_ := 0; total := 0; p_filename := None; failure := None; retryable := false; diagnosticCode := None |} |}.
Definition report (s : FileTransferState) (g : Z) (p : FileProgress) : FileTransferState :=
  {| generation := g; current := p; reported := reported s ++ [p] |}.
(* service/src/files/state.ts:16-16 begin *)
Definition begin_ (total_ : Z) (name : option string) (s : FileTransferState) : Z * FileTransferState :=
  let g := generation s + 1 in
  (g, report s g {| phase := Preparing; bytes_ := 0; total := total_; p_filename := name; failure := None; retryable := false;
                    diagnosticCode := None |}).
Definition terminal (p : FilePhase) : bool := match transitions p with [] => true | _ => false end.
(* service/src/files/state.ts:17-17 live *)
Definition live (g : Z) (s : FileTransferState) : bool := (g =? generation s) && negb (terminal (phase (current s))).
(* service/src/files/state.ts:18-21 move *)
Definition move (g : Z) (p : FilePhase) (b : option Z) (why : option string) (retry : bool) (code : option string)
    (s : FileTransferState) : bool * FileTransferState :=
  let c := current s in
  if negb (g =? generation s) || (negb (bool_decide (p = phase c)) && negb (bool_decide (p ∈ transitions (phase c)))) || terminal (phase c)
  then (false, s)
  else (true, report s (generation s)
    {| phase := p; bytes_ := default (bytes_ c) b; total := total c; p_filename := p_filename c; failure := why; retryable := retry;
       diagnosticCode := code |}).
(* service/src/files/state.ts:22-22 details *)
Definition details (g total_ : Z) (name : option string) (s : FileTransferState) : FileTransferState :=
  if negb (live g s) then s else
  let c := current s in
  report s (generation s) {| phase := phase c; bytes_ := bytes_ c; total := total_; p_filename := name; failure := failure c;
    retryable := retryable c; diagnosticCode := diagnosticCode c |}.
(* service/src/files/state.ts:23-23 cancel *)
Definition cancel (s : FileTransferState) : FileTransferState :=
  let s' := if live (generation s) s then (move (generation s) Canceled None None false None s).2 else s in
  {| generation := generation s' + 1; current := current s'; reported := reported s' |}.

(** ** The keys an exact object has *)
Definition joined (l : list string) : nat := foldr (λ s n, (String.length s + 1 + n)%nat) 0%nat l.
#[export] Instance joined_perm : Proper ((≡ₚ) ==> (=)) joined.
Proof. intros l l' H. induction H; simpl; lia. Qed.
Lemma joined_app a b : joined (a ++ b) = (joined a + joined b)%nat.
Proof. induction a; simpl; lia. Qed.

Lemma join_length l : l ≠ [] → joined l = S (String.length (join l)).
Proof.
  induction l as [|x [|y l] IH]; intros Hl; [done|simpl; lia|].
  change (join (x :: y :: l)) with (x +:+ "," +:+ join (y :: l)). rewrite !sapp_length.
  change (joined (x :: y :: l)) with (String.length x + 1 + joined (y :: l))%nat. rewrite IH by done. simpl. lia.
Qed.

(** An object [exact] accepts, none of whose expected fields is missing, has exactly the expected keys. *)
Lemma exact_keys v ks fs :
  exact v ks = Ok fs → NoDup ks → ks ≠ [] → (∀ k, k ∈ ks → get fs k ≠ JUndef) → v = JObj fs ∧ keys fs ≡ₚ ks.
Proof.
  intros H Hnd Hne Hin. destruct v; try discriminate H. cbn in H. res_inv H. subst. guard_inv H0. split; [done|].
  assert (ks ⊆+ keys fs) as [rest Hr]%submseteq_Permutation.
  { apply NoDup_submseteq; [done|]. intros k Hk. by apply get_present, Hin. }
  apply (f_equal String.length) in H0.
  assert (joined (keys fs) = joined ks) as Hj.
  { rewrite <-(js_sort_perm string_cmp (keys fs)), <-(js_sort_perm string_cmp ks), !join_length; [by rewrite H0|..].
    - intros E. apply Hne. apply Permutation_nil. rewrite <-E. apply js_sort_perm.
    - intros E. apply (f_equal length) in E. rewrite js_sort_perm, Hr, length_app in E. destruct ks; done. }
  rewrite Hr, joined_app in Hj. destruct rest as [|r rest]; [by rewrite Hr, app_nil_r|]. simpl in Hj. lia.
Qed.

(** ** How long a reference can be *)
Lemma of_uint_acc_lower d acc : (Z.pos acc * 10 ^ Z.of_nat (Decimal.nb_digits d) <= Z.pos (Pos.of_uint_acc d acc)).
Proof.
  revert acc. induction d as [|d IH|d IH|d IH|d IH|d IH|d IH|d IH|d IH|d IH|d IH]; intros acc; cbn [Decimal.nb_digits Pos.of_uint_acc].
  { change (10 ^ Z.of_nat 0) with 1. lia. }
  all: etrans; [|apply IH]; rewrite Nat2Z.inj_succ, Z.pow_succ_r by lia;
    rewrite Z.mul_assoc; apply Z.mul_le_mono_nonneg_r; [apply Z.pow_nonneg|]; lia.
Qed.

Lemma uint_string_length d : String.length (NilEmpty.string_of_uint d) = Decimal.nb_digits d.
Proof. induction d; simpl; congruence. Qed.

Lemma N_str_length n k : (0 < k)%nat → Z.of_N n < 10 ^ Z.of_nat k → (String.length (N_str n) ≤ k)%nat.
Proof.
  intros Hk Hn. pose proof (N_str_leading n) as Hl. unfold N_str in *. rewrite uint_string_length.
  destruct (decide (Decimal.nb_digits (N.to_uint n) ≤ k)%nat); [done|exfalso].
  assert (∃ d, 10 ^ Z.of_nat (Decimal.nb_digits d) <= Z.of_N n ∧ Decimal.nb_digits (N.to_uint n) = S (Decimal.nb_digits d)) as (d & Hd & E).
  { pose proof (Unsigned.of_to n) as En. destruct (N.to_uint n) as [|d|d|d|d|d|d|d|d|d|d] eqn:E; [simpl in *; lia| |..].
    { exfalso. simpl in Hl. destruct (NilEmpty.string_of_uint d) as [|? ?] eqn:Es; [|done].
      assert (d = Decimal.Nil) as -> by (by destruct d). simpl in *. lia. }
    all: exists d; split; [|done]; rewrite <-En; unfold N.of_uint; cbn [Pos.of_uint Z.of_N];
      etrans; [|apply of_uint_acc_lower]; assert (0 <= 10 ^ Z.of_nat (Decimal.nb_digits d)) by (apply Z.pow_nonneg; lia); lia. }
  assert (10 ^ Z.of_nat k <= 10 ^ Z.of_nat (Decimal.nb_digits d)) by (apply Z.pow_le_mono_r; lia). lia.
Qed.

Lemma get_member fs kv : NoDup (keys fs) → kv ∈ fs → get fs kv.1 = kv.2.
Proof.
  induction fs as [|[k v] fs IH]; intros Hnd Hin; [set_solver|]. inversion_clear Hnd as [|?? Hk Hnd'].
  apply elem_of_cons in Hin as [->|Hin]; simpl; [by rewrite String.eqb_refl|].
  destruct (String.eqb_spec kv.1 k) as [<-|]; [|by apply IH]. destruct Hk. apply list_elem_of_fmap. by exists kv.
Qed.

Definition total_of (g : string → nat) (ks : list string) : nat := foldr (λ k n, (g k + n)%nat) 0%nat ks.
#[export] Instance total_perm g : Proper ((≡ₚ) ==> (=)) (total_of g).
Proof. intros l l' H. induction H; simpl; lia. Qed.

Lemma quote_chars_length s : (String.length (quote_chars s) ≤ 6 * String.length s)%nat.
Proof.
  induction s as [|c s IH]; [done|]. cbn [quote_chars]. rewrite sapp_length.
  assert (String.length (quote_char c) ≤ 6)%nat; [|simpl; lia].
  assert (bool_decide (String.length (quote_char c) ≤ 6)%nat = true) as H; [|by apply bool_decide_eq_true in H].
  revert c. apply (all_chars (λ c, bool_decide _)). by vm_compute.
Qed.
Lemma quote_length s : (String.length (quote s) ≤ 6 * String.length s + 2)%nat.
Proof. unfold quote. rewrite !sapp_length. pose proof (quote_chars_length s). simpl. lia. Qed.

(** The text of an object whose keys are known and whose values are bounded, key by key. *)
Lemma stringify_bound fs ks (B : string → nat) :
  plain (JObj fs) = true → keys fs ≡ₚ ks →
  (∀ k, k ∈ ks → (6 * String.length k + 4 + String.length (stringify (get fs k)) ≤ B k)%nat) →
  (String.length (stringify (JObj fs)) ≤ 2 + total_of B ks)%nat.
Proof.
  intros Hp Hk HB. cbn [plain] in Hp. apply andb_true_iff in Hp as [Hp Hnd]. apply bool_decide_eq_true in Hnd.
  rewrite stringify_obj, !sapp_length by done. simpl.
  assert (∀ kv, kv ∈ fs → (String.length (member kv) + 1 ≤ B kv.1)%nat) as HM.
  { intros kv Hin. assert (kv.1 ∈ ks) as Hks by (rewrite <-Hk; apply list_elem_of_fmap; by exists kv).
    specialize (HB _ Hks). rewrite (get_member fs kv) in HB by done. unfold member. rewrite !sapp_length.
    pose proof (quote_length kv.1). change (String.length ":") with 1%nat. lia. }
  assert (joined (map member fs) ≤ total_of B (keys fs))%nat as Hj.
  { clear -HM. induction fs as [|kv fs IH]; [done|]. pose proof (HM kv ltac:(set_solver)).
    assert (joined (map member fs) ≤ total_of B (keys fs))%nat by (apply IH; set_solver).
    change (String.length (member kv) + 1 + joined (map member fs) ≤ B kv.1 + total_of B (keys fs))%nat. lia. }
  rewrite (total_perm B _ _ Hk) in Hj. destruct fs as [|kv fs]; [simpl; lia|].
  rewrite join_length in Hj by done. lia.
Qed.

Lemma num_length z : 0 <= z <= MAX_SAFE_INTEGER + TRANSFER_EXPIRY → (String.length (stringify (JNum (NInt z))) ≤ 17)%nat.
Proof.
  intros Hz. cbn [stringify num_str]. unfold Z_str. rewrite (proj2 (Z.ltb_ge _ _)) by lia.
  apply N_str_length; [lia|]. unfold MAX_SAFE_INTEGER, TRANSFER_EXPIRY in Hz. change (10 ^ Z.of_nat 17) with 100000000000000000. lia.
Qed.

Lemma uuid_length u b : uuidBytes u = Ok b → String.length u = 36%nat.
Proof. unfold uuidBytes. intros H. res_inv H. guard_inv H0. by apply template_length in H0. Qed.

Lemma context_of_ok fs c : context_of fs = Some c →
  get fs "transferId" = JStr (transferId c) ∧ get fs "conversationId" = JStr (conversationId c) ∧
  get fs "senderParticipantId" = JStr (senderParticipantId c) ∧ get fs "recipientParticipantId" = JStr (recipientParticipantId c) ∧
  get fs "senderIdentityReference" = JStr (senderIdentityReference c) ∧
  get fs "recipientIdentityReference" = JStr (recipientIdentityReference c) ∧
  get fs "fileSize" = JNum (NInt (fileSize c)) ∧ get fs "chunkSize" = JNum (NInt (chunkSize c)) ∧
  get fs "chunkCount" = JNum (NInt (chunkCount c)).
Proof.
  unfold context_of. set (g := get fs). clearbody g. intros H.
  repeat (apply bind_Some in H as (? & ? & H)). injection H as <-. cbn.
  repeat match goal with Hx : as_str ?v = Some _ |- _ => destruct v; try discriminate Hx; injection Hx as -> end.
  repeat match goal with Hx : as_int (g ?k) = Some _ |- _ =>
    destruct (g k) as [| | |[]| | |]; try discriminate Hx; injection Hx as -> end.
  done.
Qed.

Lemma str_length s : length (str s) = String.length s.
Proof. induction s; simpl; congruence. Qed.

(** A valid context, field by field, and the size of its text. *)
Lemma validateFileContext_ok v c : validateFileContext v = Ok c →
  ∃ fs b, exact v context_keys = Ok fs ∧ context_of fs = Some c ∧ encodeAttachmentContext manifest_object c None = Ok b ∧
    fileSize c <= MAX_FILE_SIZE ∧ chunkSize c = MAX_CHUNK_SIZE ∧ chunkCount c <= MAX_CHUNK_COUNT.
Proof.
  unfold validateFileContext. intros H. apply bind_ok in H as (fs & Hf & H). apply bind_ok in H as (c' & Hc & H).
  apply bind_ok in H as (b & Hb & H). apply bind_ok in H as (u & Hg & H). apply Ok_inj in H as ->. guard_inv Hg.
  apply require_ok in Hc. exists fs, b. split_and!; try done; lia.
Qed.

Definition value_bound (k : string) : nat :=
  if includes ["fileSize"; "chunkSize"; "chunkCount"; "version"; "createdAt"; "expiresAt"] k then 17
  else if includes ["senderIdentityReference"; "recipientIdentityReference"] k then 338
  else if String.eqb k "context" then 2500 else if String.eqb k "key" then 260 else 218.
Definition key_bound (k : string) : nat := (6 * String.length k + 4 + value_bound k)%nat.

(** [stringify_bound] with these bounds, for an object with the given keys. *)
Lemma stringify_keys fs ks :
  plain (JObj fs) = true → keys fs ≡ₚ ks → Forall (λ k, (String.length (stringify (get fs k)) ≤ value_bound k)%nat) ks →
  (String.length (stringify (JObj fs)) ≤ 2 + total_of key_bound ks)%nat.
Proof.
  intros Hp Hk HB. apply (stringify_bound fs ks key_bound Hp Hk). intros k Hin. rewrite Forall_forall in HB.
  apply Nat.add_le_mono_l, HB, Hin.
Qed.

Lemma stringify_str s n : String.length s = n → (String.length (stringify (JStr s)) ≤ 6 * n + 2)%nat.
Proof. intros <-. apply quote_length. Qed.

Lemma context_text v c : validateFileContext v = Ok c → plain v = true → (String.length (stringify v) ≤ 2500)%nat.
Proof.
  intros (fs & b & He & Hc & Hb & Hmax & _)%validateFileContext_ok Hp. apply context_of_ok in Hc as (G1 & G2 & G3 & G4 & G5 & G6 & G7 & G8 & G9).
  destruct (encode_context_frame _ _ _ _ Hb) as [(u1 & u2 & u3 & u4 & _ & U1 & U2 & U3 & U4) S R ? ? ? _ _ ?].
  apply uuid_length in U1, U2, U3, U4. rewrite str_length in S, R.
  destruct (exact_keys v context_keys fs) as [-> Hk]; [done|refine (proj1 (bool_decide_eq_true _) _); by vm_compute|done| |].
  { apply Forall_forall. repeat constructor; congruence. }
  etrans; [apply (stringify_keys fs context_keys Hp Hk)|apply Nat.leb_le; by vm_compute].
  assert (∀ z, 0 <= z < 2 ^ 32 → (String.length (stringify (JNum (NInt z))) ≤ 17)%nat) as HN.
  { intros z Hz. apply num_length. unfold MAX_SAFE_INTEGER, TRANSFER_EXPIRY. lia. }
  unfold context_keys. rewrite !Forall_cons, Forall_nil, G1, G2, G3, G4, G5, G6, G7, G8, G9. split_and!;
    first [exact I|etrans; [first [by apply (stringify_str _ 36)|by apply (stringify_str _ 56)|apply HN; unfold MAX_FILE_SIZE in *; lia]
                    |apply Nat.leb_le; by vm_compute]].
Qed.

Definition reference_keys : list string := ["version"; "context"; "key"; "createdAt"; "expiresAt"].
Lemma validateFileReference_ok r f : validateFileReference r = Ok f →
  ∃ fs k, exact r reference_keys = Ok fs ∧ get fs "version" = JNum (NInt 2) ∧ validateFileContext (get fs "context") = Ok (fr_context f) ∧
    get fs "key" = JStr k ∧ strlen k <= 43 ∧ unb64 k 32 = Ok (fr_key f) ∧ length (fr_key f) = 32%nat ∧
    get fs "createdAt" = JNum (NInt (fr_createdAt f)) ∧ 0 <= fr_createdAt f <= MAX_SAFE_INTEGER ∧
    get fs "expiresAt" = JNum (NInt (fr_createdAt f + TRANSFER_EXPIRY)) ∧ fr_expiresAt f = fr_createdAt f + TRANSFER_EXPIRY.
Proof.
  unfold validateFileReference. intros H. apply bind_ok in H as (fs & Hf & H). apply bind_ok in H as (? & Hv & H). guard_inv Hv.
  apply bind_ok in H as (c & Hc & H). apply bind_ok in H as (key & Hk & H). apply bind_ok in H as (t & Ht & H).
  apply require_ok in Ht. apply bind_ok in H as (? & Hg & H). guard_inv Hg. apply Ok_inj in H as <-. destruct Hg as [[Hl Ht0] He].
  destruct (get fs "key") as [| | | |k| |] eqn:Ek; try discriminate Hk. exists fs, k. cbn [fr_context fr_key fr_createdAt fr_expiresAt].
  assert (strlen k <= 43) as Hkl.
  { unfold unb64_value, unb64 in Hk. apply bind_ok in Hk as (? & Hk & _). guard_inv Hk. change (ceil_div (32 * 4) 3) with 43 in Hk. lia. }
  unfold js_safe_int in Ht. destruct (get fs "createdAt") as [| | |n| | |] eqn:En; try discriminate Ht.
  apply safe_int_Some in Ht as [-> Ht]. apply isSafeInteger_bounds in Ht. apply Nat.eqb_eq in Hl. split_and!; try done; lia.
Qed.

Lemma reference_text r f : validateFileReference r = Ok f → plain r = true → (String.length (stringify r) ≤ 4000)%nat.
Proof.
  intros (fs & k & He & G1 & Gc & Gk & Hkl & _ & _ & Gt & Ht & Gx & _)%validateFileReference_ok Hp.
  destruct (exact_keys r reference_keys fs) as [-> Hk]; [done|refine (proj1 (bool_decide_eq_true _) _); by vm_compute|done| |].
  { apply Forall_forall. repeat constructor; try congruence. intros E. rewrite E in Gc. discriminate Gc. }
  assert (plain (get fs "context") = true) as Hpc.
  { cbn [plain] in Hp. apply andb_true_iff in Hp as [Hp Hnd]. apply bool_decide_eq_true in Hnd. rewrite forallb_forall in Hp.
    assert ("context" ∈ keys fs) as Hin by (rewrite Hk; set_solver). apply list_elem_of_fmap in Hin as (kv & E & Hin).
    pose proof (get_member fs kv Hnd Hin) as Hg. rewrite <-E in Hg. rewrite Hg. by apply Hp, list_elem_of_In. }
  etrans; [apply (stringify_keys fs reference_keys Hp Hk)|apply Nat.leb_le; by vm_compute].
  unfold reference_keys. rewrite !Forall_cons, Forall_nil, G1, Gk, Gt, Gx. split_and!; [| |..|exact I].
  - apply num_length. unfold MAX_SAFE_INTEGER, TRANSFER_EXPIRY. lia.
  - by eapply context_text.
  - cbn [stringify]. pose proof (quote_length k). change (value_bound "key") with 260%nat. unfold strlen in Hkl. lia.
  - apply num_length. unfold MAX_SAFE_INTEGER, TRANSFER_EXPIRY in *. lia.
  - apply num_length. unfold TRANSFER_EXPIRY, MAX_SAFE_INTEGER in *. lia.
Qed.

(** every file reference the sender can publish is one the recipient accepts: the serialised text carries the prefix
    the parser looks for, stays within the 4096 code units it admits whatever the participants and the geometry, and
    parses to the same context, key and validity period. *)
Theorem file_reference_roundtrip r t :
  serializeFileReference r = Ok t → plain r = true →
  ∃ f, parseFileReference t = Ok f ∧ validateFileReference r = Ok f ∧ strlen t <= 4096 ∧ length (fr_key f) = 32%nat ∧
    fr_expiresAt f = fr_createdAt f + TRANSFER_EXPIRY ∧ fileSize (fr_context f) <= MAX_FILE_SIZE ∧
    chunkCount (fr_context f) = ceil_div (fileSize (fr_context f)) MAX_CHUNK_SIZE.
Proof.
  unfold serializeFileReference. intros H Hp. apply bind_ok in H as (f & Hf & H). apply Ok_inj in H as <-. exists f.
  pose proof (reference_text r f Hf Hp) as Hl.
  assert (strlen (FILE_PREFIX +:+ stringify r) <= 4096) as Hlen.
  { unfold strlen. rewrite sapp_length. change (String.length FILE_PREFIX) with 17%nat. lia. }
  destruct (validateFileReference_ok _ _ Hf) as (fs & k & _ & _ & Hc & _ & _ & _ & Hk & _ & _ & _ & Hx).
  apply validateFileContext_ok in Hc as (fs' & b & _ & _ & Hb & Hs & Hcs & _). apply encode_context_frame in Hb as [_ _ _ _ _ _ _ _ Hg].
  split_and!; try done; [|by rewrite <-Hcs; apply Hg].
  unfold parseFileReference. rewrite strip_prefix_app. cbn [require mbind res_bind].
  rewrite throw_if_false by lia. cbn [mbind res_bind]. rewrite parse_stringify by done. done.
Qed.

Definition context_json (c : AttachmentAuthenticatedContext) : jsval :=
  JObj [("transferId", JStr (transferId c)); ("conversationId", JStr (conversationId c));
        ("senderParticipantId", JStr (senderParticipantId c)); ("recipientParticipantId", JStr (recipientParticipantId c));
        ("senderIdentityReference", JStr (senderIdentityReference c)); ("recipientIdentityReference", JStr (recipientIdentityReference c));
        ("fileSize", JNum (NInt (fileSize c))); ("chunkSize", JNum (NInt (chunkSize c))); ("chunkCount", JNum (NInt (chunkCount c)))].
Definition reference_json (c : AttachmentAuthenticatedContext) (key : list ascii) (created : Z) : jsval :=
  JObj [("version", JNum (NInt 2)); ("context", context_json c); ("key", JStr (b64 key)); ("createdAt", JNum (NInt created));
        ("expiresAt", JNum (NInt (created + TRANSFER_EXPIRY)))].
Definition file_context : AttachmentAuthenticatedContext :=
  {| transferId := "00000000-0000-4000-8000-000000000001"; conversationId := "00000000-0000-4000-8000-00000000000c";
     senderParticipantId := "00000000-0000-4000-8000-00000000000a"; recipientParticipantId := "00000000-0000-4000-8000-00000000000b";
     senderIdentityReference := "K3 AAAA AAAA AAAA AAAA AAAA AAAA AAAA AAAA AAAA AAAA AAA";
     recipientIdentityReference := "K3 BBBB BBBB BBBB BBBB BBBB BBBB BBBB BBBB BBBB BBBB BBB";
     fileSize := 300000; chunkSize := 262144; chunkCount := 2 |}.
Definition sample_reference : jsval := reference_json file_context sample_key 1700000000000.
Definition sample_text : string := FILE_PREFIX +:+ stringify sample_reference.

Lemma file_reference_roundtrip_witness :
  strlen sample_text = 604 ∧ ∃ f, parseFileReference sample_text = Ok f ∧ validateFileReference sample_reference = Ok f ∧
    strlen sample_text <= 4096 ∧ length (fr_key f) = 32%nat ∧ fr_expiresAt f = fr_createdAt f + TRANSFER_EXPIRY ∧
    fileSize (fr_context f) <= MAX_FILE_SIZE ∧ chunkCount (fr_context f) = ceil_div (fileSize (fr_context f)) MAX_CHUNK_SIZE.
Proof.
  split; [reflexivity|]. apply (file_reference_roundtrip sample_reference sample_text); vm_compute; reflexivity.
Defined.

(** ** Generations *)
Inductive state_op :=
| op_begin (t : Z) (name : option string)
| op_move (g : Z) (p : FilePhase) (b : option Z) (why : option string) (retry : bool) (code : option string)
| op_details (g t : Z) (name : option string)
| op_cancel.
Definition step_op (o : state_op) (s : FileTransferState) : FileTransferState :=
  match o with
  | op_begin t name => (begin_ t name s).2
  | op_move g p b why retry code => (move g p b why retry code s).2
  | op_details g t name => details g t name s
  | op_cancel => cancel s
  end.
Definition run_ops (l : list state_op) (s : FileTransferState) : FileTransferState := foldl (λ s o, step_op o s) s l.

(** A generation that is over: superseded, or in a phase without successors. *)
Definition over (g : Z) (s : FileTransferState) : Prop := g <= generation s ∧ live g s = false.

Lemma move_result g p b why retry code s :
  move g p b why retry code s = (false, s) ∨
  (live g s = true ∧ (p = phase (current s) ∨ p ∈ transitions (phase (current s))) ∧
   ∃ q, move g p b why retry code s = (true, report s (generation s) q) ∧ phase q = p).
Proof.
  unfold move, live. destruct (g =? generation s); [|by left]. cbn [negb andb orb].
  destruct (terminal (phase (current s))); [rewrite orb_true_r; by left|]. rewrite orb_false_r.
  bdec (p = phase (current s)); cbn [negb andb].
  - right. split_and!; [done|by left|by eexists].
  - bdec (p ∈ transitions (phase (current s))); cbn [negb]; [|by left]. right. split_and!; [done|by right|by eexists].
Qed.

Lemma live_generation g s : live g s = true → g = generation s.
Proof. unfold live. intros [H _]%andb_true_iff. by apply Z.eqb_eq. Qed.

Lemma over_step g o s : over g s → over g (step_op o s).
Proof.
  intros [Hle Ho]. destruct o as [t name|g' p b why retry code|g' t name|]; cbn [step_op].
  - split; cbn; [lia|]. apply andb_false_iff. left. cbn. lia.
  - destruct (move_result g' p b why retry code s) as [->|(Hl & _ & q & -> & _)]; [done|]. split; [done|].
    pose proof (live_generation _ _ Hl) as ->. unfold live in *. cbn [report generation current snd] in *.
    destruct (Z.eqb_spec g (generation s)) as [->|]; [|done]. by rewrite Z.eqb_refl, Ho in Hl.
  - unfold details. destruct (live g' s) eqn:Hl; [|done]. split; [done|].
    pose proof (live_generation _ _ Hl) as ->. unfold live in *. cbn [report generation current phase negb] in *.
    destruct (Z.eqb_spec g (generation s)) as [->|]; [|done]. by rewrite Z.eqb_refl, Ho in Hl.
  - unfold cancel. assert (∀ s', generation s' = generation s →
      over g {| generation := generation s' + 1; current := current s'; reported := reported s' |}) as H.
    { intros s' E. split; cbn; [lia|]. unfold live. cbn. apply andb_false_iff. left. lia. }
    apply H. destruct (live (generation s) s); [|done].
    by destruct (move_result (generation s) Canceled None None false None s) as [->|(_ & _ & q & -> & _)].
Qed.

(** Once a transfer is over (cancelled, failed, expired, complete, waiting for its recipient, or superseded by a later
    one), no callback of it has any effect, whatever operations follow: its moves are refused and its details ignored, so
    a delayed upload or download can neither revive it nor touch the transfer that replaced it. *)
Theorem finished_generation_is_inert g s l :
  over g s →
  (∀ p b why retry code, move g p b why retry code (run_ops l s) = (false, run_ops l s)) ∧
  (∀ t name, details g t name (run_ops l s) = run_ops l s).
Proof.
  intros Ho. assert (over g (run_ops l s)) as [_ Hl].
  { revert s Ho. induction l as [|o l IH]; intros s Ho; [done|]. cbn. by apply IH, over_step. }
  split.
  - intros p b why retry code. destruct (move_result g p b why retry code (run_ops l s)) as [H|(H & _)]; [done|congruence].
  - intros t name. unfold details. by rewrite Hl.
Qed.

Definition cancelled_demo : FileTransferState := cancel (begin_ 100 None initial_state).2.
Lemma finished_generation_is_inert_witness :
  generation cancelled_demo = 2 ∧ phase (current cancelled_demo) = Canceled ∧
  (move 1 Uploading (Some 50) None false None (run_ops [op_begin 7 None; op_move 3 Encrypting None None false None] cancelled_demo)).1 = false.
Proof.
  split_and!; [reflexivity..|].
  destruct (finished_generation_is_inert 1 cancelled_demo [op_begin 7 None; op_move 3 Encrypting None None false None]) as [H _];
    [split; [vm_compute; discriminate|reflexivity]|]. rewrite H. reflexivity.
Defined.
