(* ===== verification/FileWorkflow.v ===== *)
(** * Sending and receiving a file: the client's workflow ([files/workflow.ts])

    The workflow runs on the event loop ([EventLoop]): the contact authority, the file relay, the cache of sealed objects, the file
    that is read and the output that is written answer its requests some time later, or fail; the user may cancel, retry or start
    another transfer meanwhile. The key and the objects of a transfer in progress are shared by the operations that work on it and
    by what cancels it ([jobs]), and cancelling fills the key with zeros. The output of a download belongs to one call: what it has
    been given is carried along ([written]). Filling arrays that nobody else can see with zeros is left out. *)
From S2P Require Import Prelude Json Base64 RoomMessage Attachments FileProtocol EventLoop.

(** ** Data *)
(* service/src/files/workflow.ts:5-5 FileSource *)
Record FileSource := { source_size : Z; source_name : string; source_type : string; source_id : nat }.
Inductive ObjectIndex := the_manifest | chunk_index (i : Z).
#[export] Instance object_index_eq_dec : EqDecision ObjectIndex.
Proof. solve_decision. Defined.
(** What is asked of the others: the authority, the file gateway, the cache, the source, the publisher and the output. A request
    [finish] carries the reference of the file and what the output has been given. *)
(* service/src/files/workflow.ts:8-17 FileGateway *)
Inductive Request :=
| ask_authority (verified refresh : bool)
| open_cache | cache_get (cache : nat) (index : ObjectIndex) | cache_put (cache : nat) (index : ObjectIndex) (value : WireObject) | cache_clear (cache : nat)
| create (binding : FileBinding) (size : Z) (signal : nat) | status (id : string) (signal : nat)
| put (id : string) (index : ObjectIndex) (value : WireObject) (signal : nat) | complete (id : string) (signal : nat)
| chunk (id : string) (i : Z) (signal : nat) | cancel_transfer (id : string)
| read_source (source : nat) (offset length : Z)
| publish (text : string) (binding : FileBinding)
| open_output (size : Z) | write (output : nat) (bytes : list ascii)
| finish (output : nat) (reference : FileReference) (written : list (list ascii)) (manifest : AttachmentManifestV2) | discard (output : nat).
(** A status is what [FileStatus] describes and the [version] beside it. *)
Inductive Reply :=
| a_binding (b : FileBinding) | a_cache (c : nat) | a_status (version : Z) (s : FileStatus) | a_object (o : option WireObject)
| a_json (v : jsval) | a_bytes (b : list ascii) | an_output (o : nat) | a_done.
(* service/src/files/workflow.ts:18-18 Pending *)
Record Job := { j_source : FileSource; j_reference : FileReference; j_key : list ascii; j_cache : nat; produced : list ObjectIndex }.
(** a callback that a transfer of bytes calls with its progress *)
Inductive Callback :=
| sending (g before plain wire_length : Z)
| receiving (g total plain last : Z).
(** variables of a call that its [catch] reads *)
Record Locals := { l_cache : option nat; l_created : option string; l_output : option nat }.
Inductive Action := requested (n : nat) (r : Request) | sealing (job : nat) (index : ObjectIndex).
(* service/src/files/workflow.ts:26-32 FileTransferWorkflow, fields *)
Record Workflow := {
  progress : FileTransferState; job : option nat; jobs : gmap nat Job; controller : option nat; aborted : list nat; running : bool;
  failureStage : string; locals : gmap nat Locals; callbacks : gmap nat Callback; now : Z; counter : nat; trace : list Action;
  replies : gmap nat (res Reply) }.
Definition with_progress (p : FileTransferState) (w : Workflow) : Workflow := {|
  progress := p; job := job w; jobs := jobs w; controller := controller w; aborted := aborted w; running := running w; failureStage := failureStage w;
  locals := locals w; callbacks := callbacks w; now := now w; counter := counter w; trace := trace w; replies := replies w |}.
Definition with_jobs (j : option nat) (js : gmap nat Job) (w : Workflow) : Workflow := {|
  progress := progress w; job := j; jobs := js; controller := controller w; aborted := aborted w; running := running w; failureStage := failureStage w;
  locals := locals w; callbacks := callbacks w; now := now w; counter := counter w; trace := trace w; replies := replies w |}.
Definition with_control (c : option nat) (a : list nat) (r : bool) (stage : string) (w : Workflow) : Workflow := {|
  progress := progress w; job := job w; jobs := jobs w; controller := c; aborted := a; running := r; failureStage := stage;
  locals := locals w; callbacks := callbacks w; now := now w; counter := counter w; trace := trace w; replies := replies w |}.
Definition with_locals (l : gmap nat Locals) (c : gmap nat Callback) (w : Workflow) : Workflow := {|
  progress := progress w; job := job w; jobs := jobs w; controller := controller w; aborted := aborted w; running := running w;
  failureStage := failureStage w; locals := l; callbacks := c; now := now w; counter := counter w; trace := trace w; replies := replies w |}.
Definition traced (n : nat) (l : list Action) (w : Workflow) : Workflow := {|
  progress := progress w; job := job w; jobs := jobs w; controller := controller w; aborted := aborted w; running := running w;
  failureStage := failureStage w; locals := locals w; callbacks := callbacks w; now := now w; counter := n; trace := trace w ++ l; replies := replies w |}.
(** time passes and replies arrive *)
Definition elapsed (t : Z) (r : gmap nat (res Reply)) (w : Workflow) : Workflow := {|
  progress := progress w; job := job w; jobs := jobs w; controller := controller w; aborted := aborted w; running := running w;
  failureStage := failureStage w; locals := locals w; callbacks := callbacks w; now := t; counter := counter w; trace := trace w; replies := r |}.

Section workflow.
(** AES-GCM; the random nonces and keys; what an error object is besides its message: the name QuotaExceededError, and its
    [safeDiagnosticCode] *)
Context (encrypt : list ascii → list ascii → list ascii → list ascii → list ascii)
  (decrypt : list ascii → list ascii → list ascii → list ascii → option (list ascii))
  (random_nonce random_key : nat → list ascii) (quota_exceeded : string → bool) (tagged : string → option string).
Notation A := (async Workflow).

(** ** Requests, and the fields of the workflow *)
Definition fresh : M Workflow nat := λ w, (Ok (counter w), traced (S (counter w)) [] w).
Definition tell (a : Action) : M Workflow unit := modify (λ w, traced (counter w) [a] w).
Definition date_now : M Workflow Z := gets now.
Definition asked (n : nat) (r : Request) : A Reply :=
  sync (tell (requested n r));;
  wait (λ w, bool_decide (is_Some (replies w !! n)));;
  x ← sync (gets (λ w, default (Err "unreachable") (replies w !! n)));
  sync (lift x).
Definition ask (r : Request) : A Reply := n ← sync fresh; asked n r.
Definition answer_of {B} (f : Reply → option B) (m : A Reply) : A B := x ← m; sync (lift (require (f x) "unreachable")).
Definition as_binding (x : Reply) : option FileBinding := match x with a_binding b => Some b | _ => None end.
Definition as_cache (x : Reply) : option nat := match x with a_cache c => Some c | _ => None end.
Definition as_status (x : Reply) : option (Z * FileStatus) := match x with a_status v s => Some (v, s) | _ => None end.
Definition as_object (x : Reply) : option (option WireObject) := match x with a_object o => Some o | _ => None end.
Definition as_json (x : Reply) : option jsval := match x with a_json v => Some v | _ => None end.
Definition as_bytes (x : Reply) : option (list ascii) := match x with a_bytes b => Some b | _ => None end.
Definition as_output (x : Reply) : option nat := match x with an_output o => Some o | _ => None end.
Definition authority (refresh : bool) : A FileBinding := answer_of as_binding (ask (ask_authority true refresh)).
Definition set_stage (stage : string) : M Workflow unit := modify (λ w, with_control (controller w) (aborted w) (running w) stage w).
Definition set_running (b : bool) : M Workflow unit := modify (λ w, with_control (controller w) (aborted w) b (failureStage w) w).
Definition move_to (g : Z) (p : FilePhase) (b : option Z) : M Workflow unit :=
  modify (λ w, with_progress (move g p b None false None (progress w)).2 w).
Definition begin_transfer (size : Z) (name : option string) : M Workflow Z :=
  λ w, let '(g, p) := begin_ size name (progress w) in (Ok g, with_progress p w).
(** [this.controller = new AbortController()] *)
Definition new_controller : M Workflow nat :=
  c ← fresh; modify (λ w, with_control (Some c) (aborted w) (running w) (failureStage w) w);; mret c.
Definition abort : M Workflow unit :=
  modify (λ w, with_control (controller w) (match controller w with Some c => c :: aborted w | None => aborted w end) (running w) (failureStage w) w).
Definition edit_job (n : nat) (f : Job → Job) : M Workflow unit := modify (λ w, with_jobs (job w) (alter f n (jobs w)) w).
Definition this_job (n : nat) : M Workflow Job := observe (λ w, require (jobs w !! n) "unreachable").
Definition set_locals (frame : nat) (l : Locals) : M Workflow unit := modify (λ w, with_locals (<[frame := l]> (locals w)) (callbacks w) w).
Definition register (n : nat) (c : Callback) : M Workflow unit := modify (λ w, with_locals (locals w) (<[n := c]> (callbacks w)) w).
Definition quietly (m : A unit) : A unit := try_ m (λ _, mret tt).

(* service/src/files/workflow.ts:33-33 FileTransferWorkflow.fence *)
Definition fence (g : Z) : A unit :=
  w ← sync (gets (λ w, w));
  if negb (live g (progress w)) || match controller w with Some c => bool_decide (c ∈ aborted w) | None => false end
  then fail "File canceled." else mret tt.
Definition same_objects (a b : AttachmentAuthenticatedContext) : bool :=
  String.eqb (transferId a) (transferId b) && (fileSize a =? fileSize b) && (chunkSize a =? chunkSize b) && (chunkCount a =? chunkCount b).
(* service/src/files/workflow.ts:19-24 checkStatus *)
Definition checkStatus (r : FileReference) (answer : Z * FileStatus) (time : Z) : res unit :=
  let s := answer.2 in
  throw_if (negb (answer.1 =? 2) || negb (sameBinding (binding_of (fs_context s)) (binding_of (fr_context r))) ||
    negb (same_objects (fs_context s) (fr_context r)) || negb (fs_createdAt s =? fr_createdAt r) || negb (fs_expiresAt s =? fr_expiresAt r))
    "File binding rejected.";;
  throw_if (bool_decide (fs_state s = expired) || (fs_expiresAt s <=? time)) "File expired.";;
  throw_if (bool_decide (fs_state s = canceled)) "File canceled.";;
  throw_if (negb (bool_decide (NoDup (indices s))) || existsb (λ i, (i <? 0) || (chunkCount (fr_context r) <=? i)) (indices s)) "File state rejected.".
Definition check (g : Z) (r : FileReference) (s : Z * FileStatus) : A unit :=
  fence g;;
  t ← sync date_now;
  sync (lift (checkStatus r s t)).

(** ** Release and failure *)
Definition zeros (l : list ascii) : list ascii := replicate (length l) (chr_of 0).
Definition fill_key (j : Job) : Job := {| j_source := j_source j; j_reference := j_reference j; j_key := zeros (j_key j); j_cache := j_cache j; produced := produced j |}.
Definition add_produced (index : ObjectIndex) (j : Job) : Job :=
  {| j_source := j_source j; j_reference := j_reference j; j_key := j_key j; j_cache := j_cache j; produced := index :: produced j |}.
(* service/src/files/workflow.ts:159-159 FileTransferWorkflow.release *)
Definition release (cancel_it : bool) : A unit :=
  o ← sync (gets job);
  sync (modify (λ w, with_jobs None (jobs w) w));;
  match o with
  | Some n =>
      sync (edit_job n fill_key);;
      p ← sync (this_job n);
      awaited (quietly (ask (cache_clear (j_cache p));; mret tt));;
      if cancel_it then awaited (quietly (ask (cancel_transfer (transferId (fr_context (j_reference p))));; mret tt)) else mret tt
  | None => mret tt
  end.
(* service/src/files/workflow.ts:160-160 FileTransferWorkflow.forget *)
Definition forget : A unit := sync abort;; awaited (release true).
(* service/src/files/workflow.ts:158-158 FileTransferWorkflow.cancel *)
Definition cancel_workflow : A unit :=
  sync (modify (λ w, with_progress (cancel (progress w)) w));;
  sync abort;;
  fork (quietly (release true)).
(** [/a|b/i.test(reason)] *)
Definition mentions (words : list string) (reason : string) : bool :=
  existsb (λ word, bool_decide (is_Some (String.index 0 word (lowercase reason)))) words.
(* service/src/files/workflow.ts:144-157 FileTransferWorkflow.failed *)
Definition failed (g : Z) (e : string) : A unit :=
  w ← sync (gets (λ w, w));
  if negb (live g (progress w)) then mret tt else
  let reason := if quota_exceeded e then "Not enough local storage space." else e in
  let is_expired := mentions ["expired"] reason in
  let restart := mentions ["cache unavailable"] reason in
  let unsupported := String.eqb reason "Secure file storage unavailable." in
  let retry := bool_decide (is_Some (job w)) && negb is_expired && negb unsupported && negb restart &&
    mentions ["network"; "fetch"; "temporarily"; "storage unavailable"; "rate limit"] reason in
  let failure :=
    if restart then "Sealed file cache was lost. Select the original file again to start a new transfer."
    else if unsupported then "This browser cannot safely stream attachments."
    else if mentions ["8 mib"] reason then "File must be between 1 byte and 8 MiB."
    else if is_expired then "File expired."
    else if mentions ["quota"] reason then "File storage quota reached."
    else if mentions ["space"; "full"; "quotaexceeded"] reason then "Not enough local storage."
    else if mentions ["verification"; "identity"; "contact"; "binding"] reason then "Verified unchanged contact required."
    else if retry then "Network unavailable. Retry this transfer in this session."
    else "File transfer failed. Select the file again to restart." in
  let code := default (if is_expired then "FILE_TRANSFER_EXPIRED" else if mentions ["canceled"] reason then "FILE_TRANSFER_CANCELED"
    else if mentions ["identity"; "contact"; "binding"; "verification"] reason then "VERIFICATION_REQUIRED"
    else if mentions ["rate limit"] reason then "FILE_RATE_LIMITED" else failureStage w) (tagged e) in
  sync (modify (λ w, with_progress (move g (if restart then RestartRequired else if is_expired then Expired else Failed) None (Some failure) retry
    (Some code) (progress w)).2 w));;
  if restart then fork (quietly (release true)) else mret tt.

(** ** Uploading *)
Definition reference_value (r : FileReference) : jsval :=
  JObj [("version", JNum (NInt 2)); ("context", context_json (fr_context r)); ("key", JStr (b64 (fr_key r)));
        ("createdAt", JNum (NInt (fr_createdAt r))); ("expiresAt", JNum (NInt (fr_expiresAt r)))].
(** the length of chunk [i] of a file *)
Definition part_size (c : AttachmentAuthenticatedContext) (size i : Z) : Z := Z.min (chunkSize c) (size - i * chunkSize c).
Definition accepted_bytes (c : AttachmentAuthenticatedContext) (s : FileStatus) : Z :=
  foldr (λ i sum, part_size c (fileSize c) i + sum) 0 (indices s).
Definition current_signal : M Workflow nat := gets (λ w, default 0%nat (controller w)).
Definition authorize_transfer (g : Z) (r : FileReference) (refresh : bool) : A unit :=
  b ← authority refresh;
  if negb (sameBinding b (binding_of (fr_context r))) then fail "File contact identity changed." else fence g.
(** [p.produced.add(index)], after which the object is sealed *)
Definition produce (n : nat) (index : ObjectIndex) : M Workflow unit := edit_job n (add_produced index);; tell (sealing n index).
Definition cache_lost : string := "File cache unavailable; restart required.".
(* service/src/files/workflow.ts:83-91 FileTransferWorkflow.upload, the sealed chunk *)
Definition sealed_chunk (n : nat) (g i accepted : Z) : A WireObject :=
  p ← sync (this_job n);
  let c := fr_context (j_reference p) in
  o ← answer_of as_object (ask (cache_get (j_cache p) (chunk_index i)));
  fence g;;
  match o with
  | Some value => mret value
  | None =>
      p ← sync (this_job n);
      if bool_decide (chunk_index i ∈ produced p) then fail cache_lost else
      sync (produce n (chunk_index i));;
      sync (move_to g Encrypting (Some accepted));;
      bytes ← answer_of as_bytes (ask (read_source (source_id (j_source p)) (i * chunkSize c) (part_size c (fileSize c) i)));
      fence g;;
      p ← sync (this_job n);
      draw ← sync fresh;
      object ← awaited (sync (lift (sealAttachmentChunk encrypt (random_nonce draw) (j_key p) c i bytes)));
      fence g;;
      ask (cache_put (j_cache p) (chunk_index i) (wire object));;
      fence g;;
      mret (wire object)
  end.
(* service/src/files/workflow.ts:80-97 FileTransferWorkflow.upload, the loop *)
Fixpoint upload_chunks (n : nat) (g : Z) (signal : nat) (l : list Z) (s : Z * FileStatus) (accepted : Z) : A unit :=
  match l with
  | [] => mret tt
  | i :: l' =>
      sync (set_stage "FILE_CHUNK_UPLOAD_FAILED");;
      p ← sync (this_job n);
      let r := j_reference p in
      let c := fr_context r in
      authorize_transfer g r false;;
      if bool_decide (i ∈ indices s.2) then upload_chunks n g signal l' s accepted else
      value ← sealed_chunk n g i accepted;
      sync (move_to g Uploading (Some accepted));;
      k ← sync fresh;
      sync (register k (sending g accepted (part_size c (fileSize c) i) (strlen (w_ciphertext value))));;
      s ← answer_of as_status (asked k (put (transferId c) (chunk_index i) value signal));
      check g r s;;
      let accepted := accepted_bytes c s.2 in
      sync (move_to g Uploading (Some accepted));;
      upload_chunks n g signal l' s accepted
  end.
Definition chunk_numbers (c : AttachmentAuthenticatedContext) : list Z := Z.of_nat <$> seq 0 (Z.to_nat (chunkCount c)).
(* service/src/files/workflow.ts:67-104 FileTransferWorkflow.upload *)
Definition upload (g : Z) : A unit :=
  o ← sync (gets job);
  n ← sync (lift (require o "TypeError"));
  p ← sync (this_job n);
  let r := j_reference p in
  let c := fr_context r in
  signal ← sync current_signal;
  authorize_transfer g r true;;
  s ← answer_of as_status (ask (status (transferId c) signal));
  check g r s;;
  sync (move_to g Encrypting None);;
  o ← answer_of as_object (ask (cache_get (j_cache p) the_manifest));
  manifest ← sync (lift (require o cache_lost));
  sync (move_to g Uploading None;; set_stage "FILE_MANIFEST_UPLOAD_FAILED");;
  s ← match fs_manifest s.2 with
      | None => s ← answer_of as_status (ask (put (transferId c) the_manifest manifest signal)); check g r s;; mret s
      | Some m => if negb (bool_decide (m = manifest)) then fail "File object conflict." else mret s
      end;
  let accepted := accepted_bytes c s.2 in
  sync (move_to g Uploading (Some accepted));;
  upload_chunks n g signal (chunk_numbers c) s accepted;;
  sync (set_stage "FILE_FINALIZE_FAILED");;
  authorize_transfer g r false;;
  completed ← answer_of as_status (ask (complete (transferId c) signal));
  check g r completed;;
  if negb (bool_decide (fs_state completed.2 = available)) || negb (Z.of_nat (length (indices completed.2)) =? chunkCount c) then fail "File incomplete." else
  sync (set_stage "FILE_REFERENCE_SEND_FAILED");;
  authorize_transfer g r false;;
  text ← sync (lift (serializeFileReference (reference_value r)));
  ask (publish text (binding_of c));;
  fence g;;
  sync (move_to g WaitingForRecipient (Some (fileSize c)));;
  awaited (release false).

(** ** Sending *)
Definition same_phase (p : FilePhase) (w : Workflow) : bool := bool_decide (phase (current (progress w)) = p).
Definition edit_locals (frame : nat) (f : Locals → Locals) : M Workflow unit := modify (λ w, with_locals (alter f frame (locals w)) (callbacks w) w).
Definition no_locals : Locals := {| l_cache := None; l_created := None; l_output := None |}.
(** the new key, the reference and the job of a transfer the server has created *)
(* service/src/files/workflow.ts:46-50 FileTransferWorkflow.send, the reference *)
Definition new_job (source : FileSource) (binding : FileBinding) (cache : nat) (created : FileStatus) : M Workflow nat :=
  draw ← fresh;
  let key := random_key draw in
  r ← lift (validateFileReference (reference_value {| fr_context := fs_context created; fr_key := key; fr_createdAt := fs_createdAt created;
                                                      fr_expiresAt := fs_expiresAt created |}));
  lift (throw_if (negb (sameBinding binding (binding_of (fs_context created)))) "File binding rejected.");;
  n ← fresh;
  modify (λ w, with_jobs (Some n) (<[n := {| j_source := source; j_reference := r; j_key := key; j_cache := cache; produced := [] |}]> (jobs w)) w);;
  mret n.
(* service/src/files/workflow.ts:41-56 FileTransferWorkflow.send, what is tried *)
Definition send_body (frame : nat) (g : Z) (source : FileSource) : A unit :=
  if negb (isSafeInteger (source_size source)) || (source_size source <? 1) || (MAX_FILE_SIZE <? source_size source)
  then fail "File must be between 1 byte and 8 MiB." else
  binding ← authority true;
  fence g;;
  cache ← answer_of as_cache (ask open_cache);
  sync (edit_locals frame (λ l, {| l_cache := Some cache; l_created := l_created l; l_output := l_output l |}));;
  fence g;;
  sync (set_stage "FILE_CREATE_FAILED");;
  signal ← sync current_signal;
  answer ← answer_of as_status (ask (create binding (source_size source) signal));
  let created := answer.2 in
  sync (edit_locals frame (λ l, {| l_cache := l_cache l; l_created := Some (transferId (fs_context created)); l_output := l_output l |}));;
  fence g;;
  n ← sync (new_job source binding cache created);
  let c := fs_context created in
  manifest ← sync (lift (m ← encodeAttachmentManifest {| m_fileSize := source_size source; m_chunkSize := chunkSize c; m_chunkCount := chunkCount c;
      createdAt := fs_createdAt created; expiresAt := fs_expiresAt created; filename := source_name source; mimeType := source_type source |};
    decodeAttachmentManifest m));
  sync (modify (λ w, with_progress (details g (source_size source) (Some (filename manifest)) (progress w)) w);;
        set_stage "FILE_PREFLIGHT_FAILED";;
        produce n the_manifest);;
  p ← sync (this_job n);
  draw ← sync fresh;
  object ← awaited (sync (lift (sealAttachmentManifest encrypt (random_nonce draw) (j_key p) c manifest)));
  ask (cache_put cache the_manifest (wire object));;
  fence g;;
  awaited (upload g).
(* service/src/files/workflow.ts:57-60 FileTransferWorkflow.send, the catch *)
Definition send_failed (frame : nat) (g : Z) (e : string) : A unit :=
  w ← sync (gets (λ w, w));
  let l := default no_locals (locals w !! frame) in
  (if bool_decide (job w = None) && negb (same_phase WaitingForRecipient w) then
     match l_cache l with Some cache => awaited (quietly (ask (cache_clear cache);; mret tt)) | None => suspend end;;
     match l_created l with
     | Some id => if nonempty id then awaited (quietly (ask (cancel_transfer id);; mret tt)) else mret tt
     | None => mret tt
     end
   else mret tt);;
  failed g e.
(** the start of a transfer: a controller, a generation and the variables of the call *)
Definition start_transfer (size : Z) (name : option string) : M Workflow (nat * Z) :=
  new_controller;;
  g ← begin_transfer size name;
  set_running true;;
  frame ← fresh;
  set_locals frame no_locals;;
  mret (frame, g).
(* service/src/files/workflow.ts:34-61 FileTransferWorkflow.send *)
Definition send (source : FileSource) : A unit :=
  busy ← sync (gets running);
  if (busy : bool) then fail "Another file operation is active." else
  sync (set_stage "FILE_PREFLIGHT_FAILED");;
  awaited forget;;
  f ← sync (start_transfer (source_size source) (Some (source_name source)));
  finally_async (try_ (send_body f.1 f.2 source) (send_failed f.1 f.2)) (sync (set_running false)).
(* service/src/files/workflow.ts:62-66 FileTransferWorkflow.retry *)
Definition retry : A unit :=
  w ← sync (gets (λ w, w));
  match job w ≫= λ n, jobs w !! n with
  | Some p =>
      if running w || negb (same_phase Failed w) || negb (retryable (current (progress w))) then mret tt else
      f ← sync (start_transfer (source_size (j_source p)) (Some (source_name (j_source p))));
      finally_async (try_ (awaited (upload f.2)) (failed f.2)) (sync (set_running false))
  | None => mret tt
  end.

(** ** Receiving *)
Definition swapped (own : FileBinding) : FileBinding := {|
  fb_conversationId := fb_conversationId own; fb_senderParticipantId := fb_recipientParticipantId own;
  fb_recipientParticipantId := fb_senderParticipantId own; fb_senderIdentityReference := fb_recipientIdentityReference own;
  fb_recipientIdentityReference := fb_senderIdentityReference own |}.
Definition open_manifest (r : FileReference) (w : WireObject) : res AttachmentManifestV2 :=
  object ← sealed (wire_json w) MAX_METADATA_SIZE;
  openAttachmentManifest decrypt (fr_key r) (fr_context r) object.
Definition open_chunk (r : FileReference) (i : Z) (v : jsval) : res (list ascii) :=
  object ← sealed v (MAX_CHUNK_SIZE + 16);
  openAttachmentChunk decrypt (fr_key r) (fr_context r) i object.
Definition bytes_in (l : list (list ascii)) : Z := foldr (λ b n, blen b + n) 0 l.
(** one chunk after the other; [written] is what the output has been given, [total] its size *)
(* service/src/files/workflow.ts:127-137 FileTransferWorkflow.receive, the loop *)
Fixpoint receive_chunks (g : Z) (own : FileBinding) (r : FileReference) (size : Z) (output : nat) (l : list Z)
    (written : list (list ascii)) : A (list (list ascii)) :=
  match l with
  | [] => mret written
  | i :: l' =>
      let c := fr_context r in
      let total := bytes_in written in
      now_own ← authority false;
      if negb (sameBinding now_own own) then fail "File contact changed." else
      fence g;;
      sync (set_stage "FILE_DOWNLOAD_FAILED");;
      signal ← sync current_signal;
      k ← sync fresh;
      sync (register k (receiving g total (part_size c size i) (-1)));;
      value ← answer_of as_json (asked k (chunk (transferId c) i signal));
      fence g;;
      sync (move_to g Verifying (Some total);; set_stage "FILE_AUTHENTICATION_FAILED");;
      plaintext ← awaited (sync (lift (open_chunk r i value)));
      fence g;;
      sync (set_stage "FILE_SAVE_FAILED");;
      ask (write output plaintext);;
      fence g;;
      let written := written ++ [plaintext] in
      sync (if i + 1 <? chunkCount c then move_to g Downloading (Some (bytes_in written)) else mret tt);;
      receive_chunks g own r size output l' written
  end.
(* service/src/files/workflow.ts:108-141 FileTransferWorkflow.receive, what is tried *)
Definition receive_body (frame : nat) (g : Z) (text : string) : A unit :=
  sync (set_stage "FILE_PREFLIGHT_FAILED");;
  r ← sync (lift (parseFileReference text));
  own ← authority true;
  fence g;;
  let c := fr_context r in
  if negb (sameBinding (swapped own) (binding_of c)) then fail "File identity binding rejected." else
  sync (set_stage "FILE_RECIPIENT_FETCH_FAILED");;
  signal ← sync current_signal;
  s ← answer_of as_status (ask (status (transferId c) signal));
  check g r s;;
  match fs_manifest s.2 with
  | Some sealed_manifest =>
      if negb (bool_decide (fs_state s.2 = available)) || negb (Z.of_nat (length (indices s.2)) =? chunkCount c) then fail "File incomplete." else
      sync (move_to g Downloading None;; set_stage "FILE_AUTHENTICATION_FAILED");;
      manifest ← awaited (sync (lift (open_manifest r sealed_manifest)));
      fence g;;
      if negb (createdAt manifest =? fr_createdAt r) || negb (expiresAt manifest =? fr_expiresAt r) then fail "File manifest binding rejected." else
      sync (modify (λ w, with_progress (details g (m_fileSize manifest) (Some (filename manifest)) (progress w)) w);;
            set_stage "FILE_SAVE_FAILED");;
      output ← answer_of as_output (ask (open_output (m_fileSize manifest)));
      sync (edit_locals frame (λ l, {| l_cache := l_cache l; l_created := l_created l; l_output := Some output |}));;
      fence g;;
      written ← receive_chunks g own r (m_fileSize manifest) output (chunk_numbers c) [];
      if negb (bytes_in written =? m_fileSize manifest) then fail "File size mismatch." else
      sync (set_stage "FILE_SAVE_FAILED");;
      fence g;;
      ask (finish output r written manifest);;
      fence g;;
      sync (move_to g Complete (Some (bytes_in written)))
  | None => fail "File incomplete."
  end.
(* service/src/files/workflow.ts:142-142 FileTransferWorkflow.receive, the catch *)
Definition receive_failed (frame : nat) (g : Z) (e : string) : A unit :=
  o ← sync (gets (λ w, locals w !! frame ≫= l_output));
  match o with Some output => ask (discard output);; mret tt | None => suspend end;;
  failed g e.
(* service/src/files/workflow.ts:105-143 FileTransferWorkflow.receive *)
Definition receive (text : string) : A unit :=
  busy ← sync (gets running);
  if (busy : bool) then fail "Another file operation is active." else
  awaited forget;;
  f ← sync (start_transfer 0 None);
  finally_async (try_ (receive_body f.1 f.2 text) (receive_failed f.1 f.2)) (sync (set_running false)).
(** the gateway reports how many bytes of a request have been sent or received *)
(* service/src/files/workflow.ts:165-172 chunkProgress *)
Definition progressed (n : nat) (amount : Z) : M Workflow unit :=
  o ← gets (λ w, callbacks w !! n);
  match o with
  | Some (sending g before plain wire_length) =>
      move_to g Uploading (Some (before + Z.min plain (plain * amount / Z.max 1 wire_length)))
  | Some (receiving g total plain last) =>
      let expected := ceil_div (plain + 16) 3 * 4 + 200 in
      let part := Z.min plain (plain * Z.min amount expected / expected) in
      let percent := part * 100 / Z.max 1 plain in
      if (last <? percent) && (part <? plain)
      then register n (receiving g total plain percent);; move_to g Downloading (Some (total + part)) else mret tt
  | None => mret tt
  end.

(** ** The system *)
Inductive file_activity : A unit → Prop :=
| send_activity source : file_activity (send source)
| retry_activity : file_activity retry
| receive_activity text : file_activity (receive text)
| cancel_activity : file_activity cancel_workflow
| progress_activity n amount : file_activity (sync (progressed n amount)).
Inductive file_surroundings (w : Workflow) : Workflow → Prop :=
| surroundings t r : now w <= t → replies w ⊆ r → file_surroundings w (elapsed t r w).
Definition new_workflow (t : Z) : Workflow := {|
  progress := initial_state; job := None; jobs := ∅; controller := None; aborted := []; running := false; failureStage := "FILE_PREFLIGHT_FAILED";
  locals := ∅; callbacks := ∅; now := t; counter := 1; trace := []; replies := ∅ |}.
End workflow.
