(* ===== verification/FileReceipt.v ===== *)
(** * What the client's file workflow delivers

    In everything the workflow reaches, whatever is cancelled, retried, started or answered meanwhile: an output is finished only with
    the whole file, each chunk opened under the key of the reference at its own place, in order; and a reference is published only
    after the relay has confirmed that every object of the transfer is there, and to the contact the transfer was bound to. The
    argument is rely and guarantee ([EventLoop.respects]): requests that were made and replies that have come are kept. *)
From S2P Require Import Prelude Json Base64 RoomMessage Attachments FileProtocol EventLoop FileWorkflow.

Section receipt.
Context (encrypt : list ascii → list ascii → list ascii → list ascii → list ascii)
  (decrypt : list ascii → list ascii → list ascii → list ascii → option (list ascii))
  (random_nonce random_key : nat → list ascii) (quota_exceeded : string → bool) (tagged : string → option string).
Notation A := (async Workflow).
Notation W := Workflow.
Notation open_chunk := (open_chunk decrypt).
Notation open_manifest := (open_manifest decrypt).

(** ** The invariant *)
Definition replied (w : W) (r : Request) (y : Reply) : Prop := ∃ k, requested k r ∈ trace w ∧ replies w !! k = Some (Ok y).
(** the chunks that were received, in order from the first *)
Definition chunks_of (w : W) (r : FileReference) (written : list (list ascii)) : Prop :=
  ∀ i b, written !! i = Some b → ∃ v signal, replied w (chunk (transferId (fr_context r)) (Z.of_nat i) signal) (a_json v) ∧ open_chunk r (Z.of_nat i) v = Ok b.
Record good_file (w : W) (r : FileReference) (written : list (list ascii)) (m : AttachmentManifestV2) : Prop := {
  gf_reference : ∃ text, parseFileReference text = Ok r;
  gf_contact : ∃ own, replied w (ask_authority true true) (a_binding own) ∧ sameBinding (swapped own) (binding_of (fr_context r)) = true;
  gf_manifest : ∃ v s object signal, replied w (status (transferId (fr_context r)) signal) (a_status v s) ∧ fs_state s = available ∧
    fs_manifest s = Some object ∧ open_manifest r object = Ok m ∧ createdAt m = fr_createdAt r ∧ expiresAt m = fr_expiresAt r;
  gf_chunks : chunks_of w r written; gf_count : Z.of_nat (length written) = chunkCount (fr_context r); gf_size : bytes_in written = m_fileSize m }.
Record good_reference (w : W) (text : string) (b : FileBinding) : Prop := {
  gr_reference : ∃ r, serializeFileReference (reference_value r) = Ok text ∧ b = binding_of (fr_context r) ∧
    (∃ own refresh, replied w (ask_authority true refresh) (a_binding own) ∧ sameBinding own b = true) ∧
    ∃ v s signal t, replied w (complete (transferId (fr_context r)) signal) (a_status v s) ∧ checkStatus r (v, s) t = Ok tt ∧ fs_state s = available ∧
      Z.of_nat (length (indices s)) = chunkCount (fr_context r) }.
(** what makes a request right; the others are always right *)
Definition warranted (w : W) (a : Action) : Prop :=
  match a with
  | requested _ (finish o r written m) => good_file w r written m
  | requested _ (publish s b) => good_reference w s b
  | _ => True
  end.
Definition sound (w : W) : Prop := ∀ a, a ∈ trace w → warranted w a.
Definition extends (w w' : W) : Prop := (∀ a, a ∈ trace w → a ∈ trace w') ∧ replies w ⊆ replies w'.
Definition evolves (w w' : W) : Prop := sound w → sound w' ∧ extends w w'.
#[export] Instance extends_preorder : PreOrder extends.
Proof. split; [by split|]. intros w1 w2 w3 [] []. split; [auto|by etrans]. Qed.
#[export] Instance evolves_preorder : PreOrder evolves.
Proof. split; [by split|]. intros w1 w2 w3 H12 H23 H1. destruct (H12 H1) as [H2 ?]. destruct (H23 H2). split; [done|by etrans]. Qed.

(** what is kept by everything that happens *)
Class Stable (F : W → Prop) := stays w w' : extends w w' → F w → F w'.
#[export] Instance stable_pure (P : Prop) : Stable (λ _, P).
Proof. by intros w w'. Qed.
#[export] Instance stable_replied r y : Stable (λ w, replied w r y).
Proof. intros w w' [Ht Hr] (k & ? & ?). exists k. split; [by apply Ht|by eapply lookup_weaken]. Qed.
#[export] Instance stable_and F G : Stable F → Stable G → Stable (λ w, F w ∧ G w).
Proof. intros HF HG w w' H [? ?]. split; [by eapply HF|by eapply HG]. Qed.
#[export] Instance stable_exists {B} (F : B → W → Prop) : (∀ b, Stable (F b)) → Stable (λ w, ∃ b, F b w).
Proof. intros HF w w' H [b ?]. exists b. by eapply HF. Qed.
#[export] Instance stable_forall {B} (F : B → W → Prop) : (∀ b, Stable (F b)) → Stable (λ w, ∀ b, F b w).
Proof. intros HF w w' H Hw b. by eapply HF. Qed.
#[export] Instance stable_implies (P : Prop) (F : W → Prop) : Stable F → Stable (λ w, P → F w).
Proof. intros HF w w' H Hw Hp. by eapply HF; [|apply Hw]. Qed.
#[export] Instance stable_chunks r written : Stable (λ w, chunks_of w r written).
Proof. unfold chunks_of. apply _. Qed.
#[export] Instance stable_file r written m : Stable (λ w, good_file w r written m).
Proof.
  intros w w' H [H1 (own & Ho & Hs) (v & s & object & signal & Hr & Hm) H4 H5 H6]. split; [done|by exists own; split; [eapply stable_replied|]| |by eapply stable_chunks|done..].
  exists v, s, object, signal. split; [by eapply stable_replied|done].
Qed.
#[export] Instance stable_reference text b : Stable (λ w, good_reference w text b).
Proof.
  intros w w' H [(r & ? & ? & (own & refresh & Ho & ?) & v & s & signal & t & Hr & ?)]. split. exists r. split; [done|]. split; [done|].
  split; [exists own, refresh; split; [by eapply stable_replied|done]|]. exists v, s, signal, t. split; [by eapply stable_replied|done].
Qed.

#[export] Instance stable_warranted a : Stable (λ w, warranted w a).
Proof. destruct a as [n []|]; cbn; apply _. Qed.

(** ** Quiet steps *)
Definition neutral (a : Action) : Prop :=
  match a with requested _ (finish _ _ _ _) | requested _ (publish _ _) => False | _ => True end.
Lemma neutral_warranted w a : neutral a → warranted w a.
Proof. by destruct a as [n []|]. Qed.
Definition quiet (w w' : W) : Prop := (∃ l, trace w' = trace w ++ l ∧ Forall neutral l) ∧ replies w' = replies w.
#[export] Instance quiet_preorder : PreOrder quiet.
Proof.
  split; [intros w; split; [exists []; by rewrite app_nil_r|done]|]. intros w1 w2 w3 [(l1 & T1 & N1) R1] [(l2 & T2 & N2) R2].
  split; [|congruence]. exists (l1 ++ l2). rewrite T2, T1, app_assoc. split; [done|by apply Forall_app_2].
Qed.
Lemma warranted_evolves w w' l : trace w' = trace w ++ l → replies w' = replies w → Forall (warranted w) l → evolves w w'.
Proof.
  intros Ht Hr Hl Hw. assert (extends w w') as He by (split; [rewrite Ht; set_solver|by rewrite Hr]). split; [|done].
  intros a. rewrite Ht. intros [Hin|Hin]%elem_of_app; (apply (stable_warranted a _ _ He)); [by apply Hw|]. rewrite Forall_forall in Hl. by apply Hl.
Qed.
Lemma file_quiet_evolves w w' : quiet w w' → evolves w w'.
Proof. intros [(l & Ht & Hl) Hr]. eapply warranted_evolves; [done..|]. eapply Forall_impl; [done|]. by intros; apply neutral_warranted. Qed.
Lemma file_evolves_sound w w' : evolves w w' → sound w → sound w'.
Proof. intros H Hs. by destruct (H Hs). Qed.
Lemma file_quiet_always {B} (m : M W B) : always quiet m → always evolves m.
Proof. intros Hm w x w' E. by eapply file_quiet_evolves, Hm. Qed.
Lemma file_quiet_fields w w' : trace w' = trace w → replies w' = replies w → quiet w w'.
Proof. intros Ht Hr. split; [exists []; by rewrite app_nil_r|done]. Qed.
Lemma file_quiet_modify f : (∀ w, quiet w (f w)) → always quiet (modify f).
Proof. by apply always_modify. Qed.
Lemma file_quiet_tell a : neutral a → always quiet (tell a).
Proof. intros Ha. apply file_quiet_modify. intros w. split; [by exists [a]; auto|done]. Qed.
Lemma file_quiet_fresh : always quiet fresh.
Proof. intros w x w' [= _ <-]. split; [by exists []|done]. Qed.
Hint Resolve file_quiet_tell file_quiet_fresh : k3.
Hint Extern 1 (PreOrder _) => apply _ : k3.
Hint Extern 1 (neutral _) => exact I : k3.
Hint Extern 3 (always quiet (modify _)) => (apply file_quiet_modify; intros ?; repeat case_match; by apply file_quiet_fields) : k3.
Ltac steps := along ltac:(unfold date_now, set_stage, set_running, move_to, begin_transfer, abort, edit_job, this_job, set_locals, edit_locals, register, current_signal).
Lemma quiet_begin size name : always quiet (begin_transfer size name).
Proof. intros w x w' [= _ <-]. by apply file_quiet_fields. Qed.
Lemma quiet_controller : always quiet new_controller.
Proof. unfold new_controller. steps. Qed.
Hint Resolve quiet_begin quiet_controller : k3.
Lemma quiet_produce n index : always quiet (produce n index).
Proof. unfold produce. steps. Qed.
Lemma quiet_start size name : always quiet (start_transfer size name).
Proof. unfold start_transfer. steps. Qed.
Lemma quiet_new_job source binding cache created : always quiet (new_job random_key source binding cache created).
Proof. unfold new_job. steps. Qed.
Lemma quiet_progressed n amount : always quiet (progressed n amount).
Proof. unfold progressed. steps. Qed.
Hint Resolve quiet_produce quiet_start quiet_new_job quiet_progressed : k3.

(** ** What an operation learns

    [yields F G m]: started with [F], which everything else keeps, [m] ends with [G] of its result, unless it throws. *)
Notation steady m := (respects evolves sound m).
Definition yields {B} (F : W → Prop) (G : B → W → Prop) (m : A B) : Prop :=
  ∀ w, sound w → F w → runs evolves (λ x w', ∀ b, x = Ok b → G b w') m w.
Lemma yields_steady {B} F (m : A B) : steady m → yields F (λ _ _, True) m.
Proof. intros Hm w Hw _. eapply runs_weaken; [apply _|by apply Hm|done]. Qed.
Lemma steady_yields {B} G (m : A B) : yields (λ _, True) G m → steady m.
Proof. intros Hm w Hw. eapply runs_weaken; [apply _|by apply Hm|done]. Qed.
Lemma steady_run {B} (m : A B) w : sound w → steady m → runs evolves anything m w.
Proof. intros Hw Hm. by apply Hm. Qed.
Lemma file_yields_bind {B C} F G1 G2 (m : A B) (k : B → A C) : Stable F → yields F G1 m →
  (∀ b, yields (λ w, F w ∧ G1 b w) G2 (k b)) → yields F G2 (m ≫= k).
Proof.
  intros HF Hm Hk w Hw HFw. eapply runs_bind; [apply _|by apply Hm| |done]. intros b w' He Hb. destruct (He Hw) as [Hw' Hx].
  apply Hk; [done|]. split; [by eapply stays|by apply Hb].
Qed.
Lemma yields_weaken {B} F F' G (m : A B) : (∀ w, F w → F' w) → yields F' G m → yields F G m.
Proof. intros HF Hm w Hw HFw. by apply Hm, HF. Qed.
Lemma yields_then {B C} F G (m : A B) (k : B → A C) : Stable F → steady m → (∀ b, yields F G (k b)) → yields F G (m ≫= k).
Proof.
  intros HF Hm Hk. apply (file_yields_bind F (λ _ _, True)); [done|by apply yields_steady|]. intros b. eapply yields_weaken, Hk. by intros w [].
Qed.
Lemma yields_ret {B} F G (b : B) : (∀ w, F w → G b w) → yields F G (mret b).
Proof. intros H w _ HF. apply runs_ret; [apply _|]. intros x [= <-]. by apply H. Qed.
Lemma yields_fail {B} F G e : yields F G (fail e : A B).
Proof. intros w _ _. apply runs_sync. by intros x w' [= <- <-]. Qed.
Lemma file_steady_quiet {B} (m : M W B) : always quiet m → steady (sync m).
Proof. intros Hm. apply respects_sync; [apply _|exact file_evolves_sound|by apply file_quiet_always]. Qed.
Lemma yields_lift {B C} F G (x : res B) (k : B → A C) : Stable F → (∀ b, x = Ok b → yields F G (k b)) → yields F G (sync (lift x) ≫= k).
Proof.
  intros HF Hk. apply (file_yields_bind F (λ b _, x = Ok b)); [done| |intros b w Hw [HFw Hb]; by apply Hk].
  intros w _ _. apply runs_sync. intros y w' [= <- <-]. by split.
Qed.
Lemma yields_awaited {B C} F G (x : res B) (k : B → A C) : Stable F → (∀ b, x = Ok b → yields F G (k b)) → yields F G (awaited (sync (lift x)) ≫= k).
Proof.
  intros HF Hk. apply (file_yields_bind F (λ b _, x = Ok b)); [done| |intros b w Hw [HFw Hb]; by apply Hk].
  intros w _ _. apply runs_awaited; [apply _|]. apply runs_sync. intros y w' [= <- <-]. by split.
Qed.
Lemma runs_asked n r w : neutral (requested n r) → sound w →
  runs evolves (λ x w', ∀ y, x = Ok y → replied w' r y) (asked n r) w.
Proof.
  intros Hr Hw. unfold asked. eapply (runs_bind _ (λ x w', requested n r ∈ trace w')); [| |done].
  - apply runs_sync. intros x w' E. pose proof (file_quiet_tell _ Hr w x w' E) as Hq. split; [by apply file_quiet_evolves|]. injection E as _ <-. cbn. set_solver.
  - intros u w1 H1 Hin. assert (sound w1) as Hw1 by by eapply file_evolves_sound.
    eapply (runs_bind _ anything); [by apply runs_wait; [apply _|]| |done]. intros v w2 H2 _. apply runs_gets_bind; [apply _|].
    apply runs_sync. intros x w' [= <- <-]. split; [done|]. intros y Hy. exists n. destruct (H2 Hw1) as [_ [Ht _]]. split; [by apply Ht|].
    revert Hy. destruct (replies w2 !! n) as [z|]; [cbn; by intros ->|done].
Qed.
Lemma yields_asked {B} F (f : Reply → option B) n r : neutral (requested n r) →
  yields F (λ b w, ∃ y, f y = Some b ∧ replied w r y) (answer_of f (asked n r)).
Proof.
  intros Hr w Hw _. unfold answer_of. eapply runs_bind; [apply _|by apply runs_asked| |done]. intros y w1 H1 Hy. specialize (Hy y eq_refl).
  apply runs_sync. intros x w' [= <- <-]. split; [done|]. intros b Hb%require_ok. by exists y.
Qed.
Lemma yields_ask {B} F (f : Reply → option B) r : neutral (requested 0 r) → Stable F →
  yields F (λ b w, ∃ y, f y = Some b ∧ replied w r y) (answer_of f (ask r)).
Proof.
  intros Hr HF w Hw _. unfold answer_of. eapply (runs_bind _ (λ x w', ∀ y, x = Ok y → replied w' r y)); [|intros y w1 H1 Hy; specialize (Hy y eq_refl)|done].
  - unfold ask. eapply (runs_bind _ anything); [by apply file_steady_quiet, Hw; auto with k3| |done].
    intros n w' He _. apply runs_asked; [done|by eapply file_evolves_sound].
  - apply runs_sync. intros x w' [= <- <-]. split; [done|]. intros b Hb%require_ok. by exists y.
Qed.
Hint Extern 1 (respects evolves sound (sync _)) => (apply file_steady_quiet; steps; fail) : loop.
Hint Extern 0 (PreOrder _) => apply _ : loop.
Hint Extern 0 (∀ w w', evolves w w' → sound w → sound w') => exact file_evolves_sound : loop.
Ltac steadily :=
  repeat match goal with
  | |- respects _ _ (_ ≫= _) => apply respects_bind; [apply _|exact file_evolves_sound| |intros ?]
  | |- respects _ _ (try_ _ _) => apply respects_try; [apply _|exact file_evolves_sound| |intros ?]
  | |- respects _ _ (FileWorkflow.quietly _) => unfold FileWorkflow.quietly
  | |- respects _ _ (awaited _) => apply respects_awaited; [apply _|exact file_evolves_sound|]
  | |- respects _ _ (finally_async _ _) => apply respects_finally; [apply _|exact file_evolves_sound| |]
  | |- respects _ _ (fork _) => apply respects_fork; [apply _|exact file_evolves_sound|]
  | |- respects _ _ (match ?x with _ => _ end) => destruct x
  | |- respects _ _ (if ?x then _ else _) => destruct x
  | |- respects _ _ (let _ := _ in _) => cbv zeta
  | |- respects _ _ _ => solve [eauto 2 with loop]
  end.
Lemma steady_suspend : steady suspend.
Proof. apply respects_wait; [apply _|exact file_evolves_sound]. Qed.
Hint Resolve steady_suspend : loop.
Lemma steady_asked n r : neutral (requested n r) → steady (asked n r).
Proof. intros Hr w Hw. eapply runs_weaken; [apply _|by apply runs_asked|done]. Qed.
Lemma file_steady_ask r : neutral (requested 0 r) → steady (ask r).
Proof. intros Hr. unfold ask. steadily. by apply steady_asked. Qed.
Hint Extern 1 (respects evolves sound (ask _)) => (apply file_steady_ask; exact I) : loop.
Hint Extern 1 (respects evolves sound (asked _ _)) => (apply steady_asked; exact I) : loop.
Lemma steady_answer {B} (f : Reply → option B) m : steady m → steady (answer_of f m).
Proof. intros Hm. unfold answer_of. steadily. Qed.
Hint Extern 1 (respects evolves sound (answer_of _ _)) => (apply steady_answer; first [apply file_steady_ask; exact I|apply steady_asked; exact I]) : loop.
Lemma steady_authority refresh : steady (authority refresh).
Proof. unfold authority. steadily. Qed.
Lemma steady_fence g : steady (fence g).
Proof. unfold fence. steadily. Qed.
Hint Resolve steady_authority steady_fence : loop.
Lemma steady_check g r s : steady (check g r s).
Proof. unfold check. steadily. Qed.
Lemma steady_release b : steady (release b).
Proof. unfold release. steadily. Qed.
Hint Resolve steady_check steady_release : loop.
Lemma steady_forget : steady forget.
Proof. unfold forget. steadily. Qed.
Lemma steady_cancel : steady cancel_workflow.
Proof. unfold cancel_workflow. steadily. Qed.
Lemma steady_failed g e : steady (failed quota_exceeded tagged g e).
Proof. unfold failed. steadily. Qed.
Lemma steady_authorize g r b : steady (authorize_transfer g r b).
Proof. unfold authorize_transfer. steadily. Qed.
Lemma steady_sealed_chunk n g i accepted : steady (sealed_chunk encrypt random_nonce n g i accepted).
Proof. unfold sealed_chunk. steadily. Qed.
Hint Resolve steady_forget steady_failed steady_authorize steady_sealed_chunk : loop.
Lemma steady_upload_chunks n g signal l : ∀ s accepted, steady (upload_chunks encrypt random_nonce n g signal l s accepted).
Proof. induction l as [|i l IH]; intros s accepted; cbn; steadily; apply IH. Qed.
Hint Resolve steady_upload_chunks : loop.
(** ** Sending: the reference is published last *)
Lemma yields_authority F refresh : Stable F → yields F (λ own w, replied w (ask_authority true refresh) (a_binding own)) (authority refresh).
Proof.
  intros HF w Hw HFw. eapply runs_weaken; [apply _|by apply (yields_ask F as_binding)|].
  intros x w' _ Hx b Hb. destruct (Hx b Hb) as (y & Hy & Hr). destruct y; try done. by injection Hy as ->.
Qed.
Definition same_contact (r : FileReference) (w : W) : Prop :=
  ∃ own refresh, replied w (ask_authority true refresh) (a_binding own) ∧ sameBinding own (binding_of (fr_context r)) = true.
Lemma yields_authorize F g r refresh : Stable F → yields F (λ _ w, same_contact r w) (authorize_transfer g r refresh).
Proof.
  intros HF. unfold authorize_transfer. eapply file_yields_bind; [done|by apply yields_authority|]. intros own. cbv beta.
  destruct (sameBinding own _) eqn:E; cbn [negb]; [|apply yields_fail].
  intros w Hw [_ Hr]. eapply runs_weaken; [apply _|by apply steady_fence|]. intros x w' He _ b _. destruct (He Hw) as [_ Hx].
  exists own, refresh. split; [by eapply stable_replied|done].
Qed.
Lemma yields_check F g r s : yields F (λ _ _, ∃ t, checkStatus r s t = Ok tt) (check g r s).
Proof.
  unfold check. eapply yields_weaken with (F' := λ _, True); [done|]. apply yields_then; [apply _|steadily|intros _]. intros w Hw _.
  apply runs_gets_bind; [apply _|]. apply runs_sync. intros x w' [= <- <-]. split; [done|]. intros [] Hc. by exists (now w).
Qed.
(** a request that is warranted when it is made *)
Lemma warranted_ask r w : sound w → warranted w (requested 0 r) → runs evolves anything (ask r) w.
Proof.
  intros Hw Hg. unfold ask. eapply (runs_bind _ anything); [by apply file_steady_quiet, Hw; auto with k3| |done]. intros n w1 H1 _.
  destruct (H1 Hw) as [Hw1 Hx]. assert (warranted w1 (requested n r)) as Hg1 by (apply (stable_warranted _ _ _ Hx) in Hg; by destruct r).
  unfold asked. set (w2 := traced (counter w1) [requested n r] w1). assert (evolves w1 w2) as He by by eapply warranted_evolves; [..|apply Forall_singleton].
  apply (runs_sync_bind _ _ _ _ _ tt w2); [done..|]. apply steady_run; [by apply He|]. steadily.
Qed.
(** the last step of an upload: what the relay has confirmed and the authority has said make the reference good *)
Lemma good_after_upload w r own refresh v s signal t text : replied w (ask_authority true refresh) (a_binding own) → sameBinding own (binding_of (fr_context r)) = true →
  replied w (complete (transferId (fr_context r)) signal) (a_status v s) → checkStatus r (v, s) t = Ok tt → fs_state s = available →
  Z.of_nat (length (indices s)) = chunkCount (fr_context r) → serializeFileReference (reference_value r) = Ok text →
  good_reference w text (binding_of (fr_context r)).
Proof. intros. split. exists r. split; [done|]. split; [done|]. split; [by exists own, refresh|by exists v, s, signal, t]. Qed.
Lemma yields_status F r : neutral (requested 0 r) → Stable F → yields F (λ x w, replied w r (a_status x.1 x.2)) (answer_of as_status (ask r)).
Proof.
  intros Hr HF w Hw HFw. eapply runs_weaken; [apply _|by apply (yields_ask F as_status)|].
  intros x w' _ Hx b Hb. destruct (Hx b Hb) as (y & Hy & Hy'). destruct y; try done. by injection Hy as <-.
Qed.
Ltac next := apply yields_then; [apply _|steadily|intros ?].
Lemma steady_upload g : steady (upload encrypt random_nonce g).
Proof.
  apply (steady_yields (λ _ _, True)). unfold upload. next. next. apply yields_then; [apply _|steadily|intros p]. cbv zeta. do 13 next.
  eapply file_yields_bind; [apply _|apply yields_status; [exact I|apply _]|intros completed].
  eapply file_yields_bind; [apply _|apply yields_check|intros ?].
  destruct (bool_decide_reflect (fs_state completed.2 = available)) as [Hs|]; [|apply yields_fail]. cbn [negb orb].
  destruct (Z.eqb_spec (Z.of_nat (length (indices completed.2))) (chunkCount (fr_context (j_reference p)))) as [Hc|]; [cbn [negb]|apply yields_fail].
  next. eapply file_yields_bind; [apply _|by apply yields_authorize, _|intros ?]. apply yields_lift; [apply _|intros text Ht].
  intros w Hw [[[_ Hcomplete] [t Hcheck]] (own & refresh & Hown & Hsame)].
  eapply (runs_weaken _ anything); [|done]. eapply (runs_bind _ anything); [|intros y w' He _|done].
  - apply warranted_ask; [done|]. destruct completed as [v s]. by eapply good_after_upload.
  - apply steady_run; [by eapply file_evolves_sound|steadily].
Qed.
Hint Resolve steady_upload : loop.
Lemma steady_send_body frame g source : steady (send_body encrypt random_nonce random_key frame g source).
Proof. unfold send_body. steadily. Qed.
Lemma steady_send_failed frame g e : steady (send_failed quota_exceeded tagged frame g e).
Proof. unfold send_failed. steadily. Qed.
Hint Resolve steady_send_body steady_send_failed : loop.
Lemma file_steady_send source : steady (send encrypt random_nonce random_key quota_exceeded tagged source).
Proof. unfold send. steadily. Qed.
Lemma steady_retry : steady (retry encrypt random_nonce quota_exceeded tagged).
Proof. unfold retry. steadily. Qed.
Hint Resolve file_steady_send steady_retry steady_cancel : loop.

(** ** Receiving *)
Lemma yields_json F n r : neutral (requested n r) → Stable F → yields F (λ v w, replied w r (a_json v)) (answer_of as_json (asked n r)).
Proof.
  intros Hr HF w Hw HFw. eapply runs_weaken; [apply _|by apply (yields_asked F as_json)|].
  intros x w' _ Hx b Hb. destruct (Hx b Hb) as (y & Hy & Hy'). destruct y; try done. by injection Hy as <-.
Qed.
Lemma chunks_snoc w r written b v signal : chunks_of w r written →
  replied w (chunk (transferId (fr_context r)) (Z.of_nat (length written)) signal) (a_json v) → open_chunk r (Z.of_nat (length written)) v = Ok b →
  chunks_of w r (written ++ [b]).
Proof.
  intros Hc Hv Hb i b'. rewrite lookup_app. destruct (written !! i) as [x|] eqn:E; [intros [= <-]; by apply Hc|].
  apply lookup_ge_None in E. intros [Hi <-]%list_lookup_singleton_Some. assert (i = length written) as -> by lia. by exists v, signal.
Qed.
Lemma yields_chunks F g own r size output n : Stable F → ∀ written,
  yields (λ w, F w ∧ chunks_of w r written) (λ ws w, chunks_of w r ws ∧ length ws = (length written + n)%nat)
    (receive_chunks decrypt g own r size output (Z.of_nat <$> seq (length written) n) written).
Proof.
  intros HF. induction n as [|n IH]; intros written; cbn [receive_chunks seq fmap list_fmap].
  { apply yields_ret. intros w [_ Hc]. split; [done|lia]. }
  next. cbv zeta. destruct (sameBinding _ _); cbn [negb]; [|apply yields_fail]. do 5 next.
  eapply file_yields_bind; [apply _|apply yields_json; [exact I|apply _]|intros v]. next. next.
  apply yields_awaited; [apply _|intros plain Hplain]. do 5 next. pose proof (length_app written [plain]) as Hlen. rewrite Nat.add_1_r in Hlen.
  rewrite <-Hlen. intros w Hw [[HFw Hc] Hv]. eapply runs_weaken; [apply _|apply (IH (written ++ [plain])); [done|split; [done|by eapply chunks_snoc]]|].
  intros x w' _ Hx ws Hws. destruct (Hx ws Hws) as [? ->]. split; [done|]. lia.
Qed.
Lemma yields_all_chunks F g own r size output : Stable F → 0 <= chunkCount (fr_context r) →
  yields F (λ ws w, chunks_of w r ws ∧ Z.of_nat (length ws) = chunkCount (fr_context r))
    (receive_chunks decrypt g own r size output (chunk_numbers (fr_context r)) []).
Proof.
  intros HF Hn. apply (yields_weaken F (λ w, F w ∧ chunks_of w r [])); [intros w HFw; split; [done|by intros i b]|].
  intros w Hw HFw. eapply runs_weaken; [apply _|by apply (yields_chunks F _ _ _ _ _ (Z.to_nat (chunkCount (fr_context r))) HF [])|].
  intros x w' _ Hx ws Hws. destruct (Hx ws Hws) as [? ->]. split; [done|]. cbn. lia.
Qed.
Lemma steady_receive_body frame g s : steady (receive_body decrypt frame g s).
Proof.
  apply (steady_yields (λ _ _, True)). unfold receive_body. next. apply yields_lift; [apply _|intros r Hr].
  eapply file_yields_bind; [apply _|by apply yields_authority, _|intros own]. next. cbv zeta.
  destruct (sameBinding (swapped own) _) eqn:Hown; cbn [negb]; [|apply yields_fail]. next. apply yields_then; [apply _|steadily|intros signal].
  eapply file_yields_bind; [apply _|apply yields_status; [exact I|apply _]|intros st]. next.
  destruct (fs_manifest st.2) as [object|] eqn:Hobject; [|apply yields_fail].
  destruct (bool_decide_reflect (fs_state st.2 = available)) as [Hs|]; [cbn [negb orb]|apply yields_fail].
  destruct (Z.eqb_spec (Z.of_nat (length (indices st.2))) (chunkCount (fr_context r))) as [Hn|]; [cbn [negb]|apply yields_fail].
  next. apply yields_awaited; [apply _|intros m Hm]. next.
  destruct (Z.eqb_spec (createdAt m) (fr_createdAt r)) as [Hcreated|]; [cbn [negb orb]|apply yields_fail].
  destruct (Z.eqb_spec (expiresAt m) (fr_expiresAt r)) as [Hexpires|]; [cbn [negb]|apply yields_fail]. do 4 next.
  eapply file_yields_bind; [apply _|apply yields_all_chunks; [apply _|lia]|intros ws].
  destruct (Z.eqb_spec (bytes_in ws) (m_fileSize m)) as [Hsize|]; [cbn [negb]|apply yields_fail]. do 2 next.
  intros w Hw [[[_ Hauthority] Hstatus] [Hchunks Hcount]].
  eapply (runs_weaken _ anything); [|done]. eapply (runs_bind _ anything); [|intros y w' He _|done].
  - apply warranted_ask; [done|]. split; [by exists s|by exists own| |done..]. by exists st.1, st.2, object, signal.
  - apply steady_run; [by eapply file_evolves_sound|steadily].
Qed.
Lemma steady_receive_failed frame g e : steady (receive_failed quota_exceeded tagged frame g e).
Proof. unfold receive_failed. steadily. Qed.
Hint Resolve steady_receive_body steady_receive_failed : loop.
Lemma file_steady_receive s : steady (receive decrypt quota_exceeded tagged s).
Proof. unfold receive. steadily. Qed.
Hint Resolve file_steady_receive : loop.

(** ** Whatever happens *)
Notation event := (file_activity encrypt decrypt random_nonce random_key quota_exceeded tagged).
Lemma file_activity_steady m : event m → steady m.
Proof. intros []; steadily. Qed.
Lemma file_surroundings_evolve w w' : file_surroundings w w' → evolves w w'.
Proof. intros [t r _ Hr] Hw. assert (extends w (elapsed t r w)) as He by by split. split; [|done]. intros a Ha. by eapply stable_warranted, Hw. Qed.
Definition begun (t : Z) : System W := {| world := new_workflow t; pending := [] |}.
Lemma always_sound t s : rtc (sys_step event file_surroundings) (begun t) s → sound (world s).
Proof.
  intros Hs. assert (sound (new_workflow t)) as H0 by by intros a Ha%elem_of_nil.
  destruct (system_runs evolves sound file_evolves_sound event file_surroundings (begun t) s file_activity_steady file_surroundings_evolve H0 (Forall_nil_2 _) Hs) as [He _]. by apply He.
Qed.

(** ** A download *)
Lemma parts_concat (k n : nat) (l : list ascii) : concat ((λ i, take k (drop (i * k) l)) <$> seq 0 n) = take (n * k) l.
Proof.
  induction n as [|n IH]; [done|]. rewrite seq_S, fmap_app, concat_app, IH. cbn. rewrite app_nil_r, take_take_drop. f_equal. lia.
Qed.
(** the plaintext of chunk [i] *)
Definition part (c : AttachmentAuthenticatedContext) (file : list ascii) (i : nat) : list ascii :=
  take (Z.to_nat (chunkSize c)) (drop (i * Z.to_nat (chunkSize c)) file).
Lemma all_parts c file written a b t : encodeAttachmentContext t c a = Ok b → blen file = fileSize c → Z.of_nat (length written) = chunkCount c →
  (∀ i x, written !! i = Some x → x = part c file i) → concat written = file.
Proof.
  intros Ha Hf Hn Hw. pose proof (cf_geometry _ _ _ _ (encode_context_frame _ _ _ _ Ha)) as (H1 & H2 & H3 & H4).
  assert (written = part c file <$> seq 0 (length written)) as ->.
  { apply list_eq. intros i. rewrite list_lookup_fmap. destruct (written !! i) as [x|] eqn:E.
    - rewrite lookup_seq_lt by (by eapply lookup_lt_Some). cbn. f_equal. by apply Hw.
    - apply lookup_ge_None in E. by rewrite lookup_seq_ge. }
  unfold part. rewrite parts_concat. apply take_ge. unfold ceil_div in H3. unfold blen in Hf.
  pose proof (Z.mul_div_le (- fileSize c) (chunkSize c)). apply Nat2Z.inj_le. rewrite Nat2Z.inj_mul, Z2Nat.id, Hn, Hf, H3 by lia. nia.
Qed.
(** A transfer of an honest sender: under its key, only what the sender sealed opens: the manifest and the chunks of the file in
    the transfer's context. *)
Record honest (key : list ascii) (c : AttachmentAuthenticatedContext) (description file : list ascii) : Prop := {
  h_size : blen file = fileSize c;
  h_opens n aad sealed p : decrypt key n aad sealed = Some p →
    (encodeAttachmentContext manifest_object c None = Ok aad ∧ p = description) ∨
    (∃ i, encodeAttachmentContext chunk_object c (Some (Z.of_nat i)) = Ok aad ∧ p = part c file i) }.
Lemma honest_chunk key c description file r i v b : honest key c description file → fr_key r = key → open_chunk r i v = Ok b → 0 <= i →
  same_context (fr_context r) c ∧ b = part c file (Z.to_nat i).
Proof.
  intros [_ H] <- Hb Hi. unfold FileWorkflow.open_chunk in Hb. apply bind_ok in Hb as (object & _ & Hb). unfold openAttachmentChunk in Hb.
  apply bind_ok in Hb as (p & Hp & Hb). assert (p = b) as -> by by res_inv Hb.
  apply open_object_ok in Hp as (aad & Ha & Hd). destruct (H _ _ _ _ Hd) as [[Hm _]|(j & Hj & ->)].
  - by destruct (encode_context_inj _ _ _ _ _ _ _ Ha Hm).
  - destruct (encode_context_inj _ _ _ _ _ _ _ Ha Hj) as (_ & [= ->] & Hc). split; [done|]. by rewrite Nat2Z.id.
Qed.
Lemma honest_manifest key c description file r object m : honest key c description file → fr_key r = key → open_manifest r object = Ok m →
  same_context (fr_context r) c ∧ (∃ aad, encodeAttachmentContext manifest_object c None = Ok aad) ∧ decodeAttachmentManifest description = Ok m.
Proof.
  intros [_ H] <- Hm. unfold FileWorkflow.open_manifest in Hm. apply bind_ok in Hm as (x & _ & Hm). unfold openAttachmentManifest in Hm.
  apply bind_ok in Hm as (p & Hp & Hm). apply bind_ok in Hm as (m' & Hd & Hm). assert (m' = m) as -> by by res_inv Hm.
  apply open_object_ok in Hp as (aad & Ha & Ho). destruct (H _ _ _ _ Ho) as [[Hc ->]|(j & Hj & _)].
  - destruct (encode_context_inj _ _ _ _ _ _ _ Ha Hc) as (_ & _ & ?). split; [done|]. split; [by exists aad|done].
  - by destruct (encode_context_inj _ _ _ _ _ _ _ Ha Hj).
Qed.


(** ** A reference that is sent *)
Lemma every_index (l : list Z) n : NoDup l → Forall (λ i, 0 <= i < n) l → Z.of_nat (length l) = n → ∀ i, 0 <= i < n → i ∈ l.
Proof.
  intros Hd Hr Hl i Hi. assert (incl l (Z.of_nat <$> seq 0 (Z.to_nat n))) as Hincl.
  { intros j Hj%list_elem_of_In. rewrite Forall_forall in Hr. apply Hr in Hj. apply list_elem_of_In, list_elem_of_fmap.
    exists (Z.to_nat j). split; [lia|]. apply elem_of_seq. lia. }
  apply list_elem_of_In. apply (NoDup_length_incl (proj1 (NoDup_ListNoDup l) Hd)) in Hincl; [|rewrite length_fmap, length_seq; lia].
  apply Hincl, list_elem_of_In, list_elem_of_fmap. exists (Z.to_nat i). split; [lia|]. apply elem_of_seq. lia.
Qed.
Lemma status_indices r v st t : checkStatus r (v, st) t = Ok tt → NoDup (indices st) ∧ Forall (λ i, 0 <= i < chunkCount (fr_context r)) (indices st).
Proof.
  unfold checkStatus. intros H. res_inv H. cbn [snd] in H. apply orb_false_iff in H as [Hd%negb_false_iff%bool_decide_eq_true H].
  split; [done|]. apply Forall_forall. intros i Hi. apply not_true_iff_false in H.
  destruct (Z.ltb_spec i 0), (Z.leb_spec (chunkCount (fr_context r)) i); try lia;
    (destruct H; apply existsb_exists; exists i; split; [by apply list_elem_of_In|]; lia).
Qed.

(** C7: a reference is sent only for a file that is all there, and only to whom the transfer is bound: when the client publishes a
    reference, the relay has answered its completion with a status of this very transfer, not expired and available, that lists the
    index of every chunk, and the authority has answered that the verified contact is the one in the reference's context. *)
Theorem sent_reference_names_a_complete_file t s n text_ b :
  rtc (sys_step event file_surroundings) (begun t) s → requested n (publish text_ b) ∈ trace (world s) →
  ∃ r v st signal time own refresh, serializeFileReference (reference_value r) = Ok text_ ∧ b = binding_of (fr_context r) ∧
    replied (world s) (complete (transferId (fr_context r)) signal) (a_status v st) ∧ checkStatus r (v, st) time = Ok tt ∧ fs_state st = available ∧
    (∀ i, 0 <= i < chunkCount (fr_context r) → i ∈ indices st) ∧
    replied (world s) (ask_authority true refresh) (a_binding own) ∧ sameBinding own b = true.
Proof.
  intros Hs Hin. pose proof (always_sound _ _ Hs _ Hin) as [(r & Hr & -> & (own & refresh & Ho & Hb) & v & st & signal & time & Hc & Hst & Ha & Hn)].
  destruct (status_indices _ _ _ _ Hst) as [Hd Hf]. exists r, v, st, signal, time, own, refresh. split_and!; try done. by apply every_index.
Qed.
End receipt.

(** ** Two runs *)
Module Example.
Definition context : AttachmentAuthenticatedContext :=
  {| transferId := transferId file_context; conversationId := conversationId file_context; senderParticipantId := senderParticipantId file_context;
     recipientParticipantId := recipientParticipantId file_context; senderIdentityReference := senderIdentityReference file_context;
     recipientIdentityReference := recipientIdentityReference file_context; fileSize := 5; chunkSize := 262144; chunkCount := 1 |}.
Definition file : list ascii := str "hello".
Definition created : Z := 1700000000000.
Definition description : list ascii := encoded {| m_fileSize := 5; m_chunkSize := 262144; m_chunkCount := 1; createdAt := created;
  expiresAt := created + TRANSFER_EXPIRY; filename := "a.txt"; mimeType := "text/plain" |}.
Definition data_of (t : AttachmentObjectType) (i : option Z) : list ascii := match encodeAttachmentContext t context i with Ok a => a | Err _ => [] end.
(** a cipher under which only the two objects of the transfer open *)
Definition open_only (k n a c : list ascii) : option (list ascii) :=
  p ← toy_decrypt k n a c;
  if decide ((a, p) = (data_of manifest_object None, description) ∨ (a, p) = (data_of chunk_object (Some 0), file)) then Some p else None.
Definition sealed_as (t : AttachmentObjectType) (i : option Z) (p : list ascii) : WireObject :=
  wire {| nonce := sample_nonce; ciphertext := toy_encrypt sample_key sample_nonce (data_of t i) p |}.
Definition with_state (st : FileState) (l : list Z) (m : option WireObject) : Reply :=
  a_status 2 {| fs_context := context; fs_state := st; fs_createdAt := created; fs_expiresAt := created + TRANSFER_EXPIRY; indices := l; fs_manifest := m |}.
Definition the_file : Reply := with_state available [0] (Some (sealed_as manifest_object None description)).
Definition answer (sender : bool) (r : Request) : Reply :=
  match r with
  | ask_authority _ _ => a_binding (if sender then binding_of context else swapped (binding_of context))
  | open_cache => a_cache 0
  | cache_get _ the_manifest => a_object (Some (sealed_as manifest_object None description))
  | cache_get _ _ => a_object None
  | create _ _ _ => with_state incomplete [] None
  | status _ _ => if sender then with_state incomplete [] None else the_file
  | put _ the_manifest m _ => with_state incomplete [] (Some m)
  | put _ _ _ _ => with_state incomplete [0] (Some (sealed_as manifest_object None description))
  | complete _ _ => the_file
  | chunk _ _ _ => a_json (wire_json (sealed_as chunk_object (Some 0) file))
  | read_source _ _ _ => a_bytes file
  | open_output _ => an_output 0
  | _ => a_done
  end.
Definition answers (sender : bool) (w : Workflow) : gmap nat (res Reply) :=
  foldr (λ a m, match a with requested n r => <[n := Ok (answer sender r)]> m | _ => m end) ∅ (trace w).
Definition round (sender : bool) (s : System Workflow) : System Workflow :=
  run_ready 10 {| world := elapsed (now (world s)) (replies (world s) ∪ answers sender (world s)) (world s); pending := pending s |}.
Definition ended (sender : bool) (m : async Workflow unit) : System Workflow := Nat.iter 30 (round sender) (run_ready 10 (arrive m (begun (created + 1)))).
Notation no_quota := (λ _ : string, false).
Notation no_tag := (λ _ : string, None : option string).
Notation event := (file_activity toy_encrypt open_only (λ _, sample_nonce) (λ _, sample_key) no_quota no_tag).
Lemma ended_reached sender m : event m → rtc (sys_step event file_surroundings) (begun (created + 1)) (ended sender m).
Proof.
  intros Hm. unfold ended. generalize 30%nat. induction n as [|n IH]; cbn [Nat.iter].
  - etrans; [by apply arrive_reaches|apply run_ready_reaches].
  - etrans; [exact IH|]. eapply rtc_l; [|apply run_ready_reaches]. apply moves. constructor; [lia|apply map_union_subseteq_l].
Qed.
Definition reference : FileReference :=
  {| fr_context := context; fr_key := sample_key; fr_createdAt := created; fr_expiresAt := created + TRANSFER_EXPIRY |}.
Definition manifest : AttachmentManifestV2 := {| m_fileSize := 5; m_chunkSize := 262144; m_chunkCount := 1; createdAt := created;
  expiresAt := created + TRANSFER_EXPIRY; filename := "a.txt"; mimeType := "text/plain" |}.
Definition reference_text : string := FILE_PREFIX +:+ stringify (reference_json context sample_key created).
Definition download : System Workflow := ended false (receive open_only no_quota no_tag reference_text).
Definition upload_of : FileSource := {| source_size := 5; source_name := "a.txt"; source_type := "text/plain"; source_id := 0 |}.
Definition upload : System Workflow := ended true (send toy_encrypt (λ _, sample_nonce) (λ _, sample_key) no_quota no_tag upload_of).
Lemma download_reached : rtc (sys_step event file_surroundings) (begun (created + 1)) download.
Proof. apply ended_reached, receive_activity. Qed.
Lemma upload_reached : rtc (sys_step event file_surroundings) (begun (created + 1)) upload.
Proof. apply ended_reached, send_activity. Qed.
Lemma download_finishes : trace (world download) !! 6%nat = Some (requested 9 (finish 0 reference [file] manifest)).
Proof. vm_compute. reflexivity. Qed.
Lemma upload_publishes : trace (world upload) !! 18%nat = Some (requested 23 (publish reference_text (binding_of context))).
Proof. vm_compute. reflexivity. Qed.
Lemma contexts_encode : encodeAttachmentContext manifest_object context None = Ok (data_of manifest_object None) ∧
  encodeAttachmentContext chunk_object context (Some 0) = Ok (data_of chunk_object (Some 0)) ∧ file = part context file 0.
Proof. split_and!; vm_compute; reflexivity. Qed.
Lemma only_the_file_opens : honest open_only sample_key context description file.
Proof.
  destruct contexts_encode as (Hm & Hc & Hf). split; [done|]. intros n a c p. unfold open_only.
  destruct (toy_decrypt _ _ _ _) as [q|]; [|done]. cbn [mbind option_bind]. case_decide as H; [|done].
  intros [= <-]. destruct H as [[= -> ->]|[= -> ->]]; [by left|]. right. exists 0%nat. by split.
Qed.
End Example.
Lemma sent_reference_names_a_complete_file_witness :
  ∃ r, serializeFileReference (reference_value r) = Ok Example.reference_text ∧ binding_of Example.context = binding_of (fr_context r).
Proof.
  destruct (sent_reference_names_a_complete_file toy_encrypt Example.open_only (λ _, sample_nonce) (λ _, sample_key) (λ _, false) (λ _, None)
    (Example.created + 1) Example.upload 23 Example.reference_text (binding_of Example.context)) as (r & v & st & sg & t & own & f & H1 & H2 & _).
  - exact Example.upload_reached.
  - exact (list_elem_of_lookup_2 _ _ _ Example.upload_publishes).
  - exists r. split; [exact H1|exact H2].
Defined.
