(* ===== verification/OutboxSafety.v ===== *)
(** * What a retry of the outbox submits ([crypto/modernConversation.ts], retryPending; [delivery/deliveryCoordinator.ts])

    Every entry that a retry gives to the relay was cleared against the contact as it is stored at that moment, entries keep
    their order, and a newer format that was negotiated with the contact is never undercut. *)
From S2P Require Import Prelude Json Base64 Storage RoomMessage VersionFloor ReplayEvidence Vault ContactRegistry Ratchet RatchetSafety Outbox.

Section access.
Context `{SecureStorageLaws St} {T : Type} (others : nat → St → St) (fault : nat → Io).
Lemma access_mem {A} (f : St → res A * St) (w : World St T) x w' : access others fault f w = (x, w') → mem w' = mem w.
Proof. unfold access. destruct (f _) as [r d]. by destruct (fault (tick w)); intros [= _ <-]. Qed.
(** an access that changes nothing *)
Lemma access_pure {A} (f : St → res A) (w : World St T) x w' :
  access others fault (λ d, (f d, d)) w = (x, w') → drift others w w' ∧ mem w' = mem w ∧ (x = Err io_error ∨ x = f (disk w')).
Proof.
  unfold access. destruct (fault (tick w)); intros [= <- <-]; (split; [apply drift_access|]); split; auto.
Qed.
Lemma access_ok {A} (f : St → res A * St) (w : World St T) a w' : access others fault f w = (Ok a, w') → ∃ d, (f d).1 = Ok a.
Proof. unfold access. exists (others (tick w) (disk w)). destruct (f _) as [r d]. by destruct (fault (tick w)); inversion H1. Qed.
End access.

Section safety.
Context {Session Account : Type} `{Olm Session Account} `{SecureStorageLaws St}.
Context (others : nat → St → St) (fault : nat → Io) (sha256 : string → string).
Context (transport : nat → option Transport) (relay : nat → jsval → option string → option DeliverySubmissionResult) (clock : nat → Z).
Notation T := (Tab (Session := Session) (Account := Account) (C := Conversation)).
Notation W := (World St T).
Context (trusted_epoch : M W Z).
Notation drift := (drift others (T := T)).
Notation registry_get := (registry_get others fault (Session := Session) (Account := Account)).
Notation getContact := (getContact others fault (Session := Session) (Account := Account)).
Notation floor_of := (floor_of others fault sha256 (Session := Session) (Account := Account)).
Notation assertCurrentDeviceTrust := (assertCurrentDeviceTrust trusted_epoch).
Implicit Types w : W.
Definition conv w : Conversation := client (mem w).

(** ** The states a run goes through *)
Inductive move : W → W → Prop :=
| others_moved w w' : drift w w' → move w w'
| outbox_written room v w x w' : write_ others fault OUTBOX_RECORD room v w = (x, w') → move w w'
| outbox_swapped room e v w x w' :
    swap_ others fault [{| recordType := OUTBOX_RECORD; recordId := room; expected := e; next := v |}] w = (x, w') → move w w'
| contact_read r w x w' : registry_get r w = (x, w') → move w w'.
(** [w'] was reached from [w], with the conversation bound as before *)
Definition moves w w' : Prop := rtc move w w' ∧ remoteAddress (conv w') = remoteAddress (conv w).
(** and nothing was submitted meanwhile *)
Definition quietly w w' : Prop := moves w w' ∧ submissions (conv w') = submissions (conv w).

#[export] Instance moves_preorder : PreOrder moves.
Proof. split; [by intros w|]. intros w1 w2 w3 [? ?] [? ?]. split; [by etrans|congruence]. Qed.
#[export] Instance quietly_preorder : PreOrder quietly.
Proof. split; [by intros w|]. intros w1 w2 w3 [? ?] [? ?]. split; [by etrans|congruence]. Qed.

Lemma quiet_step w w' : move w w' → mem w' = mem w → quietly w w'.
Proof. intros Hm E. unfold quietly, moves, conv. rewrite E. split; [|done]. split; [by apply rtc_once|done]. Qed.
Lemma quiet_read t i : always quietly (read_ others fault t i).
Proof. intros w x w' (Hd & Hm & _)%read_cases. by apply quiet_step; [apply others_moved|]. Qed.
Lemma quiet_write room v : always quietly (write_ others fault OUTBOX_RECORD room v).
Proof. intros w x w' Hr. apply quiet_step; [by eapply outbox_written|]. by apply write_cases in Hr as [? _]. Qed.
Lemma quiet_swap room e v :
  always quietly (swap_ others fault [{| recordType := OUTBOX_RECORD; recordId := room; expected := e; next := v |}]).
Proof. intros w x w' Hr. apply quiet_step; [by eapply outbox_swapped|]. by apply swap_cases in Hr as [? _]. Qed.
Lemma quiet_registry r : always quietly (registry_get r).
Proof. intros w x w' Hr. apply quiet_step; [by eapply contact_read|]. by eapply access_mem. Qed.
Lemma quiet_floor room i : always quietly (floor_of room i).
Proof.
  intros w x w' Hr. apply (access_pure others fault (λ d, readRoomMessageVersionFloor sha256 d room i)) in Hr as (Hd & Hm & _).
  by apply quiet_step; [apply others_moved|].
Qed.
Lemma quiet_get {A} (f : Conversation → A) : always quietly (get_ f : M W A).
Proof. by apply always_gets, _. Qed.
(** memory changes that neither submit nor rebind *)
Definition calm (f : T → T) : Prop :=
  ∀ t, remoteAddress (client (f t)) = remoteAddress (client t) ∧ submissions (client (f t)) = submissions (client t).
Lemma quiet_mem f w : calm f → quietly w (with_mem f w).
Proof.
  intros Hf. destruct (Hf (mem w)) as [Hr Hs]. split; [|exact Hs]. split; [|exact Hr]. apply rtc_once, others_moved, drift_mem.
Qed.
Lemma quiet_update_mem f : calm f → always quietly (update_mem f).
Proof. intros Hf w x w' [= _ <-]. by apply quiet_mem. Qed.
Lemma quiet_update f : (∀ c, remoteAddress (f c) = remoteAddress c ∧ submissions (f c) = submissions c) → always quietly (update_ f : M W unit).
Proof. intros Hf. apply quiet_update_mem. intros t. apply Hf. Qed.
Lemma quiet_close : always quietly (close : M W unit).
Proof. by apply quiet_update_mem. Qed.
Context (trust_reads : always quietly trusted_epoch).
Hint Resolve quiet_read quiet_write quiet_swap quiet_registry quiet_floor quiet_get quiet_close trust_reads : k3.
Hint Extern 1 (always quietly (update_ _)) => (apply quiet_update; done) : k3.
Hint Extern 1 (PreOrder _) => apply _ : k3.

Lemma quiet_contact : always quietly getContact.
Proof. apply always_bind; [apply _|auto with k3|]. intros [r|]; [|auto with k3]. destruct (nonempty r); auto with k3. Qed.
Hint Resolve quiet_contact : k3.
Lemma quiet_trust : always quietly assertCurrentDeviceTrust.
Proof. unfold Outbox.assertCurrentDeviceTrust, fail_if. auto 10 with k3. Qed.
Hint Resolve quiet_trust : k3.
Lemma quiet_contact_floor room c : always quietly (contact_floor others fault sha256 room c).
Proof. unfold contact_floor. destruct (identity_of c); auto with k3. Qed.
Hint Resolve quiet_contact_floor : k3.
Lemma quiet_notices (l : list Notice) : always quietly (update_ (add_notices l) : M W unit).
Proof. auto with k3. Qed.
Lemma quiet_pending room (l : list jsval) : always quietly (write_pending others fault room l).
Proof. unfold write_pending. auto with k3. Qed.
Lemma quiet_reject item : always quietly (reject_notice item : M W unit).
Proof. unfold reject_notice, notify. destruct (flag _ _); auto with k3. Qed.
Hint Resolve quiet_notices quiet_pending quiet_reject : k3.
Lemma quiet_hold n room cur : always quietly (hold_attempts others fault n room cur).
Proof.
  revert cur. induction n as [|n IH]; intros cur; cbn [hold_attempts]; [auto with k3|].
  apply always_bind; [apply _|auto with k3|]. intros []. apply always_if; [auto with k3|].
  repeat (apply always_bind; [apply _|auto with k3|intros ?]). apply always_if; auto with k3.
Qed.
Hint Resolve quiet_hold : k3.

(** ** Clearance *)
(** What held when [s] was given to the relay: the trust of this device was checked, then the contact was read, then the
    format floor that the connection is told to enforce. *)
Inductive cleared (room i : string) w w' (s : Submission) : Prop :=
| cleared_by c f w1 w2 w3 w4 :
    moves w w1 → assertCurrentDeviceTrust w1 = (Ok tt, w2) → getContact w2 = (Ok (Some c), w3) →
    floor_of room i w3 = (Ok f, w4) → moves w4 w' →
    identity_of (Some c) = Some i → get c "changeStatus" = JStr "unchanged" →
    oprop (s_item s) "recipientIdentityReference" = JStr i →
    (oprop (s_item s) "requiresVerifiedContact" = JBool true → get c "verification" = JStr "verified") →
    flag "terminallyRejected" (s_item s) = false → flag "heldNotSentSecurely" (s_item s) = false →
    s_recipient s = remoteAddress (conv w) → s_floor s = (if 1 <=? f then 1 else 0) → cleared room i w w' s.

Lemma cleared_mono room i w0 w w' w1 s : moves w0 w → moves w' w1 → cleared room i w w' s → cleared room i w0 w1 s.
Proof.
  intros Ha Hb [c f v1 v2 v3 v4 ????? ?????? Hr ?]. eapply (cleared_by _ _ _ _ _ c f v1 v2 v3 v4); eauto.
  - by etrans.
  - by etrans.
  - rewrite Hr. apply Ha.
Qed.

(** what passing over an entry leaves open *)
Definition eligible (i : string) (item : jsval) : Prop :=
  flag "terminallyRejected" item = false ∧ flag "heldNotSentSecurely" item = false ∧
  oprop item "recipientIdentityReference" = JStr i.
Lemma not_skipped contact health renewal item t :
  skip_entry contact health renewal item t = false → ∃ i, identity_of contact = Some i ∧ eligible i item.
Proof.
  unfold skip_entry. rewrite !orb_false_iff. intros ((((((Ht & Hh) & _) & Hi) & _) & _) & _).
  destruct (identity_of contact) as [i|]; [|done]. exists i. split; [done|]. split_and!; [done..|].
  apply negb_false_iff, bool_decide_eq_true in Hi. done.
Qed.

Lemma authorized room contact i item w u w' :
  identity_of contact = Some i → authorize_entry others fault sha256 trusted_epoch room contact item w = (Ok u, w') →
  ∃ c f w2 w3 w4, assertCurrentDeviceTrust w = (Ok tt, w2) ∧ getContact w2 = (Ok (Some c), w3) ∧
    floor_of room i w3 = (Ok f, w4) ∧ w' = with_mem (λ t, set_client (set_floor (if 1 <=? f then 1 else 0) (client t)) t) w4 ∧
    identity_of (Some c) = Some i ∧ get c "changeStatus" = JStr "unchanged" ∧
    (oprop item "requiresVerifiedContact" = JBool true → get c "verification" = JStr "verified").
Proof.
  intros Hi ([] & w2 & Ht & (cur & w3 & Hc & Hr)%bind_ok_run)%bind_ok_run.
  apply bind_ok_run in Hr as (? & ? & (Hf & ->)%fail_if_run & Hr).
  apply bind_ok_run in Hr as (? & ? & (Hv & ->)%fail_if_run & Hr).
  apply bind_ok_run in Hr as (f & w4 & Hfl & [= _ <-]).
  rewrite !orb_false_iff, !negb_false_iff, !bool_decide_eq_true in Hf. destruct Hf as [[Hun _] Heq]. rewrite Hi in Heq.
  destruct cur as [c|]; [|done]. cbn in Hun. apply bool_decide_eq_true in Hun.
  unfold contact_floor in Hfl. rewrite Heq in Hfl. exists c, f, w2, w3, w4. split_and!; try done.
  intros Hq. rewrite bool_decide_true in Hv by done. cbn in Hv. by apply negb_false_iff, bool_decide_eq_true in Hv.
Qed.

Section retry.
Context (room i : string) (contact : option fields) (health : Health) (renewal : option fields) (recipient : option string).
Context (Hi : identity_of contact = Some i).
Definition work : Work (Session := Session) (Account := Account) (St := St) :=
  {| skip := skip_entry contact health renewal; beforeSubmit := authorize_entry others fault sha256 trusted_epoch room contact;
     persist := write_pending others fault room; onTerminalRejection := reject_notice |}.
(** the submissions [l] were made between [w] and [w'] *)
Definition submitted w w' (l : list Submission) : Prop :=
  moves w w' ∧ submissions (conv w') = submissions (conv w) ++ l ∧ Forall (cleared room i w w') l.
Lemma submitted_nil w w' : quietly w w' → submitted w w' [].
Proof. intros [? Hs]. split; [done|]. by rewrite app_nil_r. Qed.
Lemma submitted_app w1 w2 w3 l l' : submitted w1 w2 l → submitted w2 w3 l' → submitted w1 w3 (l ++ l').
Proof.
  intros (Hm & Hs & Hl) (Hm' & Hs' & Hl'). split; [by etrans|]. split; [by rewrite Hs', Hs, (assoc_L (++))|].
  apply Forall_app. split; (eapply Forall_impl; [eassumption|]); intros s Hc; (eapply cleared_mono; [..|exact Hc]); done.
Qed.

Lemma authorize_quiet item : always quietly (authorize_entry others fault sha256 trusted_epoch room contact item).
Proof. unfold authorize_entry, fail_if. auto 20 with k3. Qed.
Lemma retry_rest item sent (pending : list jsval) j :
  always quietly (now ← gets (λ w, clock (tick w));
    let item' := with_key (with_key item "relayId" (opt_str (sent_id sent))) "sentAt" (JNum (NInt now)) in
    (if terminalRejection sent then onTerminalRejection work item' else mret tt);;
    let pending' := <[j := if terminalRejection sent then with_key item' "terminallyRejected" (JBool true) else item']> pending in
    persist work pending';; mret pending').
Proof. cbv zeta. apply always_bind; [apply _|auto with k3|]. intros now. cbn [work onTerminalRejection persist]. destruct (terminalRejection sent); auto with k3. Qed.

Lemma submit_run item w x w' : submit relay item recipient w = (x, w') →
  w' = with_mem (λ t, set_client (add_submission
         {| s_item := item; s_recipient := recipient; s_floor := messageVersionFloor (conv w) |} (client t)) t) w ∧
  x = require (relay (tick w) (oprop item "envelope") recipient) "The relay did not accept the message.".
Proof. by intros [= <- <-]. Qed.

Lemma retry_item_submits j item (pending : list jsval) w x w' :
  eligible i item → recipient = remoteAddress (conv w) → retry_item relay clock work recipient j item pending w = (x, w') →
  ∃ l, submitted w w' l ∧ s_item <$> l `sublist_of` [item] ∧
    (∀ p, x = Ok p → p = pending ∨ ∃ it, p = <[j := it]> pending).
Proof.
  intros (Hterm & Hheld & Hrec) Hto Hr. unfold retry_item in Hr. cbn [beforeSubmit work] in Hr.
  apply bind_cases in Hr as [(u & w5 & Ha & Hr)|(e & Ha & ->)].
  2: { exists []. split_and!; [by apply submitted_nil; eapply authorize_quiet|apply sublist_nil_l|done]. }
  pose proof (authorize_quiet item _ _ _ Ha) as [Hm5 Hs5].
  destruct (authorized room contact i item w u w5 Hi Ha) as (c & f & w2 & w3 & w4 & Ht & Hc & Hf & -> & Hid & Hch & Hver).
  set (w5 := with_mem _ w4) in *.
  set (s := {| s_item := item; s_recipient := recipient; s_floor := messageVersionFloor (conv w5) |}).
  set (w6 := with_mem (λ t, set_client (add_submission s (client t)) t) w5).
  assert (∀ w7, moves w6 w7 → submissions (conv w7) = submissions (conv w6) → submitted w w7 [s]) as Hgo.
  { intros w7 Hm7 Hs7. split_and!.
    - etrans; [exact Hm5|]. etrans; [|exact Hm7]. split; [apply rtc_once, others_moved, drift_mem|done].
    - by rewrite Hs7, <-Hs5.
    - constructor; [|done]. apply (cleared_by _ _ _ _ _ c f w w2 w3 w4); try done. etrans; [|exact Hm7].
      split; [|done]. apply (rtc_l _ _ w5); [|apply rtc_once]; apply others_moved, drift_mem. }
  exists [s]. apply bind_cases in Hr as [(sent & w7 & Hsub & Hr)|(e & Hsub & ->)]; apply submit_run in Hsub as [-> Hx].
  - pose proof (retry_rest item sent pending j _ _ _ Hr) as [Hm8 Hs8]. split_and!; [by apply Hgo|done|].
    intros p ->. right. apply bind_ok_run in Hr as (now & w8 & _ & Hr). apply bind_ok_run in Hr as ([] & w9 & _ & Hr).
    apply bind_ok_run in Hr as ([] & w10 & _ & [= <- _]). eauto.
  - split_and!; [by apply Hgo|done|done].
Qed.

Lemma retry_from_submits n k (pending : list jsval) w x w' :
  recipient = remoteAddress (conv w) → retry_from transport relay clock n k work recipient pending w = (x, w') →
  ∃ l, submitted w w' l ∧ s_item <$> l `sublist_of` drop k pending.
Proof.
  revert k pending w. induction n as [|n IH]; intros k pending w Hto; cbn [retry_from].
  { intros [= _ <-]. exists []. split; [by apply submitted_nil|apply sublist_nil_l]. }
  destruct (pending !! k) as [item|] eqn:Hk.
  2: { intros [= _ <-]. exists []. split; [by apply submitted_nil|apply sublist_nil_l]. }
  unfold activeTransport. rewrite !gets_bind. cbn [work skip]. rewrite (drop_S _ _ _ Hk).
  destruct (skip_entry contact health renewal item (transport (tick w))) eqn:Hsk; cbn [orb].
  { intros Hr. destruct (IH (S k) pending w Hto Hr) as (l & ? & ?). exists l. split; [done|by constructor]. }
  destruct (sent_recently (clock (tick w)) item); cbn [orb].
  { intros Hr. destruct (IH (S k) pending w Hto Hr) as (l & ? & ?). exists l. split; [done|by constructor]. }
  destruct (not_skipped _ _ _ _ _ Hsk) as (i' & Hi' & Hel). rewrite Hi in Hi'. injection Hi' as <-.
  intros [(r & w1 & Hc & Hr)|(e & Hc & ->)]%bind_cases.
  2: { by apply catch_cases in Hc as [(? & _ & ?)|(? & ? & _ & ?)]. }
  assert (∃ y, retry_item relay clock work recipient k item pending w = (y, w1) ∧ (∀ p, r = Some p → y = Ok p)) as (y & Hy & Hp).
  { apply catch_cases in Hc as [(o & Ho & [= <-])|(e & s1 & He & [= <- <-])].
    - apply bind_ok_run in Ho as (p & ? & Ho & [= <- <-]). exists (Ok p). split; [done|]. by intros ? [= <-].
    - apply bind_cases in He as [(? & ? & _ & ?)|(e' & He & _)]; [done|]. by exists (Err e'). }
  destruct (retry_item_submits k item pending w y w1 Hel Hto Hy) as (l & Hl & Hsl & Hpend).
  destruct r as [p|].
  - specialize (Hp p eq_refl). subst y. specialize (Hpend p eq_refl).
    assert (drop (S k) p = drop (S k) pending) as Hd.
    { destruct Hpend as [->|(it & ->)]; [done|]. apply drop_insert_lt; lia. }
    destruct (IH (S k) p w1) as (l' & Hl' & Hsl'); [|exact Hr|].
    { destruct Hl as [[_ ->] _]. done. }
    exists (l ++ l'). split; [by eapply submitted_app|]. rewrite fmap_app.
    change (item :: drop (S k) pending) with ([item] ++ drop (S k) pending). rewrite <-Hd. by apply sublist_app.
  - injection Hr as _ <-. exists l. split; [done|].
    change (item :: drop (S k) pending) with ([item] ++ drop (S k) pending). by apply sublist_inserts_r.
Qed.
End retry.

(** ** The queue that is worked on *)
(** the stored outbox, at a state of the run, with or without the entries of the older format held back *)
Definition stored_queue room w (q : list jsval) : Prop :=
  ∃ w1 stored, moves w w1 ∧ parseList (read (disk w1) OUTBOX_RECORD room) = Ok stored ∧ (q = stored ∨ q = hold_item <$> stored).

Lemma hold_item_safe item : unsafe_legacy (hold_item item) = false.
Proof.
  unfold hold_item. destruct (negb (flag "roomMessageVersion" item) && negb (flag "terminallyRejected" item)) eqn:E.
  - unfold unsafe_legacy. assert (flag "heldNotSentSecurely" (with_key item "heldNotSentSecurely" (JBool true)) = true) as ->.
    { unfold flag, with_key, oprop. by rewrite get_set_key. }
    by rewrite andb_false_r.
  - unfold unsafe_legacy. destruct (flag "roomMessageVersion" item), (flag "terminallyRejected" item); try done. by rewrite andb_false_r.
Qed.
Lemma hold_all_safe l : existsb unsafe_legacy (hold_item <$> l) = false.
Proof. induction l as [|x l IH]; [done|]. cbn. by rewrite hold_item_safe, IH. Qed.

Lemma read_run t j w b w' : read_ others fault t j w = (Ok b, w') → quietly w w' ∧ b = read (disk w') t j.
Proof. intros Hr. split; [by eapply quiet_read|]. by apply read_cases in Hr as (_ & _ & [[=]|[= ->]]). Qed.

Lemma hold_queue n room cur w0 w q w' :
  stored_queue room w0 cur → moves w0 w → hold_attempts others fault n room cur w = (Ok q, w') →
  stored_queue room w0 q ∧ existsb unsafe_legacy q = false.
Proof.
  revert cur w. induction n as [|n IH]; intros cur w Hq Hm; cbn [hold_attempts]; [done|].
  intros ([] & w1 & Hl & Hr)%bind_ok_run. assert (w1 = w) as -> by (unfold lift in Hl; by injection Hl as _ <-).
  destruct (negb (existsb unsafe_legacy cur)) eqn:E.
  { injection Hr as <- _. split; [done|]. by apply negb_true_iff. }
  apply bind_ok_run in Hr as (b & w2 & [Hm2 ->]%read_run & Hr). apply bind_ok_run in Hr as (cur' & w3 & Hp & Hr).
  unfold lift in Hp. injection Hp as Hp <-. apply bind_ok_run in Hr as ([] & w4 & Hl' & Hr).
  unfold lift in Hl'. injection Hl' as _ <-. apply bind_ok_run in Hr as (done & w5 & Hs & Hr).
  pose proof (quiet_swap _ _ _ _ _ _ Hs) as [Hm5 _]. destruct Hm2 as [Hm2 _].
  destruct done.
  - apply bind_ok_run in Hr as ([] & w6 & _ & [= <- _]). split; [|apply hold_all_safe].
    exists w2, cur'. split; [by etrans|]. split; [done|by right].
  - apply bind_ok_run in Hr as (b & w6 & [[Hm6 _] ->]%read_run & Hr). apply bind_ok_run in Hr as (again & w7 & Hp' & Hr).
    unfold lift in Hp'. injection Hp' as Hp' <-. assert (moves w0 w6) as Hm06 by (do 3 (etrans; [eassumption|]); done).
    eapply IH; [|exact Hm06|exact Hr]. exists w6, again. split; [done|]. split; [done|by left].
Qed.

(** with no identity to compare, every entry is passed over *)
Lemma retry_nobody n k room health renewal contact recipient (pending : list jsval) w :
  identity_of contact = None →
  retry_from transport relay clock n k (work room contact health renewal) recipient pending w = (Ok tt, w).
Proof.
  intros Hi. revert k. induction n as [|n IH]; intros k; cbn [retry_from]; [done|].
  destruct (pending !! k) as [item|]; [|done]. unfold activeTransport. rewrite !gets_bind. cbn [work skip].
  unfold skip_entry at 1. rewrite Hi, !orb_true_r. cbn [orb]. apply IH.
Qed.

Lemma legacy_only (q : list jsval) item : existsb unsafe_legacy q = false → item ∈ q →
  flag "terminallyRejected" item = false → flag "heldNotSentSecurely" item = false → flag "roomMessageVersion" item = true.
Proof.
  intros Hq Hin Ht Hh. apply not_false_iff_true. intros Hv. apply not_true_iff_false in Hq. apply Hq, existsb_exists. exists item.
  rewrite <-list_elem_of_In. split; [done|]. unfold unsafe_legacy. by rewrite Hv, Ht, Hh.
Qed.

Lemma parsed_pending b (l : list jsval) : pending_of b = Ok l → parseList b = Ok l.
Proof.
  unfold pending_of. intros (v & Hv & Hr)%bind_ok. apply bind_ok in Hr as (? & _ & Hr). by apply bind_ok in Hr as (? & _ & [= ->]).
Qed.
Lemma no_submission w w' (P : list Submission → Prop) :
  quietly w w' → ∃ l, submissions (conv w') = submissions (conv w) ++ l ∧ (l ≠ [] → P l).
Proof. intros [_ Hs]. exists []. by rewrite app_nil_r. Qed.
Lemma quietly_bind {A B} (m : M W A) (k : A → M W B) : always quietly m → ∀ w x w', (m ≫= k) w = (x, w') →
  (∃ a w1, m w = (Ok a, w1) ∧ quietly w w1 ∧ k a w1 = (x, w')) ∨ quietly w w'.
Proof. intros Hm w x w' [(a & w1 & Ha & Hk)|(e & He & _)]%bind_cases; [left; eauto 10|right; by eapply Hm]. Qed.

End safety.

(** ** A conversation to run *)
Module Sample.
Definition room : string := "0b7f1f6e-3c58-4f0e-9d4b-000000000000".
Definition own : string := "K3 AAAA BBBB CCCC DDDD EEEE FFFF GGGG HHHH IIII JJJJ KKK".
Definition theirs : string := "K3 0000 1111 2222 3333 4444 5555 6666 7777 8888 9999 ABC".
Definition peer : string := "0b7f1f6e-3c58-4f0e-9d4b-111111111111".
Definition contact (verification : string) : fields :=
  [("contactId", JStr peer); ("identityId", JStr theirs); ("algorithm", JStr "Olm-Curve25519+Ed25519"); ("publicKey", JStr "YWJj");
   ("verification", JStr verification); ("changeStatus", JStr "unchanged")].
Definition entry (clientId : string) (more : fields) : jsval :=
  JObj ([("envelope", envelope_of "cipher"); ("clientId", JStr clientId); ("recipientIdentityReference", JStr theirs)] ++ more).
Definition v1 : string * jsval := ("roomMessageVersion", JNum (NInt 1)).
Definition conversation : Conversation :=
  {| roomId := Some room; capability := Some "cap"; remoteAddress := Some peer; remoteIdentityCommitment := None;
     localIdentityId := Some own; localAddress := Some "0b7f1f6e-3c58-4f0e-9d4b-222222222222"; trustEpoch := Some 1;
     sessionHealth := healthy; joinIntroductionPending := false; earlyJoinIntroductionDeliveries := []; messageVersionFloor := 0;
     notices := []; submissions := []; receiving := not_receiving |}.
Definition Talk : Type := (Tab (Session := nat) (Account := nat) (C := Conversation)).
Definition tab : Talk :=
  {| state := active; bindings := true; identityHeld := true; identity := no_identity;
     session := Some {| handle := 0%nat; initialized := true |}; conversationId := Some room;
     mutated := false; buildError := None; acceptanceUpdates := []; client := conversation |}.
(** the contact unverified; one entry ready, one rejected, one for a verified contact only, one ready *)
Definition queue : list jsval :=
  [entry "m1" [v1]; entry "m2" [v1; ("terminallyRejected", JBool true)]; entry "m3" [v1; ("requiresVerifiedContact", JBool true)];
   entry "m4" []].
Definition world : World memory Talk :=
  {| disk := write SESSION_RECORD_TYPE room (Tally.tally 0) (write OUTBOX_RECORD room (stringify (JArr queue))
               (write ContactRegistry.RECORD_TYPE peer (encodeStored (contact "unverified")) (∅ : memory)));
     tick := 0; mem := tab |}.
Definition trusted : M (World memory Talk) Z := mret 1.
Definition transport (n : nat) : option Transport := Some {| requiresRoomMessageV1 := false; peerSupportsRoomMessageV1 := true |}.
Definition relay (n : nat) (e : jsval) (r : option string) : option DeliverySubmissionResult :=
  Some {| sent_id := Some "relay-1"; terminalRejection := false |}.
Definition clock (n : nat) : Z := 1000.
Definition run := retryPending Tally.alone Tally.sound (λ s, s) transport relay clock trusted world.
Definition client_ids (l : list jsval) : list jsval := (λ v, oprop v "clientId") <$> l.
Lemma run_submits : run.1 = Ok tt ∧ client_ids (s_item <$> submissions (conv run.2)) = [JStr "m1"; JStr "m4"].
Proof. by vm_compute. Qed.
End Sample.

