(* ===== verification/OutboxKeeping.v ===== *)
(** * No queued message is lost ([crypto/modernConversation.ts])

    Retries, holds and the relay's reports change an outbox entry only in its delivery status, and remove one only when the
    relay reported its delivery. Assumed is what the tab lock is for: nobody else writes the outbox of the room. *)
From S2P Require Import Prelude Json Base64 Storage RoomMessage VersionFloor ReplayEvidence Vault RatchetSafety Ratchet Outbox OutboxSafety ContactRegistry.

(** ** Entries up to their delivery status *)
Definition status_keys : list string := ["relayId"; "sentAt"; "terminallyRejected"; "heldNotSentSecurely"].
Definition content (fs : fields) : fields :=
  List.filter (λ kv, negb (includes status_keys kv.1) && negb (bool_decide (kv.2 = JUndef))) fs.
Lemma content_set fs k v : includes status_keys k = true → content (set_key fs k v) = content fs.
Proof.
  intros Hk. unfold content. induction fs as [|[k' v'] fs IH]; cbn [set_key List.filter fst snd]; [by rewrite Hk|].
  destruct (decide (k' = k)) as [->|Hn].
  - rewrite bool_decide_true by done. cbn [List.filter fst snd]. by rewrite Hk.
  - rewrite bool_decide_false by done. cbn [List.filter fst snd]. by rewrite IH.
Qed.
Lemma content_drop_undef fs : content (drop_undef fs) = content fs.
Proof.
  unfold content, drop_undef. induction fs as [|[k v] fs IH]; [done|]. cbn [List.filter fst snd].
  destruct (bool_decide (v = JUndef)) eqn:E; cbn [negb]; [by rewrite IH, andb_false_r|].
  cbn [List.filter fst snd]. by rewrite E, IH.
Qed.

(** a list in memory with these contents *)
Definition good (L : list fields) (l : list jsval) : Prop := ∃ fss, l = JObj <$> fss ∧ Forall kept fss ∧ content <$> fss = L.
Lemma good_mark L l k item key v :
  good L l → l !! k = Some item → includes status_keys key = true → v = JUndef ∨ plain v = true → good L (<[k := with_key item key v]> l).
Proof.
  intros (fss & -> & Hk & HL) Hl Hkey Hv. rewrite list_lookup_fmap in Hl. apply fmap_Some in Hl as (fs & Hf & ->).
  exists (<[k := set_key fs key v]> fss). split; [by rewrite list_fmap_insert|]. split.
  - apply Forall_insert; [done|]. apply kept_set_key; [|done]. rewrite Forall_forall in Hk. apply Hk. by eapply list_elem_of_lookup_2.
  - rewrite list_fmap_insert, HL, content_set by done. apply list_insert_id. rewrite <-HL, list_lookup_fmap. exact (f_equal (fmap content) Hf).
Qed.
Lemma good_hold L l : good L l → good L (hold_item <$> l).
Proof.
  intros (fss & -> & Hk & HL).
  set (h fs := if negb (flag "roomMessageVersion" (JObj fs)) && negb (flag "terminallyRejected" (JObj fs))
               then set_key fs "heldNotSentSecurely" (JBool true) else fs).
  exists (h <$> fss). split_and!.
  - rewrite <-!list_fmap_compose. apply list_fmap_ext. intros k fs _. unfold hold_item, h, compose. by destruct (_ && _).
  - apply Forall_fmap. eapply Forall_impl; [exact Hk|]. intros fs Hfs. unfold h, compose. destruct (_ && _); [|done].
    apply kept_set_key; [done|by right].
  - rewrite <-HL, <-list_fmap_compose. apply list_fmap_ext. intros k fs _. unfold h, compose. destruct (_ && _); [|done].
    by apply content_set.
Qed.

Lemma drop_undef_plain fs : plain (JObj fs) = true → drop_undef fs = fs.
Proof.
  cbn [plain]. rewrite andb_true_iff. intros [Hp _]. unfold drop_undef. induction fs as [|[k v] fs IH]; [done|].
  cbn [forallb snd] in Hp. apply andb_true_iff in Hp as [Hv Hp]. cbn [List.filter snd]. rewrite bool_decide_false by (by intros ->).
  cbn [negb]. by rewrite IH.
Qed.
Lemma stringify_entries fss : stringify (JArr (JObj <$> fss)) = stringify (JArr (JObj <$> (drop_undef <$> fss))).
Proof.
  cbn [stringify]. do 3 f_equal. induction fss as [|fs fss IH]; [done|]. cbn [fmap list_fmap]. f_equal; [apply stringify_drop_undef|exact IH].
Qed.

Section keeping.
Context {Session Account : Type} `{Olm Session Account} `{SecureStorageLaws St}.
Context (others : nat → St → St) (fault : nat → Io) (sha256 : string → string).
Context (transport : nat → option Transport) (relay : nat → jsval → option string → option DeliverySubmissionResult) (clock : nat → Z).
Notation T := (Tab (Session := Session) (Account := Account) (C := Conversation)).
Notation W := (World St T).
Context (trusted_epoch : M W Z) (room : string).
Context (trust_reads : always (drift others) trusted_epoch).
Context (outbox_locked : ∀ n d, read (others n d) OUTBOX_RECORD room = read d OUTBOX_RECORD room).
Implicit Types w : W.

(** The stored outbox is this list of objects; absent is empty. *)
Definition outbox_is w (fss : list fields) : Prop :=
  parseList (read (disk w) OUTBOX_RECORD room) = Ok (JObj <$> fss) ∧ Forall (λ fs, plain (JObj fs) = true) fss.
Definition holds_content (L : list fields) w : Prop := ∃ fss, outbox_is w fss ∧ content <$> fss = L.

Lemma outbox_good w l : parseList (read (disk w) OUTBOX_RECORD room) = Ok l → ∀ L, holds_content L w → good L l.
Proof.
  intros Hl L (fss & [Hp Hf] & HL). rewrite Hp in Hl. injection Hl as <-. exists fss. split; [done|]. split; [|done].
  eapply Forall_impl; [exact Hf|]. apply plain_kept.
Qed.
Lemma good_written w L l : good L l → read (disk w) OUTBOX_RECORD room = Some (asBytes (JArr l)) → holds_content L w.
Proof.
  intros (fss & -> & Hk & HL) Hr. exists (drop_undef <$> fss). split; [split|].
  - rewrite Hr. unfold parseList, asBytes. rewrite stringify_entries, parse_stringify; [done|].
    apply plain_arr. rewrite !Forall_fmap. eapply Forall_impl; [exact Hk|]. intros fs. apply kept_plain.
  - apply Forall_fmap. eapply Forall_impl; [exact Hk|]. intros fs. apply kept_plain.
  - rewrite <-list_fmap_compose, <-HL. apply list_fmap_ext. intros k fs _. apply content_drop_undef.
Qed.

(** ** What leaves the outbox alone *)
Definition same w w' : Prop := read (disk w') OUTBOX_RECORD room = read (disk w) OUTBOX_RECORD room.
#[export] Instance same_preorder : PreOrder same.
Proof. split; [by intros w|]. intros w1 w2 w3. unfold same. congruence. Qed.
Lemma drift_same w w' : drift others w w' → same w w'.
Proof. intros Hd. eapply drift_read; [|exact Hd]. intros n d. apply outbox_locked. Qed.
Lemma same_content L w w' : same w w' → holds_content L w → holds_content L w'.
Proof. intros E (fss & [Hp ?] & ?). exists fss. split; [|done]. split; [|done]. by rewrite E. Qed.
Lemma same_read t i : always same (read_ others fault t i).
Proof. intros w x w' (Hd & _)%read_cases. by apply drift_same. Qed.
Lemma same_access {A} (f : St → res A * St) : (∀ d, read (f d).2 OUTBOX_RECORD room = read d OUTBOX_RECORD room) →
  always same (access others fault f : M W A).
Proof.
  intros Hf w x w' Hr. unfold access in Hr. set (d := others (tick w) (disk w)) in *.
  assert (read d OUTBOX_RECORD room = read (disk w) OUTBOX_RECORD room) as Hd by apply outbox_locked.
  specialize (Hf d). destruct (f d) as [r d']. cbn [snd] in Hf.
  destruct (fault (tick w)); injection Hr as _ <-; unfold same; cbn [disk]; congruence.
Qed.
Lemma same_write t i v : t ≠ OUTBOX_RECORD → always same (write_ others fault t i v).
Proof. intros Ht. apply same_access. intros d. apply read_write_ne. congruence. Qed.
Lemma same_delete t i : t ≠ OUTBOX_RECORD → always same (delete_ others fault t i).
Proof. intros Ht. apply same_access. intros d. apply read_delete_ne. congruence. Qed.
Lemma same_update (f : Conversation → Conversation) : always same (update_ f : M W unit).
Proof. intros w x w' [= _ <-]. done. Qed.
Lemma same_get {A} (f : Conversation → A) : always same (get_ f : M W A).
Proof. by apply always_gets, _. Qed.
Lemma same_trust_epoch : always same trusted_epoch.
Proof. intros w x w' Hr. apply drift_same. by eapply trust_reads. Qed.
Lemma same_close : always same (close : M W unit).
Proof. by intros w x w' [= _ <-]. Qed.
Lemma same_registry r : always same (registry_get others fault r : M W _).
Proof. apply same_access. intros d. by apply get_contact_other. Qed.
Lemma same_floor i r : always same (floor_of others fault sha256 r i : M W Z).
Proof. by apply same_access. Qed.
Hint Resolve same_read same_update same_get same_trust_epoch same_close same_registry same_floor : k3.
Hint Extern 1 (always same (write_ _ _ _ _ _)) => (apply same_write; discriminate) : k3.
Hint Extern 1 (always same (delete_ _ _ _ _)) => (apply same_delete; discriminate) : k3.
Hint Extern 1 (PreOrder _) => apply _ : k3.
Lemma same_contact : always same (getContact others fault : M W _).
Proof. apply always_bind; [apply _|auto with k3|]. intros [r|]; [|auto with k3]. destruct (nonempty r); auto with k3. Qed.
Hint Resolve same_contact : k3.
Lemma same_contact_floor r c : always same (contact_floor others fault sha256 r c : M W Z).
Proof. unfold contact_floor. destruct (Outbox.identity_of c); auto with k3. Qed.
Hint Resolve same_contact_floor : k3.
Lemma same_authorize contact item : always same (authorize_entry others fault sha256 trusted_epoch room contact item : M W unit).
Proof. unfold authorize_entry, assertCurrentDeviceTrust, fail_if. auto 20 with k3. Qed.
Lemma same_reject item : always same (reject_notice item : M W unit).
Proof. unfold reject_notice, notify. destruct (flag _ _); auto with k3. Qed.
Hint Resolve same_authorize same_reject : k3.

(** ** What keeps the contents *)
Definition keeping {A} (L : list fields) (G : A → Prop) (m : M W A) : Prop :=
  triple (holds_content L) m (λ a w, G a ∧ holds_content L w) (λ _ w, holds_content L w).
Lemma keeping_bind {A B} L (G : A → Prop) (G' : B → Prop) (m : M W A) k :
  keeping L G m → (∀ a, G a → keeping L G' (k a)) → keeping L G' (m ≫= k).
Proof. intros Hm Hk. eapply triple_bind; [exact Hm|]. intros a. apply triple_pure. apply Hk. Qed.
Lemma keeping_same {A} L (m : M W A) : always same m → keeping L (λ _, True) m.
Proof.
  intros Hm w Hw. destruct (m w) as [[a|e] w'] eqn:E; [split; [done|]|]; (eapply same_content; [by eapply Hm|done]).
Qed.
Lemma keeping_seq {A B} L (G' : B → Prop) (m : M W A) k : always same m → (∀ a, keeping L G' (k a)) → keeping L G' (m ≫= k).
Proof. intros Hm Hk. eapply keeping_bind; [by apply keeping_same|]. intros a _. apply Hk. Qed.
Lemma keeping_ret {A} L (G : A → Prop) a : G a → keeping L G (mret a).
Proof. by intros Ha w Hw. Qed.
Lemma keeping_lift {A} L (r : res A) : keeping L (λ a, r = Ok a) (lift r).
Proof. intros w Hw. unfold lift. by destruct r. Qed.
Lemma keeping_catch {A} L (G : A → Prop) (m : M W A) h : keeping L G m → (∀ e, keeping L G (h e)) → keeping L G (catch_ m h).
Proof. intros Hm Hh. eapply triple_catch; [exact Hm|]. intros e. apply Hh. Qed.
Lemma keeping_weaken {A} L (G G' : A → Prop) (m : M W A) : keeping L G m → (∀ a, G a → G' a) → keeping L G' m.
Proof. intros Hm HG. eapply triple_weaken; [exact Hm|done| |done]. intros a w [? ?]. auto. Qed.

Lemma keeping_write L l : good L l → keeping L (λ _, True) (write_ others fault OUTBOX_RECORD room (asBytes (JArr l))).
Proof.
  intros Hl w Hw. destruct (write_ _ _ _ _ _ w) as [x w'] eqn:E.
  assert (holds_content L w') as Hh.
  { apply write_cases in E as (_ & [[_ Hd]|(_ & w1 & _ & Hd & _)]).
    - eapply same_content; [by apply drift_same|done].
    - apply (good_written w' L l Hl). by rewrite Hd, read_write. }
  by destruct x.
Qed.
Lemma keeping_swap L e l : good L l →
  keeping L (λ _, True) (swap_ others fault [{| recordType := OUTBOX_RECORD; recordId := room; expected := e; next := asBytes (JArr l) |}]).
Proof.
  intros Hl w Hw. destruct (swap_ _ _ _ w) as [x w'] eqn:E. set (u := Build_SecureRecordUpdate _ _ _ _) in *.
  assert (holds_content L w') as Hh.
  { apply swap_cases in E as (_ & [[Hd _]|[Hc _]]).
    - eapply same_content; [by apply drift_same|done].
    - apply (good_written w' L l Hl). destruct (committed_read others [u] u w w') as [_ Hr]; [apply NoDup_singleton|set_solver|exact outbox_locked|done|exact Hr]. }
  by destruct x.
Qed.
(** reading the outbox *)
Lemma keeping_read L (parse_ : option string → res (list jsval)) :
  (∀ b l, parse_ b = Ok l → parseList b = Ok l) →
  keeping L (good L) (b ← read_ others fault OUTBOX_RECORD room; lift (parse_ b)).
Proof.
  intros Hp w Hw. unfold mbind, M_bind. destruct (read_ _ _ _ _ w) as [[b|e] w'] eqn:E;
    apply read_cases in E as (Hd & _ & Hx); (assert (holds_content L w') as Hh by (eapply same_content; [by apply drift_same|done])); [|done].
  destruct Hx as [[=]|[= ->]]. unfold lift. destruct (parse_ _) as [l|e] eqn:El; [|done]. split; [|done].
  apply Hp in El. by eapply outbox_good.
Qed.
Lemma pending_list b (l : list jsval) : pending_of b = Ok l → parseList b = Ok l.
Proof.
  unfold pending_of. intros (v & Hv & Hr)%bind_ok. apply bind_ok in Hr as (? & _ & Hr). by apply bind_ok in Hr as (? & _ & [= ->]).
Qed.
Lemma keeping_pending L : keeping L (good L) (readPending others fault room).
Proof. apply keeping_read, pending_list. Qed.

Lemma keeping_write_pending L l : good L l → keeping L (λ _, True) (write_pending others fault room l).
Proof. intros Hl. eapply keeping_bind; [by apply keeping_write|]. intros [] _. apply keeping_same. auto with k3. Qed.

Section retry.
Context (L : list fields) (work : Work (Session := Session) (Account := Account) (St := St)) (recipient : option string).
Context (before : ∀ item, always same (beforeSubmit work item)) (rejected : ∀ item, always same (onTerminalRejection work item))
  (writes : ∀ l, good L l → keeping L (λ _, True) (persist work l)).

Lemma keeping_retry_item k item l : good L l → l !! k = Some item → keeping L (good L) (retry_item relay clock work recipient k item l).
Proof.
  intros Hl Hk. unfold retry_item. apply keeping_seq; [by apply before|]. intros _.
  apply keeping_seq; [unfold submit, require_; auto 10 with k3|]. intros sent.
  apply keeping_seq; [auto with k3|]. intros now. cbv zeta.
  apply keeping_seq; [destruct (terminalRejection sent); [apply rejected|auto with k3]|]. intros _.
  set (item' := with_key (with_key item "relayId" (opt_str (sent_id sent))) "sentAt" (JNum (NInt now))).
  assert (k < length l)%nat as Hlen by by eapply lookup_lt_Some.
  assert (good L (<[k:=item']> l)) as Hg.
  { rewrite <-(list_insert_insert_eq l k item' (with_key item "relayId" (opt_str (sent_id sent)))).
    apply good_mark; [apply good_mark; [done..|]|by rewrite list_lookup_insert_eq|done|by right].
    destruct (sent_id sent); [by right|by left]. }
  assert (good L (<[k:=if terminalRejection sent then with_key item' "terminallyRejected" (JBool true) else item']> l)) as Hg'.
  { destruct (terminalRejection sent); [|done]. rewrite <-(list_insert_insert_eq l k _ item').
    apply good_mark; [done|by rewrite list_lookup_insert_eq|done|by right]. }
  eapply keeping_bind; [by apply writes|]. intros _ _. by apply keeping_ret.
Qed.

Lemma keeping_retry_from n k l : good L l → keeping L (λ _, True) (retry_from transport relay clock n k work recipient l).
Proof.
  revert k l. induction n as [|n IH]; intros k l Hl; cbn [retry_from]; [by apply keeping_ret|].
  destruct (l !! k) as [item|] eqn:Hk; [|by apply keeping_ret].
  apply keeping_seq; [unfold activeTransport; auto with k3|]. intros t. apply keeping_seq; [auto with k3|]. intros now.
  destruct (_ || _); [by apply IH|].
  apply keeping_bind with (G := λ o, ∀ l', o = Some l' → good L l').
  - apply keeping_catch; [|intros e; by apply keeping_ret]. eapply keeping_bind; [by apply keeping_retry_item|].
    intros l' Hl'. apply keeping_ret. by intros ? [= <-].
  - intros [l'|] Hl'; [apply IH, (Hl' l' eq_refl)|by apply keeping_ret].
Qed.
End retry.

Lemma keeping_hold L n l : good L l → keeping L (good L) (hold_attempts others fault n room l).
Proof.
  revert l. induction n as [|n IH]; intros l Hl; cbn [hold_attempts]; [by intros w Hw|].
  apply keeping_seq; [auto with k3|]. intros []. destruct (negb _); [by apply keeping_ret|].
  apply keeping_bind with (G := λ b, ∀ l, parseList b = Ok l → good L l).
  - intros w Hw. destruct (read_ _ _ _ _ w) as [[b|e] w'] eqn:E; apply read_cases in E as (Hd & _ & Hx);
      (assert (holds_content L w') as Hh by (eapply same_content; [by apply drift_same|done])); [|done].
    split; [|done]. intros l' Hl'. destruct Hx as [[=]|[= ->]]. by eapply outbox_good.
  - intros b Hb. eapply keeping_bind; [apply keeping_lift|]. intros cur Hcur%Hb. apply keeping_seq; [auto with k3|]. intros [].
    cbv zeta. eapply keeping_bind; [by apply keeping_swap, good_hold|]. intros done_ _. destruct done_.
    + apply keeping_seq; [auto with k3|]. intros []. by apply keeping_ret, good_hold.
    + intros w Hw. rewrite <-bind_bind. revert w Hw.
      match goal with |- ∀ w, _ → match ?m w with _ => _ end => change (keeping L (good L) m) end.
      eapply keeping_bind; [by apply keeping_read|]. apply IH.
Qed.

Lemma keeping_retryPending L w x w' :
  roomId (client (mem w)) = Some room → holds_content L w →
  retryPending others fault sha256 transport relay clock trusted_epoch w = (x, w') → holds_content L w'.
Proof.
  intros Hroom Hw Hr. enough (match retryPending others fault sha256 transport relay clock trusted_epoch w with
    (Ok _, w1) => holds_content L w1 | (Err _, w1) => holds_content L w1 end) as Ht by (rewrite Hr in Ht; by destruct x).
  unfold retryPending, bound, get_, get_mem. rewrite gets_bind.
  destruct (bool_decide (sessionHealth (client (mem w)) = unhealthy)); [done|]. rewrite gets_bind, Hroom. destruct (nonempty room); [|done].
  revert w Hw Hr Hroom. match goal with |- ∀ w, _ → _ → _ → match ?m w with _ => _ end =>
    enough (keeping L (λ _, True) m) as Hm by (intros w Hw _ _; specialize (Hm w Hw); destruct (m w) as [[[]|e] w1]; [apply Hm|exact Hm]) end.
  eapply keeping_bind; [apply keeping_pending|]. intros stored Hs.
  apply keeping_seq; [auto with k3|]. intros contact. apply keeping_seq; [auto with k3|]. intros f.
  apply keeping_bind with (G := good L).
  { destruct (1 <=? f); [by apply keeping_hold|by apply keeping_ret]. }
  intros q Hq. apply keeping_seq; [auto with k3|]. intros health.
  apply keeping_seq; [destruct (bool_decide _); auto with k3|]. intros renewal. apply keeping_seq; [auto with k3|]. intros recipient.
  eapply triple_finally. eapply triple_weaken; [apply (keeping_retry_from L)|keep|..].
  - intros item. apply same_authorize.
  - intros item. apply same_reject.
  - intros l Hl. by apply keeping_write_pending.
  - exact Hq.
  - intros a w1 [_ Hw1]. split; [done|]. by eapply same_content.
  - intros e w1 Hw1. by eapply same_content.
Qed.

(** what a report does before it comes to the outbox *)
Lemma keeping_run {A} L G (m : M W A) w x w' : keeping L G m → holds_content L w → m w = (x, w') → holds_content L w'.
Proof. intros Hm Hw Hr. specialize (Hm w Hw). rewrite Hr in Hm. destruct x; [apply Hm|exact Hm]. Qed.

Lemma keeping_reject L relayId w x w' :
  roomId (client (mem w)) = Some room → holds_content L w → rejectDelivery others fault relayId w = (x, w') → holds_content L w'.
Proof.
  intros Hroom Hw. unfold rejectDelivery, bound, get_, get_mem. rewrite gets_bind, Hroom.
  destruct (nonempty room); [|by intros [= _ <-]].
  match goal with |- ?m w = _ → _ => intros Hr; refine (keeping_run L (λ _, True) m w x w' _ Hw Hr) end.
  apply keeping_seq; [auto with k3|]. intros b. apply keeping_seq; [auto with k3|]. intros intro_.
  apply keeping_seq.
  { destruct intro_ as [fs|]; [|auto with k3]. destruct (_ && _); auto with k3. }
  intros []. eapply keeping_bind; [apply keeping_pending|]. intros l Hl.
  destruct (list_find _ l) as [[k rejected]|] eqn:E; [|by apply keeping_ret].
  apply list_find_Some in E as (Hk & _ & _). destruct (flag _ rejected); [by apply keeping_ret|].
  eapply keeping_bind; [apply keeping_write, good_mark; [done..|by right]|]. intros [] _. apply keeping_same. auto with k3.
Qed.

(** *** Acceptance *)
Definition of_relay (relayId : string) (fs : fields) : bool := bool_decide (get fs "relayId" = JStr relayId).
Definition without (relayId : string) (fss : list fields) : list fields := List.filter (λ fs, negb (of_relay relayId fs)) fss.
Definition accepted_content (fss : list fields) (relayId : string) w : Prop :=
  holds_content (content <$> fss) w ∨ holds_content (content <$> without relayId fss) w.

Lemma accepted_same {A} fss r (m : M W A) : always same m → triple (accepted_content fss r) m (λ _ w, accepted_content fss r w) (λ _ w, accepted_content fss r w).
Proof.
  intros Hm w Hw. destruct (m w) as [x w'] eqn:E. apply Hm in E.
  assert (accepted_content fss r w') by (destruct Hw; [left|right]; by eapply same_content). by destruct x.
Qed.
Lemma without_good fss r : Forall (λ fs, plain (JObj fs) = true) fss →
  good (content <$> without r fss) (List.filter (λ item, negb (bool_decide (oprop item "relayId" = JStr r))) (JObj <$> fss)).
Proof.
  intros Hf. exists (without r fss). split_and!; [|..|done].
  - unfold without. induction fss as [|fs fss IH]; [done|]. apply Forall_cons in Hf as [_ Hf]. cbn [fmap list_fmap List.filter].
    rewrite (IH Hf). unfold of_relay at 1. change (oprop (JObj fs) "relayId") with (get fs "relayId"). by destruct (negb _).
  - apply Forall_forall. intros fs Hin. rewrite Forall_forall in Hf. apply plain_kept, Hf. unfold without in Hin.
    apply list_elem_of_In, filter_In in Hin as [Hin _]. by apply list_elem_of_In.
Qed.

Lemma same_outbox {A} fss (m : M W A) : always same m → triple (λ w, outbox_is w fss) m (λ _ w, outbox_is w fss) (λ _ w, outbox_is w fss).
Proof.
  intros Hm w [Hp Hf]. destruct (m w) as [x w'] eqn:E. apply Hm in E. assert (outbox_is w' fss) by (split; [by rewrite E|done]).
  by destruct x.
Qed.
Lemma outbox_accepted fss r w : outbox_is w fss → accepted_content fss r w.
Proof. intros Hw. left. by exists fss. Qed.
Lemma triple_same_then {A B} fss r (m : M W A) (k : A → M W B) : always same m →
  (∀ a, triple (λ w, outbox_is w fss) (k a) (λ _ w, accepted_content fss r w) (λ _ w, accepted_content fss r w)) →
  triple (λ w, outbox_is w fss) (m ≫= k) (λ _ w, accepted_content fss r w) (λ _ w, accepted_content fss r w).
Proof.
  intros Hm Hk. eapply triple_bind; [|exact Hk]. eapply triple_weaken; [by apply (same_outbox fss)|keep|keep|].
  intros e w Hw. by apply outbox_accepted.
Qed.

Lemma accept_keeps fss r w x w' :
  roomId (client (mem w)) = Some room → outbox_is w fss → acceptDelivery others fault r w = (x, w') → accepted_content fss r w'.
Proof.
  intros Hroom Hw. unfold acceptDelivery, bound, get_, get_mem. rewrite gets_bind, Hroom.
  destruct (nonempty room); [|intros [= _ <-]; by apply outbox_accepted].
  match goal with |- ?m w = _ → _ => enough (triple (λ w, outbox_is w fss) m (λ _ w, accepted_content fss r w) (λ _ w, accepted_content fss r w)) as Ht end.
  { intros Hr. apply (triple_run _ _ _ _ _ _ _ Ht Hw) in Hr. by destruct x. }
  apply triple_same_then; [auto with k3|]. intros b. apply triple_same_then; [auto with k3|]. intros intro_.
  apply triple_same_then.
  { destruct intro_ as [fs|]; [|auto with k3]. unfold notify. destruct (_ && _); [|destruct (_ && _); auto 10 with k3].
    repeat (apply always_bind; [apply _|auto with k3|intros ?]). destruct (truthy _); auto with k3. }
  intros []. eapply triple_bind with (R := λ l w, l = JObj <$> fss ∧ outbox_is w fss).
  { intros v Hv. pose proof (same_outbox fss (readPending others fault room)) as Hs. unfold readPending in *.
    assert (always same (b ← read_ others fault OUTBOX_RECORD room; lift (pending_of b))) as Ha by auto with k3.
    specialize (Hs Ha v Hv). destruct ((b ← read_ others fault OUTBOX_RECORD room; lift (pending_of b)) v) as [[l|e] v'] eqn:E.
    - split; [|done]. apply bind_ok_run in E as (b0 & v1 & Hb & [Hl ->]%lift_run). apply read_cases in Hb as (_ & _ & [[=]|[= ->]]).
      apply pending_list in Hl. destruct Hs as [Hp _]. rewrite Hp in Hl. by injection Hl as <-.
    - by apply outbox_accepted. }
  intros l. apply triple_pure. intros ->. cbv zeta.
  destruct (match js_find _ _ with Some a => _ | None => _ end); [intros v Hv; by apply outbox_accepted|].
  eapply triple_bind with (R := λ _ v, accepted_content fss r v).
  { destruct (bool_decide _); [intros v Hv; by apply outbox_accepted|]. intros v Hv.
    destruct (write_ _ _ _ _ _ v) as [y v'] eqn:E. enough (accepted_content fss r v') by by destruct y.
    apply write_cases in E as (_ & [[_ Hd]|(_ & v1 & _ & Hd & _)]).
    - left. eapply same_content; [by apply drift_same|]. by exists fss.
    - right. apply (good_written v' _ _ (without_good fss r (proj2 Hv))). by rewrite Hd, read_write. }
  intros []. apply accepted_same. unfold notify.
  apply always_bind; [apply _|auto with k3|]. intros b'. apply always_bind; [apply _|auto with k3|]. intros renewal.
  apply always_bind; [apply _|destruct (_ && _); auto with k3|]. intros []. destruct (truthy _); auto with k3.
Qed.

(** ** The operations on a queue *)
Inductive OutboxOp := Retry | Accept (relayId : string) | Reject (relayId : string).
Definition perform (op : OutboxOp) : M W unit :=
  match op with
  | Retry => retryPending others fault sha256 transport relay clock trusted_epoch
  | Accept r => acceptDelivery others fault r
  | Reject r => rejectDelivery others fault r
  end.

End keeping.

Module Kept.
Definition entries : list fields := own <$> Sample.queue.
Lemma entries_stored : parseList (read (disk Sample.world) OUTBOX_RECORD Sample.room) = Ok (JObj <$> entries).
Proof. by vm_compute. Qed.
Lemma entries_plain : forallb (λ fs, plain (JObj fs)) entries = true.
Proof. by vm_compute. Qed.
(** the relay reports what was stored, after a retry *)
Definition run := acceptDelivery (St := memory) (Session := nat) (Account := nat) Tally.alone Tally.sound "relay-1" Sample.run.2.
Definition retried : list fields :=
  match parseList (read (disk Sample.run.2) OUTBOX_RECORD Sample.room) with Ok l => own <$> l | Err _ => [] end.
Lemma retried_stored : parseList (read (disk Sample.run.2) OUTBOX_RECORD Sample.room) = Ok (JObj <$> retried) ∧
  forallb (λ fs, plain (JObj fs)) retried = true ∧ (λ fs, get fs "clientId") <$> retried = JStr <$> ["m1"; "m2"; "m3"; "m4"].
Proof. by vm_compute. Qed.
Lemma run_removes : run.1 = Ok tt ∧
  ((λ v, oprop v "clientId") <$> match parseList (read (disk run.2) OUTBOX_RECORD Sample.room) with Ok l => l | Err _ => [] end) = JStr <$> ["m2"; "m3"].
Proof. by vm_compute. Qed.
Lemma still_bound : roomId (client (mem Sample.run.2)) = Some Sample.room.
Proof. by vm_compute. Qed.
End Kept.

