(* ===== verification/Sending.v ===== *)
(** * Sending a message ([crypto/modernConversation.ts], sendUnlocked and prepareOutboundSession)

    A message is checked against the contact as it is now, framed for the room, encrypted by the runtime, and appended to
    the outbox in the same swap that commits the session, the version floor and whatever else the send changes. What the
    relay's directory answers is a parameter. A text is its UTF-8 bytes. *)
From S2P Require Import Prelude Json Base64 Storage RoomMessage VersionFloor ReplayEvidence Vault ContactRegistry Routing Ratchet PublicBundle.
From S2P Require Import Attachments FileProtocol Outbox.

Definition SESSION_AUDIT_RECORD : string := "conversation-session-audit".
(* service/src/crypto/modernConversation.ts:62-62 JOIN_INTRODUCTION_MAGIC *)
Definition JOIN_INTRODUCTION_MAGIC : bytes := of_codes [0; 75; 51; 78; 67; 73; 1].
(** [MAX_USER_MESSAGE_UTF8_BYTES] *)
Definition MAX_USER_MESSAGE_UTF8_BYTES : Z := 60 * 1024.
(** [{ version: 1, classification, direction, origin }] *)
Definition session_audit (classification direction origin : string) : jsval :=
  JObj [("version", JNum (NInt 1)); ("classification", JStr classification); ("direction", JStr direction); ("origin", JStr origin)].
Definition plain_update (t i : string) (e : option string) (n : jsval) : SecureRecordUpdate :=
  {| recordType := t; recordId := i; expected := e; next := asBytes n |}.

(** [!text.trim()] on UTF-8 bytes: only white space and line terminators *)
Definition byte_is (c : ascii) (l : list Z) : bool := existsb (Z.eqb (code c)) l.
Fixpoint blank (b : bytes) : bool :=
  match b with
  | [] => true
  | x :: b1 =>
      if in_range 9 13 x || (code x =? 32) then blank b1 else
      match b1 with
      | [] => false
      | y :: b2 =>
          if (code x =? 194) && (code y =? 160) then blank b2 else
          match b2 with
          | [] => false
          | z :: b3 =>
              if (code x =? 225) && (code y =? 154) && (code z =? 128) ||
                 (code x =? 226) && (code y =? 128) && (in_range 128 138 z || byte_is z [168; 169; 175]) ||
                 (code x =? 226) && (code y =? 129) && (code z =? 159) || (code x =? 227) && (code y =? 128) && (code z =? 128) ||
                 (code x =? 239) && (code y =? 187) && (code z =? 191)
              then blank b3 else false
          end
      end
  end.

(** an answer of the relay's directory, or its failure with a status *)
Inductive Reply (A : Type) := reply (a : A) | failed (status : option Z).
Arguments reply {A} _.
Arguments failed {A} _.
Definition answer {S A} (r : Reply A) : M S A := match r with reply a => mret a | failed _ => throw "Request failed" end.

Section sending.
Context {Session Account : Type} `{Olm Session Account} `{SecureStorageLaws St}.
Context (others : nat → St → St) (fault : nat → Io) (sha256 : string → string).
Context (transport : nat → option Transport) (clock : nat → Z) (randomUUID : nat → string).
Context (wipe : list SecureRecordUpdate → Conversation → Conversation).
Notation T := (Tab (Session := Session) (Account := Account) (C := Conversation)).
Notation W := (World St T).
Context (trusted_epoch : M W Z).
(** [fetchVodozemacBundle], [claimVodozemacOneTimeKey] and the authenticated identity lookup (with its device proof), by time *)
Context (fetchVodozemacBundle : nat → string → string → string → Reply jsval)
  (claimVodozemacOneTimeKey : nat → string → string → string → string → Reply jsval)
  (fetchAuthenticatedRoutingIdentity : nat → string → string → string → string → Reply jsval).

Notation read_ := (read_ others fault).
Notation get_ := (Outbox.get_ (Session := Session) (Account := Account) (St := St)).
Notation getContact := (getContact others fault).
Notation registry_get := (registry_get others fault).
Notation assertCurrentDeviceTrust := (assertCurrentDeviceTrust trusted_epoch).
Notation floor_of := (floor_of others fault sha256).
Definition now_ : M W Z := gets (λ w, clock (tick w)).
Definition transport_now : M W (option Transport) := gets (λ w, transport (tick w)).
Definition fingerprint (identity : fields) : string := fingerprintVodozemacIdentity sha256 (keys_of identity).

(** [this.runtime.activeSessionId], when it is a nonempty string *)
Definition activeSessionId : M W (option string) :=
  get_mem (λ t : T, match Ratchet.session t with
                    | Some s => let i := handle_id (handle s) in if nonempty i then Some i else None
                    | None => None
                    end).
Definition nonempty_opt (o : option string) : option string := match o with Some s => if nonempty s then Some s else None | None => None end.

(** The contact of an address against the identity the relay presents. *)
(* service/src/crypto/modernConversation.ts:2287-2302 observe *)
Definition observe (address_ : string) (identity : fields) (expectedCommitment : option string)
    (authenticatedInboundFirstContact reviewOnly : bool) : M W unit :=
  known ← registry_get address_;
  let commits := match nonempty_opt expectedCommitment with Some c => String.eqb (fingerprint identity) c | None => false end in
  fail_if (negb (bool_decide (is_Some known)) && negb authenticatedInboundFirstContact && negb commits)
    "The invitation identity commitment is missing or does not match the published identity.";;
  now ← now_;
  event ← access others fault (observe_contact address_
    {| ContactRegistry.identityId := fingerprint identity; ci_algorithm := "Olm-Curve25519+Ed25519"; publicKey := stringify (JObj identity) |} now);
  let '(changed, current) := match event with
                             | first_seen c => (false, c) | unchanged c => (false, c) | identity_changed c _ _ => (true, c)
                             end in
  fail_if ((changed || negb (bool_decide (get current "changeStatus" = JStr "unchanged"))) &&
    negb (reviewOnly && bool_decide (get current "changeStatus" = JStr "changed-pending-review")))
    "This contact's identity changed. Review it before continuing.".

Definition authority_unavailable : string := "Authenticated routing recovery unavailable.".
(** up to the device proof, which is part of the request *)
(* service/src/crypto/modernConversation.ts:754-760 routingRequestAuthority *)
Definition routingRequestAuthority : M W (string * string) :=
  room ← get_ roomId; local ← get_ localAddress; known ← get_ trustEpoch;
  match nonempty_opt room, nonempty_opt local, known with
  | Some room, Some local, Some _ =>
      trusted_epoch;;
      mode ← modes_read others fault room;
      match mode with
      | Some m =>
          fail_if (negb (truthy (get m "routingProof")) || negb (bool_decide (get m "localAddress" = JStr local))) "Saved routing ownership is unavailable.";;
          mret (local, field_str m "routingProof")
      | None => throw "Saved routing ownership is unavailable."
      end
  | _, _, _ => throw authority_unavailable
  end.
(** [identity], the pin of the contact, is the only key material an established session may still use *)
(* service/src/crypto/modernConversation.ts:763-777 fetchPinnedPeerBundle *)
Definition fetchPinnedPeerBundle (address_ : string) : M W PublicBundle :=
  room ← get_ roomId; cap ← get_ capability;
  match nonempty_opt room, nonempty_opt cap with
  | Some room, Some cap =>
      t ← gets tick;
      match fetchVodozemacBundle t room cap address_ with
      | reply v => lift (validateVodozemacPublicBundle v)
      | failed status =>
          sid ← activeSessionId; health ← get_ sessionHealth; remote ← get_ remoteAddress;
          fail_if (negb (bool_decide (status = Some 404)) || negb (bool_decide (is_Some sid)) || negb (bool_decide (health = healthy)) ||
            negb (bool_decide (remote = Some address_))) "Request failed";;
          pin ← access others fault (get_contact address_ false);
          fail_if (negb (contact_is "changeStatus" "unchanged" pin)) "Request failed";;
          owner ← get_ localIdentityId;
          a ← routingRequestAuthority;
          t ← gets tick;
          value ← answer (fetchAuthenticatedRoutingIdentity t room cap address_ a.2);
          identity ← lift (prop value "version";;
                           throw_if (negb (bool_decide (oprop value "version" = JNum (NInt 1)))) "Authenticated routing identity unavailable.";;
                           mret (oprop value "identity"));
          sid ← activeSessionId; owner' ← get_ localIdentityId; remote ← get_ remoteAddress;
          keys_ ← lift (require (as_object identity) "TypeError");
          fail_if (negb (bool_decide (owner = owner')) || negb (bool_decide (is_Some sid)) || negb (bool_decide (remote = Some address_)) ||
            negb (bool_decide (identity_of pin = Some (fingerprint keys_)))) "The pinned contact or vault session changed.";;
          lift (validateVodozemacPublicBundle (JObj [("version", JNum (NInt 1)); ("protocol", JStr VODOZEMAC_BUNDLE_PROTOCOL);
                                                     ("identity", identity); ("oneTimeKeys", JArr [])]))
      end
  | _, _ => throw "Conversation is unavailable."
  end.

Definition not_ready : string := "The private contact is not ready.".
(** nothing to set up when there is a session already *)
(* service/src/crypto/modernConversation.ts:1127-1148 prepareOutboundSession *)
Definition prepareOutboundSession : M W (option (string * string)) :=
  health ← get_ sessionHealth;
  fail_if (bool_decide (health = unhealthy)) "The encrypted session needs verified renewal before sending.";;
  sid ← activeSessionId;
  match sid with
  | Some _ => mret None
  | None =>
      room ← get_ roomId; cap ← get_ capability; remote ← get_ remoteAddress; commitment ← get_ remoteIdentityCommitment;
      match nonempty_opt room, nonempty_opt cap, nonempty_opt remote with
      | Some room, Some cap, Some remote =>
          t ← gets tick;
          v ← answer (fetchVodozemacBundle t room cap remote);
          contact ← lift (validateVodozemacPublicBundle v);
          observe remote (pb_identity contact) commitment false false;;
          match pb_oneTimeKeys contact with
          | [] => throw "The contact has no available invitation keys."
          | k :: _ =>
              t ← gets tick;
              claimed ← answer (claimVodozemacOneTimeKey t room cap remote (field_str k "id"));
              key ← lift (prop claimed "key");
              fail_if (negb (bool_decide (key = get k "key"))) "The claimed invitation key changed.";;
              mret (Some (field_str (pb_identity contact) "curve25519", field_str k "key"))
          end
      | _, _, _ => throw not_ready
      end
  end.

(** the identity a file reference must be bound to *)
(* service/src/crypto/modernConversation.ts:886-898 fileTransferBinding *)
Definition fileTransferBinding (requireVerified refreshFromServer : bool) : M W FileBinding :=
  assertCurrentDeviceTrust;;
  room ← get_ roomId; cap ← get_ capability; local ← get_ localAddress; own ← get_ localIdentityId; remote ← get_ remoteAddress;
  match nonempty_opt room, nonempty_opt cap, nonempty_opt local, nonempty_opt own, nonempty_opt remote with
  | Some room, Some _, Some local, Some own, Some remote =>
      (if refreshFromServer then
         commitment ← get_ remoteIdentityCommitment;
         bundle ← fetchPinnedPeerBundle remote;
         observe remote (pb_identity bundle) commitment false false
       else mret tt);;
      contact ← registry_get remote;
      c ← require_ contact "Verified unchanged contact required.";
      fail_if (negb (contact_is "changeStatus" "unchanged" contact) || requireVerified && negb (contact_is "verification" "verified" contact))
        "Verified unchanged contact required.";;
      mret {| fb_conversationId := room; fb_senderParticipantId := local; fb_recipientParticipantId := remote;
              fb_senderIdentityReference := own; fb_recipientIdentityReference := field_str c "identityId" |}
  | _, _, _, _, _ => throw "File contact unavailable."
  end.

(** the bytes to encrypt, framed for the room unless neither side asks for it *)
(* service/src/crypto/modernConversation.ts:1104-1124 encodeOutboundMessage *)
Definition encodeOutboundMessage (text_ : bytes) (event : string) (k : RoomMessageKind) : M W (bytes * bool) :=
  t ← transport_now;
  let peer := match t with Some t => peerSupportsRoomMessageV1 t | None => false end in
  contact ← getContact;
  room ← get_ roomId; own ← get_ localIdentityId;
  latched ← match nonempty_opt room, identity_of contact with Some r, Some i => floor_of r i | _, _ => mret 0 end;
  fail_if (1 <? latched) "This contact requires a newer secure message format.";;
  fail_if (requires_v1 t && negb peer && (latched <? 1)) "The multiplexed transport requires peer room-message-v1 support.";;
  if negb peer && negb (requires_v1 t) && (latched <? 1) then mret (text_, false) else
  match nonempty_opt room, nonempty_opt own, identity_of contact with
  | Some room, Some own, Some i =>
      fail_if (negb (contact_is "changeStatus" "unchanged" contact)) "Stable identities are required for room-bound message delivery.";;
      frame ← lift (encodeRoomMessageV1 {| RoomMessage.roomId := str room; RoomMessage.senderIdentityReference := str own; RoomMessage.recipientIdentityReference := str i;
                                           RoomMessage.eventId := str event; RoomMessage.kind := k; RoomMessage.payload := text_ |});
      mret (frame, true)
  | _, _, _ => throw "Stable identities are required for room-bound message delivery."
  end.

Definition only_if (b : bool) (v : jsval) : option jsval := if b then Some v else None.
(** the entry a send adds to the outbox *)
(* service/src/crypto/modernConversation.ts:1071-1071 the entry in sendUnlocked *)
Definition new_entry (envelope : jsval) (clientId : string) (v1 file : bool) (contact : option fields) : jsval :=
  obj [("envelope", Some envelope); ("clientId", Some (JStr clientId)); ("senderOrigin", Some SENDER_ORIGIN);
       ("roomMessageVersion", only_if v1 (JNum (NInt 1)));
       ("recipientIdentityReference", Some (match contact with Some c => get c "identityId" | None => JUndef end));
       ("requiresVerifiedContact", only_if file (JBool true))].
(** the outbox with the new entry, and without the held one it supersedes *)
(* service/src/crypto/modernConversation.ts:1063-1071 nextPending in sendUnlocked *)
Definition next_outbox (pending : list jsval) (entry : jsval) (clientId : string) (v1 file : bool) (supersede : option string) : res (list jsval) :=
  entries_exist pending;;
  throw_if (existsb (λ item, bool_decide (oprop item "clientId" = JStr clientId)) pending) "The sender message identifier already exists.";;
  throw_if (match supersede with
            | Some s => nonempty s && (negb (existsb (λ item, bool_decide (oprop item "clientId" = JStr s) &&
                          bool_decide (oprop item "heldNotSentSecurely" = JBool true)) pending) || negb v1 || file)
            | None => false end) "Held message cannot be safely retried in the current room.";;
  let kept_ := List.filter (λ item, negb (bool_decide (oprop item "clientId" = opt_str supersede))) pending in
  throw_if (bool_decide (MAX_PENDING <= length kept_)%nat) "Too many messages are waiting to send.";;
  mret (kept_ ++ [entry]).
(** The records that are committed with the encrypted message. *)
(* service/src/crypto/modernConversation.ts:1060-1096 updates in sendUnlocked *)
Definition outbox_updates (room clientId : string) (contact : option fields) (v1 : bool) (file : option FileReference)
    (setup : option (string * string)) (health : Health) (supersede : option string)
    (prepareHistoryUpdate : option (string → M W SecureRecordUpdate)) (envelope : jsval) (sid : string) : M W (list SecureRecordUpdate) :=
  outboxBytes ← read_ OUTBOX_RECORD room;
  pending ← lift (parseList outboxBytes);
  let is_file := bool_decide (is_Some (fr_context <$> file)) in
  next_ ← lift (next_outbox pending (new_entry envelope clientId v1 is_file contact) clientId v1 is_file supersede);
  identity ← require_ (identity_of contact) "Room message security identity is unavailable.";
  guard ← access others fault (λ d, (prepareRoomMessageVersionFloorGuard sha256 d room identity, d));
  fail_if ((1 <=? guard.1) && negb v1) "This contact requires room-message-v1; retry to create a new secure message.";;
  opening ← match setup with
            | None => mret []
            | Some _ =>
                remote ← get_ remoteAddress;
                mode ← modes_prepareWrite others fault room [("sessionId", JStr sid); ("remoteAddress", opt_str remote)];
                auditBytes ← read_ SESSION_AUDIT_RECORD room;
                mret [mode; plain_update SESSION_AUDIT_RECORD room auditBytes (session_audit "active-established" "outbound" "first-message")]
            end;
  renewing ← (if bool_decide (health = renewal_pending) then
                renewalBytes ← read_ SESSION_RENEWAL_RECORD room;
                renewal ← lift (parseSessionRenewal renewalBytes);
                renewal ← require_ renewal "Verified renewal state is unavailable.";
                mret [plain_update SESSION_RENEWAL_RECORD room renewalBytes (with_key (JObj renewal) "clientId" (JStr clientId))]
              else mret []);
  guards ← match file with
           | Some f => remote ← get_ remoteAddress;
                       access others fault (prepareVerifiedFileGuards (default "" remote) (fb_recipientIdentityReference (binding_of (fr_context f))))
           | None => mret []
           end;
  history ← match prepareHistoryUpdate with Some p => u ← p clientId; mret [u] | None => mret [] end;
  mret ([plain_update OUTBOX_RECORD room outboxBytes (JArr next_); guard.2] ++ opening ++ renewing ++ guards ++ history).

(* service/src/crypto/modernConversation.ts:1031-1102 sendUnlocked *)
Definition sendUnlocked (text_ : bytes) (prepareHistoryUpdate : option (string → M W SecureRecordUpdate)) (supersede : option string) : M W string :=
  health ← get_ sessionHealth;
  fail_if (bool_decide (health = unhealthy)) "The encrypted session needs verified renewal before sending.";;
  room ← get_ roomId;
  room ← require_ (nonempty_opt room) not_ready;
  fail_if (blank text_) not_ready;;
  fail_if (MAX_USER_MESSAGE_UTF8_BYTES <? blen text_) "Messages can be up to 61,440 UTF-8 bytes.";;
  assertCurrentDeviceTrust;;
  contact ← getContact;
  fail_if (negb (contact_is "changeStatus" "unchanged" contact)) "Review this contact's changed identity before sending.";;
  t ← transport_now;
  fail_if (requires_v1 t && (negb (contact_is "verification" "verified" contact) || negb (bool_decide (is_Some (identity_of contact)))))
    "Verify this contact again before using multiplexed delivery.";;
  let peer := match t with Some t => peerSupportsRoomMessageV1 t | None => false end in
  fail_if (startsWith text_ JOIN_INTRODUCTION_MAGIC || negb peer && startsWith text_ DOMAIN)
    "This message begins with a reserved protocol marker and cannot be sent as plain text.";;
  file ← lift (if startsWith text_ RoomMessage.FILE_PREFIX
               then f ← rethrow (parseFileReference (string_of_list_ascii text_))
                          "This text uses the reserved protected-file marker but is not a valid file reference."; mret (Some f)
               else mret None);
  match file with
  | Some f =>
      binding ← fileTransferBinding true true;
      now ← now_;
      fail_if (negb (sameBinding binding (binding_of (fr_context f))) || (fr_expiresAt f <=? now)) "File identity binding rejected."
  | None => mret tt
  end;;
  setup ← prepareOutboundSession;
  clientId ← gets (λ w, randomUUID (tick w));
  encoded ← encodeOutboundMessage text_ clientId (match file with Some _ => attachment_reference | None => text end);
  health ← get_ sessionHealth;
  encryptAndCommitOutbound others fault sha256 wipe encoded.1
    (outbox_updates room clientId contact encoded.2 file setup health supersede prepareHistoryUpdate)
    ((λ s : string * string, {| init_conversationId := room; recipientIdentityKey := s.1; recipientOneTimeKey := s.2 |}) <$> setup);;
  mret clientId.
End sending.
