(* ===== verification/Idle.v ===== *)
(** * Steps that leave the session and the guarded records alone

    Before and after the step of the session, the operations of a conversation ([Sending], [Inbound]) read the storage, look
    the contact up, ask the relay's directory and note things in memory. None of that touches the session in memory, the room,
    or a record of a guarded type, as long as other tabs do not. *)
From S2P Require Import Prelude Json Storage RoomMessage VersionFloor ReplayEvidence Vault ContactRegistry Routing Ratchet RatchetSafety.
From S2P Require Import PublicBundle Attachments FileProtocol Outbox OutboxSafety Sending.

(** a step that returns normally *)
Definition yields {S A} (R : S → S → Prop) (m : M S A) : Prop := ∀ s a s', m s = (Ok a, s') → R s s'.
Section yields.
Context {S : Type} (R : S → S → Prop) `{!PreOrder R}.
Lemma yields_bind {A B} (m : M S A) (k : A → M S B) : yields R m → (∀ a, yields R (k a)) → yields R (m ≫= k).
Proof. intros Hm Hk s b s' (a & s1 & Ha & Hb)%bind_ok_run. etrans; [by eapply Hm|by eapply Hk]. Qed.
Lemma yields_always {A} (m : M S A) : always R m → yields R m.
Proof. intros Hm s a s' Hr. by eapply Hm. Qed.
Lemma yields_throw {A} e : yields R (throw e : M S A).
Proof. by intros s a s'. Qed.
Lemma yields_catch {A} (m : M S A) h : yields R m → (∀ e s a s', h e s ≠ (Ok a, s')) → yields R (catch_ m h).
Proof. intros Hm Hh s a s' [(b & Hb & [= ->])|(e & s1 & _ & He)]%catch_cases; [by eapply Hm|]. by apply Hh in He. Qed.
Lemma yields_if {A} (b : bool) (m n : M S A) : yields R m → yields R n → yields R (if b then m else n).
Proof. by destruct b. Qed.
End yields.

Lemma always_require {S} (R : S → S → Prop) `{!PreOrder R} {A B} (o : option A) msg (k : A → M S B) :
  (∀ a, o = Some a → always R (k a)) → always R (require_ o msg ≫= k).
Proof. destruct o as [a|]; intros Hk; [by apply (Hk a)|]. by intros s x s' [= _ <-]. Qed.
(** a property of what a step returns *)
Definition returns {S A} (Q : A → Prop) (m : M S A) : Prop := ∀ s a s', m s = (Ok a, s') → Q a.
Section returns.
Context {S : Type}.
Lemma returns_bind {A B} (Q : B → Prop) (m : M S A) k : (∀ a, returns Q (k a)) → returns Q (m ≫= k).
Proof. intros Hk s b s' (a & s1 & _ & Hb)%bind_ok_run. by eapply Hk. Qed.
Lemma returns_bind_with {A B} (P : A → Prop) (Q : B → Prop) (m : M S A) k :
  returns P m → (∀ a, P a → returns Q (k a)) → returns Q (m ≫= k).
Proof. intros Hm Hk s b s' (a & s1 & Ha & Hb)%bind_ok_run. eapply Hk; [by eapply Hm|done]. Qed.
Lemma returns_mret {A} (Q : A → Prop) (a : A) : Q a → returns Q (mret a : M S A).
Proof. by intros Hq s b s' [= <- _]. Qed.
Lemma returns_throw {A} (Q : A → Prop) e : returns Q (throw e : M S A).
Proof. by intros s b s'. Qed.
End returns.

Section idle.
Context {Session Account : Type} `{Olm Session Account} `{SecureStorageLaws St}.
Context (others : nat → St → St) (fault : nat → Io) (sha256 : string → string) (clock : nat → Z).
Notation T := (Tab (Session := Session) (Account := Account) (C := Conversation)).
Notation W := (World St T).
Context (trusted_epoch : M W Z).
Context (fetchVodozemacBundle : nat → string → string → string → Reply jsval)
  (fetchAuthenticatedRoutingIdentity : nat → string → string → string → string → Reply jsval).
Context (guarded : string → Prop) (registry_free : ¬ guarded ContactRegistry.RECORD_TYPE).
Context (locked : ∀ n d t i, guarded t → read (others n d) t i = read d t i).
Implicit Types w : W.

(** the guarded records are as before *)
Definition unmoved w w' : Prop := ∀ t i, guarded t → read (disk w') t i = read (disk w) t i.
#[export] Instance unmoved_preorder : PreOrder unmoved.
Proof. split; [by intros w t i|]. intros w1 w2 w3 E E' t i Ht. by rewrite E', E. Qed.
Lemma drift_unmoved w w' : drift others w w' → unmoved w w'.
Proof. intros Hd t i Ht. eapply drift_read; [|exact Hd]. intros n d. by apply locked. Qed.

(** what a receive keeps about the replay evidence while it runs *)
Definition captured (c : Conversation) : option string * ReplayState * ReplayState :=
  (rc_seen (receiving c), rc_m1 (receiving c), rc_events (receiving c)).
Definition same_room (c c' : Conversation) : Prop :=
  roomId c' = roomId c ∧ localIdentityId c' = localIdentityId c ∧ captured c' = captured c.
Definition idle w w' : Prop := unmoved w w' ∧ RatchetSafety.kept (mem w) (mem w') ∧ same_room (conv w) (conv w').
#[export] Instance idle_preorder : PreOrder idle.
Proof.
  split; [by intros w|]. intros w1 w2 w3 (U & K & R) (U' & K' & R'). split; [by etrans|].
  destruct K as (?&?&?&?&?&?&?), K' as (?&?&?&?&?&?&?), R as (?&?&?), R' as (?&?&?).
  unfold RatchetSafety.kept, same_room. split_and!; congruence.
Qed.
Lemma idle_mem w w' : mem w' = mem w → unmoved w w' → idle w w'.
Proof. intros Hm U. split; [done|]. unfold conv. by rewrite Hm. Qed.
Lemma idle_drift w w' : drift others w w' → mem w' = mem w → idle w w'.
Proof. intros Hd Hm. apply idle_mem; [done|]. by apply drift_unmoved. Qed.
Lemma idle_holds room h0 w w' : idle w w' → holds room h0 (mem w) → holds room h0 (mem w').
Proof. intros (_ & K & _). by apply kept_holds. Qed.
Lemma idle_stored room w w' : guarded SESSION_RECORD_TYPE → idle w w' → stored_session room w' = stored_session room w.
Proof. intros Hg (U & _). by apply U. Qed.
Lemma idle_ahead room h0 w w' : guarded SESSION_RECORD_TYPE → idle w w' →
  ahead room (Some (handle_save h0)) h0 w → ahead room (Some (handle_save h0)) h0 w'.
Proof. intros Hg I [Hh Hs]. split; [by eapply idle_holds|]. by rewrite (idle_stored room w w'). Qed.
Lemma quiet_idle {A} (m : M W A) : always idle m → quiet unmoved m.
Proof. intros Hm w x w' Hr. by destruct (Hm _ _ _ Hr) as (? & ? & _). Qed.

Lemma quiet_bind {A B} (m : M W A) (k : A → M W B) : quiet unmoved m → (∀ a, quiet unmoved (k a)) → quiet unmoved (m ≫= k).
Proof.
  apply always_bind. split; [by intros w|]. intros w1 w2 w3 [U K] [U' K']. split; [by etrans|].
  destruct K as (?&?&?&?&?&?&?), K' as (?&?&?&?&?&?&?). unfold RatchetSafety.kept. split_and!; congruence.
Qed.

Lemma idle_read t i : always idle (read_ others fault t i).
Proof. intros w x w' (Hd & Hm & _)%read_cases. by apply idle_drift. Qed.
Lemma idle_store_access {A} (f : St → res A * St) :
  (∀ d t i, guarded t → read (f d).2 t i = read d t i) → always idle (access others fault f : M W A).
Proof.
  intros Hf w x w' Hr. pose proof (access_mem _ _ _ _ _ _ Hr) as Hm. apply idle_mem; [done|]. intros t i Ht. unfold access in Hr.
  set (d := others (tick w) (disk w)) in *. assert (read d t i = read (disk w) t i) as Hd by by apply locked.
  specialize (Hf d t i Ht). destruct (f d) as [r d']. destruct (fault (tick w)); injection Hr as _ <-; cbn in *; congruence.
Qed.
Lemma idle_update (f : Conversation → Conversation) : (∀ c, same_room c (f c)) → always idle (update_ f : M W unit).
Proof. intros Hf w x w' [= _ <-]. split; [done|]. split; [done|]. apply Hf. Qed.
Lemma idle_get {A} (f : Conversation → A) : always idle (get_ f : M W A).
Proof. by apply always_gets, _. Qed.
Lemma idle_gets {A} (f : W → A) : always idle (gets f).
Proof. by apply always_gets, _. Qed.
Lemma idle_pure {A} (f : St → res A) : always idle (access others fault (λ d, (f d, d)) : M W A).
Proof. by apply idle_store_access. Qed.
Hint Extern 1 (PreOrder _) => apply _ : k3.
Hint Resolve idle_read idle_get idle_gets idle_pure : k3.
Hint Extern 1 (always idle (update_ _)) => (apply idle_update; done) : k3.
Ltac idly :=
  repeat match goal with
  | |- always _ (_ ≫= _) => apply always_bind; [apply _| |intros ?]
  | |- always _ (match ?x with _ => _ end) => destruct x
  | |- always _ (if ?x then _ else _) => destruct x
  | |- always _ _ => solve [unfold fail_if, require_, answer; eauto with k3]
  end.

(** ** The contact registry *)
Lemma guarded_other t : guarded t → t ≠ ContactRegistry.RECORD_TYPE.
Proof. by intros Ht ->. Qed.
Lemma idle_get_contact c persist : always idle (access others fault (get_contact c persist) : M W _).
Proof. apply idle_store_access. intros d t i Ht. by apply get_contact_other, guarded_other. Qed.
Lemma idle_registry r : always idle (registry_get others fault r : M W _).
Proof. apply idle_get_contact. Qed.
Lemma idle_floor room i : always idle (floor_of others fault sha256 room i : M W Z).
Proof. by apply idle_store_access. Qed.
Lemma idle_observe_access address_ presented now : always idle (access others fault (observe_contact address_ presented now) : M W _).
Proof.
  apply idle_store_access. intros d t i Ht. destruct (observe_contact _ _ _ d) as [x d'] eqn:E.
  by apply (untouched_observe t i (guarded_other _ Ht)) in E.
Qed.
Lemma idle_file_guards a i : always idle (access others fault (prepareVerifiedFileGuards a i) : M W _).
Proof.
  apply idle_store_access. intros d t r Ht. destruct (prepareVerifiedFileGuards a i d) as [x d'] eqn:E.
  by apply (untouched_file_guards t r (guarded_other _ Ht)) in E.
Qed.
Hint Resolve idle_get_contact idle_registry idle_floor idle_observe_access idle_file_guards : k3.
Lemma idle_contact : always idle (getContact others fault : M W _).
Proof. unfold getContact. idly. Qed.
Lemma idle_mode room : always idle (modes_read others fault room : M W _).
Proof. unfold modes_read. idly. Qed.
Lemma idle_mode_update room u : always idle (modes_prepareWrite others fault room u : M W _).
Proof. unfold modes_prepareWrite. idly. Qed.
Lemma idle_session_id : always idle (activeSessionId : M W _).
Proof. unfold activeSessionId, get_mem. auto with k3. Qed.
Lemma idle_now : always idle (now_ clock : M W Z).
Proof. unfold now_. auto with k3. Qed.
Hint Resolve idle_contact idle_mode idle_mode_update idle_session_id idle_now : k3.

(** ** The relay's directory and the trust in this device *)
Context (trust_reads : always idle trusted_epoch).
Hint Resolve trust_reads : k3.
Lemma idle_observe address_ identity commitment first review :
  always idle (Sending.observe others fault sha256 clock address_ identity commitment first review).
Proof. unfold Sending.observe. cbv zeta. idly. Qed.
Lemma idle_authority : always idle (routingRequestAuthority others fault trusted_epoch).
Proof. unfold routingRequestAuthority. idly. Qed.
Lemma idle_answer {A} (r : Reply A) : always idle (answer r : M W A).
Proof. destruct r; cbn; auto with k3. Qed.
Hint Resolve idle_observe idle_authority idle_answer : k3.
Lemma idle_pinned address_ :
  always idle (fetchPinnedPeerBundle others fault sha256 trusted_epoch fetchVodozemacBundle fetchAuthenticatedRoutingIdentity address_).
Proof. unfold fetchPinnedPeerBundle. idly. Qed.
Hint Resolve idle_pinned : k3.
(** a failed check closes the conversation *)
Lemma yields_trust : yields idle (assertCurrentDeviceTrust trusted_epoch).
Proof.
  apply yields_catch; [|by intros e w u w']. apply yields_always. idly.
Qed.
Lemma yields_binding verified fresh :
  yields idle (fileTransferBinding others fault sha256 clock trusted_epoch fetchVodozemacBundle fetchAuthenticatedRoutingIdentity verified fresh).
Proof.
  unfold fileTransferBinding. cbv zeta. apply yields_bind; [apply _|apply yields_trust|]. intros _. apply yields_always. idly.
Qed.
End idle.

#[export] Hint Resolve idle_read idle_get idle_gets idle_pure idle_get_contact idle_registry idle_floor idle_observe_access idle_file_guards
  idle_contact idle_mode idle_mode_update idle_session_id idle_now idle_observe idle_authority idle_answer idle_pinned : k3.
#[export] Hint Extern 1 (always (idle _) (update_ _)) => (apply idle_update; done) : k3.
#[export] Hint Extern 1 (PreOrder _) => apply _ : k3.
(** steps composed of idle steps *)
Ltac idly :=
  repeat match goal with
  | |- always _ (_ ≫= _) => apply always_bind; [apply _| |intros ?]
  | |- always _ (match ?x with _ => _ end) => destruct x
  | |- always _ (if ?x then _ else _) => destruct x
  | |- always _ _ => solve [unfold fail_if, require_, answer; eauto with k3]
  end.
