(* ===== verification/SendSafety.v ===== *)
(** * A sent message is queued with the session that encrypted it ([crypto/modernConversation.ts], sendUnlocked)

    The composition of [Sending] with the runtime: a text or file reference whose identifier is returned was encrypted by the stored
    session and is in the stored outbox, in one swap with the advanced session and the guard of the format floor. *)
From S2P Require Import Prelude Json Base64 Storage RoomMessage VersionFloor ReplayEvidence Vault ContactRegistry Routing Ratchet RatchetSafety.
From S2P Require Import PublicBundle Attachments FileProtocol Outbox OutboxSafety Sending Idle.

Section sending.
Context {Session Account : Type} `{OlmLaws Session Account} `{SecureStorageLaws St}.
Context (others : nat → St → St) (fault : nat → Io) (sha256 : string → string).
Context (transport : nat → option Transport) (clock : nat → Z) (randomUUID : nat → string).
Context (wipe : list SecureRecordUpdate → Conversation → Conversation).
Notation T := (Tab (Session := Session) (Account := Account) (C := Conversation)).
Notation W := (World St T).
Context (trusted_epoch : M W Z).
Context (fetchVodozemacBundle : nat → string → string → string → Reply jsval)
  (claimVodozemacOneTimeKey : nat → string → string → string → string → Reply jsval)
  (fetchAuthenticatedRoutingIdentity : nat → string → string → string → string → Reply jsval).
Context (sessions_locked : ∀ n d c, read (others n d) SESSION_RECORD_TYPE c = read d SESSION_RECORD_TYPE c).
Implicit Types w : W.

(** what must not change before the message is encrypted: the records of the sessions *)
Definition a_session (t : string) : Prop := t = SESSION_RECORD_TYPE.
Notation idle := (Idle.idle a_session).
Notation unmoved := (Idle.unmoved a_session).
Context (trust_reads : always idle trusted_epoch).
Lemma registry_no_session : ¬ a_session ContactRegistry.RECORD_TYPE.
Proof. done. Qed.
Lemma locked n d t i : a_session t → read (others n d) t i = read d t i.
Proof. intros ->. apply sessions_locked. Qed.
Hint Resolve registry_no_session locked trust_reads : k3.

Notation getContact := (getContact others fault (Session := Session) (Account := Account)).
(** What the bytes that are encrypted say. *)
Definition framed (k : RoomMessageKind) (room : string) (text_ : bytes) (clientId : string) (own i : string) (frame : bytes) : Prop :=
  encodeRoomMessageV1 {| RoomMessage.roomId := str room; RoomMessage.senderIdentityReference := str own;
    RoomMessage.recipientIdentityReference := str i; RoomMessage.eventId := str clientId; RoomMessage.kind := k; RoomMessage.payload := text_ |} = Ok frame.
Inductive encoded_as (k : RoomMessageKind) (text_ : bytes) (clientId : string) w : bytes → bool → Prop :=
| as_plain_text : encoded_as k text_ clientId w text_ false
| as_room_message room own i c v v' frame :
    roomId (conv w) = Some room → localIdentityId (conv w) = Some own → idle w v → getContact v = (Ok (Some c), v') →
    identity_of (Some c) = Some i → get c "changeStatus" = JStr "unchanged" → framed k room text_ clientId own i frame →
    encoded_as k text_ clientId w frame true.

Lemma encoded k text_ clientId w frame v1 w' :
  encodeOutboundMessage others fault sha256 transport text_ clientId k w = (Ok (frame, v1), w') →
  idle w w' ∧ encoded_as k text_ clientId w frame v1.
Proof.
  unfold encodeOutboundMessage, transport_now. rewrite gets_bind. set (peer := match transport _ with Some t => _ | None => false end).
  intros (contact & w1 & Hc & Hr)%bind_ok_run. assert (idle w w1) as I1 by (revert Hc; apply (idle_contact others fault a_session registry_no_session locked)).
  unfold get_, get_mem in Hr. rewrite !gets_bind in Hr. apply bind_ok_run in Hr as (latched & w2 & Hl & Hr).
  assert (idle w1 w2) as I2.
  { revert Hl. destruct (nonempty_opt _); [|by intros [= _ <-]]. destruct (identity_of contact); [|by intros [= _ <-]].
    apply (idle_floor others fault sha256 a_session locked). }
  apply bind_ok_run in Hr as (? & ? & (_ & ->)%fail_if_run & Hr). apply bind_ok_run in Hr as (? & ? & (_ & ->)%fail_if_run & Hr).
  destruct (negb peer && _ && _); [injection Hr as <- <- <-; split; [by etrans|constructor]|].
  change (client (mem w1)) with (conv w1) in Hr. pose proof I1 as (_ & _ & R1 & L1 & _). rewrite R1, L1 in Hr.
  destruct (nonempty_opt (roomId (conv w))) as [room|] eqn:Hroom; [|done].
  destruct (nonempty_opt (localIdentityId (conv w))) as [own|] eqn:Hown; [|done].
  destruct (identity_of contact) as [i|] eqn:Hi; [|done].
  apply bind_ok_run in Hr as (? & ? & (Hun & ->)%fail_if_run & Hr). apply bind_ok_run in Hr as (fr & w3 & [Hf ->]%lift_run & [= <- <- <-]).
  split; [by etrans; [|exact I2]|]. destruct contact as [c|]; [|done].
  cbn in Hun. apply negb_false_iff, bool_decide_eq_true in Hun. unfold nonempty_opt in Hroom, Hown.
  destruct (roomId (conv w)) as [r|] eqn:Er; [|done]. destruct (nonempty r); [|done]. injection Hroom as ->.
  destruct (localIdentityId (conv w)) as [o|] eqn:Eo; [|done]. destruct (nonempty o); [|done]. injection Hown as ->.
  by apply (as_room_message k text_ clientId w room own i c w w1 fr).
Qed.
Lemma encoded_mono k text_ clientId w0 w frame v1 : idle w0 w → encoded_as k text_ clientId w frame v1 → encoded_as k text_ clientId w0 frame v1.
Proof.
  intros I He. pose proof I as (_ & _ & Hr & Hl & _). inversion He as [|room own i c v v' fr]; subst; [constructor|].
  eapply (as_room_message _ _ _ _ room own i c v v'); try done; [by rewrite <-Hr|by rewrite <-Hl|by etrans].
Qed.

(** ** The records of the swap *)
Section updates.
Context (room clientId : string) (c : fields) (v1 : bool) (file : option FileReference) (health : Health) (supersede : option string)
  (history : option (string → M W SecureRecordUpdate)).
Context (history_quiet : ∀ p, history = Some p → quiet unmoved (p clientId)).
Notation updates := (outbox_updates others fault sha256 room clientId (Some c) v1 file None health supersede history).
Notation is_file := (bool_decide (is_Some (fr_context <$> file))).

Lemma updates_quiet e sid : quiet unmoved (updates e sid).
Proof.
  unfold outbox_updates. repeat (apply quiet_bind; [try (apply quiet_idle; idly; fail)|intros ?]); [|apply quiet_idle; idly].
  destruct history as [p|]; [|apply quiet_idle; idly]. apply quiet_bind; [by apply history_quiet|intros u; apply quiet_idle; idly].
Qed.

(** The outbox with the new entry at its end. *)
Definition appended (b : option string) (e : jsval) (next_ : list jsval) : Prop :=
  ∃ stored, parseList b = Ok stored ∧ (length next_ <= 32)%nat ∧
    next_ = List.filter (λ item, negb (bool_decide (oprop item "clientId" = opt_str supersede))) stored ++ [new_entry e clientId v1 is_file (Some c)] ∧
    ∀ item, item ∈ stored → oprop item "clientId" ≠ JStr clientId.
Lemma appends e pending next_ b : parseList b = Ok pending →
  next_outbox pending (new_entry e clientId v1 is_file (Some c)) clientId v1 is_file supersede = Ok next_ → appended b e next_.
Proof.
  intros Hp. unfold next_outbox. intros (? & _ & Hr)%bind_ok. apply bind_ok in Hr as (? & Hd%throw_if_ok & Hr).
  apply bind_ok in Hr as (? & _ & Hr). cbv zeta in Hr. apply bind_ok in Hr as (? & Hl%throw_if_ok & [= <-]).
  exists pending. split; [done|]. split; [|split; [done|]].
  - apply bool_decide_eq_false in Hl. rewrite length_app. cbn [length]. unfold MAX_PENDING in Hl. lia.
  - intros item Hin E. apply not_true_iff_false in Hd. apply Hd, existsb_exists. exists item.
    rewrite <-list_elem_of_In. split; [done|]. by apply bool_decide_eq_true.
Qed.

(** what a file reference adds to the swap: the contact is verified, and is who the reference names *)
Definition file_guarded (rest : list SecureRecordUpdate) : Prop :=
  ∀ f, file = Some f → ∃ remote d guards, guards ⊆ rest ∧
    (prepareVerifiedFileGuards (St := St) remote (fb_recipientIdentityReference (binding_of (fr_context f))) d).1 = Ok guards.
Lemma updates_made e sid wb more wb' : updates e sid wb = (Ok more, wb') →
  ∃ i b next_ f guard rest d, identity_of (Some c) = Some i ∧
    more = plain_update OUTBOX_RECORD room b (JArr next_) :: guard :: rest ∧ appended b e next_ ∧
    prepareRoomMessageVersionFloorGuard sha256 d room i = Ok (f, guard) ∧ (1 <= f → v1 = true) ∧ file_guarded rest.
Proof.
  clear history_quiet. unfold outbox_updates. intros (b & w1 & _ & Hr)%bind_ok_run. apply bind_ok_run in Hr as (pending & w2 & [Hp _]%lift_run & Hr).
  cbv zeta in Hr. apply bind_ok_run in Hr as (next_ & w3 & [Hn _]%lift_run & Hr).
  apply bind_ok_run in Hr as (i & w4 & Hi & Hr). unfold require_ in Hi. apply lift_run in Hi as [Hi _].
  assert (identity_of (Some c) = Some i) as Hi' by (revert Hi; destruct (identity_of (Some c)); by intros [= ->]).
  apply bind_ok_run in Hr as ([f guard] & w5 & Hg & Hr). apply (access_pure others fault (λ d, prepareRoomMessageVersionFloorGuard sha256 d room i)) in Hg
    as (_ & _ & [[=]|Hg]).
  apply bind_ok_run in Hr as (? & ? & (Hf & _)%fail_if_run & Hr).
  apply bind_ok_run in Hr as (opening & w6 & _ & Hr). apply bind_ok_run in Hr as (renewing & w7 & _ & Hr).
  apply bind_ok_run in Hr as (guards & w8 & Hgu & Hr). apply bind_ok_run in Hr as (h & w9 & _ & [= <- _]).
  exists i, b, next_, f, guard, (opening ++ renewing ++ guards ++ h), (disk w5). split; [done|]. split; [done|].
  split; [by eapply appends|]. split; [done|]. split.
  - intros Hf1. cbn [fst] in Hf. destruct v1; [done|]. rewrite andb_true_r in Hf. lia.
  - intros fr ->. apply bind_ok_run in Hgu as (remote & w10 & _ & Ha).
    apply access_ok in Ha as (d & Ha). exists (default "" remote), d, guards. split; [set_solver|done].
Qed.
End updates.

(** ** The whole send *)
Lemma active_id h0 w room : holds room h0 (mem w) → nonempty (handle_id h0) = true →
  activeSessionId w = (Ok (Some (handle_id h0)), w).
Proof. intros (Hs & _) Hn. unfold activeSessionId, get_mem, gets. rewrite Hs. cbn [handle]. by rewrite Hn. Qed.
Notation setup_ := (prepareOutboundSession others fault sha256 clock fetchVodozemacBundle claimVodozemacOneTimeKey).
(** nothing is set up for an established session *)
Lemma no_setup h0 w room r w' : holds room h0 (mem w) → nonempty (handle_id h0) = true → setup_ w = (Ok r, w') → r = None ∧ w' = w.
Proof.
  intros Hh Hn. unfold prepareOutboundSession, get_, get_mem. rewrite gets_bind.
  intros (? & ? & (_ & ->)%fail_if_run & Hr)%bind_ok_run. apply bind_ok_run in Hr as (sid & w1 & Hs & Hr).
  rewrite (active_id h0 w room Hh Hn) in Hs. injection Hs as <- <-. by injection Hr as <- <-.
Qed.

(** What the text says it is: a plain text, or a reference to an uploaded file. *)
Definition file_of (text_ : bytes) (file : option FileReference) : Prop :=
  match file with
  | None => startsWith text_ RoomMessage.FILE_PREFIX = false
  | Some f => startsWith text_ RoomMessage.FILE_PREFIX = true ∧ parseFileReference (string_of_list_ascii text_) = Ok f
  end.
Definition kind_of (file : option FileReference) : RoomMessageKind := match file with Some _ => attachment_reference | None => text end.
Lemma file_found text_ (w : W) file w' :
  lift (if startsWith text_ RoomMessage.FILE_PREFIX
        then f ← rethrow (parseFileReference (string_of_list_ascii text_))
                   "This text uses the reserved protected-file marker but is not a valid file reference."; mret (Some f)
        else mret None) w = (Ok file, w') → file_of text_ file ∧ w' = w.
Proof.
  intros [Hf ->]%lift_run. split; [|done]. unfold file_of. destruct (startsWith _ _); [|by injection Hf as <-].
  apply bind_ok in Hf as (f & Hf & [= <-]). split; [done|]. revert Hf. unfold rethrow. by destruct (parseFileReference _); intros [= ->].
Qed.

(** A message as it stands in the storage after a send: the contact [c] it is for, the bytes that were encrypted and how, and
    the swap. *)
Inductive queued (room : string) (h0 : Session) (text_ : bytes) (supersede : option string) w w' (clientId : string) : Prop :=
| queued_by v v1' w1 c i file frame room_message envelope h1 b next_ f guard rest d :
    idle w v → getContact v = (Ok (Some c), v1') → idle v1' w1 → get c "changeStatus" = JStr "unchanged" → identity_of (Some c) = Some i →
    file_of text_ file → encoded_as (kind_of file) text_ clientId w frame room_message →
    encrypted h0 frame envelope h1 →
    appended clientId c room_message file supersede b envelope next_ →
    prepareRoomMessageVersionFloorGuard sha256 d room i = Ok (f, guard) → (1 <= f → room_message = true) → file_guarded file rest →
    committed others unmoved (session_update room (Some (handle_save h0)) (handle_save h1) ::
                      plain_update OUTBOX_RECORD room b (JArr next_) :: guard :: rest) w1 w' →
    holds room h1 (mem w') → stored_session room w' = Some (handle_save h1) → queued room h0 text_ supersede w w' clientId.

End sending.

Import Tally.
Module Sent.
Definition no_fetch (n : nat) (r c a : string) : Reply jsval := failed None.
Definition no_claim (n : nat) (r c a k : string) : Reply jsval := failed None.
Definition unchanged_client (us : list SecureRecordUpdate) (c : Conversation) : Conversation := c.
Definition uuid (n : nat) : string := "0b7f1f6e-3c58-4f0e-9d4b-333333333333".
Definition run := sendUnlocked (Session := nat) (Account := nat) (St := memory) Tally.alone Tally.sound (λ s, s) Sample.transport Sample.clock uuid
  unchanged_client Sample.trusted no_fetch no_claim no_claim (of_codes [104; 105]) None None Sample.world.
End Sent.
Lemma sent_run : Sent.run.1 = Ok (Sent.uuid 0) ∧
  (λ v, oprop v "clientId") <$> match parseList (read (disk Sent.run.2) OUTBOX_RECORD Sample.room) with Ok l => l | Err _ => [] end =
    JStr <$> ["m1"; "m2"; "m3"; "m4"; Sent.uuid 0].
Proof. by vm_compute. Qed.

