(* ===== verification/Introduction.v ===== *)
(** * First contact ([crypto/modernConversation.ts]: invitations, join introductions)

    An invitation is signed by the identity it commits to; who joins with one sends, as the first encrypted message, an
    introduction signed by its own identity, and keeps a record of it until the relay reports its delivery. An invitation and
    an introduction are the JSON objects they are, since a signature covers their text with its order of keys. *)
From S2P Require Import Prelude Json Base64 Storage RoomMessage VersionFloor ReplayEvidence Vault ContactRegistry Routing Ratchet PublicBundle.
From S2P Require Import Attachments FileProtocol Outbox Sending.

(** [{ signature, ...unsigned } = event] *)
Definition unsigned (event : fields) : fields := List.filter (λ kv, negb (String.eqb kv.1 "signature")) event.
(** [encoder.encode(JSON.stringify(event))] *)
(* service/src/crypto/modernConversation.ts:352-352 canonicalJoinIntroduction *)
Definition canonicalJoinIntroduction (event : fields) : bytes := utf8 (stringify (JObj event)).
(* service/src/crypto/modernConversation.ts:354-361 encodeJoinIntroduction *)
Definition encodeJoinIntroduction (event : fields) : bytes := JOIN_INTRODUCTION_MAGIC ++ utf8 (stringify (JObj event)).

Definition invalid_introduction : string := "Join introduction is invalid.".
(** [/^[A-Za-z0-9_-]{86}$/] *)
Definition signature_text (v : jsval) : bool := match v with JStr s => (strlen s =? 86) && forall_chars is_base64url s | _ => false end.
(* service/src/crypto/modernConversation.ts:363-385 parseJoinIntroduction *)
Definition parseJoinIntroduction (payload_ : bytes) : res (option fields) :=
  if negb (startsWith payload_ JOIN_INTRODUCTION_MAGIC) then mret None else
  let body := drop (length JOIN_INTRODUCTION_MAGIC) payload_ in
  throw_if (2048 <? blen body) invalid_introduction;;
  value ← rethrow (b ← (t ← utf8_decode body; utf8_string t); require (parse b) "Unexpected token in JSON") invalid_introduction;
  item ← require (as_object value) invalid_introduction;
  throw_if (negb (VersionFloor.exact_keys item ["conversationId"; "createdAt"; "eventId"; "identityCommitment"; "senderAddress"; "signature"; "type"; "version"]))
    invalid_introduction;;
  throw_if (negb (bool_decide (get item "version" = JNum (NInt 1))) || negb (bool_decide (get item "type" = JStr "join-introduction")) ||
    match get item "eventId" with JStr s => negb (uuid_strict s) | _ => true end ||
    negb (uuid_text_loose (get item "conversationId")) || negb (uuid_text_loose (get item "senderAddress")) ||
    match get item "identityCommitment" with JStr c => (strlen c <? 8) || (128 <? strlen c) | _ => true end ||
    negb (bool_decide (is_Some (js_safe_int (get item "createdAt")))) || negb (signature_text (get item "signature"))) invalid_introduction;;
  mret (Some item).

(* service/src/crypto/modernConversation.ts:111-111 INVITATION_DOMAIN *)
Definition INVITATION_DOMAIN : string := "K3NCRYPT_FIRST_CONTACT_INVITATION_V2" +:+ str1 0.
(* service/src/crypto/modernConversation.ts:112-112 canonicalInvitation *)
Definition canonicalInvitation (event : fields) : bytes := utf8 (INVITATION_DOMAIN +:+ stringify (JObj event)).
(* service/src/crypto/modernConversation.ts:113-113 canonicalSignatureEncoding *)
Definition canonicalSignatureEncoding (signature : string) : string := canonicalPublicKey signature.

(** comparisons of the numbers of an invitation; with anything else they are false *)
Definition int_of (v : jsval) : option Z := match v with JNum (NInt z) => Some z | _ => None end.
Definition holds_of (P : Z → Z → bool) (a b : jsval) : bool := match int_of a, int_of b with Some x, Some y => P x y | _, _ => false end.
Definition int (z : Z) : jsval := JNum (NInt z).
(** what [verifyModernInvitation] refuses before it looks at the signature *)
Definition invitation_mismatch (invitation : fields) (room cap address_ : string) (commitment : option string) (established : bool) (now : Z) : bool :=
  let created := get invitation "createdAt" in
  let expires := get invitation "expiresAt" in
  negb (bool_decide (get invitation "version" = JNum (NInt 2))) ||
  negb (bool_decide (get invitation "type" = JStr "k3ncrypt-first-contact-invitation")) ||
  negb (bool_decide (get invitation "roomId" = JStr room)) || negb (bool_decide (get invitation "controlCapability" = JStr cap)) ||
  negb (bool_decide (get invitation "inviterAddress" = JStr address_)) ||
  negb (bool_decide (get invitation "identityCommitment" = opt_str commitment)) ||
  negb (bool_decide (get invitation "capabilities" = capabilities)) ||
  holds_of (λ c n, n <? c) created (int (now + 30000)) || (negb established && holds_of (λ e n, e <=? n) expires (int now)) ||
  holds_of (λ e c, e <=? c) expires created || holds_of (λ e c, 24 * 60 * 60 * 1000 <? e - c) expires created.

Section introduction.
Context {Session Account : Type} `{Olm Session Account} `{SecureStorageLaws St}.
Context (others : nat → St → St) (fault : nat → Io) (sha256 : string → string).
(** Web Crypto's Ed25519, [false] also where it throws *)
Context (ed25519_verify : string → string → bytes → bool).
Context (transport : nat → option Transport) (relay : nat → jsval → option string → option DeliverySubmissionResult)
  (clock : nat → Z) (randomUUID : nat → string).
Context (wipe : list SecureRecordUpdate → Conversation → Conversation).
Notation T := (Tab (Session := Session) (Account := Account) (C := Conversation)).
Notation W := (World St T).
Context (trusted_epoch : M W Z).
Context (fetchVodozemacBundle : nat → string → string → string → Reply jsval)
  (claimVodozemacOneTimeKey : nat → string → string → string → string → Reply jsval).

Notation read_ := (read_ others fault).
Notation write_ := (write_ others fault).
Notation get_ := (Outbox.get_ (Session := Session) (Account := Account) (St := St)).
Notation getContact := (getContact others fault).
Notation assertCurrentDeviceTrust := (assertCurrentDeviceTrust trusted_epoch).
Notation now_ := (now_ clock (Session := Session) (Account := Account) (St := St)).

Definition signed_by (publicKey signature : string) (message_ : bytes) : bool :=
  match fromBase64Url publicKey, fromBase64Url signature with
  | Ok k, Ok s => ed25519_verify k s message_
  | _, _ => false
  end.
(* service/src/crypto/modernConversation.ts:2032-2043 verifyJoinIntroductionSignature *)
Definition verifyJoinIntroductionSignature (event : fields) (publicKey : string) : bool :=
  signed_by publicKey (field_str event "signature") (canonicalJoinIntroduction (unsigned event)).
(* service/src/crypto/modernConversation.ts:794-801 verifyModernInvitationSignature *)
Definition verifyModernInvitationSignature (invitation : fields) (publicKey : string) : bool :=
  signed_by publicKey (field_str invitation "signature") (canonicalInvitation (unsigned invitation)).

Definition bad_invitation : string := "The signed invitation is expired, mismatched, or does not support safe first-contact bootstrap.".
(* service/src/crypto/modernConversation.ts:781-786 failClosed in verifyModernInvitation *)
Definition failClosed (room : string) : M W unit :=
  b ← read_ JOIN_INTRODUCTION_RECORD room;
  record ← lift (parseJoinIntroductionRecord b);
  match record with
  | Some r =>
      if negb (truthy (get r "envelope")) && negb (bool_decide (get r "state" = JStr "FAILED_OR_UNSUPPORTED"))
      then write_ JOIN_INTRODUCTION_RECORD room (asBytes (with_key (JObj r) "state" (JStr "FAILED_OR_UNSUPPORTED"))) else mret tt
  | None => mret tt
  end;;
  throw bad_invitation.
(* service/src/crypto/modernConversation.ts:779-792 verifyModernInvitation *)
Definition verifyModernInvitation (invitation identity : fields) (room cap address_ : string) (commitment : option string) (established : bool)
    : M W unit :=
  now ← now_;
  if invitation_mismatch invitation room cap address_ commitment established now then failClosed room else
  if negb (bool_decide (get invitation "identityCommitment" = JStr (fingerprint sha256 identity))) ||
     negb (verifyModernInvitationSignature invitation (field_str identity "ed25519"))
  then failClosed room else mret tt.
(* service/src/crypto/modernConversation.ts:747-752 createSignedInvitation *)
Definition createSignedInvitation (room cap identityCommitment inviterAddress : string) : M W fields :=
  now ← now_;
  invitationId ← gets (λ w, randomUUID (tick w));
  let event := [("version", int 2); ("type", JStr "k3ncrypt-first-contact-invitation"); ("invitationId", JStr invitationId);
    ("roomId", JStr room); ("controlCapability", JStr cap); ("inviterAddress", JStr inviterAddress); ("identityCommitment", JStr identityCommitment);
    ("capabilities", capabilities); ("createdAt", int now); ("expiresAt", int (now + 24 * 60 * 60 * 1000))] in
  signature ← signControlEvent others fault sha256 (canonicalInvitation event);
  mret (event ++ [("signature", JStr (canonicalSignatureEncoding signature))]).

(** ** Sending the introduction *)
(** [{ ...record, clientId, envelope, senderOrigin, state: 'PENDING_LOCAL', roomMessageVersion: 1 }] *)
Definition introduced (record : fields) (clientId : string) (envelope : jsval) : fields :=
  spread record [("clientId", JStr clientId); ("envelope", envelope); ("senderOrigin", SENDER_ORIGIN); ("state", JStr "PENDING_LOCAL");
                 ("roomMessageVersion", int 1)].
(** the record is the one of the peer the conversation is bound to *)
Definition addressed_to (record : fields) (remote commitment : option string) : bool :=
  bool_decide (get record "recipientAddress" = opt_str remote) && bool_decide (get record "recipientIdentityCommitment" = opt_str commitment).
(* service/src/crypto/modernConversation.ts:1208-1228 updates in sendJoinIntroductionUnlocked *)
Definition introduction_updates (room clientId : string) (setup : option (string * string)) (envelope : jsval) (sid : string)
    : M W (list SecureRecordUpdate) :=
  recordBytes ← read_ JOIN_INTRODUCTION_RECORD room;
  current ← lift (parseJoinIntroductionRecord recordBytes);
  remote ← get_ remoteAddress; commitment ← get_ remoteIdentityCommitment;
  let changed := "Saved join introduction changed before it could be committed." in
  current ← require_ current changed;
  fail_if (negb (addressed_to current remote commitment) || truthy (get current "envelope")) changed;;
  opening ← match setup with
            | None => mret []
            | Some _ =>
                mode ← modes_prepareWrite others fault room [("sessionId", JStr sid); ("remoteAddress", opt_str remote)];
                auditBytes ← read_ SESSION_AUDIT_RECORD room;
                mret [mode; plain_update SESSION_AUDIT_RECORD room auditBytes (session_audit "active-established" "outbound" "join")]
            end;
  mret (plain_update JOIN_INTRODUCTION_RECORD room recordBytes (JObj (introduced current clientId envelope)) :: opening).
(** the introduction, signed, framed, encrypted and committed with its record; the record as it is in memory afterwards *)
(* service/src/crypto/modernConversation.ts:1179-1237 encrypt in sendJoinIntroductionUnlocked *)
Definition encrypt_introduction (room : string) (record : fields) : M W fields :=
  assertCurrentDeviceTrust;;
  setup ← prepareOutboundSession others fault sha256 clock fetchVodozemacBundle claimVodozemacOneTimeKey;
  eventId ← gets (λ w, randomUUID (tick w));
  local ← get_ localAddress; own_ ← get_ localIdentityId; now ← now_;
  let event := [("version", int 1); ("type", JStr "join-introduction"); ("eventId", JStr eventId); ("conversationId", JStr room);
    ("senderAddress", opt_str local); ("identityCommitment", opt_str own_); ("createdAt", int now)] in
  signature ← signControlEvent others fault sha256 (canonicalJoinIntroduction event);
  contact ← getContact;
  let unstable := "Stable identities are required for room-bound message delivery." in
  match nonempty_opt own_, identity_of contact with
  | Some own_, Some i =>
      fail_if (negb (contact_is "changeStatus" "unchanged" contact)) unstable;;
      frame ← lift (encodeRoomMessageV1 {| RoomMessage.roomId := str room; RoomMessage.senderIdentityReference := str own_;
        RoomMessage.recipientIdentityReference := str i; RoomMessage.eventId := str eventId; RoomMessage.kind := join_introduction;
        RoomMessage.payload := encodeJoinIntroduction (event ++ [("signature", JStr (canonicalSignatureEncoding signature))]) |});
      envelope ← encryptAndCommitOutbound others fault sha256 wipe frame (introduction_updates room eventId setup)
        ((λ s : string * string, {| init_conversationId := room; recipientIdentityKey := s.1; recipientOneTimeKey := s.2 |}) <$> setup);
      mret (introduced record eventId envelope)
  | _, _ => throw unstable
  end.
(* service/src/crypto/modernConversation.ts:1160-1248 sendJoinIntroductionUnlocked *)
Definition sendJoinIntroductionUnlocked : M W unit :=
  pending ← get_ joinIntroductionPending; room ← get_ roomId; remote ← get_ remoteAddress; cap ← get_ Outbox.capability;
  t ← transport_now transport;
  match pending, nonempty_opt room, nonempty_opt remote, nonempty_opt cap, t with
  | true, Some room, Some remote, Some _, Some t =>
      b ← read_ JOIN_INTRODUCTION_RECORD room;
      record ← lift (parseJoinIntroductionRecord b);
      commitment ← get_ remoteIdentityCommitment;
      match record with
      | None => mret tt
      | Some record =>
          if negb (addressed_to record (Some remote) commitment) then mret tt else
          if negb (truthy (get record "authenticatedCapabilities")) then
            if bool_decide (get record "state" = JStr "FAILED_OR_UNSUPPORTED") then mret tt
            else write_ JOIN_INTRODUCTION_RECORD room (asBytes (with_key (JObj record) "state" (JStr "FAILED_OR_UNSUPPORTED")))
          else
          contact ← getContact;
          f ← contact_floor others fault sha256 room contact;
          fail_if (1 <? f) "This contact requires a newer secure message format.";;
          let old_format := truthy (get record "envelope") && negb (bool_decide (get record "roomMessageVersion" = JNum (NInt 1))) in
          if (1 <=? f) && old_format then mret tt else
          fail_if (requiresRoomMessageV1 t && old_format)
            "A legacy join introduction cannot be sent over a room-message-v1-required transport.";;
          record ← (if truthy (get record "envelope") then mret record else encrypt_introduction room record);
          assertCurrentDeviceTrust;;
          fail_if (negb (truthy (get record "envelope"))) "Saved join introduction ciphertext is unavailable.";;
          remote ← get_ remoteAddress;
          result ← submit relay (JObj record) remote;
          latestBytes ← read_ JOIN_INTRODUCTION_RECORD room;
          latest ← lift (parseJoinIntroductionRecord latestBytes);
          match latest with
          | Some l =>
              if bool_decide (get l "clientId" = get record "clientId") && negb (bool_decide (get l "state" = JStr "ESTABLISHED"))
              then write_ JOIN_INTRODUCTION_RECORD room (asBytes (JObj (spread l [("relayId", opt_str (sent_id result)); ("state", JStr "PENDING_REMOTE")])))
              else mret tt
          | None => mret tt
          end;;
          match nonempty_opt (sent_id result) with
          | Some i =>
              early ← get_ earlyJoinIntroductionDeliveries;
              if bool_decide (i ∈ early) then
                update_ (λ c, set_introduction (joinIntroductionPending c) (List.filter (λ e, negb (String.eqb e i)) early) c);;
                acceptDelivery others fault i
              else mret tt
          | None => mret tt
          end
      end
  | _, _, _, _, _ => mret tt
  end.
(** an error leaves the introduction to the next attempt *)
(* service/src/crypto/modernConversation.ts:1150-1158 retryJoinIntroduction *)
Definition retryJoinIntroduction : M W unit :=
  room ← get_ roomId; pending ← get_ joinIntroductionPending;
  if bool_decide (is_Some (nonempty_opt room)) && pending then swallow sendJoinIntroductionUnlocked else mret tt.
End introduction.
