(* ===== verification/Inbound.v ===== *)
(** * Receiving a message ([crypto/modernConversation.ts], receiveUnlocked; [delivery/envelopeIdentity.ts])

    A ciphertext is accepted once: if it is not in the replay evidence, the runtime decrypts it and asks for the records that
    accept it - replay evidence, version floor, route, contact, introduction, held outbox entries and what the application
    stores for the message - and commits them with the session in one swap. What could become acceptable later is an error the
    transport retries; what never can is a permanent rejection, an error with its class.

    The callback of the runtime shares variables with the operation around it ([Receiving]); a failed first-session attempt
    zero-fills the buffers of its updates, among them the replay evidence the next attempt uses ([wipe_receiving]). The
    evidence is loaded in one access here; [ReplayEvidence] treats its interleaving. Diagnostics are not modelled. *)
From S2P Require Import Prelude Json Base64 Storage RoomMessage VersionFloor ReplayEvidence Vault ContactRegistry Routing Ratchet PublicBundle.
From S2P Require Import Attachments FileProtocol Outbox Sending Introduction.

Definition SEEN_RECORD : string := "modern-seen".
Definition ROOM_MESSAGE_SEEN_RECORD : string := "modern-seen-room-message-v1".
Definition JOIN_INTRODUCTION_SEEN_RECORD : string := "conversation-join-introduction-seen".
(* service/src/crypto/modernConversation.ts:64-64 MAX_SEEN *)
Definition MAX_SEEN : nat := Z.to_nat 1024.
(* service/src/crypto/modernConversation.ts:155-157 PermanentInboundRejection *)
Definition permanent (reasonClass : string) : string := "PermanentInboundRejection " +:+ reasonClass.

(** ** Identifiers of a ciphertext *)
Definition hex_string (digest : string) : string := string_of_list_ascii (hex (list_ascii_of_string digest)).
(* service/src/delivery/envelopeIdentity.ts:3-3 DOMAIN *)
Definition ENVELOPE_DOMAIN : bytes := str "k3ncrypt/envelope-id/v1".
(* service/src/delivery/envelopeIdentity.ts:20-25 u32be *)
Definition u32be (n : Z) : res bytes := throw_if ((n <? 0) || (4294967295 <? n)) "Envelope identity input is too large.";; mret (putU32 n).
Section identifiers.
Context (sha256 : string → string).
Definition sha_bytes (b : bytes) : bytes := list_ascii_of_string (sha256 (string_of_list_ascii b)).
(* service/src/delivery/envelopeIdentity.ts:42-54 envelopeId *)
Definition envelopeId (conversation olmMessage : string) : res string :=
  let c := utf8 conversation in
  let m := utf8 olmMessage in
  cl ← u32be (blen c);
  ml ← u32be (blen m);
  mret ("v1:" +:+ hex_string (sha256 (string_of_list_ascii (ENVELOPE_DOMAIN ++ cl ++ c ++ ml ++ m)))).
(* service/src/delivery/envelopeIdentity.ts:56-57 envelopeIdForEnvelope *)
Definition envelopeIdForEnvelope (conversation : string) (envelope : jsval) : res string :=
  m ← validatedOlmMessage envelope; envelopeId conversation m.
(* service/src/crypto/modernConversation.ts:2314-2317 digest *)
Definition digest (envelope : jsval) : string := hex_string (sha256 (string_of_list_ascii (utf8 (stringify envelope)))).
End identifiers.

(* service/src/crypto/modernConversation.ts:344-350 unframeFirstMessage *)
Definition unframeFirstMessage (b : bytes) : res bytes :=
  throw_if (bool_decide (length b < 2)%nat || negb (bool_decide (take 2 b = of_codes [1; 1]))) "Modern message binding is invalid.";;
  mret (drop 2 b).

(** ** Opening a plaintext *)
#[export] Instance room_message_kind_eq_dec : EqDecision RoomMessageKind.
Proof. solve_decision. Defined.
Record Opened := { op_payload : bytes; op_event : option (string * string) }.
(** what is inside the [try] that classifies errors *)
(* service/src/crypto/modernConversation.ts:1783-1808 decode in buildAcceptanceUpdates *)
Definition decode_inbound (sha256 : string → string) (first mux : bool) (floor : Z) (room sender own_ : string) (plaintext : bytes) : res Opened :=
  decrypted ← (if first then unframeFirstMessage plaintext else mret plaintext);
  decoded ← decodeRoomMessage decrypted {| expected_roomId := str room; expected_sender := str sender; expected_recipient := str own_ |} (mux || (1 <=? floor));
  match decoded with
  | RoomMessage.legacy p => mret {| op_payload := p; op_event := None |}
  | room_message_v1 m =>
      let p := RoomMessage.payload m in
      throw_if (mux && bool_decide (RoomMessage.kind m = join_introduction)) (permanent "unsupported-message");;
      throw_if (negb (Bool.eqb (bool_decide (RoomMessage.kind m = join_introduction)) (startsWith p JOIN_INTRODUCTION_MAGIC)) ||
                negb (Bool.eqb (bool_decide (RoomMessage.kind m = attachment_reference)) (startsWith p (str "k3ncrypt-file-"))))
        "Room message payload kind does not match its application payload.";;
      i ← roomMessageEventId (sha_bytes sha256) (str room) (str sender) (RoomMessage.eventId m);
      mret {| op_payload := p;
              op_event := Some (string_of_list_ascii i, string_of_list_ascii (roomMessageCommitment (sha_bytes sha256) decrypted)) |}
  end.
(** the classes of [RoomMessageDecodeError]: a newer wrapper stays retryable *)
(* service/src/crypto/modernConversation.ts:1809-1821 classify in buildAcceptanceUpdates *)
Definition classify (e : string) : string :=
  if String.eqb e "Room message version is unsupported." || String.eqb e "Room message payload kind is unsupported." then e
  else if String.eqb e "A room-bound message is required." then permanent "unsupported-message" else permanent "authenticated-invalid".
(** [try { m } catch { throw e }] on a pure computation *)
Definition or_throw {A} (m : res A) (e : string → string) : res A := match m with Ok a => Ok a | Err x => Err (e x) end.

(** the outbox entries of the older format that a newer message holds back *)
Definition holdable (item : jsval) : bool := unsafe_legacy item.
Definition hold_outbox (outbox : list jsval) : list jsval :=
  (λ item, if holdable item then with_key item "heldNotSentSecurely" (JBool true) else item) <$> outbox.
Definition held_clients (outbox : list jsval) : list jsval :=
  omap (λ item, if holdable item && flag "clientId" item then Some (oprop item "clientId") else None) outbox.

(** ** What the runtime's cleaning does to the captured buffers *)
Fixpoint zeros_like (s : string) : string := match s with EmptyString => EmptyString | String _ s' => String (chr 0) (zeros_like s') end.
Definition touches (rt i : string) (us : list SecureRecordUpdate) : bool :=
  existsb (λ u, String.eqb (Storage.recordType u) rt && String.eqb (recordId u) i) us.
Definition wipe_state (rt room : string) (us : list SecureRecordUpdate) (s : ReplayState) : ReplayState :=
  {| items := items s; rootBytes := if touches rt room us then zeros_like <$> rootBytes s else rootBytes s; pageCount := pageCount s;
     lastSegmentBytes := if touches rt (replaySegmentId room (pageCount s - 1)) us then zeros_like <$> lastSegmentBytes s else lastSegmentBytes s;
     legacy := legacy s |}.
(* service/src/crypto/vodozemacRuntime.ts:505-509 wipe in establishInboundSessionAndCommit *)
Definition wipe_receiving (us : list SecureRecordUpdate) (c : Conversation) : Conversation :=
  let r := receiving c in
  match roomId c with
  | Some room =>
      set_receiving {| rc_fingerprint := rc_fingerprint r;
                       rc_seen := if touches SEEN_RECORD room us then zeros_like <$> rc_seen r else rc_seen r;
                       rc_m1 := wipe_state M1_SEEN_RECORD room us (rc_m1 r);
                       rc_events := wipe_state ROOM_MESSAGE_SEEN_RECORD room us (rc_events r); rc_route := rc_route r; rc_held := rc_held r |} c
  | None => c
  end.

Section inbound.
Context {Session Account : Type} `{Olm Session Account} `{SecureStorageLaws St}.
Context (others : nat → St → St) (fault : nat → Io) (sha256 : string → string).
Context (ed25519_verify : string → string → bytes → bool).
Context (transport : nat → option Transport).
Notation T := (Tab (Session := Session) (Account := Account) (C := Conversation)).
Notation W := (World St T).
Context (trusted_epoch : M W Z).
Context (fetchVodozemacBundle : nat → string → string → string → Reply jsval)
  (fetchAuthenticatedRoutingIdentity : nat → string → string → string → string → Reply jsval).
(** the application: the records a text and its identifier are stored with *)
Context (onMessage : option (bytes → string → M W (option (list SecureRecordUpdate)))).

Notation read_ := (read_ others fault).
Notation get_ := (Outbox.get_ (Session := Session) (Account := Account) (St := St)).
Notation getContact := (getContact others fault).
Notation registry_get := (registry_get others fault).
Notation assertCurrentDeviceTrust := (assertCurrentDeviceTrust trusted_epoch).
Notation fetchPinnedPeerBundle := (fetchPinnedPeerBundle others fault sha256 trusted_epoch fetchVodozemacBundle fetchAuthenticatedRoutingIdentity).
Definition get_receiving : M W Receiving := get_ receiving.
Definition set_fingerprint (f : string) : M W unit :=
  update_ (λ c, let r := receiving c in
    set_receiving {| rc_fingerprint := Some f; rc_seen := rc_seen r; rc_m1 := rc_m1 r; rc_events := rc_events r; rc_route := rc_route r; rc_held := rc_held r |} c).
Definition set_route (route : string * string) : M W unit :=
  update_ (λ c, let r := receiving c in
    set_receiving {| rc_fingerprint := rc_fingerprint r; rc_seen := rc_seen r; rc_m1 := rc_m1 r; rc_events := rc_events r; rc_route := Some route; rc_held := rc_held r |} c).
Definition add_held (l : list jsval) : M W unit :=
  update_ (λ c, let r := receiving c in
    set_receiving {| rc_fingerprint := rc_fingerprint r; rc_seen := rc_seen r; rc_m1 := rc_m1 r; rc_events := rc_events r; rc_route := rc_route r; rc_held := rc_held r ++ l |} c).

Definition mismatch : string := "The authenticated sender identity does not match the saved invitation.".
(** a saved commitment that is set and differs *)
Definition other_commitment (commitment : option string) (f : string) : bool :=
  match nonempty_opt commitment with Some c => negb (String.eqb c f) | None => false end.
(* service/src/crypto/modernConversation.ts:1991-2030 prepareAuthenticatedRouteUpdates *)
Definition prepareAuthenticatedRouteUpdates (sender : string) (identity : fields) (f : string) : M W (list SecureRecordUpdate) :=
  room ← get_ roomId; commitment ← get_ remoteIdentityCommitment;
  room ← require_ (nonempty_opt room) "Authenticated sender cannot be associated with this conversation.";
  fail_if (other_commitment commitment f) mismatch;;
  known ← registry_get sender;
  fail_if (match known with
           | Some k => negb (bool_decide (get k "identityId" = JStr f)) || negb (bool_decide (get k "changeStatus" = JStr "unchanged"))
           | None => false end) (permanent "identity-changed");;
  contactBytes ← read_ ContactRegistry.RECORD_TYPE sender;
  let contact := match known with
    | Some _ => []
    | None => [plain_update ContactRegistry.RECORD_TYPE sender contactBytes
        (JObj [("contactId", JStr sender); ("identityId", JStr f); ("algorithm", JStr "Olm-Curve25519+Ed25519");
               ("publicKey", JStr (toBase64Url (string_of_list_ascii (utf8 (stringify (JObj identity))))));
               ("verification", JStr "unverified"); ("changeStatus", JStr "unchanged")])]
    end in
  sid ← activeSessionId;
  mode ← modes_prepareWrite others fault room [("sessionId", opt_str sid); ("remoteAddress", JStr sender)];
  set_route (sender, f);;
  mret (contact ++ [mode]).

Definition bad_replay : string := "Saved join introduction replay state is invalid.".
(* service/src/crypto/modernConversation.ts:1937-1988 acceptJoinIntroduction *)
Definition acceptJoinIntroduction (event : fields) (sender : string) (identity : fields) : M W (list SecureRecordUpdate) :=
  room ← get_ roomId; remote ← get_ remoteAddress; commitment ← get_ remoteIdentityCommitment;
  let differs (saved : option string) (s : string) := match saved with Some x => negb (String.eqb x s) | None => false end in
  match nonempty_opt room with
  | None => throw (permanent "authenticated-invalid")
  | Some room =>
      fail_if (negb (bool_decide (get event "conversationId" = JStr room)) || negb (bool_decide (get event "senderAddress" = JStr sender)) ||
        differs remote sender) (permanent "authenticated-invalid");;
      let f := fingerprint sha256 identity in
      fail_if (negb (bool_decide (get event "identityCommitment" = JStr f)) || differs commitment f) (permanent "identity-changed");;
      fail_if (negb (verifyJoinIntroductionSignature ed25519_verify event (field_str identity "ed25519"))) (permanent "authenticated-invalid");;
      acceptedBytes ← read_ JOIN_INTRODUCTION_SEEN_RECORD room;
      seen ← match acceptedBytes with
             | Some b =>
                 accepted ← lift (v ← require (parse b) bad_replay; require (as_object v) bad_replay);
                 fail_if (negb (VersionFloor.exact_keys accepted ["eventId"; "version"]) || negb (bool_decide (get accepted "version" = JNum (NInt 1))) ||
                   negb (is_str (get accepted "eventId"))) bad_replay;;
                 fail_if (negb (bool_decide (get accepted "eventId" = get event "eventId"))) (permanent "authenticated-invalid");;
                 mret []
             | None => mret [plain_update JOIN_INTRODUCTION_SEEN_RECORD room None (JObj [("version", JNum (NInt 1)); ("eventId", get event "eventId")])]
             end;
      route ← prepareAuthenticatedRouteUpdates sender identity f;
      auditBytes ← read_ SESSION_AUDIT_RECORD room;
      mret (seen ++ route ++ [plain_update SESSION_AUDIT_RECORD room auditBytes (session_audit "active-established" "inbound" "join")])
  end.

Section acceptance.
Context (first : bool) (bundle : option PublicBundle) (room sender m1 legacyDigest : string) (seen : list jsval).
(** [bundle?.identity ?? (await this.fetchPinnedPeerBundle(senderAddress)).identity] *)
Definition sender_identity : M W fields :=
  match bundle with Some b => mret (pb_identity b) | None => b ← fetchPinnedPeerBundle sender; mret (pb_identity b) end.
(* service/src/crypto/modernConversation.ts:1774-1780 sender fingerprint in buildAcceptanceUpdates *)
Definition sender_fingerprint : M W string :=
  r ← get_receiving;
  match nonempty_opt (rc_fingerprint r) with
  | Some f => mret f
  | None =>
      identity ← sender_identity;
      let f := fingerprint sha256 identity in
      set_fingerprint f;;
      commitment ← get_ remoteIdentityCommitment;
      fail_if (other_commitment commitment f) mismatch;;
      mret f
  end.
(** the route of the sender, where the conversation does not have it *)
(* service/src/crypto/modernConversation.ts:1846-1873 route in buildAcceptanceUpdates *)
Definition route_updates (f : string) : M W (list SecureRecordUpdate) :=
  if first then
    commitment ← get_ remoteIdentityCommitment;
    fail_if (other_commitment commitment f) (permanent "identity-changed");;
    identity ← sender_identity;
    route ← prepareAuthenticatedRouteUpdates sender identity f;
    auditBytes ← read_ SESSION_AUDIT_RECORD room;
    mret (route ++ [plain_update SESSION_AUDIT_RECORD room auditBytes (session_audit "active-established" "inbound" "first-message")])
  else
    contact ← getContact;
    match contact with
    | Some _ => mret []
    | None =>
        restored ← fetchPinnedPeerBundle sender;
        let f' := fingerprint sha256 (pb_identity restored) in
        commitment ← get_ remoteIdentityCommitment;
        fail_if (other_commitment commitment f') mismatch;;
        prepareAuthenticatedRouteUpdates sender (pb_identity restored) f'
    end.
(* service/src/crypto/modernConversation.ts:1836-1885 effects in buildAcceptanceUpdates *)
Definition effect_updates (f : string) (payload_ : bytes) (event : option (string * string)) (introduction : option fields) : M W (list SecureRecordUpdate) :=
  match introduction with
  | Some i => identity ← sender_identity; acceptJoinIntroduction i sender identity
  | None =>
      text_ ← lift (or_throw (utf8_decode payload_) (λ _, permanent "authenticated-invalid"));
      route ← route_updates f;
      consumer ← require_ onMessage "Inbound message consumer is unavailable.";
      plan ← consumer text_ (match event with Some (i, _) => i | None => m1 end);
      plan ← require_ plan "Inbound message consumer did not prepare durable acceptance.";
      mret (route ++ plan)
  end.
(** the floor raised by an authenticated wrapper, or guarded; the outbox entries a wrapper holds back *)
(* service/src/crypto/modernConversation.ts:1887-1904 floor and hold in buildAcceptanceUpdates *)
Definition floor_updates (f : string) (guard : SecureRecordUpdate) (wrapped : bool) : M W (list SecureRecordUpdate) :=
  if negb wrapped then mret [guard] else
  raise ← access others fault (λ d, (prepareRoomMessageVersionFloorRaise sha256 d room f (NInt 1), d));
  outboxBytes ← read_ OUTBOX_RECORD room;
  outbox ← lift (parseList outboxBytes);
  lift (entries_exist outbox);;
  add_held (held_clients outbox);;
  mret (raise.2 :: if existsb holdable outbox then [plain_update OUTBOX_RECORD room outboxBytes (JArr (hold_outbox outbox))] else []).
(* service/src/crypto/modernConversation.ts:1770-1919 buildAcceptanceUpdates in receiveUnlocked *)
Definition buildAcceptanceUpdates (plaintext : bytes) : M W (list SecureRecordUpdate) :=
  f ← sender_fingerprint;
  guard ← access others fault (λ d, (prepareRoomMessageVersionFloorGuard sha256 d room f, d));
  fail_if (1 <? guard.1) "This contact requires a newer secure message format.";;
  t ← transport_now transport;
  own_ ← get_ localIdentityId;
  opened ← lift (or_throw (decode_inbound sha256 first (requires_v1 t) guard.1 room f (default "" own_) plaintext) classify);
  r ← get_receiving;
  let prior := match op_event opened with
               | Some (i, _) => js_find (λ item, bool_decide (oprop item "id" = JStr i)) (items (rc_events r))
               | None => None
               end in
  fail_if (match prior, op_event opened with
           | Some p, Some (_, c) => negb (bool_decide (oprop p "commitment" = JStr c))
           | _, _ => false end) (permanent "authenticated-invalid");;
  introduction ← lift (or_throw (parseJoinIntroduction (op_payload opened)) (λ _, permanent "authenticated-invalid"));
  effects ← match prior with Some _ => mret [] | None => effect_updates f (op_payload opened) (op_event opened) introduction end;
  floors ← floor_updates f guard.2 (bool_decide (is_Some (op_event opened)));
  r ← get_receiving;
  ciphers ← lift (prepareReplayAppend M1_SEEN_RECORD room (rc_m1 r) [JStr m1]);
  events ← match op_event opened, prior with
           | Some (i, c), None => lift (prepareReplayAppend ROOM_MESSAGE_SEEN_RECORD room (rc_events r) [JObj [("id", JStr i); ("commitment", JStr c)]])
           | _, _ => mret []
           end;
  mret (effects ++ floors ++
        [plain_update SEEN_RECORD room (rc_seen r) (JArr (take_last (MAX_SEEN - 1) seen ++ [JStr legacyDigest]))] ++ ciphers ++ events).
End acceptance.

Definition load (rt room : string) (parseLegacy : option string → res (list jsval)) (parseEntry : jsval → bool) : M W ReplayState :=
  access others fault (λ d, (loadReplayState rt room parseLegacy parseEntry d (λ _, d), d)).
(** the sender's identity as the conversation knows it before decrypting *)
(* service/src/crypto/modernConversation.ts:1736-1763 sender in receiveUnlocked *)
Definition known_sender (first : bool) (sender : string) : M W (option PublicBundle * option string) :=
  if first then
    bundle ← fetchPinnedPeerBundle sender;
    pinned ← registry_get sender;
    let f := fingerprint sha256 (pb_identity bundle) in
    fail_if (match pinned with
             | Some p => negb (bool_decide (get p "identityId" = JStr f)) || negb (bool_decide (get p "changeStatus" = JStr "unchanged"))
             | None => false end) (permanent "identity-changed");;
    mret (Some bundle, Some f)
  else
    contact ← getContact;
    fail_if (match contact with Some c => negb (bool_decide (get c "changeStatus" = JStr "unchanged")) | None => false end) (permanent "identity-changed");;
    commitment ← get_ remoteIdentityCommitment;
    mret (None, match contact with Some c => match get c "identityId" with JStr i => Some i | _ => commitment end | None => commitment end).
(** what follows the commit; its errors are swallowed *)
(* service/src/crypto/modernConversation.ts:1928-1930 after commit in receiveUnlocked *)
Definition after_commit : M W unit :=
  r ← get_receiving;
  match rc_route r with
  | Some (sender, f) =>
      update_ (λ c, set_remote (Some sender) (match remoteIdentityCommitment c with Some x => Some x | None => Some f end) c);;
      swallow (registry_get sender;; mret tt)
  | None => mret tt
  end;;
  update_ (add_notices ((λ i, {| n_client := i; n_state := "held" |}) <$> rc_held r)).
(* service/src/crypto/modernConversation.ts:1699-1935 receiveUnlocked *)
Definition receiveUnlocked (envelope : jsval) (senderAddress : option string) : M W bool :=
  health ← get_ sessionHealth;
  if bool_decide (health = unhealthy) then mret false else
  assertCurrentDeviceTrust;;
  room ← get_ roomId; cap ← get_ Outbox.capability; remote ← get_ remoteAddress;
  match nonempty_opt room, nonempty_opt cap, nonempty_opt senderAddress with
  | Some room, Some _, Some sender =>
      if match nonempty_opt remote with Some r => negb (String.eqb sender r) | None => false end then mret false else
      t ← transport_now transport;
      (if requires_v1 t then
         contact ← getContact;
         fail_if (negb (contact_is "verification" "verified" contact) || negb (contact_is "changeStatus" "unchanged" contact) ||
           negb (contact_is "contactId" sender contact)) (permanent "identity-changed")
       else mret tt);;
      wireText ← lift (firstMessage envelope);
      m1 ← lift (envelopeIdForEnvelope sha256 room envelope);
      let legacyDigest := digest sha256 envelope in
      seenBytes ← read_ SEEN_RECORD room;
      m1State ← load M1_SEEN_RECORD room parseM1Seen isM1ReplayEntry;
      eventState ← load ROOM_MESSAGE_SEEN_RECORD room parseRoomMessageSeen isRoomMessageReplayEntry;
      seen ← lift (parseList seenBytes);
      if bool_decide (JStr legacyDigest ∈ seen) || bool_decide (JStr m1 ∈ items m1State) then mret true else
      sid ← activeSessionId;
      let first := negb (bool_decide (is_Some sid)) in
      known ← known_sender first sender;
      update_ (set_receiving {| rc_fingerprint := known.2; rc_seen := seenBytes; rc_m1 := m1State; rc_events := eventState; rc_route := None; rc_held := [] |});;
      match known.1 with
      | Some b => establishInboundSessionAndCommit others fault sha256 wipe_receiving room (field_str (pb_identity b) "curve25519") wireText
                    (buildAcceptanceUpdates first (Some b) room sender m1 legacyDigest seen)
      | None => decryptAndCommitInbound others fault wipe_receiving envelope (buildAcceptanceUpdates first None room sender m1 legacyDigest seen)
      end;;
      after_commit;;
      mret true
  | _, _, _ => mret false
  end.

(** what the transport is told *)
(* service/src/core/contracts.ts:24-25 InboundTransportDecision *)
Inductive InboundTransportDecision := accepted | retryable | permanent_rejection (reasonClass : string).
(* service/src/crypto/modernConversation.ts:1686-1697 decideInbound *)
Definition decideInbound (envelope : jsval) (senderAddress : option string) : M W InboundTransportDecision :=
  catch_ (b ← receiveUnlocked envelope senderAddress; mret (if (b : bool) then accepted else retryable))
    (λ e, mret match strip_prefix "PermanentInboundRejection " e with Some r => permanent_rejection r | None => retryable end).
End inbound.
