(* ===== verification/InboundSafety.v ===== *)
(** * A message is accepted once ([crypto/modernConversation.ts], receiveUnlocked)

    The composition of [Inbound] with the runtime and the replay evidence, for a conversation with a session: whatever is
    reported as accepted is in the stored evidence, and what was not there before was decrypted by the stored session and
    accepted in one swap with it. The records of the session and of the evidence belong to this tab while it receives, which
    is what the lock of the conversation is for. *)
From S2P Require Import Prelude Json Base64 Storage RoomMessage VersionFloor ReplayEvidence Vault ContactRegistry Routing Ratchet RatchetSafety.
From S2P Require Import PublicBundle Attachments FileProtocol Outbox OutboxSafety Sending Idle Introduction Inbound.

Definition an_evidence (t : string) : Prop := t = M1_SEEN_RECORD ∨ t = ROOM_MESSAGE_SEEN_RECORD.
(** what nobody else writes meanwhile *)
Definition a_receipt (t : string) : Prop := t = SESSION_RECORD_TYPE ∨ an_evidence t.
Lemma registry_free : ¬ a_receipt ContactRegistry.RECORD_TYPE.
Proof. by intros [|[|]]. Qed.
(** updates of other records *)
Definition plain_ones (us : list SecureRecordUpdate) : Prop := Forall (λ u, ¬ an_evidence (Storage.recordType u)) us.
Lemma plain_app us us' : plain_ones us → plain_ones us' → plain_ones (us ++ us').
Proof. apply Forall_app_2. Qed.
Lemma plain_cons u us : ¬ an_evidence (Storage.recordType u) → plain_ones us → plain_ones (u :: us).
Proof. by constructor. Qed.

Section receiving.
Context {Session Account : Type} `{OlmLaws Session Account} `{SecureStorageLaws St}.
Context (others : nat → St → St) (fault : nat → Io) (sha256 : string → string).
Context (ed25519_verify : string → string → bytes → bool) (transport : nat → option Transport).
Notation T := (Tab (Session := Session) (Account := Account) (C := Conversation)).
Notation W := (World St T).
Context (trusted_epoch : M W Z).
Context (fetchVodozemacBundle : nat → string → string → string → Reply jsval)
  (fetchAuthenticatedRoutingIdentity : nat → string → string → string → string → Reply jsval).
Context (onMessage : option (bytes → string → M W (option (list SecureRecordUpdate)))).
Notation idle := (Idle.idle a_receipt).
Notation unmoved := (Idle.unmoved a_receipt).
Context (locked : ∀ n d t i, a_receipt t → read (others n d) t i = read d t i).
Context (trust_reads : always idle trusted_epoch).
(** the application prepares records of its own *)
Context (consumer_reads : ∀ c, onMessage = Some c → ∀ t i, always idle (c t i)).
Context (consumer_plans : ∀ c, onMessage = Some c → ∀ t i, returns (λ o, ∀ plan, o = Some plan → plain_ones plan) (c t i)).
Implicit Types w : W.
Hint Resolve registry_free : k3.
Notation fetchPinnedPeerBundle := (fetchPinnedPeerBundle others fault sha256 trusted_epoch fetchVodozemacBundle fetchAuthenticatedRoutingIdentity).
Notation prepareAuthenticatedRouteUpdates := (prepareAuthenticatedRouteUpdates others fault).
Notation acceptJoinIntroduction := (acceptJoinIntroduction others fault sha256 ed25519_verify).
Notation getContact := (getContact others fault (Session := Session) (Account := Account)).

(** ** The callback leaves the session and the evidence alone *)
Lemma idle_receiving : always idle (get_receiving : M W _).
Proof. unfold get_receiving. auto with k3. Qed.
Lemma idle_transport : always idle (transport_now transport : M W _).
Proof. unfold transport_now. auto with k3. Qed.
Hint Resolve idle_receiving idle_transport : k3.
Lemma idle_route sender identity f : always idle (prepareAuthenticatedRouteUpdates sender identity f : M W _).
Proof. unfold Inbound.prepareAuthenticatedRouteUpdates, set_route. cbv zeta. idly. Qed.
Hint Resolve idle_route : k3.
Lemma idle_introduction event sender identity : always idle (acceptJoinIntroduction event sender identity : M W _).
Proof. unfold Inbound.acceptJoinIntroduction. cbv zeta. idly. Qed.
Hint Resolve idle_introduction : k3.
Section acceptance.
Context (room sender m1 legacyDigest : string) (seen : list jsval).
Notation sender_identity := (sender_identity others fault sha256 trusted_epoch fetchVodozemacBundle fetchAuthenticatedRoutingIdentity None sender).
Notation sender_fingerprint := (sender_fingerprint others fault sha256 trusted_epoch fetchVodozemacBundle fetchAuthenticatedRoutingIdentity None sender).
Notation effect_updates := (effect_updates others fault sha256 ed25519_verify trusted_epoch fetchVodozemacBundle fetchAuthenticatedRoutingIdentity
  onMessage false None room sender m1).
Notation route_updates := (route_updates others fault sha256 trusted_epoch fetchVodozemacBundle fetchAuthenticatedRoutingIdentity false None room sender).
Notation floor_updates := (floor_updates others fault sha256 room).
Notation build := (buildAcceptanceUpdates others fault sha256 ed25519_verify transport trusted_epoch fetchVodozemacBundle
  fetchAuthenticatedRoutingIdentity onMessage false None room sender m1 legacyDigest seen).

Lemma idle_sender_identity : always idle (sender_identity : M W _).
Proof. unfold Inbound.sender_identity. idly. Qed.
Hint Resolve idle_sender_identity : k3.
Lemma idle_fingerprint : always idle (sender_fingerprint : M W _).
Proof. unfold Inbound.sender_fingerprint, set_fingerprint. cbv zeta. idly. Qed.
Lemma idle_routes f : always idle (route_updates f : M W _).
Proof. unfold Inbound.route_updates. cbv zeta. idly. Qed.
Hint Resolve idle_fingerprint idle_routes : k3.
Lemma idle_effects f p event introduction : always idle (effect_updates f p event introduction : M W _).
Proof.
  unfold Inbound.effect_updates. destruct introduction; [idly|].
  apply always_bind; [apply _|auto with k3|intros t]. apply always_bind; [apply _|auto with k3|intros route].
  apply always_require; [apply _|]. intros c Hc. pose proof (consumer_reads c Hc). idly.
Qed.
Lemma idle_floors f guard wrapped : always idle (floor_updates f guard wrapped : M W _).
Proof. unfold Inbound.floor_updates, add_held. idly. Qed.
Hint Resolve idle_effects idle_floors : k3.
Lemma idle_build p : always idle (build p : M W _).
Proof. unfold buildAcceptanceUpdates. cbv zeta. idly. Qed.

(** ** The records it asks for *)
Create HintDb plain.
Ltac other_record := by intros [|].
Ltac plainly :=
  repeat match goal with
  | |- returns _ (mret _) => apply returns_mret
  | |- returns _ (throw _) => apply returns_throw
  | |- returns _ (modes_prepareWrite _ _ _ _ ≫= _) => eapply returns_bind_with; [eauto with plain|intros ? ?]
  | |- returns _ (Inbound.prepareAuthenticatedRouteUpdates _ _ _ _ _ ≫= _) => eapply returns_bind_with; [eauto with plain|intros ? ?]
  | |- returns _ ((match ?x with Some _ => _ | None => _ end : M _ (list SecureRecordUpdate)) ≫= _) =>
      apply (returns_bind_with plain_ones); [destruct x|intros ? ?]
  | |- returns _ (_ ≫= _) => apply returns_bind; intros ?
  | |- returns _ (match ?x with _ => _ end) => destruct x
  | |- returns _ (if ?x then _ else _) => destruct x
  | |- plain_ones (match ?x with _ => _ end) => destruct x
  | |- plain_ones (_ ++ _) => apply plain_app
  | |- plain_ones [] => constructor
  | |- plain_ones (_ :: _) => apply plain_cons
  | |- plain_ones (if ?x then _ else _) => destruct x
  end; try done; try other_record.
Lemma mode_plain r u : returns (λ u, ¬ an_evidence (Storage.recordType u)) (modes_prepareWrite others fault r u : M W _).
Proof. unfold modes_prepareWrite. plainly. Qed.
Hint Resolve mode_plain : plain.
Lemma route_plain s identity f : returns plain_ones (prepareAuthenticatedRouteUpdates s identity f : M W _).
Proof.
  unfold Inbound.prepareAuthenticatedRouteUpdates. cbv zeta. plainly.
Qed.
Hint Resolve route_plain : plain.
Lemma introduction_plain event s identity : returns plain_ones (acceptJoinIntroduction event s identity : M W _).
Proof.
  unfold Inbound.acceptJoinIntroduction. cbv zeta. plainly.
Qed.
Lemma routes_plain f : returns plain_ones (route_updates f : M W _).
Proof. unfold Inbound.route_updates. cbv zeta. plainly. apply route_plain. Qed.
Lemma effects_plain f p event introduction : returns plain_ones (effect_updates f p event introduction : M W _).
Proof.
  unfold Inbound.effect_updates. destruct introduction; [apply returns_bind; intros identity; apply introduction_plain|].
  apply returns_bind. intros t. eapply returns_bind_with; [apply routes_plain|]. intros route Hroute.
  intros w us w' (c & w1 & Hc & Hr)%bind_ok_run. unfold require_ in Hc. apply lift_run in Hc as [Hc ->].
  assert (onMessage = Some c) as Ho by (revert Hc; destruct onMessage; [by intros [= ->]|done]).
  apply bind_ok_run in Hr as (plan & w2 & Hp & Hr). apply (consumer_plans c Ho) in Hp.
  apply bind_ok_run in Hr as (plan' & w3 & Hr' & [= <- _]). unfold require_ in Hr'. apply lift_run in Hr' as [Hr' ->].
  destruct plan as [pl|]; [|done]. injection Hr' as ->. apply plain_app; [done|]. by apply Hp.
Qed.
Lemma guard_plain d f g : prepareRoomMessageVersionFloorGuard sha256 d room f = Ok g → ¬ an_evidence (Storage.recordType g.2).
Proof.
  unfold prepareRoomMessageVersionFloorGuard. intros (i & _ & Hg)%bind_ok. cbv zeta in Hg.
  apply bind_ok in Hg as (cur & _ & [= <-]). other_record.
Qed.
Lemma floors_plain f guard wrapped : ¬ an_evidence (Storage.recordType guard) → returns plain_ones (floor_updates f guard wrapped : M W _).
Proof.
  intros Hg. unfold Inbound.floor_updates. destruct (negb wrapped); [plainly|].
  intros w us w' (raise & w1 & Hra & Hr)%bind_ok_run.
  apply (access_pure others fault (λ d, prepareRoomMessageVersionFloorRaise sha256 d room f (NInt 1))) in Hra as (_ & _ & [[=]|Hra]).
  symmetry in Hra. destruct raise as [fl raise]. apply raise_prepares in Hra as (v & rid & current & _ & _ & _ & Ht & _).
  assert (¬ an_evidence (Storage.recordType raise)) as Hra by (rewrite Ht; other_record).
  revert w1 us w' Hr. change (returns plain_ones (outboxBytes ← read_ others fault OUTBOX_RECORD room;
    outbox ← lift (parseList outboxBytes); lift (entries_exist outbox);; add_held (held_clients outbox);;
    mret ((fl, raise).2 :: if existsb holdable outbox then [plain_update OUTBOX_RECORD room outboxBytes (JArr (hold_outbox outbox))] else []) : M W _)).
  plainly.
Qed.

(** ** What a message says and does *)
Lemma introduction_signed event s identity w us w' : acceptJoinIntroduction event s identity w = (Ok us, w') →
  get event "senderAddress" = JStr s ∧ get event "identityCommitment" = JStr (fingerprint sha256 identity) ∧
  verifyJoinIntroductionSignature ed25519_verify event (field_str identity "ed25519") = true.
Proof.
  unfold Inbound.acceptJoinIntroduction. cbv zeta. unfold get_, get_mem. rewrite !gets_bind. destruct (nonempty_opt _); [|done].
  intros (? & ? & (Hb & ->)%fail_if_run & Hr)%bind_ok_run. apply bind_ok_run in Hr as (? & ? & (Hi & ->)%fail_if_run & Hr).
  apply bind_ok_run in Hr as (? & ? & (Hs & ->)%fail_if_run & _). apply negb_false_iff in Hs.
  apply orb_false_iff in Hb as [Hb _]. apply orb_false_iff in Hb as [_ Hb]. apply negb_false_iff, bool_decide_eq_true in Hb.
  apply orb_false_iff in Hi as [Hi _]. apply negb_false_iff, bool_decide_eq_true in Hi. done.
Qed.
(** an introduction is signed by the identity it names; a text is given to the application, whose records are among [effects] *)
Definition applied (o : Opened) (effects : list SecureRecordUpdate) : Prop :=
  match parseJoinIntroduction (op_payload o) with
  | Ok (Some i) => ∃ identity, get i "senderAddress" = JStr sender ∧ get i "identityCommitment" = JStr (fingerprint sha256 identity) ∧
                     verifyJoinIntroductionSignature ed25519_verify i (field_str identity "ed25519") = true
  | Ok None => ∃ t c v v' plan, utf8_decode (op_payload o) = Ok t ∧ onMessage = Some c ∧
                 c t (match op_event o with Some (i, _) => i | None => m1 end) v = (Ok (Some plan), v') ∧ plan ⊆ effects
  | Err _ => False
  end.
Lemma effects_apply f o introduction w effects w' : parseJoinIntroduction (op_payload o) = Ok introduction →
  effect_updates f (op_payload o) (op_event o) introduction w = (Ok effects, w') → applied o effects.
Proof.
  unfold applied, Inbound.effect_updates. intros ->. destruct introduction as [i|].
  - intros (identity & w1 & _ & Hr)%bind_ok_run. exists identity. by eapply introduction_signed.
  - intros (t & w1 & [Ht _]%lift_run & Hr)%bind_ok_run. apply bind_ok_run in Hr as (route & w2 & _ & Hr).
    apply bind_ok_run in Hr as (c & w3 & Hc & Hr). unfold require_ in Hc. apply lift_run in Hc as [Hc ->].
    apply bind_ok_run in Hr as (plan & w4 & Hp & Hr). apply bind_ok_run in Hr as (plan' & w5 & Hq & [= <- _]).
    unfold require_ in Hq. apply lift_run in Hq as [Hq ->]. destruct plan as [pl|]; [|done]. injection Hq as ->.
    exists t, c, w2, w4, plan'. split_and!; [|by revert Hc; destruct onMessage; [intros [= ->]|]|done|set_solver].
    revert Ht. unfold or_throw. by destruct (utf8_decode _); intros [= ->].
Qed.

Definition known_event (le : list jsval) (i : string) : option jsval := js_find (λ item, bool_decide (oprop item "id" = JStr i)) le.
Definition event_entry (i c : string) : jsval := JObj [("id", JStr i); ("commitment", JStr c)].
(** a message of the room is applied unless its event is in the evidence, and then under the same commitment *)
Definition event_case (s : ReplayState) (o : Opened) (effects events : list SecureRecordUpdate) : Prop :=
  match op_event o with
  | None => events = [] ∧ applied o effects
  | Some (i, c) =>
      match known_event (items s) i with
      | Some p => oprop p "commitment" = JStr c ∧ effects = [] ∧ events = []
      | None => prepareReplayAppend ROOM_MESSAGE_SEEN_RECORD room s [event_entry i c] = Ok events ∧ applied o effects
      end
  end.
(** the sender's identity: noted before, or the one of the bundle that is pinned *)
Definition named w f : Prop :=
  rc_fingerprint (receiving (conv w)) = Some f ∨
  nonempty_opt (rc_fingerprint (receiving (conv w))) = None ∧ ∃ v b v', fetchPinnedPeerBundle sender v = (Ok b, v') ∧ f = fingerprint sha256 (pb_identity b).
Lemma fingerprint_named w f w' : sender_fingerprint w = (Ok f, w') → named w f.
Proof.
  unfold Inbound.sender_fingerprint, get_receiving, get_, get_mem. rewrite gets_bind. unfold named.
  change (client (mem w)) with (conv w). destruct (nonempty_opt (rc_fingerprint (receiving (conv w)))) as [g|] eqn:Eg.
  - intros [= -> _]. left. revert Eg. unfold nonempty_opt. destruct (rc_fingerprint _) as [g|]; [|done]. by destruct (nonempty g); intros [= ->].
  - intros (identity & w1 & Hi & Hr)%bind_ok_run. right. split; [done|]. apply bind_ok_run in Hr as ([] & w2 & _ & Hr).
    rewrite gets_bind in Hr. apply bind_ok_run in Hr as (? & ? & _ & [= <- _]).
    unfold Inbound.sender_identity in Hi. apply bind_ok_run in Hi as (b & w3 & Hb & [= <- _]). by exists w, b, w3.
Qed.

Lemma built p w more w' : build p w = (Ok more, w') →
  ∃ f floor mux opened effects floors ciphers events, named w f ∧
    decode_inbound sha256 false mux floor room f (default "" (localIdentityId (conv w))) p = Ok opened ∧
    more = effects ++ floors ++ [plain_update SEEN_RECORD room (rc_seen (receiving (conv w))) (JArr (take_last (MAX_SEEN - 1) seen ++ [JStr legacyDigest]))]
      ++ ciphers ++ events ∧ plain_ones effects ∧ plain_ones floors ∧
    prepareReplayAppend M1_SEEN_RECORD room (rc_m1 (receiving (conv w))) [JStr m1] = Ok ciphers ∧
    event_case (rc_events (receiving (conv w))) opened effects events.
Proof.
  unfold buildAcceptanceUpdates. intros (f & w1 & Hf & Hr)%bind_ok_run. pose proof (fingerprint_named _ _ _ Hf) as Hn.
  apply idle_fingerprint in Hf as (_ & _ & R1).
  apply bind_ok_run in Hr as (guard & w2 & Hg & Hr). pose proof (access_pure others fault (λ d, prepareRoomMessageVersionFloorGuard sha256 d room f) _ _ _ Hg)
    as (_ & M2 & [[=]|Hgd]). symmetry in Hgd. apply guard_plain in Hgd.
  apply bind_ok_run in Hr as (? & ? & (_ & ->)%fail_if_run & Hr). unfold transport_now, get_receiving, get_, get_mem in Hr. rewrite !gets_bind in Hr.
  apply bind_ok_run in Hr as (opened & w3 & [Ho ->]%lift_run & Hr). rewrite gets_bind in Hr. cbv zeta in Hr.
  change (client (mem w2)) with (conv w2) in *. assert (conv w2 = conv w1) as E2 by (unfold conv; by rewrite M2). rewrite E2 in *.
  destruct R1 as (_ & L1 & C1). unfold captured in C1. injection C1 as S1 M1 V1. rewrite V1, L1 in *.
  fold (js_find (A := jsval)) in Hr.
  set (prior := match op_event opened with Some (i, _) => js_find _ _ | None => None end) in Hr.
  apply bind_ok_run in Hr as (? & ? & (Hc & ->)%fail_if_run & Hr). apply bind_ok_run in Hr as (introduction & w4 & [Hi ->]%lift_run & Hr).
  apply bind_ok_run in Hr as (effects & w5 & He & Hr). apply bind_ok_run in Hr as (floors & w6 & Hfl & Hr).
  rewrite gets_bind in Hr. apply bind_ok_run in Hr as (ciphers & w7 & [Hm ->]%lift_run & Hr).
  apply bind_ok_run in Hr as (events & w8 & Hev & [= <- _]).
  assert (captured (conv w6) = captured (conv w1)) as C6.
  { destruct (idle_floors f guard.2 (bool_decide (is_Some (op_event opened))) _ _ _ Hfl) as (_ & _ & _ & _ & ->). rewrite <-E2. revert He.
    destruct prior; [by intros [= _ <-]|]. intros He. by destruct (idle_effects f (op_payload opened) (op_event opened) introduction _ _ _ He) as (_ & _ & _ & _ & ?). }
  unfold captured in C6. injection C6 as S6 M6 V6. change (client (mem w6)) with (conv w6) in *. rewrite S6, M6, V6, ?S1, ?M1, ?V1 in *.
  exists f, guard.1, (requires_v1 (transport (tick w2))), opened, effects, floors, ciphers, events. split; [done|].
  split; [revert Ho; unfold or_throw; destruct (decode_inbound _ _ _ _ _ _ _ _); by intros [= ->]|]. split; [done|].
  split; [revert He; destruct prior; [intros [= <- _]; constructor|apply effects_plain]|].
  split; [by eapply floors_plain|]. split; [done|].
  assert (parseJoinIntroduction (op_payload opened) = Ok introduction) as Hi' by (revert Hi; unfold or_throw; destruct (parseJoinIntroduction _); by intros [= ->]).
  unfold event_case, known_event. destruct (op_event opened) as [[i c]|] eqn:Eo; cbn in prior.
  - subst prior. destruct (js_find _ _) as [pr|] eqn:Ep.
    + apply negb_false_iff, bool_decide_eq_true in Hc. by injection He as <- _; injection Hev as <- _.
    + apply lift_run in Hev as [Hev _]. split; [done|]. rewrite <-Eo in He. by eapply effects_apply.
  - injection Hev as <- _. split; [done|]. pose proof (effects_apply f opened introduction) as Ha. rewrite Eo in Ha. exact (Ha _ _ _ Hi' He).
Qed.
End acceptance.

(** ** Around the commit *)
Lemma idle_after : always idle (after_commit others fault : M W _).
Proof.
  assert (∀ r, always idle (swallow (registry_get others fault r;; mret tt) : M W unit)) as Hs.
  { intros r. unfold swallow. apply always_catch; [apply _|idly|intros e; idly]. }
  unfold after_commit. idly.
Qed.
(** whose message it can be: the contact's, while it is unchanged, or for want of one the inviter's *)
Lemma sender_known sender w k w' :
  known_sender others fault sha256 trusted_epoch fetchVodozemacBundle fetchAuthenticatedRoutingIdentity false sender w = (Ok k, w') →
  k.1 = None ∧ idle w w' ∧
  ∃ contact v, getContact w = (Ok contact, v) ∧ idle v w' ∧ (∀ c, contact = Some c → get c "changeStatus" = JStr "unchanged") ∧
    k.2 = match contact with
          | Some c => match get c "identityId" with JStr i => Some i | _ => remoteIdentityCommitment (conv w') end
          | None => remoteIdentityCommitment (conv w')
          end.
Proof.
  unfold known_sender. intros (contact & v & Hc & Hr)%bind_ok_run.
  assert (idle w v) as I by (revert Hc; apply (idle_contact others fault a_receipt registry_free locked)).
  apply bind_ok_run in Hr as (? & ? & (Hun & ->)%fail_if_run & Hr). unfold get_, get_mem in Hr. rewrite gets_bind in Hr. injection Hr as <- <-.
  split; [done|]. split; [done|]. exists contact, v. split; [done|]. split; [done|]. split; [|done].
  intros c ->. by apply negb_false_iff, bool_decide_eq_true in Hun.
Qed.

(** ** Entries of the evidence *)
Context (sha256_size : ∀ s, String.length (sha256 s) = 32%nat).
Lemma length_bytes l : String.length (string_of_list_ascii l) = length l.
Proof. induction l as [|c l IH]; [done|]. cbn. by rewrite IH. Qed.
Lemma length_chars t : length (list_ascii_of_string t) = String.length t.
Proof. by rewrite <-length_bytes, string_of_list_ascii_of_string. Qed.
Lemma forall_chars_run P l : forallb P l = forall_chars P (string_of_list_ascii l).
Proof. induction l as [|c l IH]; [done|]. cbn. by rewrite IH. Qed.
Lemma v1_hex (d : bytes) : length d = 32%nat → v1_digest (string_of_list_ascii (str "v1:" ++ hex d)) = true.
Proof.
  intros Hd. change (string_of_list_ascii (str "v1:" ++ hex d)) with ("v1:" +:+ string_of_list_ascii (hex d)).
  unfold v1_digest, hex64. rewrite strip_prefix_app. unfold strlen. rewrite length_bytes, hex_length, Hd.
  rewrite <-forall_chars_run. cbn. pose proof (hex_is_hex d) as Hh. unfold hex_run in Hh. exact Hh.
Qed.
Lemma sha_bytes_size b : length (sha_bytes sha256 b) = 32%nat.
Proof. unfold sha_bytes. rewrite length_chars. apply sha256_size. Qed.
Lemma envelope_entry room envelope m1 : envelopeIdForEnvelope sha256 room envelope = Ok m1 → isM1ReplayEntry (JStr m1) = true.
Proof.
  unfold envelopeIdForEnvelope, envelopeId. cbv zeta. intros (m & _ & Hr)%bind_ok.
  apply bind_ok in Hr as (cl & _ & Hr). apply bind_ok in Hr as (ml & _ & [= <-]).
  apply (v1_hex (list_ascii_of_string _)). rewrite length_chars. apply sha256_size.
Qed.
Lemma event_entry_ok mux floor room f own_ p o i c : decode_inbound sha256 false mux floor room f own_ p = Ok o → op_event o = Some (i, c) →
  isRoomMessageReplayEntry (event_entry i c) = true.
Proof.
  unfold decode_inbound. intros (? & _ & Hr)%bind_ok. apply bind_ok in Hr as (d & _ & Hr). destruct d as [l|m]; [by injection Hr as <-|].
  cbv zeta in Hr. apply bind_ok in Hr as (? & _ & Hr). apply bind_ok in Hr as (? & _ & Hr). apply bind_ok in Hr as (id_ & Hid & [= <-]).
  intros [= <- <-]. apply roomMessageEventId_ok in Hid as (ro & ev & _ & _ & _ & _ & ->).
  unfold isRoomMessageReplayEntry, event_entry. apply andb_true_iff. split; [apply andb_true_iff; split|]; [by vm_compute| |];
    apply v1_hex, sha_bytes_size.
Qed.

(** ** The evidence before and after *)
Notation m1_evidence room w := (evidence M1_SEEN_RECORD room parseM1Seen isM1ReplayEntry (disk w)).
Notation event_evidence room w := (evidence ROOM_MESSAGE_SEEN_RECORD room parseRoomMessageSeen isRoomMessageReplayEntry (disk w)).
Section evidence.
Context (rt room : string) (parseLegacy : option string → res (list jsval)) (parseEntry : jsval → bool) (Hrt : an_evidence rt).
Context (entry_plain : ∀ v, parseEntry v = true → plain v = true)
  (legacy_entries : ∀ b l, parseLegacy b = Ok l → Forall (λ v, parseEntry v = true) l).
Notation evidence_at w := (evidence rt room parseLegacy parseEntry (disk w)).
Notation loaded_at s w := (loadReplayState rt room parseLegacy parseEntry (disk w) (λ _, disk w) = Ok s).
Lemma evidence_unmoved w w' : unmoved w w' → evidence_at w' = evidence_at w.
Proof. intros U. apply evidence_same. intros i. apply U. by right. Qed.
Lemma load_run s w w' : load others fault rt room parseLegacy parseEntry w = (Ok s, w') → idle w w' ∧ drift others w w' ∧ loaded_at s w' ∧ evidence_at w' = Ok (items s).
Proof.
  intros Hr. unfold load in Hr. apply (access_pure others fault (λ d, loadReplayState rt room parseLegacy parseEntry d (λ _, d))) in Hr as (Hd & Hm & [[=]|Hs]).
  split; [by eapply idle_drift|]. split; [done|]. split; [done|]. unfold evidence. by rewrite <-Hs.
Qed.
(** a swap of the updates [all], between [w] and [w'] *)
Lemma evidence_swapped s w w' adds us rest all : loaded_at s w → committed others unmoved all w w' → NoDup (update_key <$> all) →
  Forall (λ v, parseEntry v = true) adds → fits (items s ++ adds) → all ≡ₚ us ++ rest → Forall (λ u, Storage.recordType u ≠ rt) rest →
  (adds ≠ [] ∧ prepareReplayAppend rt room s adds = Ok us ∨ adds = [] ∧ us = []) → evidence_at w' = Ok (items s ++ adds).
Proof.
  intros Hs (w1 & U & wa & wb & Hd & Hc & Hdb & _ & Hd') Hnd Hadds Hfit Hp Hrest Hcase.
  assert (unmoved w wa) as Ua by (etrans; [exact U|by apply (drift_unmoved others a_receipt locked)]).
  rewrite (evidence_unmoved wb w') by by apply (drift_unmoved others a_receipt locked). rewrite Hdb.
  assert (loaded_at s wa) as Hsa by (rewrite (load_same rt room parseLegacy parseEntry (disk w) (disk wa)); [done|intros i; apply Ua; by right]).
  destruct Hcase as [[Hne Hus]|[-> ->]].
  - by eapply (evidence_appended rt room parseLegacy parseEntry entry_plain legacy_entries).
  - rewrite app_nil_r. assert (∀ i, read (compareAndSwapRecords all (disk wa)).2 rt i = read (disk wa) rt i) as Hsame.
    { intros i. apply cas_other. intros (u & [= E _] & Hu)%list_elem_of_fmap. rewrite Forall_forall in Hrest.
      apply (Hrest u); [by rewrite <-app_nil_l, <-Hp|done]. }
    rewrite (evidence_same rt room parseLegacy parseEntry (disk wa)) by done. unfold evidence. by rewrite Hsa.
Qed.
End evidence.

(** ** Receiving *)
Notation receive := (receiveUnlocked others fault sha256 ed25519_verify transport trusted_epoch fetchVodozemacBundle
  fetchAuthenticatedRoutingIdentity onMessage).
(** what the swap of an accepted message does to the evidence of the room's events *)
Definition applied_once sender m1 (le : list jsval) (o : Opened) (effects : list SecureRecordUpdate) (new : list jsval) : Prop :=
  match op_event o with
  | None => new = [] ∧ applied sender m1 o effects
  | Some (i, c) =>
      match known_event le i with
      | Some p => oprop p "commitment" = JStr c ∧ effects = [] ∧ new = []
      | None => new = [event_entry i c] ∧ applied sender m1 o effects
      end
  end.
(** the frame is from the contact the registry holds, if it holds one, and it is unchanged *)
Definition from_contact w (f : string) : Prop :=
  ∃ v contact v', idle w v ∧ getContact v = (Ok contact, v') ∧
    ∀ c, contact = Some c → get c "changeStatus" = JStr "unchanged" ∧ ∀ i, get c "identityId" = JStr i → i ≠ "" → f = i.
Inductive accepted_now room h0 envelope sender w w' m1 (l le : list jsval) : Prop :=
| accepted_by f olm framed h1 floor mux opened effects rest new wc :
    JStr m1 ∉ l → m1_evidence room w' = Ok (l ++ [JStr m1]) → event_evidence room w' = Ok (le ++ new) → from_contact w f →
    parseEnvelopeData (oprop envelope "data") = Ok olm → handle_decrypt olm h0 = (Some framed, h1) →
    decode_inbound sha256 false mux floor room f (default "" (localIdentityId (conv w))) (drop 2 framed) = Ok opened →
    applied_once sender m1 le opened effects new →
    committed others unmoved (session_update room (Some (handle_save h0)) (handle_save h1) :: effects ++ rest) w wc → idle wc w' →
    holds room h1 (mem w') → stored_session room w' = Some (handle_save h1) → accepted_now room h0 envelope sender w w' m1 l le.
(** it was accepted before: the ciphertext is in the evidence, or its digest in the older list *)
Definition accepted_before room envelope w w' m1 (l : list jsval) : Prop :=
  idle w w' ∧ (JStr m1 ∈ l ∨ ∃ v seen, drift others v w' ∧ parseList (read (disk v) SEEN_RECORD room) = Ok seen ∧ JStr (digest sha256 envelope) ∈ seen).

Lemma plain_foreign rt us : an_evidence rt → plain_ones us → Forall (λ u, Storage.recordType u ≠ rt) us.
Proof. intros Hrt Hf. eapply Forall_impl; [exact Hf|]. intros u Hu E. apply Hu. by rewrite E. Qed.
Lemma typed_foreign t rt us : t ≠ rt → Forall (λ u, Storage.recordType u = t) us → Forall (λ u, Storage.recordType u ≠ rt) us.
Proof. intros Hne Hf. eapply Forall_impl; [exact Hf|]. by intros u ->. Qed.

(** the two kinds of evidence after the swap of an accepted message *)
Lemma evidence_after room s se w w' m1 b n effects floors seen_u ciphers events opened sender :
  loadReplayState M1_SEEN_RECORD room parseM1Seen isM1ReplayEntry (disk w) (λ _, disk w) = Ok s →
  loadReplayState ROOM_MESSAGE_SEEN_RECORD room parseRoomMessageSeen isRoomMessageReplayEntry (disk w) (λ _, disk w) = Ok se →
  let all := session_update room b n :: effects ++ floors ++ [seen_u] ++ ciphers ++ events in
  committed others unmoved all w w' → NoDup (update_key <$> all) → plain_ones effects → plain_ones floors →
  Storage.recordType seen_u = SEEN_RECORD → isM1ReplayEntry (JStr m1) = true → fits (items s ++ [JStr m1]) →
  (∀ e, fits (items se ++ [e])) → (∀ i c, op_event opened = Some (i, c) → isRoomMessageReplayEntry (event_entry i c) = true) →
  prepareReplayAppend M1_SEEN_RECORD room s [JStr m1] = Ok ciphers → event_case room sender m1 se opened effects events →
  m1_evidence room w' = Ok (items s ++ [JStr m1]) ∧
  ∃ new, event_evidence room w' = Ok (items se ++ new) ∧ applied_once sender m1 (items se) opened effects new.
Proof.
  intros Hs Hse all Hc Hnd He Hf Hseen Hm1 Hfit Hfite Hevent Hci Hcase. pose proof (append_type _ _ _ _ _ Hci) as Tci.
  assert (∃ new, applied_once sender m1 (items se) opened effects new ∧ Forall (λ v, isRoomMessageReplayEntry v = true) new ∧
    fits (items se ++ new) ∧ (new ≠ [] ∧ prepareReplayAppend ROOM_MESSAGE_SEEN_RECORD room se new = Ok events ∨ new = [] ∧ events = []))
    as (new & Ha & Hall & Hfn & Hnew).
  { unfold event_case in Hcase. unfold applied_once. assert (fits (items se ++ [])) as Hf0.
    { specialize (Hfite JNull). unfold fits in *. rewrite length_app in *. cbn in *. lia. }
    destruct (op_event opened) as [[i c]|] eqn:Eo; [|destruct Hcase as [-> Ha]; exists []; by split_and!; auto].
    destruct (known_event _ i); [destruct Hcase as (? & ? & ->); exists []; by split_and!; auto|].
    destruct Hcase as [Hp Ha]. exists [event_entry i c]. split_and!; [done..| |done|by left].
    apply Forall_singleton. by apply Hevent. }
  assert (Forall (λ u, Storage.recordType u = ROOM_MESSAGE_SEEN_RECORD) events) as Tev.
  { destruct Hnew as [[_ Hn]|[_ ->]]; [by eapply append_type|constructor]. }
  split; [|exists new; split; [|done]].
  - apply (evidence_swapped M1_SEEN_RECORD room parseM1Seen isM1ReplayEntry (or_introl eq_refl) m1_entry_plain m1_legacy_entries s w w'
      [JStr m1] ciphers (session_update room b n :: effects ++ floors ++ [seen_u] ++ events) all); try done.
    + by apply Forall_singleton.
    + unfold all. solve_Permutation.
    + constructor; [done|]. repeat apply Forall_app_2; [by apply plain_foreign; [left|]..| |by eapply typed_foreign, Tev].
      apply Forall_singleton. by rewrite Hseen.
    + by left.
  - apply (evidence_swapped ROOM_MESSAGE_SEEN_RECORD room parseRoomMessageSeen isRoomMessageReplayEntry (or_intror eq_refl) room_message_entry_plain
      room_message_legacy_entries se w w' new events (session_update room b n :: effects ++ floors ++ [seen_u] ++ ciphers) all); try done.
    + unfold all. solve_Permutation.
    + constructor; [done|]. repeat apply Forall_app_2; [by apply plain_foreign; [right|]..| |by eapply typed_foreign, Tci].
      apply Forall_singleton. by rewrite Hseen.
Qed.

Lemma room_here room w r : roomId (conv w) = Some room → nonempty_opt (roomId (conv w)) = Some r → r = room.
Proof. intros -> Hr. revert Hr. unfold nonempty_opt. destruct (nonempty room); by intros [= ->]. Qed.
Lemma session_here h0 w room : holds room h0 (mem w) → nonempty (handle_id h0) = true → activeSessionId w = (Ok (Some (handle_id h0)), w).
Proof. intros (Hs & _) Hn. unfold activeSessionId, get_mem, gets. rewrite Hs. cbn [handle]. by rewrite Hn. Qed.

(** from the replay evidence to the commit; [v] is where the evidence was loaded, [k] who the sender is known to be *)
Lemma commit_received room h0 envelope sender w v w' m1 s se k seenBytes seen :
  idle w v → ahead room (Some (handle_save h0)) h0 v → envelopeIdForEnvelope sha256 room envelope = Ok m1 →
  loadReplayState M1_SEEN_RECORD room parseM1Seen isM1ReplayEntry (disk v) (λ _, disk v) = Ok s →
  loadReplayState ROOM_MESSAGE_SEEN_RECORD room parseRoomMessageSeen isRoomMessageReplayEntry (disk v) (λ _, disk v) = Ok se →
  fits (items s ++ [JStr m1]) → (∀ e, fits (items se ++ [e])) → JStr m1 ∉ items s →
  (∀ f, named sender (with_mem (λ t, set_client (set_receiving {| rc_fingerprint := k; rc_seen := seenBytes; rc_m1 := s; rc_events := se; rc_route := None; rc_held := [] |} (client t)) t) v) f →
        from_contact w f) →
  (update_ (set_receiving {| rc_fingerprint := k; rc_seen := seenBytes; rc_m1 := s; rc_events := se; rc_route := None; rc_held := [] |});;
   decryptAndCommitInbound others fault wipe_receiving envelope (buildAcceptanceUpdates others fault sha256 ed25519_verify transport trusted_epoch
     fetchVodozemacBundle fetchAuthenticatedRoutingIdentity onMessage false None room sender m1 (digest sha256 envelope) seen);;
   after_commit others fault;; mret true) v = (Ok true, w') →
  accepted_now room h0 envelope sender w w' m1 (items s) (items se).
Proof.
  intros I Ha Hm1 Hs Hse Hfit Hfite Hnew Hfrom ([] & v1 & [= <-] & Hr)%bind_ok_run. set (v1 := with_mem _ v) in *.
  apply bind_ok_run in Hr as ([] & v2 & Hd & Hr). apply bind_ok_run in Hr as ([] & v3 & Haf & [= <-]).
  assert (unmoved w v1) as U by by destruct I as (U & _).
  assert (idle v2 v3) as I3 by by apply idle_after in Haf.
  assert (ahead room (Some (handle_save h0)) h0 v1) as Ha1 by exact Ha.
  destruct (triple_run _ _ _ _ _ _ _ (triple_inbound others fault sha256 wipe_receiving (λ n d c, locked n d _ c (or_introl eq_refl))
    unmoved (drift_unmoved others a_receipt locked) (λ c w w' E, E _ c (or_introl eq_refl)) v1 room (handle_save h0) h0 envelope
    (buildAcceptanceUpdates others fault sha256 ed25519_verify transport trusted_epoch
     fetchVodozemacBundle fetchAuthenticatedRoutingIdentity onMessage false None room sender m1 (digest sha256 envelope) seen)
    (λ p, quiet_idle a_receipt _ (idle_build room sender m1 _ seen p)) eq_refl Ha1) eq_refl Hd)
    as (n & more & h1 & (olm & framed & wb & wb' & Holm & Hdec & -> & Umv & Hcl & Hb) & (Hc & Hst & Hnd) & Hh).
  assert (conv wb = conv v1) as Hcl' by exact Hcl.
  apply built in Hb as (f & floor & mux & opened & effects & floors & ciphers & events & Hn & Ho & -> & He & Hf & Hci & Hcase).
  unfold named in Hn. rewrite Hcl' in *. destruct I as (_ & _ & _ & L & _).
  assert (default "" (localIdentityId (conv v1)) = default "" (localIdentityId (conv w))) as HL by (unfold v1, conv; cbn; by f_equal).
  rewrite HL in Ho.
  destruct (evidence_after room s se v1 v2 m1 (Some (handle_save h0)) (handle_save h1) effects floors
    (plain_update SEEN_RECORD room seenBytes (JArr (take_last (MAX_SEEN - 1) seen ++ [JStr (digest sha256 envelope)]))) ciphers events opened sender)
    as (E1 & new & E2 & Happ); try done.
  { by eapply envelope_entry. }
  { intros i c. by eapply event_entry_ok. }
  assert (unmoved v2 v3) as U3 by by destruct I3 as (U3 & _).
  apply (accepted_by room h0 envelope sender w v3 m1 (items s) (items se) f olm framed h1 floor mux opened effects
    (floors ++ [plain_update SEEN_RECORD room seenBytes (JArr (take_last (MAX_SEEN - 1) seen ++ [JStr (digest sha256 envelope)]))] ++ ciphers ++ events) new v2);
    try done.
  - by rewrite (evidence_unmoved M1_SEEN_RECORD room _ _ (or_introl eq_refl) v2 v3).
  - by rewrite (evidence_unmoved ROOM_MESSAGE_SEEN_RECORD room _ _ (or_intror eq_refl) v2 v3).
  - by apply Hfrom.
  - destruct Hc as (wm & Um & Hc). exists wm. split; [by etrans|done].
  - by eapply idle_holds.
  - by rewrite (idle_stored a_receipt room v2 v3 (or_introl eq_refl) I3).
Qed.

End receiving.

Import Tally.
Module Arrival.
(** a digest of the right size *)
Definition digest32 (s : string) : string := string_of_list_ascii (take 32 (list_ascii_of_string s ++ replicate 32 "0"%char)).
Lemma digest32_size s : String.length (digest32 s) = 32%nat.
Proof. unfold digest32. rewrite length_bytes, length_take, length_app, length_replicate. lia. Qed.
Definition no_signature (k s : string) (m : bytes) : bool := false.
Definition no_fetch (n : nat) (r c a : string) : Reply jsval := failed None.
Definition no_claim (n : nat) (r c a k : string) : Reply jsval := failed None.
(** the application keeps the text of a message under its identifier *)
Definition keep_text (t : bytes) (i : string) : M (World memory Sample.Talk) (option (list SecureRecordUpdate)) :=
  mret (Some [plain_update "chat" i None (JStr (string_of_list_ascii t))]).
Definition receive (w : World memory Sample.Talk) := receiveUnlocked Tally.alone Tally.sound digest32 no_signature Sample.transport Sample.trusted no_fetch no_claim
  (Some keep_text) (envelope_of "x") (Some Sample.peer) w.
Definition run := receive Sample.world.
Definition id : string := match envelopeIdForEnvelope digest32 Sample.room (envelope_of "x") with Ok i => i | Err _ => "" end.
Definition chat (w : World memory Sample.Talk) : option string := read (disk w) "chat" id.
End Arrival.
(** the message is stored, and when it arrives again it is accepted without a change *)
Lemma arrival_run : Arrival.run.1 = Ok true ∧ Arrival.chat Arrival.run.2 = Some (stringify (JStr (str1 0))) ∧
  (Arrival.receive Arrival.run.2).1 = Ok true ∧ stored_session Sample.room (Arrival.receive Arrival.run.2).2 = Some (Tally.tally 1).
Proof. by vm_compute. Qed.

