(* ===== verification/FileLedger.v ===== *)
(** * The relay's file ledger ([backend/attachments/fileLedger.ts])

    Each account is one document of the [file_ledgers_v2] collection: its transfers, its revision and the ciphertext of
    its chunks. A call runs against a [World]: the database and a counter of the observations made so far. At every
    [await] other calls may change the database ([others]); the clock, the identity registry, the device-trust guard and
    the random identifiers are read by the number of the observation; a request to the database may be lost before it is
    applied, or its reply lost after it was ([fault]). Synchronous code reads the clock once per loop. *)
From stdpp Require Import gmap.
From S2P Require Import Prelude Json RoomMessage Attachments FileProtocol.

(** ** Data *)
Record ChunkInfo := { c_nonce : string; c_bytes : Z }.
#[export] Instance ChunkInfo_eq_dec : EqDecision ChunkInfo.
Proof. solve_decision. Defined.
(* backend/attachments/fileLedger.ts:6-6 StoredFile *)
Record StoredFile := {
  f_context : AttachmentAuthenticatedContext; f_createdAt : Z; f_expiresAt : Z; f_state : FileState;
  f_manifest : option WireObject; reserved : Z; chunks : gmap Z ChunkInfo }.
(* backend/attachments/fileLedger.ts:7-7 FileObjectWrite *)
Record FileObjectWrite := { o_transferId : string; o_index : Z; o_value : WireObject }.
(* backend/attachments/fileLedger.ts:8-8 FileLedger *)
Record FileLedger := { l_id : string; revision : Z; transfers : list StoredFile }.
(* backend/attachments/fileLedger.ts:123-123 MongoLedger *)
Record MongoLedger := { ledger : FileLedger; objects : gmap (string * Z) WireObject; purgeAt : Z }.
Notation DB := (gmap string MongoLedger).
Record World := { db : DB; tick : nat }.
Inductive Fault := served | request_lost | reply_lost.

(* backend/security/authorizationContext.ts:1-1 AttachmentPermission *)
Inductive AttachmentPermission := attachment_create | attachment_write | attachment_read | attachment_delete.
#[export] Instance AttachmentPermission_eq_dec : EqDecision AttachmentPermission.
Proof. solve_decision. Defined.
(* backend/security/authorizationContext.ts:4-17 AuthenticatedContext *)
Record AuthenticatedContext := {
  a_sessionId : string; a_participantId : string; a_conversationId : string; permissions : list AttachmentPermission;
  a_requestId : string; identityReference : option string; accountIdentityReference : option string; a_createdAt : Z;
  a_expiresAt : Z }.
Inductive FileIndex := at_manifest | at_chunk (i : jsnum).

(* backend/attachments/fileLedger.ts:10-10 FileError *)
Definition file_error (category : string) : string := "File transfer: " +:+ category +:+ ".".
(* backend/attachments/fileLedger.ts:11-11 deny *)
Definition deny {S A} : M S A := throw (file_error "authorization").
Definition deny_if {S} (b : bool) : M S unit := lift (throw_if b (file_error "authorization")).
Definition fail_if {S} (b : bool) (category : string) : M S unit := lift (throw_if b (file_error category)).

Definition sorted_keys {A} (m : gmap Z A) : list Z := js_sort (λ a b, a - b) (map_to_list m).*1.
(* backend/attachments/fileLedger.ts:12-12 view *)
Definition view (f : StoredFile) : FileStatus :=
  {| fs_context := f_context f; fs_createdAt := f_createdAt f; fs_expiresAt := f_expiresAt f; fs_state := f_state f;
     indices := sorted_keys (chunks f); fs_manifest := f_manifest f |}.

(** ** Expiry *)
Definition file_id (f : StoredFile) : string := transferId (f_context f).
Definition released (s : FileState) (f : StoredFile) : StoredFile :=
  {| f_context := f_context f; f_createdAt := f_createdAt f; f_expiresAt := f_expiresAt f; f_state := s; f_manifest := None;
     reserved := 0; chunks := ∅ |}.
Definition expire_one (t : Z) (f : StoredFile) : StoredFile := if f_expiresAt f <=? t then released expired f else f.
Definition still_listed (t : Z) (f : StoredFile) : bool := t <? f_expiresAt f + TRANSFER_EXPIRY.
Definition with_transfers (l : FileLedger) (fs : list StoredFile) : FileLedger :=
  {| l_id := l_id l; revision := revision l; transfers := fs |}.
Definition expire_at (t1 t2 : Z) (l : FileLedger) : FileLedger :=
  with_transfers l (List.filter (still_listed t2) (expire_one t1 <$> transfers l)).

(* backend/db/retention.ts:17-21 ledgerPurgeAt *)
Definition ledgerPurgeAt (fs : list StoredFile) (now : Z) : Z :=
  match fs with
  | [] => now
  | f :: fs' => Z.min (foldr Z.max (f_expiresAt f) (f_expiresAt <$> fs') + 24 * 60 * 60 * 1000) (now + 7 * 24 * 60 * 60 * 1000)
  end.

(** ** The collection *)
Definition find_file (id : string) (fs : list StoredFile) : option StoredFile := js_find (λ f, String.eqb (file_id f) id) fs.
(* backend/attachments/fileLedger.ts:128-128 locate *)
Definition locate_in (d : DB) (id : string) : option FileLedger :=
  js_find (λ l, bool_decide (is_Some (find_file id (transfers l)))) (ledger <$> (map_to_list d).*2).
(** the transfers whose objects an update removes *)
Definition unset_ids (before after : list StoredFile) : list string :=
  file_id <$> List.filter (λ old, (0 <? reserved old) &&
    negb (existsb (λ f, String.eqb (file_id f) (file_id old) && (0 <? reserved f)) after)) before.
Definition write_object (o : option FileObjectWrite) (m : gmap (string * Z) WireObject) : gmap (string * Z) WireObject :=
  match o with Some w => <[(o_transferId w, o_index w) := o_value w]> m | None => m end.
(** [updateOne({ _id, revision }, { $set, $unset })]: an update that sets and unsets the same path is refused. *)
Definition update_document (b after : FileLedger) (o : option FileObjectWrite) (purge : Z) (d : DB) : res bool * DB :=
  let gone := unset_ids (transfers b) (transfers after) in
  if match o with Some w => includes gone (o_transferId w) | None => false end
  then (Err "Updating the path would create a conflict", d)
  else match d !! l_id b with
  | Some doc =>
      if negb (revision (ledger doc) =? revision b) then (Ok false, d) else
      (Ok true, <[l_id b := {|
        ledger := {| l_id := l_id b; revision := revision after; transfers := transfers after |};
        objects := filter (λ kv, kv.1.1 ∉ gone) (write_object o (objects doc)); purgeAt := purge |}]> d)
  | None => (Ok false, d)
  end.
Definition insert_document (after : FileLedger) (purge : Z) (d : DB) : res bool * DB :=
  match d !! l_id after with
  | Some _ => (Ok false, d)
  | None => (Ok true, <[l_id after := {| ledger := after; objects := ∅; purgeAt := purge |}]> d)
  end.
Definition write_document (before : option FileLedger) (after : FileLedger) (o : option FileObjectWrite) (purge : Z) : DB → res bool * DB :=
  match before with Some b => update_document b after o purge | None => insert_document after purge end.

Section ledger.
Context (others : nat → DB → DB) (clock : nat → Z) (trust : nat → res unit)
  (identity : nat → string → string → option string) (uuid : nat → string) (fault : nat → Fault).

Definition next (w : World) : World := {| db := db w; tick := S (tick w) |}.
(** A synchronous observation of the environment, by its number. *)
Definition ask {A} (f : nat → A) : M World A := λ w, (Ok (f (tick w)), next w).
Definition now : M World Z := ask clock.
(** An [await] on the environment: other calls run meanwhile. *)
Definition await_ask {A} (f : nat → res A) : M World A :=
  λ w, (f (tick w), {| db := others (tick w) (db w); tick := S (tick w) |}).
(** A request to the database. *)
Definition request {A} (f : DB → res A * DB) : M World A := λ w,
  let d := others (tick w) (db w) in
  match fault (tick w) with
  | served => let '(r, d') := f d in (r, {| db := d'; tick := S (tick w) |})
  | request_lost => (Err "MongoNetworkError", {| db := d; tick := S (tick w) |})
  | reply_lost => (Err "MongoNetworkError", {| db := (f d).2; tick := S (tick w) |})
  end.
Definition query {A} (f : DB → A) : M World A := request (λ d, (Ok (f d), d)).

(* backend/attachments/fileLedger.ts:127-127 read *)
Definition read (account : string) : M World (option FileLedger) := query (λ d, ledger <$> d !! account).
Definition locate (id : string) : M World (option FileLedger) := query (λ d, locate_in d id).
(* backend/attachments/fileLedger.ts:129-133 MongoFileLedgerPersistence.object *)
Definition object (account id : string) (i : Z) : M World (option WireObject) :=
  query (λ d, doc ← d !! account; objects doc !! (id, i)).
(* backend/attachments/fileLedger.ts:134-145 replace *)
Definition replace (before : option FileLedger) (after : FileLedger) (o : option FileObjectWrite) : M World bool :=
  t ← now; request (write_document before after o (ledgerPurgeAt (transfers after) t)).
(* backend/attachments/fileLedger.ts:146-146 accounts *)
Definition accounts : M World (list string) := query (λ d, (map_to_list d).*1).

(** ** The service *)
(* backend/attachments/fileLedger.ts:16-19 expire *)
Definition expire (l : FileLedger) : M World FileLedger := t1 ← now; t2 ← now; mret (expire_at t1 t2 l).
Definition empty_ledger (account : string) : FileLedger := {| l_id := account; revision := 0; transfers := [] |}.
Definition bump (l : FileLedger) : FileLedger := {| l_id := l_id l; revision := revision l + 1; transfers := transfers l |}.
(* backend/attachments/fileLedger.ts:20-29 atomic *)
Fixpoint atomic_attempts {T} (n : nat) (account : string) (change : FileLedger → M World (T * FileLedger))
    (o : option FileObjectWrite) (beforeCommit : M World unit) : M World T :=
  match n with
  | O => throw (file_error "storage")
  | S n' =>
      before ← read account;
      after ← expire (default (empty_ledger account) before);
      '(result, after) ← change after;
      beforeCommit;;
      committed ← replace before (bump after) o;
      if (committed : bool) then mret result else atomic_attempts n' account change o beforeCommit
  end.
Definition atomic {T} := atomic_attempts (T := T) 12.

(* backend/attachments/fileLedger.ts:30-34 revalidate *)
Definition revalidate (auth : AuthenticatedContext) : M World unit :=
  t ← now; deny_if (a_expiresAt auth <=? t);;
  await_ask trust;;
  t ← now; deny_if (a_expiresAt auth <=? t).
Definition present (o : option string) : bool := match o with Some s => nonempty s | None => false end.
(* backend/attachments/fileLedger.ts:35-39 trusted *)
Definition trusted (auth : AuthenticatedContext) (p : AttachmentPermission) : M World unit :=
  t ← now;
  deny_if (negb (present (accountIdentityReference auth)) || (a_expiresAt auth <=? t) || negb (bool_decide (p ∈ permissions auth)));;
  revalidate auth;;
  deny_if (negb (present (identityReference auth)));;
  actual ← await_ask (λ n, Ok (identity n (a_conversationId auth) (a_participantId auth)));
  deny_if (negb (bool_decide (actual = identityReference auth))).
Definition is_sender (auth : AuthenticatedContext) (c : AttachmentAuthenticatedContext) : bool :=
  String.eqb (a_participantId auth) (senderParticipantId c) &&
  bool_decide (identityReference auth = Some (senderIdentityReference c)).
Definition is_recipient (auth : AuthenticatedContext) (c : AttachmentAuthenticatedContext) : bool :=
  String.eqb (a_participantId auth) (recipientParticipantId c) &&
  bool_decide (identityReference auth = Some (recipientIdentityReference c)).
(* backend/attachments/fileLedger.ts:40-46 authorize *)
Definition authorize (auth : AuthenticatedContext) (f : StoredFile) (owner : bool) : M World unit :=
  let c := f_context f in
  deny_if (negb (String.eqb (conversationId c) (a_conversationId auth)));;
  deny_if (if owner then negb (is_sender auth c) else negb (is_sender auth c) && negb (is_recipient auth c)).
(* backend/attachments/fileLedger.ts:101-101 live *)
Definition live (f : StoredFile) : M World unit :=
  t ← now;
  fail_if (bool_decide (f_state f = expired) || (f_expiresAt f <=? t)) "expired";;
  fail_if (bool_decide (f_state f = canceled)) "canceled".

Definition sum_reserved (fs : list StoredFile) : Z := foldr (λ f s, reserved f + s) 0 fs.
Definition is_incomplete (f : StoredFile) : bool := bool_decide (f_state f = incomplete).
Definition within_quota (fs : list StoredFile) (amount : Z) : bool :=
  let active := List.filter is_incomplete fs in
  negb ((MAX_RECORDS <=? Z.of_nat (length fs)) || (MAX_ACTIVE_TRANSFERS <=? Z.of_nat (length active)) ||
        (MAX_STORED_BYTES_PER_USER <? sum_reserved fs + amount) ||
        (MAX_INCOMPLETE_BYTES_PER_USER <? sum_reserved active + amount)).
Definition binding_keys : list string :=
  ["conversationId"; "senderParticipantId"; "recipientParticipantId"; "senderIdentityReference"; "recipientIdentityReference"].
(** [{ ...input.binding, transferId, fileSize, chunkSize, chunkCount }]; a size that is no integer is refused whatever the
    count computed from it. *)
Definition requested_context (binding : list (string * jsval)) (id : string) (size : jsval) : jsval :=
  let count := match size with JNum (NInt z) => JNum (NInt (ceil_div z MAX_CHUNK_SIZE)) | _ => JNum NNaN end in
  JObj (set_key (set_key (set_key (set_key binding "transferId" (JStr id)) "fileSize" size)
    "chunkSize" (JNum (NInt MAX_CHUNK_SIZE))) "chunkCount" count).
Definition limits {A} (r : res A) : M World A := lift (rethrow r (file_error "limits")).
Definition new_file (c : AttachmentAuthenticatedContext) (createdAt : Z) : StoredFile :=
  {| f_context := c; f_createdAt := createdAt; f_expiresAt := createdAt + TRANSFER_EXPIRY; f_state := incomplete;
     f_manifest := None; reserved := reservationBytes (fileSize c) (chunkCount c); chunks := ∅ |}.
Definition create_change (context : AttachmentAuthenticatedContext) (l : FileLedger) : M World (FileStatus * FileLedger) :=
  fail_if (negb (within_quota (transfers l) (reservationBytes (fileSize context) (chunkCount context)))) "quota";;
  createdAt ← now;
  let f := new_file context createdAt in
  mret (view f, with_transfers l (transfers l ++ [f])).
(* backend/attachments/fileLedger.ts:47-64 create *)
Definition create (auth : AuthenticatedContext) (input : jsval) : M World FileStatus :=
  trusted auth attachment_create;;
  fs ← limits (exact input ["version"; "binding"; "fileSize"]);
  binding ← limits (exact (get fs "binding") binding_keys);
  id ← ask uuid;
  fail_if (negb (bool_decide (get fs "version" = JNum (NInt 2)))) "limits";;
  context ← limits (validateFileContext (requested_context binding id (get fs "fileSize")));
  deny_if (negb (String.eqb (conversationId context) (a_conversationId auth)) ||
    negb (String.eqb (senderParticipantId context) (a_participantId auth)) ||
    negb (bool_decide (Some (senderIdentityReference context) = identityReference auth)));;
  actual ← await_ask (λ n, Ok (identity n (conversationId context) (recipientParticipantId context)));
  deny_if (negb (bool_decide (actual = Some (recipientIdentityReference context))));;
  result ← atomic (default "" (accountIdentityReference auth)) (create_change context) None (revalidate auth);
  revalidate auth;;
  mret result.

Definition check_write_expiry (p : AttachmentPermission) (l : FileLedger) (id : string) : M World unit :=
  match find_file id (transfers l) with
  | Some f => if bool_decide (p = attachment_write) then live f else mret tt
  | None => mret tt
  end.
(** [/^[0-9a-f-]{36}$/.test(id)] *)
Definition id_pattern (id : string) : bool := (strlen id =? 36) && forall_chars (λ c, is_hex_lower c || (code c =? 45)) id.
Definition require_or_deny {A} (o : option A) : M World A := lift (require o (file_error "authorization")).
Definition set_file (id : string) (f : StoredFile) (l : FileLedger) : FileLedger :=
  with_transfers l (update_first (λ t, String.eqb (file_id t) id) (λ _, f) (transfers l)).
(** The change [access] makes under every permission but reading. *)
Definition owner_change {T} (auth : AuthenticatedContext) (id : string) (action : StoredFile → string → M World (T * StoredFile))
    (account : string) (current : FileLedger) : M World (T * FileLedger) :=
  f ← require_or_deny (find_file id (transfers current));
  authorize auth f true;;
  '(r, f') ← action f account;
  mret (r, set_file id f' current).
(** [access]: a download reads two snapshots and changes nothing, every other permission goes through [atomic]. The
    action returns its result and the file it leaves. *)
(* backend/attachments/fileLedger.ts:65-100 access *)
Definition access {T} (auth : AuthenticatedContext) (id : string) (p : AttachmentPermission)
    (action : StoredFile → string → M World (T * StoredFile)) (o : option FileObjectWrite) (refreshReadResult : bool) : M World T :=
  trusted auth p;;
  deny_if (negb (id_pattern id));;
  located ← locate id;
  l ← require_or_deny located;
  if bool_decide (p = attachment_read) then
    snapshot ← expire l;
    f ← require_or_deny (find_file id (transfers snapshot));
    authorize auth f false;;
    '(result, _) ← action f (l_id l);
    latest ← read (l_id l);
    latest ← require_or_deny latest;
    checked ← expire latest;
    current ← require_or_deny (find_file id (transfers checked));
    authorize auth current false;;
    revalidate auth;;
    t1 ← now; t2 ← now;
    let current := expire_one t1 current in
    deny_if (negb (still_listed t2 current));;
    if negb refreshReadResult && bool_decide (f_state current = f_state f) then mret result
    else '(again, _) ← action current (l_id l); mret again
  else
    result ← atomic (l_id l) (owner_change auth id action (l_id l)) o (revalidate auth;; check_write_expiry p l id);
    revalidate auth;;
    check_write_expiry p l id;;
    mret result.

Definition status_action (auth : AuthenticatedContext) (f : StoredFile) (_ : string) : M World (FileStatus * StoredFile) :=
  let result := view f in
  mret (if negb (String.eqb (a_participantId auth) (senderParticipantId (f_context f))) && negb (bool_decide (f_state f = available))
        then {| fs_context := fs_context result; fs_createdAt := fs_createdAt result; fs_expiresAt := fs_expiresAt result;
                fs_state := fs_state result; indices := indices result; fs_manifest := None |}
        else result, f).
(* backend/attachments/fileLedger.ts:102-102 status *)
Definition status (auth : AuthenticatedContext) (id : string) : M World FileStatus :=
  access auth id attachment_read (status_action auth) None true.

Definition chunk_length (c : AttachmentAuthenticatedContext) (i : Z) : Z := Z.min (chunkSize c) (fileSize c - i * chunkSize c).
Definition chunk_index (f : StoredFile) (i : jsnum) : option Z :=
  match i with NInt z => if (0 <=? z) && (z <? chunkCount (f_context f)) then Some z else None | _ => None end.
Definition nonce_used (f : StoredFile) (n : string) : bool :=
  match f_manifest f with Some m => String.eqb (w_nonce m) n | None => false end ||
  existsb (λ kv, String.eqb (c_nonce kv.2) n) (map_to_list (chunks f)).
Definition with_manifest (f : StoredFile) (m : WireObject) : StoredFile :=
  {| f_context := f_context f; f_createdAt := f_createdAt f; f_expiresAt := f_expiresAt f; f_state := f_state f;
     f_manifest := Some m; reserved := reserved f; chunks := chunks f |}.
Definition with_chunk (f : StoredFile) (i : Z) (c : ChunkInfo) : StoredFile :=
  {| f_context := f_context f; f_createdAt := f_createdAt f; f_expiresAt := f_expiresAt f; f_state := f_state f;
     f_manifest := f_manifest f; reserved := reserved f; chunks := <[i := c]> (chunks f) |}.
Definition with_state (f : StoredFile) (s : FileState) : StoredFile :=
  {| f_context := f_context f; f_createdAt := f_createdAt f; f_expiresAt := f_expiresAt f; f_state := s;
     f_manifest := f_manifest f; reserved := reserved f; chunks := chunks f |}.
(** The object of a request that [sealed] has accepted. *)
Definition wire_of (v : jsval) : WireObject :=
  {| w_nonce := default "" (as_str (oprop v "nonce")); w_ciphertext := default "" (as_str (oprop v "ciphertext")) |}.
(** What [put] does to a live file with the object of an index in range: [store] records it. *)
Definition put_object (f : StoredFile) (existing : option WireObject) (w : WireObject) (store : StoredFile → StoredFile)
    : M World (FileStatus * StoredFile) :=
  match existing with
  | Some e =>
      fail_if (negb (String.eqb (w_nonce e) (w_nonce w)) || negb (String.eqb (w_ciphertext e) (w_ciphertext w))) "conflict";;
      mret (view f, f)
  | None =>
      fail_if (negb (is_incomplete f)) "conflict";;
      fail_if (nonce_used f (w_nonce w)) "conflict";;
      mret (view (store f), store f)
  end.
Definition put_manifest (value : jsval) (f : StoredFile) (_ : string) : M World (FileStatus * StoredFile) :=
  live f;;
  limits (FileProtocol.sealed value MAX_METADATA_SIZE);;
  put_object f (f_manifest f) (wire_of value) (λ f, with_manifest f (wire_of value)).
Definition put_chunk (n : jsnum) (value : jsval) (id : string) (f : StoredFile) (account : string) : M World (FileStatus * StoredFile) :=
  live f;;
  i ← lift (require (chunk_index f n) (file_error "limits"));
  let max := chunk_length (f_context f) i + 16 in
  s ← limits (FileProtocol.sealed value max);
  fail_if (negb (blen (ciphertext s) =? max)) "limits";;
  existing ← (if bool_decide (is_Some (chunks f !! i)) then object account id i else mret None);
  put_object f existing (wire_of value) (λ f, with_chunk f i {| c_nonce := w_nonce (wire_of value); c_bytes := max |}).
Definition chunk_write (n : jsnum) (value : jsval) (id : string) : option FileObjectWrite :=
  match n with NInt i => Some {| o_transferId := id; o_index := i; o_value := wire_of value |} | _ => None end.
(* backend/attachments/fileLedger.ts:103-117 put *)
Definition put (auth : AuthenticatedContext) (id : string) (index : FileIndex) (value : jsval) : M World FileStatus :=
  match index with
  | at_manifest => access auth id attachment_write (put_manifest value) None false
  | at_chunk n => access auth id attachment_write (put_chunk n value id) (chunk_write n value id) false
  end.
Definition complete_action (f : StoredFile) (_ : string) : M World (FileStatus * StoredFile) :=
  live f;;
  let n := chunkCount (f_context f) in
  fail_if (negb (bool_decide (is_Some (f_manifest f))) || negb (Z.of_nat (size (chunks f)) =? n) ||
    existsb (λ i, bool_decide (chunks f !! i = None)) (seqZ 0 n)) "incomplete";;
  let f' := with_state f available in
  mret (view f', f').
(* backend/attachments/fileLedger.ts:118-118 complete *)
Definition complete (auth : AuthenticatedContext) (id : string) : M World FileStatus :=
  access auth id attachment_write complete_action None false.
Definition chunk_action (auth : AuthenticatedContext) (id : string) (n : jsnum) (f : StoredFile) (account : string)
    : M World (WireObject * StoredFile) :=
  live f;;
  deny_if (negb (String.eqb (a_participantId auth) (recipientParticipantId (f_context f))));;
  fail_if (negb (bool_decide (f_state f = available))) "incomplete";;
  i ← lift (require (i ← chunk_index f n; chunks f !! i;; mret i) (file_error "limits"));
  found ← object account id i;
  w ← lift (require found (file_error "storage"));
  mret (w, f).
(* backend/attachments/fileLedger.ts:119-119 chunk *)
Definition chunk (auth : AuthenticatedContext) (id : string) (n : jsnum) : M World WireObject :=
  access auth id attachment_read (chunk_action auth id n) None false.
Definition cancel_action (f : StoredFile) (_ : string) : M World (FileStatus * StoredFile) :=
  let f' := released (if bool_decide (f_state f = expired) then expired else canceled) f in
  mret (view f', f').
(* backend/attachments/fileLedger.ts:120-120 cancel *)
Definition cancel (auth : AuthenticatedContext) (id : string) : M World FileStatus :=
  access auth id attachment_delete cancel_action None false.
Fixpoint cleanup_accounts (l : list string) : M World unit :=
  match l with
  | [] => mret tt
  | a :: l' => atomic a (λ l, mret (tt, l)) None (mret tt);; cleanup_accounts l'
  end.
(* backend/attachments/fileLedger.ts:121-121 cleanup *)
Definition cleanup : M World unit := l ← accounts; cleanup_accounts l.
End ledger.

(** ** The contract: what a committed change may do to the files of an account *)
Definition valid_context (c : AttachmentAuthenticatedContext) : Prop :=
  (∃ b, encodeAttachmentContext manifest_object c None = Ok b) ∧
  fileSize c <= MAX_FILE_SIZE ∧ chunkSize c = MAX_CHUNK_SIZE ∧ chunkCount c <= MAX_CHUNK_COUNT.
(** An object whose ciphertext has at most [n] bytes, and one of exactly [n] bytes. *)
Definition wire_within (w : WireObject) (n : Z) : Prop :=
  strlen (w_nonce w) <= 16 ∧ ∃ v, unb64 (w_ciphertext w) n = Ok v ∧ 16 <= blen v <= n.
Definition wire_exact (w : WireObject) (n : Z) : Prop := wire_within w n ∧ ∃ v, unb64 (w_ciphertext w) n = Ok v ∧ blen v = n.
Definition complete_file (f : StoredFile) : Prop :=
  is_Some (f_manifest f) ∧ ∀ i, 0 <= i < chunkCount (f_context f) → is_Some (chunks f !! i).

(** [known] are the identifiers the stored document lists, aged-out transfers included. *)
Inductive change_step (objs : gmap (string * Z) WireObject) (known : list string) (fs : list StoredFile) : list StoredFile → option FileObjectWrite → Prop :=
| change_none : change_step objs known fs fs None
| change_again id i w f :
    find_file id fs = Some f → is_Some (chunks f !! i) → objs !! (id, i) = Some w →
    change_step objs known fs fs (Some {| o_transferId := id; o_index := i; o_value := w |})
| change_create c t :
    valid_context c → transferId c ∉ known → within_quota fs (reservationBytes (fileSize c) (chunkCount c)) = true →
    change_step objs known fs (fs ++ [new_file c t]) None
| change_manifest id f w :
    find_file id fs = Some f → f_state f = incomplete → f_manifest f = None → nonce_used f (w_nonce w) = false →
    wire_within w MAX_METADATA_SIZE →
    change_step objs known fs (update_first (λ t, String.eqb (file_id t) id) (λ _, with_manifest f w) fs) None
| change_chunk id f i w n :
    find_file id fs = Some f → f_state f = incomplete → chunks f !! i = None → nonce_used f (w_nonce w) = false →
    0 <= i < chunkCount (f_context f) → n = chunk_length (f_context f) i + 16 → wire_exact w n →
    change_step objs known fs (update_first (λ t, String.eqb (file_id t) id) (λ _, with_chunk f i {| c_nonce := w_nonce w; c_bytes := n |}) fs)
      (Some {| o_transferId := id; o_index := i; o_value := w |})
| change_complete id f :
    find_file id fs = Some f → (f_state f = incomplete ∨ f_state f = available) → complete_file f →
    change_step objs known fs (update_first (λ t, String.eqb (file_id t) id) (λ _, with_state f available) fs) None
| change_cancel id f s :
    find_file id fs = Some f → s = (if bool_decide (f_state f = expired) then expired else canceled) →
    change_step objs known fs (update_first (λ t, String.eqb (file_id t) id) (λ _, released s f) fs) None.

Definition next_ledger (a : string) (l : FileLedger) (fs : list StoredFile) : FileLedger :=
  {| l_id := a; revision := revision l + 1; transfers := fs |}.
Inductive commit (d : DB) : DB → Prop :=
| commit_update a doc t1 t2 fs o purge d' :
    d !! a = Some doc → change_step (objects doc) (file_id <$> transfers (ledger doc)) (transfers (expire_at t1 t2 (ledger doc))) fs o →
    update_document (ledger doc) (next_ledger a (ledger doc) fs) o purge d = (Ok true, d') → commit d d'
| commit_insert a fs o purge d' :
    d !! a = None → change_step ∅ [] [] fs o →
    insert_document (next_ledger a (empty_ledger a) fs) purge d = (Ok true, d') → commit d d'.
(** Between calls the collection's TTL index may also delete a document. *)
Inductive ledger_step (d : DB) : DB → Prop :=
| step_commit d' : commit d d' → ledger_step d d'
| step_purge a : ledger_step d (delete a d).

(** ** The invariant of an account *)
Definition file_ok (objs : gmap (string * Z) WireObject) (f : StoredFile) : Prop :=
  valid_context (f_context f) ∧
  match f_state f with
  | incomplete | available => reserved f = reservationBytes (fileSize (f_context f)) (chunkCount (f_context f))
  | canceled | expired => reserved f = 0 ∧ chunks f = ∅ ∧ f_manifest f = None
  end ∧
  (f_state f = available → complete_file f) ∧
  (∀ m, f_manifest f = Some m → wire_within m MAX_METADATA_SIZE) ∧
  (∀ i c, chunks f !! i = Some c → 0 <= i < chunkCount (f_context f) ∧ c_bytes c = chunk_length (f_context f) i + 16 ∧
     ∃ w, objs !! (file_id f, i) = Some w ∧ w_nonce w = c_nonce c ∧ wire_exact w (c_bytes c)) ∧
  (∀ i j c c', chunks f !! i = Some c → chunks f !! j = Some c' → c_nonce c = c_nonce c' → i = j) ∧
  (∀ m i c, f_manifest f = Some m → chunks f !! i = Some c → w_nonce m ≠ c_nonce c).
Definition quotas (fs : list StoredFile) : Prop :=
  Z.of_nat (length fs) <= MAX_RECORDS ∧ Z.of_nat (length (List.filter is_incomplete fs)) <= MAX_ACTIVE_TRANSFERS ∧
  sum_reserved fs <= MAX_STORED_BYTES_PER_USER.
Definition files_ok (objs : gmap (string * Z) WireObject) (fs : list StoredFile) : Prop :=
  NoDup (file_id <$> fs) ∧ quotas fs ∧ Forall (file_ok objs) fs.
(** Every stored object belongs to a file that still reserves room for it. *)
Definition no_orphans (objs : gmap (string * Z) WireObject) (fs : list StoredFile) : Prop :=
  ∀ id i, is_Some (objs !! (id, i)) → ∃ f, f ∈ fs ∧ file_id f = id ∧ 0 < reserved f ∧ is_Some (chunks f !! i).
Definition doc_ok (a : string) (doc : MongoLedger) : Prop :=
  l_id (ledger doc) = a ∧ files_ok (objects doc) (transfers (ledger doc)) ∧ no_orphans (objects doc) (transfers (ledger doc)).
Definition good (d : DB) : Prop := map_Forall doc_ok d.

(** ** Files and quotas *)
Lemma reservation_bounds c : valid_context c → 1 <= chunkCount c <= 32 ∧ 1 <= fileSize c ∧ 0 < reservationBytes (fileSize c) (chunkCount c).
Proof.
  intros ((b & Hb) & Hs & _ & Hc). apply encode_context_frame in Hb as [_ _ _ _ _ _ _ _ (H1 & _ & _ & H2)].
  unfold MAX_CHUNK_COUNT in Hc. split; [lia|]. split; [lia|]. unfold reservationBytes, ceil_div.
  assert (- ((fileSize c + chunkCount c * 16) * 4) / 3 <= 0) by (apply Z.div_le_upper_bound; lia). lia.
Qed.

Lemma released_ok objs f s : valid_context (f_context f) → (s = canceled ∨ s = expired) → file_ok objs (released s f).
Proof.
  intros Hv Hs. unfold file_ok. cbn [released f_context f_state reserved chunks f_manifest].
  assert (s ≠ available) as Hna by (by destruct Hs as [-> | ->]).
  split_and!; try done. by destruct Hs as [-> | ->].
Qed.

Lemma file_ok_context objs f : file_ok objs f → valid_context (f_context f).
Proof. by intros [H _]. Qed.

Lemma file_ok_reserved objs f : file_ok objs f → 0 <= reserved f.
Proof.
  intros (Hc & Hr & _). apply reservation_bounds in Hc. destruct (f_state f); lia.
Qed.

(** A file without reservation stores nothing. *)
Lemma unreserved objs f : file_ok objs f → ¬ 0 < reserved f → chunks f = ∅.
Proof. intros (Hc & Hr & _) Hn. apply reservation_bounds in Hc. destruct (f_state f); try lia; tauto. Qed.

Lemma expire_one_ok objs t f : file_ok objs f → file_ok objs (expire_one t f).
Proof.
  intros H. unfold expire_one. case_if; [|done]. apply released_ok; [by eapply file_ok_context|by right].
Qed.

Lemma expire_one_id t f : file_id (expire_one t f) = file_id f.
Proof. unfold expire_one. by case_if. Qed.
Lemma expire_one_incomplete t f : is_incomplete (expire_one t f) = true → is_incomplete f = true.
Proof. unfold expire_one, is_incomplete. by case_if. Qed.
Lemma expire_one_reserved objs t f : file_ok objs f → 0 <= reserved (expire_one t f) <= reserved f.
Proof. intros H. pose proof (file_ok_reserved _ _ H). unfold expire_one. case_if; cbn; lia. Qed.

Lemma sum_app fs gs : sum_reserved (fs ++ gs) = sum_reserved fs + sum_reserved gs.
Proof. unfold sum_reserved. induction fs as [|f fs IH]; cbn [app foldr]; [done|]. rewrite IH. lia. Qed.

Lemma sum_nonneg objs fs : Forall (file_ok objs) fs → 0 <= sum_reserved fs.
Proof.
  unfold sum_reserved. induction 1 as [|f fs Hf _ IH]; cbn [foldr]; [lia|]. apply file_ok_reserved in Hf. lia.
Qed.

Lemma expire_quotas objs t1 t2 fs : Forall (file_ok objs) fs → quotas fs → quotas (List.filter (still_listed t2) (expire_one t1 <$> fs)).
Proof.
  intros Hok (Hn & Ha & Hr). unfold quotas.
  assert (Z.of_nat (length (List.filter (still_listed t2) (expire_one t1 <$> fs))) <= Z.of_nat (length fs) ∧
    Z.of_nat (length (List.filter is_incomplete (List.filter (still_listed t2) (expire_one t1 <$> fs)))) <=
      Z.of_nat (length (List.filter is_incomplete fs)) ∧
    sum_reserved (List.filter (still_listed t2) (expire_one t1 <$> fs)) <= sum_reserved fs) as H; [|lia].
  clear Hn Ha Hr. unfold sum_reserved. induction Hok as [|f fs Hf Hok IH]; [done|].
  rewrite fmap_cons. cbn [List.filter]. pose proof (expire_one_incomplete t1 f) as Hi. pose proof (expire_one_reserved objs t1 f Hf) as Hr.
  destruct (still_listed t2 (expire_one t1 f)); cbn [List.filter foldr length];
    destruct (is_incomplete (expire_one t1 f)), (is_incomplete f); cbn [length]; try lia; discriminate (Hi eq_refl).
Qed.

Lemma expire_files objs t1 t2 fs : files_ok objs fs → files_ok objs (List.filter (still_listed t2) (expire_one t1 <$> fs)).
Proof.
  intros (Hnd & Hq & Hok). split_and!.
  - assert (file_id <$> (expire_one t1 <$> fs) = file_id <$> fs) as E.
    { rewrite <-list_fmap_compose. apply list_fmap_ext. intros ? f _. apply expire_one_id. }
    rewrite <-E in Hnd. eapply sublist_NoDup; [exact Hnd|]. apply fmap_sublist, filter_sublist.
  - by eapply expire_quotas.
  - eapply Forall_sublist; [apply filter_sublist|]. apply Forall_fmap. eapply Forall_impl; [exact Hok|]. intros f. apply expire_one_ok.
Qed.

(** Replacing one file of an account by another state of it. *)
Lemma replace_file objs objs' l1 f l2 g :
  files_ok objs (l1 ++ f :: l2) → file_id g = file_id f → (is_incomplete g = true → is_incomplete f = true) →
  reserved g <= reserved f → file_ok objs' g → (∀ x, file_id x ≠ file_id f → file_ok objs x → file_ok objs' x) →
  files_ok objs' (l1 ++ g :: l2).
Proof.
  intros (Hnd & (Hn & Ha & Hr) & Hok) Hid Hinc Hres Hg Hx. split_and!; [| split_and! |].
  - rewrite fmap_app, fmap_cons in Hnd |- *. by rewrite Hid.
  - rewrite length_app in *. done.
  - rewrite List.filter_app in *. cbn [List.filter] in *. rewrite length_app in *.
    destruct (is_incomplete g), (is_incomplete f); cbn [length] in *; lia || discriminate (Hinc eq_refl).
  - rewrite sum_app in *. unfold sum_reserved in *. cbn [foldr] in *. lia.
  - rewrite fmap_app, fmap_cons in Hnd. apply NoDup_app in Hnd as (_ & Hd & Hnd). apply NoDup_cons in Hnd as [Hf _].
    rewrite Forall_app, Forall_cons in *. destruct Hok as (H1 & _ & H2). split_and!; [|done|].
    + apply Forall_forall. intros x Hin. rewrite Forall_forall in H1. apply Hx; [|by apply H1].
      intros E. eapply Hd; [apply list_elem_of_fmap_2; exact Hin|]. rewrite E. set_solver.
    + apply Forall_forall. intros x Hin. rewrite Forall_forall in H2. apply Hx; [|by apply H2].
      intros E. apply Hf. rewrite <-E. by apply list_elem_of_fmap_2.
Qed.

Lemma find_file_spec id fs f g : find_file id fs = Some f →
  ∃ l1 l2, fs = l1 ++ f :: l2 ∧ update_first (λ t, String.eqb (file_id t) id) (λ _, g) fs = l1 ++ g :: l2 ∧ file_id f = id.
Proof.
  intros H. destruct (update_first_spec _ (λ _, g) _ _ H) as (l1 & l2 & E1 & E2 & _ & Hf & _).
  exists l1, l2. split_and!; [done|done|by apply String.eqb_eq in Hf].
Qed.

Lemma file_ok_write o objs x : (∀ w, o = Some w → o_transferId w ≠ file_id x) → file_ok objs x → file_ok (write_object o objs) x.
Proof.
  intros Hne (H1 & H2 & H3 & H4 & H5 & H6 & H7). split_and!; try done. intros i c Hi.
  destruct (H5 i c Hi) as (Hb & Hl & w & Hw & Hn & He). split_and!; try done; try lia. exists w. split_and!; try done.
  destruct o as [v|]; [|done]. cbn. rewrite lookup_insert_ne; [done|]. intros [= E _]. by apply (Hne v).
Qed.

Lemma files_ok_elem objs fs f : files_ok objs fs → f ∈ fs → file_ok objs f.
Proof. intros (_ & _ & H) Hin. rewrite Forall_forall in H. by apply H. Qed.

Lemma find_file_elem id fs f : find_file id fs = Some f → f ∈ fs ∧ file_id f = id.
Proof. intros (l1 & l2 & -> & _ & H)%(find_file_spec _ _ _ f). split; [set_solver|done]. Qed.

Lemma with_manifest_ok objs f w :
  file_ok objs f → f_manifest f = None → f_state f = incomplete → nonce_used f (w_nonce w) = false → wire_within w MAX_METADATA_SIZE →
  file_ok objs (with_manifest f w).
Proof.
  intros (H1 & H2 & H3 & H4 & H5 & H6 & H7) Hm Hs Hn Hw. unfold nonce_used in Hn. rewrite Hm in Hn. cbn [orb] in Hn.
  split_and!; cbn [with_manifest f_context f_state reserved chunks f_manifest]; try done.
  - by rewrite Hs in *.
  - congruence.
  - by intros m [= <-].
  - intros m i c [= <-] Hi E. assert (existsb (λ kv, String.eqb (c_nonce kv.2) (w_nonce w)) (map_to_list (chunks f)) = true); [|congruence].
    apply existsb_exists. exists (i, c). split; [by apply list_elem_of_In, elem_of_map_to_list|]. cbn [snd]. by rewrite E, String.eqb_refl.
Qed.

Lemma with_chunk_ok objs f i w n :
  file_ok objs f → f_state f = incomplete → chunks f !! i = None → nonce_used f (w_nonce w) = false →
  0 <= i < chunkCount (f_context f) → n = chunk_length (f_context f) i + 16 → wire_exact w n →
  file_ok (write_object (Some {| o_transferId := file_id f; o_index := i; o_value := w |}) objs)
    (with_chunk f i {| c_nonce := w_nonce w; c_bytes := n |}).
Proof.
  intros (H1 & H2 & H3 & H4 & H5 & H6 & H7) Hs Hnone Hn Hi -> Hw. apply orb_false_iff in Hn as [Hnm Hnc].
  assert (∀ j c, chunks f !! j = Some c → c_nonce c ≠ w_nonce w) as Hfresh.
  { intros j c Hj E. assert (existsb (λ kv, String.eqb (c_nonce kv.2) (w_nonce w)) (map_to_list (chunks f)) = true); [|congruence].
    apply existsb_exists. exists (j, c). split; [by apply list_elem_of_In, elem_of_map_to_list|]. cbn [snd]. by rewrite E, String.eqb_refl. }
  split_and!; cbn [with_chunk f_context f_state reserved chunks f_manifest write_object o_transferId o_index o_value]; try done.
  - by rewrite Hs in *.
  - congruence.
  - intros j c. rewrite lookup_insert. case_decide as E; [subst j; intros [= <-]|intros Hj].
    + cbn [c_bytes c_nonce]. split_and!; try lia. exists w. rewrite lookup_insert. by rewrite decide_True.
    + destruct (H5 j c Hj) as (Hb & Hl & v & Hv & Hvn & He). split_and!; try done; try lia. exists v. split_and!; try done.
      rewrite lookup_insert_ne; [done|]. by intros [= ?].
  - intros j k c c'. rewrite !lookup_insert. do 2 case_decide; subst; try done.
    + intros [= <-] Hk E. cbn in E. by destruct (Hfresh k c').
    + intros Hj [= <-] E. cbn in E. by destruct (Hfresh j c).
    + apply H6.
  - intros m j c Hm. rewrite lookup_insert. case_decide; [subst; intros [= <-]|by apply H7]. cbn [c_nonce].
    rewrite Hm in Hnm. by apply String.eqb_neq in Hnm.
Qed.

Lemma file_state_ok objs f : file_ok objs f → (f_state f = incomplete ∨ f_state f = available) → complete_file f →
  file_ok objs (with_state f available).
Proof.
  intros (H1 & H2 & H3 & H4 & H5 & H6 & H7) Hs Hc. split_and!; cbn [with_state f_context f_state reserved chunks f_manifest]; try done.
  by destruct Hs as [Hs | Hs]; rewrite Hs in H2.
Qed.

Lemma new_file_ok objs c t : valid_context c → file_ok objs (new_file c t).
Proof. intros Hc. split_and!; cbn [new_file f_context f_state reserved chunks f_manifest]; done. Qed.

Lemma change_files_ok objs known fs fs' o : change_step objs known fs fs' o → (∀ f, f ∈ fs → file_id f ∈ known) → files_ok objs fs → files_ok (write_object o objs) fs'.
Proof.
  intros Hc Hk Hok. destruct Hc as [|id i w f Hf Hi Ho|c t Hv Hid Hq|id f w Hf Hs Hm Hn Hw|id f i w n Hf Hs Hi Hn Hr Hb Hw|id f Hf Hs Hc|id f s Hf Hs].
  - done.
  - cbn [write_object o_transferId o_index o_value]. by rewrite insert_id.
  - destruct Hok as (Hnd & (Hn & Ha & Hr) & Hfs). unfold within_quota in Hq. bool_prop. destruct Hq as [[[Q1 Q2] Q3] Q4].
    split_and!; [| split_and! |].
    + rewrite fmap_app. apply NoDup_app. split_and!; [done| |apply NoDup_singleton]. intros x Hx Hx'.
      apply list_elem_of_singleton in Hx'. subst x. apply list_elem_of_fmap in Hx as (f & E & Hf). apply Hid.
      change (transferId c) with (file_id (new_file c t)). rewrite E. by apply Hk.
    + rewrite length_app. simpl. lia.
    + rewrite List.filter_app, length_app. simpl. lia.
    + rewrite sum_app. unfold sum_reserved at 2. cbn [foldr new_file reserved]. lia.
    + apply Forall_app. split; [done|]. apply Forall_singleton, new_file_ok, Hv.
  - destruct (find_file_spec _ _ _ (with_manifest f w) Hf) as (l1 & l2 & E1 & -> & Hid). rewrite E1 in Hok.
    eapply replace_file; try done. apply with_manifest_ok; try done. eapply files_ok_elem; [done|set_solver].
  - destruct (find_file_spec _ _ _ (with_chunk f i {| c_nonce := w_nonce w; c_bytes := n |}) Hf) as (l1 & l2 & E1 & -> & Hid).
    rewrite E1 in Hok. subst id. eapply replace_file; try done.
    + apply with_chunk_ok; try done. eapply files_ok_elem; [done|set_solver].
    + intros x Hx. apply file_ok_write. by intros v [= <-].
  - destruct (find_file_spec _ _ _ (with_state f available) Hf) as (l1 & l2 & E1 & -> & Hid). rewrite E1 in Hok.
    eapply replace_file; try done. apply file_state_ok; try done. eapply files_ok_elem; [done|set_solver].
  - destruct (find_file_spec _ _ _ (released s f) Hf) as (l1 & l2 & E1 & -> & Hid). rewrite E1 in Hok.
    assert (file_ok objs f) as Hfo by (eapply files_ok_elem; [done|set_solver]).
    assert (s = canceled ∨ s = expired) as Hcs by (subst s; case_match; auto).
    eapply replace_file; try done; cbn [released reserved].
    + destruct Hcs as [-> | ->]; done.
    + by eapply file_ok_reserved.
    + apply released_ok; [by eapply file_ok_context|done].
Qed.

(** ** How a file evolves *)
Definition rank (s : FileState) : Z := match s with incomplete => 0 | available => 1 | canceled => 2 | expired => 3 end.
(** The identity and the validity of a file never change, its state only advances, and until it is released its chunks
    and manifest are only added, and not even that once it is available. *)
Definition file_evolves (f g : StoredFile) : Prop :=
  f_context g = f_context f ∧ f_createdAt g = f_createdAt f ∧ f_expiresAt g = f_expiresAt f ∧
  rank (f_state f) <= rank (f_state g) ∧ reserved g <= reserved f ∧
  (0 < reserved g → chunks f ⊆ chunks g ∧ (∀ m, f_manifest f = Some m → f_manifest g = Some m)) ∧
  (0 < reserved g → f_state f = available → chunks g = chunks f ∧ f_manifest g = f_manifest f ∧ f_state g = available).
#[export] Instance file_evolves_preorder : PreOrder file_evolves.
Proof.
  split; [by intros f; split_and!|]. intros f g h (C1 & C2 & C3 & C4 & C5 & C6 & C7) (D1 & D2 & D3 & D4 & D5 & D6 & D7).
  split_and!; try congruence; try lia.
  - intros Hr. destruct (D6 Hr) as [Hc Hm], C6 as [Hc' Hm']; [lia|]. split; [by etrans|]. naive_solver.
  - intros Hr Hs. destruct C7 as (E1 & E2 & E3); [lia|done|]. destruct D7 as (F1 & F2 & F3); [done|done|]. split_and!; congruence.
Qed.

Lemma released_evolves objs f s : file_ok objs f → rank (f_state f) <= rank s → file_evolves f (released s f).
Proof.
  intros H%file_ok_reserved Hr. split_and!; cbn [released f_context f_createdAt f_expiresAt f_state reserved]; try done; lia.
Qed.

Lemma expire_one_evolves objs t f : file_ok objs f → file_evolves f (expire_one t f).
Proof.
  intros H. unfold expire_one. case_if; [|done]. eapply released_evolves; [done|]. by destruct (f_state f).
Qed.

Lemma unique_id fs x y : NoDup (file_id <$> fs) → x ∈ fs → y ∈ fs → file_id x = file_id y → x = y.
Proof.
  induction fs as [|f fs IH]; [set_solver|]. rewrite fmap_cons, NoDup_cons, !elem_of_cons. intros [Hf Hnd] [->|Hx] [->|Hy] E; auto.
  - destruct Hf. rewrite E. by apply list_elem_of_fmap_2.
  - destruct Hf. rewrite <-E. by apply list_elem_of_fmap_2.
Qed.

Definition evolve (fs gs : list StoredFile) : Prop := ∀ x y, x ∈ fs → y ∈ gs → file_id x = file_id y → file_evolves x y.

Lemma evolve_refl fs : NoDup (file_id <$> fs) → evolve fs fs.
Proof. intros Hnd x y Hx Hy E. by rewrite (unique_id fs x y). Qed.

(** Whatever replaces [f] in the change of an account is what [f] has become. *)
Lemma replaced_evolves l1 f l2 g :
  NoDup (file_id <$> l1 ++ f :: l2) → file_evolves f g → evolve (l1 ++ f :: l2) (l1 ++ g :: l2).
Proof.
  intros Hnd Hfg x y Hx Hy E. assert (file_id g = file_id f) as Hg by (unfold file_id; by rewrite (proj1 Hfg)).
  apply elem_of_app in Hy. rewrite elem_of_cons in Hy. destruct Hy as [Hy|[->|Hy]].
  - rewrite (unique_id _ x y Hnd Hx); [done|set_solver|done].
  - rewrite (unique_id _ x f Hnd Hx); [done|set_solver|congruence].
  - rewrite (unique_id _ x y Hnd Hx); [done|set_solver|done].
Qed.

Lemma expire_elem t1 t2 fs y : y ∈ List.filter (still_listed t2) (expire_one t1 <$> fs) → ∃ x, x ∈ fs ∧ y = expire_one t1 x.
Proof.
  intros H. apply list_elem_of_In, filter_In in H as [H _]. apply list_elem_of_In, list_elem_of_fmap in H as (x & -> & Hx). by exists x.
Qed.

Lemma expire_evolves objs t1 t2 fs : files_ok objs fs → evolve fs (List.filter (still_listed t2) (expire_one t1 <$> fs)).
Proof.
  intros Hok x y Hx (z & Hz & ->)%expire_elem E. rewrite expire_one_id in E.
  rewrite (unique_id fs x z) by (done || apply Hok). eapply expire_one_evolves, files_ok_elem; done.
Qed.

Lemma change_evolves objs known fs fs' o : change_step objs known fs fs' o → (∀ f, f ∈ fs → file_id f ∈ known) → files_ok objs fs → evolve fs fs'.
Proof.
  intros Hc Hk Hok. pose proof (proj1 Hok) as Hnd.
  destruct Hc as [|id i w f Hf Hi Ho|c t Hv Hid Hq|id f w Hf Hs Hm Hn Hw|id f i w n Hf Hs Hi Hn Hr Hb Hw|id f Hf Hs Hc|id f s Hf Hs];
    try by apply evolve_refl.
  - intros x y Hx Hy E. apply elem_of_app in Hy as [Hy|Hy]; [by rewrite (unique_id fs x y)|].
    apply list_elem_of_singleton in Hy as ->. destruct Hid. change (transferId c) with (file_id (new_file c t)). rewrite <-E. by apply Hk.
  - destruct (find_file_spec _ _ _ (with_manifest f w) Hf) as (l1 & l2 & E1 & -> & Hid). rewrite E1 in *.
    apply replaced_evolves; [done|]. split_and!; cbn; try done; [|congruence].
    intros _. split; [done|]. congruence.
  - destruct (find_file_spec _ _ _ (with_chunk f i {| c_nonce := w_nonce w; c_bytes := n |}) Hf) as (l1 & l2 & E1 & -> & Hid).
    rewrite E1 in *. apply replaced_evolves; [done|]. split_and!; cbn; try done; [|congruence].
    intros _. split; [|done]. by apply insert_subseteq.
  - destruct (find_file_spec _ _ _ (with_state f available) Hf) as (l1 & l2 & E1 & -> & Hid). rewrite E1 in *.
    apply replaced_evolves; [done|]. split_and!; cbn; try done. by destruct Hs as [-> | ->].
  - destruct (find_file_spec _ _ _ (released s f) Hf) as (l1 & l2 & E1 & -> & Hid). rewrite E1 in *.
    apply replaced_evolves; [done|]. eapply released_evolves; [eapply files_ok_elem; [exact Hok|set_solver]|].
    subst s. by destruct (f_state f).
Qed.

(** ** Commits preserve the invariant *)
Lemma unset_spec before after id : id ∈ unset_ids before after ↔
  ∃ old, old ∈ before ∧ file_id old = id ∧ 0 < reserved old ∧ ∀ g, g ∈ after → file_id g = id → ¬ 0 < reserved g.
Proof.
  unfold unset_ids. rewrite list_elem_of_fmap. split.
  - intros (old & -> & H). apply list_elem_of_In, filter_In in H as [Hin [Hr Hn]%andb_true_iff]. exists old.
    split_and!; [by apply list_elem_of_In|done|lia|]. intros g Hg E Hp.
    assert (existsb (λ f, String.eqb (file_id f) (file_id old) && (0 <? reserved f)) after = true) as Hx; [|by rewrite Hx in Hn].
    apply existsb_exists. exists g. split; [by apply list_elem_of_In|]. rewrite E, String.eqb_refl. lia.
  - intros (old & Hin & <- & Hr & Hn). exists old. split; [done|]. apply list_elem_of_In, filter_In. split; [by apply list_elem_of_In|].
    apply andb_true_iff. split; [lia|]. apply negb_true_iff. destruct (existsb _ after) eqn:E; [|done].
    apply existsb_exists in E as (g & Hg & [E Hp]%andb_true_iff). apply String.eqb_eq in E.
    destruct (Hn g); [by apply list_elem_of_In|done|lia].
Qed.

Lemma includes_elem l x : includes l x = true ↔ x ∈ l.
Proof.
  unfold includes. rewrite existsb_exists. setoid_rewrite String.eqb_eq. split; [intros (y & H & ->); by apply list_elem_of_In|].
  intros H. exists x. by split; [apply list_elem_of_In|].
Qed.

(** Removing the objects of released files leaves the others what they were. *)
Lemma unset_files_ok objs fs (gone : list string) :
  files_ok objs fs → (∀ f, f ∈ fs → 0 < reserved f → file_id f ∉ gone) → files_ok (filter (λ kv, kv.1.1 ∉ gone) objs) fs.
Proof.
  intros (Hnd & Hq & Hok) Hg. split_and!; [done|apply Hq..|]. apply Forall_forall. intros f Hf. rewrite Forall_forall in Hok.
  pose proof (Hok f Hf) as H. pose proof (Hg f Hf) as Hgf. pose proof (unreserved objs f H) as Hu.
  destruct H as (H1 & H2 & H3 & H4 & H5 & H6 & H7). split_and!; try done. intros i c Hi.
  destruct (H5 i c Hi) as (Hb & Hl & w & Hw & Hn & He). split_and!; try done; try lia. exists w. split_and!; try done.
  apply map_lookup_filter_Some. split; [done|]. cbn. apply Hgf. destruct (decide (0 < reserved f)); [done|].
  rewrite Hu in Hi by done. by rewrite lookup_empty in Hi.
Qed.

(** The object a change writes is the object of one of its chunks. *)
Lemma change_writes objs known fs fs' w : change_step objs known fs fs' (Some w) → files_ok objs fs →
  ∃ g, g ∈ fs' ∧ file_id g = o_transferId w ∧ 0 < reserved g ∧ is_Some (chunks g !! o_index w).
Proof.
  intros Hc Hok. inversion Hc as [|id i v f Hf Hi Ho| | |id f i v n Hf Hs Hi Hn Hr Hb Hw| |]; subst.
  - destruct (find_file_elem _ _ _ Hf) as [Hin Hid]. exists f. split_and!; try done. cbn in *.
    destruct (decide (0 < reserved f)) as [|Hn]; [done|]. rewrite (unreserved objs f) in Hi; [|by eapply files_ok_elem|done].
    rewrite lookup_empty in Hi. by destruct Hi.
  - destruct (find_file_spec _ _ _ (with_chunk f i {| c_nonce := w_nonce v; c_bytes := chunk_length (f_context f) i + 16 |}) Hf)
      as (l1 & l2 & E1 & -> & Hid). eexists. split_and!; [apply elem_of_app; right; by apply list_elem_of_here|done| |].
    + cbn. assert (file_ok objs f) as (Hv & H2 & _) by (eapply files_ok_elem; [done|rewrite E1; set_solver]).
      rewrite Hs in H2. apply reservation_bounds in Hv. lia.
    + cbn. rewrite lookup_insert_eq. done.
Qed.

Lemma known_expired t1 t2 l f : f ∈ transfers (expire_at t1 t2 l) → file_id f ∈ file_id <$> transfers l.
Proof.
  cbn. intros (x & Hx & ->)%expire_elem. rewrite expire_one_id. by apply list_elem_of_fmap_2.
Qed.

Lemma updated_ids id f g fs z : find_file id fs = Some f → file_id g = file_id f →
  z ∈ update_first (λ t, String.eqb (file_id t) id) (λ _, g) fs → ∃ y, y ∈ fs ∧ file_id y = file_id z.
Proof.
  intros Hf Hg Hz. destruct (find_file_spec _ _ _ g Hf) as (l1 & l2 & E1 & E2 & _). rewrite E2 in Hz. rewrite E1.
  apply elem_of_app in Hz. rewrite elem_of_cons in Hz. destruct Hz as [Hz|[->|Hz]]; [exists z|exists f|exists z]; set_solver.
Qed.

(** A change only lists files that were listed, or new ones. *)
Lemma change_ids objs known fs fs' o z : change_step objs known fs fs' o → z ∈ fs' →
  (∃ y, y ∈ fs ∧ file_id y = file_id z) ∨ file_id z ∉ known.
Proof.
  intros Hc Hz. destruct Hc as [|id i w f Hf Hi Ho|c t Hv Hid Hq|id f w Hf Hs Hm Hn Hw|id f i w n Hf Hs Hi Hn Hr Hb Hw|id f Hf Hs Hc|id f s Hf Hs];
    try (left; by exists z); try (left; eapply (updated_ids _ _ _ _ _ Hf); [|exact Hz]; done).
  apply elem_of_app in Hz as [Hz|Hz]; [left; by exists z|]. apply list_elem_of_singleton in Hz as ->. by right.
Qed.

Section commit.
Context (objs : gmap (string * Z) WireObject) (t1 t2 : Z) (fs fs' : list StoredFile) (o : option FileObjectWrite)
  (Hok : files_ok objs fs)
  (Hc : change_step objs (file_id <$> fs) (List.filter (still_listed t2) (expire_one t1 <$> fs)) fs' o).

Lemma known_here f : f ∈ List.filter (still_listed t2) (expire_one t1 <$> fs) → file_id f ∈ file_id <$> fs.
Proof. intros (x & Hx & ->)%expire_elem. rewrite expire_one_id. by apply list_elem_of_fmap_2. Qed.

Lemma committed_files : files_ok (write_object o objs) fs'.
Proof. eapply change_files_ok; [exact Hc|exact known_here|by apply expire_files]. Qed.

Lemma committed_evolve : evolve fs fs'.
Proof.
  intros x z Hx Hz E. destruct (change_ids _ _ _ _ _ _ Hc Hz) as [(y & Hy & Ey)|Hn].
  - etrans; [eapply (expire_evolves objs t1 t2 fs Hok x y)|eapply (change_evolves _ _ _ _ _ Hc)]; try done; try congruence.
    + exact known_here.
    + by apply expire_files.
  - destruct Hn. rewrite <-E. by apply list_elem_of_fmap_2.
Qed.

Lemma committed_orphans : no_orphans objs fs → no_orphans (filter (λ kv, kv.1.1 ∉ unset_ids fs fs') (write_object o objs)) fs'.
Proof.
  intros Hno id i [w Hw]. apply map_lookup_filter_Some in Hw as [Hw Hg]. cbn in Hg.
  assert (is_Some (objs !! (id, i)) ∨ ∃ v, o = Some v ∧ o_transferId v = id ∧ o_index v = i) as [Hold|(v & -> & <- & <-)].
  { destruct o as [v|]; [|by left; exists w]. cbn in Hw. apply lookup_insert_Some in Hw as [[[= <- <-] _]|[_ Hw]]; [by right; exists v|].
    left. by exists w. }
  - destruct (Hno id i Hold) as (f & Hf & Hid & Hr & Hi).
    destruct (decide (Exists (λ g, file_id g = id ∧ 0 < reserved g) fs')) as [(g & Hgin & Hgid & Hgr)%Exists_exists|Hnone].
    + exists g. split_and!; try done. destruct (committed_evolve f g Hf Hgin) as (_ & _ & _ & _ & _ & Hsub & _); [congruence|].
      destruct Hi as [c Hi]. exists c. eapply lookup_weaken; [exact Hi|by apply Hsub].
    + destruct Hg. apply unset_spec. exists f. split_and!; try done. intros g Hgin Hgid Hgr. apply Hnone, Exists_exists. by exists g.
  - apply (change_writes objs _ _ _ _ Hc). by apply expire_files.
Qed.
End commit.

Lemma commit_good d d' : commit d d' → good d → good d'.
Proof.
  intros Hc Hg. destruct Hc as [a doc t1 t2 fs o purge d' Hd Hc Hu|a fs o purge d' Hd Hc Hi].
  - pose proof (Hg a doc Hd) as (Ha & Hf & Hno). unfold update_document in Hu. case_match; [discriminate Hu|].
    rewrite Ha, Hd, Z.eqb_refl in Hu. cbn [negb] in Hu. injection Hu as <-. apply map_Forall_insert_2; [|done].
    split; [done|]. cbn [ledger objects transfers next_ledger]. split; [|exact (committed_orphans _ t1 t2 _ _ _ Hf Hc Hno)].
    apply unset_files_ok; [exact (committed_files _ t1 t2 _ _ _ Hf Hc)|]. intros f Hin Hr Hun. apply unset_spec in Hun as (old & _ & _ & _ & Hn).
    by apply (Hn f).
  - unfold insert_document in Hi. cbn [next_ledger l_id] in Hi. rewrite Hd in Hi. injection Hi as <-.
    apply map_Forall_insert_2; [|done]. assert (files_ok ∅ []) as H0 by (split_and!; [constructor|done..|constructor]).
    assert (o = None ∨ ∃ v, o = Some v) as [->|[v ->]] by (destruct o; eauto).
    + split; [done|]. cbn [ledger objects transfers next_ledger]. split.
      * apply (change_files_ok _ _ _ _ _ Hc); [set_solver|done].
      * intros id i Hx. rewrite lookup_empty in Hx. by destruct Hx.
    + inversion Hc as [|? ? ? ? Hf| | |? ? ? ? ? Hf| |]; discriminate Hf.
Qed.

(** ** The room an account takes *)
Fixpoint sum_upto (g : Z → Z) (n : nat) : Z := match n with O => 0 | S k => sum_upto g k + g (Z.of_nat k) end.
Definition wire_size (w : WireObject) : Z := strlen (w_nonce w) + strlen (w_ciphertext w).
(** The bytes of base64 text stored for a file: its manifest and the objects of its chunks. *)
Definition stored_bytes (objs : gmap (string * Z) WireObject) (f : StoredFile) : Z :=
  from_option wire_size 0 (f_manifest f) +
  sum_upto (λ i, from_option wire_size 0 (objs !! (file_id f, i))) (Z.to_nat (chunkCount (f_context f))).
Definition account_bytes (doc : MongoLedger) : Z :=
  foldr (λ f n, stored_bytes (objects doc) f + n) 0 (transfers (ledger doc)).

Lemma sum_upto_le g h n : (∀ i, 0 <= i < Z.of_nat n → g i <= h i) → sum_upto g n <= sum_upto h n.
Proof.
  induction n as [|n IH]; intros H; cbn [sum_upto]; [lia|]. pose proof (H (Z.of_nat n)). 
  assert (sum_upto g n <= sum_upto h n) by (apply IH; intros i Hi; apply H; lia). lia.
Qed.
Lemma sum_upto_linear g a b n : sum_upto (λ i, a * g i + b) n = a * sum_upto g n + b * Z.of_nat n.
Proof. induction n as [|n IH]; cbn [sum_upto]; [lia|]. rewrite IH. lia. Qed.
Lemma sum_upto_scale g a n : sum_upto (λ i, a * g i) n = a * sum_upto g n.
Proof. induction n as [|n IH]; cbn [sum_upto]; [lia|]. rewrite IH. lia. Qed.

(** Every chunk of a file begins within it. *)
Lemma chunk_start c i : 1 <= chunkSize c → chunkCount c = ceil_div (fileSize c) (chunkSize c) → i < chunkCount c → i * chunkSize c < fileSize c.
Proof.
  intros Hk Hc Hi. unfold ceil_div in Hc. destruct (Z_lt_le_dec (i * chunkSize c) (fileSize c)) as [|Hge]; [done|exfalso].
  assert (- i <= - fileSize c / chunkSize c) as H; [|lia]. apply Z.div_le_lower_bound; lia.
Qed.

(** The plaintext chunks of a file add up to at most its size. *)
Lemma chunk_lengths c n : 1 <= chunkSize c → chunkCount c = ceil_div (fileSize c) (chunkSize c) → Z.of_nat n <= chunkCount c → 0 <= fileSize c →
  sum_upto (chunk_length c) n <= Z.min (fileSize c) (Z.of_nat n * chunkSize c).
Proof.
  intros Hk Hc. induction n as [|n IH]; intros Hn Hs; cbn [sum_upto]; [lia|].
  assert (sum_upto (chunk_length c) n <= Z.min (fileSize c) (Z.of_nat n * chunkSize c)) by (apply IH; lia).
  pose proof (chunk_start c (Z.of_nat n) Hk Hc ltac:(lia)). unfold chunk_length at 2. lia.
Qed.

Lemma wire_within_size w n : 0 <= n → wire_within w n → 3 * wire_size w <= 4 * n + 50.
Proof.
  intros Hn [H1 (v & Hv & _)]. unfold unb64 in Hv. apply bind_ok in Hv as (? & Hg & _). guard_inv Hg.
  destruct Hg as [[Hg _] _]. apply Z.ltb_ge in Hg. unfold wire_size. unfold ceil_div in Hg.
  Z.to_euclidean_division_equations. lia.
Qed.

Lemma stored_bytes_bound a doc f : doc_ok a doc → f ∈ transfers (ledger doc) → 0 <= stored_bytes (objects doc) f <= reserved f.
Proof.
  intros (_ & Hok & Hno) Hin. pose proof (files_ok_elem _ _ _ Hok Hin) as (Hv & Hr & _ & Hm & Hc & _).
  pose proof (reservation_bounds _ Hv) as (Hn & Hs & Hres). destruct Hv as ((b & Hb) & _ & Hcs & _).
  apply encode_context_frame in Hb as [_ _ _ _ _ _ _ _ (_ & Hk & Hcount & _)].
  assert (∀ i w, objects doc !! (file_id f, i) = Some w → 0 < reserved f ∧ 0 <= chunk_length (f_context f) i + 16 ∧
    wire_within w (chunk_length (f_context f) i + 16)) as Hobj.
  { intros i w Hw. destruct (Hno (file_id f) i) as (g & Hg & Eg & Hrg & [ck Hck]); [by exists w|].
    rewrite (unique_id _ g f (proj1 Hok) Hg Hin Eg) in *. destruct (Hc i ck Hck) as (_ & Hl & w' & Hw' & _ & Hex).
    assert (w' = w) as -> by congruence. rewrite Hl in Hex. split; [done|]. destruct Hex as [Hex (v & _ & Hvl)]. unfold blen in Hvl. split; [lia|done]. }
  assert (∀ w, 0 <= wire_size w) as Hpos by (intros w; unfold wire_size, strlen; lia).
  assert (0 <= stored_bytes (objects doc) f) as H0.
  { unfold stored_bytes. assert (0 <= sum_upto (λ i, from_option wire_size 0 (objects doc !! (file_id f, i))) (Z.to_nat (chunkCount (f_context f)))).
    { induction (Z.to_nat _) as [|n IH]; cbn [sum_upto]; [lia|]. destruct (objects doc !! _); cbn; [pose proof (Hpos w)|]; lia. }
    destruct (f_manifest f) as [m|]; cbn; [pose proof (Hpos m)|]; lia. }
  split; [done|]. destruct (decide (0 < reserved f)) as [Hp|Hp].
  - assert (reserved f = reservationBytes (fileSize (f_context f)) (chunkCount (f_context f))) as -> by (destruct (f_state f); lia).
    set (n := Z.to_nat (chunkCount (f_context f))).
    assert (sum_upto (λ i, 3 * from_option wire_size 0 (objects doc !! (file_id f, i))) n <=
      sum_upto (λ i, 4 * chunk_length (f_context f) i + 114) n) as Hsum.
    { apply sum_upto_le. intros i Hi. pose proof (chunk_start _ i (proj1 Hk) Hcount ltac:(lia)).
      destruct (objects doc !! (file_id f, i)) as [w|] eqn:Hw; cbn [from_option].
      - destruct (Hobj i w Hw) as (_ & Hl & Hw'). pose proof (wire_within_size _ _ Hl Hw'). lia.
      - unfold chunk_length. lia. }
    rewrite sum_upto_scale, sum_upto_linear in Hsum.
    pose proof (chunk_lengths (f_context f) n (proj1 Hk) Hcount ltac:(lia) ltac:(lia)).
    unfold stored_bytes. fold n. assert (3 * from_option wire_size 0 (f_manifest f) <= 4 * MAX_METADATA_SIZE + 50) as Hman.
    { destruct (f_manifest f) as [m|] eqn:E; cbn; [apply wire_within_size; [done|by apply Hm]|done]. }
    unfold MAX_METADATA_SIZE, reservationBytes, ceil_div in *. Z.to_euclidean_division_equations. lia.
  - assert (f_manifest f = None ∧ reserved f = 0) as [Em ->] by (destruct (f_state f); first [tauto|exfalso; lia]).
    unfold stored_bytes. rewrite Em. cbn [from_option].
    assert (sum_upto (λ i, from_option wire_size 0 (objects doc !! (file_id f, i))) (Z.to_nat (chunkCount (f_context f))) = 0) as ->; [|lia].
    induction (Z.to_nat _) as [|n IH]; cbn [sum_upto]; [done|]. rewrite IH.
    destruct (objects doc !! _) as [w|] eqn:Hw; [by destruct (Hobj _ _ Hw)|done].
Qed.

(** What every account of a good database takes: at most 32 records, two incomplete transfers and 12 MiB of reserved
    room, and the text stored for it fits the room it reserved. *)
Definition within_limits (doc : MongoLedger) : Prop :=
  Z.of_nat (length (transfers (ledger doc))) <= MAX_RECORDS ∧
  Z.of_nat (length (List.filter is_incomplete (transfers (ledger doc)))) <= MAX_ACTIVE_TRANSFERS ∧
  0 <= account_bytes doc <= sum_reserved (transfers (ledger doc)) ∧
  sum_reserved (transfers (ledger doc)) <= MAX_STORED_BYTES_PER_USER ∧
  (∀ id i w, objects doc !! (id, i) = Some w →
     ∃ f, f ∈ transfers (ledger doc) ∧ file_id f = id ∧ 0 <= i < chunkCount (f_context f)).

Lemma doc_within_limits a doc : doc_ok a doc → within_limits doc.
Proof.
  intros Hd. pose proof Hd as (_ & Hok & Hno). split; [apply Hok|]. split; [apply Hok|]. split; [|split; [apply Hok|]].
  - unfold account_bytes, sum_reserved. pose proof (λ f, stored_bytes_bound a doc f Hd) as H.
    assert (∀ fs, fs ⊆ transfers (ledger doc) →
      0 <= foldr (λ f n, stored_bytes (objects doc) f + n) 0 fs <= foldr (λ f s, reserved f + s) 0 fs) as Hfs; [|by apply Hfs].
    induction fs as [|f fs IH]; intros Hsub; cbn [foldr]; [lia|].
    pose proof (H f ltac:(apply Hsub; set_solver)). assert (fs ⊆ transfers (ledger doc)) as Hs by set_solver. specialize (IH Hs). lia.
  - intros id i w Hw. destruct (Hno id i) as (f & Hf & E & _ & [c Hc]); [by exists w|]. exists f.
    pose proof (files_ok_elem _ _ _ Hok Hf) as (_ & _ & _ & _ & Hch & _). destruct (Hch i c Hc) as [? _]. split_and!; try done; lia.
Qed.

(** ** Commits and revisions *)
Lemma commit_doc d d' a doc : commit d d' → good d → d !! a = Some doc →
  ∃ doc', d' !! a = Some doc' ∧ (doc' = doc ∨ revision (ledger doc) < revision (ledger doc')).
Proof.
  intros Hc Hg Ha. destruct Hc as [b doc1 t1 t2 fs o purge d' Hd _ Hu|b fs o purge d' Hd _ Hi].
  - unfold update_document in Hu. case_match; [discriminate Hu|]. rewrite (proj1 (Hg b doc1 Hd)), Hd, Z.eqb_refl in Hu.
    injection Hu as <-. destruct (decide (a = b)) as [->|Hne].
    + rewrite lookup_insert_eq. eexists. split; [done|]. right. cbn. assert (doc1 = doc) as -> by congruence. lia.
    + rewrite lookup_insert_ne by done. exists doc. by auto.
  - unfold insert_document in Hi. cbn [next_ledger l_id] in Hi. rewrite Hd in Hi. injection Hi as <-.
    rewrite lookup_insert_ne by congruence. exists doc. by auto.
Qed.

Lemma commits_good d d' : rtc commit d d' → good d → good d'.
Proof. induction 1; [done|]. intros. by eauto using commit_good. Qed.

Lemma commits_doc d d' a doc : rtc commit d d' → good d → d !! a = Some doc →
  ∃ doc', d' !! a = Some doc' ∧ (doc' = doc ∨ revision (ledger doc) < revision (ledger doc')).
Proof.
  intros H. revert doc. induction H as [d|d1 d2 d3 H12 H23 IH]; intros doc Hg Ha; [by exists doc; auto|].
  destruct (commit_doc _ _ _ _ H12 Hg Ha) as (doc2 & Ha2 & H2). destruct (IH doc2 (commit_good _ _ H12 Hg) Ha2) as (doc3 & Ha3 & H3).
  exists doc3. split; [done|]. destruct H2 as [->|], H3 as [->|]; auto; right; lia.
Qed.

(** A document found again with the revision it had has not changed in between. *)
Lemma same_revision d1 d2 d3 a doc doc3 :
  rtc commit d1 d2 → rtc commit d2 d3 → good d1 → d1 !! a = Some doc → d3 !! a = Some doc3 →
  revision (ledger doc3) = revision (ledger doc) → doc3 = doc ∧ d2 !! a = Some doc.
Proof.
  intros H12 H23 Hg H1 H3 Hr. destruct (commits_doc _ _ _ _ H12 Hg H1) as (doc2 & H2 & Hd2).
  destruct (commits_doc _ _ _ _ H23 (commits_good _ _ H12 Hg) H2) as (doc3' & H3' & Hd3).
  assert (doc3' = doc3) as -> by congruence. destruct Hd2 as [->|], Hd3 as [->|]; try lia. done.
Qed.

Lemma still_absent d1 d2 a : rtc commit d1 d2 → good d1 → d2 !! a = None → d1 !! a = None.
Proof.
  intros H Hg H2. destruct (d1 !! a) as [doc|] eqn:E; [|done]. destruct (commits_doc _ _ _ _ H Hg E) as (doc' & ? & _). congruence.
Qed.

(** ** What is stored stays what it is *)
Lemma committed_object objs t1 t2 fs fs' o f g i :
  files_ok objs fs → change_step objs (file_id <$> fs) (List.filter (still_listed t2) (expire_one t1 <$> fs)) fs' o →
  f ∈ fs → g ∈ fs' → file_id g = file_id f → 0 < reserved g → is_Some (chunks f !! i) →
  filter (λ kv, kv.1.1 ∉ unset_ids fs fs') (write_object o objs) !! (file_id f, i) = objs !! (file_id f, i).
Proof.
  intros Hok Hc Hf Hg Hid Hr [ck Hck]. destruct (files_ok_elem _ _ _ Hok Hf) as (_ & _ & _ & _ & Hch & _).
  destruct (Hch i ck Hck) as (_ & _ & w & Hw & _). rewrite Hw. apply map_lookup_filter_Some. cbn [fst snd]. split.
  - destruct o as [v|]; [|done]. cbn [write_object]. rewrite lookup_insert. case_decide as E; [|done]. injection E as E1 E2.
    inversion Hc as [|id j v' x Hx Hj Ho| | |id x j v' n Hx Hs Hj Hn Hb He Hwx| |]; subst; cbn [o_transferId o_index o_value] in *; [congruence|].
    exfalso. destruct (find_file_elem _ _ _ Hx) as [(y & Hy & ->)%expire_elem Hyid]. rewrite expire_one_id in Hyid.
    assert (y = f) as -> by (apply (unique_id fs); [apply Hok|done|done|congruence]). unfold expire_one in Hj, Hs.
    destruct (f_expiresAt f <=? t1); cbn in Hj, Hs; congruence.
  - intros (old & _ & E & _ & Hn)%unset_spec. by apply (Hn g).
Qed.

Definition lists (a id : string) (d : DB) : Prop := ∃ doc f, d !! a = Some doc ∧ f ∈ transfers (ledger doc) ∧ file_id f = id.
(** A commit through which an account goes on listing a file. *)
Definition keeping (a id : string) (d d' : DB) : Prop := commit d d' ∧ lists a id d ∧ lists a id d'.
(** What has become of a file, and of the objects recorded for it. *)
Definition file_preserved (a : string) (d d' : DB) (id : string) : Prop :=
  ∀ doc f doc' f', d !! a = Some doc → f ∈ transfers (ledger doc) → file_id f = id →
    d' !! a = Some doc' → f' ∈ transfers (ledger doc') → file_id f' = id →
    file_evolves f f' ∧
    (0 < reserved f' → ∀ i, is_Some (chunks f !! i) → objects doc' !! (id, i) = objects doc !! (id, i)).

Lemma commit_preserves a id d d' : commit d d' → good d → file_preserved a d d' id.
Proof.
  intros Hc Hg doc f doc' f' Hd Hf Hid Hd' Hf' Hid'.
  assert (∀ doc', d !! a = Some doc' → f' ∈ transfers (ledger doc') →
    file_evolves f f' ∧ (0 < reserved f' → ∀ i, is_Some (chunks f !! i) → objects doc' !! (id, i) = objects doc !! (id, i))) as Hsame.
  { intros doc2 Hd2 Hf2. assert (doc2 = doc) as -> by congruence.
    rewrite (unique_id (transfers (ledger doc)) f f'); [done| |done|done|congruence]. apply (Hg a doc Hd). }
  destruct Hc as [b doc1 t1 t2 fs o purge d' Hb Hc Hu|b fs o purge d' Hb _ Hi].
  - unfold update_document in Hu. case_match; [discriminate Hu|]. rewrite (proj1 (Hg b doc1 Hb)), Hb, Z.eqb_refl in Hu.
    injection Hu as <-. destruct (decide (a = b)) as [->|Hne]; [|rewrite lookup_insert_ne in Hd' by done; by apply Hsame].
    assert (doc1 = doc) as -> by congruence. rewrite lookup_insert_eq in Hd'. injection Hd' as <-. cbn [ledger transfers objects next_ledger] in *.
    pose proof (Hg b doc Hd) as (_ & Hok & _). split; [apply (committed_evolve _ _ _ _ _ _ Hok Hc); [done|done|congruence]|].
    intros Hr i Hi. rewrite <-Hid. eapply committed_object; [exact Hok|exact Hc|done|exact Hf'|congruence|done|done].
  - unfold insert_document in Hi. cbn [next_ledger l_id] in Hi. rewrite Hb in Hi. injection Hi as <-.
    rewrite lookup_insert_ne in Hd' by congruence. by apply Hsame.
Qed.
