(* ===== verification/FileSafety.v ===== *)
(** * The file ledger under concurrency: what every call commits ([backend/attachments/fileLedger.ts])

    [FileLedger] defines the service and the changes its contract allows. Here every call of the service, whatever the
    calls that run at its [await]s do, the clock shows and the network loses, is shown to move the database by allowed
    changes only. *)
From stdpp Require Import gmap.
From S2P Require Import Prelude Json RoomMessage Attachments FileProtocol FileLedger.

Definition listed (d : DB) (id : string) : Prop := ∃ a doc f, d !! a = Some doc ∧ f ∈ transfers (ledger doc) ∧ file_id f = id.

Section service.
Context (others : nat → DB → DB) (clock : nat → Z) (trust : nat → res unit)
  (identity : nat → string → string → option string) (uuid : nat → string) (fault : nat → Fault).
Notation read := (read others fault).
Notation query := (query others fault).
Notation request := (request others fault).

(** ** Runs that only let others act *)
Definition env_step (w w' : World) : Prop :=
  w' = next w ∨ w' = {| db := others (tick w) (db w); tick := S (tick w) |}.
Definition idle : World → World → Prop := rtc env_step.
#[local] Instance idle_preorder : PreOrder idle.
Proof. unfold idle. apply _. Qed.

Lemma idle_await w : idle w {| db := others (tick w) (db w); tick := S (tick w) |}.
Proof. apply rtc_once. by right. Qed.
Lemma idle_ask {A} (f : nat → A) : always idle (ask f).
Proof. intros w x w' [= _ <-]. apply rtc_once. by left. Qed.
Lemma idle_await_ask {A} (f : nat → res A) : always idle (await_ask others f).
Proof. intros w x w' [= _ <-]. apply idle_await. Qed.
Lemma idle_query {A} (f : DB → A) : always idle (query f).
Proof.
  intros w x w'. unfold FileLedger.query, FileLedger.request. destruct (fault (tick w)); intros [= _ <-]; apply idle_await.
Qed.
#[local] Hint Resolve idle_ask idle_await_ask idle_query : k3.
#[local] Hint Extern 1 (PreOrder idle) => exact idle_preorder : k3.

(** Every step of a run is idle. *)
Ltac idle_steps :=
  repeat first
    [ apply idle_ask | apply idle_await_ask | apply idle_query | apply (always_lift idle) | apply (always_mret idle)
    | apply (always_throw idle) | apply (always_bind idle); [|intros ?]
    | match goal with
      | |- always idle (match ?x with _ => _ end) => destruct x
      | |- always idle (if ?b then _ else _) => destruct b
      end ].

Lemma idle_expire l : always idle (expire clock l).
Proof. unfold expire, now. idle_steps. Qed.
Lemma idle_revalidate auth : always idle (revalidate others clock trust auth).
Proof. unfold revalidate, now, deny_if. idle_steps. Qed.
Lemma idle_trusted auth p : always idle (trusted others clock trust identity auth p).
Proof. unfold trusted, now, deny_if. idle_steps. Qed.
Lemma idle_authorize auth f owner : always idle (authorize auth f owner).
Proof. unfold authorize, deny_if. idle_steps. Qed.
Lemma idle_live f : always idle (live clock f).
Proof. unfold live, now, fail_if. idle_steps. Qed.
Lemma idle_check p l id : always idle (check_write_expiry clock p l id).
Proof. unfold check_write_expiry. idle_steps. Qed.
Lemma idle_put_object f e w store : always idle (put_object f e w store).
Proof. unfold put_object, fail_if. idle_steps. Qed.

(** ** What calls may assume of each other, and what they guarantee *)
Context (Hothers : ∀ n d, good d → rtc commit d (others n d))
  (Hfresh : ∀ n m d, listed (others n d) (uuid m) → listed d (uuid m))
  (Huuid : ∀ n m, uuid n = uuid m → n = m).

Definition unlisted (u : string) (w : World) : Prop := ¬ listed (db w) u.
(** None of the identifiers still to be drawn is in use. *)
Definition fresh (w : World) : Prop := ∀ m, (tick w <= m)%nat → unlisted (uuid m) w.
Definition sound (w : World) : Prop := good (db w) ∧ fresh w.
Definition progress (w w' : World) : Prop := sound w → sound w' ∧ rtc commit (db w) (db w') ∧ (tick w <= tick w')%nat.
#[local] Instance progress_preorder : PreOrder progress.
Proof.
  split; [by intros w H|]. intros w1 w2 w3 H12 H23 H. destruct (H12 H) as (H2 & C1 & T1). destruct (H23 H2) as (H3 & C2 & T2).
  split_and!; [apply H3..|by etrans|lia].
Qed.

Lemma idle_unlisted w w' m : idle w w' → unlisted (uuid m) w → unlisted (uuid m) w'.
Proof.
  induction 1 as [|w1 w2 w3 [->| ->] _ IH]; [done|exact IH|]. intros H. apply IH. intros Hl. by apply H, (Hfresh (tick w1)).
Qed.
Lemma idle_tick w w' : idle w w' → (tick w <= tick w')%nat.
Proof. induction 1 as [|w1 w2 w3 [->| ->] _ IH]; [done|cbn in *; lia..]. Qed.
Lemma idle_commits w w' : idle w w' → good (db w) → rtc commit (db w) (db w') ∧ good (db w').
Proof.
  induction 1 as [|w1 w2 w3 [->| ->] _ IH]; [done|exact IH|]. intros Hg.
  assert (rtc commit (db w1) (others (tick w1) (db w1))) as H1 by (by apply Hothers).
  destruct IH as [H2 H3]; [by eapply commits_good|]. split; [by etrans|done].
Qed.
Lemma idle_progress w w' : idle w w' → progress w w'.
Proof.
  intros H [Hg Hf]. destruct (idle_commits _ _ H Hg) as [Hc Hg']. pose proof (idle_tick _ _ H). split; [split; [done|]|done].
  intros m Hm. eapply idle_unlisted; [done|]. apply Hf. lia.
Qed.
Lemma always_idle_progress {A} (m : M World A) : always idle m → always progress m.
Proof. intros H w x w' Hr. by eapply idle_progress, H. Qed.

(** ** One attempt of [atomic] *)
Lemma query_result {A} (f : DB → A) w v w' : query f w = (Ok v, w') → v = f (db w').
Proof. unfold FileLedger.query, FileLedger.request. by destruct (fault (tick w)); intros [= <- <-]. Qed.

Lemma expire_result l w v w' : expire clock l w = (Ok v, w') → ∃ t1 t2, v = expire_at t1 t2 l.
Proof. unfold expire, now, ask. intros [= <- _]. by eexists _, _. Qed.

(** The changes [change] makes, whenever the document it was computed from is still there. *)
Definition sound_change {T} (account : string) (change : FileLedger → M World (T * FileLedger)) (o : option FileObjectWrite)
    (P : World → Prop) : Prop :=
  ∀ t1 t2 w r l' w' wc,
    let stored := db w !! account in
    let l := default (empty_ledger account) (ledger <$> stored) in
    change (expire_at t1 t2 l) w = (Ok (r, l'), w') → P w → good (db w) → idle w' wc → db wc !! account = stored →
    change_step (from_option objects ∅ stored) (file_id <$> transfers l) (transfers (expire_at t1 t2 l)) (transfers l') o ∧
    ∀ z, z ∈ transfers l' → file_id z ∈ file_id <$> transfers l ∨ ∃ m, (m < tick w)%nat ∧ file_id z = uuid m.
Definition keeps_header {T} (change : FileLedger → M World (T * FileLedger)) : Prop :=
  ∀ l w r l' w', change l w = (Ok (r, l'), w') → l_id l' = l_id l ∧ revision l' = revision l.

(** What writing a document read earlier does: nothing, unless the document is still the one that was read. *)
Lemma write_commits d1 d2 d a fs o purge t1 t2 c d' (stored := d1 !! a) (l := default (empty_ledger a) (ledger <$> stored)) :
  good d1 → rtc commit d1 d2 → rtc commit d2 d →
  (d2 !! a = stored → d !! a = stored →
    change_step (from_option objects ∅ stored) (file_id <$> transfers l) (transfers (expire_at t1 t2 l)) fs o) →
  write_document (ledger <$> stored) (next_ledger a l fs) o purge d = (c, d') →
  d' = d ∨ (d2 !! a = stored ∧ d !! a = stored ∧ commit d d' ∧ (∀ b, b ≠ a → d' !! b = d !! b) ∧
    ∀ doc', d' !! a = Some doc' → transfers (ledger doc') = fs).
Proof.
  intros Hg H12 H2d Hc Hu. subst l. destruct stored as [doc|] eqn:Ha; subst stored; cbn [fmap option_fmap option_map default from_option id] in *.
  - assert (l_id (ledger doc) = a) as Hid by (apply (Hg a doc Ha)).
    pose proof Hu as Hu'. unfold write_document, update_document in Hu. rewrite Hid in Hu. case_match; [left; by injection Hu as <- <-|].
    destruct (d !! a) as [doc'|] eqn:Hd; [|left; by injection Hu as <- <-].
    destruct (Z.eqb_spec (revision (ledger doc')) (revision (ledger doc))) as [Hr|Hr]; cbn [negb] in Hu; [|left; by injection Hu as <- <-].
    destruct (same_revision d1 d2 d a doc doc' H12 H2d Hg Ha Hd Hr) as [-> H2]. right.
    injection Hu as <- <-. split_and!; [done..| | |].
    + eapply commit_update; [exact Hd|by apply (Hc H2)|exact Hu'].
    + intros b Hb. by rewrite lookup_insert_ne.
    + intros doc'. rewrite lookup_insert_eq. by intros [= <-].
  - pose proof Hu as Hu'. unfold write_document, insert_document in Hu. cbn [next_ledger l_id] in Hu.
    destruct (d !! a) as [doc'|] eqn:Hd; [left; by injection Hu as <- <-|]. right.
    assert (d2 !! a = None) as H2 by (eapply still_absent; [done|by eapply commits_good|done]).
    injection Hu as <- <-. split_and!; [done..| | |].
    + eapply commit_insert; [exact Hd|by apply (Hc H2)|exact Hu'].
    + intros b Hb. by rewrite lookup_insert_ne.
    + intros doc'. rewrite lookup_insert_eq. by intros [= <-].
Qed.

(** ** The runs of [atomic] *)
Lemma write_refused before after o purge d r d' : write_document before after o purge d = (r, d') → r ≠ Ok true → d' = d.
Proof.
  unfold write_document, update_document, insert_document. intros H Hn.
  repeat (case_match; try (by injection H as <- <-)).
Qed.

Lemma replace_runs b a o w x w' : replace others clock fault b a o w = (x, w') →
  ∃ w1 purge c d', idle w w1 ∧ write_document b a o purge (db w1) = (c, d') ∧
    ((x = c ∧ w' = {| db := d'; tick := tick w1 |}) ∨ (is_ok x = false ∧ (w' = w1 ∨ w' = {| db := d'; tick := tick w1 |}))).
Proof.
  unfold replace. intros [(t & w0 & Ht & H)|(e & Ht & ->)]%bind_cases; [|discriminate Ht]. pose proof (idle_ask _ _ _ _ Ht) as I0.
  set (w1 := {| db := others (tick w0) (db w0); tick := S (tick w0) |}).
  destruct (write_document b a o (ledgerPurgeAt (transfers a) t) (db w1)) as [c d'] eqn:Hw.
  exists w1, (ledgerPurgeAt (transfers a) t), c, d'. split; [etrans; [exact I0|apply idle_await]|]. split; [done|].
  unfold FileLedger.request in H. cbn [db w1] in Hw. rewrite Hw in H. destruct (fault (tick w0)); injection H as <- <-; [left|right..]; auto.
Qed.

(** A run either wrote nothing, or wrote once: a change of the document it had read just before, applied to whatever the
    database had become. *)
Inductive atomic_run {T} (account : string) (change : FileLedger → M World (T * FileLedger)) (o : option FileObjectWrite)
    (w : World) (x : res T) (w' : World) : Prop :=
| run_idle : idle w w' → is_ok x = false → atomic_run account change o w x w'
| run_wrote w1 t1 t2 w2 r l' w3 w4 purge c d' (l := default (empty_ledger account) (ledger <$> db w1 !! account)) :
    idle w w1 → idle w1 w2 → change (expire_at t1 t2 l) w2 = (Ok (r, l'), w3) → idle w2 w3 → idle w3 w4 →
    write_document (ledger <$> db w1 !! account) (bump l') o purge (db w4) = (c, d') →
    w' = {| db := d'; tick := tick w4 |} → (x = Ok r ∧ c = Ok true) ∨ is_ok x = false → atomic_run account change o w x w'.

Lemma atomic_run_after {T} account change o w w1 (x : res T) w' :
  idle w w1 → atomic_run account change o w1 x w' → atomic_run account change o w x w'.
Proof.
  intros H1 [Hi Hx|w2 t1 t2 w3 r l' w4 w5 purge c d' l H2]; [apply run_idle; [by etrans|done]|].
  eapply (run_wrote _ _ _ _ _ _ w2 t1 t2 w3 r l' w4 w5); [by etrans|done..].
Qed.

Lemma atomic_runs {T} n account (change : FileLedger → M World (T * FileLedger)) o bc w x w' :
  (∀ l, always idle (change l)) → always idle bc →
  atomic_attempts others clock fault n account change o bc w = (x, w') → atomic_run account change o w x w'.
Proof.
  intros Hch Hbc. revert w. induction n as [|n IH]; intros w; cbn [atomic_attempts]; [intros [= <- <-]; by apply run_idle|].
  intros [(before & w1 & Hr & H)|(e & Hr & ->)]%bind_cases; pose proof (idle_query _ _ _ _ Hr) as I1; [|by apply run_idle].
  apply query_result in Hr. cbn beta in Hr. subst before.
  apply bind_cases in H as [(l & w2 & He & H)|(e & He & ->)]; pose proof (idle_expire _ _ _ _ He) as I2; [|apply run_idle; [by etrans|done]].
  apply expire_result in He as (t1 & t2 & ->).
  apply bind_cases in H as [([r l'] & w3 & Hc & H)|(e & Hc & ->)]; pose proof (Hch _ _ _ _ Hc) as I3; [|apply run_idle; [do 2 (etrans; [done|]); done|done]].
  apply bind_cases in H as [([] & w4 & Hb & H)|(e & Hb & ->)]; pose proof (Hbc _ _ _ Hb) as I4;
    [|apply run_idle; [do 3 (etrans; [done|]); done|done]].
  assert (idle w w4) as I04 by (do 3 (etrans; [done|]); done).
  apply bind_cases in H as [(committed & w5 & Hrep & H)|(e & Hrep & ->)];
    apply replace_runs in Hrep as (w6 & purge & c & d' & I6 & Hw & Hend).
  - destruct Hend as [[<- ->]|[Hx _]]; [|discriminate Hx]. destruct committed.
    + injection H as <- <-. eapply (run_wrote _ _ _ _ _ _ w1 t1 t2 w2 r l' w3 w6); try done; [by etrans|by left].
    + rewrite (write_refused _ _ _ _ _ _ _ Hw) in H by done. apply (atomic_run_after _ _ _ _ w6); [by etrans|].
      apply IH. destruct w6. exact H.
  - destruct Hend as [[<- ->]|[_ [->| ->]]].
    + rewrite (write_refused _ _ _ _ _ _ _ Hw) by done. apply run_idle; [|done]. destruct w6. by etrans.
    + apply run_idle; [by etrans|done].
    + eapply (run_wrote _ _ _ _ _ _ w1 t1 t2 w2 r l' w3 w6); try done; [by etrans|by right].
Qed.

Lemma commit_listed d d' a fs (u : string) :
  (∀ b, b ≠ a → d' !! b = d !! b) → (∀ doc', d' !! a = Some doc' → transfers (ledger doc') = fs) →
  (∀ z, z ∈ fs → file_id z = u → u ∈ file_id <$> transfers (default (empty_ledger a) (ledger <$> d !! a))) → listed d' u → listed d u.
Proof.
  intros Hb Hfs Hz (b & doc' & f & Hd & Hf & Hu). destruct (decide (b = a)) as [->|Hne].
  - rewrite (Hfs _ Hd) in Hf. specialize (Hz f Hf Hu). apply list_elem_of_fmap in Hz as (g & E & Hgin).
    destruct (d !! a) as [doc|] eqn:Ha; cbn in Hgin; [by exists a, doc, g|set_solver].
  - rewrite Hb in Hd by done. by exists b, doc', f.
Qed.

(** A run of [atomic] whose changes are sound moves the database by allowed changes only, whatever runs meanwhile. *)
Lemma run_progress {T} account (change : FileLedger → M World (T * FileLedger)) o P w x w' :
  (∀ w w', idle w w' → P w → P w') → keeps_header change → sound_change account change o P →
  atomic_run account change o w x w' → P w → progress w w'.
Proof.
  intros HP Hk Hs [Hi _|w1 t1 t2 w2 r l' w3 w4 purge c d' l I1 I2 Hc I3 I4 Hw -> _] HPw; [by apply idle_progress|].
  assert (idle w w2) as I02 by (by etrans). assert (idle w2 w4) as I24 by (by etrans). assert (idle w w4) as I04 by (by etrans).
  intros Hso. destruct (idle_progress _ _ I04 Hso) as ([Hg4 Hf4] & C04 & T04).
  destruct (idle_progress _ _ I1 Hso) as ([Hg1 _] & C01 & _). destruct (idle_progress _ _ I02 Hso) as ([Hg2 _] & _ & _).
  destruct (idle_commits _ _ I2 Hg1) as [C12 _]. destruct (idle_commits _ _ I24 Hg2) as [C24 _].
  destruct (Hk _ _ _ _ _ Hc) as [Hid Hrev]. cbn [expire_at with_transfers l_id revision] in Hid, Hrev.
  assert (sound {| db := d'; tick := tick w4 |} ∧ rtc commit (db w4) d') as [Hd' C4].
  { assert (bump l' = next_ledger account l (transfers l')) as Eb.
    { unfold bump, next_ledger. rewrite Hid, Hrev. f_equal. subst l. destruct (db w1 !! account) as [doc|] eqn:Ed; [|done].
      cbn. apply (Hg1 account doc Ed). }
    rewrite Eb in Hw.
    assert (db w2 !! account = db w1 !! account → db w4 !! account = db w1 !! account →
      change_step (from_option objects ∅ (db w1 !! account)) (file_id <$> transfers l) (transfers (expire_at t1 t2 l)) (transfers l') o ∧
      ∀ z, z ∈ transfers l' → file_id z ∈ file_id <$> transfers l ∨ ∃ m, (m < tick w2)%nat ∧ file_id z = uuid m) as Hsound.
    { intros E2 E4. pose proof (Hs t1 t2 w2 r l' w3 w4) as H. rewrite E2 in H. apply H; try done. by eapply HP. }
    destruct (write_commits (db w1) (db w2) (db w4) account (transfers l') o purge t1 t2 c d' Hg1 C12 C24) as [->|(E2 & E4 & Hcm & Hb & Ha)];
      [|exact Hw|by split|].
    - intros E2 E4. by apply Hsound.
    - split; [|by apply rtc_once]. split; [by eapply commit_good|]. intros m Hm Hl. apply (Hf4 m Hm). revert Hl.
      apply (commit_listed _ _ account (transfers l') _ Hb Ha). intros z Hz Ez. rewrite E4.
      destruct (Hsound E2 E4) as [_ Hnew]. destruct (Hnew z Hz) as [Hin|(m' & Hm' & E)]; [by rewrite <-Ez|].
      assert (m = m') as <- by (apply Huuid; congruence). apply idle_tick in I24. cbn in Hm. lia. }
  split; [done|]. split; [by transitivity (db w4)|done].
Qed.

(** ** The actions *)
Ltac idle_run := repeat first [apply idle_live | apply idle_put_object | apply idle_revalidate | apply idle_authorize
  | apply idle_trusted | apply idle_expire | apply idle_check | progress idle_steps].
Lemma idle_put_manifest v f a : always idle (put_manifest clock v f a).
Proof. unfold put_manifest, limits. idle_run. Qed.
Lemma idle_put_chunk n v id f a : always idle (put_chunk others clock fault n v id f a).
Proof. unfold put_chunk, limits, fail_if. idle_run. Qed.
Lemma idle_complete f a : always idle (complete_action clock f a).
Proof. unfold complete_action, fail_if. idle_run. Qed.
Lemma idle_chunk auth id n f a : always idle (chunk_action others clock fault auth id n f a).
Proof. unfold chunk_action, deny_if, fail_if. idle_run. Qed.
Lemma idle_status auth f a : always idle (status_action auth f a).
Proof. unfold status_action. idle_run. Qed.
Lemma idle_cancel f a : always idle (cancel_action f a).
Proof. unfold cancel_action. idle_run. Qed.
Lemma idle_owner_change {T} auth id (action : StoredFile → string → M World (T * StoredFile)) a l :
  (∀ f a, always idle (action f a)) → always idle (owner_change auth id action a l).
Proof. intros Ha. unfold owner_change, require_or_deny, authorize, deny_if. idle_run. apply Ha. Qed.

(** ** What the actions change *)
Lemma sealed_wire v n s : FileProtocol.sealed v n = Ok s → wire_within (wire_of v) n ∧ unb64 (w_ciphertext (wire_of v)) n = Ok (ciphertext s).
Proof.
  unfold FileProtocol.sealed. intros H. apply bind_ok in H as (fs & Hf & H). apply bind_ok in H as (no & Hn & H).
  apply bind_ok in H as (c & Hc & H). apply bind_ok in H as (? & Hg & H). guard_inv Hg. apply Ok_inj in H as <-. cbn [ciphertext].
  destruct v as [| | | | | |fs'] eqn:Ev; try discriminate Hf. assert (fs' = fs) as -> by (cbn in Hf; res_inv Hf; done). clear Hf.
  unfold unb64_value in Hn, Hc. unfold wire_of, wire_within. cbn [oprop w_nonce w_ciphertext].
  destruct (get fs "nonce"); try discriminate Hn. destruct (get fs "ciphertext"); try discriminate Hc. cbn [as_str default from_option id].
  assert (16 <= blen c) as Hl by (destruct Hg as [_ Hg]; apply Nat.ltb_ge in Hg; unfold blen; lia).
  split; [|done]. split.
  - unfold unb64 in Hn. apply bind_ok in Hn as (? & Hn & _). guard_inv Hn. change (ceil_div (12 * 4) 3) with 16 in Hn. lia.
  - exists c. split; [done|]. split; [done|]. unfold unb64 in Hc. apply bind_ok in Hc as (? & _ & Hc). apply bind_ok in Hc as (? & _ & Hc).
    apply bind_ok in Hc as (? & Hg' & Hc). guard_inv Hg'. injection Hc as <-. lia.
Qed.

Lemma put_object_result f e w store st r f' st' : put_object f e w store st = (Ok (r, f'), st') →
  st' = st ∧ ((e = Some w ∧ f' = f) ∨ (e = None ∧ f_state f = incomplete ∧ nonce_used f (w_nonce w) = false ∧ f' = store f)).
Proof.
  unfold put_object, fail_if. destruct e as [e|]; intros H.
  - m_step H. apply mret_ok in H as [H ->]. injection H as <- <-. guard_inv Hm. destruct Hm as [H1 H2].
    split; [done|]. left. split; [|done]. destruct e, w; simpl in *; congruence.
  - m_step H. m_step H. apply mret_ok in H as [H ->]. injection H as <- <-. guard_inv Hm. guard_inv Hm0. split; [done|]. right.
    unfold is_incomplete in Hm. by apply bool_decide_eq_true in Hm.
Qed.

Lemma live_result f w u w' : live clock f w = (Ok u, w') → f_state f = incomplete ∨ f_state f = available.
Proof.
  unfold live, fail_if. intros H. m_step H. m_step H. apply lift_ok in H as [H ->]. guard_inv Hm0. guard_inv H.
  destruct Hm0 as [Hm0 _]. destruct (f_state f); auto; congruence.
Qed.

(** The file an owner's change acts on, and what it leaves in its place. *)
Lemma owner_change_result {T} auth id (action : StoredFile → string → M World (T * StoredFile)) a l w r l' w' :
  owner_change auth id action a l w = (Ok (r, l'), w') →
  ∃ f f', find_file id (transfers l) = Some f ∧ conversationId (f_context f) = a_conversationId auth ∧ is_sender auth (f_context f) = true ∧
    action f a w = (Ok (r, f'), w') ∧ l' = set_file id f' l.
Proof.
  unfold owner_change, require_or_deny, authorize, deny_if. intros H. m_step H. apply require_ok in Hm.
  apply M_bind_ok in H as (u & s1 & Ha & H). apply M_bind_ok in Ha as (u' & s2 & Ha & Hb).
  apply lift_ok in Ha as [Ha ->], Hb as [Hb ->]. guard_inv Ha. guard_inv Hb.
  apply M_bind_ok in H as ([r' f'] & s3 & Hact & H). apply mret_ok in H as [H ->]. injection H as <- <-.
  exists x, f'. split_and!; try done.
Qed.

Lemma owner_change_keeps {T} auth id (action : StoredFile → string → M World (T * StoredFile)) a : keeps_header (owner_change auth id action a).
Proof. intros l w r l' w' (f & f' & _ & _ & _ & _ & ->)%owner_change_result. done. Qed.

Lemma update_first_same {A} (P : A → bool) (l : list A) x : js_find P l = Some x → update_first P (λ _, x) l = l.
Proof. intros (l1 & l2 & -> & -> & _)%(update_first_spec P (λ _, x)). done. Qed.

Definition sound_action {T} (account id : string) (action : StoredFile → string → M World (T * StoredFile)) (o : option FileObjectWrite)
    : Prop :=
  ∀ t1 t2 doc known w f r f' w' wc (fs := transfers (expire_at t1 t2 (ledger doc))),
    good (db w) → db w !! account = Some doc → idle w w' → idle w' wc → db wc !! account = Some doc →
    find_file id fs = Some f → action f account w = (Ok (r, f'), w') →
    change_step (objects doc) known fs (update_first (λ t, String.eqb (file_id t) id) (λ _, f') fs) o ∧ f_context f' = f_context f.

Lemma sound_owner {T} account auth id (action : StoredFile → string → M World (T * StoredFile)) o :
  (∀ f a, always idle (action f a)) → sound_action account id action o →
  sound_change account (owner_change auth id action account) o (λ _, True).
Proof.
  intros Hidle Hs t1 t2 w r l' w' wc stored l H _ Hg Hi Hc. pose proof (idle_owner_change auth id action account _ Hidle _ _ _ H) as Hi0.
  apply owner_change_result in H as (f & f' & Hf & _ & _ & Ha & ->). subst l.
  destruct stored as [doc|] eqn:Hd; subst stored; simpl in *; [|discriminate Hf].
  destruct (Hs t1 t2 doc (file_id <$> transfers (ledger doc)) w f r f' w' wc Hg Hd Hi0 Hi Hc Hf Ha) as [Hstep Hctx].
  split; [exact Hstep|]. intros z Hz. left. cbn [set_file with_transfers transfers] in Hz.
  destruct (updated_ids _ _ _ _ _ Hf ltac:(unfold file_id; by rewrite Hctx) Hz) as (y & Hy & <-). exact (known_expired t1 t2 (ledger doc) y Hy).
Qed.

Lemma same_file id f fs : find_file id fs = Some f → update_first (λ t, String.eqb (file_id t) id) (λ _, f) fs = fs.
Proof. apply (update_first_same (λ t, String.eqb (file_id t) id)). Qed.

Lemma sound_cancel account id : sound_action account id cancel_action None.
Proof.
  intros t1 t2 doc known w f r f' w' wc fs _ _ _ _ _ Hf [= _ <- _]. split; [by eapply change_cancel|done].
Qed.

Lemma sound_complete account id : sound_action account id (complete_action clock) None.
Proof.
  intros t1 t2 doc known w f r f' w' wc fs _ _ _ _ _ Hf H. unfold complete_action, fail_if in H.
  apply M_bind_ok in H as (u & w1 & Hl & H). apply live_result in Hl. m_step H. apply mret_ok in H as [H _]. injection H as _ <-.
  apply throw_if_ok in Hm. rewrite !orb_false_iff in Hm. destruct Hm as [[Hm _] He]. apply negb_false_iff, bool_decide_eq_true in Hm.
  split; [|done]. eapply change_complete; try done. split; [done|]. intros i Hi.
  destruct (chunks f !! i) as [c|] eqn:Hc; [done|]. exfalso.
  assert (existsb (λ i, bool_decide (chunks f !! i = None)) (seqZ 0 (chunkCount (f_context f))) = true) as Hx; [|congruence].
  apply existsb_exists. exists i. split; [apply list_elem_of_In, elem_of_seqZ; lia|by apply bool_decide_eq_true].
Qed.

Lemma sound_put_manifest account id v : sound_action account id (put_manifest clock v) None.
Proof.
  intros t1 t2 doc known w f r f' w' wc fs _ _ _ _ _ Hf H. unfold put_manifest, limits in H.
  apply M_bind_ok in H as (u & w1 & Hl & H). apply M_bind_ok in H as (s & w2 & Hs & H). apply lift_ok in Hs as [Hs ->].
  apply rethrow_ok, sealed_wire in Hs as [Hw _]. apply put_object_result in H as (_ & [[Hm ->]|(Hm & Hst & Hn & ->)]).
  - split; [|done]. rewrite (same_file _ _ _ Hf). apply change_none.
  - split; [|done]. by eapply change_manifest.
Qed.

Lemma sound_put_chunk account id n v : sound_action account id (put_chunk others clock fault n v id) (chunk_write n v id).
Proof.
  intros t1 t2 doc known w f r f' w' wc fs Hg Hd Hi Hic Hdc Hf H. unfold put_chunk, limits, fail_if in H.
  apply M_bind_ok in H as (u & w1 & Hl & H). pose proof (idle_live _ _ _ _ Hl) as I1.
  apply M_bind_ok in H as (i & w2 & Hn & H). apply lift_ok in Hn as [Hn ->]. apply require_ok in Hn.
  apply M_bind_ok in H as (s & w3 & Hs & H). apply lift_ok in Hs as [Hs ->]. apply rethrow_ok, sealed_wire in Hs as [Hw Hct].
  apply M_bind_ok in H as (u' & w4 & Hlen & H). apply lift_ok in Hlen as [Hlen ->]. apply throw_if_ok, negb_false_iff, Z.eqb_eq in Hlen.
  apply M_bind_ok in H as (e & w5 & He & H). unfold chunk_index in Hn. destruct n as [z| | | |]; try discriminate Hn.
  destruct ((0 <=? z) && (z <? chunkCount (f_context f))) eqn:Hz; [|discriminate Hn]. injection Hn as ->. apply andb_true_iff in Hz as [Hz1 Hz2].
  cbn [chunk_write]. apply put_object_result in H as (-> & Hres).
  assert (files_ok (objects doc) fs) as Hfs by (apply expire_files; apply (Hg account doc Hd)).
  destruct (find_file_elem _ _ _ Hf) as [Hin Hid].
  destruct (bool_decide (is_Some (chunks f !! i))) eqn:Hchunk.
  - apply bool_decide_eq_true in Hchunk. pose proof (idle_query _ _ _ _ He) as I2. apply query_result in He. cbn beta in He.
    assert (db w5 !! account = Some doc) as Hd5.
    { destruct (idle_commits _ _ Hi Hg) as [C1 Hg5]. destruct (idle_commits _ _ Hic Hg5) as [C2 _].
      by apply (same_revision (db w) (db w5) (db wc) account doc doc C1 C2 Hg Hd Hdc). }
    rewrite Hd5 in He. change (e = objects doc !! (id, i)) in He. destruct Hchunk as [ck Hck].
    destruct (files_ok_elem _ _ _ Hfs Hin) as (_ & _ & _ & _ & Hch & _). destruct (Hch i ck Hck) as (_ & _ & w0 & Hw0 & _).
    rewrite Hid, <-He in Hw0. destruct Hres as [[E ->]|[E _]]; [|congruence]. rewrite E in He.
    split; [|done]. rewrite (same_file _ _ _ Hf). eapply change_again; [exact Hf|by exists ck|]. done.
  - apply bool_decide_eq_false in Hchunk. apply mret_ok in He as [<- _]. destruct Hres as [[E _]|(_ & Hst & Hn & ->)]; [discriminate E|].
    split; [|done]. eapply change_chunk; try done; [by apply eq_None_not_Some|lia|]. split; [done|]. by exists (ciphertext s).
Qed.

(** ** The calls *)
Notation access := (access others clock trust identity fault).
Notation trusted := (trusted others clock trust identity).
Notation revalidate := (revalidate others clock trust).

Lemma idle_access {T} auth id (action : StoredFile → string → M World (T * StoredFile)) o b :
  (∀ f a, always idle (action f a)) → always idle (access auth id attachment_read action o b).
Proof.
  intros Ha. unfold FileLedger.access, locate, FileLedger.read, deny_if, require_or_deny, now. rewrite bool_decide_eq_true_2 by done.
  idle_run; apply Ha.
Qed.

(** Every other call that goes through [access] is at most one run of [atomic]. *)
Lemma access_runs {T} auth id p (action : StoredFile → string → M World (T * StoredFile)) o b w x w' :
  p ≠ attachment_read → (∀ f a, always idle (action f a)) → access auth id p action o b w = (x, w') →
  (idle w w' ∧ is_ok x = false) ∨
  ∃ account w0 x0 w1, (∃ wt, trusted auth p w = (Ok tt, wt) ∧ idle wt w0) ∧
    atomic_run account (owner_change auth id action account) o w0 x0 w1 ∧ idle w1 w' ∧ (∀ r, x = Ok r → x0 = Ok r).
Proof.
  intros Hp Ha. unfold FileLedger.access. rewrite bool_decide_eq_false_2 by done.
  intros [([] & w1 & Ht & H)|(e & Ht & ->)]%bind_cases; pose proof (idle_trusted _ _ _ _ _ Ht) as I1; [|by left].
  apply bind_cases in H as [(u & w2 & Hd & H)|(e & Hd & ->)]; unfold deny_if in Hd; [|left; split; [|done]; by injection Hd as _ <-].
  apply lift_ok in Hd as [_ ->].
  apply bind_cases in H as [(l & w3 & Hl & H)|(e & Hl & ->)]; pose proof (idle_query _ _ _ _ Hl) as I2; [|left; split; [by etrans|done]].
  apply bind_cases in H as [(l' & w4 & Hq & H)|(e & Hq & ->)]; unfold require_or_deny in Hq;
    [|left; split; [|done]; injection Hq as _ <-; by etrans].
  apply lift_ok in Hq as [_ ->]. right.
  assert (always idle (revalidate auth;; check_write_expiry clock p l' id)) as Hbc by idle_run.
  apply bind_cases in H as [(r & w5 & Hr & H)|(e & Hr & ->)]; apply atomic_runs in Hr; try done; try (intros; by apply idle_owner_change).
  - exists (l_id l'), w3, (Ok r), w5. split; [by exists w1|]. split; [exact Hr|].
    assert (always idle (revalidate auth;; check_write_expiry clock p l' id;; (mret r : M World T))) as Hend by idle_run.
    split; [by eapply Hend|]. intros r' ->. m_step H. m_step H. by apply mret_ok in H as [-> _].
  - exists (l_id l'), w3, (Err e), w'. split; [by exists w1|]. split; [exact Hr|]. split; [done|]. discriminate.
Qed.

Lemma access_progress {T} auth id p (action : StoredFile → string → M World (T * StoredFile)) o b :
  p ≠ attachment_read → (∀ f a, always idle (action f a)) → (∀ account, sound_action account id action o) →
  always progress (access auth id p action o b).
Proof.
  intros Hp Hi Hs w x w' H. destruct (access_runs _ _ _ _ _ _ _ _ _ Hp Hi H) as [[H1 _]|(account & w0 & x0 & w1 & (wt & Ht & I0) & Hr & I1 & _)];
    [by apply idle_progress|].
  transitivity w0; [apply idle_progress; etrans; [by eapply idle_trusted|done]|]. transitivity w1; [|by apply idle_progress].
  apply (run_progress account (owner_change auth id action account) o (λ _, True) w0 x0 w1); try done.
  - apply owner_change_keeps.
  - by apply sound_owner.
Qed.

Lemma requested_transfer binding id size c : validateFileContext (requested_context binding id size) = Ok c →
  valid_context c ∧ transferId c = id.
Proof.
  intros (fs & b & He & Hc & Hb & H1 & H2 & H3)%validateFileContext_ok. split; [split; [by exists b|done]|].
  unfold exact, requested_context in He. res_inv He. subst fs. apply context_of_ok in Hc as (Ht & _).
  rewrite !get_set_key in Ht. cbn in Ht. by injection Ht as ->.
Qed.

Definition drawn (m : nat) (w : World) : Prop := unlisted (uuid m) w ∧ (m < tick w)%nat.

Lemma sound_create account c m : valid_context c → transferId c = uuid m →
  sound_change account (create_change clock c) None (drawn m).
Proof.
  intros Hv Hid t1 t2 w r l' w' wc stored l H [Hu Hm] Hg Hi Hd. unfold create_change, fail_if, now in H.
  m_step H. m_step H. apply mret_ok in H as [H _]. injection H as _ <-. guard_inv Hm0. cbn [with_transfers transfers].
  assert (transferId c ∉ file_id <$> transfers l) as Hnew.
  { intros (f & E & Hf)%list_elem_of_fmap. apply Hu. subst l stored. destruct (db w !! account) as [doc|] eqn:Ed; simpl in Hf; [|set_solver].
    exists account, doc, f. split_and!; [done|done|]. by rewrite <-E. }
  split; [by apply change_create|]. intros z [Hz|Hz]%elem_of_app.
  - left. exact (known_expired t1 t2 _ z Hz).
  - right. apply list_elem_of_singleton in Hz as ->. exists m. done.
Qed.

Lemma create_keeps c : keeps_header (create_change clock c).
Proof.
  intros l w r l' w' H. unfold create_change, fail_if, now in H. m_step H. m_step H. apply mret_ok in H as [H _]. by injection H as _ <-.
Qed.
Lemma idle_create_change c l : always idle (create_change clock c l).
Proof. unfold create_change, fail_if, now. idle_run. Qed.

Lemma drawn_idle m w w' : idle w w' → drawn m w → drawn m w'.
Proof. intros H [Hu Ht]. split; [by eapply idle_unlisted|]. apply idle_tick in H. lia. Qed.

(** The part of [create] that follows the drawing of the identifier. *)
Lemma create_tail_progress auth c m w x w' :
  (deny_if (negb (String.eqb (conversationId c) (a_conversationId auth)) || negb (String.eqb (senderParticipantId c) (a_participantId auth)) ||
     negb (bool_decide (Some (senderIdentityReference c) = identityReference auth)));;
   actual ← await_ask others (λ n, Ok (identity n (conversationId c) (recipientParticipantId c)));
   deny_if (negb (bool_decide (actual = Some (recipientIdentityReference c))));;
   result ← atomic others clock fault (default "" (accountIdentityReference auth)) (create_change clock c) None (revalidate auth);
   revalidate auth;; mret result) w = (x, w') →
  valid_context c → transferId c = uuid m → drawn m w → progress w w'.
Proof.
  intros H Hv Hid Hd. unfold deny_if in H.
  apply bind_cases in H as [(? & w2 & H1 & H)|(e & H1 & ->)]; [apply lift_ok in H1 as [_ ->]|by injection H1 as _ <-].
  apply bind_cases in H as [(? & w2 & H1 & H)|(e & H1 & ->)]; pose proof (idle_await_ask _ _ _ _ H1) as I1; [|by apply idle_progress].
  apply bind_cases in H as [(? & w3 & H2 & H)|(e & H2 & ->)]; [apply lift_ok in H2 as [_ ->]|injection H2 as _ <-; by apply idle_progress].
  transitivity w2; [by apply idle_progress|].
  assert (drawn m w2) as Hd2 by (by eapply drawn_idle).
  assert (∀ (y : res FileStatus) w3, atomic others clock fault (default "" (accountIdentityReference auth)) (create_change clock c) None
    (revalidate auth) w2 = (y, w3) → progress w2 w3) as Hat.
  { intros y w3 Hr. apply atomic_runs in Hr; [|intros; apply idle_create_change|apply idle_revalidate].
    eapply (run_progress _ _ _ (drawn m) w2 y w3); [intros ??; apply drawn_idle|apply create_keeps|by apply sound_create|done|done]. }
  apply bind_cases in H as [(r & w3 & Hr & H)|(e & Hr & ->)]; [|by eapply Hat].
  transitivity w3; [by eapply Hat|]. apply idle_progress.
  assert (always idle (revalidate auth;; (mret r : M World FileStatus))) as Hend by idle_run. by eapply Hend.
Qed.

Lemma create_progress auth input : always progress (create others clock trust identity uuid fault auth input).
Proof.
  intros w x w' H. unfold create in H.
  apply bind_cases in H as [([] & w1 & Ht & H)|(e & Ht & ->)]; pose proof (idle_trusted _ _ _ _ _ Ht) as I1; [|by apply idle_progress].
  unfold limits, fail_if, deny_if in H.
  apply bind_cases in H as [(fs & w2 & Hf & H)|(e & Hf & ->)]; [apply lift_ok in Hf as [_ ->]|injection Hf as _ <-; by apply idle_progress].
  apply bind_cases in H as [(bd & w2 & Hb & H)|(e & Hb & ->)]; [apply lift_ok in Hb as [_ ->]|injection Hb as _ <-; by apply idle_progress].
  apply bind_cases in H as [(u & w2 & Hu & H)|(e & Hu & ->)]; [|discriminate Hu]. injection Hu as <- <-.
  apply bind_cases in H as [(? & w2 & Hv & H)|(e & Hv & ->)]; [apply lift_ok in Hv as [_ ->]|injection Hv as _ <-].
  2: { apply idle_progress. etrans; [done|]. apply rtc_once. by left. }
  apply bind_cases in H as [(c & w2 & Hc & H)|(e & Hc & ->)]; [apply lift_ok in Hc as [Hc ->]|injection Hc as _ <-].
  2: { apply idle_progress. etrans; [done|]. apply rtc_once. by left. }
  apply rethrow_ok, requested_transfer in Hc as [Hvc Hid].
  intros Hso. destruct (idle_progress _ _ I1 Hso) as (Hso1 & C1 & T1).
  assert (drawn (tick w1) (next w1)) as Hdr by (split; [by apply Hso1|cbn; lia]).
  assert (sound (next w1)) as Hso2 by (apply (idle_progress w1); [apply rtc_once; by left|done]).
  destruct (create_tail_progress auth c (tick w1) (next w1) x w' H Hvc Hid Hdr Hso2) as (Hso3 & C2 & T2).
  split; [done|]. split; [by etrans|]. cbn in T2. lia.
Qed.

Lemma cleanup_progress : always progress (cleanup others clock fault).
Proof.
  unfold cleanup. apply (always_bind progress); [apply always_idle_progress, idle_query|]. intros l.
  induction l as [|a l IH]; [apply always_idle_progress, (always_mret idle)|]. cbn [cleanup_accounts].
  apply (always_bind progress); [|done]. intros w x w' H. apply atomic_runs in H; [|intros; apply (always_mret idle)|apply (always_mret idle)].
  eapply (run_progress a _ None (λ _, True) w x w'); [done| | |exact H|done].
  - by intros l0 w0 r l' w0' [= _ <- _].
  - intros t1 t2 w0 r l' w0' wc stored l0 [= _ <- _] _ _ _ _. split; [apply change_none|].
    intros z Hz. left. exact (known_expired t1 t2 _ z Hz).
Qed.

(** The calls of the service. *)
Inductive Request :=
| req_create (auth : AuthenticatedContext) (input : jsval)
| req_status (auth : AuthenticatedContext) (id : string)
| req_put (auth : AuthenticatedContext) (id : string) (i : FileIndex) (v : jsval)
| req_complete (auth : AuthenticatedContext) (id : string)
| req_chunk (auth : AuthenticatedContext) (id : string) (n : jsnum)
| req_cancel (auth : AuthenticatedContext) (id : string)
| req_cleanup.
Definition serve (r : Request) (w : World) : World :=
  match r with
  | req_create auth input => (create others clock trust identity uuid fault auth input w).2
  | req_status auth id => (status others clock trust identity fault auth id w).2
  | req_put auth id i v => (put others clock trust identity fault auth id i v w).2
  | req_complete auth id => (complete others clock trust identity fault auth id w).2
  | req_chunk auth id n => (chunk others clock trust identity fault auth id n w).2
  | req_cancel auth id => (cancel others clock trust identity fault auth id w).2
  | req_cleanup => (cleanup others clock fault w).2
  end.

Lemma always_result {A} (R : World → World → Prop) (m : M World A) w : always R m → R w (m w).2.
Proof. intros H. eapply H. apply surjective_pairing. Qed.

Lemma serve_progress r w : progress w (serve r w).
Proof.
  destruct r as [auth input|auth id|auth id [|n] v|auth id|auth id n|auth id|]; cbn [serve]; apply always_result.
  - apply create_progress.
  - apply always_idle_progress, idle_access. apply idle_status.
  - apply access_progress; [done|apply idle_put_manifest|intros; apply sound_put_manifest].
  - apply access_progress; [done|apply idle_put_chunk|intros; apply sound_put_chunk].
  - apply access_progress; [done|apply idle_complete|intros; apply sound_complete].
  - apply always_idle_progress, idle_access. apply idle_chunk.
  - apply access_progress; [done|apply idle_cancel|intros; apply sound_cancel].
  - apply cleanup_progress.
Qed.

(** A history: calls, the work of others between them, and the deletions of the TTL index. *)
Inductive history_step (w : World) : World → Prop :=
| history_call r : history_step w (serve r w)
| history_env w' : env_step w w' → history_step w w'
| history_purge a : history_step w {| db := delete a (db w); tick := tick w |}.

Lemma history_sound w w' : rtc history_step w w' → sound w → sound w'.
Proof.
  induction 1 as [|w1 w2 w3 [r|w2' He|a] _ IH]; [done|..]; intros Hs; apply IH.
  - by apply serve_progress.
  - apply (idle_progress w1); [by apply rtc_once|done].
  - destruct Hs as [Hg Hf]. split; [by apply map_Forall_delete|]. intros m Hm (b & doc & f & Hd & Hin & E). apply (Hf m Hm).
    cbn [db] in Hd. apply lookup_delete_Some in Hd as [_ Hd]. by exists b, doc, f.
Qed.

Definition empty_world : World := {| db := ∅; tick := 0 |}.
Lemma empty_sound : sound empty_world.
Proof. split; [apply map_Forall_empty|]. intros m _ (a & doc & f & Hd & _). cbn [db empty_world] in Hd. by rewrite lookup_empty in Hd. Qed.

(** as long as an account lists a transfer, its context and validity never change, its state only advances
    (incomplete, available, cancelled, expired), and until it is released its manifest and every chunk recorded for it
    stay, byte for byte, what they were; once it is available nothing is added either. *)
Theorem recorded_objects_never_change a id d d' :
  good d → rtc (keeping a id) d d' → lists a id d → file_preserved a d d' id.
Proof.
  intros Hg H. induction H as [d|d1 d2 d3 (Hc & _ & Hl2) _ IH]; intros Hl.
  - intros doc f doc' f' Hd Hf Hid Hd' Hf' Hid'. assert (doc' = doc) as -> by congruence.
    rewrite (unique_id (transfers (ledger doc)) f f'); [done| |done|done|congruence]. apply (Hg a doc Hd).
  - intros doc f doc3 f3 Hd Hf Hid Hd3 Hf3 Hid3. pose proof Hl2 as (doc2 & f2 & Hd2 & Hf2 & Hid2).
    destruct (commit_preserves a id _ _ Hc Hg doc f doc2 f2) as [E12 O12]; try done.
    destruct (IH (commit_good _ _ Hc Hg) Hl2 doc2 f2 doc3 f3) as [E23 O23]; try done.
    split; [by etrans|]. intros Hr i Hi. destruct E12 as (_ & _ & _ & _ & _ & Hsub & _). destruct E23 as (_ & _ & _ & _ & Hres & _).
    rewrite O23; [apply O12; [lia|done]|done|]. destruct (Hsub ltac:(lia)) as [Hch _]. destruct Hi as [ck Hck]. exists ck. by eapply lookup_weaken.
Qed.

(** C33: every call of the file service, whatever other calls do at its awaits, whatever the clock shows, and even when its
    requests or replies to the database are lost, changes the database only by a sequence of the changes the contract
    allows, each made to the document as it stood when it was committed: a new transfer within the quotas, a manifest or a
    chunk of an incomplete transfer under a fresh nonce, the completion of a transfer that has all its parts, a
    cancellation, or the release of what has expired. *)
Theorem calls_commit_allowed_changes r w : good (db w) → fresh w → rtc commit (db w) (db (serve r w)) ∧ good (db (serve r w)).
Proof. intros Hg Hf. destruct (serve_progress r w (conj Hg Hf)) as ([Hg' _] & Hc & _). done. Qed.


(** ** Who may act *)
(** What a passed admission establishes: the permission, a device trust check and the identity the registry knows. *)
Definition admitted (auth : AuthenticatedContext) (p : AttachmentPermission) : Prop :=
  p ∈ permissions auth ∧ (∃ n, is_ok (trust n) = true) ∧
  ∃ n s, identityReference auth = Some s ∧ identity n (a_conversationId auth) (a_participantId auth) = Some s.

Lemma trusted_result auth p w w' : trusted auth p w = (Ok tt, w') → admitted auth p.
Proof.
  unfold FileLedger.trusted, FileLedger.revalidate, deny_if, now, await_ask. intros H. m_step H. m_step H. guard_inv Hm0.
  apply M_bind_ok in H as (u & w1 & Hr & H). apply M_bind_ok in Hr as (t & w2 & _ & Hr). apply M_bind_ok in Hr as (? & w3 & _ & Hr).
  apply M_bind_ok in Hr as ([] & w4 & Ht & _). injection Ht as Ht _.
  m_step H. guard_inv Hm1. apply M_bind_ok in H as (actual & w5 & Ha & H). injection Ha as Ha _. apply lift_ok in H as [H _]. guard_inv H.
  split; [tauto|]. split; [exists (tick w3); by rewrite Ht|]. destruct (identityReference auth) as [s|]; [|discriminate Hm1].
  eexists _, s. split; [done|]. etrans; [exact Ha|congruence].
Qed.

Lemma expired_projection t1 t2 doc id f : find_file id (transfers (expire_at t1 t2 doc)) = Some f →
  ∃ g, g ∈ transfers doc ∧ file_id g = id ∧ f = expire_one t1 g ∧ f_context f = f_context g.
Proof.
  intros Hf. destruct (find_file_elem _ _ _ Hf) as [(g & Hg & E)%expire_elem Hid]. exists g. split_and!; try done.
  - by rewrite <-Hid, E, expire_one_id.
  - rewrite E. unfold expire_one. by case_if.
Qed.

(** The account's file a call of [auth] on [id] found, and what makes [auth] its sender. *)
Definition sender_of (auth : AuthenticatedContext) (id : string) (d : DB) : Prop :=
  ∃ account doc f, d !! account = Some doc ∧ f ∈ transfers (ledger doc) ∧ file_id f = id ∧
    conversationId (f_context f) = a_conversationId auth ∧ is_sender auth (f_context f) = true.

Lemma access_writes {T} auth id p (action : StoredFile → string → M World (T * StoredFile)) o w x w' :
  p ≠ attachment_read → (∀ f a, always idle (action f a)) → access auth id p action o false w = (x, w') →
  idle w w' ∨
  (admitted auth p ∧ ∃ w1, idle w w1 ∧ sender_of auth id (db w1)).
Proof.
  intros Hp Ha H. destruct (access_runs _ _ _ _ _ _ _ _ _ Hp Ha H) as [[Hi _]|(account & w0 & x0 & w1 & (wt & Ht & I0) & Hr & I1 & _)]; [by left|].
  pose proof (idle_trusted _ _ _ _ _ Ht) as It.
  destruct Hr as [Hi _|w2 t1 t2 w3 r l' w4 w5 purge c d' l I2 _ Hc _ _ _ _ _]; [left; do 3 (etrans; [done|]); done|].
  right. split; [by eapply trusted_result|]. apply owner_change_result in Hc as (f & f' & Hf & Hconv & Hsend & _).
  subst l. destruct (db w2 !! account) as [doc|] eqn:Hd; simpl in Hf; [|discriminate Hf].
  destruct (expired_projection t1 t2 (ledger doc) id f Hf) as (g & Hg & Hid & _ & Hctx). rewrite Hctx in *.
  exists w2. split; [do 2 (etrans; [done|]); done|]. by exists account, doc, g.
Qed.

Definition writes (r : Request) : option (AuthenticatedContext * string * AttachmentPermission) :=
  match r with
  | req_put auth id _ _ | req_complete auth id => Some (auth, id, attachment_write)
  | req_cancel auth id => Some (auth, id, attachment_delete)
  | _ => None
  end.
Definition reads (r : Request) : bool := match r with req_status _ _ | req_chunk _ _ _ => true | _ => false end.

(** only the sender of a transfer changes it. A call to put, complete or cancel, whoever makes it, either leaves the
    database to the others, or its caller holds the permission, has passed the device-trust check, has the identity the
    registry gives its participant, and is the sender of that transfer in that conversation; and a status or download
    never changes anything. *)
Theorem only_the_sender_writes r w :
  (reads r = true → idle w (serve r w)) ∧
  (∀ auth id p, writes r = Some (auth, id, p) →
     idle w (serve r w) ∨ (admitted auth p ∧ ∃ w1, idle w w1 ∧ sender_of auth id (db w1))).
Proof.
  split.
  - destruct r as [| auth id | | |auth id n| |]; try done; intros _; cbn [serve]; apply always_result, idle_access;
      [apply idle_status|apply idle_chunk].
  - intros auth id p. destruct r as [| |auth' id' [|n] v|auth' id'| |auth' id'|]; intros H; try discriminate H; injection H as -> -> <-;
      cbn [serve]; unfold put, complete, cancel.
    + eapply access_writes; [done|apply idle_put_manifest|apply surjective_pairing].
    + eapply access_writes; [done|apply idle_put_chunk|apply surjective_pairing].
    + eapply access_writes; [done|apply idle_complete|apply surjective_pairing].
    + eapply access_writes; [done|apply idle_cancel|apply surjective_pairing].
Qed.

(** An available file of an account that [auth] may act on. *)
Definition available_to (who : AuthenticatedContext → AttachmentAuthenticatedContext → bool) (auth : AuthenticatedContext)
    (account id : string) (d : DB) : Prop :=
  ∃ doc f, d !! account = Some doc ∧ f ∈ transfers (ledger doc) ∧ file_id f = id ∧ f_state f = available ∧
    conversationId (f_context f) = a_conversationId auth ∧ who auth (f_context f) = true.
Definition is_party (auth : AuthenticatedContext) (c : AttachmentAuthenticatedContext) : bool := is_sender auth c || is_recipient auth c.

Lemma available_projection t1 t2 l id f : find_file id (transfers (expire_at t1 t2 l)) = Some f → f_state f = available →
  f ∈ transfers l ∧ file_id f = id.
Proof.
  intros Hf Hs. destruct (expired_projection _ _ _ _ _ Hf) as (g & Hg & Hid & -> & _). unfold expire_one in *.
  destruct (f_expiresAt g <=? t1); [discriminate Hs|done].
Qed.

Lemma locate_result d id l : good d → locate_in d id = Some l → ∃ doc, d !! l_id l = Some doc ∧ l = ledger doc.
Proof.
  intros Hg Hl. apply js_find_Some in Hl as [Hl _]. apply list_elem_of_fmap in Hl as (doc & -> & Hl).
  apply list_elem_of_fmap in Hl as ([a doc'] & E & Hin). cbn in E. subst doc'. apply elem_of_map_to_list in Hin.
  exists doc. split; [|done]. by rewrite (proj1 (Hg a doc Hin)).
Qed.

Lemma participants_differ c : valid_context c → senderParticipantId c ≠ recipientParticipantId c.
Proof.
  intros [(b & Hb) _]. unfold encodeAttachmentContext in Hb. apply bind_ok in Hb as (u & Hb & _). guard_inv Hb. tauto.
Qed.

Lemma authorize_result auth f w u w' : authorize auth f false w = (Ok u, w') →
  w' = w ∧ conversationId (f_context f) = a_conversationId auth ∧ is_party auth (f_context f) = true.
Proof.
  unfold authorize, deny_if, is_party. intros H. m_step H. apply lift_ok in H as [H ->]. guard_inv Hm. split_and!; [done..|].
  apply throw_if_ok, andb_false_iff in H. rewrite !negb_false_iff in H. apply orb_true_iff. tauto.
Qed.

Lemma chunk_action_result auth id n f a w obj f' w' : chunk_action others clock fault auth id n f a w = (Ok (obj, f'), w') →
  a_participantId auth = recipientParticipantId (f_context f) ∧ f_state f = available ∧
  ∃ i doc, chunk_index f n = Some i ∧ db w' !! a = Some doc ∧ objects doc !! (id, i) = Some obj.
Proof.
  unfold chunk_action, deny_if, fail_if. intros H. apply M_bind_ok in H as (u & w1 & _ & H).
  m_step H. guard_inv Hm. m_step H. guard_inv Hm0. apply negb_false_iff, bool_decide_eq_true in Hm0 || idtac.
  apply M_bind_ok in H as (i & w2 & Hi & H). apply lift_ok in Hi as [Hi ->]. apply require_ok in Hi.
  apply bind_Some in Hi as (i' & Hi & Hi'). apply bind_Some in Hi' as (ck & _ & Hi'). injection Hi' as ->.
  apply M_bind_ok in H as (o & w3 & Ho & H). apply query_result in Ho. cbn beta in Ho.
  m_step H. apply mret_ok in H as [H ->]. injection H as <- <-. apply require_ok in Hm1. rewrite Hm1 in Ho.
  destruct (db w3 !! a) as [doc|] eqn:Hd; [|discriminate Ho]. split_and!; [done|done|]. by exists i, doc.
Qed.

(** A download, from the snapshot it reads to the fence it passes last. *)
Lemma read_access_result {T} auth id (action : StoredFile → string → M World (T * StoredFile)) o w r w' :
  access auth id attachment_read action o false w = (Ok r, w') → (∀ f a, always idle (action f a)) → sound w →
  admitted auth attachment_read ∧
  ∃ w1 w2 w3 account t1 t2 f g t3 t4 t5 doc doc3 wa f1,
    idle w w1 ∧ db w1 !! account = Some doc ∧ find_file id (transfers (expire_at t1 t2 (ledger doc))) = Some f ∧
    conversationId (f_context f) = a_conversationId auth ∧ is_party auth (f_context f) = true ∧
    idle w1 w2 ∧ action f account wa = (Ok (f1, g), w2) ∧ idle w1 wa ∧
    idle w2 w3 ∧ db w3 !! account = Some doc3 ∧ idle w3 w' ∧
    ∃ current, find_file id (transfers (expire_at t3 t4 (ledger doc3))) = Some current ∧
      conversationId (f_context current) = a_conversationId auth ∧ is_party auth (f_context current) = true ∧
      ((f_state (expire_one t5 current) = f_state f ∧ r = f1) ∨
       (f_state (expire_one t5 current) ≠ f_state f ∧ ∃ wb g', action (expire_one t5 current) account wb = (Ok (r, g'), w'))).
Proof.
  unfold FileLedger.access, deny_if, require_or_deny. rewrite bool_decide_eq_true_2 by done. intros H Hidle Hso.
  apply M_bind_ok in H as ([] & wt & Ht & H). pose proof (idle_trusted _ _ _ _ _ Ht) as It.
  split; [by eapply trusted_result|]. m_step H.
  apply M_bind_ok in H as (loc & w1 & Hl & H). pose proof (idle_query _ _ _ _ Hl) as I1. apply query_result in Hl. cbn beta in Hl.
  apply M_bind_ok in H as (l & ? & Hq & H). apply lift_ok in Hq as [Hq ->]. apply require_ok in Hq. rewrite Hq in Hl. symmetry in Hl.
  assert (idle w w1) as I01 by (by etrans). destruct (idle_progress _ _ I01 Hso) as ([Hg1 _] & _).
  destruct (locate_result _ _ _ Hg1 Hl) as (doc & Hd & ->).
  apply M_bind_ok in H as (snap & w2 & He & H). pose proof (idle_expire _ _ _ _ He) as I2. apply expire_result in He as (t1 & t2 & ->).
  apply M_bind_ok in H as (f & ? & Hf & H). apply lift_ok in Hf as [Hf ->]. apply require_ok in Hf.
  apply M_bind_ok in H as (u & w2' & Ha & H). apply authorize_result in Ha as (-> & Hconv & Hparty).
  apply M_bind_ok in H as ([f1 g] & w3 & Hact & H). pose proof (Hidle _ _ _ _ _ Hact) as I3.
  apply M_bind_ok in H as (lat & w4 & Hr & H). pose proof (idle_query _ _ _ _ Hr) as I4. apply query_result in Hr. cbn beta in Hr.
  apply M_bind_ok in H as (l3 & ? & Hq3 & H). apply lift_ok in Hq3 as [Hq3 ->]. apply require_ok in Hq3. rewrite Hq3 in Hr.
  destruct (db w4 !! l_id (ledger doc)) as [doc3|] eqn:Hd3; [|discriminate Hr]. injection Hr as ->.
  apply M_bind_ok in H as (chk & w5 & He & H). pose proof (idle_expire _ _ _ _ He) as I5. apply expire_result in He as (t3 & t4 & ->).
  apply M_bind_ok in H as (cur & ? & Hf3 & H). apply lift_ok in Hf3 as [Hf3 ->]. apply require_ok in Hf3.
  apply M_bind_ok in H as (u' & w5' & Ha & H). apply authorize_result in Ha as (-> & Hconv3 & Hparty3).
  apply M_bind_ok in H as (u'' & w6 & Hrv & H). pose proof (idle_revalidate _ _ _ _ Hrv) as I6.
  apply M_bind_ok in H as (t5 & w7 & Hn5 & H). pose proof (idle_ask _ _ _ _ Hn5) as I7.
  apply M_bind_ok in H as (t6 & w8 & Hn6 & H). pose proof (idle_ask _ _ _ _ Hn6) as I8.
  m_step H.
  assert (idle w4 w8) as I48 by (do 3 (etrans; [done|]); done).
  exists w1, w3, w4, (l_id (ledger doc)), t1, t2, f, g, t3, t4, t5, doc, doc3, w2, f1. split_and!; try done; [by etrans| |].
  - destruct (negb false && _) in H; [by apply mret_ok in H as [_ ->]|].
    apply M_bind_ok in H as ([r2 g'] & w9 & Hact2 & H). apply mret_ok in H as [_ ->]. etrans; [done|by eapply Hidle].
  - exists cur. split_and!; try done. cbn [negb andb] in H. destruct (bool_decide _) eqn:Hs in H.
    + apply bool_decide_eq_true in Hs. apply mret_ok in H as [-> ->]. by left.
    + right. apply bool_decide_eq_false in Hs. split; [done|]. apply M_bind_ok in H as ([r2 g'] & w9 & Hact2 & H). apply mret_ok in H as [H ->]. exists w8, g'. by rewrite <-H.
Qed.

(** C35: only the recipient downloads, and a cancellation wins over a download. A chunk is served only to a caller that is
    admitted and is the recipient of the transfer in that conversation, from a transfer that was available when the object
    was fetched and was found available once more after it; what is served is the object stored for that chunk. *)
Theorem only_the_recipient_downloads auth id n w r w' :
  sound w → chunk others clock trust identity fault auth id n w = (Ok r, w') →
  admitted auth attachment_read ∧
  ∃ w1 w2 w3 account i,
    idle w w1 ∧ available_to is_recipient auth account id (db w1) ∧
    idle w1 w2 ∧ (∃ doc, db w2 !! account = Some doc ∧ objects doc !! (id, i) = Some r) ∧
    idle w2 w3 ∧ available_to is_party auth account id (db w3) ∧ idle w3 w'.
Proof.
  intros Hso H. unfold chunk in H.
  destruct (read_access_result _ _ _ _ _ _ _ H (idle_chunk auth id n) Hso) as (Hadm & w1 & w2 & w3 & account & t1 & t2 & f & g & t3 & t4 & t5
    & doc & doc3 & wa & f1 & I1 & Hd & Hf & Hconv & Hparty & I2 & Hact & _ & I3 & Hd3 & I4 & cur & Hf3 & Hconv3 & Hparty3 & Hend).
  split; [done|]. apply chunk_action_result in Hact as (Hrec & Hs & i & doc2 & _ & Hd2 & Hobj).
  destruct (idle_progress _ _ I1 Hso) as ([Hg1 _] & _). destruct (available_projection _ _ _ _ _ Hf Hs) as [Hin Hid].
  assert (f_state (expire_one t5 cur) = available ∧ r = f1) as [Hs3 ->].
  { destruct Hend as [[E ->]|(E & wb & g' & Hact)]; [by rewrite E|]. apply chunk_action_result in Hact as (_ & Hs3 & _). congruence. }
  assert (f_state cur = available) as Hcur.
  { unfold expire_one in Hs3. destruct (f_expiresAt cur <=? t5); [discriminate Hs3|done]. }
  destruct (available_projection _ _ _ _ _ Hf3 Hcur) as [Hin3 Hid3].
  assert (is_recipient auth (f_context f) = true) as Hrcp.
  { apply orb_true_iff in Hparty as [Hsend|?]; [exfalso|done]. unfold is_sender in Hsend. apply andb_true_iff in Hsend as [Hsend _].
    apply String.eqb_eq in Hsend. pose proof (Hg1 account doc Hd) as (_ & Hok & _). apply (files_ok_elem _ _ _ Hok) in Hin.
    apply file_ok_context, participants_differ in Hin. congruence. }
  exists w1, w2, w3, account, i. split_and!; try done; [by exists doc, f|by exists doc2|by exists doc3, cur].
Qed.
End service.

(** ** A transfer *)
Definition demo_id : string := "00000000-0000-4000-8000-000000000001".
Definition demo_conversation : string := "00000000-0000-4000-8000-00000000000c".
Definition demo_sender : string := "00000000-0000-4000-8000-00000000000a".
Definition demo_recipient : string := "00000000-0000-4000-8000-00000000000b".
Definition demo_sender_identity : string := "K3 AAAA AAAA AAAA AAAA AAAA AAAA AAAA AAAA AAAA AAAA AAA".
Definition demo_recipient_identity : string := "K3 BBBB BBBB BBBB BBBB BBBB BBBB BBBB BBBB BBBB BBBB BBB".
Definition demo_auth (p i account : string) : AuthenticatedContext :=
  {| a_sessionId := "session"; a_participantId := p; a_conversationId := demo_conversation;
     permissions := [attachment_create; attachment_write; attachment_read; attachment_delete]; a_requestId := "request";
     identityReference := Some i; accountIdentityReference := Some account; a_createdAt := 0; a_expiresAt := 1000000 |}.
Definition alice : AuthenticatedContext := demo_auth demo_sender demo_sender_identity "account-a".
Definition bob : AuthenticatedContext := demo_auth demo_recipient demo_recipient_identity "account-b".
Definition demo_identity (n : nat) (c p : string) : option string :=
  if String.eqb p demo_sender then Some demo_sender_identity
  else if String.eqb p demo_recipient then Some demo_recipient_identity else None.
Definition demo_uuid (n : nat) : string := if (n =? 5)%nat then demo_id else "draw-" +:+ N_str (N.of_nat n).
Definition demo_clock (n : nat) : Z := 1000 + Z.of_nat n.
(** Another call's cleanup commits while Alice completes her transfer. *)
Definition demo_others (n : nat) (d : DB) : DB :=
  if (n =? 87)%nat then
    match d !! "account-a" with
    | Some doc => (update_document (ledger doc) (next_ledger "account-a" (ledger doc) (transfers (expire_at 0 0 (ledger doc)))) None 0 d).2
    | None => d
    end
  else d.
(** The reply to Alice's first upload of the chunk is lost. *)
Definition demo_fault (n : nat) : Fault := if (n =? 54)%nat then reply_lost else served.
Definition demo_input : jsval :=
  JObj [("version", JNum (NInt 2));
        ("binding", JObj [("conversationId", JStr demo_conversation); ("senderParticipantId", JStr demo_sender);
          ("recipientParticipantId", JStr demo_recipient); ("senderIdentityReference", JStr demo_sender_identity);
          ("recipientIdentityReference", JStr demo_recipient_identity)]);
        ("fileSize", JNum (NInt 1))].
Definition demo_object (c : ascii) (n : nat) : WireObject := {| w_nonce := b64 (replicate 12 c); w_ciphertext := b64 (replicate n c) |}.
Definition demo_serve : Request → World → World :=
  serve demo_others demo_clock (λ _, Ok tt) demo_identity demo_uuid demo_fault.
Definition demo_requests : list Request :=
  [req_create alice demo_input; req_put alice demo_id at_manifest (wire_json (demo_object "m"%char 40));
   req_put alice demo_id (at_chunk (NInt 0)) (wire_json (demo_object "c"%char 17));
   req_put alice demo_id (at_chunk (NInt 0)) (wire_json (demo_object "c"%char 17));
   req_complete alice demo_id].
Fixpoint demo_world (n : nat) : World :=
  match n with O => empty_world | S k => demo_serve (nth k demo_requests req_cleanup) (demo_world k) end.

Lemma demo_others_step n d : good d → demo_others n d = d ∨ commit d (demo_others n d).
Proof.
  intros Hg. unfold demo_others. destruct (n =? 87)%nat; [|by left]. destruct (d !! "account-a") as [doc|] eqn:Hd; [|by left].
  set (l' := next_ledger "account-a" (ledger doc) (transfers (expire_at 0 0 (ledger doc)))).
  destruct (update_document (ledger doc) l' None 0 d) as [r d'] eqn:Hu. cbn [snd].
  destruct (write_commits d d d "account-a" (transfers (expire_at 0 0 (ledger doc))) None 0 0 0 r d' Hg) as [->|(_ & _ & Hc & _)];
    [done|done|rewrite Hd; intros; apply change_none|by rewrite Hd|by left|by right].
Qed.
Lemma demo_others_commit n d : good d → rtc commit d (demo_others n d).
Proof. intros Hg. destruct (demo_others_step n d Hg) as [->|H]; [done|by apply rtc_once]. Qed.
Lemma demo_others_listed n m d : listed (demo_others n d) (demo_uuid m) → listed d (demo_uuid m).
Proof.
  unfold demo_others. destruct (n =? 87)%nat; [|done]. destruct (d !! "account-a") as [doc|] eqn:Hd; [|done].
  unfold update_document. cbv zeta iota. destruct (d !! l_id (ledger doc)) as [doc0|]; [|done].
  destruct (negb _); [done|]. cbn [snd]. intros (b & doc' & f & Hb & Hf & E). destruct (decide (b = l_id (ledger doc))) as [->|Hne].
  - rewrite lookup_insert_eq in Hb. injection Hb as <-. cbn [ledger transfers next_ledger] in Hf.
    apply known_expired, list_elem_of_fmap in Hf as (g & Eg & Hg). exists "account-a", doc, g. split_and!; [done|done|congruence].
  - rewrite lookup_insert_ne in Hb by done. by exists b, doc', f.
Qed.
Lemma demo_uuid_inj n m : demo_uuid n = demo_uuid m → n = m.
Proof.
  unfold demo_uuid. destruct (Nat.eqb_spec n 5), (Nat.eqb_spec m 5); subst; try done.
  intros H. assert (N_str (N.of_nat n) = N_str (N.of_nat m)) as E by (by injection H).
  apply (f_equal digits_N) in E. rewrite !N_str_digits in E. lia.
Qed.

Lemma demo_history n : rtc (history_step demo_others demo_clock (λ _, Ok tt) demo_identity demo_uuid demo_fault) empty_world (demo_world n).
Proof. induction n as [|n IH]; [done|]. eapply rtc_r; [exact IH|]. cbn [demo_world]. apply history_call. Qed.
Lemma demo_sound n : sound demo_uuid (demo_world n).
Proof.
  eapply history_sound; [exact demo_others_commit|exact demo_others_listed|exact demo_uuid_inj|apply demo_history|apply empty_sound].
Qed.

Lemma calls_commit_allowed_changes_witness : rtc commit (db (demo_world 4)) (db (demo_world 5)) ∧ good (db (demo_world 5)).
Proof.
  apply (calls_commit_allowed_changes demo_others demo_clock (λ _, Ok tt) demo_identity demo_uuid demo_fault demo_others_commit
    demo_others_listed demo_uuid_inj (req_complete alice demo_id) (demo_world 4)); apply (demo_sound 4).
Defined.


Lemma only_the_sender_writes_witness :
  (** Bob, the recipient, tries to cancel Alice's transfer. *)
  idle demo_others (demo_world 5) (demo_serve (req_cancel bob demo_id) (demo_world 5)) ∨
  (admitted (λ _, Ok tt) demo_identity bob attachment_delete ∧
   ∃ w1, idle demo_others (demo_world 5) w1 ∧ sender_of bob demo_id (db w1)).
Proof.
  destruct (only_the_sender_writes demo_others demo_clock (λ _, Ok tt) demo_identity demo_uuid demo_fault (req_cancel bob demo_id)
    (demo_world 5)) as [_ H]. apply (H bob demo_id attachment_delete). reflexivity.
Defined.

Definition demo_download : res WireObject * World :=
  chunk demo_others demo_clock (λ _, Ok tt) demo_identity demo_fault bob demo_id (NInt 0) (demo_world 5).
Lemma demo_download_ok : demo_download = (Ok (demo_object "c"%char 17), demo_download.2).
Proof. assert (demo_download.1 = Ok (demo_object "c"%char 17)) as H by (vm_compute; reflexivity). by rewrite <-H, <-surjective_pairing. Qed.

Lemma only_the_recipient_downloads_witness :
  admitted (λ _, Ok tt) demo_identity bob attachment_read ∧
  ∃ w1 w2 w3 account i,
    idle demo_others (demo_world 5) w1 ∧ available_to is_recipient bob account demo_id (db w1) ∧
    idle demo_others w1 w2 ∧ (∃ doc, db w2 !! account = Some doc ∧ objects doc !! (demo_id, i) = Some (demo_object "c"%char 17)) ∧
    idle demo_others w2 w3 ∧ available_to is_party bob account demo_id (db w3) ∧ idle demo_others w3 demo_download.2.
Proof.
  apply (only_the_recipient_downloads demo_others demo_clock (λ _, Ok tt) demo_identity demo_uuid demo_fault demo_others_commit
    demo_others_listed bob demo_id (NInt 0) (demo_world 5) (demo_object "c"%char 17) demo_download.2); [apply demo_sound|exact demo_download_ok].
Defined.

Definition lists_now (a id : string) (d : DB) : bool :=
  match d !! a with Some doc => bool_decide (is_Some (find_file id (transfers (ledger doc)))) | None => false end.
Lemma lists_now_ok a id d : lists_now a id d = true → lists a id d.
Proof.
  unfold lists_now. destruct (d !! a) as [doc|] eqn:Hd; [|done]. intros [f Hf]%bool_decide_eq_true.
  apply find_file_elem in Hf as [Hin Hid]. by exists doc, f.
Qed.
Definition demo_later : DB := demo_others 87 (db (demo_world 5)).
Lemma demo_listed : lists_now "account-a" demo_id (db (demo_world 5)) = true ∧ lists_now "account-a" demo_id demo_later = true.
Proof. by vm_compute. Qed.
Lemma demo_keeping : rtc (keeping "account-a" demo_id) (db (demo_world 5)) demo_later.
Proof.
  destruct demo_listed as [H1%lists_now_ok H2%lists_now_ok]. unfold demo_later in *.
  destruct (demo_others_step 87 (db (demo_world 5)) (proj1 (demo_sound 5))) as [->|Hc]; [done|]. by apply rtc_once.
Qed.

Lemma recorded_objects_never_change_witness :
  lists "account-a" demo_id (db (demo_world 5)) ∧ file_preserved "account-a" (db (demo_world 5)) demo_later demo_id.
Proof.
  assert (lists "account-a" demo_id (db (demo_world 5))) as Hl by (apply lists_now_ok, demo_listed).
  split; [exact Hl|].
  apply (recorded_objects_never_change "account-a" demo_id (db (demo_world 5)) demo_later); [apply demo_sound|exact demo_keeping|exact Hl].
Defined.
