(* ===== verification/SyncProtocol.v ===== *)
(** * Synchronisation between devices: packages, transfers, frames ([sync/])

    [codec.ts], [stateMachine.ts], [authorization.ts], [transfer.ts], [fencing.ts] and [authenticatedTransport.ts].
    A package is the JavaScript object it is, by its fields in order, because its digest depends on that order. The
    encoded package is its text; the trust boundary is an interface, discharged by the enforcer of [Trust]. What a call
    reads from the boundary at its [i]-th observation is [trust i]. *)
From S2P Require Import Prelude Json DeviceList Lifecycle Trust.

(** ** Contracts *)
(* service/src/sync/contracts.ts:4-4 DeviceSyncState *)
Inductive DeviceSyncState := ds_pending | ds_approved | ds_syncing | ds_suspended | ds_revoked.
#[export] Instance DeviceSyncState_eq_dec : EqDecision DeviceSyncState.
Proof. solve_decision. Defined.
(* service/src/sync/contracts.ts:5-5 TransferState *)
Inductive TransferState := ts_created | ts_authorized | ts_transferring | ts_verified | ts_completed | ts_failed.
#[export] Instance TransferState_eq_dec : EqDecision TransferState.
Proof. solve_decision. Defined.

(* service/src/sync/contracts.ts:7-7 SyncCheckpoint *)
Record SyncCheckpoint := { cp_epoch : Z; cp_commitment : string }.
#[export] Instance SyncCheckpoint_eq_dec : EqDecision SyncCheckpoint.
Proof. solve_decision. Defined.
(* service/src/sync/contracts.ts:8-22 SyncAuthorization *)
Record SyncAuthorization := {
  sa_version : Z; sa_authorizationId : string; sa_scope : string; sourceDeviceId : string; sa_targetDeviceId : string;
  sourceIdentityReference : string; targetIdentityReference : string; sa_checkpoint : SyncCheckpoint; sa_transferId : string;
  sa_expiresAt : Z; activeMemberDeviceIds : option (list string); sa_freshnessRequired : bool;
  freshnessEvidence : list TrustFreshnessEvidence }.
(** A [SyncPackage], by its fields in order. *)
(* service/src/sync/contracts.ts:23-37 SyncPackage *)
Definition SyncPackage := list (string * jsval).
Definition package_keys : list string :=
  ["version"; "purpose"; "scope"; "sender"; "senderIdentity"; "receiver"; "receiverIdentity"; "checkpoint"; "streamId";
   "sequence"; "messageId"; "transferId"; "payload"].
Definition purposes : list string := ["sync-manifest"; "sync-chunk"; "sync-delta"; "sync-ack"; "sync-reconcile"].
(* service/src/sync/contracts.ts:38-38 SyncAcknowledgement *)
Record SyncAcknowledgement := { ack_transferId : string; ack_checkpoint : SyncCheckpoint; ack_sequence : Z; ack_digest : string }.
(* service/src/sync/contracts.ts:40-40 FenceRecord *)
Record FenceRecord := {
  fr_attemptId : string; fr_scope : string; fr_checkpoint : SyncCheckpoint; fr_deviceId : string; ledgerDigest : string;
  fr_createdAt : Z }.
(* service/src/sync/contracts.ts:41-41 ConflictRecord *)
Record ConflictRecord := {
  cr_attemptId : string; cr_scope : string; cr_checkpoint : SyncCheckpoint; proposals : list string; cr_reason : string }.

(* service/src/sync/contracts.ts:43-46 SyncTrustBoundary *)
Class SyncTrustBoundary (T : Type) := {
  trust_snapshot : T → res LifecycleStateSnapshot;
  trust_assertTrustedAt : Z → T → res unit }.

(** ** Packages *)
(** A property equal to a string or an integer: [p.k === s]. *)
Definition is_string (p : SyncPackage) (k s : string) : bool := bool_decide (get p k = JStr s).
Definition string_field (v : jsval) : bool := match v with JStr _ => true | _ => false end.
Definition text_of (v : jsval) : string := match v with JStr s => s | _ => "" end.
Definition int_of (v : jsval) : Z := default 0 (js_safe_int v).
Definition id_text (v : jsval) : bool := match v with JStr s => base64url_between 16 128 s | _ => false end.
Definition hash_text (v : jsval) : bool := match v with JStr s => hex64 s | _ => false end.
Definition int_from (lo : Z) (v : jsval) : bool := match js_safe_int v with Some z => lo <=? z | None => false end.
Definition is_undef (v : jsval) : bool := match v with JUndef => true | _ => false end.
Definition is_one (v : jsval) : bool := bool_decide (v = JNum (NInt 1)).

Definition checkpoint_json (c : SyncCheckpoint) : jsval :=
  JObj [("epoch", JNum (NInt (cp_epoch c))); ("commitment", JStr (cp_commitment c))].
(** [pkg.checkpoint] *)
Definition checkpoint_of (p : SyncPackage) : SyncCheckpoint :=
  {| cp_epoch := int_of (oprop (get p "checkpoint") "epoch"); cp_commitment := text_of (oprop (get p "checkpoint") "commitment") |}.

Definition PREFIX : string := "k3ncrypt-sync-v1:".
(* service/src/sync/codec.ts:24-24 encodeSyncPackage *)
Definition encodeSyncPackage (value : SyncPackage) : string := PREFIX +:+ stringify (JObj value).

Definition manifest_ok (payload : jsval) : bool :=
  match payload with
  | JObj fs =>
      String.eqb (join (js_sort string_cmp (keys fs))) "expectedChunkCount,finalContentCommitment,version" &&
      is_one (get fs "version") && int_from 1 (get fs "expectedChunkCount") && (int_of (get fs "expectedChunkCount") <=? 10000) &&
      hash_text (get fs "finalContentCommitment")
  | _ => false
  end.

(* service/src/sync/codec.ts:26-47 decodeSyncPackage *)
Definition decodeSyncPackage (text : string) : res SyncPackage :=
  let invalid := "Invalid sync package." in
  throw_if (65536 <? utf8_length text) "Sync package is too large.";;
  body ← require (strip_prefix PREFIX text) invalid;
  parsed ← require (parse body) invalid;
  value ← require (as_object parsed) invalid;
  let f := get value in
  throw_if (existsb (λ k, negb (includes package_keys k)) (keys value) || negb (is_one (f "version")) ||
    negb (string_field (f "scope")) || negb (string_field (f "sender")) || negb (string_field (f "receiver")) ||
    negb (string_field (f "senderIdentity")) || negb (string_field (f "receiverIdentity")) || negb (string_field (f "streamId")) ||
    negb (string_field (f "messageId")) || negb (int_from 1 (f "sequence")) ||
    negb (match f "checkpoint" with JObj _ | JArr _ => true | _ => false end)) invalid;;
  throw_if (negb (id_text (f "streamId")) || negb (id_text (f "messageId")) ||
    (negb (is_undef (f "transferId")) && negb (id_text (f "transferId")))) invalid;;
  let checkpoint := f "checkpoint" in
  throw_if (negb (int_from 0 (oprop checkpoint "epoch")) || negb (hash_text (oprop checkpoint "commitment")))
    "Invalid sync checkpoint.";;
  throw_if (negb (match f "purpose" with JStr s => includes purposes s | _ => false end)) "Invalid sync purpose.";;
  throw_if (bool_decide (f "purpose" = JStr "sync-manifest") && negb (manifest_ok (f "payload"))) "Invalid sync manifest.";;
  mret (set_key value "checkpoint" (checkpoint_json (checkpoint_of value))).

(** ** State machine *)
(* service/src/sync/stateMachine.ts:3-5 deviceTransitions *)
Definition deviceTransitions (from : DeviceSyncState) : list DeviceSyncState :=
  match from with
  | ds_pending => [ds_approved; ds_suspended; ds_revoked]
  | ds_approved => [ds_syncing; ds_suspended; ds_revoked]
  | ds_syncing => [ds_approved; ds_suspended; ds_revoked]
  | ds_suspended => [ds_pending; ds_approved; ds_revoked]
  | ds_revoked => []
  end.
(* service/src/sync/stateMachine.ts:6-8 transferTransitions *)
Definition transferTransitions (from : TransferState) : list TransferState :=
  match from with
  | ts_created => [ts_authorized; ts_failed]
  | ts_authorized => [ts_transferring; ts_failed]
  | ts_transferring => [ts_verified; ts_failed]
  | ts_verified => [ts_completed; ts_failed]
  | ts_completed | ts_failed => []
  end.
(* service/src/sync/stateMachine.ts:9-9 assertDeviceTransition *)
Definition assertDeviceTransition (from to : DeviceSyncState) : res unit :=
  throw_if (negb (bool_decide (from = to)) && negb (bool_decide (to ∈ deviceTransitions from))) "Invalid sync device transition.".
(* service/src/sync/stateMachine.ts:10-10 assertTransferTransition *)
Definition assertTransferTransition (from to : TransferState) : res unit :=
  throw_if (negb (bool_decide (from = to)) && negb (bool_decide (to ∈ transferTransitions from))) "Invalid sync transfer transition.".

Section protocol.
Context (sha256_hex : string → string).

(* service/src/sync/codec.ts:18-18 syncDigest *)
Definition syncDigest (value : jsval) : string := sha256_hex (stringify value).
Definition chunk_json (c : Z * string) : jsval := JObj [("sequence", JNum (NInt c.1)); ("digest", JStr c.2)].
Definition by_sequence (l : list (Z * string)) : list (Z * string) := js_sort (λ a b, a.1 - b.1) l.
(* service/src/sync/codec.ts:19-20 syncContentCommitment *)
Definition syncContentCommitment (transferId : string) (chunks : list (Z * string)) : string :=
  syncDigest (JObj [("version", JNum (NInt 1)); ("transferId", JStr transferId); ("chunks", JArr (chunk_json <$> by_sequence chunks))]).
(* service/src/sync/codec.ts:22-22 verifySyncDigest *)
Definition verifySyncDigest (value : SyncPackage) (expected : string) : bool :=
  hex64 expected && String.eqb (syncDigest (JObj value)) expected.
(* service/src/sync/codec.ts:49-51 verifyDeviceListCheckpoint *)
Definition verifyDeviceListCheckpoint (l : DeviceList) (c : SyncCheckpoint) : res unit :=
  let mismatch := "Sync checkpoint mismatch." in
  throw_if (negb (epoch l =? cp_epoch c)) mismatch;;
  computed ← deviceListCommitment sha256_hex l;
  throw_if (negb (String.eqb computed (cp_commitment c))) mismatch.

Context `{SyncTrustBoundary T}.

(** ** Authorization *)
Definition members_of (a : SyncAuthorization) : list string := default [sourceDeviceId a; sa_targetDeviceId a] (activeMemberDeviceIds a).
Definition active_with_identity (l : DeviceList) (device identity : string) : bool :=
  match deviceEntryById l device with
  | Some e => bool_decide (state e = active) && String.eqb (publicIdentityReference e) identity
  | None => false
  end.
(* service/src/sync/authorization.ts:4-13 authorizeSync *)
Definition authorizeSync (a : SyncAuthorization) (trust trust' : T) (now : Z) : res unit :=
  let rejected := "Sync authorization rejected." in
  let members := members_of a in
  throw_if (negb (sa_version a =? 1) || negb (nonempty (sa_scope a)) || negb (nonempty (sourceDeviceId a)) ||
    negb (nonempty (sa_targetDeviceId a)) || String.eqb (sourceDeviceId a) (sa_targetDeviceId a) || negb (isSafeInteger (sa_expiresAt a)) ||
    (sa_expiresAt a <? now) || negb (includes members (sourceDeviceId a)) || negb (includes members (sa_targetDeviceId a)) ||
    negb (bool_decide (NoDup members))) rejected;;
  snapshot ← trust_snapshot trust;
  verifyDeviceListCheckpoint (snapshot_list snapshot) (sa_checkpoint a);;
  trust_assertTrustedAt (cp_epoch (sa_checkpoint a)) trust';;
  throw_if (negb (active_with_identity (snapshot_list snapshot) (sourceDeviceId a) (sourceIdentityReference a)) ||
    negb (active_with_identity (snapshot_list snapshot) (sa_targetDeviceId a) (targetIdentityReference a))) rejected.

(** ** Transfers *)
(** The fields of a controller, with those of its [SyncStateMachine]; the chunks are the [Map] in insertion order. *)
(* service/src/sync/transfer.ts:8-15 fields in SyncTransferController *)
Record transfer := {
  tr_device : DeviceSyncState; tr_state : TransferState; tr_received : gmap Z string; tr_chunks : list (Z * string);
  tr_manifest : option jsval }.
Definition new_transfer : transfer :=
  {| tr_device := ds_pending; tr_state := ts_created; tr_received := ∅; tr_chunks := []; tr_manifest := None |}.
Definition with_device (d : DeviceSyncState) (t : transfer) : transfer :=
  {| tr_device := d; tr_state := tr_state t; tr_received := tr_received t; tr_chunks := tr_chunks t; tr_manifest := tr_manifest t |}.
Definition with_state (s : TransferState) (t : transfer) : transfer :=
  {| tr_device := tr_device t; tr_state := s; tr_received := tr_received t; tr_chunks := tr_chunks t; tr_manifest := tr_manifest t |}.
Definition with_received (n : Z) (d : string) (t : transfer) : transfer :=
  {| tr_device := tr_device t; tr_state := tr_state t; tr_received := <[n := d]> (tr_received t); tr_chunks := tr_chunks t;
     tr_manifest := tr_manifest t |}.
Definition with_manifest (m : jsval) (t : transfer) : transfer :=
  {| tr_device := tr_device t; tr_state := tr_state t; tr_received := tr_received t; tr_chunks := tr_chunks t; tr_manifest := Some m |}.
(** [map.set(k, v)] *)
Fixpoint map_set (k : Z) (v : string) (l : list (Z * string)) : list (Z * string) :=
  match l with [] => [(k, v)] | (k', v') :: l' => if k =? k' then (k, v) :: l' else (k', v') :: map_set k v l' end.
Definition with_chunk (n : Z) (d : string) (t : transfer) : transfer :=
  {| tr_device := tr_device t; tr_state := tr_state t; tr_received := tr_received t; tr_chunks := map_set n d (tr_chunks t);
     tr_manifest := tr_manifest t |}.

(* service/src/sync/stateMachine.ts:13-13 transitionDevice *)
Definition transitionDevice (next : DeviceSyncState) : M transfer unit :=
  observe (λ t, assertDeviceTransition (tr_device t) next);; modify (with_device next).
(* service/src/sync/stateMachine.ts:14-14 transitionTransfer *)
Definition transitionTransfer (next : TransferState) : M transfer unit :=
  observe (λ t, assertTransferTransition (tr_state t) next);; modify (with_state next).
(* service/src/sync/stateMachine.ts:15-15 suspend *)
Definition suspend_transfer : M transfer unit := modify (λ t,
  let t := if bool_decide (tr_device t = ds_revoked) then t else with_device ds_suspended t in
  if bool_decide (tr_state t ∈ [ts_completed; ts_failed]) then t else with_state ts_failed t).

Context (a : SyncAuthorization).

(* service/src/sync/transfer.ts:18-22 SyncTransferController.authorize *)
Definition authorize_transfer (trust trust' : T) (now : Z) : M transfer unit :=
  lift (authorizeSync a trust trust' now);;
  transitionDevice ds_approved;;
  transitionTransfer ts_authorized.

(* service/src/sync/transfer.ts:24-24 SyncTransferController.begin *)
Definition begin_transfer : M transfer unit := transitionDevice ds_syncing;; transitionTransfer ts_transferring.

(** The checks that bind a package to the authorization. *)
Definition authorized_package (p : SyncPackage) : bool :=
  is_string p "scope" (sa_scope a) && is_string p "sender" (sourceDeviceId a) && is_string p "receiver" (sa_targetDeviceId a) &&
  is_string p "transferId" (sa_transferId a) && bool_decide (checkpoint_of p = sa_checkpoint a).
Definition identified_package (p : SyncPackage) : bool :=
  is_string p "senderIdentity" (sourceIdentityReference a) && is_string p "receiverIdentity" (targetIdentityReference a).

(* service/src/sync/transfer.ts:26-43 SyncTransferController.accept *)
Definition accept_package (package : SyncPackage) (trust : T) (now : Z) : M transfer SyncAcknowledgement :=
  p ← lift (decodeSyncPackage (encodeSyncPackage package));
  lift (throw_if (negb (identified_package p) || (sa_expiresAt a <=? now)) "Sync identity or expiry rejected.");;
  t ← gets id;
  lift (throw_if (negb (bool_decide (tr_device t = ds_syncing)) || negb (bool_decide (tr_state t = ts_transferring)))
    "Sync transfer is unavailable.");;
  lift (throw_if (negb (authorized_package p)) "Sync package authorization rejected.");;
  lift (trust_assertTrustedAt (cp_epoch (checkpoint_of p)) trust);;
  let digest := syncDigest (JObj p) in
  let sequence := int_of (get p "sequence") in
  (if match tr_received t !! sequence with Some prior => nonempty prior && negb (String.eqb prior digest) | None => false end
   then suspend_transfer;; throw "Sync sequence conflict." else mret tt);;
  (if is_string p "purpose" "sync-manifest" then
     lift (throw_if (bool_decide (is_Some (tr_manifest t))) "Sync manifest replayed.");;
     modify (with_manifest (get p "payload"))
   else if is_string p "purpose" "sync-chunk" || is_string p "purpose" "sync-delta" then modify (with_chunk sequence digest)
   else mret tt);;
  modify (with_received sequence digest);;
  mret {| ack_transferId := sa_transferId a; ack_checkpoint := sa_checkpoint a; ack_sequence := sequence; ack_digest := digest |}.

(* service/src/sync/transfer.ts:45-50 SyncTransferController.complete *)
Definition complete_transfer : M transfer unit :=
  t ← gets id;
  manifest ← lift (match tr_manifest t with
    | Some m => if bool_decide (oprop m "expectedChunkCount" = JNum (NInt (Z.of_nat (length (tr_chunks t))))) then Ok m
                else Err "Sync transfer is incomplete."
    | None => Err "Sync transfer is incomplete." end);
  (if negb (bool_decide (oprop manifest "finalContentCommitment" = JStr (syncContentCommitment (sa_transferId a) (tr_chunks t))))
   then suspend_transfer;; throw "Sync content commitment rejected." else mret tt);;
  transitionTransfer ts_verified;; transitionTransfer ts_completed;; transitionDevice ds_approved.

(* service/src/sync/transfer.ts:51-51 SyncTransferController.fail *)
Definition fail_transfer : M transfer unit :=
  t ← gets id;
  (if bool_decide (tr_state t = ts_completed) then mret tt else transitionTransfer ts_failed);;
  transitionDevice ds_suspended.
End protocol.

(** ** Fencing *)
Section fencing.
(** The members, scope and checkpoint of one coordinator. *)
Context (scope : string) (checkpoint : SyncCheckpoint) (members : list string).
(* service/src/sync/fencing.ts:3-7 SyncFenceCoordinator, fields *)
Record fences := { fence_of : gmap string FenceRecord; conflicts : gmap string ConflictRecord; blocked : bool }.
Definition no_fences : fences := {| fence_of := ∅; conflicts := ∅; blocked := false |}.
(* service/src/sync/fencing.ts:8-13 recordFence *)
Definition recordFence (r : FenceRecord) : M fences unit :=
  lift (throw_if (negb (String.eqb (fr_scope r) scope) || (strlen (fr_attemptId r) <? 16) ||
    negb (bool_decide (fr_checkpoint r = checkpoint)) || negb (includes members (fr_deviceId r))) "Sync fence rejected.");;
  prior ← gets (λ s, fence_of s !! fr_deviceId r);
  lift (throw_if (match prior with Some p => negb (String.eqb (ledgerDigest p) (ledgerDigest r)) | None => false end)
    "Conflicting sync fence.");;
  modify (λ s, {| fence_of := <[fr_deviceId r := r]> (fence_of s); conflicts := conflicts s; blocked := true |}).
(* service/src/sync/fencing.ts:14-19 recordConflict *)
Definition recordConflict (r : ConflictRecord) : M fences unit :=
  lift (throw_if (negb (String.eqb (cr_scope r) scope) || negb (bool_decide (cr_checkpoint r = checkpoint))) "Sync conflict rejected.");;
  let sorted := js_sort string_cmp (proposals r) in
  lift (throw_if ((length sorted =? 0)%nat || existsb (λ p, negb (hex64 p)) sorted) "Sync conflict rejected.");;
  let record := {| cr_attemptId := cr_attemptId r; cr_scope := cr_scope r; cr_checkpoint := cr_checkpoint r; proposals := sorted;
                   cr_reason := cr_reason r |} in
  modify (λ s, {| fence_of := fence_of s; conflicts := <[cr_attemptId r := record]> (conflicts s); blocked := true |}).
(* service/src/sync/fencing.ts:21-21 hasAllFences *)
Definition hasAllFences (s : fences) : bool := forallb (λ m, bool_decide (is_Some (fence_of s !! m))) members.
(* service/src/sync/fencing.ts:23-23 canResume *)
Definition canResume (s : fences) : bool := hasAllFences s && (size (conflicts s) =? 0)%nat.
(* service/src/sync/fencing.ts:24-24 clearAfterResolution *)
Definition clearAfterResolution (attemptId : string) : M fences unit :=
  observe (λ s, throw_if (negb (bool_decide (is_Some (conflicts s !! attemptId))) || negb (hasAllFences s))
    "Sync resolution is incomplete.");;
  modify (λ s, let left := delete attemptId (conflicts s) in
    {| fence_of := fence_of s; conflicts := left; blocked := negb (size left =? 0)%nat |}).
End fencing.

(** ** Authenticated frames *)
(* service/src/sync/authenticatedTransport.ts:6-12 SyncSessionBinding *)
Record SyncSessionBinding := {
  session : N; sessionBinding : string; localIdentityReference : string; peerIdentityReference : string; peerDeviceId : string }.
(** A frame, with its object identity. *)
(* service/src/sync/authenticatedTransport.ts:14-20 AuthenticatedSyncFrame *)
Record AuthenticatedSyncFrame := {
  frame_object : N; fr_binding : string; senderIdentityReference : string; receiverIdentityReference : string;
  senderDeviceId : string; syncPackage : SyncPackage }.
(** The module's [WeakMap] of issued frames, and the next object identity. *)
Record issued_frames := { issued : gmap N N; next_object : N }.

(* service/src/sync/relay.ts:5-5 MAX_SYNC_ENVELOPE_BYTES *)
Definition MAX_SYNC_ENVELOPE_BYTES : Z := 192 * 1024.
(* service/src/sync/relay.ts:6-8 assertSyncEnvelopeSize *)
Definition assertSyncEnvelopeSize (envelope : jsval) : res unit :=
  throw_if (MAX_SYNC_ENVELOPE_BYTES <? utf8_length (stringify envelope)) "Sync envelope is too large.".

(** [usable s] says that a session is ready and encrypted. *)
(* service/src/sync/authenticatedTransport.ts:22-26 consumeAuthenticatedSyncFrame *)
Definition consumeAuthenticatedSyncFrame (usable : N → bool) (frame : AuthenticatedSyncFrame) : M issued_frames unit :=
  observe (λ s, throw_if (negb (match issued s !! frame_object frame with Some session => usable session | None => false end))
    "Authenticated sync frame rejected or replayed.");;
  modify (λ s, {| issued := delete (frame_object frame) (issued s); next_object := next_object s |}).

Section transport.
Context (sha256_hex : string → string) `{SyncTrustBoundary T}.
Context (binding : SyncSessionBinding) (scope localDeviceId : string) (usable : N → bool).

(* service/src/sync/authenticatedTransport.ts:33-40 validateTrust *)
Definition validateTrust (p : SyncPackage) (trust trust' : T) : res unit :=
  st ← trust_snapshot trust;
  verifyDeviceListCheckpoint sha256_hex (snapshot_list st) (checkpoint_of p);;
  trust_assertTrustedAt (cp_epoch (checkpoint_of p)) trust';;
  let active_member device identity := existsb (λ e, String.eqb (deviceId e) device &&
    String.eqb (publicIdentityReference e) identity && bool_decide (state e = active)) (devices (snapshot_list st)) in
  throw_if (negb (active_member localDeviceId (localIdentityReference binding)) ||
            negb (active_member (peerDeviceId binding) (peerIdentityReference binding))) "Authenticated sync trust rejected.".

(** The state is the envelopes handed to the relay; [relay] says how it answers. *)
(* service/src/sync/authenticatedTransport.ts:42-51 AuthenticatedSyncTransport.send *)
Definition send_package (encrypt : string → res jsval) (relay : jsval → res unit) (trust : nat → T) (p : SyncPackage)
    : M (list jsval) unit :=
  lift (throw_if (negb (usable (session binding)) || negb (is_string p "scope" scope) || negb (is_string p "sender" localDeviceId) ||
    negb (is_string p "senderIdentity" (localIdentityReference binding)) ||
    negb (is_string p "receiverIdentity" (peerIdentityReference binding)) || negb (is_string p "receiver" (peerDeviceId binding)))
    "Authenticated sync origin rejected.");;
  let encoded := encodeSyncPackage p in
  lift (decodeSyncPackage encoded);;
  lift (validateTrust p (trust 0%nat) (trust 1%nat));;
  envelope ← lift (encrypt encoded);
  lift (assertSyncEnvelopeSize envelope);;
  lift (validateTrust p (trust 2%nat) (trust 3%nat));;
  modify (λ sent, sent ++ [envelope]);;
  lift (relay envelope).

(* service/src/sync/authenticatedTransport.ts:53-67 AuthenticatedSyncTransport.receive *)
Definition receive_envelope (decrypt : jsval → res string) (trust trust' : T) (envelope : jsval) (expectedPeerDeviceId : string)
    : M issued_frames AuthenticatedSyncFrame :=
  lift (throw_if (negb (usable (session binding)) || negb (String.eqb expectedPeerDeviceId (peerDeviceId binding)) ||
    negb (nonempty (sessionBinding binding))) "Authenticated sync session rejected.");;
  lift (assertSyncEnvelopeSize envelope);;
  plaintext ← lift (decrypt envelope);
  p ← lift (decodeSyncPackage plaintext);
  lift (throw_if (negb (is_string p "scope" scope) || negb (is_string p "senderIdentity" (peerIdentityReference binding)) ||
    negb (is_string p "receiverIdentity" (localIdentityReference binding)) || negb (is_string p "receiver" localDeviceId) ||
    negb (is_string p "sender" (peerDeviceId binding))) "Authenticated sync identity rejected.");;
  lift (validateTrust p trust trust');;
  n ← gets next_object;
  modify (λ s, {| issued := <[n := session binding]> (issued s); next_object := n + 1 |});;
  mret {| frame_object := n; fr_binding := sessionBinding binding; senderIdentityReference := peerIdentityReference binding;
          receiverIdentityReference := localIdentityReference binding; senderDeviceId := peerDeviceId binding; syncPackage := p |}.
End transport.

(** The trust enforcer is such a boundary. *)
#[export] Instance enforcer_boundary `{DeviceLifecyclePersistence P} (sha256_hex : string → string) (scope device identity : string) :
    SyncTrustBoundary enforcer := {|
  trust_snapshot := snapshot sha256_hex scope;
  trust_assertTrustedAt := assertTrustedAt sha256_hex scope device identity |}.

(** ** The packages of the codec *)
(** The type of a package, as the decoder checks it. *)
Record sync_package (p : SyncPackage) : Prop := {
  sp_keys : Forall (λ k, k ∈ package_keys) (keys p);
  sp_version : get p "version" = JNum (NInt 1);
  sp_strings : Forall (λ k, string_field (get p k) = true) ["scope"; "sender"; "receiver"; "senderIdentity"; "receiverIdentity"];
  sp_ids : Forall (λ k, id_text (get p k) = true) ["streamId"; "messageId"];
  sp_transferId : get p "transferId" = JUndef ∨ id_text (get p "transferId") = true;
  sp_sequence : ∃ n, get p "sequence" = JNum (NInt n) ∧ isSafeInteger n = true ∧ 1 ≤ n;
  sp_checkpoint : ∃ c, get p "checkpoint" = checkpoint_json c ∧ isSafeInteger (cp_epoch c) = true ∧ 0 ≤ cp_epoch c ∧
    hex64 (cp_commitment c) = true;
  sp_purpose : ∃ s, get p "purpose" = JStr s ∧ s ∈ purposes;
  sp_manifest : get p "purpose" = JStr "sync-manifest" → manifest_ok (get p "payload") = true }.

Lemma js_safe_int_Some v z : js_safe_int v = Some z ↔ v = JNum (NInt z) ∧ isSafeInteger z = true.
Proof.
  destruct v; cbn; try (split; [discriminate|by intros [? _]]). rewrite safe_int_Some. split; [by intros [-> ?]|by intros [[= ->] ?]].
Qed.

Lemma int_from_ok lo v : int_from lo v = true ↔ ∃ z, v = JNum (NInt z) ∧ isSafeInteger z = true ∧ lo ≤ z.
Proof.
  unfold int_from. destruct (js_safe_int v) as [z|] eqn:E.
  - apply js_safe_int_Some in E as [-> Hs]. split; [intros H; exists z; split_and!; [done|done|lia]|].
    intros (z' & [= <-] & _ & ?). lia.
  - split; [done|]. intros (z & -> & Hs & _). cbn in E. by rewrite Hs in E.
Qed.

Lemma hash_text_ok v : hash_text v = true ↔ ∃ s, v = JStr s ∧ hex64 s = true.
Proof. destruct v; cbn; try (split; [done|by intros (?&?&?)]). split; [by exists s|by intros (? & [= <-] & ?)]. Qed.

Lemma set_key_same fs k v : NoDup (keys fs) → get fs k = v → k ∈ keys fs → set_key fs k v = fs.
Proof.
  induction fs as [|[k0 v0] fs IH]; cbn; [set_solver|]. intros [Hk Hn]%NoDup_cons. bdecide.
  - subst k0. by rewrite String.eqb_refl; intros ->.
  - destruct (String.eqb_spec k k0) as [->|_]; [done|]. intros Hg [->|Hin]%elem_of_cons; [done|]. f_equal. by apply IH.
Qed.

Lemma set_key_keys_in fs k v : k ∈ keys fs → keys (set_key fs k v) = keys fs.
Proof.
  induction fs as [|[k0 v0] fs IH]; cbn; [set_solver|]. bdecide; [by subst k0|].
  intros [->|Hin]%elem_of_cons; [done|]. cbn. f_equal. by apply IH.
Qed.

Lemma includes_In l s : includes l s = true ↔ s ∈ l.
Proof. unfold includes. rewrite existsb_eqb, bool_decide_eq_true. done. Qed.

Lemma only_keys (allowed ks : list string) : existsb (λ k, negb (includes allowed k)) ks = false ↔ Forall (λ k, k ∈ allowed) ks.
Proof.
  induction ks as [|k ks IH]; cbn; [done|]. rewrite orb_false_iff, negb_false_iff, includes_In, IH, Forall_cons. done.
Qed.

Lemma string_field_ok v : string_field v = true ↔ ∃ s, v = JStr s.
Proof. destruct v; cbn; naive_solver. Qed.
Lemma id_text_ok v : id_text v = true ↔ ∃ s, v = JStr s ∧ base64url_between 16 128 s = true.
Proof. destruct v; cbn; naive_solver. Qed.

(** The checkpoint a decoded package is rebuilt with. *)
Lemma checkpoint_rebuilt v :
  int_from 0 (oprop (get v "checkpoint") "epoch") = true → hash_text (oprop (get v "checkpoint") "commitment") = true →
  let c := checkpoint_of v in isSafeInteger (cp_epoch c) = true ∧ 0 ≤ cp_epoch c ∧ hex64 (cp_commitment c) = true.
Proof.
  intros (e & He & Hs & Hle)%int_from_ok (h & Hh & Hx)%hash_text_ok. unfold checkpoint_of. cbn. rewrite He, Hh. cbn.
  unfold int_of. cbn. rewrite Hs. done.
Qed.

Lemma decode_sound text p : decodeSyncPackage text = Ok p → sync_package p.
Proof.
  unfold decodeSyncPackage. intros H. res_inv H. subst p. rename x2 into v. clear H0 H1 H2 H3.
  rewrite !orb_false_iff, !negb_false_iff, only_keys in H4. destruct H4 as [[[[[[[[[[Hk Hv] H1] H2] H3] H4] H4'] Hst] Hms] Hseq] Hcp].
  rewrite !orb_false_iff, !negb_false_iff in H5. destruct H5 as [[Hi1 Hi2] Hti].
  rewrite orb_false_iff, !negb_false_iff in H6. destruct H6 as [He Hc]. apply negb_false_iff in H7.
  assert (∀ k, k ≠ "checkpoint" → get (set_key v "checkpoint" (checkpoint_json (checkpoint_of v))) k = get v k) as Hget.
  { intros k Hne. rewrite get_set_key. by destruct (String.eqb_spec k "checkpoint"). }
  assert ("checkpoint" ∈ keys v) as Hin by (apply get_present; by destruct (get v "checkpoint")).
  split; rewrite ?Hget by done.
  - by rewrite set_key_keys_in.
  - unfold is_one in Hv. by apply bool_decide_eq_true in Hv.
  - repeat constructor; by rewrite Hget.
  - repeat constructor; by rewrite Hget.
  - destruct (get v "transferId") eqn:E; cbn in Hti; auto; rewrite ?negb_false_iff in Hti; auto.
  - apply int_from_ok in Hseq. naive_solver.
  - exists (checkpoint_of v). rewrite get_set_key, String.eqb_refl. split; [done|]. by apply checkpoint_rebuilt.
  - destruct (get v "purpose") as [| | | |s| |]; try done. exists s. by rewrite <-includes_In.
  - intros Hp. rewrite Hp in H8. rewrite bool_decide_eq_true_2 in H8 by done. by apply negb_false_iff in H8.
Qed.

Lemma prefix_stripped v : strip_prefix PREFIX (encodeSyncPackage v) = Some (stringify (JObj v)).
Proof. apply strip_prefix_app. Qed.

Lemma decode_complete p :
  sync_package p → plain (JObj p) = true → utf8_length (encodeSyncPackage p) ≤ 65536 → decodeSyncPackage (encodeSyncPackage p) = Ok p.
Proof.
  intros [Hk Hv Hs Hi Ht Hq Hc Hp Hm] Hplain Hlen. unfold decodeSyncPackage.
  rewrite throw_if_false by lia. cbn [mbind res_bind]. rewrite prefix_stripped. cbn [require mbind res_bind].
  rewrite parse_stringify by done. cbn [require mbind res_bind as_object].
  rewrite !Forall_cons in Hs. rewrite !Forall_cons in Hi. destruct Hs as (S1 & S2 & S3 & S4 & S5 & _). destruct Hi as (I1 & I2 & _).
  destruct Hc as (c & Hc & Hce & Hcl & Hch). assert (checkpoint_of p = c) as Hcp.
  { unfold checkpoint_of. rewrite Hc. cbn. unfold int_of. cbn. rewrite Hce. by destruct c. }
  destruct Hq as (n & Hq & Hqs & Hql). destruct Hp as (u & Hp & Hpu).
  rewrite (throw_if_false (existsb _ _ || _ || _ || _ || _ || _ || _ || _ || _ || _ || _)). 2: {
    rewrite Hc. rewrite !orb_false_iff, !negb_false_iff, only_keys. split_and!; try done.
    - unfold is_one. by rewrite Hv, bool_decide_eq_true_2.
    - apply id_text_ok in I1 as (x & -> & _). done.
    - apply id_text_ok in I2 as (x & -> & _). done.
    - apply int_from_ok. by exists n. }
  cbn [mbind res_bind]. rewrite (throw_if_false (negb (id_text _) || _ || _)). 2: {
    rewrite I1, I2. cbn. destruct Ht as [->| ->]; [done|]. by rewrite andb_false_r. }
  cbn [mbind res_bind]. rewrite Hc. rewrite (throw_if_false (negb (int_from _ _) || _)). 2: {
    rewrite orb_false_iff, !negb_false_iff, int_from_ok, hash_text_ok. cbn. split; [by exists (cp_epoch c)|by exists (cp_commitment c)]. }
  cbn [mbind res_bind]. rewrite Hp. rewrite (throw_if_false (negb (includes purposes u))) by (by rewrite negb_false_iff, includes_In).
  cbn [mbind res_bind]. rewrite (throw_if_false (bool_decide _ && _)). 2: {
    destruct (decide (u = "sync-manifest")) as [->|Hne]; [rewrite Hm by done; apply andb_false_r|].
    rewrite bool_decide_eq_false_2 by congruence. done. }
  cbn [mbind res_bind mret res_ret]. f_equal. rewrite Hcp. apply set_key_same.
  - cbn in Hplain. apply andb_true_iff in Hplain as [_ Hn]. by apply bool_decide_eq_true in Hn.
  - done.
  - apply get_present. by rewrite Hc.
Qed.

(** the codec of sync packages: a text is decoded only to a package of the declared type - known fields only, the
    string fields strings, the identifiers and the commitment in their formats, a positive sequence, a known purpose, a
    manifest with its exact fields - and every package of that type that fits the size limit is decoded back to itself
    from its encoding, so a device can forward what it received unchanged. *)
Theorem sync_package_codec :
  (∀ text p, decodeSyncPackage text = Ok p → sync_package p) ∧
  ∀ p, sync_package p → plain (JObj p) = true → utf8_length (encodeSyncPackage p) ≤ 65536 → decodeSyncPackage (encodeSyncPackage p) = Ok p.
Proof. split; [apply decode_sound|apply decode_complete]. Qed.

(** ** Transfers *)
Inductive transfer_op (T : Type) :=
| TAuthorize (trust trust' : T) (now : Z)
| TBegin
| TAccept (p : SyncPackage) (trust : T) (now : Z)
| TComplete
| TFail.
Arguments TAuthorize {T}. Arguments TBegin {T}. Arguments TAccept {T}. Arguments TComplete {T}. Arguments TFail {T}.

Section transfers.
Context (sha256_hex : string → string) `{SyncTrustBoundary T} (a : SyncAuthorization).

Definition run_transfer (op : transfer_op T) (t : transfer) : transfer :=
  match op with
  | TAuthorize trust trust' now => (authorize_transfer sha256_hex a trust trust' now t).2
  | TBegin => (begin_transfer t).2
  | TAccept p trust now => (accept_package sha256_hex a p trust now t).2
  | TComplete => (complete_transfer sha256_hex a t).2
  | TFail => (fail_transfer t).2
  end.
Definition run_transfers (ops : list (transfer_op T)) (t : transfer) : transfer := foldl (λ t op, run_transfer op t) t ops.

(** A chunk of the transfer: the digest of a package the authorization admits, trusted when it came. *)
Definition authentic_chunk (c : Z * string) : Prop :=
  ∃ p trust, sync_package p ∧ authorized_package a p = true ∧ identified_package a p = true ∧
    trust_assertTrustedAt (cp_epoch (checkpoint_of p)) trust = Ok tt ∧
    c = (int_of (get p "sequence"), syncDigest sha256_hex (JObj p)).
(** The manifest announces exactly the chunks received. *)
Definition exact (t : transfer) : Prop :=
  ∃ m, tr_manifest t = Some m ∧ oprop m "expectedChunkCount" = JNum (NInt (Z.of_nat (length (tr_chunks t)))) ∧
    oprop m "finalContentCommitment" = JStr (syncContentCommitment sha256_hex (sa_transferId a) (tr_chunks t)).
Definition authorized_once : Prop := ∃ trust trust' now, authorizeSync sha256_hex a trust trust' now = Ok tt.
Record transfer_ok (t : transfer) : Prop := {
  ok_chunks : Forall authentic_chunk (tr_chunks t);
  ok_sequences : NoDup (tr_chunks t).*1;
  ok_authorized : tr_state t ∉ [ts_created; ts_failed] → authorized_once;
  ok_done : tr_state t ∈ [ts_verified; ts_completed] → exact t }.

Lemma map_set_keys n d (l : list (Z * string)) : n ∉ l.*1 → map_set n d l = l ++ [(n, d)].
Proof.
  induction l as [|[k v] l IH]; cbn; [done|]. intros Hn. destruct (Z.eqb_spec n k) as [->|]; [set_solver|].
  f_equal. apply IH. set_solver.
Qed.
Lemma map_set_ok n d (l : list (Z * string)) (P : Z * string → Prop) :
  P (n, d) → Forall P l → NoDup l.*1 → Forall P (map_set n d l) ∧ NoDup (map_set n d l).*1.
Proof.
  intros Hp Hl Hn. assert (Forall P (map_set n d l) ∧ ∀ k, k ∈ (map_set n d l).*1 → k = n ∨ k ∈ l.*1) as [H1 _].
  { clear Hn. induction Hl as [|[k v] l Hk Hl IH]; cbn; [split; [by constructor|set_solver]|].
    destruct IH as [I1 I2]. destruct (Z.eqb_spec n k) as [->|]; cbn; (split; [by constructor|set_solver]). }
  split; [done|]. clear H1 Hp Hl. induction l as [|[k v] l IH]; cbn in *; [apply NoDup_singleton|].
  apply NoDup_cons in Hn as [Hk Hn]. destruct (Z.eqb_spec n k) as [->|Hne]; cbn; [by constructor|].
  constructor; [|by apply IH]. clear IH Hn. induction l as [|[k' v'] l IH]; cbn in *; [set_solver|].
  destruct (Z.eqb_spec n k') as [->|]; cbn in *; set_solver.
Qed.

Lemma device_ok d t : transfer_ok t → transfer_ok (with_device d t).
Proof. intros [? ? ? Hd]. split; try done. Qed.
Lemma received_ok n d t : transfer_ok t → transfer_ok (with_received n d t).
Proof. intros [? ? ? Hd]. split; try done. Qed.
Lemma failed_ok t : transfer_ok t → transfer_ok (with_state ts_failed t).
Proof. intros [? ? ? Hd]. split; try done; cbn; set_solver. Qed.
Lemma suspend_ok t u t' : suspend_transfer t = (u, t') → transfer_ok t → transfer_ok t'.
Proof.
  unfold suspend_transfer, modify. intros [= _ <-] Ht.
  assert (transfer_ok (if bool_decide (tr_device t = ds_revoked) then t else with_device ds_suspended t)) as Hd
    by (case_if; [done|by apply device_ok]).
  case_if; [done|by apply failed_ok].
Qed.

Lemma suspend_throw {A B} msg (k : A → M transfer B) t : transfer_ok t → transfer_ok (((suspend_transfer;; throw msg) ≫= k) t).2.
Proof.
  intros Ht. unfold mbind, M_bind. destruct (suspend_transfer t) as [[u|e] t1] eqn:E; cbn; by eapply suspend_ok.
Qed.

Lemma transitionDevice_ok d t r t' : transitionDevice d t = (r, t') → transfer_ok t → transfer_ok t'.
Proof.
  unfold transitionDevice. rewrite observe_bind. destruct (assertDeviceTransition _ _); intros [= _ <-]; [apply device_ok|done].
Qed.

Lemma transitionTransfer_spec s t r t' : transitionTransfer s t = (r, t') →
  (is_ok r = false ∧ t' = t) ∨ (tr_state t = s ∨ s ∈ transferTransitions (tr_state t)) ∧ t' = with_state s t.
Proof.
  unfold transitionTransfer. rewrite observe_bind. unfold assertTransferTransition, throw_if.
  destruct (negb _ && _) eqn:E; [intros [= <- <-]; by left|]. cbn. intros [= _ <-]. right. split; [|done].
  rewrite andb_false_iff, !negb_false_iff, !bool_decide_eq_true in E. done.
Qed.
Lemma with_state_ok s t :
  transfer_ok t → (s ∉ [ts_created; ts_failed] → authorized_once) → (s ∈ [ts_verified; ts_completed] → exact t) →
  transfer_ok (with_state s t).
Proof. intros [? ? ? Hd] H1 H2. split; done. Qed.

Lemma transfer_authorize_ok trust trust' now t : transfer_ok t → transfer_ok (authorize_transfer sha256_hex a trust trust' now t).2.
Proof.
  intros Ht. unfold authorize_transfer. rewrite lift_bind. destruct (authorizeSync _ _ _ _ _) as [u|] eqn:Ea; [|done].
  destruct u. unfold mbind, M_bind. destruct (transitionDevice _ t) as [[u|e] t1] eqn:E1; apply transitionDevice_ok in E1 as Ht1; try done.
  destruct (transitionTransfer _ t1) as [r t2] eqn:E2. apply transitionTransfer_spec in E2 as [[_ ->]|[_ ->]]; [done|].
  apply with_state_ok; [done|by exists trust, trust', now|set_solver].
Qed.

Lemma begin_ok t : transfer_ok t → transfer_ok (begin_transfer t).2.
Proof.
  intros Ht. unfold begin_transfer, mbind, M_bind.
  destruct (transitionDevice _ t) as [[u|e] t1] eqn:E1; apply transitionDevice_ok in E1 as Ht1; try done.
  destruct (transitionTransfer _ t1) as [r t2] eqn:E2. apply transitionTransfer_spec in E2 as [[_ ->]|[Hs ->]]; [done|].
  apply with_state_ok; [done| |set_solver]. intros _. apply (ok_authorized _ Ht1).
  destruct Hs as [->|Hs]; [set_solver|]. destruct (tr_state t1); set_solver.
Qed.

Lemma accept_ok package trust now t : transfer_ok t → transfer_ok (accept_package sha256_hex a package trust now t).2.
Proof.
  intros Ht. unfold accept_package. rewrite lift_bind. destruct (decodeSyncPackage _) as [p|] eqn:Ep; [|done].
  rewrite lift_bind. destruct (throw_if _ _) eqn:Ei; [|done]. guard_inv Ei. destruct Ei as [Hid _].
  rewrite gets_bind. cbn [id]. rewrite lift_bind. destruct (throw_if _ _) eqn:Es; [|done]. guard_inv Es. destruct Es as [_ Hst].
  rewrite lift_bind. destruct (throw_if _ _) eqn:Eau; [|done]. guard_inv Eau.
  rewrite lift_bind. destruct (trust_assertTrustedAt _ _) as [[]|] eqn:Etr; [|done].
  assert (tr_state t ∉ [ts_verified; ts_completed]) as Hnd by (rewrite Hst; set_solver).
  destruct (match tr_received t !! _ with Some prior => nonempty prior && negb (String.eqb prior _) | None => false end).
  { by apply suspend_throw. }
  rewrite mret_bind. destruct (is_string p "purpose" "sync-manifest").
  - unfold mbind, M_bind, lift, throw_if. destruct (bool_decide (is_Some (tr_manifest t))); [done|]. cbn.
    apply received_ok. destruct Ht as [? ? ? Hd]. split; done.
  - destruct (is_string p "purpose" "sync-chunk" || is_string p "purpose" "sync-delta"); [|cbn; by apply received_ok].
    cbn. apply received_ok. destruct Ht as [Hc Hn Ha Hd].
    destruct (map_set_ok (int_of (get p "sequence")) (syncDigest sha256_hex (JObj p)) (tr_chunks t) authentic_chunk) as [H1 H2];
      [|done|done|split; try done].
    exists p, trust. split_and!; try done. by eapply decode_sound.
Qed.

Lemma complete_ok t : transfer_ok t → transfer_ok (complete_transfer sha256_hex a t).2.
Proof.
  intros Ht. unfold complete_transfer. rewrite gets_bind. cbn [id]. rewrite lift_bind.
  destruct (tr_manifest t) as [m|] eqn:Em; [|done]. destruct (bool_decide (oprop m "expectedChunkCount" = _)) eqn:Ec; [|done].
  apply bool_decide_eq_true in Ec. destruct (bool_decide (oprop m "finalContentCommitment" = _)) eqn:Ef; cbn [negb].
  2: { by apply suspend_throw. }
  apply bool_decide_eq_true in Ef. assert (exact t) as Hex by (by exists m).
  rewrite mret_bind. unfold mbind, M_bind.
  destruct (transitionTransfer _ t) as [r1 t1] eqn:E1. apply transitionTransfer_spec in E1 as [[Hr ->]|[Hs ->]]; [by destruct r1|].
  assert (transfer_ok (with_state ts_verified t)) as H1.
  { apply with_state_ok; [done| |done]. intros _. apply (ok_authorized _ Ht).
    destruct Hs as [->|Hs]; [set_solver|]. destruct (tr_state t); set_solver. }
  destruct r1; [|done].
  destruct (transitionTransfer _ (with_state _ t)) as [r2 t2] eqn:E2.
  assert (transfer_ok t2) as H2.
  { apply transitionTransfer_spec in E2 as [[_ ->]|[_ ->]]; [done|]. apply with_state_ok; [done| |done].
    intros _. apply (ok_authorized _ H1). set_solver. }
  destruct r2; [|done]. destruct (transitionDevice _ t2) as [r3 t3] eqn:E3. by eapply transitionDevice_ok.
Qed.

Lemma fail_ok t : transfer_ok t → transfer_ok (fail_transfer t).2.
Proof.
  intros Ht. unfold fail_transfer. rewrite gets_bind. cbn [id]. unfold mbind, M_bind.
  destruct (bool_decide (tr_state t = ts_completed)); cbn [mret M_ret].
  - destruct (transitionDevice _ t) as [r t1] eqn:E. by eapply transitionDevice_ok.
  - destruct (transitionTransfer _ t) as [r t1] eqn:E1. assert (transfer_ok t1) as H1.
    { apply transitionTransfer_spec in E1 as [[_ ->]|[_ ->]]; [done|]. by apply failed_ok. }
    destruct r; [|done]. destruct (transitionDevice _ t1) as [r2 t2] eqn:E. by eapply transitionDevice_ok.
Qed.

(** a transfer is completed only exactly: whatever sequence of authorisations, admissions, packages and failures led
    to its completed state, the transfer had been authorised between the two active devices of the device list, a
    manifest was received, the chunks are as many as it announces, their commitment, ordered by sequence, is the
    announced one, and each chunk is the digest of a package of the authorised source, target, transfer and checkpoint
    that came while that checkpoint was trusted. *)
Theorem completed_transfer_is_exact ops :
  let t := run_transfers ops new_transfer in
  tr_state t = ts_completed →
  authorized_once ∧ exact t ∧ NoDup (tr_chunks t).*1 ∧ Forall authentic_chunk (tr_chunks t).
Proof.
  assert (transfer_ok (run_transfers ops new_transfer)) as [Hc Hn Ha Hd].
  { assert (transfer_ok new_transfer) as H0 by (split; cbn; [done|constructor|set_solver|set_solver]). revert H0.
    generalize new_transfer. induction ops as [|op ops IH]; intros t Ht; [done|]. cbn. apply IH.
    destruct op; cbn; [by apply transfer_authorize_ok|by apply begin_ok|by apply accept_ok|by apply complete_ok|by apply fail_ok]. }
  cbn. intros Hs. rewrite Hs in Ha, Hd. split_and!; [apply Ha; set_solver|apply Hd; set_solver|done|done].
Qed.
End transfers.

(** ** Frames *)
Section frames.
Context (sha256_hex : string → string) `{SyncTrustBoundary T}.

(** What happens to the frames of a process: a transport receives an envelope, a controller consumes a frame. *)
Inductive frame_op :=
| FReceive (binding : SyncSessionBinding) (scope localDeviceId : string) (usable : N → bool) (decrypt : jsval → res string)
    (trust trust' : T) (envelope : jsval) (peer : string)
| FConsume (usable : N → bool) (frame : AuthenticatedSyncFrame).
Record frame_log := { fl_frames : list AuthenticatedSyncFrame; fl_consumed : list N; fl_issued : issued_frames }.
Definition run_frame (op : frame_op) (s : frame_log) : frame_log :=
  match op with
  | FReceive b scope d usable decrypt trust trust' e peer =>
      let '(r, i) := receive_envelope sha256_hex b scope d usable decrypt trust trust' e peer (fl_issued s) in
      {| fl_frames := match r with Ok f => fl_frames s ++ [f] | Err _ => fl_frames s end; fl_consumed := fl_consumed s; fl_issued := i |}
  | FConsume usable f =>
      let '(r, i) := consumeAuthenticatedSyncFrame usable f (fl_issued s) in
      {| fl_frames := fl_frames s; fl_consumed := if is_ok r then fl_consumed s ++ [frame_object f] else fl_consumed s; fl_issued := i |}
  end.
Definition run_frames (ops : list frame_op) : frame_log :=
  foldl (λ s op, run_frame op s) {| fl_frames := []; fl_consumed := []; fl_issued := {| issued := ∅; next_object := 0 |} |} ops.

(** A frame carries a package of its session's peer, addressed to this device, both devices being active members of the
    trusted device list the package was made under. *)
Definition frame_bound (f : AuthenticatedSyncFrame) : Prop :=
  ∃ b scope device trust trust',
    fr_binding f = sessionBinding b ∧ sessionBinding b ≠ "" ∧ senderDeviceId f = peerDeviceId b ∧ sync_package (syncPackage f) ∧
    get (syncPackage f) "scope" = JStr scope ∧ get (syncPackage f) "sender" = JStr (peerDeviceId b) ∧
    get (syncPackage f) "senderIdentity" = JStr (peerIdentityReference b) ∧ get (syncPackage f) "receiver" = JStr device ∧
    get (syncPackage f) "receiverIdentity" = JStr (localIdentityReference b) ∧
    validateTrust sha256_hex b device (syncPackage f) trust trust' = Ok tt.

Lemma receive_envelope_spec b scope d usable decrypt trust trust' e peer i f i' :
  receive_envelope sha256_hex b scope d usable decrypt trust trust' e peer i = (Ok f, i') →
  frame_bound f ∧ frame_object f = next_object i ∧
  i' = {| issued := <[next_object i := session b]> (issued i); next_object := (next_object i + 1)%N |}.
Proof.
  intros Hr. unfold receive_envelope in Hr. m_step Hr. guard_inv Hm. destruct Hm as [[_ _] Hb]. m_step Hr. m_step Hr. m_step Hr.
  m_step Hr. guard_inv Hm2. unfold is_string in Hm2. rewrite !bool_decide_eq_true in Hm2. m_step Hr. m_step Hr. apply Ok_inj in Hm4 as <-.
  m_step Hr. injection Hm4 as <-. apply mret_ok in Hr as [<- ->]. apply decode_sound in Hm1. apply nonempty_true in Hb.
  destruct Hm2 as [[[[? ?] ?] ?] ?]. split_and!; [|done|done]. exists b, scope, d, trust, trust'. cbn. by destruct x4.
Qed.

Lemma receive_failed b scope d usable decrypt trust trust' e peer i msg i' :
  receive_envelope sha256_hex b scope d usable decrypt trust trust' e peer i = (Err msg, i') → i' = i.
Proof.
  unfold receive_envelope. repeat (rewrite lift_bind; match goal with |- context [match ?r with Ok _ => _ | Err _ => _ end] => destruct r end;
    [|by intros [= _ <-]]). discriminate.
Qed.

Record frames_ok (s : frame_log) : Prop := {
  fo_bound : Forall frame_bound (fl_frames s);
  fo_once : NoDup (fl_consumed s);
  fo_received : ∀ n, n ∈ fl_consumed s → n ∈ frame_object <$> fl_frames s;
  fo_old : ∀ n, n ∈ fl_consumed s → (n < next_object (fl_issued s))%N ∧ issued (fl_issued s) !! n = None;
  fo_issued : ∀ n x, issued (fl_issued s) !! n = Some x → (n < next_object (fl_issued s))%N ∧ n ∈ frame_object <$> fl_frames s }.

Lemma run_frame_ok op s : frames_ok s → frames_ok (run_frame op s).
Proof.
  intros [Hb Ho Hr Hd Hi]. destruct op as [b scope d usable decrypt trust trust' e peer|usable f]; cbn.
  - destruct (receive_envelope _ _ _ _ _ _ _ _ _ _ _) as [[f|msg] i'] eqn:E.
    2: { apply receive_failed in E as ->. by split. }
    apply receive_envelope_spec in E as (Hf & Hn & ->). rewrite <-Hn. split; cbn; rewrite ?fmap_app.
    + apply Forall_app. by split; [|constructor].
    + done.
    + intros n Hin%Hr. apply elem_of_app. by left.
    + intros n Hin. destruct (Hd n Hin) as [Hlt Hnone]. split; [lia|]. rewrite lookup_insert_ne by lia. done.
    + intros n x. destruct (decide (n = frame_object f)) as [->|Hne].
      * intros _. split; [lia|]. apply elem_of_app. right. by apply list_elem_of_singleton.
      * rewrite lookup_insert_ne by done. intros (? & ?)%Hi. split; [lia|]. apply elem_of_app. by left.
  - unfold consumeAuthenticatedSyncFrame. rewrite observe_bind. unfold throw_if.
    destruct (issued (fl_issued s) !! frame_object f) as [x|] eqn:Ei; cbn; [|by split].
    destruct (usable x); cbn; [|by split]. destruct (Hi _ _ Ei) as [Hlt Hin]. split; cbn.
    + done.
    + apply NoDup_app. split_and!; [done| |apply NoDup_singleton]. intros n Hn. rewrite list_elem_of_singleton. intros ->.
      destruct (Hd _ Hn). congruence.
    + intros n [Hn|Hn]%elem_of_app; [by apply Hr|]. apply list_elem_of_singleton in Hn as ->. done.
    + intros n [Hn|Hn]%elem_of_app.
      * destruct (Hd n Hn). split; [done|]. rewrite lookup_delete_None. by right.
      * apply list_elem_of_singleton in Hn as ->. split; [done|]. apply lookup_delete_eq.
    + intros n y [_ Hn]%lookup_delete_Some. by apply Hi in Hn.
Qed.

(** Whatever envelopes arrive and whatever frames are presented to the controllers of a process, each authenticated
    frame is consumed at most once, only frames issued by a transport are consumed, and each carries a well-formed
    package sent by its session's peer to this device while both were active members of the trusted device list. *)
Theorem frames_bound_and_consumed_once ops :
  let s := run_frames ops in
  NoDup (fl_consumed s) ∧ (∀ n, n ∈ fl_consumed s → n ∈ frame_object <$> fl_frames s) ∧ Forall frame_bound (fl_frames s).
Proof.
  assert (frames_ok (run_frames ops)) as [Hb Ho Hr _ _].
  { unfold run_frames. match goal with |- frames_ok (foldl _ ?s _) => assert (frames_ok s) as H0 by (split; cbn; [done|constructor|set_solver..]);
      revert H0; generalize s end. induction ops as [|op ops IH]; intros s Hs; [done|]. cbn. by apply IH, run_frame_ok. }
  done.
Qed.
End frames.

(** ** Witnesses *)
Definition zeros64 : string := "0000000000000000000000000000000000000000000000000000000000000000".
Definition demo_hash : string → string := λ _, zeros64.
Definition demo_list : DeviceList := sample_list ["a"; "b"].
Definition demo_trust : LifecycleStateSnapshot := {| snapshot_list := demo_list; commitment := zeros64 |}.
#[local] Instance demo_boundary : SyncTrustBoundary LifecycleStateSnapshot := {|
  trust_snapshot st := Ok st; trust_assertTrustedAt e st := throw_if (negb (epoch (snapshot_list st) =? e)) "stale" |}.
Definition demo_checkpoint : SyncCheckpoint := {| cp_epoch := epoch demo_list; cp_commitment := zeros64 |}.
Definition demo_authorization : SyncAuthorization := {|
  sa_version := 1; sa_authorizationId := "authorization-0001"; sa_scope := "account"; sourceDeviceId := "a"; sa_targetDeviceId := "b";
  sourceIdentityReference := "K3 a"; targetIdentityReference := "K3 b"; sa_checkpoint := demo_checkpoint;
  sa_transferId := "transfer-00000001"; sa_expiresAt := 100; activeMemberDeviceIds := None; sa_freshnessRequired := false;
  freshnessEvidence := [] |}.
Definition demo_package (purpose : string) (sequence : Z) (payload : jsval) : SyncPackage :=
  [("version", JNum (NInt 1)); ("purpose", JStr purpose); ("scope", JStr "account"); ("sender", JStr "a"); ("senderIdentity", JStr "K3 a");
   ("receiver", JStr "b"); ("receiverIdentity", JStr "K3 b"); ("checkpoint", checkpoint_json demo_checkpoint);
   ("streamId", JStr "stream-0000000001"); ("sequence", JNum (NInt sequence)); ("messageId", JStr "message-000000001");
   ("transferId", JStr "transfer-00000001"); ("payload", payload)].
Definition demo_manifest : jsval :=
  JObj [("version", JNum (NInt 1)); ("expectedChunkCount", JNum (NInt 1)); ("finalContentCommitment", JStr zeros64)].
Definition demo_ops : list (transfer_op LifecycleStateSnapshot) :=
  [TAuthorize demo_trust demo_trust 1; TBegin; TAccept (demo_package "sync-manifest" 1 demo_manifest) demo_trust 2;
   TAccept (demo_package "sync-chunk" 2 (JObj [("chunk", JStr "text")])) demo_trust 3; TComplete].

Lemma demo_completed : tr_state (run_transfers demo_hash demo_authorization demo_ops new_transfer) = ts_completed.
Proof. vm_compute. done. Qed.

Lemma completed_transfer_is_exact_witness :
  authorized_once demo_hash demo_authorization ∧ exact demo_hash demo_authorization (run_transfers demo_hash demo_authorization demo_ops new_transfer).
Proof.
  destruct (completed_transfer_is_exact demo_hash demo_authorization demo_ops demo_completed) as (H1 & H2 & _). exact (conj H1 H2).
Defined.

Lemma sync_package_codec_witness :
  decodeSyncPackage (encodeSyncPackage (demo_package "sync-chunk" 2 JNull)) = Ok (demo_package "sync-chunk" 2 JNull).
Proof.
  destruct sync_package_codec as [H1 H2].
  assert (decodeSyncPackage (encodeSyncPackage (demo_package "sync-chunk" 2 JNull)) = Ok (demo_package "sync-chunk" 2 JNull)) as Hd by (vm_compute; reflexivity).
  apply H2; [exact (H1 _ _ Hd)|vm_compute; reflexivity|apply Z.leb_le; vm_compute; reflexivity].
Defined.
