(* ===== verification/SyncStore.v ===== *)
(** * Synchronisation between devices: records, persistence, controller ([sync/])

    [stateRecords.ts], [persistence.ts] and [runtime.ts]. The stored record of a scope is the JavaScript object it is (its
    fields in order), read from and written to the secure storage in one compare-and-swap together with the application
    records an import changes. [others n] is what other writers of the storage do before the [n]-th access of a
    transaction; the trust boundary and the clock are observed at [trust i] and [clock i]. *)
From S2P Require Import Prelude Json Storage DeviceList Lifecycle LifecycleStore Trust ContactRegistry SyncProtocol.

(** ** Records *)
(* service/src/sync/stateRecords.ts:3-3 SyncRecordKind *)
Definition record_kinds : list string := ["conversation"; "contact"; "device"; "settings"].
Definition record_rejected : string := "Sync record rejected.".

(** [a === b] on values of different objects: arrays and objects are never the same. *)
Definition strict_eq (a b : jsval) : bool :=
  match a with JArr _ | JObj _ => false | _ => bool_decide (a = b) end.
Definition string_in (l : list string) (v : jsval) : bool := match v with JStr s => includes l s | _ => false end.
Definition has_key (fs : list (string * jsval)) (k : string) : bool := bool_decide (k ∈ keys fs).

(* service/src/sync/stateRecords.ts:31-31 requiredString *)
Definition requiredString (v : jsval) : bool := match v with JStr s => nonempty s && (strlen s <=? 256) | _ => false end.
Definition optional_string (v : jsval) : bool := is_undef v || requiredString v.
Definition undef_or_false (v : jsval) : bool := is_undef v || bool_decide (v = JBool false).

(* service/src/sync/stateRecords.ts:33-48 validatePayload *)
Definition validatePayload (kind : string) (payload : jsval) (scope : string) : res unit :=
  fs ← require (as_object payload) record_rejected;
  let f := get fs in
  throw_if (has_key fs "owner" && negb (bool_decide (f "owner" = JStr scope))) "Sync record owner rejected.";;
  throw_if (String.eqb kind "conversation" && (negb (requiredString (f "conversationId")) ||
    negb (bool_decide (f "protocol" = JStr "modern")) ||
    negb (forallb (λ k, optional_string (f k)) ["sessionId"; "localAddress"; "remoteAddress"]))) record_rejected;;
  throw_if (String.eqb kind "contact" && (negb (requiredString (f "contactId")) || negb (requiredString (f "identityId")) ||
    negb (requiredString (f "algorithm")) || negb (requiredString (f "publicKey")) ||
    negb (includes ["unknown"; "unverified"; "verified"] (js_String (f "verification"))) ||
    negb (bool_decide (f "changeStatus" = JStr "unchanged")))) record_rejected;;
  (if String.eqb kind "device" then
     let state := f "state" in
     throw_if (negb (truthy state) || negb (truthy (oprop state "list")) ||
       negb (bool_decide (oprop (oprop state "list") "identityReference" = JStr scope)) ||
       negb (bool_decide (is_Some (as_array (oprop (oprop state "list") "devices")))) ||
       negb (requiredString (oprop state "commitment"))) record_rejected
   else mret tt);;
  throw_if (String.eqb kind "settings" && (negb (includes ["paper-ink"; "slate-dusk"] (js_String (f "theme"))) ||
    negb (forallb (λ k, undef_or_false (f k)) ["analytics"; "backgroundCapture"; "externalMedia"]))) record_rejected.

(* service/src/sync/stateRecords.ts:50-53 validateSyncRecord *)
Definition validateSyncRecord (record checkpoint : jsval) : res unit :=
  let f := oprop record in
  throw_if (negb (is_one (f "version")) || negb (truthy (f "scope")) || negb (base64url_between 16 128 (js_String (f "recordId"))) ||
    negb (string_in record_kinds (f "kind")) || negb (strict_eq (f "epoch") (oprop checkpoint "epoch")) ||
    negb (strict_eq (f "commitment") (oprop checkpoint "commitment")) || negb (hex64 (js_String (f "commitment")))) record_rejected;;
  validatePayload (text_of (f "kind")) (f "payload") (text_of (f "scope")).

Fixpoint validate_each (scope : string) (checkpoint : jsval) (seen : list jsval) (records : list jsval) : res unit :=
  match records with
  | [] => mret tt
  | record :: rest =>
      own ← prop record "scope";
      throw_if (negb (bool_decide (own = JStr scope)) || existsb (strict_eq (oprop record "recordId")) seen) record_rejected;;
      validateSyncRecord record checkpoint;;
      validate_each scope checkpoint (oprop record "recordId" :: seen) rest
  end.
(* service/src/sync/stateRecords.ts:55-63 validateSyncRecords *)
Definition validateSyncRecords (scope : string) (checkpoint : jsval) (records : list jsval) : res unit :=
  throw_if (negb (nonempty scope) || (length records =? 0)%nat) "Sync records rejected.";;
  validate_each scope checkpoint [] records.

(** ** The stored record *)
(* service/src/sync/persistence.ts:9-17 RecordState *)
Definition RecordState := list (string * jsval).
Definition corrupted : string := "Sync persistence corrupted.".

(* service/src/sync/persistence.ts:18-18 same *)
Definition same (a b : jsval) : bool :=
  strict_eq (oprop a "epoch") (oprop b "epoch") && strict_eq (oprop a "commitment") (oprop b "commitment").
(* service/src/sync/persistence.ts:19-19 checkpointValid *)
Definition checkpointValid (value : jsval) : bool :=
  truthy value && int_from 0 (oprop value "epoch") && hex64 (js_String (oprop value "commitment")).
Definition bounded_texts (max : Z) (l : list jsval) : bool :=
  forallb (λ v, match v with JStr s => nonempty s && (strlen s <=? max) | _ => false end) l && bool_decide (NoDup l).
(* service/src/sync/persistence.ts:20-20 membersValid *)
Definition membersValid (members : jsval) : bool :=
  match members with JUndef => true | JArr l => (length l <=? 8)%nat && bounded_texts 2048 l | _ => false end.
Definition elements_of (v : jsval) : list jsval := default [] (as_array v).

(* service/src/sync/persistence.ts:21-23 validateState *)
Definition validateState (scope : string) (state checkpoint : jsval) : res unit :=
  let f := oprop state in
  throw_if (negb (truthy state) || negb (bool_decide (f "scope" = JStr scope)) || negb (is_one (f "version")) ||
    negb (checkpointValid (f "checkpoint")) || negb (same (f "checkpoint") checkpoint) ||
    negb (string_in ["idle"; "prepare"; "prepared"; "ready"; "transfer"] (f "admission")) ||
    negb (bool_decide (is_Some (as_array (f "receivedSequences")))) ||
    (100000 <? Z.of_nat (length (elements_of (f "receivedSequences")))) ||
    existsb (λ v, negb (int_from 1 v)) (elements_of (f "receivedSequences")) ||
    negb (bool_decide (NoDup (elements_of (f "receivedSequences")))) ||
    negb (membersValid (f "preparedMembers")) || negb (membersValid (f "readyMembers")) ||
    existsb (λ m, negb (bool_decide (m ∈ elements_of (f "preparedMembers")))) (elements_of (f "readyMembers")) ||
    (negb (is_undef (f "terminal")) &&
      (negb (string_in ["completed"; "failed"] (f "terminal")) || negb (bool_decide (f "admission" = JStr "idle"))))) corrupted.

Definition claims_of (r : RecordState) : list jsval := elements_of (get r "claims").
Definition records_of (r : RecordState) : list jsval := elements_of (get r "records").
Definition revision_of (r : RecordState) : Z := int_of (get r "revision").
Definition SYNC_TYPE : string := "sync-runtime".
Definition new_record (scope : string) : RecordState :=
  [("version", JNum (NInt 1)); ("scope", JStr scope); ("revision", JNum (NInt 0)); ("claims", JArr [])].
(** [delete o.k] *)
Definition delete_key (fs : list (string * jsval)) (k : string) : list (string * jsval) :=
  List.filter (λ kv, negb (String.eqb kv.1 k)) fs.

Section persistence.
Context (sha256_hex : string → string) `{SecureStorage St}.

Definition check_record (scope : string) (r : RecordState) : res unit :=
  let f := get r in
  throw_if (negb (is_one (f "version")) || negb (bool_decide (f "scope" = JStr scope)) || negb (int_from 1 (f "revision")) ||
    negb (bool_decide (is_Some (as_array (f "claims")))) || (100000 <? Z.of_nat (length (claims_of r))) ||
    negb (bounded_texts 2048 (claims_of r)) || (truthy (f "checkpoint") && negb (checkpointValid (f "checkpoint"))) ||
    (negb (is_undef (f "records")) && (negb (bool_decide (is_Some (as_array (f "records")))) ||
      (10000 <? Z.of_nat (length (records_of r)))))) corrupted;;
  (if is_undef (f "state") then mret tt else validateState scope (f "state") (f "checkpoint"));;
  (if negb (is_undef (f "records")) && truthy (f "checkpoint") then validateSyncRecords scope (f "checkpoint") (records_of r)
   else mret tt).

(* service/src/sync/persistence.ts:31-42 load *)
Definition load (scope : string) (p : St) : res (string * option string * RecordState) :=
  id ← canonicalIdentityRecordId sha256_hex scope;
  match read p SYNC_TYPE id with
  | None => mret (id, None, new_record scope)
  | Some raw =>
      parsed ← require (parse raw) corrupted;
      record ← require (as_object parsed) corrupted;
      check_record scope record;;
      mret (id, Some raw, record)
  end.

(* service/src/sync/persistence.ts:43-43 SecureSyncPersistence.read *)
Definition read_checkpoint (scope : string) (p : St) : res jsval := x ← load scope p; mret (get x.2 "checkpoint").
(* service/src/sync/persistence.ts:44-44 SecureSyncPersistence.readState *)
Definition readState (scope : string) (p : St) : res jsval := x ← load scope p; mret (get x.2 "state").
(* service/src/sync/persistence.ts:45-45 SecureSyncPersistence.readRecords *)
Definition readRecords (scope : string) (p : St) : res (list jsval) := x ← load scope p; mret (records_of x.2).

Definition swap (t i : string) (e : option string) (v : jsval) : SecureRecordUpdate :=
  {| recordType := t; recordId := i; expected := e; next := stringify v |}.
Definition truthy_fields (payload : jsval) (ks : list string) : list (string * jsval) :=
  List.filter (λ kv, truthy kv.2) ((λ k, (k, oprop payload k)) <$> ks).

(** What an imported contact does to the contact registry: never raises a check, never clears a pending change, never
    writes another identity. *)
(* service/src/sync/persistence.ts:106-118 contact in applicationUpdates *)
Definition contact_update (p : St) (payload : jsval) : list SecureRecordUpdate :=
  let recordId := text_of (oprop payload "contactId") in
  let expected_ := read p ContactRegistry.RECORD_TYPE recordId in
  let f := oprop payload in
  match match expected_ with None | Some EmptyString => Some JUndef | Some text => parse text end with
  | None => []
  | Some cur =>
      if truthy cur && (negb (strict_eq (oprop cur "identityId") (f "identityId")) ||
                            negb (bool_decide (oprop cur "changeStatus" = JStr "unchanged"))) then [] else
      let verified := bool_decide (oprop cur "verification" = JStr "verified") && bool_decide (f "verification" = JStr "verified") in
      let next_ := spread (match cur with JObj fs => fs | _ => [] end)
        [("contactId", JStr recordId); ("identityId", f "identityId"); ("algorithm", f "algorithm"); ("publicKey", f "publicKey");
         ("verification", JStr (if verified then "verified" else "unverified")); ("changeStatus", JStr "unchanged")] in
      [swap ContactRegistry.RECORD_TYPE recordId expected_ (JObj (if verified then next_ else delete_key next_ "verifiedAt"))]
  end.

(* service/src/sync/persistence.ts:98-132 applicationUpdates *)
Definition applicationUpdates (p : St) (scope : string) (record : jsval) : res (list SecureRecordUpdate) :=
  let payload := oprop record "payload" in
  let kind := text_of (oprop record "kind") in
  if String.eqb kind "conversation" then
    let recordId := text_of (oprop payload "conversationId") in
    mret [swap "conversation-protocol" recordId (read p "conversation-protocol" recordId)
      (JObj ([("version", JNum (NInt 1)); ("mode", JStr "modern")] ++ truthy_fields payload ["sessionId"; "localAddress"; "remoteAddress"]))]
  else if String.eqb kind "contact" then mret (contact_update p payload)
  else if String.eqb kind "settings" then
    mret [swap "application-settings" "local" (read p "application-settings" "local")
      (obj [("version", Some (JNum (NInt 1))); ("theme", Some (oprop payload "theme"));
            ("privacy", Some (JObj [("analytics", JBool false); ("backgroundCapture", JBool false); ("externalMedia", JBool false);
              ("minimizeMetadata", JBool (negb (bool_decide (oprop payload "minimizeMetadata" = JBool false))))]))])]
  else
    let state := oprop payload "state" in
    list ← createDeviceList (oprop state "list");
    c ← deviceListCommitment sha256_hex list;
    throw_if (negb (String.eqb (identityReference list) scope) || negb (bool_decide (oprop state "commitment" = JStr c)))
      "Sync device record rejected.";;
    recordId ← canonicalIdentityRecordId sha256_hex scope;
    let lifecycle := {| lr_state := {| snapshot_list := list; commitment := c |}; authorizations := [];
                        highestEpoch := epoch list; commitmentHistory := [history_item (epoch list) c] |} in
    mret [swap LifecycleStore.RECORD_TYPE recordId (read p LifecycleStore.RECORD_TYPE recordId) (record_json lifecycle);
          swap HIGHWATER_RECORD_TYPE recordId (read p HIGHWATER_RECORD_TYPE recordId)
            (highwater_json {| hw_epoch := epoch list; hw_commitment := c |})].

Fixpoint all_updates (p : St) (scope : string) (records : list jsval) : res (list SecureRecordUpdate) :=
  match records with
  | [] => mret []
  | r :: rest => us ← applicationUpdates p scope r; vs ← all_updates p scope rest; mret (us ++ vs)
  end.

(** ** Transactions *)
(** The local copy of the record, the application updates collected, and whether the transaction is open. *)
Record tx := { tx_record : RecordState; tx_updates : list SecureRecordUpdate; tx_active : bool }.
Definition with_record (f : RecordState → RecordState) (t : tx) : tx :=
  {| tx_record := f (tx_record t); tx_updates := tx_updates t; tx_active := tx_active t |}.

Section operations.
Context (scope : string).
(* service/src/sync/persistence.ts:55-55 requireActive in transaction *)
Definition requireActive : M tx unit := observe (λ t, throw_if (negb (tx_active t)) "Sync transaction closed.").
(* service/src/sync/persistence.ts:52-52 requireScope in transaction *)
Definition requireScope (candidate : string) : M tx unit :=
  lift (throw_if (negb (String.eqb candidate scope)) "Sync persistence scope rejected.").
(** A stored checkpoint is kept unless the new one is later, or the same. *)
Definition later_checkpoint (new stored : jsval) : bool :=
  negb (truthy stored) ||
  ((int_of (oprop stored "epoch") <=? int_of (oprop new "epoch")) &&
   negb ((int_of (oprop stored "epoch") =? int_of (oprop new "epoch")) &&
         negb (strict_eq (oprop new "commitment") (oprop stored "commitment")))).
(* service/src/sync/persistence.ts:56-59 putCheckpoint in transaction *)
Definition putCheckpoint (checkpoint : jsval) : M tx unit :=
  observe (λ t, throw_if (negb (checkpointValid checkpoint) || negb (later_checkpoint checkpoint (get (tx_record t) "checkpoint")))
    "Sync checkpoint rejected.");;
  modify (with_record (λ r, set_key r "checkpoint" checkpoint)).

(* service/src/sync/persistence.ts:62-68 claim in transaction *)
Definition tx_claim (candidate key : string) : M tx bool :=
  requireActive;; requireScope candidate;;
  t ← gets id;
  let claims := claims_of (tx_record t) in
  lift (throw_if (negb (nonempty key) || (2048 <? strlen key) || (100000 <=? Z.of_nat (length claims))) "Sync replay storage unavailable.");;
  if bool_decide (JStr key ∈ claims) then mret false else
  modify (with_record (λ r, set_key r "claims" (JArr (claims ++ [JStr key]))));;
  mret true.
(* service/src/sync/persistence.ts:69-69 write in transaction *)
Definition tx_write (candidate : string) (checkpoint : SyncCheckpoint) : M tx unit :=
  requireActive;; requireScope candidate;; putCheckpoint (checkpoint_json checkpoint).
(* service/src/sync/persistence.ts:70-76 writeState in transaction *)
Definition tx_writeState (candidate : string) (state : jsval) : M tx unit :=
  requireActive;; requireScope candidate;;
  lift (validateState scope state (oprop state "checkpoint"));;
  putCheckpoint (oprop state "checkpoint");;
  copy ← lift (require (parse (stringify state)) "SyntaxError");
  modify (with_record (λ r, set_key r "state" copy)).
Definition update_name (u : SecureRecordUpdate) : string := recordType u +:+ ":" +:+ recordId u.
(* service/src/sync/persistence.ts:77-88 importRecords in transaction *)
Definition tx_importRecords (p : St) (candidate : string) (checkpoint : SyncCheckpoint) (records : list jsval) : M tx unit :=
  requireActive;; requireScope candidate;;
  lift (validateSyncRecords scope (checkpoint_json checkpoint) records);;
  t ← gets id;
  lift (throw_if (truthy (get (tx_record t) "checkpoint") && negb (same (get (tx_record t) "checkpoint") (checkpoint_json checkpoint)))
    "Sync record checkpoint rejected.");;
  let existing := records_of (tx_record t) in
  lift (throw_if (existsb (λ r, existsb (λ e, strict_eq (oprop e "recordId") (oprop r "recordId")) existing) records)
    "Sync record already imported.");;
  copy ← lift (require (parse (stringify (JArr records))) "SyntaxError");
  modify (with_record (λ r, set_key r "records" (JArr (existing ++ elements_of copy))));;
  lift (throw_if (10000 <? Z.of_nat (length (existing ++ elements_of copy))) "Sync record storage unavailable.");;
  us ← lift (all_updates p scope records);
  modify (λ t, {| tx_record := tx_record t; tx_updates := tx_updates t ++ us; tx_active := tx_active t |});;
  observe (λ t, throw_if (negb (bool_decide (NoDup (update_name <$> tx_updates t)))) "Sync records target the same application state.").
End operations.

(** The operations of a transaction see the storage as other writers left it by then. *)
(* service/src/sync/persistence.ts:49-96 transaction *)
Definition transaction {A} (others : nat → St → St) (scope : string) (expected_ : jsval) (operation : St → M tx A) : M St A := λ p,
  match load scope p with
  | Err e => (Err e, p)
  | Ok (id, raw, record) =>
      if negb (same (get record "checkpoint") expected_) then (Err "Sync persistence conflict.", p) else
      let p1 := others 0%nat p in
      match operation p1 {| tx_record := record; tx_updates := []; tx_active := true |} with
      | (Err e, _) => (Err e, p1)
      | (Ok result, t) =>
          let record := tx_record t in
          match (if is_undef (get record "state") then mret tt
                 else validateState scope (get record "state") (get record "checkpoint")) with
          | Err e => (Err e, p1)
          | Ok _ =>
              if MAX_SAFE_INTEGER <=? revision_of record then (Err "Sync persistence exhausted.", p1) else
              let record := set_key record "revision" (JNum (NInt (revision_of record + 1))) in
              let '(ok, p2) := compareAndSwapRecords (swap SYNC_TYPE id raw (JObj record) :: tx_updates t) (others 1%nat p1) in
              (if ok then Ok result else Err "Sync persistence conflict.", p2)
          end
      end
  end.
End persistence.

(** ** The controller *)
(* service/src/sync/contracts.ts:58-58 SyncAdmissionState *)
Inductive SyncAdmissionState := adm_idle | adm_prepare | adm_prepared | adm_ready | adm_transfer.
#[export] Instance SyncAdmissionState_eq_dec : EqDecision SyncAdmissionState.
Proof. solve_decision. Defined.
Definition admission_name (s : SyncAdmissionState) : string :=
  match s with
  | adm_idle => "idle" | adm_prepare => "prepare" | adm_prepared => "prepared" | adm_ready => "ready" | adm_transfer => "transfer"
  end.

(* service/src/sync/runtime.ts:9-18 fields in RuntimeSyncController *)
Record controller := {
  rc_transfer : option (SyncAuthorization * transfer); admission : SyncAdmissionState; rc_expiresAt : Z;
  receivedSequences : gset Z; preparedMembers : gset string; readyMembers : gset string; rc_freshness : evidence_map;
  rc_checkpoint : option SyncCheckpoint }.
Definition new_controller : controller :=
  {| rc_transfer := None; admission := adm_idle; rc_expiresAt := 0; receivedSequences := ∅; preparedMembers := ∅; readyMembers := ∅;
     rc_freshness := ∅; rc_checkpoint := None |}.
Definition with_admission (s : SyncAdmissionState) (c : controller) : controller :=
  {| rc_transfer := rc_transfer c; admission := s; rc_expiresAt := rc_expiresAt c; receivedSequences := receivedSequences c;
     preparedMembers := preparedMembers c; readyMembers := readyMembers c; rc_freshness := rc_freshness c; rc_checkpoint := rc_checkpoint c |}.
Definition with_freshness (m : evidence_map) (c : controller) : controller :=
  {| rc_transfer := rc_transfer c; admission := admission c; rc_expiresAt := rc_expiresAt c; receivedSequences := receivedSequences c;
     preparedMembers := preparedMembers c; readyMembers := readyMembers c; rc_freshness := m; rc_checkpoint := rc_checkpoint c |}.
Definition with_transfer (x : option (SyncAuthorization * transfer)) (c : controller) : controller :=
  {| rc_transfer := x; admission := admission c; rc_expiresAt := rc_expiresAt c; receivedSequences := receivedSequences c;
     preparedMembers := preparedMembers c; readyMembers := readyMembers c; rc_freshness := rc_freshness c; rc_checkpoint := rc_checkpoint c |}.
Definition with_sequences (q : gset Z) (cp : option SyncCheckpoint) (c : controller) : controller :=
  {| rc_transfer := rc_transfer c; admission := admission c; rc_expiresAt := rc_expiresAt c; receivedSequences := q;
     preparedMembers := preparedMembers c; readyMembers := readyMembers c; rc_freshness := rc_freshness c; rc_checkpoint := cp |}.
Definition with_members (prepared ready : gset string) (c : controller) : controller :=
  {| rc_transfer := rc_transfer c; admission := admission c; rc_expiresAt := rc_expiresAt c; receivedSequences := receivedSequences c;
     preparedMembers := prepared; readyMembers := ready; rc_freshness := rc_freshness c; rc_checkpoint := rc_checkpoint c |}.
(** What a failed commit leaves: no usable admission. *)
Definition closed (c : controller) : controller :=
  {| rc_transfer := None; admission := adm_idle; rc_expiresAt := 0; receivedSequences := ∅; preparedMembers := ∅; readyMembers := ∅;
     rc_freshness := rc_freshness c; rc_checkpoint := rc_checkpoint c |}.
Definition admitted_by (scope localDeviceId : string) (a : SyncAuthorization) (c : controller) : controller :=
  {| rc_transfer := Some (a, new_transfer); admission := admission c; rc_expiresAt := sa_expiresAt a; receivedSequences := ∅;
     preparedMembers := {[localDeviceId]}; readyMembers := {[localDeviceId]}; rc_freshness := rc_freshness c;
     rc_checkpoint := Some (sa_checkpoint a) |}.

(** A controller, the storage it shares with others, and the frames of its process. *)
Record sync_state (St : Type) := { rc : controller; db : St; frames : issued_frames }.
Arguments rc {St}. Arguments db {St}. Arguments frames {St}. Arguments Build_sync_state {St}.
Definition set_rc {St} (f : controller → controller) (s : sync_state St) : sync_state St :=
  {| rc := f (rc s); db := db s; frames := frames s |}.

Section runtime.
Context (sha256_hex : string → string) `{SecureStorage St} `{SyncTrustBoundary T}.
Context (scope localDeviceId : string).
Context (others : nat → St → St) (trust : nat → T) (clock : nat → Z).
Local Notation R A := (M (sync_state St) A).

Definition on_db {A} (m : M St A) : R A := λ s, let '(r, p) := m (db s) in (r, {| rc := rc s; db := p; frames := frames s |}).
Definition from_db {A} (f : St → res A) : R A := observe (λ s, f (db s)).
Definition on_frames (m : M issued_frames unit) : R unit := λ s,
  let '(r, i) := m (frames s) in (r, {| rc := rc s; db := db s; frames := i |}).
(** Runs an operation of the current transfer; [none] is what happens without one. *)
Definition on_transfer {A} (none : res A) (m : SyncAuthorization → M transfer A) : R A := λ s,
  match rc_transfer (rc s) with
  | None => (none, s)
  | Some (a, t) => let '(r, t') := m a t in (r, set_rc (with_transfer (Some (a, t'))) s)
  end.

(* service/src/sync/runtime.ts:100-100 RuntimeSyncController.state *)
Definition durable_state (checkpoint : jsval) (terminal : option string) (c : controller) : jsval :=
  JObj [("scope", JStr scope); ("version", JNum (NInt 1)); ("checkpoint", checkpoint);
    ("admission", JStr (admission_name (admission c)));
    ("receivedSequences", JArr ((λ n, JNum (NInt n)) <$> js_sort (λ a b, a - b) (elements (receivedSequences c))));
    ("preparedMembers", JArr (JStr <$> js_sort string_cmp (elements (preparedMembers c))));
    ("readyMembers", JArr (JStr <$> js_sort string_cmp (elements (readyMembers c))));
    ("terminal", from_option JStr JUndef terminal)].
(* service/src/sync/runtime.ts:101-101 transferMembers *)
Definition transferMembers (c : controller) : list string :=
  match rc_transfer c with Some (a, _) => members_of a | None => [] end.

(* service/src/sync/runtime.ts:103-116 atomic *)
Definition atomic {A} (checkpoint : jsval) (operation : controller → St → M tx A) : R A := λ s,
  match on_db (transaction sha256_hex others scope checkpoint (operation (rc s))) s with
  | (Ok a, s') => (Ok a, s')
  | (Err e, s') => (Err e, set_rc closed s')
  end.
(* service/src/sync/runtime.ts:102-102 persistState *)
Definition persistState (checkpoint : option SyncCheckpoint) (terminal : option string) : R unit :=
  let cp := from_option checkpoint_json JUndef checkpoint in
  atomic cp (λ c _, tx_writeState scope scope (durable_state cp terminal c)).

Fixpoint record_all (evidence : list TrustFreshnessEvidence) (st : LifecycleStateSnapshot) : M evidence_map unit :=
  match evidence with
  | [] => mret tt
  | e :: rest => recordAuthenticatedEvidence 8 e st;; record_all rest st
  end.
Definition on_freshness (m : M evidence_map unit) : R unit := λ s,
  let '(r, f) := m (rc_freshness (rc s)) in (r, set_rc (with_freshness f) s).

(** Whether an authorisation's checkpoint is behind, or forks, the stored one. *)
Definition stale_checkpoint (c : SyncCheckpoint) (stored : jsval) : bool :=
  truthy stored && ((cp_epoch c <? int_of (oprop stored "epoch")) ||
    ((cp_epoch c =? int_of (oprop stored "epoch")) && negb (strict_eq (JStr (cp_commitment c)) (oprop stored "commitment")))).

(* service/src/sync/runtime.ts:20-41 RuntimeSyncController.authorize *)
Definition authorize (a : SyncAuthorization) : R unit :=
  lift (throw_if (negb (String.eqb (sa_scope a) scope) || negb (String.eqb (sa_targetDeviceId a) localDeviceId)) "Sync target is unavailable.");;
  persisted ← from_db (read_checkpoint sha256_hex scope);
  lift (throw_if (stale_checkpoint (sa_checkpoint a) persisted) "Sync checkpoint is stale.");;
  st ← lift (trust_snapshot (trust 0%nat));
  lift (trust_assertTrustedAt (epoch (snapshot_list st)) (trust 1%nat));;
  lift (throw_if (match activeMemberDeviceIds a with
                  | Some ms => sa_freshnessRequired a && negb (includes ms localDeviceId) | None => false end)
    "Sync freshness membership rejected.");;
  modify (set_rc (with_freshness ∅));;
  on_freshness (record_all (freshnessEvidence a) st);;
  observe (λ s, match activeMemberDeviceIds a with
    | Some ms => if sa_freshnessRequired a then assertCurrent localDeviceId 8 (rc_freshness (rc s)) st ms else mret tt
    | None => mret tt end);;
  modify (set_rc (admitted_by scope localDeviceId a));;
  on_transfer (Err "TypeError") (λ a, authorize_transfer sha256_hex a (trust 2%nat) (trust 3%nat) (clock 0%nat));;
  modify (set_rc (with_admission adm_prepare));;
  atomic persisted (λ c _, tx_writeState scope scope (durable_state (checkpoint_json (sa_checkpoint a)) None c)).

Fixpoint valid_prefix (l : list jsval) : list jsval :=
  match l with v :: l' => if int_from 1 v then v :: valid_prefix l' else [] | [] => [] end.
(* service/src/sync/runtime.ts:44-58 RuntimeSyncController.recover *)
Definition recover : R (option jsval) :=
  stored ← from_db (readState sha256_hex scope);
  if negb (truthy stored) then mret None else
  let f := oprop stored in
  let sequences := elements_of (f "receivedSequences") in
  lift (throw_if (negb (is_one (f "version")) || negb (bool_decide (f "scope" = JStr scope)) ||
    negb (int_from 0 (oprop (f "checkpoint") "epoch")) || negb (bool_decide (NoDup sequences))) "Sync recovery state is corrupted.");;
  modify (set_rc (with_sequences (list_to_set (int_of <$> valid_prefix sequences)) (Some {| cp_epoch := int_of (oprop (f "checkpoint") "epoch");
                                            cp_commitment := text_of (oprop (f "checkpoint") "commitment") |})));;
  lift (throw_if (existsb (λ v, negb (int_from 1 v)) sequences) "Sync recovery state is corrupted.");;
  modify (set_rc (λ c, {| rc_transfer := None; admission := adm_idle; rc_expiresAt := 0;
    receivedSequences := list_to_set (int_of <$> sequences); preparedMembers := ∅; readyMembers := ∅;
    rc_freshness := rc_freshness c; rc_checkpoint := rc_checkpoint c |}));;
  mret (Some stored).

(** The guard of [prepared], [ready] and [begin]. *)
Definition admission_open (from : SyncAdmissionState) (c : controller) : bool :=
  bool_decide (admission c = from) && bool_decide (is_Some (rc_transfer c)) && (clock 0%nat <=? rc_expiresAt c).
Definition advance_admission (from to : SyncAdmissionState) : R unit :=
  observe (λ s, throw_if (negb (admission_open from (rc s))) "Sync admission is unavailable.");;
  st ← lift (trust_snapshot (trust 0%nat));
  lift (trust_assertTrustedAt (epoch (snapshot_list st)) (trust 1%nat));;
  modify (set_rc (with_admission to));;
  s ← gets id;
  persistState (rc_checkpoint (rc s)) None.
(* service/src/sync/runtime.ts:60-60 prepared *)
Definition prepared : R unit := advance_admission adm_prepare adm_prepared.
(* service/src/sync/runtime.ts:61-61 ready *)
Definition ready : R unit := advance_admission adm_prepared adm_ready.
(* service/src/sync/runtime.ts:63-63 recordPrepared *)
Definition recordPrepared (device : string) : R unit :=
  observe (λ s, throw_if (negb (includes (transferMembers (rc s)) device)) "Sync admission member rejected.");;
  modify (set_rc (λ c, with_members ({[device]} ∪ preparedMembers c) (readyMembers c) c)).
(* service/src/sync/runtime.ts:64-64 recordReady *)
Definition recordReady (device : string) : R unit :=
  observe (λ s, throw_if (negb (includes (transferMembers (rc s)) device) || negb (bool_decide (device ∈ preparedMembers (rc s))))
    "Sync admission member rejected.");;
  modify (set_rc (λ c, with_members (preparedMembers c) ({[device]} ∪ readyMembers c) c)).

(** Every member prepared and ready, where the authorisation names its members. *)
Definition members_ready (c : controller) : bool :=
  match rc_transfer c with
  | Some (a, _) => match activeMemberDeviceIds a with
      | Some _ => (size (preparedMembers c) =? length (members_of a))%nat && (size (readyMembers c) =? length (members_of a))%nat
      | None => true end
  | None => true
  end.
(* service/src/sync/runtime.ts:66-66 begin *)
Definition begin : R unit :=
  observe (λ s, throw_if (negb (admission_open adm_ready (rc s)) || negb (members_ready (rc s))) "Sync admission is unavailable.");;
  on_transfer (Err "TypeError") (λ _, begin_transfer);;
  modify (set_rc (with_admission adm_transfer));;
  s ← gets id;
  persistState (rc_checkpoint (rc s)) None.

(* service/src/sync/runtime.ts:118-124 extractRecords *)
Definition extractRecords (payload : jsval) : res (list jsval) :=
  match payload with
  | JObj fs => if has_key fs "records" then require (as_array (get fs "records")) "Sync records rejected." else mret []
  | _ => mret []
  end.
Definition package_key (p : SyncPackage) : string :=
  text_of (get p "sender") +:+ ":" +:+ text_of (get p "receiver") +:+ ":" +:+ text_of (get p "streamId") +:+ ":" +:+
  num_str (NInt (int_of (get p "sequence"))).

(** A package of a group transfer is also freshness evidence of its sender. *)
(* service/src/sync/runtime.ts:77-81 group freshness in receiveInternal *)
Definition group_freshness (p : SyncPackage) : R unit :=
  s ← gets id;
  match rc_transfer (rc s) with
  | Some (a, _) =>
      if bool_decide (is_Some (activeMemberDeviceIds a)) && sa_freshnessRequired a then
        st ← lift (trust_snapshot (trust 1%nat));
        on_freshness (recordAuthenticatedEvidence 8
          {| fe_version := 1; fe_deviceId := text_of (get p "sender"); fe_identityReference := text_of (get p "senderIdentity");
             fe_epoch := cp_epoch (checkpoint_of p); fe_commitment := cp_commitment (checkpoint_of p);
             evidenceId := text_of (get p "messageId") |} st);;
        observe (λ s, assertCurrent localDeviceId 8 (rc_freshness (rc s)) st (members_of a))
      else mret tt
  | None => mret tt
  end.
(** The sequence is added to the set inside the transaction; a failed one clears the set. *)
(* service/src/sync/runtime.ts:74-95 receiveInternal *)
Definition receiveInternal (p : SyncPackage) : R SyncAcknowledgement :=
  observe (λ s, throw_if (negb (admission_open adm_transfer (rc s))) "Sync transfer is unavailable.");;
  receipt ← on_transfer (Err "Sync transfer is unavailable.") (λ a, accept_package sha256_hex a p (trust 0%nat) (clock 1%nat));
  group_freshness p;;
  incoming ← lift (extractRecords (get p "payload"));
  let cp := checkpoint_of p in
  let sequences c := {[int_of (get p "sequence")]} ∪ receivedSequences c in
  atomic (checkpoint_json cp) (λ c app,
    fresh ← tx_claim scope scope (package_key p);
    lift (throw_if (negb fresh) "Sync package replayed.");;
    (match incoming with [] => mret tt | _ => tx_importRecords sha256_hex scope app scope cp incoming end);;
    tx_writeState scope scope (durable_state (checkpoint_json cp) None (with_sequences (sequences c) (rc_checkpoint c) c)));;
  modify (set_rc (λ c, with_sequences (sequences c) (Some cp) c));;
  mret receipt.

(* service/src/sync/runtime.ts:68-72 receiveAuthenticated *)
Definition receiveAuthenticated (usable : N → bool) (frame : AuthenticatedSyncFrame) : R SyncAcknowledgement :=
  on_frames (consumeAuthenticatedSyncFrame usable frame);;
  lift (throw_if (negb (nonempty (fr_binding frame)) || negb (nonempty (senderIdentityReference frame)))
    "Authenticated sync frame rejected.");;
  receiveInternal (syncPackage frame).

(* service/src/sync/runtime.ts:97-97 complete *)
Definition complete : R unit :=
  observe (λ s, throw_if (negb (bool_decide (is_Some (rc_transfer (rc s)))) || negb (bool_decide (admission (rc s) = adm_transfer)))
    "Sync transfer is unavailable.");;
  on_transfer (Err "Sync transfer is unavailable.") (complete_transfer sha256_hex);;
  modify (set_rc (with_admission adm_idle));;
  s ← gets id;
  persistState (rc_checkpoint (rc s)) (Some "completed").
(* service/src/sync/runtime.ts:98-98 fail *)
Definition fail : R unit :=
  on_transfer (mret tt) (λ _, fail_transfer);;
  modify (set_rc (with_admission adm_idle));;
  s ← gets id;
  match rc_checkpoint (rc s) with Some c => persistState (Some c) (Some "failed") | None => mret tt end.
End runtime.
