(* ===== verification/SyncSafety.v ===== *)
(** * What synchronisation guarantees

    Theorems about [SyncStore]: the stored record of a scope only advances, a package is applied at most once, and an
    import never raises the trust in a contact - for every interference of other writers of the storage that itself
    respects the property - and the one flow in which the store makes itself unreadable. *)
From S2P Require Import Prelude Json Storage DeviceList Lifecycle LifecycleStore Trust ContactRegistry SyncProtocol SyncStore.

(** ** Records that only advance *)
(** The same checkpoint, or one of a later epoch. *)
Definition checkpoint_follows (c c' : jsval) : Prop :=
  truthy c = true → truthy c' = true ∧
    (int_of (oprop c "epoch") < int_of (oprop c' "epoch") ∨
     int_of (oprop c "epoch") = int_of (oprop c' "epoch") ∧ oprop c "commitment" = oprop c' "commitment").
#[export] Instance checkpoint_follows_preorder : PreOrder checkpoint_follows.
Proof.
  split.
  - intros c Hc. split; [done|]. by right.
  - intros a b c Hab Hbc Ha. destruct (Hab Ha) as [Hb [H1|[H1 H1']]]; destruct (Hbc Hb) as [Hc [H2|[H2 H2']]]; (split; [done|]).
    + left. lia.
    + left. lia.
    + left. lia.
    + right. split; [lia|congruence].
Qed.

(** No claim and no record is lost, and the checkpoint is followed. *)
Record advances (r r' : RecordState) : Prop := {
  adv_claims : claims_of r `prefix_of` claims_of r';
  adv_records : records_of r `prefix_of` records_of r';
  adv_checkpoint : checkpoint_follows (get r "checkpoint") (get r' "checkpoint") }.
#[export] Instance advances_preorder : PreOrder advances.
Proof.
  split.
  - intros r. by split.
  - intros r1 r2 r3 [? ? ?] [? ? ?]. split; by etrans.
Qed.

Lemma fields_advance r r' :
  get r' "claims" = get r "claims" → get r' "records" = get r "records" → get r' "checkpoint" = get r "checkpoint" → advances r r'.
Proof. intros H1 H2 H3. unfold claims_of, records_of. split; unfold claims_of, records_of; by rewrite ?H1, ?H2, ?H3. Qed.

Lemma set_key_plain fs k v : plain (JObj fs) = true → plain v = true → plain (JObj (set_key fs k v)) = true.
Proof.
  intros Hf Hv. assert (kept (set_key fs k v)) as Hk by (apply kept_set_key; [by apply plain_kept|by right]).
  rewrite <-(kept_plain _ Hk). do 2 f_equal. unfold drop_undef. symmetry. clear Hk. cbn [plain] in Hf. apply andb_true_iff in Hf as [Hf _].
  induction fs as [|[k0 v0] fs IH]; cbn in *.
  - by destruct v.
  - apply andb_true_iff in Hf as [H0 Hf]. bdecide; cbn.
    + rewrite bool_decide_eq_false_2 by (by destruct v). cbn. f_equal. clear IH. induction fs as [|[k1 v1] fs IH]; [done|]. cbn in *.
      apply andb_true_iff in Hf as [H1 Hf]. rewrite bool_decide_eq_false_2 by (by destruct v1). cbn. f_equal. by apply IH.
    + rewrite bool_decide_eq_false_2 by (by destruct v0). cbn. f_equal. by apply IH.
Qed.

Lemma plain_get fs k : plain (JObj fs) = true → get fs k = JUndef ∨ plain (get fs k) = true.
Proof. intros H. by apply get_kept, plain_kept. Qed.

Lemma plain_elements v l : plain v = true → as_array v = Some l → Forall (λ x, plain x = true) l.
Proof.
  destruct v; try done. cbn. intros Hp [= <-]. apply Forall_forall. rewrite forallb_forall in Hp. intros x Hx. apply Hp.
  by apply list_elem_of_In.
Qed.

Lemma elements_plain fs k : plain (JObj fs) = true → Forall (λ x, plain x = true) (elements_of (get fs k)).
Proof.
  intros Hf. unfold elements_of. destruct (as_array (get fs k)) as [l|] eqn:E; [|constructor]. cbn.
  destruct (plain_get fs k Hf) as [Hu|Hp]; [by rewrite Hu in E|]. by eapply plain_elements.
Qed.

(** ** Transactions keep the record well formed *)
Definition app_types : list string :=
  ["conversation-protocol"; ContactRegistry.RECORD_TYPE; "application-settings"; LifecycleStore.RECORD_TYPE; HIGHWATER_RECORD_TYPE].
Record tx_good (t : tx) : Prop := {
  tg_plain : plain (JObj (tx_record t)) = true;
  tg_names : NoDup (update_name <$> tx_updates t);
  tg_types : Forall (λ u, recordType u ∈ app_types) (tx_updates t) }.
(** A step of a transaction, when it succeeds. *)
Definition tx_step {A} (m : M tx A) : Prop :=
  ∀ t x t', m t = (Ok x, t') → tx_good t → tx_good t' ∧ advances (tx_record t) (tx_record t').

Lemma tx_step_bind {A B} (m : M tx A) (k : A → M tx B) : tx_step m → (∀ x, tx_step (k x)) → tx_step (m ≫= k).
Proof.
  intros Hm Hk t y t' H Ht. apply M_bind_ok in H as (x & t1 & H1 & H2). destruct (Hm _ _ _ H1 Ht) as [Hg1 Ha1].
  destruct (Hk x _ _ _ H2 Hg1) as [Hg2 Ha2]. split; [done|]. by etrans.
Qed.
Lemma tx_step_same {A} (m : M tx A) : (∀ t x t', m t = (Ok x, t') → t' = t) → tx_step m.
Proof. intros Hm t x t' ->%Hm Ht. by split. Qed.
Lemma tx_step_set k v : k ∉ ["claims"; "records"; "checkpoint"] → plain v = true → tx_step (modify (with_record (λ r, set_key r k v))).
Proof.
  intros Hk Hv t x t' [= _ <-] [Hp Hn Ht]. split.
  - split; cbn; [by apply set_key_plain|done|done].
  - apply fields_advance; cbn; rewrite get_set_key;
      (match goal with |- context [String.eqb ?a k] => destruct (String.eqb_spec a k) end; [subst; set_solver|done]).
Qed.
Lemma tx_step_guards candidate scope : tx_step requireActive ∧ tx_step (requireScope scope candidate).
Proof.
  split; apply tx_step_same; intros t x t'.
  - by intros [_ ->]%observe_ok.
  - by intros [_ ->]%lift_ok.
Qed.

Lemma claim_step scope candidate key : tx_step (tx_claim scope candidate key).
Proof.
  destruct (tx_step_guards candidate scope) as [G1 G2].
  apply tx_step_bind; [done|intros _]. apply tx_step_bind; [done|intros _].
  intros t x t'. rewrite gets_bind. cbn [id]. intros H Ht. m_step H. clear Hm.
  destruct (bool_decide _); [injection H as _ <-; by split|].
  injection H as _ <-. destruct Ht as [Hp Hn Ht].
  split.
  - split; cbn [with_record tx_record tx_updates]; [|done|done]. apply set_key_plain; [done|]. apply plain_arr. apply Forall_app. split; [|by constructor].
    by apply elements_plain.
  - split; unfold claims_of, records_of; cbn [with_record tx_record]; rewrite !get_set_key; cbn; [|done|done].
    by eexists.
Qed.

Lemma put_step c : c = JUndef ∨ plain c = true → tx_step (putCheckpoint c).
Proof.
  intros Hc t x t' H Ht. unfold putCheckpoint in H. m_step H. guard_inv Hm. destruct Hm as [Hv Hl]. injection H as _ <-.
  destruct Hc as [->|Hc]; [done|]. destruct Ht as [Hp Hn Ht].
  split; [split; cbn; [by apply set_key_plain|done|done]|].
  split; unfold claims_of, records_of; cbn [with_record tx_record]; rewrite !get_set_key; cbn [String.eqb Ascii.eqb Bool.eqb]; [done|done|].
  intros Htr. unfold checkpointValid in Hv. rewrite !andb_true_iff in Hv. destruct Hv as [[Htc _] _]. split; [done|].
  unfold later_checkpoint in Hl. rewrite Htr in Hl. cbn in Hl. apply andb_true_iff in Hl as [Hle Hne].
  destruct (Z.eqb_spec (int_of (oprop (get (tx_record t) "checkpoint") "epoch")) (int_of (oprop c "epoch"))) as [He|He]; [right|left; lia].
  split; [done|]. cbn in Hne. rewrite negb_involutive in Hne. unfold strict_eq in Hne.
  destruct (oprop c "commitment"); first [done|by apply bool_decide_eq_true in Hne].
Qed.

Lemma writeState_step scope candidate fs : kept fs → tx_step (tx_writeState scope candidate (JObj fs)).
Proof.
  intros Hk. destruct (tx_step_guards candidate scope) as [G1 G2].
  apply tx_step_bind; [done|intros _]. apply tx_step_bind; [done|intros _].
  apply tx_step_bind; [apply tx_step_same; by intros t x t' [_ ->]%lift_ok|intros _].
  apply tx_step_bind; [apply put_step, (get_kept _ _ Hk)|intros _].
  intros t x t' H Ht. m_step H. apply require_ok in Hm. rewrite stringify_drop_undef, parse_stringify in Hm by (by apply kept_plain).
  injection Hm as <-. revert H Ht. apply tx_step_set; [set_solver|by apply kept_plain].
Qed.

Lemma durable_kept scope cp terminal c : cp = JUndef ∨ plain cp = true → ∃ fs, durable_state scope cp terminal c = JObj fs ∧ kept fs.
Proof.
  intros Hcp. eexists. split; [reflexivity|]. split; [refine (bool_decide_unpack _ _); reflexivity|].
  repeat apply Forall_cons_2; try apply Forall_nil_2; cbn [snd]; try (by right); [done|..].
  - right. apply plain_arr, Forall_fmap, Forall_forall. done.
  - right. apply plain_arr, Forall_fmap, Forall_forall. done.
  - right. apply plain_arr, Forall_fmap, Forall_forall. done.
  - destruct terminal; [by right|by left].
Qed.

Section safety.
Context (sha256_hex : string → string) `{SecureStorageLaws St}.

Lemma update_types (p : St) scope record us :
  applicationUpdates sha256_hex p scope record = Ok us → Forall (λ u, recordType u ∈ app_types) us.
Proof.
  unfold applicationUpdates. destruct (String.eqb _ "conversation").
  { intros [= <-]. repeat constructor. }
  destruct (String.eqb _ "contact").
  { intros [= <-]. unfold contact_update. destruct (match _ with None | Some EmptyString => _ | Some text => parse text end); [|constructor].
    destruct (truthy _ && _); constructor; cbn; [set_solver|constructor]. }
  destruct (String.eqb _ "settings").
  { intros [= <-]. repeat constructor; cbn; set_solver. }
  intros Hr. res_inv Hr. subst us. repeat constructor; cbn; set_solver.
Qed.

Lemma all_update_types (p : St) scope records us :
  all_updates sha256_hex p scope records = Ok us → Forall (λ u, recordType u ∈ app_types) us.
Proof.
  revert us. induction records as [|r records IH]; cbn; intros us Hr; res_inv Hr; subst us; [constructor|].
  apply Forall_app. split; [by eapply update_types|by apply IH].
Qed.

Lemma import_step (p : St) scope candidate cp records :
  Forall (λ v, plain v = true) records → tx_step (tx_importRecords sha256_hex scope p candidate cp records).
Proof.
  intros Hpl. destruct (tx_step_guards candidate scope) as [G1 G2].
  apply tx_step_bind; [done|intros _]. apply tx_step_bind; [done|intros _].
  apply tx_step_bind; [apply tx_step_same; by intros t x t' [_ ->]%lift_ok|intros _].
  intros t x t'. rewrite gets_bind. cbn [id]. intros Hr [Hp Hn Ht]. m_step Hr. clear Hm. m_step Hr. clear Hm. m_step Hr.
  apply require_ok in Hm. rewrite parse_stringify in Hm by (by apply plain_arr). injection Hm as <-. cbn [elements_of as_array default from_option id] in Hr.
  m_step Hr. clear Hm. m_step Hr. clear Hm. m_step Hr. apply all_update_types in Hm. m_step Hr. clear Hm0.
  apply observe_ok in Hr as [Hr ->]. guard_inv Hr. split.
  - split; cbn [with_record tx_record tx_updates] in *; [|done|by apply Forall_app].
    apply set_key_plain; [done|]. apply plain_arr, Forall_app. split; [by apply elements_plain|done].
  - split; unfold claims_of, records_of; cbn [with_record tx_record]; rewrite !get_set_key; cbn; [done| |done]. by eexists.
Qed.

(** ** The storage *)
Context (scope id : string) (Hid : canonicalIdentityRecordId sha256_hex scope = Ok id).

(** The stored record of the scope, and stored records that this code wrote (no fractional number in them). *)
Definition stored (p : St) : option RecordState := raw ← read p SYNC_TYPE id; v ← parse raw; as_object v.
Definition store_ok (p : St) : Prop :=
  ∀ raw, read p SYNC_TYPE id = Some raw → ∃ r, parse raw = Some (JObj r) ∧ plain (JObj r) = true.
Definition evolves (p p' : St) : Prop :=
  store_ok p → store_ok p' ∧ ∀ r, stored p = Some r → ∃ r', stored p' = Some r' ∧ advances r r'.
#[export] Instance evolves_preorder : PreOrder evolves.
Proof.
  split.
  - intros p Hp. split; [done|]. intros r Hr. by exists r.
  - intros p1 p2 p3 H12 H23 H1. destruct (H12 H1) as [H2 F2]. destruct (H23 H2) as [H3 F3]. split; [done|].
    intros r Hr. destruct (F2 r Hr) as (r2 & Hr2 & A2). destruct (F3 r2 Hr2) as (r3 & Hr3 & A3). exists r3. split; [done|]. by etrans.
Qed.

Lemma evolves_read (p p' : St) : read p' SYNC_TYPE id = read p SYNC_TYPE id → evolves p p'.
Proof. intros Hr Hp. unfold store_ok, stored. rewrite Hr. split; [done|]. intros r Hs. by exists r. Qed.

Lemma load_ok (p : St) i raw r : load sha256_hex scope p = Ok (i, raw, r) →
  i = id ∧ read p SYNC_TYPE id = raw ∧ (store_ok p → plain (JObj r) = true) ∧
  (stored p = Some r ∨ raw = None ∧ r = new_record scope ∧ stored p = None).
Proof.
  unfold load. rewrite Hid. cbn [mbind res_bind]. unfold stored, store_ok. destruct (read p SYNC_TYPE id) as [text|] eqn:E.
  - intros Hr. res_inv Hr. injection Hr as <- <- <-. destruct x as [| | | | | |fs]; try done. injection Hr1 as <-.
    split_and!; [done|done| |].
    + intros Hp. destruct (Hp text eq_refl) as (r & Hr & Hpl). congruence.
    + left. cbn [mbind option_bind]. by rewrite Hr0.
  - intros [= <- <- <-]. split_and!; [done|done|done|right; done].
Qed.
Definition with_revision (r : RecordState) : RecordState := set_key r "revision" (JNum (NInt (revision_of r + 1))).
Definition commit_updates (raw : option string) (t : tx) : list SecureRecordUpdate :=
  swap SYNC_TYPE id raw (JObj (with_revision (tx_record t))) :: tx_updates t.

(** A transaction commits its updates to the storage others left, or leaves the storage to them. *)
Lemma transaction_spec {A} others expected_ (op : St → M tx A) (p : St) x p' :
  transaction sha256_hex others scope expected_ op p = (x, p') →
  let p1 := others 0%nat p in let p2 := others 1%nat p1 in
  (is_ok x = false ∧ (p' = p ∨ p' = p1 ∨ p' = p2)) ∨
  ∃ raw r a t, load sha256_hex scope p = Ok (id, raw, r) ∧ x = Ok a ∧
    op p1 {| tx_record := r; tx_updates := []; tx_active := true |} = (Ok a, t) ∧
    compareAndSwapRecords (commit_updates raw t) p2 = (true, p').
Proof.
  unfold transaction. destruct (load _ _ p) as [[[i raw] r]|] eqn:El; [|intros [= <- <-]; left; auto].
  pose proof (load_ok _ _ _ _ El) as (-> & _ & _ & _).
  destruct (negb (same _ _)); [intros [= <- <-]; left; auto|].
  destruct (op (others 0%nat p) _) as [[a|e] t] eqn:Eo; [|intros [= <- <-]; left; auto].
  destruct (if is_undef _ then _ else _); [|intros [= <- <-]; left; auto].
  destruct (MAX_SAFE_INTEGER <=? _); [intros [= <- <-]; left; auto|].
  fold (with_revision (tx_record t)). fold (commit_updates raw t).
  pose proof (cas_fail (others 1%nat (others 0%nat p)) (commit_updates raw t)) as Hf.
  destruct (compareAndSwapRecords _ _) as [[|] p2] eqn:Ec; cbn in Hf; intros [= <- <-].
  - right. by exists raw, r, a, t.
  - left. rewrite Hf by done. auto.
Qed.

Lemma update_name_inj u v : update_key u = update_key v → update_name u = update_name v.
Proof. unfold update_key, update_name. by intros [= -> ->]. Qed.

Lemma commit_keys raw t : tx_good t → NoDup (update_key <$> commit_updates raw t).
Proof.
  intros [_ Hn Ht]. cbn. apply NoDup_cons. split.
  - intros (u & Hu & Hin)%list_elem_of_fmap. rewrite Forall_forall in Ht. specialize (Ht u Hin).
    unfold update_key in Hu. cbn in Hu. injection Hu as Hu _. rewrite <-Hu in Ht. revert Ht. refine (bool_decide_unpack _ _). reflexivity.
  - clear Ht. induction (tx_updates t) as [|u us IH]; cbn in *; [constructor|]. apply NoDup_cons in Hn as [Hu Hn].
    constructor; [|by apply IH]. intros (v & Hv & Hin)%list_elem_of_fmap. apply Hu. rewrite (update_name_inj _ _ Hv).
    by apply list_elem_of_fmap_2.
Qed.

(** What a commit found and what it left. *)
Lemma commit_reads raw t (p p' : St) u :
  tx_good t → compareAndSwapRecords (commit_updates raw t) p = (true, p') → u ∈ commit_updates raw t →
  read p (recordType u) (recordId u) = expected u ∧ read p' (recordType u) (recordId u) = Some (next u).
Proof.
  intros Hg%(commit_keys raw) Hc Hu.
  assert (expectations_hold (commit_updates raw t) p = true) as Hr by (rewrite <-cas_result by done; by rewrite Hc). split.
  - unfold expectations_hold in Hr. rewrite forallb_forall in Hr. specialize (Hr u).
    rewrite bool_decide_eq_true in Hr. apply Hr. by apply list_elem_of_In.
  - pose proof (cas_written p _ u Hg) as Hw. rewrite Hc in Hw. by apply Hw.
Qed.

(** A committed transaction on a well-formed store. *)
Lemma transaction_commits {A} others expected_ (op : St → M tx A) (p : St) a p' :
  (∀ n q, evolves q (others n q)) → (∀ q, tx_step (op q)) → store_ok p →
  transaction sha256_hex others scope expected_ op p = (Ok a, p') →
  ∃ r t, (stored p = Some r ∨ r = new_record scope ∧ stored p = None) ∧
    op (others 0%nat p) {| tx_record := r; tx_updates := []; tx_active := true |} = (Ok a, t) ∧
    tx_good {| tx_record := r; tx_updates := []; tx_active := true |} ∧ tx_good t ∧ advances r (tx_record t) ∧ store_ok p' ∧ stored p' = Some (with_revision (tx_record t)) ∧
    ∃ raw, compareAndSwapRecords (commit_updates raw t) (others 1%nat (others 0%nat p)) = (true, p').
Proof.
  intros Ho Hop Hp [[Hx _]|(raw & r & a' & t & Hl & [= <-] & Hrun & Hcas)]%transaction_spec; [done|].
  apply load_ok in Hl as (_ & Hraw & Hpl & Hst).
  assert (tx_good {| tx_record := r; tx_updates := []; tx_active := true |}) as Hg0 by (split; cbn; [by apply Hpl|constructor|constructor]).
  destruct (Hop _ _ _ _ Hrun Hg0) as [Hg Ha]. cbn in Ha.
  assert (plain (JObj (with_revision (tx_record t))) = true) as Hpr by (apply set_key_plain; [by apply Hg|done]).
  destruct (commit_reads raw t _ _ (swap SYNC_TYPE id raw (JObj (with_revision (tx_record t)))) Hg Hcas) as [_ Hw]; [set_solver|].
  cbn [swap recordType recordId next] in Hw. exists r, t. split_and!; try done.
  - destruct Hst as [?|(_ & ? & ?)]; auto.
  - intros text. rewrite Hw. intros Ht. apply (inj Some) in Ht as <-. exists (with_revision (tx_record t)).
    split; [by apply parse_stringify|done].
  - unfold stored. rewrite Hw. cbn [mbind option_bind]. by rewrite parse_stringify.
  - by exists raw.
Qed.

Lemma transaction_evolves {A} others expected_ (op : St → M tx A) (p : St) x p' :
  (∀ n q, evolves q (others n q)) → (∀ q, tx_step (op q)) → transaction sha256_hex others scope expected_ op p = (x, p') → evolves p p'.
Proof.
  intros Ho Hop Hrun Hp. destruct x as [a|e].
  - apply transaction_commits in Hrun as (r & t & Hst & _ & _ & _ & Ha & Hok & Hs & _); [|done..]. split; [done|].
    intros r0 Hr0. exists (with_revision (tx_record t)). split; [done|].
    destruct Hst as [Hst|[_ Hst]]; [|congruence]. assert (r0 = r) as -> by congruence.
    etrans; [exact Ha|]. apply fields_advance; unfold with_revision; by rewrite get_set_key.
  - apply transaction_spec in Hrun as [[_ Hq]|(? & ? & ? & ? & _ & ? & _)]; [|done]. revert Hp. fold (evolves p p').
    destruct Hq as [->|[->| ->]]; [done|apply Ho|]. etrans; apply Ho.
Qed.
End safety.

(** ** Histories of controllers *)
Inductive sync_op :=
| OAuthorize (a : SyncAuthorization)
| ORecover
| OPrepared
| OReady
| ORecordPrepared (device : string)
| ORecordReady (device : string)
| OBegin
| OReceive (usable : N → bool) (frame : AuthenticatedSyncFrame)
| OComplete
| OFail.

Section histories.
Context (sha256_hex : string → string) `{SecureStorageLaws St} `{SyncTrustBoundary T}.
Context (scope id : string) (Hid : canonicalIdentityRecordId sha256_hex scope = Ok id).

Section run.
Context (localDeviceId : string) (others : nat → St → St) (trust : nat → T) (clock : nat → Z).
Definition run_sync (op : sync_op) : M (sync_state St) unit :=
  match op with
  | OAuthorize a => authorize sha256_hex scope localDeviceId others trust clock a
  | ORecover => recover sha256_hex scope;; mret tt
  | OPrepared => prepared sha256_hex scope others trust clock
  | OReady => ready sha256_hex scope others trust clock
  | ORecordPrepared d => recordPrepared d
  | ORecordReady d => recordReady d
  | OBegin => begin sha256_hex scope others clock
  | OReceive usable f => receiveAuthenticated sha256_hex scope localDeviceId others trust clock usable f;; mret tt
  | OComplete => complete sha256_hex scope others
  | OFail => fail sha256_hex scope others
  end.
(** Packages whose payload has no fractional number. *)
Definition op_plain (op : sync_op) : Prop :=
  match op with OReceive _ f => plain (JObj (syncPackage f)) = true | _ => True end.

Context (Hothers : ∀ n q, evolves id q (others n q)).
Definition Rs (s s' : sync_state St) : Prop := evolves id (db s) (db s').
#[export] Instance Rs_preorder : PreOrder Rs.
Proof. split; [intros s; unfold Rs; reflexivity|intros s1 s2 s3; unfold Rs; intros; by etrans]. Qed.

(** Steps that do not touch the storage. *)
Definition same_db (s s' : sync_state St) : Prop := db s' = db s.
#[export] Instance same_db_preorder : PreOrder same_db.
Proof. split; [done|]. unfold same_db. intros s1 s2 s3; congruence. Qed.
Lemma db_set f : always same_db (modify (set_rc f)).
Proof. by intros s x s' [= _ <-]. Qed.
Lemma db_transfer {A} (none : res A) m : always same_db (on_transfer none m).
Proof.
  intros s x s'. unfold on_transfer. destruct (rc_transfer (rc s)) as [[a t]|]; [|by intros [= _ <-]].
  destruct (m a t). by intros [= _ <-].
Qed.
Lemma db_freshness m : always same_db (on_freshness m).
Proof. intros s x s'. unfold on_freshness. destruct (m _). by intros [= _ <-]. Qed.
Lemma db_frames m : always same_db (on_frames m).
Proof. intros s x s'. unfold on_frames. destruct (m _). by intros [= _ <-]. Qed.
Lemma db_group_freshness p : always same_db (group_freshness localDeviceId trust p).
Proof.
  unfold group_freshness. apply always_bind; [apply same_db_preorder|apply always_gets, _|intros s].
  destruct (rc_transfer (rc s)) as [[a t]|]; [|apply always_mret, _]. destruct (_ && _); [|apply always_mret, _].
  apply always_bind; [apply same_db_preorder|apply always_lift, _|intros st].
  apply always_bind; [apply same_db_preorder|apply db_freshness|intros _; apply always_observe, _].
Qed.
Lemma Rs_same {A} (m : M (sync_state St) A) : always same_db m → always Rs m.
Proof. intros Hm s x s' Hr%Hm. unfold Rs. rewrite Hr. reflexivity. Qed.
Lemma Rs_atomic {A} cp (op : controller → St → M tx A) : (∀ c q, tx_step (op c q)) → always Rs (atomic sha256_hex scope others cp op).
Proof.
  intros Hop s x s'. unfold atomic, on_db. destruct (transaction _ _ _ _ _ _) as [[a|e] p] eqn:E; intros [= _ <-].
  all: unfold Rs; cbn; eapply (transaction_evolves sha256_hex scope id Hid others); [exact Hothers| |exact E]; apply Hop.
Qed.
Lemma Rs_persist cp terminal : always Rs (persistState sha256_hex scope others cp terminal).
Proof.
  apply Rs_atomic. intros c q. destruct (durable_kept scope (from_option checkpoint_json JUndef cp) terminal c) as (fs & -> & Hk).
  - destruct cp; [by right|by left].
  - by apply writeState_step.
Qed.
Lemma Rs_lift_bind {A B} (r : res A) (k : A → M (sync_state St) B) : (∀ x, r = Ok x → always Rs (k x)) → always Rs (lift r ≫= k).
Proof.
  intros Hk s y s'. rewrite lift_bind. destruct r as [x|e]; [by apply Hk|]. intros [= _ <-]. reflexivity.
Qed.
Ltac sync_always :=
  repeat first
    [ exact Rs_preorder | apply Rs_lift_bind; intros ? ? | apply always_lift | apply always_gets | apply always_observe | apply always_mret
    | apply Rs_same, db_set | apply Rs_same, db_transfer | apply Rs_same, db_freshness | apply Rs_same, db_frames | apply Rs_same, db_group_freshness | apply Rs_persist
    | apply always_bind; [exact Rs_preorder| |intros ?]
    | match goal with |- always _ (match ?x with _ => _ end) => destruct x end ].

(** The transaction of a received package, after its claim. *)
Definition receive_tail (c : controller) (q : St) (p : SyncPackage) (incoming : list jsval) (fresh : bool) : M tx unit :=
  lift (throw_if (negb fresh) "Sync package replayed.");;
  (match incoming with [] => mret tt | _ => tx_importRecords sha256_hex scope q scope (checkpoint_of p) incoming end);;
  tx_writeState scope scope (durable_state scope (checkpoint_json (checkpoint_of p)) None c).
Lemma receive_tail_step c q p incoming fresh : Forall (λ v, plain v = true) incoming → tx_step (receive_tail c q p incoming fresh).
Proof.
  intros Hpl. apply tx_step_bind; [apply tx_step_same; by intros t x t' [_ ->]%lift_ok|intros _].
  apply tx_step_bind; [destruct incoming; [apply tx_step_same; by intros t x t' [_ ->]%mret_ok|by apply import_step]|intros _].
  destruct (durable_kept scope (checkpoint_json (checkpoint_of p)) None c) as (fs & -> & Hk); [by right|]. by apply writeState_step.
Qed.
Lemma receive_op_step c q p incoming :
  Forall (λ v, plain v = true) incoming → tx_step (tx_claim scope scope (package_key p) ≫= receive_tail c q p incoming).
Proof. intros Hpl. apply tx_step_bind; [apply claim_step|intros fresh]. by apply receive_tail_step. Qed.

Lemma claim_result key t t' : tx_claim scope scope key t = (Ok true, t') →
  JStr key ∉ claims_of (tx_record t) ∧ JStr key ∈ claims_of (tx_record t').
Proof.
  intros Hr. unfold tx_claim in Hr. m_step Hr. clear Hm. m_step Hr. clear Hm.
  rewrite gets_bind in Hr. m_step Hr. clear Hm. destruct (bool_decide _) eqn:E; [by injection Hr|].
  apply bool_decide_eq_false in E. injection Hr as <-. split; [done|]. unfold claims_of at 1. cbn [with_record tx_record].
  rewrite get_set_key. cbn. set_solver.
Qed.

Lemma extract_plain p incoming : plain (JObj p) = true → extractRecords (get p "payload") = Ok incoming → Forall (λ v, plain v = true) incoming.
Proof.
  intros Hp. unfold extractRecords. destruct (get p "payload") as [| | | | | |fs] eqn:E; try (by intros [= <-]).
  destruct (has_key fs "records"); [|by intros [= <-]]. intros Hr%require_ok. eapply plain_elements; [|exact Hr].
  assert (plain (JObj fs) = true) as Hf by (destruct (plain_get p "payload" Hp) as [Hu|Hq]; congruence).
  destruct (plain_get fs "records" Hf) as [Hu|Hq]; [by rewrite Hu in Hr|done].
Qed.

Lemma run_sync_evolves op : op_plain op → always Rs (run_sync op).
Proof.
  intros Hop. destruct op; cbn [run_sync]; unfold authorize, recover, prepared, ready, advance_admission, recordPrepared, recordReady,
    begin, complete, fail, receiveAuthenticated, receiveInternal, from_db; sync_always.
  - apply Rs_atomic. intros c q. destruct (durable_kept scope (checkpoint_json (sa_checkpoint a)) None c) as (fs & -> & Hk); [by right|].
    by apply writeState_step.
  - apply Rs_atomic. intros c q. apply receive_op_step. by eapply extract_plain.
Qed.
Lemma receive_claims usable f (s : sync_state St) a s' :
  plain (JObj (syncPackage f)) = true → store_ok id (db s) →
  receiveAuthenticated sha256_hex scope localDeviceId others trust clock usable f s = (Ok a, s') →
  let k := JStr (package_key (syncPackage f)) in
  (∀ r, stored id (db s) = Some r → k ∉ claims_of r) ∧ ∃ r', stored id (db s') = Some r' ∧ k ∈ claims_of r'.
Proof.
  intros Hpl Hok Hr. unfold receiveAuthenticated in Hr. m_step Hr. apply db_frames in Hm. m_step Hr. clear Hm0.
  unfold receiveInternal in Hr. m_step Hr. clear Hm0. m_step Hr. apply db_transfer in Hm0. m_step Hr. apply db_group_freshness in Hm1 as Hdb.
  clear Hm1. m_step Hr. apply extract_plain in Hm1; [|done]. m_step Hr. m_step Hr. clear Hm3. apply mret_ok in Hr as [_ ->].
  unfold same_db in *. rewrite <-Hm, <-Hm0, <-Hdb in *. clear Hm Hm0 Hdb. cbv zeta. cbn [set_rc db].
  revert Hm2. unfold atomic, on_db. destruct (transaction _ _ _ _ _ _) as [[[]|e] p] eqn:E; [|done]. intros [= _ <-]. cbn [db].
  apply (transaction_commits _ _ _ Hid) in E as (r & t & Hst & Hrun & Hg0 & _ & _ & _ & Hs & _); [|done| |done].
  2: { intros q. by apply receive_op_step. }
  apply M_bind_ok in Hrun as (fresh & t1 & Hc & Hrun).
  destruct (claim_step _ _ _ _ _ _ Hc Hg0) as [Hg1 _].
  destruct (receive_tail_step (with_sequences _ _ _) _ _ _ _ Hm1 _ _ _ Hrun Hg1) as [_ Ha2].
  m_step Hrun. apply throw_if_ok, negb_false_iff in Hm as ->. apply claim_result in Hc as [Hnew Hin]. cbn [tx_record] in Hnew. split.
  - intros r0 Hr0. destruct Hst as [Hst|[_ Hst]]; congruence.
  - exists (with_revision (tx_record t)). split; [done|]. unfold with_revision, claims_of. rewrite get_set_key.
    cbn. destruct (adv_claims _ _ Ha2) as [l Hl]. unfold claims_of in Hl. rewrite Hl. by apply elem_of_app; left.
Qed.
End run.

(** ** Every history of a device store *)
(** An operation of some controller of the scope, in any state, with what happens around it. *)
Record sync_event := {
  ev_device : string; ev_controller : controller; ev_frames : issued_frames; ev_op : sync_op; ev_others : nat → St → St;
  ev_trust : nat → T; ev_clock : nat → Z }.
Definition event_ok (e : sync_event) : Prop := op_plain (ev_op e) ∧ ∀ n q, evolves id q (ev_others e n q).
(** The keys of the packages applied so far, and the storage. *)
Definition run_event (x : list string * St) (e : sync_event) : list string * St :=
  let '(r, s) := run_sync (ev_device e) (ev_others e) (ev_trust e) (ev_clock e) (ev_op e)
    {| rc := ev_controller e; db := x.2; frames := ev_frames e |} in
  (match ev_op e, r with OReceive _ f, Ok _ => x.1 ++ [package_key (syncPackage f)] | _, _ => x.1 end, db s).
Definition run_events (es : list sync_event) (p : St) : list string * St := foldl run_event ([], p) es.

Definition applied_ok (p0 : St) (x : list string * St) : Prop :=
  store_ok id x.2 ∧ evolves id p0 x.2 ∧ NoDup x.1 ∧
  (x.1 = [] ∨ ∃ r, stored id x.2 = Some r ∧ Forall (λ k, JStr k ∈ claims_of r) x.1).

Lemma run_event_ok p0 x e : event_ok e → applied_ok p0 x → applied_ok p0 (run_event x e).
Proof.
  intros [Hpl Ho] (Hok & He & Hn & Hc). unfold run_event.
  destruct (run_sync _ _ _ _ _ _) as [r s] eqn:E. pose proof (run_sync_evolves _ _ _ _ Ho _ Hpl _ _ _ E) as Hr. unfold Rs in Hr. cbn in Hr.
  destruct (Hr Hok) as [Hok' Hf].
  assert (x.1 = [] ∨ ∃ r, stored id (db s) = Some r ∧ Forall (λ k, JStr k ∈ claims_of r) x.1) as Hc'.
  { destruct Hc as [Hc|(r0 & Hr0 & Hall)]; [by left|right]. destruct (Hf r0 Hr0) as (r1 & Hr1 & Ha). exists r1. split; [done|].
    eapply Forall_impl; [exact Hall|]. intros k Hk. destruct (adv_claims _ _ Ha) as [l ->]. by apply elem_of_app; left. }
  assert (evolves id p0 (db s)) as He' by (by etrans).
  destruct (ev_op e) as [| | | | | | |usable f| |] eqn:Eo; try (split_and!; done). destruct r as [u|]; [|split_and!; done].
  cbn [run_sync] in E. apply M_bind_ok in E as (a & s1 & E & Hret). apply mret_ok in Hret as [_ ->].
  apply receive_claims in E as [Hnew (r1 & Hr1 & Hin)]; [|done|done|done]. cbn [db] in *. split_and!; [done|done| |].
  - cbn [fst]. apply NoDup_app. split_and!; [done| |apply NoDup_singleton]. intros k Hk. rewrite list_elem_of_singleton. intros ->.
    destruct Hc as [Hc|(r0 & Hr0 & Hall)]; [rewrite Hc in Hk; set_solver|]. rewrite Forall_forall in Hall. by apply (Hnew r0 Hr0), Hall.
  - right. exists r1. split; [done|]. cbn [fst]. apply Forall_app. split; [|by constructor].
    destruct Hc' as [Hc'|(r2 & Hr2 & Hall)]; [rewrite Hc'; constructor|]. by assert (r1 = r2) as -> by congruence.
Qed.

(** C31: the stored sync record of a scope only advances, and a package is applied at most once: through every history of
    operations of any number of controllers - authorisations, recoveries, receipts, completions, failures - whatever the
    state of each controller, the trust boundary and the clock, and whatever other writers that respect the record do in
    between, no replay claim and no imported record is lost, the checkpoint stays or moves to a later epoch, and no two
    successful receipts carry the same sender, receiver, stream and sequence. *)
Theorem sync_packages_applied_once es p :
  store_ok id p → Forall event_ok es →
  let '(applied, p') := run_events es p in
  evolves id p p' ∧ NoDup applied.
Proof.
  intros Hp Hes. assert (applied_ok p (run_events es p)) as Hx.
  { unfold run_events. assert (applied_ok p ([], p)) as Hstart by (split_and!; [done|done|constructor|by left]). revert Hstart.
    generalize (@nil string, p). induction Hes as [|e es He Hes IH]; intros x Hx; [done|]. cbn. by apply IH, run_event_ok. }
  destruct (run_events es p) as [l q]. destruct Hx as (_ & He & Hn & _). done.
Qed.
End histories.

(** ** What an import does to contacts *)
Lemma get_delete_key fs k k' : k' ≠ k → get (delete_key fs k) k' = get fs k'.
Proof.
  intros Hne. unfold delete_key. induction fs as [|[k0 v0] fs IH]; [done|]. cbn [List.filter fst].
  destruct (String.eqb_spec k0 k) as [->|]; cbn [negb get].
  - destruct (String.eqb_spec k' k); [done|exact IH].
  - cbn. by rewrite IH.
Qed.

Lemma kept_delete_key fs k : kept fs → kept (delete_key fs k).
Proof.
  intros [Hn Hf]. split.
  - eapply sublist_NoDup; [exact Hn|]. by apply (fmap_sublist _), filter_sublist.
  - eapply Forall_sublist; [apply filter_sublist|done].
Qed.

Section contacts.
Context (sha256_hex : string → string) `{SecureStorageLaws St} `{SyncTrustBoundary T}.
Notation contact_type := ContactRegistry.RECORD_TYPE.

(** An update of a contact record that only lowers trust, and keeps the identity and any pending change. *)
Definition contact_sound (q : St) (u : SecureRecordUpdate) : Prop :=
  recordType u = contact_type → expected u = read q contact_type (recordId u) ∧
  ∃ fs, next u = encodeStored fs ∧ kept fs ∧
    match contact_record q (recordId u) with
    | None => verification_is "verified" fs = false
    | Some cur => get cur "changeStatus" = JStr "unchanged" ∧ get fs "identityId" = get cur "identityId" ∧
        (verification_is "verified" fs = true → verification_is "verified" cur = true)
    end.

Lemma requiredString_ok v : requiredString v = true → ∃ s, v = JStr s.
Proof. destruct v; cbn; try done. by exists s. Qed.

(** The record an import writes for a contact. *)
Definition imported_contact (base : fields) (c i a k : string) (verified : bool) : fields :=
  let next_ := spread base [("contactId", JStr c); ("identityId", JStr i); ("algorithm", JStr a); ("publicKey", JStr k);
    ("verification", JStr (if verified then "verified" else "unverified")); ("changeStatus", JStr "unchanged")] in
  if verified then next_ else delete_key next_ "verifiedAt".
Lemma imported_contact_spec base c i a k verified :
  kept base → let fs := imported_contact base c i a k verified in
  kept fs ∧ get fs "identityId" = JStr i ∧ (verification_is "verified" fs = true → verified = true).
Proof.
  intros Hb. cbv zeta. unfold imported_contact. cbv zeta.
  match goal with |- context [spread base ?l] => assert (kept (spread base l)) as Hk by (apply kept_spread; [done|]; repeat constructor; by right);
    assert (get (spread base l) "identityId" = JStr i) as Hi by (unfold spread; cbn [foldl fst snd]; by rewrite !get_set_key);
    assert (get (spread base l) "verification" = JStr (if verified then "verified" else "unverified")) as Hv
      by (unfold spread; cbn [foldl fst snd]; by rewrite !get_set_key) end.
  unfold verification_is. destruct verified; [done|]. split_and!; [by apply kept_delete_key|by rewrite get_delete_key|].
  rewrite get_delete_key by done. rewrite Hv. done.
Qed.

Lemma contact_update_sound (q : St) payload u :
  well_kept q → Forall (λ k, requiredString (oprop payload k) = true) ["contactId"; "identityId"; "algorithm"; "publicKey"] →
  u ∈ contact_update q payload → contact_sound q u.
Proof.
  intros Hq Hreq. rewrite !Forall_cons in Hreq. destruct Hreq as (Hc & Hi & Ha & Hk & _).
  apply requiredString_ok in Hc as (c & Hc), Hi as (i & Hi), Ha as (a & Ha), Hk as (k & Hk).
  unfold contact_update. rewrite Hc, Hi, Ha, Hk. cbn [text_of]. unfold contact_sound, contact_record.
  destruct (read q contact_type c) as [text|] eqn:Er.
  - destruct (Hq c text Er) as (cur & -> & Hpl). assert (parse (encodeStored cur) = Some (JObj cur)) as Hparse by (by apply parse_stringify).
    destruct (encodeStored cur) as [|ch rest] eqn:Et; [done|]. rewrite Hparse. cbn [truthy oprop andb].
    destruct (negb (strict_eq (get cur "identityId") (JStr i)) || _) eqn:Eg; [set_solver|].
    rewrite orb_false_iff, !negb_false_iff, bool_decide_eq_true in Eg. destruct Eg as [Hid Hch].
    assert (get cur "identityId" = JStr i) as Hid' by (unfold strict_eq in Hid; destruct (get cur "identityId"); try done; by apply bool_decide_eq_true in Hid).
    intros ->%list_elem_of_singleton _. cbn [swap expected next recordId]. rewrite Er. split; [done|].
    destruct (imported_contact_spec cur c i a k (bool_decide (get cur "verification" = JStr "verified") && bool_decide (oprop payload "verification" = JStr "verified")))
      as (K1 & K2 & K3); [by apply plain_kept|].
    match type of K1 with kept ?f => exists f end. split; [reflexivity|]. split; [exact K1|]. cbn [mbind option_bind]. rewrite Hparse. cbn [as_object mbind option_bind].
    split_and!; [done|by rewrite K2|]. intros Hv%K3. by apply andb_true_iff in Hv as [Hv _].
  - cbn [truthy oprop andb]. rewrite (bool_decide_eq_false_2 (JUndef = _)) by done. cbn [andb].
    intros ->%list_elem_of_singleton _. cbn [swap expected next recordId]. rewrite Er. split; [done|].
    destruct (imported_contact_spec [] c i a k false) as (K1 & K2 & K3); [split; constructor|].
    match type of K1 with kept ?f => exists f end. split; [reflexivity|]. split; [exact K1|]. cbn [mbind option_bind]. apply not_true_is_false. by intros Hv%K3.
Qed.

Lemma payload_contact payload scope : validatePayload "contact" payload scope = Ok tt →
  Forall (λ k, requiredString (oprop payload k) = true) ["contactId"; "identityId"; "algorithm"; "publicKey"].
Proof.
  unfold validatePayload. intros Hr. res_inv Hr. destruct payload as [| | | | | |fs]; try done. injection Hr0 as <-.
  rewrite String.eqb_refl in Hr3. cbn [andb] in Hr3.
  rewrite !orb_false_iff, !negb_false_iff in Hr3. repeat constructor; tauto.
Qed.
Lemma validate_each_payloads scope cp seen records : validate_each scope cp seen records = Ok tt →
  Forall (λ r, ∃ s, validatePayload (text_of (oprop r "kind")) (oprop r "payload") s = Ok tt) records.
Proof.
  revert seen. induction records as [|r records IH]; cbn; intros seen Hr; [constructor|]. res_inv Hr.
  constructor; [|by eapply IH]. unfold validateSyncRecord in Hr2. res_inv Hr2. destruct x1. by eexists.
Qed.

Lemma all_updates_sound (q : St) scope records us :
  well_kept q → Forall (λ r, ∃ s, validatePayload (text_of (oprop r "kind")) (oprop r "payload") s = Ok tt) records →
  all_updates sha256_hex q scope records = Ok us → Forall (contact_sound q) us.
Proof.
  intros Hq Hv. revert us. induction Hv as [|r records [s Hr] _ IH]; cbn; intros us Hu; res_inv Hu; subst us; [constructor|].
  apply Forall_app. split; [|by apply IH]. clear IH Hu1. unfold applicationUpdates in Hu0.
  assert (∀ t i v, t ≠ contact_type → contact_sound q (swap t i (read q t i) v)) as Hother by (intros t i v Ht Ht'; by destruct Ht).
  destruct (String.eqb_spec (text_of (oprop r "kind")) "conversation"); [injection Hu0 as <-; constructor; [by apply Hother|constructor]|].
  destruct (String.eqb_spec (text_of (oprop r "kind")) "contact") as [Hk|].
  { injection Hu0 as <-. rewrite Hk in Hr. apply payload_contact in Hr. apply Forall_forall. intros u. by apply contact_update_sound. }
  destruct (String.eqb_spec (text_of (oprop r "kind")) "settings"); [injection Hu0 as <-; constructor; [by apply Hother|constructor]|].
  res_inv Hu0. subst x. repeat constructor; by apply Hother.
Qed.

Lemma claim_updates scope c k t x t' : tx_claim scope c k t = (Ok x, t') → tx_updates t' = tx_updates t.
Proof.
  intros Hr. unfold tx_claim in Hr. m_step Hr. clear Hm. m_step Hr. clear Hm. rewrite gets_bind in Hr. m_step Hr. clear Hm.
  destruct (bool_decide _); by injection Hr as _ <-.
Qed.
Lemma writeState_updates scope c v t x t' : tx_writeState scope c v t = (Ok x, t') → tx_updates t' = tx_updates t.
Proof.
  intros Hr. unfold tx_writeState, putCheckpoint in Hr. do 3 (m_step Hr). m_step Hr. m_step Hm2. injection Hm2. intros <- _. m_step Hr.
  injection Hr. by intros <- _.
Qed.
Lemma import_updates scope c cp records (q : St) t x t' :
  tx_importRecords sha256_hex scope q c cp records t = (Ok x, t') → well_kept q →
  Forall (contact_sound q) (tx_updates t) → Forall (contact_sound q) (tx_updates t').
Proof.
  intros Hr Hq Ht. unfold tx_importRecords in Hr. do 3 (m_step Hr). rewrite gets_bind in Hr. do 2 (m_step Hr). do 4 (m_step Hr).
  m_step Hr. clear Hm8. apply observe_ok in Hr as [_ ->]. cbn [tx_updates with_record]. apply Forall_app. split; [done|].
  destruct x2. unfold validateSyncRecords in Hm1. res_inv Hm1. apply validate_each_payloads in Hm1.
  by eapply all_updates_sound.
Qed.

(** A step that keeps every contact's trust: none becomes verified, or verified for another identity; the identity of a
    known contact stays; a pending change stays untouched. *)
Definition contact_kept (p p' : St) : Prop := ∀ c,
  (∀ r', contact_record p' c = Some r' → verification_is "verified" r' = true →
     ∃ r, contact_record p c = Some r ∧ verification_is "verified" r = true ∧ get r "identityId" = get r' "identityId") ∧
  (∀ r, contact_record p c = Some r →
     (get r "changeStatus" ≠ JStr "unchanged" → contact_record p' c = Some r) ∧
     ∃ r', contact_record p' c = Some r' ∧ get r' "identityId" = get r "identityId").

Lemma commit_contacts id raw t (q p p' : St) :
  tx_good t → Forall (contact_sound q) (tx_updates t) → compareAndSwapRecords (commit_updates id raw t) p = (true, p') → contact_kept p p'.
Proof.
  intros Hg Hs Hc c. assert (∀ u, u ∈ commit_updates id raw t → recordType u = contact_type → u ∈ tx_updates t) as Hin.
  { intros u [->|Hu]%elem_of_cons Ht; done. }
  destruct (decide ((contact_type, c) ∈ update_key <$> commit_updates id raw t)) as [Hk|Hk].
  - apply list_elem_of_fmap in Hk as (u & [= Hty ->] & Hu). destruct (commit_reads id raw t p p' u Hg Hc Hu) as [Hr Hw].
    rewrite Forall_forall in Hs. destruct (Hs u (Hin u Hu (eq_sym Hty)) (eq_sym Hty)) as (He & fs & Hn & Hfk & Hm).
    rewrite <-Hty in Hr, Hw. rewrite Hn in Hw. apply contact_record_encoded in Hw; [|done].
    assert (contact_record p (recordId u) = contact_record q (recordId u)) as Hpq by (unfold contact_record; by rewrite Hr, He).
    rewrite Hw, Hpq. unfold verification_is in *. split.
    + intros r' [= <-] Hv. rewrite get_drop_undef in Hv by apply Hfk. destruct (contact_record q (recordId u)) as [cur|]; [|congruence].
      destruct Hm as (_ & Hi & Hv'). exists cur. rewrite get_drop_undef by apply Hfk. auto.
    + intros r Hr0. rewrite Hr0 in Hm. destruct Hm as (Hch & Hi & _). split; [done|]. eexists. split; [reflexivity|].
      by rewrite get_drop_undef by apply Hfk.
  - assert (contact_record p' c = contact_record p c) as ->.
    { unfold contact_record. pose proof (cas_other p (commit_updates id raw t) contact_type c Hk) as Ho. rewrite Hc in Ho. cbn [snd] in Ho. by rewrite Ho. }
    split; [intros r' Hr' Hv; by exists r'|]. intros r Hr. split; [done|]. by exists r.
Qed.
Context (scope id : string) (Hid : canonicalIdentityRecordId sha256_hex scope = Ok id).
Context (localDeviceId : string) (others : nat → St → St) (trust : nat → T) (clock : nat → Z).
Context (Hothers : ∀ n q, evolves id q (others n q)).

(** A receipt touches the storage only in the transaction that applies the package. *)
Lemma receive_transaction usable f (s : sync_state St) x s' :
  receiveAuthenticated sha256_hex scope localDeviceId others trust clock usable f s = (x, s') →
  db s' = db s ∨ ∃ c incoming r, extractRecords (get (syncPackage f) "payload") = Ok incoming ∧
    transaction sha256_hex others scope (checkpoint_json (checkpoint_of (syncPackage f)))
      (λ q, tx_claim scope scope (package_key (syncPackage f)) ≫= receive_tail sha256_hex scope c q (syncPackage f) incoming) (db s) = (r, db s').
Proof.
  unfold receiveAuthenticated. intros [(u & s1 & Hf & Hr)|(e & Hf & _)]%bind_cases; apply db_frames in Hf; [|by left].
  unfold same_db in Hf. rewrite <-Hf. clear Hf. revert Hr. rewrite lift_bind. destruct (throw_if _ _); [|by intros [= _ <-]; left].
  unfold receiveInternal. rewrite observe_bind. destruct (throw_if _ _); [|by intros [= _ <-]; left].
  intros [(ack & s2 & Hf & Hr)|(e & Hf & _)]%bind_cases; apply db_transfer in Hf; [|by left]. unfold same_db in Hf. rewrite <-Hf. clear Hf. revert Hr.
  intros [(v & s3 & Hf & Hr)|(e & Hf & _)]%bind_cases; apply db_group_freshness in Hf; [|by left]. unfold same_db in Hf. rewrite <-Hf. clear Hf. revert Hr.
  rewrite lift_bind. destruct (extractRecords _) as [incoming|] eqn:Ex; [|intros [= _ <-]; by left].
  unfold atomic, on_db. intros Hr. right.
  exists (with_sequences ({[int_of (get (syncPackage f) "sequence")]} ∪ receivedSequences (rc s3)) (rc_checkpoint (rc s3)) (rc s3)), incoming.
  apply bind_cases in Hr as [(w & s4 & Ha & Hr)|(e & Ha & _)].
  - destruct (transaction _ _ _ _ _ _) as [r p] eqn:E. exists r. split; [done|]. destruct r as [r|e]; [|done].
    injection Ha as _ <-. by injection Hr as _ <-.
  - destruct (transaction _ _ _ _ _ _) as [r p] eqn:E. exists r. split; [done|]. destruct r as [r|e']; [done|].
    by injection Ha as _ <-.
Qed.

End contacts.

(** ** The flow in which the store locks itself *)
Section unreadable.
Context (sha256_hex : string → string) `{SecureStorageLaws St}.
Context (scope id : string) (Hid : canonicalIdentityRecordId sha256_hex scope = Ok id).

Lemma writeState_record candidate fs t x t' : kept fs → tx_writeState scope candidate (JObj fs) t = (Ok x, t') →
  tx_record t' = set_key (set_key (tx_record t) "checkpoint" (get fs "checkpoint")) "state" (JObj (drop_undef fs)).
Proof.
  intros Hk Hr. unfold tx_writeState, putCheckpoint in Hr. do 3 (m_step Hr). m_step Hr. m_step Hm2. injection Hm2. intros <- _. m_step Hr.
  apply require_ok in Hm4. rewrite stringify_drop_undef, parse_stringify in Hm4 by (by apply kept_plain). injection Hm4 as <-.
  injection Hr. by intros <- _.
Qed.

(** A readable record with imported records: they all carry the epoch of its checkpoint. *)
Lemma loaded_epoch (p : St) raw r v rest :
  load sha256_hex scope p = Ok (id, raw, r) → records_of r = v :: rest → truthy (get r "checkpoint") = true →
  checkpointValid (get r "checkpoint") = true ∧ oprop v "epoch" = oprop (get r "checkpoint") "epoch".
Proof.
  unfold load. rewrite Hid. cbn [mbind res_bind]. intros Hl Hrec Htr. destruct (read p SYNC_TYPE id) as [text|].
  2: { injection Hl as <- <-. discriminate Hrec. }
  res_inv Hl. injection Hl as <- <-. unfold check_record in Hl2. res_inv Hl2.
  assert (is_undef (get x0 "records") = false) as Hu.
  { unfold records_of, elements_of in Hrec. by destruct (get x0 "records"). }
  split. { rewrite Htr in Hl3. rewrite !orb_false_iff, !andb_false_iff, !negb_false_iff in Hl3. by destruct Hl3 as [[_ [?|?]] _]. }
  rewrite Hu, Htr in Hl2. cbn [negb andb] in Hl2. unfold validateSyncRecords in Hl2. res_inv Hl2. rewrite Hrec in Hl2. cbn [validate_each] in Hl2.
  res_inv Hl2. unfold validateSyncRecord in Hl8. res_inv Hl8. rewrite !orb_false_iff, !negb_false_iff in Hl9. destruct Hl9 as [[[_ He] _] _].
  unfold strict_eq in He. destruct (oprop v "epoch"); first [done|by apply bool_decide_eq_true in He].
Qed.

(** a defect of the store: once records were imported, committing the state of a checkpoint of another epoch - what
    authorising a transfer after any change of the device list does - leaves a record that can no longer be loaded,
    because the imported records still carry the old epoch; from then on every read and every transaction of the scope
    fails. *)
Theorem later_epoch_locks_the_store others expected_ cp terminal c (p : St) p' raw r :
  (∀ n q, evolves id q (others n q)) → store_ok id p →
  load sha256_hex scope p = Ok (id, raw, r) → records_of r ≠ [] → truthy (get r "checkpoint") = true →
  cp_epoch cp ≠ int_of (oprop (get r "checkpoint") "epoch") →
  transaction sha256_hex others scope expected_ (λ _, tx_writeState scope scope (durable_state scope (checkpoint_json cp) terminal c)) p = (Ok tt, p') →
  is_ok (load sha256_hex scope p') = false ∧
  ∀ A others' expected' (op : St → M tx A), is_ok (transaction sha256_hex others' scope expected' op p').1 = false.
Proof.
  intros Ho Hp Hl Hrec Htr Hne Hr.
  destruct (durable_kept scope (checkpoint_json cp) terminal c) as (fs & Hfs & Hk); [by right|].
  assert (get fs "checkpoint" = checkpoint_json cp) as Hcp by (unfold durable_state in Hfs; injection Hfs as <-; reflexivity).
  apply (transaction_commits _ _ _ Hid) in Hr as (r0 & t & Hst & Hrun & _ & _ & _ & _ & Hs & _); [|done| |done].
  2: { intros q. rewrite Hfs. by apply writeState_step. }
  rewrite Hfs in Hrun. apply writeState_record in Hrun; [|done]. cbn [tx_record] in Hrun.
  assert (r0 = r) as ->.
  { destruct (load_ok _ _ _ Hid _ _ _ _ Hl) as (_ & _ & _ & [Hs'|(_ & -> & _)]); [|by destruct Hrec].
    destruct Hst as [Hst|[_ Hst]]; congruence. }
  assert (is_ok (load sha256_hex scope p') = false) as Hbad; [|split; [done|]].
  - destruct (load sha256_hex scope p') as [[[i raw'] r']|] eqn:El; [|done]. exfalso.
    destruct (load_ok _ _ _ Hid _ _ _ _ El) as (-> & _ & _ & [Hs'|(_ & _ & Hs')]); [|congruence].
    assert (r' = with_revision (tx_record t)) as -> by congruence. destruct (records_of r) as [|v rest] eqn:Ev; [done|].
    assert (get (with_revision (tx_record t)) "checkpoint" = checkpoint_json cp) as Hc'
      by (unfold with_revision; rewrite Hrun, !get_set_key; exact Hcp).
    assert (records_of (with_revision (tx_record t)) = v :: rest) as Ev'
      by (unfold records_of, with_revision in *; rewrite Hrun, !get_set_key; exact Ev).
    destruct (loaded_epoch _ _ _ v rest Hl Ev Htr) as [_ He]. destruct (loaded_epoch _ _ _ v rest El Ev') as [Hv He']; [by rewrite Hc'|].
    rewrite Hc' in He', Hv. apply Hne. rewrite <-He, He'. unfold checkpointValid in Hv. rewrite !andb_true_iff in Hv.
    destruct Hv as [[_ Hv] _]. apply int_from_ok in Hv as (z & Hz & Hsafe & _). cbn in Hz. injection Hz as <-. unfold int_of. cbn. by rewrite Hsafe.
  - intros A others' expected' op. unfold transaction. by destruct (load sha256_hex scope p') as [x|].
Qed.
End unreadable.

(** ** Witnesses *)
#[local] Existing Instance demo_boundary.
Definition no_others (_ : nat) (q : memory) : memory := q.
Definition demo_record (kind : string) (payload : jsval) : jsval :=
  JObj [("version", JNum (NInt 1)); ("scope", JStr "account"); ("recordId", JStr "record-0000000001"); ("kind", JStr kind);
    ("epoch", JNum (NInt (epoch demo_list))); ("commitment", JStr zeros64); ("payload", payload)].
Definition demo_settings : jsval := demo_record "settings" (JObj [("theme", JStr "paper-ink")]).
Definition demo_contact : jsval := demo_record "contact" (JObj [("contactId", JStr "carol"); ("identityId", JStr "K3 carol");
  ("algorithm", JStr "ed25519"); ("publicKey", JStr "a2V5"); ("verification", JStr "verified"); ("changeStatus", JStr "unchanged")]).
Definition demo_frame (record : jsval) : AuthenticatedSyncFrame := {|
  frame_object := 0; fr_binding := "session"; senderIdentityReference := "K3 a"; receiverIdentityReference := "K3 b"; senderDeviceId := "a";
  syncPackage := demo_package "sync-chunk" 2 (JObj [("records", JArr [record])]) |}.
(** A controller in the middle of the demonstration transfer. *)
Definition demo_controller : controller :=
  with_transfer (Some (demo_authorization, {| tr_device := ds_syncing; tr_state := ts_transferring; tr_received := ∅; tr_chunks := [];
    tr_manifest := None |})) (with_admission adm_transfer (admitted_by "account" "b" demo_authorization new_controller)).
Definition demo_frames : issued_frames := {| issued := {[0%N := 7%N]}; next_object := 1 |}.
Definition demo_event (record : jsval) : sync_event (St := memory) (T := LifecycleStateSnapshot) := {|
  ev_device := "b"; ev_controller := demo_controller; ev_frames := demo_frames; ev_op := OReceive (λ _, true) (demo_frame record);
  ev_others := no_others; ev_trust := λ _, demo_trust; ev_clock := λ _, 5 |}.

Lemma no_others_evolve n q : evolves "account" q (no_others n q).
Proof. reflexivity. Qed.
(** What the authorisation of the transfer stored. *)
Definition demo_sync : RecordState := [("version", JNum (NInt 1)); ("scope", JStr "account"); ("revision", JNum (NInt 1)); ("claims", JArr []);
  ("checkpoint", checkpoint_json demo_checkpoint)].
Definition with_sync (p : gmap (string * string) string) : gmap (string * string) string := <[(SYNC_TYPE, "account") := stringify (JObj demo_sync)]> p.
Lemma with_sync_ok p : store_ok "account" (with_sync p : memory).
Proof.
  unfold store_ok. intros raw Hr. assert (with_sync p !! (SYNC_TYPE, "account") = Some raw) as Hr' by exact Hr. clear Hr. rename Hr' into Hr.
  unfold with_sync in Hr. rewrite lookup_insert_eq in Hr. apply (inj Some) in Hr as <-. exists demo_sync.
  split; [by apply parse_stringify|reflexivity].
Qed.

(** The package is applied once, and refused when it is presented to another controller of the device. *)
Lemma demo_applied : (run_events demo_hash "account" [demo_event demo_settings; demo_event demo_settings] (with_sync ∅)).1 = ["a:b:stream-0000000001:2"].
Proof. vm_compute. reflexivity. Qed.

Lemma sync_packages_applied_once_witness :
  evolves "account" (with_sync ∅) (run_events demo_hash "account" [demo_event demo_settings; demo_event demo_settings] (with_sync ∅)).2 ∧
  NoDup ["a:b:stream-0000000001:2"].
Proof.
  rewrite <-demo_applied.
  pose proof (sync_packages_applied_once demo_hash "account" "account" eq_refl [demo_event demo_settings; demo_event demo_settings] (with_sync ∅) (with_sync_ok ∅)) as Ht.
  destruct (run_events demo_hash "account" [demo_event demo_settings; demo_event demo_settings] (with_sync ∅)) as [l p].
  apply Ht. assert (event_ok "account" (demo_event demo_settings)) as He by (split; [reflexivity|apply no_others_evolve]).
  apply Forall_cons_2; [exact He|]. apply Forall_cons_2; [exact He|]. apply Forall_nil_2.
Defined.

(** The other device says that Carol is verified; she is unverified, with a pending change, here. *)
Definition demo_carol : fields := [("contactId", JStr "carol"); ("identityId", JStr "K3 carol"); ("algorithm", JStr "ed25519");
  ("publicKey", JStr "a2V5"); ("verification", JStr "unverified"); ("changeStatus", JStr "changed-pending-review")].
Definition demo_contacts : gmap (string * string) string := with_sync {[(ContactRegistry.RECORD_TYPE, "carol") := encodeStored demo_carol]}.
Definition demo_state : sync_state memory := {| rc := demo_controller; db := demo_contacts; frames := demo_frames |}.
Definition demo_receipt := receiveAuthenticated demo_hash "account" "b" no_others (λ _, demo_trust) (λ _, 5) (λ _, true) (demo_frame demo_contact) demo_state.

Lemma demo_contacts_kept : well_kept (demo_contacts : memory).
Proof.
  intros c text. intros Hr. assert (demo_contacts !! (ContactRegistry.RECORD_TYPE, c) = Some text) as Hr' by exact Hr. clear Hr.
  unfold demo_contacts, with_sync in Hr'. rewrite lookup_insert_ne in Hr' by done. apply lookup_singleton_Some in Hr' as [_ <-]. exists demo_carol. split; [done|reflexivity].
Qed.
Lemma demo_received : is_ok demo_receipt.1 = true.
Proof. vm_compute. reflexivity. Qed.


(** Settings are imported at epoch 3; then a transfer is authorised at epoch 4. *)
Definition demo_imported : memory := (run_events demo_hash "account" [demo_event demo_settings] (with_sync ∅)).2.
Definition demo_loaded : string * option string * RecordState :=
  match load demo_hash "account" demo_imported with Ok x => x | Err _ => ("", None, []) end.
Definition demo_later : SyncCheckpoint := {| cp_epoch := 4; cp_commitment := zeros64 |}.
Definition demo_advance := transaction demo_hash no_others "account" (checkpoint_json demo_checkpoint)
  (λ _, tx_writeState "account" "account" (durable_state "account" (checkpoint_json demo_later) None new_controller)) demo_imported.

Lemma demo_imported_ok : store_ok "account" demo_imported.
Proof.
  assert (op_plain (ev_op (demo_event demo_settings))) as Hpl by reflexivity.
  destruct (run_event_ok demo_hash "account" "account" eq_refl (with_sync ∅) ([], with_sync ∅) (demo_event demo_settings)) as (Hok & _); [|split_and!|exact Hok].
  - split; [exact Hpl|apply no_others_evolve].
  - apply with_sync_ok.
  - reflexivity.
  - constructor.
  - by left.
Qed.
Lemma demo_load : load demo_hash "account" demo_imported = Ok ("account", demo_loaded.1.2, demo_loaded.2).
Proof. vm_compute. reflexivity. Qed.
Lemma demo_has_records : length (records_of demo_loaded.2) = 1%nat ∧ truthy (get demo_loaded.2 "checkpoint") = true ∧
  int_of (oprop (get demo_loaded.2 "checkpoint") "epoch") = 3.
Proof. vm_compute. done. Qed.
Lemma demo_advanced : demo_advance.1 = Ok tt.
Proof. vm_compute. reflexivity. Qed.

Lemma later_epoch_locks_the_store_witness : is_ok (load demo_hash "account" demo_advance.2) = false.
Proof.
  destruct demo_has_records as (Hl & Ht & He).
  refine (proj1 (later_epoch_locks_the_store demo_hash "account" "account" eq_refl no_others (checkpoint_json demo_checkpoint) demo_later None
    new_controller demo_imported demo_advance.2 demo_loaded.1.2 demo_loaded.2 no_others_evolve demo_imported_ok demo_load _ Ht _ _)).
  - intros Hn. rewrite Hn in Hl. discriminate Hl.
  - rewrite He. discriminate.
  - rewrite <-demo_advanced. apply surjective_pairing.
Defined.
