(* ===== verification/Recovery.v ===== *)
(** * Recovery of an account ([service/src/recovery/])

    An archive the user exported proves, with its secret, that the account is theirs; recovery then replaces the identity of the
    account: every device of the old one is revoked, a new scope begins with one device, and the trust in contacts is reset, in one
    swap of the vault. [RecoveryRuntime] composes the archive, the ceremony (a state machine in memory) and the workflow of the
    replacement over [SecureStorageRecoveryAdapter], which keeps what must survive a reload in one record of the storage. The device
    lists and their records are those of [DeviceList] and [LifecycleStore]; reading a lifecycle state is one access. PBKDF2, AES-GCM and
    SHA-256 are parameters. Filling secrets with zeros is left out. *)
From S2P Require Import Prelude Json Storage DeviceList Lifecycle LifecycleStore Vault SyncStore.

(** ** Data *)
(* service/src/recovery/contracts.ts:3-12 RecoveryArchiveManifest *)
Record RecoveryArchiveManifest := {
  rm_version : Z; archiveId : string; sourceScope : string; sourceEpoch : Z; sourceCommitment : string; rm_createdAt : Z;
  rm_expiresAt : option Z; included : list string }.
(* service/src/recovery/contracts.ts:14-19 RecoveryArchive *)
Record RecoveryArchive := { manifest : RecoveryArchiveManifest; ra_ciphertext : list ascii; integrity : string }.
(* service/src/recovery/contracts.ts:30-34 RecoveryReplacementContext *)
Record RecoveryReplacementContext := { oldFingerprint : string; newFingerprint : string; replacementId : string }.
Definition context_json (c : RecoveryReplacementContext) : jsval :=
  JObj [("oldFingerprint", JStr (oldFingerprint c)); ("newFingerprint", JStr (newFingerprint c)); ("replacementId", JStr (replacementId c))].
(* service/src/recovery/contracts.ts:1-1 RecoveryCeremonyState *)
Inductive RecoveryCeremonyState := idle | staged | replacement_pending | rejected | completed.
#[export] Instance ceremony_state_eq_dec : EqDecision RecoveryCeremonyState.
Proof. solve_decision. Defined.
(** [context] is kept by the two fields that are read, the replacement's identifier and the new fingerprint. *)
(* service/src/recovery/production.ts:19-27 PreparedReplacement *)
Record PreparedReplacement := {
  p_replacementId : string; p_newFingerprint : string; newScope : string; newDeviceId : string; bindingRaw : string;
  oldState : LifecycleStateSnapshot; trustReset : bool }.
(* service/src/recovery/runtime.ts:17-20 RecoveryRuntime, fields *)
Record Recovery := {
  stateValue : RecoveryCeremonyState; replacement : option RecoveryReplacementContext;
  stagedContext : option RecoveryReplacementContext; prepared : option PreparedReplacement }.
Definition new_runtime : Recovery := {| stateValue := idle; replacement := None; stagedContext := None; prepared := None |}.
Definition with_ceremony (s : RecoveryCeremonyState) (c : option RecoveryReplacementContext) (m : Recovery) : Recovery :=
  {| stateValue := s; replacement := c; stagedContext := stagedContext m; prepared := prepared m |}.
Definition with_staged (c : RecoveryReplacementContext) (m : Recovery) : Recovery :=
  {| stateValue := stateValue m; replacement := replacement m; stagedContext := Some c; prepared := prepared m |}.
Definition with_prepared (p : option PreparedReplacement) (m : Recovery) : Recovery :=
  {| stateValue := stateValue m; replacement := replacement m; stagedContext := stagedContext m; prepared := p |}.

(** ** Archives *)
Definition recovery_id (s : string) : bool := base64url_between 8 128 s.
Definition archive_rejected : string := "Recovery archive rejected.".
(* service/src/recovery/archive.ts:7-10 validateRecoveryArchive *)
Definition validateRecoveryArchive (archive : RecoveryArchive) (now : Z) : res unit :=
  let m := manifest archive in
  throw_if (negb (rm_version m =? 1) || negb (recovery_id (archiveId m)) || negb (recovery_id (sourceScope m)) ||
    negb (isSafeInteger (sourceEpoch m)) || (sourceEpoch m <? 0) || negb (hex64 (sourceCommitment m)) ||
    negb (isSafeInteger (rm_createdAt m)) || (now <? rm_createdAt m) ||
    from_option (λ e, negb (isSafeInteger e) || (e <=? now)) false (rm_expiresAt m) ||
    bool_decide (included m = []) || negb (bool_decide (NoDup (included m))) ||
    existsb (λ entry, negb (includes ["contacts"; "history"; "preferences"] entry)) (included m) ||
    (length (ra_ciphertext archive) <? 16)%nat || (64 * 1024 * 1024 <? Z.of_nat (length (ra_ciphertext archive))) ||
    negb (recovery_id (integrity archive))) archive_rejected.
(** the text that is encoded in UTF-8 *)
(* service/src/recovery/archive.ts:12-12 canonical *)
Definition canonical (m : RecoveryArchiveManifest) : string :=
  stringify (obj [("version", Some (JNum (NInt 1))); ("archiveId", Some (JStr (archiveId m))); ("sourceScope", Some (JStr (sourceScope m)));
    ("sourceEpoch", Some (JNum (NInt (sourceEpoch m)))); ("sourceCommitment", Some (JStr (sourceCommitment m)));
    ("createdAt", Some (JNum (NInt (rm_createdAt m)))); ("expiresAt", (λ e, JNum (NInt e)) <$> rm_expiresAt m);
    ("included", Some (JArr (JStr <$> js_sort string_cmp (included m))))]).

Section archive.
(** SHA-256 in hexadecimal, of a byte string; the key of a secret and a salt; AES-GCM: key, nonce, additional data, plaintext *)
Context (sha256_hex : string → string) (derive : list ascii → list ascii → list ascii)
  (encrypt : list ascii → list ascii → string → list ascii → list ascii)
  (decrypt : list ascii → list ascii → string → list ascii → option (list ascii)).
Definition digest (m : RecoveryArchiveManifest) (packed : list ascii) : string := sha256_hex (canonical m +:+ string_of_list_ascii packed).
(* service/src/recovery/archive.ts:25-36 WebCryptoRecoveryArchiveCrypto.seal *)
Definition seal (salt nonce : list ascii) (m : RecoveryArchiveManifest) (plaintext secret : list ascii) : res RecoveryArchive :=
  throw_if ((length secret <? 16)%nat || (length plaintext =? 0)%nat) archive_rejected;;
  validateRecoveryArchive {| manifest := m; ra_ciphertext := replicate 16 (chr 0);
                             integrity := string_of_list_ascii (replicate 64 "0"%char) |} (rm_createdAt m);;
  let ciphertext := encrypt (derive secret salt) nonce (canonical m) plaintext in
  let packed := salt ++ nonce ++ ciphertext in
  mret {| manifest := m; ra_ciphertext := packed; integrity := digest m packed |}.
(* service/src/recovery/archive.ts:38-47 WebCryptoRecoveryArchiveCrypto.open *)
Definition open (now : Z) (archive : RecoveryArchive) (secret : list ascii) : res (list ascii) :=
  validateRecoveryArchive archive now;;
  let packed := ra_ciphertext archive in
  throw_if ((length secret <? 16)%nat || (length packed <? 44)%nat) archive_rejected;;
  throw_if (negb (String.eqb (digest (manifest archive) packed) (integrity archive))) "Recovery archive integrity rejected.";;
  require (decrypt (derive secret (take 16 packed)) (take 12 (drop 16 packed)) (canonical (manifest archive)) (drop 28 packed))
    "Recovery archive decryption failed.".
(* service/src/recovery/archive.ts:52-55 RecoveryArchiveBoundary.create *)
Definition boundary_create (salt nonce : list ascii) (now : Z) (m : RecoveryArchiveManifest) (plaintext secret : list ascii) (userAction : bool)
    : res RecoveryArchive :=
  throw_if (negb userAction || (length plaintext =? 0)%nat || (length secret <? 16)%nat) "Recovery export rejected.";;
  archive ← seal salt nonce m plaintext secret;
  validateRecoveryArchive archive now;;
  mret archive.
(* service/src/recovery/archive.ts:56-59 RecoveryArchiveBoundary.open *)
Definition boundary_open (now : Z) (archive : RecoveryArchive) (secret : list ascii) (userAction : bool) : res (list ascii) :=
  throw_if (negb userAction || (length secret <? 16)%nat) "Recovery import rejected.";;
  validateRecoveryArchive archive now;;
  open now archive secret.
(* service/src/recovery/archive.ts:62-66 rotateRecoveryArchive *)
Definition rotateRecoveryArchive (salt nonce : list ascii) (now : Z) (archive : RecoveryArchive) (oldSecret newSecret : list ascii)
    (m : RecoveryArchiveManifest) (userAction : bool) : res RecoveryArchive :=
  throw_if (negb userAction || (length newSecret <? 16)%nat || negb (String.eqb (sourceScope m) (sourceScope (manifest archive))) ||
    (sourceEpoch m <=? sourceEpoch (manifest archive))) "Recovery rotation rejected.";;
  plaintext ← open now archive oldSecret;
  seal salt nonce m plaintext newSecret.
End archive.

(** ** The record of the recovery *)
Definition RECOVERY_TYPE : string := "recovery-runtime".
Definition BINDING_TYPE : string := "device-account-binding".
Definition RESET_TYPE : string := "contact-trust-reset".
(** [{ ...state, pending: undefined }], as it is stored *)
Definition without_pending (fs : list (string * jsval)) : list (string * jsval) := delete_key fs "pending".
Definition string_of (v : jsval) : res string := match v with JStr s => Ok s | _ => Err "TypeError" end.
(** [state.pending?.context.replacementId] *)
Definition pending_id (fs : list (string * jsval)) : res jsval :=
  match get fs "pending" with
  | JUndef | JNull => Ok JUndef
  | p => c ← prop p "context"; prop c "replacementId"
  end.
Definition swap_of (t i : string) (e : option string) (v : jsval) : SecureRecordUpdate :=
  {| recordType := t; recordId := i; expected := e; next := stringify v |}.
(** the checks of a stored state *)
Definition recovery_state (raw : option string) : res (list (string * jsval)) :=
  let corrupted := "Recovery persistence corrupted." in
  state ← match raw with
          | Some text => require (parse text) "SyntaxError"
          | None => Ok (JObj [("version", JNum (NInt 1)); ("claims", JArr []); ("completed", JArr [])])
          end;
  version ← prop state "version";
  throw_if (negb (bool_decide (version = JNum (NInt 1)))) corrupted;;
  fs ← require (as_object state) corrupted;
  throw_if (bool_decide (as_array (get fs "claims") = None) || bool_decide (as_array (get fs "completed") = None)) corrupted;;
  mret fs.

Section recovery.
Context (sha256_hex : string → string) (derive : list ascii → list ascii → list ascii)
  (decrypt : list ascii → list ascii → string → list ascii → option (list ascii)) (clock : nat → Z).
Context `{SecureStorageLaws St} (others : nat → St → St) (fault : nat → Io).
Notation W := (World St Recovery).
Notation read_ := (read_ others fault).
Notation swap_ := (swap_ others fault).
Definition date_now : M W Z := gets (λ w, clock (tick w)).

(* service/src/recovery/production.ts:119-124 SecureStorageRecoveryAdapter.load *)
Definition load : M W (option string * list (string * jsval)) :=
  raw ← read_ RECOVERY_TYPE "local";
  fs ← lift (recovery_state raw);
  mret (raw, fs).
(* service/src/recovery/production.ts:125-127 SecureStorageRecoveryAdapter.commit *)
Definition commit_recovery (e : option string) (fs : list (string * jsval)) : M W bool := swap_ [swap_of RECOVERY_TYPE "local" e (JObj fs)].
(* service/src/recovery/production.ts:114-118 SecureStorageRecoveryAdapter.binding *)
Definition binding : M W jsval :=
  raw ← read_ BINDING_TYPE "local";
  text ← lift (require raw "Recovery authority rejected.");
  lift (require (parse text) "SyntaxError").
Definition read_lifecycle (scope : string) : M W (option LifecycleStateSnapshot) :=
  access others fault (λ d, (read_snapshot sha256_hex scope d, d)).
(* service/src/recovery/production.ts:38-44 SecureStorageRecoveryAdapter.authorize *)
Definition authorize (archive : RecoveryArchive) (c : RecoveryReplacementContext) : M W unit :=
  b ← binding;
  u ← lift (prop b "userScope");
  scope ← lift (string_of u);
  o ← read_lifecycle scope;
  let m := manifest archive in
  let identity := oprop b "identityReference" in
  match o with
  | None => throw "Recovery authority rejected."
  | Some lifecycle =>
      fail_if (negb (String.eqb (sourceScope m) scope) || negb (sourceEpoch m =? epoch (snapshot_list lifecycle)) ||
        negb (String.eqb (sourceCommitment m) (commitment lifecycle)) || negb (bool_decide (JStr (oldFingerprint c) = identity)) ||
        String.eqb (oldFingerprint c) (newFingerprint c)) "Recovery authority rejected."
  end.
(* service/src/recovery/production.ts:45-49 SecureStorageRecoveryAdapter.claim *)
Definition claim (id : string) : M W bool :=
  '(raw, fs) ← load;
  let claims := elements_of (get fs "claims") in
  if bool_decide (JStr id ∈ claims) then mret false else commit_recovery raw (set_key fs "claims" (JArr (claims ++ [JStr id]))).
(* service/src/recovery/production.ts:50-54 SecureStorageRecoveryAdapter.release *)
Definition release (id : string) : M W unit :=
  '(raw, fs) ← load;
  if bool_decide (oprop (get fs "pending") "archiveId" = JStr id) then mret tt else
  commit_recovery raw (set_key fs "claims" (JArr (List.filter (λ v, negb (bool_decide (v = JStr id))) (elements_of (get fs "claims")))));;
  mret tt.
(* service/src/recovery/production.ts:56-60 SecureStorageRecoveryAdapter.stageVerified *)
Definition stageVerified (archive : RecoveryArchive) (c : RecoveryReplacementContext) : M W bool :=
  '(raw, fs) ← load;
  let claims := elements_of (get fs "claims") in
  let id := archiveId (manifest archive) in
  if bool_decide (JStr id ∈ claims) || truthy (get fs "pending") then mret false else
  commit_recovery raw (set_key (set_key fs "claims" (JArr (claims ++ [JStr id]))) "pending"
    (JObj [("archiveId", JStr id); ("integrity", JStr (integrity archive)); ("context", context_json c)])).
(* service/src/recovery/production.ts:61-61 SecureStorageRecoveryAdapter.readPending *)
Definition readPending : M W jsval := x ← load; mret (oprop (get x.2 "pending") "context").
(* service/src/recovery/production.ts:62-67 SecureStorageRecoveryAdapter.reject *)
Definition adapter_reject (id : string) : M W unit :=
  '(raw, fs) ← load;
  p ← lift (pending_id fs);
  fail_if (negb (bool_decide (p = JStr id))) "Recovery rejection unavailable.";;
  commit_recovery raw (without_pending fs);;
  update_mem (with_prepared None).
(* service/src/recovery/production.ts:68-82 SecureStorageRecoveryAdapter.replaceIdentity *)
Definition replaceIdentity (context : jsval) : M W (string * list string) :=
  let rejected_ := "Identity replacement rejected." in
  pending ← readPending;
  raw ← read_ BINDING_TYPE "local";
  fail_if (negb (truthy pending) || negb (String.eqb (stringify pending) (stringify context))) rejected_;;
  text ← lift (require raw rejected_);
  b ← lift (require (parse text) "SyntaxError");
  u ← lift (prop b "userScope");
  scope ← lift (string_of u);
  o ← read_lifecycle scope;
  old ← lift (require o rejected_);
  fail_if (negb (bool_decide (oprop b "identityReference" = oprop context "oldFingerprint"))) rejected_;;
  let invalidated := deviceId <$> List.filter (λ entry, negb (bool_decide (state entry = revoked))) (devices (snapshot_list old)) in
  fail_if (bool_decide (invalidated = [])) rejected_;;
  id ← lift (string_of (oprop context "replacementId"));
  fingerprint ← lift (string_of (oprop context "newFingerprint"));
  record ← lift (canonicalIdentityRecordId sha256_hex fingerprint);
  let scope' := "recovery-" +:+ id in
  update_mem (with_prepared (Some {| p_replacementId := id; p_newFingerprint := fingerprint; newScope := scope';
    newDeviceId := "device-" +:+ substring 9 (String.length record - 9) record; bindingRaw := text; oldState := old; trustReset := false |}));;
  mret (scope', invalidated).
(* service/src/recovery/production.ts:83-86 SecureStorageRecoveryAdapter.resetContactTrust *)
Definition resetContactTrust (scope : string) : M W unit :=
  o ← get_mem prepared;
  match o with
  | Some p =>
      fail_if (negb (String.eqb (newScope p) scope)) "Contact trust reset rejected.";;
      update_mem (with_prepared (Some {| p_replacementId := p_replacementId p; p_newFingerprint := p_newFingerprint p; newScope := newScope p;
        newDeviceId := newDeviceId p; bindingRaw := bindingRaw p; oldState := oldState p; trustReset := true |}))
  | None => throw "Contact trust reset rejected."
  end.
(** [{ ...entry, state: 'revoked', revokedAt: now }] *)
Definition revoke (now : Z) (entry : DeviceEntry) : res DeviceEntry :=
  if bool_decide (state entry = revoked) then mret entry else
  createDeviceEntry (entry_json {| deviceId := deviceId entry; publicIdentityReference := publicIdentityReference entry; algorithm := algorithm entry;
    state := revoked; createdAt := createdAt entry; revokedAt := Some now; label := label entry |}).
Definition only_epoch (l : DeviceList) (c : string) : LifecycleRecord :=
  {| lr_state := {| snapshot_list := l; commitment := c |}; authorizations := []; highestEpoch := epoch l; commitmentHistory := [history_item (epoch l) c] |}.
(** the new lists, which complete makes before it reads the records it replaces *)
(* service/src/recovery/production.ts:91-96 SecureStorageRecoveryAdapter.complete, the lists *)
Definition new_lists (p : PreparedReplacement) (now : Z) : res (LifecycleRecord * LifecycleRecord) :=
  let old := snapshot_list (oldState p) in
  entries ← mapM_res (revoke now) (devices old);
  revokedList ← createDeviceList (list_json {| identityReference := identityReference old; epoch := epoch old + 1;
    previousCommitment := Some (commitment (oldState p)); devices := entries |});
  revokedCommitment ← deviceListCommitment sha256_hex revokedList;
  entry ← createDeviceEntry (entry_json {| deviceId := newDeviceId p; publicIdentityReference := p_newFingerprint p;
    algorithm := "Olm-Curve25519+Ed25519"; state := active; createdAt := now; revokedAt := None; label := None |});
  newList ← createDeviceList (list_json {| identityReference := newScope p; epoch := 0; previousCommitment := None; devices := [entry] |});
  newCommitment ← deviceListCommitment sha256_hex newList;
  mret (only_epoch revokedList revokedCommitment, only_epoch newList newCommitment).
Definition record_update (id : string) (e : option string) (r : LifecycleRecord) : SecureRecordUpdate := swap_of RECORD_TYPE id e (record_json r).
Definition highwater_update (id : string) (e : option string) (r : LifecycleRecord) : SecureRecordUpdate :=
  swap_of HIGHWATER_RECORD_TYPE id e (highwater_json (highwater_of r)).
Definition binding_json (p : PreparedReplacement) : jsval :=
  JObj [("version", JNum (NInt 1)); ("userScope", JStr (newScope p)); ("deviceId", JStr (newDeviceId p)); ("identityReference", JStr (p_newFingerprint p))].
Definition completed_state (fs : list (string * jsval)) (id : string) : jsval :=
  JObj (set_key (without_pending fs) "completed" (JArr (elements_of (get fs "completed") ++ [JStr id]))).
(** the transaction: the state of the recovery, the account binding, both records of the old list and of the new, the reset of trust *)
(* service/src/recovery/production.ts:102-110 SecureStorageRecoveryAdapter.complete, the updates *)
Definition replacement_updates (p : PreparedReplacement) (raw : option string) (fs : list (string * jsval)) (now : Z) (revoked_ new : LifecycleRecord)
    (oldId newId : string) (old_raw old_mark new_raw new_mark reset_raw : option string) : list SecureRecordUpdate :=
  [swap_of RECOVERY_TYPE "local" raw (completed_state fs (p_replacementId p));
   swap_of BINDING_TYPE "local" (Some (bindingRaw p)) (binding_json p);
   record_update oldId old_raw revoked_; highwater_update oldId old_mark revoked_;
   record_update newId new_raw new; highwater_update newId new_mark new;
   swap_of RESET_TYPE "local" reset_raw (JObj [("version", JNum (NInt 1)); ("scope", JStr (newScope p)); ("resetAt", JNum (NInt now))])].
(** once the stored state is loaded *)
Definition complete_from (o : option PreparedReplacement) (raw : option string) (fs : list (string * jsval)) (id : string) : M W unit :=
  let unavailable := "Recovery completion unavailable." in
  p ← lift (require o unavailable);
  fail_if (negb (trustReset p) || negb (String.eqb (p_replacementId p) id)) unavailable;;
  pid ← lift (pending_id fs);
  fail_if (negb (bool_decide (pid = JStr id))) unavailable;;
  now ← date_now;
  lists ← lift (new_lists p now);
  oldId ← lift (canonicalIdentityRecordId sha256_hex (identityReference (snapshot_list (oldState p))));
  newId ← lift (canonicalIdentityRecordId sha256_hex (newScope p));
  oldLifecycleRaw ← read_ RECORD_TYPE oldId;
  oldHighwaterRaw ← read_ HIGHWATER_RECORD_TYPE oldId;
  resetRaw ← read_ RESET_TYPE "local";
  newLifecycleRaw ← read_ RECORD_TYPE newId;
  newHighwaterRaw ← read_ HIGHWATER_RECORD_TYPE newId;
  ok ← swap_ (replacement_updates p raw fs now lists.1 lists.2 oldId newId oldLifecycleRaw oldHighwaterRaw newLifecycleRaw newHighwaterRaw resetRaw);
  fail_if (negb ok) "Recovery transaction conflict.";;
  update_mem (with_prepared None).
(* service/src/recovery/production.ts:87-113 SecureStorageRecoveryAdapter.complete *)
Definition complete (id : string) : M W unit :=
  o ← get_mem prepared;
  '(raw, fs) ← load;
  complete_from o raw fs id.

(** ** The ceremony and the runtime *)
Definition set_ceremony (s : RecoveryCeremonyState) : M W unit := update_mem (λ m, with_ceremony s (replacement m) m).
(** with a persistence that stages verified archives, as the adapter does *)
(* service/src/recovery/ceremony.ts:10-14 RecoveryCeremony.stage *)
Definition ceremony_stage (archive : RecoveryArchive) (secret : list ascii) (c : RecoveryReplacementContext) : M W unit :=
  s ← get_mem stateValue;
  now ← date_now;
  fail_if (negb (bool_decide (s = idle)) || negb (rm_version (manifest archive) =? 1) ||
    from_option (λ e, e <=? now) false (rm_expiresAt (manifest archive)) || String.eqb (oldFingerprint c) (newFingerprint c) ||
    negb (nonempty (replacementId c))) "Recovery request rejected.";;
  lift (boundary_open sha256_hex derive decrypt now archive secret true);;
  ok ← stageVerified archive c;
  fail_if (negb ok) "Recovery request replayed.";;
  update_mem (with_ceremony staged (Some c)).
(* service/src/recovery/ceremony.ts:24-24 RecoveryCeremony.requestReplacementConfirmation *)
Definition requestReplacementConfirmation : M W unit :=
  s ← get_mem stateValue;
  fail_if (negb (bool_decide (s = staged))) "Recovery confirmation unavailable.";;
  set_ceremony replacement_pending.
(* service/src/recovery/ceremony.ts:25-25 RecoveryCeremony.confirmReplacement *)
Definition confirmReplacement : M W unit :=
  m ← get_mem id;
  fail_if (negb (bool_decide (stateValue m = replacement_pending))) "Recovery confirmation unavailable.";;
  c ← lift (require (replacement m) "Recovery confirmation unavailable.");
  complete (replacementId c);;
  set_ceremony completed.
(* service/src/recovery/ceremony.ts:26-26 RecoveryCeremony.rejectReplacement *)
Definition rejectReplacement : M W unit :=
  m ← get_mem id;
  let unavailable := "Recovery rejection unavailable." in
  c ← lift (require (replacement m) unavailable);
  fail_if (negb (bool_decide (stateValue m = staged) || bool_decide (stateValue m = replacement_pending))) unavailable;;
  adapter_reject (replacementId c);;
  set_ceremony rejected.
(* service/src/recovery/replacement.ts:5-11 RecoveryIdentityReplacementWorkflow.replace *)
Definition replace (context : jsval) (userAction : bool) : M W (string * list string) :=
  fail_if (negb userAction || negb (truthy (oprop context "replacementId")) || negb (truthy (oprop context "oldFingerprint")) ||
    negb (truthy (oprop context "newFingerprint")) || bool_decide (oprop context "oldFingerprint" = oprop context "newFingerprint"))
    "Identity replacement rejected.";;
  result ← replaceIdentity context;
  fail_if (negb (nonempty result.1) || bool_decide (result.2 = [])) "Identity replacement failed closed.";;
  resetContactTrust result.1;;
  mret result.
(* service/src/recovery/runtime.ts:30-36 RecoveryRuntime.stage *)
Definition stage (archive : RecoveryArchive) (secret : list ascii) (c : RecoveryReplacementContext) (userAction : bool) : M W unit :=
  fail_if (negb userAction) "Recovery request rejected.";;
  authorize archive c;;
  ceremony_stage archive secret c;;
  update_mem (with_staged c);;
  requestReplacementConfirmation.
(* service/src/recovery/runtime.ts:38-45 RecoveryRuntime.confirm *)
Definition confirm (userAction : bool) : M W (string * list string) :=
  staged_ ← get_mem stagedContext;
  context ← match staged_ with Some c => mret (context_json c) | None => readPending end;
  s ← get_mem stateValue;
  fail_if (negb userAction || negb (truthy context) || (bool_decide (is_Some staged_) && negb (bool_decide (s = replacement_pending))))
    "Recovery confirmation unavailable.";;
  result ← replace context true;
  match staged_ with
  | Some _ => confirmReplacement
  | None => id ← lift (string_of (oprop context "replacementId")); complete id
  end;;
  mret result.
(* service/src/recovery/runtime.ts:47-50 RecoveryRuntime.reject *)
Definition reject (userAction : bool) : M W unit :=
  fail_if (negb userAction) "Recovery rejection unavailable.";;
  rejectReplacement.
(** a reload of the page *)
Definition reloaded (w : W) : W := with_mem (λ _, new_runtime) w.
End recovery.
