(* ===== verification/RecoverySafety.v ===== *)
(** * What the recovery of an account guarantees

    An archive begins at most one replacement, whatever other tabs do, across reloads; a replacement takes place as a whole or not at
    all, and then no device of the old identity is left and the new lists are those the device lifecycle reads. And one defect: after a
    reload a pending replacement can no longer be rejected, only carried out. *)
From S2P Require Import Prelude Json Storage DeviceList Lifecycle LifecycleStore Vault SyncStore SyncSafety Recovery.

(** ** The record of the recovery *)
Lemma delete_key_plain fs k : plain (JObj fs) = true → plain (JObj (delete_key fs k)) = true.
Proof.
  cbn [plain]. rewrite !andb_true_iff, !bool_decide_eq_true, !forallb_forall. intros [Hf Hn]. split.
  - intros kv [Hin _]%filter_In. by apply Hf.
  - eapply sublist_NoDup; [exact Hn|]. by apply (fmap_sublist _), filter_sublist.
Qed.
Lemma get_deleted fs k : get (delete_key fs k) k = JUndef.
Proof.
  unfold delete_key. induction fs as [|[k0 v0] fs IH]; [done|]. cbn [List.filter fst]. destruct (String.eqb_spec k0 k) as [->|]; cbn [negb get]; [done|].
  destruct (String.eqb_spec k k0); [congruence|done].
Qed.
Record well (fs : list (string * jsval)) : Prop := {
  w_plain : plain (JObj fs) = true; w_version : get fs "version" = JNum (NInt 1);
  w_claims : as_array (get fs "claims") ≠ None; w_completed : as_array (get fs "completed") ≠ None }.
Lemma recovery_state_written fs : well fs → recovery_state (Some (stringify (JObj fs))) = Ok fs.
Proof.
  intros [Hp Hv Hc Hd]. unfold recovery_state. rewrite parse_stringify by done. cbn [require mbind res_bind prop]. rewrite Hv.
  rewrite bool_decide_eq_true_2 by done. cbn. by rewrite !bool_decide_eq_false_2.
Qed.
(** every text of the record was written by [JSON.stringify] *)
Definition printed (raw : option string) : Prop := ∀ text, raw = Some text → ∃ fs, plain (JObj fs) = true ∧ text = stringify (JObj fs).
Lemma recovery_state_well raw fs : printed raw → recovery_state raw = Ok fs → well fs.
Proof.
  intros Hp H. unfold recovery_state in H. apply bind_ok in H as (v & Hv & H).
  assert (plain v = true) as Hpl.
  { destruct raw as [text|]; [|by injection Hv as <-]. destruct (Hp text eq_refl) as (fs0 & Hfs & ->). rewrite parse_stringify in Hv by done. by injection Hv as <-. }
  apply bind_ok in H as (version & Hver & H). apply bind_ok in H as (_ & Hg%throw_if_ok & H).
  apply bind_ok in H as (fs0 & Hfs & H). apply require_ok in Hfs. destruct v; try done. injection Hfs as ->.
  apply bind_ok in H as (_ & Hg2%throw_if_ok & [= <-]). injection Hver as <-. apply negb_false_iff, bool_decide_eq_true in Hg.
  apply orb_false_iff in Hg2 as [Hc%bool_decide_eq_false Hd%bool_decide_eq_false]. by split.
Qed.
Lemma well_set fs k v : well fs → k ≠ "version" → plain v = true → (k = "claims" ∨ k = "completed" → as_array v ≠ None) → well (set_key fs k v).
Proof.
  intros [Hp Hv Hc Hd] Hk Hpv Ha. split.
  - by apply set_key_plain.
  - rewrite get_set_key. by destruct (String.eqb_spec "version" k).
  - rewrite get_set_key. destruct (String.eqb_spec "claims" k); [auto|done].
  - rewrite get_set_key. destruct (String.eqb_spec "completed" k); [auto|done].
Qed.
Lemma well_deleted fs : well fs → well (without_pending fs).
Proof. intros [Hp Hv Hc Hd]. unfold without_pending. split; [by apply delete_key_plain|by rewrite get_delete_key..]. Qed.
Lemma well_elements fs k : well fs → Forall (λ v, plain v = true) (elements_of (get fs k)).
Proof. intros [Hp _ _ _]. by apply elements_plain. Qed.
Lemma well_append fs k s : well fs → k = "claims" ∨ k = "completed" → well (set_key fs k (JArr (elements_of (get fs k) ++ [JStr s]))).
Proof.
  intros Hw Hk. apply well_set; [done|by destruct Hk; subst| |done].
  apply plain_arr, Forall_app_2; [by apply well_elements|by apply Forall_singleton].
Qed.

Section safety.
Context (sha256_hex : string → string) (derive : list ascii → list ascii → list ascii)
  (decrypt : list ascii → list ascii → string → list ascii → option (list ascii)) (clock : nat → Z).
Context `{SecureStorageLaws St} (others : nat → St → St) (fault : nat → Io).
Notation W := (World St Recovery).
Notation stage := (stage sha256_hex derive decrypt clock others fault).
Notation confirm := (confirm sha256_hex clock others fault).
Notation reject := (reject others fault).
Notation complete := (complete sha256_hex clock others fault).
Notation drift := (drift others).
Notation committed := (committed others).

Definition stored (d : St) : option string := read d RECOVERY_TYPE "local".
Definition claimed (id : string) (d : St) : Prop := ∃ fs, recovery_state (stored d) = Ok fs ∧ JStr id ∈ elements_of (get fs "claims").
(** the record stays one the code wrote, and no claim is lost *)
Definition keeps (d d' : St) : Prop := printed (stored d) → printed (stored d') ∧ ∀ id, claimed id d → claimed id d'.
#[export] Instance keeps_preorder : PreOrder keeps.
Proof. split; [by split|]. intros d1 d2 d3 H12 H23 H1. destruct (H12 H1) as [H2 ?]. destruct (H23 H2). split; auto. Qed.
Lemma keeps_same d d' : stored d' = stored d → keeps d d'.
Proof. intros Hs Hp. unfold claimed. by rewrite Hs. Qed.
Lemma written_state us d u fs : (compareAndSwapRecords us d).1 = true → u ∈ us → recordType u = RECOVERY_TYPE → recordId u = "local" →
  next u = stringify (JObj fs) → expected u = stored d ∧ stored (compareAndSwapRecords us d).2 = Some (stringify (JObj fs)).
Proof.
  intros Hc Hu Ht Hi Hn. pose proof (cas_distinct _ _ Hc) as Hnd. split.
  - pose proof Hc as Hr. rewrite cas_result in Hr by done. unfold expectations_hold in Hr. rewrite forallb_forall in Hr. specialize (Hr u).
    rewrite <-list_elem_of_In, bool_decide_eq_true in Hr. rewrite <-Hr by done. by rewrite Ht, Hi.
  - unfold stored. rewrite <-Ht, <-Hi, <-Hn. by apply cas_written.
Qed.
(** a swap that writes the record from what it expects there *)
Lemma recovery_swap_keeps us d u raw fs fs' : (compareAndSwapRecords us d).1 = true → u ∈ us → u = swap_of RECOVERY_TYPE "local" raw (JObj fs') →
  recovery_state raw = Ok fs → (well fs → well fs') → (∀ v, v ∈ elements_of (get fs "claims") → v ∈ elements_of (get fs' "claims")) →
  keeps d (compareAndSwapRecords us d).2.
Proof.
  intros Hc Hu -> Hr Hw Hcl Hp. destruct (written_state us d _ fs' Hc Hu eq_refl eq_refl eq_refl) as [He Hs]. cbn in He. subst raw.
  pose proof (Hw (recovery_state_well _ _ Hp Hr)) as Hw'. rewrite Hs. split.
  - intros text [= <-]. exists fs'. split; [apply Hw'|done].
  - intros id (fs0 & Hr0 & Hin). rewrite Hr in Hr0. injection Hr0 as <-. exists fs'. rewrite Hs. split; [by apply recovery_state_written|auto].
Qed.


(** ** What a call can do *)
Lemma drift_lift {A} (r : res A) : always drift (lift r : M W A).
Proof. by apply always_lift, _. Qed.
Lemma drift_fail_if b msg : always drift (fail_if b msg : M W unit).
Proof. apply drift_lift. Qed.
Lemma drift_now : always drift (date_now clock : M W Z).
Proof. by apply always_gets, _. Qed.
Lemma drift_throw {A} msg : always drift (throw msg : M W A).
Proof. by apply always_throw, _. Qed.
Lemma drift_mret {A} (a : A) : always drift (mret a : M W A).
Proof. by apply always_mret, _. Qed.
Hint Resolve drift_lift drift_fail_if drift_now drift_throw drift_mret : k3.
Hint Extern 1 (PreOrder _) => apply _ : k3.
Lemma drift_load : always drift (load others fault : M W _).
Proof. unfold load. along idtac. Qed.
Hint Resolve drift_load : k3.
(** one step of a call that so far changed nothing *)
Lemma recovery_quiet_step {A B} (m : M W A) (k : A → M W B) (w0 w w' : W) x : always drift m → drift w0 w → (m ≫= k) w = (x, w') →
  (drift w0 w' ∧ ∃ e, x = Err e) ∨ ∃ a w1, m w = (Ok a, w1) ∧ drift w0 w1 ∧ k a w1 = (x, w').
Proof.
  intros Hm Hd [(a & w1 & Hr & Hk)|(e & Hr & ->)]%bind_cases.
  - right. exists a, w1. split; [done|]. split; [|done]. etrans; [done|by eapply Hm].
  - left. split; [etrans; [done|by eapply Hm]|by exists e].
Qed.
(** nothing was changed *)
Definition gave_up {A} (w w' : W) (x : res A) : Prop := drift w w' ∧ ∃ e, x = Err e.
Tactic Notation "quietly" hyp(E) hyp(Hd) "as" simple_intropattern(p) :=
  match type of E with (?m ≫= ?k) ?w = (?x, ?w') =>
    let Hm := fresh in assert (always drift m) as Hm by auto with k3;
    apply (recovery_quiet_step m k _ w w' x Hm Hd) in E as [E|p]; [left; exact E|]; clear Hm end.
Lemma load_result (w w' : W) raw fs : load others fault w = (Ok (raw, fs), w') →
  drift w w' ∧ mem w' = mem w ∧ raw = stored (disk w') ∧ recovery_state raw = Ok fs.
Proof.
  intros (o & w1 & Hr & E)%bind_ok_run. apply read_cases in Hr as (Hd & Hm & [Ho|Ho]); [done|]. injection Ho as ->.
  apply bind_ok_run in E as (fs' & w2 & [Hs ->]%lift_run & [= <- <- <-]). done.
Qed.
(** what a completed replacement was made of, at the time [wl] the state of the recovery was read *)
Record replacing (p : PreparedReplacement) (id : string) (fs : list (string * jsval)) (r n : LifecycleRecord) (now : Z) (oldId newId : string) : Prop := {
  r_reset : trustReset p = true; r_id : p_replacementId p = id; r_pending : pending_id fs = Ok (JStr id);
  r_lists : new_lists sha256_hex p now = Ok (r, n);
  r_old : canonicalIdentityRecordId sha256_hex (identityReference (snapshot_list (oldState p))) = Ok oldId;
  r_new : canonicalIdentityRecordId sha256_hex (newScope p) = Ok newId }.
Definition swapped_in (p : PreparedReplacement) (id : string) (raw : option string) (fs : list (string * jsval)) (w w' : W) : Prop :=
  ∃ now r n oldId newId e1 e2 e3 e4 e5, replacing p id fs r n now oldId newId ∧
    committed (replacement_updates p raw fs now r n oldId newId e1 e2 e3 e4 e5) w w'.
Lemma complete_from_outcome o raw fs id (w w' : W) x : complete_from sha256_hex clock others fault o raw fs id w = (x, w') →
  gave_up w w' x ∨ ∃ p, o = Some p ∧ swapped_in p id raw fs w w'.
Proof.
  intros E. assert (drift w w) as Hd by done. unfold complete_from in E.
  quietly E Hd as (p & w3 & [Hp%require_ok ->]%lift_run & _ & E).
  quietly E Hd as (u & w3 & [[Ht%negb_false_iff Hi%negb_false_iff%String.eqb_eq]%orb_false_iff ->]%fail_if_run & _ & E).
  quietly E Hd as (pid & w3 & [Hpid ->]%lift_run & _ & E).
  quietly E Hd as (u2 & w3 & [Hpd%negb_false_iff%bool_decide_eq_true ->]%fail_if_run & _ & E). subst pid.
  quietly E Hd as (now & w3 & [= <- <-] & _ & E). quietly E Hd as ([r n] & w3 & [Hl ->]%lift_run & _ & E).
  quietly E Hd as (oldId & w3 & [Ho ->]%lift_run & _ & E). quietly E Hd as (newId & w3 & [Hn ->]%lift_run & _ & E).
  quietly E Hd as (e1 & w1 & _ & Hd1 & E). quietly E Hd1 as (e2 & w2 & _ & Hd2 & E). quietly E Hd2 as (e3 & w3 & _ & Hd3 & E).
  quietly E Hd3 as (e4 & w4 & _ & Hd4 & E). quietly E Hd4 as (e5 & w5 & _ & Hd5 & E).
  assert (replacing p id fs r n (clock (tick w)) oldId newId) as Hrep by done.
  apply bind_cases in E as [(ok & w6 & Hs & E)|(e & Hs & ->)].
  - apply swap_cases in Hs as (_ & [[Hs [Hok|Hok]]|[Hc Hok]]); [|done|].
    + injection Hok as ->. left. cbn in E. injection E as <- <-. split; [etrans; [exact Hd5|exact Hs]|by eexists].
    + right. exists p. split; [done|]. exists (clock (tick w)), r, n, oldId, newId, e1, e2, e4, e5, e3. split; [done|].
      destruct Hok as [[= ->]|[Hok _]]; [|done]. cbn in E. injection E as _ <-.
      eapply committed_drift_l; [exact Hd5|]. eapply committed_drift_r; [exact Hc|]. apply drift_mem.
  - apply swap_cases in Hs as (_ & [[Hs _]|[Hc _]]); [left; split; [etrans; [exact Hd5|exact Hs]|by eexists]|].
    right. exists p. split; [done|]. exists (clock (tick w)), r, n, oldId, newId, e1, e2, e4, e5, e3. split; [done|]. eapply committed_drift_l; [exact Hd5|exact Hc].
Qed.
Lemma complete_outcome id (w w' : W) x : complete id w = (x, w') →
  gave_up w w' x ∨ ∃ p fs (wl : W), prepared (mem w) = Some p ∧ drift w wl ∧ recovery_state (stored (disk wl)) = Ok fs ∧ swapped_in p id (stored (disk wl)) fs wl w'.
Proof.
  intros E. assert (drift w w) as Hd by done. unfold Recovery.complete in E.
  quietly E Hd as (o & w1 & [= <- <-] & _ & E). quietly E Hd as ([raw fs] & w2 & (Hd2 & Hm & -> & Hr)%load_result & _ & E).
  apply complete_from_outcome in E as [[Hd3 Hx]|(p & Hp & Hs)]; [left; split; [etrans; [exact Hd2|exact Hd3]|done]|]. right. by exists p, fs, w2.
Qed.
Lemma drift_lifecycle scope : always drift (read_lifecycle sha256_hex others fault scope : M W _).
Proof. intros w x w' E. unfold read_lifecycle, access in E. destruct (fault (tick w)); injection E as _ <-; apply drift_access. Qed.
Hint Resolve drift_lifecycle : k3.
Lemma drift_authorize archive c : always drift (authorize sha256_hex others fault archive c : M W unit).
Proof. unfold authorize, binding. along idtac. Qed.
Lemma drift_readPending : always drift (readPending others fault : M W jsval).
Proof. unfold readPending. along idtac. Qed.
Hint Resolve drift_authorize drift_readPending : k3.
Lemma drift_replace context u : always drift (replace sha256_hex others fault context u : M W _).
Proof. unfold replace, replaceIdentity, resetContactTrust. along idtac. Qed.
Hint Resolve drift_replace : k3.
(** the state with the claim of an archive and its replacement pending *)
Definition staged_state (archive : RecoveryArchive) (c : RecoveryReplacementContext) (fs : list (string * jsval)) : list (string * jsval) :=
  set_key (set_key fs "claims" (JArr (elements_of (get fs "claims") ++ [JStr (archiveId (manifest archive))]))) "pending"
    (JObj [("archiveId", JStr (archiveId (manifest archive))); ("integrity", JStr (integrity archive)); ("context", context_json c)]).
Lemma staged_well archive c fs : well fs → well (staged_state archive c fs).
Proof. intros Hw. apply well_set; [apply well_append; auto|done|reflexivity|by intros []]. Qed.
Lemma staged_claims archive c fs : elements_of (get (staged_state archive c fs) "claims") = elements_of (get fs "claims") ++ [JStr (archiveId (manifest archive))].
Proof. unfold staged_state. by rewrite !get_set_key. Qed.
Lemma stageVerified_outcome archive c (w w' : W) x : stageVerified others fault archive c w = (x, w') →
  (drift w w' ∧ x ≠ Ok true) ∨ ∃ fs (wl : W), drift w wl ∧ recovery_state (stored (disk wl)) = Ok fs ∧ JStr (archiveId (manifest archive)) ∉ elements_of (get fs "claims") ∧
    truthy (get fs "pending") = false ∧ committed [swap_of RECOVERY_TYPE "local" (stored (disk wl)) (JObj (staged_state archive c fs))] wl w'.
Proof.
  intros E. unfold stageVerified in E. apply bind_cases in E as [([raw fs] & w1 & (Hd & _ & -> & Hr)%load_result & E)|(e & Hr & ->)].
  2: { left. split; [by eapply drift_load|done]. }
  destruct (bool_decide_reflect (JStr (archiveId (manifest archive)) ∈ elements_of (get fs "claims"))) as [|Hn]; [injection E as <- <-; by left|].
  cbn [orb] in E. destruct (truthy (get fs "pending")) eqn:Hp; [injection E as <- <-; by left|].
  apply swap_cases in E as (_ & [[Hs Hx]|[Hc _]]).
  - left. split; [etrans; [exact Hd|exact Hs]|by destruct Hx as [-> | ->]].
  - right. by exists fs, w1.
Qed.
Lemma adapter_reject_outcome id (w w' : W) x : adapter_reject others fault id w = (x, w') → drift w w' ∨
  ∃ fs (wl : W), drift w wl ∧ recovery_state (stored (disk wl)) = Ok fs ∧ committed [swap_of RECOVERY_TYPE "local" (stored (disk wl)) (JObj (without_pending fs))] wl w'.
Proof.
  intros E. unfold adapter_reject in E. apply bind_cases in E as [([raw fs] & w1 & (Hd & _ & -> & Hr)%load_result & E)|(e & Hr & ->)].
  2: { left. by eapply drift_load. }
  apply bind_cases in E as [(pid & w2 & [Hp ->]%lift_run & E)|(e & Hp & ->)]; [|left; by injection Hp as _ <-].
  apply bind_cases in E as [(u & w2 & [_ ->]%fail_if_run & E)|(e & Hf & ->)]; [|left; by injection Hf as _ <-].
  apply bind_cases in E as [(b & w2 & Hs & E)|(e & Hs & ->)]; apply swap_cases in Hs as (_ & [[Hs _]|[Hc _]]).
  - left. injection E as _ <-. etrans; [exact Hd|]. etrans; [exact Hs|apply drift_mem].
  - right. exists fs, w1. split; [done|]. split; [done|]. injection E as _ <-. eapply committed_drift_r; [exact Hc|apply drift_mem].
  - left. etrans; [exact Hd|exact Hs].
  - right. by exists fs, w1.
Qed.
(** ** An archive begins one replacement *)
Section once.
Context (others_keep : ∀ n d, keeps d (others n d)).
Definition kept_world (w w' : W) : Prop := keeps (disk w) (disk w').
Instance kept_world_preorder : PreOrder kept_world.
Proof. split; [intros w; apply keeps_preorder|]. intros w1 w2 w3 ? ?. by eapply keeps_preorder. Qed.
Lemma drift_keeps (w w' : W) : drift w w' → kept_world w w'.
Proof.
  intros (k & _ & Hd). unfold kept_world. rewrite Hd. unfold drifted. generalize (tick w). clear Hd. induction k as [|k IH] using nat_ind; intros n; [apply keeps_preorder|].
  rewrite seq_S, foldl_app. cbn. etrans; [apply IH|apply others_keep].
Qed.
Lemma committed_keeps us (w w' : W) : (∀ d, (compareAndSwapRecords us d).1 = true → keeps d (compareAndSwapRecords us d).2) → committed us w w' → kept_world w w'.
Proof.
  intros Hu (w1 & w2 & H1 & Hc & Hd & _ & H2). etrans; [by apply drift_keeps|]. etrans; [|by apply drift_keeps]. unfold kept_world. rewrite Hd. by apply Hu.
Qed.

Lemma drift_kept {A} (m : M W A) : always drift m → always kept_world m.
Proof. intros Hm w x w' E. by eapply drift_keeps, Hm. Qed.
Lemma one_swap_keeps raw fs fs' (w w' : W) : recovery_state raw = Ok fs → (well fs → well fs') →
  (∀ v, v ∈ elements_of (get fs "claims") → v ∈ elements_of (get fs' "claims")) → committed [swap_of RECOVERY_TYPE "local" raw (JObj fs')] w w' → kept_world w w'.
Proof. intros Hr Hw Hc. apply committed_keeps. intros d Hd. eapply recovery_swap_keeps; [done|by apply list_elem_of_singleton|done..]. Qed.
Lemma kept_complete id : always kept_world (complete id).
Proof.
  intros w x w' [[Hd _]|(p & fs & wl & _ & Hd & Hr & now & r & n & oldId & newId & e1 & e2 & e3 & e4 & e5 & _ & Hc)]%complete_outcome; [by apply drift_keeps|].
  etrans; [by apply drift_keeps|]. eapply committed_keeps; [|exact Hc]. intros d Hs. eapply recovery_swap_keeps; [exact Hs|left|reflexivity|exact Hr| |].
  - intros Hw. pose proof (well_append (without_pending fs) "completed" (p_replacementId p) (well_deleted _ Hw)) as Hw'.
    unfold without_pending in Hw'. rewrite get_delete_key in Hw' by done. auto.
  - intros v. rewrite get_set_key. unfold without_pending. by rewrite get_delete_key.
Qed.
Hint Resolve kept_complete drift_kept : k3.
Lemma kept_confirm u : always kept_world (confirm u).
Proof. unfold Recovery.confirm, confirmReplacement, set_ceremony. along ltac:(idtac). Qed.
Lemma kept_adapter_reject id : always kept_world (adapter_reject others fault id).
Proof.
  intros w x w' [Hd|(fs & wl & Hd & Hr & Hc)]%adapter_reject_outcome; [by apply drift_keeps|].
  etrans; [by apply drift_keeps|]. eapply one_swap_keeps; [exact Hr|apply well_deleted| |exact Hc]. intros v. unfold without_pending. by rewrite get_delete_key.
Qed.
Lemma kept_stageVerified archive c : always kept_world (stageVerified others fault archive c).
Proof.
  intros w x w' [[Hd _]|(fs & wl & Hd & Hr & _ & _ & Hc)]%stageVerified_outcome; [by apply drift_keeps|].
  etrans; [by apply drift_keeps|]. eapply one_swap_keeps; [exact Hr|apply staged_well| |exact Hc]. intros v Hv. rewrite staged_claims. apply elem_of_app. by left.
Qed.
Hint Resolve kept_adapter_reject kept_stageVerified : k3.
Lemma kept_reject u : always kept_world (reject u).
Proof. unfold Recovery.reject, rejectReplacement, set_ceremony. along idtac. Qed.
Lemma kept_stage archive secret c u : always kept_world (stage archive secret c u).
Proof. unfold Recovery.stage, ceremony_stage, requestReplacementConfirmation, set_ceremony. along idtac. Qed.
Lemma stage_ok archive secret c u (w w' : W) : stage archive secret c u w = (Ok tt, w') →
  ∃ w1 w2 : W, drift w w1 ∧ stageVerified others fault archive c w1 = (Ok true, w2) ∧ disk w' = disk w2.
Proof.
  intros E. unfold Recovery.stage in E. apply bind_ok_run in E as (u1 & w1 & [_ ->]%fail_if_run & E).
  apply bind_ok_run in E as (u2 & w2 & Ha%drift_authorize & E). apply bind_ok_run in E as (u3 & w3 & Hc & E).
  unfold ceremony_stage in Hc. apply bind_ok_run in Hc as (st & w4 & [= <- <-] & Hc). apply bind_ok_run in Hc as (now & w4 & [= <- <-] & Hc).
  apply bind_ok_run in Hc as (u4 & w4 & [_ ->]%fail_if_run & Hc). apply bind_ok_run in Hc as (plain_ & w4 & [_ ->]%lift_run & Hc).
  apply bind_ok_run in Hc as (ok & w4 & Hv & Hc). apply bind_ok_run in Hc as (u5 & w5 & [->%negb_false_iff ->]%fail_if_run & [= <-]).
  apply bind_ok_run in E as (u6 & w6 & [= <-] & E). unfold requestReplacementConfirmation, set_ceremony in E.
  apply bind_ok_run in E as (st2 & w7 & [= <- <-] & E). apply bind_ok_run in E as (u7 & w7 & [_ ->]%fail_if_run & [= <-]).
  exists w2, w4. by subst.
Qed.
Lemma stage_claims archive secret c u (w w' : W) : printed (stored (disk w)) → stage archive secret c u w = (Ok tt, w') → claimed (archiveId (manifest archive)) (disk w').
Proof.
  intros Hp (w1 & w2 & Hd & Hv & ->)%stage_ok. apply stageVerified_outcome in Hv as [[_ []]|(fs & wl & Hl & Hr & _ & _ & wa & wb & Ha & Hc & Hdb & _ & Hb)]; [done|].
  destruct (written_state _ _ _ (staged_state archive c fs) Hc (list_elem_of_here _ _) eq_refl eq_refl eq_refl) as [He Hs].
  assert (drift w wl) as Hwl by by etrans. apply drift_keeps in Hwl, Ha, Hb. destruct (Hwl Hp) as [Hpl _]. pose proof (recovery_state_well _ _ Hpl Hr) as Hw.
  unfold kept_world in Hb. rewrite Hdb in Hb. pose proof (staged_well archive c fs Hw) as Hws. apply Hb.
  - intros text. rewrite Hs. intros [= <-]. eexists. split; [apply Hws|done].
  - exists (staged_state archive c fs). rewrite Hs. split; [by apply recovery_state_written|]. rewrite staged_claims. apply elem_of_app. right. by left.
Qed.
Lemma claimed_refused archive secret c u (w : W) : printed (stored (disk w)) → claimed (archiveId (manifest archive)) (disk w) → (stage archive secret c u w).1 ≠ Ok tt.
Proof.
  intros Hp Hc Hx. destruct (stage archive secret c u w) as [x w'] eqn:E. cbn in Hx. subst x. apply stage_ok in E as (w1 & w2 & Hd & Hv & _).
  apply stageVerified_outcome in Hv as [[_ []]|(fs & wl & Hl & Hr & Hn & _)]; [done|]. assert (drift w wl) as Hwl by by etrans.
  apply drift_keeps in Hwl. destruct (proj2 (Hwl Hp) _ Hc) as (fs' & Hr' & Hin). rewrite Hr in Hr'. by injection Hr' as <-.
Qed.
(** the calls of the user in this tab, and reloads; other tabs act between any two accesses *)
Inductive recovery_step (w : W) : W → Prop :=
| stages archive secret c u : recovery_step w (stage archive secret c u w).2
| confirms u : recovery_step w (confirm u w).2
| rejects u : recovery_step w (reject u w).2
| reloads : recovery_step w (reloaded w).
Lemma step_kept w w' : recovery_step w w' → kept_world w w'.
Proof.
  intros [archive secret c u|u|u|].
  - eapply kept_stage. apply surjective_pairing.
  - eapply kept_confirm. apply surjective_pairing.
  - eapply kept_reject. apply surjective_pairing.
  - by apply keeps_same.
Qed.
Lemma rtc_steps_kept w w' : rtc recovery_step w w' → kept_world w w'.
Proof. induction 1 as [|wa wb wc Hab _ IH]; [apply keeps_preorder|]. etrans; [by apply step_kept|exact IH]. Qed.
(** C9: an archive begins at most one replacement of the identity: once a recovery has been staged with it, no later one succeeds with
    an archive of the same identifier, whatever is staged, confirmed, rejected or reloaded in between, whatever accesses fail, and
    whatever other tabs do to the storage that does not itself lose a claim. *)
Theorem archive_begins_one_replacement archive secret c u archive' secret' c' u' (w w1 w2 : W) :
  printed (stored (disk w)) → stage archive secret c u w = (Ok tt, w1) → rtc recovery_step w1 w2 →
  archiveId (manifest archive') = archiveId (manifest archive) → (stage archive' secret' c' u' w2).1 ≠ Ok tt.
Proof.
  intros Hp Hs Hr Hid. pose proof (stage_claims _ _ _ _ _ _ Hp Hs) as Hc. destruct (kept_stage _ _ _ _ _ _ _ Hs Hp) as [Hp1 _].
  assert (kept_world w1 w2) as Hk by by eapply rtc_steps_kept.
  destruct (Hk Hp1) as [Hp2 Hc2]. apply claimed_refused; [done|]. rewrite Hid. by apply Hc2.
Qed.
End once.

(** ** A pending replacement after a reload *)
Definition waiting (d : St) : Prop := ∃ fs, recovery_state (stored d) = Ok fs ∧ truthy (get fs "pending") = true.
Definition untouched (w w' : W) : Prop := drift w w' ∧ mem w' = mem w.
Instance untouched_preorder : PreOrder untouched.
Proof. split; [by split|]. intros w1 w2 w3 [] []. split; [by etrans|congruence]. Qed.
Lemma untouched_access {A} (f : St → res A) : always untouched (access others fault (λ d, (f d, d)) : M W A).
Proof. intros w x w' E. unfold access in E. destruct (fault (tick w)); injection E as _ <-; (split; [apply drift_access|done]). Qed.
Lemma untouched_read t i : always untouched (read_ others fault t i : M W _).
Proof. apply (untouched_access (λ d, Ok (read d t i))). Qed.
Lemma untouched_fail_if b msg : always untouched (fail_if b msg : M W unit).
Proof. by apply always_lift, _. Qed.
Hint Resolve untouched_read untouched_fail_if : k3.
Lemma untouched_authorize archive c : always untouched (authorize sha256_hex others fault archive c : M W unit).
Proof. unfold authorize, binding, read_lifecycle. along ltac:(apply untouched_access || apply always_lift, _ || apply always_throw, _ || idtac). Qed.
Lemma waiting_refused archive c (w w' : W) x : (∀ n d, waiting d → waiting (others n d)) → waiting (disk w) →
  stageVerified others fault archive c w = (x, w') → x ≠ Ok true ∧ untouched w w'.
Proof.
  intros Ho Hw E. unfold stageVerified in E. apply bind_cases in E as [([raw fs] & w1 & (Hd & Hm & -> & Hr)%load_result & E)|(e & Hr & ->)].
  - destruct (drift_invariant others waiting w w1 Ho Hd Hw) as (fs' & Hr' & Hp). rewrite Hr in Hr'. injection Hr' as <-.
    rewrite Hp, orb_true_r in E. injection E as <- <-. done.
  - split; [done|]. split; [by eapply drift_load|]. unfold load in Hr.
    apply bind_cases in Hr as [(o & w1 & Ho1%untouched_read & Hr)|(e1 & Ho1%untouched_read & _)]; [|by destruct Ho1].
    apply bind_cases in Hr as [(o2 & w2 & [_ ->]%lift_run & [= ])|(e2 & Hl & _)]. injection Hl as _ <-. by destruct Ho1.
Qed.
Lemma stage_refused archive secret c u (w w' : W) x : (∀ n d, waiting d → waiting (others n d)) → waiting (disk w) →
  stage archive secret c u w = (x, w') → (∃ e, x = Err e) ∧ untouched w w'.
Proof.
  intros Ho Hw E. unfold Recovery.stage in E.
  apply bind_cases in E as [(u1 & w1 & [_ ->]%fail_if_run & E)|(e & Hf & ->)]; [|injection Hf as _ <-; split; [by eexists|done]].
  apply bind_cases in E as [(u2 & w1 & Ha%untouched_authorize & E)|(e & Ha%untouched_authorize & ->)]; [|split; [by eexists|done]].
  assert (waiting (disk w1)) as Hw1 by (apply (drift_invariant others waiting w w1 Ho); [apply Ha|done]).
  enough (∀ y w2, ceremony_stage sha256_hex derive decrypt clock others fault archive secret c w1 = (y, w2) → (∃ e, y = Err e) ∧ untouched w1 w2) as Hc.
  { apply bind_cases in E as [(u3 & w2 & [[e He] _]%Hc & _)|(e & [_ Hu]%Hc & ->)]; [done|]. split; [by eexists|by etrans]. }
  clear E. intros y w2 E. unfold ceremony_stage, get_mem, date_now in E. rewrite !gets_bind in E.
  apply bind_cases in E as [(u4 & w3 & [_ ->]%fail_if_run & E)|(e & Hf & ->)]; [|injection Hf as _ <-; split; [by eexists|done]].
  apply bind_cases in E as [(pl & w3 & [_ ->]%lift_run & E)|(e & Hf & ->)]; [|injection Hf as _ <-; split; [by eexists|done]].
  apply bind_cases in E as [(ok & w3 & [Hn Hu]%(waiting_refused _ _ _ _ _ Ho Hw1) & E)|(e & [_ Hu]%(waiting_refused _ _ _ _ _ Ho Hw1) & ->)];
    [|split; [by eexists|done]].
  destruct ok; [done|]. cbn in E. injection E as <- <-. split; [by eexists|done].
Qed.
(** what the user can try without carrying the replacement out *)
Inductive attempt (w : W) : W → Prop :=
| attempts_stage archive secret c u : attempt w (stage archive secret c u w).2
| attempts_reject u : attempt w (reject u w).2
| attempts_reload : attempt w (reloaded w).
Lemma fresh_reject u (w : W) : mem w = new_runtime → ∃ e, reject u w = (Err e, w).
Proof. destruct w as [d t m]. cbn. intros ->. destruct u; by eexists. Qed.
(** C10: a replacement that is pending in the storage when the page is reloaded can no longer be turned down: as long as it is not carried
    out, and nobody else removes it, every call of reject fails, because the ceremony that knows the replacement was in memory, and so
    does every attempt to stage another recovery, because one is pending. *)
Theorem reloaded_replacement_cannot_be_rejected (w w' : W) :
  (∀ n d, waiting d → waiting (others n d)) → waiting (disk w) → rtc attempt (reloaded w) w' →
  waiting (disk w') ∧ (∀ u, ∃ e, reject u w' = (Err e, w')) ∧ ∀ archive secret c u, ∃ e, (stage archive secret c u w').1 = Err e.
Proof.
  intros Ho Hw Hr. assert (waiting (disk w') ∧ mem w' = new_runtime) as [Hw' Hm].
  { assert (waiting (disk (reloaded w)) ∧ mem (reloaded w) = new_runtime) as H1 by done. revert H1. generalize (reloaded w) Hr. clear Hr w Hw.
    induction 1 as [|wa wb wc Hab _ IH]; [done|]. intros [Ha Hm]. apply IH. destruct Hab as [archive secret c u|u|]; [| |done].
    - destruct (stage archive secret c u wa) as [x wb] eqn:E. destruct (stage_refused _ _ _ _ _ _ _ Ho Ha E) as [_ [Hd Hm']].
      split; [|cbn; congruence]. by eapply (drift_invariant others waiting).
    - destruct (fresh_reject u wa Hm) as [e ->]. done. }
  split; [done|]. split; [intros u; by apply fresh_reject|]. intros archive secret c u.
  destruct (stage archive secret c u w') as [x wb] eqn:E. by destruct (stage_refused _ _ _ _ _ _ _ Ho Hw' E) as [[e ->] _]; exists e.
Qed.

(** ** The replacement *)
(** the new lists *)
Lemma revoke_ok now e e' : revoke now e = Ok e' → deviceId e' = deviceId e ∧ state e' = revoked.
Proof.
  unfold revoke. destruct (bool_decide_reflect (state e = revoked)) as [Hs|]; [by intros [= <-]|]. by intros ->%createDeviceEntry_json_inv.
Qed.
Lemma mapM_revoked now l l' : mapM_res (revoke now) l = Ok l' → deviceId <$> l' = deviceId <$> l ∧ Forall (λ e, state e = revoked) l'.
Proof.
  revert l'. induction l as [|e l IH]; intros l' E; cbn in E; [by injection E as <-|].
  apply bind_ok in E as (e' & [Hi Hs]%revoke_ok & E). apply bind_ok in E as (l'' & [Hl Hf]%IH & [= <-]).
  cbn. by rewrite Hi, Hl; auto.
Qed.
(** a record that holds one list *)
Record fresh_record (r : LifecycleRecord) : Prop := {
  f_is : r = only_epoch (snapshot_list (lr_state r)) (commitment (lr_state r)); f_ok : list_ok (snapshot_list (lr_state r)) = true;
  f_commitment : deviceListCommitment sha256_hex (snapshot_list (lr_state r)) = Ok (commitment (lr_state r)) }.
Lemma fresh_record_read sc id r (d : St) : fresh_record r → canonicalIdentityRecordId sha256_hex sc = Ok id → identityReference (snapshot_list (lr_state r)) = sc →
  read d RECORD_TYPE id = Some (stringify (record_json r)) → read d HIGHWATER_RECORD_TYPE id = Some (stringify (highwater_json (highwater_of r))) →
  read_snapshot sha256_hex sc d = Ok (Some (lr_state r)).
Proof.
  intros [Hi Hl Hc] Hid Hsc Hr Hh. unfold read_snapshot. rewrite (readRecord_written sha256_hex sc id r d Hid Hl Hsc Hc); [done| | | |exact Hr|exact Hh].
  - by rewrite Hi.
  - rewrite Hi. split; [constructor|]. apply Forall_singleton. exists (epoch (snapshot_list (lr_state r))), (commitment (lr_state r)). split; [done|].
    by destruct (list_ok_epoch _ Hl).
  - rewrite Hi. unfold has_current. cbn. by rewrite bool_decide_eq_true_2.
Qed.
Lemma new_lists_ok p now r n : new_lists sha256_hex p now = Ok (r, n) →
  (fresh_record r ∧ identityReference (snapshot_list (lr_state r)) = identityReference (snapshot_list (oldState p)) ∧
   epoch (snapshot_list (lr_state r)) = epoch (snapshot_list (oldState p)) + 1 ∧
   previousCommitment (snapshot_list (lr_state r)) = Some (commitment (oldState p)) ∧
   deviceId <$> devices (snapshot_list (lr_state r)) = deviceId <$> devices (snapshot_list (oldState p)) ∧
   Forall (λ e, state e = revoked) (devices (snapshot_list (lr_state r)))) ∧
  fresh_record n ∧ identityReference (snapshot_list (lr_state n)) = newScope p ∧ epoch (snapshot_list (lr_state n)) = 0 ∧
  ∃ e, devices (snapshot_list (lr_state n)) = [e] ∧ state e = active ∧ publicIdentityReference e = p_newFingerprint p ∧ deviceId e = newDeviceId p.
Proof.
  unfold new_lists. intros E. apply bind_ok in E as (entries & [Hi Hf]%mapM_revoked & E). apply bind_ok in E as (rl & Hrl & E).
  apply createDeviceList_json in Hrl as [-> Hrok]. apply bind_ok in E as (rc & Hrc & E). apply bind_ok in E as (e & ->%createDeviceEntry_json_inv & E).
  apply bind_ok in E as (nl & Hnl & E). apply createDeviceList_json in Hnl as [-> Hnok]. apply bind_ok in E as (nc & Hnc & [= <- <-]).
  split; [by split_and!|]. split_and!; [done..|]. by eexists.
Qed.
Lemma readRecord_ext sc (d d' : St) : (∀ t i, t ∈ [RECORD_TYPE; HIGHWATER_RECORD_TYPE] → read d' t i = read d t i) →
  read_snapshot sha256_hex sc d' = read_snapshot sha256_hex sc d.
Proof.
  intros Hr. unfold read_snapshot, readRecord, readHighwater. destruct (canonicalIdentityRecordId sha256_hex sc) as [id|]; [|done].
  cbn [mbind res_bind]. by rewrite !Hr by set_solver.
Qed.
(** The records of a recovery are written by this call alone. *)
Definition recovery_types : list string := [RECOVERY_TYPE; BINDING_TYPE; RECORD_TYPE; HIGHWATER_RECORD_TYPE; RESET_TYPE].
Definition same_records (d d' : St) : Prop := ∀ t i, t ∈ recovery_types → read d' t i = read d t i.
Section alone.
Context (alone : ∀ n d, same_records d (others n d)).
Lemma recovery_drift_same (w w' : W) : drift w w' → same_records (disk w) (disk w').
Proof. intros Hd t i Ht. eapply (drift_read others); [|exact Hd]. intros n d. by apply alone. Qed.
Lemma same_stored d d' : same_records d d' → stored d' = stored d.
Proof. intros Hs. apply Hs. by left. Qed.
Lemma same_snapshot sc d d' : same_records d d' → read_snapshot sha256_hex sc d' = read_snapshot sha256_hex sc d.
Proof. intros Hs. apply readRecord_ext. intros t i Ht. apply Hs. unfold recovery_types. set_solver. Qed.
Lemma committed_update us u (w w' : W) : u ∈ us → recordType u ∈ recovery_types → committed us w w' →
  read (disk w) (recordType u) (recordId u) = expected u ∧ read (disk w') (recordType u) (recordId u) = Some (next u).
Proof.
  intros Hu Ht Hc. eapply (committed_read others us); [|done| |exact Hc]; [|intros n d; by apply alone].
  destruct Hc as (w1 & w2 & _ & Hc & _). by eapply cas_distinct.
Qed.

Lemma committed_all us (w w' : W) : Forall (λ u, recordType u ∈ recovery_types) us → committed us w w' →
  Forall (λ u, read (disk w') (recordType u) (recordId u) = Some (next u)) us.
Proof. rewrite !Forall_forall. intros Ht Hc u Hu. by eapply committed_update; [|apply Ht|]. Qed.

(** what is prepared, from the storage as it is *)
Record prepares (context : jsval) (p : PreparedReplacement) (scope : string) (d : St) : Prop := {
  pr_replacement : oprop context "replacementId" = JStr (p_replacementId p); pr_fingerprint : oprop context "newFingerprint" = JStr (p_newFingerprint p);
  pr_scope : newScope p = "recovery-" +:+ p_replacementId p;
  pr_binding : ∃ b, read d BINDING_TYPE "local" = Some (bindingRaw p) ∧ parse (bindingRaw p) = Some b ∧ oprop b "userScope" = JStr scope ∧
    oprop b "identityReference" = oprop context "oldFingerprint";
  pr_old : read_snapshot sha256_hex scope d = Ok (Some (oldState p)) }.
Definition still_trusted (l : DeviceList) : list string := deviceId <$> List.filter (λ e, negb (bool_decide (state e = revoked))) (devices l).
Lemma string_of_ok v s : string_of v = Ok s → v = JStr s.
Proof. destruct v; try done. by intros [= ->]. Qed.
Lemma prop_string v k s : prop v k = Ok (JStr s) → oprop v k = JStr s.
Proof. destruct v; try done. by intros [= E]. Qed.
Definition other_fields (m m' : Recovery) : Prop := stateValue m' = stateValue m ∧ replacement m' = replacement m.
Lemma replaceIdentity_outcome context r (w w' : W) : replaceIdentity sha256_hex others fault context w = (Ok r, w') →
  other_fields (mem w) (mem w') ∧
  ∃ p scope, prepared (mem w') = Some p ∧ prepares context p scope (disk w) ∧ r = (newScope p, still_trusted (snapshot_list (oldState p))).
Proof.
  intros Hr. unfold replaceIdentity in Hr. apply bind_ok_run in Hr as (pending & w5 & Hpen & Hr). assert (untouched w w5) as [Hd5 Hm5].
  { unfold readPending in Hpen. apply bind_ok_run in Hpen as ([raw fs] & w0 & (? & ? & _)%load_result & [= _ <-]). done. }
  apply bind_ok_run in Hr as (raw & w6 & Hraw & Hr). apply read_cases in Hraw as (Hd6 & Hm6 & [|[= ->]]); [done|].
  apply bind_ok_run in Hr as (u4 & w7 & [_ ->]%fail_if_run & Hr). apply bind_ok_run in Hr as (text & w7 & [Htext%require_ok ->]%lift_run & Hr).
  apply bind_ok_run in Hr as (b & w7 & [Hb%require_ok ->]%lift_run & Hr). apply bind_ok_run in Hr as (us & w7 & [Hus ->]%lift_run & Hr).
  apply bind_ok_run in Hr as (scope & w7 & [->%string_of_ok ->]%lift_run & Hr). apply bind_ok_run in Hr as (o & w8 & Ho & Hr).
  apply bind_ok_run in Hr as (old & w9 & [->%require_ok ->]%lift_run & Hr).
  apply bind_ok_run in Hr as (u5 & w9 & [Hfp%negb_false_iff%bool_decide_eq_true ->]%fail_if_run & Hr). apply bind_ok_run in Hr as (u6 & w9 & [_ ->]%fail_if_run & Hr).
  apply bind_ok_run in Hr as (id & w9 & [Hid%string_of_ok ->]%lift_run & Hr). apply bind_ok_run in Hr as (fp & w9 & [Hnf%string_of_ok ->]%lift_run & Hr).
  apply bind_ok_run in Hr as (rec & w9 & [_ ->]%lift_run & Hr). apply bind_ok_run in Hr as (u7 & w9 & [= <-] & [= <- <-]).
  assert (drift w6 w8 ∧ mem w8 = mem w6 ∧ read_snapshot sha256_hex scope (disk w8) = Ok (Some old)) as (Hd8 & Hm8 & Hs8).
  { unfold read_lifecycle, access in Ho. destruct (fault (tick w6)); injection Ho as Hx <-; (split; [apply drift_access|done]). }
  assert (drift w w6) as Hdw by (etrans; [exact Hd5|exact Hd6]). assert (drift w w8) as Hdw8 by (etrans; [exact Hdw|exact Hd8]).
  subst w9. split; [unfold other_fields; cbn; by rewrite Hm8, Hm6, Hm5|]. eexists _, scope. split; [reflexivity|]. split; [|done]. split; cbn; [done..| |].
  - exists b. rewrite <-Htext. split; [symmetry; apply (recovery_drift_same _ _ Hdw); right; by left|]. split_and!; [done|by apply prop_string|done].
  - by rewrite <-Hs8, (same_snapshot _ _ _ (recovery_drift_same _ _ Hdw8)).
Qed.
Lemma replace_outcome context u r (w w' : W) : replace sha256_hex others fault context u w = (Ok r, w') →
  drift w w' ∧ other_fields (mem w) (mem w') ∧ ∃ p scope, prepared (mem w') = Some p ∧ prepares context p scope (disk w) ∧
    r = (newScope p, still_trusted (snapshot_list (oldState p))).
Proof.
  intros E. split; [by eapply drift_replace|]. unfold replace in E. apply bind_ok_run in E as (u1 & w1 & [_ ->]%fail_if_run & E).
  apply bind_ok_run in E as (r' & w2 & ([Hs Hr] & p & scope & Hp & Hprep & ->)%replaceIdentity_outcome & E).
  apply bind_ok_run in E as (u2 & w3 & [_ ->]%fail_if_run & E). apply bind_ok_run in E as (u3 & w4 & Ht & [= <- <-]).
  unfold resetContactTrust, get_mem in Ht. rewrite gets_bind, Hp in Ht. apply bind_ok_run in Ht as (u4 & w5 & [_ ->]%fail_if_run & [= Hw4]).
  subst w4. split; [done|]. eexists _, scope. split; [reflexivity|]. split; [|done]. by destruct Hprep.
Qed.
(** the identity of the account is replaced *)
Record replaced (rid fingerprint scope : string) (st : LifecycleStateSnapshot) (d d' : St) : Prop := {
  rp_state : ∃ fs, recovery_state (stored d) = Ok fs ∧ pending_id fs = Ok (JStr rid) ∧
    recovery_state (stored d') = Ok (set_key (without_pending fs) "completed" (JArr (elements_of (get fs "completed") ++ [JStr rid])));
  rp_account : ∃ text b, read d BINDING_TYPE "local" = Some text ∧ parse text = Some b ∧ oprop b "userScope" = JStr scope;
  rp_before : read_snapshot sha256_hex scope d = Ok (Some st);
  rp_revoked : ∃ st', read_snapshot sha256_hex scope d' = Ok (Some st') ∧ epoch (snapshot_list st') = epoch (snapshot_list st) + 1 ∧
    previousCommitment (snapshot_list st') = Some (commitment st) ∧ deviceId <$> devices (snapshot_list st') = deviceId <$> devices (snapshot_list st) ∧
    Forall (λ e, state e = revoked) (devices (snapshot_list st'));
  rp_begun : ∃ st' e, read_snapshot sha256_hex ("recovery-" +:+ rid) d' = Ok (Some st') ∧ devices (snapshot_list st') = [e] ∧ state e = active ∧
    publicIdentityReference e = fingerprint ∧ read d' BINDING_TYPE "local" = Some (stringify (JObj [("version", JNum (NInt 1));
      ("userScope", JStr ("recovery-" +:+ rid)); ("deviceId", JStr (deviceId e)); ("identityReference", JStr fingerprint)])) }.
Lemma swapped_replaced context p scope fs (w w' : W) : printed (stored (disk w)) → prepares context p scope (disk w) →
  recovery_state (stored (disk w)) = Ok fs → swapped_in p (p_replacementId p) (stored (disk w)) fs w w' →
  replaced (p_replacementId p) (p_newFingerprint p) scope (oldState p) (disk w) (disk w').
Proof.
  intros Hp [_ _ Hns (b & Hb & Hpb & Hus & _) Hold] Hr (now & r & n & oldId & newId & e1 & e2 & e3 & e4 & e5 & [_ _ Hpend Hl Ho Hn] & Hc).
  apply new_lists_ok in Hl as [(Hfr & Hir & He & Hpc & Hids & Hrev) (Hfn & Hin & _ & e & Hde & Hact & Hpub & Hdid)].
  assert (identityReference (snapshot_list (oldState p)) = scope) as <-.
  { unfold read_snapshot in Hold. apply bind_ok in Hold as (o & Hrec & [= Ho']). destruct o as [rec|]; [|done]. injection Ho' as <-.
    apply readRecord_inv in Hrec as [Hok _]. by apply ro_scope in Hok. }
  assert (Forall (λ u, recordType u ∈ recovery_types) (replacement_updates p (stored (disk w)) fs now r n oldId newId e1 e2 e3 e4 e5)) as Ht
    by (unfold replacement_updates, recovery_types; repeat apply Forall_cons_2; try apply Forall_nil_2; cbn; set_solver).
  pose proof (committed_all _ _ _ Ht Hc) as Hread. unfold replacement_updates in Hread. apply Forall_cons in Hread as [Hu1 Hread]. do 5 (apply Forall_cons in Hread as [? Hread]).
  pose proof (recovery_state_well _ _ Hp Hr) as Hw. split; [| |done| |].
  - exists fs. split_and!; [done..|]. unfold stored. etrans; [apply f_equal, Hu1|]. apply (recovery_state_written (set_key _ _ _)).
    pose proof (well_append (without_pending fs) "completed" (p_replacementId p) (well_deleted _ Hw)) as Hw'.
    unfold without_pending in Hw' |- *. rewrite get_delete_key in Hw' by done. auto.
  - by exists (bindingRaw p), b.
  - exists (lr_state r). split; [|done]. by eapply fresh_record_read.
  - exists (lr_state n), e. rewrite <-Hns. split; [by eapply fresh_record_read|]. split_and!; [done..|]. by rewrite Hdid.
Qed.
Lemma prepares_same context p scope d d' : same_records d d' → prepares context p scope d' → prepares context p scope d.
Proof.
  intros Hs [H1 H2 H3 (b & Hb & Hrest) H5]. split; [done..| |by rewrite <-(same_snapshot _ _ _ Hs)].
  exists b. split; [|done]. rewrite <-Hb. symmetry. apply Hs. right. by left.
Qed.
(** either nothing was changed and the call failed, or the identity is the new one *)
Definition all_or_nothing {A} (x : res A) (p : PreparedReplacement) (scope : string) (w w' : W) : Prop :=
  (same_records (disk w) (disk w') ∧ ∃ e, x = Err e) ∨ replaced (p_replacementId p) (p_newFingerprint p) scope (oldState p) (disk w) (disk w').
Lemma complete_replaces context p scope id (w w1 w' : W) x : printed (stored (disk w)) → prepares context p scope (disk w) → drift w w1 →
  prepared (mem w1) = Some p → complete id w1 = (x, w') → all_or_nothing x p scope w w'.
Proof.
  intros Hp Hprep Hd Hm [[Hd' Hx]|(p' & fs & wl & Hp' & Hl & Hr & Hs)]%complete_outcome.
  - left. split; [|done]. apply recovery_drift_same. etrans; [exact Hd|exact Hd'].
  - rewrite Hm in Hp'. injection Hp' as <-. right. assert (drift w wl) as Hwl by (etrans; [exact Hd|exact Hl]). rewrite (same_stored _ _ (recovery_drift_same _ _ Hwl)) in Hr, Hs.
    destruct Hs as (now & r & n & oldId & newId & e1 & e2 & e3 & e4 & e5 & Hrep & Hc). pose proof (r_id _ _ _ _ _ _ _ _ Hrep) as <-.
    apply (swapped_replaced context p scope fs _ _ Hp Hprep Hr). exists now, r, n, oldId, newId, e1, e2, e3, e4, e5. split; [done|]. eapply committed_drift_l; [exact Hwl|exact Hc].
Qed.
Lemma confirmReplacement_replaces context p scope (w w1 w' : W) x : printed (stored (disk w)) → prepares context p scope (disk w) → drift w w1 →
  prepared (mem w1) = Some p → confirmReplacement sha256_hex clock others fault w1 = (x, w') → all_or_nothing x p scope w w'.
Proof.
  intros Hp Hprep Hd Hm E. unfold confirmReplacement, get_mem in E. rewrite gets_bind in E.
  apply bind_cases in E as [(u & w2 & [_ ->]%fail_if_run & E)|(e & Hf & ->)]; [|injection Hf as _ <-; left; split; [by apply recovery_drift_same|by eexists]].
  apply bind_cases in E as [(c & w2 & [_ ->]%lift_run & E)|(e & Hf & ->)]; [|injection Hf as _ <-; left; split; [by apply recovery_drift_same|by eexists]].
  apply bind_cases in E as [(u2 & w2 & Hc & E)|(e & Hc & ->)]; [|by eapply complete_replaces].
  injection E as <- <-. right. by destruct (complete_replaces _ _ _ _ _ _ _ _ Hp Hprep Hd Hm Hc) as [[_ [e [=]]]|].
Qed.

(** C8: the identity of an account is replaced as a whole or not at all: if nobody else writes the records of the recovery while it is
    confirmed, then a call of confirm either fails and leaves them all as they were, or, whatever it reports, the old device list now has
    every one of its devices revoked, in the next epoch and linked to the list before, a new list begins with one active device of
    the new fingerprint, the account is bound to it, the replacement is recorded as completed and no longer pending, and the device
    lifecycle reads both lists. A call that returns names the new scope and exactly the devices that were not revoked before. *)
Theorem replacement_is_all_or_nothing u (w w' : W) x : printed (stored (disk w)) → confirm u w = (x, w') →
  (same_records (disk w) (disk w') ∧ ∃ e, x = Err e) ∨
  ∃ rid fingerprint scope st, replaced rid fingerprint scope st (disk w) (disk w') ∧
    ∀ r, x = Ok r → r = ("recovery-" +:+ rid, still_trusted (snapshot_list st)).
Proof.
  intros Hp E. assert (drift w w) as Hd by done.
  enough (gave_up w w' x ∨ ∃ p scope, all_or_nothing x p scope w w' ∧ ∀ r, x = Ok r → r = ("recovery-" +:+ p_replacementId p, still_trusted (snapshot_list (oldState p)))) as Hg.
  { destruct Hg as [[Hd' Hx]|(p & scope & [Hn|Hr] & Hres)]; [left; split; [by apply recovery_drift_same|done]|by left|right; by eexists _, _, scope, _]. }
  unfold Recovery.confirm in E. quietly E Hd as (staged_ & w1 & [= <- <-] & _ & E).
  apply recovery_quiet_step with (w0 := w) in E as [E|(context & w2 & _ & Hd2 & E)]; [by left| |destruct (stagedContext _); auto with k3|done].
  quietly E Hd2 as (s & w3 & [= _ <-] & _ & E). quietly E Hd2 as (u1 & w3 & [_ ->]%fail_if_run & _ & E).
  apply bind_cases in E as [(r & w3 & Hr & E)|(e & Hr%drift_replace & ->)]; [|left; split; [etrans; [exact Hd2|exact Hr]|by eexists]].
  apply replace_outcome in Hr as (Hd3 & _ & p & scope & Hm & Hprep & ->). apply (prepares_same _ _ _ _ _ (recovery_drift_same _ _ Hd2)) in Hprep.
  assert (drift w w3) as Hw3 by (etrans; [exact Hd2|exact Hd3]). right. exists p, scope. pose proof (pr_scope _ _ _ _ Hprep) as Hns.
  enough (∀ y w4, match stagedContext (mem w) with
      | Some _ => confirmReplacement sha256_hex clock others fault
      | None => id ← lift (string_of (oprop context "replacementId")); complete id end w3 = (y, w4) → all_or_nothing y p scope w w4) as Hall.
  { apply bind_cases in E as [(u2 & w4 & [[_ [e [=]]]|Hc]%Hall & [= <- <-])|(e & Hc%Hall & ->)].
    - split; [by right|]. intros r [= <-]. by rewrite Hns.
    - split; [|done]. destruct Hc as [[? _]|?]; [left; split; [done|by eexists]|by right]. }
  clear E. intros y w4 E. destruct (stagedContext (mem w)); [by eapply confirmReplacement_replaces|].
  apply bind_cases in E as [(id & w5 & [_ ->]%lift_run & E)|(e & Hf & ->)]; [by eapply complete_replaces|].
  injection Hf as _ <-. left. split; [by apply recovery_drift_same|by eexists].
Qed.
End alone.
End safety.

(** ** Runs *)
Module Example.
Definition scope : string := "account-1".
Definition before (i : Z) (ids : list string) : DeviceList :=
  {| identityReference := scope; epoch := i; previousCommitment := if i =? 3 then None else Some sample_digest; devices := sample_entry <$> ids |}.
Definition binding_text : string := stringify (JObj [("version", JNum (NInt 1)); ("userScope", JStr scope); ("deviceId", JStr "a"); ("identityReference", JStr "old")]).
Definition disk0 : memory := write BINDING_TYPE "local" binding_text (write_state scope None None (only_epoch (before 3 ["a"; "b"]) sample_digest) (∅ : memory)).2.
Definition the_manifest (id : string) : RecoveryArchiveManifest := {| rm_version := 1; archiveId := id; sourceScope := scope; sourceEpoch := 3;
  sourceCommitment := sample_digest; rm_createdAt := 1; rm_expiresAt := None; included := ["contacts"] |}.
Definition secret : list ascii := replicate 16 "s"%char.
Definition archive (id : string) : RecoveryArchive :=
  match seal sample_hash (λ s _, s) (λ _ _ _ p, p) (replicate 16 "0"%char) (replicate 12 "0"%char) (the_manifest id) (replicate 16 "p"%char) secret with
  | Ok a => a | Err _ => {| manifest := the_manifest id; ra_ciphertext := []; integrity := "" |} end.
Definition context : RecoveryReplacementContext := {| oldFingerprint := "old"; newFingerprint := "new"; replacementId := "r1" |}.
Definition clock (n : nat) : Z := 1000 + Z.of_nat n.
Definition served (n : nat) : Io := io_done.
Definition nobody (n : nat) (d : memory) : memory := d.
Definition world0 : World memory Recovery := {| disk := disk0; tick := 0; mem := new_runtime |}.
Notation stage_with o id := (stage sample_hash (λ s _, s) (λ _ _ _ c, Some c) clock o served (archive id) secret context true).
Notation confirm_with o := (confirm sample_hash clock o served true).
Definition staged_world : World memory Recovery := (stage_with nobody "archive-1" world0).2.
Definition confirmed_world : World memory Recovery := (confirm_with nobody (reloaded staged_world)).2.
Lemma staged_ok : stage_with nobody "archive-1" world0 = (Ok tt, staged_world).
Proof. unfold staged_world. apply run_result. vm_compute. reflexivity. Qed.
Lemma confirmed_ok : confirm_with nobody (reloaded staged_world) = (Ok ("recovery-r1", ["a"; "b"]), confirmed_world).
Proof. unfold confirmed_world. apply run_result. vm_compute. reflexivity. Qed.
Lemma nobody_keeps n d : keeps d (nobody n d).
Proof. reflexivity. Qed.
Lemma nothing_stored : printed (stored (disk world0)).
Proof. assert (stored (disk world0) = None) as E by (vm_compute; reflexivity). intros text. rewrite E. discriminate. Qed.
Definition waiting_now (d : memory) : bool :=
  match recovery_state (stored d) with Ok fs => truthy (get fs "pending") | Err _ => false end.
Lemma staged_waits : waiting (disk staged_world).
Proof.
  assert (waiting_now (disk staged_world) = true) as E by (vm_compute; reflexivity). unfold waiting_now in E. unfold waiting.
  destruct (recovery_state _) as [fs|]; [by exists fs|discriminate].
Qed.
Lemma staged_printed : printed (stored (disk (reloaded staged_world))).
Proof.
  assert (printed (stored (disk staged_world)) ) as Hp; [|exact Hp].
  destruct (kept_stage sample_hash (λ s _, s) (λ _ _ _ c, Some c) clock nobody served nobody_keeps (archive "archive-1") secret context true
    world0 _ staged_world staged_ok nothing_stored) as [Hp _]. exact Hp.
Qed.
(** Another tab enrolls two devices between the reading of the old list and the completion. *)
Definition enrolled (i : Z) (ids : list string) : CommitInput :=
  {| Lifecycle.scope := scope; expectedEpoch := i; in_previousCommitment := sample_digest; nextList := before (i + 1) ids; nextCommitment := sample_digest;
     authorization := {| rec_operation := enroll; rec_transactionNonce := "0123456789abcde" +:+ N_str (Z.to_N i); rec_authorDeviceId := "a";
                         rec_sequence := i + 1; rec_digest := sample_digest; rec_expiresAt := 9 |} |}.
Definition meddle (n : nat) (d : memory) : memory :=
  if (n =? 9)%nat then (commit_ sample_hash (enrolled 4 ["a"; "b"; "c"; "d"]) (commit_ sample_hash (enrolled 3 ["a"; "b"; "c"]) d).2).2 else d.
Definition meddled : memory := meddle 9 (disk (reloaded staged_world)).
Definition confirmed_stale : res (string * list string) * World memory Recovery := confirm_with meddle (reloaded staged_world).
(** The transaction expects the records as they are, but writes the list it prepared from the earlier ones: the call succeeds, the
    high-water mark of the account goes back from epoch 5 to epoch 4, and the devices enrolled meanwhile are not revoked but gone. *)
Lemma stale_replacement_rolls_the_list_back :
  (readHighwater sample_hash scope meddled, is_ok confirmed_stale.1, readHighwater sample_hash scope (disk confirmed_stale.2),
   deviceId <$> match read_snapshot sample_hash scope (disk confirmed_stale.2) with Ok (Some st) => devices (snapshot_list st) | _ => [] end) =
  (Ok (Some {| hw_epoch := 5; hw_commitment := sample_digest |}), true, Ok (Some {| hw_epoch := 4; hw_commitment := sample_digest |}), ["a"; "b"]).
Proof. vm_compute. reflexivity. Qed.
End Example.

Lemma archive_begins_one_replacement_witness :
  (stage sample_hash (λ s _, s) (λ _ _ _ c, Some c) Example.clock Example.nobody Example.served (Example.archive "archive-1") Example.secret Example.context true
    (reloaded Example.staged_world)).1 ≠ Ok tt.
Proof.
  refine (archive_begins_one_replacement sample_hash (λ s _, s) (λ _ _ _ c, Some c) Example.clock Example.nobody Example.served Example.nobody_keeps
    (Example.archive "archive-1") Example.secret Example.context true (Example.archive "archive-1") Example.secret Example.context true
    Example.world0 Example.staged_world (reloaded Example.staged_world) Example.nothing_stored Example.staged_ok _ eq_refl).
  apply rtc_once. apply reloads.
Defined.
Lemma reloaded_replacement_cannot_be_rejected_witness :
  ∃ e, reject Example.nobody Example.served true (reloaded Example.staged_world) = (Err e, reloaded Example.staged_world).
Proof.
  destruct (reloaded_replacement_cannot_be_rejected sample_hash (λ s _, s) (λ _ _ _ c, Some c) Example.clock Example.nobody Example.served
    Example.staged_world (reloaded Example.staged_world)) as (_ & Hr & _).
  - intros n d Hd. exact Hd.
  - exact Example.staged_waits.
  - apply rtc_refl.
  - exact (Hr true).
Defined.
Lemma replacement_is_all_or_nothing_witness : ∃ rid fingerprint scope st,
  replaced sample_hash rid fingerprint scope st (disk (reloaded Example.staged_world)) (disk Example.confirmed_world) ∧
  ("recovery-r1", ["a"; "b"]) = ("recovery-" +:+ rid, still_trusted (snapshot_list st)).
Proof.
  destruct (replacement_is_all_or_nothing sample_hash Example.clock Example.nobody Example.served (λ n d t i _, eq_refl) true
    (reloaded Example.staged_world) Example.confirmed_world _ Example.staged_printed Example.confirmed_ok) as [[_ [e He]]|(rid & f & sc & st & Hr & Hx)].
  - discriminate He.
  - exists rid, f, sc, st. split; [exact Hr|exact (Hx _ eq_refl)].
Defined.
